(* ===== verification/_CoqProject ===== *)
-Q . S2P
Prelude.v
Core.v
Manifest.v
WorkerTypes.v
Scheduler.v
DiskBudget.v
Health.v
Database.v
EventLog.v
CleanupStore.v
WorkerStore.v
ExecutionStore.v
Controls.v
Reservations.v
Steps.v
AuthorityOrder.v
ExecutionHistory.v
ControlHistory.v
Capacity.v
EventHistory.v
Attempts.v
Lifecycle.v
Probe.v
WorkerTask.v
WorkerRun.v
Worker.v
WorkerSafety.v
WorkerEvidence.v
WorkerAdoption.v
WorkerTick.v
Effects.v
StorageModel.v
FileSystem.v
Pinned.v
MetadataStore.v
RecordAtomicity.v
StorageCodec.v
RecordUpdates.v
StorageManager.v
StorageWorld.v
StorageSafety.v
StorageRelease.v
StorageAllocate.v
ResourceRecord.v
Sha256.v
Artifacts.v
ArtifactSafety.v
ApiAuth.v
ApiIds.v
Api.v
ApiSafety.v
ApiStream.v
ApiCreate.v
BuildCache.v
PiHarness.v
PiEvents.v
PiRedaction.v
PiPolling.v
PiReplay.v
LvmBackend.v
LvmHost.v
LvmRefines.v
Docker.v
DockerMounts.v
DockerProvision.v
DockerCleanup.v
DockerWorld.v
DockerDestroy.v
DockerConfined.v
GitManager.v
GitCreate.v
GitCleanup.v
GitDiff.v
GitWorld.v
GitDestroy.v
GitExclusive.v
System.v
SystemCleanup.v
Credentials.v
WorkerMain.v
