(* ===== verification/Prelude.v ===== *)
(** * Verification of the AutoSpec execution plane

    The repository is the execution plane of AutoSpec: a controller that keeps
    executions, workers, reservations and their history in PostgreSQL and serves
    them over HTTP, and workers that claim an execution, run an agent on it in a
    container and clean up after it.  This library models the Rust code of
    [src/crates] as Rocq functions and proves what makes it correct.  Paths
    below are relative to [src/crates].

    ** The parts and how they interact

    - [orchestrator-core]: the types, the state machine of an execution, the
      validation of manifests.
    - [orchestrator-scheduler]: which worker may take an execution.
    - [orchestrator-persistence]: the stores, each operation a transaction on the
      database, and the artifact store.  Controllers and workers share them and
      interleave.
    - [orchestrator-api]: the HTTP handlers, programs over the stores.
    - [orchestrator-worker]: the run of an attempt, its watchdog and controls, the
      teardown in the order the cleanup authority records, the recovery of what a
      crash left behind, programs over the stores and the lifecycle interface;
      and the lifecycle of a real host, which drives the next four.
    - [execution-storage]: one volume per execution, with a journal that survives
      crashes, on records written atomically through directory descriptors, over
      a backend of logical volumes.
    - [git-worktree]: a mirror of each repository and an independent clone per
      execution, on one branch each.
    - [runtime-docker]: network, services, relay and agent container of an
      execution, and its inference credential.
    - [harness-pi]: the agent's session on the volume: what it may run on, the
      events it reports, what of its output is kept.
    - [autospec-worker]: the daemon: flags, preparation, disk budget and the
      control loop that registers with the controller and claims executions.

    ** Files

    Shared:
    - [Prelude.v]: results, a state and error monad, machine integers, Rust's
      string functions on UTF-8 bytes, ordering, automation.
    - [Effects.v]: programs as trees of calls ([proc], [io]), their runs under
      crashes and interference ([exec]), a crash Hoare logic ([chl]), and the
      embedding of one program's calls into another's.

    Data and policies:
    - [Core.v] ([orchestrator-core/src/execution.rs], [event.rs], [labels.rs],
      [ids.rs], [error.rs], the types of [manifest.rs]), [Manifest.v]
      ([manifest.rs], [environment.rs]), [WorkerTypes.v] ([worker.rs]),
      [ResourceRecord.v] ([resource_record.rs]).
    - [Scheduler.v] ([orchestrator-scheduler/src/lib.rs]), [DiskBudget.v]
      ([autospec-worker/src/disk_budget.rs]), [Health.v]
      ([orchestrator-worker/src/health.rs] and the sample throttle of [run.rs]).

    Stores ([orchestrator-persistence/src]): a [Database] of finite maps, an
    operation [Op A] a function of it, a transaction one that leaves it alone
    when it fails.
    - [Database.v] (the schema, [error.rs]), [EventLog.v] ([event_log.rs]),
      [CleanupStore.v] ([cleanup.rs]), [WorkerStore.v] ([workers.rs]),
      [ExecutionStore.v] and [Controls.v] ([lib.rs]), [Reservations.v]
      ([reservations.rs]).
    - [Steps.v]: one step is any operation at any arguments; [reachable] is any
      interleaving from the empty database, and a run of it is computed.
    - [AuthorityOrder.v], [ExecutionHistory.v], [ControlHistory.v],
      [Capacity.v], [EventHistory.v], [Attempts.v]: the invariants of histories,
      by induction on steps.
    - [Sha256.v], [Artifacts.v], [ArtifactSafety.v] ([artifacts.rs]): the digest,
      the store as programs over files and rows, and its theorems among other
      controllers.

    Worker ([orchestrator-worker/src]):
    - [Lifecycle.v]: the resources and the lifecycle interface, a class whose
      answers are arbitrary; [WorkerTask.v]: programs over stores and lifecycle,
      with panics, cancellation and interference; [WorkerRun.v] ([run.rs]),
      [Worker.v] ([lib.rs], [cleanup_guard.rs]); [WorkerSafety.v],
      [WorkerEvidence.v], [WorkerAdoption.v], [WorkerTick.v]: a program logic for
      them and the theorems.
    - [Probe.v], [System.v] ([system.rs]): the lifecycle interface implemented by
      the programs of storage, repositories, Docker and harness;
      [SystemCleanup.v]: its cleanup on the worlds of all of them at once.

    Execution storage ([execution-storage/src]):
    - [StorageModel.v] ([model.rs]), [FileSystem.v] (system calls, with what a
      power loss may keep of unsynced data and directory entries), [Pinned.v] and
      [MetadataStore.v] ([journal.rs]), [StorageManager.v] ([manager.rs]).
    - [RecordAtomicity.v], [RecordUpdates.v]: the record store against a map of
      records; [StorageCodec.v]: a codec and a file system to compute with.
    - [StorageWorld.v]: the world the manager acts on, with a journal store that
      behaves as [RecordUpdates.v] shows; [StorageSafety.v], [StorageRelease.v],
      [StorageAllocate.v]: its theorems.
    - [LvmBackend.v] ([lvm.rs], [command.rs]): the backend as programs over
      command lines; [LvmHost.v]: what the LVM and mount tools do;
      [LvmRefines.v]: the backend keeps the contract of [StorageWorld.v].

    Repositories ([git-worktree/src]):
    - [GitManager.v], [GitCreate.v] ([manager.rs]), [GitCleanup.v]
      ([cleanup.rs]), [GitDiff.v] ([diff.rs]); [GitWorld.v]: the host they act
      on; [GitDestroy.v], [GitExclusive.v]: the theorems.

    Docker ([runtime-docker/src]; [BuildCache.v]: the ownership question of the
    shared cache, [runtime-traits/src/lib.rs]):
    - [Docker.v] ([lib.rs], [limits.rs]), [DockerMounts.v], [DockerProvision.v]
      ([provision.rs], [services.rs]), [DockerCleanup.v] ([cleanup.rs], and
      provisioning as a whole); [DockerWorld.v]: the daemon; [DockerDestroy.v]:
      one that answers; [DockerConfined.v]: the theorem.
    - [Credentials.v] ([credentials.rs]).

    Pi harness ([harness-pi/src]):
    - [PiHarness.v] ([lib.rs], [version.rs], the file helpers of [session.rs]),
      [PiEvents.v] ([events.rs]), [PiRedaction.v] (the copy of the agent's output
      in [session.rs], its theorem).
    - [PiPolling.v]: the specification of the event stream, one pass over the
      records, the world of a session and a logic for the harness's calls;
      [PiReplay.v]: the theorem, with a host to compute on.

    Controller API ([orchestrator-api/src]) and daemon ([autospec-worker/src]):
    - [ApiAuth.v] ([auth.rs], [error.rs], [state.rs], the configuration of
      [lib.rs]), [ApiIds.v] (ids of new executions), [Api.v] (the handlers of
      [executions.rs], [workers.rs], [operations.rs], [interactive.rs],
      [artifacts.rs] and the router), [ApiStream.v] ([events.rs]), [ApiSafety.v], [ApiCreate.v].
    - [WorkerMain.v] ([main.rs]).

    ** What the theorems show

    - Stores: capacity is accounted for exactly and never overcommitted; a
      pending cancellation wins; the teardown of an attempt goes through its
      phases in order; rows keep their identity, versions count writes, terminal
      states are final; histories are gapless and append-only; a lost worker's
      attempt is fenced; controls apply once; creation is idempotent; pages tile.
    - Artifacts: the code's SHA-256 is the function of FIPS 180-4; every row
      names a blob that is there, read-only, with its digest and size, and
      [store] keeps it so among other controllers, failed writes and crashes.
    - Policies: placement, validation, the watchdog, the disk budget and the
      limits of a container decide exactly by their documented conditions.
    - Worker: resources are created and destroyed only under the phase on record
      that covers them, in every run with crashes and interference; a recovery
      that succeeds settles the attempt; a result has the evidence it names; a
      tick tells every cancelled task to stop.
    - Host: a cleanup interrupted at any point and tried again never has a phase
      on record whose resources are still there, and touches nothing of another
      execution; durable handles decode to what was encoded.
    - Daemon: whatever it is answered, it claims and advertises only what its
      preparation and the controller allow.
    - Storage: the record stores refine a map with atomic durable updates; no
      volume is ever without a journal; an allocation that succeeds establishes
      Ready; a release that is retried is finished, unless its volume has been
      stranded; the LVM backend does what the manager relies on.
    - Repositories: no branch is claimed by two executions; a removal, wherever
      it is cut short, touches its own repository only and can be resumed.
    - Docker: provisioning creates only what carries the execution's labels,
      starts only what it verified, and takes back what it made when it fails;
      a minted credential is bound once and revoking removes only it.
    - API: a worker's token reaches that worker only; a subscriber sees every
      event once and in order, without waiting for one that is there; asking
      twice creates once; allocated ids are safe names; the controller moves the
      database by operations of the stores.
    - Pi: what the polls of a session deliver is one pass over its records, under
      failing calls and killed polls, and keeps to the protocol of starts, reviews
      and failures; the model credential never reaches the files that keep the
      agent's output.
    - Defects: an adopted attempt past its start is refused ([adoption_refused]);
      a requeued execution cannot begin a second attempt
      ([requeued_attempt_cannot_begin]); a mountpoint without a journal blocks its
      execution ([stranded_mountpoint_blocks]); a removal that lost its metadata
      between two steps blocks its execution ([interrupted_destroy_blocks]); under
      Linux no logical volume ever becomes Ready ([linux_lvm_never_ready]); a
      Ready volume that a restart unmounted, or one that lost its mountpoint to a
      release cut short, is never released ([release_finishes]); a daemon whose
      registration the controller forgot does not register again while it is left
      alone ([forgotten_worker_stays_silent]).

    ** Bounds and fuel

    Integers are [Z] with the width written out at every operation that can leave
    it; floating point numbers are the IEEE doubles of the Standard Library.  The
    event loop of an attempt, the teardown loop, the stream loop and the daemon's
    control loop take fuel because the code waits in them; their safety theorems
    hold at every fuel, and [next_event_delivers] gives the fuel the stream needs.
    Loops over data take fuel by its length ([strip], [words],
    [trim_end_matches]: one step per character; [radix_go]: one per bit, at least
    one per digit; claiming: one per free slot; the zeros of SHA-256: one block).
    The retries of temporary names (32) and of execution ids (10000) are the
    code's own.  [redact_bytes] takes the number of substitutions; as many as the
    line has bytes are enough for a credential longer than its replacement.  The
    counters of [PiEvents.v] stay below the length of a file.

    ** Not modelled

    PostgreSQL's isolation is taken as serial transactions, with row locks that
    another transaction holds as an argument where the code skips locked rows.
    Text collation is a class ([Collation]).  serde, chrono, axum, clap, bollard
    and the operating system are parameters or calls, with the behaviour the code
    relies on.  Logging and tracing have no effect here.
    The APFS backend drives macOS's [diskutil] behind the interface the LVM
    backend implements.  The processes of the agent (launching, supervision,
    resuming, reaping: [harness-pi/src/session.rs], [resume.rs]) are calls with
    arbitrary answers, as are the podman and apptainer runtimes, which only
    detect a program.  [telemetry.rs] and [resilience_contracts.rs] of
    [orchestrator-core] project data for operators.  [recovery.rs] of
    [orchestrator-worker] holds an enumeration and tests. *)

From stdpp Require Export prelude gmap strings pretty list sorting.
From Stdlib Require Import Ascii.
From Stdlib Require String.

#[global] Open Scope Z_scope.

(** ** Results

    Rust's [Result<A, E>], with the error type first so that [result E] is a
    monad. *)

Inductive result (E A : Type) : Type :=
| Ok (a : A)
| Err (e : E).
Arguments Ok {E A} a.
Arguments Err {E A} e.

#[export] Instance result_eq_dec `{EqDecision E, EqDecision A} :
  EqDecision (result E A).
Proof. solve_decision. Defined.

#[export] Instance result_ret {E} : MRet (result E) := fun A a => Ok a.
#[export] Instance result_bind {E} : MBind (result E) := fun A B f m =>
  match m with Ok a => f a | Err e => Err e end.
#[export] Instance result_fmap {E} : FMap (result E) := fun A B f m =>
  match m with Ok a => Ok (f a) | Err e => Err e end.

Definition is_ok {E A} (r : result E A) : bool :=
  match r with Ok _ => true | Err _ => false end.

(** [Result::map_err]. *)
Definition map_err {E F A} (f : E -> F) (r : result E A) : result F A :=
  match r with Ok a => Ok a | Err e => Err (f e) end.

(** [Option::ok_or]. *)
Definition ok_or {E A} (o : option A) (e : E) : result E A :=
  match o with Some a => Ok a | None => Err e end.

(** [if !b { return Err(e) }]. *)
Definition check {E} (b : bool) (e : E) : result E unit :=
  if b then Ok tt else Err e.

Lemma result_bind_Ok {E A B} (m : result E A) (f : A -> result E B) b :
  m ≫= f = Ok b <-> exists a, m = Ok a /\ f a = Ok b.
Proof. destruct m; naive_solver. Qed.

Lemma map_err_Ok {E F A} (f : E -> F) (r : result E A) a : map_err f r = Ok a <-> r = Ok a.
Proof. destruct r; simpl; naive_solver. Qed.

Lemma check_Ok {E} (b : bool) (e : E) u : check b e = Ok u <-> b = true.
Proof. destruct b, u; naive_solver. Qed.

Lemma check_bind_Ok {E B} (b : bool) (e : E) (f : unit -> result E B) r :
  check b e ≫= f = Ok r <-> b = true /\ f tt = Ok r.
Proof. destruct b; naive_solver. Qed.

Lemma ok_or_Ok {E A} (o : option A) (e : E) a : ok_or o e = Ok a <-> o = Some a.
Proof. destruct o; naive_solver. Qed.

(** ** State and error monad

    A computation reads and replaces a state [S] and may fail with [E].  A
    failing computation returns no state: the caller decides what a failure
    leaves behind (a database transaction rolls back). *)

Definition stm (S E A : Type) : Type := S -> result E (A * S).

Section Stm.
Context {S E : Type}.

#[export] Instance stm_ret : MRet (stm S E) := fun A a s => Ok (a, s).
#[export] Instance stm_bind : MBind (stm S E) := fun A B f m s =>
  match m s with Ok (a, s') => f a s' | Err e => Err e end.

Definition fail {A} (e : E) : stm S E A := fun _ => Err e.
Definition gets {A} (f : S -> A) : stm S E A := fun s => Ok (f s, s).
Definition modify (f : S -> S) : stm S E unit := fun s => Ok (tt, f s).
Definition lift {A} (r : result E A) : stm S E A := fun s =>
  match r with Ok a => Ok (a, s) | Err e => Err e end.
Definition ensure (b : bool) (e : E) : stm S E unit := lift (check b e).
Definition require {A} (o : option A) (e : E) : stm S E A := lift (ok_or o e).
Definition when (b : bool) (m : stm S E unit) : stm S E unit :=
  if b then m else mret tt.

(** A loop over a list that stops at the first error. *)
Fixpoint for_each {A} (f : A -> stm S E unit) (l : list A) : stm S E unit :=
  match l with
  | [] => mret tt
  | x :: l => _ ← f x; for_each f l
  end.

Lemma bind_Ok {A B} (m : stm S E A) (f : A -> stm S E B) s r :
  (m ≫= f) s = Ok r <-> exists a s', m s = Ok (a, s') /\ f a s' = Ok r.
Proof.
  unfold mbind, stm_bind. destruct (m s) as [[a s']|e]; naive_solver.
Qed.

Lemma mret_Ok {A} (a b : A) s s' :
  (mret a : stm S E A) s = Ok (b, s') <-> b = a /\ s' = s.
Proof. unfold mret, stm_ret. naive_solver. Qed.

Lemma gets_Ok {A} (f : S -> A) s b s' :
  gets f s = Ok (b, s') <-> b = f s /\ s' = s.
Proof. unfold gets. naive_solver. Qed.

Lemma modify_Ok f s u s' : modify f s = Ok (u, s') <-> s' = f s.
Proof. unfold modify. destruct u; naive_solver. Qed.

Lemma lift_Ok {A} (r : result E A) s a s' :
  lift r s = Ok (a, s') <-> r = Ok a /\ s' = s.
Proof. unfold lift. destruct r; naive_solver. Qed.

Lemma ensure_Ok b e s u s' : ensure b e s = Ok (u, s') <-> b = true /\ s' = s.
Proof. unfold ensure. rewrite lift_Ok, check_Ok. done. Qed.

Lemma require_Ok {A} (o : option A) e s a s' :
  require o e s = Ok (a, s') <-> o = Some a /\ s' = s.
Proof. unfold require. rewrite lift_Ok, ok_or_Ok. done. Qed.

Lemma when_Ok b m s u s' :
  when b m s = Ok (u, s') <->
  (b = true /\ m s = Ok (u, s')) \/ (b = false /\ s' = s).
Proof. unfold when, mret, stm_ret. destruct b, u; naive_solver. Qed.
End Stm.

(** [stm_inv] takes every hypothesis that says a monadic program returned
    [Ok] apart into the facts about its steps. *)
Ltac stm_inv_step :=
  match goal with
  | H : (_ ≫= _) _ = Ok _ |- _ =>
      apply bind_Ok in H; destruct H as (? & ? & ? & H)
  | H : (mret _) _ = Ok _ |- _ => apply mret_Ok in H; destruct H as [? ?]
  | H : gets _ _ = Ok _ |- _ => apply gets_Ok in H; destruct H as [? ?]
  | H : modify _ _ = Ok _ |- _ => apply modify_Ok in H
  | H : ensure _ _ _ = Ok _ |- _ => apply ensure_Ok in H; destruct H as [? ?]
  | H : require _ _ _ = Ok _ |- _ => apply require_Ok in H; destruct H as [? ?]
  | H : lift _ _ = Ok _ |- _ => apply lift_Ok in H; destruct H as [? ?]
  | H : fail _ _ = Ok _ |- _ => discriminate H
  | H : Err _ = Ok _ |- _ => discriminate H
  | H : Ok _ = Ok _ |- _ => injection H as H
  | H : (_, _) = (_, _) |- _ => injection H as H
  | H : context [match ?x with (_, _) => _ end] |- _ => is_var x; destruct x
  | u : unit |- _ => destruct u
  end.
Ltac stm_inv := repeat (stm_inv_step; subst; simpl in *).

(** ** Machine integers

    A [w]-bit Rust integer is a [Z]; the operations the code uses write the
    width out. *)

Definition u8_max : Z := 2 ^ 8 - 1.
Definition u32_max : Z := 2 ^ 32 - 1.
Definition u64_max : Z := 2 ^ 64 - 1.
Definition i32_max : Z := 2 ^ 31 - 1.
Definition i64_max : Z := 2 ^ 63 - 1.

(** [a.saturating_sub(b)] on an unsigned type. *)
Definition saturating_sub (a b : Z) : Z := if a <? b then 0 else a - b.

(** [a.saturating_mul(b)] at [u64]. *)
Definition saturating_mul_u64 (a b : Z) : Z := Z.min (a * b) u64_max.

(** [a.checked_mul(b)] at [u64]. *)
Definition checked_mul_u64 (a b : Z) : option Z :=
  if a * b <=? u64_max then Some (a * b) else None.

(** [T::try_from(z)] for a type with values [lo..=hi]. *)
Definition try_from (lo hi z : Z) : option Z :=
  if (lo <=? z) && (z <=? hi) then Some z else None.

Lemma saturating_sub_spec a b : 0 <= a -> 0 <= b ->
  saturating_sub a b = Z.max 0 (a - b).
Proof. unfold saturating_sub. destruct (Z.ltb_spec a b); lia. Qed.

Lemma saturating_sub_le a b c : 0 < c ->
  c <= saturating_sub a b -> b + c <= a.
Proof. unfold saturating_sub. destruct (Z.ltb_spec a b); lia. Qed.

Lemma saturating_sub_le_iff a b c : 0 < c ->
  c <= saturating_sub a b <-> b + c <= a.
Proof. unfold saturating_sub. destruct (Z.ltb_spec a b); lia. Qed.

Lemma try_from_Some lo hi z v :
  try_from lo hi z = Some v <-> v = z /\ lo <= z <= hi.
Proof.
  unfold try_from. destruct (Z.leb_spec lo z), (Z.leb_spec z hi); simpl;
    naive_solver lia.
Qed.

(** ** Strings

    A Rust [str] is its UTF-8 bytes, here a [string] whose characters are
    bytes. *)

Abbreviation byte_code := (fun c : ascii => N_of_ascii c).

Definition is_ascii_lowercase (c : ascii) : bool :=
  (97 <=? byte_code c)%N && (byte_code c <=? 122)%N.
Definition is_ascii_uppercase (c : ascii) : bool :=
  (65 <=? byte_code c)%N && (byte_code c <=? 90)%N.
Definition is_ascii_digit (c : ascii) : bool :=
  (48 <=? byte_code c)%N && (byte_code c <=? 57)%N.

Definition is_ascii_alphanumeric (c : ascii) : bool :=
  is_ascii_lowercase c || is_ascii_uppercase c || is_ascii_digit c.

Definition to_ascii_lowercase_char (c : ascii) : ascii :=
  if is_ascii_uppercase c then ascii_of_N (byte_code c + 32) else c.

Fixpoint string_map (f : ascii -> ascii) (s : string) : string :=
  match s with
  | EmptyString => EmptyString
  | String c s => String (f c) (string_map f s)
  end.

Fixpoint string_forallb (p : ascii -> bool) (s : string) : bool :=
  match s with
  | EmptyString => true
  | String c s => p c && string_forallb p s
  end.

Definition string_existsb (p : ascii -> bool) (s : string) : bool :=
  negb (string_forallb (fun c => negb (p c)) s).

Definition str_is_empty (s : string) : bool :=
  match s with EmptyString => true | _ => false end.

(** [str::to_ascii_lowercase]. *)
Definition to_ascii_lowercase (s : string) : string :=
  string_map to_ascii_lowercase_char s.

(** [str::eq_ignore_ascii_case]. *)
Definition eq_ignore_ascii_case (a b : string) : bool :=
  bool_decide (to_ascii_lowercase a = to_ascii_lowercase b).

(** [str::starts_with(&str)] and [str::contains(&str)]. *)
Fixpoint starts_with (p s : string) : bool :=
  match p, s with
  | EmptyString, _ => true
  | String a p, String b s => bool_decide (a = b) && starts_with p s
  | String _ _, EmptyString => false
  end.

Fixpoint contains (p s : string) : bool :=
  starts_with p s ||
  match s with EmptyString => false | String _ s => contains p s end.

(** [str::strip_prefix] and [str::strip_suffix]. *)
Fixpoint strip_prefix (p s : string) : option string :=
  match p, s with
  | EmptyString, _ => Some s
  | String a p, String b s => if bool_decide (a = b) then strip_prefix p s else None
  | String _ _, EmptyString => None
  end.

Fixpoint strip_suffix (p s : string) : option string :=
  if bool_decide (p = s) then Some EmptyString
  else match s with
       | EmptyString => None
       | String c s => match strip_suffix p s with
                       | Some r => Some (String c r)
                       | None => None
                       end
       end.

(** [str::split_once(char)]: the text before and after the first [d]. *)
Fixpoint split_once (d : ascii) (s : string) : option (string * string) :=
  match s with
  | EmptyString => None
  | String c s =>
      if bool_decide (c = d) then Some (EmptyString, s)
      else match split_once d s with
           | Some (a, b) => Some (String c a, b)
           | None => None
           end
  end.

(** [str::rsplit_once(char)]: the text before and after the last [d]. *)
Fixpoint rsplit_once (d : ascii) (s : string) : option (string * string) :=
  match s with
  | EmptyString => None
  | String c s =>
      match rsplit_once d s with
      | Some (a, b) => Some (String c a, b)
      | None => if bool_decide (c = d) then Some (EmptyString, s) else None
      end
  end.

(** [str::split(char)], all pieces; never the empty list. *)
Fixpoint split (d : ascii) (s : string) : list string :=
  match s with
  | EmptyString => [EmptyString]
  | String c s =>
      if bool_decide (c = d) then EmptyString :: split d s
      else match split d s with
           | p :: ps => String c p :: ps
           | [] => [String c EmptyString]
           end
  end.

(** [str::lines]: the pieces between newlines, less a carriage return before
    the newline and an empty last piece. *)
Fixpoint lines_of (pieces : list string) : list string :=
  match pieces with
  | [] => []
  | [last] => if str_is_empty last then [] else [last]
  | piece :: pieces => default piece (strip_suffix (String "013" EmptyString) piece) :: lines_of pieces
  end.

Definition lines (text : string) : list string := lines_of (split "010"%char text).

(** [str::from_utf8]: a text of well-formed UTF-8 (no overlong forms, no
    surrogates, nothing above U+10FFFF). *)
Definition utf8_tail (b : N) : bool := (128 <=? b)%N && (b <=? 191)%N.
Definition between (lo b hi : N) : bool := (lo <=? b)%N && (b <=? hi)%N.

Fixpoint utf8_valid (bs : list N) : bool :=
  match bs with
  | [] => true
  | a :: r =>
      if (a <? 128)%N then utf8_valid r
      else match r with
           | b :: r =>
               if between 194 a 223 then utf8_tail b && utf8_valid r
               else match r with
                    | c :: r =>
                        if between 224 a 239
                        then between (if (a =? 224)%N then 160 else 128) b
                                     (if (a =? 237)%N then 159 else 191) &&
                             utf8_tail c && utf8_valid r
                        else match r with
                             | d :: r =>
                                 between 240 a 244 &&
                                 between (if (a =? 240)%N then 144 else 128) b
                                         (if (a =? 244)%N then 143 else 191) &&
                                 utf8_tail c && utf8_tail d && utf8_valid r
                             | [] => false
                             end
                    | [] => false
                    end
           | [] => false
           end
  end.

(** [str::trim]: Unicode [White_Space] characters, by their UTF-8 encoding. *)
Definition ws_prefix (bs : list N) : option (list N) :=
  match bs with
  | b :: r =>
      if ((9 <=? b)%N && (b <=? 13)%N) || (b =? 32)%N then Some r
      else match b, r with
           | 194%N, c :: r => (* U+0085, U+00A0 *)
               if (c =? 133)%N || (c =? 160)%N then Some r else None
           | 225%N, c :: d :: r => (* U+1680 *)
               if (c =? 154)%N && (d =? 128)%N then Some r else None
           | 226%N, c :: d :: r => (* U+2000..200A, 2028, 2029, 202F, 205F *)
               if ((c =? 128)%N &&
                   ((128 <=? d)%N && (d <=? 138)%N || (d =? 168)%N ||
                    (d =? 169)%N || (d =? 175)%N))
                  || ((c =? 129)%N && (d =? 159)%N) then Some r else None
           | 227%N, c :: d :: r => (* U+3000 *)
               if (c =? 128)%N && (d =? 128)%N then Some r else None
           | _, _ => None
           end
  | [] => None
  end.

(** The same characters at the end of a text, whose bytes come reversed. *)
Definition ws_suffix (bs : list N) : option (list N) :=
  match bs with
  | [] => None
  | b :: r =>
      if ((9 <=? b)%N && (b <=? 13)%N) || (b =? 32)%N then Some r
      else match r with
           | a :: r2 =>
               match ws_prefix [a; b] with
               | Some [] => Some r2
               | _ => match r2 with
                      | z :: r3 => match ws_prefix [z; a; b] with
                                   | Some [] => Some r3
                                   | _ => None
                                   end
                      | [] => None
                      end
               end
           | [] => None
           end
  end.

Fixpoint strip (fuel : nat) (step : list N -> option (list N)) (bs : list N) :
  list N :=
  match fuel with
  | O => bs
  | S n => match step bs with Some r => strip n step r | None => bs end
  end.

Definition bytes_of (s : string) : list N :=
  List.map N_of_ascii (Strings.String.list_ascii_of_string s).
Definition of_bytes (bs : list N) : string :=
  Strings.String.string_of_list_ascii (List.map ascii_of_N bs).

Definition from_utf8 (s : string) : option string :=
  if utf8_valid (bytes_of s) then Some s else None.

Definition trim (s : string) : string :=
  let l := strip (Strings.String.length s) ws_prefix (bytes_of s) in
  of_bytes (rev (strip (length l) ws_suffix (rev l))).

Example trim_ex : trim "  a b	" = "a b" /\ trim "	 " = "".
Proof. vm_compute. done. Qed.

(** [char::is_control] on UTF-8: U+0000..1F, U+007F..9F. *)
Fixpoint has_control (bs : list N) : bool :=
  match bs with
  | [] => false
  | b :: bs =>
      (b <=? 31)%N || (b =? 127)%N ||
      ((b =? 194)%N && match bs with c :: _ => (128 <=? c)%N && (c <=? 159)%N | [] => false end) ||
      has_control bs
  end.

(** [str::split_whitespace]: the maximal pieces without such a character. *)
Fixpoint words (fuel : nat) (bs : list N) (word : list N) : list (list N) :=
  match fuel, bs with
  | S fuel, b :: r =>
      match ws_prefix bs with
      | Some rest => match word with
                     | [] => words fuel rest []
                     | _ => rev word :: words fuel rest []
                     end
      | None => words fuel r (b :: word)
      end
  | _, _ => match word with [] => [] | _ => [rev word] end
  end.

Definition split_whitespace (s : string) : list string :=
  List.map of_bytes (words (Strings.String.length s) (bytes_of s) []).

Example split_whitespace_ex : split_whitespace "  w1  ab	c " = ["w1"; "ab"; "c"]%string.
Proof. vm_compute. done. Qed.

(** Decimal rendering of an integer, as [{}] prints it. *)
Abbreviation show_Z := (pretty : Z -> string).

(** [{:0w}]: zeros in front, up to a width. *)
Definition zero_pad (width : nat) (s : string) : string :=
  Strings.String.string_of_list_ascii (repeat "0"%char (width - Strings.String.length s)) +:+ s.

(** The value of a text of digits, and [str::parse] at an unsigned type: an
    optional [+] and digits, within the range. *)
Fixpoint digits_value (v : N) (s : string) : N :=
  match s with
  | EmptyString => v
  | String c s => digits_value (v * 10 + (byte_code c - 48)) s
  end.

Definition parse_uint (max : Z) (s : string) : option Z :=
  let digits := match s with String "+" r => r | _ => s end in
  if str_is_empty digits || negb (string_forallb is_ascii_digit digits) then None
  else try_from 0 max (Z.of_N (digits_value 0 digits)).
Definition parse_u64 : string -> option Z := parse_uint u64_max.
Definition parse_u32 : string -> option Z := parse_uint u32_max.

(** [{:?}] on a text: in quotes, with quotes, backslashes and control
    characters escaped; a character outside ASCII is printed as it is. *)
Definition hex_digit (n : N) : ascii := ascii_of_N (if (n <? 10)%N then 48 + n else 87 + n)%N.

Definition escape_debug (c : ascii) : string :=
  let backslash := "092"%char in
  let escaped c := String backslash (String c EmptyString) in
  let code := byte_code c in
  if (code =? 34)%N || (code =? 92)%N then escaped c
  else if (code =? 0)%N then escaped "0"%char
  else if (code =? 9)%N then escaped "t"%char
  else if (code =? 10)%N then escaped "n"%char
  else if (code =? 13)%N then escaped "r"%char
  else if (code <? 32)%N || (code =? 127)%N
  then (String backslash "u{" +:+
        (if (code <? 16)%N then "" else String (hex_digit (code / 16)) "") +:+
        String (hex_digit (code mod 16)) "}")%string
  else String c EmptyString.

Fixpoint escape_all (s : string) : string :=
  match s with
  | EmptyString => EmptyString
  | String c s => escape_debug c +:+ escape_all s
  end.

Definition debug_text (s : string) : string :=
  let quote := String "034" EmptyString in quote +:+ escape_all s +:+ quote.

(** [str::trim_end_matches(char)]. *)
Fixpoint trim_end_char (d : ascii) (s : string) : string :=
  match s with
  | EmptyString => EmptyString
  | String c s =>
      let r := trim_end_char d s in
      if str_is_empty r && bool_decide (c = d) then EmptyString else String c r
  end.

(** The order PostgreSQL's [ORDER BY] gives text columns depends on the
    collation of the database; the queries rely on it being a total order with
    the empty text first. *)
Class Collation := {
  text_le : relation string;
  text_le_dec :: RelDecision text_le;
  text_le_po :: PartialOrder text_le;
  text_le_total :: Total text_le;
  text_le_empty : forall s, text_le EmptyString s
}.

(** The byte order of the [C] collation. *)
#[export] Instance c_collation : Collation.
Proof.
  refine {| text_le := String.le |}. intros [|c s]; reflexivity.
Defined.

(** [a > b] on text columns. *)
Definition text_gt `{Collation} (a b : string) : bool :=
  bool_decide (text_le b a) && negb (bool_decide (a = b)).

(** [ORDER BY stamp, key]: the rows in the order of their timestamps, ties
    broken by a text column. *)
Section OrderBy.
Context `{Collation} {A : Type} (stamp : A -> Z) (key : A -> string).

Definition row_le (a b : A) : Prop :=
  stamp a < stamp b \/ (stamp a = stamp b /\ text_le (key a) (key b)).

#[export] Instance row_le_dec : RelDecision row_le.
Proof. intros a b. unfold row_le. apply _. Defined.

#[export] Instance row_le_total : Total row_le.
Proof.
  intros a b. unfold row_le.
  destruct (Z.lt_trichotomy (stamp a) (stamp b)) as [?|[?|?]]; [by auto| |by auto].
  destruct (total text_le (key a) (key b)); auto.
Qed.

#[export] Instance row_le_trans : Transitive row_le.
Proof.
  intros a b c [?|[??]] [?|[??]]; unfold row_le; [left; lia..|].
  right. split; [lia|]. by etrans.
Qed.

Definition order_by (l : list A) : list A := merge_sort row_le l.

Lemma elem_of_order_by x l : x ∈ order_by l <-> x ∈ l.
Proof. unfold order_by. by rewrite merge_sort_Permutation. Qed.

Lemma order_by_Permutation l : order_by l ≡ₚ l.
Proof. apply merge_sort_Permutation. Qed.

Lemma order_by_sorted l : StronglySorted row_le (order_by l).
Proof. apply StronglySorted_merge_sort; apply _. Qed.
End OrderBy.

(** [Iterator::min_by_key]: the first of the least elements. *)
Fixpoint min_by_key {A} (key : A -> Z) (l : list A) : option A :=
  match l with
  | [] => None
  | x :: l =>
      match min_by_key key l with
      | None => Some x
      | Some y => if key x <=? key y then Some x else Some y
      end
  end.

Lemma min_by_key_None {A} (key : A -> Z) l : min_by_key key l = None <-> l = [].
Proof.
  destruct l as [|x l]; simpl; [done|].
  destruct (min_by_key key l); [case_match|]; done.
Qed.

Lemma min_by_key_Some {A} (key : A -> Z) l x :
  min_by_key key l = Some x ->
  exists pre post, l = pre ++ x :: post /\
    Forall (fun y => key x < key y) pre /\ Forall (fun y => key x <= key y) post.
Proof.
  revert x. induction l as [|a l IH]; intros x; simpl; [done|].
  destruct (min_by_key key l) as [y|] eqn:E.
  - destruct (IH y eq_refl) as (pre & post & -> & Hpre & Hpost).
    destruct (Z.leb_spec (key a) (key y)); intros [= <-].
    + exists [], (pre ++ y :: post). split_and!; [done|done|].
      apply Forall_app; split; [|constructor; [done|]];
        (eapply Forall_impl; [eassumption|simpl; intros; lia]).
    + exists (a :: pre), post. split_and!; [done|by constructor|done].
  - apply min_by_key_None in E as ->. intros [= <-]. by exists [], [].
Qed.

Lemma elem_of_filter_bool {A} (f : A -> bool) l x :
  x ∈ List.filter f l <-> x ∈ l /\ f x = true.
Proof. rewrite !list_elem_of_In. apply filter_In. Qed.

Lemma filter_all {A} (f : A -> bool) l : (forall x, x ∈ l -> f x = true) -> List.filter f l = l.
Proof.
  induction l as [|x l IH]; intros H; simpl; [done|].
  rewrite H by set_solver. f_equal. apply IH. intros y Hy. apply H. set_solver.
Qed.

Lemma filter_none {A} (f : A -> bool) l : (forall x, x ∈ l -> f x = false) -> List.filter f l = [].
Proof.
  induction l as [|x l IH]; intros H; simpl; [done|].
  rewrite H by set_solver. apply IH. intros y Hy. apply H. set_solver.
Qed.

(** An element kept by a filter splits the list it comes from. *)
Lemma filter_middle {A} (f : A -> bool) pre x post l :
  List.filter f l = pre ++ x :: post ->
  exists b a, l = b ++ x :: a /\ f x = true /\
    List.filter f b = pre /\ List.filter f a = post.
Proof.
  revert l. induction pre as [|p pre IH]; intros l; induction l as [|y l IHl];
    simpl; try done; destruct (f y) eqn:Hy.
  - intros [= -> <-]. exists [], l. done.
  - intros (b & a & -> & ? & ? & ?)%IHl. exists (y :: b), a. simpl. by rewrite Hy.
  - intros [= -> (b & a & -> & ? & ? & ?)%IH]. exists (p :: b), a. simpl. rewrite Hy.
    naive_solver.
  - intros (b & a & -> & ? & ? & ?)%IHl. exists (y :: b), a. simpl. by rewrite Hy.
Qed.

(** [Iterator::find]: the first element that satisfies the predicate. *)
Lemma find_split {A} (f : A -> bool) l x :
  List.find f l = Some x ->
  exists pre post, l = pre ++ x :: post /\ (forall y, y ∈ pre -> f y = false) /\ f x = true.
Proof.
  induction l as [|a l IH]; simpl; [done|]. destruct (f a) eqn:Ha.
  - intros [= <-]. exists [], l. split_and!; [done| |done]. intros y Hy. by apply elem_of_nil in Hy.
  - intros (pre & post & -> & Hpre & Hx)%IH. exists (a :: pre), post. split_and!; [done| |done].
    intros y [->|Hy]%elem_of_cons; auto.
Qed.

(** Sums over a list. *)
Definition sum_Z {A} (f : A -> Z) (l : list A) : Z := foldr (fun x acc => f x + acc) 0 l.

Lemma sum_Z_app {A} (f : A -> Z) l1 l2 : sum_Z f (l1 ++ l2) = sum_Z f l1 + sum_Z f l2.
Proof. induction l1 as [|x l1 IH]; simpl; [done|]. rewrite IH. lia. Qed.

#[export] Instance sum_Z_Permutation {A} (f : A -> Z) : Proper ((≡ₚ) ==> (=)) (sum_Z f).
Proof. induction 1; simpl in *; lia. Qed.

Lemma sum_Z_nonneg {A} (f : A -> Z) l : (forall x, x ∈ l -> 0 <= f x) -> 0 <= sum_Z f l.
Proof.
  induction l as [|x l IH]; simpl; intros Hf; [lia|].
  assert (0 <= f x) by (apply Hf; set_solver).
  assert (0 <= sum_Z f l) by (apply IH; set_solver). lia.
Qed.

Lemma sum_Z_const {A} (l : list A) : sum_Z (fun _ => 1) l = Z.of_nat (List.length l).
Proof. induction l; simpl in *; lia. Qed.

(** [bool_decide] and boolean connectives, as automation sees them. *)
Create HintDb autospec.
#[export] Hint Rewrite @bool_decide_eq_true @bool_decide_eq_false
  andb_true_iff orb_true_iff negb_true_iff andb_false_iff orb_false_iff
  negb_false_iff Z.ltb_lt Z.leb_le Z.eqb_eq Z.ltb_ge Z.leb_gt Z.eqb_neq : bools.
Ltac bools := autorewrite with bools in *.

(** The entries of a [BTreeMap<String, _>] in iteration order: by the byte
    order of the keys. *)
Section BTree.
Context {A : Type}.

Definition entry_le (a b : string * A) : Prop := String.le a.1 b.1.

#[export] Instance entry_le_dec : RelDecision entry_le.
Proof. intros a b. unfold entry_le. apply _. Defined.

Definition btree_entries (m : gmap string A) : list (string * A) :=
  merge_sort entry_le (map_to_list m).

Lemma elem_of_btree_entries m k a : (k, a) ∈ btree_entries m <-> m !! k = Some a.
Proof.
  unfold btree_entries. rewrite merge_sort_Permutation. apply elem_of_map_to_list.
Qed.
End BTree.

(** ** Facts about splitting *)

Definition has_char (d : ascii) (s : string) : Prop := string_existsb (fun c => bool_decide (c = d)) s = true.

#[export] Instance has_char_dec d s : Decision (has_char d s).
Proof. unfold has_char. apply _. Defined.

Lemma has_char_nil d : has_char d "" <-> False.
Proof. unfold has_char, string_existsb. naive_solver. Qed.

Lemma has_char_cons d c s : has_char d (String c s) <-> c = d \/ has_char d s.
Proof.
  unfold has_char, string_existsb. simpl.
  rewrite negb_true_iff, andb_false_iff, negb_false_iff, bool_decide_eq_true.
  rewrite negb_true_iff. done.
Qed.

Lemma string_app_cons c s t : (String c s +:+ t)%string = String c (s +:+ t).
Proof. done. Qed.
Lemma string_app_nil t : ("" +:+ t)%string = t.
Proof. done. Qed.

Lemma string_app_nil_r s : (s +:+ "")%string = s.
Proof. induction s as [|c s IH]; [done|]. rewrite string_app_cons. by f_equal. Qed.
Lemma string_app_assoc (a b c : string) : ((a +:+ b) +:+ c = a +:+ (b +:+ c))%string.
Proof. induction a as [|x a IH]; [done|]. rewrite !string_app_cons. by f_equal. Qed.

Lemma string_length_app (a b : string) :
  Strings.String.length (a +:+ b) = (Strings.String.length a + Strings.String.length b)%nat.
Proof. induction a as [|x a IH]; [done|]. rewrite string_app_cons. simpl. by rewrite IH. Qed.

Lemma string_forallb_app p a b :
  string_forallb p (a +:+ b) = string_forallb p a && string_forallb p b.
Proof. induction a as [|x a IH]; [done|]. rewrite string_app_cons. simpl. by rewrite IH, andb_assoc. Qed.

Lemma strip_prefix_app p s : strip_prefix p (p +:+ s) = Some s.
Proof.
  induction p as [|c p IH]; [by destruct s|]. rewrite string_app_cons. simpl.
  by rewrite bool_decide_true.
Qed.

Lemma strip_prefix_Some p s r : strip_prefix p s = Some r -> s = (p +:+ r)%string.
Proof.
  revert s. induction p as [|c p IH]; intros s.
  - destruct s; by intros [= <-].
  - destruct s as [|d s]; simpl; [done|]. destruct (bool_decide (c = d)) eqn:Hc; [|done].
    apply bool_decide_eq_true in Hc as ->. intros ->%IH. done.
Qed.

Lemma strip_suffix_app p s : strip_suffix p (s +:+ p) = Some s.
Proof.
  induction s as [|c s IH].
  - rewrite string_app_nil. destruct p; simpl; [done|]. by rewrite bool_decide_true.
  - rewrite string_app_cons. simpl. rewrite IH, bool_decide_false; [done|].
    intros Hp. apply (f_equal String.length) in Hp. simpl in Hp.
    rewrite string_length_app in Hp. lia.
Qed.

Lemma strip_suffix_Some p s r : strip_suffix p s = Some r -> s = (r +:+ p)%string.
Proof.
  revert r. induction s as [|c s IH]; intros r; simpl; (case_bool_decide as Hp; [intros [= <-]; by subst|]); [done|].
  destruct (strip_suffix p s) as [t|]; [|done]. intros [= <-]. by rewrite (IH t).
Qed.

Lemma starts_with_app p s : starts_with p (p +:+ s) = true.
Proof. induction p as [|c p IH]; [done|]. simpl. by rewrite bool_decide_true. Qed.

Lemma starts_with_inv p s : starts_with p s = true -> exists t, s = (p +:+ t)%string.
Proof.
  revert s. induction p as [|c p IH]; intros s; simpl; [by eauto|].
  destruct s as [|c' s]; [done|]. rewrite andb_true_iff, bool_decide_eq_true.
  intros [-> [t ->]%IH]. by exists t.
Qed.

Lemma split_once_None d s : split_once d s = None <-> ~ has_char d s.
Proof.
  induction s as [|c s IH]; simpl; [rewrite has_char_nil; tauto|]. rewrite has_char_cons.
  case_bool_decide; [naive_solver|]. destruct (split_once d s) as [[a b]|]; naive_solver.
Qed.

Lemma split_once_Some d s a b :
  split_once d s = Some (a, b) <->
  s = (a +:+ String d b)%string /\ ~ has_char d a.
Proof.
  revert a b. induction s as [|c s IH]; intros a b; simpl.
  - split; [done|]. intros [H _]. destruct a; simpl in H; discriminate H.
  - case_bool_decide as Hc.
    + subst c. split.
      * intros [= <- <-]. split; [done|]. rewrite has_char_nil. tauto.
      * intros [H Hn]. destruct a as [|x a].
        -- rewrite string_app_nil in H. congruence.
        -- rewrite string_app_cons in H. injection H as -> _.
           exfalso. apply Hn. apply has_char_cons. auto.
    + destruct (split_once d s) as [[a' b']|] eqn:E.
      * destruct (proj1 (IH a' b') eq_refl) as [-> Hn]. split.
        -- intros [= <- <-]. split; [done|]. rewrite has_char_cons. naive_solver.
        -- intros [H Hn']. destruct a as [|x a].
           ++ rewrite string_app_nil in H. congruence.
           ++ rewrite string_app_cons in H. injection H as -> H.
              assert (Some (a', b') = Some (a, b)) as [= -> ->]; [|done].
              apply IH. split; [done|]. rewrite has_char_cons in Hn'. tauto.
      * split; [done|]. intros [H Hn]. destruct a as [|x a].
        -- rewrite string_app_nil in H. congruence.
        -- rewrite string_app_cons in H. injection H as -> ->.
           assert (None = Some (a, b)); [|done]. apply IH. split; [done|].
           rewrite has_char_cons in Hn. tauto.
Qed.

Lemma rsplit_once_None d s : rsplit_once d s = None <-> ~ has_char d s.
Proof.
  induction s as [|c s IH]; simpl; [rewrite has_char_nil; tauto|].
  rewrite has_char_cons. destruct (rsplit_once d s) as [[a b]|] eqn:E.
  - split; [done|]. intros H. exfalso. apply H. right.
    destruct (decide (has_char d s)); [done|]. by apply IH in n.
  - case_bool_decide; naive_solver.
Qed.

Lemma rsplit_once_Some d s a b :
  rsplit_once d s = Some (a, b) -> s = (a +:+ String d b)%string /\ ~ has_char d b.
Proof.
  revert a b. induction s as [|c s IH]; intros a b; simpl; [done|].
  destruct (rsplit_once d s) as [[a' b']|] eqn:E.
  - intros [= <- <-]. destruct (IH a' b' eq_refl) as [-> ?]. done.
  - case_bool_decide; [|done]. intros [= <- <-]. subst.
    split; [done|]. by apply rsplit_once_None.
Qed.

Lemma has_char_app d s t : has_char d (s +:+ t) <-> has_char d s \/ has_char d t.
Proof.
  induction s as [|c s IH]; [rewrite string_app_nil, has_char_nil; tauto|].
  rewrite string_app_cons, !has_char_cons, IH. tauto.
Qed.

Lemma rsplit_once_app d a b :
  ~ has_char d b -> rsplit_once d (a +:+ String d b) = Some (a, b).
Proof.
  intros Hb. induction a as [|c a IH].
  - rewrite string_app_nil. simpl.
    destruct (rsplit_once d b) as [[x y]|] eqn:E.
    + assert (rsplit_once d b = None) by by apply rsplit_once_None. congruence.
    + by rewrite bool_decide_true.
  - rewrite string_app_cons. simpl. by rewrite IH.
Qed.

(** The last byte of a text. *)
Fixpoint last_byte (s : string) : option ascii :=
  match s with
  | EmptyString => None
  | String c EmptyString => Some c
  | String _ s => last_byte s
  end.

Lemma last_byte_app a b : b <> ""%string -> last_byte (a +:+ b) = last_byte b.
Proof.
  intros Hb. induction a as [|c a IH]; [done|]. rewrite string_app_cons. simpl.
  destruct (a +:+ b)%string eqn:E; [|done]. destruct a, b; done.
Qed.

Lemma last_byte_None s : last_byte s = None -> s = ""%string.
Proof. induction s as [|c s IH]; [done|]. simpl. destruct s; [done|]. intros Hs%IH. done. Qed.

Lemma last_byte_has_char s c : last_byte s = Some c -> has_char c s.
Proof.
  induction s as [|d s IH]; [done|]. simpl. rewrite has_char_cons. destruct s; [intros [= ->]; by left|]. auto.
Qed.

Lemma string_app_ne_nil a b : b <> ""%string -> (a +:+ b)%string <> ""%string.
Proof. destruct a, b; done. Qed.

Lemma string_app_cancel a b t : (a +:+ t)%string = (b +:+ t)%string -> a = b.
Proof.
  revert b. induction a as [|c a IH]; intros [|d b] H; [done|..].
  - apply (f_equal Strings.String.length) in H. rewrite !string_length_app in H. simpl in H. lia.
  - apply (f_equal Strings.String.length) in H. rewrite !string_length_app in H. simpl in H. lia.
  - rewrite !string_app_cons in H. injection H as -> H. f_equal. by apply IH.
Qed.

Lemma split_ne_nil d s : split d s <> [].
Proof. destruct s; simpl; [done|]. case_bool_decide; [done|]. by destruct (split d s). Qed.

Lemma split_one d s a : split d s = [a] <-> a = s /\ ~ has_char d s.
Proof.
  revert a. induction s as [|c s IH]; intros a; simpl.
  - rewrite has_char_nil. naive_solver.
  - rewrite has_char_cons. case_bool_decide as Hc.
    + split; [|naive_solver]. intros [= _ H]. by apply split_ne_nil in H.
    + destruct (split d s) as [|p ps] eqn:E; [by apply split_ne_nil in E|].
      split.
      * intros [= <- ->]. destruct (proj1 (IH p) eq_refl). naive_solver.
      * intros [-> Hn]. assert (p :: ps = [s]) as [= -> ->]; [|done].
        apply IH. naive_solver.
Qed.

Lemma split_app d p q : split d (p +:+ String d q) = split d p ++ split d q.
Proof.
  induction p as [|c p IH].
  - rewrite string_app_nil. simpl. by rewrite bool_decide_true.
  - rewrite string_app_cons. simpl. case_bool_decide; [by rewrite IH|].
    rewrite IH. destruct (split d p) eqn:E; [by apply split_ne_nil in E|done].
Qed.

Lemma split_no_char d s : ~ has_char d s -> split d s = [s].
Proof. intros Hs. by apply split_one. Qed.

Lemma forallb_no_char p d s : p d = false -> string_forallb p s = true -> ~ has_char d s.
Proof.
  intros Hd. induction s as [|c s IH]; simpl; intros Hs; [by intros ?%has_char_nil|].
  rewrite has_char_cons. apply andb_true_iff in Hs as [Hc Hs].
  intros [->|Hin]; [congruence|by apply IH].
Qed.

Lemma split_field d a b : ~ has_char d a -> split d (a +:+ String d b) = a :: split d b.
Proof. intros Ha. by rewrite split_app, split_no_char. Qed.

Lemma split_two d s a b :
  split d s = [a; b] <->
  s = (a +:+ String d b)%string /\ ~ has_char d a /\ ~ has_char d b.
Proof.
  revert a b. induction s as [|c s IH]; intros a b; simpl.
  - split; [done|]. intros [H _]. destruct a; discriminate H.
  - case_bool_decide as Hc.
    + subst c. split.
      * intros [= <- H]. apply split_one in H as [-> ?]. rewrite has_char_nil. tauto.
      * intros (H & Ha & Hb). destruct a as [|x a].
        -- rewrite string_app_nil in H. injection H as ->. f_equal.
           by apply split_one.
        -- rewrite string_app_cons in H. injection H as -> _.
           exfalso. apply Ha. apply has_char_cons. auto.
    + destruct (split d s) as [|p ps] eqn:E; [by apply split_ne_nil in E|].
      split.
      * intros [= <- ->]. destruct (proj1 (IH p b) eq_refl) as (-> & ? & ?).
        rewrite has_char_cons. naive_solver.
      * intros (H & Ha & Hb). destruct a as [|x a].
        -- rewrite string_app_nil in H. congruence.
        -- rewrite string_app_cons in H. injection H as -> ->.
           rewrite has_char_cons in Ha.
           assert (p :: ps = [a; b]) as [= -> ->]; [|done].
           apply IH. naive_solver.
Qed.
