(* ===== verification/Core.v ===== *)
(** * Neutral domain types of the execution plane

    Models [crates/orchestrator-core/src]: identifiers, failure classes, the
    execution manifest's data, ownership labels, events, the execution record
    and its state machine.  A Rust enum or struct [T] is the type [T.T] of a
    module [T], abbreviated [T]; its constructors and fields keep their Rust
    names inside the module. *)

From S2P Require Import Prelude.
















From Stdlib Require Import SpecFloat.

(** ** Identifiers ([ids.rs])

    The four newtypes over [String]. *)
Abbreviation ExecutionId := string (only parsing).
Abbreviation AttemptId := string (only parsing).
Abbreviation SessionId := string (only parsing).
Abbreviation WorkerId := string (only parsing).

(** A [DateTime<Utc>], counted in nanoseconds. *)
Abbreviation Timestamp := Z (only parsing).

(** [f64], as its IEEE 754 value. *)
Abbreviation f64 := spec_float (only parsing).

(** ** Failure classification ([error.rs]) *)
Module FailureClass.
Inductive FailureClass :=
| EnvironmentFailed | HarnessFailed | ModelFailed | Timeout | Inactivity
| ResourceViolation | WorkerLost | Cancelled | TaskFailed | Internal.

#[global] Instance eq_dec : EqDecision FailureClass.
Proof. solve_decision. Defined.
End FailureClass.
Abbreviation FailureClass := FailureClass.FailureClass.

(** ** Roles and lifecycle states ([execution.rs]) *)
Module Role.
Inductive Role :=
| Implementation | Review | Documentation | UiReview | IntegrationTest
| Interactive.

#[global] Instance eq_dec : EqDecision Role.
Proof. solve_decision. Defined.
End Role.
Abbreviation Role := Role.Role.

Module ExecutionState.
Inductive ExecutionState :=
| Queued | WorkerAssigned | Provisioning | Running | PausedForHuman
| ReviewReady | Completed | Failed | Cancelled.

#[global] Instance eq_dec : EqDecision ExecutionState.
Proof. solve_decision. Defined.

Definition is_terminal (s : ExecutionState) : bool :=
  match s with Completed | Failed | Cancelled => true | _ => false end.

(** The guards in the order of the source's [match]. *)
Definition can_transition_to (self next : ExecutionState) : bool :=
  if bool_decide (self = next) then false
  else match self, next with
       | _, Cancelled | _, Failed => negb (is_terminal self)
       | Queued, WorkerAssigned => true
       | WorkerAssigned, Provisioning => true
       | Provisioning, Running => true
       | Running, PausedForHuman | PausedForHuman, Running => true
       | Running, ReviewReady | Running, Completed => true
       | ReviewReady, Completed => true
       | _, _ => false
       end.

(** The [SCREAMING_SNAKE_CASE] wire names serde writes into the state
    columns. *)
Definition text (s : ExecutionState) : string :=
  match s with
  | Queued => "QUEUED" | WorkerAssigned => "WORKER_ASSIGNED"
  | Provisioning => "PROVISIONING" | Running => "RUNNING"
  | PausedForHuman => "PAUSED_FOR_HUMAN" | ReviewReady => "REVIEW_READY"
  | Completed => "COMPLETED" | Failed => "FAILED" | Cancelled => "CANCELLED"
  end.

Definition all : list ExecutionState :=
  [Queued; WorkerAssigned; Provisioning; Running; PausedForHuman; ReviewReady;
   Completed; Failed; Cancelled].

(** serde's reader for the same names. *)
Definition of_text (t : string) : option ExecutionState :=
  list_find (fun s => text s = t) all ≫= fun p => Some p.2.

(** The [{:?}] rendering used in error messages. *)
Definition debug (s : ExecutionState) : string :=
  match s with
  | Queued => "Queued" | WorkerAssigned => "WorkerAssigned"
  | Provisioning => "Provisioning" | Running => "Running"
  | PausedForHuman => "PausedForHuman" | ReviewReady => "ReviewReady"
  | Completed => "Completed" | Failed => "Failed" | Cancelled => "Cancelled"
  end.
End ExecutionState.
Abbreviation ExecutionState := ExecutionState.ExecutionState.

(** ** Task packet ([task_packet.rs]) *)
Module TaskPacket.
Record TaskPacket := {
  goal : string;
  acceptance_criteria : list string;
  non_goals : list string;
  relevant_context : list string;
  required_tests : list string;
  role_skill : option string
}.

#[global] Instance eq_dec : EqDecision TaskPacket.
Proof. solve_decision. Defined.
End TaskPacket.
Abbreviation TaskPacket := TaskPacket.TaskPacket.

(** ** Manifest data ([manifest.rs]) *)
Module TaskReference.
Record TaskReference := {
  project_id : string;
  issue_id : string;
  task_id : option string
}.

#[global] Instance eq_dec : EqDecision TaskReference.
Proof. solve_decision. Defined.
End TaskReference.
Abbreviation TaskReference := TaskReference.TaskReference.

Module RepositoryReference.
Record RepositoryReference := {
  repo : string;
  base_ref : string;
  base_sha : option string;
  branch : option string
}.

#[global] Instance eq_dec : EqDecision RepositoryReference.
Proof. solve_decision. Defined.
End RepositoryReference.
Abbreviation RepositoryReference := RepositoryReference.RepositoryReference.

Module HarnessKind.
Inductive HarnessKind := Pi | OpenCode | Codex.

#[global] Instance eq_dec : EqDecision HarnessKind.
Proof. solve_decision. Defined.
End HarnessKind.
Abbreviation HarnessKind := HarnessKind.HarnessKind.

Module ModelPolicy.
Record ModelPolicy := {
  provider : string;
  preferred : list string;
  alternatives : list string;
  fallback_class : option string
}.

#[global] Instance eq_dec : EqDecision ModelPolicy.
Proof. solve_decision. Defined.
End ModelPolicy.
Abbreviation ModelPolicy := ModelPolicy.ModelPolicy.

Module AgentAssignment.
Record AgentAssignment := {
  harness : HarnessKind;
  model_policy : ModelPolicy
}.

#[global] Instance eq_dec : EqDecision AgentAssignment.
Proof. solve_decision. Defined.
End AgentAssignment.
Abbreviation AgentAssignment := AgentAssignment.AgentAssignment.

Module RuntimeKind.
Inductive RuntimeKind := Docker | Podman | Apptainer.

#[global] Instance eq_dec : EqDecision RuntimeKind.
Proof. solve_decision. Defined.
End RuntimeKind.
Abbreviation RuntimeKind := RuntimeKind.RuntimeKind.

Module RuntimeRequirement.
Record RuntimeRequirement := {
  kind : RuntimeKind;
  image : option string;
  os : option string;
  arch : option string;
  cpu : Z;                            (* u32 *)
  memory_mib : Z;                     (* u64 *)
  disk_gib : Z;                       (* u64 *)
  capabilities : list string;
  toolchains : gmap string string
}.

#[global] Instance eq_dec : EqDecision RuntimeRequirement.
Proof. solve_decision. Defined.

(** [impl Default for RuntimeRequirement]. *)
Definition default : RuntimeRequirement := {|
  kind := RuntimeKind.Docker; image := None; os := None; arch := None;
  cpu := 2; memory_mib := 4096; disk_gib := 20;
  capabilities := []; toolchains := ∅ |}.
End RuntimeRequirement.
Abbreviation RuntimeRequirement := RuntimeRequirement.RuntimeRequirement.

Module ServiceRequirement.
Record ServiceRequirement := {
  name : string;
  image : string;
  env : gmap string string
}.

#[global] Instance eq_dec : EqDecision ServiceRequirement.
Proof. solve_decision. Defined.
End ServiceRequirement.
Abbreviation ServiceRequirement := ServiceRequirement.ServiceRequirement.

Module PersistenceMode.
Inductive PersistenceMode := Ephemeral | Resumable.

#[global] Instance eq_dec : EqDecision PersistenceMode.
Proof. solve_decision. Defined.
End PersistenceMode.
Abbreviation PersistenceMode := PersistenceMode.PersistenceMode.

Module ExecutionManifest.
Record ExecutionManifest := {
  api_version : string;
  role : Role;
  task : option TaskReference;
  repository : RepositoryReference;
  agent : AgentAssignment;
  runtime : RuntimeRequirement;
  services : list ServiceRequirement;
  persistence : PersistenceMode;
  task_packet : option TaskPacket
}.

#[global] Instance eq_dec : EqDecision ExecutionManifest.
Proof. solve_decision. Defined.
End ExecutionManifest.
Abbreviation ExecutionManifest := ExecutionManifest.ExecutionManifest.

(** [lib.rs]'s version constants. *)
Definition API_VERSION : string := "v1".
Definition MANIFEST_API_VERSION : string := "autospec.dev/v1alpha1".

(** ** Ownership labels ([labels.rs]) *)
Definition MANAGED : string := "autospec.managed".
Definition EXECUTION_ID : string := "autospec.execution_id".
Definition WORKER_ID : string := "autospec.worker_id".
Definition REPOSITORY : string := "autospec.repository".
Definition ISSUE : string := "autospec.issue".

Module OwnershipLabels.
Record OwnershipLabels := {
  execution_id : ExecutionId;
  worker_id : WorkerId;
  repository : string;
  issue : option string
}.

#[global] Instance eq_dec : EqDecision OwnershipLabels.
Proof. solve_decision. Defined.

Definition to_map (l : OwnershipLabels) : gmap string string :=
  let map := <[MANAGED := "true"]> ∅ in
  let map := <[EXECUTION_ID := execution_id l]> map in
  let map := <[WORKER_ID := worker_id l]> map in
  let map := <[REPOSITORY := repository l]> map in
  match issue l with
  | Some issue => <[ISSUE := issue]> map
  | None => map
  end.

Definition selector (l : OwnershipLabels) : list string :=
  [(MANAGED +:+ "=true")%string;
   (EXECUTION_ID +:+ "=" +:+ execution_id l)%string].

Definition set_worker_id (w : WorkerId) (l : OwnershipLabels) : OwnershipLabels :=
  {| execution_id := execution_id l; worker_id := w;
     repository := repository l; issue := issue l |}.
End OwnershipLabels.
Abbreviation OwnershipLabels := OwnershipLabels.OwnershipLabels.

(** ** Events ([event.rs]) *)
Module WatchdogVerdict.
Inductive WatchdogVerdict := Healthy | QuietHealthy | Stalled.

#[global] Instance eq_dec : EqDecision WatchdogVerdict.
Proof. solve_decision. Defined.
End WatchdogVerdict.
Abbreviation WatchdogVerdict := WatchdogVerdict.WatchdogVerdict.

Module ExecutionEventKind.
Inductive ExecutionEventKind :=
| ExecutionCreated
| WorkerAssigned (worker_id : WorkerId)
| EnvironmentReady
| AgentStarted (session_id : SessionId)
| TestsStarted
| TestsFailed
| ReviewReady
| ExecutionRequeued (failure : FailureClass)
| ExecutionFailed (failure : FailureClass)
| ExecutionCompleted
| ExecutionCancelled
| AgentInactive (seconds : Z)
| ExecutionPaused
| ExecutionResumed
| ConversationForked (session_id : SessionId)
| WatchdogSample (verdict : WatchdogVerdict) (current_command : option string)
    (last_progress_at : option Timestamp) (cpu_percent : option f64)
    (rss_bytes io_bytes disk_bytes : option Z).
End ExecutionEventKind.
Abbreviation ExecutionEventKind := ExecutionEventKind.ExecutionEventKind.

Module ExecutionEvent.
Record ExecutionEvent := {
  execution_id : ExecutionId;
  attempt_id : option AttemptId;
  sequence : Z;                       (* u64 *)
  at_ : Timestamp;                    (* the source's [at] *)
  state : ExecutionState;
  kind : ExecutionEventKind
}.

Definition set_sequence (n : Z) (e : ExecutionEvent) : ExecutionEvent :=
  {| execution_id := execution_id e; attempt_id := attempt_id e; sequence := n;
     at_ := at_ e; state := state e; kind := kind e |}.
End ExecutionEvent.
Abbreviation ExecutionEvent := ExecutionEvent.ExecutionEvent.

(** ** The execution record ([execution.rs]) *)
Module TestSummary.
Record TestSummary := { passed : Z; failed : Z; skipped : Z }.

#[global] Instance eq_dec : EqDecision TestSummary.
Proof. solve_decision. Defined.
End TestSummary.
Abbreviation TestSummary := TestSummary.TestSummary.

Module ExecutionResult.
Record ExecutionResult := {
  execution_id : ExecutionId;
  state : ExecutionState;
  failure : option FailureClass;
  branch : option string;
  base_sha : option string;
  diff_artifact : option string;
  artifacts : list string;
  tests : option TestSummary
}.

#[global] Instance eq_dec : EqDecision ExecutionResult.
Proof. solve_decision. Defined.
End ExecutionResult.
Abbreviation ExecutionResult := ExecutionResult.ExecutionResult.

Module ExecutionControlAction.
Inductive ExecutionControlAction := Pause | Resume | ForkConversation.

#[global] Instance eq_dec : EqDecision ExecutionControlAction.
Proof. solve_decision. Defined.

Definition debug (a : ExecutionControlAction) : string :=
  match a with
  | Pause => "Pause" | Resume => "Resume" | ForkConversation => "ForkConversation"
  end.
End ExecutionControlAction.
Abbreviation ExecutionControlAction := ExecutionControlAction.ExecutionControlAction.

Module ExecutionControlRequest.
Record ExecutionControlRequest := {
  request_id : Z;
  execution_id : ExecutionId;
  action : ExecutionControlAction;
  requested_at : Timestamp;
  completed_at : option Timestamp
}.
End ExecutionControlRequest.
Abbreviation ExecutionControlRequest := ExecutionControlRequest.ExecutionControlRequest.

Module ExecutionAttachment.
Record ExecutionAttachment := {
  execution_id : ExecutionId;
  state : ExecutionState;
  session_id : SessionId;
  workspace_ref : string;
  event_cursor : Z
}.
End ExecutionAttachment.
Abbreviation ExecutionAttachment := ExecutionAttachment.ExecutionAttachment.

Module CoreError.
Inductive CoreError :=
| InvalidManifest (message : string)
| UnknownExecution (id : string)
| IllegalTransition (from to : ExecutionState).

Definition to_string (e : CoreError) : string :=
  match e with
  | InvalidManifest message => "invalid execution manifest: " +:+ message
  | UnknownExecution id => "unknown execution: " +:+ id
  | IllegalTransition from to =>
      "illegal state transition: " +:+ ExecutionState.debug from +:+ " -> " +:+ ExecutionState.debug to
  end.
End CoreError.
Abbreviation CoreError := CoreError.CoreError.

Module Execution.
Record Execution := {
  id : ExecutionId;
  role : Role;
  state : ExecutionState;
  manifest : ExecutionManifest;
  worker_id : option WorkerId;
  attempt_id : option AttemptId;
  session_id : option SessionId;
  worktree_path : option string;
  labels : OwnershipLabels;
  created_at : Timestamp;
  updated_at : Timestamp;
  result : option ExecutionResult
}.

#[global] Instance eq_dec : EqDecision Execution.
Proof. solve_decision. Defined.

Definition set_state (s : ExecutionState) (now : Timestamp) (e : Execution) : Execution :=
  {| id := id e; role := role e; state := s; manifest := manifest e;
     worker_id := worker_id e; attempt_id := attempt_id e;
     session_id := session_id e; worktree_path := worktree_path e;
     labels := labels e; created_at := created_at e; updated_at := now;
     result := result e |}.

Definition set_authority (w : option WorkerId) (a : option AttemptId)
    (l : OwnershipLabels) (e : Execution) : Execution :=
  {| id := id e; role := role e; state := state e; manifest := manifest e;
     worker_id := w; attempt_id := a;
     session_id := session_id e; worktree_path := worktree_path e;
     labels := l; created_at := created_at e; updated_at := updated_at e;
     result := result e |}.

Definition set_result (r : option ExecutionResult) (e : Execution) : Execution :=
  {| id := id e; role := role e; state := state e; manifest := manifest e;
     worker_id := worker_id e; attempt_id := attempt_id e;
     session_id := session_id e; worktree_path := worktree_path e;
     labels := labels e; created_at := created_at e; updated_at := updated_at e;
     result := r |}.

Definition set_session (sid : option SessionId) (now : Timestamp) (e : Execution) : Execution :=
  {| id := id e; role := role e; state := state e; manifest := manifest e;
     worker_id := worker_id e; attempt_id := attempt_id e;
     session_id := sid; worktree_path := worktree_path e;
     labels := labels e; created_at := created_at e; updated_at := now;
     result := result e |}.

Definition set_worktree_path (p : option string) (e : Execution) : Execution :=
  {| id := id e; role := role e; state := state e; manifest := manifest e;
     worker_id := worker_id e; attempt_id := attempt_id e;
     session_id := session_id e; worktree_path := p;
     labels := labels e; created_at := created_at e; updated_at := updated_at e;
     result := result e |}.

(** [Execution::transition]; [now] is the value of [Utc::now()].  The method
    mutates its receiver only on success. *)
Definition transition (next : ExecutionState) (now : Timestamp) (e : Execution) :
  Prelude.result CoreError Execution :=
  if negb (ExecutionState.can_transition_to (state e) next)
  then Err (CoreError.IllegalTransition (state e) next)
  else Ok (set_state next now e).
End Execution.
Abbreviation Execution := Execution.Execution.

(** ** Theorems *)
Section Lifecycle.
Import ExecutionState.

(** The states an execution goes through after [a], ending in [b]. *)
Inductive history (a : ExecutionState) : list ExecutionState -> ExecutionState -> Prop :=
| history_refl : history a [] a
| history_step tr b c : history a tr b -> can_transition_to b c = true ->
    history a (tr ++ [c]) c.

Lemma terminal_no_transition a b :
  is_terminal a = true -> can_transition_to a b = false.
Proof. by destruct a, b. Qed.

(** How far a state is along the nominal path. *)
Definition stage (s : ExecutionState) : Z :=
  match s with
  | Queued => 0 | WorkerAssigned => 1 | Provisioning => 2
  | Running | PausedForHuman => 3 | ReviewReady => 4
  | Completed | Failed | Cancelled => 5
  end.

Lemma transition_stage a b :
  can_transition_to a b = true ->
  stage a < stage b \/
  (a = Running /\ b = PausedForHuman) \/ (a = PausedForHuman /\ b = Running).
Proof. destruct a, b; simpl; intros; naive_solver lia. Qed.

(** The states that only a provisioned execution can reach. *)
Definition needs_environment (s : ExecutionState) : bool :=
  match s with Running | PausedForHuman | ReviewReady | Completed => true | _ => false end.

(** The prefix of the nominal path a reached state witnesses. *)
Definition nominal (s : ExecutionState) : list ExecutionState :=
  match s with
  | WorkerAssigned => [WorkerAssigned]
  | Provisioning => [WorkerAssigned; Provisioning]
  | Running | PausedForHuman | ReviewReady | Completed =>
      [WorkerAssigned; Provisioning; Running]
  | _ => []
  end.

Lemma nominal_step b c :
  can_transition_to b c = true ->
  nominal c = nominal b \/ nominal c = nominal b ++ [c] \/ nominal c = [].
Proof. destruct b, c; simpl; naive_solver. Qed.

Lemma history_nominal tr s :
  history Queued tr s -> sublist (nominal s) tr.
Proof.
  induction 1 as [|tr b c _ IH Hc]; simpl; [constructor|].
  destruct (nominal_step _ _ Hc) as [->|[->| ->]].
  - by apply sublist_inserts_r.
  - by apply sublist_app.
  - apply sublist_nil_l.
Qed.

Lemma history_stage a tr b : history a tr b -> stage a <= stage b.
Proof.
  induction 1 as [|tr b c _ IH Hc]; [lia|].
  apply transition_stage in Hc. destruct Hc as [?|[[-> ->]|[-> ->]]]; simpl in *; lia.
Qed.

Lemma history_terminal a tr b :
  history a tr b -> is_terminal a = true -> tr = [] /\ b = a.
Proof.
  induction 1 as [|tr b c _ IH Hc]; [done|]. intros Ha.
  destruct (IH Ha) as [-> ->]. by rewrite terminal_no_transition in Hc.
Qed.
End Lifecycle.

(** The execution state machine.  Every history of legal transitions that
    starts in [Queued] visits [WorkerAssigned], [Provisioning] and [Running] in
    this order before it is paused, ready for review or completed; it never
    comes back to [Queued]; and a terminal state ends it. *)
Theorem lifecycle_history_ordered (tr : list ExecutionState) (s : ExecutionState) :
  history ExecutionState.Queued tr s ->
  sublist (nominal s) tr /\
  (tr <> [] -> s <> ExecutionState.Queued) /\
  (forall tr' s', ExecutionState.is_terminal s = true -> history s tr' s' ->
     tr' = [] /\ s' = s).
Proof.
  intros Hh. split_and!.
  - by apply history_nominal.
  - intros Hne ->. inversion Hh as [|tr' b c Hb Hc]; subst; [done|].
    apply history_stage in Hb. by destruct b.
  - intros tr' s' Ht Hs. by eapply history_terminal.
Qed.

Lemma lifecycle_history_ordered_witness :
  sublist (nominal ExecutionState.Running)
    [ExecutionState.WorkerAssigned; ExecutionState.Provisioning; ExecutionState.Running].
Proof.
  apply (lifecycle_history_ordered
    [ExecutionState.WorkerAssigned; ExecutionState.Provisioning; ExecutionState.Running]
    ExecutionState.Running).
  apply (history_step _ [_; _] ExecutionState.Provisioning); [|reflexivity].
  apply (history_step _ [_] ExecutionState.WorkerAssigned); [|reflexivity].
  apply (history_step _ [] ExecutionState.Queued); [|reflexivity].
  constructor.
Defined.

(** The wire names of the states are read back as the state written. *)
Lemma state_text_roundtrip (s : ExecutionState) :
  ExecutionState.of_text (ExecutionState.text s) = Some s.
Proof. by destruct s. Qed.

Lemma state_of_text_sound (t : string) (s : ExecutionState) :
  ExecutionState.of_text t = Some s -> ExecutionState.text s = t.
Proof.
  unfold ExecutionState.of_text. intros Hf. apply bind_Some in Hf as ([i s'] & Hf & [= <-]).
  apply list_find_Some in Hf as (_ & ? & _). done.
Qed.

Lemma execution_transition_Ok next now e e' :
  Execution.transition next now e = Ok e' <->
  ExecutionState.can_transition_to (Execution.state e) next = true /\
  e' = Execution.set_state next now e.
Proof.
  unfold Execution.transition. destruct (ExecutionState.can_transition_to _ _); naive_solver.
Qed.
