(* ===== verification/Manifest.v ===== *)
(** * Manifest and environment validation

    Models the validation half of [crates/orchestrator-core/src/manifest.rs]
    and [environment.rs]: which manifests the execution plane accepts before it
    provisions anything, and how the services a task asks for are resolved
    against the repository's environment file. *)

From S2P Require Import Prelude Core.
















From Stdlib Require Import Ascii.

(** [fn invalid]. *)
Definition invalid {A} (message : string) : result CoreError A :=
  Err (CoreError.InvalidManifest message).

(** [fn capability_pattern]: the regex [^[a-z0-9][a-z0-9-]*$]. *)
Definition capability_start (c : ascii) : bool := is_ascii_lowercase c || is_ascii_digit c.
Definition capability_char (c : ascii) : bool :=
  is_ascii_lowercase c || is_ascii_digit c || bool_decide (c = "-"%char).
Definition capability_pattern (s : string) : bool :=
  match s with
  | EmptyString => false
  | String c rest => capability_start c && string_forallb capability_char rest
  end.

Definition validate_service_name (name : string) : result CoreError unit :=
  if capability_pattern name then Ok tt
  else invalid ("invalid service name: " +:+ name).

Definition validate_repository (repository : string) : result CoreError unit :=
  match split "/"%char repository with
  | [owner; name] =>
      if negb (str_is_empty owner) && negb (str_is_empty name) then Ok tt
      else invalid "repository.repo must be exactly owner/name"
  | _ => invalid "repository.repo must be exactly owner/name"
  end.

Definition validate_image (image field : string) : result CoreError unit :=
  let final_component :=
    match rsplit_once "/"%char image with
    | Some (_, final_component) => final_component
    | None => image
    end in
  let tagged :=
    match split_once ":"%char final_component with
    | Some (name, tag) => negb (str_is_empty name) && negb (str_is_empty tag)
    | None => false
    end in
  let digested :=
    match split_once "@"%char image with
    | Some (name, digest) => negb (str_is_empty name) && negb (str_is_empty digest)
    | None => false
    end in
  if tagged || digested then Ok tt
  else invalid (field +:+ " must include a tag or digest: " +:+ image).

(** A [for] loop whose body may return early with an error. *)
Fixpoint for_all {A E} (f : A -> result E unit) (l : list A) : result E unit :=
  match l with
  | [] => Ok tt
  | x :: l => _ ← f x; for_all f l
  end.

Definition validate_runtime (runtime : RuntimeRequirement) : result CoreError unit :=
  if RuntimeRequirement.cpu runtime =? 0 then
    invalid "runtime cpu must be greater than zero"
  else if RuntimeRequirement.memory_mib runtime <? 256 then
    invalid "runtime memoryMib must be at least 256"
  else if RuntimeRequirement.disk_gib runtime =? 0 then
    invalid "runtime diskGib must be greater than zero"
  else
    _ ← match RuntimeRequirement.image runtime with
        | Some image => validate_image image "runtime image"
        | None => Ok tt
        end;
    for_all (fun capability =>
      if negb (capability_pattern capability) then
        invalid ("invalid runtime capability: " +:+ capability)
      else Ok tt) (RuntimeRequirement.capabilities runtime).

(** [ExecutionManifest::validate]. *)
Definition validate (m : ExecutionManifest) : result CoreError unit :=
  if negb (bool_decide (ExecutionManifest.api_version m = MANIFEST_API_VERSION)) then
    invalid ("apiVersion must be " +:+ MANIFEST_API_VERSION +:+ ", got " +:+
             ExecutionManifest.api_version m)
  else
    _ ← validate_repository (RepositoryReference.repo (ExecutionManifest.repository m));
    _ ← validate_runtime (ExecutionManifest.runtime m);
    for_all (fun service =>
      _ ← validate_service_name (ServiceRequirement.name service);
      validate_image (ServiceRequirement.image service) "service image")
      (ExecutionManifest.services m).

(** ** The repository's environment file ([environment.rs]) *)
Module EnvironmentFile.
Record EnvironmentService := {
  image : string;
  env : gmap string string
}.

Record EnvironmentFile := {
  runtime : RuntimeRequirement;
  services : gmap string EnvironmentService
}.

Definition validate (self : EnvironmentFile) : result CoreError unit :=
  _ ← validate_runtime (runtime self);
  for_all (fun '(name, service) =>
    _ ← validate_service_name name;
    validate_image (image service) "environment service image")
    (btree_entries (services self)).

(** The [map] and [collect] of [EnvironmentFile::resolve]: the first missing
    name fails the whole resolution. *)
Fixpoint resolve_names (declared : gmap string EnvironmentService) (requires : list string) :
  result CoreError (list ServiceRequirement) :=
  match requires with
  | [] => Ok []
  | name :: requires =>
      service ← ok_or (declared !! name)
        (CoreError.InvalidManifest
           ("requested service is not declared by the repository: " +:+ name));
      rest ← resolve_names declared requires;
      Ok ({| ServiceRequirement.name := name;
             ServiceRequirement.image := image service;
             ServiceRequirement.env := env service |} :: rest)
  end.

Definition resolve (self : EnvironmentFile) (requires : list string) :
  result CoreError (list ServiceRequirement) :=
  _ ← validate self;
  resolve_names (services self) requires.
End EnvironmentFile.
Abbreviation EnvironmentFile := EnvironmentFile.EnvironmentFile.

(** ** Theorems *)

(** What a well-formed repository, image and capability is, as text. *)
Definition repository_ok (r : string) : Prop :=
  exists owner name, r = (owner +:+ String "/" name)%string /\
    owner <> EmptyString /\ name <> EmptyString /\
    ~ has_char "/" owner /\ ~ has_char "/" name.

(** [registry/path/name:tag], with the tag in the last component, or
    [anything@digest]. *)
Definition image_ok (image : string) : Prop :=
  (exists prefix name tag,
      image = (prefix +:+ name +:+ String ":" tag)%string /\
      (prefix = EmptyString \/ exists p, prefix = (p +:+ "/")%string) /\
      name <> EmptyString /\ tag <> EmptyString /\
      ~ has_char "/" name /\ ~ has_char "/" tag /\ ~ has_char ":" name) \/
  (exists name digest, image = (name +:+ String "@" digest)%string /\
      name <> EmptyString /\ digest <> EmptyString /\ ~ has_char "@" name).

Definition capability_ok (s : string) : Prop := capability_pattern s = true.

Definition runtime_ok (r : RuntimeRequirement) : Prop :=
  RuntimeRequirement.cpu r <> 0 /\ 256 <= RuntimeRequirement.memory_mib r /\
  RuntimeRequirement.disk_gib r <> 0 /\
  (forall image, RuntimeRequirement.image r = Some image -> image_ok image) /\
  Forall capability_ok (RuntimeRequirement.capabilities r).

Lemma negb_empty s : negb (str_is_empty s) = true <-> s <> EmptyString.
Proof. by destruct s. Qed.

Lemma for_all_Ok {A E} (f : A -> result E unit) l :
  for_all f l = Ok tt <-> Forall (fun x => f x = Ok tt) l.
Proof.
  induction l as [|x l IH]; simpl; [by rewrite Forall_nil|].
  rewrite result_bind_Ok, Forall_cons, <- IH. split.
  - intros ([] & ? & ?). done.
  - intros [? ?]. exists tt. done.
Qed.

Lemma validate_repository_Ok r : validate_repository r = Ok tt <-> repository_ok r.
Proof.
  unfold validate_repository, repository_ok. split.
  - destruct (split "/" r) as [|o [|n [|? ?]]] eqn:E; try done.
    destruct (_ && _) eqn:Hne; [|done]. intros _.
    rewrite andb_true_iff, !negb_empty in Hne. apply split_two in E. naive_solver.
  - intros (o & n & Hr & Ho & Hn & Hso & Hsn).
    rewrite (proj2 (split_two _ _ o n)) by done.
    rewrite (proj2 (negb_empty o)), (proj2 (negb_empty n)) by done. done.
Qed.

Lemma tagged_spec image :
  match split_once ":" (match rsplit_once "/" image with Some (_, c) => c | None => image end) with
  | Some (name, tag) => negb (str_is_empty name) && negb (str_is_empty tag)
  | None => false
  end = true <->
  exists prefix name tag, image = (prefix +:+ name +:+ String ":" tag)%string /\
      (prefix = EmptyString \/ exists p, prefix = (p +:+ "/")%string) /\
      name <> EmptyString /\ tag <> EmptyString /\
      ~ has_char "/" name /\ ~ has_char "/" tag /\ ~ has_char ":" name.
Proof.
  assert (Happ : forall p s : string, ((p +:+ "/") +:+ s = p +:+ String "/" s)%string).
  { intros p s. induction p as [|c p IH]; [done|]. rewrite !string_app_cons. by rewrite IH. }
  split.
  - destruct (rsplit_once "/" image) as [[p c]|] eqn:E.
    + apply rsplit_once_Some in E as [-> Hc].
      destruct (split_once ":" c) as [[n t]|] eqn:E2; [|done].
      apply split_once_Some in E2 as [-> Hn].
      rewrite andb_true_iff, !negb_empty. intros [? ?].
      rewrite has_char_app, has_char_cons in Hc.
      exists (p +:+ "/")%string, n, t. rewrite Happ. naive_solver.
    + apply rsplit_once_None in E.
      destruct (split_once ":" image) as [[n t]|] eqn:E2; [|done].
      apply split_once_Some in E2 as [-> Hn].
      rewrite andb_true_iff, !negb_empty. intros [? ?].
      rewrite has_char_app, has_char_cons in E.
      exists EmptyString, n, t. rewrite string_app_nil. naive_solver.
  - intros (pre & n & t & -> & Hpre & Hn & Ht & Hsn & Hst & Hcn).
    assert (~ has_char "/" (n +:+ String ":" t)) as Hno.
    { rewrite has_char_app, has_char_cons. naive_solver. }
    assert (match rsplit_once "/" (pre +:+ n +:+ String ":" t) with
            | Some (_, c) => c | None => (pre +:+ n +:+ String ":" t)%string end
            = (n +:+ String ":" t)%string) as ->.
    { destruct Hpre as [->|[p ->]].
      - rewrite string_app_nil. by rewrite (proj2 (rsplit_once_None _ _)).
      - rewrite Happ. by rewrite rsplit_once_app. }
    rewrite (proj2 (split_once_Some _ _ n t)) by done.
    rewrite (proj2 (negb_empty n)), (proj2 (negb_empty t)) by done. done.
Qed.

Lemma digested_spec image :
  match split_once "@" image with
  | Some (name, digest) => negb (str_is_empty name) && negb (str_is_empty digest)
  | None => false
  end = true <->
  exists name digest, image = (name +:+ String "@" digest)%string /\
      name <> EmptyString /\ digest <> EmptyString /\ ~ has_char "@" name.
Proof.
  split.
  - destruct (split_once "@" image) as [[n d]|] eqn:E; [|done].
    apply split_once_Some in E as [-> ?].
    rewrite andb_true_iff, !negb_empty. naive_solver.
  - intros (n & d & -> & ? & ? & ?).
    rewrite (proj2 (split_once_Some _ _ n d)) by done.
    rewrite (proj2 (negb_empty n)), (proj2 (negb_empty d)) by done. done.
Qed.

Lemma validate_image_Ok image field : validate_image image field = Ok tt <-> image_ok image.
Proof.
  unfold validate_image, image_ok. rewrite <- tagged_spec, <- digested_spec.
  rewrite <- orb_true_iff. cbv zeta. by destruct (_ || _).
Qed.

Lemma validate_runtime_Ok r : validate_runtime r = Ok tt <-> runtime_ok r.
Proof.
  unfold validate_runtime, runtime_ok.
  destruct (Z.eqb_spec (RuntimeRequirement.cpu r) 0); [naive_solver|].
  destruct (Z.ltb_spec (RuntimeRequirement.memory_mib r) 256); [naive_solver lia|].
  destruct (Z.eqb_spec (RuntimeRequirement.disk_gib r) 0); [naive_solver|].
  rewrite result_bind_Ok.
  assert (forall l, for_all (fun capability =>
      if negb (capability_pattern capability) then
        invalid ("invalid runtime capability: " +:+ capability)
      else Ok tt) l = Ok tt <-> Forall capability_ok l) as Hcap.
  { intros l. rewrite for_all_Ok. apply Forall_iff. intros c. unfold capability_ok.
    by destruct (capability_pattern c). }
  setoid_rewrite Hcap.
  destruct (RuntimeRequirement.image r) as [image|].
  - setoid_rewrite <- (validate_image_Ok _ "runtime image"). split.
    + intros ([] & ? & ?). naive_solver.
    + intros (? & ? & ? & Hi & ?). exists tt. eauto.
  - split; [naive_solver|]. intros (? & ? & ? & ? & ?). by exists tt.
Qed.

Lemma validate_service_name_Ok name : validate_service_name name = Ok tt <-> capability_ok name.
Proof. unfold validate_service_name, capability_ok. by destruct (capability_pattern name). Qed.

Lemma bind_unit_Ok {E} (m k : result E unit) :
  (_ ← m; k) = Ok tt <-> m = Ok tt /\ k = Ok tt.
Proof. rewrite result_bind_Ok. split; [intros ([] & ? & ?)|intros [? ?]; exists tt]; done. Qed.

(** [ExecutionManifest::validate] accepts a manifest exactly when its API
    version is the supported one, its repository is one [owner/name], its
    runtime asks for resources at or above the floor with a pinned image and
    well-formed capabilities, and every service has a well-formed name and a
    pinned image. *)
Theorem manifest_validate_iff (m : ExecutionManifest) :
  validate m = Ok tt <->
  ExecutionManifest.api_version m = MANIFEST_API_VERSION /\
  repository_ok (RepositoryReference.repo (ExecutionManifest.repository m)) /\
  runtime_ok (ExecutionManifest.runtime m) /\
  Forall (fun s => capability_ok (ServiceRequirement.name s) /\
                   image_ok (ServiceRequirement.image s)) (ExecutionManifest.services m).
Proof.
  unfold validate. case_bool_decide as Hv; simpl; [|naive_solver].
  rewrite !bind_unit_Ok, validate_repository_Ok, validate_runtime_Ok, for_all_Ok.
  setoid_rewrite bind_unit_Ok. setoid_rewrite validate_service_name_Ok.
  setoid_rewrite validate_image_Ok. tauto.
Qed.

Lemma resolve_names_Ok declared requires out :
  EnvironmentFile.resolve_names declared requires = Ok out <->
  Forall2 (fun name s => exists d, declared !! name = Some d /\
    s = {| ServiceRequirement.name := name;
           ServiceRequirement.image := EnvironmentFile.image d;
           ServiceRequirement.env := EnvironmentFile.env d |}) requires out.
Proof.
  revert out. induction requires as [|name requires IH]; intros out; simpl.
  - split; [intros [= <-]; constructor|]. by intros ->%Forall2_nil_inv_l.
  - rewrite result_bind_Ok. setoid_rewrite ok_or_Ok. setoid_rewrite result_bind_Ok.
    setoid_rewrite IH. split.
    + intros (d & Hd & rest & Hrest & [= <-]). constructor; [by exists d|done].
    + intros H. inversion H as [|? ? ? ? (d & Hd & ->) Hr]; subst. eauto 10.
Qed.

Lemma environment_validate_Ok self :
  EnvironmentFile.validate self = Ok tt <->
  runtime_ok (EnvironmentFile.runtime self) /\
  (forall name d, EnvironmentFile.services self !! name = Some d ->
     capability_ok name /\ image_ok (EnvironmentFile.image d)).
Proof.
  unfold EnvironmentFile.validate.
  rewrite bind_unit_Ok, validate_runtime_Ok, for_all_Ok, Forall_forall.
  apply and_iff_compat_l. split.
  - intros H k d Hin%elem_of_btree_entries. specialize (H _ Hin). simpl in H.
    by rewrite bind_unit_Ok, validate_service_name_Ok, validate_image_Ok in H.
  - intros H [k d] Hin%elem_of_btree_entries.
    apply bind_unit_Ok. rewrite validate_service_name_Ok, validate_image_Ok. eauto.
Qed.

(** [EnvironmentFile::resolve] succeeds exactly when every runtime and
    service the file declares is well formed, requested or not, and every
    requested name is declared; the result lists the requested services, in
    the requested order, with the declared image and environment. *)
Theorem environment_resolve_iff (self : EnvironmentFile) (requires : list string)
    (out : list ServiceRequirement) :
  EnvironmentFile.resolve self requires = Ok out <->
  runtime_ok (EnvironmentFile.runtime self) /\
  (forall name d, EnvironmentFile.services self !! name = Some d ->
     capability_ok name /\ image_ok (EnvironmentFile.image d)) /\
  Forall2 (fun name s => exists d, EnvironmentFile.services self !! name = Some d /\
    s = {| ServiceRequirement.name := name;
           ServiceRequirement.image := EnvironmentFile.image d;
           ServiceRequirement.env := EnvironmentFile.env d |}) requires out.
Proof.
  unfold EnvironmentFile.resolve. rewrite result_bind_Ok.
  setoid_rewrite resolve_names_Ok. split.
  - intros ([] & ?%environment_validate_Ok & ?). tauto.
  - intros (? & ? & ?). exists tt. by rewrite environment_validate_Ok.
Qed.
