(* ===== verification/WorkerTypes.v ===== *)
(** * Worker registration

    Models [crates/orchestrator-core/src/worker.rs]: what a worker advertises,
    the proof it must present, and when it has capacity. *)

From S2P Require Import Prelude Core.

















Module WorkerCapabilities.
Record WorkerCapabilities := {
  os : string;
  arch : string;
  cpu : Z;                            (* u32 *)
  memory_mib : Z;                     (* u64 *)
  disk_gib : Z;                       (* u64 *)
  runtimes : list RuntimeKind;
  capabilities : list string;
  toolchains : gmap string string;
  max_concurrent_executions : Z;      (* u32 *)
  health_errors : list string
}.

#[global] Instance eq_dec : EqDecision WorkerCapabilities.
Proof. solve_decision. Defined.

Definition sanitized_codes : list string :=
  ["storage-capability-unavailable"; "docker-capability-unavailable";
   "worker-configuration-invalid"; "worker-preparation-unavailable";
   "disk-pressure-bytes"; "disk-pressure-inodes"].

Definition health_errors_are_sanitized (self : WorkerCapabilities) : bool :=
  (Z.of_nat (length (health_errors self)) <=? 2) &&
  forallb (fun error => bool_decide (error ∈ sanitized_codes)) (health_errors self).
End WorkerCapabilities.
Abbreviation WorkerCapabilities := WorkerCapabilities.WorkerCapabilities.

Module WorkerState.
Inductive WorkerState := Ready | Draining | Unreachable | Offline.

#[global] Instance eq_dec : EqDecision WorkerState.
Proof. solve_decision. Defined.

Definition text (s : WorkerState) : string :=
  match s with
  | Ready => "READY" | Draining => "DRAINING" | Unreachable => "UNREACHABLE"
  | Offline => "OFFLINE"
  end.
End WorkerState.
Abbreviation WorkerState := WorkerState.WorkerState.

Module WorkerCapabilityProof.
Record WorkerCapabilityProof := {
  storage_backend : string;
  storage_pool_identity : string;
  docker_daemon_id : string;
  docker_verifier : string;
  docker_method_version : string
}.

#[global] Instance eq_dec : EqDecision WorkerCapabilityProof.
Proof. solve_decision. Defined.

Definition is_complete (self : WorkerCapabilityProof) : bool :=
  forallb (fun value => negb (str_is_empty (trim value)))
    [storage_backend self; storage_pool_identity self; docker_daemon_id self;
     docker_verifier self; docker_method_version self].
End WorkerCapabilityProof.
Abbreviation WorkerCapabilityProof := WorkerCapabilityProof.WorkerCapabilityProof.

Module WorkerRegistration.
Record WorkerRegistration := {
  id : WorkerId;
  capabilities : WorkerCapabilities;
  state : WorkerState;
  running_executions : Z;             (* u32 *)
  last_heartbeat : Timestamp;
  capability_proof : option WorkerCapabilityProof
}.

#[global] Instance eq_dec : EqDecision WorkerRegistration.
Proof. solve_decision. Defined.

(** [capability_proof.as_ref().is_some_and(is_complete)]. *)
Definition proof_is_complete (self : WorkerRegistration) : bool :=
  match capability_proof self with
  | Some proof => WorkerCapabilityProof.is_complete proof
  | None => false
  end.

Definition has_capacity (self : WorkerRegistration) : bool :=
  bool_decide (state self = WorkerState.Ready) &&
  bool_decide (WorkerCapabilities.health_errors (capabilities self) = []) &&
  proof_is_complete self &&
  (running_executions self <?
     WorkerCapabilities.max_concurrent_executions (capabilities self)).

Definition set_running (n : Z) (w : WorkerRegistration) : WorkerRegistration :=
  {| id := id w; capabilities := capabilities w; state := state w;
     running_executions := n; last_heartbeat := last_heartbeat w;
     capability_proof := capability_proof w |}.

Definition set_state (s : WorkerState) (w : WorkerRegistration) : WorkerRegistration :=
  {| id := id w; capabilities := capabilities w; state := s;
     running_executions := running_executions w; last_heartbeat := last_heartbeat w;
     capability_proof := capability_proof w |}.
End WorkerRegistration.
Abbreviation WorkerRegistration := WorkerRegistration.WorkerRegistration.

Module WorkerAdvertisement.
Record WorkerAdvertisement := {
  id : WorkerId;
  capabilities : WorkerCapabilities;
  capability_proof : option WorkerCapabilityProof
}.
End WorkerAdvertisement.
Abbreviation WorkerAdvertisement := WorkerAdvertisement.WorkerAdvertisement.
