(* ===== verification/Scheduler.v ===== *)
(** * Scheduling

    Models [crates/orchestrator-scheduler/src/lib.rs]: the placement rule that
    decides whether a worker can host an execution given what is already
    reserved on it, and the choice of the least loaded eligible worker. *)

From S2P Require Import Prelude Core WorkerTypes.

















Module ReservedResources.
Record ReservedResources := {
  slots : Z;                          (* u32 *)
  cpu : Z;                            (* u32 *)
  memory_mib : Z;                     (* u64 *)
  disk_gib : Z                        (* u64 *)
}.
End ReservedResources.
Abbreviation ReservedResources := ReservedResources.ReservedResources.

Module ScheduleError.
Inductive ScheduleError := NoEligibleWorker (req : RuntimeRequirement).
End ScheduleError.
Abbreviation ScheduleError := ScheduleError.ScheduleError.

Definition canonical_arch (arch : string) : string :=
  let lower := to_ascii_lowercase (trim arch) in
  if bool_decide (lower ∈ ["amd64"; "x86_64"]%string) then "x86_64"
  else if bool_decide (lower ∈ ["arm64"; "aarch64"]%string) then "aarch64"
  else lower.

Definition arch_matches (want have : string) : bool :=
  bool_decide (canonical_arch want = canonical_arch have).

Definition worker_fits_with_reservations (worker : WorkerRegistration)
    (req : RuntimeRequirement) (reserved : ReservedResources) : bool :=
  let caps := WorkerRegistration.capabilities worker in
  if negb (bool_decide (WorkerRegistration.state worker = WorkerState.Ready))
     || negb (WorkerRegistration.proof_is_complete worker)
     || (WorkerCapabilities.max_concurrent_executions caps <=? ReservedResources.slots reserved)
  then false
  else if match RuntimeRequirement.os req with
          | Some os => negb (eq_ignore_ascii_case os (WorkerCapabilities.os caps))
          | None => false
          end
  then false
  else if match RuntimeRequirement.arch req with
          | Some arch => negb (arch_matches arch (WorkerCapabilities.arch caps))
          | None => false
          end
  then false
  else if negb (bool_decide (map_Forall (fun name version =>
                  WorkerCapabilities.toolchains caps !! name = Some version)
                  (RuntimeRequirement.toolchains req)))
  then false
  else if (saturating_sub (WorkerCapabilities.cpu caps) (ReservedResources.cpu reserved)
             <? RuntimeRequirement.cpu req)
       || (saturating_sub (WorkerCapabilities.memory_mib caps)
             (ReservedResources.memory_mib reserved) <? RuntimeRequirement.memory_mib req)
       || (saturating_sub (WorkerCapabilities.disk_gib caps)
             (ReservedResources.disk_gib reserved) <? RuntimeRequirement.disk_gib req)
  then false
  else if negb (bool_decide (RuntimeRequirement.kind req ∈ WorkerCapabilities.runtimes caps))
  then false
  else forallb (fun c => bool_decide (c ∈ WorkerCapabilities.capabilities caps))
         (RuntimeRequirement.capabilities req).

Definition worker_fits (worker : WorkerRegistration) (req : RuntimeRequirement) : bool :=
  worker_fits_with_reservations worker req
    {| ReservedResources.slots := WorkerRegistration.running_executions worker;
       ReservedResources.cpu := 0; ReservedResources.memory_mib := 0;
       ReservedResources.disk_gib := 0 |}.

Definition select (workers : list WorkerRegistration) (req : RuntimeRequirement) :
  result ScheduleError WorkerRegistration :=
  ok_or (min_by_key WorkerRegistration.running_executions
           (List.filter (fun w => worker_fits w req) workers))
        (ScheduleError.NoEligibleWorker req).

(** ** Theorems *)

(** What the placement rule promises, as a proposition: eligibility, platform,
    toolchains, room for the request beside what is reserved, runtime and
    capabilities. *)
Record placeable (worker : WorkerRegistration) (req : RuntimeRequirement)
    (reserved : ReservedResources) : Prop := {
  pl_ready : WorkerRegistration.state worker = WorkerState.Ready;
  pl_proof : WorkerRegistration.proof_is_complete worker = true;
  pl_slots : ReservedResources.slots reserved <
    WorkerCapabilities.max_concurrent_executions (WorkerRegistration.capabilities worker);
  pl_os : forall os, RuntimeRequirement.os req = Some os ->
    to_ascii_lowercase os =
    to_ascii_lowercase (WorkerCapabilities.os (WorkerRegistration.capabilities worker));
  pl_arch : forall arch, RuntimeRequirement.arch req = Some arch ->
    canonical_arch arch =
    canonical_arch (WorkerCapabilities.arch (WorkerRegistration.capabilities worker));
  pl_toolchains : RuntimeRequirement.toolchains req ⊆
    WorkerCapabilities.toolchains (WorkerRegistration.capabilities worker);
  pl_cpu : ReservedResources.cpu reserved + RuntimeRequirement.cpu req <=
    WorkerCapabilities.cpu (WorkerRegistration.capabilities worker);
  pl_memory : ReservedResources.memory_mib reserved + RuntimeRequirement.memory_mib req <=
    WorkerCapabilities.memory_mib (WorkerRegistration.capabilities worker);
  pl_disk : ReservedResources.disk_gib reserved + RuntimeRequirement.disk_gib req <=
    WorkerCapabilities.disk_gib (WorkerRegistration.capabilities worker);
  pl_runtime : RuntimeRequirement.kind req ∈
    WorkerCapabilities.runtimes (WorkerRegistration.capabilities worker);
  pl_capabilities : RuntimeRequirement.capabilities req ⊆
    WorkerCapabilities.capabilities (WorkerRegistration.capabilities worker)
}.

(** The requests for which room is a strict notion: [validate_runtime] accepts
    no request for zero CPU, memory or disk. *)
Definition positive_request (req : RuntimeRequirement) : Prop :=
  0 < RuntimeRequirement.cpu req /\ 0 < RuntimeRequirement.memory_mib req /\
  0 < RuntimeRequirement.disk_gib req.

Lemma if_false (b c : bool) : (if b then false else c) = true <-> b = false /\ c = true.
Proof. destruct b; naive_solver. Qed.

Lemma opt_guard {A} (o : option A) (f : A -> bool) :
  match o with Some a => negb (f a) | None => false end = false <->
  forall a, o = Some a -> f a = true.
Proof.
  destruct o as [a|]; [|naive_solver]. rewrite negb_false_iff. naive_solver.
Qed.

Lemma fits_iff_placeable worker req reserved :
  positive_request req ->
  worker_fits_with_reservations worker req reserved = true <-> placeable worker req reserved.
Proof.
  intros (Hc & Hm & Hd). unfold worker_fits_with_reservations. cbv zeta.
  rewrite !if_false, !opt_guard, !orb_false_iff, !negb_false_iff, !bool_decide_eq_true.
  rewrite !Z.ltb_ge, Z.leb_gt, !saturating_sub_le_iff, forallb_forall by done.
  unfold eq_ignore_ascii_case, arch_matches. setoid_rewrite bool_decide_eq_true.
  setoid_rewrite <- list_elem_of_In.
  split.
  - intros (((? & ?) & ?) & ? & ? & Ht & ((? & ?) & ?) & ? & ?). split; try done.
    apply map_subseteq_spec. done.
  - intros []. split_and!; try done.
    intros i x. by apply map_subseteq_spec.
Qed.

(** For a request of at least one CPU, MiB and GiB, the placement rule
    [worker_fits_with_reservations] says yes exactly when the worker is Ready
    with a complete proof and a free slot, matches the platform and toolchains,
    has the runtime and capabilities, and has room for the request beside the
    resources already reserved. *)
Theorem placement_rule_exact (worker : WorkerRegistration) (req : RuntimeRequirement)
    (reserved : ReservedResources) (Hreq : positive_request req) :
  worker_fits_with_reservations worker req reserved = true <-> placeable worker req reserved.
Proof. by apply fits_iff_placeable. Qed.

Definition example_worker (n : Z) : WorkerRegistration := {|
  WorkerRegistration.id := "buildbox-02";
  WorkerRegistration.capabilities := {|
    WorkerCapabilities.os := "linux"; WorkerCapabilities.arch := "x86_64";
    WorkerCapabilities.cpu := 32; WorkerCapabilities.memory_mib := 32768;
    WorkerCapabilities.disk_gib := 500;
    WorkerCapabilities.runtimes := [RuntimeKind.Docker];
    WorkerCapabilities.capabilities := ["docker"]%string;
    WorkerCapabilities.toolchains := {[ "rust"%string := "1.85.1"%string ]};
    WorkerCapabilities.max_concurrent_executions := 4;
    WorkerCapabilities.health_errors := [] |};
  WorkerRegistration.state := WorkerState.Ready;
  WorkerRegistration.running_executions := n;
  WorkerRegistration.last_heartbeat := 0;
  WorkerRegistration.capability_proof := Some {|
    WorkerCapabilityProof.storage_backend := "test";
    WorkerCapabilityProof.storage_pool_identity := "pool";
    WorkerCapabilityProof.docker_daemon_id := "daemon";
    WorkerCapabilityProof.docker_verifier := "probe";
    WorkerCapabilityProof.docker_method_version := "v1" |} |}.

Lemma placement_rule_exact_witness :
  worker_fits_with_reservations (example_worker 1) RuntimeRequirement.default
    {| ReservedResources.slots := 1; ReservedResources.cpu := 28;
       ReservedResources.memory_mib := 20000; ReservedResources.disk_gib := 480 |} = true /\
  placeable (example_worker 1) RuntimeRequirement.default
    {| ReservedResources.slots := 1; ReservedResources.cpu := 28;
       ReservedResources.memory_mib := 20000; ReservedResources.disk_gib := 480 |}.
Proof.
  split; [vm_compute; reflexivity|].
  apply (placement_rule_exact (example_worker 1) RuntimeRequirement.default);
    [|vm_compute; reflexivity].
  unfold positive_request. simpl. lia.
Defined.

Lemma placeable_mono worker req r r' :
  placeable worker req r ->
  ReservedResources.slots r' <= ReservedResources.slots r ->
  ReservedResources.cpu r' <= ReservedResources.cpu r ->
  ReservedResources.memory_mib r' <= ReservedResources.memory_mib r ->
  ReservedResources.disk_gib r' <= ReservedResources.disk_gib r ->
  placeable worker req r'.
Proof. intros [] ? ? ? ?. split; try done; lia. Qed.

(** [select] returns a worker that fits, whose running count no fitting
    worker of the list undercuts, and which is the first with that count; it
    fails exactly when no worker of the list fits. *)
Theorem select_least_loaded (workers : list WorkerRegistration) (req : RuntimeRequirement) :
  match select workers req with
  | Ok w =>
      worker_fits w req = true /\
      exists before after, workers = before ++ w :: after /\
        (forall v, v ∈ before -> worker_fits v req = true ->
           WorkerRegistration.running_executions w < WorkerRegistration.running_executions v) /\
        (forall v, v ∈ after -> worker_fits v req = true ->
           WorkerRegistration.running_executions w <= WorkerRegistration.running_executions v)
  | Err e => e = ScheduleError.NoEligibleWorker req /\
      forall v, v ∈ workers -> worker_fits v req = false
  end.
Proof.
  unfold select. destruct (min_by_key _ _) as [w|] eqn:E; simpl.
  - apply min_by_key_Some in E as (pre & post & Hf & Hpre & Hpost).
    rewrite Forall_forall in Hpre, Hpost.
    destruct (filter_middle _ _ _ _ _ Hf) as (b & a & -> & Hw & <- & <-). split; [done|].
    exists b, a. split; [done|].
    split; intros v Hv Hfit; [apply Hpre|apply Hpost];
      by apply elem_of_filter_bool.
  - split; [done|]. apply min_by_key_None in E. intros v Hv.
    destruct (worker_fits v req) eqn:Hfit; [|done].
    assert (v ∈ List.filter (fun w => worker_fits w req) workers) as Hin.
    { by apply elem_of_filter_bool. }
    rewrite E in Hin. by apply elem_of_nil in Hin.
Qed.

(** Architecture names: the aliases match each other, whatever their case. *)
Lemma arch_matches_aliases :
  arch_matches "AMD64" " x86_64" = true /\ arch_matches "arm64" "aarch64" = true /\
  arch_matches "amd64" "arm64" = false /\ arch_matches "riscv64" "RISCV64" = true.
Proof. vm_compute. done. Qed.

Lemma arch_matches_spec a b : arch_matches a b = true <-> canonical_arch a = canonical_arch b.
Proof. apply bool_decide_eq_true. Qed.
