(* ===== verification/DiskBudget.v ===== *)
(** * Disk admission budget of a worker

    Models [crates/autospec-worker/src/disk_budget.rs]: the byte and inode
    thresholds that make a worker stop accepting executions.  Sampling goes
    through [statvfs], whose answer is an input. *)

From S2P Require Import Prelude WorkerTypes.

















Definition DISK_PRESSURE_BYTES : string := "disk-pressure-bytes".
Definition DISK_PRESSURE_INODES : string := "disk-pressure-inodes".
Definition GIB : Z := 1024 * 1024 * 1024.

Module DiskSample.
Record DiskSample := {
  total_bytes : Z; free_bytes : Z; total_inodes : Z; free_inodes : Z  (* u64 *)
}.
End DiskSample.
Abbreviation DiskSample := DiskSample.DiskSample.

Module DiskVerdict.
Inductive DiskVerdict := Ok | Warn | Stop (reason : string).

#[global] Instance eq_dec : EqDecision DiskVerdict.
Proof. solve_decision. Defined.
End DiskVerdict.
Abbreviation DiskVerdict := DiskVerdict.DiskVerdict.

(** The products are computed at [u128]; [at_least_percent_no_overflow] shows
    they fit. *)
Definition at_least_percent (total free percent : Z) : bool :=
  if total =? 0 then false
  else let used := saturating_sub total free in total * percent <=? used * 100.

Definition judge (s : DiskSample) (warn stop reserve_bytes : Z) : DiskVerdict :=
  let bytes := at_least_percent (DiskSample.total_bytes s) (DiskSample.free_bytes s) in
  let inodes := at_least_percent (DiskSample.total_inodes s) (DiskSample.free_inodes s) in
  if bytes stop || ((0 <? reserve_bytes) && (DiskSample.free_bytes s <? reserve_bytes))
  then DiskVerdict.Stop DISK_PRESSURE_BYTES
  else if inodes stop then DiskVerdict.Stop DISK_PRESSURE_INODES
  else if bytes warn || inodes warn then DiskVerdict.Warn
  else DiskVerdict.Ok.

(** The fields of [statvfs] the sampler reads. *)
Record StatVfs := {
  f_frsize : Z; f_bsize : Z; f_blocks : Z; f_bavail : Z; f_files : Z; f_favail : Z
}.

Definition sample (stat : StatVfs) : DiskSample :=
  let block := if 0 <? f_frsize stat then f_frsize stat else f_bsize stat in
  {| DiskSample.total_bytes := saturating_mul_u64 (f_blocks stat) block;
     DiskSample.free_bytes := saturating_mul_u64 (f_bavail stat) block;
     DiskSample.total_inodes := f_files stat;
     DiskSample.free_inodes := f_favail stat |}.

Module DiskPolicy.
Record DiskPolicy := {
  warn_percent : Z;                   (* u8 *)
  stop_percent : Z;                   (* u8 *)
  reserve_bytes : Z                   (* u64 *)
}.

Definition new (warn_percent stop_percent reserve_gib : Z) : result string DiskPolicy :=
  _ ← check ((1 <=? stop_percent) && (stop_percent <=? 100) && (warn_percent <=? stop_percent))
        "disk thresholds must satisfy 0 <= warn <= stop <= 100 (stop >= 1)"%string;
  reserve_bytes ← ok_or (checked_mul_u64 reserve_gib GIB) "--disk-reserve-gib is too large"%string;
  Prelude.Ok {| warn_percent := warn_percent; stop_percent := stop_percent;
                reserve_bytes := reserve_bytes |}.

(** A failed sample is no pressure signal. *)
Definition assess (self : DiskPolicy) (sampled : result string DiskSample) : DiskVerdict :=
  match sampled with
  | Prelude.Ok s => judge s (warn_percent self) (stop_percent self) (reserve_bytes self)
  | Err _ => DiskVerdict.Ok
  end.
End DiskPolicy.
Abbreviation DiskPolicy := DiskPolicy.DiskPolicy.

(** ** Theorems *)

Definition severity (v : DiskVerdict) : Z :=
  match v with DiskVerdict.Ok => 0 | DiskVerdict.Warn => 1 | DiskVerdict.Stop _ => 2 end.

Lemma at_least_percent_no_overflow total free percent :
  0 <= total <= u64_max -> 0 <= free <= u64_max -> 0 <= percent <= u8_max ->
  0 <= saturating_sub total free * 100 < 2 ^ 128 /\ 0 <= total * percent < 2 ^ 128.
Proof.
  unfold saturating_sub, u64_max, u8_max. intros.
  change (2 ^ 64) with 18446744073709551616 in *. change (2 ^ 8) with 256 in *.
  change (2 ^ 128) with 340282366920938463463374607431768211456.
  destruct (Z.ltb_spec total free); nia.
Qed.

Lemma at_least_percent_spec total free percent :
  0 < total -> 0 <= free <= total ->
  at_least_percent total free percent = true <-> total * percent <= (total - free) * 100.
Proof.
  intros. unfold at_least_percent, saturating_sub.
  destruct (Z.eqb_spec total 0); [lia|]. destruct (Z.ltb_spec total free); [lia|].
  by rewrite Z.leb_le.
Qed.

Lemma at_least_percent_free total free free' percent :
  free' <= free -> at_least_percent total free percent = true ->
  at_least_percent total free' percent = true.
Proof.
  unfold at_least_percent, saturating_sub. intros ?.
  destruct (Z.eqb_spec total 0); [done|]. rewrite !Z.leb_le.
  destruct (Z.ltb_spec total free), (Z.ltb_spec total free'); lia.
Qed.

Lemma at_least_percent_lower total free p q :
  0 <= total -> q <= p -> at_least_percent total free p = true -> at_least_percent total free q = true.
Proof.
  unfold at_least_percent. intros ? ?. destruct (Z.eqb_spec total 0); [done|].
  rewrite !Z.leb_le. nia.
Qed.

(** Two samples of one filesystem, the second with no more free space. *)
Definition fuller (s s' : DiskSample) : Prop :=
  DiskSample.total_bytes s' = DiskSample.total_bytes s /\
  DiskSample.total_inodes s' = DiskSample.total_inodes s /\
  DiskSample.free_bytes s' <= DiskSample.free_bytes s /\
  DiskSample.free_inodes s' <= DiskSample.free_inodes s.

Lemma severity_judge s warn stop reserve :
  severity (judge s warn stop reserve) =
  let bytes := at_least_percent (DiskSample.total_bytes s) (DiskSample.free_bytes s) in
  let inodes := at_least_percent (DiskSample.total_inodes s) (DiskSample.free_inodes s) in
  if bytes stop || ((0 <? reserve) && (DiskSample.free_bytes s <? reserve)) || inodes stop
  then 2 else if bytes warn || inodes warn then 1 else 0.
Proof.
  unfold judge. cbv zeta. destruct (_ || _); simpl; [done|].
  destruct (at_least_percent _ _ stop); [done|]. by destruct (_ || _).
Qed.

Lemma level_mono (a a' b b' : bool) :
  (a = true -> a' = true) -> (b = true -> b' = true) ->
  (if a then 2 else if b then 1 else 0) <= (if a' then 2 else if b' then 1 else 0).
Proof. destruct a, a', b, b'; intros; try lia; naive_solver. Qed.

Lemma judge_mono s s' warn stop reserve :
  fuller s s' -> severity (judge s warn stop reserve) <= severity (judge s' warn stop reserve).
Proof.
  intros (Hb & Hi & Hfb & Hfi). rewrite !severity_judge. cbv zeta. rewrite Hb, Hi.
  apply level_mono; rewrite !orb_true_iff, ?andb_true_iff, ?Z.ltb_lt.
  - intros [[?|?]|?]; [left; left|left; right; lia|right]; by eapply at_least_percent_free.
  - intros [?|?]; [left|right]; by eapply at_least_percent_free.
Qed.

Lemma policy_new_Ok w st g p :
  DiskPolicy.new w st g = Prelude.Ok p <->
  1 <= st <= 100 /\ w <= st /\ g * GIB <= u64_max /\
  p = {| DiskPolicy.warn_percent := w; DiskPolicy.stop_percent := st;
         DiskPolicy.reserve_bytes := g * GIB |}.
Proof.
  unfold DiskPolicy.new, checked_mul_u64. rewrite result_bind_Ok.
  setoid_rewrite check_Ok. setoid_rewrite result_bind_Ok. setoid_rewrite ok_or_Ok.
  destruct (Z.leb_spec (g * GIB) u64_max).
  - split.
    + intros (_ & Hb & r & [= <-] & [= <-]). bools.
      split_and!; [lia..|done].
    + intros (? & ? & ? & ->). exists tt. bools. split; [lia|]. eauto.
  - split; [naive_solver|]. intros (_ & _ & ? & _). lia.
Qed.

(** The disk budget.  Under a policy accepted by [DiskPolicy::new], a
    sample with less free space never gets a milder verdict; a verdict that
    stops admission carries a health code the controller accepts as sanitized;
    and the verdict is [Ok] only if both bytes and inodes are below the warn
    threshold and the byte reserve is free. *)
Theorem disk_policy_sound (w st g : Z) (p : DiskPolicy) (s s' : DiskSample) :
  DiskPolicy.new w st g = Prelude.Ok p -> fuller s s' -> 0 < DiskSample.total_bytes s ->
  0 <= DiskSample.free_bytes s <= DiskSample.total_bytes s ->
  severity (DiskPolicy.assess p (Prelude.Ok s)) <= severity (DiskPolicy.assess p (Prelude.Ok s')) /\
  (forall code, DiskPolicy.assess p (Prelude.Ok s) = DiskVerdict.Stop code ->
     code ∈ WorkerCapabilities.sanitized_codes) /\
  (DiskPolicy.assess p (Prelude.Ok s) = DiskVerdict.Ok ->
     (DiskSample.total_bytes s - DiskSample.free_bytes s) * 100 < DiskSample.total_bytes s * w /\
     (DiskSample.total_bytes s - DiskSample.free_bytes s) * 100 < DiskSample.total_bytes s * st /\
     (0 < g -> g * GIB <= DiskSample.free_bytes s)).
Proof.
  rewrite policy_new_Ok. intros (Hst & Hw & Hg & ->) Hf Ht Hfree. simpl. split_and!.
  - by apply judge_mono.
  - intros code. unfold judge, WorkerCapabilities.sanitized_codes.
    repeat case_match; intros [= <-]; set_solver.
  - intros HOk. pose proof (severity_judge s w st (g * GIB)) as Hs. rewrite HOk in Hs.
    cbv zeta in Hs. simpl in Hs.
    destruct (_ || at_least_percent _ _ st) eqn:E1; [done|].
    destruct (_ || at_least_percent _ _ w) eqn:E2; [done|]. clear Hs.
    rewrite !orb_false_iff, andb_false_iff in E1. rewrite orb_false_iff in E2.
    destruct E1 as [[B1 R] _]. destruct E2 as [B2 _].
    apply not_true_iff_false in B1, B2. rewrite at_least_percent_spec in B1, B2 by lia.
    rewrite !Z.ltb_ge in R. unfold GIB in *. lia.
Qed.

Definition example_sample (used_bytes used_inodes : Z) : DiskSample := {|
  DiskSample.total_bytes := 1000; DiskSample.free_bytes := 1000 - used_bytes * 10;
  DiskSample.total_inodes := 1000; DiskSample.free_inodes := 1000 - used_inodes * 10 |}.

Lemma disk_policy_sound_witness :
  severity (judge (example_sample 50 50) 80 90 0) <= severity (judge (example_sample 85 95) 80 90 0).
Proof.
  refine (proj1 (disk_policy_sound 80 90 0
    {| DiskPolicy.warn_percent := 80; DiskPolicy.stop_percent := 90; DiskPolicy.reserve_bytes := 0 |}
    (example_sample 50 50) (example_sample 85 95) _ _ _ _));
    [reflexivity|repeat split; simpl; lia|simpl; lia|simpl; lia].
Defined.
