(* ===== verification/Health.v ===== *)
(** * Execution health

    Models [crates/orchestrator-worker/src/health.rs] (the monitor that
    classifies a running execution) and the watchdog throttle at the end of
    [run.rs].  An [Instant] and a [Duration] are nanoseconds. *)

From S2P Require Import Prelude Core.
















From Stdlib Require Import SpecFloat.

Definition SECOND : Z := 1000000000.

(** [Instant::duration_since] and [saturating_duration_since]: zero when the
    argument is later. *)
Definition duration_since (now earlier : Z) : Z := Z.max 0 (now - earlier).

(** [95.0_f64]. *)
Definition CPU_SATURATION_PERCENT : f64 := S754_finite false 6685030696878080 (-46).

Module ResourceSample.
Record ResourceSample := {
  cpu_percent : f64;
  io_bytes : option Z;                (* u64 *)
  rss_bytes : option Z;               (* u64 *)
  disk_bytes : option Z;              (* u64 *)
  current_command : option string
}.
End ResourceSample.
Abbreviation ResourceSample := ResourceSample.ResourceSample.

Module HealthAssessment.
Inductive HealthAssessment :=
| Healthy
| QuietHealthy (quiet_seconds : Z)
| InactiveWarning (seconds : Z)
| Failed (failure : FailureClass).
End HealthAssessment.
Abbreviation HealthAssessment := HealthAssessment.HealthAssessment.

Module HealthMonitor.
Record HealthMonitor := {
  started_at : Z;
  last_event_at : Z;
  last_progress_at : Z;
  last_io_bytes : option Z;
  saturated_since : option Z;
  paused_at : option Z;
  warned_for_event_window : bool;
  inactivity : Z;
  wall_clock : Z;
  cpu_saturation : Z
}.

Definition new_at (started_at inactivity wall_clock cpu_saturation : Z) : HealthMonitor := {|
  started_at := started_at; last_event_at := started_at; last_progress_at := started_at;
  last_io_bytes := None; saturated_since := None; paused_at := None;
  warned_for_event_window := false; inactivity := inactivity; wall_clock := wall_clock;
  cpu_saturation := cpu_saturation |}.

Definition default_at (started_at : Z) : HealthMonitor :=
  new_at started_at (900 * SECOND) (14400 * SECOND) (3600 * SECOND).

Definition record_event (at_ : Z) (m : HealthMonitor) : HealthMonitor := {|
  started_at := started_at m; last_event_at := at_; last_progress_at := last_progress_at m;
  last_io_bytes := last_io_bytes m; saturated_since := saturated_since m;
  paused_at := paused_at m; warned_for_event_window := false;
  inactivity := inactivity m; wall_clock := wall_clock m; cpu_saturation := cpu_saturation m |}.

Definition pause (at_ : Z) (m : HealthMonitor) : HealthMonitor := {|
  started_at := started_at m; last_event_at := last_event_at m;
  last_progress_at := last_progress_at m; last_io_bytes := last_io_bytes m;
  saturated_since := saturated_since m;
  paused_at := match paused_at m with None => Some at_ | Some p => Some p end;
  warned_for_event_window := warned_for_event_window m;
  inactivity := inactivity m; wall_clock := wall_clock m; cpu_saturation := cpu_saturation m |}.

Definition resume (at_ : Z) (m : HealthMonitor) : HealthMonitor :=
  match paused_at m with
  | None => m
  | Some paused =>
      let suspended := duration_since at_ paused in {|
        started_at := started_at m + suspended;
        last_event_at := last_event_at m + suspended;
        last_progress_at := last_progress_at m + suspended;
        last_io_bytes := last_io_bytes m;
        saturated_since := (fun s => s + suspended) <$> saturated_since m;
        paused_at := None;
        warned_for_event_window := warned_for_event_window m;
        inactivity := inactivity m; wall_clock := wall_clock m;
        cpu_saturation := cpu_saturation m |}
  end.

(** The [if let Some(io_bytes)] block of [assess]. *)
Definition observe_io (now : Z) (sample : ResourceSample) (m : HealthMonitor) : HealthMonitor :=
  match ResourceSample.io_bytes sample with
  | None => m
  | Some io =>
      let rose := match last_io_bytes m with Some previous => previous <? io | None => false end in {|
        started_at := started_at m; last_event_at := last_event_at m;
        last_progress_at := if rose then now else last_progress_at m;
        last_io_bytes := Some io; saturated_since := saturated_since m;
        paused_at := paused_at m;
        warned_for_event_window := if rose then false else warned_for_event_window m;
        inactivity := inactivity m; wall_clock := wall_clock m;
        cpu_saturation := cpu_saturation m |}
  end.

Definition set_saturated (s : option Z) (m : HealthMonitor) : HealthMonitor := {|
  started_at := started_at m; last_event_at := last_event_at m;
  last_progress_at := last_progress_at m; last_io_bytes := last_io_bytes m;
  saturated_since := s; paused_at := paused_at m;
  warned_for_event_window := warned_for_event_window m;
  inactivity := inactivity m; wall_clock := wall_clock m; cpu_saturation := cpu_saturation m |}.

Definition set_warned (m : HealthMonitor) : HealthMonitor := {|
  started_at := started_at m; last_event_at := last_event_at m;
  last_progress_at := last_progress_at m; last_io_bytes := last_io_bytes m;
  saturated_since := saturated_since m; paused_at := paused_at m;
  warned_for_event_window := true;
  inactivity := inactivity m; wall_clock := wall_clock m; cpu_saturation := cpu_saturation m |}.

Definition saturated (sample : ResourceSample) : bool :=
  SFltb CPU_SATURATION_PERCENT (ResourceSample.cpu_percent sample).

(** The last part of [assess], after the CPU check. *)
Definition assess_quiet (now silent_for inactive_for : Z) (m : HealthMonitor) :
  HealthAssessment * HealthMonitor :=
  if negb (warned_for_event_window m) && (inactivity m / 2 <=? inactive_for) then
    (HealthAssessment.InactiveWarning (inactive_for / SECOND), set_warned m)
  else if inactivity m <? silent_for then
    (HealthAssessment.QuietHealthy (silent_for / SECOND), m)
  else (HealthAssessment.Healthy, m).

Definition assess (now : Z) (sample : ResourceSample) (m : HealthMonitor) :
  HealthAssessment * HealthMonitor :=
  match paused_at m with
  | Some _ => (HealthAssessment.Healthy, m)
  | None =>
      if wall_clock m <? duration_since now (started_at m) then
        (HealthAssessment.Failed FailureClass.Timeout, m)
      else
        let m := observe_io now sample m in
        let silent_for := duration_since now (last_event_at m) in
        let inactive_for :=
          duration_since now (Z.max (last_event_at m) (last_progress_at m)) in
        if inactivity m <? inactive_for then
          (HealthAssessment.Failed FailureClass.Inactivity, m)
        else if saturated sample then
          let since := default now (saturated_since m) in
          let m := set_saturated (Some since) m in
          if cpu_saturation m <=? duration_since now since then
            (HealthAssessment.Failed FailureClass.ResourceViolation, m)
          else assess_quiet now silent_for inactive_for m
        else assess_quiet now silent_for inactive_for (set_saturated None m)
  end.
End HealthMonitor.
Abbreviation HealthMonitor := HealthMonitor.HealthMonitor.

(** [fn verdict_of] of [run.rs]. *)
Definition verdict_of (assessment : HealthAssessment) : WatchdogVerdict :=
  match assessment with
  | HealthAssessment.Healthy => WatchdogVerdict.Healthy
  | HealthAssessment.QuietHealthy _ => WatchdogVerdict.QuietHealthy
  | HealthAssessment.InactiveWarning _ => WatchdogVerdict.Healthy
  | HealthAssessment.Failed _ => WatchdogVerdict.Stalled
  end.

Module SampleThrottle.
Record SampleThrottle := {
  last_emitted_at : option Z;
  last_verdict : option WatchdogVerdict
}.

Definition empty : SampleThrottle := {| last_emitted_at := None; last_verdict := None |}.

Definition is_due (self : SampleThrottle) (now : Z) (verdict : WatchdogVerdict) : bool :=
  bool_decide (last_emitted_at self = None)
  || negb (bool_decide (last_verdict self = Some verdict))
  || match last_emitted_at self with Some last => last + 60 * SECOND <=? now | None => false end.

Definition mark_emitted (now : Z) (verdict : WatchdogVerdict) : SampleThrottle :=
  {| last_emitted_at := Some now; last_verdict := Some verdict |}.

(** The samples [drive_running] records of a sequence of probes. *)
Fixpoint emitted (self : SampleThrottle) (probes : list (Z * WatchdogVerdict)) :
  list (Z * WatchdogVerdict) :=
  match probes with
  | [] => []
  | (now, verdict) :: probes =>
      if is_due self now verdict
      then (now, verdict) :: emitted (mark_emitted now verdict) probes
      else emitted self probes
  end.
End SampleThrottle.
Abbreviation SampleThrottle := SampleThrottle.SampleThrottle.

(** ** Theorems *)
Section HealthFacts.
Import HealthMonitor.

(** Moving every instant of a monitor by [d]. *)
Definition shift (d : Z) (m : HealthMonitor) : HealthMonitor := {|
  started_at := started_at m + d; last_event_at := last_event_at m + d;
  last_progress_at := last_progress_at m + d; last_io_bytes := last_io_bytes m;
  saturated_since := (fun s => s + d) <$> saturated_since m;
  paused_at := (fun s => s + d) <$> paused_at m;
  warned_for_event_window := warned_for_event_window m;
  inactivity := inactivity m; wall_clock := wall_clock m;
  cpu_saturation := cpu_saturation m |}.

Lemma duration_shift now t d : duration_since (now + d) (t + d) = duration_since now t.
Proof. unfold duration_since. lia. Qed.

Lemma duration_shift_max now a b d :
  duration_since (now + d) (Z.max (a + d) (b + d)) = duration_since now (Z.max a b).
Proof. unfold duration_since. lia. Qed.

Lemma observe_io_shift now d sample m :
  observe_io (now + d) sample (shift d m) = shift d (observe_io now sample m).
Proof.
  unfold observe_io, shift. destruct (ResourceSample.io_bytes sample); [|done]. simpl.
  by case_match; [case_match|].
Qed.

Lemma assess_quiet_shift now d s i m :
  assess_quiet (now + d) s i (shift d m) =
  ((assess_quiet now s i m).1, shift d (assess_quiet now s i m).2).
Proof. unfold assess_quiet. simpl. repeat case_match; done. Qed.

Lemma set_saturated_shift d s m :
  set_saturated ((fun x => x + d) <$> s) (shift d m) = shift d (set_saturated s m).
Proof. done. Qed.

(** Health depends on elapsed time only, not on the origin of the clock. *)
Lemma assess_shift now d sample m :
  assess (now + d) sample (shift d m) =
  ((assess now sample m).1, shift d (assess now sample m).2).
Proof.
  unfold assess. simpl. destruct (paused_at m); simpl; [done|].
  rewrite duration_shift. case_match; [done|].
  rewrite observe_io_shift. set (o := observe_io now sample m). simpl.
  rewrite duration_shift_max. case_match; [done|].
  destruct (saturated sample).
  - assert (default (now + d) ((fun s => s + d) <$> saturated_since o) =
            default now (saturated_since o) + d) as -> by (by destruct (saturated_since o)).
    rewrite duration_shift. simpl. case_match; [done|].
    rewrite duration_shift.
    apply (assess_quiet_shift now d _ _
             (set_saturated (Some (default now (saturated_since o))) o)).
  - rewrite duration_shift. apply (assess_quiet_shift now d _ _ (set_saturated None o)).
Qed.

Lemma resume_pause m t d :
  paused_at m = None -> 0 <= d -> resume (t + d) (pause t m) = shift d m.
Proof.
  intros Hp Hd. unfold resume, pause, shift, duration_since. simpl. rewrite Hp. simpl.
  assert (Z.max 0 (t + d - t) = d) as -> by lia. done.
Qed.

(** Progress: an event, or an I/O counter that rose since the last probe. *)
Definition last_activity (now : Z) (sample : ResourceSample) (m : HealthMonitor) : Z :=
  let o := observe_io now sample m in Z.max (last_event_at o) (last_progress_at o).

Lemma assess_quiet_not_failed now s i m f :
  (assess_quiet now s i m).1 <> HealthAssessment.Failed f.
Proof. unfold assess_quiet. by repeat case_match. Qed.

Lemma assess_not_paused now sample m :
  paused_at m = None ->
  (assess now sample m).1 =
    if wall_clock m <? duration_since now (started_at m) then
      HealthAssessment.Failed FailureClass.Timeout
    else if inactivity m <? duration_since now (last_activity now sample m) then
      HealthAssessment.Failed FailureClass.Inactivity
    else if saturated sample &&
            (cpu_saturation m <=? duration_since now (default now (saturated_since m))) then
      HealthAssessment.Failed FailureClass.ResourceViolation
    else (assess_quiet now (duration_since now (last_event_at m))
            (duration_since now (last_activity now sample m)) (observe_io now sample m)).1.
Proof.
  intros Hp. unfold assess. rewrite Hp. case_match; [done|].
  assert (inactivity (observe_io now sample m) = inactivity m /\
          cpu_saturation (observe_io now sample m) = cpu_saturation m /\
          saturated_since (observe_io now sample m) = saturated_since m /\
          last_event_at (observe_io now sample m) = last_event_at m) as (E1 & E2 & E3 & E4).
  { unfold observe_io. by case_match. }
  fold (last_activity now sample m).
  change (Z.max (last_event_at (observe_io now sample m))
            (last_progress_at (observe_io now sample m))) with (last_activity now sample m).
  rewrite E1, E4. case_match; [done|]. unfold set_saturated.
  destruct (saturated sample); simpl; rewrite ?E2, ?E3.
  - case_match; [done|]. unfold assess_quiet. simpl. by repeat case_match.
  - unfold assess_quiet. simpl. by repeat case_match.
Qed.
End HealthFacts.

(** Suspended time is invisible to the watchdog.  A monitor paused at [t]
    and resumed [d] later judges every later probe exactly as the monitor that
    was never paused judges it [d] earlier, and stays in step with it. *)
Theorem pause_resume_invisible (m : HealthMonitor) (t d now : Z) (sample : ResourceSample) :
  HealthMonitor.paused_at m = None -> 0 <= d ->
  HealthMonitor.assess (now + d) sample
    (HealthMonitor.resume (t + d) (HealthMonitor.pause t m)) =
  ((HealthMonitor.assess now sample m).1, shift d (HealthMonitor.assess now sample m).2).
Proof. intros Hp Hd. rewrite resume_pause by done. apply assess_shift. Qed.

Definition busy_sample (io : option Z) : ResourceSample := {|
  ResourceSample.cpu_percent := CPU_SATURATION_PERCENT; ResourceSample.io_bytes := io;
  ResourceSample.rss_bytes := None; ResourceSample.disk_bytes := None;
  ResourceSample.current_command := None |}.

Lemma pause_resume_invisible_witness :
  (HealthMonitor.assess (1000 * SECOND + 7200 * SECOND) (busy_sample None)
    (HealthMonitor.resume (10 * SECOND + 7200 * SECOND)
       (HealthMonitor.pause (10 * SECOND) (HealthMonitor.default_at 0)))).1 =
  HealthAssessment.Failed FailureClass.Inactivity.
Proof.
  rewrite (pause_resume_invisible (HealthMonitor.default_at 0) (10 * SECOND) (7200 * SECOND)
             (1000 * SECOND) (busy_sample None)); [reflexivity|reflexivity|].
  unfold SECOND. lia.
Defined.

(** What fails a running execution.  Unless paused, an execution is failed
    for [Timeout] exactly when it ran longer than the wall clock; otherwise for
    [Inactivity] exactly when neither an event nor a rising I/O counter was seen
    within the inactivity window, whatever its CPU use; and only otherwise for a
    [ResourceViolation], when the CPU was saturated for the whole saturation
    window. *)
Theorem health_failure_exact (m : HealthMonitor) (now : Z) (sample : ResourceSample)
    (f : FailureClass) :
  HealthMonitor.paused_at m = None ->
  (HealthMonitor.assess now sample m).1 = HealthAssessment.Failed f <->
  let ran := duration_since now (HealthMonitor.started_at m) in
  let idle := duration_since now (last_activity now sample m) in
  (f = FailureClass.Timeout /\ HealthMonitor.wall_clock m < ran) \/
  (f = FailureClass.Inactivity /\ ran <= HealthMonitor.wall_clock m /\
     HealthMonitor.inactivity m < idle) \/
  (f = FailureClass.ResourceViolation /\ ran <= HealthMonitor.wall_clock m /\
     idle <= HealthMonitor.inactivity m /\ HealthMonitor.saturated sample = true /\
     HealthMonitor.cpu_saturation m <=
       duration_since now (default now (HealthMonitor.saturated_since m))).
Proof.
  intros Hp. rewrite assess_not_paused by done. cbv zeta.
  destruct (Z.ltb_spec (HealthMonitor.wall_clock m) (duration_since now (HealthMonitor.started_at m))).
  { split; [naive_solver lia|]. intros [[-> _]|[(_ & ? & _)|(_ & ? & _)]]; [done|lia|lia]. }
  destruct (Z.ltb_spec (HealthMonitor.inactivity m) (duration_since now (last_activity now sample m))).
  { split; [naive_solver lia|]. intros [[_ ?]|[(-> & _)|(_ & _ & ? & _)]]; [lia|done|lia]. }
  destruct (_ && _) eqn:E.
  - rewrite andb_true_iff, Z.leb_le in E. split; [naive_solver lia|].
    intros [[_ ?]|[(_ & _ & ?)|(-> & _)]]; [lia|lia|done].
  - rewrite andb_false_iff, Z.leb_gt in E. split.
    + intros Hf. by apply assess_quiet_not_failed in Hf.
    + intros [[_ ?]|[(_ & _ & ?)|(_ & _ & _ & Hs & ?)]]; [lia|lia|].
      rewrite Hs in E. naive_solver lia.
Qed.

Lemma health_failure_exact_witness :
  (HealthMonitor.assess (901 * SECOND) (busy_sample (Some 5)) (HealthMonitor.default_at 0)).1 =
  HealthAssessment.Failed FailureClass.Inactivity.
Proof.
  apply (health_failure_exact (HealthMonitor.default_at 0) (901 * SECOND) (busy_sample (Some 5))
           FailureClass.Inactivity); [reflexivity|].
  right. left. vm_compute. done.
Defined.

(** The watchdog throttle.  Of the samples recorded for a sequence of
    probes, any two consecutive ones carry different verdicts or are at least
    60 seconds apart, and the first probe is always recorded. *)
Theorem throttle_spacing (now : Z) (v : WatchdogVerdict) (probes : list (Z * WatchdogVerdict)) :
  exists rest, SampleThrottle.emitted SampleThrottle.empty ((now, v) :: probes) = (now, v) :: rest /\
  forall pre a b post, (now, v) :: rest = pre ++ a :: b :: post ->
    a.2 <> b.2 \/ a.1 + 60 * SECOND <= b.1.
Proof.
  eexists. split; [reflexivity|].
  assert (G : forall probes now v pre a b post,
    (now, v) :: SampleThrottle.emitted (SampleThrottle.mark_emitted now v) probes =
      pre ++ a :: b :: post -> a.2 <> b.2 \/ a.1 + 60 * SECOND <= b.1); [|apply G].
  clear. induction probes as [|[n w] probes IH]; intros now v pre a b post; simpl.
  { by destruct pre as [|? [|? ?]]. }
  unfold SampleThrottle.is_due at 1. simpl. case_bool_decide as Hv; simpl.
  - injection Hv as ->. destruct (Z.leb_spec (now + 60 * SECOND) n); [|apply IH].
    destruct pre as [|p pre]; [|intros [= _ Hp]; by eapply IH].
    intros [= <- <- _]. simpl. auto.
  - destruct pre as [|p pre]; [|intros [= _ Hp]; by eapply IH].
    intros [= <- <- _]. simpl. left. congruence.
Qed.
