(* ===== verification/Database.v ===== *)
(** * The controller database

    The tables of [crates/orchestrator-persistence/migrations], the errors of
    [error.rs] and the transaction discipline every store of the crate follows.

    A table is a finite map from its primary key to its row.  Columns that hold
    serde values ([state], [role], [manifest], [labels], [result], [action])
    hold the decoded value: [Core.state_text_roundtrip] is the round trip the
    text columns rely on.  [cleanup_authorities.phase] stays text, because the
    code parses it and compares it as text.  [updated_at] columns no query
    reads are left out.

    A transaction runs as one atomic step: the code takes the row locks
    ([FOR UPDATE]) its guards depend on, so no other transaction changes the
    rows between a guard and the write.  A transaction that returns an error
    before [commit] leaves the database as it was. *)

From S2P Require Import Prelude Core WorkerTypes.

















(** ** Errors ([error.rs]) *)
Module StoreError.
Inductive StoreError :=
| Db (message : string)
| NotFound (id : string)
| IllegalTransition (from to : ExecutionState)
| Conflict (message : string)
| IdempotencyConflict (message : string)
| DuplicateExecutionId (message : string)
| SequenceConflict
| CapacityExhausted (worker : WorkerId)
| InvalidArtifactName (name : string).
End StoreError.
Abbreviation StoreError := StoreError.StoreError.

(** ** JSON values of the [handles] column *)
Inductive Value :=
| Null
| Bool (b : bool)
| Number (z : Z)
| Str (s : string)
| Array (l : list Value)
| Object (fields : list (string * Value)).

(** serde_json on texts ([from_slice::<Value>]). *)
Class JsonText := { value_from_slice : string -> option Value }.

(** [Value::get(&str)]: a field of an object. *)
Definition value_get (key : string) (v : Value) : option Value :=
  match v with
  | Object fields => (list_find (fun kv => kv.1 = key) fields) ≫= fun p => Some p.2.2
  | _ => None
  end.

Definition value_is_null (v : Value) : bool := match v with Null => true | _ => false end.
Definition value_as_str (v : Value) : option string :=
  match v with Str s => Some s | _ => None end.

(** ** Rows *)
Module ExecutionRow.
Record ExecutionRow := { execution : Execution; version : Z (* BIGINT *) }.
End ExecutionRow.
Abbreviation ExecutionRow := ExecutionRow.ExecutionRow.

Module ReservationRow.
Record ReservationRow := {
  execution_id : ExecutionId;
  worker_id : WorkerId;
  attempt_id : AttemptId;
  cpu : Z;                            (* INTEGER *)
  memory_mib : Z;                     (* BIGINT *)
  disk_gib : Z;                       (* BIGINT *)
  created_at : Timestamp
}.
End ReservationRow.
Abbreviation ReservationRow := ReservationRow.ReservationRow.

Module AttemptRow.
Record AttemptRow := {
  execution_id : ExecutionId;
  worker_id : WorkerId;
  state : ExecutionState;
  worktree_path : option string;
  session_id : option SessionId;
  result : option ExecutionResult;
  finished_at : option Timestamp
}.
End AttemptRow.
Abbreviation AttemptRow := AttemptRow.AttemptRow.

Module CleanupAuthority.
Record CleanupAuthority := {
  execution_id : ExecutionId;
  attempt_id : AttemptId;
  worker_id : WorkerId;
  phase : string;
  handles : Value;
  created_at : Timestamp;
  updated_at : Timestamp
}.

Definition set_phase (p : string) (now : Timestamp) (c : CleanupAuthority) : CleanupAuthority :=
  {| execution_id := execution_id c; attempt_id := attempt_id c; worker_id := worker_id c;
     phase := p; handles := handles c; created_at := created_at c; updated_at := now |}.

Definition set_phase_handles (p : string) (h : Value) (now : Timestamp) (c : CleanupAuthority) :
  CleanupAuthority :=
  {| execution_id := execution_id c; attempt_id := attempt_id c; worker_id := worker_id c;
     phase := p; handles := h; created_at := created_at c; updated_at := now |}.
End CleanupAuthority.
Abbreviation CleanupAuthority := CleanupAuthority.CleanupAuthority.

Module CancellationRow.
Record CancellationRow := { requested_at : Timestamp; completed_at : option Timestamp }.
End CancellationRow.
Abbreviation CancellationRow := CancellationRow.CancellationRow.

(** The five texts the [phase] column's CHECK constraint allows. *)
Module ControlPhase.
Inductive ControlPhase := ACCEPTED | APPLYING | SIDE_EFFECT_APPLIED | COMPLETED | STALE.

#[global] Instance eq_dec : EqDecision ControlPhase.
Proof. solve_decision. Defined.

Definition text (p : ControlPhase) : string :=
  match p with
  | ACCEPTED => "ACCEPTED" | APPLYING => "APPLYING"
  | SIDE_EFFECT_APPLIED => "SIDE_EFFECT_APPLIED" | COMPLETED => "COMPLETED"
  | STALE => "STALE"
  end.

(** [phase IN ('ACCEPTED', 'APPLYING', 'SIDE_EFFECT_APPLIED')]. *)
Definition pending (p : ControlPhase) : bool :=
  match p with ACCEPTED | APPLYING | SIDE_EFFECT_APPLIED => true | _ => false end.
End ControlPhase.
Abbreviation ControlPhase := ControlPhase.ControlPhase.

Module ControlRow.
Record ControlRow := {
  execution_id : ExecutionId;
  action : ExecutionControlAction;
  idempotency_key : string;
  accepted_worker_id : WorkerId;
  accepted_attempt_id : AttemptId;
  source_session_id : SessionId;
  worktree_path : string;
  accepted_execution_version : Z;
  accepted_state : ExecutionState;
  target_session_id : option SessionId;
  side_effect_session_id : option SessionId;
  phase : ControlPhase;
  stale_reason : option string;
  requested_at : Timestamp;
  completed_at : option Timestamp
}.

(** The columns the updates of the control table change. *)
Definition set_progress (p : ControlPhase) (side_effect : option SessionId)
    (reason : option string) (completed : option Timestamp) (c : ControlRow) : ControlRow :=
  {| execution_id := execution_id c; action := action c; idempotency_key := idempotency_key c;
     accepted_worker_id := accepted_worker_id c; accepted_attempt_id := accepted_attempt_id c;
     source_session_id := source_session_id c; worktree_path := worktree_path c;
     accepted_execution_version := accepted_execution_version c;
     accepted_state := accepted_state c; target_session_id := target_session_id c;
     side_effect_session_id := side_effect; phase := p; stale_reason := reason;
     requested_at := requested_at c; completed_at := completed |}.
End ControlRow.
Abbreviation ControlRow := ControlRow.ControlRow.

Module RequestRow.
Record RequestRow := {
  request_scope : string;
  execution_id : ExecutionId;
  created_at : Timestamp
}.
End RequestRow.
Abbreviation RequestRow := RequestRow.RequestRow.

(** ** The database *)
Record Database := {
  executions : gmap ExecutionId ExecutionRow;
  workers : gmap WorkerId WorkerRegistration;
  reservations : gmap ExecutionId ReservationRow;
  execution_attempts : gmap AttemptId AttemptRow;
  cleanup_authorities : gmap ExecutionId CleanupAuthority;
  execution_cancellation_requests : gmap ExecutionId CancellationRow;
  execution_control_requests : gmap Z ControlRow;
  control_request_sequence : Z;       (* last value of the BIGSERIAL *)
  execution_events : list ExecutionEvent;
  execution_requests : gmap string RequestRow
}.

Definition empty_database : Database := {|
  executions := ∅; workers := ∅; reservations := ∅; execution_attempts := ∅;
  cleanup_authorities := ∅; execution_cancellation_requests := ∅;
  execution_control_requests := ∅; control_request_sequence := 0;
  execution_events := []; execution_requests := ∅ |}.

Definition set_executions (t : gmap ExecutionId ExecutionRow) (db : Database) : Database :=
  {| executions := t; workers := workers db; reservations := reservations db;
     execution_attempts := execution_attempts db; cleanup_authorities := cleanup_authorities db;
     execution_cancellation_requests := execution_cancellation_requests db;
     execution_control_requests := execution_control_requests db;
     control_request_sequence := control_request_sequence db;
     execution_events := execution_events db; execution_requests := execution_requests db |}.

Definition set_workers (t : gmap WorkerId WorkerRegistration) (db : Database) : Database :=
  {| executions := executions db; workers := t; reservations := reservations db;
     execution_attempts := execution_attempts db; cleanup_authorities := cleanup_authorities db;
     execution_cancellation_requests := execution_cancellation_requests db;
     execution_control_requests := execution_control_requests db;
     control_request_sequence := control_request_sequence db;
     execution_events := execution_events db; execution_requests := execution_requests db |}.

Definition set_reservations (t : gmap ExecutionId ReservationRow) (db : Database) : Database :=
  {| executions := executions db; workers := workers db; reservations := t;
     execution_attempts := execution_attempts db; cleanup_authorities := cleanup_authorities db;
     execution_cancellation_requests := execution_cancellation_requests db;
     execution_control_requests := execution_control_requests db;
     control_request_sequence := control_request_sequence db;
     execution_events := execution_events db; execution_requests := execution_requests db |}.

Definition set_attempts (t : gmap AttemptId AttemptRow) (db : Database) : Database :=
  {| executions := executions db; workers := workers db; reservations := reservations db;
     execution_attempts := t; cleanup_authorities := cleanup_authorities db;
     execution_cancellation_requests := execution_cancellation_requests db;
     execution_control_requests := execution_control_requests db;
     control_request_sequence := control_request_sequence db;
     execution_events := execution_events db; execution_requests := execution_requests db |}.

Definition set_authorities (t : gmap ExecutionId CleanupAuthority) (db : Database) : Database :=
  {| executions := executions db; workers := workers db; reservations := reservations db;
     execution_attempts := execution_attempts db; cleanup_authorities := t;
     execution_cancellation_requests := execution_cancellation_requests db;
     execution_control_requests := execution_control_requests db;
     control_request_sequence := control_request_sequence db;
     execution_events := execution_events db; execution_requests := execution_requests db |}.

Definition set_cancellations (t : gmap ExecutionId CancellationRow) (db : Database) : Database :=
  {| executions := executions db; workers := workers db; reservations := reservations db;
     execution_attempts := execution_attempts db; cleanup_authorities := cleanup_authorities db;
     execution_cancellation_requests := t;
     execution_control_requests := execution_control_requests db;
     control_request_sequence := control_request_sequence db;
     execution_events := execution_events db; execution_requests := execution_requests db |}.

Definition set_controls (t : gmap Z ControlRow) (db : Database) : Database :=
  {| executions := executions db; workers := workers db; reservations := reservations db;
     execution_attempts := execution_attempts db; cleanup_authorities := cleanup_authorities db;
     execution_cancellation_requests := execution_cancellation_requests db;
     execution_control_requests := t;
     control_request_sequence := control_request_sequence db;
     execution_events := execution_events db; execution_requests := execution_requests db |}.

Definition set_control_sequence (n : Z) (db : Database) : Database :=
  {| executions := executions db; workers := workers db; reservations := reservations db;
     execution_attempts := execution_attempts db; cleanup_authorities := cleanup_authorities db;
     execution_cancellation_requests := execution_cancellation_requests db;
     execution_control_requests := execution_control_requests db;
     control_request_sequence := n;
     execution_events := execution_events db; execution_requests := execution_requests db |}.

Definition set_events (l : list ExecutionEvent) (db : Database) : Database :=
  {| executions := executions db; workers := workers db; reservations := reservations db;
     execution_attempts := execution_attempts db; cleanup_authorities := cleanup_authorities db;
     execution_cancellation_requests := execution_cancellation_requests db;
     execution_control_requests := execution_control_requests db;
     control_request_sequence := control_request_sequence db;
     execution_events := l; execution_requests := execution_requests db |}.

Definition set_requests (t : gmap string RequestRow) (db : Database) : Database :=
  {| executions := executions db; workers := workers db; reservations := reservations db;
     execution_attempts := execution_attempts db; cleanup_authorities := cleanup_authorities db;
     execution_cancellation_requests := execution_cancellation_requests db;
     execution_control_requests := execution_control_requests db;
     control_request_sequence := control_request_sequence db;
     execution_events := execution_events db; execution_requests := t |}.

(** ** Transactions *)

(** The clocks an operation reads: [Utc::now()] of the process and [now()] of
    the database server. *)
Record Clock := { utc_now : Timestamp; pg_now : Timestamp }.

Abbreviation Tx := (stm Database StoreError).

(** A whole store operation: what the caller gets and the database it leaves. *)
Definition Op (A : Type) : Type := Database -> result StoreError A * Database.

(** [begin], the body, [commit].  The body's value is itself a result, for the
    operations that commit and then report an error. *)
Definition transaction {A} (body : Tx (result StoreError A)) : Op A := fun db =>
  match body db with
  | Ok (r, db') => (r, db')
  | Err e => (Err e, db)
  end.

Definition committed {A} (a : A) : Tx (result StoreError A) := mret (Ok a).
Definition committed_error {A} (e : StoreError) : Tx (result StoreError A) := mret (Err e).

(** A query outside a transaction. *)
Definition query {A} (f : Database -> result StoreError A) : Op A := fun db => (f db, db).

(** PostgreSQL arithmetic on INTEGER and BIGINT columns fails out of range. *)
Definition int4 (z : Z) : Tx Z :=
  require (try_from (- 2 ^ 31) i32_max z) (StoreError.Db "integer out of range").
Definition int8 (z : Z) : Tx Z :=
  require (try_from (- 2 ^ 63) i64_max z) (StoreError.Db "bigint out of range").

(** [UPDATE executions SET ..., version = version + 1 WHERE id = $1 AND guard];
    the number of rows is 0 or 1. *)
Definition update_execution (id : ExecutionId) (guard : ExecutionRow -> bool)
    (f : Execution -> Execution) : Tx Z :=
  row ← gets (fun db => executions db !! id);
  match row with
  | Some row =>
      if guard row then
        v ← int8 (ExecutionRow.version row + 1);
        _ ← modify (fun db => set_executions
              (<[id := {| ExecutionRow.execution := f (ExecutionRow.execution row);
                          ExecutionRow.version := v |}]> (executions db)) db);
        mret 1
      else mret 0
  | None => mret 0
  end.

(** [UPDATE workers SET running_executions = GREATEST(running_executions - 1, 0)
    WHERE id = $1]. *)
Definition decrement_running (worker : WorkerId) : Tx unit :=
  modify (fun db => set_workers
    (alter (fun w => WorkerRegistration.set_running
              (Z.max (WorkerRegistration.running_executions w - 1) 0) w)
       worker (workers db)) db).

(** [UPDATE workers SET running_executions = running_executions + 1 WHERE id = $1]. *)
Definition increment_running (worker : WorkerId) : Tx unit :=
  row ← gets (fun db => workers db !! worker);
  match row with
  | Some w =>
      n ← int4 (WorkerRegistration.running_executions w + 1);
      modify (fun db => set_workers
        (<[worker := WorkerRegistration.set_running n w]> (workers db)) db)
  | None => mret tt
  end.

(** [UPDATE cleanup_authorities SET ... WHERE execution_id = $1 AND guard]. *)
Definition update_authority (id : ExecutionId) (guard : CleanupAuthority -> bool)
    (f : CleanupAuthority -> CleanupAuthority) : Tx Z :=
  row ← gets (fun db => cleanup_authorities db !! id);
  match row with
  | Some c =>
      if guard c then
        _ ← modify (fun db => set_authorities (<[id := f c]> (cleanup_authorities db)) db);
        mret 1
      else mret 0
  | None => mret 0
  end.

(** [UPDATE execution_attempts SET ... WHERE attempt_id = $1 AND guard]. *)
Definition update_attempt (id : AttemptId) (guard : AttemptRow -> bool)
    (f : AttemptRow -> AttemptRow) : Tx Z :=
  row ← gets (fun db => execution_attempts db !! id);
  match row with
  | Some a =>
      if guard a then
        _ ← modify (fun db => set_attempts (<[id := f a]> (execution_attempts db)) db);
        mret 1
      else mret 0
  | None => mret 0
  end.

(** [SELECT * FROM executions WHERE id = $1 FOR UPDATE], a missing row being
    [NotFound]. *)
Definition select_execution (id : ExecutionId) : Tx ExecutionRow :=
  row ← gets (fun db => executions db !! id);
  require row (StoreError.NotFound id).

(** [fn cancellation_pending] of [lib.rs]. *)
Definition cancellation_pending (id : ExecutionId) (db : Database) : bool :=
  match execution_cancellation_requests db !! id with
  | Some r => bool_decide (CancellationRow.completed_at r = None)
  | None => false
  end.

(** [fn cancelled_result] and the [WorkerLost] result the recovery paths build. *)
Definition failed_result (id : ExecutionId) (state : ExecutionState) (failure : FailureClass) :
  ExecutionResult := {|
  ExecutionResult.execution_id := id; ExecutionResult.state := state;
  ExecutionResult.failure := Some failure; ExecutionResult.branch := None;
  ExecutionResult.base_sha := None; ExecutionResult.diff_artifact := None;
  ExecutionResult.artifacts := []; ExecutionResult.tests := None |}.

Definition cancelled_result (id : ExecutionId) : ExecutionResult :=
  failed_result id ExecutionState.Cancelled FailureClass.Cancelled.

(** ** What the statements do *)

Lemma int8_Ok z v db db' :
  int8 z db = Ok (v, db') <-> v = z /\ - 2 ^ 63 <= z <= i64_max /\ db' = db.
Proof. unfold int8. rewrite require_Ok, try_from_Some. tauto. Qed.

Lemma int4_Ok z v db db' :
  int4 z db = Ok (v, db') <-> v = z /\ - 2 ^ 31 <= z <= i32_max /\ db' = db.
Proof. unfold int4. rewrite require_Ok, try_from_Some. tauto. Qed.

Lemma update_execution_Ok id guard f n db db' :
  update_execution id guard f db = Ok (n, db') ->
  (n = 0 /\ db' = db /\
     forall row, executions db !! id = Some row -> guard row = false) \/
  (n = 1 /\ exists row, executions db !! id = Some row /\ guard row = true /\
     db' = set_executions (<[id := {| ExecutionRow.execution := f (ExecutionRow.execution row);
             ExecutionRow.version := ExecutionRow.version row + 1 |}]> (executions db)) db).
Proof.
  unfold update_execution. intros H. stm_inv.
  destruct (executions _ !! id) as [row|] eqn:E; [|stm_inv; naive_solver].
  destruct (guard row) eqn:G; stm_inv; [|naive_solver].
  match goal with H : int8 _ _ = Ok _ |- _ => apply int8_Ok in H as (-> & _ & ->) end.
  right. eauto 10.
Qed.

Lemma update_authority_Ok id guard f n db db' :
  update_authority id guard f db = Ok (n, db') ->
  (n = 0 /\ db' = db /\
     forall c, cleanup_authorities db !! id = Some c -> guard c = false) \/
  (n = 1 /\ exists c, cleanup_authorities db !! id = Some c /\ guard c = true /\
     db' = set_authorities (<[id := f c]> (cleanup_authorities db)) db).
Proof.
  unfold update_authority. intros H. stm_inv.
  destruct (cleanup_authorities _ !! id) as [c|] eqn:E; [|stm_inv; naive_solver].
  destruct (guard c) eqn:G; stm_inv; [|naive_solver]. right. eauto 10.
Qed.

Lemma update_attempt_Ok id guard f n db db' :
  update_attempt id guard f db = Ok (n, db') ->
  (n = 0 /\ db' = db /\
     forall a, execution_attempts db !! id = Some a -> guard a = false) \/
  (n = 1 /\ exists a, execution_attempts db !! id = Some a /\ guard a = true /\
     db' = set_attempts (<[id := f a]> (execution_attempts db)) db).
Proof.
  unfold update_attempt. intros H. stm_inv.
  destruct (execution_attempts _ !! id) as [a|] eqn:E; [|stm_inv; naive_solver].
  destruct (guard a) eqn:G; stm_inv; [|naive_solver]. right. eauto 10.
Qed.

Lemma increment_running_Ok worker u db db' :
  increment_running worker db = Ok (u, db') ->
  (workers db !! worker = None /\ db' = db) \/
  exists w, workers db !! worker = Some w /\
    WorkerRegistration.running_executions w + 1 <= i32_max /\
    db' = set_workers (<[worker := WorkerRegistration.set_running
            (WorkerRegistration.running_executions w + 1) w]> (workers db)) db.
Proof.
  unfold increment_running. intros H. stm_inv.
  destruct (workers _ !! worker) as [w|] eqn:E; stm_inv; [|by left].
  match goal with H : int4 _ _ = Ok _ |- _ => apply int4_Ok in H as (-> & ? & ->) end.
  right. exists w. split_and!; [done|lia|done].
Qed.

Lemma select_execution_Ok id row db db' :
  select_execution id db = Ok (row, db') <-> executions db !! id = Some row /\ db' = db.
Proof.
  unfold select_execution. split.
  - intros H. stm_inv. done.
  - intros [H ->]. unfold mbind, stm_bind, gets, require, lift. by rewrite H.
Qed.

Lemma transaction_Ok {A} (body : Tx (result StoreError A)) db a db' :
  transaction body db = (Ok a, db') <-> body db = Ok (Ok a, db').
Proof.
  unfold transaction. destruct (body db) as [[r s]|e]; naive_solver.
Qed.

(** A failed transaction either rolled back or committed what its body says. *)
Lemma transaction_Err {A} (body : Tx (result StoreError A)) db e db' :
  transaction body db = (Err e, db') <->
  (body db = Err e /\ db' = db) \/ body db = Ok (Err e, db').
Proof.
  unfold transaction. destruct (body db) as [[r s]|e']; naive_solver.
Qed.

(** [tx_inv] takes a successful transaction body apart, statements included. *)
Ltac tx_inv_step :=
  match goal with
  | H : int8 _ _ = Ok _ |- _ => apply int8_Ok in H; destruct H as (? & ? & ?)
  | H : int4 _ _ = Ok _ |- _ => apply int4_Ok in H; destruct H as (? & ? & ?)
  | H : select_execution _ _ = Ok _ |- _ =>
      apply select_execution_Ok in H; destruct H as [? ?]
  | H : committed _ _ = Ok _ |- _ => unfold committed in H
  | H : committed_error _ _ = Ok _ |- _ => unfold committed_error in H
  | H : decrement_running _ _ = Ok _ |- _ => unfold decrement_running in H
  | |- _ => stm_inv_step
  end.
Ltac tx_inv := repeat (tx_inv_step; subst; simpl in *).
