(* ===== verification/EventLog.v ===== *)
(** * The event log

    Models [crates/orchestrator-persistence/src/event_log.rs]: the append-only
    history with a gapless sequence per execution. *)

From S2P Require Import Prelude Core WorkerTypes Database.

















(** The events of one execution, in the order they were inserted. *)
Definition events_of (id : ExecutionId) (log : list ExecutionEvent) : list ExecutionEvent :=
  List.filter (fun e => bool_decide (ExecutionEvent.execution_id e = id)) log.

(** [COALESCE(MAX(sequence), 0)]. *)
Definition max_sequence (log : list ExecutionEvent) : Z :=
  foldr (fun e acc => Z.max (ExecutionEvent.sequence e) acc) 0 log.

(** The primary key and CHECK of [execution_events] on an insertion. *)
Definition sequence_free (id : ExecutionId) (n : Z) (log : list ExecutionEvent) : bool :=
  (0 <? n) && forallb (fun e => negb (bool_decide (ExecutionEvent.sequence e = n))) (events_of id log).

(** The value the query computes is at least 1, so the [u64] conversion of the
    code cannot fail; the conversion back to BIGINT is [int8]. *)
Definition append_in_transaction (event : ExecutionEvent) : Tx Z :=
  log ← gets execution_events;
  let id := ExecutionEvent.execution_id event in
  sequence ← int8 (max_sequence (events_of id log) + 1);
  sequence ← require (try_from 0 u64_max sequence) (StoreError.Conflict "negative event sequence");
  let persisted := ExecutionEvent.set_sequence sequence event in
  _ ← ensure (sequence_free id sequence log)
        (StoreError.Db "duplicate key value violates unique constraint");
  _ ← modify (fun db => set_events (execution_events db ++ [persisted]) db);
  mret sequence.

Definition append_once (event : ExecutionEvent) : Op Z :=
  transaction (sequence ← append_in_transaction event; committed sequence).

(** [PgEventLog::append]: one retry on a sequence conflict. *)
Definition append (event : ExecutionEvent) : Op Z := fun db =>
  match append_once event db with
  | (Err StoreError.SequenceConflict, db') => append_once event db'
  | r => r
  end.

(** Insertion sort by sequence, the query's [ORDER BY sequence ASC]. *)
Definition sequence_le (a b : ExecutionEvent) : Prop :=
  ExecutionEvent.sequence a <= ExecutionEvent.sequence b.
#[export] Instance sequence_le_dec : RelDecision sequence_le.
Proof. intros a b. unfold sequence_le. apply _. Defined.

Definition since_batch (id : ExecutionId) (after limit : Z) (db : Database) :
  result StoreError (list ExecutionEvent) :=
  after ← ok_or (try_from (- 2 ^ 63) i64_max after)
    (StoreError.Conflict "event cursor exceeds PostgreSQL BIGINT");
  limit ← ok_or (try_from (- 2 ^ 63) i64_max limit)
    (StoreError.Conflict "event batch limit exceeds BIGINT");
  Ok (take (Z.to_nat limit)
       (merge_sort sequence_le
         (List.filter (fun e => after <? ExecutionEvent.sequence e)
            (events_of id (execution_events db))))).

Definition since (id : ExecutionId) (after : Z) (db : Database) :
  result StoreError (list ExecutionEvent) :=
  since_batch id after i64_max db.

Definition latest_sequence (id : ExecutionId) (db : Database) : result StoreError Z :=
  ok_or (try_from 0 u64_max (max_sequence (events_of id (execution_events db))))
    (StoreError.Conflict "negative event sequence").

(** ** Theorems *)

(** The [n] first sequence numbers. *)
Definition gapless (log : list ExecutionEvent) (id : ExecutionId) : Prop :=
  List.map ExecutionEvent.sequence (events_of id log) = seqZ 1 (Z.of_nat (length (events_of id log))).

Definition log_ok (db : Database) : Prop := forall id, gapless (execution_events db) id.

Lemma events_of_app id l1 l2 : events_of id (l1 ++ l2) = events_of id l1 ++ events_of id l2.
Proof. apply List.filter_app. Qed.

Lemma max_sequence_gapless log id :
  gapless log id -> max_sequence (events_of id log) = Z.of_nat (length (events_of id log)).
Proof.
  unfold gapless, max_sequence. generalize (events_of id log) as l. intros l H.
  assert (foldr (fun e acc => Z.max (ExecutionEvent.sequence e) acc) 0 l =
          foldr Z.max 0 (List.map ExecutionEvent.sequence l)) as ->.
  { clear. induction l; simpl; congruence. }
  rewrite H. clear H. generalize (length l) as n. clear l. intros n.
  assert (forall k m, 0 <= k -> foldr Z.max 0 (seqZ k (Z.of_nat m)) =
            if decide (m = 0%nat) then 0 else k + Z.of_nat m - 1) as G.
  { intros k m. revert k. induction m as [|m IH]; intros k Hk; simpl; [done|].
    rewrite seqZ_cons by lia. simpl. replace (Z.pred (Z.of_nat (S m))) with (Z.of_nat m) by lia.
    rewrite IH by lia. repeat case_decide; lia. }
  rewrite G by lia. case_decide; lia.
Qed.

(** One successful append: the new event gets the next number of its execution
    and every other execution keeps its events. *)
Lemma append_in_transaction_Ok event n db db' :
  append_in_transaction event db = Ok (n, db') ->
  n = max_sequence (events_of (ExecutionEvent.execution_id event) (execution_events db)) + 1 /\
  db' = set_events (execution_events db ++ [ExecutionEvent.set_sequence n event]) db.
Proof.
  unfold append_in_transaction. intros H. tx_inv.
  match goal with H : try_from _ _ _ = Some _ |- _ => apply try_from_Some in H as [-> _] end.
  done.
Qed.

Lemma events_of_one id e :
  events_of id [e] = if bool_decide (ExecutionEvent.execution_id e = id) then [e] else [].
Proof. done. Qed.

Lemma append_log_ok event n db db' :
  log_ok db -> append_in_transaction event db = Ok (n, db') -> log_ok db'.
Proof.
  intros Hok [-> ->]%append_in_transaction_Ok id. unfold gapless. simpl.
  rewrite events_of_app, map_app, length_app, events_of_one. simpl.
  specialize (Hok id) as Hid. unfold gapless in Hid. rewrite Hid. case_bool_decide as He.
  - subst id. rewrite (max_sequence_gapless _ _ Hid). cbn [length].
    rewrite Nat2Z.inj_add, seqZ_app by lia. f_equal. simpl.
    rewrite Z.add_comm. done.
  - simpl. by rewrite Nat.add_0_r, app_nil_r.
Qed.

Lemma append_in_transaction_success event db :
  log_ok db ->
  Z.of_nat (length (events_of (ExecutionEvent.execution_id event) (execution_events db))) < i64_max ->
  exists n db', append_in_transaction event db = Ok (n, db').
Proof.
  intros Hok Hlen. specialize (Hok (ExecutionEvent.execution_id event)).
  set (log := execution_events db) in *. set (id := ExecutionEvent.execution_id event) in *.
  set (m := length (events_of id log)) in *.
  assert (Hmax : max_sequence (events_of id log) = Z.of_nat m) by by apply max_sequence_gapless.
  assert (Hfree : sequence_free id (Z.of_nat m + 1) log = true).
  { unfold sequence_free. rewrite andb_true_iff, Z.ltb_lt. split; [lia|].
    apply forallb_forall. intros e He. rewrite negb_true_iff, bool_decide_eq_false.
    intros Heq. apply (in_map ExecutionEvent.sequence) in He. rewrite Hok, Heq in He.
    apply list_elem_of_In, elem_of_seqZ in He. fold m in He. lia. }
  unfold i64_max in Hlen.
  assert (T1 : try_from (- 2 ^ 63) i64_max (Z.of_nat m + 1) = Some (Z.of_nat m + 1)).
  { apply try_from_Some. unfold i64_max. lia. }
  assert (T2 : try_from 0 u64_max (Z.of_nat m + 1) = Some (Z.of_nat m + 1)).
  { apply try_from_Some. unfold u64_max. lia. }
  exists (Z.of_nat m + 1), (set_events (log ++ [ExecutionEvent.set_sequence (Z.of_nat m + 1) event]) db).
  unfold append_in_transaction, mbind, stm_bind, gets, int8, require, lift, ok_or, ensure, check,
    modify, mret, stm_ret, lift.
  fold log id. rewrite Hmax, T1. simpl. rewrite T2. simpl. rewrite Hfree. done.
Qed.

(** Reading: a gapless log needs no sorting, and a cursor is an offset. *)
Lemma filter_after_drop l k after :
  0 <= k -> k <= after + 1 ->
  List.map ExecutionEvent.sequence l = seqZ k (Z.of_nat (length l)) ->
  List.filter (fun e => after <? ExecutionEvent.sequence e) l = drop (Z.to_nat (after + 1 - k)) l.
Proof.
  revert k. induction l as [|e l IH]; intros k Hk Hle Hseq; simpl; [by rewrite drop_nil|].
  cbn [List.map length] in Hseq. rewrite seqZ_cons in Hseq by lia.
  replace (Z.pred (Z.of_nat (S (length l)))) with (Z.of_nat (length l)) in Hseq by lia.
  injection Hseq as He Hl. destruct (Z.ltb_spec after (ExecutionEvent.sequence e)).
  - replace (after + 1 - k) with 0 by lia. simpl. f_equal.
    assert (k = after + 1) as -> by lia. clear - Hl.
    assert (G : forall m l, after < m -> List.map ExecutionEvent.sequence l = seqZ m (Z.of_nat (length l)) ->
      List.filter (fun e => after <? ExecutionEvent.sequence e) l = l).
    { clear. intros m l. revert m. induction l as [|e l IH]; intros m Hm Hseq; simpl; [done|].
      cbn [List.map length] in Hseq. rewrite seqZ_cons in Hseq by lia.
      replace (Z.pred (Z.of_nat (S (length l)))) with (Z.of_nat (length l)) in Hseq by lia.
      injection Hseq as He Hl. destruct (Z.ltb_spec after (ExecutionEvent.sequence e)); [|lia].
      f_equal. apply (IH (Z.succ m)); [lia|done]. }
    apply (G (Z.succ (after + 1))); [lia|done].
  - rewrite (IH (Z.succ k)) by (done || lia).
    replace (Z.to_nat (after + 1 - k)) with (S (Z.to_nat (after + 1 - Z.succ k))) by lia. done.
Qed.

Lemma seq_sorted l k :
  List.map ExecutionEvent.sequence l = seqZ k (Z.of_nat (length l)) ->
  StronglySorted sequence_le l /\
  (forall a b, a ∈ l -> b ∈ l -> sequence_le a b -> sequence_le b a -> a = b) /\
  Forall (fun e => k <= ExecutionEvent.sequence e) l.
Proof.
  revert k. induction l as [|e l IH]; intros k Hseq.
  { split_and!; [constructor| |constructor]. intros a b Ha. by apply elem_of_nil in Ha. }
  cbn [List.map length] in Hseq. rewrite seqZ_cons in Hseq by lia.
  replace (Z.pred (Z.of_nat (S (length l)))) with (Z.of_nat (length l)) in Hseq by lia.
  injection Hseq as He Hl. destruct (IH _ Hl) as (Hs & Hu & Hf).
  assert (Hlt : forall b, b ∈ l -> k < ExecutionEvent.sequence b).
  { intros b Hb. rewrite Forall_forall in Hf. specialize (Hf _ Hb). lia. }
  unfold sequence_le in *. split_and!.
  - constructor; [done|]. apply Forall_forall. intros b Hb. specialize (Hlt _ Hb). lia.
  - intros a b Ha Hb Hab Hba. apply elem_of_cons in Ha as [->|Ha], Hb as [->|Hb];
      [done|specialize (Hlt _ Hb); lia|specialize (Hlt _ Ha); lia|by apply Hu].
  - constructor; [lia|]. eapply Forall_impl; [done|]. simpl. lia.
Qed.

#[export] Instance sequence_le_total : Total sequence_le.
Proof. intros a b. unfold sequence_le. lia. Qed.
#[export] Instance sequence_le_trans : Transitive sequence_le.
Proof. intros a b c. unfold sequence_le. lia. Qed.

Lemma drop_seq l k n :
  List.map ExecutionEvent.sequence l = seqZ k (Z.of_nat (length l)) ->
  List.map ExecutionEvent.sequence (drop n l) =
    seqZ (k + Z.of_nat (n `min` length l)) (Z.of_nat (length (drop n l))).
Proof.
  revert k n. induction l as [|e l IH]; intros k [|n] Hseq; simpl in *; try done.
  - by rewrite Z.add_0_r.
  - rewrite seqZ_cons in Hseq by lia.
    replace (Z.pred (Z.of_nat (S (length l)))) with (Z.of_nat (length l)) in Hseq by lia.
    injection Hseq as _ Hl. rewrite (IH _ n Hl). f_equal. lia.
Qed.

Lemma sort_after db id after :
  log_ok db -> 0 <= after ->
  merge_sort sequence_le (List.filter (fun e => after <? ExecutionEvent.sequence e)
    (events_of id (execution_events db))) =
  drop (Z.to_nat after) (events_of id (execution_events db)).
Proof.
  intros Hok Ha. rewrite (filter_after_drop _ 1) by (apply Hok || lia).
  replace (after + 1 - 1) with after by lia.
  pose proof (drop_seq _ 1 (Z.to_nat after) (Hok id)) as Hd.
  destruct (seq_sorted _ _ Hd) as (Hs & Hu & _).
  apply (StronglySorted_unique_strong sequence_le); [|by apply StronglySorted_merge_sort; apply _|done|].
  - intros a b Hx Hy. rewrite merge_sort_Permutation in Hx. by apply Hu.
  - apply merge_sort_Permutation.
Qed.

(** The event log reads back what was appended.  On a database whose
    history is gapless, appending an event keeps every history gapless and
    returns the next number of the event's execution; a cursor read returns
    exactly the events after the cursor, in the order they were appended, up to
    the batch limit. *)
Theorem event_log_append_read (db db' : Database) (event : ExecutionEvent) (n : Z)
    (id : ExecutionId) (after limit : Z) :
  log_ok db -> append event db = (Ok n, db') ->
  0 <= after <= i64_max -> 0 <= limit <= i64_max ->
  log_ok db' /\
  n = Z.of_nat (length (events_of (ExecutionEvent.execution_id event) (execution_events db))) + 1 /\
  since_batch id after limit db' = Ok (take (Z.to_nat limit) (drop (Z.to_nat after)
    (events_of id (execution_events db) ++
     (if bool_decide (ExecutionEvent.execution_id event = id)
      then [ExecutionEvent.set_sequence n event] else [])))).
Proof.
  intros Hok Happ Ha Hl.
  assert (Hb : append_in_transaction event db = Ok (n, db')).
  { unfold append, append_once in Happ.
    destruct (transaction _ db) as [[m|[]] db1] eqn:E; simplify_eq.
    - apply transaction_Ok in E. tx_inv. done.
    - exfalso. apply transaction_Err in E as [[E _]|E]; [|tx_inv].
      unfold append_in_transaction, mbind, stm_bind, gets, int8, require, lift, ok_or, ensure,
        check, modify, mret, stm_ret, lift, committed in E. repeat case_match; simplify_eq. }
  pose proof (append_log_ok _ _ _ _ Hok Hb) as Hok'. split; [done|].
  destruct (append_in_transaction_Ok _ _ _ _ Hb) as [Hn Hdb'].
  rewrite (max_sequence_gapless _ _ (Hok _)) in Hn. split; [done|].
  assert (T : forall z, 0 <= z <= i64_max -> try_from (- 2 ^ 63) i64_max z = Some z).
  { intros z Hz. apply try_from_Some. unfold i64_max in *. lia. }
  unfold since_batch. rewrite (T after), (T limit) by done. simpl. rewrite sort_after by (done || lia). subst db'. simpl. rewrite events_of_app, events_of_one.
  done.
Qed.

Definition example_event (id : string) : ExecutionEvent := {|
  ExecutionEvent.execution_id := id; ExecutionEvent.attempt_id := None;
  ExecutionEvent.sequence := 0; ExecutionEvent.at_ := 5;
  ExecutionEvent.state := ExecutionState.Queued;
  ExecutionEvent.kind := ExecutionEventKind.ExecutionCreated |}.

Lemma event_log_append_read_witness :
  since_batch "e-1" 0 10 (append (example_event "e-1") empty_database).2 =
  Ok [ExecutionEvent.set_sequence 1 (example_event "e-1")].
Proof.
  destruct (event_log_append_read empty_database _ (example_event "e-1") 1 "e-1" 0 10
    (fun _ => eq_refl) (surjective_pairing _)) as (_ & _ & H);
    [unfold i64_max; lia..|exact H].
Defined.
