(* ===== verification/CleanupStore.v ===== *)
(** * Cleanup authority

    Models [crates/orchestrator-persistence/src/cleanup.rs]: the durable record
    of what a worker still has to tear down for an execution, the dispositions
    it goes through, and the compare-and-swap that moves it. *)

From S2P Require Import Prelude Core WorkerTypes Database.

















Module CleanupStage.
Inductive CleanupStage :=
| Reserved | Storage | Worktree | Runtime | PiStarted | Running | PostPiBeforeEvent.

#[global] Instance eq_dec : EqDecision CleanupStage.
Proof. solve_decision. Defined.
End CleanupStage.
Abbreviation CleanupStage := CleanupStage.CleanupStage.

Module CleanupDisposition.
Inductive CleanupDisposition :=
| Active (stage : CleanupStage)
| RetainRequested | Retained | CleanupPending | RuntimeStopped | RuntimeDestroyed
| GitRecoveredCleaned | StorageReleased | ReservationReleased | Resolved.

#[global] Instance eq_dec : EqDecision CleanupDisposition.
Proof. solve_decision. Defined.

Definition can_transition_to (self next : CleanupDisposition) : bool :=
  match self, next with
  | Active CleanupStage.Reserved, Active CleanupStage.Storage
  | Active CleanupStage.Storage, Active CleanupStage.Worktree
  | Active CleanupStage.Worktree, Active CleanupStage.Runtime
  | Active CleanupStage.Runtime, Active CleanupStage.PiStarted
  | Active CleanupStage.PiStarted, Active CleanupStage.Running
  | Active CleanupStage.Running, Active CleanupStage.PostPiBeforeEvent
  | Active CleanupStage.PostPiBeforeEvent, RetainRequested
  | RetainRequested, Retained
  | Retained, CleanupPending
  | CleanupPending, RuntimeStopped
  | RuntimeStopped, RuntimeDestroyed
  | RuntimeDestroyed, GitRecoveredCleaned
  | GitRecoveredCleaned, StorageReleased
  | StorageReleased, ReservationReleased
  | ReservationReleased, Resolved => true
  | _, _ => false
  end.

Definition to_string (self : CleanupDisposition) : string :=
  match self with
  | Active CleanupStage.Reserved => "ACTIVE:RESERVED"
  | Active CleanupStage.Storage => "ACTIVE:STORAGE"
  | Active CleanupStage.Worktree => "ACTIVE:WORKTREE"
  | Active CleanupStage.Runtime => "ACTIVE:RUNTIME"
  | Active CleanupStage.PiStarted => "ACTIVE:PI_STARTED"
  | Active CleanupStage.Running => "ACTIVE:RUNNING"
  | Active CleanupStage.PostPiBeforeEvent => "ACTIVE:POST_PI_BEFORE_EVENT"
  | RetainRequested => "RETAIN_REQUESTED"
  | Retained => "RETAINED"
  | CleanupPending => "CLEANUP_PENDING"
  | RuntimeStopped => "RUNTIME_STOPPED"
  | RuntimeDestroyed => "RUNTIME_DESTROYED"
  | GitRecoveredCleaned => "GIT_RECOVERED_CLEANED"
  | StorageReleased => "STORAGE_RELEASED"
  | ReservationReleased => "RESERVATION_RELEASED"
  | Resolved => "RESOLVED"
  end.

(** [FromStr]: the current texts and the ones the first migration wrote. *)
Definition texts : list (string * CleanupDisposition) :=
  [("ACTIVE:RESERVED", Active CleanupStage.Reserved); ("RESERVED", Active CleanupStage.Reserved);
   ("ACTIVE:STORAGE", Active CleanupStage.Storage);
   ("STORAGE_ALLOCATED", Active CleanupStage.Storage);
   ("ACTIVE:WORKTREE", Active CleanupStage.Worktree);
   ("WORKTREE_CREATED", Active CleanupStage.Worktree);
   ("ACTIVE:RUNTIME", Active CleanupStage.Runtime);
   ("RUNTIME_CREATED", Active CleanupStage.Runtime);
   ("ACTIVE:PI_STARTED", Active CleanupStage.PiStarted);
   ("PI_STARTED", Active CleanupStage.PiStarted);
   ("ACTIVE:RUNNING", Active CleanupStage.Running); ("RUNNING", Active CleanupStage.Running);
   ("ACTIVE:POST_PI_BEFORE_EVENT", Active CleanupStage.PostPiBeforeEvent);
   ("RETAIN_REQUESTED", RetainRequested); ("REVIEW_READY", RetainRequested);
   ("RETAINED", Retained); ("CLEANUP_PENDING", CleanupPending);
   ("RUNTIME_STOPPED", RuntimeStopped); ("RUNTIME_DESTROYED", RuntimeDestroyed);
   ("GIT_RECOVERED_CLEANED", GitRecoveredCleaned); ("STORAGE_RELEASED", StorageReleased);
   ("RESERVATION_RELEASED", ReservationReleased); ("RESOLVED", Resolved)].

Definition from_str (value : string) : result StoreError CleanupDisposition :=
  match list_find (fun p => p.1 = value) texts with
  | Some (_, p) => Ok p.2
  | None => Err (StoreError.Conflict ("unknown cleanup disposition " +:+ value))
  end.
End CleanupDisposition.
Abbreviation CleanupDisposition := CleanupDisposition.CleanupDisposition.
Abbreviation phase_text := CleanupDisposition.to_string.

Definition disposition (self : CleanupAuthority) : result StoreError CleanupDisposition :=
  CleanupDisposition.from_str (CleanupAuthority.phase self).

Record CleanupHealthSnapshot := {
  unresolved : Z;
  cleanup_pending : Z;
  retained : Z;
  oldest_unresolved_at : option Timestamp
}.

(** ** [PgCleanupAuthorityStore] *)

Definition row_not_found : StoreError :=
  StoreError.Db "no rows returned by a query that expected to return at least one row".

(** A row of a table a statement selected with [fetch_one]. *)
Definition select_authority (id : ExecutionId) : Tx CleanupAuthority :=
  row ← gets (fun db => cleanup_authorities db !! id);
  require row row_not_found.

Definition new_authority (id : ExecutionId) (attempt_id : AttemptId) (worker_id : WorkerId)
    (phase : string) (now : Timestamp) : CleanupAuthority := {|
  CleanupAuthority.execution_id := id; CleanupAuthority.attempt_id := attempt_id;
  CleanupAuthority.worker_id := worker_id; CleanupAuthority.phase := phase;
  CleanupAuthority.handles := Object []; CleanupAuthority.created_at := now;
  CleanupAuthority.updated_at := now |}.

Definition owned_by (attempt_id : AttemptId) (worker_id : WorkerId) (c : CleanupAuthority) : bool :=
  bool_decide (CleanupAuthority.attempt_id c = attempt_id) &&
  bool_decide (CleanupAuthority.worker_id c = worker_id).

(** [INSERT ... ON CONFLICT (execution_id) DO UPDATE SET ... WHERE guard]. *)
Definition upsert_authority (id : ExecutionId) (attempt_id : AttemptId) (worker_id : WorkerId)
    (phase : string) (now : Timestamp) (guard : CleanupAuthority -> bool)
    (f : CleanupAuthority -> CleanupAuthority) : Tx Z :=
  row ← gets (fun db => cleanup_authorities db !! id);
  match row with
  | None =>
      _ ← modify (fun db => set_authorities
            (<[id := new_authority id attempt_id worker_id phase now]> (cleanup_authorities db)) db);
      mret 1
  | Some _ => update_authority id guard f
  end.

Definition begin (now : Clock) (execution_id : ExecutionId) (attempt_id : AttemptId)
    (worker_id : WorkerId) : Op unit :=
  transaction (
    inserted ← upsert_authority execution_id attempt_id worker_id
      (phase_text (CleanupDisposition.Active CleanupStage.Reserved)) (pg_now now)
      (owned_by attempt_id worker_id)
      (fun c => CleanupAuthority.set_phase (CleanupAuthority.phase c) (pg_now now) c);
    _ ← ensure (inserted =? 1) (StoreError.Conflict
      ("cleanup authority for " +:+ execution_id +:+ " belongs to another attempt"));
    committed tt).

Definition get_authority (execution_id : ExecutionId) : Op CleanupAuthority :=
  query (fun db => ok_or (cleanup_authorities db !! execution_id) (StoreError.NotFound execution_id)).

Definition transition (now : Clock) (execution_id : ExecutionId)
    (expected next : CleanupDisposition) (handles : Value) : Op unit := fun db =>
  if negb (bool_decide (expected = next)) &&
     negb (CleanupDisposition.can_transition_to expected next)
  then (Err (StoreError.Conflict ("illegal cleanup transition " +:+ phase_text expected +:+
          " -> " +:+ phase_text next)), db)
  else transaction (
    _ ← select_authority execution_id;
    updated ← update_authority execution_id
      (fun c => bool_decide (CleanupAuthority.phase c ∈ [phase_text expected; phase_text next]))
      (CleanupAuthority.set_phase_handles (phase_text next) handles (pg_now now));
    actual ← select_authority execution_id;
    _ ← ensure (updated =? 1) (StoreError.Conflict ("cleanup authority is " +:+
          CleanupAuthority.phase actual +:+ ", expected " +:+ phase_text expected));
    committed tt) db.

(** [advance] and [checkpoint] read the row first and then swap: two statements
    on the database, the second of which checks that the first still holds. *)
Definition advance (now : Clock) (execution_id : ExecutionId) (phase : string) : Op unit := fun db =>
  match get_authority execution_id db with
  | (Err e, db) => (Err e, db)
  | (Ok authority, db) =>
      match disposition authority, CleanupDisposition.from_str phase with
      | Ok expected, Ok next =>
          transition now execution_id expected next (CleanupAuthority.handles authority) db
      | Err e, _ | _, Err e => (Err e, db)
      end
  end.

Definition checkpoint (now : Clock) (execution_id : ExecutionId) (phase : string)
    (handles : Value) : Op unit := fun db =>
  match get_authority execution_id db with
  | (Err e, db) => (Err e, db)
  | (Ok authority, db) =>
      match disposition authority, CleanupDisposition.from_str phase with
      | Ok expected, Ok next => transition now execution_id expected next handles db
      | Err e, _ | _, Err e => (Err e, db)
      end
  end.

(** The phases the teardown has reached once the runtime is stopped. *)
Definition past_fence : list string :=
  ["RUNTIME_STOPPED"; "RUNTIME_DESTROYED"; "GIT_RECOVERED_CLEANED"; "STORAGE_RELEASED";
   "RESERVATION_RELEASED"; "RESOLVED"].

(** The evidence [fence_for_cleanup] requires: the attempt is finished, the
    execution is past its run, or a cancellation is pending. *)
Definition fence_evidence (execution_id : ExecutionId) (db : Database) (c : CleanupAuthority) : bool :=
  match executions db !! execution_id,
        execution_attempts db !! CleanupAuthority.attempt_id c with
  | Some e, Some a =>
      bool_decide (AttemptRow.execution_id a = execution_id) &&
      (bool_decide (AttemptRow.finished_at a <> None) ||
       bool_decide (Execution.state (ExecutionRow.execution e) ∈
         [ExecutionState.ReviewReady; ExecutionState.Completed; ExecutionState.Failed;
          ExecutionState.Cancelled]) ||
       cancellation_pending execution_id db)
  | _, _ => false
  end.

Definition fence_for_cleanup (now : Clock) (execution_id : ExecutionId) (handles : Value) : Op unit :=
  transaction (
    _ ← select_authority execution_id;
    evidence ← gets (fence_evidence execution_id);
    updated ← update_authority execution_id
      (fun c => evidence c && negb (bool_decide (CleanupAuthority.phase c ∈ past_fence)))
      (CleanupAuthority.set_phase_handles (phase_text CleanupDisposition.CleanupPending)
         handles (pg_now now));
    _ ← ensure (updated =? 1) (StoreError.Conflict
      ("cleanup authority " +:+ execution_id +:+ " is not fenced or terminal"));
    committed tt).

Definition resolve (now : Clock) (execution_id : ExecutionId) : Op unit :=
  transaction (
    _ ← select_authority execution_id;
    resolved ← update_authority execution_id
      (fun c => bool_decide (CleanupAuthority.phase c ∈ ["RESERVATION_RELEASED"; "RESOLVED"]))
      (CleanupAuthority.set_phase (phase_text CleanupDisposition.Resolved) (pg_now now));
    _ ← ensure (resolved =? 1) (StoreError.Conflict
      ("cleanup authority " +:+ execution_id +:+ " is not reservation-released"));
    committed tt).

Definition authority_rows (db : Database) : list CleanupAuthority :=
  (map_to_list (cleanup_authorities db)).*2.

Definition list_for_worker `{Collation} (worker_id : WorkerId) : Op (list CleanupAuthority) :=
  query (fun db => Ok (order_by CleanupAuthority.updated_at CleanupAuthority.execution_id
    (List.filter (fun c => bool_decide (CleanupAuthority.worker_id c = worker_id) &&
                           negb (bool_decide (CleanupAuthority.phase c = "RESOLVED")))
       (authority_rows db)))).

(** [COUNT( * ) FILTER (WHERE p)]; [MIN(updated_at) FILTER (WHERE p)]. *)
Definition count_where {A} (p : A -> bool) (rows : list A) : Z :=
  Z.of_nat (length (List.filter p rows)).

Definition health_snapshot : Op CleanupHealthSnapshot :=
  query (fun db =>
    let rows := authority_rows db in
    let phase_is p c := bool_decide (CleanupAuthority.phase c = p) in
    let open := List.filter (fun c => negb (phase_is "RESOLVED" c)) rows in
    Ok {| unresolved := count_where (fun c => negb (phase_is "RESOLVED" c)) rows;
          cleanup_pending := count_where (phase_is "CLEANUP_PENDING") rows;
          retained := count_where (phase_is "RETAINED") rows;
          oldest_unresolved_at :=
            CleanupAuthority.updated_at <$> min_by_key CleanupAuthority.updated_at open |}).

(** ** The order of the dispositions *)

(** The texts parse back to what they print, the legacy ones to their
    successors. *)
Lemma disposition_text_roundtrip d : CleanupDisposition.from_str (phase_text d) = Ok d.
Proof. destruct d as [[]| | | | | | | | |]; reflexivity. Qed.

Lemma phase_text_inj d1 d2 : phase_text d1 = phase_text d2 -> d1 = d2.
Proof.
  intros H. pose proof (disposition_text_roundtrip d1) as H1.
  rewrite H, disposition_text_roundtrip in H1. by injection H1.
Qed.

(** How far the life of an authority has come. *)
Definition rank (d : CleanupDisposition) : Z :=
  match d with
  | CleanupDisposition.Active CleanupStage.Reserved => 0
  | CleanupDisposition.Active CleanupStage.Storage => 1
  | CleanupDisposition.Active CleanupStage.Worktree => 2
  | CleanupDisposition.Active CleanupStage.Runtime => 3
  | CleanupDisposition.Active CleanupStage.PiStarted => 4
  | CleanupDisposition.Active CleanupStage.Running => 5
  | CleanupDisposition.Active CleanupStage.PostPiBeforeEvent => 6
  | CleanupDisposition.RetainRequested => 7
  | CleanupDisposition.Retained => 8
  | CleanupDisposition.CleanupPending => 9
  | CleanupDisposition.RuntimeStopped => 10
  | CleanupDisposition.RuntimeDestroyed => 11
  | CleanupDisposition.GitRecoveredCleaned => 12
  | CleanupDisposition.StorageReleased => 13
  | CleanupDisposition.ReservationReleased => 14
  | CleanupDisposition.Resolved => 15
  end.

Lemma can_transition_rank d d' :
  CleanupDisposition.can_transition_to d d' = true <-> rank d' = rank d + 1.
Proof. destruct d as [[]| | | | | | | | |], d' as [[]| | | | | | | | |]; simpl; split; done. Qed.

Lemma rank_inj d d' : rank d = rank d' -> d = d'.
Proof. destruct d as [[]| | | | | | | | |], d' as [[]| | | | | | | | |]; simpl; done. Qed.

(** The rank of a stored phase; texts no disposition prints rank below all. *)
Definition text_rank (phase : string) : Z :=
  match CleanupDisposition.from_str phase with Ok d => rank d | Err _ => -1 end.

Lemma text_rank_phase d : text_rank (phase_text d) = rank d.
Proof. unfold text_rank. by rewrite disposition_text_roundtrip. Qed.

Lemma rank_bounds d : 0 <= rank d <= 15.
Proof. destruct d as [[]| | | | | | | | |]; simpl; lia. Qed.
#[export] Hint Resolve rank_bounds : autospec.

Lemma past_fence_rank d : phase_text d ∈ past_fence <-> 10 <= rank d.
Proof.
  unfold past_fence. rewrite !elem_of_cons, elem_of_nil.
  destruct d as [[]| | | | | | | | |]; simpl; naive_solver lia.
Qed.

(** One authority replaced by another: the owner stays, the phase never goes
    back. *)
Definition authority_le (c c' : CleanupAuthority) : Prop :=
  CleanupAuthority.execution_id c' = CleanupAuthority.execution_id c /\
  CleanupAuthority.attempt_id c' = CleanupAuthority.attempt_id c /\
  CleanupAuthority.worker_id c' = CleanupAuthority.worker_id c /\
  text_rank (CleanupAuthority.phase c) <= text_rank (CleanupAuthority.phase c').

#[export] Instance authority_le_preorder : PreOrder authority_le.
Proof. split; [intros c|intros c1 c2 c3]; unfold authority_le; intuition (congruence || lia). Qed.

(** Every authority of [db] is still in [db'], at or past its phase. *)
Definition authorities_le (db db' : Database) : Prop :=
  forall id c, cleanup_authorities db !! id = Some c ->
    exists c', cleanup_authorities db' !! id = Some c' /\ authority_le c c'.

#[export] Instance authorities_le_preorder : PreOrder authorities_le.
Proof.
  split.
  - intros db id c Hc. exists c. done.
  - intros db1 db2 db3 H12 H23 id c Hc. destruct (H12 id c Hc) as (c2 & Hc2 & Hle).
    destruct (H23 id c2 Hc2) as (c3 & Hc3 & Hle'). exists c3. split; [done|]. by etrans.
Qed.

Lemma authorities_le_insert id c c' db db' :
  cleanup_authorities db !! id = Some c -> authority_le c c' ->
  cleanup_authorities db' = <[id := c']> (cleanup_authorities db) ->
  authorities_le db db'.
Proof.
  intros Hc Hle Hdb id' d Hd. rewrite Hdb. destruct (decide (id = id')) as [<-|Hne].
  - simplify_eq. exists c'. by rewrite lookup_insert_eq.
  - exists d. rewrite lookup_insert_ne by done. done.
Qed.

Lemma authorities_le_new id c' db db' :
  cleanup_authorities db !! id = None ->
  cleanup_authorities db' = <[id := c']> (cleanup_authorities db) ->
  authorities_le db db'.
Proof.
  intros Hc Hdb id' d Hd. rewrite Hdb. exists d.
  rewrite lookup_insert_ne by congruence. done.
Qed.

Lemma authorities_le_same db db' :
  cleanup_authorities db' = cleanup_authorities db -> authorities_le db db'.
Proof. intros H id c Hc. exists c. rewrite H. done. Qed.
#[export] Hint Resolve authorities_le_same : autospec.
