(* ===== verification/WorkerStore.v ===== *)
(** * Worker registry

    Models [crates/orchestrator-persistence/src/workers.rs]: registration,
    heartbeats, the page query and the stale sweep. *)

From S2P Require Import Prelude Core WorkerTypes Database.

















Definition validate (worker : WorkerRegistration) : result StoreError unit :=
  let capabilities := WorkerRegistration.capabilities worker in
  _ ← check (negb ((WorkerCapabilities.cpu capabilities =? 0) ||
         (WorkerCapabilities.memory_mib capabilities <? 1024) ||
         (WorkerCapabilities.disk_gib capabilities =? 0) ||
         (WorkerCapabilities.max_concurrent_executions capabilities =? 0) ||
         (64 <? WorkerCapabilities.max_concurrent_executions capabilities)))
       (StoreError.Conflict "worker capabilities are outside accepted bounds");
  _ ← check (negb (existsb (fun capability =>
         let capability := to_ascii_lowercase capability in
         contains "gpu" capability || contains "vram" capability || contains "model" capability)
         (WorkerCapabilities.capabilities capabilities)))
       (StoreError.Conflict "inference capabilities do not belong in worker registration");
  _ ← check (WorkerCapabilities.health_errors_are_sanitized capabilities)
       (StoreError.Conflict "worker capability health failures are not sanitized");
  check (negb (bool_decide (WorkerRegistration.state worker = WorkerState.Ready) &&
           (negb (WorkerRegistration.proof_is_complete worker) ||
            negb (bool_decide (WorkerCapabilities.health_errors capabilities = [])))))
    (StoreError.Conflict
       "Ready worker lacks a complete capability proof or reports capability health failures").

(** The row both statements write: what the caller sent, at a running count. *)
Definition written_row (running : Z) (worker : WorkerRegistration) : WorkerRegistration :=
  WorkerRegistration.set_running running worker.

(** [running_executions] starts at 0 and is never taken from the caller. *)
Definition register (worker : WorkerRegistration) : Op unit :=
  transaction (
    _ ← lift (validate worker);
    _ ← modify (fun db =>
          let running := match workers db !! WorkerRegistration.id worker with
                         | Some w => WorkerRegistration.running_executions w
                         | None => 0
                         end in
          set_workers (<[WorkerRegistration.id worker := written_row running worker]>
            (workers db)) db);
    committed tt).

(** The stored count is an INTEGER, decoded as [u32]. *)
Definition decode_worker (row : WorkerRegistration) : result StoreError WorkerRegistration :=
  n ← ok_or (try_from 0 u32_max (WorkerRegistration.running_executions row))
        (StoreError.Conflict "negative running execution count");
  Ok (WorkerRegistration.set_running n row).

Definition heartbeat (worker : WorkerRegistration) : Op WorkerRegistration := fun db =>
  match validate worker with
  | Err e => (Err e, db)
  | Ok _ =>
      match workers db !! WorkerRegistration.id worker with
      | None => (Err (StoreError.NotFound (WorkerRegistration.id worker)), db)
      | Some w =>
          let row := written_row (WorkerRegistration.running_executions w) worker in
          (decode_worker row,
           set_workers (<[WorkerRegistration.id worker := row]> (workers db)) db)
      end
  end.

Definition get_worker (id : WorkerId) : Op WorkerRegistration :=
  query (fun db => row ← ok_or (workers db !! id) (StoreError.NotFound id); decode_worker row).

(** [rows.iter().map(decode_worker).collect()]. *)
Fixpoint decode_all (rows : list WorkerRegistration) : result StoreError (list WorkerRegistration) :=
  match rows with
  | [] => Ok []
  | row :: rows => w ← decode_worker row; ws ← decode_all rows; Ok (w :: ws)
  end.

Definition worker_rows `{Collation} (db : Database) : list WorkerRegistration :=
  order_by (fun _ => 0) WorkerRegistration.id (map_to_list (workers db)).*2.

Definition list_workers `{Collation} : Op (list WorkerRegistration) :=
  query (fun db => decode_all (worker_rows db)).

Definition list_page `{Collation} (limit : Z) (cursor : option string) : Op (list WorkerRegistration) :=
  query (fun db =>
    _ ← check ((1 <=? limit) && (limit <=? 100))
          (StoreError.Conflict "worker page limit must be between 1 and 100");
    decode_all (take (Z.to_nat limit)
      (List.filter (fun w => text_gt (WorkerRegistration.id w)
                               (default EmptyString cursor))
         (worker_rows db)))).

Definition is_stale (deadline : Timestamp) (w : WorkerRegistration) : bool :=
  bool_decide (WorkerRegistration.state w ∈ [WorkerState.Ready; WorkerState.Draining]) &&
  (WorkerRegistration.last_heartbeat w <? deadline).

(** The order of the returned ids is the server's. *)
Definition mark_stale_before (deadline : Timestamp) : Op (list WorkerId) := fun db =>
  (Ok (WorkerRegistration.id <$>
         List.filter (is_stale deadline) (map_to_list (workers db)).*2),
   set_workers ((fun w => if is_stale deadline w
                          then WorkerRegistration.set_state WorkerState.Unreachable w else w)
                <$> workers db) db).

(** ** The registry invariant *)

(** What every stored worker satisfies: its key is its id, its running count is
    a natural INTEGER, and it passed [validate] or was swept. *)
Record worker_ok (id : WorkerId) (w : WorkerRegistration) : Prop := {
  wo_id : WorkerRegistration.id w = id;
  wo_running : 0 <= WorkerRegistration.running_executions w <= i32_max;
  wo_valid : validate w = Ok tt
}.

Definition workers_ok (db : Database) : Prop :=
  forall id w, workers db !! id = Some w -> worker_ok id w.

Lemma validate_set_running n w : validate (WorkerRegistration.set_running n w) = validate w.
Proof. done. Qed.

Lemma validate_Ok_iff w :
  validate w = Ok tt <->
  (WorkerCapabilities.cpu (WorkerRegistration.capabilities w) <> 0 /\
   1024 <= WorkerCapabilities.memory_mib (WorkerRegistration.capabilities w) /\
   WorkerCapabilities.disk_gib (WorkerRegistration.capabilities w) <> 0 /\
   WorkerCapabilities.max_concurrent_executions (WorkerRegistration.capabilities w) <> 0 /\
   WorkerCapabilities.max_concurrent_executions (WorkerRegistration.capabilities w) <= 64) /\
  (forall c, c ∈ WorkerCapabilities.capabilities (WorkerRegistration.capabilities w) ->
     ~ (contains "gpu" (to_ascii_lowercase c) = true \/
        contains "vram" (to_ascii_lowercase c) = true \/
        contains "model" (to_ascii_lowercase c) = true)) /\
  WorkerCapabilities.health_errors_are_sanitized (WorkerRegistration.capabilities w) = true /\
  (WorkerRegistration.state w = WorkerState.Ready ->
     WorkerRegistration.proof_is_complete w = true /\
     WorkerCapabilities.health_errors (WorkerRegistration.capabilities w) = []).
Proof.
  unfold validate. rewrite !check_bind_Ok, check_Ok.
  set (caps := WorkerRegistration.capabilities w).
  assert (E : negb (existsb (fun capability =>
      contains "gpu" (to_ascii_lowercase capability) ||
      contains "vram" (to_ascii_lowercase capability) ||
      contains "model" (to_ascii_lowercase capability)) (WorkerCapabilities.capabilities caps)) = true
    <-> forall c, c ∈ WorkerCapabilities.capabilities caps ->
     ~ (contains "gpu" (to_ascii_lowercase c) = true \/
        contains "vram" (to_ascii_lowercase c) = true \/
        contains "model" (to_ascii_lowercase c) = true)).
  { rewrite negb_true_iff, <- not_true_iff_false, existsb_exists.
    setoid_rewrite list_elem_of_In. setoid_rewrite orb_true_iff. setoid_rewrite orb_true_iff.
    naive_solver. }
  rewrite E. clear E. bools.
  destruct (decide (WorkerRegistration.state w = WorkerState.Ready)); intuition (done || lia).
Qed.

Lemma validate_unreachable w :
  validate w = Ok tt -> validate (WorkerRegistration.set_state WorkerState.Unreachable w) = Ok tt.
Proof. rewrite !validate_Ok_iff. simpl. intuition done. Qed.

Lemma decode_worker_ok id w : worker_ok id w -> decode_worker w = Ok w.
Proof.
  intros [_ Hr _]. unfold decode_worker.
  assert (try_from 0 u32_max (WorkerRegistration.running_executions w) =
          Some (WorkerRegistration.running_executions w)) as ->.
  { apply try_from_Some. unfold i32_max, u32_max in *. lia. }
  by destruct w.
Qed.

Lemma decode_all_ok rows : (forall w, w ∈ rows -> exists id, worker_ok id w) -> decode_all rows = Ok rows.
Proof.
  induction rows as [|w rows IH]; intros H; simpl; [done|].
  destruct (H w) as [id Hw]; [set_solver|]. rewrite (decode_worker_ok id) by done.
  simpl. rewrite IH by set_solver. done.
Qed.

Lemma workers_ok_insert db id w :
  workers_ok db -> worker_ok id w -> workers_ok (set_workers (<[id := w]> (workers db)) db).
Proof.
  intros Hok Hw id' w'. simpl. rewrite lookup_insert_Some. intros [[<- <-]|[_ ?]]; [done|by apply Hok].
Qed.

Lemma running_ok db id :
  workers_ok db ->
  0 <= match workers db !! id with Some w => WorkerRegistration.running_executions w | None => 0 end
    <= i32_max.
Proof.
  intros Hok. destruct (workers db !! id) as [w|] eqn:E; [by apply (Hok id w)|]. unfold i32_max. lia.
Qed.

(** Rows of a sound registry, as the queries order them. *)
Lemma elem_of_worker_rows `{Collation} db w :
  w ∈ worker_rows db <-> exists id, workers db !! id = Some w.
Proof.
  unfold worker_rows. rewrite elem_of_order_by, list_elem_of_fmap. split.
  - intros ([id w'] & -> & Hin). exists id. by apply elem_of_map_to_list.
  - intros [id Hid]. exists (id, w). split; [done|]. by apply elem_of_map_to_list.
Qed.

Lemma worker_rows_ok `{Collation} db :
  workers_ok db -> forall w, w ∈ worker_rows db -> exists id, worker_ok id w.
Proof. intros Hok w [id Hid]%elem_of_worker_rows. exists id. by apply Hok. Qed.

Lemma worker_ids_NoDup `{Collation} db :
  workers_ok db -> NoDup (WorkerRegistration.id <$> worker_rows db).
Proof.
  intros Hok. unfold worker_rows. rewrite order_by_Permutation.
  assert (WorkerRegistration.id <$> (map_to_list (workers db)).*2 = (map_to_list (workers db)).*1) as ->;
    [|apply NoDup_fst_map_to_list].
  assert (Hin : forall p, p ∈ map_to_list (workers db) -> WorkerRegistration.id p.2 = p.1).
  { intros [id w] Hp%elem_of_map_to_list. simpl. by apply (Hok id w). }
  induction (map_to_list (workers db)) as [|p l IH]; [done|]. rewrite !fmap_cons.
  f_equal; [apply Hin; set_solver|]. apply IH. intros q Hq. apply Hin. set_solver.
Qed.

Lemma worker_rows_le `{Collation} db a b l1 l2 :
  worker_rows db = l1 ++ l2 -> a ∈ l1 -> b ∈ l2 ->
  text_le (WorkerRegistration.id a) (WorkerRegistration.id b).
Proof.
  intros Hsplit Ha Hb.
  pose proof (order_by_sorted (fun _ => 0) WorkerRegistration.id (map_to_list (workers db)).*2) as Hs.
  change (StronglySorted (row_le (fun _ => 0) WorkerRegistration.id) (worker_rows db)) in Hs.
  rewrite Hsplit in Hs. apply StronglySorted_app_1_elem_of with (x1 := a) (x2 := b) in Hs; [|done..].
  destruct Hs as [?|[_ ?]]; [lia|done].
Qed.

(** The page after a worker is what follows it in the listing. *)
Lemma filter_after_cursor `{Collation} db pre w post :
  workers_ok db -> worker_rows db = pre ++ w :: post ->
  List.filter (fun x => text_gt (WorkerRegistration.id x) (WorkerRegistration.id w)) (worker_rows db) = post.
Proof.
  intros Hok Hrows. pose proof (worker_ids_NoDup db Hok) as Hnd. rewrite Hrows in Hnd |- *.
  rewrite List.filter_app. simpl. rewrite (filter_none _ pre), (filter_all _ post).
  - unfold text_gt at 1. rewrite (bool_decide_true (WorkerRegistration.id w = _)) by done.
    by rewrite andb_false_r.
  - intros x Hx. unfold text_gt. rewrite andb_true_iff, negb_true_iff, bool_decide_eq_true,
      bool_decide_eq_false. split.
    + apply (worker_rows_le db w x (pre ++ [w]) post); [by rewrite <- app_assoc|set_solver|done].
    + intros Heq. rewrite fmap_app, fmap_cons in Hnd. apply NoDup_app in Hnd as (_ & _ & Hnd).
      apply NoDup_cons in Hnd as [Hnd _]. apply Hnd. rewrite <- Heq. by apply list_elem_of_fmap_2.
  - intros x Hx. unfold text_gt. apply andb_false_iff. rewrite negb_false_iff, bool_decide_eq_true,
      bool_decide_eq_false.
    destruct (decide (WorkerRegistration.id x = WorkerRegistration.id w)) as [|Hne]; [by right|left].
    intros Hle. apply Hne. apply (anti_symm text_le); [|done].
    apply (worker_rows_le db x w pre (w :: post)); [done|done|set_solver].
Qed.

(** A worker can never choose how busy it looks.  On a sound registry a
    registration or a heartbeat is accepted exactly when [validate] accepts it
    (a heartbeat also needs the worker to be registered); the registry stays
    sound, reading the worker back gives what was sent with the running count
    the database had (0 for a new worker), and no other worker or table
    changes. *)
Theorem worker_write_read (db : Database) (w : WorkerRegistration) :
  workers_ok db ->
  let id := WorkerRegistration.id w in
  let running := match workers db !! id with
                 | Some w0 => WorkerRegistration.running_executions w0 | None => 0 end in
  let stored := WorkerRegistration.set_running running w in
  let db' := set_workers (<[id := stored]> (workers db)) db in
  (register w db = if is_ok (validate w) then (Ok tt, db')
                   else (validate w, db)) /\
  (is_Some (workers db !! id) -> validate w = Ok tt -> heartbeat w db = (Ok stored, db')) /\
  (workers db !! id = None -> validate w = Ok tt -> heartbeat w db = (Err (StoreError.NotFound id), db)) /\
  (validate w = Ok tt -> workers_ok db' /\ get_worker id db' = (Ok stored, db')).
Proof.
  intros Hok id running stored db'.
  assert (Hst : validate w = Ok tt -> worker_ok id stored).
  { intros Hv. split; [done|by apply running_ok|done]. }
  split_and!.
  - unfold register, transaction, mbind, stm_bind, lift.
    destruct (validate w) as [[]|e]; done.
  - intros [w0 Hw0] Hv. unfold heartbeat. fold id. rewrite Hv, Hw0.
    assert (WorkerRegistration.running_executions w0 = running) as ->
      by (unfold running; by rewrite Hw0).
    unfold written_row. fold stored. rewrite (decode_worker_ok id); auto.
  - intros Hn Hv. unfold heartbeat. fold id. by rewrite Hv, Hn.
  - intros Hv. split; [by apply workers_ok_insert; auto|].
    unfold get_worker, query. simpl. rewrite lookup_insert_eq. simpl.
    rewrite (decode_worker_ok id); auto.
Qed.

Definition example_registration : WorkerRegistration := {|
  WorkerRegistration.id := "w-1";
  WorkerRegistration.capabilities := {|
    WorkerCapabilities.os := "linux"; WorkerCapabilities.arch := "amd64";
    WorkerCapabilities.cpu := 8; WorkerCapabilities.memory_mib := 16384;
    WorkerCapabilities.disk_gib := 200; WorkerCapabilities.runtimes := [RuntimeKind.Docker];
    WorkerCapabilities.capabilities := ["java"]; WorkerCapabilities.toolchains := ∅;
    WorkerCapabilities.max_concurrent_executions := 4; WorkerCapabilities.health_errors := [] |};
  WorkerRegistration.state := WorkerState.Ready; WorkerRegistration.running_executions := 7;
  WorkerRegistration.last_heartbeat := 10;
  WorkerRegistration.capability_proof := Some {|
    WorkerCapabilityProof.storage_backend := "lvm";
    WorkerCapabilityProof.storage_pool_identity := "pool";
    WorkerCapabilityProof.docker_daemon_id := "daemon";
    WorkerCapabilityProof.docker_verifier := "verifier";
    WorkerCapabilityProof.docker_method_version := "1" |} |}.

Lemma empty_workers_ok : workers_ok empty_database.
Proof. intros id w. simpl. by rewrite lookup_empty. Qed.

Lemma worker_write_read_witness :
  exists db', register example_registration empty_database = (Ok tt, db') /\
    get_worker "w-1" db' = (Ok (WorkerRegistration.set_running 0 example_registration), db').
Proof.
  pose proof (worker_write_read empty_database example_registration empty_workers_ok) as H.
  destruct H as (H1 & _ & _ & H4). eexists. split; [exact H1|].
  apply H4. vm_compute. reflexivity.
Defined.

(** Pages tile the worker listing.  On a sound registry the page that
    starts after the last worker of a previous page holds the workers that
    follow it in the complete listing, up to the limit, and the first page
    starts the listing when no worker has an empty id: no worker is skipped or
    repeated. *)
Theorem worker_pages_tile `{Collation} (db : Database) (limit : Z) (pre : list WorkerRegistration)
    (w : WorkerRegistration) (post : list WorkerRegistration) :
  workers_ok db -> 1 <= limit <= 100 ->
  list_workers db = (Ok (pre ++ w :: post), db) ->
  list_page limit (Some (WorkerRegistration.id w)) db = (Ok (take (Z.to_nat limit) post), db) /\
  (workers db !! EmptyString = None ->
   list_page limit None db = (Ok (take (Z.to_nat limit) (pre ++ w :: post)), db)).
Proof.
  intros Hok Hl Hlist.
  assert (Hrows : worker_rows db = pre ++ w :: post).
  { unfold list_workers, query in Hlist. rewrite decode_all_ok in Hlist by by apply worker_rows_ok.
    congruence. }
  assert (Hc : (1 <=? limit) && (limit <=? 100) = true) by (bools; lia).
  assert (Hdec : forall n l, (forall x, x ∈ l -> x ∈ worker_rows db) -> decode_all (take n l) = Ok (take n l)).
  { intros n l Hsub. apply decode_all_ok. intros x Hx. apply (worker_rows_ok db Hok), Hsub.
    rewrite <- (take_drop n l). set_solver. }
  unfold list_page, query. rewrite Hc. simpl. split.
  - rewrite (filter_after_cursor db pre w post) by done. rewrite Hdec; [done|].
    rewrite Hrows. set_solver.
  - intros Hempty.
    rewrite filter_all.
    + rewrite Hdec by done. by rewrite Hrows.
    + intros x [id Hx]%elem_of_worker_rows. unfold text_gt.
      rewrite bool_decide_true by apply text_le_empty. simpl. rewrite bool_decide_false; [done|].
      rewrite (wo_id _ _ (Hok id x Hx)). intros ->. congruence.
Qed.

Lemma worker_pages_tile_witness :
  list_page 10 None (register example_registration empty_database).2 =
    (Ok [WorkerRegistration.set_running 0 example_registration],
     (register example_registration empty_database).2).
Proof.
  apply (worker_pages_tile _ 10 [] (WorkerRegistration.set_running 0 example_registration) []).
  - apply workers_ok_insert; [apply empty_workers_ok|].
    split; [reflexivity|vm_compute; split; discriminate|vm_compute; reflexivity].
  - lia.
  - vm_compute. reflexivity.
  - vm_compute. reflexivity.
Defined.
