(* ===== verification/ExecutionStore.v ===== *)
(** * Execution records

    Models the execution half of [crates/orchestrator-persistence/src/lib.rs]:
    creation, state transitions, worker progress and cancellation.  Rows decode
    to the records they were written from, so [decode_execution] is the
    identity here; [Core.state_text_roundtrip] covers the state column. *)

From S2P Require Import Prelude Core WorkerTypes Database EventLog CleanupStore.

















Module IdempotentExecution.
Record IdempotentExecution := {
  execution : Execution;
  created : bool;
  event_sequence : option Z
}.
End IdempotentExecution.
Abbreviation IdempotentExecution := IdempotentExecution.IdempotentExecution.

Module PendingCancellation.
Record PendingCancellation := {
  execution : Execution;
  worker_id : option WorkerId;
  attempt_id : option AttemptId
}.
End PendingCancellation.
Abbreviation PendingCancellation := PendingCancellation.PendingCancellation.

(** [INSERT INTO executions ... version 1], a duplicate key mapped by
    [map_conflict]. *)
Definition insert_execution (execution : Execution) : Tx unit :=
  free ← gets (fun db => bool_decide (executions db !! Execution.id execution = None));
  _ ← ensure free (StoreError.DuplicateExecutionId
        "duplicate key value violates unique constraint executions_pkey");
  modify (fun db => set_executions
    (<[Execution.id execution := {| ExecutionRow.execution := execution;
                                    ExecutionRow.version := 1 |}]> (executions db)) db).

Definition insert (execution : Execution) : Op unit :=
  transaction (_ ← insert_execution execution; committed tt).

Definition get (id : ExecutionId) : Op Execution :=
  query (fun db => row ← ok_or (executions db !! id) (StoreError.NotFound id);
                   Ok (ExecutionRow.execution row)).

Definition execution_rows (db : Database) : list Execution :=
  (fun p => ExecutionRow.execution p.2) <$> map_to_list (executions db).

Definition live_rows `{Collation} (db : Database) : list Execution :=
  order_by Execution.created_at Execution.id
    (List.filter (fun e => negb (ExecutionState.is_terminal (Execution.state e)))
       (execution_rows db)).

Definition list_live `{Collation} : Op (list Execution) := query (fun db => Ok (live_rows db)).

Definition list_operational `{Collation} (limit : Z) : Op (list Execution) :=
  query (fun db => Ok (take (Z.to_nat limit) (live_rows db))).

(** [GROUP BY state ORDER BY state]: the states with a live row. *)
Definition live_state_counts `{Collation} : Op (list (ExecutionState * Z)) :=
  query (fun db =>
    let count s := count_where (fun e => bool_decide (Execution.state e = s)) (live_rows db) in
    Ok ((fun s => (s, count s)) <$>
          order_by (fun _ => 0) ExecutionState.text
            (List.filter (fun s => 0 <? count s) ExecutionState.all))).

(** [stale_controls_for_execution]; the row locks it takes first change nothing. *)
Definition stale_controls_for_execution (now : Clock) (id : ExecutionId) (reason : string) : Tx unit :=
  modify (fun db => set_controls
    ((fun c => if bool_decide (ControlRow.execution_id c = id) && ControlPhase.pending (ControlRow.phase c)
               then ControlRow.set_progress ControlPhase.STALE (ControlRow.side_effect_session_id c)
                      (Some reason) (Some (pg_now now)) c
               else c) <$> execution_control_requests db) db).

(** [UPDATE execution_cancellation_requests SET completed_at = $2 WHERE
    execution_id = $1 AND completed_at IS NULL]. *)
Definition complete_request (id : ExecutionId) (at_ : Timestamp) : Tx unit :=
  modify (fun db => set_cancellations
    (alter (fun r => if bool_decide (CancellationRow.completed_at r = None)
                     then {| CancellationRow.requested_at := CancellationRow.requested_at r;
                             CancellationRow.completed_at := Some at_ |}
                     else r) id (execution_cancellation_requests db)) db).

Definition cancelled_event (id : ExecutionId) (attempt_id : option AttemptId) (at_ : Timestamp) :
  ExecutionEvent := {|
  ExecutionEvent.execution_id := id; ExecutionEvent.attempt_id := attempt_id;
  ExecutionEvent.sequence := 0; ExecutionEvent.at_ := at_;
  ExecutionEvent.state := ExecutionState.Cancelled;
  ExecutionEvent.kind := ExecutionEventKind.ExecutionCancelled |}.

(** [execution.transition(next).map_err(|_| IllegalTransition { from, to })]. *)
Definition transition_or (next : ExecutionState) (now : Timestamp) (e : Execution) : Tx Execution :=
  lift (map_err (fun _ => StoreError.IllegalTransition (Execution.state e) next)
          (Execution.transition next now e)).

Definition request_cancellation (now : Clock) (id : ExecutionId) : Op Execution :=
  transaction (
    row ← select_execution id;
    let execution := ExecutionRow.execution row in
    existing ← gets (fun db => execution_cancellation_requests db !! id);
    if bool_decide (Execution.state execution = ExecutionState.Cancelled) && bool_decide (is_Some existing)
    then committed execution
    else
      _ ← ensure (negb (ExecutionState.is_terminal (Execution.state execution)))
            (StoreError.IllegalTransition (Execution.state execution) ExecutionState.Cancelled);
      _ ← modify (fun db => set_cancellations
            (match execution_cancellation_requests db !! id with
             | Some _ => execution_cancellation_requests db
             | None => <[id := {| CancellationRow.requested_at := pg_now now;
                                  CancellationRow.completed_at := None |}]>
                         (execution_cancellation_requests db)
             end) db);
      _ ← stale_controls_for_execution now id "execution cancellation took precedence";
      if bool_decide (Execution.state execution = ExecutionState.Queued) &&
         bool_decide (Execution.worker_id execution = None) &&
         bool_decide (Execution.attempt_id execution = None)
      then
        execution ← transition_or ExecutionState.Cancelled (utc_now now) execution;
        let execution := Execution.set_result (Some (cancelled_result id)) execution in
        _ ← update_execution id (fun _ => true) (fun e => Execution.set_result
              (Execution.result execution)
              (Execution.set_state ExecutionState.Cancelled (Execution.updated_at execution) e));
        _ ← append_in_transaction (cancelled_event id None (Execution.updated_at execution));
        _ ← complete_request id (Execution.updated_at execution);
        committed execution
      else committed execution).

Definition cancellation_requested (id : ExecutionId) : Op bool :=
  query (fun db => Ok (cancellation_pending id db)).

(** One row of the join [list_pending_cancellations] reads, with the request
    time it is ordered by. *)
Definition pending_row (db : Database) (p : ExecutionId * CancellationRow) :
  option (Timestamp * PendingCancellation) :=
  match CancellationRow.completed_at p.2, executions db !! p.1 with
  | None, Some row =>
      let e := ExecutionRow.execution row in
      let c := cleanup_authorities db !! p.1 in
      Some (CancellationRow.requested_at p.2, {|
        PendingCancellation.execution := e;
        PendingCancellation.worker_id :=
          match c with Some c => Some (CleanupAuthority.worker_id c) | None => Execution.worker_id e end;
        PendingCancellation.attempt_id :=
          match c with Some c => Some (CleanupAuthority.attempt_id c) | None => Execution.attempt_id e end |})
  | _, _ => None
  end.

Definition list_pending_cancellations `{Collation} : Op (list PendingCancellation) :=
  query (fun db => Ok (snd <$> order_by fst (fun p => Execution.id (PendingCancellation.execution p.2))
    (omap (pending_row db) (map_to_list (execution_cancellation_requests db))))).

Definition complete_cancellation (now : Clock) (id : ExecutionId) (attempt_id : AttemptId) :
  Op (Execution * Z) :=
  transaction (
    row ← select_execution id;
    pending ← gets (cancellation_pending id);
    _ ← ensure pending (StoreError.Conflict
          ("execution " +:+ id +:+ " has no pending cancellation request"));
    execution ← transition_or ExecutionState.Cancelled (utc_now now) (ExecutionRow.execution row);
    reservation_exists ← gets (fun db => bool_decide (is_Some (reservations db !! id)));
    attempt_finished ← gets (fun db => match execution_attempts db !! attempt_id with
      | Some a => bool_decide (AttemptRow.execution_id a = id) &&
                  bool_decide (AttemptRow.finished_at a <> None)
      | None => false end);
    cleanup_resolved ← gets (fun db => match cleanup_authorities db !! id with
      | Some c => bool_decide (CleanupAuthority.attempt_id c = attempt_id) &&
                  bool_decide (CleanupAuthority.phase c = "RESOLVED")
      | None => false end);
    _ ← ensure (negb (reservation_exists || negb attempt_finished || negb cleanup_resolved))
          (StoreError.Conflict ("execution " +:+ id +:+
             " cancellation cannot complete before cleanup and reservation release"));
    let execution := Execution.set_result (Some (cancelled_result id)) execution in
    _ ← update_execution id (fun _ => true) (fun e => Execution.set_result
          (Execution.result execution)
          (Execution.set_state ExecutionState.Cancelled (Execution.updated_at execution) e));
    _ ← update_attempt attempt_id (fun a => bool_decide (AttemptRow.execution_id a = id))
          (fun a => {| AttemptRow.execution_id := AttemptRow.execution_id a;
                       AttemptRow.worker_id := AttemptRow.worker_id a;
                       AttemptRow.state := ExecutionState.Cancelled;
                       AttemptRow.worktree_path := AttemptRow.worktree_path a;
                       AttemptRow.session_id := AttemptRow.session_id a;
                       AttemptRow.result := Execution.result execution;
                       AttemptRow.finished_at := AttemptRow.finished_at a |});
    sequence ← append_in_transaction (cancelled_event id (Some attempt_id) (Execution.updated_at execution));
    _ ← complete_request id (Execution.updated_at execution);
    committed (execution, sequence)).

(** The part [transition] and [transition_with_event] share. *)
Definition pending_cancellation_guard (id : ExecutionId) : Tx unit :=
  pending ← gets (cancellation_pending id);
  ensure (negb pending)
    (StoreError.Conflict ("execution " +:+ id +:+ " has a pending cancellation request")).

Definition transition (now : Clock) (id : ExecutionId) (next : ExecutionState) : Op Execution :=
  transaction (
    row ← select_execution id;
    _ ← pending_cancellation_guard id;
    execution ← transition_or next (utc_now now) (ExecutionRow.execution row);
    _ ← update_execution id (fun _ => true)
          (Execution.set_state (Execution.state execution) (Execution.updated_at execution));
    committed execution).

Definition transition_with_event (now : Clock) (id : ExecutionId) (next : ExecutionState)
    (event : ExecutionEvent) : Op (Execution * Z) :=
  transaction (
    _ ← ensure (negb (negb (bool_decide (id = ExecutionEvent.execution_id event)) ||
                      negb (bool_decide (next = ExecutionEvent.state event)) ||
                      negb (ExecutionEvent.sequence event =? 0)))
          (StoreError.Conflict "execution transition and event identity do not match");
    row ← select_execution id;
    _ ← pending_cancellation_guard id;
    _ ← ensure (bool_decide (Execution.attempt_id (ExecutionRow.execution row) =
                             ExecutionEvent.attempt_id event))
          (StoreError.Conflict "execution transition and event attempt do not match");
    execution ← transition_or next (utc_now now) (ExecutionRow.execution row);
    _ ← update_execution id (fun _ => true)
          (Execution.set_state (Execution.state execution) (Execution.updated_at execution));
    sequence ← append_in_transaction event;
    committed (execution, sequence)).

(** The columns [record_progress] writes. *)
Definition progress_columns (execution persisted : Execution) : Execution :=
  {| Execution.id := Execution.id persisted; Execution.role := Execution.role persisted;
     Execution.state := Execution.state execution;
     Execution.manifest := Execution.manifest persisted;
     Execution.worker_id := Execution.worker_id execution;
     Execution.attempt_id := Execution.attempt_id execution;
     Execution.session_id := Execution.session_id execution;
     Execution.worktree_path := Execution.worktree_path execution;
     Execution.labels := Execution.labels persisted;
     Execution.created_at := Execution.created_at persisted;
     Execution.updated_at := Execution.updated_at execution;
     Execution.result := Execution.result execution |}.

Definition progress_attempt (execution : Execution) (a : AttemptRow) : AttemptRow :=
  {| AttemptRow.execution_id := AttemptRow.execution_id a;
     AttemptRow.worker_id := AttemptRow.worker_id a;
     AttemptRow.state := Execution.state execution;
     AttemptRow.worktree_path := Execution.worktree_path execution;
     AttemptRow.session_id := Execution.session_id execution;
     AttemptRow.result := Execution.result execution;
     AttemptRow.finished_at :=
       if ExecutionState.is_terminal (Execution.state execution)
       then Some (Execution.updated_at execution) else None |}.

Definition is_active_attempt (id : ExecutionId) (attempt_id : AttemptId) (worker_id : WorkerId)
    (db : Database) : bool :=
  match execution_attempts db !! attempt_id with
  | Some a => bool_decide (AttemptRow.execution_id a = id) &&
              bool_decide (AttemptRow.worker_id a = worker_id) &&
              bool_decide (AttemptRow.finished_at a = None)
  | None => false
  end.

(** The guards of [record_progress], up to the active attempt it may write. *)
Definition progress_guards (execution : Execution) (event : ExecutionEvent) :
  Tx (ExecutionRow * AttemptId * WorkerId) :=
  _ ← ensure (negb (negb (bool_decide (Execution.id execution = ExecutionEvent.execution_id event)) ||
                    negb (bool_decide (Execution.state execution = ExecutionEvent.state event)) ||
                    negb (bool_decide (Execution.attempt_id execution = ExecutionEvent.attempt_id event))))
        (StoreError.Conflict "execution progress and event identity do not match");
  row ← select_execution (Execution.id execution);
  let persisted := ExecutionRow.execution row in
  _ ← pending_cancellation_guard (Execution.id execution);
  _ ← ensure (negb (negb (bool_decide (Execution.worker_id persisted = Execution.worker_id execution)) ||
                    negb (bool_decide (Execution.attempt_id persisted = Execution.attempt_id execution))))
        (StoreError.Conflict "execution worker or attempt authority changed");
  _ ← ensure (negb (negb (bool_decide (Execution.state persisted = Execution.state execution)) &&
                    negb (ExecutionState.can_transition_to (Execution.state persisted)
                            (Execution.state execution))))
        (StoreError.IllegalTransition (Execution.state persisted) (Execution.state execution));
  attempt_id ← require (Execution.attempt_id execution)
        (StoreError.Conflict "execution progress lacks active attempt authority");
  worker_id ← require (Execution.worker_id execution)
        (StoreError.Conflict "execution progress lacks active attempt authority");
  active ← gets (is_active_attempt (Execution.id execution) attempt_id worker_id);
  _ ← ensure active (StoreError.Conflict "expected exactly one active attempt, found 0");
  mret (row, attempt_id, worker_id).

Definition record_progress_with (now : Clock) (execution : Execution) (event : ExecutionEvent)
    (request_retention : bool) : Op Z :=
  transaction (
    g ← progress_guards execution event;
    let '(row, attempt_id, worker_id) := g in
    updated ← update_execution (Execution.id execution)
      (fun r => ExecutionRow.version r =? ExecutionRow.version row) (progress_columns execution);
    _ ← ensure (updated =? 1)
          (StoreError.Conflict "execution version changed while recording progress");
    updated ← update_attempt attempt_id (fun _ => true) (progress_attempt execution);
    _ ← ensure (updated =? 1)
          (StoreError.Conflict "active execution attempt disappeared while recording progress");
    _ ← when request_retention (
          updated ← update_authority (Execution.id execution)
            (fun c => owned_by attempt_id worker_id c &&
                      bool_decide (CleanupAuthority.phase c ∈
                        ["ACTIVE:POST_PI_BEFORE_EVENT"; "RETAIN_REQUESTED"]))
            (CleanupAuthority.set_phase (phase_text CleanupDisposition.RetainRequested) (pg_now now));
          ensure (updated =? 1)
            (StoreError.Conflict "cleanup authority cannot atomically request retention"));
    _ ← when (ExecutionState.is_terminal (Execution.state execution))
          (stale_controls_for_execution now (Execution.id execution) "execution entered a terminal state");
    sequence ← append_in_transaction event;
    committed sequence).

Definition record_progress (now : Clock) (execution : Execution) (event : ExecutionEvent) : Op Z :=
  record_progress_with now execution event false.
Definition record_progress_and_request_retention (now : Clock) (execution : Execution)
    (event : ExecutionEvent) : Op Z :=
  record_progress_with now execution event true.

Definition create_idempotent (execution : Execution) (event : ExecutionEvent)
    (idempotency_key request_scope : string) : Op IdempotentExecution :=
  transaction (
    _ ← ensure (negb (str_is_empty idempotency_key ||
                      (255 <? Z.of_nat (Strings.String.length idempotency_key))))
          (StoreError.Conflict "idempotency key must be 1-255 bytes");
    _ ← ensure (negb (negb (bool_decide (Execution.id execution = ExecutionEvent.execution_id event)) ||
                      negb (bool_decide (Execution.state execution = ExecutionEvent.state event)) ||
                      negb (ExecutionEvent.sequence event =? 0)))
          (StoreError.Conflict "created execution and event identity do not match");
    stored ← gets (fun db => execution_requests db !! idempotency_key);
    match stored with
    | Some r =>
        row ← gets (fun db => executions db !! RequestRow.execution_id r);
        row ← require row row_not_found;
        let replay := ExecutionRow.execution row in
        _ ← ensure (negb (negb (bool_decide (RequestRow.request_scope r = request_scope)) ||
                          negb (bool_decide (Execution.manifest replay = Execution.manifest execution))))
              (StoreError.IdempotencyConflict
                 "idempotency key was already used for a different request");
        committed {| IdempotentExecution.execution := replay;
                     IdempotentExecution.created := false;
                     IdempotentExecution.event_sequence := None |}
    | None =>
        _ ← insert_execution execution;
        _ ← modify (fun db => set_requests
              (<[idempotency_key := {| RequestRow.request_scope := request_scope;
                                       RequestRow.execution_id := Execution.id execution;
                                       RequestRow.created_at := Execution.created_at execution |}]>
                 (execution_requests db)) db);
        sequence ← append_in_transaction event;
        committed {| IdempotentExecution.execution := execution;
                     IdempotentExecution.created := true;
                     IdempotentExecution.event_sequence := Some sequence |}
    end).

Definition attachment_snapshot (id : ExecutionId) : Op ExecutionAttachment :=
  query (fun db =>
    row ← ok_or (executions db !! id) (StoreError.NotFound id);
    let execution := ExecutionRow.execution row in
    let active := bool_decide (Execution.state execution ∈
                    [ExecutionState.Running; ExecutionState.PausedForHuman]) &&
                  bool_decide (is_Some (Execution.worker_id execution)) &&
                  bool_decide (is_Some (Execution.attempt_id execution)) in
    let retained := bool_decide (Execution.state execution = ExecutionState.ReviewReady) &&
                    bool_decide (CleanupAuthority.phase <$> cleanup_authorities db !! id = Some "RETAINED"%string) in
    _ ← check (active || retained) (StoreError.Conflict
          ("execution " +:+ id +:+ " has no live or retained attachment authority"));
    session_id ← ok_or (Execution.session_id execution) (StoreError.Conflict
          ("execution " +:+ id +:+ " lacks an attachable session"));
    _ ← check (bool_decide (is_Some (Execution.worktree_path execution))) (StoreError.Conflict
          ("execution " +:+ id +:+ " lacks an attachable workspace"));
    cursor ← ok_or (try_from 0 u64_max (max_sequence (events_of id (execution_events db))))
          (StoreError.Conflict "negative attachment cursor");
    Ok {| ExecutionAttachment.execution_id := id;
          ExecutionAttachment.state := Execution.state execution;
          ExecutionAttachment.session_id := session_id;
          ExecutionAttachment.workspace_ref := "execution:" +:+ id +:+ ":workspace";
          ExecutionAttachment.event_cursor := cursor |}).
