(* ===== verification/Controls.v ===== *)
(** * Interactive controls

    Models the control half of [crates/orchestrator-persistence/src/lib.rs]:
    accepting a pause, resume or fork against the state the pending ones will
    leave, and the phases a worker takes it through. *)

From S2P Require Import Prelude Core WorkerTypes Database EventLog CleanupStore ExecutionStore.

















Module IdempotentExecutionControl.
Record IdempotentExecutionControl := {
  request : ExecutionControlRequest;
  created : bool
}.
End IdempotentExecutionControl.
Abbreviation IdempotentExecutionControl := IdempotentExecutionControl.IdempotentExecutionControl.

Module ExecutionControlPhase.
Inductive ExecutionControlPhase := Accepted | Applying | SideEffectApplied.
End ExecutionControlPhase.
Abbreviation ExecutionControlPhase := ExecutionControlPhase.ExecutionControlPhase.

Module PendingExecutionControl.
Record PendingExecutionControl := {
  request : ExecutionControlRequest;
  execution : Execution;
  phase : ExecutionControlPhase;
  accepted_worker_id : WorkerId;
  accepted_attempt_id : AttemptId;
  source_session_id : SessionId;
  worktree_path : string;
  accepted_version : Z;
  accepted_state : ExecutionState;
  target_session_id : option SessionId;
  side_effect_session_id : option SessionId
}.
End PendingExecutionControl.
Abbreviation PendingExecutionControl := PendingExecutionControl.PendingExecutionControl.

Definition decode_control_request (request_id : Z) (c : ControlRow) : ExecutionControlRequest := {|
  ExecutionControlRequest.request_id := request_id;
  ExecutionControlRequest.execution_id := ControlRow.execution_id c;
  ExecutionControlRequest.action := ControlRow.action c;
  ExecutionControlRequest.requested_at := ControlRow.requested_at c;
  ExecutionControlRequest.completed_at := ControlRow.completed_at c |}.

Definition decode_control_phase (p : ControlPhase) : result StoreError ExecutionControlPhase :=
  match p with
  | ControlPhase.ACCEPTED => Ok ExecutionControlPhase.Accepted
  | ControlPhase.APPLYING => Ok ExecutionControlPhase.Applying
  | ControlPhase.SIDE_EFFECT_APPLIED => Ok ExecutionControlPhase.SideEffectApplied
  | _ => Err (StoreError.Conflict
                ("invalid pending execution control phase: " +:+ ControlPhase.text p))
  end.

(** [ORDER BY requested_at, request_id]. *)
Definition control_le (a b : Z * ControlRow) : Prop :=
  ControlRow.requested_at a.2 < ControlRow.requested_at b.2 \/
  (ControlRow.requested_at a.2 = ControlRow.requested_at b.2 /\ a.1 <= b.1).
#[export] Instance control_le_dec : RelDecision control_le.
Proof. intros a b. unfold control_le. apply _. Defined.

Definition controls_where (p : ControlRow -> bool) (db : Database) : list (Z * ControlRow) :=
  merge_sort control_le
    (List.filter (fun kc => p kc.2) (map_to_list (execution_control_requests db))).

(** The state, session and version an execution will have once the pending
    controls are applied. *)
Record Projection := {
  projected_state : ExecutionState;
  projected_session : SessionId;
  projected_version : Z
}.

Definition interactive (s : ExecutionState) : bool :=
  bool_decide (s ∈ [ExecutionState.Running; ExecutionState.PausedForHuman]).

(** One iteration of the loop over the pending actions. *)
Definition project_one (p : Projection) (c : ControlRow) : result StoreError Projection :=
  match ControlRow.action c with
  | ExecutionControlAction.Pause =>
      if bool_decide (projected_state p = ExecutionState.Running)
      then Ok {| projected_state := ExecutionState.PausedForHuman;
                 projected_session := projected_session p;
                 projected_version := projected_version p + 1 |}
      else Err (StoreError.Conflict ("pending Pause is invalid for projected state " +:+
                                     ExecutionState.debug (projected_state p)))
  | ExecutionControlAction.Resume =>
      if bool_decide (projected_state p = ExecutionState.PausedForHuman)
      then Ok {| projected_state := ExecutionState.Running;
                 projected_session := projected_session p;
                 projected_version := projected_version p + 1 |}
      else Err (StoreError.Conflict ("pending Resume is invalid for projected state " +:+
                                     ExecutionState.debug (projected_state p)))
  | ExecutionControlAction.ForkConversation =>
      if interactive (projected_state p)
      then target ← ok_or (ControlRow.target_session_id c)
                      (StoreError.Conflict "pending fork lacks a target session");
           Ok {| projected_state := projected_state p;
                 projected_session := target;
                 projected_version := projected_version p + 1 |}
      else Err (StoreError.Conflict ("pending ForkConversation is invalid for projected state " +:+
                                     ExecutionState.debug (projected_state p)))
  end.

Fixpoint project (p : Projection) (pending : list (Z * ControlRow)) : result StoreError Projection :=
  match pending with
  | [] => Ok p
  | c :: pending => p ← project_one p c.2; project p pending
  end.

Definition allowed (action : ExecutionControlAction) (s : ExecutionState) : bool :=
  match action with
  | ExecutionControlAction.Pause => bool_decide (s = ExecutionState.Running)
  | ExecutionControlAction.Resume => bool_decide (s = ExecutionState.PausedForHuman)
  | ExecutionControlAction.ForkConversation => interactive s
  end.

Definition lacks_authority (id : ExecutionId) : StoreError :=
  StoreError.Conflict ("execution " +:+ id +:+ " lacks durable interactive authority").

(** [nextval] of the id sequence.  PostgreSQL does not roll a sequence back; no
    statement after it in [request_control] can fail on a fresh id, so the
    distinction is not observable here. *)
Definition next_request_id : Tx Z :=
  last ← gets control_request_sequence;
  n ← int8 (last + 1);
  _ ← modify (set_control_sequence n);
  mret n.

Definition insert_control (request_id : Z) (c : ControlRow) : Tx unit :=
  free ← gets (fun db => bool_decide (execution_control_requests db !! request_id = None) &&
    forallb (fun kc => negb (bool_decide (ControlRow.execution_id kc.2 = ControlRow.execution_id c) &&
                             bool_decide (ControlRow.idempotency_key kc.2 = ControlRow.idempotency_key c)))
      (map_to_list (execution_control_requests db)));
  _ ← ensure free (StoreError.Conflict "duplicate key value violates unique constraint");
  _ ← ensure (0 <? ControlRow.accepted_execution_version c)
        (StoreError.Db "violates check constraint");
  modify (fun db => set_controls (<[request_id := c]> (execution_control_requests db)) db).

Definition request_control (now : Clock) (id : ExecutionId) (action : ExecutionControlAction)
    (idempotency_key : string) : Op IdempotentExecutionControl :=
  transaction (
    _ ← ensure (negb (str_is_empty idempotency_key ||
                      (255 <? Z.of_nat (Strings.String.length idempotency_key))))
          (StoreError.Conflict "idempotency key must be 1-255 bytes");
    row ← select_execution id;
    let execution := ExecutionRow.execution row in
    existing ← gets (controls_where (fun c => bool_decide (ControlRow.execution_id c = id) &&
                                     bool_decide (ControlRow.idempotency_key c = idempotency_key)));
    match existing with
    | (request_id, c) :: _ =>
        _ ← ensure (bool_decide (ControlRow.action c = action)) (StoreError.IdempotencyConflict
              "idempotency key was already used for another execution control");
        committed {| IdempotentExecutionControl.request := decode_control_request request_id c;
                     IdempotentExecutionControl.created := false |}
    | [] =>
        pending ← gets (cancellation_pending id);
        _ ← ensure (negb pending) (StoreError.Conflict
              ("execution " +:+ id +:+ " has a pending cancellation"));
        pending_actions ← gets (controls_where (fun c => bool_decide (ControlRow.execution_id c = id) &&
                                 bool_decide (ControlRow.completed_at c = None)));
        session ← require (Execution.session_id execution) (lacks_authority id);
        p ← lift (project {| projected_state := Execution.state execution;
                             projected_session := session;
                             projected_version := ExecutionRow.version row |} pending_actions);
        _ ← ensure (allowed action (projected_state p)) (StoreError.Conflict
              ("execution " +:+ id +:+ " cannot accept " +:+ ExecutionControlAction.debug action +:+
               " while " +:+ ExecutionState.debug (projected_state p)));
        worker_id ← require (Execution.worker_id execution) (lacks_authority id);
        attempt_id ← require (Execution.attempt_id execution) (lacks_authority id);
        worktree_path ← require (Execution.worktree_path execution) (lacks_authority id);
        request_id ← next_request_id;
        let c := {|
          ControlRow.execution_id := id; ControlRow.action := action;
          ControlRow.idempotency_key := idempotency_key;
          ControlRow.accepted_worker_id := worker_id; ControlRow.accepted_attempt_id := attempt_id;
          ControlRow.source_session_id := projected_session p;
          ControlRow.worktree_path := worktree_path;
          ControlRow.accepted_execution_version := projected_version p;
          ControlRow.accepted_state := projected_state p;
          ControlRow.target_session_id :=
            if bool_decide (action = ExecutionControlAction.ForkConversation)
            then Some (projected_session p +:+ "-fork-" +:+ show_Z request_id) else None;
          ControlRow.side_effect_session_id := None; ControlRow.phase := ControlPhase.ACCEPTED;
          ControlRow.stale_reason := None; ControlRow.requested_at := pg_now now;
          ControlRow.completed_at := None |} in
        _ ← insert_control request_id c;
        committed {| IdempotentExecutionControl.request := decode_control_request request_id c;
                     IdempotentExecutionControl.created := true |}
    end).

Definition pending_control (db : Database) (kc : Z * ControlRow) :
  option (result StoreError PendingExecutionControl) :=
  let c := kc.2 in
  match executions db !! ControlRow.execution_id c with
  | None => None
  | Some row => Some (
      let execution := ExecutionRow.execution row in
      phase ← decode_control_phase (ControlRow.phase c);
      Ok {| PendingExecutionControl.request := {|
              ExecutionControlRequest.request_id := kc.1;
              ExecutionControlRequest.execution_id := Execution.id execution;
              ExecutionControlRequest.action := ControlRow.action c;
              ExecutionControlRequest.requested_at := ControlRow.requested_at c;
              ExecutionControlRequest.completed_at := ControlRow.completed_at c |};
            PendingExecutionControl.execution := execution;
            PendingExecutionControl.phase := phase;
            PendingExecutionControl.accepted_worker_id := ControlRow.accepted_worker_id c;
            PendingExecutionControl.accepted_attempt_id := ControlRow.accepted_attempt_id c;
            PendingExecutionControl.source_session_id := ControlRow.source_session_id c;
            PendingExecutionControl.worktree_path := ControlRow.worktree_path c;
            PendingExecutionControl.accepted_version := ControlRow.accepted_execution_version c;
            PendingExecutionControl.accepted_state := ControlRow.accepted_state c;
            PendingExecutionControl.target_session_id := ControlRow.target_session_id c;
            PendingExecutionControl.side_effect_session_id := ControlRow.side_effect_session_id c |})
  end.

Fixpoint collect {A} (l : list (result StoreError A)) : result StoreError (list A) :=
  match l with
  | [] => Ok []
  | r :: l => a ← r; rest ← collect l; Ok (a :: rest)
  end.

Definition list_pending_controls (worker_id : WorkerId) : Op (list PendingExecutionControl) :=
  query (fun db => collect (omap (pending_control db)
    (controls_where (fun c => ControlPhase.pending (ControlRow.phase c) &&
       (bool_decide (ControlRow.accepted_worker_id c = worker_id) ||
        match executions db !! ControlRow.execution_id c with
        | Some row => bool_decide (Execution.worker_id (ExecutionRow.execution row) = Some worker_id)
        | None => false
        end)) db))).

Definition control_not_found (request_id : Z) : StoreError :=
  StoreError.NotFound ("control request " +:+ show_Z request_id).

(** The lock sequence of the phase operations: the control's execution, then
    the control itself. *)
Definition lock_control (request_id : Z) : Tx (ControlRow * ExecutionRow) :=
  c ← gets (fun db => execution_control_requests db !! request_id);
  c ← require c (control_not_found request_id);
  row ← gets (fun db => executions db !! ControlRow.execution_id c);
  row ← require row row_not_found;
  mret (c, row).

Definition put_control (request_id : Z) (c : ControlRow) : Tx unit :=
  modify (fun db => set_controls (<[request_id := c]> (execution_control_requests db)) db).

Definition stale_control (now : Clock) (reason : string) (c : ControlRow) : ControlRow :=
  ControlRow.set_progress ControlPhase.STALE (ControlRow.side_effect_session_id c)
    (Some reason) (Some (pg_now now)) c.

(** The execution is still exactly what the control was accepted against. *)
Definition fenced (worker_id : WorkerId) (attempt_id : AttemptId) (c : ControlRow)
    (row : ExecutionRow) : bool :=
  let current := ExecutionRow.execution row in
  bool_decide (ControlRow.accepted_worker_id c = worker_id) &&
  bool_decide (ControlRow.accepted_attempt_id c = attempt_id) &&
  bool_decide (Execution.worker_id current = Some (ControlRow.accepted_worker_id c)) &&
  bool_decide (Execution.attempt_id current = Some (ControlRow.accepted_attempt_id c)) &&
  bool_decide (Execution.session_id current = Some (ControlRow.source_session_id c)) &&
  bool_decide (Execution.worktree_path current = Some (ControlRow.worktree_path c)) &&
  (ExecutionRow.version row =? ControlRow.accepted_execution_version c) &&
  bool_decide (Execution.state current = ControlRow.accepted_state c).

Definition begin_control (now : Clock) (request_id : Z) (worker_id : WorkerId)
    (attempt_id : AttemptId) : Op unit :=
  transaction (
    locked ← lock_control request_id;
    let '(c, row) := locked in
    _ ← ensure (ControlPhase.pending (ControlRow.phase c)) (StoreError.Conflict
          ("control request " +:+ show_Z request_id +:+ " is terminal: " +:+
           ControlPhase.text (ControlRow.phase c)));
    cancellation ← gets (cancellation_pending (ControlRow.execution_id c));
    if negb (fenced worker_id attempt_id c row) || cancellation then
      _ ← put_control request_id (stale_control now
            (if cancellation then "execution cancellation took precedence"
             else "accepted execution authority changed") c);
      committed_error (StoreError.Conflict "accepted interactive control authority is stale")
    else
      _ ← when (bool_decide (ControlRow.phase c = ControlPhase.ACCEPTED))
            (put_control request_id (ControlRow.set_progress ControlPhase.APPLYING
               (ControlRow.side_effect_session_id c) (ControlRow.stale_reason c)
               (ControlRow.completed_at c) c));
      committed tt).

(** The session a control's side effect must land in. *)
Definition expected_session (c : ControlRow) : result StoreError SessionId :=
  match ControlRow.action c with
  | ExecutionControlAction.ForkConversation =>
      ok_or (ControlRow.target_session_id c) (StoreError.Conflict "fork target session is missing")
  | _ => Ok (ControlRow.source_session_id c)
  end.

Definition mark_control_side_effect_applied (now : Clock) (request_id : Z)
    (session_id : option SessionId) : Op unit :=
  transaction (
    locked ← lock_control request_id;
    let '(c, _) := locked in
    cancellation ← gets (cancellation_pending (ControlRow.execution_id c));
    if (cancellation : bool) then
      _ ← when (ControlPhase.pending (ControlRow.phase c))
            (put_control request_id (stale_control now "execution cancellation took precedence" c));
      committed_error (StoreError.Conflict "execution cancellation took precedence")
    else
      expected ← lift (expected_session c);
      _ ← ensure (bool_decide (default expected session_id = expected)) (StoreError.Conflict
            "control side effect belongs to a different session");
      if bool_decide (ControlRow.phase c = ControlPhase.SIDE_EFFECT_APPLIED) &&
         bool_decide (ControlRow.side_effect_session_id c = Some expected)
      then committed tt
      else
        _ ← ensure (bool_decide (ControlRow.phase c = ControlPhase.APPLYING)) (StoreError.Conflict
              ("control request " +:+ show_Z request_id +:+ " cannot record a side effect from " +:+
               ControlPhase.text (ControlRow.phase c)));
        _ ← put_control request_id (ControlRow.set_progress ControlPhase.SIDE_EFFECT_APPLIED
              (Some expected) (ControlRow.stale_reason c) (ControlRow.completed_at c) c);
        committed tt).

Definition event_matches_action (action : ExecutionControlAction) (expected : SessionId)
    (kind : ExecutionEventKind) : bool :=
  match action, kind with
  | ExecutionControlAction.Pause, ExecutionEventKind.ExecutionPaused => true
  | ExecutionControlAction.Resume, ExecutionEventKind.ExecutionResumed => true
  | ExecutionControlAction.ForkConversation, ExecutionEventKind.ConversationForked session_id =>
      bool_decide (session_id = expected)
  | _, _ => false
  end.

Definition expected_state (c : ControlRow) : ExecutionState :=
  match ControlRow.action c with
  | ExecutionControlAction.Pause => ExecutionState.PausedForHuman
  | ExecutionControlAction.Resume => ExecutionState.Running
  | ExecutionControlAction.ForkConversation => ControlRow.accepted_state c
  end.

(** The comparison of the stored execution with what the control was accepted
    against, at completion. *)
Definition authority_unchanged (c : ControlRow) (execution : Execution) (row : ExecutionRow) : bool :=
  let persisted := ExecutionRow.execution row in
  bool_decide (Execution.worker_id persisted = Some (ControlRow.accepted_worker_id c)) &&
  bool_decide (Execution.attempt_id persisted = Some (ControlRow.accepted_attempt_id c)) &&
  bool_decide (Execution.session_id persisted = Some (ControlRow.source_session_id c)) &&
  bool_decide (Execution.worktree_path persisted = Execution.worktree_path execution) &&
  bool_decide (Execution.state persisted = ControlRow.accepted_state c) &&
  (ExecutionRow.version row =? ControlRow.accepted_execution_version c).

Definition complete_control (now : Clock) (request_id : Z) (execution : Execution)
    (event : ExecutionEvent) : Op (option Z) :=
  transaction (
    _ ← ensure (negb (negb (bool_decide (ExecutionEvent.execution_id event = Execution.id execution)) ||
                      negb (bool_decide (ExecutionEvent.state event = Execution.state execution)) ||
                      negb (bool_decide (ExecutionEvent.attempt_id event = Execution.attempt_id execution)) ||
                      negb (ExecutionEvent.sequence event =? 0)))
          (StoreError.Conflict "interactive control progress and event identity do not match");
    row ← gets (fun db => executions db !! Execution.id execution);
    row ← require row row_not_found;
    c ← gets (fun db => execution_control_requests db !! request_id);
    c ← require c (control_not_found request_id);
    _ ← ensure (bool_decide (ControlRow.execution_id c = Execution.id execution))
          (StoreError.Conflict "interactive control belongs to another execution");
    if bool_decide (ControlRow.phase c = ControlPhase.COMPLETED) then committed None else
    cancellation ← gets (cancellation_pending (Execution.id execution));
    if (cancellation : bool) then
      _ ← put_control request_id (stale_control now "execution cancellation took precedence" c);
      committed_error (StoreError.Conflict "execution cancellation took precedence")
    else
      _ ← ensure (bool_decide (ControlRow.phase c = ControlPhase.SIDE_EFFECT_APPLIED))
            (StoreError.Conflict ("control request " +:+ show_Z request_id +:+
               " cannot complete from " +:+ ControlPhase.text (ControlRow.phase c)));
      expected ← lift (expected_session c);
      _ ← ensure (bool_decide (ControlRow.side_effect_session_id c = Some expected))
            (StoreError.Conflict "control side effect session is not the accepted target");
      _ ← ensure (bool_decide (Execution.state execution = expected_state c) &&
                  bool_decide (Execution.session_id execution = Some expected) &&
                  bool_decide (Execution.worktree_path execution = Some (ControlRow.worktree_path c)) &&
                  event_matches_action (ControlRow.action c) expected (ExecutionEvent.kind event))
            (StoreError.Conflict ("completed " +:+ ExecutionControlAction.debug (ControlRow.action c) +:+
               " does not match its accepted state/session/worktree/event"));
      _ ← ensure (authority_unchanged c execution row)
            (StoreError.Conflict "interactive control attempt authority changed");
      _ ← ensure (bool_decide (ControlRow.action c = ExecutionControlAction.ForkConversation) ||
                  ExecutionState.can_transition_to (Execution.state (ExecutionRow.execution row))
                    (Execution.state execution))
            (StoreError.IllegalTransition (Execution.state (ExecutionRow.execution row))
               (Execution.state execution));
      _ ← update_execution (Execution.id execution) (fun _ => true)
            (fun e => Execution.set_session (Execution.session_id execution)
               (Execution.updated_at execution)
               (Execution.set_state (Execution.state execution) (Execution.updated_at execution) e));
      _ ← match Execution.attempt_id execution with
          | None => mret 0
          | Some attempt_id => update_attempt attempt_id
              (fun a => bool_decide (AttemptRow.execution_id a = Execution.id execution) &&
                        bool_decide (AttemptRow.finished_at a = None))
              (fun a => {| AttemptRow.execution_id := AttemptRow.execution_id a;
                           AttemptRow.worker_id := AttemptRow.worker_id a;
                           AttemptRow.state := Execution.state execution;
                           AttemptRow.worktree_path := AttemptRow.worktree_path a;
                           AttemptRow.session_id := Execution.session_id execution;
                           AttemptRow.result := AttemptRow.result a;
                           AttemptRow.finished_at := AttemptRow.finished_at a |})
          end;
      sequence ← append_in_transaction event;
      _ ← put_control request_id (ControlRow.set_progress ControlPhase.COMPLETED
            (ControlRow.side_effect_session_id c) (ControlRow.stale_reason c)
            (Some (Execution.updated_at execution)) c);
      committed (Some sequence)).
