(* ===== verification/Reservations.v ===== *)
(** * Reservations

    Models [crates/orchestrator-persistence/src/reservations.rs]: claiming the
    oldest queued execution a worker can host, giving capacity back, fencing
    the attempts of a lost worker and finalizing their cleanup. *)

From S2P Require Import Prelude Core WorkerTypes Scheduler Database EventLog CleanupStore WorkerStore ExecutionStore.

















Module Reservation.
Record Reservation := {
  execution : Execution;
  worker_id : WorkerId;
  attempt_id : AttemptId;
  cpu : Z;                            (* u32 *)
  memory_mib : Z                      (* u64 *)
}.
End Reservation.
Abbreviation Reservation := Reservation.Reservation.

Module LostWorkerRecovery.
Inductive LostWorkerRecovery :=
| CleanupPending (id : ExecutionId)
| Requeued (id : ExecutionId)
| ReviewReady (id : ExecutionId)
| Failed (id : ExecutionId).

#[global] Instance eq_dec : EqDecision LostWorkerRecovery.
Proof. solve_decision. Defined.
End LostWorkerRecovery.
Abbreviation LostWorkerRecovery := LostWorkerRecovery.LostWorkerRecovery.

(** The reservations of one worker. *)
Definition reservations_of (worker_id : WorkerId) (db : Database) : list ReservationRow :=
  List.filter (fun r => bool_decide (ReservationRow.worker_id r = worker_id))
    (map_to_list (reservations db)).*2.

(** [COUNT( * ), SUM(cpu)::BIGINT, SUM(memory_mib)::BIGINT, SUM(disk_gib)::BIGINT],
    each narrowed to the type the scheduler takes. *)
Definition reserved_usage (worker_id : WorkerId) : Tx ReservedResources :=
  rows ← gets (reservations_of worker_id);
  cpu ← int8 (sum_Z ReservationRow.cpu rows);
  memory ← int8 (sum_Z ReservationRow.memory_mib rows);
  disk ← int8 (sum_Z ReservationRow.disk_gib rows);
  slots ← require (try_from 0 u32_max (Z.of_nat (length rows)))
            (StoreError.Conflict "invalid reservation count");
  cpu ← require (try_from 0 u32_max cpu) (StoreError.Conflict "invalid reserved cpu");
  memory ← require (try_from 0 u64_max memory) (StoreError.Conflict "invalid reserved memory");
  disk ← require (try_from 0 u64_max disk) (StoreError.Conflict "invalid reserved disk");
  mret {| ReservedResources.slots := slots; ReservedResources.cpu := cpu;
          ReservedResources.memory_mib := memory; ReservedResources.disk_gib := disk |}.

(** The [WHERE] clause of the claim query; [locked] are the rows another
    transaction holds, which SKIP LOCKED leaves out. *)
Definition claimable (locked : ExecutionId -> bool) (db : Database) (e : Execution) : bool :=
  bool_decide (Execution.state e = ExecutionState.Queued) &&
  negb (cancellation_pending (Execution.id e) db) &&
  match cleanup_authorities db !! Execution.id e with
  | Some c => bool_decide (CleanupAuthority.phase c = "RESOLVED")
  | None => true
  end &&
  negb (locked (Execution.id e)).

Definition claim_queue `{Collation} (locked : ExecutionId -> bool) (db : Database) : list Execution :=
  order_by Execution.created_at Execution.id
    (List.filter (claimable locked db) (execution_rows db)).

(** [INSERT INTO reservations] with the table's keys and checks. *)
Definition insert_reservation (r : ReservationRow) : Tx unit :=
  free ← gets (fun db => bool_decide (reservations db !! ReservationRow.execution_id r = None) &&
    forallb (fun q => negb (bool_decide (ReservationRow.attempt_id q = ReservationRow.attempt_id r)))
      (map_to_list (reservations db)).*2);
  _ ← ensure free (StoreError.Db "duplicate key value violates unique constraint");
  _ ← ensure ((0 <? ReservationRow.cpu r) && (0 <? ReservationRow.memory_mib r) &&
              (0 <=? ReservationRow.disk_gib r)) (StoreError.Db "violates check constraint");
  modify (fun db => set_reservations (<[ReservationRow.execution_id r := r]> (reservations db)) db).

(** [INSERT INTO execution_attempts] with its key and the index that allows one
    unfinished attempt per execution. *)
Definition insert_attempt (attempt_id : AttemptId) (a : AttemptRow) : Tx unit :=
  free ← gets (fun db => bool_decide (execution_attempts db !! attempt_id = None) &&
    forallb (fun q => negb (bool_decide (AttemptRow.execution_id q = AttemptRow.execution_id a) &&
                            bool_decide (AttemptRow.finished_at q = None)))
      (map_to_list (execution_attempts db)).*2);
  _ ← ensure free (StoreError.Db "duplicate key value violates unique constraint");
  modify (fun db => set_attempts (<[attempt_id := a]> (execution_attempts db)) db).

(** The writes of a claim once an execution is selected. *)
Definition claim (now : Clock) (uuid : string) (worker_id : WorkerId) (execution : Execution) :
  Tx Reservation :=
  let attempt_id := "attempt-" +:+ uuid in
  let runtime := ExecutionManifest.runtime (Execution.manifest execution) in
  cpu ← require (try_from (- 2 ^ 31) i32_max (RuntimeRequirement.cpu runtime))
          (StoreError.Conflict "execution cpu exceeds PostgreSQL INTEGER");
  memory ← require (try_from (- 2 ^ 63) i64_max (RuntimeRequirement.memory_mib runtime))
          (StoreError.Conflict "execution memory exceeds PostgreSQL BIGINT");
  disk ← require (try_from (- 2 ^ 63) i64_max (RuntimeRequirement.disk_gib runtime))
          (StoreError.Conflict "execution disk exceeds PostgreSQL BIGINT");
  _ ← insert_reservation {|
        ReservationRow.execution_id := Execution.id execution;
        ReservationRow.worker_id := worker_id; ReservationRow.attempt_id := attempt_id;
        ReservationRow.cpu := cpu; ReservationRow.memory_mib := memory;
        ReservationRow.disk_gib := disk; ReservationRow.created_at := pg_now now |};
  execution ← transition_or ExecutionState.WorkerAssigned (utc_now now) execution;
  let execution := Execution.set_authority (Some worker_id) (Some attempt_id)
        (OwnershipLabels.set_worker_id worker_id (Execution.labels execution)) execution in
  _ ← update_execution (Execution.id execution) (fun _ => true)
        (fun e => Execution.set_authority (Some worker_id) (Some attempt_id) (Execution.labels execution)
           (Execution.set_state ExecutionState.WorkerAssigned (Execution.updated_at execution) e));
  _ ← insert_attempt attempt_id {|
        AttemptRow.execution_id := Execution.id execution; AttemptRow.worker_id := worker_id;
        AttemptRow.state := ExecutionState.WorkerAssigned; AttemptRow.worktree_path := None;
        AttemptRow.session_id := None; AttemptRow.result := None; AttemptRow.finished_at := None |};
  _ ← increment_running worker_id;
  mret {| Reservation.execution := execution; Reservation.worker_id := worker_id;
          Reservation.attempt_id := attempt_id; Reservation.cpu := RuntimeRequirement.cpu runtime;
          Reservation.memory_mib := RuntimeRequirement.memory_mib runtime |}.

Definition reserve_next `{Collation} (now : Clock) (locked : ExecutionId -> bool) (uuid : string)
    (worker_id : WorkerId) : Op (option Reservation) :=
  transaction (
    row ← gets (fun db => workers db !! worker_id);
    row ← require row (StoreError.NotFound worker_id);
    worker ← lift (decode_worker row);
    reserved ← reserved_usage worker_id;
    if negb (bool_decide (WorkerRegistration.state worker = WorkerState.Ready)) ||
       negb (WorkerRegistration.proof_is_complete worker) ||
       (WorkerCapabilities.max_concurrent_executions (WorkerRegistration.capabilities worker)
          <=? ReservedResources.slots reserved)
    then committed None
    else
      queue ← gets (claim_queue locked);
      match List.find (fun e => worker_fits_with_reservations worker
                         (ExecutionManifest.runtime (Execution.manifest e)) reserved) queue with
      | None => committed None
      | Some execution =>
          reservation ← claim now uuid worker_id execution;
          committed (Some reservation)
      end).

(** [DELETE FROM reservations WHERE execution_id = $1 AND guard RETURNING worker_id]. *)
Definition delete_reservation (id : ExecutionId) (guard : ReservationRow -> bool) :
  Tx (option WorkerId) :=
  row ← gets (fun db => reservations db !! id);
  match row with
  | Some r =>
      if guard r then
        _ ← modify (fun db => set_reservations (delete id (reservations db)) db);
        mret (Some (ReservationRow.worker_id r))
      else mret None
  | None => mret None
  end.

Definition release_tx (execution_id : ExecutionId) (guard : ReservationRow -> bool) : Tx bool :=
  worker ← delete_reservation execution_id guard;
  match worker with
  | Some worker => _ ← decrement_running worker; mret true
  | None => mret false
  end.

Definition release (execution_id : ExecutionId) : Op unit :=
  transaction (_ ← release_tx execution_id (fun _ => true); committed tt).

Definition has_attempt (attempt_id : AttemptId) (r : ReservationRow) : bool :=
  bool_decide (ReservationRow.attempt_id r = attempt_id).

Definition release_attempt (execution_id : ExecutionId) (attempt_id : AttemptId) : Op bool :=
  transaction (
    released ← release_tx execution_id (has_attempt attempt_id);
    committed released).

Definition commit_retained_and_release_capacity (now : Clock) (execution_id : ExecutionId)
    (attempt_id : AttemptId) : Op unit :=
  transaction (
    row ← select_execution execution_id;
    let execution := ExecutionRow.execution row in
    _ ← pending_cancellation_guard execution_id;
    _ ← ensure (bool_decide (Execution.state execution = ExecutionState.ReviewReady) &&
                bool_decide (ExecutionManifest.persistence (Execution.manifest execution) =
                             PersistenceMode.Resumable) &&
                bool_decide (Execution.attempt_id execution = Some attempt_id))
          (StoreError.Conflict ("execution " +:+ execution_id +:+
             " is not resumable ReviewReady authority for " +:+ attempt_id));
    authority ← gets (fun db => cleanup_authorities db !! execution_id);
    authority ← require (match authority with
        | Some c => if bool_decide (CleanupAuthority.attempt_id c = attempt_id) then Some c else None
        | None => None end) (StoreError.NotFound execution_id);
    let phase := CleanupAuthority.phase authority in
    _ ← ensure (bool_decide (phase ∈ ["RETAIN_REQUESTED"; "RETAINED"]))
          (StoreError.Conflict ("cleanup authority is " +:+ phase +:+
             ", expected RETAIN_REQUESTED or RETAINED"));
    let worker_id := CleanupAuthority.worker_id authority in
    attempt ← gets (fun db => match execution_attempts db !! attempt_id with
        | Some a => bool_decide (AttemptRow.execution_id a = execution_id) &&
                    bool_decide (AttemptRow.worker_id a = worker_id)
        | None => false end);
    _ ← ensure attempt (StoreError.Conflict ("attempt " +:+ attempt_id +:+ " authority is absent"));
    worker ← gets (fun db => workers db !! worker_id);
    _ ← require worker (StoreError.NotFound worker_id);
    reservation_worker ← delete_reservation execution_id (has_attempt attempt_id);
    _ ← ensure (negb (bool_decide (phase = "RETAIN_REQUESTED") &&
                      bool_decide (reservation_worker = None)))
          (StoreError.Conflict "retention request lost its reservation before atomic commit");
    _ ← match reservation_worker with
        | Some w =>
            _ ← ensure (bool_decide (w = worker_id))
                  (StoreError.Conflict "retention reservation belongs to another worker");
            decrement_running worker_id
        | None => mret tt
        end;
    _ ← update_authority execution_id
          (fun c => bool_decide (CleanupAuthority.attempt_id c = attempt_id) &&
                    bool_decide (CleanupAuthority.phase c ∈ ["RETAIN_REQUESTED"; "RETAINED"]))
          (CleanupAuthority.set_phase (phase_text CleanupDisposition.Retained) (pg_now now));
    committed tt).

(** The reservations of a worker joined with their executions, in claim order. *)
Definition reserved_executions `{Collation} (worker_id : WorkerId) (db : Database) :
  list (ReservationRow * Execution) :=
  order_by (fun p => ReservationRow.created_at p.1) (fun p => ReservationRow.execution_id p.1)
    (omap (fun r => match executions db !! ReservationRow.execution_id r with
                    | Some row => Some (r, ExecutionRow.execution row)
                    | None => None end) (reservations_of worker_id db)).

Definition decode_reservation (p : ReservationRow * Execution) : result StoreError Reservation :=
  cpu ← ok_or (try_from 0 u32_max (ReservationRow.cpu p.1)) (StoreError.Conflict "invalid reserved cpu");
  memory ← ok_or (try_from 0 u64_max (ReservationRow.memory_mib p.1))
             (StoreError.Conflict "invalid reserved memory");
  Ok {| Reservation.execution := p.2; Reservation.worker_id := ReservationRow.worker_id p.1;
        Reservation.attempt_id := ReservationRow.attempt_id p.1; Reservation.cpu := cpu;
        Reservation.memory_mib := memory |}.

Fixpoint collect_reservations (l : list (ReservationRow * Execution)) :
  result StoreError (list Reservation) :=
  match l with
  | [] => Ok []
  | p :: l => r ← decode_reservation p; rest ← collect_reservations l; Ok (r :: rest)
  end.

Definition list_for_worker `{Collation} (worker_id : WorkerId) : Op (list Reservation) :=
  query (fun db => collect_reservations (reserved_executions worker_id db)).

(** One transaction per reservation no live execution backs; the first error
    ends the loop. *)
Fixpoint reconcile_loop (live ids : list ExecutionId) : Op (list ExecutionId) := fun db =>
  match ids with
  | [] => (Ok [], db)
  | id :: ids =>
      if bool_decide (id ∈ live) then reconcile_loop live ids db
      else match release id db with
           | (Err e, db) => (Err e, db)
           | (Ok _, db) =>
               match reconcile_loop live ids db with
               | (Ok released, db) => (Ok (id :: released), db)
               | r => r
               end
           end
  end.

Definition reconcile (live : list ExecutionId) : Op (list ExecutionId) := fun db =>
  reconcile_loop live (map_to_list (reservations db)).*1 db.

(** The update that fences an attempt: it fails with [WorkerLost] and is
    finished. *)
Definition fence_attempt (now : Clock) (id : ExecutionId) (attempt_id : AttemptId)
    (worker_id : WorkerId) : Tx Z :=
  update_attempt attempt_id
    (fun a => bool_decide (AttemptRow.execution_id a = id) &&
              bool_decide (AttemptRow.worker_id a = worker_id) &&
              bool_decide (AttemptRow.finished_at a = None))
    (fun a => {| AttemptRow.execution_id := AttemptRow.execution_id a;
                 AttemptRow.worker_id := AttemptRow.worker_id a;
                 AttemptRow.state := ExecutionState.Failed;
                 AttemptRow.worktree_path := AttemptRow.worktree_path a;
                 AttemptRow.session_id := AttemptRow.session_id a;
                 AttemptRow.result := Some (failed_result id ExecutionState.Failed FailureClass.WorkerLost);
                 AttemptRow.finished_at := Some (pg_now now) |}).

(** The upsert that makes the fenced attempt's cleanup durable. *)
Definition demand_cleanup (now : Clock) (id : ExecutionId) (attempt_id : AttemptId)
    (worker_id : WorkerId) : Tx Z :=
  upsert_authority id attempt_id worker_id (phase_text CleanupDisposition.CleanupPending) (pg_now now)
    (fun c => owned_by attempt_id worker_id c &&
              negb (bool_decide (CleanupAuthority.phase c ∈ past_fence)))
    (CleanupAuthority.set_phase (phase_text CleanupDisposition.CleanupPending) (pg_now now)).

Fixpoint recover_loop (now : Clock) (worker_id : WorkerId) (rows : list (ReservationRow * Execution)) :
  Tx (list LostWorkerRecovery) :=
  match rows with
  | [] => mret []
  | (r, execution) :: rows =>
      updated ← fence_attempt now (Execution.id execution) (ReservationRow.attempt_id r) worker_id;
      if updated =? 1 then
        _ ← demand_cleanup now (Execution.id execution) (ReservationRow.attempt_id r) worker_id;
        rest ← recover_loop now worker_id rows;
        mret (LostWorkerRecovery.CleanupPending (Execution.id execution) :: rest)
      else recover_loop now worker_id rows
  end.

Definition recover_unreachable `{Collation} (now : Clock) (worker_id : WorkerId) :
  Op (list LostWorkerRecovery) :=
  transaction (
    worker ← gets (fun db => workers db !! worker_id);
    worker ← require worker (StoreError.NotFound worker_id);
    _ ← ensure (bool_decide (WorkerRegistration.state worker = WorkerState.Unreachable))
          (StoreError.Conflict ("worker " +:+ worker_id +:+ " is " +:+
             WorkerState.text (WorkerRegistration.state worker) +:+ ", not UNREACHABLE"));
    rows ← gets (reserved_executions worker_id);
    recovered ← recover_loop now worker_id rows;
    committed recovered).

(** The phases in which the fence of an attempt is durable. *)
Definition fenced_phases : list string := "CLEANUP_PENDING" :: past_fence.

Definition fence_lost_attempt (now : Clock) (execution_id : ExecutionId) (attempt_id : AttemptId) :
  Op LostWorkerRecovery :=
  transaction (
    row ← gets (fun db => match executions db !! execution_id, reservations db !! execution_id with
        | Some row, Some r =>
            if bool_decide (Execution.attempt_id (ExecutionRow.execution row) = Some attempt_id) &&
               bool_decide (ReservationRow.attempt_id r = attempt_id)
            then Some row else None
        | _, _ => None end);
    row ← require row (StoreError.Conflict
          ("startup authority changed for " +:+ execution_id +:+ "/" +:+ attempt_id));
    worker_id ← require (Execution.worker_id (ExecutionRow.execution row))
          (StoreError.Conflict "startup-fenced execution lacks worker authority");
    fenced ← fence_attempt now execution_id attempt_id worker_id;
    if fenced =? 1 then
      _ ← demand_cleanup now execution_id attempt_id worker_id;
      committed (LostWorkerRecovery.CleanupPending execution_id)
    else
      phase ← gets (fun db =>
          match cleanup_authorities db !! execution_id, execution_attempts db !! attempt_id with
          | Some c, Some a =>
              if owned_by attempt_id worker_id c && bool_decide (AttemptRow.finished_at a <> None)
              then Some (CleanupAuthority.phase c) else None
          | _, _ => None end);
      _ ← ensure (match phase with Some p => bool_decide (p ∈ fenced_phases) | None => false end)
            (StoreError.Conflict
               ("attempt " +:+ attempt_id +:+ " was already fenced without exact cleanup authority"));
      committed (LostWorkerRecovery.CleanupPending execution_id)).

Definition cleanup_outcome (execution : Execution) : LostWorkerRecovery :=
  if bool_decide (Execution.state execution = ExecutionState.ReviewReady)
  then LostWorkerRecovery.ReviewReady (Execution.id execution)
  else if negb (ExecutionState.is_terminal (Execution.state execution)) &&
          bool_decide (ExecutionManifest.persistence (Execution.manifest execution) =
                       PersistenceMode.Resumable)
  then LostWorkerRecovery.Requeued (Execution.id execution)
  else LostWorkerRecovery.Failed (Execution.id execution).

(** What a finalized cleanup leaves: the execution's state and result. *)
Record Final := { next : ExecutionState; persisted_result : option ExecutionResult; resumable : bool }.

Definition final_of (id : ExecutionId) (execution : Execution) (cancellation_pending : bool) : Final :=
  let state := Execution.state execution in
  let lost := negb (ExecutionState.is_terminal state) && negb cancellation_pending in
  let review_ready := bool_decide (state = ExecutionState.ReviewReady) in
  let resumable := lost && negb review_ready &&
    bool_decide (ExecutionManifest.persistence (Execution.manifest execution) = PersistenceMode.Resumable) in
  {| next := if review_ready then ExecutionState.ReviewReady
             else if resumable then ExecutionState.Queued
             else if lost then ExecutionState.Failed else state;
     persisted_result := if review_ready then Execution.result execution
             else if resumable then None
             else if lost then Some (failed_result id ExecutionState.Failed FailureClass.WorkerLost)
             else Execution.result execution;
     resumable := resumable |}.

(** The columns the finalizing update writes. *)
Definition finalized (f : Final) (now : Timestamp) (e : Execution) : Execution :=
  {| Execution.id := Execution.id e; Execution.role := Execution.role e;
     Execution.state := next f; Execution.manifest := Execution.manifest e;
     Execution.worker_id := None; Execution.attempt_id := None; Execution.session_id := None;
     Execution.worktree_path := None; Execution.labels := Execution.labels e;
     Execution.created_at := Execution.created_at e; Execution.updated_at := now;
     Execution.result := persisted_result f |}.

Definition final_event_kind (execution : Execution) (next : ExecutionState) :
  result StoreError ExecutionEventKind :=
  match next with
  | ExecutionState.Queued => Ok (ExecutionEventKind.ExecutionRequeued FailureClass.WorkerLost)
  | ExecutionState.ReviewReady => Ok ExecutionEventKind.ReviewReady
  | ExecutionState.Failed => Ok (ExecutionEventKind.ExecutionFailed
      (default FailureClass.WorkerLost
         (r ← Execution.result execution; ExecutionResult.failure r)))
  | ExecutionState.Cancelled => Ok ExecutionEventKind.ExecutionCancelled
  | ExecutionState.Completed => Ok ExecutionEventKind.ExecutionCompleted
  | other => Err (StoreError.Conflict
      ("cleanup finalization cannot publish state " +:+ ExecutionState.debug other))
  end.

(** The writes of [finalize_cleanup] after its guards. *)
Definition finalize_writes (now : Clock) (id : ExecutionId) (attempt_id : AttemptId)
    (authority_worker : WorkerId) (execution : Execution) (f : Final) : Tx unit :=
  _ ← update_execution id
        (fun r => bool_decide (Execution.attempt_id (ExecutionRow.execution r) = Some attempt_id))
        (finalized f (pg_now now));
  _ ← update_attempt attempt_id (fun a => bool_decide (AttemptRow.execution_id a = id))
        (fun a => {| AttemptRow.execution_id := AttemptRow.execution_id a;
                     AttemptRow.worker_id := AttemptRow.worker_id a;
                     AttemptRow.state := if resumable f then ExecutionState.Failed else next f;
                     AttemptRow.worktree_path := AttemptRow.worktree_path a;
                     AttemptRow.session_id := AttemptRow.session_id a;
                     AttemptRow.result := if resumable f
                       then Some (failed_result id ExecutionState.Failed FailureClass.WorkerLost)
                       else AttemptRow.result a;
                     AttemptRow.finished_at := Some (default (pg_now now) (AttemptRow.finished_at a)) |});
  deleted ← delete_reservation id (has_attempt attempt_id);
  _ ← when (bool_decide (is_Some deleted)) (decrement_running authority_worker);
  _ ← update_authority id
        (fun c => bool_decide (CleanupAuthority.attempt_id c = attempt_id) &&
                  bool_decide (CleanupAuthority.phase c = "STORAGE_RELEASED"))
        (CleanupAuthority.set_phase (phase_text CleanupDisposition.ReservationReleased) (pg_now now));
  when (negb (bool_decide (next f = Execution.state execution))) (
    kind ← lift (final_event_kind execution (next f));
    _ ← append_in_transaction {|
          ExecutionEvent.execution_id := id; ExecutionEvent.attempt_id := Some attempt_id;
          ExecutionEvent.sequence := 0; ExecutionEvent.at_ := utc_now now;
          ExecutionEvent.state := next f; ExecutionEvent.kind := kind |};
    mret tt).

Definition finalize_cleanup (now : Clock) (execution_id : ExecutionId) (attempt_id : AttemptId) :
  Op LostWorkerRecovery :=
  transaction (
    row ← select_execution execution_id;
    let execution := ExecutionRow.execution row in
    authority ← gets (fun db => match cleanup_authorities db !! execution_id with
        | Some c => if bool_decide (CleanupAuthority.attempt_id c = attempt_id) &&
                       bool_decide (CleanupAuthority.phase c ∈ ["STORAGE_RELEASED"; "RESERVATION_RELEASED"])
                    then Some c else None
        | None => None end);
    authority ← require authority (StoreError.Conflict
          ("lost cleanup is not ready to finalize for " +:+ execution_id +:+ "/" +:+ attempt_id));
    let authority_worker := CleanupAuthority.worker_id authority in
    let outcome := cleanup_outcome execution in
    attempt ← gets (fun db => match execution_attempts db !! attempt_id with
        | Some a => if bool_decide (AttemptRow.execution_id a = execution_id) then Some a else None
        | None => None end);
    attempt ← require attempt (StoreError.Conflict ("attempt " +:+ attempt_id +:+ " authority is absent"));
    _ ← ensure (bool_decide (AttemptRow.worker_id attempt = authority_worker))
          (StoreError.Conflict "cleanup authority and attempt worker differ");
    if bool_decide (CleanupAuthority.phase authority = "RESERVATION_RELEASED")
    then committed outcome
    else
      reservation ← gets (fun db => match reservations db !! execution_id with
          | Some r => if has_attempt attempt_id r then Some (ReservationRow.worker_id r) else None
          | None => None end);
      _ ← ensure (negb (bool_decide (reservation = None) &&
                        bool_decide (AttemptRow.finished_at attempt = None) &&
                        negb (bool_decide (Execution.state execution = ExecutionState.ReviewReady)) &&
                        negb (ExecutionState.is_terminal (Execution.state execution))))
            (StoreError.Conflict "cleanup has neither an exact reservation nor fenced attempt evidence");
      _ ← match reservation with
          | Some worker_id =>
              _ ← ensure (bool_decide (worker_id = authority_worker))
                    (StoreError.Conflict "cleanup reservation belongs to another worker");
              worker ← gets (fun db => workers db !! worker_id);
              _ ← require worker row_not_found;
              mret tt
          | None => mret tt
          end;
      pending ← gets (cancellation_pending execution_id);
      _ ← finalize_writes now execution_id attempt_id authority_worker execution
            (final_of execution_id execution pending);
      committed outcome).
