(* ===== verification/Steps.v ===== *)
(** * The controller database as a transition system

    Every operation of the stores that can change the database is a step; the
    operations of several controllers and workers interleave as sequences of
    steps.  The file holds the step relation, the tactics that take an
    operation apart into its statements, the frame facts about the tables
    each statement leaves alone, and one concrete history, used to show that
    the hypotheses of the theorems about histories hold together. *)


From S2P Require Import Prelude Core WorkerTypes Scheduler Database EventLog CleanupStore WorkerStore ExecutionStore Controls Reservations.
















(** What [POST /executions] inserts: a queued execution nobody holds
    ([orchestrator-api/src/executions.rs]). *)
Record fresh_execution (e : Execution) : Prop := {
  fe_state : Execution.state e = ExecutionState.Queued;
  fe_worker : Execution.worker_id e = None;
  fe_attempt : Execution.attempt_id e = None
}.

(** The operations, at any arguments, clock and lock set. *)
Inductive store_op `{Collation} : forall A, Op A -> Prop :=
| op_create e ev k sc : fresh_execution e -> store_op _ (create_idempotent e ev k sc)
| op_insert e : fresh_execution e -> store_op _ (insert e)
| op_append ev : store_op _ (append ev)
| op_request_cancellation now id : store_op _ (request_cancellation now id)
| op_complete_cancellation now id a : store_op _ (complete_cancellation now id a)
| op_transition now id s : store_op _ (ExecutionStore.transition now id s)
| op_transition_with_event now id s ev : store_op _ (transition_with_event now id s ev)
| op_record_progress now e ev retention : store_op _ (record_progress_with now e ev retention)
| op_request_control now id action k : store_op _ (request_control now id action k)
| op_begin_control now r w a : store_op _ (begin_control now r w a)
| op_mark_control now r s : store_op _ (mark_control_side_effect_applied now r s)
| op_complete_control now r e ev : store_op _ (complete_control now r e ev)
| op_begin now id a w : store_op _ (begin now id a w)
| op_cleanup_transition now id d d' h : store_op _ (CleanupStore.transition now id d d' h)
| op_advance now id p : store_op _ (advance now id p)
| op_checkpoint now id p h : store_op _ (checkpoint now id p h)
| op_fence_for_cleanup now id h : store_op _ (fence_for_cleanup now id h)
| op_resolve now id : store_op _ (resolve now id)
| op_register w : store_op _ (register w)
| op_heartbeat w : store_op _ (heartbeat w)
| op_mark_stale t : store_op _ (mark_stale_before t)
| op_reserve_next now locked uuid w : store_op _ (reserve_next now locked uuid w)
| op_release id : store_op _ (release id)
| op_release_attempt id a : store_op _ (release_attempt id a)
| op_commit_retained now id a : store_op _ (commit_retained_and_release_capacity now id a)
| op_recover_unreachable now w : store_op _ (recover_unreachable now w)
| op_fence_lost_attempt now id a : store_op _ (fence_lost_attempt now id a)
| op_finalize_cleanup now id a : store_op _ (finalize_cleanup now id a).

(** One operation, whatever it returns. *)
Definition step `{Collation} (db db' : Database) : Prop :=
  exists A (op : Op A) r, store_op A op /\ op db = (r, db').

(** A controller's history: any interleaving of operations from the start. *)
Definition reachable `{Collation} (db : Database) : Prop := rtc step empty_database db.

(** ** Statement-level relations

    [tx_rel R m]: whenever [m] succeeds, [R] relates the database before and
    after.  For a preorder [R] it is closed under the monad's operations, so it
    holds of an operation once it holds of the statements. *)

Definition tx_rel {A} (R : Database -> Database -> Prop) (m : Tx A) : Prop :=
  forall db a db', m db = Ok (a, db') -> R db db'.

Section TxRel.
Context (R : Database -> Database -> Prop) `{!PreOrder R}.

Lemma tx_rel_bind {A B} (m : Tx A) (f : A -> Tx B) :
  tx_rel R m -> (forall a, tx_rel R (f a)) -> tx_rel R (m ≫= f).
Proof. intros Hm Hf db b db' (a & db1 & H1 & H2)%bind_Ok. etrans; [by eapply Hm|by eapply Hf]. Qed.

Lemma tx_rel_ret {A} (a : A) : tx_rel R (mret a).
Proof. intros db b db' [_ ->]%mret_Ok. done. Qed.
Lemma tx_rel_committed {A} (a : A) : tx_rel R (committed a).
Proof. apply tx_rel_ret. Qed.
Lemma tx_rel_committed_error {A} e : tx_rel R (committed_error (A := A) e).
Proof. apply tx_rel_ret. Qed.
Lemma tx_rel_gets {A} (f : Database -> A) : tx_rel R (gets f).
Proof. intros db b db' [_ ->]%gets_Ok. done. Qed.
Lemma tx_rel_lift {A} (r : result StoreError A) : tx_rel R (lift r).
Proof. intros db b db' [_ ->]%lift_Ok. done. Qed.
Lemma tx_rel_ensure b e : tx_rel R (ensure b e).
Proof. apply tx_rel_lift. Qed.
Lemma tx_rel_require {A} (o : option A) e : tx_rel R (require o e).
Proof. apply tx_rel_lift. Qed.
Lemma tx_rel_transition_or s t e : tx_rel R (transition_or s t e).
Proof. apply tx_rel_lift. Qed.
Lemma tx_rel_when b m : tx_rel R m -> tx_rel R (when b m).
Proof. intros Hm. destruct b; [done|apply tx_rel_ret]. Qed.
Lemma tx_rel_select_execution id : tx_rel R (select_execution id).
Proof. apply tx_rel_bind; [apply tx_rel_gets|intros]. apply tx_rel_require. Qed.
Lemma tx_rel_select_authority id : tx_rel R (select_authority id).
Proof. apply tx_rel_bind; [apply tx_rel_gets|intros]. apply tx_rel_require. Qed.
Lemma tx_rel_guard id : tx_rel R (pending_cancellation_guard id).
Proof. apply tx_rel_bind; [apply tx_rel_gets|intros]. apply tx_rel_ensure. Qed.
Lemma tx_rel_int8 z : tx_rel R (int8 z).
Proof. apply tx_rel_require. Qed.
Lemma tx_rel_int4 z : tx_rel R (int4 z).
Proof. apply tx_rel_require. Qed.
Lemma tx_rel_usage w : tx_rel R (reserved_usage w).
Proof.
  unfold reserved_usage. repeat (apply tx_rel_bind; [|intros]);
    first [apply tx_rel_gets|apply tx_rel_int8|apply tx_rel_require|apply tx_rel_ret].
Qed.
Lemma tx_rel_lock_control r : tx_rel R (lock_control r).
Proof.
  unfold lock_control. repeat (apply tx_rel_bind; [|intros]);
    first [apply tx_rel_gets|apply tx_rel_require|apply tx_rel_ret].
Qed.
Lemma tx_rel_progress_guards e ev : tx_rel R (progress_guards e ev).
Proof.
  unfold progress_guards. repeat (apply tx_rel_bind; [|intros]);
    first [apply tx_rel_gets|apply tx_rel_require|apply tx_rel_ret|apply tx_rel_ensure
          |apply tx_rel_select_execution|apply tx_rel_guard].
Qed.

Lemma tx_rel_transaction {A} (body : Tx (result StoreError A)) db r db' :
  tx_rel R body -> transaction body db = (r, db') -> R db db'.
Proof.
  intros Hb. unfold transaction. destruct (body db) as [[r' db1]|e] eqn:E; intros [= <- <-].
  - by eapply Hb.
  - done.
Qed.
End TxRel.

(** Solves [tx_rel R op]: splits binds, conditionals and matches, closes reads,
    and leaves the statements that write to [tac]. *)
Ltac tx_rel_step tac :=
  lazymatch goal with
  | |- tx_rel _ (mbind _ _) => apply tx_rel_bind; [try apply _| |intros]
  | |- tx_rel _ (if ?b then _ else _) => destruct b
  | |- tx_rel _ (match ?x with _ => _ end) => destruct x
  | |- tx_rel _ (let _ := _ in _) => cbv zeta
  | |- tx_rel _ (claim _ _ _ _) => unfold claim
  | |- tx_rel _ (release_tx _ _) => unfold release_tx
  | |- tx_rel _ (finalize_writes _ _ _ _ _ _) => unfold finalize_writes
  | |- tx_rel _ _ =>
      first [ apply tx_rel_committed; apply _ | apply tx_rel_committed_error; apply _
            | apply tx_rel_ret; apply _ | apply tx_rel_gets; apply _
            | apply tx_rel_ensure; apply _ | apply tx_rel_require; apply _
            | apply tx_rel_transition_or; apply _ | apply tx_rel_lift; apply _
            | apply tx_rel_select_execution; apply _ | apply tx_rel_select_authority; apply _
            | apply tx_rel_guard; apply _ | apply tx_rel_int8; apply _
            | apply tx_rel_int4; apply _ | apply tx_rel_usage; apply _
            | apply tx_rel_lock_control; apply _ | apply tx_rel_progress_guards; apply _
            | apply tx_rel_when; [apply _|] | solve [tac] ]
  end.
Ltac tx_rel_solve tac := repeat (tx_rel_step tac).

(** An operation that is one transaction of related statements. *)
Ltac op_rel R tac :=
  match goal with
  | H : transaction _ _ = (_, _) |- _ =>
      revert H; apply (tx_rel_transaction R); tx_rel_solve tac
  end.

(** ** What the composite statements do *)

Lemma insert_execution_Ok e u db db' :
  insert_execution e db = Ok (u, db') ->
  executions db !! Execution.id e = None /\
  db' = set_executions (<[Execution.id e := {| ExecutionRow.execution := e;
          ExecutionRow.version := 1 |}]> (executions db)) db.
Proof. unfold insert_execution. intros H. tx_inv. bools. done. Qed.

Lemma upsert_authority_Ok id a w p now guard f n db db' :
  upsert_authority id a w p now guard f db = Ok (n, db') ->
  (n = 1 /\ cleanup_authorities db !! id = None /\
     db' = set_authorities (<[id := new_authority id a w p now]> (cleanup_authorities db)) db) \/
  (n = 0 /\ db' = db /\
     exists c, cleanup_authorities db !! id = Some c /\ guard c = false) \/
  (n = 1 /\ exists c, cleanup_authorities db !! id = Some c /\ guard c = true /\
     db' = set_authorities (<[id := f c]> (cleanup_authorities db)) db).
Proof.
  unfold upsert_authority. intros H. tx_inv.
  destruct (cleanup_authorities _ !! id) as [c|] eqn:E; [|tx_inv; by left].
  apply update_authority_Ok in H as [(-> & -> & H)|(-> & c' & ? & ? & ->)]; simplify_eq.
  - right. left. split_and!; [done..|]. exists c. split; [done|]. by apply H.
  - right. right. split; [done|]. exists c. done.
Qed.

Lemma delete_reservation_Ok id guard w db db' :
  delete_reservation id guard db = Ok (w, db') ->
  (w = None /\ db' = db /\ forall r, reservations db !! id = Some r -> guard r = false) \/
  (exists r, w = Some (ReservationRow.worker_id r) /\ reservations db !! id = Some r /\
     guard r = true /\ db' = set_reservations (delete id (reservations db)) db).
Proof.
  unfold delete_reservation. intros H. tx_inv.
  destruct (reservations _ !! id) as [r|] eqn:E; [|tx_inv; naive_solver].
  destruct (guard r) eqn:G; tx_inv; [|naive_solver]. right. eauto 10.
Qed.

Lemma insert_reservation_Ok r u db db' :
  insert_reservation r db = Ok (u, db') ->
  reservations db !! ReservationRow.execution_id r = None /\
  (forall q, q ∈ (map_to_list (reservations db)).*2 ->
     ReservationRow.attempt_id q <> ReservationRow.attempt_id r) /\
  0 < ReservationRow.cpu r /\ 0 < ReservationRow.memory_mib r /\ 0 <= ReservationRow.disk_gib r /\
  db' = set_reservations (<[ReservationRow.execution_id r := r]> (reservations db)) db.
Proof.
  unfold insert_reservation. intros H. tx_inv. bools. destruct_and!.
  split_and!; try done. intros q Hq.
  match goal with H : forallb _ _ = true |- _ => rewrite forallb_forall in H;
    specialize (H q (proj1 (list_elem_of_In _ _) Hq)) end. bools. done.
Qed.

Lemma insert_attempt_Ok id a u db db' :
  insert_attempt id a db = Ok (u, db') ->
  execution_attempts db !! id = None /\
  (forall id' q, execution_attempts db !! id' = Some q -> AttemptRow.finished_at q = None ->
     AttemptRow.execution_id q <> AttemptRow.execution_id a) /\
  db' = set_attempts (<[id := a]> (execution_attempts db)) db.
Proof.
  unfold insert_attempt. intros H. tx_inv. bools. destruct_and!. split_and!; try done.
  intros id' q Hq Hfin Heq.
  match goal with H : forallb _ _ = true |- _ => rewrite forallb_forall in H;
    specialize (H q) end.
  assert (Hin : In q (map_to_list (execution_attempts db)).*2).
  { apply list_elem_of_In, list_elem_of_fmap. exists (id', q). split; [done|].
    by apply elem_of_map_to_list. }
  match goal with H : In q _ -> _ |- _ => specialize (H Hin) end. bools. tauto.
Qed.

(** The dispatcher: turns a successful statement into its effect. *)
Ltac stmt_inv H :=
  lazymatch type of H with
  | update_execution _ _ _ _ = Ok _ =>
      apply update_execution_Ok in H as [(? & ? & ?)|(? & ? & ? & ? & ?)]
  | update_authority _ _ _ _ = Ok _ =>
      apply update_authority_Ok in H as [(? & ? & ?)|(? & ? & ? & ? & ?)]
  | update_attempt _ _ _ _ = Ok _ =>
      apply update_attempt_Ok in H as [(? & ? & ?)|(? & ? & ? & ? & ?)]
  | fence_attempt _ _ _ _ _ = Ok _ =>
      apply update_attempt_Ok in H as [(? & ? & ?)|(? & ? & ? & ? & ?)]
  | upsert_authority _ _ _ _ _ _ _ _ = Ok _ =>
      apply upsert_authority_Ok in H as [(? & ? & ?)|[(? & ? & ? & ? & ?)|(? & ? & ? & ? & ?)]]
  | demand_cleanup _ _ _ _ _ = Ok _ =>
      apply upsert_authority_Ok in H as [(? & ? & ?)|[(? & ? & ? & ? & ?)|(? & ? & ? & ? & ?)]]
  | delete_reservation _ _ _ = Ok _ =>
      apply delete_reservation_Ok in H as [(? & ? & ?)|(? & ? & ? & ? & ?)]
  | insert_reservation _ _ = Ok _ => apply insert_reservation_Ok in H as (? & ? & ? & ? & ? & ?)
  | insert_attempt _ _ _ = Ok _ => apply insert_attempt_Ok in H as (? & ? & ?)
  | insert_execution _ _ = Ok _ => apply insert_execution_Ok in H as [? ?]
  | increment_running _ _ = Ok _ =>
      apply increment_running_Ok in H as [(? & ?)|(? & ? & ? & ?)]
  | append_in_transaction _ _ = Ok _ => apply append_in_transaction_Ok in H as [? ?]
  | complete_request _ _ _ = Ok _ => unfold complete_request in H
  | stale_controls_for_execution _ _ _ _ = Ok _ => unfold stale_controls_for_execution in H
  | put_control _ _ _ = Ok _ => unfold put_control in H
  | insert_control _ _ _ = Ok _ => unfold insert_control in H
  | next_request_id _ = Ok _ => unfold next_request_id in H
  | pending_cancellation_guard _ _ = Ok _ => unfold pending_cancellation_guard in H
  | transition_or _ _ _ _ = Ok _ => unfold transition_or in H
  | select_authority _ _ = Ok _ => unfold select_authority in H
  | when _ _ _ = Ok _ => apply when_Ok in H as [[? H]|[? ?]]
  end.

Ltac db_inv_step :=
  match goal with
  | |- _ => tx_inv_step
  | H : _ _ = Ok _ |- _ => stmt_inv H
  | H : _ _ _ = Ok _ |- _ => stmt_inv H
  | H : (if ?b then _ else _) _ = Ok _ |- _ => destruct b eqn:?
  | H : (match ?x with _ => _ end) _ = Ok _ |- _ => destruct x eqn:?
  end.
Ltac db_inv := repeat (db_inv_step; subst; simpl in *).

(** ** Frames: a table a statement leaves alone *)

Definition same {T} (p : Database -> T) (db db' : Database) : Prop := p db' = p db.
#[export] Instance same_preorder {T} (p : Database -> T) : PreOrder (same p).
Proof. split; [intros db|intros db1 db2 db3]; unfold same; congruence. Qed.

(** Closes [tx_rel (same table) statement] for a table the statement does not
    write. *)
Ltac frame := intros ? ? ? ?; unfold same; db_inv; reflexivity.

(** [Q] absorbs frames on both sides: an operation with one interesting
    statement relates by [Q] what that statement relates by [Q]. *)
Section Framed.
Context {T : Type} (p : Database -> T) (Q : Database -> Database -> Prop).
Hypothesis Q_l : forall db1 db2 db3, same p db1 db2 -> Q db2 db3 -> Q db1 db3.
Hypothesis Q_r : forall db1 db2 db3, Q db1 db2 -> same p db2 db3 -> Q db1 db3.

Lemma tx_bind_frame_l {A B} (m : Tx A) (f : A -> Tx B) :
  tx_rel (same p) m -> (forall a, tx_rel Q (f a)) -> tx_rel Q (m ≫= f).
Proof. intros Hm Hf db b db' (a & db1 & H1 & H2)%bind_Ok. eapply Q_l; [by eapply Hm|by eapply Hf]. Qed.

Lemma tx_bind_frame_r {A B} (m : Tx A) (f : A -> Tx B) :
  tx_rel Q m -> (forall a, tx_rel (same p) (f a)) -> tx_rel Q (m ≫= f).
Proof. intros Hm Hf db b db' (a & db1 & H1 & H2)%bind_Ok. eapply Q_r; [by eapply Hm|by eapply Hf]. Qed.
End Framed.

(** ** Frames of the operations that are loops or more than one transaction *)

Lemma recover_loop_frame {T} (p : Database -> T) now w rows :
  (forall t db, p (set_attempts t db) = p db) -> (forall t db, p (set_authorities t db) = p db) ->
  tx_rel (same p) (recover_loop now w rows).
Proof.
  intros Ha Hc. induction rows as [|[r e] rows IH]; simpl; [apply tx_rel_ret; apply _|].
  tx_rel_solve ltac:(apply IH ||
    (intros ? ? ? ?; unfold same; db_inv; rewrite ?Ha, ?Hc; reflexivity)).
Qed.

Lemma cleanup_transition_frame {T} (p : Database -> T) now id d d' h db r db' :
  (forall t db, p (set_authorities t db) = p db) ->
  CleanupStore.transition now id d d' h db = (r, db') -> p db' = p db.
Proof.
  intros Hc. unfold CleanupStore.transition. destruct (_ && _).
  - intros [= _ <-]. done.
  - apply (tx_rel_transaction (same p)).
    tx_rel_solve ltac:(intros ? ? ? ?; unfold same; db_inv; rewrite ?Hc; reflexivity).
Qed.

Lemma checkpoint_frame {T} (p : Database -> T) now id t h db r db' :
  (forall t db, p (set_authorities t db) = p db) ->
  checkpoint now id t h db = (r, db') -> p db' = p db.
Proof.
  intros Hc. unfold checkpoint, get_authority, query. intros Hop. repeat case_match; simplify_eq;
    first [done | by eapply cleanup_transition_frame].
Qed.

Lemma advance_frame {T} (p : Database -> T) now id t db r db' :
  (forall t db, p (set_authorities t db) = p db) ->
  advance now id t db = (r, db') -> p db' = p db.
Proof.
  intros Hc. unfold advance, get_authority, query. intros Hop. repeat case_match; simplify_eq;
    first [done | by eapply cleanup_transition_frame].
Qed.

Lemma append_op_frame {T} (p : Database -> T) ev db r db' :
  (forall t db, p (set_events t db) = p db) -> append ev db = (r, db') -> p db' = p db.
Proof.
  intros He.
  assert (H1 : forall db r db', append_once ev db = (r, db') -> same p db db').
  { intros ???. apply (tx_rel_transaction (same p)).
    tx_rel_solve ltac:(intros ? ? ? ?; unfold same; db_inv; rewrite ?He; reflexivity). }
  unfold append. destruct (append_once ev db) as [[n|e] db1] eqn:E.
  - intros [= <- <-]. by apply H1 in E.
  - apply H1 in E. destruct e; intros Hop; simplify_eq; try exact E.
    apply H1 in Hop. unfold same in *. congruence.
Qed.

(** * A run of the store

    One concrete history, used to show that the hypotheses of the theorems
    about histories hold together: a resumable execution is created, claimed,
    its worker is lost, the cleanup runs to its end and the execution is
    claimed again. *)

Definition run_clock : Clock := {| utc_now := 100; pg_now := 100 |}.

Definition run_manifest : ExecutionManifest := {|
  ExecutionManifest.api_version := MANIFEST_API_VERSION; ExecutionManifest.role := Role.Implementation;
  ExecutionManifest.task := None;
  ExecutionManifest.repository := {| RepositoryReference.repo := "acme/app";
    RepositoryReference.base_ref := "main"; RepositoryReference.base_sha := None;
    RepositoryReference.branch := None |};
  ExecutionManifest.agent := {| AgentAssignment.harness := HarnessKind.Pi;
    AgentAssignment.model_policy := {| ModelPolicy.provider := "p"; ModelPolicy.preferred := ["m"];
      ModelPolicy.alternatives := []; ModelPolicy.fallback_class := None |} |};
  ExecutionManifest.runtime := RuntimeRequirement.default;
  ExecutionManifest.services := []; ExecutionManifest.persistence := PersistenceMode.Resumable;
  ExecutionManifest.task_packet := Some {| TaskPacket.goal := "fix"; TaskPacket.acceptance_criteria := [];
    TaskPacket.non_goals := []; TaskPacket.relevant_context := []; TaskPacket.required_tests := [];
    TaskPacket.role_skill := None |} |}.

Definition run_execution : Execution := {|
  Execution.id := "e-1"; Execution.role := Role.Implementation; Execution.state := ExecutionState.Queued;
  Execution.manifest := run_manifest; Execution.worker_id := None; Execution.attempt_id := None;
  Execution.session_id := None; Execution.worktree_path := None;
  Execution.labels := {| OwnershipLabels.execution_id := "e-1";
    OwnershipLabels.worker_id := "unassigned"; OwnershipLabels.repository := "acme/app";
    OwnershipLabels.issue := None |};
  Execution.created_at := 5; Execution.updated_at := 5; Execution.result := None |}.

Lemma run_execution_fresh : fresh_execution run_execution.
Proof. by split. Qed.

Definition run_created : Database :=
  (create_idempotent run_execution (example_event "e-1") "key" "scope" empty_database).2.
Definition run_registered : Database := (register example_registration run_created).2.
Definition run_reserved : Database :=
  (reserve_next run_clock (fun _ => false) "u1" "w-1" run_registered).2.
Definition run_begun : Database := (begin run_clock "e-1" "attempt-u1" "w-1" run_reserved).2.
Definition run_fenced : Database := (fence_lost_attempt run_clock "e-1" "attempt-u1" run_begun).2.
Definition advance_to (d d' : CleanupDisposition) (db : Database) : Database :=
  (CleanupStore.transition run_clock "e-1" d d' (Object []) db).2.
Definition run_storage_released : Database :=
  advance_to CleanupDisposition.GitRecoveredCleaned CleanupDisposition.StorageReleased
    (advance_to CleanupDisposition.RuntimeDestroyed CleanupDisposition.GitRecoveredCleaned
      (advance_to CleanupDisposition.RuntimeStopped CleanupDisposition.RuntimeDestroyed
        (advance_to CleanupDisposition.CleanupPending CleanupDisposition.RuntimeStopped run_fenced))).
Definition run_finalized : Database :=
  (finalize_cleanup run_clock "e-1" "attempt-u1" run_storage_released).2.
Definition run_resolved : Database := (resolve run_clock "e-1" run_finalized).2.
Definition run_reserved_again : Database :=
  (reserve_next run_clock (fun _ => false) "u2" "w-1" run_resolved).2.

(** An operation is a step. *)
Lemma op_step `{Collation} {A} (op : Op A) db : store_op A op -> step db (op db).2.
Proof. intros Hop. exists A, op, (op db).1. split; [done|]. apply surjective_pairing. Qed.

Lemma steps_op `{Collation} {A} (op : Op A) db db' :
  rtc step db db' -> store_op A op -> rtc step db (op db').2.
Proof. intros Hs Hop. eapply rtc_r; [exact Hs|by apply op_step]. Qed.

Lemma reach_op `{Collation} {A} (op : Op A) db :
  reachable db -> store_op A op -> reachable (op db).2.
Proof. apply steps_op. Qed.

Lemma run_created_reserved : rtc step run_created run_reserved.
Proof. do 2 (apply steps_op; [|constructor]). apply rtc_refl. Qed.

Lemma run_created_resolved : rtc step run_created run_resolved.
Proof.
  do 2 (apply steps_op; [|constructor]). unfold run_storage_released, advance_to.
  do 4 (apply steps_op; [|constructor]). unfold run_fenced, run_begun.
  do 2 (apply steps_op; [|constructor]). apply run_created_reserved.
Qed.

Lemma run_created_reachable : reachable run_created.
Proof. apply reach_op; [apply rtc_refl|]. constructor. apply run_execution_fresh. Qed.

Lemma run_registered_reachable : reachable run_registered.
Proof. apply reach_op; [apply run_created_reachable|constructor]. Qed.

Lemma run_reserved_reachable : reachable run_reserved.
Proof. unfold reachable; etrans; [apply run_created_reachable|apply run_created_reserved]. Qed.

Lemma run_resolved_reachable : reachable run_resolved.
Proof. unfold reachable; etrans; [apply run_created_reachable|apply run_created_resolved]. Qed.

(** Each operation of the run succeeds. *)
Example run_results :
  is_ok (create_idempotent run_execution (example_event "e-1") "key" "scope" empty_database).1 = true /\
  (Reservation.attempt_id <$>
     match (reserve_next run_clock (fun _ => false) "u1" "w-1" run_registered).1 with
     | Ok r => r | Err _ => None end) = Some "attempt-u1"%string /\
  (finalize_cleanup run_clock "e-1" "attempt-u1" run_storage_released).1 =
    Ok (LostWorkerRecovery.Requeued "e-1") /\
  (resolve run_clock "e-1" run_finalized).1 = Ok tt /\
  (Reservation.attempt_id <$>
     match (reserve_next run_clock (fun _ => false) "u2" "w-1" run_resolved).1 with
     | Ok r => r | Err _ => None end) = Some "attempt-u2"%string.
Proof. vm_compute. done. Qed.
