(* ===== verification/AuthorityOrder.v ===== *)
(** * The order of cleanup

    Whatever operations interleave, a cleanup authority keeps its owner and its
    phase moves forward: one stage at a time, or straight to CLEANUP_PENDING
    when the attempt is fenced.  So no teardown stage is ever skipped. *)

From S2P Require Import Prelude Core WorkerTypes Database EventLog CleanupStore WorkerStore ExecutionStore Controls Reservations Steps.
















Definition phase_rank (c : CleanupAuthority) : Z := text_rank (CleanupAuthority.phase c).

Lemma from_str_texts t d :
  CleanupDisposition.from_str t = Ok d -> (t, d) ∈ CleanupDisposition.texts.
Proof.
  unfold CleanupDisposition.from_str.
  destruct (list_find _ _) as [[i [t' d']]|] eqn:E; [|done]. intros [= <-].
  apply list_find_Some in E as (Hi & Ht & _). simpl in Ht. subst t'.
  by eapply list_elem_of_lookup_2.
Qed.

(** Past the fence, a phase has only one text. *)
Lemma not_past_fence_rank t : t ∉ past_fence -> text_rank t <= 9.
Proof.
  intros Ht. unfold text_rank. destruct (CleanupDisposition.from_str t) as [d|] eqn:E; [|lia].
  apply from_str_texts in E.
  assert (Hall : forallb (fun p => bool_decide (p.1 ∈ past_fence) || (rank p.2 <=? 9))
                   CleanupDisposition.texts = true) by (vm_compute; reflexivity).
  rewrite forallb_forall in Hall. specialize (Hall _ (proj1 (list_elem_of_In _ _) E)).
  bools. simpl in Hall. tauto.
Qed.

(** One write to an authority. *)
Definition authority_step (c c' : CleanupAuthority) : Prop :=
  CleanupAuthority.execution_id c' = CleanupAuthority.execution_id c /\
  CleanupAuthority.attempt_id c' = CleanupAuthority.attempt_id c /\
  CleanupAuthority.worker_id c' = CleanupAuthority.worker_id c /\
  (phase_rank c' = phase_rank c \/ phase_rank c' = phase_rank c + 1 \/
   (phase_rank c <= 9 /\ phase_rank c' = 9)).

#[export] Instance authority_step_refl : Reflexive authority_step.
Proof. intros c. unfold authority_step. auto. Qed.

Record authorities_step (db db' : Database) : Prop := {
  as_old : forall id c, cleanup_authorities db !! id = Some c ->
    exists c', cleanup_authorities db' !! id = Some c' /\ authority_step c c';
  as_new : forall id c', cleanup_authorities db !! id = None -> cleanup_authorities db' !! id = Some c' ->
    CleanupAuthority.execution_id c' = id /\ (phase_rank c' = 0 \/ phase_rank c' = 9)
}.

Lemma authorities_step_frame db db' :
  cleanup_authorities db' = cleanup_authorities db -> authorities_step db db'.
Proof.
  intros E. split; rewrite E.
  - intros id c Hc. exists c. done.
  - intros. congruence.
Qed.

Lemma authorities_step_l db1 db2 db3 :
  same cleanup_authorities db1 db2 -> authorities_step db2 db3 -> authorities_step db1 db3.
Proof. unfold same. intros E [H1 H2]. split; rewrite <- E; auto. Qed.
Lemma authorities_step_r db1 db2 db3 :
  authorities_step db1 db2 -> same cleanup_authorities db2 db3 -> authorities_step db1 db3.
Proof. unfold same. intros [H1 H2] E. split; rewrite E; auto. Qed.

Lemma authorities_step_write id c c' db :
  cleanup_authorities db !! id = Some c -> authority_step c c' ->
  authorities_step db (set_authorities (<[id := c']> (cleanup_authorities db)) db).
Proof.
  intros Hc Hs. split; simpl; intros id' d Hd.
  - destruct (decide (id = id')) as [<-|Hne].
    + simplify_eq. exists c'. by rewrite lookup_insert_eq.
    + exists d. rewrite lookup_insert_ne by done. done.
  - rewrite lookup_insert_ne by congruence. congruence.
Qed.

Lemma update_authority_step id guard f :
  (forall c, guard c = true -> authority_step c (f c)) ->
  tx_rel authorities_step (update_authority id guard f).
Proof.
  intros Hf db n db' [(_ & -> & _)|(_ & c & Hc & Hg & ->)]%update_authority_Ok.
  - by apply authorities_step_frame.
  - apply authorities_step_write with c; auto.
Qed.

Lemma upsert_authority_step id a w p now guard f :
  (text_rank p = 0 \/ text_rank p = 9) ->
  (forall c, guard c = true -> authority_step c (f c)) ->
  tx_rel authorities_step (upsert_authority id a w p now guard f).
Proof.
  intros Hp Hf db n db' [(_ & Hn & ->)|[(_ & -> & _)|(_ & c & Hc & Hg & ->)]]%upsert_authority_Ok.
  - split; simpl; intros id' d Hd.
    + exists d. rewrite lookup_insert_ne by congruence. done.
    + destruct (decide (id = id')) as [<-|Hne].
      * rewrite lookup_insert_eq. intros [= <-]. done.
      * rewrite lookup_insert_ne by done. congruence.
  - by apply authorities_step_frame.
  - apply authorities_step_write with c; auto.
Qed.

(** The guards of the writes leave only forward moves. *)
Lemma set_phase_step c p now :
  (text_rank p = phase_rank c \/ text_rank p = phase_rank c + 1 \/ (phase_rank c <= 9 /\ text_rank p = 9)) ->
  authority_step c (CleanupAuthority.set_phase p now c).
Proof. unfold authority_step, phase_rank. simpl. auto. Qed.

Lemma set_phase_handles_step c p h now :
  (text_rank p = phase_rank c \/ text_rank p = phase_rank c + 1 \/ (phase_rank c <= 9 /\ text_rank p = 9)) ->
  authority_step c (CleanupAuthority.set_phase_handles p h now c).
Proof. unfold authority_step, phase_rank. simpl. auto. Qed.

(** Decides the arithmetic of a guard [phase c ∈ texts]. *)
Ltac phase_cases :=
  unfold phase_rank in *; bools; destruct_and?;
  repeat match goal with
  | H : CleanupAuthority.phase ?c ∈ _ |- _ =>
      rewrite ?elem_of_cons, ?elem_of_nil in H; destruct_or? H
  end; try done;
  repeat match goal with H : CleanupAuthority.phase _ = _ |- _ => rewrite H end;
  try (vm_compute; tauto).

Lemma cleanup_write_step id expected next h now :
  negb (bool_decide (expected = next)) && negb (CleanupDisposition.can_transition_to expected next) = false ->
  tx_rel authorities_step (update_authority id
    (fun c => bool_decide (CleanupAuthority.phase c ∈ [phase_text expected; phase_text next]))
    (CleanupAuthority.set_phase_handles (phase_text next) h now)).
Proof.
  intros Hlegal. apply update_authority_step. intros c Hg. bools.
  apply set_phase_handles_step. unfold phase_rank. rewrite text_rank_phase.
  rewrite !elem_of_cons, elem_of_nil in Hg.
  destruct Hg as [->|[->|[]]]; rewrite text_rank_phase; [|by left].
  destruct Hlegal as [->|?%can_transition_rank]; auto.
Qed.

Lemma fence_write_step id (evidence : CleanupAuthority -> bool) h now :
  tx_rel authorities_step (update_authority id
    (fun c => evidence c && negb (bool_decide (CleanupAuthority.phase c ∈ past_fence)))
    (CleanupAuthority.set_phase_handles (phase_text CleanupDisposition.CleanupPending) h now)).
Proof.
  apply update_authority_step. intros c Hg. bools. destruct Hg as [_ Hg].
  apply set_phase_handles_step. right. right. split; [by apply not_past_fence_rank|done].
Qed.

Lemma demand_cleanup_step now id a w : tx_rel authorities_step (demand_cleanup now id a w).
Proof.
  apply upsert_authority_step; [by right|]. intros c Hg. bools. destruct Hg as [_ Hg].
  apply set_phase_step. right. right. split; [by apply not_past_fence_rank|done].
Qed.

(** Two demands in a row: still one admissible move. *)
Definition demand_rel (db db' : Database) : Prop :=
  (forall id c, cleanup_authorities db !! id = Some c ->
     exists c', cleanup_authorities db' !! id = Some c' /\
       CleanupAuthority.execution_id c' = CleanupAuthority.execution_id c /\
       CleanupAuthority.attempt_id c' = CleanupAuthority.attempt_id c /\
       CleanupAuthority.worker_id c' = CleanupAuthority.worker_id c /\
       (phase_rank c' = phase_rank c \/ (phase_rank c <= 9 /\ phase_rank c' = 9))) /\
  (forall id c', cleanup_authorities db !! id = None -> cleanup_authorities db' !! id = Some c' ->
     CleanupAuthority.execution_id c' = id /\ phase_rank c' = 9).

#[export] Instance demand_rel_preorder : PreOrder demand_rel.
Proof.
  split.
  - intros db. split; [|congruence]. intros id c Hc. exists c. split_and!; auto.
  - intros db1 db2 db3 [H1 N1] [H2 N2]. split.
    + intros id c Hc. destruct (H1 id c Hc) as (c2 & Hc2 & ? & ? & ? & Hr).
      destruct (H2 id c2 Hc2) as (c3 & Hc3 & ? & ? & ? & Hr'). exists c3.
      split_and!; try congruence. lia.
    + intros id c' Hn Hc'. destruct (cleanup_authorities db2 !! id) as [c2|] eqn:E; [|by eapply N2].
      destruct (H2 id c2 E) as (c3 & Hc3 & He & _ & _ & Hr). simplify_eq.
      destruct (N1 _ _ Hn E). split; [congruence|lia].
Qed.

Lemma demand_rel_frame db db' :
  cleanup_authorities db' = cleanup_authorities db -> demand_rel db db'.
Proof. intros E. split; rewrite E; [|congruence]. intros id c Hc. exists c. split_and!; auto. Qed.

Lemma demand_cleanup_rel now id a w : tx_rel demand_rel (demand_cleanup now id a w).
Proof.
  intros db n db' [(_ & Hn & ->)|[(_ & -> & _)|(_ & c & Hc & Hg & ->)]]%upsert_authority_Ok;
    [..|by apply demand_rel_frame|]; split; simpl; intros id' d Hd.
  - exists d. rewrite lookup_insert_ne by congruence. split_and!; auto.
  - destruct (decide (id = id')) as [<-|Hne].
    + rewrite lookup_insert_eq. by intros [= <-].
    + rewrite lookup_insert_ne by done. congruence.
  - destruct (decide (id = id')) as [<-|Hne].
    + rewrite lookup_insert_eq. simplify_eq. eexists. split; [done|]. simpl. bools.
      destruct Hg as [_ Hg]. split_and!; try done. right. split; [by apply not_past_fence_rank|done].
    + rewrite lookup_insert_ne by done. exists d. split_and!; auto.
  - rewrite lookup_insert_ne by congruence. congruence.
Qed.

Lemma recover_loop_rel now w rows : tx_rel demand_rel (recover_loop now w rows).
Proof.
  induction rows as [|[r e] rows IH]; simpl; [apply tx_rel_ret; apply _|].
  apply tx_rel_bind; [apply _| |intros n].
  - intros db a db' H. apply demand_rel_frame. db_inv; reflexivity.
  - destruct (n =? 1); [|done].
    tx_rel_solve ltac:(apply demand_cleanup_rel || apply IH).
Qed.

Lemma demand_rel_step db db' : demand_rel db db' -> authorities_step db db'.
Proof.
  intros [H1 H2]. split.
  - intros id c Hc. destruct (H1 id c Hc) as (c' & ? & ? & ? & ? & ?). exists c'.
    split; [done|]. unfold authority_step. split_and!; try done. lia.
  - intros id c' Hn Hc'. destruct (H2 id c' Hn Hc'). auto.
Qed.

Lemma recover_loop_step now w rows : tx_rel authorities_step (recover_loop now w rows).
Proof. intros db a db' Hop. apply demand_rel_step. by eapply recover_loop_rel. Qed.

(** Splits an operation at the statement that writes the authority. *)
Ltac authority_op tac :=
  lazymatch goal with
  | |- tx_rel authorities_step (mbind _ _) =>
      first
      [ apply (tx_bind_frame_l cleanup_authorities authorities_step authorities_step_l);
        [solve [tx_rel_solve ltac:(frame)]|intros; authority_op tac]
      | apply (tx_bind_frame_r cleanup_authorities authorities_step authorities_step_r);
        [authority_op tac|intros; solve [tx_rel_solve ltac:(frame)]] ]
  | |- tx_rel authorities_step (if ?b then _ else _) => destruct b; authority_op tac
  | |- tx_rel authorities_step (match ?x with _ => _ end) => destruct x; authority_op tac
  | |- tx_rel authorities_step (let _ := _ in _) => cbv zeta; authority_op tac
  | |- tx_rel authorities_step (claim _ _ _ _) => unfold claim; authority_op tac
  | |- tx_rel authorities_step (release_tx _ _) => unfold release_tx; authority_op tac
  | |- tx_rel authorities_step (finalize_writes _ _ _ _ _ _) =>
      unfold finalize_writes; authority_op tac
  | |- tx_rel authorities_step (when ?b _) =>
      destruct b; cbn [when]; authority_op tac
  | |- _ =>
      first [ solve [tac]
            | intros ? ? ? ?; apply authorities_step_frame; db_inv; reflexivity ]
  end.

Lemma transaction_authorities {A} (body : Tx (result StoreError A)) db r db' :
  tx_rel authorities_step body -> transaction body db = (r, db') -> authorities_step db db'.
Proof.
  intros Hb. unfold transaction. destruct (body db) as [[r' db1]|e] eqn:E; intros [= <- <-].
  - by eapply Hb.
  - by apply authorities_step_frame.
Qed.

Lemma retention_write_step id a w now :
  tx_rel authorities_step (update_authority id
    (fun c => owned_by a w c && bool_decide (CleanupAuthority.phase c ∈
       ["ACTIVE:POST_PI_BEFORE_EVENT"; "RETAIN_REQUESTED"]))
    (CleanupAuthority.set_phase (phase_text CleanupDisposition.RetainRequested) now)).
Proof. apply update_authority_step. intros c Hg. apply set_phase_step. phase_cases. Qed.

Lemma retained_write_step id a now :
  tx_rel authorities_step (update_authority id
    (fun c => bool_decide (CleanupAuthority.attempt_id c = a) &&
              bool_decide (CleanupAuthority.phase c ∈ ["RETAIN_REQUESTED"; "RETAINED"]))
    (CleanupAuthority.set_phase (phase_text CleanupDisposition.Retained) now)).
Proof. apply update_authority_step. intros c Hg. apply set_phase_step. phase_cases. Qed.

Lemma released_write_step id a now :
  tx_rel authorities_step (update_authority id
    (fun c => bool_decide (CleanupAuthority.attempt_id c = a) &&
              bool_decide (CleanupAuthority.phase c = "STORAGE_RELEASED"))
    (CleanupAuthority.set_phase (phase_text CleanupDisposition.ReservationReleased) now)).
Proof. apply update_authority_step. intros c Hg. apply set_phase_step. phase_cases. Qed.

Lemma resolved_write_step id now :
  tx_rel authorities_step (update_authority id
    (fun c => bool_decide (CleanupAuthority.phase c ∈ ["RESERVATION_RELEASED"; "RESOLVED"]))
    (CleanupAuthority.set_phase (phase_text CleanupDisposition.Resolved) now)).
Proof. apply update_authority_step. intros c Hg. apply set_phase_step. phase_cases. Qed.

Lemma begin_write_step id a w now :
  tx_rel authorities_step (upsert_authority id a w
    (phase_text (CleanupDisposition.Active CleanupStage.Reserved)) now (owned_by a w)
    (fun c => CleanupAuthority.set_phase (CleanupAuthority.phase c) now c)).
Proof.
  apply upsert_authority_step; [by left|]. intros c _. apply set_phase_step. by left.
Qed.

Ltac authority_writes :=
  first [ apply retention_write_step | apply retained_write_step | apply released_write_step
        | apply resolved_write_step | apply begin_write_step | apply fence_write_step
        | apply demand_cleanup_step | by apply cleanup_write_step
        | apply recover_loop_step ].

Lemma cleanup_transition_step now id d d' h db r db' :
  CleanupStore.transition now id d d' h db = (r, db') -> authorities_step db db'.
Proof.
  unfold CleanupStore.transition. destruct (_ && _) eqn:E.
  - intros [= _ <-]. by apply authorities_step_frame.
  - apply transaction_authorities. authority_op authority_writes.
Qed.

Lemma checkpoint_step now id p h db r db' :
  checkpoint now id p h db = (r, db') -> authorities_step db db'.
Proof.
  unfold checkpoint, get_authority, query. intros Hop. repeat case_match; simplify_eq;
    first [by apply authorities_step_frame | by eapply cleanup_transition_step].
Qed.

Lemma advance_step now id p db r db' :
  advance now id p db = (r, db') -> authorities_step db db'.
Proof.
  unfold advance, get_authority, query. intros Hop. repeat case_match; simplify_eq;
    first [by apply authorities_step_frame | by eapply cleanup_transition_step].
Qed.

Ltac authority_transaction :=
  match goal with
  | H : _ = (_, _) |- _ =>
      revert H; apply transaction_authorities; authority_op authority_writes
  end.

Lemma step_authorities `{Collation} db db' : step db db' -> authorities_step db db'.
Proof.
  intros (A & op & r & Hop & Heq). destruct Hop.
  all: try (apply authorities_step_frame; unfold heartbeat, mark_stale_before in Heq;
            repeat case_match; simplify_eq; reflexivity).
  all: try (by eapply cleanup_transition_step); try (by eapply checkpoint_step);
    try (by eapply advance_step).
  all: try (apply authorities_step_frame; by eapply append_op_frame).
  all: authority_transaction.
Qed.

(** Along any history an authority keeps its owner and never goes back. *)
Lemma steps_authorities `{Collation} db db' id c :
  rtc step db db' -> cleanup_authorities db !! id = Some c ->
  exists c', cleanup_authorities db' !! id = Some c' /\ authority_le c c'.
Proof.
  intros Hs. revert c. induction Hs as [db|db1 db2 db3 H12 _ IH]; intros c Hc.
  - exists c. done.
  - destruct (as_old _ _ (step_authorities _ _ H12) id c Hc) as (c2 & Hc2 & ? & ? & ? & Hr).
    destruct (IH c2 Hc2) as (c3 & Hc3 & ? & ? & ? & ?). exists c3. split; [done|].
    unfold authority_le, phase_rank in *. split_and!; try congruence. lia.
Qed.

(** C4: cleanup never skips a stage.  Take any history of store operations,
    interleaved in any way, and an authority that has not passed CLEANUP_PENDING
    at its start.  Whatever phase beyond CLEANUP_PENDING it has at the end, the
    history went through each teardown phase in between (the runtime stopped
    and destroyed, the worktree recovered, the storage released, the
    reservation released), and the attempt and worker the authority belongs to
    stayed the same throughout. *)
Theorem teardown_in_order `{Collation} (db db' : Database) (id : ExecutionId)
    (c c' : CleanupAuthority) (k : Z) :
  rtc step db db' ->
  cleanup_authorities db !! id = Some c -> phase_rank c <= 9 ->
  cleanup_authorities db' !! id = Some c' -> 9 < k <= phase_rank c' ->
  exists dbk ck, rtc step db dbk /\ rtc step dbk db' /\
    cleanup_authorities dbk !! id = Some ck /\ phase_rank ck = k /\
    CleanupAuthority.attempt_id ck = CleanupAuthority.attempt_id c /\
    CleanupAuthority.worker_id ck = CleanupAuthority.worker_id c.
Proof.
  intros Hs Hc Hle. revert db' Hs c'.
  refine (rtc_ind_r _ db _ _); [intros; simplify_eq; lia|].
  intros db1 db2 Hs1 H12 IH c' Hc' Hk.
  destruct (steps_authorities _ _ _ _ Hs1 Hc) as (c1 & Hc1 & _ & Ha & Hw & _).
  destruct (as_old _ _ (step_authorities _ _ H12) id c1 Hc1) as (c2 & Hc2 & Hstep).
  simplify_eq. destruct Hstep as (_ & Ha2 & Hw2 & Hr).
  destruct (decide (k <= phase_rank c1)).
  - destruct (IH c1 Hc1) as (dbk & ck & ? & ? & ?); [lia|].
    exists dbk, ck. split_and!; try tauto. by eapply rtc_r.
  - exists db2, c'. split_and!; try congruence; [by eapply rtc_r|done|lia].
Qed.

Definition example_authority_db : Database :=
  set_authorities {[ "e-1" := new_authority "e-1" "a-1" "w-1" "CLEANUP_PENDING" 0 ]} empty_database.

Lemma teardown_in_order_witness :
  exists dbk ck, rtc step example_authority_db dbk /\
    cleanup_authorities dbk !! "e-1" = Some ck /\ phase_rank ck = 10.
Proof.
  set (op := CleanupStore.transition run_clock "e-1" CleanupDisposition.CleanupPending
               CleanupDisposition.RuntimeStopped Null).
  destruct (teardown_in_order example_authority_db (op example_authority_db).2 "e-1"
    (new_authority "e-1" "a-1" "w-1" "CLEANUP_PENDING" 0)
    (CleanupAuthority.set_phase_handles "RUNTIME_STOPPED" Null 100
       (new_authority "e-1" "a-1" "w-1" "CLEANUP_PENDING" 0)) 10)
    as (dbk & ck & H1 & _ & H2 & H3 & _).
  - apply rtc_once, op_step. constructor.
  - reflexivity.
  - vm_compute. discriminate.
  - vm_compute. reflexivity.
  - vm_compute. split; [reflexivity|discriminate].
  - exists dbk, ck. done.
Defined.
