(* ===== verification/ExecutionHistory.v ===== *)
(** * The life of an execution row

    Whatever operations interleave, an execution row keeps its identity, its
    version counts its writes, its state follows the state machine (or returns
    to the queue through a finalized cleanup), and a pending cancellation stops
    every other state change. *)

From S2P Require Import Prelude Core WorkerTypes Scheduler Database EventLog CleanupStore WorkerStore ExecutionStore Controls Reservations Steps.
















(** How the state of an execution may move in one operation. *)
Definition state_move (e e' : Execution) : Prop :=
  Execution.state e' = Execution.state e \/
  ExecutionState.can_transition_to (Execution.state e) (Execution.state e') = true \/
  (ExecutionState.is_terminal (Execution.state e) = false /\
   Execution.state e <> ExecutionState.ReviewReady /\
   Execution.state e' = ExecutionState.Queued /\
   Execution.worker_id e' = None /\ Execution.attempt_id e' = None).

(** How the worker and attempt that own it may move. *)
Definition owner_move (e e' : Execution) : Prop :=
  (Execution.worker_id e' = Execution.worker_id e /\ Execution.attempt_id e' = Execution.attempt_id e) \/
  (Execution.state e = ExecutionState.Queued /\ Execution.state e' = ExecutionState.WorkerAssigned) \/
  (Execution.worker_id e' = None /\ Execution.attempt_id e' = None).

Record row_write (pending : bool) (row row' : ExecutionRow) : Prop := {
  rw_version : ExecutionRow.version row' = ExecutionRow.version row + 1;
  rw_id : Execution.id (ExecutionRow.execution row') = Execution.id (ExecutionRow.execution row);
  rw_role : Execution.role (ExecutionRow.execution row') = Execution.role (ExecutionRow.execution row);
  rw_manifest : Execution.manifest (ExecutionRow.execution row') =
                Execution.manifest (ExecutionRow.execution row);
  rw_created : Execution.created_at (ExecutionRow.execution row') =
               Execution.created_at (ExecutionRow.execution row);
  rw_state : state_move (ExecutionRow.execution row) (ExecutionRow.execution row');
  rw_owner : owner_move (ExecutionRow.execution row) (ExecutionRow.execution row');
  rw_pending : pending = true ->
    Execution.state (ExecutionRow.execution row') = Execution.state (ExecutionRow.execution row) \/
    Execution.state (ExecutionRow.execution row') = ExecutionState.Cancelled
}.

Definition row_step (pending : bool) (row row' : ExecutionRow) : Prop :=
  row' = row \/ row_write pending row row'.

Record execs_step (db db' : Database) : Prop := {
  es_old : forall id row, executions db !! id = Some row ->
    exists row', executions db' !! id = Some row' /\ row_step (cancellation_pending id db) row row';
  es_new : forall id row', executions db !! id = None -> executions db' !! id = Some row' ->
    Execution.id (ExecutionRow.execution row') = id /\
    fresh_execution (ExecutionRow.execution row') /\ ExecutionRow.version row' = 1
}.

Lemma execs_step_same db db' : executions db' = executions db -> execs_step db db'.
Proof.
  intros E. split; rewrite E; [|congruence]. intros id row Hr. exists row. split; [done|by left].
Qed.

Lemma execs_step_write db db' id row row' :
  executions db !! id = Some row ->
  executions db' = <[id := row']> (executions db) ->
  row_write (cancellation_pending id db) row row' -> execs_step db db'.
Proof.
  intros Hr E Hw. split; rewrite E; intros id' q Hq.
  - destruct (decide (id = id')) as [<-|Hne].
    + simplify_eq. exists row'. rewrite lookup_insert_eq. split; [done|by right].
    + exists q. rewrite lookup_insert_ne by done. split; [done|by left].
  - rewrite lookup_insert_ne by congruence. congruence.
Qed.

Lemma execs_step_insert db db' e :
  executions db !! Execution.id e = None -> fresh_execution e ->
  executions db' = <[Execution.id e := {| ExecutionRow.execution := e; ExecutionRow.version := 1 |}]>
    (executions db) ->
  execs_step db db'.
Proof.
  intros Hn Hf E. split; rewrite E; intros id' q Hq.
  - exists q. rewrite lookup_insert_ne by congruence. split; [done|by left].
  - destruct (decide (Execution.id e = id')) as [<-|Hne].
    + rewrite lookup_insert_eq. by intros [= <-].
    + rewrite lookup_insert_ne by done. congruence.
Qed.

Lemma transaction_execs {A} (body : Tx (result StoreError A)) db r db' :
  transaction body db = (r, db') ->
  (forall r', body db = Ok (r', db') -> execs_step db db') -> execs_step db db'.
Proof.
  unfold transaction. destruct (body db) as [[r' db1]|e] eqn:E; intros [= <- <-] Hb.
  - by eapply Hb.
  - by apply execs_step_same.
Qed.

(** Turns what the guards established into facts about the row. *)
Ltac guard_facts :=
  repeat match goal with
  | H : map_err _ _ = Ok _ |- _ => apply map_err_Ok in H
  | H : Execution.transition _ _ _ = Ok _ |- _ => apply execution_transition_Ok in H as [? ?]
  | H : negb _ = true |- _ => rewrite negb_true_iff in H
  | H : cancellation_pending _ _ = _ |- _ => progress cbn in H
  end; subst; simpl in *.

(** Finishes an operation that writes the row of [id] once. *)
Ltac exec_write id :=
  match goal with
  | Hr : executions ?db !! id = Some ?row |- execs_step ?db _ =>
      eapply execs_step_write; [exact Hr|reflexivity|]
  end.

(** A write that only moves the state by a legal transition, unless a
    cancellation is pending. *)
Lemma transition_write row s t pending :
  ExecutionState.can_transition_to (Execution.state (ExecutionRow.execution row)) s = true ->
  (pending = false \/ s = ExecutionState.Cancelled) ->
  forall f, (forall e, Execution.id (f e) = Execution.id e /\ Execution.role (f e) = Execution.role e /\
      Execution.manifest (f e) = Execution.manifest e /\ Execution.created_at (f e) = Execution.created_at e /\
      Execution.state (f e) = Execution.state e /\ Execution.worker_id (f e) = Execution.worker_id e /\
      Execution.attempt_id (f e) = Execution.attempt_id e) ->
  row_write pending row {|
    ExecutionRow.execution := f (Execution.set_state s t (ExecutionRow.execution row));
    ExecutionRow.version := ExecutionRow.version row + 1 |}.
Proof.
  intros Hc Hp f Hf. destruct (Hf (Execution.set_state s t (ExecutionRow.execution row)))
    as (Hid & Hrole & Hman & Hcr & Hst & Hwk & Hat). simpl in *.
  split; simpl; try congruence.
  - right. left. congruence.
  - left. split; congruence.
  - intros ->. destruct Hp as [?|?]; [done|]. right. congruence.
Qed.

Lemma transition_execs now id s db r db' :
  ExecutionStore.transition now id s db = (r, db') -> execs_step db db'.
Proof.
  intros Hop. eapply transaction_execs; [exact Hop|]. clear Hop. intros r' Hop.
  db_inv; guard_facts; try by apply execs_step_same.
  simplify_eq. exec_write id. apply (transition_write _ _ _ _ ltac:(done) ltac:(by left) (fun e => e)).
  done.
Qed.

Lemma transition_with_event_execs now id s ev db r db' :
  transition_with_event now id s ev db = (r, db') -> execs_step db db'.
Proof.
  intros Hop. eapply transaction_execs; [exact Hop|]. clear Hop. intros r' Hop.
  db_inv; guard_facts; try by apply execs_step_same.
  simplify_eq. exec_write id. apply (transition_write _ _ _ _ ltac:(done) ltac:(by left) (fun e => e)).
  done.
Qed.

Lemma request_cancellation_execs now id db r db' :
  request_cancellation now id db = (r, db') -> execs_step db db'.
Proof.
  intros Hop. eapply transaction_execs; [exact Hop|]. clear Hop. intros r' Hop.
  db_inv; guard_facts; try by apply execs_step_same.
  all: simplify_eq; exec_write id; apply (transition_write _ _ _ _ ltac:(done) ltac:(by right)
    (Execution.set_result _)); done.
Qed.

Lemma complete_cancellation_execs now id a db r db' :
  complete_cancellation now id a db = (r, db') -> execs_step db db'.
Proof.
  intros Hop. eapply transaction_execs; [exact Hop|]. clear Hop. intros r' Hop.
  db_inv; guard_facts; try by apply execs_step_same.
  all: simplify_eq; exec_write id; apply (transition_write _ _ _ _ ltac:(done) ltac:(by right)
    (Execution.set_result _)); done.
Qed.

Lemma insert_execs e db r db' :
  fresh_execution e -> insert e db = (r, db') -> execs_step db db'.
Proof.
  intros Hf Hop. eapply transaction_execs; [exact Hop|]. clear Hop. intros r' Hop.
  db_inv. by eapply execs_step_insert.
Qed.

Lemma create_idempotent_execs e ev k sc db r db' :
  fresh_execution e -> create_idempotent e ev k sc db = (r, db') -> execs_step db db'.
Proof.
  intros Hf Hop. eapply transaction_execs; [exact Hop|]. clear Hop. intros r' Hop.
  db_inv; try by apply execs_step_same. by eapply execs_step_insert.
Qed.

Lemma progress_write row e :
  Execution.worker_id (ExecutionRow.execution row) = Execution.worker_id e ->
  Execution.attempt_id (ExecutionRow.execution row) = Execution.attempt_id e ->
  Execution.state (ExecutionRow.execution row) = Execution.state e \/
    ExecutionState.can_transition_to (Execution.state (ExecutionRow.execution row)) (Execution.state e) = true ->
  row_write false row {|
    ExecutionRow.execution := progress_columns e (ExecutionRow.execution row);
    ExecutionRow.version := ExecutionRow.version row + 1 |}.
Proof.
  intros Hw Ha Hs. split; try done; unfold state_move, owner_move; simpl; [naive_solver|].
  left. split; congruence.
Qed.

Lemma record_progress_execs now e ev retention db r db' :
  record_progress_with now e ev retention db = (r, db') -> execs_step db db'.
Proof.
  intros Hop. eapply transaction_execs; [exact Hop|]. clear Hop. intros r' Hop.
  unfold record_progress_with, progress_guards in Hop.
  db_inv; try discriminate; simplify_eq; exec_write (Execution.id e); bools; destruct_and?.
  all: match goal with H : cancellation_pending _ _ = false |- _ => rewrite H end;
    by apply progress_write.
Qed.

Lemma control_write row e (c : ControlRow) pending sid t :
  pending = false ->
  Execution.state (ExecutionRow.execution row) = Execution.state e \/
    ExecutionState.can_transition_to (Execution.state (ExecutionRow.execution row)) (Execution.state e) = true ->
  row_write pending row {|
    ExecutionRow.execution := Execution.set_session sid t
      (Execution.set_state (Execution.state e) t (ExecutionRow.execution row));
    ExecutionRow.version := ExecutionRow.version row + 1 |}.
Proof.
  intros -> Hs. split; try done; unfold state_move, owner_move; simpl; [naive_solver|]. by left.
Qed.

Lemma complete_control_execs now rid e ev db r db' :
  complete_control now rid e ev db = (r, db') -> execs_step db db'.
Proof.
  intros Hop. eapply transaction_execs; [exact Hop|]. clear Hop. intros r' Hop.
  db_inv; try by apply execs_step_same.
  all: simplify_eq; exec_write (Execution.id e).
  all: eapply control_write; [eassumption|eassumption|].
  all: unfold authority_unchanged, expected_state in *; bools; destruct_and?.
  all: match goal with H : _ \/ ExecutionState.can_transition_to _ _ = true |- _ =>
         destruct H as [H|H]; [|by auto] end.
  all: left; repeat match goal with H : ControlRow.action _ = _ |- _ => rewrite H in * end; congruence.
Qed.

(** The claimed execution comes from the table it is written to. *)
Definition keyed (db : Database) : Prop :=
  forall id row, executions db !! id = Some row -> Execution.id (ExecutionRow.execution row) = id.

Lemma execs_step_keyed db db' : execs_step db db' -> keyed db -> keyed db'.
Proof.
  intros [Ho Hn] Hk id row' Hr'. destruct (executions db !! id) as [row|] eqn:E.
  - destruct (Ho id row E) as (q & Hq & [->|Hw]); simplify_eq; [by apply Hk|].
    rewrite (rw_id _ _ _ Hw). by apply Hk.
  - by apply (Hn id row' E).
Qed.

Lemma claim_queue_spec `{Collation} locked db e :
  keyed db -> e ∈ claim_queue locked db ->
  claimable locked db e = true /\
  exists row, executions db !! Execution.id e = Some row /\ ExecutionRow.execution row = e.
Proof.
  intros Hk. unfold claim_queue. rewrite elem_of_order_by, elem_of_filter_bool.
  intros [He Hc]. split; [done|]. unfold execution_rows in He.
  apply list_elem_of_fmap in He as ([id row] & -> & Hin%elem_of_map_to_list).
  exists row. simpl. by rewrite (Hk id row Hin).
Qed.

(** A claim takes a queued, uncancelled row. *)
Lemma claim_write row e w a l t :
  ExecutionRow.execution row = e -> Execution.state e = ExecutionState.Queued ->
  row_write false row {|
    ExecutionRow.execution := Execution.set_authority w a l
      (Execution.set_state ExecutionState.WorkerAssigned t (ExecutionRow.execution row));
    ExecutionRow.version := ExecutionRow.version row + 1 |}.
Proof.
  intros <- Hq. split; try done; unfold state_move, owner_move; simpl; rewrite Hq; auto.
Qed.

Lemma reserve_next_execs `{Collation} now locked uuid w db r db' :
  keyed db -> reserve_next now locked uuid w db = (r, db') -> execs_step db db'.
Proof.
  intros Hk Hop. eapply transaction_execs; [exact Hop|]. clear Hop. intros r' Hop.
  unfold reserve_next, reserved_usage, claim in Hop.
  db_inv; guard_facts; try by apply execs_step_same.
  all: match goal with Hf : List.find _ _ = Some ?e |- _ =>
    apply List.find_some in Hf as [Hin _]; apply list_elem_of_In in Hin;
    apply claim_queue_spec in Hin as (Hc & row & Hrow & He); [|done];
    unfold claimable in Hc; bools; destruct_and? Hc end.
  all: simplify_eq.
  all: match goal with Hr : executions ?db !! ?id = Some ?row |- execs_step ?db _ =>
      eapply execs_step_write; [exact Hr|reflexivity|] end.
  all: match goal with H : cancellation_pending _ _ = false |- _ => rewrite H end;
    by eapply claim_write.
Qed.

Lemma finalized_write id row pending t :
  row_write pending row {|
    ExecutionRow.execution := finalized (final_of id (ExecutionRow.execution row) pending) t
      (ExecutionRow.execution row);
    ExecutionRow.version := ExecutionRow.version row + 1 |}.
Proof.
  split; try done; unfold state_move, owner_move, final_of; simpl; auto.
  - destruct (Execution.state (ExecutionRow.execution row)), pending,
      (ExecutionManifest.persistence (Execution.manifest (ExecutionRow.execution row))); simpl; auto 10;
      right; right; done.
  - intros ->. destruct (Execution.state (ExecutionRow.execution row)); simpl; auto.
Qed.

Lemma finalize_cleanup_execs now id a db r db' :
  finalize_cleanup now id a db = (r, db') -> execs_step db db'.
Proof.
  intros Hop. eapply transaction_execs; [exact Hop|]. clear Hop. intros r' Hop.
  unfold finalize_cleanup, finalize_writes in Hop.
  db_inv; try by apply execs_step_same.
  all: simplify_eq; exec_write id; apply finalized_write.
Qed.

(** The operations that do not write executions. *)
Ltac execs_frame :=
  match goal with
  | H : _ = (_, _) |- _ =>
      apply execs_step_same; revert H; apply (tx_rel_transaction (same executions));
      tx_rel_solve ltac:(first [apply recover_loop_frame; done|frame])
  end.


Lemma step_execs `{Collation} db db' : keyed db -> step db db' -> execs_step db db'.
Proof.
  intros Hk (A & op & r & Hop & Heq). destruct Hop.
  all: try (apply execs_step_same; unfold heartbeat, mark_stale_before in Heq;
            repeat case_match; simplify_eq; reflexivity).
  all: try (apply execs_step_same; first [by eapply (cleanup_transition_frame executions)
    | by eapply (checkpoint_frame executions) | by eapply (advance_frame executions)
    | by eapply (append_op_frame executions)]).
  all: try (first [by eapply create_idempotent_execs | by eapply insert_execs
    | by eapply request_cancellation_execs | by eapply complete_cancellation_execs
    | by eapply transition_execs | by eapply transition_with_event_execs
    | by eapply record_progress_execs | by eapply complete_control_execs
    | by eapply reserve_next_execs | by eapply finalize_cleanup_execs]).
  all: execs_frame.
Qed.

Lemma reachable_keyed `{Collation} db : reachable db -> keyed db.
Proof.
  unfold reachable. revert db. refine (rtc_ind_r _ empty_database _ _).
  - intros id row. simpl. by rewrite lookup_empty.
  - intros db1 db2 _ H12 IH. by eapply execs_step_keyed; [apply step_execs|].
Qed.

Lemma steps_keyed `{Collation} db db' : rtc step db db' -> keyed db -> keyed db'.
Proof.
  induction 1 as [|db1 db2 db3 H12 _ IH]; [done|]. intros Hk. apply IH.
  by eapply execs_step_keyed; [apply step_execs|].
Qed.

(** What a history preserves of a row. *)
Record row_later (row row' : ExecutionRow) : Prop := {
  rl_version : ExecutionRow.version row <= ExecutionRow.version row';
  rl_unwritten : ExecutionRow.version row' = ExecutionRow.version row -> row' = row;
  rl_id : Execution.id (ExecutionRow.execution row') = Execution.id (ExecutionRow.execution row);
  rl_role : Execution.role (ExecutionRow.execution row') = Execution.role (ExecutionRow.execution row);
  rl_manifest : Execution.manifest (ExecutionRow.execution row') =
                Execution.manifest (ExecutionRow.execution row);
  rl_created : Execution.created_at (ExecutionRow.execution row') =
               Execution.created_at (ExecutionRow.execution row);
  rl_final : ExecutionState.is_terminal (Execution.state (ExecutionRow.execution row)) = true ->
    Execution.state (ExecutionRow.execution row') = Execution.state (ExecutionRow.execution row)
}.

#[export] Instance row_later_preorder : PreOrder row_later.
Proof.
  split.
  - intros row. split; done || lia.
  - intros r1 r2 r3 [] []. split; try congruence; try lia.
    + intros Hv. assert (r3 = r2) as -> by (apply rl_unwritten1; lia). apply rl_unwritten0. lia.
    + intros Ht. rewrite rl_final1 by (rewrite rl_final0; done). by apply rl_final0.
Qed.

Lemma row_step_later pending row row' : row_step pending row row' -> row_later row row'.
Proof.
  intros [->|Hw]; [done|]. destruct Hw. split; try done; try lia.
  intros Ht. destruct rw_state0 as [?|[Hc|(Hn & _)]]; [done| |congruence].
  by rewrite (terminal_no_transition _ _ Ht) in Hc.
Qed.

Lemma rows_later `{Collation} db db' id row :
  keyed db -> rtc step db db' -> executions db !! id = Some row ->
  exists row', executions db' !! id = Some row' /\ row_later row row'.
Proof.
  intros Hk Hs. revert Hk row. induction Hs as [|db1 db2 db3 H12 _ IH]; intros Hk row Hr.
  - exists row. done.
  - pose proof (step_execs _ _ Hk H12) as Hstep.
    destruct (es_old _ _ Hstep id row Hr) as (row2 & Hr2 & Hs2).
    destruct (IH (execs_step_keyed _ _ Hstep Hk) row2 Hr2) as (row3 & Hr3 & Hs3).
    exists row3. split; [done|]. etrans; [by eapply row_step_later|done].
Qed.

(** C5: the life of an execution row.  Along any history of store operations a
    row is never deleted, keeps its id, role, manifest and creation time, has a
    version that only grows and that tells whether the row was written, and
    once its state is terminal the state never changes again. *)
Theorem execution_row_history `{Collation} (db db' : Database) (id : ExecutionId) (row : ExecutionRow) :
  reachable db -> rtc step db db' -> executions db !! id = Some row ->
  exists row', executions db' !! id = Some row' /\ row_later row row'.
Proof.
  intros Hk%reachable_keyed Hs. by apply rows_later.
Qed.

Lemma execution_row_history_witness :
  exists row', executions run_reserved !! "e-1" = Some row' /\
    row_later {| ExecutionRow.execution := run_execution; ExecutionRow.version := 1 |} row'.
Proof.
  apply (execution_row_history run_registered run_reserved "e-1").
  - apply run_registered_reachable.
  - apply rtc_once, op_step. constructor.
  - vm_compute. reflexivity.
Defined.
