(* ===== verification/ControlHistory.v ===== *)
(** * Cancellation

    A cancellation request is a promise: once it is recorded, the execution's
    state stands still until the request is completed, and completing it means
    [Cancelled]. *)


From S2P Require Import Prelude Core WorkerTypes Scheduler Database EventLog CleanupStore WorkerStore ExecutionStore Controls Reservations Steps ExecutionHistory.









(** A cancellation request is only ever completed by cancelling. *)
Definition cancelled (id : ExecutionId) (db : Database) : Prop :=
  exists row, executions db !! id = Some row /\
    Execution.state (ExecutionRow.execution row) = ExecutionState.Cancelled.

Definition pending_step (db db' : Database) : Prop :=
  forall id, cancellation_pending id db = true -> cancellation_pending id db' = true \/ cancelled id db'.

Lemma pending_step_same db db' :
  execution_cancellation_requests db' = execution_cancellation_requests db -> pending_step db db'.
Proof. intros E id. unfold cancellation_pending. rewrite E. auto. Qed.

Lemma transaction_pending {A} (body : Tx (result StoreError A)) db r db' :
  transaction body db = (r, db') ->
  (forall r', body db = Ok (r', db') -> pending_step db db') -> pending_step db db'.
Proof.
  unfold transaction. destruct (body db) as [[r' db1]|e] eqn:E; intros [= <- <-] Hb.
  - by eapply Hb.
  - by apply pending_step_same.
Qed.

Ltac pending_frame :=
  match goal with
  | H : _ = (_, _) |- _ =>
      apply pending_step_same; revert H;
      apply (tx_rel_transaction (same execution_cancellation_requests));
      tx_rel_solve ltac:(first [apply recover_loop_frame; done|frame])
  end.

(** The table [request_cancellation] leaves, before a completion. *)
Lemma requested_lookup id id' r db :
  cancellation_pending id' db = true ->
  match match execution_cancellation_requests db !! id with
        | Some _ => execution_cancellation_requests db
        | None => <[id := r]> (execution_cancellation_requests db)
        end !! id' with
  | Some q => bool_decide (CancellationRow.completed_at q = None)
  | None => false
  end = true.
Proof.
  unfold cancellation_pending. intros Hp. destruct (execution_cancellation_requests db !! id) eqn:E; [done|].
  rewrite lookup_insert_ne; [done|]. intros ->. by rewrite E in Hp.
Qed.

Lemma cancelled_write id row s db :
  Execution.state (ExecutionRow.execution row) = ExecutionState.Cancelled ->
  executions db = <[id := row]> s -> cancelled id db.
Proof. intros Hs E. exists row. rewrite E, lookup_insert_eq. done. Qed.

Lemma request_cancellation_pending now id db r db' :
  request_cancellation now id db = (r, db') -> pending_step db db'.
Proof.
  intros Hop. eapply transaction_pending; [exact Hop|]. clear Hop. intros r' Hop.
  db_inv; guard_facts; try by apply pending_step_same.
  all: intros id' Hp.
  - exfalso. match goal with H : forall row, _ -> true = false |- _ => by specialize (H _ ltac:(eassumption)) end.
  - destruct (decide (id = id')) as [<-|Hne].
    + right. by eapply cancelled_write; [|reflexivity].
    + left. unfold cancellation_pending. simpl. rewrite lookup_alter_ne by done. by apply requested_lookup.
  - left. by apply requested_lookup.
Qed.

Lemma complete_cancellation_pending now id a db r db' :
  complete_cancellation now id a db = (r, db') -> pending_step db db'.
Proof.
  intros Hop. eapply transaction_pending; [exact Hop|]. clear Hop. intros r' Hop.
  db_inv; guard_facts; try by apply pending_step_same.
  all: intros id' Hp.
  all: try (exfalso; match goal with H : forall row, _ -> true = false |- _ =>
              by specialize (H _ ltac:(eassumption)) end).
  all: destruct (decide (id = id')) as [<-|Hne];
    [right; by eapply cancelled_write; [|reflexivity]|].
  all: left; unfold cancellation_pending; simpl; by rewrite lookup_alter_ne.
Qed.

Lemma step_pending `{Collation} db db' : step db db' -> pending_step db db'.
Proof.
  intros (A & op & r & Hop & Heq). destruct Hop.
  all: try (apply pending_step_same; unfold heartbeat, mark_stale_before in Heq;
            repeat case_match; simplify_eq; reflexivity).
  all: try (apply pending_step_same; first
    [by eapply (cleanup_transition_frame execution_cancellation_requests)
    | by eapply (checkpoint_frame execution_cancellation_requests)
    | by eapply (advance_frame execution_cancellation_requests)
    | by eapply (append_op_frame execution_cancellation_requests)]).
  all: try (first [by eapply request_cancellation_pending | by eapply complete_cancellation_pending]).
  all: pending_frame.
Qed.

(** The execution is [Cancelled], or its request is still pending and it is
    still in state [s]. *)
Definition cancelled_or_frozen (id : ExecutionId) (s : ExecutionState) (db : Database) : Prop :=
  exists row, executions db !! id = Some row /\
    (Execution.state (ExecutionRow.execution row) = ExecutionState.Cancelled \/
     (cancellation_pending id db = true /\ Execution.state (ExecutionRow.execution row) = s)).

(** C3: cancellation wins.  From the moment a cancellation request of an
    execution is pending, along any history of store operations of any
    controllers and workers, the execution's state does not move until it
    becomes [Cancelled], and it stays [Cancelled]: no transition, progress
    report, control, claim or cleanup finalization overtakes the request. *)
Theorem cancellation_wins `{Collation} (db db' : Database) (id : ExecutionId) (row : ExecutionRow) :
  reachable db -> rtc step db db' -> cancellation_pending id db = true ->
  executions db !! id = Some row ->
  cancelled_or_frozen id (Execution.state (ExecutionRow.execution row)) db'.
Proof.
  intros Hk%reachable_keyed Hs Hp Hr. revert db' Hs. refine (rtc_ind_r _ db _ _).
  { exists row. auto. }
  intros db1 db2 Hs1 H12 (row1 & Hr1 & IH). pose proof (steps_keyed _ _ Hs1 Hk) as Hk1.
  destruct (es_old _ _ (step_execs _ _ Hk1 H12) id row1 Hr1) as (row2 & Hr2 & Hstep).
  exists row2. split; [done|]. destruct IH as [Hc|[Hp1 Hst]].
  - left. rewrite <- Hc. apply (rl_final _ _ (row_step_later _ _ _ Hstep)). by rewrite Hc.
  - rewrite Hp1 in Hstep.
    assert (Hmove : Execution.state (ExecutionRow.execution row2) = Execution.state (ExecutionRow.execution row1) \/
      Execution.state (ExecutionRow.execution row2) = ExecutionState.Cancelled).
    { destruct Hstep as [->|Hw]; [by left|by apply (rw_pending _ _ _ Hw)]. }
    destruct (step_pending _ _ H12 id Hp1) as [Hp2|(q & Hq & Hcq)].
    + destruct Hmove as [Hm|Hm]; [right; split; [done|congruence]|by left].
    + left. congruence.
Qed.

(** The claimed execution of the run, with a cancellation request. *)
Definition run_cancelling : Database := (request_cancellation run_clock "e-1" run_reserved).2.

Lemma cancellation_wins_witness :
  cancelled_or_frozen "e-1" ExecutionState.WorkerAssigned
    (ExecutionStore.transition run_clock "e-1" ExecutionState.Provisioning run_cancelling).2.
Proof.
  set (row := executions run_cancelling !! "e-1"). vm_compute in row.
  match goal with row := Some ?r |- _ =>
    apply (cancellation_wins run_cancelling _ "e-1" r) end.
  - apply reach_op; [apply run_reserved_reachable|constructor].
  - apply rtc_once, op_step. constructor.
  - vm_compute. reflexivity.
  - vm_compute. reflexivity.
Defined.

(** * The life of an interactive control

    A control row is never deleted, what it was accepted against never changes,
    and its phase only moves forward; the side effect on the execution happens
    at most once. *)

(** Where the phase of a control may go, in any number of moves. *)
Definition phase_later (p p' : ControlPhase) : Prop :=
  p = p' \/ (ControlPhase.pending p = true /\ p' <> ControlPhase.ACCEPTED /\
             (p = ControlPhase.SIDE_EFFECT_APPLIED -> p' <> ControlPhase.APPLYING)).

(** What was accepted. *)
Definition accepted (c : ControlRow) :
  ExecutionId * ExecutionControlAction * string * WorkerId * AttemptId * SessionId * string * Z *
  ExecutionState * option SessionId :=
  (ControlRow.execution_id c, ControlRow.action c, ControlRow.idempotency_key c,
   ControlRow.accepted_worker_id c, ControlRow.accepted_attempt_id c, ControlRow.source_session_id c,
   ControlRow.worktree_path c, ControlRow.accepted_execution_version c, ControlRow.accepted_state c,
   ControlRow.target_session_id c).

Definition control_later (c c' : ControlRow) : Prop :=
  accepted c' = accepted c /\ phase_later (ControlRow.phase c) (ControlRow.phase c').

#[export] Instance control_later_preorder : PreOrder control_later.
Proof.
  split.
  - intros c. split; [done|by left].
  - intros c1 c2 c3 [E1 P1] [E2 P2]. split; [congruence|]. unfold phase_later in *.
    destruct (ControlRow.phase c1), (ControlRow.phase c2), (ControlRow.phase c3); naive_solver.
Qed.

Definition controls_later (db db' : Database) : Prop :=
  forall rid c, execution_control_requests db !! rid = Some c ->
    exists c', execution_control_requests db' !! rid = Some c' /\ control_later c c'.

#[export] Instance controls_later_preorder : PreOrder controls_later.
Proof.
  split.
  - intros db rid c Hc. exists c. done.
  - intros db1 db2 db3 H12 H23 rid c Hc. destruct (H12 rid c Hc) as (c2 & Hc2 & L).
    destruct (H23 rid c2 Hc2) as (c3 & Hc3 & L'). exists c3. split; [done|]. by etrans.
Qed.

Lemma controls_later_frame db db' :
  execution_control_requests db' = execution_control_requests db -> controls_later db db'.
Proof. intros E rid c Hc. exists c. by rewrite E. Qed.

Lemma controls_later_put rid c c' db db' :
  execution_control_requests db !! rid = Some c -> control_later c c' ->
  execution_control_requests db' = <[rid := c']> (execution_control_requests db) ->
  controls_later db db'.
Proof.
  intros Hc L E rid' q Hq. rewrite E. destruct (decide (rid = rid')) as [<-|Hne].
  - simplify_eq. exists c'. by rewrite lookup_insert_eq.
  - exists q. by rewrite lookup_insert_ne.
Qed.

Lemma stale_later c reason now :
  ControlRow.phase c <> ControlPhase.COMPLETED -> control_later c (stale_control now reason c).
Proof.
  intros Hp. split; [done|]. unfold phase_later. simpl.
  destruct (ControlRow.phase c); first [done | by left | right; done].
Qed.

Lemma pending_not_completed p : ControlPhase.pending p = true -> p <> ControlPhase.COMPLETED.
Proof. by destruct p. Qed.
#[export] Hint Resolve pending_not_completed : autospec.

Lemma stale_controls_later now id reason : tx_rel controls_later (stale_controls_for_execution now id reason).
Proof.
  intros db u db' ->%modify_Ok rid c Hc. simpl. rewrite lookup_fmap, Hc. eexists. split; [done|].
  destruct (_ && _) eqn:E; [|done]. bools. destruct E as [_ E].
  apply (stale_later c reason now). eauto with autospec.
Qed.

Lemma insert_control_later rid c : tx_rel controls_later (insert_control rid c).
Proof.
  intros db u db' Hop. unfold insert_control in Hop. db_inv. bools. destruct_and?.
  intros rid' q Hq. exists q. simpl. rewrite lookup_insert_ne by congruence. done.
Qed.

Ltac control_stmt :=
  first [ apply stale_controls_later | apply insert_control_later
        | intros ? ? ? ?; apply controls_later_frame; db_inv; reflexivity
        | intros ? ? ? ?; apply controls_later_frame; by eapply (recover_loop_frame execution_control_requests) ].

Lemma transaction_controls {A} (body : Tx (result StoreError A)) db r db' :
  transaction body db = (r, db') ->
  (forall r', body db = Ok (r', db') -> controls_later db db') -> controls_later db db'.
Proof.
  unfold transaction. destruct (body db) as [[r' db1]|e] eqn:E; intros [= <- <-] Hb; [by eapply Hb|done].
Qed.

Lemma begin_control_later now rid w a db r db' :
  begin_control now rid w a db = (r, db') -> controls_later db db'.
Proof.
  intros Hop. eapply transaction_controls; [exact Hop|]. clear Hop. intros r' Hop.
  unfold begin_control, lock_control in Hop. db_inv; simplify_eq; try done.
  - eapply controls_later_put; [done|eapply stale_later; eauto with autospec|reflexivity].
  - eapply controls_later_put; [done| |reflexivity]. split; [done|]. right. simpl. bools.
    match goal with H : ControlRow.phase _ = _ |- _ => rewrite H end. done.
Qed.

Lemma mark_control_later now rid s db r db' :
  mark_control_side_effect_applied now rid s db = (r, db') -> controls_later db db'.
Proof.
  intros Hop. eapply transaction_controls; [exact Hop|]. clear Hop. intros r' Hop.
  unfold mark_control_side_effect_applied, lock_control in Hop. db_inv; simplify_eq; try done.
  - eapply controls_later_put; [done|eapply stale_later; eauto with autospec|reflexivity].
  - eapply controls_later_put; [done| |reflexivity]. split; [done|]. right. simpl. bools.
    match goal with H : ControlRow.phase _ = ControlPhase.APPLYING |- _ => rewrite H end. done.
Qed.

Lemma complete_control_later now rid e ev db r db' :
  complete_control now rid e ev db = (r, db') -> controls_later db db'.
Proof.
  intros Hop. eapply transaction_controls; [exact Hop|]. clear Hop. intros r' Hop.
  db_inv; simplify_eq; try done.
  1: by eapply controls_later_put; [done|eapply stale_later; bools|reflexivity].
  all: eapply controls_later_put; [done| |reflexivity]; split; [done|]; right; simpl; bools;
    match goal with H : ControlRow.phase _ = ControlPhase.SIDE_EFFECT_APPLIED |- _ => rewrite H end; done.
Qed.

Lemma step_controls `{Collation} db db' : step db db' -> controls_later db db'.
Proof.
  intros (A & op & r & Hop & Heq). destruct Hop.
  all: try (first [by eapply begin_control_later | by eapply mark_control_later
                  | by eapply complete_control_later]).
  all: try (apply controls_later_frame; unfold heartbeat, mark_stale_before in Heq;
            repeat case_match; simplify_eq; reflexivity).
  all: try (apply controls_later_frame; first [by eapply (cleanup_transition_frame execution_control_requests)
    | by eapply (checkpoint_frame execution_control_requests)
    | by eapply (advance_frame execution_control_requests)
    | by eapply (append_op_frame execution_control_requests)]).
  all: revert Heq; apply (tx_rel_transaction controls_later); tx_rel_solve control_stmt.
Qed.

Lemma steps_controls `{Collation} db db' : rtc step db db' -> controls_later db db'.
Proof. induction 1 as [|db1 db2 db3 H12 _ IH]; [done|]. etrans; [by apply step_controls|done]. Qed.

(** ** Completion *)

(** What completing a control does to the execution: the state and session the
    control asked for, on the row it was accepted against. *)
Record control_effect (c : ControlRow) (e : Execution) (db db' : Database) : Prop := {
  cf_phase : ControlRow.phase c = ControlPhase.SIDE_EFFECT_APPLIED;
  cf_row : exists row, executions db !! Execution.id e = Some row /\
    ExecutionRow.version row = ControlRow.accepted_execution_version c /\
    Execution.state (ExecutionRow.execution row) = ControlRow.accepted_state c /\
    Execution.worker_id (ExecutionRow.execution row) = Some (ControlRow.accepted_worker_id c) /\
    Execution.attempt_id (ExecutionRow.execution row) = Some (ControlRow.accepted_attempt_id c) /\
    Execution.session_id (ExecutionRow.execution row) = Some (ControlRow.source_session_id c) /\
    exists row', executions db' !! Execution.id e = Some row' /\
      ExecutionRow.version row' = ExecutionRow.version row + 1 /\
      Execution.state (ExecutionRow.execution row') = expected_state c /\
      Ok (Execution.session_id (ExecutionRow.execution row')) = Some <$> expected_session c
}.

Lemma complete_control_Ok now rid e ev n db db' :
  complete_control now rid e ev db = (Ok (Some n), db') ->
  exists c, execution_control_requests db !! rid = Some c /\ control_effect c e db db' /\
    exists c', execution_control_requests db' !! rid = Some c' /\ ControlRow.phase c' = ControlPhase.COMPLETED.
Proof.
  intros Hop%transaction_Ok. unfold complete_control in Hop.
  db_inv; try discriminate; simplify_eq.
  all: try (exfalso; match goal with H : forall row, _ -> true = false |- _ =>
              by specialize (H _ ltac:(eassumption)) end).
  all: eexists; split; [done|]; split; [|eexists; split; [apply lookup_insert_eq|done]].
  all: unfold authority_unchanged in *; bools; destruct_and?; split; [done|].
  all: eexists; split_and!; try done; eexists; split; [apply lookup_insert_eq|]; simpl;
    split_and!; try done; match goal with H : expected_session _ = Ok _ |- _ => rewrite H end; simpl; congruence.
Qed.

(** A control takes effect exactly once, on what it was accepted for.  When
    [complete_control] applies a control, the execution is still at the version,
    state, worker, attempt and session the control was accepted against, it gets
    the state and session the control asked for and the next version; and in
    every later database any further completion of the same control, by
    whomever and with whatever arguments, changes nothing. *)
Theorem control_completes_once `{Collation} (now now' : Clock) (rid : Z) (e e' : Execution)
    (ev ev' : ExecutionEvent) (n : Z) (db db' db2 : Database) :
  complete_control now rid e ev db = (Ok (Some n), db') -> rtc step db' db2 ->
  (exists c, execution_control_requests db !! rid = Some c /\ control_effect c e db db') /\
  exists r, complete_control now' rid e' ev' db2 = (r, db2) /\ forall m, r <> Ok (Some m).
Proof.
  intros Hop Hs. destruct (complete_control_Ok _ _ _ _ _ _ _ Hop) as (c & Hc & Heff & c' & Hc' & Hp).
  split; [by exists c|]. destruct (steps_controls _ _ Hs _ _ Hc') as (c2 & Hc2 & _ & Hl).
  assert (Hp2 : ControlRow.phase c2 = ControlPhase.COMPLETED).
  { destruct Hl as [Hl|[Hl _]]; [congruence|]. by rewrite Hp in Hl. }
  destruct (complete_control now' rid e' ev' db2) as [r db3] eqn:E.
  unfold complete_control, transaction in E.
  match type of E with match ?m with _ => _ end = _ => destruct m as [[r' db4]|err] eqn:Eb end;
    injection E as <- <-; [|by eexists].
  apply bind_Ok in Eb as (u & db5 & [_ ->]%ensure_Ok & Eb).
  apply bind_Ok in Eb as (ro & db5 & [-> ->]%gets_Ok & Eb).
  apply bind_Ok in Eb as (row & db5 & [_ ->]%require_Ok & Eb).
  apply bind_Ok in Eb as (co & db5 & [-> ->]%gets_Ok & Eb).
  apply bind_Ok in Eb as (c3 & db5 & [Hc3 ->]%require_Ok & Eb). simplify_eq.
  apply bind_Ok in Eb as (u' & db5 & [_ ->]%ensure_Ok & Eb).
  rewrite bool_decide_true in Eb by done. tx_inv. by eexists.
Qed.

(** ** A pause in the run *)

Definition run_progress (state : ExecutionState) : Execution := {|
  Execution.id := "e-1"; Execution.role := Role.Implementation; Execution.state := state;
  Execution.manifest := run_manifest; Execution.worker_id := Some "w-1"%string;
  Execution.attempt_id := Some "attempt-u1"%string; Execution.session_id := Some "s-1"%string;
  Execution.worktree_path := Some "/wt"%string; Execution.labels := Execution.labels run_execution;
  Execution.created_at := 5; Execution.updated_at := 120; Execution.result := None |}.

Definition run_event (state : ExecutionState) (kind : ExecutionEventKind) : ExecutionEvent := {|
  ExecutionEvent.execution_id := "e-1"; ExecutionEvent.attempt_id := Some "attempt-u1"%string;
  ExecutionEvent.sequence := 0; ExecutionEvent.at_ := 120; ExecutionEvent.state := state;
  ExecutionEvent.kind := kind |}.

Definition run_running : Database :=
  (record_progress run_clock (run_progress ExecutionState.Running)
     (run_event ExecutionState.Running (ExecutionEventKind.AgentStarted "s-1"))
     (record_progress run_clock (run_progress ExecutionState.Provisioning)
        (run_event ExecutionState.Provisioning ExecutionEventKind.EnvironmentReady) run_reserved).2).2.

Definition run_pausing : Database :=
  (mark_control_side_effect_applied run_clock 1 None
    (begin_control run_clock 1 "w-1" "attempt-u1"
      (request_control run_clock "e-1" ExecutionControlAction.Pause "pause-key" run_running).2).2).2.

Definition run_complete : Op (option Z) :=
  complete_control run_clock 1 (run_progress ExecutionState.PausedForHuman)
    (run_event ExecutionState.PausedForHuman ExecutionEventKind.ExecutionPaused).

Lemma control_completes_once_witness :
  (run_complete run_pausing).1 = Ok (Some 4) /\
  exists r, run_complete (run_complete run_pausing).2 = (r, (run_complete run_pausing).2) /\
    forall m, r <> Ok (Some m).
Proof.
  split; [vm_compute; reflexivity|].
  refine (proj2 (control_completes_once run_clock run_clock 1
    (run_progress ExecutionState.PausedForHuman) (run_progress ExecutionState.PausedForHuman)
    (run_event ExecutionState.PausedForHuman ExecutionEventKind.ExecutionPaused)
    (run_event ExecutionState.PausedForHuman ExecutionEventKind.ExecutionPaused) 4 run_pausing
    (run_complete run_pausing).2 (run_complete run_pausing).2 _ _)).
  - vm_compute. reflexivity.
  - apply rtc_refl.
Defined.
