(* ===== verification/Capacity.v ===== *)
(** * Capacity accounting

    The worker row counts the reservations that name it, whatever operations
    interleave; a reservation always belongs to an execution, an attempt and a
    worker that exist and agree with it; and a claim never commits more than a
    worker has. *)

From S2P Require Import Prelude Core WorkerTypes Scheduler Database EventLog CleanupStore WorkerStore ExecutionStore Controls Reservations Steps ExecutionHistory.
















(** ** Sums over the reservations of a worker *)

Definition usage (w : WorkerId) (f : ReservationRow -> Z) (db : Database) : Z :=
  sum_Z f (reservations_of w db).

Lemma sum_Z_filter {A} (p : A -> bool) f l :
  sum_Z f (List.filter p l) = sum_Z (fun x => if p x then f x else 0) l.
Proof. induction l as [|x l IH]; simpl; [done|]. destruct (p x); simpl in *; lia. Qed.

Lemma sum_map_insert (g : ReservationRow -> Z) id r m :
  m !! id = None ->
  sum_Z g (map_to_list (<[id := r]> m)).*2 = g r + sum_Z g (map_to_list (m : gmap ExecutionId _)).*2.
Proof. intros Hn. by rewrite map_to_list_insert. Qed.

Lemma sum_map_delete (g : ReservationRow -> Z) id r m :
  m !! id = Some r ->
  sum_Z g (map_to_list (m : gmap ExecutionId _)).*2 = g r + sum_Z g (map_to_list (delete id m)).*2.
Proof.
  intros Hr. rewrite <- (sum_map_insert g id r) by apply lookup_delete_eq.
  by rewrite insert_delete_id.
Qed.

Lemma usage_insert w f id r db :
  reservations db !! id = None ->
  usage w f (set_reservations (<[id := r]> (reservations db)) db) =
  usage w f db + (if bool_decide (ReservationRow.worker_id r = w) then f r else 0).
Proof.
  intros Hn. unfold usage, reservations_of. rewrite !sum_Z_filter. simpl.
  rewrite sum_map_insert by done. lia.
Qed.

Lemma usage_delete w f id r db :
  reservations db !! id = Some r ->
  usage w f (set_reservations (delete id (reservations db)) db) =
  usage w f db - (if bool_decide (ReservationRow.worker_id r = w) then f r else 0).
Proof.
  intros Hr. unfold usage, reservations_of. rewrite !sum_Z_filter. simpl.
  rewrite (sum_map_delete _ id r (reservations db)) by done. lia.
Qed.

Lemma usage_frame w f db db' : reservations db' = reservations db -> usage w f db' = usage w f db.
Proof. unfold usage, reservations_of. by intros ->. Qed.

Lemma usage_count w db : usage w (fun _ => 1) db = Z.of_nat (length (reservations_of w db)).
Proof. apply sum_Z_const. Qed.

Lemma usage_nonneg w f db :
  (forall id r, reservations db !! id = Some r -> 0 <= f r) -> 0 <= usage w f db.
Proof.
  intros Hf. apply sum_Z_nonneg. intros r [Hr _]%elem_of_filter_bool.
  apply list_elem_of_fmap in Hr as ([id r'] & -> & Hin%elem_of_map_to_list). by eapply Hf.
Qed.

(** ** The invariant *)

(** The records a reservation stands for. *)
Record res_ok (db : Database) (id : ExecutionId) (r : ReservationRow) : Prop := {
  ro_key : ReservationRow.execution_id r = id;
  ro_worker : is_Some (workers db !! ReservationRow.worker_id r);
  ro_execution : exists row, executions db !! id = Some row /\
    Execution.worker_id (ExecutionRow.execution row) = Some (ReservationRow.worker_id r) /\
    Execution.attempt_id (ExecutionRow.execution row) = Some (ReservationRow.attempt_id r);
  ro_attempt : exists a, execution_attempts db !! ReservationRow.attempt_id r = Some a /\
    AttemptRow.execution_id a = id /\ AttemptRow.worker_id a = ReservationRow.worker_id r;
  ro_amounts : 0 < ReservationRow.cpu r /\ 0 < ReservationRow.memory_mib r /\
    0 <= ReservationRow.disk_gib r
}.

Record capacity_inv (db : Database) : Prop := {
  ci_keyed : keyed db;
  ci_workers : workers_ok db;
  ci_res : forall id r, reservations db !! id = Some r -> res_ok db id r;
  ci_count : forall w reg, workers db !! w = Some reg ->
    WorkerRegistration.running_executions reg = usage w (fun _ => 1) db
}.

(** An operation that leaves the accounting alone: capacity tables unchanged,
    owners and attempts in place. *)
Definition same_owner (e e' : Execution) : Prop :=
  Execution.worker_id e' = Execution.worker_id e /\ Execution.attempt_id e' = Execution.attempt_id e.
Definition same_attempt (a a' : AttemptRow) : Prop :=
  AttemptRow.execution_id a' = AttemptRow.execution_id a /\ AttemptRow.worker_id a' = AttemptRow.worker_id a.

Record quiet (db db' : Database) : Prop := {
  qu_res : reservations db' = reservations db;
  qu_workers : workers db' = workers db;
  qu_exec : forall id row, executions db !! id = Some row ->
    exists row', executions db' !! id = Some row' /\
      same_owner (ExecutionRow.execution row) (ExecutionRow.execution row');
  qu_attempts : forall id a, execution_attempts db !! id = Some a ->
    exists a', execution_attempts db' !! id = Some a' /\ same_attempt a a'
}.

#[export] Instance quiet_preorder : PreOrder quiet.
Proof.
  split.
  - intros db. split; try done; [intros id row Hr; exists row|intros id a Ha; exists a]; done.
  - intros db1 db2 db3 [? ? E1 A1] [? ? E2 A2]. split; try congruence.
    + intros id row Hr. destruct (E1 id row Hr) as (row2 & Hr2 & ? & ?).
      destruct (E2 id row2 Hr2) as (row3 & Hr3 & ? & ?). exists row3. split; [done|].
      split; congruence.
    + intros id a Ha. destruct (A1 id a Ha) as (a2 & Ha2 & ? & ?).
      destruct (A2 id a2 Ha2) as (a3 & Ha3 & ? & ?). exists a3. split; [done|]. split; congruence.
Qed.

Lemma quiet_res_ok db db' id r : quiet db db' -> res_ok db id r -> res_ok db' id r.
Proof.
  intros [_ Hw He Ha] [Hk Hwk (row & Hr & Hrw & Hra) (a & Haa & Hae & Haw) Hp]. split; try done.
  - by rewrite Hw.
  - destruct (He id row Hr) as (row' & Hr' & ? & ?). exists row'. split_and!; congruence.
  - destruct (Ha _ a Haa) as (a' & Ha' & ? & ?). exists a'. split_and!; congruence.
Qed.

Lemma quiet_inv db db' : quiet db db' -> keyed db' -> capacity_inv db -> capacity_inv db'.
Proof.
  intros Hq Hk [_ Hw Hr Hc]. split; [done|..].
  - intros id w. rewrite (qu_workers _ _ Hq). apply Hw.
  - intros id r. rewrite (qu_res _ _ Hq). intros Hid. by eapply quiet_res_ok; [|apply Hr].
  - intros w reg. rewrite (qu_workers _ _ Hq). intros Hreg.
    rewrite (usage_frame w _ db) by apply Hq. by apply Hc.
Qed.

Lemma quiet_other db db' :
  reservations db' = reservations db -> workers db' = workers db ->
  executions db' = executions db -> execution_attempts db' = execution_attempts db -> quiet db db'.
Proof.
  intros E1 E2 E3 E4. split; try done.
  - intros id row Hr. exists row. by rewrite E3.
  - intros id a Ha. exists a. by rewrite E4.
Qed.

Lemma quiet_exec id row row' db :
  executions db !! id = Some row ->
  same_owner (ExecutionRow.execution row) (ExecutionRow.execution row') ->
  quiet db (set_executions (<[id := row']> (executions db)) db).
Proof.
  intros Hr Ho. split; try done; simpl.
  - intros id' q Hq. destruct (decide (id = id')) as [<-|Hne].
    + simplify_eq. exists row'. by rewrite lookup_insert_eq.
    + exists q. rewrite lookup_insert_ne by done. done.
  - intros id' a Ha. exists a. done.
Qed.

Lemma quiet_attempt id a a' db :
  execution_attempts db !! id = Some a -> same_attempt a a' ->
  quiet db (set_attempts (<[id := a']> (execution_attempts db)) db).
Proof.
  intros Hr Ho. split; try done; simpl.
  - intros id' row Hrow. exists row. done.
  - intros id' q Hq. destruct (decide (id = id')) as [<-|Hne].
    + simplify_eq. exists a'. by rewrite lookup_insert_eq.
    + exists q. rewrite lookup_insert_ne by done. done.
Qed.

Lemma update_execution_quiet id guard f :
  (forall e, same_owner e (f e)) -> tx_rel quiet (update_execution id guard f).
Proof.
  intros Hf db n db' [(_ & -> & _)|(_ & row & Hr & _ & ->)]%update_execution_Ok; [done|].
  eapply quiet_exec; [done|apply Hf].
Qed.

Lemma update_attempt_quiet id guard f :
  (forall a, same_attempt a (f a)) -> tx_rel quiet (update_attempt id guard f).
Proof.
  intros Hf db n db' [(_ & -> & _)|(_ & a & Ha & _ & ->)]%update_attempt_Ok; [done|].
  eapply quiet_attempt; [done|apply Hf].
Qed.

Lemma insert_execution_quiet e : tx_rel quiet (insert_execution e).
Proof.
  intros db u db' [Hn ->]%insert_execution_Ok. split; try done; simpl.
  - intros id row Hr. exists row. rewrite lookup_insert_ne by congruence. done.
  - intros id a Ha. exists a. done.
Qed.

Ltac quiet_stmt :=
  first [ apply update_execution_quiet; done | apply update_attempt_quiet; done
        | apply insert_execution_quiet
        | intros ? ? ? ?; apply quiet_other; db_inv; reflexivity ].

Lemma recover_loop_quiet now w rows : tx_rel quiet (recover_loop now w rows).
Proof.
  induction rows as [|[r e] rows IH]; simpl; [apply tx_rel_ret; apply _|].
  tx_rel_solve ltac:(first [apply IH | apply update_attempt_quiet; done | quiet_stmt]).
Qed.

Lemma progress_guards_owner e ev row a w db db' :
  progress_guards e ev db = Ok ((row, a, w), db') ->
  db' = db /\ executions db !! Execution.id e = Some row /\
  same_owner (ExecutionRow.execution row) e.
Proof.
  unfold progress_guards. intros Hg. db_inv. simplify_eq. bools. destruct_and?.
  split_and!; done.
Qed.

Lemma record_progress_quiet now e ev retention db r db' :
  record_progress_with now e ev retention db = (r, db') -> quiet db db'.
Proof.
  unfold record_progress_with, transaction.
  destruct ((progress_guards e ev ≫= _) db) as [[r' db1]|err] eqn:E; intros [= <- <-]; [|done].
  apply bind_Ok in E as ([[row a] w] & db0 & Hg & E).
  apply progress_guards_owner in Hg as (-> & Hrow & Hown).
  apply bind_Ok in E as (n & db2 & Hu & E).
  assert (quiet db db2) as Hq.
  { apply update_execution_Ok in Hu as [(_ & -> & _)|(_ & row' & Hr & _ & ->)]; [done|].
    simplify_eq. by apply (quiet_exec _ row). }
  etrans; [exact Hq|]. revert E. clear. intros E.
  match type of E with ?m db2 = _ => assert (tx_rel quiet m) as Hm; [|by eapply Hm] end.
  tx_rel_solve quiet_stmt.
Qed.

(** ** The operations that change capacity *)

Lemma usage_unregistered w f db :
  capacity_inv db -> workers db !! w = None -> usage w f db = 0.
Proof.
  intros Hinv Hn. unfold usage, reservations_of. rewrite filter_none; [done|].
  intros r Hr. apply list_elem_of_fmap in Hr as ([id r'] & -> & Hin%elem_of_map_to_list).
  rewrite bool_decide_eq_false. intros <-. destruct (ro_worker _ _ _ (ci_res _ Hinv _ _ Hin)).
  simpl in *. congruence.
Qed.

Lemma res_ok_workers db m id r :
  (forall w, is_Some (workers db !! w) -> is_Some (m !! w)) ->
  res_ok db id r -> res_ok (set_workers m db) id r.
Proof. intros Hm []. split; simpl; auto. Qed.

(** A write to the worker table that keeps the running counts. *)
Lemma workers_change_inv db m :
  (forall w, is_Some (workers db !! w) -> is_Some (m !! w)) ->
  workers_ok (set_workers m db) ->
  (forall w reg', m !! w = Some reg' ->
     match workers db !! w with
     | Some reg => WorkerRegistration.running_executions reg' = WorkerRegistration.running_executions reg
     | None => WorkerRegistration.running_executions reg' = 0
     end) ->
  capacity_inv db -> capacity_inv (set_workers m db).
Proof.
  intros Hm Hok Hrun Hinv. split; [apply Hinv|done| |].
  - intros id r Hr. apply res_ok_workers; [done|]. by apply Hinv.
  - intros w reg' Hw. specialize (Hrun w reg' Hw). rewrite (usage_frame w _ db) by done.
    destruct (workers db !! w) as [reg|] eqn:E.
    + rewrite Hrun. by apply Hinv.
    + by rewrite (usage_unregistered w _ db).
Qed.

Lemma register_inv w db r db' : register w db = (r, db') -> capacity_inv db -> capacity_inv db'.
Proof.
  unfold register, transaction, mbind, stm_bind, lift.
  destruct (validate w) as [[]|e] eqn:Hv; intros [= <- <-]; [|done]. intros Hinv.
  apply workers_change_inv; [..|done].
  - intros w' Hw'. destruct (decide (WorkerRegistration.id w = w')) as [<-|Hne].
    + by rewrite lookup_insert_eq.
    + by rewrite lookup_insert_ne.
  - apply workers_ok_insert; [apply Hinv|]. split; [done| |done].
    apply running_ok, Hinv.
  - intros w' reg' Hw'. apply lookup_insert_Some in Hw' as [[<- <-]|[Hne Hw']].
    + simpl. by destruct (workers db !! WorkerRegistration.id w).
    + by rewrite Hw'.
Qed.

Lemma heartbeat_inv w db r db' : heartbeat w db = (r, db') -> capacity_inv db -> capacity_inv db'.
Proof.
  unfold heartbeat. destruct (validate w) as [[]|e] eqn:Hv; [|by intros [= <- <-]].
  destruct (workers db !! WorkerRegistration.id w) as [w0|] eqn:E; [|by intros [= <- <-]].
  intros [= <- <-] Hinv. apply workers_change_inv; [..|done].
  - intros w' Hw'. destruct (decide (WorkerRegistration.id w = w')) as [<-|Hne].
    + by rewrite lookup_insert_eq.
    + by rewrite lookup_insert_ne.
  - apply workers_ok_insert; [apply Hinv|]. split; [done| |done].
    pose proof (running_ok db (WorkerRegistration.id w) (ci_workers _ Hinv)) as Hr. by rewrite E in Hr.
  - intros w' reg' Hw'. apply lookup_insert_Some in Hw' as [[<- <-]|[Hne Hw']].
    + by rewrite E.
    + by rewrite Hw'.
Qed.

Lemma mark_stale_inv t db r db' : mark_stale_before t db = (r, db') -> capacity_inv db -> capacity_inv db'.
Proof.
  unfold mark_stale_before. intros [= <- <-] Hinv. apply workers_change_inv; [..|done].
  - intros w Hw. by rewrite lookup_fmap, fmap_is_Some.
  - intros w reg'. simpl. rewrite lookup_fmap. intros (reg & Hw & ->)%fmap_Some.
    destruct (ci_workers _ Hinv w reg Hw) as [Hid Hrun Hv].
    destruct (is_stale t reg); [|done]. split; [done|done|]. by apply validate_unreachable.
  - intros w reg'. rewrite lookup_fmap. intros (reg & Hw & ->)%fmap_Some. rewrite Hw.
    by destruct (is_stale t reg).
Qed.

(** Giving a reservation back. *)
Definition decremented (w : WorkerId) (db : Database) : gmap WorkerId WorkerRegistration :=
  alter (fun reg => WorkerRegistration.set_running
           (Z.max (WorkerRegistration.running_executions reg - 1) 0) reg) w (workers db).

Lemma release_inv id r db :
  capacity_inv db -> reservations db !! id = Some r ->
  capacity_inv (set_workers (decremented (ReservationRow.worker_id r) db)
    (set_reservations (delete id (reservations db)) db)).
Proof.
  intros Hinv Hr. set (w := ReservationRow.worker_id r).
  assert (Hpos : 1 <= usage w (fun _ => 1) db).
  { pose proof (usage_delete w (fun _ => 1) id r db Hr) as Hd. rewrite bool_decide_true in Hd by done.
    pose proof (usage_nonneg w (fun _ => 1) (set_reservations (delete id (reservations db)) db)
      ltac:(lia)). lia. }
  split; simpl.
  - apply Hinv.
  - intros w' reg'. simpl. unfold decremented. rewrite lookup_alter_Some.
    intros [(-> & reg & Hreg & ->)|[_ Hreg]]; [|by apply Hinv].
    destruct (ci_workers _ Hinv _ _ Hreg) as [Hid Hrun Hv]. split; [done| |done]. simpl. lia.
  - intros id' r' Hr'. apply lookup_delete_Some in Hr' as [_ Hr'].
    destruct (ci_res _ Hinv _ _ Hr') as [Hk [reg Hw] He Ha Hp]. split; simpl; try done.
    unfold decremented. rewrite lookup_alter_is_Some. by eexists.
  - intros w' reg'. unfold decremented. rewrite lookup_alter_Some.
    rewrite (usage_frame w' _ (set_reservations (delete id (reservations db)) db)) by done.
    rewrite (usage_delete w' _ id r) by done. fold w.
    intros [(<- & reg & Hreg & ->)|[Hne Hreg]].
    + rewrite bool_decide_true by done. simpl. rewrite (ci_count _ Hinv _ _ Hreg). lia.
    + rewrite bool_decide_false by done. rewrite (ci_count _ Hinv _ _ Hreg). lia.
Qed.

Lemma release_tx_inv id guard b db db' :
  release_tx id guard db = Ok (b, db') -> capacity_inv db -> capacity_inv db'.
Proof.
  unfold release_tx. intros H Hinv. db_inv; [done|]. by apply release_inv.
Qed.

(** An execution nothing is reserved for may change hands. *)
Lemma owner_change_inv id row row' db :
  capacity_inv db -> reservations db !! id = None ->
  executions db !! id = Some row ->
  Execution.id (ExecutionRow.execution row') = Execution.id (ExecutionRow.execution row) ->
  capacity_inv (set_executions (<[id := row']> (executions db)) db).
Proof.
  intros Hinv Hn Hrow Hid. split; simpl; [|apply Hinv| |apply Hinv].
  - intros id' q Hq. simpl in Hq. apply lookup_insert_Some in Hq as [[<- <-]|[_ Hq]].
    + rewrite Hid. by apply Hinv.
    + by apply Hinv.
  - intros id' r Hr. destruct (ci_res _ Hinv _ _ Hr) as [Hk Hw (q & Hq & Ho) Ha Hp].
    split; simpl; try done. exists q. rewrite lookup_insert_ne by congruence. done.
Qed.

(** Taking one: the four writes of a claim. *)
Lemma claim_inv db row reg r row' a v :
  capacity_inv db ->
  let id := ReservationRow.execution_id r in
  let w := ReservationRow.worker_id r in
  executions db !! id = Some row -> reservations db !! id = None ->
  execution_attempts db !! ReservationRow.attempt_id r = None ->
  workers db !! w = Some reg -> WorkerRegistration.running_executions reg + 1 <= i32_max ->
  0 < ReservationRow.cpu r /\ 0 < ReservationRow.memory_mib r /\ 0 <= ReservationRow.disk_gib r ->
  Execution.id row' = id -> Execution.worker_id row' = Some w ->
  Execution.attempt_id row' = Some (ReservationRow.attempt_id r) ->
  AttemptRow.execution_id a = id -> AttemptRow.worker_id a = w ->
  capacity_inv (set_workers (<[w := WorkerRegistration.set_running
      (WorkerRegistration.running_executions reg + 1) reg]> (workers db))
    (set_attempts (<[ReservationRow.attempt_id r := a]> (execution_attempts db))
      (set_executions (<[id := {| ExecutionRow.execution := row'; ExecutionRow.version := v |}]>
          (executions db))
        (set_reservations (<[id := r]> (reservations db)) db)))).
Proof.
  intros Hinv id w Hrow Hres Hatt Hreg Hmax Hp Hid Hrw Hra Hae Haw. split; simpl.
  - intros id' q Hq. simpl in Hq. apply lookup_insert_Some in Hq as [[<- <-]|[_ Hq]]; [done|by apply Hinv].
  - intros w' reg'. simpl. rewrite lookup_insert_Some. intros [[<- <-]|[_ Hw']]; [|by apply Hinv].
    destruct (ci_workers _ Hinv _ _ Hreg) as [Hwid Hrun Hv]. split; [done| |done]. simpl. lia.
  - intros id' r'. rewrite lookup_insert_Some. intros [[<- <-]|[Hne Hr']].
    + split; simpl; try done.
      * fold w. rewrite lookup_insert_eq. by eexists.
      * eexists. rewrite lookup_insert_eq. done.
      * exists a. by rewrite lookup_insert_eq.
    + destruct (ci_res _ Hinv _ _ Hr') as [Hk Hw' (q & Hq & Ho) (b & Hb & Hob) Hp']. split; simpl; try done.
      * destruct (decide (w = ReservationRow.worker_id r')) as [<-|];
          [rewrite lookup_insert_eq; by eexists|by rewrite lookup_insert_ne].
      * exists q. by rewrite lookup_insert_ne.
      * exists b. rewrite lookup_insert_ne by congruence. done.
  - intros w' reg'. rewrite lookup_insert_Some.
    rewrite (usage_frame w' _ (set_reservations (<[id := r]> (reservations db)) db)) by done.
    rewrite usage_insert by done. fold w. intros [[<- <-]|[Hne Hw']].
    + rewrite bool_decide_true by done. simpl. by rewrite (ci_count _ Hinv _ _ Hreg).
    + rewrite bool_decide_false by done. rewrite (ci_count _ Hinv _ _ Hw'). lia.
Qed.

(** ** Claims *)

Definition claimed_row (now : Clock) (uuid : string) (w : WorkerId) (e : Execution) : Execution :=
  Execution.set_authority (Some w) (Some ("attempt-" +:+ uuid))
    (OwnershipLabels.set_worker_id w (Execution.labels e))
    (Execution.set_state ExecutionState.WorkerAssigned (utc_now now) e).

Definition claimed_reservation (now : Clock) (uuid : string) (w : WorkerId) (e : Execution) :
  ReservationRow :=
  let runtime := ExecutionManifest.runtime (Execution.manifest e) in {|
  ReservationRow.execution_id := Execution.id e; ReservationRow.worker_id := w;
  ReservationRow.attempt_id := "attempt-" +:+ uuid; ReservationRow.cpu := RuntimeRequirement.cpu runtime;
  ReservationRow.memory_mib := RuntimeRequirement.memory_mib runtime;
  ReservationRow.disk_gib := RuntimeRequirement.disk_gib runtime;
  ReservationRow.created_at := pg_now now |}.

Definition claimed_attempt (w : WorkerId) (e : Execution) : AttemptRow := {|
  AttemptRow.execution_id := Execution.id e; AttemptRow.worker_id := w;
  AttemptRow.state := ExecutionState.WorkerAssigned; AttemptRow.worktree_path := None;
  AttemptRow.session_id := None; AttemptRow.result := None; AttemptRow.finished_at := None |}.

(** What a claim checks and what it leaves. *)
Record claim_effect (now : Clock) (uuid : string) (w : WorkerId) (e : Execution)
    (res : Reservation) (db db' : Database) : Prop := {
  ce_value : res = {| Reservation.execution := claimed_row now uuid w e; Reservation.worker_id := w;
    Reservation.attempt_id := "attempt-" +:+ uuid;
    Reservation.cpu := RuntimeRequirement.cpu (ExecutionManifest.runtime (Execution.manifest e));
    Reservation.memory_mib := RuntimeRequirement.memory_mib (ExecutionManifest.runtime (Execution.manifest e)) |};
  ce_free : reservations db !! Execution.id e = None;
  ce_attempt : execution_attempts db !! ("attempt-" +:+ uuid) = None;
  ce_idle : forall id a, execution_attempts db !! id = Some a -> AttemptRow.finished_at a = None ->
    AttemptRow.execution_id a <> Execution.id e;
  ce_amounts : let r := claimed_reservation now uuid w e in
    0 < ReservationRow.cpu r /\ 0 < ReservationRow.memory_mib r /\ 0 <= ReservationRow.disk_gib r;
  ce_db : exists row reg, executions db !! Execution.id e = Some row /\ workers db !! w = Some reg /\
    WorkerRegistration.running_executions reg + 1 <= i32_max /\
    db' = set_workers (<[w := WorkerRegistration.set_running
        (WorkerRegistration.running_executions reg + 1) reg]> (workers db))
      (set_attempts (<[("attempt-" +:+ uuid) := claimed_attempt w e]> (execution_attempts db))
        (set_executions (<[Execution.id e := {|
            ExecutionRow.execution := Execution.set_authority (Some w) (Some ("attempt-" +:+ uuid))
              (OwnershipLabels.set_worker_id w (Execution.labels e))
              (Execution.set_state ExecutionState.WorkerAssigned (utc_now now) (ExecutionRow.execution row));
            ExecutionRow.version := ExecutionRow.version row + 1 |}]> (executions db))
          (set_reservations (<[Execution.id e := claimed_reservation now uuid w e]> (reservations db)) db)))
}.

Lemma claim_Ok now uuid w e res db db' row reg :
  executions db !! Execution.id e = Some row -> workers db !! w = Some reg ->
  claim now uuid w e db = Ok (res, db') -> claim_effect now uuid w e res db db'.
Proof.
  intros Hrow Hreg. unfold claim. intros Hop. db_inv; guard_facts.
  all: repeat match goal with H : try_from _ _ _ = Some _ |- _ => apply try_from_Some in H as [-> _] end.
  all: try congruence.
  all: try match goal with H : forall row, executions _ !! _ = Some row -> true = false |- _ =>
         by specialize (H _ Hrow) end.
  simplify_eq. split; simpl; try done. by exists row, reg.
Qed.

(** The sums the claim decides on. *)
Lemma reserved_usage_Ok w res db db' :
  reserved_usage w db = Ok (res, db') ->
  db' = db /\ ReservedResources.slots res = usage w (fun _ => 1) db /\
  ReservedResources.cpu res = usage w ReservationRow.cpu db /\
  ReservedResources.memory_mib res = usage w ReservationRow.memory_mib db /\
  ReservedResources.disk_gib res = usage w ReservationRow.disk_gib db.
Proof.
  unfold reserved_usage. intros Hop. tx_inv.
  repeat match goal with H : try_from _ _ _ = Some _ |- _ => apply try_from_Some in H as [-> _] end.
  by rewrite usage_count.
Qed.

(** A successful [reserve_next], taken apart. *)
Lemma reserve_next_claim `{Collation} now locked uuid w db res db' :
  reserve_next now locked uuid w db = (Ok (Some res), db') ->
  keyed db ->
  exists reg worker reserved e row, workers db !! w = Some reg /\ decode_worker reg = Ok worker /\
    reserved_usage w db = Ok (reserved, db) /\
    List.find (fun e => worker_fits_with_reservations worker
       (ExecutionManifest.runtime (Execution.manifest e)) reserved) (claim_queue locked db) = Some e /\
    claimable locked db e = true /\
    executions db !! Execution.id e = Some row /\ ExecutionRow.execution row = e /\
    claim_effect now uuid w e res db db'.
Proof.
  intros Hop Hk. apply transaction_Ok in Hop.
  apply bind_Ok in Hop as (reg0 & db0 & [-> ->]%gets_Ok & Hop).
  apply bind_Ok in Hop as (reg & db0 & [Hreg ->]%require_Ok & Hop).
  apply bind_Ok in Hop as (worker & db0 & [Hdec ->]%lift_Ok & Hop).
  apply bind_Ok in Hop as (reserved & db0 & Hres & Hop).
  destruct (reserved_usage_Ok _ _ _ _ Hres) as (-> & _).
  destruct (_ || _) in Hop; [tx_inv; discriminate|].
  apply bind_Ok in Hop as (queue & db0 & [-> ->]%gets_Ok & Hop).
  destruct (List.find _ _) as [e|] eqn:Hf in Hop; [|tx_inv; discriminate].
  apply bind_Ok in Hop as (res' & db1 & Hcl & Hop). tx_inv.
  pose proof Hf as Hin. apply List.find_some in Hin as [Hin _]. apply list_elem_of_In in Hin.
  apply claim_queue_spec in Hin as (Hc & row & Hrow & He); [|done].
  exists reg, worker, reserved, e, row. split_and!; try done. by eapply claim_Ok.
Qed.

Lemma reserve_next_cases `{Collation} now locked uuid w db r db' :
  reserve_next now locked uuid w db = (r, db') ->
  db' = db \/ exists res, r = Ok (Some res).
Proof.
  unfold reserve_next, transaction.
  match goal with |- context [match ?m with Ok _ => _ | Err _ => _ end] => destruct m as [[r' db1]|err] eqn:E end;
    intros [= <- <-]; [|by left].
  apply bind_Ok in E as (reg0 & db0 & [-> ->]%gets_Ok & Hop).
  apply bind_Ok in Hop as (reg & db0 & [Hreg ->]%require_Ok & Hop).
  apply bind_Ok in Hop as (worker & db0 & [Hdec ->]%lift_Ok & Hop).
  apply bind_Ok in Hop as (reserved & db0 & Hres & Hop).
  destruct (reserved_usage_Ok _ _ _ _ Hres) as (-> & _).
  destruct (_ || _) in Hop; [tx_inv; by left|].
  apply bind_Ok in Hop as (queue & db0 & [-> ->]%gets_Ok & Hop).
  destruct (List.find _ _) as [e|] eqn:Hf in Hop; [|tx_inv; by left].
  apply bind_Ok in Hop as (res' & db2 & Hcl & Hop). tx_inv. right. by eexists.
Qed.

Lemma claim_effect_inv now uuid w e res db db' :
  capacity_inv db -> claim_effect now uuid w e res db db' ->
  (forall row, executions db !! Execution.id e = Some row -> ExecutionRow.execution row = e) ->
  capacity_inv db'.
Proof.
  intros Hinv [_ Hfree Hatt _ Hp (row & reg & Hrow & Hreg & Hmax & ->)] He.
  specialize (He row Hrow).
  apply (claim_inv db row reg (claimed_reservation now uuid w e) _ (claimed_attempt w e)); try done.
  simpl. by rewrite He.
Qed.

Lemma reserve_next_inv `{Collation} now locked uuid w db r db' :
  reserve_next now locked uuid w db = (r, db') -> capacity_inv db -> capacity_inv db'.
Proof.
  intros Hop Hinv. destruct (reserve_next_cases _ _ _ _ _ _ _ Hop) as [->|[res ->]]; [done|].
  destruct (reserve_next_claim _ _ _ _ _ _ _ Hop (ci_keyed _ Hinv))
    as (reg & worker & reserved & e & row & _ & _ & _ & _ & _ & Hrow & He & Heff).
  eapply claim_effect_inv; [done..|]. intros q Hq. by simplify_eq.
Qed.

(** ** Retention and finalization *)

Lemma quiet_authorities t db : quiet db (set_authorities t db).
Proof. by apply quiet_other. Qed.

Lemma transaction_inv {A} (body : Tx (result StoreError A)) db r db' :
  transaction body db = (r, db') ->
  (forall r', body db = Ok (r', db') -> capacity_inv db') -> capacity_inv db -> capacity_inv db'.
Proof.
  unfold transaction. destruct (body db) as [[r' db1]|e] eqn:E; intros [= <- <-] Hb; [|done].
  intros _. by eapply Hb.
Qed.

Lemma commit_retained_inv now id a db r db' :
  commit_retained_and_release_capacity now id a db = (r, db') -> capacity_inv db -> capacity_inv db'.
Proof.
  intros Hop Hinv. eapply transaction_inv; [exact Hop| |done]. clear Hop. intros r' Hop.
  db_inv; simplify_eq; try done; bools; subst.
  all: try match goal with Hr : reservations _ !! ?i = Some ?r |- _ =>
         pose proof (release_inv i r _ Hinv Hr) as Hrel end.
  all: try match goal with Hw : ReservationRow.worker_id _ = _ |- _ => rewrite Hw in Hrel end.
  all: first [ exact Hrel
    | eapply quiet_inv; [apply quiet_authorities|apply Hrel|exact Hrel]
    | eapply quiet_inv; [apply quiet_authorities|apply Hinv|exact Hinv] ].
Qed.

(** The two writes that end an attempt, seen after its reservation is gone. *)
Lemma finalize_rows_inv id attempt_id db (fe : Execution -> Execution) (fa : AttemptRow -> AttemptRow)
    n1 n2 db1 db2 :
  capacity_inv db ->
  (forall r, reservations db !! id = Some r -> ReservationRow.attempt_id r <> attempt_id) ->
  (forall e, Execution.id (fe e) = Execution.id e) -> (forall a, same_attempt a (fa a)) ->
  update_execution id
    (fun r => bool_decide (Execution.attempt_id (ExecutionRow.execution r) = Some attempt_id)) fe db = Ok (n1, db1) ->
  update_attempt attempt_id (fun a => bool_decide (AttemptRow.execution_id a = id)) fa db1 = Ok (n2, db2) ->
  capacity_inv db2.
Proof.
  intros Hinv Hno Hfe Hfa H1 H2.
  assert (capacity_inv db1) as Hinv1.
  { apply update_execution_Ok in H1 as [(_ & -> & _)|(_ & row & Hrow & Hg & ->)]; [done|].
    eapply owner_change_inv; [done| |done|apply Hfe]. bools.
    destruct (reservations db !! id) as [r|] eqn:Hr; [|done]. exfalso.
    destruct (ro_execution _ _ _ (ci_res _ Hinv _ _ Hr)) as (q & Hq & _ & Ha). simplify_eq.
    apply (Hno r eq_refl). congruence. }
  eapply quiet_inv; [| |done].
  - by eapply update_attempt_quiet.
  - apply update_attempt_Ok in H2 as [(_ & -> & _)|(_ & a & _ & _ & ->)]; apply Hinv1.
Qed.

(** The deletion and the row writes of [finalize_writes] commute: they touch
    different tables. *)
Lemma finalize_writes_inv now id attempt_id w execution f db u db' :
  capacity_inv db ->
  (forall r, reservations db !! id = Some r -> ReservationRow.attempt_id r = attempt_id ->
     ReservationRow.worker_id r = w) ->
  finalize_writes now id attempt_id w execution f db = Ok (u, db') -> capacity_inv db'.
Proof.
  intros Hinv Hw Hop. unfold finalize_writes in Hop.
  apply bind_Ok in Hop as (n1 & db1 & H1 & Hop). apply bind_Ok in Hop as (n2 & db2 & H2 & Hop).
  apply bind_Ok in Hop as (deleted & db3 & H3 & Hop). apply bind_Ok in Hop as ([] & db4 & H4 & Hop).
  assert (Hres : reservations db2 = reservations db /\ workers db2 = workers db).
  { clear - H1 H2. db_inv; done. }
  assert (capacity_inv db4) as Hinv4.
  { apply delete_reservation_Ok in H3 as [(-> & -> & Hnone)|(r & -> & Hr & Hg & ->)].
    - rewrite bool_decide_false in H4 by (intros [? ?]; done). apply when_Ok in H4 as [[? _]|[_ ->]]; [done|].
      rewrite (proj1 Hres) in Hnone.
      eapply finalize_rows_inv; [exact Hinv| | | |exact H1|exact H2]; [|done|done].
      intros r Hr Ha. specialize (Hnone r Hr). unfold has_attempt in Hnone. bools. done.
    - rewrite bool_decide_true in H4 by done. apply when_Ok in H4 as [[_ H4]|[? _]]; [|done].
      unfold decrement_running in H4. apply modify_Ok in H4 as ->.
      unfold has_attempt in Hg. bools. rewrite (proj1 Hres) in Hr.
      pose proof (release_inv id r db Hinv Hr) as Hrel. rewrite (Hw r Hr Hg) in Hrel.
      match type of Hrel with capacity_inv ?d => set (rdb := d) in Hrel end.
      assert (Hn : reservations rdb !! id = None) by apply lookup_delete_eq.
      apply update_execution_Ok in H1 as [(_ & -> & _)|(_ & row & Hrow & _ & ->)];
      apply update_attempt_Ok in H2 as [(_ & -> & _)|(_ & a & Ha & _ & ->)].
      + exact Hrel.
      + by eapply (quiet_inv rdb); [eapply (quiet_attempt attempt_id a _ rdb)|apply Hrel|].
      + by eapply (owner_change_inv id row _ rdb).
      + eapply (quiet_inv (set_executions (<[id := _]> (executions rdb)) rdb)).
        * by eapply (quiet_attempt attempt_id a _ (set_executions (<[id := _]> (executions rdb)) rdb)).
        * by eapply (owner_change_inv id row _ rdb).
        * by eapply (owner_change_inv id row _ rdb). }
  assert (quiet db4 db') as Hq.
  { match type of Hop with ?m db4 = _ => assert (tx_rel quiet m) as Hm; [|by eapply Hm] end.
    tx_rel_solve quiet_stmt. }
  eapply quiet_inv; [done| |done].
  clear - Hop Hinv4. intros i row Hrow. apply (ci_keyed _ Hinv4).
  rewrite <- Hrow. symmetry. f_equal. db_inv; done.
Qed.

Lemma finalize_cleanup_inv now id a db r db' :
  finalize_cleanup now id a db = (r, db') -> capacity_inv db -> capacity_inv db'.
Proof.
  intros Hop Hinv. eapply transaction_inv; [exact Hop| |done]. clear Hop. intros r' Hop.
  apply bind_Ok in Hop as (row & db0 & [Hrow ->]%select_execution_Ok & Hop).
  apply bind_Ok in Hop as (au & db0 & [-> ->]%gets_Ok & Hop).
  apply bind_Ok in Hop as (authority & db0 & [Hau ->]%require_Ok & Hop).
  apply bind_Ok in Hop as (at0 & db0 & [-> ->]%gets_Ok & Hop).
  apply bind_Ok in Hop as (attempt & db0 & [Hat ->]%require_Ok & Hop).
  apply bind_Ok in Hop as (u & db0 & [Hw ->]%ensure_Ok & Hop).
  destruct (bool_decide (CleanupAuthority.phase authority = _)) in Hop; [by tx_inv|].
  apply bind_Ok in Hop as (res & db0 & [-> ->]%gets_Ok & Hop).
  apply bind_Ok in Hop as (u1 & db0 & [_ ->]%ensure_Ok & Hop).
  apply bind_Ok in Hop as (u2 & db0 & Hmatch & Hop).
  apply bind_Ok in Hop as (pending & db1 & [-> ->]%gets_Ok & Hop).
  apply bind_Ok in Hop as (u3 & db1 & Hwrites & Hop). tx_inv.
  assert (db0 = db /\ forall q, reservations db !! id = Some q -> ReservationRow.attempt_id q = a ->
    ReservationRow.worker_id q = CleanupAuthority.worker_id authority) as [-> Hq].
  { destruct (reservations db !! id) as [q|] eqn:Eq; [|by tx_inv].
    unfold has_attempt in Hmatch. case_bool_decide.
    - tx_inv. bools. split; [done|]. intros ? [= <-] _. done.
    - tx_inv. split; [done|]. intros ? [= <-] ?. done. }
  by eapply finalize_writes_inv.
Qed.

Ltac capacity_quiet :=
  match goal with
  | H : _ = (_, _) |- quiet _ _ =>
      revert H; apply (tx_rel_transaction quiet);
      tx_rel_solve ltac:(first [apply recover_loop_quiet | quiet_stmt])
  end.

(** The operations whose frames are lemmas. *)
Lemma append_quiet ev db r db' : append ev db = (r, db') -> quiet db db'.
Proof.
  intros Hop. apply quiet_other; [by eapply (append_op_frame reservations)|by eapply (append_op_frame workers)
    |by eapply (append_op_frame executions)|by eapply (append_op_frame execution_attempts)].
Qed.

Lemma cleanup_transition_quiet now id d d' h db r db' : CleanupStore.transition now id d d' h db = (r, db') -> quiet db db'.
Proof.
  intros Hop. apply quiet_other; [by eapply (cleanup_transition_frame reservations)|by eapply (cleanup_transition_frame workers)
    |by eapply (cleanup_transition_frame executions)|by eapply (cleanup_transition_frame execution_attempts)].
Qed.

Lemma checkpoint_quiet now id p h db r db' : checkpoint now id p h db = (r, db') -> quiet db db'.
Proof.
  intros Hop. apply quiet_other; [by eapply (checkpoint_frame reservations)|by eapply (checkpoint_frame workers)
    |by eapply (checkpoint_frame executions)|by eapply (checkpoint_frame execution_attempts)].
Qed.

Lemma advance_quiet now id p db r db' : advance now id p db = (r, db') -> quiet db db'.
Proof.
  intros Hop. apply quiet_other; [by eapply (advance_frame reservations)|by eapply (advance_frame workers)
    |by eapply (advance_frame executions)|by eapply (advance_frame execution_attempts)].
Qed.

Lemma step_capacity `{Collation} db db' : step db db' -> capacity_inv db -> capacity_inv db'.
Proof.
  intros Hstep Hinv.
  pose proof (execs_step_keyed _ _ (step_execs _ _ (ci_keyed _ Hinv) Hstep) (ci_keyed _ Hinv)) as Hk.
  destruct Hstep as (A & op & r & Hop & Heq). destruct Hop.
  all: try (first [by eapply register_inv | by eapply heartbeat_inv | by eapply mark_stale_inv
    | by eapply reserve_next_inv | by eapply commit_retained_inv | by eapply finalize_cleanup_inv]).
  all: try (eapply transaction_inv; [exact Heq| |done]; intros r' Hb;
            apply bind_Ok in Hb as (b & db1 & Hrel & Hb); tx_inv; by eapply release_tx_inv).
  all: eapply quiet_inv; [|done|done].
  all: try by eapply record_progress_quiet.
  all: first [ by eapply append_quiet | by eapply cleanup_transition_quiet
    | by eapply checkpoint_quiet | by eapply advance_quiet | capacity_quiet ].
Qed.

Lemma empty_capacity : capacity_inv empty_database.
Proof.
  split.
  - intros id row. simpl. by rewrite lookup_empty.
  - apply empty_workers_ok.
  - intros id r. simpl. by rewrite lookup_empty.
  - intros w reg. simpl. by rewrite lookup_empty.
Qed.

Lemma reachable_capacity `{Collation} db : reachable db -> capacity_inv db.
Proof.
  unfold reachable. revert db. refine (rtc_ind_r _ empty_database _ _).
  - apply empty_capacity.
  - intros db1 db2 _ H12 IH. by eapply step_capacity.
Qed.

(** C1: the books balance.  In every database the stores can reach, a worker's
    [running_executions] is the number of reservations that name it, and every
    reservation belongs to a registered worker, to an execution that is
    assigned to that worker and attempt, and to an attempt row of that
    execution and worker. *)
Theorem capacity_accounting `{Collation} (db : Database) :
  reachable db ->
  (forall w reg, workers db !! w = Some reg ->
     WorkerRegistration.running_executions reg = Z.of_nat (length (reservations_of w db))) /\
  (forall id r, reservations db !! id = Some r -> res_ok db id r).
Proof.
  intros Hinv%reachable_capacity. split.
  - intros w reg Hw. rewrite <- usage_count. by apply Hinv.
  - apply Hinv.
Qed.

(** A claim leaves room: what [worker_fits_with_reservations] checked is what
    the sums are afterwards. *)
Lemma claim_usage now uuid w e res db db' f :
  claim_effect now uuid w e res db db' ->
  usage w f db' = usage w f db + f (claimed_reservation now uuid w e).
Proof.
  intros [_ Hfree _ _ _ (row & reg & _ & _ & _ & ->)].
  rewrite (usage_frame w f (set_reservations
    (<[Execution.id e := claimed_reservation now uuid w e]> (reservations db)) db)) by done.
  rewrite usage_insert by done. by rewrite bool_decide_true.
Qed.

Lemma fits_room worker req reserved :
  worker_fits_with_reservations worker req reserved = true ->
  WorkerRegistration.state worker = WorkerState.Ready /\
  ReservedResources.slots reserved <
    WorkerCapabilities.max_concurrent_executions (WorkerRegistration.capabilities worker) /\
  (0 < RuntimeRequirement.cpu req -> ReservedResources.cpu reserved + RuntimeRequirement.cpu req <=
     WorkerCapabilities.cpu (WorkerRegistration.capabilities worker)) /\
  (0 < RuntimeRequirement.memory_mib req ->
     ReservedResources.memory_mib reserved + RuntimeRequirement.memory_mib req <=
     WorkerCapabilities.memory_mib (WorkerRegistration.capabilities worker)) /\
  (0 < RuntimeRequirement.disk_gib req ->
     ReservedResources.disk_gib reserved + RuntimeRequirement.disk_gib req <=
     WorkerCapabilities.disk_gib (WorkerRegistration.capabilities worker)).
Proof.
  unfold worker_fits_with_reservations. cbv zeta.
  rewrite !if_false, !orb_false_iff, !negb_false_iff, !bool_decide_eq_true, !Z.ltb_ge, Z.leb_gt.
  intros (((? & ?) & ?) & _ & _ & _ & ((? & ?) & ?) & _). split_and!; try done; intros;
    by apply saturating_sub_le.
Qed.

(** C2: a claim never overcommits a worker and never jumps the queue.  When
    [reserve_next] hands out an execution, the worker is ready, its reservations
    afterwards fit its slots, its CPUs and its memory (and its disk, when the
    execution asks for any), the execution was queued, not being cancelled and
    not under cleanup, and every claimable execution ahead of it in creation
    order did not fit. *)
Theorem reserve_next_sound `{Collation} (now : Clock) (locked : ExecutionId -> bool) (uuid : string)
    (w : WorkerId) (db db' : Database) (res : Reservation) :
  reachable db -> reserve_next now locked uuid w db = (Ok (Some res), db') ->
  exists reg e before after,
    workers db !! w = Some reg /\
    WorkerRegistration.state reg = WorkerState.Ready /\
    claim_queue locked db = before ++ e :: after /\ claimable locked db e = true /\
    Reservation.execution res = claimed_row now uuid w e /\
    (forall e', e' ∈ before -> worker_fits_with_reservations reg
       (ExecutionManifest.runtime (Execution.manifest e')) {|
         ReservedResources.slots := usage w (fun _ => 1) db;
         ReservedResources.cpu := usage w ReservationRow.cpu db;
         ReservedResources.memory_mib := usage w ReservationRow.memory_mib db;
         ReservedResources.disk_gib := usage w ReservationRow.disk_gib db |} = false) /\
    let caps := WorkerRegistration.capabilities reg in
    usage w (fun _ => 1) db' <= WorkerCapabilities.max_concurrent_executions caps /\
    usage w ReservationRow.cpu db' <= WorkerCapabilities.cpu caps /\
    usage w ReservationRow.memory_mib db' <= WorkerCapabilities.memory_mib caps /\
    (0 < RuntimeRequirement.disk_gib (ExecutionManifest.runtime (Execution.manifest e)) ->
     usage w ReservationRow.disk_gib db' <= WorkerCapabilities.disk_gib caps).
Proof.
  intros Hinv%reachable_capacity Hop.
  destruct (reserve_next_claim _ _ _ _ _ _ _ Hop (ci_keyed _ Hinv))
    as (reg & worker & reserved & e & row & Hreg & Hdec & Hres & Hfind & Hc & Hrow & He & Heff).
  rewrite (decode_worker_ok w reg) in Hdec by by apply Hinv. injection Hdec as <-.
  destruct (reserved_usage_Ok _ _ _ _ Hres) as (_ & Hs & Hcpu & Hmem & Hdisk).
  apply find_split in Hfind as (before & after & Hq & Hbefore & Hfits).
  apply fits_room in Hfits as (Hready & Hslots & Fcpu & Fmem & Fdisk).
  rewrite Hs in Hslots. rewrite Hcpu in Fcpu. rewrite Hmem in Fmem. rewrite Hdisk in Fdisk.
  destruct (ce_amounts _ _ _ _ _ _ _ Heff) as (Pcpu & Pmem & _). simpl in Pcpu, Pmem.
  exists reg, e, before, after. rewrite !(claim_usage _ _ _ _ _ _ _ _ Heff).
  split_and!; try done; simpl; try lia.
  - by rewrite (ce_value _ _ _ _ _ _ _ Heff).
  - intros e' He'. specialize (Hbefore e' He'). destruct reserved. simpl in *. by subst.
Qed.

Lemma capacity_accounting_witness :
  length (reservations_of "w-1" run_reserved) = 1%nat /\
  forall reg, workers run_reserved !! "w-1" = Some reg ->
    WorkerRegistration.running_executions reg = 1.
Proof.
  split; [vm_compute; reflexivity|]. intros reg Hreg.
  rewrite (proj1 (capacity_accounting run_reserved run_reserved_reachable) "w-1" reg Hreg).
  vm_compute. reflexivity.
Defined.

Lemma reserve_next_sound_witness :
  exists res, (reserve_next run_clock (fun _ => false) "u1" "w-1" run_registered).1 = Ok (Some res) /\
    usage "w-1" ReservationRow.cpu run_reserved <= 8.
Proof.
  set (out := (reserve_next run_clock (fun _ => false) "u1" "w-1" run_registered).1).
  vm_compute in out.
  match goal with out := Ok (Some ?r) |- _ =>
    exists r; split; [reflexivity|];
    destruct (reserve_next_sound run_clock (fun _ => false) "u1" "w-1" run_registered run_reserved r)
      as (reg & e & before & after & Hreg & _ & _ & _ & _ & _ & _ & Hcpu & _) end.
  - apply run_registered_reachable.
  - vm_compute. reflexivity.
  - vm_compute in Hreg. injection Hreg as <-. exact Hcpu.
Defined.
