(* ===== verification/EventHistory.v ===== *)
(** * The event history and the second attempt

    The event log is append-only and gapless in every history.  The second part
    follows an execution whose worker was lost past its requeue, to the attempt
    that should take it over. *)

From S2P Require Import Prelude Core WorkerTypes Scheduler Database EventLog CleanupStore WorkerStore ExecutionStore Controls Reservations Steps AuthorityOrder ExecutionHistory Capacity.
















(** The log grows, and stays gapless if it was. *)
Definition log_grows (db db' : Database) : Prop :=
  (exists new, execution_events db' = execution_events db ++ new) /\ (log_ok db -> log_ok db').

#[export] Instance log_grows_preorder : PreOrder log_grows.
Proof.
  split.
  - intros db. split; [|done]. exists []. by rewrite app_nil_r.
  - intros db1 db2 db3 [[n1 E1] L1] [[n2 E2] L2]. split; [|auto].
    exists (n1 ++ n2). by rewrite E2, E1, app_assoc.
Qed.

Lemma log_grows_frame db db' : execution_events db' = execution_events db -> log_grows db db'.
Proof.
  intros E. split; [exists []; by rewrite E, app_nil_r|]. unfold log_ok, gapless. by rewrite E.
Qed.

Lemma append_grows ev : tx_rel log_grows (append_in_transaction ev).
Proof.
  intros db n db' Hop. split.
  - destruct (append_in_transaction_Ok _ _ _ _ Hop) as [_ ->]. by eexists.
  - intros Hok. by eapply append_log_ok.
Qed.

Ltac log_stmt :=
  first [ apply append_grows
        | intros ? ? ? ?; apply log_grows_frame; db_inv; reflexivity
        | intros ? ? ? ?; apply log_grows_frame; by eapply (recover_loop_frame execution_events) ].

Lemma append_op_grows ev db r db' : append ev db = (r, db') -> log_grows db db'.
Proof.
  assert (H1 : forall db r db', append_once ev db = (r, db') -> log_grows db db').
  { intros ???. apply (tx_rel_transaction log_grows). tx_rel_solve log_stmt. }
  unfold append. destruct (append_once ev db) as [[n|e] db1] eqn:E.
  - intros [= <- <-]. by eapply H1.
  - apply H1 in E. destruct e; intros Hop; simplify_eq; try exact E.
    apply H1 in Hop. by etrans.
Qed.

Lemma step_log `{Collation} db db' : step db db' -> log_grows db db'.
Proof.
  intros (A & op & r & Hop & Heq). destruct Hop.
  all: try (by eapply append_op_grows).
  all: try (apply log_grows_frame; unfold heartbeat, mark_stale_before in Heq;
            repeat case_match; simplify_eq; reflexivity).
  all: try (apply log_grows_frame; first [by eapply (cleanup_transition_frame execution_events)
    | by eapply (checkpoint_frame execution_events) | by eapply (advance_frame execution_events)]).
  all: revert Heq; apply (tx_rel_transaction log_grows); tx_rel_solve log_stmt.
Qed.

Lemma steps_log `{Collation} db db' : rtc step db db' -> log_grows db db'.
Proof. induction 1 as [|db1 db2 db3 H12 _ IH]; [done|]. etrans; [by apply step_log|done]. Qed.

Lemma empty_log_ok : log_ok empty_database.
Proof. by intros id. Qed.

(** The events of [id] in [db'] are those of [db] and then new ones. *)
Definition events_extend (id : ExecutionId) (db db' : Database) : Prop :=
  exists new, events_of id (execution_events db') = events_of id (execution_events db) ++ new.

(** C6: the history of an execution is complete and immutable.  In every
    database the stores can reach, the events of an execution are numbered 1, 2,
    3, ... without a gap, so a reader that has seen number [n] misses nothing by
    asking for what follows [n]; and a later database still has every event it
    had, in the same order, with the new ones after them. *)
Theorem event_history_append_only `{Collation} (db db' : Database) (id : ExecutionId) :
  reachable db -> rtc step db db' ->
  gapless (execution_events db') id /\
  events_extend id db db' /\
  latest_sequence id db' =
    (if decide (Z.of_nat (length (events_of id (execution_events db'))) <= u64_max)
     then Ok (Z.of_nat (length (events_of id (execution_events db'))))
     else Err (StoreError.Conflict "negative event sequence")).
Proof.
  intros Hr Hs. destruct (steps_log _ _ Hs) as [[new Hnew] Hok].
  assert (Hok' : log_ok db') by (apply Hok, (steps_log _ _ Hr), empty_log_ok).
  split_and!; [apply Hok'| |].
  - exists (events_of id new). by rewrite Hnew, events_of_app.
  - unfold latest_sequence. rewrite (max_sequence_gapless _ _ (Hok' id)).
    unfold try_from. case_decide as Hd; [rewrite (proj2 (Z.leb_le _ u64_max) Hd)|
      rewrite (proj2 (Z.leb_gt _ u64_max)) by lia]; destruct (Z.leb_spec 0 (Z.of_nat
        (length (events_of id (execution_events db'))))); (done || lia).
Qed.

Lemma event_history_append_only_witness :
  gapless (execution_events run_resolved) "e-1" /\
  List.map ExecutionEvent.sequence (events_of "e-1" (execution_events run_resolved)) = [1; 2].
Proof.
  split; [|vm_compute; reflexivity].
  apply (event_history_append_only run_resolved run_resolved "e-1" run_resolved_reachable).
  apply rtc_refl.
Defined.

(** ** After a requeue *)

(** The error [begin] returns for an authority it does not own. *)
Definition another_attempt (id : ExecutionId) : StoreError :=
  StoreError.Conflict ("cleanup authority for " +:+ id +:+ " belongs to another attempt").

(** C38: a requeued execution cannot be run again.  When [reserve_next] claims
    an execution that already has a cleanup authority (which, the claim query
    guarantees, is RESOLVED: an earlier attempt was cleaned up and the
    execution requeued), then [begin], the first thing the worker does with the
    claim, fails for the new attempt in every later database, because the row
    of the earlier attempt is never removed or handed over. *)
Theorem requeued_attempt_cannot_begin `{Collation} (now now' : Clock) (locked : ExecutionId -> bool)
    (uuid : string) (w w' : WorkerId) (db db' db2 : Database) (res : Reservation) (c : CleanupAuthority) :
  let id := Execution.id (Reservation.execution res) in
  reachable db -> reserve_next now locked uuid w db = (Ok (Some res), db') ->
  cleanup_authorities db !! id = Some c ->
  CleanupAuthority.attempt_id c <> Reservation.attempt_id res ->
  rtc step db' db2 ->
  CleanupAuthority.phase c = "RESOLVED"%string /\
  begin now' id (Reservation.attempt_id res) w' db2 =
    (Err (another_attempt id), db2).
Proof.
  intros id Hr Hop Hc Hne Hs. pose proof (reachable_capacity db Hr) as Hinv.
  assert (Hstep : rtc step db db2).
  { eapply rtc_l; [|exact Hs]. exists _, (reserve_next now locked uuid w), (Ok (Some res)).
    split; [constructor|done]. }
  destruct (reserve_next_claim _ _ _ _ _ _ _ Hop (ci_keyed _ Hinv))
    as (reg & worker & reserved & e & row & _ & _ & _ & _ & Hcl & _ & _ & Heff).
  assert (Hid : id = Execution.id e) by (unfold id; by rewrite (ce_value _ _ _ _ _ _ _ Heff)).
  split.
  - unfold claimable in Hcl. rewrite <- Hid, Hc in Hcl. bools. tauto.
  - destruct (steps_authorities _ _ _ _ Hstep Hc) as (c2 & Hc2 & _ & Ha & _ & _).
    unfold begin, transaction, mbind, stm_bind, upsert_authority, mbind, stm_bind, gets.
    rewrite Hc2. unfold update_authority, mbind, stm_bind, gets. rewrite Hc2.
    unfold owned_by. rewrite (bool_decide_false (CleanupAuthority.attempt_id c2 = _)) by congruence.
    done.
Qed.

Lemma requeued_attempt_cannot_begin_witness :
  (begin run_clock "e-1" "attempt-u2" "w-1" run_reserved_again).1 =
    Err (StoreError.Conflict "cleanup authority for e-1 belongs to another attempt").
Proof.
  set (out := (reserve_next run_clock (fun _ => false) "u2" "w-1" run_resolved).1).
  vm_compute in out.
  set (au := cleanup_authorities run_resolved !! "e-1"). vm_compute in au.
  match goal with out := Ok (Some ?r), au := Some ?c |- _ =>
    destruct (requeued_attempt_cannot_begin run_clock run_clock (fun _ => false) "u2" "w-1" "w-1"
      run_resolved run_reserved_again run_reserved_again r c) as [_ Hb] end.
  - apply run_resolved_reachable.
  - vm_compute. reflexivity.
  - vm_compute. reflexivity.
  - vm_compute. discriminate.
  - apply rtc_refl.
  - exact (f_equal fst Hb).
Defined.
