(* ===== verification/Attempts.v ===== *)
(** * Fencing

    An attempt that was finished, by its own report or by the recovery of a
    lost worker, is finished for good: nothing reopens it, and nothing it
    reports is accepted any more. *)

From S2P Require Import Prelude Core WorkerTypes Scheduler Database EventLog CleanupStore WorkerStore ExecutionStore Controls Reservations Steps ExecutionHistory Capacity.
















(** How an attempt row may change. *)
Definition attempt_later (a a' : AttemptRow) : Prop :=
  same_attempt a a' /\ (is_Some (AttemptRow.finished_at a) -> is_Some (AttemptRow.finished_at a')).

#[export] Instance attempt_later_preorder : PreOrder attempt_later.
Proof.
  split; [intros a|intros a b c [[??] ?] [[??] ?]]; repeat split; try congruence; tauto.
Qed.

Definition attempts_later (db db' : Database) : Prop :=
  forall id a, execution_attempts db !! id = Some a ->
    exists a', execution_attempts db' !! id = Some a' /\ attempt_later a a'.

#[export] Instance attempts_later_preorder : PreOrder attempts_later.
Proof.
  split.
  - intros db id a Ha. exists a. done.
  - intros db1 db2 db3 H12 H23 id a Ha. destruct (H12 id a Ha) as (a2 & Ha2 & Hl).
    destruct (H23 id a2 Ha2) as (a3 & Ha3 & Hl'). exists a3. split; [done|]. by etrans.
Qed.

Lemma attempts_later_frame db db' :
  execution_attempts db' = execution_attempts db -> attempts_later db db'.
Proof. intros E id a Ha. exists a. by rewrite E. Qed.

Lemma attempts_later_write id a a' db :
  execution_attempts db !! id = Some a -> attempt_later a a' ->
  attempts_later db (set_attempts (<[id := a']> (execution_attempts db)) db).
Proof.
  intros Ha Hl id' q Hq. simpl. destruct (decide (id = id')) as [<-|Hne].
  - simplify_eq. exists a'. by rewrite lookup_insert_eq.
  - exists q. by rewrite lookup_insert_ne.
Qed.

Lemma update_attempt_later id guard f :
  (forall a, guard a = true -> attempt_later a (f a)) -> tx_rel attempts_later (update_attempt id guard f).
Proof.
  intros Hf db n db' [(_ & -> & _)|(_ & a & Ha & Hg & ->)]%update_attempt_Ok; [done|].
  eapply attempts_later_write; [done|by apply Hf].
Qed.

Lemma insert_attempt_later id a : tx_rel attempts_later (insert_attempt id a).
Proof.
  intros db u db' (Hn & _ & ->)%insert_attempt_Ok id' q Hq. simpl. exists q.
  rewrite lookup_insert_ne by congruence. done.
Qed.

Ltac attempt_stmt :=
  first [ apply update_attempt_later; intros; by (split; [|try (intros [? ->])])
        | apply insert_attempt_later
        | intros ? ? ? ?; apply attempts_later_frame; db_inv; reflexivity ].

Lemma recover_loop_later now w rows : tx_rel attempts_later (recover_loop now w rows).
Proof.
  induction rows as [|[r e] rows IH]; simpl; [apply tx_rel_ret; apply _|].
  tx_rel_solve ltac:(first [apply IH | attempt_stmt]).
Qed.

(** A progress report writes an attempt it has just found unfinished. *)
Lemma record_progress_later now e ev retention db r db' :
  record_progress_with now e ev retention db = (r, db') -> attempts_later db db'.
Proof.
  unfold record_progress_with, transaction.
  destruct ((progress_guards e ev ≫= _) db) as [[r' db1]|err] eqn:E; intros [= <- <-]; [|done].
  apply bind_Ok in E as ([[row a] w] & db0 & Hg & E).
  assert (db0 = db /\ is_active_attempt (Execution.id e) a w db = true) as [-> Hact].
  { clear E. unfold progress_guards in Hg. db_inv. done. }
  apply bind_Ok in E as (n & db2 & Hu & E).
  assert (Hsame : execution_attempts db2 = execution_attempts db).
  { clear E. db_inv; done. }
  apply bind_Ok in E as (u & db3 & [_ ->]%ensure_Ok & E).
  apply bind_Ok in E as (n' & db4 & Ha & E).
  transitivity db4.
  - apply update_attempt_Ok in Ha as [(_ & -> & _)|(_ & q & Hq & _ & ->)]; [by apply attempts_later_frame|].
    transitivity db2; [by apply attempts_later_frame|].
    eapply attempts_later_write; [done|]. split; [done|].
    unfold is_active_attempt in Hact. rewrite <- Hsame, Hq in Hact. bools. destruct Hact as [_ ->].
    by intros [].
  - revert E. generalize (n' =? 1). clear. intros b E.
    match type of E with ?m db4 = _ => assert (tx_rel attempts_later m) as Hm; [|by eapply Hm] end.
    tx_rel_solve attempt_stmt.
Qed.

Lemma step_attempts `{Collation} db db' : step db db' -> attempts_later db db'.
Proof.
  intros (A & op & r & Hop & Heq). destruct Hop.
  all: try (by eapply record_progress_later).
  all: try (apply attempts_later_frame; unfold heartbeat, mark_stale_before in Heq;
            repeat case_match; simplify_eq; reflexivity).
  all: try (apply attempts_later_frame; first [by eapply (cleanup_transition_frame execution_attempts)
    | by eapply (checkpoint_frame execution_attempts) | by eapply (advance_frame execution_attempts)
    | by eapply (append_op_frame execution_attempts)]).
  all: revert Heq; apply (tx_rel_transaction attempts_later);
    tx_rel_solve ltac:(first [apply recover_loop_later | attempt_stmt]).
Qed.

Lemma steps_attempts `{Collation} db db' : rtc step db db' -> attempts_later db db'.
Proof. induction 1 as [|db1 db2 db3 H12 _ IH]; [done|]. etrans; [by apply step_attempts|done]. Qed.

(** ** Recovering a lost worker *)

Lemma fence_attempt_finishes now id a w n db db' :
  fence_attempt now id a w db = Ok (n, db') ->
  (exists q, execution_attempts db !! a = Some q /\ AttemptRow.execution_id q = id /\
     AttemptRow.worker_id q = w) ->
  exists q', execution_attempts db' !! a = Some q' /\ is_Some (AttemptRow.finished_at q').
Proof.
  intros Hop (q & Hq & He & Hw).
  apply update_attempt_Ok in Hop as [(_ & -> & Hg)|(_ & q' & Hq' & _ & ->)].
  - exists q. split; [done|]. specialize (Hg q Hq). rewrite !bool_decide_true in Hg by done.
    bools. destruct Hg as [[?|?]|Hf]; [done..|]. by destruct (AttemptRow.finished_at q).
  - eexists. split; [apply lookup_insert_eq|]. by eexists.
Qed.

Lemma fence_attempt_later now id a w : tx_rel attempts_later (fence_attempt now id a w).
Proof. apply update_attempt_later. intros q _. split; [done|]. by eexists. Qed.

Lemma recover_loop_fences now w rows db l db' :
  recover_loop now w rows db = Ok (l, db') ->
  (forall r e, (r, e) ∈ rows -> exists q, execution_attempts db !! ReservationRow.attempt_id r = Some q /\
     AttemptRow.execution_id q = Execution.id e /\ AttemptRow.worker_id q = w) ->
  forall r e, (r, e) ∈ rows -> exists q', execution_attempts db' !! ReservationRow.attempt_id r = Some q' /\
    is_Some (AttemptRow.finished_at q').
Proof.
  revert db l. induction rows as [|[r0 e0] rows IH]; intros db l Hop Hrows r e Hin; [by apply elem_of_nil in Hin|].
  simpl in Hop. apply bind_Ok in Hop as (n & db1 & Hf & Hop).
  pose proof (fence_attempt_finishes _ _ _ _ _ _ _ Hf (Hrows r0 e0 ltac:(set_solver))) as Hfin.
  pose proof (fence_attempt_later _ _ _ _ _ _ _ Hf) as L1.
  assert (exists db2 l', attempts_later db1 db2 /\ recover_loop now w rows db2 = Ok (l', db'))
    as (db2 & l' & L2 & Hrest).
  { destruct (n =? 1); [|by exists db1, l].
    apply bind_Ok in Hop as (m & db2 & Hd & Hop). apply bind_Ok in Hop as (rest & db3 & Hrest & Hop).
    tx_inv. exists db2, rest. split; [|done]. apply attempts_later_frame. clear - Hd. db_inv; done. }
  apply elem_of_cons in Hin as [[= -> ->]|Hin].
  - destruct Hfin as (q & Hq & Hqf). destruct (L2 _ _ Hq) as (q2 & Hq2 & [_ Hl]).
    destruct (recover_loop_later now w rows _ _ _ Hrest _ _ Hq2) as (q3 & Hq3 & [_ Hl3]).
    exists q3. auto.
  - apply (IH _ _ Hrest) with e; [|done]. intros r1 e1 Hr1.
    destruct (Hrows r1 e1 ltac:(set_solver)) as (q & Hq & ? & ?).
    destruct (L1 _ _ Hq) as (q1 & Hq1 & [[? ?] _]). destruct (L2 _ _ Hq1) as (q2 & Hq2 & [[? ?] _]).
    exists q2. split_and!; congruence.
Qed.

Lemma reserved_executions_spec `{Collation} w db r :
  capacity_inv db -> r ∈ reservations_of w db ->
  exists row, executions db !! ReservationRow.execution_id r = Some row /\
    (r, ExecutionRow.execution row) ∈ reserved_executions w db.
Proof.
  intros Hinv Hr. pose proof Hr as Hr'. apply elem_of_filter_bool in Hr' as [Hin _].
  apply list_elem_of_fmap in Hin as ([id r'] & -> & Hin%elem_of_map_to_list). simpl in *.
  destruct (ci_res _ Hinv _ _ Hin) as [Hk _ (row & Hrow & _) _ _].
  rewrite Hk. exists row. split; [done|]. unfold reserved_executions. rewrite elem_of_order_by.
  apply list_elem_of_omap. exists r'. split; [done|]. by rewrite Hk, Hrow.
Qed.

(** A report of a finished attempt is refused. *)
Lemma finished_report_refused now e ev retention a q db :
  Execution.attempt_id e = Some a -> execution_attempts db !! a = Some q ->
  is_Some (AttemptRow.finished_at q) ->
  exists err, record_progress_with now e ev retention db = (Err err, db).
Proof.
  intros Ha Hq [t Ht].
  destruct (record_progress_with now e ev retention db) as [r db'] eqn:Hop.
  unfold record_progress_with, transaction in Hop.
  destruct ((progress_guards e ev ≫= _) db) as [[r' db1]|err] eqn:E;
    injection Hop as <- <-; [exfalso|by eexists].
  apply bind_Ok in E as ([[row a'] w] & db0 & Hg & _). unfold progress_guards in Hg. db_inv. simplify_eq.
  match goal with H : is_active_attempt _ _ _ _ = true |- _ =>
    unfold is_active_attempt in H; rewrite Hq in H; bools; destruct H as [_ H]; congruence end.
Qed.

(** The attempts a worker holds reservations for. *)
Definition held_attempt (w : WorkerId) (db : Database) (a : AttemptId) : Prop :=
  exists r, r ∈ reservations_of w db /\ ReservationRow.attempt_id r = a.

(** C39: a lost worker is fenced.  Once [recover_unreachable] has run for a
    worker, no progress report of any attempt the worker held a reservation for
    is accepted, in that database or in any later one, whatever operations come
    in between; and the worker's reservations stay, so its capacity is not
    handed out before its resources are cleaned up. *)
Theorem lost_worker_fenced `{Collation} (now now' : Clock) (w : WorkerId) (a : AttemptId)
    (db db' db2 : Database) (recovered : list LostWorkerRecovery) (e : Execution)
    (ev : ExecutionEvent) (retention : bool) :
  reachable db -> recover_unreachable now w db = (Ok recovered, db') -> rtc step db' db2 ->
  held_attempt w db a -> Execution.attempt_id e = Some a ->
  (exists err, record_progress_with now' e ev retention db2 = (Err err, db2)) /\
  reservations db' = reservations db.
Proof.
  intros Hinv%reachable_capacity Hop Hs (r & Hr & Hra) He.
  assert (Hres : reservations db' = reservations db).
  { revert Hop. apply (tx_rel_transaction (same reservations)).
    tx_rel_solve ltac:(first [apply recover_loop_frame; done|frame]). }
  split; [|done]. apply transaction_Ok in Hop.
  apply bind_Ok in Hop as (w0 & db0 & [-> ->]%gets_Ok & Hop).
  apply bind_Ok in Hop as (reg & db0 & [_ ->]%require_Ok & Hop).
  apply bind_Ok in Hop as (u & db0 & [_ ->]%ensure_Ok & Hop).
  apply bind_Ok in Hop as (rows & db0 & [-> ->]%gets_Ok & Hop).
  apply bind_Ok in Hop as (l & db1 & Hloop & Hop). tx_inv.
  destruct (reserved_executions_spec w db r Hinv Hr) as (row & Hrow & Hin).
  destruct (recover_loop_fences _ _ _ _ _ _ Hloop) with (r := r) (e := ExecutionRow.execution row)
    as (q & Hq & Hqf); [|done|].
  - intros r1 e1 Hin1. unfold reserved_executions in Hin1. rewrite elem_of_order_by in Hin1.
    apply list_elem_of_omap in Hin1 as (r2 & Hr2 & Heq).
    destruct (executions db !! ReservationRow.execution_id r2) as [row2|] eqn:E2; [|done]. simplify_eq.
    apply elem_of_filter_bool in Hr2 as [Hm Hw]. bools.
    apply list_elem_of_fmap in Hm as ([id r'] & -> & Hm%elem_of_map_to_list). simpl in *.
    destruct (ci_res _ Hinv _ _ Hm) as [Hk _ _ (q & Hq & Hqe & Hqw) _].
    exists q. split_and!; [done| |congruence]. rewrite Hk in E2.
    rewrite (ci_keyed _ Hinv _ _ E2). congruence.
  - destruct (steps_attempts _ _ Hs _ _ Hq) as (q2 & Hq2 & [_ Hl]).
    eapply finished_report_refused; [exact He|exact Hq2|auto].
Qed.

(** The run's worker, gone silent. *)
Definition run_stale : Database := (mark_stale_before 1000 run_reserved).2.
Definition run_recovered : Database := (recover_unreachable run_clock "w-1" run_stale).2.

Lemma lost_worker_fenced_witness :
  exists err, record_progress run_clock
    (claimed_row run_clock "u1" "w-1" run_execution) (example_event "e-1") run_recovered =
  (Err err, run_recovered).
Proof.
  set (out := (recover_unreachable run_clock "w-1" run_stale).1). vm_compute in out.
  set (rows := reservations_of "w-1" run_stale). vm_compute in rows.
  match goal with out := Ok ?l, rows := cons ?r nil |- _ =>
    refine (proj1 (lost_worker_fenced run_clock run_clock "w-1" "attempt-u1" run_stale run_recovered
      run_recovered l (claimed_row run_clock "u1" "w-1" run_execution) (example_event "e-1") false _ _ _ _ _));
    [ | | | exists r | ] end.
  - apply reach_op; [apply run_reserved_reachable|constructor].
  - vm_compute. reflexivity.
  - apply rtc_refl.
  - split; [|reflexivity]. apply list_elem_of_lookup. exists 0%nat. vm_compute. reflexivity.
  - reflexivity.
Defined.
