(* ===== verification/Lifecycle.v ===== *)
(** * The worker's view of the outside world

    The data the worker keeps about the resources of an execution
    ([git-worktree/src/lib.rs], [runtime-traits/src/lib.rs],
    [harness-traits/src/lib.rs], [execution-storage/src/model.rs]), the
    [ExecutionLifecycle] trait through which it creates and destroys them, and
    the errors of [orchestrator-worker/src/lib.rs].

    The trait is a type of calls, with a constructor for each method the worker
    uses.  What a call does outside the database is not modelled: a theorem about
    the worker holds for every answer, or names what it needs of the answers in a
    class. *)

From S2P Require Import Prelude Core WorkerTypes Health Database CleanupStore ExecutionStore Controls.

















(** ** Resources *)
Module Worktree.
Record Worktree := {
  execution_id : ExecutionId;
  path : string;
  branch : string;
  base_sha : string;
  repository : string
}.
End Worktree.
Abbreviation Worktree := Worktree.Worktree.

Module DiffCapture.
Record DiffCapture := { patch : string; changed_files : list string }.
End DiffCapture.
Abbreviation DiffCapture := DiffCapture.DiffCapture.

Module SessionRef.
Record SessionRef := {
  id : SessionId;
  path : string;
  execution_id : ExecutionId;
  worktree_path : string
}.
End SessionRef.
Abbreviation SessionRef := SessionRef.SessionRef.

Module VerifiedBindMount.
Record VerifiedBindMount := { source : string; target : string; writable : bool }.
End VerifiedBindMount.
Abbreviation VerifiedBindMount := VerifiedBindMount.VerifiedBindMount.

Module VerifiedAgentContainer.
Record VerifiedAgentContainer := {
  container_id : string;
  daemon_id : string;
  labels : OwnershipLabels;
  mounts : list VerifiedBindMount
}.
End VerifiedAgentContainer.
Abbreviation VerifiedAgentContainer := VerifiedAgentContainer.VerifiedAgentContainer.

Module EnvironmentHandle.
Record EnvironmentHandle := {
  execution_id : ExecutionId;
  network : string;
  agent_container : string;
  verified_agent_container : VerifiedAgentContainer;
  service_containers : list string;
  volumes : list string;
  credentials_path : option string
}.
End EnvironmentHandle.
Abbreviation EnvironmentHandle := EnvironmentHandle.EnvironmentHandle.

Module BackendIdentity.
Inductive BackendIdentity :=
| Apfs (container container_uuid volume volume_name volume_uuid ownership_token : string)
| Lvm (volume_group volume_group_uuid logical_volume logical_volume_uuid filesystem_uuid
       ownership_token : string).
End BackendIdentity.
Abbreviation BackendIdentity := BackendIdentity.BackendIdentity.

Module DockerBindProof.
Record DockerBindProof := {
  daemon_id : string;
  verifier : string;
  method_version : string;
  source_path : string;
  filesystem_id : string
}.
End DockerBindProof.
Abbreviation DockerBindProof := DockerBindProof.DockerBindProof.

Module AllocationReceipt.
Record AllocationReceipt := {
  api_version : string;
  labels : OwnershipLabels;
  reserved_bytes : Z;                 (* u64 *)
  mount_path : string;
  backend_kind : string;
  backend_key : string;
  pool_identity : string;
  backend : BackendIdentity;
  docker_bind : DockerBindProof
}.
End AllocationReceipt.
Abbreviation AllocationReceipt := AllocationReceipt.AllocationReceipt.

Module AdoptedExecution.
Record AdoptedExecution := {
  receipt : AllocationReceipt;
  worktree : Worktree;
  environment : EnvironmentHandle;
  session : SessionRef
}.
End AdoptedExecution.
Abbreviation AdoptedExecution := AdoptedExecution.AdoptedExecution.

(** ** Their JSON, as serde writes it; an object is read by key, so the order
    of its fields is immaterial *)

Definition value_of_option {A} (f : A -> Value) (o : option A) : Value :=
  match o with Some a => f a | None => Null end.

Definition labels_value (l : OwnershipLabels) : Value :=
  Object ([("execution_id", Str (OwnershipLabels.execution_id l));
           ("worker_id", Str (OwnershipLabels.worker_id l));
           ("repository", Str (OwnershipLabels.repository l))] ++
          match OwnershipLabels.issue l with Some i => [("issue"%string, Str i)] | None => [] end).

Definition backend_value (b : BackendIdentity) : Value :=
  match b with
  | BackendIdentity.Apfs container container_uuid volume volume_name volume_uuid token =>
      Object [("kind", Str "apfs"); ("container", Str container);
              ("container_uuid", Str container_uuid); ("volume", Str volume);
              ("volume_name", Str volume_name); ("volume_uuid", Str volume_uuid);
              ("ownership_token", Str token)]
  | BackendIdentity.Lvm group group_uuid volume volume_uuid filesystem token =>
      Object [("kind", Str "lvm"); ("volume_group", Str group);
              ("volume_group_uuid", Str group_uuid); ("logical_volume", Str volume);
              ("logical_volume_uuid", Str volume_uuid); ("filesystem_uuid", Str filesystem);
              ("ownership_token", Str token)]
  end.

Definition bind_value (b : DockerBindProof) : Value :=
  Object [("daemon_id", Str (DockerBindProof.daemon_id b));
          ("verifier", Str (DockerBindProof.verifier b));
          ("method_version", Str (DockerBindProof.method_version b));
          ("source_path", Str (DockerBindProof.source_path b));
          ("filesystem_id", Str (DockerBindProof.filesystem_id b))].

Definition receipt_value (r : AllocationReceipt) : Value :=
  Object [("api_version", Str (AllocationReceipt.api_version r));
          ("labels", labels_value (AllocationReceipt.labels r));
          ("reserved_bytes", Number (AllocationReceipt.reserved_bytes r));
          ("mount_path", Str (AllocationReceipt.mount_path r));
          ("backend_kind", Str (AllocationReceipt.backend_kind r));
          ("backend_key", Str (AllocationReceipt.backend_key r));
          ("pool_identity", Str (AllocationReceipt.pool_identity r));
          ("backend", backend_value (AllocationReceipt.backend r));
          ("docker_bind", bind_value (AllocationReceipt.docker_bind r))].

(** ** Errors *)
Module LifecycleError.
Inductive LifecycleError := Step (message : string).

Definition to_string (e : LifecycleError) : string :=
  match e with Step m => "execution lifecycle step failed: " +:+ m end.
End LifecycleError.
Abbreviation LifecycleError := LifecycleError.LifecycleError.

Module WorkerError.
Inductive WorkerError :=
| Lifecycle (e : LifecycleError)
| Persistence (message : string)
| Panic (message : string)
| Cleanup (message : string)
| ExecutionAndCleanup (execution cleanup : string)
| Invalid (message : string)
| Cancelled.

Definition to_string (e : WorkerError) : string :=
  match e with
  | Lifecycle e => LifecycleError.to_string e
  | Persistence m => "execution persistence failed: " +:+ m
  | Panic m => "execution panicked: " +:+ m
  | Cleanup m => "cleanup failed: " +:+ m
  | ExecutionAndCleanup e c => "execution failed: " +:+ e +:+ "; cleanup also failed: " +:+ c
  | Invalid m => "execution is invalid: " +:+ m
  | Cancelled => "execution was cancelled"
  end.
End WorkerError.
Abbreviation WorkerError := WorkerError.WorkerError.

(** [Display] of [StoreError] ([error.rs]) and of [CoreError]. *)
Definition store_error_text (e : StoreError) : string :=
  match e with
  | StoreError.Db m => "database error: " +:+ m
  | StoreError.NotFound id => "record not found: " +:+ id
  | StoreError.IllegalTransition from to => "illegal state transition: " +:+
      ExecutionState.debug from +:+ " -> " +:+ ExecutionState.debug to
  | StoreError.Conflict m => "storage conflict: " +:+ m
  | StoreError.IdempotencyConflict m => "idempotency conflict: " +:+ m
  | StoreError.DuplicateExecutionId m => "execution id already exists: " +:+ m
  | StoreError.SequenceConflict => "event sequence conflict"
  | StoreError.CapacityExhausted w => "worker capacity exhausted: " +:+ w
  | StoreError.InvalidArtifactName n => "invalid artifact name: " +:+ n
  end.

Definition core_error_text (e : CoreError) : string :=
  match e with
  | CoreError.InvalidManifest m => "invalid execution manifest: " +:+ m
  | CoreError.UnknownExecution id => "unknown execution: " +:+ id
  | CoreError.IllegalTransition from to => "illegal state transition: " +:+
      ExecutionState.debug from +:+ " -> " +:+ ExecutionState.debug to
  end.

(** ** The trait *)
Module Call.
Inductive lifecycle_call : Type -> Type :=
| allocate (execution : Execution) : lifecycle_call AllocationReceipt
| create_worktree (execution : Execution) (receipt : AllocationReceipt) : lifecycle_call Worktree
| provision (execution : Execution) (receipt : AllocationReceipt) (worktree : Worktree) :
    lifecycle_call EnvironmentHandle
| start (execution : Execution) (receipt : AllocationReceipt) (environment : EnvironmentHandle)
    (worktree : Worktree) (packet : TaskPacket) : lifecycle_call SessionRef
| resume (execution : Execution) (receipt : AllocationReceipt) (environment : EnvironmentHandle)
    (session : SessionRef) : lifecycle_call unit
| pause (execution : Execution) (session : SessionRef) : lifecycle_call unit
| fork_conversation (execution : Execution) (session : SessionRef) (target : SessionId) :
    lifecycle_call SessionRef
| poll (execution : Execution) (session : SessionRef) : lifecycle_call (list ExecutionEvent)
| resource_sample (execution : Execution) : lifecycle_call ResourceSample
| stop (execution : Execution) (session : SessionRef) : lifecycle_call unit
| capture (worktree : Worktree) : lifecycle_call DiffCapture
| persist_evidence (execution : Execution) (capture : DiffCapture) : lifecycle_call string
| destroy_runtime (execution : Execution) : lifecycle_call unit
| destroy_worktree (worktree : Worktree) : lifecycle_call unit
| recover_interrupted_worktree (execution : Execution) (receipt : option AllocationReceipt) :
    lifecycle_call unit
| release_storage (receipt : AllocationReceipt) : lifecycle_call unit
| cleanup_authority (authority : CleanupAuthority) (execution : Execution) : lifecycle_call unit
| cleanup_authority_step (authority : CleanupAuthority) (execution : Execution)
    (disposition : CleanupDisposition) : lifecycle_call CleanupDisposition
| ack_cleanup_authority_step (authority : CleanupAuthority) (disposition : CleanupDisposition) :
    lifecycle_call unit
| adopt (execution : Execution) : lifecycle_call AdoptedExecution.
End Call.
Abbreviation lifecycle_call := Call.lifecycle_call.

(** What comes back from a call: a result, or a panic that unwinds the caller. *)
Inductive answer (A : Type) :=
| Returned (r : result LifecycleError A)
| PanickedWith (message : string).
Arguments Returned {A} r.
Arguments PanickedWith {A} message.

(** The trait's default [cleanup_authority_step], after its call of
    [cleanup_authority]. *)
Definition default_cleanup_authority_step (cleaned : result LifecycleError unit)
    (disposition : CleanupDisposition) : result LifecycleError CleanupDisposition :=
  _ ← cleaned;
  match disposition with
  | CleanupDisposition.CleanupPending => Ok CleanupDisposition.RuntimeStopped
  | CleanupDisposition.RuntimeStopped => Ok CleanupDisposition.RuntimeDestroyed
  | CleanupDisposition.RuntimeDestroyed => Ok CleanupDisposition.GitRecoveredCleaned
  | CleanupDisposition.GitRecoveredCleaned => Ok CleanupDisposition.StorageReleased
  | other => Err (LifecycleError.Step ("cleanup step cannot advance " +:+ phase_text other))
  end.

Module ControlCheckpoint.
Inductive ControlCheckpoint :=
| ApplyingPersisted | PauseStopped | ResumeLaunched | RunningRestored | ForkLaunched
| SideEffectPersisted | BeforeCompletion.
End ControlCheckpoint.
Abbreviation ControlCheckpoint := ControlCheckpoint.ControlCheckpoint.
