(* ===== verification/Probe.v ===== *)
(** * Probing an execution's resources ([orchestrator-worker/src/system.rs])

    What is read out of [docker stats], [docker top] and [statvfs].  Floating
    point numbers are IEEE 754 doubles: a decimal text is the nearest one, a
    size is multiplied and rounded as the code does it. *)

From Stdlib Require Import Ascii SpecFloat.
From S2P Require Import Prelude Core WorkerTypes Health Database Lifecycle.












Local Open Scope Z_scope.

(** ** [f64] *)
Definition PREC : Z := 53.
Definition EMAX : Z := 1024.

(** The double nearest to [m] times ten to the [e]. *)
Definition decimal_f64 (negative : bool) (m : N) (e : Z) : f64 :=
  match m with
  | N0 => S754_zero negative
  | Npos m =>
      if 0 <=? e then
        match Z.pos m * 10 ^ e with
        | Zpos v => binary_round PREC EMAX negative v 0
        | _ => S754_zero negative
        end
      else
        let '(mz, ez, lz) := SFdiv_core_binary PREC EMAX (Z.pos m) 0 (10 ^ (- e)) 0 in
        binary_round_aux PREC EMAX negative mz ez lz
  end.

Fixpoint take_digits (s : string) : string * string :=
  match s with
  | String c rest =>
      if is_ascii_digit c then let '(digits, rest) := take_digits rest in (String c digits, rest) else (""%string, s)
  | EmptyString => (""%string, ""%string)
  end.

Definition signed (s : string) : bool * string :=
  match s with
  | String "-" rest => (true, rest)
  | String "+" rest => (false, rest)
  | _ => (false, s)
  end.

(** [str::parse::<f64>]. *)
Definition parse_f64 (s : string) : result string f64 :=
  let invalid := Err "invalid float literal"%string in
  if str_is_empty s then Err "cannot parse float from empty string"%string
  else
    let '(negative, body) := signed s in
    if eq_ignore_ascii_case body "inf" || eq_ignore_ascii_case body "infinity" then Ok (S754_infinity negative)
    else if eq_ignore_ascii_case body "nan" then Ok S754_nan
    else
      let '(whole, rest) := take_digits body in
      let '(fraction, rest) :=
        match rest with String "." rest => take_digits rest | _ => (""%string, rest) end in
      if str_is_empty (whole +:+ fraction) then invalid
      else
        let mantissa := digits_value 0 (whole +:+ fraction) in
        let scale := - Z.of_nat (String.length fraction) in
        match rest with
        | EmptyString => Ok (decimal_f64 negative mantissa scale)
        | String c rest =>
            if bool_decide (c ∈ ["e"; "E"]%char) then
              let '(down, rest) := signed rest in
              let '(digits, rest) := take_digits rest in
              if str_is_empty digits || negb (str_is_empty rest) then invalid
              else
                let exponent := Z.of_N (digits_value 0 digits) in
                Ok (decimal_f64 negative mantissa (scale + if down then - exponent else exponent))
            else invalid
        end.

(** [value.round() as u64]: to the nearest integer, halves away from zero, and
    saturating. *)
Definition round_u64 (v : f64) : Z :=
  match v with
  | S754_finite false m e =>
      let exact := if 0 <=? e then Z.pos m * 2 ^ e else (2 * Z.pos m + 2 ^ (- e)) / (2 * 2 ^ (- e)) in
      Z.min exact u64_max
  | S754_infinity false => u64_max
  | _ => 0
  end.

Definition is_finite (v : f64) : bool :=
  match v with S754_zero _ | S754_finite _ _ _ => true | _ => false end.
(** [value >= 0.0]. *)
Definition non_negative (v : f64) : bool :=
  match v with S754_zero _ | S754_infinity false | S754_finite false _ _ => true | _ => false end.

(** ** Sizes *)
Definition multiplier (unit_ : string) : option Z :=
  if bool_decide (unit_ = "B"%string) then Some 1
  else if bool_decide (unit_ ∈ ["kB"; "KB"]%string) then Some (10 ^ 3)
  else if bool_decide (unit_ = "MB"%string) then Some (10 ^ 6)
  else if bool_decide (unit_ = "GB"%string) then Some (10 ^ 9)
  else if bool_decide (unit_ = "TB"%string) then Some (10 ^ 12)
  else if bool_decide (unit_ = "KiB"%string) then Some 1024
  else if bool_decide (unit_ = "MiB"%string) then Some (1024 * 1024)
  else if bool_decide (unit_ = "GiB"%string) then Some (1024 * 1024 * 1024)
  else if bool_decide (unit_ = "TiB"%string) then Some (1024 * 1024 * 1024 * 1024)
  else None.

Fixpoint split_number (s : string) : string * string :=
  match s with
  | String c rest =>
      if is_ascii_digit c || bool_decide (c = "."%char)
      then let '(number, unit_) := split_number rest in (String c number, unit_) else (""%string, s)
  | EmptyString => (""%string, ""%string)
  end.

Definition parse_size (text : string) : option Z :=
  let '(number, unit_) := split_number (trim text) in
  (* [find] has an answer only when something follows the number *)
  if str_is_empty unit_ then None
  else
    factor ← multiplier unit_;
    match parse_f64 number with
    | Ok value =>
        if is_finite value && non_negative value
        then Some (round_u64 (SFmul PREC EMAX value (binary_normalize PREC EMAX factor 0 false)))
        else None
    | Err _ => None
    end.

(** ** [docker stats] *)
Section Stats.
Context `{JsonText} (json_error : string -> string).

Definition optional_text (key : string) (line : Value) : option (option string) :=
  match value_get key line with
  | None | Some Null => Some None
  | Some field => s ← value_as_str field; Some (Some s)
  end.

Definition stats_error (what : string) : LifecycleError := LifecycleError.Step ("Docker stats: " +:+ what).

Fixpoint sum_sizes (block_io : string) (parts : list string) : result LifecycleError Z :=
  match parts with
  | [] => Ok 0
  | part :: parts =>
      size ← ok_or (parse_size part) (stats_error ("BlockIO " +:+ debug_text block_io));
      rest ← sum_sizes block_io parts;
      Ok ((size + rest) mod 2 ^ 64)
  end.

Definition parse_stats (json : string) : result LifecycleError ResourceSample :=
  let invalid_json := stats_error ("invalid JSON: " +:+ json_error json) in
  line ← ok_or (value_from_slice json) invalid_json;
  _ ← check (match line with Object _ => true | _ => false end) invalid_json;
  cpu ← ok_or (optional_text "CPUPerc" line) invalid_json;
  mem ← ok_or (optional_text "MemUsage" line) invalid_json;
  io ← ok_or (optional_text "BlockIO" line) invalid_json;
  cpu ← ok_or cpu (stats_error "missing CPUPerc");
  cpu_percent ← map_err (fun error => stats_error ("CPUPerc " +:+ debug_text cpu +:+ ": " +:+ error))
                  (parse_f64 (trim_end_char "%" (trim cpu)));
  block_io ← ok_or io (stats_error "missing BlockIO");
  io_bytes ← sum_sizes block_io (split "/" block_io);
  _ ← check (length (split "/" block_io) =? 2)%nat (stats_error ("BlockIO " +:+ debug_text block_io));
  rss_bytes ← match mem with
              | None => Ok None
              | Some usage =>
                  size ← ok_or (parse_size (default "" (head (split "/" usage))))
                           (stats_error ("MemUsage " +:+ debug_text usage));
                  Ok (Some size)
              end;
  Ok {| ResourceSample.cpu_percent := cpu_percent; ResourceSample.io_bytes := Some io_bytes;
        ResourceSample.rss_bytes := rss_bytes; ResourceSample.disk_bytes := None;
        ResourceSample.current_command := None |}.
End Stats.

(** ** [docker top] *)
Definition CURRENT_COMMAND_MAX_CHARS : nat := 200.

(** [split_once(char::is_whitespace)]. *)
Fixpoint split_once_whitespace (before bs : list N) : option (list N * list N) :=
  match ws_prefix bs with
  | Some rest => Some (before, rest)
  | None => match bs with [] => None | b :: bs => split_once_whitespace (before ++ [b]) bs end
  end.

(** [chars().take(n)]: a character starts at every byte that is not a
    continuation byte. *)
Fixpoint take_chars (n : nat) (bs : list N) : list N :=
  match bs with
  | [] => []
  | b :: bs =>
      if utf8_tail b then b :: take_chars n bs
      else match n with O => [] | S n => b :: take_chars n bs end
  end.

Definition trim_start (s : string) : string :=
  of_bytes (strip (String.length s) ws_prefix (bytes_of s)).

Definition top_line (line : string) : option (Z * string) :=
  p ← split_once_whitespace [] (bytes_of (trim_start line));
  pid ← parse_u64 (of_bytes p.1);
  Some (pid, trim (of_bytes p.2)).

(** [max_by_key]: the last of the greatest. *)
Fixpoint max_by_pid (l : list (Z * string)) : option (Z * string) :=
  match l with
  | [] => None
  | x :: l =>
      match max_by_pid l with
      | Some y => if x.1 <=? y.1 then Some y else Some x
      | None => Some x
      end
  end.

Definition parse_top_command (output : string) : option string :=
  let found := omap top_line (drop 1 (lines output)) in
  newest ← max_by_pid (List.filter (fun p => negb (str_is_empty p.2)) found);
  Some (of_bytes (take_chars CURRENT_COMMAND_MAX_CHARS (bytes_of newest.2))).

(** ** The volume and the command line *)

(** [execution_disk_bytes], on the devices of the two roots and the blocks,
    free blocks and fragment size [statvfs] reports. *)
Definition execution_disk_bytes (root_device state_device : option Z) (stat : option (Z * Z * Z)) : option Z :=
  match root_device, state_device with
  | Some root_device, Some state_device =>
      if root_device =? state_device then None
      else '(blocks, free, fragment) ← stat; checked_mul_u64 (saturating_sub blocks free) fragment
  | _, _ => None
  end.

Definition scrub_current_command (is_secret : string -> bool) (sample : ResourceSample) : ResourceSample :=
  match ResourceSample.current_command sample with
  | Some command =>
      if is_secret command then
        {| ResourceSample.cpu_percent := ResourceSample.cpu_percent sample;
           ResourceSample.io_bytes := ResourceSample.io_bytes sample;
           ResourceSample.rss_bytes := ResourceSample.rss_bytes sample;
           ResourceSample.disk_bytes := ResourceSample.disk_bytes sample;
           ResourceSample.current_command := None |}
      else sample
  | None => sample
  end.

(** The cases of the tests. *)
Example size_decimal : parse_size "12.3MB" = Some 12300000. Proof. vm_compute. reflexivity. Qed.
Example size_binary : parse_size "10.5MiB" = Some 11010048. Proof. vm_compute. reflexivity. Qed.
Example size_plain : parse_size "0B" = Some 0. Proof. vm_compute. reflexivity. Qed.
Example size_no_unit : parse_size "12" = None. Proof. vm_compute. reflexivity. Qed.
Example size_twice_dotted : parse_size "1.2.3MB" = None. Proof. vm_compute. reflexivity. Qed.
Example top_newest :
  parse_top_command ("PID COMMAND" +:+ String "010" ("    7 pi --mode json" +:+ String "010" ("  42 cargo test " +:+ String "010" "")))
  = Some "cargo test"%string.
Proof. vm_compute. reflexivity. Qed.
