(* ===== verification/WorkerTask.v ===== *)
(** * Worker tasks

    The async functions of [crates/orchestrator-worker] as programs: trees of
    the calls they make, each followed by what the code does with the answer.
    Store calls are the operations of the persistence model, lifecycle calls
    are answered by the outside world.

    [exec] runs a program against the database while other processes run store
    operations between any two of its calls, and may stop it anywhere, so what
    holds of every run holds across crashes.  [wp] is the corresponding weakest
    precondition, with the rules the proofs about the worker use. *)

From S2P Require Import Prelude Core WorkerTypes Health Database CleanupStore ExecutionStore Controls Reservations Steps AuthorityOrder Lifecycle.
















(** ** Calls *)

(** [tokio::select!] over a lifecycle call, the control channel and the
    cancellation flag. *)
Inductive selected (A : Type) :=
| Ready (a : answer A)
| Received (control : option PendingExecutionControl)
| CancelSeen.
Arguments Ready {A} a.
Arguments Received {A} control.
Arguments CancelSeen {A}.

Inductive action : Type -> Type :=
| Store {A} (op : Clock -> Op A) : action (result StoreError A)
| Life {A} (c : lifecycle_call A) : action (answer A)
| LifeWithin {A} (c : lifecycle_call A) : action (option (answer A))
| Select {A} (c : lifecycle_call A) : action (selected A)
| SelectControl : action (option (option PendingExecutionControl))
| LoadCancelled : action bool
| UtcNow : action Timestamp
| InstantNow : action Z
| Reached (checkpoint : ControlCheckpoint) : action unit.

(** ** Programs *)
Inductive prog (A : Type) : Type :=
| Done (a : A)
| OutOfFuel
| Do {B} (act : action B) (k : B -> prog A).
Arguments Done {A} a.
Arguments OutOfFuel {A}.
Arguments Do {A B} act k.

#[export] Instance prog_ret : MRet prog := @Done.
#[export] Instance prog_bind : MBind prog := fun A B f =>
  fix bind (p : prog A) : prog B :=
    match p with
    | Done a => f a
    | OutOfFuel => OutOfFuel
    | Do act k => Do act (fun b => bind (k b))
    end.

(** ** Tasks

    A function with mutable locals [S] that returns a value, returns an error
    or panics; the locals survive all three, as a [&mut] argument does. *)
Inductive outcome (A : Type) :=
| Value (a : A)
| Error (e : WorkerError)
| Panic (message : string).
Arguments Value {A} a.
Arguments Error {A} e.
Arguments Panic {A} message.

Definition task (S A : Type) : Type := S -> prog (outcome A * S).

Section Task.
Context {S : Type}.

#[export] Instance task_ret : MRet (task S) := fun A a s => Done (Value a, s).
#[export] Instance task_bind : MBind (task S) := fun A B f m s =>
  m s ≫= fun r => match r with
                  | (Value a, s') => f a s'
                  | (Error e, s') => Done (Error e, s')
                  | (Panic m, s') => Done (Panic m, s')
                  end.

Definition raise {A} (e : WorkerError) : task S A := fun s => Done (Error e, s).
Definition perform {B} (act : action B) : task S B := fun s => Do act (fun b => Done (Value b, s)).
Definition local_get {A} (f : S -> A) : task S A := fun s => Done (Value (f s), s).
Definition local_set (f : S -> S) : task S unit := fun s => Done (Value tt, f s).
Definition out_of_fuel {A} : task S A := fun _ => OutOfFuel.

Definition require_or {A} (o : option A) (e : WorkerError) : task S A :=
  match o with Some a => mret a | None => raise e end.
Definition when_task (b : bool) (m : task S unit) : task S unit := if b then m else mret tt.

(** The [Result] of a call that does not use [?]; a panic goes on unwinding. *)
Definition attempt {A} (m : task S A) : task S (result WorkerError A) := fun s =>
  m s ≫= fun r => Done (match r with
                        | (Value a, s') => (Value (Ok a), s')
                        | (Error e, s') => (Value (Err e), s')
                        | (Panic p, s') => (Panic p, s')
                        end).

(** [AssertUnwindSafe(..).catch_unwind()]; the panic becomes the outcome. *)
Definition catch_unwind {A} (m : task S A) : task S (result WorkerError A) := fun s =>
  m s ≫= fun r => Done (match r with
                        | (Value a, s') => (Value (Ok a), s')
                        | (Error e, s') => (Value (Err e), s')
                        | (Panic p, s') => (Value (Err (WorkerError.Panic p)), s')
                        end).

(** A store call, and one whose error becomes [WorkerError::Persistence]. *)
Definition store {A} (op : Clock -> Op A) : task S (result StoreError A) := perform (Store op).
Definition persistence {A} (r : result StoreError A) : task S A :=
  match r with
  | Ok a => mret a
  | Err e => raise (WorkerError.Persistence (store_error_text e))
  end.
Definition store_or {A} (op : Clock -> Op A) : task S A := r ← store op; persistence r.

(** A lifecycle call under [?]. *)
Definition answered {A} (a : answer A) : task S A := fun s =>
  match a with
  | Returned (Ok x) => Done (Value x, s)
  | Returned (Err e) => Done (Error (WorkerError.Lifecycle e), s)
  | PanickedWith m => Done (Panic m, s)
  end.
Definition life {A} (c : lifecycle_call A) : task S A := a ← perform (Life c); answered a.

(** The same under [tokio::time::timeout]. *)
Definition life_within {A} (c : lifecycle_call A) (elapsed : string) : task S A :=
  a ← perform (LifeWithin c);
  match a with
  | Some a => answered a
  | None => raise (WorkerError.Cleanup elapsed)
  end.

Fixpoint for_each_task {A} (f : A -> task S unit) (l : list A) : task S unit :=
  match l with
  | [] => mret tt
  | x :: l => _ ← f x; for_each_task f l
  end.
End Task.

(** ** Runs *)

(** What a call may answer and leave in the database. *)
Definition act_step {B} (act : action B) (db : Database) : B -> Database -> Prop :=
  match act in action B return B -> Database -> Prop with
  | Store op => fun r db' => exists now, op now db = (r, db')
  | _ => fun _ db' => db' = db
  end.

(** A call that was made, the database it was made in and its answer. *)
Inductive label :=
| Label {B} (act : action B) (before : Database) (b : B).

Section Runs.
Context `{Collation}.

Inductive exec {A} : prog A -> Database -> list label -> option A -> Database -> Prop :=
| exec_done a db : exec (Done a) db [] (Some a) db
| exec_stop p db : exec p db [] None db
| exec_other p db db1 tr r db' : step db db1 -> exec p db1 tr r db' -> exec p db tr r db'
| exec_do {B} (act : action B) k b db db1 tr r db' :
    act_step act db b db1 -> exec (k b) db1 tr r db' ->
    exec (Do act k) db (Label act db b :: tr) r db'.

(** The store calls a worker may make: the operations of the transition
    system, and reads. *)
Definition lawful {B} (act : action B) : Prop :=
  match act with
  | @Store A op => forall now, store_op A (op now) \/ forall db, (op now db).2 = db
  | _ => True
  end.

Lemma act_later {B} (act : action B) b db db' :
  lawful act -> act_step act db b db' -> rtc step db db'.
Proof.
  destruct act; simpl; intros Hl; try (intros ->; apply rtc_refl).
  intros [now Hop]. destruct (Hl now) as [Hs|Hr].
  - apply rtc_once. by exists _, (op now), b.
  - specialize (Hr db). rewrite Hop in Hr. simpl in Hr. subst. apply rtc_refl.
Qed.

(** Weakest preconditions under interference.  [G] must hold of every call at
    the database it is made in; [Q] of the answer and of the trace of the run. *)
Section Wp.
Context (G : Database -> forall B, action B -> Prop).

Fixpoint wp {A} (p : prog A) (Q : A -> list label -> Database -> Prop) (tr : list label)
    (db : Database) : Prop :=
  match p with
  | Done a => forall db1, rtc step db db1 -> Q a tr db1
  | OutOfFuel => True
  | Do act k => forall db1, rtc step db db1 ->
      lawful act /\ G db1 _ act /\
      forall b db2, act_step act db1 b db2 -> wp (k b) Q (tr ++ [Label act db1 b]) db2
  end.

Lemma wp_later {A} (p : prog A) Q tr db db' : rtc step db db' -> wp p Q tr db -> wp p Q tr db'.
Proof. destruct p; simpl; [|done|]; intros Hs Hp db1 Hs1; apply Hp; by etrans. Qed.

Lemma wp_mono {A} (p : prog A) (Q Q' : A -> list label -> Database -> Prop) tr db :
  wp p Q tr db ->
  (forall a tr' db', rtc step db db' -> Q a tr' db' -> Q' a tr' db') -> wp p Q' tr db.
Proof.
  revert tr db. induction p as [a| |B act k IH]; simpl; intros tr db Hp HQ; [|done|].
  - intros db1 Hs. apply HQ; auto.
  - intros db1 Hs. destruct (Hp db1 Hs) as (Hl & Hg & Hk). split_and!; [done..|].
    intros b db2 Hact. apply (IH b); [auto|]. intros a tr' db' Hs'. apply HQ.
    etrans; [exact Hs|]. etrans; [by eapply act_later|done].
Qed.

Lemma wp_bind {A B} (p : prog A) (f : A -> prog B) Q tr db :
  wp p (fun a tr' db' => wp (f a) Q tr' db') tr db -> wp (p ≫= f) Q tr db.
Proof.
  revert tr db. induction p as [a| |C act k IH]; simpl; intros tr db Hp.
  - apply Hp, rtc_refl.
  - done.
  - intros db1 Hs. destruct (Hp db1 Hs) as (Hl & Hg & Hk). split_and!; [done..|].
    intros b db2 Hact. apply IH. auto.
Qed.

(** Every run of a program meets its weakest precondition: each call it makes
    satisfies the guard, the answer the postcondition, and the database moves
    by store operations only. *)
Definition label_ok (l : label) : Prop := match l with Label act before _ => G before _ act end.

Lemma wp_exec {A} (p : prog A) Q tr db tr' r db' :
  exec p db tr' r db' -> wp p Q tr db ->
  rtc step db db' /\ Forall label_ok tr' /\ (forall a, r = Some a -> Q a (tr ++ tr') db').
Proof.
  intros He. revert tr. induction He as [a db|p db|p db db1 tr' r db' Hs _ IH
    |B act k b db db1 tr' r db' Hact _ IH]; intros tr Hp.
  - split_and!; [apply rtc_refl|done|]. intros ? [= ->]. rewrite app_nil_r. apply Hp, rtc_refl.
  - split_and!; [apply rtc_refl|done|done].
  - destruct (IH tr) as (Hs' & ?); [by eapply wp_later; [apply rtc_once|]|].
    split; [by eapply rtc_l|done].
  - destruct (Hp db (rtc_refl _ _)) as (Hl & Hg & Hk). destruct (IH _ (Hk b db1 Hact)) as (Hs & Hf & HQ).
    split_and!.
    + etrans; [by eapply act_later|done].
    + by constructor.
    + intros a Ha. specialize (HQ a Ha). by rewrite <- app_assoc in HQ.
Qed.
End Wp.
End Runs.

(** ** A worker alone

    A lifecycle implementation, as the worker sees it: its state [L] and the
    answer to every call. *)
Class Lifecycle (L : Type) := call : forall A, lifecycle_call A -> L -> answer A * L.

Section Alone.
Context {L : Type} `{!Lifecycle L} (clock : Clock).

(** One call with nobody else around: no control arrives, nothing is cancelled
    and no call times out. *)
Definition answer_alone {B} (act : action B) (l : L) (db : Database) : B * L * Database :=
  match act in action B return B * L * Database with
  | Store op => let '(r, db') := op clock db in (r, l, db')
  | Life c => let '(x, l') := call _ c l in (x, l', db)
  | LifeWithin c => let '(x, l') := call _ c l in (Some x, l', db)
  | Select c => let '(x, l') := call _ c l in (Ready x, l', db)
  | SelectControl => (None, l, db)
  | LoadCancelled => (false, l, db)
  | UtcNow => (utc_now clock, l, db)
  | InstantNow => (utc_now clock, l, db)
  | Reached _ => (tt, l, db)
  end.

(** [None] when the program ran out of fuel. *)
Fixpoint run_alone {A} (p : prog A) (l : L) (db : Database) :
  option (A * list label * L * Database) :=
  match p with
  | Done a => Some (a, [], l, db)
  | OutOfFuel => None
  | Do act k =>
      let '(b, l', db') := answer_alone act l db in
      match run_alone (k b) l' db' with
      | Some (a, tr, l'', db'') => Some (a, Label act db b :: tr, l'', db'')
      | None => None
      end
  end.

Lemma answer_alone_step {B} (act : action B) l db b l' db' :
  answer_alone act l db = (b, l', db') -> act_step act db b db'.
Proof.
  destruct act; simpl; repeat case_match; intros; simplify_eq; try done. by exists clock.
Qed.

(** A run alone is one of the runs among others. *)
Lemma run_alone_exec `{Collation} {A} (p : prog A) l db a tr l' db' :
  run_alone p l db = Some (a, tr, l', db') -> exec p db tr (Some a) db'.
Proof.
  revert l db a tr l' db'. induction p as [x| |B act k IH]; intros l db a tr l' db'; simpl; [|done|].
  - intros [= <- <- <- <-]. constructor.
  - destruct (answer_alone act l db) as [[b l1] db1] eqn:Ea.
    destruct (run_alone (k b) l1 db1) as [[[[a2 tr2] l2] db2]|] eqn:Er; [|done].
    intros [= <- <- <- <-]. econstructor; [by eapply answer_alone_step|by eapply IH].
Qed.
End Alone.
