(* ===== verification/WorkerRun.v ===== *)
(** * Running an execution

    Models [crates/orchestrator-worker/src/run.rs] and [cleanup_guard.rs]: the
    attempt from its cleanup authority to its outcome, the event loop with its
    watchdog and interactive controls, and the teardown.

    The event loop takes fuel, one unit per iteration: it runs as long as the
    agent does.  What is proved of it holds at every amount of fuel.  The waits
    ([tokio::time::sleep]) are left out: other processes may act between any
    two calls with or without them. *)

From S2P Require Import Prelude Core WorkerTypes Health Database CleanupStore ExecutionStore Controls Reservations Lifecycle WorkerTask.

















(** ** [cleanup_guard.rs] *)
Module CleanupGuard.
Record CleanupGuard := {
  execution : Execution;
  receipt : option AllocationReceipt;
  worktree : option Worktree;
  environment : option EnvironmentHandle;
  session : option SessionRef;
  runtime_created : bool;
  agent_stopped : bool
}.

Definition new (e : Execution) : CleanupGuard := {|
  execution := e; receipt := None; worktree := None; environment := None; session := None;
  runtime_created := false; agent_stopped := false |}.

Definition set_receipt (r : AllocationReceipt) (g : CleanupGuard) : CleanupGuard := {|
  execution := execution g; receipt := Some r; worktree := worktree g;
  environment := environment g; session := session g; runtime_created := runtime_created g;
  agent_stopped := agent_stopped g |}.
Definition set_worktree (w : Worktree) (g : CleanupGuard) : CleanupGuard := {|
  execution := execution g; receipt := receipt g; worktree := Some w;
  environment := environment g; session := session g; runtime_created := runtime_created g;
  agent_stopped := agent_stopped g |}.
Definition set_environment (h : EnvironmentHandle) (g : CleanupGuard) : CleanupGuard := {|
  execution := execution g; receipt := receipt g; worktree := worktree g;
  environment := Some h; session := session g; runtime_created := runtime_created g;
  agent_stopped := agent_stopped g |}.
Definition set_session (s : SessionRef) (g : CleanupGuard) : CleanupGuard := {|
  execution := execution g; receipt := receipt g; worktree := worktree g;
  environment := environment g; session := Some s; runtime_created := runtime_created g;
  agent_stopped := agent_stopped g |}.
Definition set_runtime_created (b : bool) (g : CleanupGuard) : CleanupGuard := {|
  execution := execution g; receipt := receipt g; worktree := worktree g;
  environment := environment g; session := session g; runtime_created := b;
  agent_stopped := agent_stopped g |}.
Definition set_agent_stopped (g : CleanupGuard) : CleanupGuard := {|
  execution := execution g; receipt := receipt g; worktree := worktree g;
  environment := environment g; session := session g; runtime_created := runtime_created g;
  agent_stopped := true |}.
End CleanupGuard.
Abbreviation CleanupGuard := CleanupGuard.CleanupGuard.

(** The [&mut] arguments the functions of [run.rs] share. *)
Record Locals := { tracked : Execution; guard : CleanupGuard }.
Definition on_tracked (f : Execution -> Execution) (l : Locals) : Locals :=
  {| tracked := f (tracked l); guard := guard l |}.
Definition on_guard (f : CleanupGuard -> CleanupGuard) (l : Locals) : Locals :=
  {| tracked := tracked l; guard := f (guard l) |}.

Definition stop_agent : task Locals unit :=
  g ← local_get guard;
  if CleanupGuard.agent_stopped g then mret tt
  else match CleanupGuard.session g with
       | None => mret tt
       | Some session =>
           _ ← life_within (Call.stop (CleanupGuard.execution g) session) "timed out stopping Pi";
           local_set (on_guard CleanupGuard.set_agent_stopped)
       end.

Definition stop_runtime_process : task Locals unit :=
  g ← local_get guard;
  when_task (bool_decide (is_Some (CleanupGuard.session g)) && negb (CleanupGuard.agent_stopped g))
    stop_agent.

Definition destroy_runtime : task Locals unit :=
  g ← local_get guard;
  when_task (CleanupGuard.runtime_created g) (
    _ ← life_within (Call.destroy_runtime (CleanupGuard.execution g)) "timed out destroying runtime";
    local_set (on_guard (CleanupGuard.set_runtime_created false))).

Definition destroy_worktree : task Locals unit :=
  g ← local_get guard;
  _ ← match CleanupGuard.worktree g with
      | Some worktree => life_within (Call.destroy_worktree worktree) "timed out destroying worktree"
      | None => mret tt
      end;
  life (Call.recover_interrupted_worktree (CleanupGuard.execution g) (CleanupGuard.receipt g)).

Definition release_storage : task Locals unit :=
  g ← local_get guard;
  match CleanupGuard.receipt g with
  | Some receipt => life_within (Call.release_storage receipt) "timed out releasing storage"
  | None => mret tt
  end.

(** ** Shared steps of [run.rs] *)

Definition worktree_value (w : Worktree) : Database.Value :=
  Object [("execution_id", Str (Worktree.execution_id w)); ("path", Str (Worktree.path w));
          ("branch", Str (Worktree.branch w)); ("base_sha", Str (Worktree.base_sha w));
          ("repository", Str (Worktree.repository w))].

Definition mount_value (m : VerifiedBindMount) : Database.Value :=
  Object [("source", Str (VerifiedBindMount.source m)); ("target", Str (VerifiedBindMount.target m));
          ("writable", Bool (VerifiedBindMount.writable m))].

Definition runtime_value (h : EnvironmentHandle) : Database.Value :=
  let agent := EnvironmentHandle.verified_agent_container h in
  Object [("execution_id", Str (EnvironmentHandle.execution_id h));
          ("network", Str (EnvironmentHandle.network h));
          ("agent_container", Str (EnvironmentHandle.agent_container h));
          ("container_id", Str (VerifiedAgentContainer.container_id agent));
          ("daemon_id", Str (VerifiedAgentContainer.daemon_id agent));
          ("labels", labels_value (VerifiedAgentContainer.labels agent));
          ("mounts", Array (mount_value <$> VerifiedAgentContainer.mounts agent));
          ("service_containers", Array (Str <$> EnvironmentHandle.service_containers h));
          ("volumes", Array (Str <$> EnvironmentHandle.volumes h));
          ("credentials_path", value_of_option Str (EnvironmentHandle.credentials_path h))].

Definition session_value (s : SessionRef) : Database.Value :=
  Object [("id", Str (SessionRef.id s)); ("path", Str (SessionRef.path s));
          ("execution_id", Str (SessionRef.execution_id s));
          ("worktree_path", Str (SessionRef.worktree_path s))].

Definition cleanup_handles (execution : Execution) (g : CleanupGuard) : Database.Value :=
  Object [("receipt", value_of_option receipt_value (CleanupGuard.receipt g));
          ("worktree", value_of_option worktree_value (CleanupGuard.worktree g));
          ("runtime", value_of_option runtime_value (CleanupGuard.environment g));
          ("runtime_selector", if CleanupGuard.runtime_created g
                               then labels_value (Execution.labels execution) else Null);
          ("session", value_of_option session_value (CleanupGuard.session g))].

(** [transition_cleanup] and [transition_authority]. *)
Definition transition_cleanup (expected next : CleanupDisposition) : task Locals unit :=
  l ← local_get (fun l => l);
  store_or (fun now => CleanupStore.transition now (Execution.id (tracked l)) expected next
                         (cleanup_handles (tracked l) (guard l))).

(** [execution.transition(next).map_err(|e| Invalid(e.to_string()))?]. *)
Definition transition_tracked (next : ExecutionState) : task Locals unit :=
  e ← local_get tracked;
  now ← perform UtcNow;
  match Execution.transition next now e with
  | Ok e => local_set (on_tracked (fun _ => e))
  | Err error => raise (WorkerError.Invalid (core_error_text error))
  end.

Definition progress_event (e : Execution) (at_ : Timestamp) (kind : ExecutionEventKind) :
  ExecutionEvent := {|
  ExecutionEvent.execution_id := Execution.id e; ExecutionEvent.attempt_id := Execution.attempt_id e;
  ExecutionEvent.sequence := 0; ExecutionEvent.at_ := at_;
  ExecutionEvent.state := Execution.state e; ExecutionEvent.kind := kind |}.

Definition record (kind : ExecutionEventKind) : task Locals unit :=
  e ← local_get tracked;
  at_ ← perform UtcNow;
  _ ← store_or (fun now => record_progress now e (progress_event e at_ kind));
  mret tt.

Definition persist_failure (failure : FailureClass) : task Locals unit :=
  _ ← transition_tracked ExecutionState.Failed;
  _ ← local_set (on_tracked (fun e => Execution.set_result
        (Some (failed_result (Execution.id e) ExecutionState.Failed failure)) e));
  record (ExecutionEventKind.ExecutionFailed failure).

(** [{failure:?}]. *)
Definition failure_debug (f : FailureClass) : string :=
  match f with
  | FailureClass.EnvironmentFailed => "EnvironmentFailed"
  | FailureClass.HarnessFailed => "HarnessFailed" | FailureClass.ModelFailed => "ModelFailed"
  | FailureClass.Inactivity => "Inactivity"
  | FailureClass.Timeout => "Timeout" | FailureClass.ResourceViolation => "ResourceViolation"
  | FailureClass.WorkerLost => "WorkerLost" | FailureClass.Cancelled => "Cancelled"
  | FailureClass.TaskFailed => "TaskFailed" | FailureClass.Internal => "Internal"
  end.

Definition fail_execution {A} (failure : FailureClass) : task Locals A :=
  _ ← persist_failure failure;
  raise (WorkerError.Lifecycle (LifecycleError.Step
    ("execution failed: " +:+ failure_debug failure))).

(** ** Interactive controls *)

Definition guard_receipt (message : string) : task Locals AllocationReceipt :=
  g ← local_get guard;
  require_or (CleanupGuard.receipt g) (WorkerError.Invalid message).
Definition guard_environment (message : string) : task Locals EnvironmentHandle :=
  g ← local_get guard;
  require_or (CleanupGuard.environment g) (WorkerError.Invalid message).

Definition health_pause (health : HealthMonitor) : task Locals HealthMonitor :=
  now ← perform InstantNow; mret (HealthMonitor.pause now health).
Definition health_resume (health : HealthMonitor) : task Locals HealthMonitor :=
  now ← perform InstantNow; mret (HealthMonitor.resume now health).

(** The [ForkConversation] arm up to the forked session: the agent is paused,
    the conversation forked, and the forked session resumed if the execution
    was running. *)
Definition fork_session (health : HealthMonitor) (session : SessionRef)
    (control : PendingExecutionControl) (already_applied : bool) :
  task Locals (SessionRef * HealthMonitor) :=
  target ← require_or (PendingExecutionControl.target_session_id control)
    (WorkerError.Invalid "conversation fork lacks fenced target");
  execution ← local_get tracked;
  let was_running :=
    bool_decide (PendingExecutionControl.accepted_state control = ExecutionState.Running) in
  let resume_forked (forked : SessionRef) : task Locals unit :=
    receipt ← guard_receipt "fork resume lacks storage authority";
    environment ← guard_environment "fork resume lacks runtime authority";
    life (Call.resume execution receipt environment forked) in
  fh ← (if already_applied then
          mret ({| SessionRef.id := target; SessionRef.path := SessionRef.path session;
                   SessionRef.execution_id := Execution.id execution;
                   SessionRef.worktree_path := SessionRef.worktree_path session |}, health)
        else
          health ← (if was_running then
                      _ ← life (Call.pause execution session); health_pause health
                    else mret health);
          forked ← life (Call.fork_conversation execution session target);
          _ ← perform (Reached ControlCheckpoint.ForkLaunched);
          _ ← life (Call.pause execution forked);
          health ← (if was_running then _ ← resume_forked forked; health_resume health
                    else mret health);
          mret (forked, health));
  let '(forked, health) := fh in
  health ← (if already_applied && was_running then
              _ ← resume_forked forked;
              _ ← perform (Reached ControlCheckpoint.RunningRestored);
              health_resume health
            else mret health);
  mret (forked, health).

(** The [match control.request.action] of [handle_control]: the side effect,
    with the new session and the event to record. *)
Definition apply_control (health : HealthMonitor) (session : SessionRef)
    (control : PendingExecutionControl) :
  task Locals (HealthMonitor * SessionRef * ExecutionEventKind) :=
  let already_applied := match PendingExecutionControl.phase control with
                         | ExecutionControlPhase.SideEffectApplied => true | _ => false end in
  execution ← local_get tracked;
  match ExecutionControlRequest.action (PendingExecutionControl.request control) with
  | ExecutionControlAction.Pause =>
      _ ← when_task (negb (bool_decide (Execution.state execution = ExecutionState.Running)))
            (raise (WorkerError.Invalid "pause requires RUNNING"));
      _ ← when_task (negb already_applied) (
            _ ← life (Call.pause execution session);
            perform (Reached ControlCheckpoint.PauseStopped));
      health ← health_pause health;
      _ ← transition_tracked ExecutionState.PausedForHuman;
      mret (health, session, ExecutionEventKind.ExecutionPaused)
  | ExecutionControlAction.Resume =>
      _ ← when_task (negb (bool_decide (Execution.state execution = ExecutionState.PausedForHuman)))
            (raise (WorkerError.Invalid "resume requires PAUSED_FOR_HUMAN"));
      receipt ← guard_receipt "resume lacks storage authority";
      environment ← guard_environment "resume lacks runtime authority";
      _ ← life (Call.resume execution receipt environment session);
      _ ← when_task (negb already_applied) (perform (Reached ControlCheckpoint.ResumeLaunched));
      _ ← perform (Reached ControlCheckpoint.RunningRestored);
      health ← health_resume health;
      _ ← transition_tracked ExecutionState.Running;
      mret (health, session, ExecutionEventKind.ExecutionResumed)
  | ExecutionControlAction.ForkConversation =>
      fh ← fork_session health session control already_applied;
      let '(forked, health) := fh in
      _ ← when_task (negb (bool_decide (SessionRef.execution_id forked = Execution.id execution)) ||
                     negb (bool_decide (SessionRef.worktree_path forked = SessionRef.worktree_path session)) ||
                     bool_decide (SessionRef.id forked = SessionRef.id session))
            (raise (WorkerError.Invalid "conversation fork changed execution/workspace authority"));
      _ ← local_set (on_guard (CleanupGuard.set_session forked));
      now ← perform UtcNow;
      _ ← local_set (on_tracked (Execution.set_session (Some (SessionRef.id forked)) now));
      mret (health, forked, ExecutionEventKind.ConversationForked (SessionRef.id forked))
  end.

Definition handle_control (health : HealthMonitor) (session : SessionRef)
    (control : PendingExecutionControl) : task Locals (HealthMonitor * SessionRef) :=
  execution ← local_get tracked;
  let request := PendingExecutionControl.request control in
  let request_id := ExecutionControlRequest.request_id request in
  _ ← when_task (negb (bool_decide (ExecutionControlRequest.execution_id request = Execution.id execution)))
        (raise (WorkerError.Invalid "interactive control belongs to another execution"));
  attempt_id ← require_or (Execution.attempt_id execution)
    (WorkerError.Invalid "interactive control lacks attempt");
  worker_id ← require_or (Execution.worker_id execution)
    (WorkerError.Invalid "interactive control lacks worker");
  _ ← store_or (fun now => begin_control now request_id worker_id attempt_id);
  _ ← perform (Reached ControlCheckpoint.ApplyingPersisted);
  applied ← apply_control health session control;
  let '(health, session, kind) := applied in
  execution ← local_get tracked;
  _ ← store_or (fun now =>
        mark_control_side_effect_applied now request_id (Execution.session_id execution));
  _ ← perform (Reached ControlCheckpoint.SideEffectPersisted);
  let event := progress_event execution (Execution.updated_at execution) kind in
  _ ← perform (Reached ControlCheckpoint.BeforeCompletion);
  _ ← store_or (fun now => complete_control now request_id execution event);
  mret (health, session).

(** ** The event loop of [drive_running] *)

(** [chrono::Duration::from_std(d).unwrap_or_default()], with [d] in
    nanoseconds; the largest duration is [i64::MAX] milliseconds. *)
Definition duration_or_default (d : Z) : Z := if d <=? i64_max * 1000000 then d else 0.

(** The watchdog sample of one iteration, if it is due. *)
Definition emit_sample (health : HealthMonitor) (throttle : SampleThrottle)
    (verdict : WatchdogVerdict) (sample : ResourceSample) : task Locals SampleThrottle :=
  now ← perform InstantNow;
  if SampleThrottle.is_due throttle now verdict then
    utc ← perform UtcNow;
    let last_progress_at :=
      utc - duration_or_default (duration_since now (HealthMonitor.last_progress_at health)) in
    _ ← record (ExecutionEventKind.WatchdogSample verdict (ResourceSample.current_command sample)
          (Some last_progress_at) (Some (ResourceSample.cpu_percent sample))
          (ResourceSample.rss_bytes sample) (ResourceSample.io_bytes sample)
          (ResourceSample.disk_bytes sample));
    mret (SampleThrottle.mark_emitted now verdict)
  else mret throttle.

(** The events of one poll; [true] is the [break 'events]. *)
Fixpoint handle_events (events : list ExecutionEvent) : task Locals bool :=
  match events with
  | [] => mret false
  | event :: events =>
      match ExecutionEvent.kind event with
      | ExecutionEventKind.ReviewReady => mret true
      | ExecutionEventKind.ExecutionFailed failure => fail_execution failure
      | kind =>
          e ← local_get tracked;
          _ ← store_or (fun now => record_progress now e {|
                ExecutionEvent.execution_id := ExecutionEvent.execution_id event;
                ExecutionEvent.attempt_id := Execution.attempt_id e;
                ExecutionEvent.sequence := ExecutionEvent.sequence event;
                ExecutionEvent.at_ := ExecutionEvent.at_ event;
                ExecutionEvent.state := Execution.state e; ExecutionEvent.kind := kind |});
          handle_events events
      end
  end.

(** What one pass of the loop decides: another pass, or the break. *)
Definition pass : Type := (HealthMonitor * SampleThrottle * SessionRef) + SessionRef.

Definition control_pass (health : HealthMonitor) (throttle : SampleThrottle) (session : SessionRef)
    (control : option PendingExecutionControl) (closed : string) : task Locals pass :=
  control ← require_or control (WorkerError.Invalid closed);
  hs ← handle_control health session control;
  mret (M := task Locals) (inl (hs.1, throttle, hs.2)).

(** The watchdog and the polled events of one pass. *)
Definition assess_pass (health : HealthMonitor) (throttle : SampleThrottle) (session : SessionRef)
    (events : list ExecutionEvent) (sample : ResourceSample) : task Locals pass :=
  now ← perform InstantNow;
  let '(assessment, health) := HealthMonitor.assess now sample health in
  throttle ← emit_sample health throttle (verdict_of assessment) sample;
  _ ← match assessment with
      | HealthAssessment.Healthy | HealthAssessment.QuietHealthy _ => mret tt
      | HealthAssessment.InactiveWarning seconds => record (ExecutionEventKind.AgentInactive seconds)
      | HealthAssessment.Failed failure => fail_execution failure
      end;
  stop ← handle_events events;
  mret (M := task Locals) (if (stop : bool) then inr session else inl (health, throttle, session)).

Definition loop_pass (health : HealthMonitor) (throttle : SampleThrottle) (session : SessionRef) :
  task Locals pass :=
  cancelled ← perform LoadCancelled;
  if (cancelled : bool) then raise WorkerError.Cancelled
  else
    execution ← local_get tracked;
    if bool_decide (Execution.state execution = ExecutionState.PausedForHuman) then
      control ← perform SelectControl;
      match control with
      | None => raise WorkerError.Cancelled
      | Some control =>
          control_pass health throttle session control
            "interactive control channel closed while paused"
      end
    else
      polled ← perform (Select (Call.poll execution session));
      match polled with
      | CancelSeen => raise WorkerError.Cancelled
      | Received control =>
          control_pass health throttle session control
            "interactive control channel closed while running"
      | Ready a =>
          events ← answered a;
          health ← match events with
                   | [] => mret health
                   | _ => now ← perform InstantNow; mret (HealthMonitor.record_event now health)
                   end;
          sampled ← perform (Select (Call.resource_sample execution));
          match sampled with
          | CancelSeen => raise WorkerError.Cancelled
          | Received control =>
              control_pass health throttle session control
                "interactive control channel closed during health probe"
          | Ready a => sample ← answered a; assess_pass health throttle session events sample
          end
      end.

Fixpoint event_loop (fuel : nat) (health : HealthMonitor) (throttle : SampleThrottle)
    (session : SessionRef) : task Locals SessionRef :=
  match fuel with
  | O => out_of_fuel
  | S fuel =>
      next ← loop_pass health throttle session;
      match next with
      | inr session => mret session
      | inl (health, throttle, session) => event_loop fuel health throttle session
      end
  end.

Definition requires_diff (role : Role) : bool :=
  match role with Role.Implementation | Role.Documentation => true | _ => false end.

(** The end of [drive_running]: stop the agent, keep the evidence, publish the
    review. *)
Definition publish_review (worktree : Worktree) (session : SessionRef) : task Locals ExecutionResult :=
  _ ← local_set (on_guard (CleanupGuard.set_session session));
  _ ← stop_agent;
  capture ← life (Call.capture worktree);
  execution ← local_get tracked;
  artifact ← life (Call.persist_evidence execution capture);
  if requires_diff (ExecutionManifest.role (Execution.manifest execution)) &&
     bool_decide (DiffCapture.changed_files capture = [])
  then fail_execution FailureClass.TaskFailed
  else
    _ ← transition_tracked ExecutionState.ReviewReady;
    execution ← local_get tracked;
    let result := {|
      ExecutionResult.execution_id := Execution.id execution;
      ExecutionResult.state := Execution.state execution; ExecutionResult.failure := None;
      ExecutionResult.branch := Some (Worktree.branch worktree);
      ExecutionResult.base_sha := Some (Worktree.base_sha worktree);
      ExecutionResult.diff_artifact := Some artifact; ExecutionResult.artifacts := [];
      ExecutionResult.tests := None |} in
    _ ← local_set (on_tracked (Execution.set_result (Some result)));
    _ ← transition_cleanup (CleanupDisposition.Active CleanupStage.Running)
          (CleanupDisposition.Active CleanupStage.PostPiBeforeEvent);
    l ← local_get (fun l => l);
    at_ ← perform UtcNow;
    let event := progress_event (tracked l) at_ ExecutionEventKind.ReviewReady in
    _ ← (if bool_decide (ExecutionManifest.persistence (Execution.manifest (tracked l)) =
                         PersistenceMode.Resumable) then
           _ ← store_or (fun now => record_progress_and_request_retention now (tracked l) event);
           mret tt
         else
           _ ← store_or (fun now => record_progress now (tracked l) event);
           store_or (fun now => fence_for_cleanup now (Execution.id (tracked l))
                                  (cleanup_handles (tracked l) (guard l))));
    mret result.

Definition drive_running (fuel : nat) (worktree : Worktree) (session : SessionRef) :
  task Locals ExecutionResult :=
  started_at ← perform InstantNow;
  execution ← local_get tracked;
  let health := HealthMonitor.default_at started_at in
  let health := if bool_decide (Execution.state execution = ExecutionState.PausedForHuman)
                then HealthMonitor.pause started_at health else health in
  session ← event_loop fuel health SampleThrottle.empty session;
  publish_review worktree session.

(** ** The attempt *)

Definition run_inner (fuel : nat) : task Locals ExecutionResult :=
  execution ← local_get tracked;
  _ ← when_task (negb (bool_decide (Execution.state execution = ExecutionState.WorkerAssigned)))
        (raise (WorkerError.Invalid ("execution " +:+ Execution.id execution +:+ " is " +:+
           ExecutionState.debug (Execution.state execution) +:+ ", not WORKER_ASSIGNED")));
  cancelled ← perform LoadCancelled;
  _ ← when_task cancelled (raise WorkerError.Cancelled);
  receipt ← life (Call.allocate execution);
  _ ← local_set (on_guard (CleanupGuard.set_receipt receipt));
  _ ← transition_cleanup (CleanupDisposition.Active CleanupStage.Reserved)
        (CleanupDisposition.Active CleanupStage.Storage);
  worktree ← life (Call.create_worktree execution receipt);
  _ ← local_set (on_tracked (Execution.set_worktree_path (Some (Worktree.path worktree))));
  _ ← local_set (on_guard (CleanupGuard.set_worktree worktree));
  _ ← transition_cleanup (CleanupDisposition.Active CleanupStage.Storage)
        (CleanupDisposition.Active CleanupStage.Worktree);
  _ ← transition_tracked ExecutionState.Provisioning;
  _ ← local_set (on_guard (CleanupGuard.set_runtime_created true));
  _ ← transition_cleanup (CleanupDisposition.Active CleanupStage.Worktree)
        (CleanupDisposition.Active CleanupStage.Runtime);
  execution ← local_get tracked;
  environment ← life (Call.provision execution receipt worktree);
  _ ← local_set (on_guard (CleanupGuard.set_environment environment));
  _ ← record ExecutionEventKind.EnvironmentReady;
  packet ← require_or (ExecutionManifest.task_packet (Execution.manifest execution))
    (WorkerError.Invalid "execution manifest lacks compact TaskPacket");
  session ← life (Call.start execution receipt environment worktree packet);
  _ ← local_set (on_tracked (fun e =>
        Execution.set_session (Some (SessionRef.id session)) (Execution.updated_at e) e));
  _ ← local_set (on_guard (CleanupGuard.set_session session));
  _ ← transition_cleanup (CleanupDisposition.Active CleanupStage.Runtime)
        (CleanupDisposition.Active CleanupStage.PiStarted);
  _ ← transition_tracked ExecutionState.Running;
  _ ← transition_cleanup (CleanupDisposition.Active CleanupStage.PiStarted)
        (CleanupDisposition.Active CleanupStage.Running);
  drive_running fuel worktree session.

Definition adopt_inner (fuel : nat) : task Locals ExecutionResult :=
  execution ← local_get tracked;
  _ ← (if bool_decide (Execution.state execution = ExecutionState.Provisioning)
       then transition_tracked ExecutionState.Running
       else when_task (negb (bool_decide (Execution.state execution ∈
                               [ExecutionState.Running; ExecutionState.PausedForHuman])))
              (raise (WorkerError.Invalid ("execution " +:+ Execution.id execution +:+ " is " +:+
                 ExecutionState.debug (Execution.state execution) +:+ ", not RUNNING"))));
  execution ← local_get tracked;
  adopted ← life (Call.adopt execution);
  _ ← local_set (on_guard (fun g => CleanupGuard.set_session (AdoptedExecution.session adopted)
        (CleanupGuard.set_runtime_created true
          (CleanupGuard.set_environment (AdoptedExecution.environment adopted)
            (CleanupGuard.set_worktree (AdoptedExecution.worktree adopted)
              (CleanupGuard.set_receipt (AdoptedExecution.receipt adopted) g))))));
  worker_id ← require_or (Execution.worker_id execution)
    (WorkerError.Invalid "adopted execution lacks worker authority");
  controls ← store_or (fun _ => list_pending_controls worker_id);
  let has_pending_control := existsb (fun c => bool_decide
        (ExecutionControlRequest.execution_id (PendingExecutionControl.request c) =
         Execution.id execution)) controls in
  _ ← when_task (bool_decide (Execution.state execution = ExecutionState.Running) &&
                 negb has_pending_control) (
        receipt ← guard_receipt "adopted execution lacks receipt";
        environment ← guard_environment "adopted execution lacks runtime";
        life (Call.resume execution receipt environment (AdoptedExecution.session adopted)));
  _ ← transition_cleanup (CleanupDisposition.Active CleanupStage.Running)
        (CleanupDisposition.Active CleanupStage.Running);
  drive_running fuel (AdoptedExecution.worktree adopted) (AdoptedExecution.session adopted).
