(* ===== verification/Worker.v ===== *)
(** * The worker

    Models [crates/orchestrator-worker/src/lib.rs] and the two entry points of
    [run.rs]: an attempt with its teardown, the recovery of a cleanup authority
    from the phase it was left in, the reconciliation at startup and at every
    tick of the daemon. *)

From S2P Require Import Prelude Core WorkerTypes Health Database CleanupStore ExecutionStore Controls Reservations Lifecycle WorkerTask WorkerRun.

















(** ** [Worker::recover_cleanup_authority] *)
Section Recovery.
Context {S : Type}.

(** The phases the [while] loop works on. *)
Definition tearing_down (d : CleanupDisposition) : bool :=
  match d with
  | CleanupDisposition.CleanupPending | CleanupDisposition.RuntimeStopped
  | CleanupDisposition.RuntimeDestroyed | CleanupDisposition.GitRecoveredCleaned => true
  | _ => false
  end.

(** The phases that are fenced already. *)
Definition is_fenced (d : CleanupDisposition) : bool :=
  match d with
  | CleanupDisposition.RuntimeStopped | CleanupDisposition.RuntimeDestroyed
  | CleanupDisposition.GitRecoveredCleaned | CleanupDisposition.StorageReleased
  | CleanupDisposition.ReservationReleased | CleanupDisposition.CleanupPending => true
  | _ => false
  end.

Fixpoint teardown_loop (fuel : nat) (authority : CleanupAuthority) (execution : Execution)
    (d : CleanupDisposition) : task S CleanupDisposition :=
  if tearing_down d then
    match fuel with
    | O => out_of_fuel
    | Datatypes.S fuel =>
        _ ← when_task (negb (bool_decide (d = CleanupDisposition.GitRecoveredCleaned)))
              (life (Call.ack_cleanup_authority_step authority d));
        next ← life (Call.cleanup_authority_step authority execution d);
        _ ← store_or (fun now => CleanupStore.transition now (CleanupAuthority.execution_id authority)
              d next (CleanupAuthority.handles authority));
        teardown_loop fuel authority execution next
    end
  else mret d.

Definition complete_pending (pending : bool) (authority : CleanupAuthority) : task S unit :=
  when_task pending (
    _ ← store_or (fun now => complete_cancellation now (CleanupAuthority.execution_id authority)
          (CleanupAuthority.attempt_id authority));
    mret tt).

Definition recover_cleanup_authority (fuel : nat) (authority : CleanupAuthority)
    (execution : Execution) : task S unit :=
  let id := CleanupAuthority.execution_id authority in
  d ← persistence (disposition authority);
  pending ← store_or (fun _ => cancellation_requested id);
  if bool_decide (d = CleanupDisposition.Retained) && negb pending then mret tt
  else if bool_decide (d = CleanupDisposition.Resolved) then complete_pending pending authority
  else
    d ← (if is_fenced d then mret d
         else _ ← store_or (fun now => fence_for_cleanup now id (CleanupAuthority.handles authority));
              mret CleanupDisposition.CleanupPending);
    d ← teardown_loop fuel authority execution d;
    d ← (if bool_decide (d = CleanupDisposition.StorageReleased) then
           _ ← store_or (fun now => finalize_cleanup now id (CleanupAuthority.attempt_id authority));
           mret CleanupDisposition.ReservationReleased
         else mret d);
    _ ← when_task (bool_decide (d = CleanupDisposition.ReservationReleased)) (
          _ ← life (Call.ack_cleanup_authority_step authority d);
          store_or (fun now => resolve now id));
    complete_pending pending authority.

Definition reconcile_pending_cancellation (fuel : nat) (worker_id : WorkerId)
    (request : PendingCancellation) : task S unit :=
  let execution := PendingCancellation.execution request in
  let id := Execution.id execution in
  found ← store (fun _ => get_authority id);
  authority ← match found with
    | Ok authority => mret authority
    | Err (StoreError.NotFound _) =>
        attempt_id ← require_or (PendingCancellation.attempt_id request)
          (WorkerError.Invalid ("pending cancellation " +:+ id +:+ " lacks attempt authority"));
        _ ← store_or (fun now => begin now id attempt_id worker_id);
        store_or (fun _ => get_authority id)
    | Err error => raise (WorkerError.Persistence (store_error_text error))
    end;
  recover_cleanup_authority fuel authority execution.

(** The states and phases in which startup adopts a running attempt. *)
Definition adoptable (execution : Execution) (d : CleanupDisposition) : bool :=
  bool_decide (ExecutionManifest.persistence (Execution.manifest execution) = PersistenceMode.Resumable) &&
  bool_decide (Execution.state execution ∈
    [ExecutionState.Provisioning; ExecutionState.Running; ExecutionState.PausedForHuman]) &&
  bool_decide (d ∈ [CleanupDisposition.Active CleanupStage.PiStarted;
                    CleanupDisposition.Active CleanupStage.Running;
                    CleanupDisposition.Active CleanupStage.PostPiBeforeEvent]).

(** One pass of the loop of [reconcile_startup]: the execution to adopt, if
    any.  Errors that are only logged end the pass with [None]. *)
Definition startup_pass (fuel : nat) (worker_id : WorkerId) (reservations : list Reservation)
    (authority : CleanupAuthority) : task S (option Execution) :=
  let id := CleanupAuthority.execution_id authority in
  let attempt_id := CleanupAuthority.attempt_id authority in
  found ← store (fun _ => get id);
  match found, disposition authority with
  | Err _, _ | Ok _, Err _ => mret None
  | Ok execution, Ok d =>
      let same_attempt := bool_decide (Execution.worker_id execution = Some worker_id) &&
                          bool_decide (Execution.attempt_id execution = Some attempt_id) in
      pending ← store (fun _ => cancellation_requested (Execution.id execution));
      match pending with
      | Err _ => mret None
      | Ok true =>
          _ ← attempt (recover_cleanup_authority fuel authority execution); mret None
      | Ok false =>
          if same_attempt && adoptable execution d then mret (Some execution)
          else if same_attempt && bool_decide (Execution.state execution = ExecutionState.ReviewReady) &&
                  bool_decide (d ∈ [CleanupDisposition.RetainRequested; CleanupDisposition.Retained])
          then
            _ ← store_or (fun now =>
                  commit_retained_and_release_capacity now (Execution.id execution) attempt_id);
            mret None
          else
            let has_live_reservation := existsb (fun r =>
                  bool_decide (Execution.id (Reservation.execution r) = Execution.id execution) &&
                  bool_decide (Reservation.attempt_id r = attempt_id) &&
                  bool_decide (Reservation.worker_id r = worker_id)) reservations in
            _ ← when_task (same_attempt &&
                  negb (ExecutionState.is_terminal (Execution.state execution)) &&
                  has_live_reservation &&
                  match d with
                  | CleanupDisposition.Active _ | CleanupDisposition.CleanupPending => true
                  | _ => false end)
                (_ ← store_or (fun now => fence_lost_attempt now (Execution.id execution) attempt_id);
                 mret tt);
            _ ← attempt (recover_cleanup_authority fuel authority execution); mret None
      end
  end.

Fixpoint startup_loop (fuel : nat) (worker_id : WorkerId) (reservations : list Reservation)
    (authorities : list CleanupAuthority) : task S (list Execution) :=
  match authorities with
  | [] => mret []
  | authority :: authorities =>
      planned ← startup_pass fuel worker_id reservations authority;
      rest ← startup_loop fuel worker_id reservations authorities;
      mret (match planned with Some e => e :: rest | None => rest end)
  end.

(** The executions [reconcile_startup] hands to [spawn_adopted]. *)
Definition reconcile_startup `{Collation} (fuel : nat) (worker_id : WorkerId) :
  task S (list Execution) :=
  reservations ← store_or (fun _ => Reservations.list_for_worker worker_id);
  authorities ← store_or (fun _ => CleanupStore.list_for_worker worker_id);
  startup_loop fuel worker_id reservations authorities.
End Recovery.

(** ** The daemon tick *)

(** A spawned execution as the daemon sees it; [closed] when its task no longer
    receives controls. *)
Module ExecutionTask.
Record ExecutionTask := {
  execution_id : ExecutionId;
  cancelled : bool;
  signalled_controls : gset Z;
  controls : list PendingExecutionControl;
  closed : bool
}.

Definition cancel (t : ExecutionTask) : ExecutionTask := {|
  execution_id := execution_id t; cancelled := true; signalled_controls := signalled_controls t;
  controls := controls t; closed := closed t |}.

Definition signal_control (control : PendingExecutionControl) (t : ExecutionTask) :
  result WorkerError unit * ExecutionTask :=
  let id := ExecutionControlRequest.request_id (PendingExecutionControl.request control) in
  if bool_decide (id ∈ signalled_controls t) then (Ok tt, t)
  else
    let t' := {| execution_id := execution_id t; cancelled := cancelled t;
                 signalled_controls := {[ id ]} ∪ signalled_controls t;
                 controls := if closed t then controls t else controls t ++ [control];
                 closed := closed t |} in
    (if closed t then Err (WorkerError.Invalid "execution control channel closed") else Ok tt, t').
End ExecutionTask.
Abbreviation ExecutionTask := ExecutionTask.ExecutionTask.

Abbreviation Tasks := (list ExecutionTask).

Definition is_task (id : ExecutionId) (t : ExecutionTask) : bool :=
  bool_decide (ExecutionTask.execution_id t = id).

(** [tasks.iter().find(..)], with the update the method makes. *)
Fixpoint update_task (id : ExecutionId) (f : ExecutionTask -> ExecutionTask) (l : Tasks) : Tasks :=
  match l with
  | [] => []
  | t :: l => if is_task id t then f t :: l else t :: update_task id f l
  end.

Definition cancels (worker_id : WorkerId) (request : PendingCancellation) (l : Tasks) : Tasks :=
  if bool_decide (PendingCancellation.worker_id request = Some worker_id)
  then update_task (Execution.id (PendingCancellation.execution request)) ExecutionTask.cancel l
  else l.

Definition is_pending (pending : list PendingCancellation) (id : ExecutionId) : bool :=
  existsb (fun r => bool_decide (Execution.id (PendingCancellation.execution r) = id)) pending.

Definition signal_pass (pending : list PendingCancellation) (control : PendingExecutionControl) :
  task Tasks unit :=
  let id := Execution.id (PendingExecutionControl.execution control) in
  if is_pending pending id then mret tt
  else
    found ← local_get (List.find (is_task id));
    match found with
    | Some t =>
        _ ← local_set (update_task id (fun t => (ExecutionTask.signal_control control t).2));
        match (ExecutionTask.signal_control control t).1 with Ok _ => mret tt | Err e => raise e end
    | None =>
        _ ← store_or (fun now => begin_control now
              (ExecutionControlRequest.request_id (PendingExecutionControl.request control))
              (PendingExecutionControl.accepted_worker_id control)
              (PendingExecutionControl.accepted_attempt_id control));
        mret tt
    end.

(** The pending cancellations of this worker that no task of it runs. *)
Fixpoint cancellation_errors (fuel : nat) (worker_id : WorkerId) (requests : list PendingCancellation) :
  task Tasks (list string) :=
  match requests with
  | [] => mret []
  | request :: requests =>
      let id := Execution.id (PendingCancellation.execution request) in
      running ← local_get (existsb (is_task id));
      errors ← (if negb (bool_decide (PendingCancellation.worker_id request = Some worker_id)) || running
                then mret []
                else r ← attempt (reconcile_pending_cancellation fuel worker_id request);
                     mret (match r with
                           | Ok _ => []
                           | Err e => [("execution " +:+ id +:+ ": " +:+ WorkerError.to_string e)%string]
                           end));
      rest ← cancellation_errors fuel worker_id requests;
      mret (errors ++ rest)
  end.

Fixpoint authority_errors (fuel : nat) (pending : list PendingCancellation)
    (authorities : list CleanupAuthority) : task Tasks (list string) :=
  match authorities with
  | [] => mret []
  | authority :: authorities =>
      let id := CleanupAuthority.execution_id authority in
      errors ← (if is_pending pending id then mret []
                else match disposition authority with
                     | Ok d =>
                         if is_fenced d then
                           found ← store (fun _ => get id);
                           match found with
                           | Ok execution =>
                               r ← attempt (recover_cleanup_authority fuel authority execution);
                               mret (match r with
                                     | Ok _ => []
                                     | Err e => [("execution " +:+ id +:+ ": " +:+ WorkerError.to_string e)%string]
                                     end)
                           | Err error => mret [("execution " +:+ id +:+ " is unavailable: " +:+
                                                  store_error_text error)%string]
                           end
                         else mret []
                     | Err _ => mret []
                     end);
      rest ← authority_errors fuel pending authorities;
      mret (errors ++ rest)
  end.

(** [Vec<String>::join]. *)
Definition join_errors (errors : list string) : string := Strings.String.concat "; " errors.

Definition reconcile_daemon_tick `{Collation} (fuel : nat) (worker_id : WorkerId) : task Tasks unit :=
  pending ← store_or (fun _ => list_pending_cancellations);
  _ ← local_set (fun l => foldl (fun l request => cancels worker_id request l) l pending);
  controls ← store_or (fun _ => list_pending_controls worker_id);
  _ ← for_each_task (signal_pass pending) controls;
  errors ← cancellation_errors fuel worker_id pending;
  listed ← store (fun _ => CleanupStore.list_for_worker worker_id);
  more ← match listed with
         | Ok authorities => authority_errors fuel pending authorities
         | Err error => mret [("list cleanup authorities: " +:+ store_error_text error)%string]
         end;
  match errors ++ more with
  | [] => mret tt
  | errors => raise (WorkerError.Cleanup (join_errors errors))
  end.

(** ** The attempt and its teardown ([run.rs]) *)

Definition cleanup_phases : task Locals unit :=
  l ← local_get (fun l => l);
  let id := Execution.id (tracked l) in
  authority ← store_or (fun _ => get_authority id);
  d ← persistence (disposition authority);
  _ ← when_task (negb (bool_decide (d = CleanupDisposition.CleanupPending)))
        (store_or (fun now => fence_for_cleanup now id (cleanup_handles (tracked l) (guard l))));
  _ ← stop_runtime_process;
  _ ← transition_cleanup CleanupDisposition.CleanupPending CleanupDisposition.RuntimeStopped;
  _ ← destroy_runtime;
  _ ← transition_cleanup CleanupDisposition.RuntimeStopped CleanupDisposition.RuntimeDestroyed;
  _ ← destroy_worktree;
  _ ← transition_cleanup CleanupDisposition.RuntimeDestroyed CleanupDisposition.GitRecoveredCleaned;
  _ ← release_storage;
  transition_cleanup CleanupDisposition.GitRecoveredCleaned CleanupDisposition.StorageReleased.

Definition retain_for_resume (execution : Execution) (outcome : result WorkerError ExecutionResult) : bool :=
  is_ok outcome &&
  bool_decide (ExecutionManifest.persistence (Execution.manifest execution) = PersistenceMode.Resumable) &&
  negb (ExecutionState.is_terminal (Execution.state execution)).

(** [return outcome]. *)
Definition return_outcome {S A} (outcome : result WorkerError A) : task S A :=
  match outcome with Ok a => mret a | Err e => raise e end.

(** The part of a [Result] that goes to [cleanup_errors]. *)
Definition error_text {A} (r : result WorkerError A) : list string :=
  match r with Ok _ => [] | Err e => [WorkerError.to_string e] end.

(** Whether the attempt is being cancelled, by its flag or by the durable
    request, and the error of the lookup. *)
Definition lookup_cancellation (id : ExecutionId) (outcome : result WorkerError ExecutionResult) :
  task Locals (bool * list string) :=
  lookup ← store (fun _ => cancellation_requested id);
  let flagged := match outcome with Err WorkerError.Cancelled => true | _ => false end in
  mret (flagged || match lookup with Ok b => b | Err _ => false end,
        match lookup with
        | Ok _ => []
        | Err e => [("read durable cancellation request: " +:+ store_error_text e)%string]
        end).

(** A failed attempt that is not over and not cancelled is recorded as failed. *)
Definition record_failure (failure : FailureClass) (outcome : result WorkerError ExecutionResult)
    (cancellation : bool) : task Locals (list string) :=
  execution ← local_get tracked;
  if negb (is_ok outcome) && negb (ExecutionState.is_terminal (Execution.state execution)) &&
     negb cancellation
  then r ← attempt (persist_failure failure); mret (error_text r)
  else mret [].

(** The failure class of an attempt, from how far it got. *)
Definition failure_of (g : CleanupGuard) : FailureClass :=
  if bool_decide (CleanupGuard.environment g = None) then FailureClass.EnvironmentFailed
  else if bool_decide (is_Some (CleanupGuard.session g)) then FailureClass.HarnessFailed
  else FailureClass.Internal.

(** The teardown, the finalization and the acknowledgement; [errors] are the
    errors before it. *)
Definition finish_cleanup (id : ExecutionId) (attempt_id : AttemptId) (errors : list string) :
  task Locals (list string) :=
  cleaned ← attempt cleanup_phases;
  let errors := errors ++ error_text cleaned in
  if is_ok cleaned then
    finalized ← store (fun now => finalize_cleanup now id attempt_id);
    match finalized with
    | Err error => mret (errors ++ [store_error_text error])
    | Ok _ =>
        found ← store (fun _ => get_authority id);
        more ← match found with
               | Ok authority =>
                   r ← attempt (life (Call.ack_cleanup_authority_step authority
                                        CleanupDisposition.ReservationReleased));
                   mret (error_text r)
               | Err error => mret [store_error_text error]
               end;
        let errors := errors ++ more in
        match errors with
        | [] =>
            resolved ← store (fun now => resolve now id);
            mret (match resolved with Ok _ => [] | Err error => [store_error_text error] end)
        | _ => mret errors
        end
    end
  else mret errors.

(** The common end of the two entry points. *)
Definition finish_attempt (id : ExecutionId) (attempt_id : AttemptId) (cancellation : bool)
    (errors : list string) (outcome : result WorkerError ExecutionResult) :
  task Locals ExecutionResult :=
  execution ← local_get tracked;
  if retain_for_resume execution outcome then
    _ ← store_or (fun now => commit_retained_and_release_capacity now id attempt_id);
    return_outcome outcome
  else
    errors ← finish_cleanup id attempt_id errors;
    errors ← match errors, cancellation with
             | [], true =>
                 completed ← store (fun now => complete_cancellation now id attempt_id);
                 mret (match completed with Ok _ => [] | Err error => [store_error_text error] end)
             | _, _ => mret errors
             end;
    match errors, outcome with
    | [], _ => return_outcome outcome
    | _, Ok _ => raise (WorkerError.Cleanup (join_errors errors))
    | _, Err error => raise (WorkerError.ExecutionAndCleanup (WorkerError.to_string error)
                               (join_errors errors))
    end.

Definition with_locals {S A} (l : Locals) (m : task Locals A) : task S A := fun s =>
  m l ≫= fun r => Done (r.1, s).

Definition run_with_cancel_and_controls {S} (fuel : nat) (execution : Execution) :
  task S ExecutionResult :=
  attempt_id ← require_or (Execution.attempt_id execution)
    (WorkerError.Invalid "execution lacks attempt authority");
  worker_id ← require_or (Execution.worker_id execution)
    (WorkerError.Invalid "execution lacks worker authority");
  let id := Execution.id execution in
  begun ← store (fun now => begin now id attempt_id worker_id);
  match begun with
  | Err error =>
      let authority := WorkerError.Persistence (store_error_text error) in
      released ← store (fun _ => release id);
      match released with
      | Ok _ => raise authority
      | Err release => raise (WorkerError.ExecutionAndCleanup (WorkerError.to_string authority)
                                ("release conflicting reservation: " +:+ store_error_text release))
      end
  | Ok _ =>
      with_locals {| tracked := execution; guard := CleanupGuard.new execution |} (
        outcome ← catch_unwind (run_inner fuel);
        ce ← lookup_cancellation id outcome;
        g ← local_get guard;
        failed ← record_failure (failure_of g) outcome ce.1;
        finish_attempt id attempt_id ce.1 (ce.2 ++ failed) outcome)
  end.

Definition run_adopted_with_cancel_and_controls {S} (fuel : nat) (execution : Execution) :
  task S ExecutionResult :=
  attempt_id ← require_or (Execution.attempt_id execution)
    (WorkerError.Invalid "execution lacks attempt authority");
  worker_id ← require_or (Execution.worker_id execution)
    (WorkerError.Invalid "execution lacks worker authority");
  let id := Execution.id execution in
  _ ← store_or (fun now => begin now id attempt_id worker_id);
  with_locals {| tracked := execution; guard := CleanupGuard.new execution |} (
    outcome ← catch_unwind (adopt_inner fuel);
    ce ← lookup_cancellation id outcome;
    failed ← record_failure FailureClass.WorkerLost outcome ce.1;
    let errors := ce.2 ++ failed in
    l ← local_get (fun l => l);
    match outcome, CleanupGuard.receipt (guard l) with
    | Err error, None =>
        found ← store (fun _ => get_authority id);
        recovered ← match found with
          | Ok authority =>
              r ← attempt (recover_cleanup_authority fuel authority (tracked l)); mret (error_text r)
          | Err e => mret [store_error_text e]
          end;
        let errors := errors ++
          ((fun e => "durable adoption cleanup remains unresolved: " +:+ e)%string <$> recovered) in
        match errors with
        | [] => raise error
        | _ => raise (WorkerError.ExecutionAndCleanup (WorkerError.to_string error) (join_errors errors))
        end
    | _, _ => finish_attempt id attempt_id ce.1 errors outcome
    end).
