(* ===== verification/WorkerSafety.v ===== *)
(** * Durable before done

    The worker records a phase of the cleanup authority before it creates or
    destroys what the phase covers.  The file proves it for every run of the
    worker's entry points, with other processes acting on the database in
    between, any answers from the outside world, and a crash anywhere.

    The first part are triples for the tasks of [WorkerTask]: a precondition and
    a postcondition that other processes cannot invalidate, a condition [G] on
    every call, an invariant [I] of the locals that holds whatever the outcome.
    The assertion they are used with is [recorded]: the cleanup authority of an
    attempt has reached a phase. *)


From S2P Require Import Prelude Core WorkerTypes Health Database CleanupStore ExecutionStore Controls Reservations Steps AuthorityOrder ExecutionHistory ControlHistory Lifecycle WorkerTask WorkerRun Worker.

(** ** Assertions no store operation invalidates *)
Class Stable `{Collation} (P : Database -> Prop) : Prop :=
  stable_step : forall db db', step db db' -> P db -> P db'.

Section Stable.
Context `{Collation}.

Lemma stable_later (P : Database -> Prop) `{!Stable P} db db' : rtc step db db' -> P db -> P db'.
Proof. induction 1 as [|db1 db2 db3 H12 _ IH]; [done|]. intros HP. by apply IH, (stable_step _ _ H12). Qed.

#[export] Instance stable_pure (X : Prop) : Stable (fun _ => X).
Proof. by intros ???. Qed.
#[export] Instance stable_and P Q : Stable P -> Stable Q -> Stable (fun db => P db /\ Q db).
Proof. intros HP HQ db db' Hs []. split; by eapply stable_step. Qed.
#[export] Instance stable_or P Q : Stable P -> Stable Q -> Stable (fun db => P db \/ Q db).
Proof. intros HP HQ db db' Hs []; [left|right]; by eapply stable_step. Qed.
#[export] Instance stable_impl (X : Prop) P : Stable P -> Stable (fun db => X -> P db).
Proof. intros HP db db' Hs HX x. eapply stable_step; [done|auto]. Qed.

(** The authority of an execution belongs to the attempt and worker, and its
    phase ranks at least [k]. *)
Definition recorded (id : ExecutionId) (a : AttemptId) (w : WorkerId) (k : Z) (db : Database) : Prop :=
  exists c, cleanup_authorities db !! id = Some c /\ CleanupAuthority.attempt_id c = a /\
    CleanupAuthority.worker_id c = w /\ k <= phase_rank c.

#[export] Instance recorded_stable id a w k : Stable (recorded id a w k).
Proof.
  intros db db' Hs (c & Hc & Ha & Hw & Hk).
  destruct (as_old _ _ (step_authorities _ _ Hs) id c Hc) as (c' & Hc' & _ & Ha' & Hw' & Hr).
  exists c'. split_and!; [done|congruence|congruence|lia].
Qed.

Lemma recorded_le id a w k k' db : recorded id a w k db -> k' <= k -> recorded id a w k' db.
Proof. intros (c & ? & ? & ? & ?) ?. exists c. split_and!; [done..|lia]. Qed.

(** The execution is cancelled for good. *)
Definition cancelled_for_good (id : ExecutionId) (db : Database) : Prop := keyed db /\ cancelled id db.

#[export] Instance cancelled_stable id : Stable (cancelled_for_good id).
Proof.
  intros db db' Hs [Hk (row & Hrow & Hst)].
  destruct (rows_later db db' id row Hk (rtc_once _ _ Hs) Hrow) as (row' & Hrow' & Hl).
  split; [by eapply execs_step_keyed; [apply step_execs|]|].
  exists row'. split; [done|]. rewrite (rl_final _ _ Hl); [done|by rewrite Hst].
Qed.

#[export] Instance keyed_stable : Stable keyed.
Proof. intros db db' Hs Hk. by eapply execs_step_keyed; [apply step_execs|]. Qed.
End Stable.

(** ** Triples *)
Section Hoare.
Context `{Collation} {S : Type}.
Context (G : Database -> forall B, action B -> Prop) (I : S -> Prop).

Definition hoare {A} (P : Database -> Prop) (m : task S A) (s : S)
    (Q : A -> S -> Database -> Prop) : Prop :=
  I s -> forall tr db, P db ->
    wp G (m s) (fun r _ db' => I r.2 /\ P db' /\
                  match r.1 with Value a => Q a r.2 db' | _ => True end) tr db.

Lemma task_hoare_bind {A B} P `{!Stable P} (m : task S A) (f : A -> task S B) s Q R :
  hoare P m s Q -> (forall a s', I s' -> hoare (fun db => P db /\ Q a s' db) (f a) s' R) ->
  hoare P (m ≫= f) s R.
Proof.
  intros Hm Hf HI tr db HP. apply wp_bind. eapply wp_mono; [by apply Hm|].
  intros [[a|e|p] s'] tr' db' _ (HI' & HP' & HQ); simpl in *.
  - eapply wp_mono; [by apply Hf|]. intros [[?|?|?] s''] ??? (? & [? ?] & ?); simpl in *; done.
  - intros db1 Hs. split_and!; [done|by eapply stable_later|done].
  - intros db1 Hs. split_and!; [done|by eapply stable_later|done].
Qed.

Lemma hoare_done {A} P `{!Stable P} (m : task S A) s o s' Q :
  m s = Done (o, s') -> (I s -> I s') ->
  (forall db, P db -> match o with Value a => Q a s' db | _ => True end) -> hoare P m s Q.
Proof.
  intros Hm HI' HQ HI tr db HP. rewrite Hm. intros db1 Hs. simpl.
  assert (P db1) by (by eapply stable_later). split_and!; [auto|done|by apply HQ].
Qed.

Lemma task_hoare_ret {A} P `{!Stable P} (a : A) s Q : (forall db, P db -> Q a s db) -> hoare P (mret a) s Q.
Proof. intros HQ. by eapply hoare_done. Qed.
Lemma hoare_ret_bind {A B} P (a : A) (f : A -> task S B) s Q :
  hoare P (f a) s Q -> hoare P (mret a ≫= f) s Q.
Proof. done. Qed.
Lemma hoare_raise {A} P `{!Stable P} e s Q : hoare P (raise (A := A) e) s Q.
Proof. by eapply hoare_done. Qed.
Lemma hoare_get {A} P `{!Stable P} (f : S -> A) s Q :
  (forall db, P db -> Q (f s) s db) -> hoare P (local_get f) s Q.
Proof. intros HQ. by eapply hoare_done. Qed.
Lemma hoare_set P `{!Stable P} f s Q :
  (I s -> I (f s)) -> (forall db, P db -> Q tt (f s) db) -> hoare P (local_set f) s Q.
Proof. intros HI HQ. by eapply hoare_done. Qed.
Lemma hoare_fuel {A} P s (Q : A -> S -> Database -> Prop) : hoare P out_of_fuel s Q.
Proof. by intros ???. Qed.

Lemma task_hoare_mono {A} P P' `{!Stable P'} (m : task S A) s Q Q' :
  hoare P m s Q -> (forall db, P' db -> P db) ->
  (forall a s' db, I s' -> P db -> P' db -> Q a s' db -> Q' a s' db) -> hoare P' m s Q'.
Proof.
  intros Hm HP HQ HI tr db HP'. eapply wp_mono; [apply Hm; auto|].
  intros [[a|e|p] s'] tr' db' Hs (HI' & HP1 & HQ1); simpl in *;
    (assert (P' db') by (by eapply stable_later)); split_and!; auto.
Qed.

(** A fact that follows from the precondition may be used in the proof. *)
Lemma hoare_assume {A} P (X : Prop) (m : task S A) s Q :
  (forall db, P db -> X) -> (X -> hoare P m s Q) -> hoare P m s Q.
Proof. intros HX Hm HI tr db HP. apply Hm; eauto. Qed.

Lemma hoare_perform {B} P `{!Stable P} (act : action B) s Q `{!forall b, Stable (Q b s)} :
  lawful act -> (forall db, P db -> G db B act) ->
  (forall b db db', P db -> act_step act db b db' -> Q b s db') -> hoare P (perform act) s Q.
Proof.
  intros Hl HG HQ HI tr db HP db1 Hs. assert (HP1 : P db1) by (by eapply stable_later).
  split_and!; [done|auto|]. intros b db2 Hact db3 Hs3. simpl. split_and!; [done| |].
  - apply (stable_later P db1); [|done]. etrans; [by eapply act_later|done].
  - apply (stable_later (Q b s) db2); eauto.
Qed.

(** A store call: only its success tells something. *)
Lemma hoare_store_or {A} P `{!Stable P} (op : Clock -> Op A) s Q `{!forall a, Stable (Q a)} :
  lawful (Store op) -> (forall db, P db -> G db _ (Store op)) ->
  (forall a now db db', P db -> op now db = (Ok a, db') -> Q a db') ->
  hoare P (store_or op) s (fun a s' db => s' = s /\ Q a db).
Proof.
  intros Hl HG HQ. unfold store_or.
  eapply task_hoare_bind with (Q := fun r s' db => s' = s /\
    match r with Ok a => Q a db | Err _ => True end); [done| |].
  - apply hoare_perform; try done; [intros []; apply _|].
    intros [a|e] db db' HP; simpl; [|done]. intros [now Hop]. split; [done|eauto].
  - intros [a|e] s' HI; simpl; [|apply hoare_raise; apply _].
    apply task_hoare_ret; [apply _|]. tauto.
Qed.

Lemma hoare_store {A} P `{!Stable P} (op : Clock -> Op A) s :
  lawful (Store op) -> (forall db, P db -> G db _ (Store op)) ->
  hoare P (store op) s (fun _ s' _ => s' = s).
Proof. intros Hl HG. apply hoare_perform; try done; intros; apply _. Qed.

Lemma hoare_answered {A} P `{!Stable P} (a : answer A) s : hoare P (answered a) s (fun _ s' _ => s' = s).
Proof. destruct a as [[x|e]|m]; by eapply hoare_done. Qed.

Lemma hoare_call {B} P `{!Stable P} (act : action B) s :
  lawful act -> (forall db, P db -> G db _ act) -> hoare P (perform act) s (fun _ s' _ => s' = s).
Proof. intros Hl HG. apply hoare_perform; try done; intros; apply _. Qed.

Lemma hoare_life {A} P `{!Stable P} (c : lifecycle_call A) s :
  (forall db, P db -> G db _ (Life c)) -> hoare P (life c) s (fun _ s' _ => s' = s).
Proof.
  intros HG. eapply task_hoare_bind; [done|by apply hoare_call|]. intros a s' HI. simpl.
  eapply task_hoare_mono; [apply _|apply (hoare_answered P)|simpl; tauto|simpl; intuition congruence].
Qed.

Lemma hoare_life_within {A} P `{!Stable P} (c : lifecycle_call A) t s :
  (forall db, P db -> G db _ (LifeWithin c)) -> hoare P (life_within c t) s (fun _ s' _ => s' = s).
Proof.
  intros HG. eapply task_hoare_bind; [done|by apply hoare_call|]. intros [a|] s' HI; simpl.
  - eapply task_hoare_mono; [apply _|apply (hoare_answered P)|simpl; tauto|simpl; intuition congruence].
  - apply hoare_raise. apply _.
Qed.

(** [attempt] and [catch_unwind] turn the outcome into a value. *)
Lemma hoare_attempt {A} P `{!Stable P} (m : task S A) s Q `{!forall a s', Stable (Q a s')} :
  hoare P m s Q ->
  hoare P (attempt m) s (fun r s' db => match r with Ok a => Q a s' db | Err _ => True end).
Proof.
  intros Hm HI tr db HP. apply wp_bind. eapply wp_mono; [by apply Hm|].
  intros [[a|e|p] s'] tr' db' _ (HI' & HP' & HQ) db1 Hs; simpl in *; split_and!; try done;
    by eapply stable_later.
Qed.

Lemma hoare_catch {A} P `{!Stable P} (m : task S A) s Q `{!forall a s', Stable (Q a s')} :
  hoare P m s Q ->
  hoare P (catch_unwind m) s (fun r s' db => match r with Ok a => Q a s' db | Err _ => True end).
Proof.
  intros Hm HI tr db HP. apply wp_bind. eapply wp_mono; [by apply Hm|].
  intros [[a|e|p] s'] tr' db' _ (HI' & HP' & HQ) db1 Hs; simpl in *; split_and!; try done;
    by eapply stable_later.
Qed.
End Hoare.

(** * Durable before done

    The worker records a phase of the cleanup authority before it creates or
    destroys what the phase covers.  The file proves it for every run of the
    worker's entry points, with other processes acting on the database in
    between, any answers from the outside world, and a crash anywhere. *)

(** The phase that must be on record before a lifecycle call is made: a
    resource is created once the authority says it may exist, and destroyed
    once the authority says what stood on it is gone. *)
Definition needs {A} (c : lifecycle_call A) : CleanupDisposition :=
  match c with
  | Call.create_worktree _ _ => CleanupDisposition.Active CleanupStage.Storage
  | Call.provision _ _ _ | Call.start _ _ _ _ _ => CleanupDisposition.Active CleanupStage.Runtime
  | Call.destroy_runtime _ => CleanupDisposition.RuntimeStopped
  | Call.destroy_worktree _ | Call.recover_interrupted_worktree _ _ =>
      CleanupDisposition.RuntimeDestroyed
  | Call.release_storage _ => CleanupDisposition.GitRecoveredCleaned
  | Call.cleanup_authority_step _ _ d => d
  | _ => CleanupDisposition.Active CleanupStage.Reserved
  end.

Definition write_ahead (id : ExecutionId) (a : AttemptId) (w : WorkerId) (db : Database) (B : Type)
    (act : action B) : Prop :=
  match act with
  | Life c | LifeWithin c | Select c => recorded id a w (rank (needs c)) db
  | _ => True
  end.

(** Store calls are operations of the transition system, or reads. *)
Ltac lawful := simpl; intros ?; first [left; constructor | right; intros ?; reflexivity].

Section Recorded.
Context `{Collation} {S : Type} (I : S -> Prop) (id : ExecutionId) (a : AttemptId) (w : WorkerId).

(** A task that starts with phase [k] on record and, if it returns, leaves
    phase [k'] on record. *)
Definition rspec {A} (k : Z) (m : task S A) (s : S) (k' : Z) (R : A -> S -> Prop) : Prop :=
  hoare (write_ahead id a w) I (recorded id a w k) m s (fun x s' db => R x s' /\ recorded id a w k' db).

Lemma rspec_bind {A B} k (m : task S A) (f : A -> task S B) s k1 R k' R' :
  rspec k m s k1 R -> (forall x s', I s' -> R x s' -> rspec k1 (f x) s' k' R') ->
  rspec k (m ≫= f) s k' R'.
Proof.
  intros Hm Hf. eapply task_hoare_bind; [apply _|exact Hm|]. intros x s' HI HI' tr db (HP & HR & HP1).
  eapply wp_mono; [by apply (Hf x s')|]. intros r tr' db' Hs (HI1 & HP2 & HQ). split_and!; try done.
  by apply (stable_later (recorded id a w k) db).
Qed.

Lemma rspec_mono {A} k k1 (m : task S A) s k' k1' (R R' : A -> S -> Prop) :
  rspec k m s k' R -> k <= k1 -> k1' <= k' -> (forall x s', I s' -> R x s' -> R' x s') ->
  rspec k1 m s k1' R'.
Proof.
  intros Hm Hk Hk' HR. eapply task_hoare_mono; [apply _|exact Hm| |].
  - intros db Hr. by eapply recorded_le.
  - intros x s' db HI _ _ [? ?]. split; [auto|by eapply recorded_le].
Qed.

Lemma rspec_ret {A} k (x : A) s (R : A -> S -> Prop) : R x s -> rspec k (mret x) s k R.
Proof. intros HR. apply task_hoare_ret; [apply _|done]. Qed.
Lemma rspec_ret_le {A} k (x : A) s k' (R : A -> S -> Prop) :
  k' <= k -> R x s -> rspec k (mret x) s k' R.
Proof. intros Hk HR. by apply (rspec_mono k k (mret x) s k k' R R); [apply rspec_ret|lia|lia|]. Qed.
Lemma rspec_raise {A} k e s k' (R : A -> S -> Prop) : rspec k (raise e) s k' R.
Proof. apply hoare_raise, _. Qed.
Lemma rspec_get {A} k (f : S -> A) s : rspec k (local_get f) s k (fun x s' => s' = s /\ x = f s).
Proof. apply hoare_get; [apply _|done]. Qed.
Lemma rspec_set k f s : (I s -> I (f s)) -> rspec k (local_set f) s k (fun _ s' => s' = f s).
Proof. intros. apply hoare_set; [apply _|done|done]. Qed.
Lemma rspec_fuel {A} k s k' (R : A -> S -> Prop) : rspec k out_of_fuel s k' R.
Proof. apply hoare_fuel. Qed.
Lemma rspec_require {A} k (o : option A) e s : rspec k (require_or o e) s k (fun x s' => s' = s /\ o = Some x).
Proof. destruct o; [by apply rspec_ret|apply rspec_raise]. Qed.
Lemma rspec_when k b (m : task S unit) s :
  rspec k m s k (fun _ _ => True) -> rspec k (when_task b m) s k (fun _ _ => True).
Proof. destruct b; [done|]. by intros; apply rspec_ret. Qed.

(** Calls. *)
Lemma rspec_perform {B} k (act : action B) s :
  lawful act -> (forall db, recorded id a w k db -> write_ahead id a w db B act) ->
  rspec k (perform act) s k (fun _ s' => s' = s).
Proof.
  intros Hl HG. eapply task_hoare_mono; [apply _|by apply (hoare_call _ _ (recorded id a w k))|done|].
  simpl. auto.
Qed.
Lemma rspec_life {A} k (c : lifecycle_call A) s :
  rank (needs c) <= k -> rspec k (life c) s k (fun _ s' => s' = s).
Proof.
  intros Hn. eapply task_hoare_mono; [apply _|apply (hoare_life _ _ (recorded id a w k))|done|simpl; auto].
  intros db Hr. simpl. by eapply recorded_le.
Qed.
Lemma rspec_life_within {A} k (c : lifecycle_call A) t s :
  rank (needs c) <= k -> rspec k (life_within c t) s k (fun _ s' => s' = s).
Proof.
  intros Hn. eapply task_hoare_mono; [apply _|apply (hoare_life_within _ _ (recorded id a w k))|done|simpl; auto].
  intros db Hr. simpl. by eapply recorded_le.
Qed.
Lemma rspec_answered {A} k (x : answer A) s : rspec k (answered x) s k (fun _ s' => s' = s).
Proof.
  eapply task_hoare_mono; [apply _|apply (hoare_answered _ _ (recorded id a w k))|done|simpl; auto].
Qed.
Lemma rspec_store {A} k (op : Clock -> Op A) s :
  lawful (Store op) -> rspec k (store op) s k (fun _ s' => s' = s).
Proof. intros Hl. by apply rspec_perform. Qed.
Lemma rspec_store_or {A} k (op : Clock -> Op A) s :
  lawful (Store op) -> rspec k (store_or op) s k (fun _ s' => s' = s).
Proof.
  intros Hl. eapply rspec_bind; [by apply rspec_store|]. intros [x|e] s' HI ->; simpl.
  - by apply rspec_ret.
  - apply rspec_raise.
Qed.
Lemma rspec_attempt {A} k (m : task S A) s k' R :
  rspec k m s k' R -> rspec k (attempt m) s k (fun _ _ => True).
Proof.
  intros Hm. eapply task_hoare_mono; [apply _|apply (hoare_attempt _ _ (recorded id a w k) m s
    (fun x s' db => R x s' /\ recorded id a w k' db) Hm)|done|simpl; auto].
Qed.
Lemma rspec_catch {A} k (m : task S A) s k' R :
  rspec k m s k' R -> rspec k (catch_unwind m) s k (fun _ _ => True).
Proof.
  intros Hm. eapply task_hoare_mono; [apply _|apply (hoare_catch _ _ (recorded id a w k) m s
    (fun x s' db => R x s' /\ recorded id a w k' db) Hm)|done|simpl; auto].
Qed.

(** A step whose answer the rest does not depend on. *)
Lemma rspec_then {A B} k (m : task S A) (f : A -> task S B) s k' R' :
  rspec k m s k (fun _ _ => True) -> (forall x s', I s' -> rspec k (f x) s' k' R') ->
  rspec k (m ≫= f) s k' R'.
Proof. intros Hm Hf. eapply rspec_bind; [exact Hm|auto]. Qed.
Lemma rspec_any {A} k (m : task S A) s k1 k' R :
  rspec k m s k1 R -> k' <= k1 -> rspec k m s k' (fun _ _ => True).
Proof. intros Hm Hk. eapply rspec_mono; [exact Hm|lia..|done]. Qed.
End Recorded.

(** ** What a successful store call puts on record *)

Lemma transition_recorded id a w k now d d' h u db db' :
  recorded id a w k db -> CleanupStore.transition now id d d' h db = (Ok u, db') ->
  recorded id a w (rank d') db'.
Proof.
  intros (c & Hc & Ha & Hw & _). unfold CleanupStore.transition. destruct (_ && _); [done|].
  intros Hop%transaction_Ok. db_inv; simplify_eq; try (bools; lia).
  eexists. split; [apply lookup_insert_eq|]. unfold phase_rank. simpl. rewrite text_rank_phase.
  split_and!; done || lia.
Qed.

Lemma fence_recorded id a w k now h u db db' :
  recorded id a w k db -> fence_for_cleanup now id h db = (Ok u, db') ->
  recorded id a w (rank CleanupDisposition.CleanupPending) db'.
Proof.
  intros (c & Hc & Ha & Hw & _) Hop%transaction_Ok. db_inv; simplify_eq; try (bools; lia).
  eexists. split; [apply lookup_insert_eq|]. unfold phase_rank. simpl.
  split_and!; [done..|by vm_compute].
Qed.

Lemma resolve_recorded id a w k now u db db' :
  recorded id a w k db -> resolve now id db = (Ok u, db') ->
  recorded id a w (rank CleanupDisposition.Resolved) db'.
Proof.
  intros (c & Hc & Ha & Hw & _) Hop%transaction_Ok. db_inv; simplify_eq; try (bools; lia).
  eexists. split; [apply lookup_insert_eq|]. unfold phase_rank. simpl.
  split_and!; [done..|by vm_compute].
Qed.

(** Every authority is filed under its execution, and its phase is the text of
    a disposition. *)
Definition ranked (db : Database) : Prop :=
  forall id c, cleanup_authorities db !! id = Some c ->
    CleanupAuthority.execution_id c = id /\ 0 <= phase_rank c.

#[export] Instance ranked_stable `{Collation} : Stable ranked.
Proof.
  intros db db' Hs Hr id c' Hc'. destruct (step_authorities _ _ Hs) as [Hold Hnew].
  destruct (cleanup_authorities db !! id) as [c|] eqn:E.
  - destruct (Hold id c E) as (c2 & Hc2 & He & _ & _ & Hk). simplify_eq. apply Hr in E. split; [naive_solver|lia].
  - destruct (Hnew id c' E Hc'). split; [done|lia].
Qed.

Lemma reachable_ranked `{Collation} db : reachable db -> ranked db.
Proof. intros Hr. apply (stable_later ranked _ _ Hr). intros id c Hc. simpl in Hc. by rewrite lookup_empty in Hc. Qed.

Lemma begin_recorded id a w now u db db' :
  ranked db -> begin now id a w db = (Ok u, db') -> recorded id a w 0 db'.
Proof.
  intros Hwf Hop%transaction_Ok. db_inv; simplify_eq; try (bools; lia).
  all: eexists; split; [apply lookup_insert_eq|]; unfold phase_rank; simpl.
  - split_and!; [done..|by vm_compute].
  - unfold owned_by in *. bools. destruct_and!. split_and!; [done..|]. by eapply Hwf.
Qed.

(** The locals are about the execution [id]. *)
Definition owns (id : ExecutionId) (l : Locals) : Prop := Execution.id (tracked l) = id.

Lemma transition_id next t e e' : Execution.transition next t e = Ok e' -> Execution.id e' = Execution.id e.
Proof. unfold Execution.transition. destruct (negb _); naive_solver. Qed.

Lemma transition_cleanup_spec `{Collation} id a w k d d' s :
  rspec (owns id) id a w k (transition_cleanup d d') s (rank d') (fun _ s' => s' = s).
Proof.
  unfold transition_cleanup. eapply rspec_bind; [apply rspec_get|].
  simpl. intros l s' HI [-> ->].
  eapply task_hoare_mono; [apply _|apply (hoare_store_or _ _ (recorded id a w k) _ _
    (fun _ => recorded id a w (rank d')))|done|simpl; tauto]; try done; [lawful|].
  intros u now db db' Hr Hop. rewrite HI in Hop. by eapply transition_recorded.
Qed.

(** Closes the side conditions of the leaves: the locals keep their execution. *)
Ltac rside :=
  first [done | unfold owns in *; simpl in *; intros;
    repeat match goal with H : Execution.transition _ _ _ = Ok _ |- _ => apply transition_id in H end;
    congruence].

(** The specifications of the worker's functions, found by the function. *)
Create HintDb rspec discriminated.
#[export] Hint Constants Opaque : rspec.
#[export] Hint Extern 1 (_ <= _) => lia : rspec.

(** Takes a task apart along its binds and conditionals, and closes the calls
    whose phase is on record. *)
Ltac rleaf :=
  lazymatch goal with
  | |- rspec _ _ _ _ _ (mret _) _ _ _ => first [apply rspec_ret | apply rspec_ret_le; [simpl; lia|]]
  | |- rspec _ _ _ _ _ (raise _) _ _ _ => apply rspec_raise
  | |- rspec _ _ _ _ _ (local_get _) _ _ _ => apply rspec_get
  | |- rspec _ _ _ _ _ (local_set _) _ _ _ => apply rspec_set
  | |- rspec _ _ _ _ _ out_of_fuel _ _ _ => apply rspec_fuel
  | |- rspec _ _ _ _ _ (require_or _ _) _ _ _ => apply rspec_require
  | |- rspec _ _ _ _ _ (life _) _ _ _ => apply rspec_life; simpl; lia
  | |- rspec _ _ _ _ _ (life_within _ _) _ _ _ => apply rspec_life_within; simpl; lia
  | |- rspec _ _ _ _ _ (transition_cleanup _ _) _ _ _ => apply transition_cleanup_spec
  | |- rspec _ _ _ _ _ (answered _) _ _ _ => apply rspec_answered
  | |- rspec _ _ _ _ _ (store _) _ _ _ => apply rspec_store; lawful
  | |- rspec _ _ _ _ _ (store_or _) _ _ _ => apply rspec_store_or; lawful
  | |- rspec _ _ _ _ _ (perform _) _ _ _ =>
      apply rspec_perform; [done|simpl; intros; first [done|by eapply recorded_le; [eassumption|simpl; lia]]]
  end.
Ltac rstep :=
  lazymatch goal with
  | |- rspec _ _ _ _ _ (mbind _ ?m) _ _ _ =>
      first [ eapply rspec_bind; [solve [rleaf; rside]|simpl; intros ? ? ? ?; destruct_and?; simplify_eq]
            | eapply rspec_then; [|intros ? ? ?; simpl] ]
  | |- rspec _ _ _ _ _ (if ?b then _ else _) _ _ _ => destruct b eqn:?
  | |- rspec _ _ _ _ _ (match ?x with _ => _ end) _ _ _ => destruct x eqn:?
  | |- rspec _ _ _ _ _ (when_task _ _) _ _ _ => apply rspec_when
  | |- rspec _ _ _ _ _ (persistence _) _ _ _ => unfold persistence
  | |- rspec _ _ _ _ _ (attempt _) _ _ _ => eapply rspec_attempt
  | |- rspec _ _ _ _ _ (catch_unwind _) _ _ _ => eapply rspec_catch
  | |- _ => first [solve [auto 2 with rspec nocore] | solve [rleaf; rside] | solve [eapply rspec_any; [rleaf; rside|simpl; lia]]
    | solve [eapply rspec_any; [auto 2 with rspec nocore|simpl; lia]]]
  end.
Ltac rsolve := repeat (cbv zeta; rstep).

(** ** The functions of [run.rs] *)
Section Run.
Context `{Collation} (id : ExecutionId) (a : AttemptId) (w : WorkerId).

Abbreviation run_spec := (rspec (owns id) id a w).

Lemma transition_tracked_spec k next s :
  run_spec k (transition_tracked next) s k (fun _ _ => True).
Proof. unfold transition_tracked. rsolve. Qed.
#[local] Hint Resolve transition_tracked_spec : rspec.

Lemma record_spec k kind s : run_spec k (record kind) s k (fun _ _ => True).
Proof. unfold record. rsolve. Qed.
#[local] Hint Resolve record_spec : rspec.

Lemma persist_failure_spec k f s : run_spec k (persist_failure f) s k (fun _ _ => True).
Proof. unfold persist_failure. rsolve. Qed.
#[local] Hint Resolve persist_failure_spec : rspec.

Lemma fail_execution_spec {A} k f s k' (R : A -> Locals -> Prop) : run_spec k (fail_execution f) s k' R.
Proof. unfold fail_execution. eapply rspec_then; [apply persist_failure_spec|]. intros. apply rspec_raise. Qed.
#[local] Hint Resolve fail_execution_spec : rspec.

Lemma stop_agent_spec k s : 0 <= k -> run_spec k stop_agent s k (fun _ _ => True).
Proof. intros Hk. unfold stop_agent. rsolve. Qed.
#[local] Hint Resolve stop_agent_spec : rspec.

Lemma handle_events_spec k events s : run_spec k (handle_events events) s k (fun _ _ => True).
Proof.
  revert s. induction events as [|e events IH]; intros s; simpl; [by apply rspec_ret|].
  rsolve.
Qed.
#[local] Hint Resolve handle_events_spec : rspec.

Lemma fork_session_spec k h se c b s : 0 <= k ->
  run_spec k (fork_session h se c b) s k (fun _ _ => True).
Proof.
  intros Hk. unfold fork_session, guard_receipt, guard_environment, health_pause, health_resume.
  rsolve.
Qed.
#[local] Hint Resolve fork_session_spec : rspec.

Lemma apply_control_spec k h se c s : 0 <= k ->
  run_spec k (apply_control h se c) s k (fun _ _ => True).
Proof.
  intros Hk. unfold apply_control, guard_receipt, guard_environment, health_pause, health_resume.
  rsolve.
Qed.
#[local] Hint Resolve apply_control_spec : rspec.

Lemma handle_control_spec k h se c s : 0 <= k ->
  run_spec k (handle_control h se c) s k (fun _ _ => True).
Proof. intros Hk. unfold handle_control. rsolve. Qed.
#[local] Hint Resolve handle_control_spec : rspec.

Lemma control_pass_spec k h t se c m s : 0 <= k ->
  run_spec k (control_pass h t se c m) s k (fun _ _ => True).
Proof. intros Hk. unfold control_pass. rsolve. Qed.
#[local] Hint Resolve control_pass_spec : rspec.

Lemma emit_sample_spec k h t v sa s : run_spec k (emit_sample h t v sa) s k (fun _ _ => True).
Proof. unfold emit_sample. rsolve. Qed.
#[local] Hint Resolve emit_sample_spec : rspec.

Lemma assess_pass_spec k h t se ev sa s :
  run_spec k (assess_pass h t se ev sa) s k (fun _ _ => True).
Proof. unfold assess_pass. rsolve. Qed.
#[local] Hint Resolve assess_pass_spec : rspec.

Lemma loop_pass_spec k h t se s : 0 <= k -> run_spec k (loop_pass h t se) s k (fun _ _ => True).
Proof. intros Hk. unfold loop_pass. rsolve. Qed.
#[local] Hint Resolve loop_pass_spec : rspec.

Lemma event_loop_spec fuel k h t se s : 0 <= k ->
  run_spec k (event_loop fuel h t se) s k (fun _ _ => True).
Proof.
  intros Hk. revert h t se s. induction fuel as [|fuel IH]; intros h t se s;
    [apply rspec_fuel|]. eapply rspec_then; [by apply loop_pass_spec|]. intros x s' HI. rsolve.
Qed.
#[local] Hint Resolve event_loop_spec : rspec.

Lemma publish_review_spec k wt se s : 0 <= k ->
  run_spec k (publish_review wt se) s 0 (fun _ _ => True).
Proof. intros Hk. unfold publish_review. rsolve. Qed.
#[local] Hint Resolve publish_review_spec : rspec.

Lemma drive_running_spec fuel k wt se s : 0 <= k ->
  run_spec k (drive_running fuel wt se) s 0 (fun _ _ => True).
Proof. intros Hk. unfold drive_running. rsolve. Qed.
#[local] Hint Resolve drive_running_spec : rspec.

Lemma run_inner_spec fuel k s : 0 <= k -> run_spec k (run_inner fuel) s 0 (fun _ _ => True).
Proof. intros Hk. unfold run_inner. rsolve. Qed.
#[local] Hint Resolve run_inner_spec : rspec.

Lemma adopt_inner_spec fuel k s : 0 <= k -> run_spec k (adopt_inner fuel) s 0 (fun _ _ => True).
Proof. intros Hk. unfold adopt_inner, guard_receipt, guard_environment. rsolve. Qed.
#[local] Hint Resolve adopt_inner_spec : rspec.

Lemma stop_runtime_process_spec k s : 0 <= k -> run_spec k stop_runtime_process s k (fun _ _ => True).
Proof. intros Hk. unfold stop_runtime_process. rsolve. Qed.
#[local] Hint Resolve stop_runtime_process_spec : rspec.

Lemma destroy_runtime_spec k s : 10 <= k -> run_spec k destroy_runtime s k (fun _ _ => True).
Proof. intros Hk. unfold destroy_runtime. rsolve. Qed.
#[local] Hint Resolve destroy_runtime_spec : rspec.

Lemma destroy_worktree_spec k s : 11 <= k -> run_spec k destroy_worktree s k (fun _ _ => True).
Proof. intros Hk. unfold destroy_worktree. rsolve. Qed.
#[local] Hint Resolve destroy_worktree_spec : rspec.

Lemma release_storage_spec k s : 12 <= k -> run_spec k release_storage s k (fun _ _ => True).
Proof. intros Hk. unfold release_storage. rsolve. Qed.
#[local] Hint Resolve release_storage_spec : rspec.

Lemma cleanup_phases_spec k s : 0 <= k -> run_spec k cleanup_phases s 0 (fun _ _ => True).
Proof. intros Hk. unfold cleanup_phases. rsolve. Qed.
#[local] Hint Resolve cleanup_phases_spec : rspec.

Lemma record_failure_spec k f o c s : run_spec k (record_failure f o c) s k (fun _ _ => True).
Proof. unfold record_failure. rsolve. Qed.
#[local] Hint Resolve record_failure_spec : rspec.

Lemma finish_cleanup_spec k errors s : 0 <= k ->
  run_spec k (finish_cleanup id a errors) s k (fun _ _ => True).
Proof. intros Hk. unfold finish_cleanup. rsolve. Qed.
#[local] Hint Resolve finish_cleanup_spec : rspec.

Lemma finish_attempt_spec k c errors o s : 0 <= k ->
  run_spec k (finish_attempt id a c errors o) s k (fun _ _ => True).
Proof. intros Hk. unfold finish_attempt, return_outcome. rsolve. Qed.
#[local] Hint Resolve finish_attempt_spec : rspec.

End Run.
#[export] Hint Resolve run_inner_spec adopt_inner_spec record_failure_spec finish_attempt_spec : rspec.

(** ** Recovery *)
Section Recover.
Context `{Collation} {S : Type} (I : S -> Prop) (a : AttemptId) (w : WorkerId).
Context (authority : CleanupAuthority).
Abbreviation id := (CleanupAuthority.execution_id authority).
Abbreviation recover_spec := (rspec I id a w).

Lemma is_fenced_rank d : is_fenced d = true -> 9 <= rank d <= 14.
Proof. destruct d as [[]| | | | | | | | |]; simpl; done || lia. Qed.

Lemma is_fenced_next d next : tearing_down d = true ->
  d = next \/ CleanupDisposition.can_transition_to d next = true -> is_fenced next = true.
Proof. destruct d, next as [[]| | | | | | | | |]; naive_solver. Qed.

(** The loop leaves the teardown done, with its last phase on record. *)
Lemma teardown_loop_spec fuel e d s : is_fenced d = true ->
  recover_spec (rank d) (teardown_loop fuel authority e d) s 9
    (fun d' _ => is_fenced d' = true /\ tearing_down d' = false).
Proof.
  revert d s. induction fuel as [|fuel IH]; intros d s Hf; simpl;
    destruct (tearing_down d) eqn:Ht; try (apply rspec_ret_le; [by apply is_fenced_rank in Hf; lia|done]).
  { apply rspec_fuel. }
  pose proof (is_fenced_rank d Hf) as Hr.
  eapply rspec_then; [apply rspec_when; rsolve|]. intros _ s1 _.
  eapply rspec_bind; [apply rspec_life; simpl; lia|]. intros next s2 _ ->. simpl.
  eapply rspec_bind with (k1 := rank next) (R := fun _ _ => is_fenced next = true).
  - eapply task_hoare_mono; [apply _|apply (hoare_store_or _ _ (recorded id a w (rank d)) _ _
      (fun _ db => is_fenced next = true /\ recorded id a w (rank next) db))|done|simpl; tauto];
      try done; [lawful|].
    intros u now db db' Hrec Hop. split; [|by eapply transition_recorded].
    apply (is_fenced_next d); [done|]. revert Hop. unfold CleanupStore.transition.
    destruct (bool_decide (d = next)) eqn:E1, (CleanupDisposition.can_transition_to d next); simpl;
      bools; auto; done.
  - intros _ s3 _ Hn. by apply IH.
Qed.
(** [C]: what is known once the pending cancellation is seen to. *)
Context (F C : Database -> Prop) `{!Stable F, !Stable C}.
Hypothesis not_pending : forall db, F db -> cancellation_pending id db = false -> C db.
Hypothesis completed : forall now u db db', F db ->
  complete_cancellation now id (CleanupAuthority.attempt_id authority) db = (Ok u, db') -> C db'.

Lemma complete_pending_spec P `{!Stable P} pending s :
  (forall db, P db -> F db /\ (pending = false -> C db)) ->
  hoare (write_ahead id a w) I P (complete_pending pending authority) s (fun _ _ db => C db).
Proof.
  intros HP. unfold complete_pending, when_task. destruct pending.
  - eapply task_hoare_bind; [done|apply (hoare_store_or _ _ P _ _ (fun _ => C)); [lawful|done|]|].
    + intros u now db db' HPdb. apply completed. by apply HP.
    + intros u s' HI. apply task_hoare_ret; [apply _|]. simpl. tauto.
  - apply task_hoare_ret; [apply _|]. intros db HPdb. by apply HP.
Qed.
(** The part of recovery after the fence. *)
Lemma recover_tail_spec fuel e d pending s : is_fenced d = true ->
  hoare (write_ahead id a w) I
    (fun db => (F db /\ (pending = false -> C db)) /\ recorded id a w (rank d) db)
    (d ← teardown_loop fuel authority e d;
     d ← (if bool_decide (d = CleanupDisposition.StorageReleased) then
            _ ← store_or (fun now => finalize_cleanup now id (CleanupAuthority.attempt_id authority));
            mret CleanupDisposition.ReservationReleased
          else mret d);
     _ ← when_task (bool_decide (d = CleanupDisposition.ReservationReleased)) (
           _ ← life (Call.ack_cleanup_authority_step authority d);
           store_or (fun now => resolve now id));
     complete_pending pending authority) s
    (fun _ _ db => recorded id a w 15 db /\ C db).
Proof.
  intros Hf. pose proof (is_fenced_rank d Hf) as Hr.
  eapply task_hoare_bind with (Q := fun d' _ db => (is_fenced d' = true /\ tearing_down d' = false) /\
    recorded id a w 9 db);
    [apply _|eapply task_hoare_mono; [apply _|by apply (teardown_loop_spec fuel e d)|simpl; tauto|simpl; tauto]|].
  intros d1 s1 HI1. simpl.
  eapply task_hoare_bind with (Q := fun d2 _ _ => d2 = CleanupDisposition.ReservationReleased); [apply _| |].
  { case_bool_decide as Hd.
    - eapply task_hoare_bind; [apply _|apply (hoare_store_or _ _ _ _ _ (fun _ _ => True)); [lawful|done|done]|].
      intros. apply task_hoare_ret; [apply _|done].
    - apply task_hoare_ret; [apply _|]. simpl. intros db (_ & [Hf1 Ht1] & _). destruct d1; done. }
  intros d2 s2 HI2. simpl.
  eapply task_hoare_bind with (Q := fun _ _ db => recorded id a w 15 db); [apply _| |].
  { unfold when_task. case_bool_decide as Hd.
    - eapply task_hoare_bind; [apply _|apply hoare_life; [apply _|]|].
      + simpl. intros db HP. eapply recorded_le; [apply HP|lia].
      + intros u s3 HI3. simpl.
        eapply task_hoare_mono; [apply _|apply (hoare_store_or _ _ (recorded id a w 9) _ _
          (fun _ => recorded id a w 15)); [lawful|done|]|simpl; tauto|simpl; tauto].
        intros u' now db db' HP. by eapply resolve_recorded.
    - apply task_hoare_ret; [apply _|]. simpl. intros db HP. tauto. }
  intros u s3 HI3. simpl.
  eapply task_hoare_mono; [apply _|apply (complete_pending_spec (fun db => F db /\ (pending = false -> C db)) pending s3)|tauto|simpl; tauto].
  tauto.
Qed.
Lemma recover_hoare fuel e s :
  hoare (write_ahead id a w) I (fun db => F db /\ recorded id a w (phase_rank authority) db)
    (recover_cleanup_authority fuel authority e) s
    (fun _ _ db => (disposition authority = Ok CleanupDisposition.Retained \/ recorded id a w 15 db) /\ C db).
Proof.
  unfold recover_cleanup_authority, phase_rank, text_rank.
  fold (disposition authority). destruct (disposition authority) as [d|err] eqn:Hd;
    [|by eapply hoare_done; [apply _|reflexivity|done|done]].
  eapply task_hoare_bind with (Q := fun d' _ _ => d' = d); [apply _|apply task_hoare_ret; [apply _|done]|].
  intros d' s1 HI1. simpl.
  eapply task_hoare_bind; [apply _|apply (hoare_store_or _ _ _ _ _ (fun pending db => pending = false -> C db));
    [lawful|done|]|].
  { intros pending now db db' HP [= <- <-] Hp. apply not_pending; [apply HP|done]. }
  intros pending s2 HI2. simpl. destruct (bool_decide (d' = CleanupDisposition.Retained) && negb pending) eqn:Hret.
  { apply task_hoare_ret; [apply _|]. simpl. intros db HP. bools. destruct Hret as [-> ->].
    destruct HP as ((_ & <-) & _ & HC). auto. }
  destruct (bool_decide (d' = CleanupDisposition.Resolved)) eqn:Hres; [apply bool_decide_eq_true in Hres|].
  { eapply task_hoare_mono; [apply _|apply (complete_pending_spec (fun db => F db /\ (pending = false -> C db)) pending s2); tauto|simpl; tauto|].
    simpl. intros u s3 db _ _ HP HC. split; [|done]. right. destruct HP as (([_ HP] & ->) & _).
    eapply recorded_le; [exact HP|]. by rewrite Hres. }
  eapply task_hoare_bind with (Q := fun d1 _ db => is_fenced d1 = true /\ recorded id a w (rank d1) db); [apply _| |].
  { destruct (is_fenced d') eqn:Hf.
    - apply task_hoare_ret; [apply _|]. simpl. intros db ((HP & ->) & _). tauto.
    - eapply task_hoare_bind; [apply _|apply (hoare_store_or _ _ _ _ _ (fun _ => recorded id a w 9)); [lawful|done|]|].
      + intros u now db db' HP. eapply fence_recorded. apply HP.
      + intros u s3 HI3. apply task_hoare_ret; [apply _|]. simpl. tauto. }
  intros d1 s3 HI3.
  destruct (is_fenced d1) eqn:Hf1; [|intros _ ? ? (_ & ? & _); done].
  eapply task_hoare_mono; [apply _|by apply (recover_tail_spec fuel e d1 pending s3)|simpl; tauto|simpl; tauto].
Qed.
End Recover.

(** Recovery alone keeps what is on record. *)
Lemma recover_rspec `{Collation} {S} (I : S -> Prop) a w authority fuel e s :
  rspec I (CleanupAuthority.execution_id authority) a w (phase_rank authority)
    (recover_cleanup_authority fuel authority e) s (phase_rank authority) (fun _ _ => True).
Proof.
  eapply task_hoare_mono; [apply _|apply (recover_hoare I a w authority (fun _ => True) (fun _ => True))|done|simpl; tauto];
    done.
Qed.

(** ** Entry points *)
Section Entry.
Context `{Collation} {S : Type} (id : ExecutionId) (a : AttemptId) (w : WorkerId).
Abbreviation anywhere := (fun _ : S => True).

Lemma hoare_with_locals {A} G (I : Locals -> Prop) P `{!Stable P} (m : task Locals A) l (s : S) Q :
  I l -> hoare G I P m l Q -> hoare G anywhere P (with_locals l m) s (fun _ _ _ => True).
Proof.
  intros HI Hm _ tr db HP. apply wp_bind. eapply wp_mono; [by apply Hm|].
  intros [o l'] tr' db' _ (_ & HP' & _) db1 Hs. simpl. split_and!; [done|by eapply stable_later|].
  by destruct o.
Qed.

Lemma lookup_cancellation_spec k o s : rspec (owns id) id a w k (lookup_cancellation id o) s k (fun _ _ => True).
Proof. unfold lookup_cancellation. rsolve. Qed.
#[local] Hint Resolve lookup_cancellation_spec : rspec.

(** Specifications of tasks that do not look at the authorities, next to other
    knowledge. *)
Lemma rspec_hoare {A} P `{!Stable P} (m : task Locals A) s k' R :
  (forall db, P db -> recorded id a w 0 db) -> rspec (owns id) id a w 0 m s k' R ->
  hoare (write_ahead id a w) (owns id) P m s (fun _ _ _ => True).
Proof. intros HP Hm. by eapply task_hoare_mono; [apply _|exact Hm|exact HP|]. Qed.

Lemma run_hoare fuel e s :
  Execution.id e = id -> Execution.attempt_id e = Some a -> Execution.worker_id e = Some w ->
  hoare (write_ahead id a w) anywhere ranked (run_with_cancel_and_controls fuel e) s (fun _ _ _ => True).
Proof.
  intros Hid Ha Hw. unfold run_with_cancel_and_controls. rewrite Ha, Hw, Hid.
  do 2 apply hoare_ret_bind. cbv zeta.
  eapply task_hoare_bind with (Q := fun r _ db => match r with Ok _ => recorded id a w 0 db | Err _ => True end); [apply _| |].
  { apply hoare_perform; [apply _|intros []; apply _|lawful|done|].
    intros [u|err] db db' Hr [now Hop]; [|done]. by eapply begin_recorded. }
  intros [u|err] s3 _; simpl.
  - eapply task_hoare_mono; [apply _|apply (hoare_with_locals _ (owns id) (recorded id a w 0) _ _ _
      (fun _ _ db => True /\ recorded id a w 0 db)); [done|]|simpl; tauto|done].
    match goal with |- hoare _ _ _ ?m ?l _ => change (rspec (owns id) id a w 0 m l 0 (fun _ _ => True)) end.
    rsolve.
  - eapply task_hoare_bind; [apply _|apply hoare_store; [apply _|lawful|done]|].
    intros [] s4 _; apply hoare_raise, _.
Qed.

Lemma adopt_hoare fuel e s :
  Execution.id e = id -> Execution.attempt_id e = Some a -> Execution.worker_id e = Some w ->
  hoare (write_ahead id a w) anywhere ranked (run_adopted_with_cancel_and_controls fuel e) s (fun _ _ _ => True).
Proof.
  intros Hid Ha Hw. unfold run_adopted_with_cancel_and_controls. rewrite Ha, Hw, Hid.
  do 2 apply hoare_ret_bind. cbv zeta.
  eapply task_hoare_bind; [apply _|apply (hoare_store_or _ _ _ _ _ (fun _ => recorded id a w 0)); [lawful|done|]|].
  { intros u now db db' Hr. by eapply begin_recorded. }
  intros u s1 _. simpl.
  eapply task_hoare_mono; [apply _|apply (hoare_with_locals _ (owns id) (fun db => ranked db /\ recorded id a w 0 db) _ _ _
      (fun _ _ _ => True)); [done|]|simpl; tauto|done].
  eapply task_hoare_bind; [apply _|eapply rspec_hoare; [apply _|tauto|eapply rspec_catch; apply adopt_inner_spec; lia]|].
  intros outcome s2 _.
  eapply task_hoare_bind; [apply _|eapply rspec_hoare; [apply _|tauto|apply lookup_cancellation_spec]|].
  intros ce s3 _.
  eapply task_hoare_bind; [apply _|eapply rspec_hoare; [apply _|tauto|apply record_failure_spec]|].
  intros failed s4 _.
  eapply task_hoare_bind; [apply _|by apply (hoare_get _ _ _ _ _ (fun x s' _ => x = s'))|].
  intros l s5 _. simpl.
  assert (Hfin : hoare (write_ahead id a w) (owns id)
    (fun db => ((((ranked db /\ recorded id a w 0 db) /\ True) /\ True) /\ True) /\ l = s5)
    (finish_attempt id a ce.1 (ce.2 ++ failed) outcome) s5 (fun _ _ _ => True)).
  { eapply rspec_hoare; [apply _|simpl; tauto|by apply finish_attempt_spec]. }
  destruct outcome as [result|error]; [exact Hfin|].
  destruct (CleanupGuard.receipt (guard l)); [exact Hfin|]. clear Hfin.
  eapply task_hoare_bind with (Q := fun found _ db => match found with
    | Ok c => CleanupAuthority.execution_id c = id /\ recorded id a w (phase_rank c) db
    | Err _ => True end); [apply _| |].
  { apply hoare_perform; [apply _|intros []; apply _|lawful|done|].
    intros found db db' HP [now Hop]. unfold get_authority, query in Hop.
    destruct HP as (((((Hr & c & Hc & Ha' & Hw' & _) & _) & _) & _) & _). rewrite Hc in Hop.
    injection Hop as <- <-. destruct (Hr _ _ Hc). split; [done|]. exists c. done. }
  intros [authority|err] s6 _; simpl;
    (eapply task_hoare_bind with (Q := fun _ _ _ => True); [apply _| |
       intros recovered s7 _; destruct (_ ++ _); apply hoare_raise, _]);
    [|by apply task_hoare_ret; [apply _|]].
  apply (hoare_assume _ _ _ (CleanupAuthority.execution_id authority = id)); [simpl; tauto|].
  intros <-. eapply task_hoare_bind with (Q := fun _ _ _ => True); [apply _| |intros; by apply task_hoare_ret; [apply _|]].
  eapply task_hoare_mono; [apply _|eapply rspec_attempt, recover_rspec|simpl; tauto|done].
Qed.
End Entry.

(** ** Theorems *)

(** What an attempt's run does: a fresh attempt, or one adopted at startup. *)
Inductive attempt_run (fuel : nat) (e : Execution) : prog (outcome ExecutionResult * unit) -> Prop :=
| fresh_run : attempt_run fuel e (run_with_cancel_and_controls fuel e tt)
| adopted_run : attempt_run fuel e (run_adopted_with_cancel_and_controls fuel e tt).

Lemma attempt_run_wp `{Collation} fuel e a w p tr db :
  attempt_run fuel e p -> Execution.attempt_id e = Some a -> Execution.worker_id e = Some w -> ranked db ->
  wp (write_ahead (Execution.id e) a w) p (fun _ _ _ => True) tr db.
Proof.
  intros Hp Ha Hw Hr. destruct Hp; (eapply wp_mono; [|done]);
    [by apply (run_hoare (Execution.id e) a w)|by apply (adopt_hoare (Execution.id e) a w)].
Qed.

(** C7: resources follow the authority.  In every run of an attempt, fresh or
    adopted, with other processes acting on the database between its calls,
    with any answers and panics from the outside world and a crash at any
    point: when the worker allocates storage its cleanup authority is on record
    for this attempt and worker, when it creates the worktree, provisions the
    runtime or starts the agent the phase that covers it is on record, and when
    it destroys the runtime, the worktree or the storage the phase says that
    what stood on it is gone.  The run changes the database by store operations
    only, so what holds of every history holds of it. *)
Theorem resources_follow_authority `{Collation} (fuel : nat) (e : Execution) (a : AttemptId)
    (w : WorkerId) (p : prog (outcome ExecutionResult * unit)) (db db' : Database) (tr : list label)
    (r : option (outcome ExecutionResult * unit)) :
  reachable db -> Execution.attempt_id e = Some a -> Execution.worker_id e = Some w ->
  attempt_run fuel e p -> exec p db tr r db' ->
  Forall (label_ok (write_ahead (Execution.id e) a w)) tr /\ rtc step db db'.
Proof.
  intros Hr Ha Hw Hp He. apply reachable_ranked in Hr.
  destruct (wp_exec _ _ _ _ _ _ _ _ He (attempt_run_wp fuel e a w p [] db Hp Ha Hw Hr)) as (? & ? & _).
  done.
Qed.

Lemma resolved_text t : 15 <= text_rank t -> t = "RESOLVED"%string.
Proof.
  unfold text_rank. destruct (CleanupDisposition.from_str t) as [d|] eqn:E; [|lia]. intros Hd.
  apply from_str_texts in E.
  assert (Hall : forallb (fun p => bool_decide (p.1 = "RESOLVED"%string) || (rank p.2 <? 15))
                   CleanupDisposition.texts = true) by (vm_compute; reflexivity).
  rewrite forallb_forall in Hall. specialize (Hall _ (proj1 (list_elem_of_In _ _) E)).
  bools. simpl in Hall. destruct Hall; [done|lia].
Qed.

Lemma complete_cancellation_cancelled now id a u db db' :
  complete_cancellation now id a db = (Ok u, db') -> cancelled id db'.
Proof.
  intros Hop%transaction_Ok. db_inv; guard_facts.
  all: try (exfalso; match goal with H : forall row, _ -> true = false |- _ =>
              by specialize (H _ ltac:(eassumption)) end).
  all: by eapply cancelled_write; [|reflexivity].
Qed.

(** A cancellation that was asked for: pending, or done. *)
Definition asked (id : ExecutionId) (db : Database) : Prop :=
  keyed db /\ (cancellation_pending id db = true \/ cancelled id db).

#[export] Instance asked_stable `{Collation} id : Stable (asked id).
Proof.
  intros db db' Hs [Hk [Hp|Hc]]; (split; [by eapply keyed_stable|]).
  - by apply (step_pending _ _ Hs).
  - right. by destruct (cancelled_stable id db db' Hs).
Qed.

Lemma recover_asked `{Collation} {S} (I : S -> Prop) (X : Prop) a w authority fuel e s :
  hoare (write_ahead (CleanupAuthority.execution_id authority) a w) I
    (fun db => (X -> asked (CleanupAuthority.execution_id authority) db) /\
               recorded (CleanupAuthority.execution_id authority) a w (phase_rank authority) db)
    (recover_cleanup_authority fuel authority e) s
    (fun _ _ db => (disposition authority = Ok CleanupDisposition.Retained \/
                    recorded (CleanupAuthority.execution_id authority) a w 15 db) /\
                   (X -> cancelled_for_good (CleanupAuthority.execution_id authority) db)).
Proof.
  apply (recover_hoare I a w authority
    (fun db => X -> asked (CleanupAuthority.execution_id authority) db)
    (fun db => X -> cancelled_for_good (CleanupAuthority.execution_id authority) db)).
  - intros db HF Hp HX. destruct (HF HX) as [Hk [Hp'|Hc]]; [congruence|done].
  - intros now u db db' HF Hop HX. destruct (HF HX) as [Hk _].
    split; [|by eapply complete_cancellation_cancelled].
    apply (keyed_stable db); [|done]. eexists _, _, (Ok u).
    split; [|exact Hop]. constructor.
Qed.

(** C12: recovery settles what it finds.  Given a cleanup authority as it was
    read at some earlier time, in every run of [recover_cleanup_authority] each
    teardown step is taken only once its phase is on record; and when it
    returns without an error, the authority is RESOLVED unless it was retained,
    and a cancellation that was pending when it started is complete, whatever
    other processes did meanwhile. *)
Theorem recovery_settles `{Collation} (fuel : nat) (authority c : CleanupAuthority) (e : Execution)
    (db db' : Database) (tr : list label) (r : option (outcome unit * unit)) :
  reachable db ->
  cleanup_authorities db !! CleanupAuthority.execution_id authority = Some c ->
  authority_le authority c ->
  exec (recover_cleanup_authority fuel authority e tt) db tr r db' ->
  Forall (label_ok (write_ahead (CleanupAuthority.execution_id authority)
                      (CleanupAuthority.attempt_id authority) (CleanupAuthority.worker_id authority))) tr /\
  (r = Some (Value tt, tt) ->
   (disposition authority <> Ok CleanupDisposition.Retained ->
    exists c', cleanup_authorities db' !! CleanupAuthority.execution_id authority = Some c' /\
      CleanupAuthority.attempt_id c' = CleanupAuthority.attempt_id authority /\
      CleanupAuthority.phase c' = "RESOLVED"%string) /\
   (cancellation_pending (CleanupAuthority.execution_id authority) db = true ->
    cancelled (CleanupAuthority.execution_id authority) db')).
Proof.
  intros Hr Hc (Hid & Ha & Hw & Hk) He.
  assert (Hrec : recorded (CleanupAuthority.execution_id authority) (CleanupAuthority.attempt_id authority)
                   (CleanupAuthority.worker_id authority) (phase_rank authority) db) by (exists c; done).
  destruct (wp_exec _ _ _ [] _ _ _ _ He (recover_asked (fun _ : unit => True)
      (cancellation_pending (CleanupAuthority.execution_id authority) db = true)
      _ _ authority fuel e tt Logic.I [] db
      (conj (fun Hp => conj (reachable_keyed _ Hr) (or_introl Hp)) Hrec))) as (_ & Htr & HQ).
  split; [done|]. intros Hret. destruct (HQ _ Hret) as (_ & _ & [Hres HC]). simpl in *. split.
  - intros Hnr. destruct Hres as [?|(c' & Hc' & ? & ? & Hk')]; [done|]. exists c'. split_and!; [done..|].
    by apply resolved_text.
  - intros Hp. by apply HC.
Qed.

(** ** A run of the worker *)

(** An outside world in which every call succeeds, but for the start of the
    agent when its state says so. *)
Definition example_receipt (e : Execution) : AllocationReceipt := {|
  AllocationReceipt.api_version := "v1"; AllocationReceipt.labels := Execution.labels e;
  AllocationReceipt.reserved_bytes := 1024; AllocationReceipt.mount_path := "/mnt/e-1";
  AllocationReceipt.backend_kind := "lvm"; AllocationReceipt.backend_key := "vg0/e-1";
  AllocationReceipt.pool_identity := "vg0";
  AllocationReceipt.backend := BackendIdentity.Lvm "vg0" "vgu" "e-1" "lvu" "fsu" "t";
  AllocationReceipt.docker_bind := {| DockerBindProof.daemon_id := "d"; DockerBindProof.verifier := "v";
    DockerBindProof.method_version := "1"; DockerBindProof.source_path := "/mnt/e-1";
    DockerBindProof.filesystem_id := "fsu" |} |}.
Definition example_worktree (e : Execution) : Worktree := {|
  Worktree.execution_id := Execution.id e; Worktree.path := "/mnt/e-1/repo";
  Worktree.branch := "autospec/e-1"; Worktree.base_sha := "abc"; Worktree.repository := "acme/app" |}.
Definition example_environment (e : Execution) : EnvironmentHandle := {|
  EnvironmentHandle.execution_id := Execution.id e; EnvironmentHandle.network := "net";
  EnvironmentHandle.agent_container := "agent";
  EnvironmentHandle.verified_agent_container := {| VerifiedAgentContainer.container_id := "c";
    VerifiedAgentContainer.daemon_id := "d"; VerifiedAgentContainer.labels := Execution.labels e;
    VerifiedAgentContainer.mounts := [] |};
  EnvironmentHandle.service_containers := []; EnvironmentHandle.volumes := [];
  EnvironmentHandle.credentials_path := None |}.
Definition example_session (e : Execution) : SessionRef := {|
  SessionRef.id := "s-1"; SessionRef.path := "/mnt/e-1/session"; SessionRef.execution_id := Execution.id e;
  SessionRef.worktree_path := "/mnt/e-1/repo" |}.

#[export] Instance example_world : Lifecycle bool := fun A c starts =>
  (Returned (match c in Call.lifecycle_call A return result LifecycleError A with
   | Call.allocate e => Ok (example_receipt e)
   | Call.create_worktree e _ => Ok (example_worktree e)
   | Call.provision e _ _ => Ok (example_environment e)
   | Call.start e _ _ _ _ => if starts then Ok (example_session e)
                             else Err (LifecycleError.Step "no agent")
   | Call.fork_conversation e _ _ => Ok (example_session e)
   | Call.poll e _ => Ok [progress_event e 0 ExecutionEventKind.ReviewReady]
   | Call.resource_sample _ => Ok {| ResourceSample.cpu_percent := CPU_SATURATION_PERCENT;
       ResourceSample.io_bytes := None; ResourceSample.rss_bytes := None;
       ResourceSample.disk_bytes := None; ResourceSample.current_command := None |}
   | Call.capture _ => Ok {| DiffCapture.patch := "+x"; DiffCapture.changed_files := ["x"] |}
   | Call.persist_evidence _ _ => Ok "diff-1"
   | Call.cleanup_authority_step _ _ d => default_cleanup_authority_step (Ok tt) d
   | Call.adopt e => Ok {| AdoptedExecution.receipt := example_receipt e;
       AdoptedExecution.worktree := example_worktree e;
       AdoptedExecution.environment := example_environment e;
       AdoptedExecution.session := example_session e |}
   | Call.resume _ _ _ _ | Call.pause _ _ | Call.stop _ _ | Call.destroy_runtime _
   | Call.destroy_worktree _ | Call.recover_interrupted_worktree _ _ | Call.release_storage _
   | Call.cleanup_authority _ _ | Call.ack_cleanup_authority_step _ _ => Ok tt
   end), starts).

Definition run_claimed : Execution :=
  match executions run_reserved !! "e-1"%string with
  | Some row => ExecutionRow.execution row
  | None => run_execution
  end.

Definition is_provision (l : label) : bool :=
  match l with Label (Life (Call.provision _ _ _)) _ _ => true | _ => false end.
Definition is_release (l : label) : bool :=
  match l with Label (LifeWithin (Call.release_storage _)) _ _ => true | _ => false end.

(** The attempt of the run, alone: it provisions a runtime, fails to start the
    agent and tears everything down. *)
Definition attempt_alone : option (outcome ExecutionResult * unit * list label * bool * Database) :=
  run_alone run_clock (run_with_cancel_and_controls 3 run_claimed tt) false run_reserved.

Lemma resources_follow_authority_witness :
  exists r tr l db', attempt_alone = Some (r, tr, l, db') /\
    existsb is_provision tr = true /\ existsb is_release tr = true /\
    Forall (label_ok (write_ahead "e-1" "attempt-u1" "w-1")) tr /\ rtc step run_reserved db'.
Proof.
  assert (Hn : match attempt_alone with
               | Some (_, tr, _, _) => existsb is_provision tr && existsb is_release tr
               | None => false end = true) by (vm_compute; reflexivity).
  destruct attempt_alone as [[[[r tr] l] db']|] eqn:E; [|discriminate Hn].
  apply andb_true_iff in Hn as [H1 H2].
  assert (Hid : Execution.id run_claimed = "e-1"%string) by (vm_compute; reflexivity).
  pose proof (resources_follow_authority 3 run_claimed "attempt-u1" "w-1" _ run_reserved db' tr (Some r)
    run_reserved_reachable ltac:(vm_compute; reflexivity) ltac:(vm_compute; reflexivity)
    (fresh_run 3 run_claimed) (run_alone_exec run_clock _ _ _ _ _ _ _ E)) as Hthm.
  rewrite Hid in Hthm. exists r, tr, l, db'. exact (conj eq_refl (conj H1 (conj H2 Hthm))).
Defined.

(** A recovery of the run: a cancellation is asked for while the attempt holds
    its resources. *)
Definition run_cancel_asked : Database := (request_cancellation run_clock "e-1" run_begun).2.
Definition run_authority : CleanupAuthority :=
  match cleanup_authorities run_cancel_asked !! "e-1"%string with
  | Some c => c
  | None => new_authority "e-1" "attempt-u1" "w-1" "RESERVED" 0
  end.
Definition recovery_alone : option (outcome unit * unit * list label * bool * Database) :=
  run_alone run_clock (recover_cleanup_authority 4 run_authority run_claimed tt) true run_cancel_asked.

Lemma recovery_settles_witness :
  exists tr l db', recovery_alone = Some (Value tt, tt, tr, l, db') /\ cancelled "e-1" db' /\
    exists c', cleanup_authorities db' !! "e-1"%string = Some c' /\
      CleanupAuthority.attempt_id c' = CleanupAuthority.attempt_id run_authority /\
      CleanupAuthority.phase c' = "RESOLVED"%string.
Proof.
  assert (Hr : reachable run_cancel_asked).
  { apply reach_op; [|constructor]. apply reach_op; [apply run_reserved_reachable|constructor]. }
  assert (Hok : match recovery_alone with Some (Value tt, _, _, _, _) => true | _ => false end = true)
    by (vm_compute; reflexivity).
  destruct recovery_alone as [[[[[[[]|?|?] []] tr] l] db']|] eqn:E; try discriminate Hok.
  assert (Hc : cleanup_authorities run_cancel_asked !! CleanupAuthority.execution_id run_authority =
               Some run_authority) by (vm_compute; reflexivity).
  assert (Hid : CleanupAuthority.execution_id run_authority = "e-1"%string) by (vm_compute; reflexivity).
  assert (Hd : disposition run_authority <> Ok CleanupDisposition.Retained) by (vm_compute; discriminate).
  assert (Hp : cancellation_pending "e-1" run_cancel_asked = true) by (vm_compute; reflexivity).
  destruct (recovery_settles 4 run_authority run_authority run_claimed run_cancel_asked db' tr
    (Some (Value tt, tt)) Hr Hc (reflexivity run_authority) (run_alone_exec run_clock _ _ _ _ _ _ _ E))
    as [_ Hres].
  rewrite Hid in Hres. destruct (Hres eq_refl) as [H1 H2].
  exists tr, l, db'. exact (conj eq_refl (conj (H2 Hp) (H1 Hd))).
Defined.
