(* ===== verification/WorkerEvidence.v ===== *)
(** * What a finished attempt shows for itself

    An attempt that returns a result has captured the diff of its worktree and
    stored it, whatever the outside world answered and whoever else was at work
    on the database. *)

From S2P Require Import Prelude Core WorkerTypes Health Database CleanupStore ExecutionStore Controls Reservations Steps Lifecycle WorkerTask WorkerRun Worker WorkerSafety.















(** ** Facts about the trace of a program

    [vals p Q tr]: whatever is answered to its calls, if [p] returns then [Q]
    holds of the value and of the trace, which starts with [tr]. *)
Fixpoint vals {A} (p : prog A) (Q : A -> list label -> Prop) (tr : list label) : Prop :=
  match p with
  | Done a => Q a tr
  | OutOfFuel => True
  | Do act k => forall db b, vals (k b) Q (tr ++ [Label act db b])
  end.

Lemma vals_exec `{Collation} {A} (p : prog A) Q tr db tr' a db' :
  exec p db tr' (Some a) db' -> vals p Q tr -> Q a (tr ++ tr').
Proof.
  intros He. remember (Some a) as r eqn:Hr. revert tr Hr.
  induction He as [x db|p db|p db db1 tr' r db' Hs _ IH|B act k b db db1 tr' r db' Hact _ IH];
    intros tr Hr Hv; simplify_eq.
  - by rewrite app_nil_r.
  - by apply IH.
  - specialize (IH _ eq_refl (Hv db b)). by rewrite <- app_assoc in IH.
Qed.

Lemma vals_bind {A B} (p : prog A) (f : A -> prog B) Q tr :
  vals p (fun a tr' => vals (f a) Q tr') tr -> vals (p ≫= f) Q tr.
Proof. revert tr. induction p as [a| |C act k IH]; simpl; auto. Qed.

Lemma vals_mono {A} (p : prog A) (Q Q' : A -> list label -> Prop) tr :
  (forall a tr', Q a tr' -> Q' a tr') -> vals p Q tr -> vals p Q' tr.
Proof. intros HQ. revert tr. induction p as [a| |C act k IH]; simpl; auto. Qed.

(** A trace only grows. *)
Lemma vals_grows {A} (p : prog A) tr : vals p (fun _ tr' => tr `prefix_of` tr') tr.
Proof.
  revert tr. induction p as [a| |C act k IH]; intros tr; simpl; [done|done|].
  intros db b. eapply vals_mono; [|apply IH]. simpl. intros _ tr' Hp. etrans; [|exact Hp].
  by apply prefix_app_r.
Qed.

(** ** Tasks *)
Section Vals.
Context {S : Type}.

(** [Q] holds of the value a task returns, if it returns one. *)
Definition returns {A} (m : task S A) (s : S) (Q : A -> S -> list label -> Prop) (tr : list label) : Prop :=
  vals (m s) (fun r tr' => match r.1 with Value a => Q a r.2 tr' | _ => True end) tr.

Lemma returns_bind {A B} (m : task S A) (f : A -> task S B) s Q tr :
  returns m s (fun a s' tr' => returns (f a) s' Q tr') tr -> returns (m ≫= f) s Q tr.
Proof.
  intros Hm. apply vals_bind. eapply vals_mono; [|exact Hm].
  intros [[a|e|p] s'] tr'; simpl; auto.
Qed.

(** A step nothing is to be known about. *)
Lemma returns_skip {A B} (m : task S A) (f : A -> task S B) s Q tr :
  (forall a s' tr', tr `prefix_of` tr' -> returns (f a) s' Q tr') -> returns (m ≫= f) s Q tr.
Proof.
  intros Hf. apply returns_bind. eapply vals_mono; [|apply vals_grows].
  intros [[a|e|p] s'] tr'; simpl; auto.
Qed.

Lemma returns_life {A} (c : lifecycle_call A) s Q tr :
  (forall db x, Q x s (tr ++ [Label (Life c) db (Returned (Ok x))])) -> returns (life c) s Q tr.
Proof. intros HQ db [[x|e]|m]; simpl; auto. Qed.

Lemma returns_raise {A} e s (Q : A -> S -> list label -> Prop) tr : returns (raise e) s Q tr.
Proof. done. Qed.
End Vals.

(** Skips to the last step of a task. *)
Ltac skips :=
  repeat (cbv zeta; lazymatch goal with
          | |- returns (mbind _ _) _ _ _ => apply returns_skip; intros ? ? ? ?
          end).

(** ** The evidence *)

Definition has_evidence (result : ExecutionResult) (tr : list label) : Prop :=
  exists worktree execution capture artifact db1 db2,
    Label (Life (Call.capture worktree)) db1 (Returned (Ok capture)) ∈ tr /\
    Label (Life (Call.persist_evidence execution capture)) db2 (Returned (Ok artifact)) ∈ tr /\
    ExecutionResult.diff_artifact result = Some artifact /\
    ExecutionResult.state result = ExecutionState.ReviewReady /\
    (requires_diff (ExecutionManifest.role (Execution.manifest execution)) = true ->
     DiffCapture.changed_files capture <> []).

Lemma has_evidence_grows result tr tr' :
  has_evidence result tr -> tr `prefix_of` tr' -> has_evidence result tr'.
Proof.
  intros (wt & e & c & art & db1 & db2 & H1 & H2 & ?) Hp. exists wt, e, c, art, db1, db2.
  split_and!; [by eapply elem_of_prefix|by eapply elem_of_prefix|tauto..].
Qed.

Lemma transition_tracked_returns next s tr :
  returns (transition_tracked next) s
    (fun _ s' tr' => Execution.state (tracked s') = next /\ tr `prefix_of` tr') tr.
Proof.
  unfold transition_tracked. apply returns_bind. simpl. intros db now.
  unfold Execution.transition. destruct (negb _); simpl; [done|].
  split; [done|]. by apply prefix_app_r.
Qed.

Lemma publish_review_evidence wt se s tr :
  returns (publish_review wt se) s (fun result _ tr' => has_evidence result tr') tr.
Proof.
  unfold publish_review. do 2 (apply returns_skip; intros ? ? ? _).
  apply returns_bind, returns_life. intros db1 capture. apply returns_skip. intros e s1 tr1 H1.
  apply returns_bind, returns_life. intros db2 artifact.
  destruct (requires_diff _ && _) eqn:Hd.
  { apply returns_skip. intros. apply returns_raise. }
  apply returns_bind. eapply vals_mono; [|apply transition_tracked_returns].
  intros [[[]|?|?] s2] tr2; simpl; [|done..]. intros [Hs2 H2]. apply returns_bind. simpl.
  do 4 (apply returns_skip; intros ? ? ? ?). cbv zeta. apply returns_skip. intros ? ? tr4 ?.
  apply (has_evidence_grows _ (tr1 ++ [Label (Life (Call.persist_evidence e capture)) db2 (Returned (Ok artifact))]));
    [|repeat (etrans; [eassumption|]); done].
  exists wt, e, capture, artifact, db1, db2. split_and!; [| |done|done|].
  - apply elem_of_app. left. eapply elem_of_prefix; [|exact H1]. set_solver.
  - set_solver.
  - intros Hr He. by rewrite Hr, He in Hd.
Qed.

Abbreviation evident m s tr := (returns m s (fun result _ tr' => has_evidence result tr') tr).

Lemma drive_running_evidence fuel wt se s tr : evident (drive_running fuel wt se) s tr.
Proof. unfold drive_running. do 3 (apply returns_skip; intros ? ? ? _). apply publish_review_evidence. Qed.

Lemma run_inner_evidence fuel s tr : evident (run_inner fuel) s tr.
Proof.
  unfold run_inner. skips. apply drive_running_evidence.
Qed.

Lemma adopt_inner_evidence fuel s tr : evident (adopt_inner fuel) s tr.
Proof.
  unfold adopt_inner. skips. apply drive_running_evidence.
Qed.

(** The outcome of an attempt is passed on as it is, or becomes an error. *)
Lemma finish_attempt_outcome id a c errors o s tr :
  returns (finish_attempt id a c errors o) s (fun result _ tr' => o = Ok result /\ tr `prefix_of` tr') tr.
Proof.
  assert (Ho : forall (s' : Locals) tr', tr `prefix_of` tr' ->
    returns (return_outcome o) s' (fun result _ tr'' => o = Ok result /\ tr `prefix_of` tr'') tr').
  { intros s' tr' Hp. by destruct o. }
  unfold finish_attempt. apply returns_skip. intros e s1 tr1 H1.
  destruct (retain_for_resume e o); [apply returns_skip; intros; apply Ho; by etrans|].
  do 2 (apply returns_skip; intros ? ? ? ?).
  match goal with |- returns (match ?l with _ => _ end) _ _ _ => destruct l end.
  - apply Ho. by repeat (etrans; [eassumption|]).
  - by destruct o.
Qed.

(** A caught outcome that is a result has its evidence. *)
Definition caught_evidence (o : result WorkerError ExecutionResult) (tr : list label) : Prop :=
  forall result, o = Ok result -> has_evidence result tr.

Lemma catch_evidence {S} (m : task S ExecutionResult) s tr :
  evident m s tr -> returns (catch_unwind m) s (fun o _ tr' => caught_evidence o tr') tr.
Proof.
  intros Hm. apply vals_bind. eapply vals_mono; [|exact Hm].
  intros [[x|e|p] s'] tr' Hx result; simpl; intros [= <-]. exact Hx.
Qed.

Lemma finish_evidence id a c errors o s tr tr0 :
  caught_evidence o tr0 -> tr0 `prefix_of` tr -> evident (finish_attempt id a c errors o) s tr.
Proof.
  intros Ho Hp. eapply vals_mono; [|apply finish_attempt_outcome].
  intros [[result|e|p] s'] tr' Hr; simpl in *; [|done..]. destruct Hr as [-> Hr].
  eapply has_evidence_grows; [by apply Ho|by etrans].
Qed.

Lemma with_locals_evidence {S} l (m : task Locals ExecutionResult) (s : S) tr :
  evident m l tr -> evident (with_locals l m) s tr.
Proof. intros Hm. apply vals_bind. eapply vals_mono; [|exact Hm]. by intros [[] ?]. Qed.

Lemma attempt_run_evidence fuel e p tr :
  attempt_run fuel e p ->
  vals p (fun r tr' => match r.1 with Value result => has_evidence result tr' | _ => True end) tr.
Proof.
  destruct 1.
  - change (evident (run_with_cancel_and_controls (S := unit) fuel e) tt tr).
    unfold run_with_cancel_and_controls. do 2 (apply returns_skip; intros ? ? ? _). cbv zeta.
    apply returns_skip. intros [u|err] ? ? _; [|by apply returns_skip; intros []; intros].
    apply with_locals_evidence, returns_bind.
    eapply vals_mono; [|apply catch_evidence, run_inner_evidence].
    intros [[o|err|m] l] tr1 Ho; simpl in *; [|done..].
    apply returns_skip. intros ? ? tr2 H2. apply returns_skip. intros ? ? tr3 H3.
    apply returns_skip. intros ? ? tr4 H4. eapply finish_evidence; [exact Ho|].
    by repeat (etrans; [eassumption|]).
  - change (evident (run_adopted_with_cancel_and_controls (S := unit) fuel e) tt tr).
    unfold run_adopted_with_cancel_and_controls. do 2 (apply returns_skip; intros ? ? ? _). cbv zeta.
    apply returns_skip. intros ? ? ? _. apply with_locals_evidence, returns_bind.
    eapply vals_mono; [|apply catch_evidence, adopt_inner_evidence].
    intros [[o|err|m] l] tr1 Ho; simpl in *; [|done..].
    do 3 (apply returns_skip; intros ? ? ? ?).
    assert (Hfin : forall a c er s tr2, tr1 `prefix_of` tr2 ->
      evident (finish_attempt (Execution.id e) a c er o) s tr2).
    { intros. by eapply finish_evidence. }
    destruct o as [result|error]; [apply Hfin; by repeat (etrans; [eassumption|])|].
    case_match; [apply Hfin; by repeat (etrans; [eassumption|])|].
    do 2 (apply returns_skip; intros ? ? ? ?). cbv zeta. by case_match.
Qed.

(** C13: no result without evidence.  When a run of an attempt, fresh or
    adopted, returns a result, then it captured the diff of a worktree, stored
    that diff, and the result is ready for review and names what was stored;
    for a role that must change code the diff is not empty. *)
Theorem result_has_evidence `{Collation} (fuel : nat) (e : Execution)
    (p : prog (outcome ExecutionResult * unit)) (db db' : Database) (tr : list label)
    (result : ExecutionResult) :
  attempt_run fuel e p -> exec p db tr (Some (Value result, tt)) db' -> has_evidence result tr.
Proof.
  intros Hp He. by apply (vals_exec _ _ [] _ _ _ _ He (attempt_run_evidence fuel e p [] Hp)).
Qed.

Definition attempt_reviewed : option (outcome ExecutionResult * unit * list label * bool * Database) :=
  run_alone run_clock (run_with_cancel_and_controls 3 run_claimed tt) true run_reserved.

Lemma result_has_evidence_witness :
  exists result tr l db', attempt_reviewed = Some (Value result, tt, tr, l, db') /\ has_evidence result tr.
Proof.
  assert (Hok : match attempt_reviewed with Some (Value _, _, _, _, _) => true | _ => false end = true)
    by (vm_compute; reflexivity).
  destruct attempt_reviewed as [[[[[[result|?|?] []] tr] l] db']|] eqn:E; try discriminate Hok.
  exists result, tr, l, db'. split; [exact eq_refl|].
  exact (result_has_evidence 3 run_claimed _ run_reserved db' tr result (fresh_run 3 run_claimed)
           (run_alone_exec run_clock _ _ _ _ _ _ _ E)).
Defined.
