(* ===== verification/WorkerAdoption.v ===== *)
(** * Adopting a running attempt

    At startup a worker adopts the attempts its predecessor left running.  The
    file follows an adoption with nobody else at work on the database. *)

From S2P Require Import Prelude Core WorkerTypes Health Database EventLog CleanupStore WorkerStore ExecutionStore Controls Reservations Steps Lifecycle WorkerTask WorkerRun Worker WorkerSafety WorkerEvidence.















(** ** Programs alone

    [alone p Q db]: run by itself from [db], if [p] returns then [Q] holds of
    the value and the database. *)
Fixpoint alone {A} (p : prog A) (Q : A -> Database -> Prop) (db : Database) : Prop :=
  match p with
  | Done a => Q a db
  | OutOfFuel => True
  | Do act k => forall b db', act_step act db b db' -> alone (k b) Q db'
  end.

Lemma alone_bind {A B} (p : prog A) (f : A -> prog B) Q db :
  alone p (fun a db' => alone (f a) Q db') db -> alone (p ≫= f) Q db.
Proof. revert db. induction p as [a| |C act k IH]; simpl; auto. Qed.

Lemma alone_mono {A} (p : prog A) (Q Q' : A -> Database -> Prop) db :
  (forall a db', Q a db' -> Q' a db') -> alone p Q db -> alone p Q' db.
Proof. intros HQ. revert db. induction p as [a| |C act k IH]; simpl; auto. Qed.

Lemma alone_always {A} (p : prog A) (Q : A -> Database -> Prop) db :
  (forall a db', Q a db') -> alone p Q db.
Proof. intros HQ. revert db. induction p as [a| |C act k IH]; simpl; auto. Qed.

Lemma run_alone_alone {L} `{!Lifecycle L} clock {A} (p : prog A) Q l db a tr l' db' :
  run_alone clock p l db = Some (a, tr, l', db') -> alone p Q db -> Q a db'.
Proof.
  revert l db a tr l' db'. induction p as [x| |B act k IH]; intros l db a tr l' db'; simpl; [|done|].
  - by intros [= <- <- <- <-].
  - destruct (answer_alone clock act l db) as [[b l1] db1] eqn:Ea.
    destruct (run_alone clock (k b) l1 db1) as [[[[a2 tr2] l2] db2]|] eqn:Er; [|done].
    intros [= <- <- <- <-] Hk. eapply IH; [exact Er|]. apply Hk. by eapply answer_alone_step.
Qed.

Section Alone.
Context {S : Type}.

Definition returns_alone {A} (m : task S A) (s : S) (Q : A -> S -> Database -> Prop) (db : Database) : Prop :=
  alone (m s) (fun r db' => match r.1 with Value a => Q a r.2 db' | _ => True end) db.

Lemma returns_alone_bind {A B} (m : task S A) (f : A -> task S B) s Q db :
  returns_alone m s (fun a s' db' => returns_alone (f a) s' Q db') db -> returns_alone (m ≫= f) s Q db.
Proof.
  intros Hm. apply alone_bind. eapply alone_mono; [|exact Hm]. by intros [[a|e|p] s'] db'.
Qed.

(** A task that only asks: the database stays, and so does what holds of the
    locals. *)
Definition asks {A} (I : S -> Prop) (m : task S A) : Prop :=
  forall s db, I s -> returns_alone m s (fun _ s' db' => I s' /\ db' = db) db.

Lemma asks_bind {A B} I (m : task S A) (f : A -> task S B) :
  asks I m -> (forall a, asks I (f a)) -> asks I (m ≫= f).
Proof.
  intros Hm Hf s db HI. apply returns_alone_bind. eapply alone_mono; [|by apply Hm].
  intros [[a|e|p] s'] db' Hr; simpl in *; [|done..]. destruct Hr as [HI' ->]. by apply Hf.
Qed.

Lemma asks_skip {A B} I (m : task S A) (f : A -> task S B) s Q db :
  asks I m -> I s -> (forall a s', I s' -> returns_alone (f a) s' Q db) -> returns_alone (m ≫= f) s Q db.
Proof.
  intros Hm HI Hf. apply returns_alone_bind. eapply alone_mono; [|by apply Hm].
  intros [[a|e|p] s'] db' Hr; simpl in *; [|done..]. destruct Hr as [HI' ->]. auto.
Qed.

Lemma asks_ret {A} I (a : A) : asks I (mret a).
Proof. done. Qed.
Lemma asks_raise {A} I e : asks I (raise (A := A) e).
Proof. done. Qed.
Lemma asks_get {A} I (f : S -> A) : asks I (local_get f).
Proof. done. Qed.
Lemma asks_set (I : S -> Prop) f : (forall s, I s -> I (f s)) -> asks I (local_set f).
Proof. by intros HI s db Hs; split; [apply HI|]. Qed.
Lemma asks_require {A} I (o : option A) e : asks I (require_or o e).
Proof. by destruct o. Qed.
Lemma asks_life {A} I (c : lifecycle_call A) : asks I (life c).
Proof. intros s db HI [[x|e]|m] db' ->; simpl; auto. Qed.
Lemma asks_perform {B} I (act : action B) :
  (forall db b db', act_step act db b db' -> db' = db) -> asks I (perform act).
Proof. intros Hact s db HI b db' Hb. split; [done|]. by eapply Hact. Qed.
Lemma asks_store_or {A} I (op : Clock -> Op A) :
  (forall now db, (op now db).2 = db) -> asks I (store_or op).
Proof.
  intros Hop s db HI [x|e] db' [now Hq]; simpl; [|done]. split; [done|].
  specialize (Hop now db). by rewrite Hq in Hop.
Qed.
End Alone.

Ltac asks :=
  repeat first
    [ match goal with |- asks _ (mbind _ _) => apply asks_bind; [|intros ?] end | apply asks_ret | apply asks_raise | apply asks_get
    | apply asks_require | apply asks_life | apply asks_perform; [by intros ? ? ?|..]
    | apply asks_store_or; [done|..] | progress cbv zeta
    | match goal with |- asks _ (when_task ?b _) => destruct b; simpl end
    | match goal with |- asks _ (if ?b then _ else _) => destruct b end
    | match goal with |- asks _ (match ?x with _ => _ end) => destruct x eqn:? end ].

Lemma transition_tracked_asks id next : asks (owns id) (transition_tracked next).
Proof.
  intros s db HI now db' ->. simpl. destruct (Execution.transition _ _ _) as [e'|] eqn:E; simpl; [|done].
  split; [|done]. unfold owns. simpl. rewrite (transition_id _ _ _ _ E). exact HI.
Qed.

(** ** The adoption *)

(** The authority of an execution is not at the phase [adopt_inner] expects. *)
Definition not_running (id : ExecutionId) (db : Database) : Prop :=
  exists c, cleanup_authorities db !! id = Some c /\
    CleanupAuthority.phase c <> phase_text (CleanupDisposition.Active CleanupStage.Running).

Lemma begin_not_running now id a w u db db' :
  not_running id db -> begin now id a w db = (Ok u, db') -> not_running id db'.
Proof.
  intros (c & Hc & Hp) Hop%transaction_Ok. db_inv; simplify_eq; try (bools; lia).
  eexists. split; [apply lookup_insert_eq|]. done.
Qed.

Lemma transition_refused id s db : owns id s -> not_running id db ->
  returns_alone (transition_cleanup (CleanupDisposition.Active CleanupStage.Running)
                   (CleanupDisposition.Active CleanupStage.Running)) s (fun _ _ _ => False) db.
Proof.
  intros HI (c & Hc & Hp) [u|e] db' [now Hop]; simpl; [|done]. rewrite HI in Hop.
  unfold CleanupStore.transition in Hop. rewrite bool_decide_true in Hop by done. simpl in Hop.
  apply transaction_Ok in Hop. db_inv; simplify_eq; try (bools; lia).
  bools. rewrite !elem_of_cons, elem_of_nil in *. intuition.
Qed.

Lemma adopt_inner_refused fuel id s db : owns id s -> not_running id db ->
  returns_alone (adopt_inner fuel) s (fun _ _ _ => False) db.
Proof.
  intros HI Hn. unfold adopt_inner.
  apply (asks_skip (owns id)); [asks|done|]. intros e s1 H1.
  apply (asks_skip (owns id)); [asks; apply transition_tracked_asks|done|]. intros _ s2 H2.
  apply (asks_skip (owns id)); [asks|done|]. intros e2 s3 H3.
  apply (asks_skip (owns id)); [asks|done|]. intros adopted s4 H4.
  apply (asks_skip (owns id)); [by apply asks_set|done|]. intros _ s5 H5.
  apply (asks_skip (owns id)); [asks|done|]. intros w s6 H6.
  apply (asks_skip (owns id)); [asks|done|]. intros controls s7 H7. cbv zeta.
  apply (asks_skip (owns id)); [unfold guard_receipt, guard_environment; asks|done|]. intros _ s8 H8.
  apply returns_alone_bind. eapply alone_mono; [|by apply (transition_refused id)].
  by intros [[]].
Qed.

(** What holds whatever is answered holds alone. *)
Lemma vals_alone {A} (p : prog A) (Q : A -> Prop) tr db :
  vals p (fun a _ => Q a) tr -> alone p (fun a _ => Q a) db.
Proof.
  revert tr db. induction p as [a| |C act k IH]; simpl; [done|done|].
  intros tr db Hv b db' _. exact (IH b _ _ (Hv db b)).
Qed.

(** A failed outcome is never turned into a result. *)
Lemma finish_attempt_failed id a c errors err s db :
  returns_alone (finish_attempt id a c errors (Err err)) s (fun _ _ _ => False) db.
Proof.
  apply (vals_alone _ (fun r => match r.1 with Value _ => False | _ => True end) []).
  eapply vals_mono; [|apply (finish_attempt_outcome id a c errors (Err err) s [])].
  intros [[x|?|?] s'] tr; simpl; naive_solver.
Qed.

Lemma catch_failed {S A} (m : task S A) s db :
  returns_alone m s (fun _ _ _ => False) db ->
  returns_alone (catch_unwind m) s (fun o _ _ => exists err, o = Err err) db.
Proof.
  intros Hm. apply alone_bind. eapply alone_mono; [|exact Hm].
  intros [[x|e|p] s'] db' Hx; simpl in *; [done|eauto..].
Qed.

Lemma with_locals_failed {S A} l (m : task Locals A) (s : S) db :
  returns_alone m l (fun _ _ _ => False) db -> returns_alone (with_locals l m) s (fun _ _ _ => False) db.
Proof. intros Hm. apply alone_bind. eapply alone_mono; [|exact Hm]. by intros [[] ?]. Qed.

(** A step nothing is to be known about. *)
Lemma skip_alone {S A B} (m : task S A) (f : A -> task S B) s Q db :
  (forall a s' db', returns_alone (f a) s' Q db') -> returns_alone (m ≫= f) s Q db.
Proof.
  intros Hf. apply returns_alone_bind, alone_always. by intros [[a|e|p] s'] db'; simpl.
Qed.

Lemma adopted_refused fuel e a w s db :
  Execution.attempt_id e = Some a -> Execution.worker_id e = Some w -> not_running (Execution.id e) db ->
  returns_alone (S := unit) (run_adopted_with_cancel_and_controls fuel e) s (fun _ _ _ => False) db.
Proof.
  intros Ha Hw Hn. unfold run_adopted_with_cancel_and_controls. rewrite Ha, Hw.
  do 2 (apply returns_alone_bind; simpl).
  apply returns_alone_bind. intros [u|err] db1 [now Hop]; simpl; [|done].
  apply begin_not_running in Hop; [|done].
  apply with_locals_failed, returns_alone_bind.
  eapply alone_mono; [|apply catch_failed, (adopt_inner_refused fuel (Execution.id e)); done].
  intros [[o|err|p] l] db2 Ho; simpl in *; [|done..]. destruct Ho as [err ->].
  do 3 (apply skip_alone; intros ? ? ?). simpl.
  case_match; [apply finish_attempt_failed|].
  do 2 (apply skip_alone; intros ? ? ?). by case_match.
Qed.

(** C37: an adoption that startup plans can be bound to fail.  Startup adopts a
    resumable attempt whose authority is at ACTIVE:PI_STARTED or
    ACTIVE:POST_PI_BEFORE_EVENT as well as at ACTIVE:RUNNING, but adopting it
    asks for the transition from ACTIVE:RUNNING to itself, which the store
    refuses at the other two phases: with nobody else at work, the adoption
    never returns a result, whatever the outside world answers. *)
Theorem adoption_refused {L} `{!Lifecycle L} (clock : Clock) (fuel : nat) (e : Execution)
    (d : CleanupDisposition) (c : CleanupAuthority) (l l' : L) (db db' : Database) (tr : list label)
    (r : outcome ExecutionResult) :
  adoptable e d = true -> d <> CleanupDisposition.Active CleanupStage.Running ->
  cleanup_authorities db !! Execution.id e = Some c -> disposition c = Ok d ->
  Execution.attempt_id e = Some (CleanupAuthority.attempt_id c) ->
  Execution.worker_id e = Some (CleanupAuthority.worker_id c) ->
  run_alone clock (run_adopted_with_cancel_and_controls fuel e tt) l db = Some (r, tt, tr, l', db') ->
  forall result, r <> Value result.
Proof.
  intros _ Hd Hc Hdc Ha Hw Hrun result ->.
  assert (Hn : not_running (Execution.id e) db).
  { exists c. split; [done|]. intros Hp. unfold disposition in Hdc. rewrite Hp, disposition_text_roundtrip in Hdc.
    congruence. }
  exact (run_alone_alone _ _ _ _ _ _ _ _ _ Hrun (adopted_refused fuel e _ _ tt db Ha Hw Hn)).
Qed.

(** The run of the worker up to the start of the agent. *)
Definition to_stage (d d' : CleanupStage) (db : Database) : Database :=
  advance_to (CleanupDisposition.Active d) (CleanupDisposition.Active d') db.
Definition run_environment : Execution := Execution.set_state ExecutionState.Provisioning 7 run_claimed.
Definition run_agent_started : Database :=
  to_stage CleanupStage.Runtime CleanupStage.PiStarted
    (record_progress run_clock run_environment
       (progress_event run_environment 7 ExecutionEventKind.EnvironmentReady)
       (to_stage CleanupStage.Worktree CleanupStage.Runtime
         (to_stage CleanupStage.Storage CleanupStage.Worktree
           (to_stage CleanupStage.Reserved CleanupStage.Storage run_begun)))).2.
Definition run_provisioning : Execution :=
  match executions run_agent_started !! "e-1"%string with
  | Some row => ExecutionRow.execution row
  | None => run_execution
  end.

(** Startup plans the adoption of the run, which fails: the execution ends
    [Failed]. *)
Lemma adoption_refused_witness :
  match run_alone run_clock (reconcile_startup (S := unit) 4 "w-1" tt) true run_agent_started with
  | Some (planned, _, _, _, _) => planned = Value [run_provisioning]
  | None => False
  end /\
  exists r tr l db',
    run_alone run_clock (run_adopted_with_cancel_and_controls 3 run_provisioning tt) true
      run_agent_started = Some (r, tt, tr, l, db') /\
    (Execution.state ∘ ExecutionRow.execution <$> executions db' !! "e-1"%string) =
      Some ExecutionState.Failed /\
    forall result, r <> Value result.
Proof.
  split; [vm_compute; reflexivity|].
  assert (Hok : match run_alone run_clock (run_adopted_with_cancel_and_controls 3 run_provisioning tt) true
                        run_agent_started with
                | Some (_, _, _, _, db') => bool_decide ((Execution.state ∘ ExecutionRow.execution <$>
                    executions db' !! "e-1"%string) = Some ExecutionState.Failed)
                | None => false end = true) by (vm_compute; reflexivity).
  destruct (run_alone run_clock (run_adopted_with_cancel_and_controls 3 run_provisioning tt) true
              run_agent_started) as [[[[[r []] tr] l] db']|] eqn:E; [|discriminate Hok].
  exists r, tr, l, db'. split; [exact eq_refl|]. split; [by apply bool_decide_eq_true in Hok|].
  destruct (cleanup_authorities run_agent_started !! "e-1"%string) as [c|] eqn:Hc; [|vm_compute in Hc; discriminate].
  assert (Hca : cleanup_authorities run_agent_started !! Execution.id run_provisioning = Some c)
    by (rewrite <- Hc; vm_compute; reflexivity).
  vm_compute in Hc. injection Hc as Hc.
  exact (adoption_refused run_clock 3 run_provisioning (CleanupDisposition.Active CleanupStage.PiStarted) c
    true l run_agent_started db' tr r ltac:(vm_compute; reflexivity) ltac:(discriminate) Hca
    ltac:(rewrite <- Hc; vm_compute; reflexivity) ltac:(rewrite <- Hc; vm_compute; reflexivity)
    ltac:(rewrite <- Hc; vm_compute; reflexivity) E).
Defined.
