(* ===== verification/WorkerTick.v ===== *)
(** * The daemon tick

    [reconcile_daemon_tick] flags the tasks whose cancellation is pending
    before it does anything that can fail. *)

From S2P Require Import Prelude Core WorkerTypes Health Database EventLog CleanupStore WorkerStore ExecutionStore Controls Reservations Steps AuthorityOrder ExecutionHistory ControlHistory Lifecycle WorkerTask WorkerRun Worker WorkerSafety WorkerEvidence.














(** ** Tasks that leave the locals alone *)
Section Keeps.
Context {S : Type}.

(** [I] holds of the locals afterwards, however the task ends. *)
Definition keeps {A} (I : S -> Prop) (m : task S A) : Prop :=
  forall s tr, I s -> vals (m s) (fun r _ => I r.2) tr.

Lemma keeps_bind {A B} I (m : task S A) (f : A -> task S B) :
  keeps I m -> (forall a, keeps I (f a)) -> keeps I (m ≫= f).
Proof.
  intros Hm Hf s tr HI. apply vals_bind. eapply vals_mono; [|by apply Hm].
  intros [[a|e|p] s'] tr' HI'; simpl in *; [by apply Hf|done..].
Qed.
Lemma keeps_ret {A} I (a : A) : keeps I (mret a).
Proof. by intros s tr HI. Qed.
Lemma keeps_raise {A} I e : keeps I (raise (A := A) e).
Proof. by intros s tr HI. Qed.
Lemma keeps_get {A} I (f : S -> A) : keeps I (local_get f).
Proof. by intros s tr HI. Qed.
Lemma keeps_set (I : S -> Prop) f : (forall s, I s -> I (f s)) -> keeps I (local_set f).
Proof. intros HI s tr Hs. by apply HI. Qed.
Lemma keeps_fuel {A} I : keeps I (out_of_fuel (A := A)).
Proof. by intros s tr HI. Qed.
Lemma keeps_perform {B} I (act : action B) : keeps I (perform act).
Proof. by intros s tr HI db b. Qed.
Lemma keeps_life {A} I (c : lifecycle_call A) : keeps I (life c).
Proof. by intros s tr HI db [[x|e]|m]. Qed.
Lemma keeps_store_or {A} I (op : Clock -> Op A) : keeps I (store_or op).
Proof. by intros s tr HI db [x|e]. Qed.
Lemma keeps_persistence {A} I (r : result StoreError A) : keeps I (persistence r).
Proof. destruct r; [apply keeps_ret|apply keeps_raise]. Qed.
Lemma keeps_require {A} I (o : option A) e : keeps I (require_or o e).
Proof. destruct o; [apply keeps_ret|apply keeps_raise]. Qed.
Lemma keeps_attempt {A} I (m : task S A) : keeps I m -> keeps I (attempt m).
Proof.
  intros Hm s tr HI. apply vals_bind. eapply vals_mono; [|by apply Hm]. by intros [[a|e|p] s'] tr'.
Qed.
Lemma keeps_for_each {A} I (f : A -> task S unit) l : (forall a, keeps I (f a)) -> keeps I (for_each_task f l).
Proof. intros Hf. induction l as [|x l IH]; simpl; [apply keeps_ret|]. by apply keeps_bind. Qed.
End Keeps.

Ltac keeps :=
  repeat first
    [ match goal with |- keeps _ (mbind _ _) => apply keeps_bind; [|intros ?] end
    | apply keeps_ret | apply keeps_raise | apply keeps_get | apply keeps_fuel | apply keeps_perform
    | apply keeps_life | apply keeps_store_or | apply keeps_persistence | apply keeps_require
    | apply keeps_attempt | progress cbv zeta
    | match goal with |- keeps _ (when_task ?b _) => destruct b; simpl end
    | match goal with |- keeps _ (if ?b then _ else _) => destruct b end
    | match goal with |- keeps _ (match ?x with _ => _ end) => destruct x end ].

Lemma teardown_loop_keeps {S} (I : S -> Prop) fuel authority e d : keeps I (teardown_loop fuel authority e d).
Proof. revert d. induction fuel as [|fuel IH]; intros d; simpl; keeps. apply IH. Qed.

Lemma recover_keeps {S} (I : S -> Prop) fuel authority e : keeps I (recover_cleanup_authority fuel authority e).
Proof. unfold recover_cleanup_authority, complete_pending. keeps; apply teardown_loop_keeps. Qed.

Lemma reconcile_pending_keeps {S} (I : S -> Prop) fuel w request :
  keeps I (reconcile_pending_cancellation fuel w request).
Proof. unfold reconcile_pending_cancellation, store. keeps; apply recover_keeps. Qed.

(** ** The flags *)

(** The task of an execution, if there is one, is told to stop. *)
Definition flagged (id : ExecutionId) (l : Tasks) : Prop :=
  match List.find (is_task id) l with Some t => ExecutionTask.cancelled t = true | None => True end.

Lemma is_task_iff id t : is_task id t = true <-> ExecutionTask.execution_id t = id.
Proof. unfold is_task. by rewrite bool_decide_eq_true. Qed.

Lemma find_update id id' f l :
  (forall t, ExecutionTask.execution_id (f t) = ExecutionTask.execution_id t) ->
  List.find (is_task id) (update_task id' f l) =
    if bool_decide (id = id') then f <$> List.find (is_task id) l else List.find (is_task id) l.
Proof.
  intros Hf. induction l as [|t l IH]; simpl; [by case_bool_decide|].
  destruct (is_task id' t) eqn:Et'; simpl.
  - apply is_task_iff in Et' as <-. unfold is_task at 1. rewrite Hf. fold (is_task id t).
    destruct (is_task id t) eqn:Et.
    + apply is_task_iff in Et as <-. by rewrite bool_decide_true.
    + rewrite bool_decide_false; [done|]. intros ->. assert (is_task (ExecutionTask.execution_id t) t = true)
        by (by apply is_task_iff). congruence.
  - destruct (is_task id t) eqn:Et; [|exact IH]. rewrite bool_decide_false; [done|].
    apply is_task_iff in Et as <-. intros E. by rewrite <- E, (proj2 (is_task_iff _ t) eq_refl) in Et'.
Qed.

Lemma cancels_flagged w request id l : flagged id l -> flagged id (cancels w request l).
Proof.
  unfold cancels, flagged. case_bool_decide; [|done]. rewrite find_update by done.
  case_bool_decide; [|done]. by destruct (List.find _ _).
Qed.

Lemma foldl_flagged w pending id l :
  flagged id l -> flagged id (foldl (fun l request => cancels w request l) l pending).
Proof. revert l. induction pending as [|r rs IH]; intros l Hl; simpl; [done|]. by apply IH, cancels_flagged. Qed.

Lemma cancels_pending w pending request l :
  request ∈ pending -> PendingCancellation.worker_id request = Some w ->
  flagged (Execution.id (PendingCancellation.execution request))
    (foldl (fun l request => cancels w request l) l pending).
Proof.
  intros Hin Hw. revert l. induction pending as [|r rs IH]; intros l; [by apply elem_of_nil in Hin|].
  simpl. apply elem_of_cons in Hin as [<-|Hin]; [|by apply IH].
  apply foldl_flagged. unfold cancels, flagged. rewrite bool_decide_true by done.
  rewrite find_update by done. rewrite bool_decide_true by done. by destruct (List.find _ _).
Qed.

Lemma signal_control_keeps control t :
  ExecutionTask.execution_id (ExecutionTask.signal_control control t).2 = ExecutionTask.execution_id t /\
  ExecutionTask.cancelled (ExecutionTask.signal_control control t).2 = ExecutionTask.cancelled t.
Proof. unfold ExecutionTask.signal_control. by case_bool_decide. Qed.

Lemma signal_pass_keeps pending control id : keeps (flagged id) (signal_pass pending control).
Proof.
  unfold signal_pass. keeps. apply keeps_set. intros l Hl. unfold flagged.
  rewrite find_update by apply signal_control_keeps. case_bool_decide; [|done].
  unfold flagged in Hl. destruct (List.find _ l); simpl; [|done].
  by rewrite (proj2 (signal_control_keeps _ _)).
Qed.

Lemma cancellation_errors_keeps fuel w requests id : keeps (flagged id) (cancellation_errors fuel w requests).
Proof.
  induction requests as [|r rs IH]; simpl; keeps; first [apply reconcile_pending_keeps|apply IH].
Qed.

Lemma authority_errors_keeps fuel pending authorities id :
  keeps (flagged id) (authority_errors fuel pending authorities).
Proof.
  induction authorities as [|c cs IH]; simpl; unfold store; keeps; first [apply recover_keeps|apply IH].
Qed.

(** ** The tick *)

Lemma exec_do_inv `{Collation} {A} (p : prog A) db tr r db' :
  exec p db tr r db' ->
  match p, r with
  | Do act k, Some a => exists db0 b db1 tr', rtc step db db0 /\ act_step act db0 b db1 /\
      exec (k b) db1 tr' (Some a) db'
  | _, _ => True
  end.
Proof.
  induction 1 as [a db|p db|p db db1 tr r db' Hs _ IH|B act k b db db1 tr r db' Hact He _].
  - done.
  - by destruct p.
  - destruct p, r; try done. destruct IH as (db0 & b & db2 & tr' & Hs' & ?).
    exists db0, b, db2, tr'. split; [by eapply rtc_l|done].
  - destruct r; [|done]. exists db, b, db1, tr. split; [apply rtc_refl|done].
Qed.

(** A pending cancellation of an execution whose resources a worker holds is
    listed for the worker. *)
Lemma pending_listed `{Collation} id a w db row :
  keyed db -> executions db !! id = Some row -> recorded id a w 0 db -> cancellation_pending id db = true ->
  exists pending request, list_pending_cancellations db = (Ok pending, db) /\ request ∈ pending /\
    Execution.id (PendingCancellation.execution request) = id /\
    PendingCancellation.worker_id request = Some w.
Proof.
  intros Hk Hrow (c & Hc & _ & Hw & _) Hp. unfold cancellation_pending in Hp.
  destruct (execution_cancellation_requests db !! id) as [q|] eqn:Hq; [|done]. bools.
  eexists _, _. split; [reflexivity|]. split.
  - apply list_elem_of_fmap. eexists (_, _). split; [reflexivity|]. apply elem_of_order_by.
    apply list_elem_of_omap. exists (id, q). split; [by apply elem_of_map_to_list|].
    unfold pending_row. simpl. rewrite Hp, Hrow, Hc. reflexivity.
  - simpl. split; [by apply Hk|]. by rewrite Hw.
Qed.

(** The rest of a tick, after the flags are set. *)
Lemma tick_keeps `{Collation} fuel w pending id :
  keeps (flagged id) (
    controls ← store_or (fun _ => list_pending_controls w);
    _ ← for_each_task (signal_pass pending) controls;
    errors ← cancellation_errors fuel w pending;
    listed ← store (fun _ => CleanupStore.list_for_worker w);
    more ← match listed with
           | Ok authorities => authority_errors fuel pending authorities
           | Err error => mret [("list cleanup authorities: " +:+ store_error_text error)%string]
           end;
    match errors ++ more with
    | [] => mret tt
    | errors => raise (WorkerError.Cleanup (join_errors errors))
    end).
Proof.
  unfold store. keeps; first [by apply keeps_for_each; intros; apply signal_pass_keeps
    | apply cancellation_errors_keeps | apply authority_errors_keeps].
Qed.

(** A tick tells the task of every cancelled execution to stop.  When the
    cancellation of an execution whose cleanup authority belongs to the worker
    is pending, then after any run of [reconcile_daemon_tick], successful or
    not, the task of the execution is flagged, unless the cancellation was
    already complete when the tick looked. *)
Theorem tick_signals_cancellation `{Collation} (fuel : nat) (id : ExecutionId) (a : AttemptId)
    (w : WorkerId) (l l' : Tasks) (o : outcome unit) (db db' : Database) (row : ExecutionRow) (tr : list label) :
  reachable db -> executions db !! id = Some row -> recorded id a w 0 db ->
  cancellation_pending id db = true ->
  exec (reconcile_daemon_tick fuel w l) db tr (Some (o, l')) db' ->
  flagged id l' \/ exists db0, rtc step db db0 /\ cancelled id db0.
Proof.
  intros Hr%reachable_keyed Hrow Hrec Hp He.
  destruct (exec_do_inv _ _ _ _ _ He) as (db0 & b & db1 & tr' & Hs & [now Hact] & He').
  assert (Hk0 : keyed db0) by (by eapply steps_keyed).
  destruct (rows_later _ _ _ _ Hr Hs Hrow) as (row0 & Hrow0 & _).
  assert (Ha : asked id db0) by (apply (stable_later (asked id) db); [done|split; auto]).
  assert (Hrec0 : recorded id a w 0 db0) by (by apply (stable_later (recorded id a w 0) db)).
  destruct Ha as [_ [Hp0|Hc0]].
  - left. destruct (pending_listed id a w db0 row0 Hk0 Hrow0 Hrec0 Hp0) as (pending & request & Hl & Hin & Hid & Hw).
    rewrite Hl in Hact. injection Hact as <- <-.
    refine (vals_exec _ (fun r _ => flagged id r.2) [] _ _ _ _ He' _).
    apply (tick_keeps fuel w pending id). rewrite <- Hid. by apply cancels_pending.
  - right. by exists db0.
Qed.

Definition run_task : ExecutionTask := {|
  ExecutionTask.execution_id := "e-1"; ExecutionTask.cancelled := false;
  ExecutionTask.signalled_controls := ∅; ExecutionTask.controls := []; ExecutionTask.closed := false |}.

Definition tick_alone : option (outcome unit * Tasks * list label * bool * Database) :=
  run_alone run_clock (reconcile_daemon_tick 4 "w-1" [run_task]) true run_cancel_asked.

Lemma tick_signals_cancellation_witness :
  exists o l' tr starts db', tick_alone = Some (o, l', tr, starts, db') /\
    (flagged "e-1" l' \/ exists db0, rtc step run_cancel_asked db0 /\ cancelled "e-1" db0).
Proof.
  assert (Hr : reachable run_cancel_asked).
  { apply reach_op; [|constructor]. apply reach_op; [apply run_reserved_reachable|constructor]. }
  assert (Hok : match tick_alone with Some _ => true | None => false end = true) by (vm_compute; reflexivity).
  destruct tick_alone as [[[[[o l'] tr] starts] db']|] eqn:E; [|discriminate Hok].
  exists o, l', tr, starts, db'. split; [exact eq_refl|].
  destruct (executions run_cancel_asked !! "e-1"%string) as [row|] eqn:Hrow; [|vm_compute in Hrow; discriminate].
  refine (tick_signals_cancellation 4 "e-1" "attempt-u1" "w-1" [run_task] l' o run_cancel_asked db' row tr
    Hr Hrow _ _ (run_alone_exec run_clock _ _ _ _ _ _ _ E)).
  - exists run_authority. vm_compute. split_and!; [reflexivity|reflexivity|reflexivity|discriminate].
  - vm_compute. reflexivity.
Defined.
