(* ===== verification/Effects.v ===== *)
(** * Programs over fallible calls

    The execution storage ([crates/execution-storage]) is synchronous code that
    alternates system calls with decisions on their results.  A [proc] is such
    a program: a tree of the calls it makes, each followed by what the code
    does with the answer.  [io] adds the [Result] the functions return, with
    [?] as its bind.

    What a call does is a relation [sem] between the state before and after it.
    A run may stop anywhere (the process is killed, the host loses power), and
    other processes may act between two calls.  [chl] is the corresponding
    crash Hoare logic: a guard on every step the program takes and a
    postcondition on its result. *)

From S2P Require Import Prelude.

















Inductive proc (C : Type -> Type) (A : Type) : Type :=
| Ret (a : A)
| Req {B} (c : C B) (k : B -> proc C A).
Arguments Ret {C A} a.
Arguments Req {C A B} c k.

#[export] Instance proc_ret C : MRet (proc C) := @Ret C.
#[export] Instance proc_bind C : MBind (proc C) := fun A B f =>
  fix bind (p : proc C A) : proc C B :=
    match p with
    | Ret a => f a
    | Req c k => Req c (fun b => bind (k b))
    end.

Definition request {C B} (c : C B) : proc C B := Req c Ret.

(** ** Functions that return a [Result] *)
Definition io (C : Type -> Type) (E A : Type) : Type := proc C (result E A).

#[export] Instance io_ret C E : MRet (io C E) := fun A a => Ret (Ok a).
#[export] Instance io_bind C E : MBind (io C E) := fun A B f m =>
  @mbind (proc C) (proc_bind C) _ _ (fun r => match r with Ok a => f a | Err e => Ret (Err e) end) m.

Section Io.
Context {C : Type -> Type} {E : Type}.

Definition throw {A} (e : E) : io C E A := Ret (Err e).
Definition ret_result {A} (r : result E A) : io C E A := Ret r.
Definition guard_or (b : bool) (e : E) : io C E unit := ret_result (check b e).
Definition some_or {A} (o : option A) (e : E) : io C E A := ret_result (ok_or o e).

(** A call whose answer is a value, and one whose answer is a [Result] that
    [?] propagates after [map_err]. *)
Definition ask {A} (c : C A) : io C E A := Req c (fun a => Ret (Ok a)).
Definition ask_or {A F} (c : C (result F A)) (f : F -> E) : io C E A :=
  Req c (fun r => Ret (map_err f r)).

(** A program without a [Result], as one that succeeds. *)
Definition of_proc {A} (p : proc C A) : io C E A :=
  @mbind (proc C) (proc_bind C) _ _ (fun a => Ret (Ok a)) p.

(** The [Result] itself, for [match] and [if let Err(..)]. *)
Definition outcome_of {A} (m : io C E A) : io C E (result E A) :=
  @mbind (proc C) (proc_bind C) _ _ (fun r => Ret (Ok r)) m.

Fixpoint each {A} (f : A -> io C E unit) (l : list A) : io C E unit :=
  match l with
  | [] => mret tt
  | x :: l => _ ← f x; each f l
  end.
End Io.

(** The calls of a component as calls of a system it is a part of. *)
Fixpoint embed {C D : Type -> Type} (f : forall B, C B -> D B) {A} (p : proc C A) : proc D A :=
  match p with
  | Ret a => Ret a
  | Req c k => Req (f _ c) (fun b => embed f (k b))
  end.

(** ** Runs *)
Section Runs.
Context {C : Type -> Type} {S : Type}.
Context (sem : forall B, C B -> S -> B -> S -> Prop).
Context (env : S -> S -> Prop).

(** A run, with the states before and after each step of the program itself;
    [None] is a run that was cut short. *)
Inductive exec {A} : proc C A -> S -> list (S * S) -> option A -> S -> Prop :=
| exec_ret a s : exec (Ret a) s [] (Some a) s
| exec_stop p s : exec p s [] None s
| exec_env p s s1 tr r s' : env s s1 -> exec p s1 tr r s' -> exec p s tr r s'
| exec_req {B} (c : C B) k b s s1 tr r s' :
    sem B c s b s1 -> exec (k b) s1 tr r s' -> exec (Req c k) s ((s, s1) :: tr) r s'.

Lemma exec_ret_inv {A} (a : A) s tr r s' :
  exec (Ret a) s tr r s' -> tr = [] /\ forall b, r = Some b -> b = a.
Proof.
  remember (Ret a) as p eqn:Hp. intros He. revert Hp.
  induction He as [b s|p s|p s s1 tr r s' H1 _ IH|B c k b s s1 tr r s' _ _ _]; intros Hp;
    [|done|by apply IH|done].
  injection Hp as ->. split; [done|]. by intros b [= ->].
Qed.

(** What every step of the program and of the environment keeps holds wherever
    a run stops. *)
Lemma exec_keeps {A} (P : S -> Prop) (p : proc C A) s tr r s' :
  exec p s tr r s' -> (forall s1 s2, env s1 s2 -> P s1 -> P s2) ->
  Forall (fun x => P x.1 -> P x.2) tr -> P s -> P s'.
Proof.
  intros He Henv. induction He as [a s|p s|p s s1 tr r s' H1 _ IH|B c k b s s1 tr r s' _ _ IH];
    intros Ht Hs; [done|done|by eauto|]. apply Forall_cons in Ht as [H1 Ht]. auto.
Qed.

Context (G : S -> S -> Prop).

Fixpoint chl {A} (p : proc C A) (Q : A -> S -> Prop) (s : S) : Prop :=
  match p with
  | Ret a => forall s1, rtc env s s1 -> Q a s1
  | Req c k => forall s1, rtc env s s1 ->
      forall b s2, sem _ c s1 b s2 -> G s1 s2 /\ chl (k b) Q s2
  end.

Lemma chl_env {A} (p : proc C A) Q s s1 : rtc env s s1 -> chl p Q s -> chl p Q s1.
Proof. destruct p; simpl; intros Hs Hp s2 Hs2; apply Hp; by etrans. Qed.

Lemma chl_mono {A} (p : proc C A) (Q Q' : A -> S -> Prop) s :
  chl p Q s -> (forall a s', Q a s' -> Q' a s') -> chl p Q' s.
Proof.
  revert s. induction p as [a|B c k IH]; simpl; intros s Hp HQ.
  - auto.
  - intros s1 Hs b s2 Hc. destruct (Hp s1 Hs b s2 Hc). split; [done|]. by apply IH.
Qed.

Lemma chl_bind {A B} (p : proc C A) (f : A -> proc C B) Q s :
  chl p (fun a s' => chl (f a) Q s') s -> chl (p ≫= f) Q s.
Proof.
  revert s. induction p as [a|D c k IH]; simpl; intros s Hp.
  - apply Hp, rtc_refl.
  - intros s1 Hs b s2 Hc. destruct (Hp s1 Hs b s2 Hc). split; [done|]. by apply IH.
Qed.

(** The bind of [io]: an error is returned as it is. *)
Lemma chl_io_bind {E A B} (m : io C E A) (f : A -> io C E B) Q s :
  chl m (fun r s' => match r with
                     | Ok a => chl (f a) Q s'
                     | Err e => forall s1, rtc env s' s1 -> Q (Err e) s1
                     end) s ->
  chl (m ≫= f) Q s.
Proof. intros Hm. apply chl_bind. eapply chl_mono; [exact Hm|]. by intros [a|e] s' H. Qed.

Lemma chl_result {E A B} (x : result E A) (f : A -> io C E B) Q s :
  (forall e s1, x = Err e -> Q (Err e) s1) -> (forall a, x = Ok a -> chl (f a) Q s) ->
  chl (ret_result x ≫= f) Q s.
Proof. destruct x as [a|e]; intros He Hf; [by apply Hf|]. intros s1 _. auto. Qed.

(** When the guard allows what the environment may do, the program and the
    environment together get where the environment gets. *)
Lemma chl_rtc {A} (p : proc C A) Q s :
  (forall s1 s2, G s1 s2 -> rtc env s1 s2) -> chl p Q s -> chl p (fun a s' => Q a s' /\ rtc env s s') s.
Proof.
  intros HG. enough (forall s0, rtc env s0 s -> chl p Q s -> chl p (fun a s' => Q a s' /\ rtc env s0 s') s) as Hg
    by (intros Hp; by apply Hg).
  revert s. induction p as [a|B c k IH]; simpl; intros s s0 H0 Hp.
  - intros s1 H1. split; [auto|by etrans].
  - intros s1 H1 b s2 Hc. destruct (Hp s1 H1 b s2 Hc) as [Hg Hk]. split; [done|].
    apply IH; [|done]. etrans; [exact H0|]. etrans; [exact H1|]. auto.
Qed.

(** Every run keeps to the guard, and a run that ends meets the
    postcondition. *)
Lemma chl_exec {A} (p : proc C A) Q s tr r s' :
  exec p s tr r s' -> chl p Q s ->
  Forall (fun x => G x.1 x.2) tr /\ (forall a, r = Some a -> Q a s').
Proof.
  induction 1 as [a s|p s|p s s1 tr r s' He _ IH|B c k b s s1 tr r s' Hc _ IH]; simpl; intros Hp.
  - split; [done|]. intros ? [= ->]. apply Hp, rtc_refl.
  - done.
  - apply IH. eapply chl_env; [by apply rtc_once|done].
  - destruct (Hp s (rtc_refl _ _) b s1 Hc) as [Hg Hk]. destruct (IH Hk) as [Ht HQ].
    split; [by constructor|done].
Qed.
End Runs.

(** Two guards are kept together. *)
Lemma chl_and {C S A} sem env (G1 G2 : S -> S -> Prop) (p : proc C A) (Q1 Q2 : A -> S -> Prop) s :
  chl sem env G1 p Q1 s -> chl sem env G2 p Q2 s ->
  chl sem env (fun s1 s2 => G1 s1 s2 /\ G2 s1 s2) p (fun a s' => Q1 a s' /\ Q2 a s') s.
Proof.
  revert s. induction p as [a|B c k IH]; simpl; intros s H1 H2 s1 Hs; [auto|]. intros b s2 Hc.
  destruct (H1 s1 Hs b s2 Hc), (H2 s1 Hs b s2 Hc). auto.
Qed.

(** ** Components of a system

    [get] is the part of the system's state that the component acts on. *)
Section Embed.
Context {C D : Type -> Type} {S T : Type}.
Context (sem : forall B, C B -> S -> B -> S -> Prop) (sem' : forall B, D B -> T -> B -> T -> Prop).
Context (f : forall B, C B -> D B) (get : T -> S) (put : S -> T -> T).
Context (env G : S -> S -> Prop) (env' G' : T -> T -> Prop).
Hypothesis embed_step : forall B (c : C B) t b t', sem' B (f B c) t b t' ->
  sem B c (get t) b (get t') /\ t' = put (get t') t.
Hypothesis embed_env : forall t t', env' t t' -> rtc env (get t) (get t').
Hypothesis embed_guard : forall t s', G (get t) s' -> G' t (put s' t).

Lemma embed_env_rtc t t' : rtc env' t t' -> rtc env (get t) (get t').
Proof. induction 1 as [t|t1 t2 t3 H1%embed_env _ IH]; [done|]. by etrans. Qed.

(** What is known of the component's program holds of it in the system, with
    what the system keeps meanwhile. *)
Lemma chl_embed {A} (I : T -> Prop) (p : proc C A) (Q : A -> S -> Prop) t :
  (forall t1 t2, env' t1 t2 -> I t1 -> I t2) ->
  (forall t1 s2, I t1 -> G (get t1) s2 -> I (put s2 t1)) ->
  I t -> chl sem env G p Q (get t) -> chl sem' env' G' (embed f p) (fun a t' => Q a (get t') /\ I t') t.
Proof.
  intros He Hp. assert (forall t1 t2, rtc env' t1 t2 -> I t1 -> I t2) as Hr by (induction 1; eauto).
  revert t. induction p as [a|B c k IH]; simpl; intros t Hi Hc t1 H1.
  - split; [by apply Hc, embed_env_rtc|eauto].
  - intros b t2 Hb. apply embed_step in Hb as [Hb Heq].
    destruct (Hc _ (embed_env_rtc _ _ H1) b _ Hb) as [Hg Hk]. split; [rewrite Heq; by apply embed_guard|].
    apply IH; [|done]. rewrite Heq. apply Hp; [by eapply Hr|done].
Qed.
End Embed.

(** ** Programs all of whose calls satisfy a predicate *)
Section Calls.
Context {C : Type -> Type} {E : Type} (P : forall B, C B -> Prop).

Fixpoint all_calls {A} (p : proc C A) : Prop :=
  match p with
  | Ret _ => True
  | Req c k => P _ c /\ forall b, all_calls (k b)
  end.

Lemma all_calls_bind {A B} (p : proc C A) (f : A -> proc C B) :
  all_calls p -> (forall a, all_calls (f a)) -> all_calls (p ≫= f).
Proof.
  induction p as [a|D c k IH]; simpl; intros Hp Hf; [apply Hf|].
  destruct Hp as [Hc Hk]. split; [done|]. intros b. by apply IH.
Qed.

Lemma all_calls_io_bind {A B} (m : io C E A) (f : A -> io C E B) :
  all_calls m -> (forall a, all_calls (f a)) -> all_calls (m ≫= f).
Proof. intros Hm Hf. apply all_calls_bind; [done|]. by intros [a|e]. Qed.

Lemma all_calls_outcome_of {A} (m : io C E A) : all_calls m -> all_calls (outcome_of m).
Proof. intros Hm. by apply all_calls_bind. Qed.

Lemma all_calls_of_proc {A} (p : proc C A) : all_calls p -> all_calls (of_proc (E := E) p).
Proof. intros Hp. by apply all_calls_bind. Qed.

Lemma all_calls_each {A} (f : A -> io C E unit) l :
  (forall a, all_calls (f a)) -> all_calls (each f l).
Proof. intros Hf. induction l as [|x l IH]; simpl; [done|]. by apply all_calls_io_bind. Qed.

(** [?] on a known [Ok]. *)
Lemma all_calls_ok {A B} (a : A) (f : A -> io C E B) :
  all_calls (f a) -> all_calls (ret_result (Ok a) ≫= f).
Proof. done. Qed.

(** A program whose calls keep to the guard and to an invariant of the
    environment. *)
Lemma chl_stable {S A} sem env G (I : S -> Prop) (p : proc C A) s :
  (forall s1 s2, env s1 s2 -> I s1 -> I s2) ->
  (forall B (c : C B) s1 b s2, P B c -> sem B c s1 b s2 -> I s1 -> G s1 s2 /\ I s2) ->
  all_calls p -> I s -> chl sem env G p (fun _ s' => I s') s.
Proof.
  intros He HP. assert (forall s1 s2, rtc env s1 s2 -> I s1 -> I s2) as Hr by (induction 1; eauto).
  revert s. induction p as [a|B c k IH]; simpl; intros s Hp Hi s1 Hs; [by eapply Hr|].
  destruct Hp as [Hc Hk]. intros b s2 Hb. destruct (HP _ _ _ _ _ Hc Hb (Hr _ _ Hs Hi)). auto.
Qed.

(** Such a program keeps to a guard its calls keep to. *)
Lemma chl_calls {S A} sem env G (p : proc C A) (Q : A -> S -> Prop) s :
  (forall B (c : C B) s1 b s2, P B c -> sem B c s1 b s2 -> G s1 s2) ->
  all_calls p -> (forall a s', Q a s') -> chl sem env G p Q s.
Proof.
  intros HP. revert s. induction p as [a|B c k IH]; simpl; intros s Hp HQ; [auto|].
  destruct Hp as [Hc Hk]. intros s1 _ b s2 Hs. split; [by eapply HP|]. by apply IH.
Qed.
End Calls.

Lemma all_calls_impl {C : Type -> Type} (P P' : forall B, C B -> Prop) {A} (p : proc C A) :
  (forall B (c : C B), P B c -> P' B c) -> all_calls P p -> all_calls P' p.
Proof. intros HP. induction p as [a|D c k IH]; [done|]. intros [Hc Hk]. split; auto. Qed.

Lemma all_calls_embed {C D : Type -> Type} (P : forall B, D B -> Prop) (f : forall B, C B -> D B) {A} (p : proc C A) :
  all_calls (fun B c => P B (f B c)) p -> all_calls P (embed f p).
Proof. induction p as [a|B c k IH]; [done|]. intros [Hc Hk]. split; auto. Qed.

(** ** Results that depend on the answers only *)
Section Answers.
Context {C : Type -> Type} {E : Type} (P : forall B, C B -> B -> Prop).

(** Every result of the program is in [Q] when every answer is in [P]. *)
Fixpoint ends {A} (p : proc C A) (Q : A -> Prop) : Prop :=
  match p with
  | Ret a => Q a
  | Req c k => forall b, P _ c b -> ends (k b) Q
  end.

Lemma ends_bind {A B} (p : proc C A) (f : A -> proc C B) Q :
  ends p (fun a => ends (f a) Q) -> ends (p ≫= f) Q.
Proof. induction p as [a|D c k IH]; simpl; [done|]. intros Hp b Hb. by apply IH, Hp. Qed.

Lemma ends_mono {A} (p : proc C A) (Q Q' : A -> Prop) :
  ends p Q -> (forall a, Q a -> Q' a) -> ends p Q'.
Proof. induction p as [a|D c k IH]; simpl; [auto|]. intros Hp HQ b Hb. apply IH; auto. Qed.

Lemma ends_any {A} (p : proc C A) (Q : A -> Prop) : (forall a, Q a) -> ends p Q.
Proof. intros HQ. induction p as [a|D c k IH]; simpl; auto. Qed.

Lemma ends_io_bind {A B} (m : io C E A) (f : A -> io C E B) Q :
  ends m (fun r => match r with Ok a => ends (f a) Q | Err e => Q (Err e) end) -> ends (m ≫= f) Q.
Proof. intros Hm. apply ends_bind. eapply ends_mono; [exact Hm|]. by intros [a|e]. Qed.

Lemma chl_ends {S A} sem env G (p : proc C A) (Q : A -> S -> Prop) (Q' : A -> Prop) s :
  (forall B (c : C B) b, P B c b) -> ends p Q' -> chl sem env G p Q s ->
  chl sem env G p (fun a s' => Q a s' /\ Q' a) s.
Proof.
  intros HP. revert s. induction p as [a|B c k IH]; simpl; intros s He Hp; [auto|].
  intros s1 Hs b s2 Hb. destruct (Hp s1 Hs b s2 Hb) as [Hg Hk]. split; [done|]. by apply IH; auto.
Qed.

(** A step about which nothing is known. *)
Lemma ends_skip {A B} (m : io C E A) (f : A -> io C E B) Q :
  (forall a, ends (f a) Q) -> (forall e, Q (Err e)) -> ends (m ≫= f) Q.
Proof. intros Hf He. apply ends_io_bind, ends_any. intros [a|e]; auto. Qed.

Lemma ends_exec {S A} sem env (p : proc C A) (Q : A -> Prop) (s : S) tr r s' :
  exec sem env p s tr r s' -> (forall B (c : C B) s b s', sem B c s b s' -> P B c b) ->
  ends p Q -> forall a, r = Some a -> Q a.
Proof.
  intros He HP. induction He as [b s|p s|p s s1 tr r s' _ _ IH|B c k b s s1 tr r s' Hc _ IH];
    simpl; intros Hp a Ha; [by injection Ha as <-|done|by apply IH|eauto].
Qed.
End Answers.

(** ** Programs among others

    What holds of a program while others act: [rely] is what others, and the
    calls in [P], may do, and an assertion is [stable] when that keeps it. *)
Class Rely {C : Type -> Type} {S : Type} (sem : forall B, C B -> S -> B -> S -> Prop) (env G rely : S -> S -> Prop)
    (P : forall B, C B -> Prop) : Prop := {
  rely_env s s' : env s s' -> rely s s';
  rely_step B (c : C B) s b s' : P B c -> sem B c s b s' -> G s s' /\ rely s s'
}.

Definition stable {S} (rely : S -> S -> Prop) (I : S -> Prop) : Prop := forall s s', rely s s' -> I s -> I s'.

Lemma stable_const {S} (rely : S -> S -> Prop) (P : Prop) : stable rely (fun _ => P).
Proof. by intros s s' _. Qed.

Lemma stable_and {S} (rely : S -> S -> Prop) I I' :
  stable rely I -> stable rely I' -> stable rely (fun s => I s /\ I' s).
Proof. intros Hi Hi' s s' Hr [H1 H2]. split; eauto. Qed.

Section Rely.
Context {C : Type -> Type} {S E : Type} {sem : forall B, C B -> S -> B -> S -> Prop}.
Context {env G rely : S -> S -> Prop} {P : forall B, C B -> Prop} `{!Rely sem env G rely P}.
Abbreviation prog A := (io C E A).

Lemma stable_env I s s' : stable rely I -> rtc env s s' -> I s -> I s'.
Proof. intros Hs. induction 1 as [|s s1 s2 H1%rely_env _ IH]; [done|]. eauto. Qed.

Lemma chl_calls_stable {A} I (m : proc C A) s :
  stable rely I -> all_calls P m -> I s -> chl sem env G m (fun _ s' => I s') s.
Proof.
  intros Hs Hm. apply (chl_stable P); [..|done].
  - intros s1 s2 Hw%rely_env. by apply Hs.
  - intros B c s1 b s2 Hc Hb Hi. destruct (rely_step _ _ _ _ _ Hc Hb). split; [done|by eapply Hs].
Qed.

(** [I] holds throughout and [R] of the result when there is one. *)
Definition ensures {A} (I : S -> Prop) (R : A -> S -> Prop) (m : prog A) (s : S) : Prop :=
  chl sem env G m (fun r s' => I s' /\ forall a, r = Ok a -> R a s') s.

Lemma ensures_weaken {A} I (R R' : A -> S -> Prop) m s :
  (forall a s', I s' -> R a s' -> R' a s') -> ensures I R m s -> ensures I R' m s.
Proof.
  intros Hw Hm. eapply chl_mono; [exact Hm|]. intros r s' [Hi HR]. split; [done|].
  intros a Ha. apply Hw; auto.
Qed.

Lemma ensures_inv {A} (I I' : S -> Prop) (R : A -> S -> Prop) m s :
  (forall s', I' s' -> I s') -> ensures I' R m s -> ensures I R m s.
Proof. intros Hw Hm. eapply chl_mono; [exact Hm|]. intros r s' [Hi HR]. auto. Qed.

Lemma ensures_bind {A B} I (R : A -> S -> Prop) (R' : B -> S -> Prop) (m : prog A) (f : A -> prog B) s :
  stable rely I -> ensures I R m s -> (forall a s', I s' -> R a s' -> ensures I R' (f a) s') ->
  ensures I R' (m ≫= f) s.
Proof.
  intros Hs Hm Hf. apply chl_io_bind. eapply chl_mono; [exact Hm|].
  intros [a|e] s' [Hi HR]; [by apply Hf, HR|]. intros s1 H1. split; [by eapply stable_env|done].
Qed.

Lemma ensures_calls {A} I (R : A -> Prop) (m : prog A) s :
  stable rely I -> all_calls P m -> ends (fun _ _ _ => True) m (fun r => forall a, r = Ok a -> R a) -> I s ->
  ensures I (fun a _ => R a) m s.
Proof.
  intros Hs Hm He Hi.
  apply (chl_ends (fun _ _ _ => True) _ _ _ _ (fun _ => I) (fun r => forall a, r = Ok a -> R a)); [done..|].
  by apply chl_calls_stable.
Qed.

Lemma ensures_holds {A} (I I' : S -> Prop) (m : prog A) s :
  stable rely I' -> (forall s', I' s' -> I s') -> all_calls P m -> I' s -> ensures I (fun _ => I') m s.
Proof.
  intros Hs HI Hm Hi. eapply chl_mono; [by apply (chl_calls_stable I')|]. intros r s' H'. split; [auto|done].
Qed.

Lemma ensures_skip {A B} I (R' : B -> S -> Prop) (m : prog A) (f : A -> prog B) s :
  stable rely I -> all_calls P m -> I s -> (forall a s', I s' -> ensures I R' (f a) s') ->
  ensures I R' (m ≫= f) s.
Proof.
  intros Hs Hm Hi Hf. apply (ensures_bind I (fun _ _ => True)); [done| |auto].
  apply ensures_calls; [done..|by apply ends_any|done].
Qed.

Lemma ensures_result {A} I (R : A -> S -> Prop) (x : result E A) s :
  stable rely I -> I s -> (forall a, x = Ok a -> stable rely (R a) /\ R a s) -> ensures I R (ret_result x) s.
Proof.
  intros Hs Hi Hx s' Hw. split; [by eapply stable_env|]. intros a Ha. destruct (Hx a Ha) as [Ha' HR].
  by eapply stable_env.
Qed.

Lemma ensures_throw {A} I (R : A -> S -> Prop) e s : stable rely I -> I s -> ensures I R (throw e) s.
Proof. intros Hs Hi s' Hw. split; [by eapply stable_env|done]. Qed.

Lemma ensures_ret {A} I (R : A -> S -> Prop) (a : A) s :
  stable rely I -> stable rely (R a) -> I s -> R a s -> ensures I R (mret a) s.
Proof. intros Hs Hr Hi Ha s' Hw. split; [by eapply stable_env|]. intros a' [= <-]. by eapply stable_env. Qed.

Lemma ensures_guard {B} I (R' : B -> S -> Prop) b e (f : unit -> prog B) s :
  stable rely I -> I s -> (b = true -> ensures I R' (f tt) s) -> ensures I R' (guard_or b e ≫= f) s.
Proof. intros Hs Hi Hf. unfold guard_or. destruct b; [by apply Hf|by apply ensures_throw]. Qed.

Lemma ensures_known {A B} I (R' : B -> S -> Prop) (x : result E A) (f : A -> prog B) s :
  stable rely I -> I s -> (forall a, x = Ok a -> ensures I R' (f a) s) -> ensures I R' (ret_result x ≫= f) s.
Proof. intros Hs Hi Hf. destruct x as [a|e]; [by apply Hf|by apply ensures_throw]. Qed.

(** What a call in [P] answers. *)
Lemma ensures_ask {A} I (R : A -> S -> Prop) (c : C A) s :
  stable rely I -> I s -> P A c -> (forall a, stable rely (R a)) ->
  (forall s1 a s2, I s1 -> sem A c s1 a s2 -> R a s2) -> ensures I R (ask c) s.
Proof.
  intros Hs Hi Hc HR Hf s1 Hw a s2 Ha. destruct (rely_step _ _ _ _ _ Hc Ha) as [Hg Hr].
  assert (I s1) as H1 by by eapply stable_env. split; [done|]. intros s3 H3.
  split; [by eapply stable_env, Hs|]. intros a' [= <-]. eapply stable_env; [apply HR|exact H3|exact (Hf _ _ _ H1 Ha)].
Qed.

Lemma ensures_ask_or {A F} I (R : A -> S -> Prop) (c : C (result F A)) f s :
  stable rely I -> I s -> P _ c -> (forall a, stable rely (R a)) ->
  (forall s1 a s2, I s1 -> sem _ c s1 (Ok a) s2 -> R a s2) -> ensures I R (ask_or c f) s.
Proof.
  intros Hs Hi Hc HR Hf s1 Hw a s2 Ha. destruct (rely_step _ _ _ _ _ Hc Ha) as [Hg Hr].
  assert (I s1) as H1 by by eapply stable_env. split; [done|]. intros s3 H3.
  split; [by eapply stable_env, Hs|]. intros a' Ha'. destruct a as [a|e]; [|done]. injection Ha' as <-.
  eapply stable_env; [apply HR|exact H3|exact (Hf _ _ _ H1 Ha)].
Qed.

(** A call outside [P], at a moment when [I'] holds. *)
Lemma ensures_change {A} (I I' : S -> Prop) (R : A -> S -> Prop) (c : C A) s :
  stable rely I -> stable rely I' -> (forall a, stable rely (R a)) -> I' s ->
  (forall s1 a s2, I' s1 -> sem A c s1 a s2 -> G s1 s2 /\ I s2 /\ R a s2) -> ensures I R (ask c) s.
Proof.
  intros Hs Hs' HR Hi Hf s1 Hw a s2 Ha.
  destruct (Hf s1 a s2) as (Hg & H2 & Hr); [by eapply stable_env|done|]. split; [done|]. intros s3 H3.
  split; [by eapply stable_env, H2|]. intros a' [= <-]. by eapply stable_env; [apply HR|exact H3|].
Qed.

Lemma ensures_change_or {A F} (I I' : S -> Prop) (R : A -> S -> Prop) (c : C (result F A)) f s :
  stable rely I -> stable rely I' -> (forall a, stable rely (R a)) -> I' s ->
  (forall s1 r s2, I' s1 -> sem _ c s1 r s2 -> G s1 s2 /\ I s2 /\ forall a, r = Ok a -> R a s2) ->
  ensures I R (ask_or c f) s.
Proof.
  intros Hs Hs' HR Hi Hf s1 Hw r s2 Ha.
  destruct (Hf s1 r s2) as (Hg & H2 & Hr); [by eapply stable_env|done|]. split; [done|]. intros s3 H3.
  split; [by eapply stable_env, H2|]. intros a Ha'. destruct r as [a'|e]; [|done]. injection Ha' as <-.
  eapply stable_env; [apply HR|exact H3|by apply Hr].
Qed.

(** An outcome that is looked at. *)
Lemma ensures_outcome {A} I (R : A -> S -> Prop) (m : prog A) s :
  stable rely I -> (forall a, stable rely (R a)) -> ensures I R m s ->
  ensures I (fun r s' => forall a, r = Ok a -> R a s') (outcome_of m) s.
Proof.
  intros Hs HR Hm. apply chl_bind. eapply chl_mono; [exact Hm|]. intros r s1 [H1 Hr] s2 H2.
  split; [by eapply stable_env|]. intros r' [= <-] a Ha. eapply stable_env; [apply HR|exact H2|auto].
Qed.
End Rely.
Arguments ensures {C S E} sem env G {A} I R m s.

(** ** Runs without interference *)
Definition quiet {S : Type} : S -> S -> Prop := fun _ _ => False.

Lemma rtc_quiet {S} (s s1 : S) : rtc quiet s s1 -> s1 = s.
Proof. by destruct 1. Qed.

Section Quiet.
Context {C : Type -> Type} {S : Type} (sem : forall B, C B -> S -> B -> S -> Prop).
Context (I : S -> Prop).

(** [I] holds at every crash and [Q] at the end. *)
Definition hoare_crash {A} (p : proc C A) (Q : A -> S -> Prop) (s : S) : Prop :=
  chl sem quiet (fun _ s' => I s') p Q s.

Lemma hoare_ret {A} (a : A) (Q : A -> S -> Prop) s : Q a s -> hoare_crash (Ret a) Q s.
Proof. intros HQ s1 ->%rtc_quiet. done. Qed.

Lemma hoare_req {A B} (c : C B) (k : B -> proc C A) Q s :
  (forall b s2, sem B c s b s2 -> I s2 /\ hoare_crash (k b) Q s2) -> hoare_crash (Req c k) Q s.
Proof. intros Hk s1 ->%rtc_quiet. exact Hk. Qed.

Lemma hoare_bind {A B} (p : proc C A) (f : A -> proc C B) Q s :
  hoare_crash p (fun a s' => hoare_crash (f a) Q s') s -> hoare_crash (p ≫= f) Q s.
Proof. apply chl_bind. Qed.

Lemma hoare_mono {A} (p : proc C A) (Q Q' : A -> S -> Prop) s :
  hoare_crash p Q s -> (forall a s', Q a s' -> Q' a s') -> hoare_crash p Q' s.
Proof. apply chl_mono. Qed.

(** The bind of [io]: the continuation runs on success, an error is returned
    as it is. *)
Lemma hoare_io_bind {E A B} (m : io C E A) (f : A -> io C E B) Q s :
  hoare_crash m (fun r s' => match r with
                             | Ok a => hoare_crash (f a) Q s'
                             | Err e => Q (Err e) s'
                             end) s ->
  hoare_crash (m ≫= f) Q s.
Proof.
  intros Hm. apply chl_bind. eapply chl_mono; [exact Hm|].
  intros [a|e] s' H; [exact H|]. by apply hoare_ret.
Qed.

Lemma hoare_ok_bind {E A B} (a : A) (f : A -> io C E B) Q s :
  hoare_crash (f a) Q s -> hoare_crash (ret_result (Ok a) ≫= f) Q s.
Proof. done. Qed.

Lemma hoare_outcome_of {E A} (m : io C E A) Q s :
  hoare_crash m (fun r s' => Q (Ok r) s') s -> hoare_crash (outcome_of m) Q s.
Proof.
  intros Hm. apply chl_bind. eapply chl_mono; [exact Hm|]. intros r s' H. by apply hoare_ret.
Qed.

Lemma hoare_weaken {A} (I' : S -> Prop) (p : proc C A) Q s :
  (forall s', I s' -> I' s') -> hoare_crash p Q s -> chl sem quiet (fun _ s' => I' s') p Q s.
Proof.
  intros HI. unfold hoare_crash. revert s. induction p as [a|B c k IH]; simpl; intros s Hp; [done|].
  intros s1 Hs b s2 Hc. destruct (Hp s1 Hs b s2 Hc). split; [auto|]. by apply IH.
Qed.

(** A program whose calls change nothing. *)
Lemma hoare_unchanged {A} (P : forall B, C B -> Prop) (p : proc C A) s :
  (forall B (c : C B) s b s', P B c -> sem B c s b s' -> s' = s) ->
  all_calls P p -> I s -> hoare_crash p (fun _ s' => s' = s) s.
Proof.
  intros HP. unfold hoare_crash. induction p as [a|B c k IH]; simpl; intros Hp Hi.
  - by intros s1 ->%rtc_quiet.
  - destruct Hp as [Hc Hk]. intros s1 ->%rtc_quiet b s2 ->%HP; [|done]. split; [done|by apply IH].
Qed.

Lemma hoare_exec {A} (p : proc C A) Q s tr r s' :
  exec sem quiet p s tr r s' -> I s -> hoare_crash p Q s ->
  I s' /\ (forall a, r = Some a -> Q a s').
Proof.
  intros He Hi Hp. split; [|eapply chl_exec; eauto].
  revert Hi Hp. induction He as [a s|p s|p s s1 tr r s' He _ IH|B c k b s s1 tr r s' Hc _ IH];
    intros Hi Hp; [done..| |].
  - destruct He.
  - destruct (Hp s (rtc_refl _ _) b s1 Hc) as [Hi1 Hk]. by apply IH.
Qed.
End Quiet.
Arguments hoare_crash : simpl never.

(** ** One run, computed

    A handler answers every call; [run] is the program under it. *)
Section Run.
Context {C : Type -> Type} {S : Type} (handle : forall B, C B -> S -> B * S).

Fixpoint run {A} (p : proc C A) (s : S) : A * S :=
  match p with
  | Ret a => (a, s)
  | Req c k => let '(b, s1) := handle _ c s in run (k b) s1
  end.

Lemma run_bind {A B} (p : proc C A) (f : A -> proc C B) s :
  run (p ≫= f) s = (let '(a, s1) := run p s in run (f a) s1).
Proof.
  revert s. induction p as [a|D c k IH]; intros s; simpl; [done|].
  destruct (handle D c s) as [b s1]. apply IH.
Qed.

Lemma run_io_bind {E A B} (m : io C E A) (f : A -> io C E B) s :
  run (m ≫= f) s = match run m s with
                   | (Ok a, s1) => run (f a) s1
                   | (Err e, s1) => (Err e, s1)
                   end.
Proof.
  transitivity (let '(r, s1) := run m s in
    run (match r with Ok a => f a | Err e => Ret (Err e) end) s1); [apply run_bind|].
  by destruct (run m s) as [[a|e] s1].
Qed.

Lemma run_outcome_of {E A} (m : io C E A) s :
  run (outcome_of m) s = (let '(r, s1) := run m s in (Ok r, s1)).
Proof. unfold outcome_of. rewrite run_bind. by destruct (run m s). Qed.

(** A run of a handler that respects [sem] is one of the runs. *)
Lemma run_exec sem env {A} (p : proc C A) s :
  (forall B (c : C B) s0, sem B c s0 (handle B c s0).1 (handle B c s0).2) ->
  exists tr, exec sem env p s tr (Some (run p s).1) (run p s).2.
Proof.
  intros Hh. revert s. induction p as [a|B c k IH]; intros s; simpl.
  - eexists. constructor.
  - specialize (Hh B c s). destruct (handle B c s) as [b s1] eqn:E. simpl in Hh.
    destruct (IH b s1) as [tr Htr]. eexists. by econstructor.
Qed.

(** The state in which a run that dies after [n] calls leaves the system. *)
Fixpoint run_until (n : nat) {A} (p : proc C A) (s : S) : S :=
  match n, p with
  | O, _ | _, Ret _ => s
  | Datatypes.S n, Req c k => let '(b, s1) := handle _ c s in run_until n (k b) s1
  end.

Lemma run_until_exec sem env n {A} (p : proc C A) s :
  (forall B (c : C B) s0, sem B c s0 (handle B c s0).1 (handle B c s0).2) ->
  exists tr, exec sem env p s tr None (run_until n p s).
Proof.
  intros Hh. revert p s. induction n as [|n IH]; intros [a|B c k] s; simpl;
    try (eexists; by apply exec_stop).
  specialize (Hh B c s). destruct (handle B c s) as [b s1] eqn:E. simpl in Hh.
  destruct (IH (k b) s1) as [tr Htr]. eexists. by econstructor.
Qed.
End Run.

#[export] Hint Rewrite @run_io_bind @run_outcome_of @run_bind : run.
