(* ===== verification/StorageModel.v ===== *)
(** * The data of execution storage ([execution-storage/src/model.rs])

    A bounded volume per execution, mounted at a path that is a function of the
    execution id, with a journal record that says how far its allocation or
    release has come.  Paths are the strings the code displays and compares by
    component, as [std::path] does. *)

From Stdlib Require Import Ascii.
From S2P Require Import Prelude Core Lifecycle.

















Module StorageError.
Inductive StorageError :=
| InvalidRequest (message : string)
| Unavailable (message : string)
| IdentityMismatch (message : string)
| Journal (message : string)
| Command (message : string)
| DockerCapability (message : string)
| Cleanup (message : string).

Definition to_string (e : StorageError) : string :=
  match e with
  | InvalidRequest m => "invalid storage request: " +:+ m
  | Unavailable m => "storage capability unavailable: " +:+ m
  | IdentityMismatch m => "storage identity mismatch: " +:+ m
  | Journal m => "storage journal error: " +:+ m
  | Command m => "storage command failed: " +:+ m
  | DockerCapability m => "Docker capability unavailable: " +:+ m
  | Cleanup m => "storage cleanup failed: " +:+ m
  end.

#[global] Instance eq_dec : EqDecision StorageError.
Proof. solve_decision. Defined.
End StorageError.
Abbreviation StorageError := StorageError.StorageError.

Definition ALLOCATION_API_VERSION : string := "autospec.dev/execution-storage/v1alpha1".
Definition GIB : Z := 1024 * 1024 * 1024.

Definition disk_gib_to_bytes (disk_gib : Z) : result StorageError Z :=
  if disk_gib =? 0
  then Err (StorageError.InvalidRequest "disk_gib must be greater than zero")
  else ok_or (checked_mul_u64 disk_gib GIB)
             (StorageError.InvalidRequest "disk_gib overflows bytes").

(** ** Paths

    [Path::components]: whether the path is absolute, and its names; empty and
    inner [.] pieces do not count. *)
Definition is_absolute (p : string) : bool := starts_with "/" p.

Definition components (p : string) : bool * list string :=
  (is_absolute p,
   match split "/"%char p with
   | first :: rest =>
       (if str_is_empty first then [] else [first]) ++
       List.filter (fun c => negb (str_is_empty c) && negb (bool_decide (c = "."%string))) rest
   | [] => []
   end).

(** [==] on [Path]. *)
Definition path_eqb (p q : string) : bool := bool_decide (components p = components q).

(** [PathBuf::join]. *)
Definition join (p q : string) : string :=
  if is_absolute q then q
  else if str_is_empty p then q
  else match rsplit_once "/"%char p with
       | Some (_, EmptyString) => p +:+ q
       | _ => p +:+ "/" +:+ q
       end.

(** [Path::file_name], [Path::file_stem] and [Path::parent] (as components). *)
Definition file_name (p : string) : option string :=
  match last (components p).2 with
  | Some name => if bool_decide (name = ".."%string) || bool_decide (name = "."%string)
                 then None else Some name
  | None => None
  end.

Definition file_stem (p : string) : option string :=
  match file_name p with
  | Some name =>
      match rsplit_once "."%char name with
      | Some (EmptyString, _) | None => Some name
      | Some (stem, _) => Some stem
      end
  | None => None
  end.

Definition parent (p : string) : option (bool * list string) :=
  match (components p).2 with
  | [] => None
  | c :: cs => Some ((components p).1, removelast (c :: cs))
  end.

Definition path_of (c : bool * list string) : string :=
  (if c.1 then "/" else "") +:+ String.concat "/" c.2.

(** [Path::parent] as a path, [Path::starts_with]. *)
Definition parent_path (p : string) : option string := path_of <$> parent p.

Definition path_starts_with (p base : string) : bool :=
  Bool.eqb (components p).1 (components base).1 &&
  bool_decide (take (length (components base).2) (components p).2 = (components base).2).

(** [Ord] on [Path]: by component. *)
Fixpoint names_leb (a b : list string) : bool :=
  match a, b with
  | [], _ => true
  | _ :: _, [] => false
  | x :: a, y :: b => if bool_decide (x = y) then names_leb a b else bool_decide (String.le x y)
  end.
Definition path_leb (p q : string) : bool := names_leb (components p).2 (components q).2.
Definition path_le (p q : string) : Prop := path_leb p q = true.
#[export] Instance path_le_dec : RelDecision path_le.
Proof. intros p q. unfold path_le. apply _. Defined.

(** [Path::with_extension] of a path with a file name. *)
Definition with_extension (p extension : string) : string :=
  match file_name p, parent_path p with
  | Some _, Some dir => join dir (default "" (file_stem p)) +:+ "." +:+ extension
  | _, _ => p
  end.

(** ** The layout of an execution *)
Definition validate_execution_id (execution_id : string) : result StorageError unit :=
  let valid :=
    (1 <=? Z.of_nat (String.length execution_id)) &&
    (Z.of_nat (String.length execution_id) <=? 63) &&
    match execution_id with
    | String byte _ => is_ascii_lowercase byte || is_ascii_digit byte
    | EmptyString => false
    end &&
    string_forallb (fun byte => is_ascii_lowercase byte || is_ascii_digit byte ||
                                bool_decide (byte = "-"%char)) execution_id in
  if valid then Ok tt
  else Err (StorageError.InvalidRequest
              ("execution_id is not a safe path component: " +:+ execution_id)).

Module ExecutionLayout.
Record ExecutionLayout := {
  state_root : string;
  root : string;
  repository : string;
  session : string;
  conversation : string;
  credentials : string;
  runtime : string;
  journal : string
}.

Definition new (state_root : string) (execution_id : ExecutionId) :
    result StorageError ExecutionLayout :=
  _ ← validate_execution_id execution_id;
  let root := join (join state_root "executions") execution_id in
  let session := join root "session" in
  Ok {| state_root := state_root;
        root := root;
        repository := join root "repository";
        session := session;
        conversation := join session "conversation";
        credentials := join root "credentials";
        runtime := join root "runtime";
        journal := join (join state_root "execution-storage") (execution_id +:+ ".json") |}.
End ExecutionLayout.
Abbreviation ExecutionLayout := ExecutionLayout.ExecutionLayout.

(** ** Backend identities *)
#[export] Instance backend_identity_eq_dec : EqDecision BackendIdentity.
Proof. solve_decision. Defined.

Definition filesystem_id (b : BackendIdentity) : string :=
  match b with
  | BackendIdentity.Apfs _ _ _ _ volume_uuid _ => volume_uuid
  | BackendIdentity.Lvm _ _ _ _ filesystem_uuid _ => filesystem_uuid
  end.

Definition identity_token (b : BackendIdentity) : string :=
  match b with
  | BackendIdentity.Apfs _ _ _ _ _ token => token
  | BackendIdentity.Lvm _ _ _ _ _ token => token
  end.

Definition identity_fields (b : BackendIdentity) : list (string * string) :=
  match b with
  | BackendIdentity.Apfs container container_uuid volume volume_name volume_uuid token =>
      [("APFS container", container); ("APFS container UUID", container_uuid);
       ("APFS volume", volume); ("APFS volume name", volume_name);
       ("APFS volume UUID", volume_uuid); ("ownership token", token)]
  | BackendIdentity.Lvm group group_uuid volume volume_uuid filesystem token =>
      [("LVM volume group", group); ("LVM volume group UUID", group_uuid);
       ("LVM logical volume", volume); ("LVM logical volume UUID", volume_uuid);
       ("filesystem UUID", filesystem); ("ownership token", token)]
  end%string.

Definition validate_identity (b : BackendIdentity) : result StorageError unit :=
  match List.find (fun f => str_is_empty f.2) (identity_fields b) with
  | Some (name, _) => Err (StorageError.IdentityMismatch (name +:+ " is empty"))
  | None => Ok tt
  end.

Definition validate_created (b : BackendIdentity) : result StorageError unit :=
  match b with
  | BackendIdentity.Lvm group group_uuid volume volume_uuid _ token =>
      check (negb (existsb str_is_empty [group; group_uuid; volume; volume_uuid; token]))
            (StorageError.IdentityMismatch "created LVM identity is incomplete")
  | BackendIdentity.Apfs _ _ _ _ _ _ => validate_identity b
  end.

(** ** Receipts

    [==] on receipts compares their paths as paths. *)
Definition docker_bind_eqb (a b : DockerBindProof) : bool :=
  bool_decide (DockerBindProof.daemon_id a = DockerBindProof.daemon_id b) &&
  bool_decide (DockerBindProof.verifier a = DockerBindProof.verifier b) &&
  bool_decide (DockerBindProof.method_version a = DockerBindProof.method_version b) &&
  path_eqb (DockerBindProof.source_path a) (DockerBindProof.source_path b) &&
  bool_decide (DockerBindProof.filesystem_id a = DockerBindProof.filesystem_id b).

Definition receipt_eqb (a b : AllocationReceipt) : bool :=
  bool_decide (AllocationReceipt.api_version a = AllocationReceipt.api_version b) &&
  bool_decide (AllocationReceipt.labels a = AllocationReceipt.labels b) &&
  bool_decide (AllocationReceipt.reserved_bytes a = AllocationReceipt.reserved_bytes b) &&
  path_eqb (AllocationReceipt.mount_path a) (AllocationReceipt.mount_path b) &&
  bool_decide (AllocationReceipt.backend_kind a = AllocationReceipt.backend_kind b) &&
  bool_decide (AllocationReceipt.backend_key a = AllocationReceipt.backend_key b) &&
  bool_decide (AllocationReceipt.pool_identity a = AllocationReceipt.pool_identity b) &&
  bool_decide (AllocationReceipt.backend a = AllocationReceipt.backend b) &&
  docker_bind_eqb (AllocationReceipt.docker_bind a) (AllocationReceipt.docker_bind b).

Definition validate_receipt (r : AllocationReceipt) (expected_labels : OwnershipLabels)
    (expected_layout : ExecutionLayout) : result StorageError unit :=
  _ ← check (bool_decide (AllocationReceipt.api_version r = ALLOCATION_API_VERSION))
        (StorageError.IdentityMismatch ("allocation API version " +:+
           AllocationReceipt.api_version r +:+ " is not " +:+ ALLOCATION_API_VERSION));
  _ ← check (bool_decide (AllocationReceipt.labels r = expected_labels))
        (StorageError.IdentityMismatch "ownership labels differ from the requested execution");
  _ ← check (path_eqb (AllocationReceipt.mount_path r) (ExecutionLayout.root expected_layout))
        (StorageError.IdentityMismatch ("receipt mount " +:+ AllocationReceipt.mount_path r +:+
           " is not " +:+ ExecutionLayout.root expected_layout));
  _ ← check (negb ((AllocationReceipt.reserved_bytes r =? 0) ||
                   str_is_empty (AllocationReceipt.backend_kind r) ||
                   str_is_empty (AllocationReceipt.backend_key r) ||
                   str_is_empty (AllocationReceipt.pool_identity r)))
        (StorageError.IdentityMismatch "reserved byte count is zero");
  _ ← validate_identity (AllocationReceipt.backend r);
  let bind := AllocationReceipt.docker_bind r in
  check (negb (str_is_empty (DockerBindProof.daemon_id bind) ||
               str_is_empty (DockerBindProof.verifier bind) ||
               str_is_empty (DockerBindProof.method_version bind) ||
               negb (path_eqb (DockerBindProof.source_path bind)
                              (AllocationReceipt.mount_path r)) ||
               str_is_empty (DockerBindProof.filesystem_id bind)))
        (StorageError.IdentityMismatch "Docker bind proof does not match the allocation").

(** ** The phase journal *)
Module AllocationPhase.
Inductive AllocationPhase := Allocating | Ready | Releasing.
#[global] Instance eq_dec : EqDecision AllocationPhase.
Proof. solve_decision. Defined.
End AllocationPhase.
Abbreviation AllocationPhase := AllocationPhase.AllocationPhase.

Module ReleasePhase.
Inductive ReleasePhase := Mounted | Unmounted | ObjectAbsent.
#[global] Instance eq_dec : EqDecision ReleasePhase.
Proof. solve_decision. Defined.
End ReleasePhase.
Abbreviation ReleasePhase := ReleasePhase.ReleasePhase.

Module BackendState.
Inductive BackendState := Mounted | Unmounted | Absent.
#[global] Instance eq_dec : EqDecision BackendState.
Proof. solve_decision. Defined.
End BackendState.
Abbreviation BackendState := BackendState.BackendState.

Module PhaseJournal.
Record PhaseJournal := {
  api_version : string;
  phase : AllocationPhase;
  labels : OwnershipLabels;
  reserved_bytes : Z;                 (* u64 *)
  mount_path : string;
  backend_kind : string;
  backend_key : string;
  pool_identity : string;
  ownership_token : string;
  backend : option BackendIdentity;
  receipt : option AllocationReceipt;
  release_phase : option ReleasePhase
}.

Definition allocating (labels : OwnershipLabels) (reserved_bytes : Z)
    (mount_path backend_kind backend_key pool_identity ownership_token : string) : PhaseJournal :=
  {| api_version := ALLOCATION_API_VERSION;
     phase := AllocationPhase.Allocating;
     labels := labels;
     reserved_bytes := reserved_bytes;
     mount_path := mount_path;
     backend_kind := backend_kind;
     backend_key := backend_key;
     pool_identity := pool_identity;
     ownership_token := ownership_token;
     backend := None;
     receipt := None;
     release_phase := None |}.

Definition with_backend_identity (j : PhaseJournal) (b : BackendIdentity) : PhaseJournal :=
  {| api_version := api_version j; phase := phase j; labels := labels j;
     reserved_bytes := reserved_bytes j; mount_path := mount_path j;
     backend_kind := backend_kind j; backend_key := backend_key j;
     pool_identity := pool_identity j; ownership_token := ownership_token j;
     backend := Some b; receipt := receipt j; release_phase := release_phase j |}.

Definition from_receipt (phase : AllocationPhase) (r : AllocationReceipt) : PhaseJournal :=
  {| api_version := ALLOCATION_API_VERSION;
     phase := phase;
     labels := AllocationReceipt.labels r;
     reserved_bytes := AllocationReceipt.reserved_bytes r;
     mount_path := AllocationReceipt.mount_path r;
     backend_kind := AllocationReceipt.backend_kind r;
     backend_key := AllocationReceipt.backend_key r;
     pool_identity := AllocationReceipt.pool_identity r;
     ownership_token := identity_token (AllocationReceipt.backend r);
     backend := Some (AllocationReceipt.backend r);
     receipt := Some r;
     release_phase := None |}.

Definition ready (r : AllocationReceipt) : PhaseJournal := from_receipt AllocationPhase.Ready r.

Definition releasing (r : AllocationReceipt) (p : ReleasePhase) : PhaseJournal :=
  let j := from_receipt AllocationPhase.Releasing r in
  {| api_version := api_version j; phase := phase j; labels := labels j;
     reserved_bytes := reserved_bytes j; mount_path := mount_path j;
     backend_kind := backend_kind j; backend_key := backend_key j;
     pool_identity := pool_identity j; ownership_token := ownership_token j;
     backend := backend j; receipt := receipt j; release_phase := Some p |}.

Definition validate (j : PhaseJournal) (layout : ExecutionLayout) : result StorageError unit :=
  _ ← check (negb (negb (bool_decide (api_version j = ALLOCATION_API_VERSION)) ||
                   negb (bool_decide (OwnershipLabels.execution_id (labels j) =
                           default "" (file_stem (ExecutionLayout.journal layout)))) ||
                   negb (path_eqb (mount_path j) (ExecutionLayout.root layout)) ||
                   (reserved_bytes j =? 0) ||
                   str_is_empty (backend_kind j) ||
                   str_is_empty (backend_key j) ||
                   str_is_empty (pool_identity j) ||
                   str_is_empty (ownership_token j)))
        (StorageError.IdentityMismatch "journal identity does not match its deterministic path");
  _ ← match backend j with
      | Some b =>
          _ ← (if bool_decide (phase j = AllocationPhase.Allocating)
               then validate_created b else validate_identity b);
          check (bool_decide (identity_token b = ownership_token j))
            (StorageError.IdentityMismatch
               "journal ownership token differs from backend identity")
      | None => Ok tt
      end;
  match phase j, backend j, receipt j, release_phase j with
  | AllocationPhase.Allocating, _, None, None => Ok tt
  | AllocationPhase.Ready, Some b, Some r, None
  | AllocationPhase.Releasing, Some b, Some r, Some _ =>
      if bool_decide (b = AllocationReceipt.backend r)
      then validate_receipt r (labels j) layout
      else Err (StorageError.IdentityMismatch "journal phase and receipt presence disagree")
  | _, _, _, _ =>
      Err (StorageError.IdentityMismatch "journal phase and receipt presence disagree")
  end.
End PhaseJournal.
Abbreviation PhaseJournal := PhaseJournal.PhaseJournal.

(** ** Joined paths *)
Lemma no_slash_relative name : ~ has_char "/" name -> is_absolute name = false.
Proof.
  intros Hn. destruct name as [|x name]; [done|]. apply not_true_is_false. intros Hx%andb_true_iff.
  destruct Hx as [Hx%bool_decide_eq_true _]. apply Hn, has_char_cons. by left.
Qed.

Lemma join_slash p q c :
  last_byte p = Some c -> c <> "/"%char -> is_absolute q = false -> join p q = (p +:+ "/" +:+ q)%string.
Proof.
  intros Hl Hc Hq. unfold join. rewrite Hq. destruct (str_is_empty p) eqn:He; [by destruct p|].
  destruct (rsplit_once "/" p) as [[a [|x b]]|] eqn:Er; [|done..].
  apply rsplit_once_Some in Er as [-> _]. rewrite last_byte_app in Hl by done. simpl in Hl. congruence.
Qed.

Lemma last_byte_join p q : q <> ""%string -> last_byte (join p q) = last_byte q.
Proof.
  intros Hq. unfold join. destruct (is_absolute q); [done|]. destruct (str_is_empty p); [done|].
  destruct (rsplit_once "/" p) as [[a [|x b]]|]; rewrite ?last_byte_app; try done; by destruct q.
Qed.

Lemma join_relative p q : is_absolute q = false -> exists a, join p q = (a +:+ q)%string.
Proof.
  intros Hq. unfold join. rewrite Hq. destruct (str_is_empty p); [by exists ""%string|].
  destruct (rsplit_once "/" p) as [[a [|x b]]|]; [by exists p|exists (p +:+ "/")%string; by rewrite string_app_assoc..].
Qed.
