(* ===== verification/FileSystem.v ===== *)
(** * The file system under execution storage

    The calls [execution-storage/src/journal.rs] makes relative to the
    directory descriptors it keeps ([rustix::fs] and [std::fs::File]), the
    state they act on, and what a power loss may leave of it.

    A directory keeps, besides its current entries, the earlier entries that
    may still be what is on disk: every change of an entry adds to them and
    [fsync] of the directory forgets them.  A file knows whether its contents
    have been flushed.  Calls that go through a path outside the descriptors
    ([lstat], [open], [canonicalize]) may answer anything. *)

From Stdlib Require Import Ascii.
From S2P Require Import Prelude.

















(** ** Metadata *)
Inductive FileType := RegularFile | DirectoryType | SymlinkType | OtherType.
#[export] Instance file_type_eq_dec : EqDecision FileType.
Proof. solve_decision. Defined.

Module Metadata.
Record Metadata := {
  dev : Z;                            (* u64 *)
  ino : Z;                            (* u64 *)
  uid : Z;                            (* u32 *)
  mode : Z                            (* u32: file type and permissions *)
}.

(** [FileType::from_raw_mode]: the bits [0o170000]. *)
Definition file_type (m : Metadata) : FileType :=
  let bits := Z.land (mode m) 61440 in
  if bits =? 32768 then RegularFile
  else if bits =? 16384 then DirectoryType
  else if bits =? 40960 then SymlinkType
  else OtherType.

Definition is_file (m : Metadata) : bool := bool_decide (file_type m = RegularFile).
Definition is_dir (m : Metadata) : bool := bool_decide (file_type m = DirectoryType).
Definition is_symlink (m : Metadata) : bool := bool_decide (file_type m = SymlinkType).

(** [mode & 0o077 != 0]. *)
Definition shared_mode (m : Metadata) : bool := negb (Z.land (mode m) 63 =? 0).
(** [mode & 0o777] and [mode & 0o7777]. *)
Definition permissions (m : Metadata) : Z := Z.land (mode m) 511.
Definition full_permissions (m : Metadata) : Z := Z.land (mode m) 4095.
End Metadata.
Abbreviation Metadata := Metadata.Metadata.

(** ** Numbers in names *)
Definition digit_char (d : N) : ascii :=
  if (d <? 10)%N then ascii_of_N (48 + d) else ascii_of_N (87 + d).

Fixpoint radix_go (base : N) (fuel : nat) (n : N) (acc : string) : string :=
  match fuel with
  | O => acc
  | S fuel =>
      let acc := String (digit_char (n mod base)) acc in
      if (n <? base)%N then acc else radix_go base fuel (n / base) acc
  end.

(** The [Display], [LowerHex] and [Octal] of an unsigned integer. *)
Definition radix (base : N) (n : Z) : string :=
  radix_go base (S (N.size_nat (Z.to_N n))) (Z.to_N n) "".
Definition decimal : Z -> string := radix 10.
Definition lower_hex : Z -> string := radix 16.
Definition octal : Z -> string := radix 8.

Definition is_ascii_hexdigit (c : ascii) : bool :=
  is_ascii_digit c || ((97 <=? N_of_ascii c)%N && (N_of_ascii c <=? 102)%N) ||
  ((65 <=? N_of_ascii c)%N && (N_of_ascii c <=? 70)%N).

(** ** State *)
Inductive Body :=
| FileBody (data : string) (flushed : bool)
| DirBody (entries : gmap string Z) (past : list (gmap string Z))
| OpaqueBody.

Record Inode := { metadata : Metadata; body : Body }.

(** Inodes by number; a descriptor is the number of the inode it is open on. *)
Abbreviation FileSystem := (gmap Z Inode).
Abbreviation Descriptor := Z.

Definition set_body (b : Body) (n : Inode) : Inode := {| metadata := metadata n; body := b |}.

Definition entries_of (fs : FileSystem) (dir : Descriptor) : gmap string Z :=
  match fs !! dir with
  | Some {| body := DirBody entries _ |} => entries
  | _ => ∅
  end.

Definition past_of (fs : FileSystem) (dir : Descriptor) : list (gmap string Z) :=
  match fs !! dir with
  | Some {| body := DirBody _ past |} => past
  | _ => []
  end.

(** The entries a power loss may leave. *)
Definition possible (fs : FileSystem) (dir : Descriptor) : list (gmap string Z) :=
  entries_of fs dir :: past_of fs dir.

Definition set_entries (dir : Descriptor) (entries : gmap string Z) (fs : FileSystem) : FileSystem :=
  alter (fun n => match body n with
                  | DirBody old past => set_body (DirBody entries (old :: past)) n
                  | _ => n
                  end) dir fs.

Definition forget_past (dir : Descriptor) (fs : FileSystem) : FileSystem :=
  alter (fun n => match body n with
                  | DirBody entries _ => set_body (DirBody entries []) n
                  | _ => n
                  end) dir fs.

Definition set_data (fd : Descriptor) (data : string) (flushed : bool) (fs : FileSystem) : FileSystem :=
  alter (fun n => match body n with
                  | FileBody _ _ => set_body (FileBody data flushed) n
                  | _ => n
                  end) fd fs.

Definition data_of (fs : FileSystem) (fd : Descriptor) : option string :=
  match fs !! fd with
  | Some {| body := FileBody data _ |} => Some data
  | _ => None
  end.

Definition flushed_of (fs : FileSystem) (fd : Descriptor) : bool :=
  match fs !! fd with
  | Some {| body := FileBody _ flushed |} => flushed
  | _ => false
  end.

(** ** Calls *)
Inductive Errno := NOENT | EXIST | OtherErrno (text : string).

Definition errno_text (e : Errno) : string :=
  match e with
  | NOENT => "No such file or directory (os error 2)"
  | EXIST => "File exists (os error 17)"
  | OtherErrno text => text
  end.

Inductive sys : Type -> Type :=
| Lstat (path : string) : sys (result Errno Metadata)
| OpenPath (path : string) : sys (result Errno Metadata)
| Canonicalize (path : string) : sys (result Errno string)
| OpenDescriptor (path : string) : sys (result Errno Descriptor)
| Statat (dir : Descriptor) (name : string) : sys (result Errno Metadata)
| Openat (dir : Descriptor) (name : string) : sys (result Errno Descriptor)
| Creatat (dir : Descriptor) (name : string) : sys (result Errno Descriptor)
| Mkdirat (dir : Descriptor) (name : string) : sys (result Errno unit)
| Fstat (fd : Descriptor) : sys (result Errno Metadata)
| ReadToEnd (fd : Descriptor) : sys (result Errno string)
| WriteAll (fd : Descriptor) (bytes : string) : sys (result Errno unit)
| Fchmod (fd : Descriptor) (permissions : Z) : sys (result Errno unit)
| Fsync (fd : Descriptor) : sys (result Errno unit)
| FsyncDirectory (dir : Descriptor) : sys (result Errno unit)
| RenameNoreplace (dir : Descriptor) (from to : string) : sys (result Errno unit)
| RenameExchange (dir : Descriptor) (from to : string) : sys (result Errno unit)
| Unlinkat (dir : Descriptor) (name : string) : sys (result Errno unit)
| Rmdirat (dir : Descriptor) (name : string) : sys (result Errno unit)
| ReadDirectory (dir : Descriptor) : sys (result Errno (list string))
| LockExclusive (dir : Descriptor) : sys (result Errno unit)
| EpochNanos : sys (result string Z)
| ProcessId : sys Z
| NextCounter : sys Z.

(** A new file or directory of the process's user. *)
Definition created (fs : FileSystem) (dir : Descriptor) (name : string) (i : Z) (n : Inode) :
    FileSystem :=
  set_entries dir (<[name := i]> (entries_of fs dir)) (<[i := n]> fs).

(** What a call may answer, and the file system after it.  Any call may fail;
    a failed call changes nothing, except that a failed write may have written
    some bytes. *)
Definition sem (B : Type) (c : sys B) (fs : FileSystem) : B -> FileSystem -> Prop :=
  match c in sys B return B -> FileSystem -> Prop with
  | Statat dir name => fun r fs' => fs' = fs /\
      match r with
      | Ok m => exists i n, entries_of fs dir !! name = Some i /\ fs !! i = Some n /\ metadata n = m
      | Err NOENT => entries_of fs dir !! name = None
      | Err _ => True
      end
  | Openat dir name => fun r fs' => fs' = fs /\
      match r with
      | Ok i => entries_of fs dir !! name = Some i /\ is_Some (fs !! i)
      | Err _ => True
      end
  | Creatat dir name => fun r fs' =>
      match r with
      | Ok i => entries_of fs dir !! name = None /\ fs !! i = None /\
          exists m, Metadata.file_type m = RegularFile /\ Metadata.ino m = i /\
          fs' = created fs dir name i {| metadata := m; body := FileBody "" false |}
      | Err _ => fs' = fs
      end
  | Mkdirat dir name => fun r fs' =>
      match r with
      | Ok _ => entries_of fs dir !! name = None /\
          exists i m, fs !! i = None /\ Metadata.file_type m = DirectoryType /\ Metadata.ino m = i /\
          fs' = created fs dir name i {| metadata := m; body := DirBody ∅ [] |}
      | Err _ => fs' = fs
      end
  | Fstat fd => fun r fs' => fs' = fs /\
      match r with
      | Ok m => exists n, fs !! fd = Some n /\ metadata n = m
      | Err _ => True
      end
  | ReadToEnd fd => fun r fs' => fs' = fs /\
      match r with
      | Ok bytes => data_of fs fd = Some bytes
      | Err _ => True
      end
  | WriteAll fd bytes => fun r fs' =>
      match r with
      | Ok _ => exists data, data_of fs fd = Some data /\ fs' = set_data fd (data +:+ bytes) false fs
      | Err _ => fs' = fs \/ exists data, fs' = set_data fd data false fs
      end
  | Fchmod fd permissions => fun r fs' =>
      match r with
      | Ok _ => fs' = alter (fun n =>
          {| metadata := {| Metadata.dev := Metadata.dev (metadata n);
                            Metadata.ino := Metadata.ino (metadata n);
                            Metadata.uid := Metadata.uid (metadata n);
                            Metadata.mode := Z.lor (Z.land (Metadata.mode (metadata n)) 61440)
                                                   permissions |};
             body := body n |}) fd fs
      | Err _ => fs' = fs
      end
  | Fsync fd => fun r fs' =>
      match r with
      | Ok _ => match data_of fs fd with
                | Some data => fs' = set_data fd data true fs
                | None => fs' = forget_past fd fs
                end
      | Err _ => fs' = fs
      end
  | FsyncDirectory dir => fun r fs' =>
      match r with
      | Ok _ => fs' = forget_past dir fs
      | Err _ => fs' = fs
      end
  | RenameNoreplace dir from to => fun r fs' =>
      match r with
      | Ok _ => exists i, entries_of fs dir !! from = Some i /\ entries_of fs dir !! to = None /\
          fs' = set_entries dir (<[to := i]> (delete from (entries_of fs dir))) fs
      | Err _ => fs' = fs
      end
  | RenameExchange dir from to => fun r fs' =>
      match r with
      | Ok _ => exists i j, entries_of fs dir !! from = Some i /\ entries_of fs dir !! to = Some j /\
          fs' = set_entries dir (<[to := i]> (<[from := j]> (entries_of fs dir))) fs
      | Err _ => fs' = fs
      end
  | Unlinkat dir name => fun r fs' =>
      match r with
      | Ok _ => is_Some (entries_of fs dir !! name) /\
          fs' = set_entries dir (delete name (entries_of fs dir)) fs
      | Err _ => fs' = fs
      end
  | Rmdirat dir name => fun r fs' =>
      match r with
      | Ok _ => (exists i, entries_of fs dir !! name = Some i /\ entries_of fs i = ∅) /\
          fs' = set_entries dir (delete name (entries_of fs dir)) fs
      | Err _ => fs' = fs
      end
  | ReadDirectory dir => fun r fs' => fs' = fs /\
      match r with
      | Ok names => forall name, name ∈ names <->
          name ∈ ["."; ".."]%string \/ is_Some (entries_of fs dir !! name)
      | Err _ => True
      end
  | EpochNanos => fun r fs' => fs' = fs /\ match r with Ok n => 0 <= n | Err _ => True end
  | ProcessId => fun n fs' => fs' = fs /\ 0 <= n
  | NextCounter => fun n fs' => fs' = fs /\ 0 <= n
  | _ => fun _ fs' => fs' = fs
  end.

(** ** Power loss

    Each directory comes back with one of its possible sets of entries, each
    flushed file with its contents, and any other file with any contents. *)
Definition body_survives (before after : Body) : Prop :=
  match before with
  | FileBody data true => after = FileBody data true
  | FileBody _ false => exists data, after = FileBody data true
  | DirBody entries past => exists es, es ∈ entries :: past /\ after = DirBody es []
  | OpaqueBody => after = OpaqueBody
  end.

Definition power_loss (fs fs' : FileSystem) : Prop :=
  forall i, match fs !! i with
            | Some n => exists n', fs' !! i = Some n' /\ metadata n' = metadata n /\
                                   body_survives (body n) (body n')
            | None => fs' !! i = None
            end.
