(* ===== verification/Pinned.v ===== *)
(** * Pinned directories ([PinnedDirectory] of [execution-storage/src/journal.rs])

    A directory that was opened once, authenticated and is from then on used
    through its descriptor: children are created under temporary names and
    published by renames that never replace, and every object is compared with
    the metadata it had when it was first seen. *)

From Stdlib Require Import Ascii.
From S2P Require Import Prelude Effects StorageModel FileSystem.

















Abbreviation fsio := (io sys StorageError).

Definition MAX_TEMPORARY_NAME_ATTEMPTS : nat := 32.

(** ** Errors *)
Definition journal_error (action path : string) (e : Errno) : StorageError :=
  StorageError.Journal (action +:+ " " +:+ path +:+ ": " +:+ errno_text e).
Definition rustix_error : string -> string -> Errno -> StorageError := journal_error.

Definition mismatch (message : string) : StorageError := StorageError.IdentityMismatch message.

(** ** Names *)
Definition unsafe_name (name : string) : bool :=
  str_is_empty name || bool_decide (name = "."%string) || bool_decide (name = ".."%string) ||
  contains "/" name || contains "\" name.

Definition validate_descriptor_name (name : string) : result StorageError unit :=
  check (negb (unsafe_name name))
        (StorageError.InvalidRequest "descriptor-relative name is unsafe").

Definition validate_metadata_name (name : string) : result StorageError unit :=
  check (negb (unsafe_name name))
        (StorageError.InvalidRequest "metadata record name is unsafe").

Definition epoch_nanos : fsio Z :=
  ask_or EpochNanos (fun e => StorageError.Journal ("system clock before epoch: " +:+ e)).

Definition format_temporary_name (name : string) (process epoch counter : Z) : string :=
  "." +:+ name +:+ "." +:+ decimal process +:+ "." +:+ lower_hex epoch +:+ "." +:+
  decimal counter +:+ ".tmp".

Definition temporary_name (name : string) : fsio string :=
  epoch ← epoch_nanos;
  process ← ask ProcessId;
  counter ← ask NextCounter;
  mret (format_temporary_name name process epoch counter).

Definition ownership_probe_name : fsio string :=
  process ← ask ProcessId;
  epoch ← epoch_nanos;
  counter ← ask NextCounter;
  mret (".autospec-owner-" +:+ decimal process +:+ "-" +:+ lower_hex epoch +:+ "-" +:+
        decimal counter)%string.

(** ** Comparisons of metadata *)
Definition same_object (a b : Metadata) : bool :=
  (Metadata.dev a =? Metadata.dev b) && (Metadata.ino a =? Metadata.ino b) &&
  (Metadata.uid a =? Metadata.uid b).
Definition same_object_and_mode (a b : Metadata) : bool :=
  same_object a b && (Metadata.mode a =? Metadata.mode b).

Definition verify_same_identity (expected actual : Metadata) (purpose : string) :
    result StorageError unit :=
  check (same_object expected actual &&
         bool_decide (Metadata.file_type expected = Metadata.file_type actual))
        (mismatch (purpose +:+ " identity changed")).

Definition verify_directory_identity (expected actual : Metadata) (purpose : string) :
    result StorageError unit :=
  check (negb (Metadata.is_symlink actual) && Metadata.is_dir actual && same_object expected actual)
        (mismatch (purpose +:+ " identity changed")).

Definition verify_opened_file (expected : Metadata) (file : Descriptor) (path : string) : fsio unit :=
  opened ← ask_or (Fstat file) (journal_error "inspect opened file" path);
  guard_or (same_object expected opened && negb (Metadata.shared_mode opened))
    (mismatch ("journal inode, owner, or mode changed while opening " +:+ path)).

Definition verify_opened_identity (expected : Metadata) (file : Descriptor) (path : string) :
    fsio unit :=
  opened ← ask_or (Fstat file) (journal_error "inspect opened file" path);
  guard_or (same_object expected opened && Metadata.is_file opened)
    (mismatch ("metadata file identity changed while opening " +:+ path)).

(** ** Ownership *)
Definition verify_current_owner_attempt (handle : Descriptor) (directory : string) :
    fsio (option (string * Descriptor)) :=
  name ← ownership_probe_name;
  opened ← ask (Creatat handle name);
  match opened with
  | Ok fd => mret (Some (name, fd))
  | Err EXIST => mret None
  | Err e => throw (rustix_error "create ownership probe" (join directory name) e)
  end.

(** The first attempt, of at most [n], that does not collide. *)
Fixpoint attempts {A} (n : nat) (f : fsio (option A)) : fsio (option A) :=
  match n with
  | O => mret None
  | S n => r ← f; match r with Some a => mret (Some a) | None => attempts n f end
  end.

Definition verify_current_owner (handle : Descriptor) (directory : string) (expected_uid : Z)
    (purpose : string) : fsio unit :=
  probe ← attempts MAX_TEMPORARY_NAME_ATTEMPTS (verify_current_owner_attempt handle directory);
  probe ← some_or probe (StorageError.Journal
    ("ownership probe namespace collision limit reached in " +:+ directory));
  let '(name, file) := probe in
  removed ← ask (Unlinkat handle name);
  match removed with
  | Err e =>
      (* [OwnershipProbeGuard::drop] *)
      _ ← ask (Unlinkat handle name);
      throw (rustix_error "remove ownership probe" (join directory name) e)
  | Ok _ =>
      m ← ask_or (Fstat file) (journal_error "inspect ownership probe" (join directory name));
      guard_or (Metadata.uid m =? expected_uid)
        (StorageError.Unavailable (purpose +:+ " is owned by uid " +:+ decimal expected_uid +:+
           ", current uid is " +:+ decimal (Metadata.uid m)))
  end.

(** ** Pinned directories *)
Module PinnedDirectory.
Record PinnedDirectory := {
  path : string;
  device : Z;
  inode : Z;
  uid : Z;
  handle : Descriptor
}.
End PinnedDirectory.
Abbreviation PinnedDirectory := PinnedDirectory.PinnedDirectory.

Definition pin (path : string) (handle : Descriptor) (m : Metadata) : PinnedDirectory :=
  {| PinnedDirectory.path := path; PinnedDirectory.device := Metadata.dev m;
     PinnedDirectory.inode := Metadata.ino m; PinnedDirectory.uid := Metadata.uid m;
     PinnedDirectory.handle := handle |}.

Definition group_or_world (purpose : string) (m : Metadata) : StorageError :=
  StorageError.Unavailable (purpose +:+ " mode " +:+ octal (Metadata.permissions m) +:+
                            " permits group or world access").

Definition capture (supplied_path purpose : string) : fsio PinnedDirectory :=
  supplied ← ask_or (Lstat supplied_path) (journal_error "inspect" supplied_path);
  _ ← guard_or (negb (Metadata.is_symlink supplied || negb (Metadata.is_dir supplied)))
        (StorageError.Journal (purpose +:+ " is not a real directory: " +:+ supplied_path));
  handle ← ask_or (OpenDescriptor supplied_path) (rustix_error "open directory" supplied_path);
  opened ← ask_or (Fstat handle) (journal_error "inspect" supplied_path);
  _ ← guard_or (same_object_and_mode opened supplied)
        (mismatch (purpose +:+ " changed while opening"));
  path ← ask_or (Canonicalize supplied_path) (fun e => StorageError.Journal
           ("canonicalize " +:+ purpose +:+ " " +:+ supplied_path +:+ ": " +:+ errno_text e));
  metadata ← ask_or (Lstat path) (journal_error "inspect" path);
  _ ← guard_or (negb (Metadata.is_symlink metadata || negb (Metadata.is_dir metadata)))
        (StorageError.Journal (purpose +:+ " is not a real directory: " +:+ path));
  _ ← guard_or (negb (Metadata.shared_mode metadata)) (group_or_world purpose metadata);
  _ ← guard_or (same_object_and_mode opened metadata)
        (mismatch (purpose +:+ " changed while canonicalizing diagnostics"));
  _ ← verify_current_owner handle path (Metadata.uid metadata) purpose;
  mret (pin path handle metadata).

Definition verify (self : PinnedDirectory) (purpose : string) : fsio unit :=
  metadata ← ask_or (Lstat (PinnedDirectory.path self))
               (journal_error "inspect" (PinnedDirectory.path self));
  _ ← guard_or (negb (Metadata.is_symlink metadata || negb (Metadata.is_dir metadata)))
        (mismatch (purpose +:+ " is no longer a real directory"));
  opened ← ask_or (OpenPath (PinnedDirectory.path self))
             (journal_error "inspect" (PinnedDirectory.path self));
  guard_or (negb (negb (Metadata.dev metadata =? PinnedDirectory.device self) ||
                  negb (Metadata.ino metadata =? PinnedDirectory.inode self) ||
                  negb (Metadata.uid metadata =? PinnedDirectory.uid self) ||
                  negb (Metadata.dev opened =? PinnedDirectory.device self) ||
                  negb (Metadata.ino opened =? PinnedDirectory.inode self) ||
                  Metadata.shared_mode opened))
    (mismatch (purpose +:+ " inode, owner, or mode changed")).

Section Pinned.
Context (self : PinnedDirectory).
Local Notation path := (PinnedDirectory.path self).
Local Notation handle := (PinnedDirectory.handle self).

Definition lock : fsio unit := ask_or (LockExclusive handle) (journal_error "lock directory" path).

Definition child_path (name : string) : fsio string :=
  _ ← ret_result (validate_descriptor_name name);
  mret (join path name).

(** *** Looking at children *)
Definition child_metadata (name : string) : fsio (option Metadata) :=
  p ← child_path name;
  stat ← ask (Statat handle name);
  match stat with
  | Err NOENT => mret None
  | Err e => throw (rustix_error "inspect" p e)
  | Ok stat =>
      match Metadata.file_type stat with
      | SymlinkType => throw (mismatch
          ("descriptor-relative child is not a real directory or file (symlink): " +:+ p))
      | OtherType => throw (mismatch
          ("descriptor-relative child has an unsupported type: " +:+ p))
      | _ =>
          file ← ask_or (Openat handle name) (rustix_error "open for inspection" p);
          metadata ← ask_or (Fstat file) (journal_error "inspect opened child" p);
          _ ← guard_or (same_object metadata stat)
                (mismatch ("descriptor-relative child changed while opening: " +:+ p));
          mret (Some metadata)
      end
  end.

Definition open_file_with (name : string) : fsio Descriptor :=
  p ← child_path name;
  ask_or (Openat handle name) (rustix_error "open" p).

Definition open_file (name : string) : fsio Descriptor :=
  p ← child_path name;
  file ← open_file_with name;
  metadata ← ask_or (Fstat file) (journal_error "inspect" p);
  _ ← guard_or (negb (negb (Metadata.is_file metadata) || Metadata.shared_mode metadata))
        (StorageError.Journal ("journal is not a private real file: " +:+ p));
  mret file.

Definition open_file_read_write (name : string) : fsio Descriptor :=
  p ← child_path name;
  file ← open_file_with name;
  metadata ← ask_or (Fstat file) (journal_error "inspect" p);
  _ ← guard_or (Metadata.is_file metadata)
        (StorageError.Journal ("metadata child is not a real file: " +:+ p));
  mret file.

Definition verify_child (name : string) (expected : Metadata) : fsio unit :=
  file ← open_file name;
  p ← child_path name;
  verify_opened_file expected file p.

Definition verify_child_identity (name : string) (expected : Metadata) : fsio unit :=
  actual ← child_metadata name;
  actual ← some_or actual (mismatch
    ("descriptor-relative child disappeared: " +:+ join path name));
  ret_result (verify_same_identity expected actual "descriptor-relative child").

Fixpoint valid_names (names : list string) : fsio (list string) :=
  match names with
  | [] => mret []
  | name :: names =>
      if bool_decide (name = "."%string) || bool_decide (name = ".."%string)
      then valid_names names
      else
        _ ← ret_result (validate_descriptor_name name);
        rest ← valid_names names;
        mret (name :: rest)
  end.

(** The names, in byte order. *)
Definition child_names : fsio (list string) :=
  listed ← ask_or (ReadDirectory handle) (rustix_error "list" path);
  names ← valid_names listed;
  mret (merge_sort String.le names).

(** *** Creating *)
Definition create_file (name : string) : fsio Descriptor :=
  p ← child_path name;
  ask_or (Creatat handle name) (rustix_error "create" p).

Definition create_temporary_file (operation : string) : fsio (string * Descriptor) :=
  created ← attempts MAX_TEMPORARY_NAME_ATTEMPTS (
    name ← temporary_name operation;
    p ← child_path name;
    opened ← ask (Creatat handle name);
    match opened with
    | Ok fd => mret (Some (name, fd))
    | Err EXIST => mret None
    | Err e => throw (rustix_error "create temporary" p e)
    end);
  some_or created (StorageError.Journal
    ("temporary namespace collision limit reached in " +:+ path)).

Definition create_temporary_directory (operation : string) :
    fsio (string * Descriptor * Metadata) :=
  created ← attempts MAX_TEMPORARY_NAME_ATTEMPTS (
    name ← temporary_name operation;
    p ← child_path name;
    made ← ask (Mkdirat handle name);
    match made with
    | Err EXIST => mret None
    | Err e => throw (rustix_error "create temporary directory" p e)
    | Ok _ =>
        expected ← ask_or (Statat handle name)
                     (rustix_error "inspect created temporary directory" p);
        _ ← guard_or (negb (negb (Metadata.is_dir expected) || Metadata.shared_mode expected ||
                            negb (Metadata.uid expected =? PinnedDirectory.uid self)))
              (mismatch "new staged metadata directory has an invalid type, owner, or mode; preserve unverified state");
        opened_handle ← ask_or (Openat handle name)
                          (rustix_error "open created temporary directory" p);
        opened ← ask_or (Fstat opened_handle)
                   (journal_error "inspect created temporary directory" p);
        _ ← guard_or (same_object_and_mode expected opened && Metadata.is_dir opened)
              (mismatch "staged metadata directory changed before authentication; preserve all staged objects");
        _ ← verify_child_identity name opened;
        mret (Some (name, opened_handle, opened))
    end);
  some_or created (StorageError.Journal
    ("temporary directory namespace collision limit reached in " +:+ path)).

(** *** Renames *)
Definition rename_noreplace (from to : string) : fsio unit :=
  _ ← child_path from;
  to_path ← child_path to;
  ask_or (RenameNoreplace handle from to) (rustix_error "rename without replacement" to_path).

Definition commit_noreplace_verified (source target : string) (expected_source : Metadata) :
    fsio unit :=
  _ ← child_path source;
  _ ← child_path target;
  _ ← verify_child_identity source expected_source;
  existing ← child_metadata target;
  _ ← guard_or (bool_decide (existing = None)) (mismatch
        ("commit target appeared before no-replace rename: " +:+ join path target));
  _ ← rename_noreplace source target;
  verify_child_identity target expected_source.

(** Both failures of a pair of authentications, or the one there is. *)
Definition both_authenticated (first second : result StorageError unit) (also : string) :
    result StorageError unit :=
  match first, second with
  | Ok _, Ok _ => Ok tt
  | Err e, Ok _ | Ok _, Err e => Err e
  | Err e1, Err e2 => Err (StorageError.Journal
      (StorageError.to_string e1 +:+ also +:+ StorageError.to_string e2))
  end.

Definition commit_directory_noreplace_verified (source target : string)
    (expected_source : Metadata) : fsio unit :=
  _ ← child_path source;
  _ ← child_path target;
  _ ← verify_child_identity source expected_source;
  existing ← child_metadata target;
  _ ← guard_or (bool_decide (existing = None)) (mismatch
        ("directory commit target appeared before no-replace rename: " +:+ join path target));
  _ ← rename_noreplace source target;
  left ← child_metadata source;
  let source_result := check (bool_decide (left = None)) (mismatch
    ("staged directory source reappeared after commit: " +:+ join path source)) in
  final_result ← outcome_of (verify_child_identity target expected_source);
  ret_result (both_authenticated source_result final_result
    "; final directory also failed authentication: ").

Definition exchange_verified (replacement target : string)
    (expected_replacement expected_target : Metadata) : fsio unit :=
  _ ← child_path replacement;
  _ ← child_path target;
  _ ← verify_child_identity replacement expected_replacement;
  _ ← verify_child_identity target expected_target;
  _ ← ask_or (RenameExchange handle replacement target)
        (rustix_error "atomically exchange" (join path target));
  final_target ← outcome_of (verify_child_identity target expected_replacement);
  displaced_target ← outcome_of (verify_child_identity replacement expected_target);
  ret_result (both_authenticated final_target displaced_target
    "; displaced exchange side also failed authentication: ").

Definition rename_verified (source tombstone_operation : string) (expected : Metadata) :
    fsio string :=
  _ ← verify_child_identity source expected;
  moved ← attempts MAX_TEMPORARY_NAME_ATTEMPTS (
    tombstone ← temporary_name tombstone_operation;
    p ← child_path tombstone;
    renamed ← ask (RenameNoreplace handle source tombstone);
    match renamed with
    | Ok _ =>
        _ ← verify_child_identity tombstone expected;
        mret (Some tombstone)
    | Err EXIST => mret None
    | Err e => throw (rustix_error "rename without replacement" p e)
    end);
  some_or moved (StorageError.Journal
    ("temporary namespace collision limit reached in " +:+ path)).

(** *** Removing *)
Definition remove_file (name : string) : fsio unit :=
  p ← child_path name;
  ask_or (Unlinkat handle name) (rustix_error "remove" p).

Definition remove_file_verified (name : string) (expected : Metadata) : fsio unit :=
  _ ← verify_child_identity name expected;
  remove_file name.

Definition sync : fsio unit :=
  ask_or (FsyncDirectory handle) (rustix_error "fsync directory" path).

Definition unlink_directory_verified (name : string) (expected : Metadata) : fsio unit :=
  p ← child_path name;
  _ ← verify_child_identity name expected;
  ask_or (Rmdirat handle name) (rustix_error "remove directory" p).

Definition remove_directory (name : string) : fsio unit :=
  p ← child_path name;
  metadata ← child_metadata name;
  metadata ← some_or metadata (StorageError.Journal
    ("inspect " +:+ p +:+ ": no such directory"));
  _ ← guard_or (negb (Metadata.is_symlink metadata || negb (Metadata.is_dir metadata)))
        (mismatch ("descriptor-relative mountpoint is not a real directory: " +:+ p));
  tombstone ← rename_verified name ("remove-directory-" +:+ name) metadata;
  _ ← unlink_directory_verified tombstone metadata;
  sync.

Definition remove_directory_verified (name : string) (expected : Metadata) : fsio unit :=
  _ ← verify_child_identity name expected;
  tombstone ← rename_verified name ("remove-directory-" +:+ name) expected;
  _ ← unlink_directory_verified tombstone expected;
  sync.

(** *** Pinning children *)
Definition pin_authenticated_child (name : string) (child : Descriptor) (expected : Metadata)
    (purpose : string) : fsio PinnedDirectory :=
  _ ← ret_result (validate_descriptor_name name);
  let p := join path name in
  opened ← ask_or (Fstat child) (journal_error "inspect authenticated directory" p);
  _ ← ret_result (verify_directory_identity expected opened purpose);
  _ ← guard_or (negb (Metadata.shared_mode opened)) (group_or_world purpose opened);
  _ ← verify_child_identity name expected;
  _ ← verify_current_owner child p (Metadata.uid opened) purpose;
  mret (pin p child opened).

Definition capture_child (name purpose : string) : fsio PinnedDirectory :=
  _ ← ret_result (validate_descriptor_name name);
  let diagnostic := join path name in
  stat ← ask_or (Statat handle name) (rustix_error "inspect" diagnostic);
  _ ← guard_or (Metadata.is_dir stat)
        (StorageError.Journal (purpose +:+ " is not a real directory: " +:+ diagnostic));
  _ ← guard_or (negb (Metadata.shared_mode stat)) (group_or_world purpose stat);
  child ← ask_or (Openat handle name) (rustix_error "open directory" diagnostic);
  opened ← ask_or (Fstat child) (journal_error "inspect" diagnostic);
  _ ← guard_or (same_object_and_mode opened stat) (mismatch (purpose +:+ " changed while opening"));
  p ← ask_or (Canonicalize diagnostic) (fun e => StorageError.Journal
        ("canonicalize " +:+ purpose +:+ " " +:+ diagnostic +:+ ": " +:+ errno_text e));
  current ← ask_or (Lstat p) (journal_error "inspect" p);
  _ ← guard_or (same_object_and_mode current opened)
        (mismatch (purpose +:+ " changed while canonicalizing diagnostics"));
  _ ← verify_current_owner child p (Metadata.uid opened) purpose;
  mret (pin p child opened).

(** A freshly mounted child, whose root may still have mode [0o755]; the opened
    inode is restricted to [0o700]. *)
Definition capture_mounted_child (name : string) (expected_device expected_uid : Z)
    (purpose : string) : fsio PinnedDirectory :=
  _ ← ret_result (validate_descriptor_name name);
  _ ← verify self "mounted-root parent";
  let diagnostic := join path name in
  stat ← ask_or (Statat handle name) (rustix_error "inspect" diagnostic);
  let observed_mode := Metadata.full_permissions stat in
  _ ← guard_or (Metadata.is_dir stat)
        (mismatch (purpose +:+ " is not a real directory: " +:+ diagnostic));
  _ ← guard_or ((Metadata.dev stat =? expected_device) && (Metadata.uid stat =? expected_uid))
        (mismatch (purpose +:+ " has a foreign device or owner"));
  _ ← guard_or ((observed_mode =? 448) || (observed_mode =? 493))
        (StorageError.Unavailable (purpose +:+ " mode " +:+ octal observed_mode +:+
           " is neither owner-only nor the expected ext4 default"));
  child ← ask_or (Openat handle name) (rustix_error "open mounted directory" diagnostic);
  opened ← ask_or (Fstat child) (journal_error "inspect mounted directory" diagnostic);
  _ ← guard_or (same_object_and_mode opened stat && Metadata.is_dir opened)
        (mismatch (purpose +:+ " changed while opening"));
  p ← ask_or (Canonicalize diagnostic) (fun e => StorageError.Journal
        ("canonicalize " +:+ purpose +:+ " " +:+ diagnostic +:+ ": " +:+ errno_text e));
  current ← ask_or (Lstat p) (journal_error "inspect" p);
  _ ← guard_or (same_object_and_mode current opened)
        (mismatch (purpose +:+ " changed while canonicalizing diagnostics"));
  _ ← verify_current_owner child p expected_uid purpose;
  _ ← (if observed_mode =? 493
       then ask_or (Fchmod child 448) (rustix_error "restrict mounted directory" p)
       else mret tt);
  _ ← ask_or (Fsync child) (rustix_error "fsync mounted directory" p);
  normalized ← ask_or (Fstat child) (journal_error "reinspect mounted directory" p);
  _ ← guard_or ((Metadata.dev normalized =? expected_device) &&
                (Metadata.ino normalized =? Metadata.ino opened) &&
                (Metadata.uid normalized =? expected_uid) &&
                (Metadata.full_permissions normalized =? 448) && Metadata.is_dir normalized)
        (mismatch (purpose +:+ " identity, owner, or mode changed during normalization"));
  linked ← child_metadata name;
  linked ← some_or linked (mismatch (purpose +:+ " disappeared after normalization"));
  _ ← ret_result (verify_same_identity normalized linked purpose);
  _ ← guard_or (Metadata.full_permissions linked =? 448)
        (mismatch (purpose +:+ " is not owner-only after normalization"));
  _ ← verify self "mounted-root parent";
  let pinned := pin p child normalized in
  _ ← verify pinned purpose;
  mret pinned.

Definition create_published_directory (name operation purpose : string) : fsio PinnedDirectory :=
  _ ← lock;
  _ ← ret_result (validate_descriptor_name name);
  _ ← verify self "directory publication parent";
  existing ← child_metadata name;
  _ ← guard_or (bool_decide (existing = None))
        (mismatch (purpose +:+ " already exists: " +:+ join path name));
  staging ← create_temporary_directory operation;
  let '(staged, child, expected) := staging in
  published ← outcome_of (
    _ ← sync;
    _ ← commit_directory_noreplace_verified staged name expected;
    _ ← sync;
    pinned ← pin_authenticated_child name child expected purpose;
    _ ← verify self "directory publication parent";
    mret pinned);
  match published with
  | Ok pinned => mret pinned
  | Err error =>
      still_staged ← child_metadata staged;
      rollback ←
        match still_staged with
        | Some _ => outcome_of (remove_directory_verified staged expected)
        | None =>
            final ← child_metadata name;
            match final with
            | Some _ => outcome_of (remove_directory_verified name expected)
            | None => mret (Err (mismatch
                ("created " +:+ purpose +:+ " disappeared; preserve unverified state")))
            end
        end;
      match rollback with
      | Ok _ => throw error
      | Err rollback => throw (mismatch (StorageError.to_string error +:+ "; rollback " +:+
          purpose +:+ " failed: " +:+ StorageError.to_string rollback))
      end
  end.
End Pinned.

(** ** Writing files *)
Definition write_bytes_and_sync (file : Descriptor) (bytes path : string) : fsio unit :=
  _ ← ask_or (WriteAll file bytes) (journal_error "write" path);
  ask_or (Fsync file) (journal_error "fsync" path).

Definition require_real_directory (path purpose : string) : fsio unit :=
  metadata ← ask_or (Lstat path) (fun e => StorageError.Journal
    ("inspect " +:+ purpose +:+ " " +:+ path +:+ ": " +:+ errno_text e));
  guard_or (negb (Metadata.is_symlink metadata || negb (Metadata.is_dir metadata)))
    (StorageError.Journal (purpose +:+ " is not a real directory: " +:+ path)).
