(* ===== verification/MetadataStore.v ===== *)
(** * Durable metadata records

    [SecureMetadataDirectory], [ExecutionLifecycleHoldStore] and [JournalStore]
    of [execution-storage/src/journal.rs]: small records in a pinned directory,
    created, replaced and removed through temporary names, and the two stores
    kept in such directories.  JSON is serde's: the class [Serde] holds the
    functions the code calls and that reading gives back what was written. *)

From Stdlib Require Import Ascii.
From S2P Require Import Prelude Core Lifecycle Effects StorageModel FileSystem Pinned.

















Definition MAX_IGNORED_RESIDUE_ENTRIES : Z := 1024.

(** ** Temporary names *)

Definition ends_with (p s : string) : bool := bool_decide (is_Some (strip_suffix p s)).

Definition temporary_operation (name : string) : option string :=
  rest ← strip_prefix "." name;
  without_suffix ← strip_suffix ".tmp" rest;
  '(prefix, counter) ← rsplit_once "."%char without_suffix;
  '(prefix, epoch) ← rsplit_once "."%char prefix;
  '(operation, process) ← rsplit_once "."%char prefix;
  if negb (str_is_empty operation) && string_forallb is_ascii_digit process &&
     negb (str_is_empty epoch) && string_forallb is_ascii_hexdigit epoch &&
     negb (str_is_empty counter) && string_forallb is_ascii_digit counter
  then Some operation else None.

Definition legacy_temporary_operation (name : string) : option string :=
  rest ← strip_prefix "." name;
  without_suffix ← strip_suffix ".tmp" rest;
  '(prefix, counter) ← rsplit_once "."%char without_suffix;
  '(operation, process) ← rsplit_once "."%char prefix;
  if negb (str_is_empty operation) && string_forallb is_ascii_digit process &&
     negb (str_is_empty counter) && string_forallb is_ascii_digit counter
  then Some operation else None.

Definition is_operation_temporary_name (name : string) : bool :=
  bool_decide (is_Some (temporary_operation name)) ||
  bool_decide (is_Some (legacy_temporary_operation name)).

Definition is_journal_temporary_name (name : string) : bool :=
  match temporary_operation name with
  | Some operation => ends_with ".json" operation
  | None => match legacy_temporary_operation name with
            | Some operation => ends_with ".json" operation
            | None => false
            end
  end.

Definition all_of (p : ascii -> bool) (s : string) : bool :=
  negb (str_is_empty s) && string_forallb p s.

Definition is_owner_probe_name (name : string) : bool :=
  match strip_prefix ".autospec-owner-" name with
  | None => false
  | Some rest =>
      match split "-"%char rest with
      | [process; epoch; counter] =>
          all_of is_ascii_digit process && all_of is_ascii_hexdigit epoch &&
          all_of is_ascii_digit counter
      | _ => false
      end ||
      match split_once "-"%char rest with
      | Some (process, counter) => all_of is_ascii_digit process && all_of is_ascii_digit counter
      | None => false
      end
  end.

Definition residue_limit_error (directory : string) : StorageError :=
  StorageError.Journal ("unauthenticated temporary residue limit exceeded in " +:+ directory +:+
    "; preserve entries for operator inspection").

(** ** Metadata directories *)
Section MetadataDirectory.
Context (directory : PinnedDirectory).
Local Notation dir_path := (PinnedDirectory.path directory).

(** What [create] and [replace] do first: a temporary file with the bytes. *)
Definition create (name bytes : string) : fsio unit :=
  _ ← lock directory;
  _ ← ret_result (validate_metadata_name name);
  _ ← verify directory "metadata directory";
  existing ← child_metadata directory name;
  _ ← guard_or (bool_decide (existing = None))
        (StorageError.Journal ("metadata record already exists: " +:+ name));
  staging ← create_temporary_file directory ("metadata-" +:+ name);
  let '(temporary, file) := staging in
  temporary_identity ← ask_or (Fstat file) (journal_error "inspect" dir_path);
  temporary_path ← child_path directory temporary;
  written ← outcome_of (write_bytes_and_sync file bytes temporary_path);
  match written with
  | Err error =>
      _ ← outcome_of (remove_file_verified directory temporary temporary_identity);
      throw error
  | Ok _ =>
      committed ← outcome_of (commit_noreplace_verified directory temporary name
                                temporary_identity);
      match committed with
      | Err error =>
          _ ← outcome_of (remove_file_verified directory temporary temporary_identity);
          throw error
      | Ok _ => sync directory
      end
  end.

Definition replace (name bytes : string) : fsio unit :=
  _ ← lock directory;
  _ ← ret_result (validate_metadata_name name);
  _ ← verify directory "metadata directory";
  current ← open_file directory name;
  expected ← ask_or (Fstat current) (journal_error "inspect" dir_path);
  staging ← create_temporary_file directory ("metadata-" +:+ name);
  let '(temporary, file) := staging in
  temporary_identity ← ask_or (Fstat file) (journal_error "inspect" dir_path);
  temporary_path ← child_path directory temporary;
  written ← outcome_of (write_bytes_and_sync file bytes temporary_path);
  match written with
  | Err error =>
      _ ← outcome_of (remove_file_verified directory temporary temporary_identity);
      throw error
  | Ok _ =>
      exchanged ← outcome_of (exchange_verified directory temporary name temporary_identity
                                expected);
      match exchanged with
      | Err error =>
          _ ← outcome_of (remove_file_verified directory temporary temporary_identity);
          throw error
      | Ok _ =>
          _ ← remove_file_verified directory temporary expected;
          sync directory
      end
  end.

Definition read (name : string) : fsio (option string) :=
  _ ← ret_result (validate_metadata_name name);
  _ ← verify directory "metadata directory";
  existing ← child_metadata directory name;
  match existing with
  | None => mret None
  | Some _ =>
      file ← open_file directory name;
      bytes ← ask_or (ReadToEnd file) (journal_error "read" dir_path);
      _ ← verify directory "metadata directory";
      mret (Some bytes)
  end.

Definition remove (name : string) : fsio unit :=
  _ ← lock directory;
  _ ← ret_result (validate_metadata_name name);
  _ ← verify directory "metadata directory";
  existing ← child_metadata directory name;
  match existing with
  | None => mret tt
  | Some _ =>
      file ← open_file directory name;
      expected ← ask_or (Fstat file) (journal_error "inspect" dir_path);
      tombstone ← rename_verified directory name ("remove-metadata-" +:+ name) expected;
      _ ← remove_file_verified directory tombstone expected;
      sync directory
  end.

(** The record names; [ignored] counts the temporary residue. *)
Fixpoint names_loop (listed : list string) (ignored : Z) : fsio (list string) :=
  match listed with
  | [] => mret []
  | name :: listed =>
      if is_operation_temporary_name name || is_owner_probe_name name then
        present ← child_metadata directory name;
        _ ← some_or present (mismatch "temporary residue disappeared during inspection");
        let ignored := ignored + 1 in
        _ ← guard_or (negb (MAX_IGNORED_RESIDUE_ENTRIES <? ignored))
              (residue_limit_error dir_path);
        names_loop listed ignored
      else
        _ ← ret_result (validate_metadata_name name);
        rest ← names_loop listed ignored;
        mret (name :: rest)
  end.

Definition names : fsio (list string) :=
  _ ← verify directory "metadata directory";
  listed ← child_names directory;
  records ← names_loop listed 0;
  _ ← verify directory "metadata directory";
  mret records.

Definition restrict_file_to_owner_locked (name : string) : fsio Metadata :=
  _ ← ret_result (validate_metadata_name name);
  _ ← verify directory "metadata directory";
  p ← child_path directory name;
  existing ← child_metadata directory name;
  expected ← some_or existing (mismatch "metadata file disappeared");
  _ ← guard_or (negb (Metadata.is_symlink expected || negb (Metadata.is_file expected)))
        (mismatch ("metadata child is not a real file: " +:+ p));
  file ← open_file_read_write directory name;
  _ ← verify_opened_identity expected file p;
  _ ← ask_or (Fchmod file 384) (journal_error "restrict" p);
  _ ← ask_or (Fsync file) (journal_error "fsync" p);
  _ ← verify_child directory name expected;
  _ ← sync directory;
  mret expected.

Definition restrict_file_to_owner (name : string) : fsio unit :=
  _ ← lock directory;
  _ ← restrict_file_to_owner_locked name;
  mret tt.

Definition remove_tool_file (name : string) : fsio unit :=
  _ ← lock directory;
  _ ← ret_result (validate_metadata_name name);
  _ ← verify directory "metadata directory";
  existing ← child_metadata directory name;
  match existing with
  | None => mret tt
  | Some _ =>
      expected ← restrict_file_to_owner_locked name;
      tombstone ← rename_verified directory name ("remove-tool-" +:+ name) expected;
      _ ← remove_file_verified directory tombstone expected;
      sync directory
  end.

(** *** Subdirectories *)
Definition rollback_created_subdirectory (staged final_name : string) (expected : Metadata) :
    fsio unit :=
  still_staged ← child_metadata directory staged;
  match still_staged with
  | Some _ => remove_directory_verified directory staged expected
  | None =>
      final ← child_metadata directory final_name;
      match final with
      | Some _ => remove_directory_verified directory final_name expected
      | None => throw (mismatch
          "created metadata subdirectory disappeared; preserve unverified state")
      end
  end.

Definition is_identity_mismatch (e : StorageError) : bool :=
  match e with StorageError.IdentityMismatch _ => true | _ => false end.

Definition create_subdirectory (name : string) : fsio PinnedDirectory :=
  _ ← lock directory;
  _ ← ret_result (validate_metadata_name name);
  _ ← verify directory "metadata directory";
  existing ← child_metadata directory name;
  _ ← guard_or (bool_decide (existing = None))
        (StorageError.Journal ("metadata subdirectory already exists: " +:+ name));
  staging ← create_temporary_directory directory ("metadata-subdirectory-" +:+ name);
  let '(staged, handle, expected) := staging in
  result ← outcome_of (
    _ ← sync directory;
    _ ← commit_directory_noreplace_verified directory staged name expected;
    _ ← sync directory;
    child ← pin_authenticated_child directory name handle expected "metadata subdirectory";
    _ ← verify directory "metadata directory";
    mret child);
  match result with
  | Ok child => mret child
  | Err error =>
      rolled_back ← outcome_of (rollback_created_subdirectory staged name expected);
      match rolled_back with
      | Ok _ => throw error
      | Err rollback =>
          let message := StorageError.to_string error +:+
            "; rollback metadata subdirectory failed: " +:+ StorageError.to_string rollback in
          if is_identity_mismatch error || is_identity_mismatch rollback
          then throw (StorageError.IdentityMismatch message)
          else throw (StorageError.Journal message)
      end
  end.

Definition remove_subdirectory (name : string) (child : PinnedDirectory) : fsio unit :=
  _ ← lock directory;
  _ ← ret_result (validate_metadata_name name);
  _ ← verify directory "metadata directory";
  _ ← verify child "metadata subdirectory";
  _ ← guard_or (path_eqb (PinnedDirectory.path child) (join dir_path name))
        (mismatch "metadata subdirectory selector does not match pinned child");
  expected ← ask_or (Fstat (PinnedDirectory.handle child))
               (journal_error "inspect" (PinnedDirectory.path child));
  existing ← child_metadata directory name;
  current ← some_or existing (mismatch "metadata subdirectory disappeared");
  _ ← guard_or (same_object current expected)
        (mismatch "metadata subdirectory identity changed");
  tombstone ← rename_verified directory name ("remove-directory-" +:+ name) expected;
  remove_directory_verified directory tombstone expected.
End MetadataDirectory.

(** ** Lifecycle holds *)
Module ExecutionLifecycleHold.
Record ExecutionLifecycleHold := {
  labels : OwnershipLabels;
  hold_id : string;
  container_id : string;
  session_id : string;
  supervisor_token : string;
  pgid : option Z                     (* u32 *)
}.
End ExecutionLifecycleHold.
Abbreviation ExecutionLifecycleHold := ExecutionLifecycleHold.ExecutionLifecycleHold.

(** serde_json on the records of this crate. *)
Class Serde := {
  journal_to_json : PhaseJournal -> string;
  journal_from_json : string -> option PhaseJournal;
  hold_to_json : ExecutionLifecycleHold -> string;
  hold_from_json : string -> option ExecutionLifecycleHold;
  receipt_to_json : AllocationReceipt -> string;
  journal_round_trip j : journal_from_json (journal_to_json j +:+ String "010" "")%string = Some j;
  hold_round_trip h : hold_from_json (hold_to_json h) = Some h;
  receipt_to_json_inj r r' : receipt_to_json r = receipt_to_json r' -> r = r'
}.

Definition hold_name (execution_id : ExecutionId) (hold_id : string) : result StorageError string :=
  let name := execution_id +:+ "--" +:+ hold_id +:+ ".json" in
  _ ← validate_metadata_name name;
  Ok name.

Definition validate_hold (hold : ExecutionLifecycleHold) : result StorageError unit :=
  _ ← check (negb (str_is_empty (ExecutionLifecycleHold.hold_id hold) ||
                   str_is_empty (ExecutionLifecycleHold.container_id hold) ||
                   str_is_empty (ExecutionLifecycleHold.session_id hold) ||
                   str_is_empty (ExecutionLifecycleHold.supervisor_token hold)))
        (mismatch "lifecycle hold identity is incomplete");
  _ ← hold_name (OwnershipLabels.execution_id (ExecutionLifecycleHold.labels hold))
        (ExecutionLifecycleHold.hold_id hold);
  Ok tt.

Module HoldStore.
Section HoldStore.
Context `{Serde} (directory : PinnedDirectory).

Definition create (hold : ExecutionLifecycleHold) : fsio unit :=
  _ ← ret_result (validate_hold hold);
  name ← ret_result (hold_name (OwnershipLabels.execution_id (ExecutionLifecycleHold.labels hold))
                       (ExecutionLifecycleHold.hold_id hold));
  MetadataStore.create directory name (hold_to_json hold).

Definition replace (hold : ExecutionLifecycleHold) : fsio unit :=
  _ ← ret_result (validate_hold hold);
  name ← ret_result (hold_name (OwnershipLabels.execution_id (ExecutionLifecycleHold.labels hold))
                       (ExecutionLifecycleHold.hold_id hold));
  MetadataStore.replace directory name (hold_to_json hold).

Definition remove (execution_id : ExecutionId) (hold_id : string) : fsio unit :=
  name ← ret_result (hold_name execution_id hold_id);
  MetadataStore.remove directory name.

Fixpoint list_loop (execution_id : ExecutionId) (names : list string) :
    fsio (list ExecutionLifecycleHold) :=
  match names with
  | [] => mret []
  | name :: names =>
      if starts_with (execution_id +:+ "--") name then
        bytes ← MetadataStore.read directory name;
        bytes ← some_or bytes (StorageError.Journal "lifecycle hold disappeared");
        hold ← some_or (hold_from_json bytes) (StorageError.Journal "malformed lifecycle hold");
        _ ← ret_result (validate_hold hold);
        _ ← guard_or (bool_decide (OwnershipLabels.execution_id
                                     (ExecutionLifecycleHold.labels hold) = execution_id))
              (mismatch "lifecycle hold execution changed");
        rest ← list_loop execution_id names;
        mret (hold :: rest)
      else list_loop execution_id names
  end.

Definition list (execution_id : ExecutionId) : fsio (list ExecutionLifecycleHold) :=
  names ← MetadataStore.names directory;
  list_loop execution_id names.
End HoldStore.
End HoldStore.

(** ** The journal store *)
Definition journal_name (layout : ExecutionLayout) : result StorageError string :=
  ok_or (file_name (ExecutionLayout.journal layout))
        (StorageError.Journal ("journal name is not UTF-8: " +:+ ExecutionLayout.journal layout)).

(** [str::trim_end_matches(".json")], with a step per removed suffix. *)
Fixpoint trim_end_matches (fuel : nat) (p s : string) : string :=
  match fuel with
  | O => s
  | S fuel => match strip_suffix p s with
              | Some r => if bool_decide (r = s) then s else trim_end_matches fuel p r
              | None => s
              end
  end.

Definition lease_name (layout : ExecutionLayout) : result StorageError string :=
  name ← journal_name layout;
  Ok (trim_end_matches (String.length name) ".json" name +:+ ".lease")%string.

Module JournalStore.
Record JournalStore := {
  directory : string;
  state_root : PinnedDirectory;
  journal_directory : PinnedDirectory
}.

Definition new (state_root : string) : fsio JournalStore :=
  root ← capture state_root "state root";
  journal_directory ← capture_child root "execution-storage" "journal directory";
  mret {| directory := join (PinnedDirectory.path root) "execution-storage";
          state_root := root;
          journal_directory := journal_directory |}.

Section JournalStore.
Context `{Serde} (self : JournalStore).
Local Notation dir := (journal_directory self).

Definition verify_directories : fsio unit :=
  _ ← verify (state_root self) "state root";
  verify dir "journal directory".

Definition validate_path (layout : ExecutionLayout) : fsio unit :=
  guard_or (bool_decide (parent (ExecutionLayout.journal layout) = Some (components (directory self))))
    (mismatch ("journal " +:+ ExecutionLayout.journal layout +:+ " is outside " +:+ directory self)).

Definition write_and_sync (file : Descriptor) (journal : PhaseJournal) (path : string) : fsio unit :=
  _ ← ask_or (WriteAll file (journal_to_json journal)) (journal_error "serialize" path);
  _ ← ask_or (WriteAll file (String "010" "")) (journal_error "write" path);
  ask_or (Fsync file) (journal_error "fsync" path).

Definition create (layout : ExecutionLayout) (journal : PhaseJournal) : fsio unit :=
  _ ← lock dir;
  _ ← verify_directories;
  _ ← validate_path layout;
  _ ← ret_result (PhaseJournal.validate journal layout);
  name ← ret_result (journal_name layout);
  existing ← child_metadata dir name;
  _ ← guard_or (bool_decide (existing = None))
        (StorageError.Journal ("journal already exists: " +:+ ExecutionLayout.journal layout));
  staging ← create_temporary_file dir name;
  let '(temporary, file) := staging in
  temporary_identity ← ask_or (Fstat file) (journal_error "inspect" (ExecutionLayout.journal layout));
  temporary_path ← child_path dir temporary;
  written ← outcome_of (write_and_sync file journal temporary_path);
  match written with
  | Err error =>
      _ ← outcome_of (remove_file_verified dir temporary temporary_identity);
      throw error
  | Ok _ =>
      committed ← outcome_of (commit_noreplace_verified dir temporary name temporary_identity);
      match committed with
      | Err error =>
          _ ← outcome_of (remove_file_verified dir temporary temporary_identity);
          throw error
      | Ok _ =>
          _ ← sync dir;
          verify_directories
      end
  end.

Definition exists_ (layout : ExecutionLayout) : fsio bool :=
  _ ← verify_directories;
  _ ← validate_path layout;
  name ← ret_result (journal_name layout);
  existing ← child_metadata dir name;
  mret (bool_decide (is_Some existing)).

Definition write (layout : ExecutionLayout) (journal : PhaseJournal) : fsio unit :=
  _ ← lock dir;
  _ ← verify_directories;
  _ ← validate_path layout;
  _ ← ret_result (PhaseJournal.validate journal layout);
  name ← ret_result (journal_name layout);
  current ← open_file dir name;
  expected ← ask_or (Fstat current) (journal_error "inspect" (ExecutionLayout.journal layout));
  staging ← create_temporary_file dir name;
  let '(temporary, file) := staging in
  temporary_identity ← ask_or (Fstat file) (journal_error "inspect" (ExecutionLayout.journal layout));
  temporary_path ← child_path dir temporary;
  written ← outcome_of (write_and_sync file journal temporary_path);
  match written with
  | Err error =>
      _ ← outcome_of (remove_file_verified dir temporary temporary_identity);
      throw error
  | Ok _ =>
      exchanged ← outcome_of (exchange_verified dir temporary name temporary_identity expected);
      match exchanged with
      | Err error =>
          _ ← outcome_of (remove_file_verified dir temporary temporary_identity);
          throw error
      | Ok _ =>
          _ ← remove_file_verified dir temporary expected;
          _ ← sync dir;
          verify_directories
      end
  end.

Definition read (layout : ExecutionLayout) : fsio PhaseJournal :=
  _ ← verify_directories;
  _ ← validate_path layout;
  name ← ret_result (journal_name layout);
  file ← open_file dir name;
  bytes ← ask_or (ReadToEnd file) (journal_error "parse" (ExecutionLayout.journal layout));
  journal ← some_or (journal_from_json bytes)
              (StorageError.Journal ("parse " +:+ ExecutionLayout.journal layout));
  _ ← ret_result (PhaseJournal.validate journal layout);
  mret journal.

Definition ensure_ready_lease (layout : ExecutionLayout) : fsio unit :=
  _ ← lock dir;
  _ ← verify_directories;
  _ ← validate_path layout;
  name ← ret_result (lease_name layout);
  existing ← child_metadata dir name;
  match existing with
  | Some _ => _ ← open_file dir name; mret tt
  | None =>
      created ← outcome_of (create_file dir name);
      match created with
      | Ok file =>
          _ ← ask_or (Fsync file)
                (journal_error "fsync Ready lease" (ExecutionLayout.journal layout));
          sync dir
      | Err _ => _ ← open_file dir name; mret tt
      end
  end.

Definition open_ready_lease (layout : ExecutionLayout) : fsio Descriptor :=
  _ ← verify_directories;
  _ ← validate_path layout;
  name ← ret_result (lease_name layout);
  open_file dir name.

Definition remove (layout : ExecutionLayout) : fsio unit :=
  _ ← lock dir;
  _ ← verify_directories;
  _ ← validate_path layout;
  name ← ret_result (journal_name layout);
  file ← open_file dir name;
  expected ← ask_or (Fstat file) (journal_error "inspect" (ExecutionLayout.journal layout));
  tombstone ← rename_verified dir name ("remove-" +:+ name) expected;
  _ ← remove_file_verified dir tombstone expected;
  _ ← sync dir;
  verify_directories.

Fixpoint list_loop (state_root : string) (names : list string) (ignored : Z) :
    fsio (list PhaseJournal) :=
  match names with
  | [] => mret []
  | name :: names =>
      let entry_path := join (directory self) name in
      existing ← child_metadata dir name;
      metadata ← some_or existing
                   (StorageError.Journal ("journal entry disappeared: " +:+ name));
      if (bool_decide (name = "holds"%string) || bool_decide (name = "releases"%string)) &&
         Metadata.is_dir metadata
      then
        _ ← capture_child dir name "journal metadata subdirectory";
        list_loop state_root names ignored
      else
        _ ← guard_or (negb (Metadata.is_symlink metadata || negb (Metadata.is_file metadata)))
              (StorageError.Journal ("unexpected journal entry type: " +:+ entry_path));
        if ends_with ".lease" name then
          _ ← open_file dir name;
          list_loop state_root names ignored
        else if is_owner_probe_name name || is_journal_temporary_name name then
          _ ← open_file dir name;
          let ignored := ignored + 1 in
          _ ← guard_or (negb (MAX_IGNORED_RESIDUE_ENTRIES <? ignored))
                (residue_limit_error (PinnedDirectory.path dir));
          list_loop state_root names ignored
        else
          execution_id ← some_or (strip_suffix ".json" name)
            (StorageError.Journal ("unexpected journal filename: " +:+ name));
          layout ← ret_result (ExecutionLayout.new state_root execution_id);
          journal ← read layout;
          rest ← list_loop state_root names ignored;
          mret (journal :: rest)
  end.

(** In the order of the execution ids. *)
Definition journal_le (a b : PhaseJournal) : Prop :=
  String.le (OwnershipLabels.execution_id (PhaseJournal.labels a))
            (OwnershipLabels.execution_id (PhaseJournal.labels b)).

#[export] Instance journal_le_dec : RelDecision journal_le.
Proof. intros a b. unfold journal_le. apply _. Defined.

Definition list (state_root : string) : fsio (list PhaseJournal) :=
  _ ← verify_directories;
  _ ← guard_or (path_eqb (directory self) (join state_root "execution-storage"))
        (mismatch "journal store and state root disagree");
  names ← child_names dir;
  journals ← list_loop state_root names 0;
  mret (merge_sort journal_le journals).
End JournalStore.
End JournalStore.
Abbreviation JournalStore := JournalStore.JournalStore.
