(* ===== verification/RecordAtomicity.v ===== *)
(** * Records are replaced atomically

    The temporary names that [temporary_name] makes are the ones the listings
    recognise as residue, whatever the operation, process, clock and counter,
    and a record name is never one of them.  The lifecycle holds of an
    execution are found by a prefix that another execution's may share.

    The metadata directories and the journal store against the map of records
    they stand for.  Between any two system calls, whatever failed before, and
    after a power loss at any point, the directory holds the map before the
    operation or the map after it; once the operation has returned [Ok] only
    the map after it.  Temporary names are no part of the map, so what a crash
    leaves of them does not matter. *)

From Stdlib Require Import Ascii.
From S2P Require Import Prelude Core Lifecycle Effects StorageModel FileSystem Pinned MetadataStore.





(** ** Strings *)
(** A text of characters that [p] accepts has none that it rejects. *)
(** ** Digits *)
Section Radix.
Context (base : N) (accepts : ascii -> bool).
Hypothesis base_pos : (0 < base)%N.
Hypothesis digits_accepted : forall d, (d < base)%N -> accepts (digit_char d) = true.

Lemma radix_go_forallb fuel n acc :
  string_forallb accepts acc = true -> string_forallb accepts (radix_go base fuel n acc) = true.
Proof.
  revert n acc. induction fuel as [|fuel IH]; intros n acc Hacc; simpl; [done|].
  assert (string_forallb accepts (String (digit_char (n mod base)) acc) = true) as Hd.
  { simpl. rewrite digits_accepted; [done|]. apply N.mod_lt. lia. }
  case_match; [done|by apply IH].
Qed.

Lemma radix_go_cons fuel n acc :
  fuel <> O \/ acc <> EmptyString -> radix_go base fuel n acc <> EmptyString.
Proof.
  revert n acc. induction fuel as [|fuel IH]; intros n acc H; simpl; [naive_solver|].
  case_match; [done|]. apply IH. by right.
Qed.

Lemma radix_all_of n : all_of accepts (radix base n) = true.
Proof.
  unfold all_of, radix. apply andb_true_iff. split.
  - pose proof (radix_go_cons (S (N.size_nat (Z.to_N n))) (Z.to_N n) "") as H.
    destruct (radix_go _ _ _ _); [|done]. exfalso. apply H; [by left|done].
  - by apply radix_go_forallb.
Qed.
End Radix.

(** Every digit below [base] satisfies [p], by enumeration. *)
Ltac each_digit :=
  let d := fresh "d" in let Hd := fresh in
  intros d Hd;
  repeat (first [lia | destruct d as [|d]; [reflexivity|]
                | destruct d as [d|d|]; try reflexivity; try lia]).

Lemma decimal_all_of n : all_of is_ascii_digit (decimal n) = true.
Proof. apply radix_all_of; [lia|]. each_digit. Qed.

Lemma lower_hex_all_of n : all_of is_ascii_hexdigit (lower_hex n) = true.
Proof. apply radix_all_of; [lia|]. each_digit. Qed.

Lemma all_of_parts p s : all_of p s = true ->
  negb (str_is_empty s) = true /\ string_forallb p s = true.
Proof. unfold all_of. by rewrite andb_true_iff. Qed.

Lemma decimal_no_dot n : ~ has_char "."%char (decimal n).
Proof. eapply forallb_no_char; [|apply (all_of_parts _ _ (decimal_all_of n))]. done. Qed.

Lemma lower_hex_no_dot n : ~ has_char "."%char (lower_hex n).
Proof. eapply forallb_no_char; [|apply (all_of_parts _ _ (lower_hex_all_of n))]. done. Qed.

(** ** Temporary names *)
Lemma format_temporary_name_eq name process epoch counter :
  format_temporary_name name process epoch counter =
  ("." +:+ ((((name +:+ String "." (decimal process)) +:+ String "." (lower_hex epoch))
     +:+ String "." (decimal counter)) +:+ ".tmp"))%string.
Proof.
  unfold format_temporary_name. rewrite !string_app_assoc, !string_app_cons, !string_app_nil.
  repeat (f_equal; rewrite ?string_app_assoc, ?string_app_cons, ?string_app_nil).
Qed.

Lemma temporary_operation_format name process epoch counter :
  name <> EmptyString ->
  temporary_operation (format_temporary_name name process epoch counter) = Some name.
Proof.
  intros Hn. rewrite format_temporary_name_eq. unfold temporary_operation.
  rewrite strip_prefix_app. simpl. rewrite strip_suffix_app. simpl.
  rewrite rsplit_once_app by apply decimal_no_dot. simpl.
  rewrite rsplit_once_app by apply lower_hex_no_dot. simpl.
  rewrite rsplit_once_app by apply decimal_no_dot. simpl.
  destruct (all_of_parts _ _ (decimal_all_of process)) as [_ Hp].
  destruct (all_of_parts _ _ (lower_hex_all_of epoch)) as [He1 He2].
  destruct (all_of_parts _ _ (decimal_all_of counter)) as [Hc1 Hc2].
  rewrite Hp, He1, He2, Hc1, Hc2. by destruct name.
Qed.

Lemma is_temporary_format name process epoch counter :
  name <> EmptyString ->
  is_operation_temporary_name (format_temporary_name name process epoch counter) = true.
Proof.
  intros Hn. unfold is_operation_temporary_name.
  rewrite temporary_operation_format by done. by rewrite bool_decide_true by eauto.
Qed.

(** A name that does not start with a dot is no temporary name. *)
Lemma not_temporary c s : c <> "."%char -> is_operation_temporary_name (String c s) = false.
Proof.
  intros Hc. unfold is_operation_temporary_name, temporary_operation, legacy_temporary_operation.
  simpl. rewrite (bool_decide_false ("."%char = c)) by (intros <-; by apply Hc). done.
Qed.

(** ** Execution ids and the names made of them *)
Lemma validate_execution_id_Ok id u :
  validate_execution_id id = Ok u ->
  id <> EmptyString /\ string_forallb (fun c => is_ascii_lowercase c || is_ascii_digit c ||
                         bool_decide (c = "-"%char)) id = true.
Proof.
  unfold validate_execution_id. case_match eqn:E; [|done]. intros _.
  rewrite !andb_true_iff in E. destruct E as [[_ Hc] Hall]. split; [|done].
  by destruct id.
Qed.

Lemma execution_id_first id c s u :
  validate_execution_id id = Ok u -> id = String c s -> c <> "."%char.
Proof.
  intros Hv ->. apply validate_execution_id_Ok in Hv as [_ Hall].
  simpl in Hall. apply andb_true_iff in Hall as [Hc _]. by intros ->.
Qed.

Lemma record_name_not_temporary id suffix u :
  validate_execution_id id = Ok u -> is_operation_temporary_name (id +:+ suffix) = false.
Proof.
  intros Hv. destruct id as [|c s] eqn:E.
  - by apply validate_execution_id_Ok in Hv as [].
  - rewrite string_app_cons. apply not_temporary. by eapply execution_id_first.
Qed.

(** ** Paths *)
(** A name that is one component. *)
Definition plain_name (q : string) : Prop :=
  q <> EmptyString /\ q <> "."%string /\ q <> ".."%string /\ ~ has_char "/"%char q.

Lemma plain_filter q : plain_name q ->
  List.filter (fun c => negb (str_is_empty c) && negb (bool_decide (c = "."%string))) [q] = [q].
Proof.
  intros (He & Hd & _ & _). simpl. rewrite bool_decide_false by done. by destruct q.
Qed.

Lemma components_app p q : plain_name q ->
  last (components (p +:+ String "/" q)).2 = Some q.
Proof.
  intros Hq. unfold components. simpl. rewrite split_app, (split_no_char _ q) by apply Hq.
  destruct (split "/" p) as [|f rest] eqn:E; [by apply split_ne_nil in E|].
  simpl. rewrite List.filter_app, (plain_filter q) by done.
  rewrite app_assoc. apply last_snoc.
Qed.

Lemma is_absolute_plain q : plain_name q -> is_absolute q = false.
Proof.
  intros (He & _ & _ & Hc). destruct q as [|c q]; [done|]. unfold is_absolute. simpl.
  rewrite bool_decide_false; [done|]. intros <-. apply Hc, has_char_cons. by left.
Qed.

Lemma join_plain p q : plain_name q ->
  join p q = q \/ exists p', join p q = (p' +:+ String "/" q)%string.
Proof.
  intros Hq. unfold join. rewrite is_absolute_plain by done.
  destruct (str_is_empty p); [by left|]. right.
  destruct (rsplit_once "/" p) as [[a [|c b] ]|] eqn:E.
  - apply rsplit_once_Some in E as [-> _]. exists a.
    by rewrite string_app_assoc, string_app_cons, string_app_nil.
  - by exists p.
  - by exists p.
Qed.

Lemma file_name_join p q : plain_name q -> file_name (join p q) = Some q.
Proof.
  intros Hq. unfold file_name.
  assert (last (components (join p q)).2 = Some q) as ->.
  { destruct (join_plain p q Hq) as [->|[p' ->]]; [|by apply components_app].
    unfold components. simpl. rewrite (split_no_char _ q) by apply Hq. simpl.
    destruct Hq as (He & _). by destruct q. }
  destruct Hq as (_ & Hd & Hdd & _). by rewrite !bool_decide_false by done.
Qed.

Lemma execution_id_plain id u suffix :
  validate_execution_id id = Ok u -> ~ has_char "/"%char suffix -> plain_name (id +:+ suffix).
Proof.
  intros Hv Hs. destruct (validate_execution_id_Ok _ _ Hv) as [He Hall].
  destruct id as [|c s] eqn:E; [done|]. pose proof (execution_id_first _ c s _ Hv eq_refl) as Hc.
  rewrite string_app_cons. split_and!; [done|congruence|congruence|].
  rewrite <- string_app_cons, has_char_app. intros [Hin|Hin]; [|done]. revert Hin.
  eapply forallb_no_char; [|exact Hall]. done.
Qed.

(** The names of a layout. *)
Lemma string_app_empty_r s : (s +:+ "")%string = s.
Proof. induction s as [|c s IH]; [done|]. by rewrite string_app_cons, IH. Qed.

Lemma layout_new state_root id layout :
  ExecutionLayout.new state_root id = Ok layout ->
  validate_execution_id id = Ok tt /\
  file_name (ExecutionLayout.root layout) = Some id /\
  journal_name layout = Ok (id +:+ ".json")%string.
Proof.
  unfold ExecutionLayout.new. rewrite result_bind_Ok. intros ([] & Hv & [= <-]). simpl.
  assert (~ has_char "/"%char ".json") by (by vm_compute).
  split_and!; [done| |].
  - rewrite file_name_join; [done|]. rewrite <- (string_app_empty_r id).
    eapply execution_id_plain; [done|by vm_compute].
  - unfold journal_name. simpl. rewrite file_name_join; [done|]. by eapply execution_id_plain.
Qed.

Lemma starts_with_char c p s : starts_with (String c p) s = true -> has_char c s.
Proof.
  destruct s as [|x s]; [done|]. simpl. rewrite andb_true_iff, bool_decide_eq_true.
  intros [<- _]. apply has_char_cons. by left.
Qed.

Lemma contains_char c p s : contains (String c p) s = true -> has_char c s.
Proof.
  induction s as [|x s IH]; [done|]. intros Hc.
  change (starts_with (String c p) (String x s) || contains (String c p) s = true) in Hc.
  apply orb_true_iff in Hc as [Hc|Hc]; [by eapply starts_with_char|].
  apply has_char_cons. right. auto.
Qed.

Lemma execution_id_no_char id u d :
  validate_execution_id id = Ok u ->
  is_ascii_lowercase d || is_ascii_digit d || bool_decide (d = "-"%char) = false ->
  ~ has_char d id.
Proof.
  intros Hv Hd. apply validate_execution_id_Ok in Hv as [_ Hall].
  by eapply (forallb_no_char _ d id Hd).
Qed.

(** * Records are replaced atomically

    The metadata directories and the journal store against the map of records
    they stand for.  Between any two system calls, whatever failed before, and
    after a power loss at any point, the directory holds the map before the
    operation or the map after it; once the operation has returned [Ok] only
    the map after it.  Temporary names are no part of the map, so what a crash
    leaves of them does not matter. *)

Abbreviation is_temporary := is_operation_temporary_name.

(** ** What a directory shows *)
Definition is_directory (fs : FileSystem) (dir : Descriptor) : Prop :=
  exists m es past, fs !! dir = Some {| metadata := m; body := DirBody es past |}.

(** The map of records that a set of entries stands for; every record of it is
    flushed. *)
Definition shows (fs : FileSystem) (M : gmap string string) (es : gmap string Z) : Prop :=
  forall name, is_temporary name = false ->
    (es !! name ≫= data_of fs) = M !! name /\
    forall i data, es !! name = Some i -> data_of fs i = Some data -> flushed_of fs i = true.

Definition closed (fs : FileSystem) (dir : Descriptor) : Prop :=
  forall es name i, es ∈ possible fs dir -> es !! name = Some i -> is_Some (fs !! i).

(** The current entries show a map of [cur], every possible set of entries one
    of [all]. *)
Definition states (dir : Descriptor) (cur all : gmap string string -> Prop) (fs : FileSystem) : Prop :=
  is_directory fs dir /\ closed fs dir /\
  (exists M, cur M /\ shows fs M (entries_of fs dir)) /\
  forall es, es ∈ possible fs dir -> exists M, all M /\ shows fs M es.

(** The directory durably holds the map [M]. *)
Definition stored (dir : Descriptor) (M : gmap string string) : FileSystem -> Prop :=
  states dir (eq M) (eq M).

(** ** Effect of the calls on what is shown *)
Section Lookups.
Context (fs : FileSystem).

Lemma data_of_set_data fd data flushed i :
  data_of (set_data fd data flushed fs) i =
  if bool_decide (i = fd) then (if bool_decide (is_Some (data_of fs fd)) then Some data else None)
  else data_of fs i.
Proof.
  unfold data_of, set_data. case_bool_decide as Hi.
  - subst. rewrite lookup_alter_eq. by destruct (fs !! fd) as [[m [] ]|].
  - by rewrite lookup_alter_ne.
Qed.

Lemma flushed_of_set_data fd data flushed i :
  flushed_of (set_data fd data flushed fs) i =
  if bool_decide (i = fd) then bool_decide (is_Some (data_of fs fd)) && flushed
  else flushed_of fs i.
Proof.
  unfold flushed_of, data_of, set_data. case_bool_decide as Hi.
  - subst. rewrite lookup_alter_eq. by destruct (fs !! fd) as [[m [] ]|].
  - by rewrite lookup_alter_ne.
Qed.

Lemma possible_set_data fd data flushed dir :
  possible (set_data fd data flushed fs) dir = possible fs dir.
Proof.
  unfold possible, entries_of, past_of, set_data. destruct (decide (dir = fd)) as [->|Hi].
  - rewrite lookup_alter_eq. by destruct (fs !! fd) as [[m [] ]|].
  - by rewrite lookup_alter_ne.
Qed.

Lemma dom_set_data fd data flushed i :
  is_Some (set_data fd data flushed fs !! i) <-> is_Some (fs !! i).
Proof. unfold set_data. by rewrite lookup_alter_is_Some. Qed.

Lemma is_directory_set_data fd data flushed dir :
  is_directory fs dir -> is_directory (set_data fd data flushed fs) dir.
Proof.
  intros (m & es & past & Hd). unfold is_directory, set_data. exists m, es, past.
  destruct (decide (dir = fd)) as [->|Hi].
  - by rewrite lookup_alter_eq, Hd.
  - by rewrite lookup_alter_ne.
Qed.

Lemma data_of_set_entries dir es i : data_of (set_entries dir es fs) i = data_of fs i.
Proof.
  unfold data_of, set_entries. destruct (decide (i = dir)) as [->|Hi].
  - rewrite lookup_alter_eq. by destruct (fs !! dir) as [[m [] ]|].
  - by rewrite lookup_alter_ne.
Qed.

Lemma flushed_of_set_entries dir es i : flushed_of (set_entries dir es fs) i = flushed_of fs i.
Proof.
  unfold flushed_of, set_entries. destruct (decide (i = dir)) as [->|Hi].
  - rewrite lookup_alter_eq. by destruct (fs !! dir) as [[m [] ]|].
  - by rewrite lookup_alter_ne.
Qed.

Lemma possible_set_entries dir es :
  is_directory fs dir -> possible (set_entries dir es fs) dir = es :: possible fs dir.
Proof.
  intros (m & old & past & Hd). unfold possible, entries_of, past_of, set_entries.
  by rewrite lookup_alter_eq, Hd.
Qed.

Lemma dom_set_entries dir es i : is_Some (set_entries dir es fs !! i) <-> is_Some (fs !! i).
Proof. unfold set_entries. by rewrite lookup_alter_is_Some. Qed.

Lemma is_directory_set_entries dir es :
  is_directory fs dir -> is_directory (set_entries dir es fs) dir.
Proof.
  intros (m & old & past & Hd). unfold is_directory, set_entries.
  rewrite lookup_alter_eq, Hd. simpl. eauto.
Qed.

Lemma data_of_forget_past dir i : data_of (forget_past dir fs) i = data_of fs i.
Proof.
  unfold data_of, forget_past. destruct (decide (i = dir)) as [->|Hi].
  - rewrite lookup_alter_eq. by destruct (fs !! dir) as [[m [] ]|].
  - by rewrite lookup_alter_ne.
Qed.

Lemma flushed_of_forget_past dir i : flushed_of (forget_past dir fs) i = flushed_of fs i.
Proof.
  unfold flushed_of, forget_past. destruct (decide (i = dir)) as [->|Hi].
  - rewrite lookup_alter_eq. by destruct (fs !! dir) as [[m [] ]|].
  - by rewrite lookup_alter_ne.
Qed.

Lemma possible_forget_past dir :
  is_directory fs dir -> possible (forget_past dir fs) dir = [entries_of fs dir].
Proof.
  intros (m & old & past & Hd). unfold possible, entries_of, past_of, forget_past.
  by rewrite lookup_alter_eq, Hd.
Qed.

Lemma is_directory_forget_past dir : is_directory fs dir -> is_directory (forget_past dir fs) dir.
Proof.
  intros (m & old & past & Hd). unfold is_directory, forget_past.
  rewrite lookup_alter_eq, Hd. simpl. eauto.
Qed.

Lemma dom_forget_past dir i : is_Some (forget_past dir fs !! i) <-> is_Some (fs !! i).
Proof. unfold forget_past. by rewrite lookup_alter_is_Some. Qed.
End Lookups.

Lemma shows_ext fs fs' M es :
  (forall i name, is_temporary name = false -> es !! name = Some i ->
     data_of fs' i = data_of fs i /\ flushed_of fs' i = flushed_of fs i) ->
  shows fs M es -> shows fs' M es.
Proof.
  intros Hext Hs name Hn. destruct (Hs name Hn) as [HM Hf].
  destruct (es !! name) as [i|] eqn:E; simpl in *; [|done].
  destruct (Hext i name Hn E) as [Hd Hfl]. rewrite Hd. split; [done|].
  intros i' data [= <-] Hdata. rewrite Hfl. rewrite Hd in Hdata. by eapply Hf.
Qed.

(** A temporary name more or less does not show. *)
Lemma shows_temporary fs M es es' :
  (forall name, is_temporary name = false -> es' !! name = es !! name) ->
  shows fs M es -> shows fs M es'.
Proof. intros He Hs name Hn. rewrite He by done. by apply Hs. Qed.

(** ** Steps between states *)
Section States.
Context (dir : Descriptor).
Implicit Types cur all : gmap string string -> Prop.

Definition unreferenced (fs : FileSystem) (fd : Descriptor) : Prop :=
  forall es name, es ∈ possible fs dir -> is_temporary name = false -> es !! name <> Some fd.

Lemma states_mono cur all cur' all' fs :
  (forall M, cur M -> cur' M) -> (forall M, all M -> all' M) ->
  states dir cur all fs -> states dir cur' all' fs.
Proof. intros Hc Ha (Hd & Hcl & (M & HM & Hs) & Hall). split_and!; naive_solver. Qed.

Lemma closed_set_entries fs es :
  is_directory fs dir -> closed fs dir ->
  (forall name i, es !! name = Some i -> is_Some (fs !! i)) ->
  closed (set_entries dir es fs) dir.
Proof.
  intros Hd Hc Hes es' name i. rewrite possible_set_entries, elem_of_cons by done.
  rewrite dom_set_entries. intros [->|Hin] Hl; [by eapply Hes|by eapply Hc].
Qed.

Lemma entries_possible fs : entries_of fs dir ∈ possible fs dir.
Proof. apply elem_of_cons. by left. Qed.

(** New entries that show a map of [cur']. *)
Lemma states_set_entries cur all cur' fs es :
  states dir cur all fs ->
  (forall name i, es !! name = Some i -> exists name', entries_of fs dir !! name' = Some i) ->
  (exists M, cur' M /\ shows fs M es) ->
  states dir cur' (fun M => cur' M \/ all M) (set_entries dir es fs).
Proof.
  intros (Hd & Hc & _ & Hall) Hes Hnew.
  assert (forall M es', shows fs M es' -> shows (set_entries dir es fs) M es') as Hsh.
  { intros M es'. apply shows_ext. intros i name _ _.
    by rewrite data_of_set_entries, flushed_of_set_entries. }
  split_and!.
  - by apply is_directory_set_entries.
  - apply closed_set_entries; [done..|]. intros name i Hl. destruct (Hes _ _ Hl) as [name' Hl'].
    eapply Hc; [apply entries_possible|done].
  - destruct Hnew as (M & HM & Hs). exists M. split; [done|].
    assert (entries_of (set_entries dir es fs) dir = es) as ->; [|by apply Hsh].
    pose proof (possible_set_entries fs dir es Hd) as Hp. unfold possible in Hp. congruence.
  - intros es'. rewrite possible_set_entries, elem_of_cons by done. intros [->|Hin].
    + destruct Hnew as (M & HM & Hs). exists M. split; [by left|by apply Hsh].
    + destruct (Hall es' Hin) as (M & HM & Hs). exists M. split; [by right|by apply Hsh].
Qed.

(** Entries that differ in temporary names only. *)
Lemma states_set_temporary cur all fs es :
  (forall M, cur M -> all M) ->
  states dir cur all fs ->
  (forall name i, es !! name = Some i -> exists name', entries_of fs dir !! name' = Some i) ->
  (forall name, is_temporary name = false -> es !! name = entries_of fs dir !! name) ->
  states dir cur all (set_entries dir es fs).
Proof.
  intros Hsub Hst Hes Htmp. eapply states_mono; [| |eapply states_set_entries; [done..|]].
  - naive_solver.
  - naive_solver.
  - destruct Hst as (_ & _ & (M & HM & Hs) & _). exists M. split; [done|].
    eapply shows_temporary; [|done]. done.
Qed.

Lemma states_unlink cur all fs name :
  (forall M, cur M -> all M) -> is_temporary name = true ->
  states dir cur all fs ->
  states dir cur all (set_entries dir (delete name (entries_of fs dir)) fs).
Proof.
  intros Hsub Ht Hst. apply states_set_temporary; [done..| |].
  - intros name' i. rewrite lookup_delete_Some. naive_solver.
  - intros name' Hn. rewrite lookup_delete_ne; [done|]. congruence.
Qed.

Lemma states_forget cur all fs : states dir cur all fs -> states dir cur cur (forget_past dir fs).
Proof.
  intros (Hd & Hc & (M & HM & Hs) & _).
  assert (shows (forget_past dir fs) M (entries_of fs dir)) as Hsh.
  { eapply shows_ext; [|done]. intros i name _ _.
    by rewrite data_of_forget_past, flushed_of_forget_past. }
  pose proof (possible_forget_past fs dir Hd) as Hp.
  assert (entries_of (forget_past dir fs) dir = entries_of fs dir) as He
    by (unfold possible in Hp; congruence).
  split_and!.
  - by apply is_directory_forget_past.
  - intros es name i. rewrite Hp, list_elem_of_singleton, dom_forget_past. intros -> Hl.
    eapply Hc; [apply entries_possible|done].
  - rewrite He. eauto.
  - intros es. rewrite Hp, list_elem_of_singleton. intros ->. eauto.
Qed.

Lemma states_set_data cur all fs fd data flushed :
  unreferenced fs fd -> states dir cur all fs -> states dir cur all (set_data fd data flushed fs).
Proof.
  intros Hu (Hd & Hc & (M & HM & Hs) & Hall).
  assert (forall M es, es ∈ possible fs dir -> shows fs M es ->
            shows (set_data fd data flushed fs) M es) as Hsh.
  { intros M' es Hin. apply shows_ext. intros i name Hn Hl.
    assert (i <> fd) by (intros ->; by eapply Hu).
    by rewrite data_of_set_data, flushed_of_set_data, !bool_decide_false. }
  assert (entries_of (set_data fd data flushed fs) dir = entries_of fs dir) as He.
  { pose proof (possible_set_data fs fd data flushed dir). unfold possible in *. congruence. }
  split_and!.
  - by apply is_directory_set_data.
  - intros es name i. rewrite possible_set_data, dom_set_data. apply Hc.
  - rewrite He. exists M. split; [done|]. apply Hsh; [apply entries_possible|done].
  - intros es. rewrite possible_set_data. intros Hin.
    destruct (Hall es Hin) as (M' & ? & ?). exists M'. auto.
Qed.

Lemma unreferenced_set_data fs fd fd' data flushed :
  unreferenced fs fd -> unreferenced (set_data fd' data flushed fs) fd.
Proof. intros Hu es name. rewrite possible_set_data. apply Hu. Qed.

(** A fresh inode changes nothing that is shown. *)
Lemma states_insert_fresh cur all fs i n :
  fs !! i = None -> states dir cur all fs -> states dir cur all (<[i := n]> fs) /\
  unreferenced (<[i := n]> fs) i /\ entries_of (<[i := n]> fs) dir = entries_of fs dir.
Proof.
  intros Hi (Hd & Hc & (M & HM & Hs) & Hall).
  assert (dir <> i) as Hne by (intros ->; destruct Hd as (? & ? & ? & ?); congruence).
  assert (possible (<[i := n]> fs) dir = possible fs dir) as Hp.
  { unfold possible, entries_of, past_of. by rewrite lookup_insert_ne by done. }
  assert (entries_of (<[i := n]> fs) dir = entries_of fs dir) as He
    by (unfold possible in Hp; congruence).
  assert (forall es name, es ∈ possible fs dir -> es !! name <> Some i) as Hu.
  { intros es name Hin Hl. destruct (Hc es name i Hin Hl). congruence. }
  assert (forall M es, es ∈ possible fs dir -> shows fs M es -> shows (<[i := n]> fs) M es) as Hsh.
  { intros M' es Hin. apply shows_ext. intros j name _ Hl.
    assert (j <> i) by (intros ->; by eapply Hu). unfold data_of, flushed_of.
    by rewrite lookup_insert_ne by done. }
  split; [split_and!|split].
  - destruct Hd as (m & es & past & Hd). exists m, es, past. by rewrite lookup_insert_ne.
  - intros es name j. rewrite Hp. intros Hin Hl. rewrite lookup_insert_is_Some'. right.
    by eapply Hc.
  - exists M. rewrite He. split; [done|]. apply Hsh; [apply entries_possible|done].
  - intros es. rewrite Hp. intros Hin. destruct (Hall es Hin) as (M' & ? & ?). eauto.
  - intros es name. rewrite Hp. intros Hin _. by apply Hu.
  - done.
Qed.

(** A file under a temporary name, on its way to becoming a record. *)
Definition staged (fs : FileSystem) (t : string) (fd : Descriptor) (data : string)
    (flushed : bool) : Prop :=
  is_temporary t = true /\ entries_of fs dir !! t = Some fd /\ data_of fs fd = Some data /\
  flushed_of fs fd = flushed /\ unreferenced fs fd.

Lemma states_creat cur all fs t i m :
  (forall M, cur M -> all M) -> is_temporary t = true -> fs !! i = None ->
  states dir cur all fs ->
  let fs' := created fs dir t i {| metadata := m; body := FileBody "" false |} in
  states dir cur all fs' /\ staged fs' t i "" false.
Proof.
  intros Hsub Ht Hi Hst fs'. subst fs'. unfold created.
  set (fs1 := <[i := _]> fs).
  destruct (states_insert_fresh cur all fs i {| metadata := m; body := FileBody "" false |} Hi Hst)
    as (Hst1 & Hu & He). fold fs1 in Hst1, Hu, He.
  assert (is_directory fs1 dir) as Hd1 by apply Hst1.
  assert (data_of fs1 i = Some ""%string /\ flushed_of fs1 i = false) as [Hdata Hfl].
  { unfold data_of, flushed_of, fs1. by rewrite lookup_insert_eq. }
  set (es := <[t := i]> (entries_of fs dir)).
  assert (forall name, is_temporary name = false -> es !! name = entries_of fs dir !! name) as Htmp.
  { intros name Hn. unfold es. rewrite lookup_insert_ne; [done|]. congruence. }
  split.
  - destruct Hst1 as (_ & Hc1 & (M & HM & Hs) & Hall). rewrite He in Hs.
    assert (shows (set_entries dir es fs1) M es) as Hes.
    { eapply shows_ext; [|eapply shows_temporary; [exact Htmp|exact Hs]]. intros j name _ _.
      by rewrite data_of_set_entries, flushed_of_set_entries. }
    assert (entries_of (set_entries dir es fs1) dir = es) as He2.
    { pose proof (possible_set_entries fs1 dir es Hd1) as Hp. unfold possible in Hp. congruence. }
    split_and!.
    + by apply is_directory_set_entries.
    + apply closed_set_entries; [done..|]. intros name j. unfold es.
      rewrite lookup_insert_Some. intros [[_ <-]|[_ Hl]].
      * unfold fs1. rewrite lookup_insert_eq. eauto.
      * eapply Hc1; [apply entries_possible|]. by rewrite He.
    + rewrite He2. eauto.
    + intros es'. rewrite possible_set_entries, elem_of_cons by done. intros [->|Hin]; [eauto|].
      destruct (Hall es' Hin) as (M' & ? & ?). exists M'. split; [done|].
      eapply shows_ext; [|done]. intros j name _ _.
      by rewrite data_of_set_entries, flushed_of_set_entries.
  - split_and!; [done| | | |].
    + pose proof (possible_set_entries fs1 dir es Hd1) as Hp. unfold possible in Hp.
      injection Hp as -> _. unfold es. by rewrite lookup_insert_eq.
    + by rewrite data_of_set_entries.
    + by rewrite flushed_of_set_entries.
    + intros es' name. rewrite possible_set_entries, elem_of_cons by done.
      intros [->|Hin] Hn; [|by apply Hu]. rewrite Htmp, <- He by done.
      apply Hu; [apply entries_possible|done].
Qed.

Lemma staged_set_data fs t fd data flushed data' flushed' :
  staged fs t fd data flushed -> staged (set_data fd data' flushed' fs) t fd data' flushed'.
Proof.
  intros (Ht & Hl & Hdata & _ & Hu). split_and!; [done| | | |].
  - pose proof (possible_set_data fs fd data' flushed' dir) as Hp. unfold possible in Hp.
    injection Hp as -> _. done.
  - rewrite data_of_set_data, !bool_decide_true; [done|eauto|done].
  - rewrite flushed_of_set_data, !bool_decide_true; [done|eauto|done].
  - by apply unreferenced_set_data.
Qed.

(** Publishing a staged, flushed file under a record name. *)
Lemma shows_publish fs M t fd bytes name es :
  staged fs t fd bytes true -> shows fs M (entries_of fs dir) ->
  es !! name = Some fd ->
  (forall name', is_temporary name' = false -> name' <> name ->
     es !! name' = entries_of fs dir !! name') ->
  shows fs (<[name := bytes]> M) es.
Proof.
  intros (_ & _ & Hdata & Hfl & _) Hs Hname Hother n Hn.
  destruct (decide (n = name)) as [->|Hne].
  - rewrite Hname, lookup_insert_eq. simpl. split; [done|]. by intros i data [= <-].
  - rewrite lookup_insert_ne by done. rewrite Hother by done. by apply Hs.
Qed.

Lemma shows_remove fs M name es :
  shows fs M (entries_of fs dir) -> es !! name = None ->
  (forall name', is_temporary name' = false -> name' <> name ->
     es !! name' = entries_of fs dir !! name') ->
  shows fs (delete name M) es.
Proof.
  intros Hs Hname Hother n Hn. destruct (decide (n = name)) as [->|Hne].
  - by rewrite Hname, lookup_delete_eq.
  - rewrite lookup_delete_ne by done. rewrite Hother by done. by apply Hs.
Qed.
End States.
