(* ===== verification/StorageCodec.v ===== *)
(** * A codec and a file system to compute with

    An instance of [Serde] and a file system on which no call fails, for the
    concrete runs that accompany the theorems about storage. *)

From Stdlib Require Import Ascii.
From S2P Require Import Prelude Core Lifecycle Effects StorageModel FileSystem Pinned MetadataStore.

















(** ** Records as trees, trees as text *)
#[export] Instance bind_eq_dec : EqDecision DockerBindProof.
Proof. solve_decision. Defined.
#[export] Instance receipt_eq_dec : EqDecision AllocationReceipt.
Proof. solve_decision. Defined.
#[export] Instance journal_eq_dec : EqDecision PhaseJournal.
Proof. solve_decision. Defined.
#[export] Instance hold_eq_dec : EqDecision ExecutionLifecycleHold.
Proof. solve_decision. Defined.

Fixpoint bits (p : positive) : string :=
  match p with
  | xH => EmptyString
  | xO p => String "0" (bits p)
  | xI p => String "1" (bits p)
  end.

Fixpoint unbits (s : string) : positive :=
  match s with
  | String c s => if bool_decide (c = "0"%char) then xO (unbits s)
                  else if bool_decide (c = "1"%char) then xI (unbits s)
                  else xH
  | EmptyString => xH
  end.

Lemma unbits_bits p s : unbits (bits p +:+ String "010" s) = p.
Proof. induction p as [p IH|p IH|]; [..|done]; simpl; by rewrite IH. Qed.

Lemma unbits_bits' p : unbits (bits p) = p.
Proof. induction p as [p IH|p IH|]; [..|done]; simpl; by rewrite IH. Qed.

#[local] Unset Program Cases.

(** [of_tree] inverts [to_tree]. *)
Class Tree (A : Type) := {
  to_tree : A -> gen_tree string;
  of_tree : gen_tree string -> option A;
  of_to_tree a : of_tree (to_tree a) = Some a
}.

#[export] Program Instance string_tree : Tree string :=
  {| to_tree := GenLeaf; of_tree t := match t with GenLeaf s => Some s | _ => None end |}.
Next Obligation. done. Qed.

#[export] Program Instance number_tree : Tree Z :=
  {| to_tree z := GenLeaf (bits (encode z));
     of_tree t := match t with GenLeaf s => decode (unbits s) | _ => None end |}.
Next Obligation. intros z. cbv beta iota. rewrite unbits_bits'. apply decode_encode. Qed.

#[export] Program Instance option_tree {A} `{Tree A} : Tree (option A) :=
  {| to_tree o := match o with Some a => GenNode 1 [to_tree a] | None => GenNode 0 [] end;
     of_tree t := match t with
                  | GenNode 1 [t] => Some <$> of_tree t
                  | GenNode 0 [] => Some None
                  | _ => None
                  end |}.
Next Obligation. intros A ? [a|]; simpl; [by rewrite of_to_tree|done]. Qed.

#[export] Program Instance pair_tree {A B} `{Tree A, Tree B} : Tree (A * B) :=
  {| to_tree p := GenNode 2 [to_tree p.1; to_tree p.2];
     of_tree t := match t with
                  | GenNode 2 [t; u] => a ← of_tree t; b ← of_tree u; Some (a, b)
                  | _ => None
                  end |}.
Next Obligation. intros A B ?? [a b]. simpl. by rewrite !of_to_tree. Qed.

(** A type that embeds in one with a tree. *)
Definition via {A B} `{Tree B} (f : A -> B) (g : B -> A) (gf : forall a, g (f a) = a) : Tree A.
Proof.
  refine {| to_tree a := to_tree (f a); of_tree t := g <$> of_tree t |}.
  intros a. rewrite of_to_tree. simpl. by rewrite gf.
Defined.

#[export] Instance labels_tree : Tree OwnershipLabels.
Proof.
  refine (via
    (fun l => (OwnershipLabels.execution_id l, OwnershipLabels.worker_id l,
               OwnershipLabels.repository l, OwnershipLabels.issue l))
    (fun '(e, w, r, i) => {| OwnershipLabels.execution_id := e; OwnershipLabels.worker_id := w;
                             OwnershipLabels.repository := r; OwnershipLabels.issue := i |}) _).
  by intros [].
Defined.

#[export] Instance backend_tree : Tree BackendIdentity.
Proof.
  refine (via
    (fun b => match b with
              | BackendIdentity.Apfs a b c d e f => (1, a, b, c, d, e, f)
              | BackendIdentity.Lvm a b c d e f => (0, a, b, c, d, e, f)
              end)
    (fun '(k, a, b, c, d, e, f) => if k =? 1 then BackendIdentity.Apfs a b c d e f
                                   else BackendIdentity.Lvm a b c d e f) _).
  by intros [].
Defined.

#[export] Instance bind_tree : Tree DockerBindProof.
Proof.
  refine (via
    (fun b => (DockerBindProof.daemon_id b, DockerBindProof.verifier b,
               DockerBindProof.method_version b, DockerBindProof.source_path b,
               DockerBindProof.filesystem_id b))
    (fun '(a, b, c, d, e) =>
       {| DockerBindProof.daemon_id := a; DockerBindProof.verifier := b;
          DockerBindProof.method_version := c; DockerBindProof.source_path := d;
          DockerBindProof.filesystem_id := e |}) _).
  by intros [].
Defined.

#[export] Instance receipt_tree : Tree AllocationReceipt.
Proof.
  refine (via
    (fun r => (AllocationReceipt.api_version r, AllocationReceipt.labels r,
               AllocationReceipt.reserved_bytes r, AllocationReceipt.mount_path r,
               AllocationReceipt.backend_kind r, AllocationReceipt.backend_key r,
               AllocationReceipt.pool_identity r, AllocationReceipt.backend r,
               AllocationReceipt.docker_bind r))
    (fun '(a, b, c, d, e, f, g, h, i) =>
       {| AllocationReceipt.api_version := a; AllocationReceipt.labels := b;
          AllocationReceipt.reserved_bytes := c; AllocationReceipt.mount_path := d;
          AllocationReceipt.backend_kind := e; AllocationReceipt.backend_key := f;
          AllocationReceipt.pool_identity := g; AllocationReceipt.backend := h;
          AllocationReceipt.docker_bind := i |}) _).
  by intros [].
Defined.

Definition phase_number (p : AllocationPhase) : Z :=
  match p with
  | AllocationPhase.Allocating => 0
  | AllocationPhase.Ready => 1
  | AllocationPhase.Releasing => 2
  end.
Definition number_phase (n : Z) : AllocationPhase :=
  match n with
  | 0 => AllocationPhase.Allocating
  | 1 => AllocationPhase.Ready
  | _ => AllocationPhase.Releasing
  end.
Definition release_number (p : ReleasePhase) : Z :=
  match p with
  | ReleasePhase.Mounted => 0
  | ReleasePhase.Unmounted => 1
  | ReleasePhase.ObjectAbsent => 2
  end.
Definition number_release (n : Z) : ReleasePhase :=
  match n with
  | 0 => ReleasePhase.Mounted
  | 1 => ReleasePhase.Unmounted
  | _ => ReleasePhase.ObjectAbsent
  end.

#[export] Instance journal_tree : Tree PhaseJournal.
Proof.
  refine (via
    (fun j => (PhaseJournal.api_version j, phase_number (PhaseJournal.phase j),
               PhaseJournal.labels j, PhaseJournal.reserved_bytes j,
               PhaseJournal.mount_path j, PhaseJournal.backend_kind j,
               PhaseJournal.backend_key j, PhaseJournal.pool_identity j,
               PhaseJournal.ownership_token j, PhaseJournal.backend j,
               PhaseJournal.receipt j, release_number <$> PhaseJournal.release_phase j))
    (fun '(a, b, c, d, e, f, g, h, i, k, l, m) =>
       {| PhaseJournal.api_version := a; PhaseJournal.phase := number_phase b;
          PhaseJournal.labels := c; PhaseJournal.reserved_bytes := d;
          PhaseJournal.mount_path := e; PhaseJournal.backend_kind := f;
          PhaseJournal.backend_key := g; PhaseJournal.pool_identity := h;
          PhaseJournal.ownership_token := i; PhaseJournal.backend := k;
          PhaseJournal.receipt := l; PhaseJournal.release_phase := number_release <$> m |}) _).
  by intros [? [] ? ? ? ? ? ? ? ? ? [ [] |] ].
Defined.

#[export] Instance hold_tree : Tree ExecutionLifecycleHold.
Proof.
  refine (via
    (fun h => (ExecutionLifecycleHold.labels h, ExecutionLifecycleHold.hold_id h,
               ExecutionLifecycleHold.container_id h, ExecutionLifecycleHold.session_id h,
               ExecutionLifecycleHold.supervisor_token h, ExecutionLifecycleHold.pgid h))
    (fun '(a, b, c, d, e, f) =>
       {| ExecutionLifecycleHold.labels := a; ExecutionLifecycleHold.hold_id := b;
          ExecutionLifecycleHold.container_id := c; ExecutionLifecycleHold.session_id := d;
          ExecutionLifecycleHold.supervisor_token := e; ExecutionLifecycleHold.pgid := f |}) _).
  by intros [].
Defined.

Definition print {A} `{Tree A} (a : A) : string := bits (encode (to_tree a)).
Definition parse {A} `{Tree A} (s : string) : option A := decode (unbits s) ≫= of_tree.

Lemma parse_print {A} `{Tree A} (a : A) : parse (print a) = Some a.
Proof. unfold parse, print. rewrite unbits_bits', decode_encode. apply of_to_tree. Qed.

#[export] Instance binary_serde : Serde.
Proof.
  refine {| journal_to_json := print; journal_from_json := parse;
            hold_to_json := print; hold_from_json := parse; receipt_to_json := print |}.
  - intros j. unfold parse, print. rewrite unbits_bits, decode_encode. apply of_to_tree.
  - intros h. apply parse_print.
  - intros r r' Hr. apply (f_equal (parse (A := AllocationReceipt))) in Hr.
    rewrite !parse_print in Hr. by injection Hr.
Defined.

(** ** A file system that works

    [paths] resolves the paths of the pinned directories, [counter] numbers the
    temporary names. *)
Record Host := { files : FileSystem; paths : list (string * Z); counter : Z }.

Definition set_files (fs : FileSystem) (h : Host) : Host :=
  {| files := fs; paths := paths h; counter := counter h |}.

Definition path_inode (h : Host) (path : string) : option Z :=
  snd <$> List.find (fun p => bool_decide (p.1 = path)) (paths h).

Definition fresh_inode (fs : FileSystem) : Z :=
  1 + foldr Z.max 0 (map_to_list fs).*1.

Definition new_metadata (i mode : Z) : Metadata :=
  {| Metadata.dev := 1; Metadata.ino := i; Metadata.uid := 1000; Metadata.mode := mode |}.

Definition stat_inode (fs : FileSystem) (i : option Z) : result Errno Metadata :=
  match i with
  | Some i => match fs !! i with Some n => Ok (metadata n) | None => Err NOENT end
  | None => Err NOENT
  end.

Definition ideal (B : Type) (c : sys B) (h : Host) : B * Host :=
  let fs := files h in
  match c in sys B return B * Host with
  | Lstat path => (stat_inode fs (path_inode h path), h)
  | OpenPath path => (stat_inode fs (path_inode h path), h)
  | Canonicalize path => (Ok path, h)
  | OpenDescriptor path => (ok_or (path_inode h path) NOENT, h)
  | Statat dir name => (stat_inode fs (entries_of fs dir !! name), h)
  | Openat dir name => (ok_or (entries_of fs dir !! name) NOENT, h)
  | Creatat dir name =>
      match entries_of fs dir !! name with
      | Some _ => (Err EXIST, h)
      | None => let i := fresh_inode fs in
          (Ok i, set_files (created fs dir name i
             {| metadata := new_metadata i 33152; body := FileBody "" false |}) h)
      end
  | Mkdirat dir name =>
      match entries_of fs dir !! name with
      | Some _ => (Err EXIST, h)
      | None => let i := fresh_inode fs in
          (Ok tt, set_files (created fs dir name i
             {| metadata := new_metadata i 16832; body := DirBody ∅ [] |}) h)
      end
  | Fstat fd => (stat_inode fs (Some fd), h)
  | ReadToEnd fd => (ok_or (data_of fs fd) (OtherErrno "not a file"), h)
  | WriteAll fd bytes =>
      match data_of fs fd with
      | Some data => (Ok tt, set_files (set_data fd (data +:+ bytes) false fs) h)
      | None => (Err (OtherErrno "not a file"), h)
      end
  | Fchmod fd permissions => (Err (OtherErrno "unsupported"), h)
  | Fsync fd =>
      (Ok tt, set_files (match data_of fs fd with
                         | Some data => set_data fd data true fs
                         | None => forget_past fd fs
                         end) h)
  | FsyncDirectory dir => (Ok tt, set_files (forget_past dir fs) h)
  | RenameNoreplace dir from to =>
      match entries_of fs dir !! from, entries_of fs dir !! to with
      | Some i, None =>
          (Ok tt, set_files (set_entries dir (<[to := i]> (delete from (entries_of fs dir))) fs) h)
      | None, _ => (Err NOENT, h)
      | _, Some _ => (Err EXIST, h)
      end
  | RenameExchange dir from to =>
      match entries_of fs dir !! from, entries_of fs dir !! to with
      | Some i, Some j =>
          (Ok tt, set_files (set_entries dir (<[to := i]> (<[from := j]> (entries_of fs dir))) fs) h)
      | _, _ => (Err NOENT, h)
      end
  | Unlinkat dir name =>
      match entries_of fs dir !! name with
      | Some _ => (Ok tt, set_files (set_entries dir (delete name (entries_of fs dir)) fs) h)
      | None => (Err NOENT, h)
      end
  | Rmdirat dir name =>
      match entries_of fs dir !! name with
      | Some _ => (Ok tt, set_files (set_entries dir (delete name (entries_of fs dir)) fs) h)
      | None => (Err NOENT, h)
      end
  | ReadDirectory dir => (Ok (map_to_list (entries_of fs dir)).*1, h)
  | LockExclusive dir => (Ok tt, h)
  | EpochNanos => (Ok 1700000000, h)
  | ProcessId => (4242, h)
  | NextCounter => (counter h, {| files := fs; paths := paths h; counter := counter h + 1 |})
  end.

(** A state root with the journal directory in it. *)
Definition example_host : Host :=
  {| files := <[1 := {| metadata := new_metadata 1 16832;
                        body := DirBody {[ "execution-storage"%string := 2 ]} [] |}]>
              {[ 2 := {| metadata := new_metadata 2 16832; body := DirBody ∅ [] |} ]};
     paths := [("/state", 1); ("/state/execution-storage", 2)]%string;
     counter := 0 |}.

Definition example_pin (path : string) (i : Z) : PinnedDirectory :=
  pin path i (new_metadata i 16832).

Definition example_journals : JournalStore :=
  {| JournalStore.directory := "/state/execution-storage";
     JournalStore.state_root := example_pin "/state" 1;
     JournalStore.journal_directory := example_pin "/state/execution-storage" 2 |}.

Definition example_labels : OwnershipLabels :=
  {| OwnershipLabels.execution_id := "exec-1"; OwnershipLabels.worker_id := "worker-1";
     OwnershipLabels.repository := "acme/app"; OwnershipLabels.issue := None |}.

Definition example_layout : ExecutionLayout :=
  match ExecutionLayout.new "/state" "exec-1" with
  | Ok layout => layout
  | Err _ => ExecutionLayout.Build_ExecutionLayout "" "" "" "" "" "" "" ""
  end.

Definition example_journal (token : string) : PhaseJournal :=
  PhaseJournal.allocating example_labels 1073741824 (ExecutionLayout.root example_layout)
    "lvm" "key" "pool" token.
