(* ===== verification/RecordUpdates.v ===== *)
(** * Atomic updates of the record directories

    The operations of [MetadataStore.v] against [RecordAtomicity.v]: each
    updates the map of records in one step, in every run and across every power
    loss, and reads return what the map holds. *)

From Stdlib Require Import Ascii.
From S2P Require Import Prelude Core Lifecycle Effects StorageModel FileSystem Pinned MetadataStore RecordAtomicity StorageCodec.
















(** ** Calls that change nothing *)
Definition reads {B} (c : sys B) : bool :=
  match c with
  | Creatat _ _ | Mkdirat _ _ | WriteAll _ _ | Fchmod _ _ | Fsync _ | FsyncDirectory _
  | RenameNoreplace _ _ _ | RenameExchange _ _ _ | Unlinkat _ _ | Rmdirat _ _ => false
  | _ => true
  end.

Lemma reads_sem {B} (c : sys B) fs b fs' : reads c = true -> sem B c fs b fs' -> fs' = fs.
Proof. destruct c; simpl; naive_solver. Qed.

Fixpoint inert {A} (p : proc sys A) : Prop :=
  match p with
  | Ret _ => True
  | Req c k => reads c = true /\ forall b, inert (k b)
  end.

Lemma inert_bind {A B} (p : proc sys A) (f : A -> proc sys B) :
  inert p -> (forall a, inert (f a)) -> inert (p ≫= f).
Proof.
  induction p as [a|D c k IH]; simpl; intros Hp Hf; [apply Hf|].
  destruct Hp as [Hc Hk]. split; [done|]. intros b. by apply IH.
Qed.

Lemma inert_io_bind {A B} (m : fsio A) (f : A -> fsio B) :
  inert m -> (forall a, inert (f a)) -> inert (m ≫= f).
Proof. intros Hm Hf. apply inert_bind; [done|]. by intros [a|e]. Qed.

Lemma inert_outcome_of {A} (m : fsio A) : inert m -> inert (outcome_of m).
Proof. intros Hm. by apply inert_bind. Qed.

Create HintDb inert.
#[export] Hint Resolve inert_outcome_of : inert.

(** Walks down a program of reads. *)
Ltac inert :=
  repeat match goal with
  | |- inert (Ret _) => exact I
  | |- inert (mret _) => exact I
  | |- inert (throw _) => exact I
  | |- inert (ret_result _) => exact I
  | |- inert (guard_or _ _) => exact I
  | |- inert (some_or _ _) => exact I
  | |- inert (ask _) => split; [reflexivity|intros; exact I]
  | |- inert (ask_or _ _) => split; [reflexivity|intros; exact I]
  | |- inert (match ?x with _ => _ end) => destruct x
  | |- inert (if ?x then _ else _) => destruct x
  | |- inert (let '(_, _) := ?x in _) => destruct x
  | |- inert (_ ≫= _) => apply inert_io_bind
  | |- forall _, _ => intro
  | |- _ => solve [auto with inert nocore]
  end.

Lemma inert_epoch_nanos : inert epoch_nanos.
Proof. unfold epoch_nanos. inert. Qed.
#[export] Hint Resolve inert_epoch_nanos : inert.

Lemma inert_lock d : inert (lock d).
Proof. unfold lock. inert. Qed.
Lemma inert_verify d purpose : inert (verify d purpose).
Proof. unfold verify. inert. Qed.
Lemma inert_child_path d name : inert (child_path d name).
Proof. unfold child_path. inert. Qed.
#[export] Hint Resolve inert_lock inert_verify inert_child_path : inert.

Lemma inert_child_metadata d name : inert (child_metadata d name).
Proof. unfold child_metadata. inert. Qed.
#[export] Hint Resolve inert_child_metadata : inert.

Lemma inert_verify_child_identity d name expected : inert (verify_child_identity d name expected).
Proof. unfold verify_child_identity. inert. Qed.
Lemma inert_open_file d name : inert (open_file d name).
Proof. unfold open_file, open_file_with. inert. Qed.
Lemma inert_verify_directories self : inert (JournalStore.verify_directories self).
Proof. unfold JournalStore.verify_directories. inert. Qed.
#[export] Hint Resolve inert_verify_child_identity inert_open_file inert_verify_directories : inert.

(** ** Rules *)
Section Rules.
Context (I : FileSystem -> Prop).
Local Notation hoare := (hoare_crash sem I).

Lemma hoare_inert {A} (p : proc sys A) Q fs :
  inert p -> I fs -> (forall a, Q a fs) -> hoare p Q fs.
Proof.
  revert fs. induction p as [a|B c k IH]; simpl; intros fs Hp Hi HQ.
  - by apply hoare_ret.
  - destruct Hp as [Hc Hk]. apply hoare_req. intros b fs2 Hs.
    apply reads_sem in Hs as ->; [|done]. split; [done|]. by apply IH.
Qed.

(** A step of reads whose error is returned. *)
Lemma hoare_step {A B} (m : fsio A) (f : A -> fsio B) Q fs :
  inert m -> I fs -> (forall e, Q (Err e) fs) -> (forall a, hoare (f a) Q fs) ->
  hoare (m ≫= f) Q fs.
Proof. intros Hm Hi He Ha. apply hoare_io_bind, hoare_inert; [done..|]. by intros [a|e]. Qed.

Lemma hoare_attempts {A} n (f : fsio (option A)) (P : FileSystem -> Prop) Q fs :
  (forall fs, P fs -> hoare f (fun r fs' => match r with
                                            | Ok (Some a) => Q (Ok (Some a)) fs'
                                            | Ok None => P fs'
                                            | Err e => Q (Err e) fs'
                                            end) fs) ->
  (forall fs, P fs -> Q (Ok None) fs) -> P fs -> hoare (attempts n f) Q fs.
Proof.
  intros Hf Hn. revert fs. induction n as [|n IH]; intros fs HP; simpl.
  - apply hoare_ret. auto.
  - apply hoare_io_bind. eapply hoare_mono; [by apply Hf|].
    intros [[a|]|e] fs'; simpl; [|by apply IH|done]. intros HQ. by apply hoare_ret.
Qed.

Lemma hoare_ask_or {A F} (c : sys (result F A)) g Q fs :
  (forall r fs', sem _ c fs r fs' -> I fs' /\ Q (map_err g r) fs') ->
  hoare (ask_or c g : fsio A) Q fs.
Proof.
  intros Hc. apply hoare_req. intros r fs' Hs. destruct (Hc r fs' Hs). split; [done|].
  by apply hoare_ret.
Qed.

Lemma hoare_ask {A} (c : sys A) (Q : result StorageError A -> FileSystem -> Prop) fs :
  (forall a fs', sem _ c fs a fs' -> I fs' /\ Q (Ok a) fs') -> hoare (ask c) Q fs.
Proof.
  intros Hc. apply hoare_req. intros r fs' Hs. destruct (Hc r fs' Hs). split; [done|].
  by apply hoare_ret.
Qed.

(** A child reported as missing is missing. *)
Lemma hoare_child_metadata d name (Q : result StorageError (option Metadata) -> FileSystem -> Prop) fs :
  I fs -> (forall e, Q (Err e) fs) ->
  (entries_of fs (PinnedDirectory.handle d) !! name = None -> Q (Ok None) fs) ->
  (forall m, Q (Ok (Some m)) fs) -> hoare (child_metadata d name) Q fs.
Proof.
  intros Hi He Hnone Hsome. unfold child_metadata.
  apply hoare_step; [inert|done..|]. intros p. apply hoare_io_bind, hoare_ask.
  intros [m|e] fs' [-> Hs]; (split; [done|]).
  - destruct (Metadata.file_type m); try by apply hoare_ret.
    all: do 3 (apply hoare_step; [inert|done..|intros]); by apply hoare_ret.
  - destruct e; apply hoare_ret; auto.
Qed.

Lemma hoare_temporary_name operation (Q : result StorageError string -> FileSystem -> Prop) fs :
  operation <> EmptyString -> I fs -> (forall e, Q (Err e) fs) ->
  (forall t, is_temporary t = true -> Q (Ok t) fs) -> hoare (temporary_name operation) Q fs.
Proof.
  intros Hop Hi He Ht. unfold temporary_name.
  apply hoare_step; [inert|done..|]. intros epoch.
  apply hoare_step; [inert|done..|]. intros process.
  apply hoare_step; [inert|done..|]. intros counter.
  apply hoare_ret, Ht. by apply is_temporary_format.
Qed.
End Rules.

(** ** The pieces of an update *)
Section Pieces.
Context (d : PinnedDirectory).
Local Notation dir := (PinnedDirectory.handle d).
Context (I : FileSystem -> Prop) (cur all : gmap string string -> Prop).
Hypothesis cur_all : forall M, cur M -> all M.
Hypothesis states_I : forall fs, states dir cur all fs -> I fs.
Local Notation hoare := (hoare_crash sem I).
Local Notation states := (states dir cur all).
Local Notation staged := (staged dir).

Lemma hoare_create_temporary_file operation (Q : result StorageError (string * Descriptor) -> FileSystem -> Prop) fs :
  operation <> EmptyString -> states fs ->
  (forall e fs', states fs' -> Q (Err e) fs') ->
  (forall t fd fs', states fs' -> staged fs' t fd "" false -> Q (Ok (t, fd)) fs') ->
  hoare (create_temporary_file d operation) Q fs.
Proof.
  intros Hop Hst He Hok. unfold create_temporary_file. apply hoare_io_bind.
  apply hoare_attempts with (P := states); [|intros fs1 Hst1; apply hoare_ret; simpl; auto|done].
  intros fs1 Hst1. apply hoare_io_bind.
  apply hoare_temporary_name; [done|auto|auto|]. intros t Ht.
  apply hoare_step; [inert|auto|auto|]. intros p. apply hoare_io_bind, hoare_ask.
  intros [fd|e] fs' Hs; simpl in Hs.
  - destruct Hs as (_ & Hi & m & _ & _ & ->).
    destruct (states_creat dir cur all fs1 t fd m cur_all Ht Hi Hst1) as [Hst2 Hsg].
    split; [auto|]. apply hoare_ret. apply hoare_ret. simpl. by apply Hok.
  - subst. split; [auto|]. destruct e; apply hoare_ret; simpl; auto.
Qed.

Lemma hoare_remove_temporary t expected (Q : result StorageError unit -> FileSystem -> Prop) fs :
  is_temporary t = true -> states fs -> (forall r fs', states fs' -> Q r fs') ->
  hoare (remove_file_verified d t expected) Q fs.
Proof.
  intros Ht Hst HQ. unfold remove_file_verified, remove_file.
  apply hoare_step; [inert|auto|auto|]. intros _.
  apply hoare_step; [inert|auto|auto|]. intros p. apply hoare_ask_or.
  intros [u|e] fs' Hs; simpl in Hs.
  - destruct Hs as [_ ->]. assert (states (set_entries dir (delete t (entries_of fs dir)) fs))
      by by apply states_unlink. auto.
  - subst. auto.
Qed.

(** Writing more of a staged file. *)
Lemma hoare_write t fd data flushed bytes action path
    (Q : result StorageError unit -> FileSystem -> Prop) fs :
  states fs -> staged fs t fd data flushed ->
  (forall e fs', states fs' -> Q (Err e) fs') ->
  (forall fs', states fs' -> staged fs' t fd (data +:+ bytes) false -> Q (Ok tt) fs') ->
  hoare (ask_or (WriteAll fd bytes) (journal_error action path)) Q fs.
Proof.
  intros Hst Hsg He Hok. apply hoare_ask_or. intros [[]|e] fs' Hs; simpl in Hs.
  - destruct Hs as (data' & Hd & ->). assert (data' = data) as -> by (destruct Hsg; naive_solver).
    assert (states (set_data fd (data +:+ bytes) false fs)) by
      (apply states_set_data; [apply Hsg|done]).
    split; [auto|]. apply Hok; [done|]. by eapply staged_set_data.
  - assert (states fs') by (destruct Hs as [->|[data' ->]]; [done|];
      apply states_set_data; [apply Hsg|done]).
    split; [auto|]. by apply He.
Qed.

Lemma hoare_fsync t fd data flushed action path
    (Q : result StorageError unit -> FileSystem -> Prop) fs :
  states fs -> staged fs t fd data flushed ->
  (forall e fs', states fs' -> Q (Err e) fs') ->
  (forall fs', states fs' -> staged fs' t fd data true -> Q (Ok tt) fs') ->
  hoare (ask_or (Fsync fd) (journal_error action path)) Q fs.
Proof.
  intros Hst Hsg He Hok. apply hoare_ask_or. intros [[]|e] fs' Hs; simpl in Hs.
  - destruct Hsg as (Ht & Hl & Hd & Hf & Hu). rewrite Hd in Hs. subst fs'.
    assert (states (set_data fd data true fs)) by by apply states_set_data.
    split; [auto|]. apply Hok; [done|]. eapply staged_set_data. by split_and!.
  - subst. simpl. auto.
Qed.

Lemma hoare_sync (Q : result StorageError unit -> FileSystem -> Prop) fs :
  states fs -> (forall fs', RecordAtomicity.states dir cur cur fs' -> Q (Ok tt) fs') ->
  (forall e fs', states fs' -> Q (Err e) fs') -> hoare (sync d) Q fs.
Proof.
  intros Hst Hok He. apply hoare_ask_or. intros [[]|e] fs' Hs; simpl in Hs.
  - subst fs'. apply (states_forget dir cur all) in Hst. split; [|auto].
    apply states_I. by eapply states_mono; [| |exact Hst].
  - subst. simpl. auto.
Qed.
End Pieces.

(** ** Updates *)

(** In every run, at every point and after every power loss there, the
    directory holds [M] or [M']; after [Ok] it durably holds [M'].  [ok] is
    what [Ok] says about [M]. *)
Definition atomic_update (dir : Descriptor) (M M' : gmap string string) (ok : Prop)
    (p : fsio unit) : Prop :=
  forall fs tr r fs', stored dir M fs -> exec sem quiet p fs tr r fs' ->
    (shows fs' M (entries_of fs' dir) \/ shows fs' M' (entries_of fs' dir)) /\
    (forall fs'', power_loss fs' fs'' -> stored dir M fs'' \/ stored dir M' fs'') /\
    (r = Some (Ok tt) -> ok /\ stored dir M' fs').

Section Updates.
Context (d : PinnedDirectory) (M M' : gmap string string).
Local Notation dir := (PinnedDirectory.handle d).

Definition either (X : gmap string string) : Prop := M = X \/ M' = X.
Definition crash_ok : FileSystem -> Prop := states dir either either.

(** The update has happened but may not be durable yet. *)
Definition updated : FileSystem -> Prop := states dir (eq M') either.

Lemma stored_crash_ok fs : stored dir M fs -> crash_ok fs.
Proof. apply states_mono; intros; by left. Qed.
Lemma updated_crash_ok fs : updated fs -> crash_ok fs.
Proof. apply states_mono; [|done]. intros; by right. Qed.

Definition update_post (ok : Prop) (r : result StorageError unit) (fs : FileSystem) : Prop :=
  crash_ok fs /\ (r = Ok tt -> ok /\ stored dir M' fs).

Local Notation hoare := (hoare_crash sem crash_ok).

(** A power loss keeps one of the possible maps. *)
Lemma power_loss_entries fs fs' :
  is_directory fs dir -> power_loss fs fs' ->
  exists es, es ∈ possible fs dir /\ is_directory fs' dir /\ possible fs' dir = [es].
Proof.
  intros (m & es & past & Hd) Hp. specialize (Hp dir). rewrite Hd in Hp.
  destruct Hp as (n' & Hn' & _ & es' & Hin & Hb). exists es'. split_and!.
  - unfold possible, entries_of, past_of. by rewrite Hd.
  - destruct n' as [m' b']. simpl in Hb. subst. by eexists _, _, _.
  - destruct n' as [m' b']. simpl in Hb. subst. unfold possible, entries_of, past_of. by rewrite Hn'.
Qed.

Lemma power_loss_data fs fs' i data :
  power_loss fs fs' -> data_of fs i = Some data -> flushed_of fs i = true ->
  data_of fs' i = Some data /\ flushed_of fs' i = true.
Proof.
  intros Hp. specialize (Hp i). unfold data_of, flushed_of.
  destruct (fs !! i) as [[m [data' fl| |] ]|]; [|done..].
  intros [= ->] ->. destruct Hp as (n' & -> & _ & Hb). destruct n'; simpl in *. by subst.
Qed.

Lemma power_loss_no_data fs fs' i :
  power_loss fs fs' -> data_of fs i = None -> data_of fs' i = None.
Proof.
  intros Hp. specialize (Hp i). unfold data_of.
  destruct (fs !! i) as [[m [data' fl|es past|] ]|]; [done| | |].
  - destruct Hp as ([m' b'] & -> & _ & es' & _ & Hb). simpl in *. by subst.
  - destruct Hp as ([m' b'] & -> & _ & Hb). simpl in *. by subst.
  - by rewrite Hp.
Qed.

Lemma power_loss_shows fs fs' X es : power_loss fs fs' -> shows fs X es -> shows fs' X es.
Proof.
  intros Hp Hs name Hn. destruct (Hs name Hn) as [HX Hf].
  destruct (es !! name) as [i|] eqn:E; simpl in *; [|done].
  destruct (data_of fs i) as [data|] eqn:Hd.
  - destruct (power_loss_data fs fs' i data Hp Hd (Hf i data eq_refl Hd)) as [-> Hfl].
    split; [done|]. by intros i' data' [= <-].
  - rewrite (power_loss_no_data fs fs' i Hp Hd). split; [done|].
    intros i' data' [= <-]. by rewrite (power_loss_no_data fs fs' i Hp Hd).
Qed.

Lemma crash_ok_power_loss fs fs' :
  crash_ok fs -> power_loss fs fs' -> stored dir M fs' \/ stored dir M' fs'.
Proof.
  intros (Hd & Hc & _ & Hall) Hp. destruct (power_loss_entries fs fs' Hd Hp) as (es & Hin & Hd' & Hpo).
  assert (forall X, shows fs X es -> stored dir X fs') as HX.
  { intros X HX. apply (power_loss_shows fs fs' X es Hp) in HX.
    assert (entries_of fs' dir = es) as He by (unfold possible in Hpo; congruence).
    split_and!.
    - done.
    - intros es' name i. rewrite Hpo, list_elem_of_singleton. intros -> Hl.
      destruct (Hc es name i Hin Hl) as [n Hn]. specialize (Hp i). rewrite Hn in Hp.
      destruct Hp as (n' & -> & _). eauto.
    - rewrite He. eauto.
    - intros es'. rewrite Hpo, list_elem_of_singleton. intros ->. eauto. }
  destruct (Hall es Hin) as (X & [<-|<-] & Hs); auto.
Qed.

Lemma atomic_update_intro ok p :
  (forall fs, stored dir M fs -> hoare p (update_post ok) fs) -> atomic_update dir M M' ok p.
Proof.
  intros Hp fs tr r fs' Hst He.
  destruct (hoare_exec sem crash_ok p (update_post ok) fs tr r fs' He) as [Hi HQ];
    [by apply stored_crash_ok|by apply Hp|].
  split_and!.
  - destruct Hi as (_ & _ & (X & [<-|<-] & Hs) & _); auto.
  - intros fs''. by apply crash_ok_power_loss.
  - intros ->. by apply (HQ _ eq_refl).
Qed.

Lemma post_err_stored ok e fs : stored dir M fs -> update_post ok (Err e) fs.
Proof. intros Hst. split; [by apply stored_crash_ok|done]. Qed.
Lemma post_err_updated ok e fs : updated fs -> update_post ok (Err e) fs.
Proof. intros Hst. split; [by apply updated_crash_ok|done]. Qed.

(** The end of every update: unlink the temporary name, if there is one, and
    sync the directory. *)
Lemma hoare_finish ok fs : (ok : Prop) -> updated fs -> hoare (sync d) (update_post ok) fs.
Proof.
  intros Hok Hup.
  eapply (hoare_sync d crash_ok (eq M') either); [|exact updated_crash_ok|done| |].
  - intros X <-. by right.
  - intros fs' Hs. split; [|done]. eapply states_mono; [| |exact Hs]; intros X <-; by right.
  - intros e fs' Hs. by apply post_err_updated.
Qed.

Lemma hoare_unlink_then t expected ok (tail : fsio unit) fs :
  is_temporary t = true -> updated fs ->
  (forall fs', updated fs' -> hoare tail (update_post ok) fs') ->
  hoare (_ ← remove_file_verified d t expected; tail) (update_post ok) fs.
Proof.
  intros Ht Hup Htail. apply hoare_io_bind.
  eapply (hoare_remove_temporary d crash_ok (eq M') either); [|exact updated_crash_ok|done..|].
  - intros X <-. by right.
  - intros [[]|e] fs' Hs; [by apply Htail|by apply post_err_updated].
Qed.

(** Giving up: the temporary file is removed, the error returned. *)
Lemma hoare_give_up_stored t expected error ok fs :
  is_temporary t = true -> stored dir M fs ->
  hoare (_ ← outcome_of (remove_file_verified d t expected); throw error) (update_post ok) fs.
Proof.
  intros Ht Hst. apply hoare_io_bind, hoare_outcome_of.
  eapply (hoare_remove_temporary d crash_ok (eq M) (eq M)); [done|exact stored_crash_ok|done..|].
  intros r fs' Hs. apply hoare_ret. by apply post_err_stored.
Qed.

Lemma hoare_give_up_updated t expected error ok fs :
  is_temporary t = true -> updated fs ->
  hoare (_ ← outcome_of (remove_file_verified d t expected); throw error) (update_post ok) fs.
Proof.
  intros Ht Hst. apply hoare_io_bind, hoare_outcome_of.
  eapply (hoare_remove_temporary d crash_ok (eq M') either); [|exact updated_crash_ok|done..|].
  - intros X <-. by right.
  - intros r fs' Hs. apply hoare_ret. by apply post_err_updated.
Qed.
End Updates.

(** ** Publishing and retiring a record *)
Section Publish.
Context (d : PinnedDirectory) (M : gmap string string) (name : string).
Local Notation dir := (PinnedDirectory.handle d).
Hypothesis record_name : is_temporary name = false.

Lemma temporary_ne t : is_temporary t = true -> t <> name.
Proof. congruence. Qed.

Lemma updated_set_entries M' fs es :
  stored dir M fs -> shows fs M' es ->
  (forall n i, es !! n = Some i -> exists n', entries_of fs dir !! n' = Some i) ->
  updated d M M' (set_entries dir es fs).
Proof.
  intros Hst Hs Hes. eapply states_mono; [| |eapply (states_set_entries dir (eq M) (eq M) (eq M'))].
  - done.
  - intros X [<-|<-]; [by right|by left].
  - done.
  - done.
  - eauto.
Qed.

Lemma stored_shows fs : stored dir M fs -> shows fs M (entries_of fs dir).
Proof. by intros (_ & _ & (X & <- & Hs) & _). Qed.

(** *** A new record *)
Section Insert.
Context (bytes : string).
Local Notation M' := (<[name := bytes]> M).
Local Notation hoare := (hoare_crash sem (crash_ok d M M')).

Lemma hoare_commit t fd expected (Q : result StorageError unit -> FileSystem -> Prop) fs :
  stored dir M fs -> staged dir fs t fd bytes true ->
  (forall e fs', stored dir M fs' \/ updated d M M' fs' -> Q (Err e) fs') ->
  (forall fs', M !! name = None -> updated d M M' fs' -> Q (Ok tt) fs') ->
  hoare (commit_noreplace_verified d t name expected) Q fs.
Proof.
  intros Hst Hsg He Hok. assert (crash_ok d M M' fs) by by apply stored_crash_ok.
  unfold commit_noreplace_verified.
  do 5 (apply hoare_step; [inert|done|auto|intros]).
  apply hoare_io_bind. unfold rename_noreplace.
  do 2 (apply hoare_step; [inert|done|auto|intros]).
  apply hoare_ask_or. intros [[]|e] fs' Hs; simpl in Hs.
  - destruct Hs as (i & Ht & Hn & ->).
    assert (i = fd) as -> by (destruct Hsg as (_ & ? & _); congruence).
    assert (t <> name) by apply temporary_ne, Hsg.
    assert (updated d M M'
      (set_entries dir (<[name := fd]> (delete t (entries_of fs dir))) fs)) as Hup.
    { apply updated_set_entries; [done| |].
      - eapply shows_publish; [done|by apply stored_shows|by rewrite lookup_insert_eq|].
        intros n Hnt Hne. rewrite lookup_insert_ne, lookup_delete_ne; [done| |done].
        intros ->. destruct Hsg. congruence.
      - intros n i. rewrite lookup_insert_Some, lookup_delete_Some. naive_solver. }
    assert (M !! name = None) as HM.
    { destruct (stored_shows fs Hst name record_name) as [<- _]. by rewrite Hn. }
    split; [by apply updated_crash_ok|]. apply hoare_inert; [inert|by apply updated_crash_ok|].
    intros [[]|e]; auto.
  - subst. simpl. auto.
Qed.

Lemma hoare_publish t fd temporary_identity (tail : fsio unit) fs :
  stored dir M fs -> staged dir fs t fd bytes true ->
  (forall fs', M !! name = None -> updated d M M' fs' ->
     hoare tail (update_post d M M' (M !! name = None)) fs') ->
  hoare (committed ← outcome_of (commit_noreplace_verified d t name temporary_identity);
         match committed with
         | Err error =>
             _ ← outcome_of (remove_file_verified d t temporary_identity);
             throw error
         | Ok _ => tail
         end) (update_post d M M' (M !! name = None)) fs.
Proof.
  intros Hst Hsg Htail. apply hoare_io_bind, hoare_outcome_of. assert (is_temporary t = true) by apply Hsg.
  eapply hoare_commit; [done..| |done].
  intros e fs' [Hs|Hu]; [by apply hoare_give_up_stored|by apply hoare_give_up_updated].
Qed.

(** *** A new version of a record *)
Lemma hoare_exchange t fd expected_replacement expected_target
    (Q : result StorageError unit -> FileSystem -> Prop) fs :
  stored dir M fs -> staged dir fs t fd bytes true ->
  (forall e fs', stored dir M fs' \/ updated d M M' fs' -> Q (Err e) fs') ->
  (forall fs', updated d M M' fs' -> Q (Ok tt) fs') ->
  hoare (exchange_verified d t name expected_replacement expected_target) Q fs.
Proof.
  intros Hst Hsg He Hok. assert (crash_ok d M M' fs) by by apply stored_crash_ok.
  unfold exchange_verified.
  do 4 (apply hoare_step; [inert|done|auto|intros]).
  apply hoare_io_bind, hoare_ask_or. intros [[]|e] fs' Hs; simpl in Hs.
  - destruct Hs as (i & j & Ht & Hn & ->).
    assert (i = fd) as -> by (destruct Hsg as (_ & ? & _); congruence).
    assert (t <> name) by apply temporary_ne, Hsg.
    assert (updated d M M'
      (set_entries dir (<[name := fd]> (<[t := j]> (entries_of fs dir))) fs)) as Hup.
    { apply updated_set_entries; [done| |].
      - eapply shows_publish; [done|by apply stored_shows|by rewrite lookup_insert_eq|].
        intros n Hnt Hne. rewrite !lookup_insert_ne; [done| |done].
        intros ->. destruct Hsg. congruence.
      - intros n i. rewrite !lookup_insert_Some. naive_solver. }
    split; [by apply updated_crash_ok|].
    apply hoare_inert; [inert|by apply updated_crash_ok|]. intros [[]|e]; auto.
  - subst. simpl. auto.
Qed.

Lemma hoare_exchange_publish t fd temporary_identity expected (tail : fsio unit) fs :
  stored dir M fs -> staged dir fs t fd bytes true ->
  (forall fs', updated d M M' fs' -> hoare tail (update_post d M M' True) fs') ->
  hoare (exchanged ← outcome_of (exchange_verified d t name temporary_identity expected);
         match exchanged with
         | Err error =>
             _ ← outcome_of (remove_file_verified d t temporary_identity);
             throw error
         | Ok _ => tail
         end) (update_post d M M' True) fs.
Proof.
  intros Hst Hsg Htail. apply hoare_io_bind, hoare_outcome_of. assert (is_temporary t = true) by apply Hsg.
  eapply hoare_exchange; [done..| |done].
  intros e fs' [Hs|Hu]; [by apply hoare_give_up_stored|by apply hoare_give_up_updated].
Qed.
End Insert.

(** *** The end of a record *)
Local Notation hoare := (hoare_crash sem (crash_ok d M (delete name M))).

Lemma hoare_retire operation expected (Q : result StorageError string -> FileSystem -> Prop) fs :
  operation <> EmptyString -> stored dir M fs ->
  (forall e fs', stored dir M fs' \/ updated d M (delete name M) fs' -> Q (Err e) fs') ->
  (forall t fs', is_temporary t = true -> updated d M (delete name M) fs' -> Q (Ok t) fs') ->
  hoare (rename_verified d name operation expected) Q fs.
Proof.
  intros Hop Hst He Hok. assert (crash_ok d M (delete name M) fs) by by apply stored_crash_ok.
  unfold rename_verified. apply hoare_step; [inert|done|auto|intros _].
  apply hoare_io_bind, hoare_attempts with (P := stored dir M);
    [|intros fs1 Hs1; apply hoare_ret; simpl; auto|done].
  intros fs1 Hst1. assert (crash_ok d M (delete name M) fs1) by by apply stored_crash_ok.
  apply hoare_io_bind, hoare_temporary_name; [done|done|auto|]. intros t Ht.
  apply hoare_step; [inert|done|auto|intros p]. apply hoare_io_bind, hoare_ask.
  intros [[]|e] fs' Hs; simpl in Hs.
  - destruct Hs as (i & Hn & Htn & ->). assert (t <> name) by by apply temporary_ne.
    assert (updated d M (delete name M)
      (set_entries dir (<[t := i]> (delete name (entries_of fs1 dir))) fs1)) as Hup.
    { apply updated_set_entries; [done| |].
      - eapply shows_remove; [by apply stored_shows| |].
        + by rewrite lookup_insert_ne, lookup_delete_eq.
        + intros n Hnt Hne. rewrite lookup_insert_ne, lookup_delete_ne; [done|done|].
          intros ->. congruence.
      - intros n j. rewrite lookup_insert_Some, lookup_delete_Some. naive_solver. }
    split; [by apply updated_crash_ok|].
    apply hoare_step; [inert|by apply updated_crash_ok|auto|intros _].
    apply hoare_ret. apply hoare_ret. simpl. auto.
  - subst. split; [done|]. destruct e; apply hoare_ret; simpl; auto.
Qed.
End Publish.

(** ** Writing the bytes *)
Section Write.
Context (d : PinnedDirectory) (I : FileSystem -> Prop) (M : gmap string string).
Local Notation dir := (PinnedDirectory.handle d).
Hypothesis stored_I : forall fs, stored dir M fs -> I fs.

(** What a writer of [bytes] to a new file promises. *)
Definition writes (write : Descriptor -> string -> fsio unit) (bytes : string) : Prop :=
  forall t fd path (Q : result StorageError unit -> FileSystem -> Prop) fs,
    stored dir M fs -> staged dir fs t fd "" false ->
    (forall e fs', stored dir M fs' -> Q (Err e) fs') ->
    (forall fs', stored dir M fs' -> staged dir fs' t fd bytes true -> Q (Ok tt) fs') ->
    hoare_crash sem I (write fd path) Q fs.

Lemma writes_bytes bytes : writes (fun fd path => write_bytes_and_sync fd bytes path) bytes.
Proof.
  intros t fd path Q fs Hst Hsg He Hok. unfold write_bytes_and_sync. apply hoare_io_bind.
  eapply (hoare_write d I (eq M) (eq M)); [done|done|done|exact He|].
  intros fs1 Hst1 Hsg1. by eapply (hoare_fsync d I (eq M) (eq M)).
Qed.

Lemma writes_journal `{Serde} journal :
  writes (fun fd path => JournalStore.write_and_sync fd journal path)
         (journal_to_json journal +:+ String "010" "").
Proof.
  intros t fd path Q fs Hst Hsg He Hok. unfold JournalStore.write_and_sync. apply hoare_io_bind.
  eapply (hoare_write d I (eq M) (eq M)); [done|done|done|exact He|].
  intros fs1 Hst1 Hsg1. apply hoare_io_bind.
  eapply (hoare_write d I (eq M) (eq M)); [done|done|done|exact He|].
  intros fs2 Hst2 Hsg2. by eapply (hoare_fsync d I (eq M) (eq M)).
Qed.
End Write.

(** ** The operations *)
Section Operations.
Context (d : PinnedDirectory) (M : gmap string string).
Local Notation dir := (PinnedDirectory.handle d).

(** A temporary file is created and written; [k] publishes it. *)
Lemma hoare_stage M' ok operation bytes write where_ (k : string -> Metadata -> fsio unit) fs :
  operation <> EmptyString -> stored dir M fs ->
  writes d (crash_ok d M M') M write bytes ->
  (forall t ti fd fs', stored dir M fs' -> staged dir fs' t fd bytes true ->
     hoare_crash sem (crash_ok d M M') (k t ti) (update_post d M M' ok) fs') ->
  hoare_crash sem (crash_ok d M M')
    (staging ← create_temporary_file d operation;
     let '(temporary, file) := staging in
     temporary_identity ← ask_or (Fstat file) (journal_error "inspect" where_);
     temporary_path ← child_path d temporary;
     written ← outcome_of (write file temporary_path);
     match written with
     | Err error =>
         _ ← outcome_of (remove_file_verified d temporary temporary_identity);
         throw error
     | Ok _ => k temporary temporary_identity
     end) (update_post d M M' ok) fs.
Proof.
  intros Hop Hst Hw Hk. apply hoare_io_bind.
  eapply (hoare_create_temporary_file d _ (eq M) (eq M)); [done|exact (stored_crash_ok d M M')|done..| |].
  { intros e fs' Hs. by apply post_err_stored. }
  intros t fd fs1 Hst1 Hsg1. assert (crash_ok d M M' fs1) by by apply stored_crash_ok.
  assert (is_temporary t = true) as Ht by apply Hsg1.
  apply hoare_step; [inert|done|by intros; apply post_err_stored|]. intros ti.
  apply hoare_step; [inert|done|by intros; apply post_err_stored|]. intros tp.
  apply hoare_io_bind, hoare_outcome_of. eapply Hw; [done..| |].
  - intros e fs2 Hst2. by apply hoare_give_up_stored.
  - intros fs2 Hst2 Hsg2. by eapply Hk.
Qed.

Lemma prefixed_ne (a b : string) : a <> EmptyString -> (a +:+ b)%string <> EmptyString.
Proof. by destruct a. Qed.

(** The steps before an update; each may end it with an error. *)
Tactic Notation "guards" integer(n) :=
  do n (apply hoare_step;
        [solve [inert]|by apply stored_crash_ok|by intros; apply post_err_stored|intros ?]).

Lemma create_atomic name bytes :
  is_temporary name = false ->
  atomic_update dir M (<[name := bytes]> M) (M !! name = None) (create d name bytes).
Proof.
  intros Hn. apply atomic_update_intro. intros fs Hst. unfold create. guards 5.
  eapply hoare_stage; [by apply prefixed_ne|done|apply writes_bytes, stored_crash_ok|].
  intros t ti fd fs' Hst' Hsg. eapply hoare_publish; [done..|].
  intros fs2 HM Hup. by apply hoare_finish.
Qed.

Lemma replace_atomic name bytes :
  is_temporary name = false ->
  atomic_update dir M (<[name := bytes]> M) True (replace d name bytes).
Proof.
  intros Hn. apply atomic_update_intro. intros fs Hst. unfold replace. guards 5.
  eapply hoare_stage; [by apply prefixed_ne|done|apply writes_bytes, stored_crash_ok|].
  intros t ti fd fs' Hst' Hsg. eapply hoare_exchange_publish; [done..|].
  intros fs2 Hup. apply hoare_unlink_then; [apply Hsg|done|]. intros. by apply hoare_finish.
Qed.

Lemma remove_atomic name :
  is_temporary name = false ->
  atomic_update dir M (delete name M) True (remove d name).
Proof.
  intros Hn. apply atomic_update_intro. intros fs Hst. unfold remove. guards 3.
  apply hoare_io_bind, hoare_child_metadata;
    [by apply stored_crash_ok|by intros; apply post_err_stored| |].
  - intros Hnone. apply hoare_ret. split; [by apply stored_crash_ok|]. intros _. split; [done|].
    destruct (stored_shows d M fs Hst name Hn) as [HM _]. rewrite Hnone in HM.
    by rewrite delete_id.
  - intros m. guards 2. apply hoare_io_bind.
    eapply (hoare_retire d M); [done|by apply prefixed_ne|done| |].
    + intros e fs' [Hs|Hs]; [by apply post_err_stored|by apply post_err_updated].
    + intros t fs' Ht Hup. apply hoare_unlink_then; [done..|]. intros. by apply hoare_finish.
Qed.

(** *** The journal store *)
Section Journals.
Context `{Serde} (self : JournalStore).
Hypothesis self_directory : JournalStore.journal_directory self = d.

Lemma hoare_then_verify M' ok (p : fsio unit) fs :
  hoare_crash sem (crash_ok d M M') p (update_post d M M' ok) fs ->
  hoare_crash sem (crash_ok d M M') (_ ← p; JournalStore.verify_directories self)
    (update_post d M M' ok) fs.
Proof.
  intros Hp. apply hoare_io_bind. eapply hoare_mono; [exact Hp|].
  intros [[]|e] fs' [Hc Hok]; [|by split].
  apply hoare_inert; [inert|done|]. intros [[]|e]; split; auto.
Qed.

Lemma journal_name_ne layout name :
  journal_name layout = Ok name -> name <> EmptyString.
Proof.
  unfold journal_name. destruct (file_name _) as [n|] eqn:E; [|done]. intros [= ->].
  unfold file_name in E. destruct (last _) as [m|] eqn:El; [|done].
  assert (m = name) as -> by (revert E; case_match; congruence).
  apply last_Some_elem_of in El. unfold components in El. simpl in El.
  destruct (split "/" (ExecutionLayout.journal layout)) as [|f rest]; [set_solver|].
  apply elem_of_app in El as [El|El].
  - destruct f; simpl in El; [set_solver|]. apply list_elem_of_singleton in El as ->. done.
  - apply elem_of_filter_bool in El as [_ Hf]. by destruct name.
Qed.

Lemma journal_create_atomic layout journal name :
  journal_name layout = Ok name -> is_temporary name = false ->
  atomic_update dir M (<[name := journal_to_json journal +:+ String "010" ""]> M) (M !! name = None)
    (JournalStore.create self layout journal).
Proof.
  intros Hname Hn. apply atomic_update_intro. intros fs Hst. unfold JournalStore.create.
  rewrite self_directory, Hname. unfold JournalStore.validate_path. guards 4. apply hoare_ok_bind. guards 2.
  eapply hoare_stage; [by eapply journal_name_ne|done|apply writes_journal, stored_crash_ok|].
  intros t ti fd fs' Hst' Hsg. eapply hoare_publish; [done..|].
  intros fs2 HM Hup. by apply hoare_then_verify, hoare_finish.
Qed.

Lemma journal_write_atomic layout journal name :
  journal_name layout = Ok name -> is_temporary name = false ->
  atomic_update dir M (<[name := journal_to_json journal +:+ String "010" ""]> M) True
    (JournalStore.write self layout journal).
Proof.
  intros Hname Hn. apply atomic_update_intro. intros fs Hst. unfold JournalStore.write.
  rewrite self_directory, Hname. unfold JournalStore.validate_path. guards 4. apply hoare_ok_bind. guards 2.
  eapply hoare_stage; [by eapply journal_name_ne|done|apply writes_journal, stored_crash_ok|].
  intros t ti fd fs' Hst' Hsg. eapply hoare_exchange_publish; [done..|].
  intros fs2 Hup. apply hoare_unlink_then; [apply Hsg|done|].
  intros. by apply hoare_then_verify, hoare_finish.
Qed.

Lemma journal_remove_atomic layout name :
  journal_name layout = Ok name -> is_temporary name = false ->
  atomic_update dir M (delete name M) True (JournalStore.remove self layout).
Proof.
  intros Hname Hn. apply atomic_update_intro. intros fs Hst. unfold JournalStore.remove.
  rewrite self_directory, Hname. unfold JournalStore.validate_path. guards 3. apply hoare_ok_bind. guards 2.
  apply hoare_io_bind.
  eapply (hoare_retire d M); [done|by apply prefixed_ne|done| |].
  - intros e fs' [Hs|Hs]; [by apply post_err_stored|by apply post_err_updated].
  - intros t fs' Ht Hup. apply hoare_unlink_then; [done..|].
    intros. by apply hoare_then_verify, hoare_finish.
Qed.
End Journals.
End Operations.

(** ** Reads *)

(** A run of [p] changes nothing, and an [Ok] satisfies [ok]. *)
Definition pure_read {A} (p : fsio A) (fs : FileSystem) (ok : A -> Prop) : Prop :=
  forall tr r fs', exec sem quiet p fs tr r fs' -> fs' = fs /\ forall a, r = Some (Ok a) -> ok a.

Section Reads.
Context (d : PinnedDirectory) (fs : FileSystem).
Local Notation dir := (PinnedDirectory.handle d).
Local Notation hoare := (hoare_crash sem (eq fs)).

Lemma pure_read_intro {A} (p : fsio A) (ok : A -> Prop) :
  hoare p (fun r _ => forall a, r = Ok a -> ok a) fs -> pure_read p fs ok.
Proof.
  intros Hp tr r fs' He. destruct (hoare_exec sem (eq fs) p _ fs tr r fs' He eq_refl Hp) as [<- HQ].
  split; [done|]. intros a Ha. by eapply HQ.
Qed.

Lemma hoare_open_file name (Q : result StorageError Descriptor -> FileSystem -> Prop) :
  (forall e, Q (Err e) fs) ->
  (forall file, entries_of fs dir !! name = Some file -> Q (Ok file) fs) ->
  hoare (open_file d name) Q fs.
Proof.
  intros He Hok. unfold open_file, open_file_with.
  apply hoare_step; [inert|done..|]. intros p. apply hoare_io_bind.
  apply hoare_step; [inert|done..|]. intros p'. apply hoare_ask_or.
  intros [file|e] fs' [-> Hs]; (split; [done|]); cbn [map_err]; [|done].
  destruct Hs as [Hs _].
  apply hoare_step; [inert|done..|]. intros m.
  apply hoare_step; [inert|done..|]. intros _. by apply hoare_ret, Hok.
Qed.

Lemma hoare_read_to_end file where_ action
    (Q : result StorageError string -> FileSystem -> Prop) :
  (forall e, Q (Err e) fs) -> (forall bytes, data_of fs file = Some bytes -> Q (Ok bytes) fs) ->
  hoare (ask_or (ReadToEnd file) (journal_error action where_)) Q fs.
Proof.
  intros He Hok. apply hoare_ask_or. intros [bytes|e] fs' [-> Hs]; simpl; auto.
Qed.

Context (M : gmap string string).
Hypothesis shown : shows fs M (entries_of fs dir).

Lemma shown_lookup name file bytes :
  is_temporary name = false -> entries_of fs dir !! name = Some file ->
  data_of fs file = Some bytes -> M !! name = Some bytes.
Proof. intros Hn Hf Hd. destruct (shown name Hn) as [<- _]. by rewrite Hf. Qed.

Lemma read_returns name :
  is_temporary name = false -> pure_read (MetadataStore.read d name) fs (fun o => o = M !! name).
Proof.
  intros Hn. apply pure_read_intro. unfold MetadataStore.read.
  do 2 (apply hoare_step; [inert|done..|intros _]).
  apply hoare_io_bind, hoare_child_metadata; [done..| |].
  - intros Hnone. apply hoare_ret. intros o [= <-]. destruct (shown name Hn) as [<- _].
    by rewrite Hnone.
  - intros m. apply hoare_io_bind, hoare_open_file; [done|]. intros file Hf.
    apply hoare_io_bind, hoare_read_to_end; [done|]. intros bytes Hb.
    apply hoare_step; [inert|done..|]. intros _. apply hoare_ret. intros o [= <-].
    symmetry. by eapply shown_lookup.
Qed.

Lemma journal_read_returns `{Serde} self layout name :
  JournalStore.journal_directory self = d -> journal_name layout = Ok name ->
  is_temporary name = false ->
  pure_read (JournalStore.read self layout) fs (fun j =>
    exists bytes, M !! name = Some bytes /\ journal_from_json bytes = Some j /\
                  PhaseJournal.validate j layout = Ok tt).
Proof.
  intros Hself Hname Hn. apply pure_read_intro. unfold JournalStore.read, JournalStore.validate_path.
  rewrite Hself, Hname. do 2 (apply hoare_step; [inert|done..|intros _]). apply hoare_ok_bind.
  apply hoare_io_bind, hoare_open_file; [done|]. intros file Hf.
  apply hoare_io_bind, hoare_read_to_end; [done|]. intros bytes Hb.
  destruct (journal_from_json bytes) as [j|] eqn:Hj; [|by apply hoare_io_bind, hoare_ret].
  apply hoare_ok_bind. destruct (PhaseJournal.validate j layout) as [[]|e] eqn:Hv;
    [|by apply hoare_io_bind, hoare_ret].
  apply hoare_ok_bind, hoare_ret. intros j' [= <-]. exists bytes.
  split; [by eapply shown_lookup|done].
Qed.
End Reads.

(** C22: The record stores refine a map of records.  In a directory that durably
    holds [M], every run of [create], [replace] and [remove] of
    [SecureMetadataDirectory] and of [create], [write] and [remove] of
    [JournalStore], cut short at any system call and with any of them failing,
    leaves a directory that shows the old map or the new one, and nothing in
    between survives a power loss at that point; when the operation returns
    [Ok] the new map is durable, and a create then had found no record.  A read
    changes nothing and returns the record the map has. *)
Theorem records_refine_map `{Serde} (d : PinnedDirectory) (self : JournalStore)
    (layout : ExecutionLayout) (name : string) (M : gmap string string)
    (bytes : string) (journal : PhaseJournal) :
  JournalStore.journal_directory self = d -> journal_name layout = Ok name ->
  is_temporary name = false ->
  let dir := PinnedDirectory.handle d in
  let line := (journal_to_json journal +:+ String "010" "")%string in
  (atomic_update dir M (<[name := bytes]> M) (M !! name = None) (MetadataStore.create d name bytes) /\
   atomic_update dir M (<[name := bytes]> M) True (MetadataStore.replace d name bytes) /\
   atomic_update dir M (delete name M) True (MetadataStore.remove d name)) /\
  (atomic_update dir M (<[name := line]> M) (M !! name = None)
     (JournalStore.create self layout journal) /\
   atomic_update dir M (<[name := line]> M) True (JournalStore.write self layout journal) /\
   atomic_update dir M (delete name M) True (JournalStore.remove self layout)) /\
  forall fs, shows fs M (entries_of fs dir) ->
    pure_read (MetadataStore.read d name) fs (fun o => o = M !! name) /\
    pure_read (JournalStore.read self layout) fs (fun j =>
      exists bytes, M !! name = Some bytes /\ journal_from_json bytes = Some j /\
                    PhaseJournal.validate j layout = Ok tt).
Proof.
  intros Hself Hname Hn dir line. split_and!.
  - by apply create_atomic.
  - by apply replace_atomic.
  - by apply remove_atomic.
  - by apply journal_create_atomic.
  - by apply journal_write_atomic.
  - by apply journal_remove_atomic.
  - intros fs Hs. split; [by apply read_returns|by apply (journal_read_returns d)].
Qed.

(** A journal is created, rewritten and read back in an empty directory. *)
Lemma records_refine_map_witness :
  (run ideal (_ ← JournalStore.create example_journals example_layout (example_journal "t1");
              _ ← JournalStore.write example_journals example_layout (example_journal "t2");
              JournalStore.read example_journals example_layout) example_host).1 =
    Ok (example_journal "t2") /\
  stored 2 ∅ (files example_host) /\
  atomic_update 2 ∅ (<["exec-1.json"%string := journal_to_json (example_journal "t1") +:+ String "010" ""]> ∅)
    ((∅ : gmap string string) !! "exec-1.json"%string = None)
    (JournalStore.create example_journals example_layout (example_journal "t1")).
Proof.
  split; [vm_compute; reflexivity|]. split.
  - assert (possible (files example_host) 2 = [∅]) as Hp by reflexivity.
    assert (shows (files example_host) ∅ ∅) as Hs
      by (intros name _; split; [done|]; intros i data; by rewrite lookup_empty).
    split_and!.
    + by eexists _, _, _.
    + intros es name i. rewrite Hp, list_elem_of_singleton. intros ->. by rewrite lookup_empty.
    + exists ∅. split; [done|exact Hs].
    + intros es. rewrite Hp, list_elem_of_singleton. intros ->. eauto.
  - exact (proj1 (proj1 (proj2 (records_refine_map (example_pin "/state/execution-storage" 2)
      example_journals example_layout "exec-1.json" ∅ "" (example_journal "t1")
      eq_refl eq_refl eq_refl)))).
Defined.

(** ** Hold names of two executions

    The name of a hold does not tell where the execution id ends: a hold of
    ["exec-1--b"] starts with the prefix of ["exec-1"], and the holds of
    ["exec-1"], of which there are none, cannot be listed.  The ids the
    controller allocates have no double hyphen (see [ApiIds.v]). *)
Definition other_hold : ExecutionLifecycleHold :=
  {| ExecutionLifecycleHold.labels :=
       {| OwnershipLabels.execution_id := "exec-1--b";
          OwnershipLabels.worker_id := OwnershipLabels.worker_id example_labels;
          OwnershipLabels.repository := OwnershipLabels.repository example_labels;
          OwnershipLabels.issue := OwnershipLabels.issue example_labels |};
     ExecutionLifecycleHold.hold_id := "h"; ExecutionLifecycleHold.container_id := "c";
     ExecutionLifecycleHold.session_id := "s"; ExecutionLifecycleHold.supervisor_token := "t";
     ExecutionLifecycleHold.pgid := None |}.

Example hold_listing_refused :
  (run ideal (HoldStore.list (example_pin "/state/execution-storage" 2) "exec-1") example_host).1 = Ok [] /\
  (run ideal (_ ← HoldStore.create (example_pin "/state/execution-storage" 2) other_hold;
              HoldStore.list (example_pin "/state/execution-storage" 2) "exec-1") example_host).1 =
    Err (mismatch "lifecycle hold execution changed").
Proof. split; vm_compute; reflexivity. Qed.
