(* ===== verification/StorageManager.v ===== *)
(** * The storage manager ([execution-storage/src/manager.rs])

    [ExecutionStorage] allocates a volume per execution and releases it, writing
    the phase journal ahead of every change of the volume so that an allocation
    or a release that was interrupted can be finished or undone.

    Its programs call the journal store, the tombstones and the lifecycle holds
    (each call is an operation of [MetadataStore.v], atomic by
    [RecordUpdates.v]), the directory of mountpoints, the volume backend and the
    Docker bind verifier.  [World] is what these calls act on; [world_sem] says
    what each may do, failures included. *)

From Stdlib Require Import Ascii.
From S2P Require Import Prelude Core Lifecycle Effects StorageModel FileSystem Pinned MetadataStore.

















(** ** Requests and capabilities *)
Module AllocationRequest.
Record AllocationRequest := { labels : OwnershipLabels; disk_gib : Z (* u64 *) }.
End AllocationRequest.
Abbreviation AllocationRequest := AllocationRequest.AllocationRequest.

Module BackendCapability.
Record BackendCapability := {
  backend : string;
  pool_identity : string;
  reservable_bytes : Z                (* u64 *)
}.
End BackendCapability.
Abbreviation BackendCapability := BackendCapability.BackendCapability.

Module DockerBindCapability.
Record DockerBindCapability := { daemon_id : string; verifier : string; method_version : string }.

Definition validate (c : DockerBindCapability) : result StorageError unit :=
  check (negb (str_is_empty (daemon_id c) || str_is_empty (verifier c) ||
               str_is_empty (method_version c)))
        (StorageError.Unavailable "Docker bind capability lacks daemon or verifier identity").
End DockerBindCapability.
Abbreviation DockerBindCapability := DockerBindCapability.DockerBindCapability.

Module StorageCapability.
Record StorageCapability := { backend : BackendCapability; docker_bind : DockerBindCapability }.
End StorageCapability.
Abbreviation StorageCapability := StorageCapability.StorageCapability.

(** ** Calls *)
Module Storage.
Inductive storage_call : Type -> Type :=
(* [JournalStore] *)
| JournalExists (layout : ExecutionLayout) : storage_call (result StorageError bool)
| JournalCreate (layout : ExecutionLayout) (j : PhaseJournal) : storage_call (result StorageError unit)
| JournalWrite (layout : ExecutionLayout) (j : PhaseJournal) : storage_call (result StorageError unit)
| JournalRead (layout : ExecutionLayout) : storage_call (result StorageError PhaseJournal)
| JournalRemove (layout : ExecutionLayout) : storage_call (result StorageError unit)
| JournalList (state_root : string) : storage_call (result StorageError (list PhaseJournal))
| EnsureReadyLease (layout : ExecutionLayout) : storage_call (result StorageError unit)
| OpenReadyLease (layout : ExecutionLayout) : storage_call (result StorageError unit)
| TryLockExclusive (layout : ExecutionLayout) : storage_call (result Errno unit)
| TryLockShared (layout : ExecutionLayout) : storage_call (result Errno unit)
(* [release_tombstones] and [lifecycle_holds] *)
| TombstoneRead (name : string) : storage_call (result StorageError (option string))
| TombstoneCreate (name bytes : string) : storage_call (result StorageError unit)
| TombstoneRemove (name : string) : storage_call (result StorageError unit)
| HoldsList (execution_id : ExecutionId) :
    storage_call (result StorageError (list ExecutionLifecycleHold))
(* the directory of mountpoints and what is mounted there *)
| VerifyExecutions (purpose : string) : storage_call (result StorageError unit)
| MountpointMetadata (name : string) : storage_call (result StorageError (option Metadata))
| PublishMountpoint (name : string) : storage_call (result StorageError unit)
| RemoveMountpoint (name : string) : storage_call (result StorageError unit)
| PathMetadata (path : string) : storage_call (result Errno Metadata)
| CaptureAndVerify (path purpose : string) : storage_call (result StorageError unit)
| VerifyPinned (path purpose : string) : storage_call (result StorageError unit)
| CaptureMounted (name : string) (device : Z) (purpose : string) :
    storage_call (result StorageError string)
| PublishDirectory (parent name operation purpose : string) :
    storage_call (result StorageError string)
(* [StorageBackend] *)
| Key (labels : OwnershipLabels) : storage_call string
| Probe (required_bytes : Z) : storage_call (result StorageError BackendCapability)
| Discover (layout : ExecutionLayout) (token : string) (reserved_bytes : Z) :
    storage_call (result StorageError (option BackendIdentity))
| Create (layout : ExecutionLayout) (labels : OwnershipLabels) (token : string)
    (reserved_bytes : Z) : storage_call (result StorageError BackendIdentity)
| Prepare (layout : ExecutionLayout) (identity : BackendIdentity) (reserved_bytes : Z) :
    storage_call (result StorageError BackendIdentity)
| Mount (layout : ExecutionLayout) (identity : BackendIdentity) (reserved_bytes : Z) :
    storage_call (result StorageError unit)
| State (layout : ExecutionLayout) (identity : BackendIdentity) (reserved_bytes : Z) :
    storage_call (result StorageError BackendState)
| Unmount (layout : ExecutionLayout) (identity : BackendIdentity) :
    storage_call (result StorageError unit)
| Remove (identity : BackendIdentity) : storage_call (result StorageError unit)
(* [DockerBindVerifier] *)
| CleanupDaemonId : storage_call string
| DockerProbe : storage_call (result StorageError DockerBindCapability)
| DockerVerify (path : string) : storage_call (result StorageError DockerBindProof)
(* [ownership_token()] *)
| NewToken : storage_call (result StorageError string).
End Storage.
Abbreviation storage_call := Storage.storage_call.
Abbreviation stio := (io storage_call StorageError).

(** A call under [?]. *)
Definition try_ {A} (c : storage_call (result StorageError A)) : stio A := Req c Ret.

(** ** The manager *)
Section Manager.
Context `{Serde} (state_root : string).

Definition mountpoint_name (layout : ExecutionLayout) : result StorageError string :=
  ok_or (file_name (ExecutionLayout.root layout))
    (StorageError.InvalidRequest ("execution mountpoint name is not UTF-8: " +:+
       ExecutionLayout.root layout)).

Definition release_tombstone_name (execution_id : ExecutionId) : result StorageError string :=
  if str_is_empty execution_id || contains "/" execution_id || contains ".." execution_id
  then Err (mismatch "release tombstone execution id is unsafe")
  else Ok (execution_id +:+ ".json")%string.

Definition path_is_exactly_absent (path : string) : stio bool :=
  r ← ask (Storage.PathMetadata path);
  match r with
  | Ok _ => mret false
  | Err NOENT => mret true
  | Err e => throw (mismatch ("cannot authenticate allocation path absence at " +:+ path +:+
                              ": " +:+ errno_text e))
  end.

Definition valid_prepared_transition (created prepared : BackendIdentity) : bool :=
  match created, prepared with
  | BackendIdentity.Apfs _ _ _ _ _ _, BackendIdentity.Apfs _ _ _ _ _ _ =>
      bool_decide (created = prepared)
  | BackendIdentity.Lvm group group_uuid volume volume_uuid filesystem token,
    BackendIdentity.Lvm group' group_uuid' volume' volume_uuid' filesystem' token' =>
      str_is_empty filesystem && negb (str_is_empty filesystem') &&
      bool_decide (group = group') && bool_decide (group_uuid = group_uuid') &&
      bool_decide (volume = volume') && bool_decide (volume_uuid = volume_uuid') &&
      bool_decide (token = token')
  | _, _ => false
  end.

Definition validate_backend_config (j : PhaseJournal) : stio unit :=
  configured ← try_ (Storage.Probe 0);
  key ← ask (Storage.Key (PhaseJournal.labels j));
  guard_or (bool_decide (PhaseJournal.backend_kind j = BackendCapability.backend configured) &&
            bool_decide (PhaseJournal.backend_key j = key) &&
            bool_decide (PhaseJournal.pool_identity j = BackendCapability.pool_identity configured))
    (mismatch "existing journal backend configuration or pool identity changed").

Definition is_real_directory (m : Metadata) : bool :=
  negb (Metadata.is_symlink m || negb (Metadata.is_dir m)).

Definition authenticate_cleanup_authority (layout : ExecutionLayout) (receipt : AllocationReceipt)
    (j : PhaseJournal) : stio BackendState :=
  _ ← ret_result (validate_receipt receipt (AllocationReceipt.labels receipt) layout);
  _ ← guard_or (match PhaseJournal.receipt j with
                | Some r => receipt_eqb r receipt
                | None => false
                end &&
                negb (bool_decide (PhaseJournal.phase j = AllocationPhase.Allocating)))
        (mismatch "cleanup receipt does not exactly match durable Ready/Releasing authority");
  _ ← validate_backend_config j;
  daemon ← ask Storage.CleanupDaemonId;
  _ ← guard_or (bool_decide (daemon = DockerBindProof.daemon_id (AllocationReceipt.docker_bind receipt)))
        (mismatch "Docker daemon identity differs from the durable bind proof");
  _ ← try_ (Storage.VerifyExecutions "executions directory");
  state ← try_ (Storage.State layout (AllocationReceipt.backend receipt)
                  (AllocationReceipt.reserved_bytes receipt));
  found ← ask (Storage.PathMetadata (ExecutionLayout.root layout));
  match found with
  | Ok metadata =>
      _ ← guard_or (is_real_directory metadata)
            (mismatch "cleanup allocation path is not a real directory");
      _ ← try_ (Storage.CaptureAndVerify (ExecutionLayout.root layout) "cleanup allocation");
      mret state
  | Err NOENT =>
      if bool_decide (state = BackendState.Absent) then mret state
      else throw (mismatch "cleanup allocation path disappeared while its backend remains")
  | Err e => throw (mismatch ("inspect cleanup allocation " +:+ ExecutionLayout.root layout +:+
                              ": " +:+ errno_text e))
  end.

Definition create_mountpoint (layout : ExecutionLayout) : stio unit :=
  _ ← try_ (Storage.VerifyExecutions "executions directory");
  _ ← guard_or (bool_decide (parent (ExecutionLayout.root layout) =
                             Some (components (join state_root "executions"))))
        (mismatch "execution mountpoint is outside the deterministic root");
  name ← ret_result (mountpoint_name layout);
  existing ← try_ (Storage.MountpointMetadata name);
  match existing with
  | Some _ => throw (mismatch ("execution mountpoint already exists: " +:+
                               ExecutionLayout.root layout))
  | None => try_ (Storage.PublishMountpoint name)
  end.

Definition remove_released_mountpoint (layout : ExecutionLayout) : stio unit :=
  _ ← try_ (Storage.VerifyExecutions "executions directory");
  name ← ret_result (mountpoint_name layout);
  existing ← try_ (Storage.MountpointMetadata name);
  match existing with
  | Some metadata =>
      if Metadata.is_dir metadata then try_ (Storage.RemoveMountpoint name)
      else throw (mismatch ("released mountpoint is not a real directory: " +:+
                            ExecutionLayout.root layout))
  | None => mret tt
  end.

(** The directories of the layout, published one by one in the mounted root. *)
Fixpoint publish_all (parent : string) (names : list string) : stio (list string) :=
  match names with
  | [] => mret []
  | name :: names =>
      p ← try_ (Storage.PublishDirectory parent name ("execution-layout-" +:+ name)
                  "execution layout directory");
      rest ← publish_all parent names;
      mret (p :: rest)
  end.

Definition create_layout_directories (layout : ExecutionLayout) (mounted_root : string) :
    stio (list string) :=
  _ ← try_ (Storage.VerifyPinned mounted_root "mounted execution filesystem");
  _ ← guard_or (path_eqb mounted_root (ExecutionLayout.root layout))
        (mismatch "mounted execution descriptor does not match the deterministic layout");
  pinned ← publish_all mounted_root ["repository"; "session"; "credentials"; "runtime"]%string;
  session ← some_or (List.find (fun p => path_eqb p (ExecutionLayout.session layout)) pinned)
              (mismatch "authenticated session directory is missing from the layout");
  conversation ← try_ (Storage.PublishDirectory session "conversation"
                         "execution-layout-conversation" "execution conversation directory");
  let pinned := pinned ++ [conversation] in
  _ ← each (fun p => try_ (Storage.VerifyPinned p "execution layout directory")) pinned;
  _ ← try_ (Storage.VerifyPinned mounted_root "mounted execution filesystem");
  mret pinned.

Definition journal_progress (layout : ExecutionLayout) (receipt : option AllocationReceipt)
    (phase : ReleasePhase) : stio unit :=
  match receipt with
  | Some receipt => try_ (Storage.JournalWrite layout (PhaseJournal.releasing receipt phase))
  | None => mret tt
  end.

(** The two steps of [cleanup_identity], each from the state the backend was
    last seen in to the state it is in then. *)
Definition cleanup_unmount (layout : ExecutionLayout) (identity : BackendIdentity)
    (reserved_bytes : Z) (receipt : option AllocationReceipt) (state : BackendState) :
    stio BackendState :=
  if bool_decide (state = BackendState.Mounted) then
    _ ← try_ (Storage.Unmount layout identity);
    state ← try_ (Storage.State layout identity reserved_bytes);
    _ ← guard_or (bool_decide (state = BackendState.Unmounted))
          (mismatch "backend remained mounted after exact unmount");
    _ ← journal_progress layout receipt ReleasePhase.Unmounted;
    mret state
  else mret state.

Definition cleanup_remove (layout : ExecutionLayout) (identity : BackendIdentity)
    (reserved_bytes : Z) (receipt : option AllocationReceipt) (state : BackendState) :
    stio BackendState :=
  if bool_decide (state = BackendState.Unmounted) then
    _ ← try_ (Storage.Remove identity);
    state ← try_ (Storage.State layout identity reserved_bytes);
    _ ← guard_or (bool_decide (state = BackendState.Absent))
          (mismatch "backend object remained after exact removal");
    _ ← journal_progress layout receipt ReleasePhase.ObjectAbsent;
    mret state
  else mret state.

Definition cleanup_identity (layout : ExecutionLayout) (identity : BackendIdentity)
    (reserved_bytes : Z) (receipt : option AllocationReceipt) : stio unit :=
  state ← try_ (Storage.State layout identity reserved_bytes);
  state ← cleanup_unmount layout identity reserved_bytes receipt state;
  state ← cleanup_remove layout identity reserved_bytes receipt state;
  _ ← guard_or (bool_decide (state = BackendState.Absent))
        (mismatch "backend cleanup reached an unknown state");
  _ ← remove_released_mountpoint layout;
  try_ (Storage.JournalRemove layout).

Definition recover_existing (layout : ExecutionLayout) (request : AllocationRequest) : stio unit :=
  j ← try_ (Storage.JournalRead layout);
  expected ← (if bool_decide (PhaseJournal.labels j = AllocationRequest.labels request)
              then bytes ← ret_result (disk_gib_to_bytes (AllocationRequest.disk_gib request));
                   mret (PhaseJournal.reserved_bytes j =? bytes)
              else mret false);
  _ ← guard_or expected (mismatch "existing journal belongs to a different allocation request");
  _ ← validate_backend_config j;
  match PhaseJournal.phase j with
  | AllocationPhase.Ready => throw (mismatch "execution storage is already allocated")
  | AllocationPhase.Releasing =>
      receipt ← some_or (PhaseJournal.receipt j) (mismatch "releasing journal lacks receipt");
      _ ← authenticate_cleanup_authority layout receipt j;
      cleanup_identity layout (AllocationReceipt.backend receipt)
        (AllocationReceipt.reserved_bytes receipt) (Some receipt)
  | AllocationPhase.Allocating =>
      identity ← match PhaseJournal.backend j with
                 | Some identity => mret (Some identity)
                 | None => try_ (Storage.Discover layout (PhaseJournal.ownership_token j)
                                   (PhaseJournal.reserved_bytes j))
                 end;
      match identity with
      | Some identity =>
          _ ← guard_or (bool_decide (identity_token identity = PhaseJournal.ownership_token j))
                (mismatch "discovered backend ownership token changed");
          _ ← (if bool_decide (PhaseJournal.backend j = None)
               then try_ (Storage.JournalWrite layout (PhaseJournal.with_backend_identity j identity))
               else mret tt);
          cleanup_identity layout identity (PhaseJournal.reserved_bytes j) None
      | None =>
          _ ← remove_released_mountpoint layout;
          try_ (Storage.JournalRemove layout)
      end
  end.

Definition rollback_cleanup (layout : ExecutionLayout) (j : PhaseJournal)
    (identity : option BackendIdentity) : stio unit :=
  identity ← match identity with
             | Some identity => mret (Some identity)
             | None => try_ (Storage.Discover layout (PhaseJournal.ownership_token j)
                               (PhaseJournal.reserved_bytes j))
             end;
  match identity with
  | Some identity =>
      _ ← guard_or (bool_decide (identity_token identity = PhaseJournal.ownership_token j))
            (mismatch "rollback discovery returned a foreign ownership token");
      _ ← try_ (Storage.JournalWrite layout (PhaseJournal.with_backend_identity j identity));
      cleanup_identity layout identity (PhaseJournal.reserved_bytes j) None
  | None =>
      _ ← remove_released_mountpoint layout;
      try_ (Storage.JournalRemove layout)
  end.

(** Always an error: the cause, with the failure of the rollback if it failed. *)
Definition rollback_allocation {A} (layout : ExecutionLayout) (j : PhaseJournal)
    (identity : option BackendIdentity) (cause : StorageError) : stio A :=
  cleanup ← outcome_of (rollback_cleanup layout j identity);
  match cleanup with
  | Ok _ => throw cause
  | Err cleanup => throw (StorageError.Cleanup ("allocation failed: " +:+
      StorageError.to_string cause +:+ "; rollback failed: " +:+ StorageError.to_string cleanup))
  end.

Definition probe (disk_gib : Z) : stio StorageCapability :=
  bytes ← ret_result (disk_gib_to_bytes disk_gib);
  backend ← try_ (Storage.Probe bytes);
  docker ← outcome_of (try_ Storage.DockerProbe);
  docker ← ret_result (map_err (fun e => StorageError.DockerCapability (StorageError.to_string e))
                         docker);
  _ ← ret_result (map_err (fun e => StorageError.DockerCapability (StorageError.to_string e))
                    (DockerBindCapability.validate docker));
  mret {| StorageCapability.backend := backend; StorageCapability.docker_bind := docker |}.

(** [?] inside [allocate] once the journal exists: the error is rolled back. *)
Definition or_rollback {A B} (m : stio A) (layout : ExecutionLayout) (j : PhaseJournal)
    (identity : option BackendIdentity) (k : A -> stio B) : stio B :=
  r ← outcome_of m;
  match r with
  | Ok a => k a
  | Err error => rollback_allocation layout j identity error
  end.

Definition require_mounted (layout : ExecutionLayout) (identity : BackendIdentity)
    (reserved_bytes : Z) : stio unit :=
  state ← try_ (Storage.State layout identity reserved_bytes);
  guard_or (bool_decide (state = BackendState.Mounted)) (mismatch "prepared backend is not mounted").

(** The closure at the end of [allocate]: from a mounted volume to a Ready
    journal. *)
Definition publish_ready (layout : ExecutionLayout) (request : AllocationRequest)
    (capability : StorageCapability) (identity : BackendIdentity) (reserved_bytes : Z) :
    stio AllocationReceipt :=
  _ ← require_mounted layout identity reserved_bytes;
  name ← ret_result (mountpoint_name layout);
  mounted_metadata ← ask_or (Storage.PathMetadata (ExecutionLayout.root layout))
                       (fun e => mismatch (errno_text e));
  _ ← guard_or (is_real_directory mounted_metadata)
        (mismatch "mounted execution filesystem is not a real directory");
  mounted_root ← try_ (Storage.CaptureMounted name (Metadata.dev mounted_metadata)
                         "mounted execution filesystem");
  _ ← try_ (Storage.VerifyPinned mounted_root "mounted execution filesystem");
  _ ← require_mounted layout identity reserved_bytes;
  _ ← try_ (Storage.VerifyPinned mounted_root
              "mounted execution filesystem before Docker bind proof");
  docker_bind ← try_ (Storage.DockerVerify (ExecutionLayout.root layout));
  _ ← try_ (Storage.VerifyPinned mounted_root
              "mounted execution filesystem after Docker bind proof");
  let expected := StorageCapability.docker_bind capability in
  _ ← guard_or (bool_decide (DockerBindProof.daemon_id docker_bind =
                             DockerBindCapability.daemon_id expected) &&
                bool_decide (DockerBindProof.verifier docker_bind =
                             DockerBindCapability.verifier expected) &&
                bool_decide (DockerBindProof.method_version docker_bind =
                             DockerBindCapability.method_version expected))
        (mismatch "Docker bind verifier contract changed after capability probe");
  layout_directories ← create_layout_directories layout mounted_root;
  key ← ask (Storage.Key (AllocationRequest.labels request));
  let receipt :=
    {| AllocationReceipt.api_version := ALLOCATION_API_VERSION;
       AllocationReceipt.labels := AllocationRequest.labels request;
       AllocationReceipt.reserved_bytes := reserved_bytes;
       AllocationReceipt.mount_path := ExecutionLayout.root layout;
       AllocationReceipt.backend_kind :=
         BackendCapability.backend (StorageCapability.backend capability);
       AllocationReceipt.backend_key := key;
       AllocationReceipt.pool_identity :=
         BackendCapability.pool_identity (StorageCapability.backend capability);
       AllocationReceipt.backend := identity;
       AllocationReceipt.docker_bind := docker_bind |} in
  _ ← ret_result (validate_receipt receipt (AllocationRequest.labels request) layout);
  _ ← each (fun p => try_ (Storage.VerifyPinned p "execution layout directory before Ready"))
        layout_directories;
  _ ← try_ (Storage.VerifyPinned mounted_root "mounted execution filesystem before Ready");
  _ ← try_ (Storage.EnsureReadyLease layout);
  _ ← try_ (Storage.JournalWrite layout (PhaseJournal.ready receipt));
  mret receipt.

(** [allocate] once the [Allocating] journal is written. *)
Definition allocate_volume (layout : ExecutionLayout) (request : AllocationRequest)
    (capability : StorageCapability) (reserved_bytes : Z) (allocating : PhaseJournal)
    (token : string) : stio AllocationReceipt :=
  or_rollback (try_ (Storage.Create layout (AllocationRequest.labels request) token reserved_bytes))
    layout allocating None (fun created_identity =>
  or_rollback (guard_or (bool_decide (identity_token created_identity = token))
      (mismatch "created backend ownership token differs from the journal"))
    layout allocating (Some created_identity) (fun _ =>
  or_rollback (try_ (Storage.JournalWrite layout
      (PhaseJournal.with_backend_identity allocating created_identity)))
    layout allocating (Some created_identity) (fun _ =>
  or_rollback (try_ (Storage.Prepare layout created_identity reserved_bytes))
    layout allocating (Some created_identity) (fun prepared_identity =>
  or_rollback (guard_or (valid_prepared_transition created_identity prepared_identity)
      (mismatch "prepared backend identity changed outside the filesystem UUID transition"))
    layout allocating (Some prepared_identity) (fun _ =>
  let prepared_journal := PhaseJournal.with_backend_identity allocating prepared_identity in
  or_rollback (try_ (Storage.JournalWrite layout prepared_journal))
    layout allocating (Some prepared_identity) (fun _ =>
  or_rollback (try_ (Storage.VerifyPinned (ExecutionLayout.root layout)
      "execution mountpoint before backend mount"))
    layout prepared_journal (Some prepared_identity) (fun _ =>
  or_rollback (try_ (Storage.Mount layout prepared_identity reserved_bytes))
    layout prepared_journal (Some prepared_identity) (fun _ =>
  or_rollback (publish_ready layout request capability prepared_identity reserved_bytes)
    layout prepared_journal (Some prepared_identity) (fun receipt => mret receipt))))))))).

Definition allocate (request : AllocationRequest) : stio AllocationReceipt :=
  reserved_bytes ← ret_result (disk_gib_to_bytes (AllocationRequest.disk_gib request));
  let labels := AllocationRequest.labels request in
  layout ← ret_result (ExecutionLayout.new state_root (OwnershipLabels.execution_id labels));
  tombstone_name ← ret_result (release_tombstone_name (OwnershipLabels.execution_id labels));
  tombstone ← try_ (Storage.TombstoneRead tombstone_name);
  _ ← guard_or (bool_decide (tombstone = None)) (StorageError.Unavailable
        "prior physical release is awaiting durable acknowledgment");
  existing ← try_ (Storage.JournalExists layout);
  _ ← (if (existing : bool) then recover_existing layout request else mret tt);
  capability ← probe (AllocationRequest.disk_gib request);
  _ ← guard_or (negb (BackendCapability.reservable_bytes (StorageCapability.backend capability) <?
                      reserved_bytes))
        (StorageError.Unavailable ("backend can reserve " +:+
           decimal (BackendCapability.reservable_bytes (StorageCapability.backend capability)) +:+
           " bytes, need " +:+ decimal reserved_bytes));
  _ ← create_mountpoint layout;
  token ← try_ Storage.NewToken;
  key ← ask (Storage.Key labels);
  let allocating := PhaseJournal.allocating labels reserved_bytes (ExecutionLayout.root layout)
    (BackendCapability.backend (StorageCapability.backend capability)) key
    (BackendCapability.pool_identity (StorageCapability.backend capability)) token in
  journaled ← outcome_of (try_ (Storage.JournalCreate layout allocating));
  match journaled with
  | Err error =>
      _ ← outcome_of (remove_released_mountpoint layout);
      throw error
  | Ok _ => allocate_volume layout request capability reserved_bytes allocating token
  end.

(** Whether the tombstone lets [release] stop at once; a foreign tombstone is
    an error. *)
Definition already_released (layout : ExecutionLayout) (receipt : AllocationReceipt)
    (tombstone : option string) : stio bool :=
  match tombstone with
  | Some existing =>
      if negb (bool_decide (existing = receipt_to_json receipt))
      then throw (mismatch "release tombstone belongs to another allocation receipt")
      else
        absent ← path_is_exactly_absent (ExecutionLayout.root layout);
        if (absent : bool) then
          state ← try_ (Storage.State layout (AllocationReceipt.backend receipt)
                          (AllocationReceipt.reserved_bytes receipt));
          mret (bool_decide (state = BackendState.Absent))
        else mret false
  | None => mret false
  end.

Definition release_locked (layout : ExecutionLayout) (receipt : AllocationReceipt)
    (tombstone_name : string) (tombstone : option string) : stio unit :=
  j ← try_ (Storage.JournalRead layout);
  state ← authenticate_cleanup_authority layout receipt j;
  let ready := bool_decide (PhaseJournal.phase j = AllocationPhase.Ready) in
  _ ← guard_or (negb (ready && negb (bool_decide (state = BackendState.Mounted))))
        (mismatch "ready backend is not mounted");
  _ ← (if bool_decide (tombstone = None)
       then try_ (Storage.TombstoneCreate tombstone_name (receipt_to_json receipt))
       else mret tt);
  _ ← (if ready
       then try_ (Storage.JournalWrite layout (PhaseJournal.releasing receipt ReleasePhase.Mounted))
       else mret tt);
  cleanup_identity layout (AllocationReceipt.backend receipt)
    (AllocationReceipt.reserved_bytes receipt) (Some receipt).

Definition release (receipt : AllocationReceipt) : stio unit :=
  let execution_id := OwnershipLabels.execution_id (AllocationReceipt.labels receipt) in
  layout ← ret_result (ExecutionLayout.new state_root execution_id);
  tombstone_name ← ret_result (release_tombstone_name execution_id);
  tombstone ← try_ (Storage.TombstoneRead tombstone_name);
  finished ← already_released layout receipt tombstone;
  if (finished : bool) then mret tt
  else
    holds ← try_ (Storage.HoldsList execution_id);
    _ ← guard_or (match holds with [] => true | _ => false end)
          (StorageError.Unavailable "execution has an unresolved durable lifecycle hold");
    _ ← try_ (Storage.OpenReadyLease layout);
    _ ← ask_or (Storage.TryLockExclusive layout) (fun e => StorageError.Unavailable
          ("execution has an active Ready consumer lease: " +:+ errno_text e));
    release_locked layout receipt tombstone_name tombstone.

Definition ack_release (receipt : AllocationReceipt) : stio unit :=
  let execution_id := OwnershipLabels.execution_id (AllocationReceipt.labels receipt) in
  name ← ret_result (release_tombstone_name execution_id);
  actual ← try_ (Storage.TombstoneRead name);
  layout ← ret_result (ExecutionLayout.new state_root execution_id);
  finished ← match actual with
             | None =>
                 state ← try_ (Storage.State layout (AllocationReceipt.backend receipt)
                                 (AllocationReceipt.reserved_bytes receipt));
                 if bool_decide (state = BackendState.Absent)
                 then path_is_exactly_absent (ExecutionLayout.root layout)
                 else mret false
             | Some _ => mret false
             end;
  if (finished : bool) then mret tt
  else
    actual ← some_or actual (mismatch "release tombstone is absent");
    _ ← guard_or (bool_decide (actual = receipt_to_json receipt))
          (mismatch "release tombstone belongs to another allocation receipt");
    state ← try_ (Storage.State layout (AllocationReceipt.backend receipt)
                    (AllocationReceipt.reserved_bytes receipt));
    _ ← guard_or (bool_decide (state = BackendState.Absent))
          (mismatch "cannot acknowledge a release while its backend is present");
    absent ← path_is_exactly_absent (ExecutionLayout.root layout);
    _ ← guard_or absent
          (mismatch "cannot acknowledge a release while its allocation path is present");
    try_ (Storage.TombstoneRemove name).

Definition reconcile (live : list ExecutionId) : stio (list PhaseJournal) :=
  journals ← try_ (Storage.JournalList state_root);
  mret (List.filter (fun j => negb (bool_decide
    (OwnershipLabels.execution_id (PhaseJournal.labels j) ∈ live))) journals).

(** [verify_ready_allocation], up to the pin of the repository. *)
Definition verify_ready_allocation (receipt : AllocationReceipt) : stio unit :=
  layout ← ret_result (ExecutionLayout.new state_root
             (OwnershipLabels.execution_id (AllocationReceipt.labels receipt)));
  _ ← ret_result (validate_receipt receipt (AllocationReceipt.labels receipt) layout);
  j ← try_ (Storage.JournalRead layout);
  _ ← guard_or (bool_decide (PhaseJournal.phase j = AllocationPhase.Ready) &&
                match PhaseJournal.receipt j with
                | Some r => receipt_eqb r receipt
                | None => false
                end)
        (mismatch "allocation receipt does not exactly match a durable Ready journal");
  _ ← validate_backend_config j;
  state ← try_ (Storage.State layout (AllocationReceipt.backend receipt)
                  (AllocationReceipt.reserved_bytes receipt));
  _ ← guard_or (bool_decide (state = BackendState.Mounted)) (mismatch "ready backend is not mounted");
  current_bind ← try_ (Storage.DockerVerify (ExecutionLayout.root layout));
  _ ← guard_or (docker_bind_eqb current_bind (AllocationReceipt.docker_bind receipt))
        (mismatch "Docker bind proof changed since allocation");
  _ ← try_ (Storage.VerifyExecutions "executions directory");
  metadata ← ask_or (Storage.PathMetadata (ExecutionLayout.root layout)) (fun e =>
    StorageError.Journal ("inspect execution mountpoint " +:+ ExecutionLayout.root layout +:+ ": " +:+
      errno_text e));
  _ ← guard_or (is_real_directory metadata) (StorageError.Journal
        ("execution mountpoint is not a real directory: " +:+ ExecutionLayout.root layout));
  try_ (Storage.CaptureAndVerify (ExecutionLayout.root layout) "execution mountpoint").

Definition acquire_ready_lease (receipt : AllocationReceipt) : stio unit :=
  layout ← ret_result (ExecutionLayout.new state_root
             (OwnershipLabels.execution_id (AllocationReceipt.labels receipt)));
  _ ← try_ (Storage.OpenReadyLease layout);
  _ ← ask_or (Storage.TryLockShared layout) (fun e => StorageError.Unavailable
        ("execution Ready allocation is changing: " +:+ errno_text e));
  verify_ready_allocation receipt.
End Manager.
