(* ===== verification/StorageWorld.v ===== *)
(** * What the storage manager acts on

    The durable records, the mountpoints and the volumes, and what each call of
    the manager may do to them.  A record call is atomic
    ([RecordUpdates.records_refine_map]): it takes effect or not, it may fail
    after taking effect, and it succeeds only when it did.  The backend is the
    contract of [StorageBackend]: a volume belongs to the token it was created
    with, [state] and [discover] report the volume of the token they are asked
    about, and every operation may fail before or after its effect.  A backend
    may remove the mountpoint with the mount, as one of [tests/storage.rs] does;
    [keeping_sem] is a backend that leaves it in place.  A host that restarts has
    nothing mounted ([rebooted]). *)

From Stdlib Require Import Ascii.
From S2P Require Import Prelude Core Lifecycle Effects StorageModel FileSystem Pinned MetadataStore StorageManager.

















Module Volume.
Record Volume := { identity : BackendIdentity; mounted_at : option string }.
End Volume.
Abbreviation Volume := Volume.Volume.

Record World := {
  journals : gmap string PhaseJournal;     (* by file name *)
  tombstones : gmap string string;         (* by file name *)
  holds : list ExecutionLifecycleHold;
  leases : gset string;                    (* lease files *)
  shared_leases : gset string;             (* leases a consumer holds *)
  mountpoints : gmap string Metadata;      (* children of the executions directory *)
  volumes : gmap string Volume             (* by ownership token *)
}.

Definition set_journals (js : gmap string PhaseJournal) (w : World) : World :=
  {| journals := js; tombstones := tombstones w; holds := holds w; leases := leases w;
     shared_leases := shared_leases w; mountpoints := mountpoints w; volumes := volumes w |}.
Definition set_tombstones (ts : gmap string string) (w : World) : World :=
  {| journals := journals w; tombstones := ts; holds := holds w; leases := leases w;
     shared_leases := shared_leases w; mountpoints := mountpoints w; volumes := volumes w |}.
Definition set_leases (ls : gset string) (w : World) : World :=
  {| journals := journals w; tombstones := tombstones w; holds := holds w; leases := ls;
     shared_leases := shared_leases w; mountpoints := mountpoints w; volumes := volumes w |}.
Definition set_shared_leases (ls : gset string) (w : World) : World :=
  {| journals := journals w; tombstones := tombstones w; holds := holds w; leases := leases w;
     shared_leases := ls; mountpoints := mountpoints w; volumes := volumes w |}.
Definition set_mountpoints (ms : gmap string Metadata) (w : World) : World :=
  {| journals := journals w; tombstones := tombstones w; holds := holds w; leases := leases w;
     shared_leases := shared_leases w; mountpoints := ms; volumes := volumes w |}.
Definition set_volumes (vs : gmap string Volume) (w : World) : World :=
  {| journals := journals w; tombstones := tombstones w; holds := holds w; leases := leases w;
     shared_leases := shared_leases w; mountpoints := mountpoints w; volumes := vs |}.

(** The state of the volume of a token, seen from a layout. *)
Definition volume_state (w : World) (layout : ExecutionLayout) (token : string) : BackendState :=
  match volumes w !! token with
  | None => BackendState.Absent
  | Some v => match Volume.mounted_at v with
              | Some _ => BackendState.Mounted
              | None => BackendState.Unmounted
              end
  end.

Definition alter_volume (token : string) (f : Volume -> Volume) (w : World) : World :=
  set_volumes (alter f token (volumes w)) w.

Definition mounted (path : option string) (v : Volume) : Volume :=
  {| Volume.identity := Volume.identity v; Volume.mounted_at := path |}.
Definition identified (b : BackendIdentity) (v : Volume) : Volume :=
  {| Volume.identity := b; Volume.mounted_at := Volume.mounted_at v |}.

(** An update [w'] of [w] that returns [r]: done if [Ok], done or not if [Err]. *)
Definition update {A} (w w' : World) (ok : A -> Prop) (r : result StorageError A) (w1 : World) : Prop :=
  match r with
  | Ok a => ok a /\ w1 = w'
  | Err _ => w1 = w \/ w1 = w'
  end.

(** The record of a layout, when it has a valid name. *)
Definition journal_at (w : World) (layout : ExecutionLayout) : option PhaseJournal :=
  match journal_name layout with Ok name => journals w !! name | Err _ => None end.

Definition tell {A} (w : World) (ok : A -> Prop) (r : result StorageError A) (w1 : World) : Prop :=
  w1 = w /\ match r with Ok a => ok a | Err _ => True end.

(** The volume of a token is no longer mounted; unless the backend keeps its
    mountpoints, the one of the layout may have gone with it. *)
Definition unmounted (keeps : bool) (layout : ExecutionLayout) (token : string) (w w' : World) : Prop :=
  w' = alter_volume token (mounted None) w \/
  keeps = false /\ exists name, file_name (ExecutionLayout.root layout) = Some name /\
    w' = set_mountpoints (delete name (mountpoints w)) (alter_volume token (mounted None) w).

Definition rebooted (w w' : World) : Prop :=
  w' = set_shared_leases ∅ (set_volumes (mounted None <$> volumes w) w).

Import Storage.
Definition storage_sem (keeps : bool) (B : Type) (c : storage_call B) (w : World) : B -> World -> Prop :=
  match c in storage_call B return B -> World -> Prop with
  | JournalExists layout => tell w (fun b => b = bool_decide (is_Some (journal_at w layout)))
  | JournalCreate layout j => fun r w' =>
      match journal_name layout, PhaseJournal.validate j layout, journal_at w layout with
      | Ok name, Ok _, None =>
          update w (set_journals (<[name := j]> (journals w)) w) (fun _ => True) r w'
      | _, _, _ => w' = w /\ is_ok r = false
      end
  | JournalWrite layout j => fun r w' =>
      match journal_name layout, PhaseJournal.validate j layout, journal_at w layout with
      | Ok name, Ok _, Some _ =>
          update w (set_journals (<[name := j]> (journals w)) w) (fun _ => True) r w'
      | _, _, _ => w' = w /\ is_ok r = false
      end
  | JournalRead layout => tell w (fun j =>
      journal_at w layout = Some j /\ PhaseJournal.validate j layout = Ok tt)
  | JournalRemove layout => fun r w' =>
      match journal_name layout, journal_at w layout with
      | Ok name, Some _ =>
          update w (set_journals (delete name (journals w)) w) (fun _ => True) r w'
      | _, _ => w' = w /\ is_ok r = false
      end
  | JournalList _ => tell w (fun js =>
      forall j, j ∈ js <-> exists name, journals w !! name = Some j)
  | EnsureReadyLease layout => fun r w' =>
      match lease_name layout with
      | Ok name => update w (set_leases ({[ name ]} ∪ leases w) w) (fun _ => True) r w'
      | Err _ => w' = w /\ is_ok r = false
      end
  | OpenReadyLease layout => tell w (fun _ =>
      match lease_name layout with Ok name => name ∈ leases w | Err _ => False end)
  | TryLockExclusive layout => fun r w' => w' = w /\
      match r with
      | Ok _ => match lease_name layout with Ok name => name ∉ shared_leases w | Err _ => False end
      | Err _ => True
      end
  | TryLockShared layout => fun r w' =>
      match r, lease_name layout with
      | Ok _, Ok name => w' = set_shared_leases ({[ name ]} ∪ shared_leases w) w
      | Ok _, Err _ => False
      | Err _, _ => w' = w
      end
  | TombstoneRead name => tell w (fun o => o = tombstones w !! name)
  | TombstoneCreate name bytes => fun r w' =>
      match tombstones w !! name with
      | None => update w (set_tombstones (<[name := bytes]> (tombstones w)) w) (fun _ => True) r w'
      | Some _ => w' = w /\ is_ok r = false
      end
  | TombstoneRemove name => fun r w' =>
      update w (set_tombstones (delete name (tombstones w)) w) (fun _ => True) r w'
  | HoldsList id => tell w (fun hs => forall h, h ∈ hs <-> h ∈ holds w /\
      OwnershipLabels.execution_id (ExecutionLifecycleHold.labels h) = id)
  | MountpointMetadata name => tell w (fun o => o = mountpoints w !! name)
  | PublishMountpoint name => fun r w' =>
      match mountpoints w !! name with
      | None => exists m, Metadata.is_dir m = true /\
          update w (set_mountpoints (<[name := m]> (mountpoints w)) w) (fun _ => True) r w'
      | Some _ => w' = w /\ is_ok r = false
      end
  | RemoveMountpoint name => fun r w' =>
      match mountpoints w !! name with
      | Some _ => update w (set_mountpoints (delete name (mountpoints w)) w) (fun _ => True) r w'
      | None => w' = w /\ is_ok r = false
      end
  | PathMetadata path => fun r w' => w' = w /\
      match r, file_name path with
      | Ok m, Some name => mountpoints w !! name = Some m
      | Err NOENT, Some name => mountpoints w !! name = None
      | _, _ => True
      end
  | Discover layout token bytes => tell w (fun o =>
      match o with
      | Some b => identity_token b = token /\ is_Some (volumes w !! token)
      | None => volumes w !! token = None
      end)
  | Create layout labels token bytes => fun r w' =>
      match volumes w !! token with
      | None => exists b, identity_token b = token /\
          update w (set_volumes (<[token := {| Volume.identity := b; Volume.mounted_at := None |}]>
                                  (volumes w)) w) (fun b' => b' = b) r w'
      | Some _ => w' = w /\ is_ok r = false
      end
  | Prepare layout b bytes => fun r w' =>
      exists b', identity_token b' = identity_token b /\
      update w (alter_volume (identity_token b) (identified b') w)
        (fun b'' => b'' = b' /\ is_Some (volumes w !! identity_token b)) r w'
  | Mount layout b bytes => fun r w' =>
      update w (alter_volume (identity_token b) (mounted (Some (ExecutionLayout.root layout))) w)
        (fun _ => is_Some (volumes w !! identity_token b)) r w'
  | State layout b bytes => tell w (fun s => s = volume_state w layout (identity_token b))
  | Unmount layout b => fun r w' =>
      w' = w /\ is_ok r = false \/ unmounted keeps layout (identity_token b) w w'
  | Remove b => fun r w' =>
      update w (set_volumes (delete (identity_token b) (volumes w)) w) (fun _ => True) r w'
  | NewToken => tell w (fun _ => True)
  | _ => fun _ w' => w' = w
  end.
Abbreviation world_sem := (storage_sem false).
Abbreviation keeping_sem := (storage_sem true).

(** ** A host on which nothing fails

    Its configuration, and the answer it gives to every call. *)
Class StorageHost := {
  host_kind : string;
  host_pool : string;
  host_reservable : Z;
  host_key : OwnershipLabels -> string;
  host_docker : DockerBindCapability;
  host_bind : string -> DockerBindProof;
  host_token : World -> string;
  host_identity : string -> BackendIdentity;
  host_prepared : BackendIdentity -> BackendIdentity;
  host_directory : Metadata;
  host_removes_mountpoints : bool;
  host_identity_token t : identity_token (host_identity t) = t;
  host_prepared_token b : identity_token (host_prepared b) = identity_token b;
  host_directory_is_dir : Metadata.is_dir host_directory = true
}.

Section Steady.
Context `{StorageHost}.

Definition refused {A} (w : World) : result StorageError A * World :=
  (Err (StorageError.Journal "refused"), w).

Definition host_unmounted (layout : ExecutionLayout) (token : string) (w : World) : World :=
  let w1 := alter_volume token (mounted None) w in
  match file_name (ExecutionLayout.root layout) with
  | Some name => if host_removes_mountpoints then set_mountpoints (delete name (mountpoints w)) w1 else w1
  | None => w1
  end.

Definition steady (B : Type) (c : storage_call B) (w : World) : B * World :=
  match c in storage_call B return B * World with
  | JournalExists layout => (Ok (bool_decide (is_Some (journal_at w layout))), w)
  | JournalCreate layout j =>
      match journal_name layout, PhaseJournal.validate j layout, journal_at w layout with
      | Ok name, Ok _, None => (Ok tt, set_journals (<[name := j]> (journals w)) w)
      | _, _, _ => refused w
      end
  | JournalWrite layout j =>
      match journal_name layout, PhaseJournal.validate j layout, journal_at w layout with
      | Ok name, Ok _, Some _ => (Ok tt, set_journals (<[name := j]> (journals w)) w)
      | _, _, _ => refused w
      end
  | JournalRead layout =>
      match journal_at w layout with
      | Some j => match PhaseJournal.validate j layout with
                  | Ok _ => (Ok j, w)
                  | Err e => (Err e, w)
                  end
      | None => refused w
      end
  | JournalRemove layout =>
      match journal_name layout, journal_at w layout with
      | Ok name, Some _ => (Ok tt, set_journals (delete name (journals w)) w)
      | _, _ => refused w
      end
  | JournalList _ => (Ok (map_to_list (journals w)).*2, w)
  | EnsureReadyLease layout =>
      match lease_name layout with
      | Ok name => (Ok tt, set_leases ({[ name ]} ∪ leases w) w)
      | Err _ => refused w
      end
  | OpenReadyLease layout =>
      match lease_name layout with
      | Ok name => if bool_decide (name ∈ leases w) then (Ok tt, w) else refused w
      | Err _ => refused w
      end
  | TryLockExclusive layout =>
      match lease_name layout with
      | Ok name => if bool_decide (name ∈ shared_leases w)
                   then (Err (OtherErrno "Resource temporarily unavailable"), w) else (Ok tt, w)
      | Err _ => (Err NOENT, w)
      end
  | TryLockShared layout =>
      match lease_name layout with
      | Ok name => (Ok tt, set_shared_leases ({[ name ]} ∪ shared_leases w) w)
      | Err _ => (Err NOENT, w)
      end
  | TombstoneRead name => (Ok (tombstones w !! name), w)
  | TombstoneCreate name bytes =>
      match tombstones w !! name with
      | None => (Ok tt, set_tombstones (<[name := bytes]> (tombstones w)) w)
      | Some _ => refused w
      end
  | TombstoneRemove name => (Ok tt, set_tombstones (delete name (tombstones w)) w)
  | HoldsList id => (Ok (List.filter (fun h => bool_decide
      (OwnershipLabels.execution_id (ExecutionLifecycleHold.labels h) = id)) (holds w)), w)
  | VerifyExecutions _ => (Ok tt, w)
  | MountpointMetadata name => (Ok (mountpoints w !! name), w)
  | PublishMountpoint name =>
      match mountpoints w !! name with
      | None => (Ok tt, set_mountpoints (<[name := host_directory]> (mountpoints w)) w)
      | Some _ => refused w
      end
  | RemoveMountpoint name =>
      match mountpoints w !! name with
      | Some _ => (Ok tt, set_mountpoints (delete name (mountpoints w)) w)
      | None => refused w
      end
  | PathMetadata path =>
      (match file_name path with
       | Some name => ok_or (mountpoints w !! name) NOENT
       | None => Err (OtherErrno "no name")
       end, w)
  | CaptureAndVerify _ _ => (Ok tt, w)
  | VerifyPinned _ _ => (Ok tt, w)
  | CaptureMounted name _ _ =>
      (Ok (match find (fun v => bool_decide (is_Some (Volume.mounted_at v ≫= fun p =>
                            if bool_decide (file_name p = Some name) then Some p else None)))
                      (map_to_list (volumes w)).*2 with
           | Some v => default "" (Volume.mounted_at v)
           | None => ""
           end), w)
  | PublishDirectory parent name _ _ => (Ok (join parent name), w)
  | Key labels => (host_key labels, w)
  | Probe _ => (Ok {| BackendCapability.backend := host_kind;
                      BackendCapability.pool_identity := host_pool;
                      BackendCapability.reservable_bytes := host_reservable |}, w)
  | Discover _ token _ =>
      (Ok (match volumes w !! token with Some _ => Some (host_identity token) | None => None end), w)
  | Create _ _ token _ =>
      match volumes w !! token with
      | None => (Ok (host_identity token),
          set_volumes (<[token := {| Volume.identity := host_identity token;
                                     Volume.mounted_at := None |}]> (volumes w)) w)
      | Some _ => refused w
      end
  | Prepare _ b _ =>
      match volumes w !! identity_token b with
      | Some _ => (Ok (host_prepared b), alter_volume (identity_token b) (identified (host_prepared b)) w)
      | None => refused w
      end
  | Mount layout b _ =>
      match volumes w !! identity_token b with
      | Some _ => (Ok tt, alter_volume (identity_token b) (mounted (Some (ExecutionLayout.root layout))) w)
      | None => refused w
      end
  | State layout b _ => (Ok (volume_state w layout (identity_token b)), w)
  | Unmount layout b => (Ok tt, host_unmounted layout (identity_token b) w)
  | Remove b => (Ok tt, set_volumes (delete (identity_token b) (volumes w)) w)
  | CleanupDaemonId => (DockerBindCapability.daemon_id host_docker, w)
  | DockerProbe => (Ok host_docker, w)
  | DockerVerify path => (Ok (host_bind path), w)
  | NewToken => (Ok (host_token w), w)
  end.

(** It is one of the hosts of [world_sem]. *)
Lemma steady_sem B (c : storage_call B) w : world_sem B c w (steady B c w).1 (steady B c w).2.
Proof.
  destruct c; cbn -[host_unmounted unmounted]; unfold tell, refused; repeat case_match; simpl; simplify_eq; try done.
  - split; [done|]. repeat match goal with u : unit |- _ => destruct u end. naive_solver.
  - split; [done|]. intros j. rewrite list_elem_of_fmap. split.
    + intros ([n j'] & -> & Hin). apply elem_of_map_to_list in Hin. eauto.
    + intros [n Hn]. exists (n, j). by rewrite elem_of_map_to_list.
  - bools. done.
  - bools. done.
  - split; [done|]. intros h. rewrite elem_of_filter_bool, bool_decide_eq_true. tauto.
  - exists host_directory. split; [apply host_directory_is_dir|done].
  - split; [done|]. by apply ok_or_Ok in H0.
  - split; [done|]. by destruct (mountpoints w !! _).
  - split; [done|]. split; [apply host_identity_token|eauto].
  - exists (host_identity token). split; [apply host_identity_token|done].
  - exists (host_prepared identity). split; [apply host_prepared_token|]. split; [eauto|done].
  - eexists. split; [done|by left].
  - by left.
  - right. unfold host_unmounted, unmounted. destruct (file_name _) as [name|]; [|by left].
    destruct host_removes_mountpoints; [right; eauto|by left].
Qed.
End Steady.
