(* ===== verification/StorageSafety.v ===== *)
(** * No volume without its journal

    A volume is found again only through the journal that names its token, so
    the manager must never let a volume exist without one: not while it
    allocates or releases, not when a call fails, not when the process dies
    between two calls. *)

From Stdlib Require Import Ascii.
From S2P Require Import Prelude Core Lifecycle Effects StorageModel FileSystem Pinned MetadataStore StorageManager StorageWorld StorageCodec.

















(** ** The invariant *)

(** Every volume has a journal with its token. *)
Definition accounted (w : World) : Prop :=
  forall token v, volumes w !! token = Some v ->
    exists name j, journals w !! name = Some j /\ PhaseJournal.ownership_token j = token.

(** The journal of [layout] carries [token]. *)
Definition owns (layout : ExecutionLayout) (token : string) (w : World) : Prop :=
  accounted w /\ exists name j, journal_name layout = Ok name /\ journals w !! name = Some j /\
                                PhaseJournal.ownership_token j = token.

(** ... and its volume is gone. *)
Definition emptied (layout : ExecutionLayout) (token : string) (w : World) : Prop :=
  owns layout token w /\ volumes w !! token = None.

Import Storage.

Lemma update_cases {A} w w1 ok (r : result StorageError A) w' :
  update w w1 ok r w' -> w' = w \/ w' = w1.
Proof. unfold update. destruct r; naive_solver. Qed.

(** The world after a call: as it was, or with the call's effect. *)
Ltac world_cases H :=
  unfold tell in H; repeat case_match; destruct_and?;
  repeat match goal with
  | Hx : exists _, _ |- _ => destruct Hx as [? Hx]; destruct_and?
  end;
  try match goal with
  | Hx : update _ _ _ _ _ |- _ => apply update_cases in Hx as [Hx|Hx]
  | Hx : _ \/ unmounted _ _ _ _ _ |- _ => destruct Hx as [[Hx _]|[Hx|(_ & ? & ? & Hx)]]
  end;
  repeat match goal with
  | Hx : ?w' = _ |- _ => is_var w'; match type of w' with World => subst w' end
  end.

(** ** Calls that keep it

    Between its journal and its release a volume is only touched through calls
    for its own token. *)
Section Keeps.
Context (layout : ExecutionLayout) (token : string).

Definition keeps {B} (c : storage_call B) : Prop :=
  match c with
  | JournalWrite l j => l = layout /\ PhaseJournal.ownership_token j = token
  | Create _ _ t _ => t = token
  | JournalCreate _ _ | JournalRemove _ => False
  | _ => True
  end.

(** Calls that, besides, leave the volumes alone. *)
Definition leaves_volumes {B} (c : storage_call B) : Prop :=
  keeps c /\ match c with
             | Create _ _ _ _ | Prepare _ _ _ | Mount _ _ _ | Unmount _ _ | Remove _ => False
             | _ => True
             end.

(** Fewer volumes and the same journals. *)
Lemma owns_shrink (w w' : World) :
  journals w' = journals w ->
  (forall t v, volumes w' !! t = Some v -> is_Some (volumes w !! t)) ->
  owns layout token w -> owns layout token w'.
Proof.
  intros Hj Hv [Ha Ho]. split.
  - intros t v Ht. apply Hv in Ht as [v' Ht]. rewrite Hj. by eapply Ha.
  - by rewrite Hj.
Qed.

Lemma owns_write w name j :
  journal_name layout = Ok name -> PhaseJournal.ownership_token j = token ->
  owns layout token w -> owns layout token (set_journals (<[name := j]> (journals w)) w).
Proof.
  intros Hn Hj [Ha (name' & j' & Hn' & Hl & Ht)]. assert (name' = name) as -> by congruence. split.
  - intros t v Hv. destruct (Ha t v Hv) as (n & i & Hi & <-). simpl.
    destruct (decide (n = name)) as [->|Hne].
    + exists name, j. rewrite lookup_insert_eq. split; [done|]. congruence.
    + exists n, i. by rewrite lookup_insert_ne.
  - exists name, j. simpl. by rewrite lookup_insert_eq.
Qed.

Lemma owns_create w v :
  owns layout token w -> owns layout token (set_volumes (<[token := v]> (volumes w)) w).
Proof.
  intros [Ha (name & j & Hn & Hl & Ht)]. split.
  - intros t v'. simpl. rewrite lookup_insert_Some. intros [[<- _]|[_ Hv]]; [eauto|by eapply Ha].
  - eauto 6.
Qed.

Lemma alter_volume_shrink w t f t' v :
  volumes (alter_volume t f w) !! t' = Some v -> is_Some (volumes w !! t').
Proof. simpl. intros Hv. rewrite <- (lookup_alter_is_Some f _ t). eauto. Qed.

Lemma keeps_owns {B} (c : storage_call B) w b w' :
  keeps c -> world_sem B c w b w' -> owns layout token w -> owns layout token w'.
Proof.
  intros Hk Hs Ho. assert (forall w1, journals w1 = journals w -> volumes w1 = volumes w ->
    owns layout token w1) as Hsame.
  { intros w1 Hj Hv. apply (owns_shrink w); [done| |done]. rewrite Hv. eauto. }
  assert (forall t f, owns layout token (alter_volume t f w)) as Halter.
  { intros t f. apply (owns_shrink w); [done| |done]. intros t' v. apply alter_volume_shrink. }
  destruct c; simpl in Hk, Hs; try done; world_cases Hs; try done; try (by apply Hsame); try done.
  - apply owns_write; [congruence|done..].
  - rewrite Hk. by apply owns_create.
  - apply (owns_shrink w); [done| |done]. intros t v. apply alter_volume_shrink.
  - apply (owns_shrink w); [done| |done]. intros t v. simpl.
    rewrite lookup_delete_Some. intros [_ Hv]. eauto.
Qed.

Lemma leaves_volumes_eq {B} (c : storage_call B) w b w' :
  leaves_volumes c -> world_sem B c w b w' -> volumes w' = volumes w.
Proof.
  intros [Hk Hl] Hs. destruct c; simpl in Hk, Hl, Hs; try done; by world_cases Hs.
Qed.

(** ** Programs that keep it *)
Local Notation hoare := (hoare_crash world_sem accounted).

Lemma hoare_keeps {A} (p : proc storage_call A) Q w :
  all_calls (@keeps) p -> owns layout token w ->
  (forall a w', owns layout token w' -> Q a w') -> hoare p Q w.
Proof.
  revert w. induction p as [a|B c k IH]; simpl; intros w Hp Ho HQ.
  - apply hoare_ret. auto.
  - destruct Hp as [Hc Hk]. apply hoare_req. intros b w2 Hs.
    assert (owns layout token w2) as Ho2 by by eapply keeps_owns.
    split; [apply Ho2|]. by apply IH.
Qed.

Lemma hoare_emptied {A} (p : proc storage_call A) Q w :
  all_calls (@leaves_volumes) p -> emptied layout token w ->
  (forall a w', emptied layout token w' -> Q a w') -> hoare p Q w.
Proof.
  revert w. induction p as [a|B c k IH]; simpl; intros w Hp [Ho He] HQ.
  - apply hoare_ret, HQ. by split.
  - destruct Hp as [Hc Hk]. apply hoare_req. intros b w2 Hs.
    assert (owns layout token w2) as Ho2 by (eapply keeps_owns; [apply Hc|done..]).
    split; [apply Ho2|]. apply IH; [done| |done]. split; [done|].
    by rewrite (leaves_volumes_eq c w b w2 Hc Hs).
Qed.

(** A step that keeps the journal, whose error is returned. *)
Lemma hoare_keeps_step {A B} (m : stio A) (f : A -> stio B) Q w :
  all_calls (@keeps) m -> owns layout token w ->
  (forall e w', owns layout token w' -> Q (Err e) w') ->
  (forall a w', owns layout token w' -> hoare (f a) Q w') -> hoare (m ≫= f) Q w.
Proof.
  intros Hm Ho He Hf. apply hoare_io_bind, hoare_keeps; [done..|].
  intros [a|e] w' Ho'; auto.
Qed.

(** The journal may go once the volume is gone. *)
Lemma hoare_journal_remove Q w :
  emptied layout token w -> (forall r w', accounted w' -> Q r w') ->
  hoare (try_ (JournalRemove layout)) Q w.
Proof.
  intros [[Ha (name & j & Hn & Hl & Ht)] He] HQ. apply hoare_req. intros r w2 Hs. simpl in Hs.
  assert (accounted w2) as Ha2.
  { unfold journal_at, update in Hs. rewrite Hn, Hl in Hs.
    assert (accounted (set_journals (delete name (journals w)) w)).
    { intros t v Hv. destruct (Ha t v Hv) as (n & i & Hi & <-). exists n, i. simpl.
      split; [|done]. rewrite lookup_delete_ne; [done|]. intros ->. simpl in Hv. congruence. }
    repeat case_match; destruct_and?; destruct_or?; subst; done. }
  split; [done|]. apply hoare_ret. auto.
Qed.
End Keeps.

(** Walks down a program, call by call. *)
Ltac calls :=
  repeat match goal with
  | |- all_calls _ (Ret _) => exact I
  | |- all_calls _ (mret _) => exact I
  | |- all_calls _ (throw _) => exact I
  | |- all_calls _ (ret_result _) => exact I
  | |- all_calls _ (guard_or _ _) => exact I
  | |- all_calls _ (some_or _ _) => exact I
  | |- all_calls _ (ask _) => split; [by repeat split|intros; exact I]
  | |- all_calls _ (ask_or _ _) => split; [by repeat split|intros; exact I]
  | |- all_calls _ (try_ _) => split; [by repeat split|intros; exact I]
  | |- all_calls _ (match ?x with _ => _ end) => destruct x
  | |- all_calls _ (outcome_of _) => apply all_calls_outcome_of
  | |- all_calls _ (each _ _) => apply all_calls_each
  | |- all_calls _ (_ ≫= _) => apply all_calls_io_bind
  | |- forall _, _ => intro
  | |- _ => solve [auto with storage nocore]
  end.
Create HintDb storage.

(** ** Validity ties receipts to tokens *)
Lemma validate_token j layout r :
  PhaseJournal.validate j layout = Ok tt -> PhaseJournal.receipt j = Some r ->
  identity_token (AllocationReceipt.backend r) = PhaseJournal.ownership_token j.
Proof.
  unfold PhaseJournal.validate. rewrite check_bind_Ok, result_bind_Ok.
  intros [_ ([] & Hb & Hm)] Hr. rewrite Hr in Hm.
  destruct (PhaseJournal.phase j), (PhaseJournal.backend j) as [b|], (PhaseJournal.release_phase j);
    try done.
  all: case_bool_decide as Hbr; [|done]; subst b.
  all: rewrite result_bind_Ok in Hb; destruct Hb as (? & _ & Hb).
  all: by apply check_Ok, bool_decide_eq_true in Hb.
Qed.

Lemma receipt_eqb_backend a b :
  receipt_eqb a b = true -> AllocationReceipt.backend a = AllocationReceipt.backend b.
Proof. unfold receipt_eqb. rewrite !andb_true_iff, !bool_decide_eq_true. tauto. Qed.

Lemma valid_prepared_token created prepared :
  valid_prepared_transition created prepared = true ->
  identity_token prepared = identity_token created.
Proof.
  destruct created, prepared; simpl; rewrite ?andb_true_iff, ?bool_decide_eq_true; naive_solver.
Qed.

(** ** The operations *)
Section Operations.
Context `{Serde} (state_root : string).
Local Notation hoare := (hoare_crash world_sem accounted).

(** What the code last learned of the volume still holds. *)
Definition seen (token : string) (s : BackendState) (w : World) : Prop :=
  s = BackendState.Absent -> volumes w !! token = None.

Section ForLayout.
Context (layout : ExecutionLayout) (token : string).
Local Notation owns := (owns layout token).
Local Notation keeping := (all_calls (@keeps layout token)).

Lemma keeping_validate_backend_config j : keeping (validate_backend_config j).
Proof. unfold validate_backend_config. calls. Qed.
Lemma keeping_remove_released_mountpoint l :
  all_calls (@leaves_volumes layout token) (remove_released_mountpoint l).
Proof. unfold remove_released_mountpoint. calls. Qed.

Lemma leaves_keeps {A} (p : proc storage_call A) :
  all_calls (@leaves_volumes layout token) p -> keeping p.
Proof. induction p as [a|B c k IH]; simpl; [done|]. intros [[Hc _] Hk]. split; auto. Qed.

Lemma keeping_authenticate l r j : keeping (authenticate_cleanup_authority l r j).
Proof.
  unfold authenticate_cleanup_authority.
  repeat (apply all_calls_io_bind || intros); calls; apply keeping_validate_backend_config.
Qed.

Lemma hoare_state b bytes (Q : result StorageError BackendState -> World -> Prop) w :
  owns w -> identity_token b = token ->
  (forall e, Q (Err e) w) -> (forall s, seen token s w -> Q (Ok s) w) ->
  hoare (try_ (State layout b bytes)) Q w.
Proof.
  intros Ho Hb He Hs. apply hoare_req. intros r w2 [-> Hr]. split; [apply Ho|].
  apply hoare_ret. destruct r as [s|e]; [|done]. apply Hs. intros ->.
  unfold volume_state in Hr. rewrite Hb in Hr. destruct (volumes w !! token) as [v|]; [|done].
  by destruct (Volume.mounted_at v).
Qed.

(** A releasing journal keeps the token, and what is known of the volume. *)
Lemma hoare_journal_progress receipt phase s (Q : result StorageError unit -> World -> Prop) w :
  (forall r, receipt = Some r -> identity_token (AllocationReceipt.backend r) = token) ->
  owns w -> seen token s w ->
  (forall r w', owns w' -> seen token s w' -> Q r w') ->
  hoare (journal_progress layout receipt phase) Q w.
Proof.
  intros Hr Ho Hs HQ. destruct receipt as [r|]; simpl; [|apply hoare_ret; auto].
  apply hoare_req. intros b w2 Hsem.
  assert (leaves_volumes layout token (JournalWrite layout (PhaseJournal.releasing r phase))) as Hl.
  { split; [|done]. split; [done|]. simpl. by apply Hr. }
  assert (owns w2) as Ho2 by (eapply keeps_owns; [apply Hl|done..]).
  split; [apply Ho2|]. apply hoare_ret, HQ; [done|].
  unfold seen. by rewrite (leaves_volumes_eq _ _ _ _ _ _ Hl Hsem).
Qed.

Lemma hoare_cleanup_step (c : storage_call (result StorageError unit)) b bytes receipt phase wanted message
    (Q : result StorageError BackendState -> World -> Prop) w :
  keeps layout token c -> identity_token b = token ->
  (forall r, receipt = Some r -> identity_token (AllocationReceipt.backend r) = token) ->
  owns w ->
  (forall e w', owns w' -> Q (Err e) w') ->
  (forall s w', owns w' -> seen token s w' -> Q (Ok s) w') ->
  hoare (_ ← try_ c;
         state ← try_ (State layout b bytes);
         _ ← guard_or (bool_decide (state = wanted)) (mismatch message);
         _ ← journal_progress layout receipt phase;
         mret state) Q w.
Proof.
  intros Hc Hb Hr Ho He Hok.
  eapply hoare_keeps_step; [split; [exact Hc|done]|done|done|]. intros _ w1 Ho1.
  apply hoare_io_bind, hoare_state; [done..|auto|]. intros s Hs.
  case_bool_decide; [|by apply hoare_io_bind, hoare_ret, He].
  apply hoare_ok_bind. apply hoare_io_bind.
  eapply hoare_journal_progress; [done..|]. intros [[]|e] w2 Ho2 Hs2; [|auto].
  apply hoare_ret. auto.
Qed.

Lemma hoare_cleanup_unmount b bytes receipt s (Q : result StorageError BackendState -> World -> Prop) w :
  identity_token b = token ->
  (forall r, receipt = Some r -> identity_token (AllocationReceipt.backend r) = token) ->
  owns w -> seen token s w ->
  (forall e w', owns w' -> Q (Err e) w') ->
  (forall s' w', owns w' -> seen token s' w' -> Q (Ok s') w') ->
  hoare (cleanup_unmount layout b bytes receipt s) Q w.
Proof.
  intros Hb Hr Ho Hs He Hok. unfold cleanup_unmount. case_bool_decide; [|apply hoare_ret; auto].
  by eapply hoare_cleanup_step.
Qed.

Lemma hoare_cleanup_remove b bytes receipt s (Q : result StorageError BackendState -> World -> Prop) w :
  identity_token b = token ->
  (forall r, receipt = Some r -> identity_token (AllocationReceipt.backend r) = token) ->
  owns w -> seen token s w ->
  (forall e w', owns w' -> Q (Err e) w') ->
  (forall s' w', owns w' -> seen token s' w' -> Q (Ok s') w') ->
  hoare (cleanup_remove layout b bytes receipt s) Q w.
Proof.
  intros Hb Hr Ho Hs He Hok. unfold cleanup_remove. case_bool_decide; [|apply hoare_ret; auto].
  by eapply hoare_cleanup_step.
Qed.

(** Unmounting the mountpoint of a volume that is gone, and its journal. *)
Lemma hoare_retire_journal (Q : result StorageError unit -> World -> Prop) w :
  emptied layout token w -> (forall r w', accounted w' -> Q r w') ->
  hoare (_ ← remove_released_mountpoint layout; try_ (JournalRemove layout)) Q w.
Proof.
  intros He HQ. apply hoare_io_bind.
  eapply hoare_emptied; [apply keeping_remove_released_mountpoint|done|].
  intros [[]|e] w' He'; [by eapply hoare_journal_remove|]. apply HQ, He'.
Qed.

Lemma hoare_cleanup_identity b bytes receipt (Q : result StorageError unit -> World -> Prop) w :
  identity_token b = token ->
  (forall r, receipt = Some r -> identity_token (AllocationReceipt.backend r) = token) ->
  owns w -> (forall r w', accounted w' -> Q r w') ->
  hoare (cleanup_identity layout b bytes receipt) Q w.
Proof.
  intros Hb Hr Ho HQ. unfold cleanup_identity.
  assert (forall e w', owns w' -> Q (Err e) w') as He by (intros e w' [Ha _]; auto).
  apply hoare_io_bind, hoare_state; [done..|auto|]. intros s Hs.
  apply hoare_io_bind, hoare_cleanup_unmount; [done..|]. intros s1 w1 Ho1 Hs1.
  apply hoare_io_bind, hoare_cleanup_remove; [done..|]. intros s2 w2 Ho2 Hs2.
  case_bool_decide as Hs2'; [|by apply hoare_io_bind, hoare_ret, He].
  apply hoare_ok_bind, hoare_retire_journal; [|done]. split; [done|]. by apply Hs2.
Qed.

(** [discover] tells whether there is a volume of the token. *)
Lemma hoare_discover bytes (Q : result StorageError (option BackendIdentity) -> World -> Prop) w :
  owns w -> (forall e, Q (Err e) w) -> (forall b, Q (Ok (Some b)) w) ->
  (volumes w !! token = None -> Q (Ok None) w) ->
  hoare (try_ (Discover layout token bytes)) Q w.
Proof.
  intros Ho He Hb Hn. apply hoare_req. intros r w2 [-> Hr]. split; [apply Ho|].
  apply hoare_ret. destruct r as [[b|]|e]; auto.
Qed.

Lemma hoare_rollback_cleanup j identity (Q : result StorageError unit -> World -> Prop) w :
  PhaseJournal.ownership_token j = token -> owns w -> (forall r w', accounted w' -> Q r w') ->
  hoare (rollback_cleanup layout j identity) Q w.
Proof.
  intros Hj Ho HQ. unfold rollback_cleanup. rewrite Hj.
  assert (forall e w', owns w' -> Q (Err e) w') as He by (intros e w' [Ha _]; auto).
  assert (forall b, hoare (_ ← guard_or (bool_decide (identity_token b = token))
      (mismatch "rollback discovery returned a foreign ownership token");
    _ ← try_ (JournalWrite layout (PhaseJournal.with_backend_identity j b));
    cleanup_identity layout b (PhaseJournal.reserved_bytes j) None) Q w) as Hsome.
  { intros b. case_bool_decide as Hb; [|by apply hoare_io_bind, hoare_ret, He]. apply hoare_ok_bind.
    apply (hoare_keeps_step layout token); [by split|done..|]. intros _ w' Ho'.
    by apply hoare_cleanup_identity. }
  apply hoare_io_bind. destruct identity as [b|]; [by apply hoare_ret|].
  apply hoare_discover; [done|auto|done|]. intros Hn. by apply hoare_retire_journal.
Qed.

Lemma hoare_rollback {A} j identity cause (Q : result StorageError A -> World -> Prop) w :
  PhaseJournal.ownership_token j = token -> owns w -> (forall e w', accounted w' -> Q (Err e) w') ->
  hoare (rollback_allocation layout j identity cause) Q w.
Proof.
  intros Hj Ho HQ. unfold rollback_allocation.
  apply hoare_io_bind, hoare_outcome_of, hoare_rollback_cleanup; [done..|].
  intros [[]|e] w' Ha; apply hoare_ret; auto.
Qed.

(** A step of [allocate] that is rolled back when it fails. *)
Lemma hoare_or_rollback {A B} (m : stio A) j identity (k : A -> stio B)
    (Q : result StorageError B -> World -> Prop) w :
  PhaseJournal.ownership_token j = token -> keeping m -> owns w ->
  (forall e w', accounted w' -> Q (Err e) w') ->
  (forall a w', owns w' -> hoare (k a) Q w') ->
  hoare (or_rollback m layout j identity k) Q w.
Proof.
  intros Hj Hm Ho He Hk. unfold or_rollback. apply hoare_io_bind, hoare_outcome_of.
  apply (hoare_keeps layout token); [done..|]. intros [a|e] w' Ho'; [auto|].
  by apply hoare_rollback.
Qed.

Lemma hoare_or_rollback_guard {B} (b : bool) e j identity (k : unit -> stio B)
    (Q : result StorageError B -> World -> Prop) w :
  PhaseJournal.ownership_token j = token -> owns w ->
  (forall e w', accounted w' -> Q (Err e) w') ->
  (b = true -> hoare (k tt) Q w) ->
  hoare (or_rollback (guard_or b e) layout j identity k) Q w.
Proof.
  intros Hj Ho He Hk. destruct b; [by apply Hk|]. by apply (hoare_rollback j identity e).
Qed.

Lemma keeping_publish_all parent names : keeping (publish_all parent names).
Proof. revert parent. induction names as [|n names IH]; intros parent; cbn [publish_all]; [done|]. calls. Qed.

Lemma keeping_publish_ready request capability b bytes :
  identity_token b = token -> keeping (publish_ready layout request capability b bytes).
Proof.
  intros Hb. unfold publish_ready, require_mounted, create_layout_directories.
  repeat (apply all_calls_io_bind || intros); calls; try apply keeping_publish_all.
Qed.

Lemma hoare_allocate_volume request capability bytes j (Q : result StorageError AllocationReceipt -> World -> Prop) w :
  PhaseJournal.ownership_token j = token -> owns w -> (forall r w', accounted w' -> Q r w') ->
  hoare (allocate_volume layout request capability bytes j token) Q w.
Proof.
  intros Hj Ho HQ. unfold allocate_volume.
  apply hoare_or_rollback; [done|by split|done|auto|]. intros created w1 Ho1.
  apply hoare_or_rollback_guard; [done..|auto|]. intros Hc%bool_decide_eq_true.
  apply hoare_or_rollback; [done|by split|done|auto|]. intros _ w2 Ho2.
  apply hoare_or_rollback; [done|by split|done|auto|]. intros prepared w3 Ho3.
  apply hoare_or_rollback_guard; [done..|auto|]. intros Hp%valid_prepared_token.
  apply hoare_or_rollback; [done|by split|done|auto|]. intros _ w4 Ho4.
  apply hoare_or_rollback; [done|by split|done|auto|]. intros _ w5 Ho5.
  apply hoare_or_rollback; [done|by split|done|auto|]. intros _ w6 Ho6.
  apply hoare_or_rollback; [done|apply keeping_publish_ready; congruence|done|auto|].
  intros r w7 [Ha _]. apply hoare_ret. auto.
Qed.
End ForLayout.

(** *** Before a journal is read or written *)
Definition bystander {B} (c : storage_call B) : Prop :=
  match c with
  | JournalWrite _ _ | JournalCreate _ _ | JournalRemove _ | Create _ _ _ _ => False
  | _ => True
  end.

Lemma accounted_shrink (w w' : World) :
  journals w' = journals w ->
  (forall t v, volumes w' !! t = Some v -> is_Some (volumes w !! t)) ->
  accounted w -> accounted w'.
Proof. intros Hj Hv Ha t v Ht. apply Hv in Ht as [v' Ht]. rewrite Hj. by eapply Ha. Qed.

Lemma bystander_accounted {B} (c : storage_call B) w b w' :
  bystander c -> world_sem B c w b w' -> accounted w -> accounted w'.
Proof.
  intros Hk Hs Ha. assert (forall t f, accounted (alter_volume t f w)) as Halter.
  { intros t f. apply (accounted_shrink w); [done| |done]. intros t' v. apply alter_volume_shrink. }
  destruct c; simpl in Hk, Hs; try done; world_cases Hs; try done;
    (apply (accounted_shrink w); [done| |done]; intros t v; try apply alter_volume_shrink). simpl.
  rewrite lookup_delete_Some. intros [_ Hv]. eauto.
Qed.

Lemma hoare_bystander {A} (p : proc storage_call A) Q w :
  all_calls (@bystander) p -> accounted w -> (forall a w', accounted w' -> Q a w') -> hoare p Q w.
Proof.
  revert w. induction p as [a|B c k IH]; simpl; intros w Hp Ha HQ.
  - apply hoare_ret. auto.
  - destruct Hp as [Hc Hk]. apply hoare_req. intros b w2 Hs.
    assert (accounted w2) by by eapply bystander_accounted. split; [done|]. by apply IH.
Qed.

Lemma hoare_bystander_step {A B} (m : stio A) (f : A -> stio B) Q w :
  all_calls (@bystander) m -> accounted w ->
  (forall e w', accounted w' -> Q (Err e) w') ->
  (forall a w', accounted w' -> hoare (f a) Q w') -> hoare (m ≫= f) Q w.
Proof.
  intros Hm Ha He Hf. apply hoare_io_bind, hoare_bystander; [done..|]. intros [a|e] w' Ha'; auto.
Qed.

Lemma hoare_journal_read layout (Q : result StorageError PhaseJournal -> World -> Prop) w :
  accounted w -> (forall e, Q (Err e) w) ->
  (forall j, PhaseJournal.validate j layout = Ok tt ->
     owns layout (PhaseJournal.ownership_token j) w -> Q (Ok j) w) ->
  hoare (try_ (JournalRead layout)) Q w.
Proof.
  intros Ha He Hok. apply hoare_req. intros r w2 [-> Hr]. split; [done|]. apply hoare_ret.
  destruct r as [j|e]; [|done]. destruct Hr as [Hj Hv]. apply Hok; [done|]. split; [done|].
  unfold journal_at in Hj. destruct (journal_name layout) as [name|] eqn:Hn; [|done]. eauto.
Qed.

(** *** [recover_existing] *)
Lemma hoare_recover_existing layout request (Q : result StorageError unit -> World -> Prop) w :
  accounted w -> (forall r w', accounted w' -> Q r w') ->
  hoare (recover_existing layout request) Q w.
Proof.
  intros Ha HQ. unfold recover_existing.
  apply hoare_io_bind, hoare_journal_read; [done|auto|]. intros j Hv Ho.
  assert (forall e w', owns layout (PhaseJournal.ownership_token j) w' -> Q (Err e) w') as He
    by (intros e w' [? _]; auto).
  apply (hoare_keeps_step layout (PhaseJournal.ownership_token j)); [calls|done..|].
  intros expected w1 Ho1.
  apply (hoare_keeps_step layout (PhaseJournal.ownership_token j)); [calls|done..|].
  intros _ w2 Ho2.
  apply (hoare_keeps_step layout (PhaseJournal.ownership_token j));
    [apply keeping_validate_backend_config|done..|]. intros _ w3 Ho3.
  destruct (PhaseJournal.phase j).
  - (* Allocating *)
    assert (forall b, hoare (_ ← guard_or (bool_decide
          (identity_token b = PhaseJournal.ownership_token j))
          (mismatch "discovered backend ownership token changed");
        _ ← (if bool_decide (PhaseJournal.backend j = None)
             then try_ (JournalWrite layout (PhaseJournal.with_backend_identity j b))
             else mret tt);
        cleanup_identity layout b (PhaseJournal.reserved_bytes j) None) Q w3) as Hsome.
    { intros b. destruct (bool_decide (identity_token b = _)) eqn:Hb;
        [apply bool_decide_eq_true in Hb|by apply hoare_io_bind, hoare_ret, He].
      apply hoare_ok_bind. apply (hoare_keeps_step layout (PhaseJournal.ownership_token j)).
      - case_match; [by split|done].
      - done.
      - done.
      - intros _ w4 Ho4. by apply hoare_cleanup_identity with (PhaseJournal.ownership_token j). }
    apply hoare_io_bind. destruct (PhaseJournal.backend j) as [b|]; [by apply hoare_ret|].
    apply hoare_discover; [done|auto|done|]. intros Hn.
    by apply (hoare_retire_journal layout (PhaseJournal.ownership_token j)).
  - by apply hoare_ret, He.
  - destruct (PhaseJournal.receipt j) as [r|] eqn:Hr; [|by apply hoare_io_bind, hoare_ret, He].
    apply hoare_ok_bind. apply (hoare_keeps_step layout (PhaseJournal.ownership_token j));
      [apply keeping_authenticate|done..|]. intros _ w4 Ho4.
    apply hoare_cleanup_identity with (PhaseJournal.ownership_token j); [|by intros ? [= <-]; apply (validate_token _ layout)|done|done].
    by apply (validate_token _ layout).
Qed.

(** *** [allocate] *)
Lemma hoare_journal_create layout j (Q : result StorageError unit -> World -> Prop) w :
  accounted w -> (forall e w', accounted w' -> Q (Err e) w') ->
  (forall w', owns layout (PhaseJournal.ownership_token j) w' -> Q (Ok tt) w') ->
  hoare (try_ (JournalCreate layout j)) Q w.
Proof.
  intros Ha He Hok. apply hoare_req. intros r w2 Hs. simpl in Hs. unfold journal_at in Hs.
  destruct (journal_name layout) as [name|] eqn:Hn;
    [|destruct Hs as [-> Hr]; destruct r; [done|]; split; [done|]; apply hoare_ret; auto].
  destruct (PhaseJournal.validate j layout);
    [|destruct Hs as [-> Hr]; destruct r; [done|]; split; [done|]; apply hoare_ret; auto].
  destruct (journals w !! name) eqn:Hl;
    [destruct Hs as [-> Hr]; destruct r; [done|]; split; [done|]; apply hoare_ret; auto|].
  assert (owns layout (PhaseJournal.ownership_token j)
            (set_journals (<[name := j]> (journals w)) w)) as Ho.
  { split.
    - intros t v Hv. destruct (Ha t v Hv) as (n & i & Hi & Ht). exists n, i. simpl.
      rewrite lookup_insert_ne; [done|]. congruence.
    - exists name, j. simpl. by rewrite lookup_insert_eq. }
  destruct r as [[]|e]; simpl in Hs.
  - destruct Hs as [_ ->]. split; [apply Ho|]. by apply hoare_ret, Hok.
  - destruct Hs as [->| ->]; (split; [done || apply Ho|]); apply hoare_ret, He; [done|apply Ho].
Qed.

Lemma hoare_allocate request (Q : result StorageError AllocationReceipt -> World -> Prop) w :
  accounted w -> (forall r w', accounted w' -> Q r w') -> hoare (allocate state_root request) Q w.
Proof.
  intros Ha HQ. unfold allocate.
  apply hoare_bystander_step; [calls|done|auto|]. intros bytes w1 Ha1.
  apply hoare_bystander_step; [calls|done|auto|]. intros layout w2 Ha2.
  apply hoare_bystander_step; [calls|done|auto|]. intros tombstone_name w3 Ha3.
  apply hoare_bystander_step; [calls|done|auto|]. intros tombstone w4 Ha4.
  apply hoare_bystander_step; [calls|done|auto|]. intros _ w5 Ha5.
  apply hoare_bystander_step; [calls|done|auto|]. intros existing w6 Ha6.
  apply hoare_io_bind.
  apply (hoare_mono _ _ _ (fun r w' => accounted w')).
  { destruct existing; [by apply hoare_recover_existing|by apply hoare_ret]. }
  intros [[]|e] w7 Ha7; [|auto].
  apply hoare_bystander_step; [unfold probe; calls|done|auto|]. intros capability w8 Ha8.
  apply hoare_bystander_step; [calls|done|auto|]. intros _ w9 Ha9.
  apply hoare_bystander_step; [unfold create_mountpoint; calls|done|auto|]. intros _ w10 Ha10.
  apply hoare_bystander_step; [calls|done|auto|]. intros token w11 Ha11.
  apply hoare_bystander_step; [calls|done|auto|]. intros key w12 Ha12.
  apply hoare_io_bind, hoare_outcome_of, hoare_journal_create; [done| |].
  - intros e w13 Ha13. apply hoare_bystander_step; [|done|auto|].
    + apply all_calls_outcome_of. unfold remove_released_mountpoint. calls.
    + intros _ w14 Ha14. apply hoare_ret. auto.
  - intros w13 Ho. by apply (hoare_allocate_volume layout token).
Qed.

(** *** [release] *)
Lemma hoare_authenticate layout token receipt j (Q : result StorageError BackendState -> World -> Prop) w :
  owns layout token w -> (forall e w', owns layout token w' -> Q (Err e) w') ->
  (forall r s w', PhaseJournal.receipt j = Some r -> receipt_eqb r receipt = true ->
     owns layout token w' -> Q (Ok s) w') ->
  hoare (authenticate_cleanup_authority layout receipt j) Q w.
Proof.
  intros Ho He Hok. pose proof (keeping_authenticate layout token layout receipt j) as Hk.
  unfold authenticate_cleanup_authority in *.
  destruct (validate_receipt receipt _ layout) as [[]|e]; [|by apply hoare_io_bind, hoare_ret, He].
  apply hoare_ok_bind.
  destruct (PhaseJournal.receipt j) as [r|]; [|by apply hoare_io_bind, hoare_ret, He].
  destruct (receipt_eqb r receipt) eqn:Er; [|by apply hoare_io_bind, hoare_ret, He].
  destruct (bool_decide (PhaseJournal.phase j = AllocationPhase.Allocating));
    [by apply hoare_io_bind, hoare_ret, He|].
  apply hoare_ok_bind. apply (hoare_keeps layout token).
  - exact Hk.
  - done.
  - intros [s|e] w' Ho'; [by eapply Hok|by apply He].
Qed.

Lemma hoare_release receipt (Q : result StorageError unit -> World -> Prop) w :
  accounted w -> (forall r w', accounted w' -> Q r w') -> hoare (release state_root receipt) Q w.
Proof.
  intros Ha HQ. unfold release.
  apply hoare_bystander_step; [calls|done|auto|]. intros layout w1 Ha1.
  apply hoare_bystander_step; [calls|done|auto|]. intros tombstone_name w2 Ha2.
  apply hoare_bystander_step; [calls|done|auto|]. intros tombstone w3 Ha3.
  apply hoare_bystander_step; [unfold already_released, path_is_exactly_absent; calls|done|auto|].
  intros [] w4 Ha4; [apply hoare_ret; auto|].
  apply hoare_bystander_step; [calls|done|auto|]. intros hs w5 Ha5.
  apply hoare_bystander_step; [calls|done|auto|]. intros _ w6 Ha6.
  apply hoare_bystander_step; [calls|done|auto|]. intros _ w7 Ha7.
  apply hoare_bystander_step; [calls|done|auto|]. intros _ w8 Ha8.
  unfold release_locked. apply hoare_io_bind, hoare_journal_read; [done|auto|]. intros j Hv Ho.
  assert (forall e w', owns layout (PhaseJournal.ownership_token j) w' -> Q (Err e) w') as He
    by (intros e w' [? _]; auto).
  apply hoare_io_bind, (hoare_authenticate layout (PhaseJournal.ownership_token j)); [done..|].
  intros r s w9 Hr Heq Ho9. apply (validate_token _ _ _ Hv) in Hr.
  assert (identity_token (AllocationReceipt.backend receipt) = PhaseJournal.ownership_token j) as Ht
    by (apply receipt_eqb_backend in Heq; congruence).
  apply (hoare_keeps_step layout (PhaseJournal.ownership_token j)); [calls|done..|]. intros _ w10 Ho10.
  apply (hoare_keeps_step layout (PhaseJournal.ownership_token j)); [calls|done..|]. intros _ w11 Ho11.
  apply (hoare_keeps_step layout (PhaseJournal.ownership_token j)); [|done..|].
  { case_match; [split; [by split|done]|done]. }
  intros _ w12 Ho12.
  apply hoare_cleanup_identity with (PhaseJournal.ownership_token j); [done| |done|done].
  by intros ? [= <-].
Qed.
End Operations.

(** ** Every operation, in any order *)
Inductive storage_op :=
| AllocateOp (request : AllocationRequest)
| ReleaseOp (receipt : AllocationReceipt)
| AckReleaseOp (receipt : AllocationReceipt)
| ProbeOp (disk_gib : Z)
| ReconcileOp (live : list ExecutionId)
| VerifyReadyOp (receipt : AllocationReceipt)
| AcquireLeaseOp (receipt : AllocationReceipt).

Definition discard {A} (m : stio A) : stio unit := _ ← m; mret tt.

Definition storage_program `{Serde} (state_root : string) (op : storage_op) : stio unit :=
  match op with
  | AllocateOp request => discard (allocate state_root request)
  | ReleaseOp receipt => release state_root receipt
  | AckReleaseOp receipt => ack_release state_root receipt
  | ProbeOp disk_gib => discard (probe disk_gib)
  | ReconcileOp live => discard (reconcile state_root live)
  | VerifyReadyOp receipt => verify_ready_allocation state_root receipt
  | AcquireLeaseOp receipt => acquire_ready_lease state_root receipt
  end.

(** A run of an operation, perhaps cut short, or a change by others: holds and
    leases come and go, and a host that restarts has nothing mounted. *)
Inductive storage_step `{Serde} (state_root : string) (w w' : World) : Prop :=
| StorageRun op tr r : exec world_sem quiet (storage_program state_root op) w tr r w' ->
    storage_step state_root w w'
| StorageOthers : journals w' = journals w ->
    (forall t, is_Some (volumes w' !! t) -> is_Some (volumes w !! t)) -> storage_step state_root w w'.

Section Reachable.
Context `{Serde} (state_root : string).

Lemma program_accounted op w :
  accounted w ->
  hoare_crash world_sem accounted (storage_program state_root op) (fun _ w' => accounted w') w.
Proof.
  intros Ha. destruct op as [request|receipt|receipt|disk_gib|live|receipt|receipt]; cbn [storage_program].
  - apply hoare_io_bind, hoare_allocate; [done|]. intros [r|e] w' Ha'; [by apply hoare_ret|done].
  - by apply hoare_release.
  - apply hoare_bystander; [|done|done]. unfold ack_release, path_is_exactly_absent. calls.
  - apply hoare_bystander; [|done|done]. unfold discard, probe. calls.
  - apply hoare_bystander; [|done|done]. unfold discard, reconcile. calls.
  - apply hoare_bystander; [|done|done].
    unfold verify_ready_allocation, validate_backend_config. calls.
  - apply hoare_bystander; [|done|done].
    unfold acquire_ready_lease, verify_ready_allocation, validate_backend_config. calls.
Qed.

Lemma step_accounted w w' : storage_step state_root w w' -> accounted w -> accounted w'.
Proof.
  intros [op tr r He|Hj Hv] Ha.
  - by eapply (hoare_exec world_sem accounted _ _ _ _ _ _ He Ha), program_accounted.
  - apply (accounted_shrink w); [done| |done]. eauto.
Qed.
End Reachable.

(** C20: No volume is ever orphaned.  From a world in which every volume has a
    journal with its ownership token, the operations of [ExecutionStorage], run
    in any order, with any call of the stores, of the backend or of Docker
    failing, any run cut short at any call and a host that restarts, lead only to
    worlds in which every volume has a journal with its token. *)
Theorem volumes_accounted_for `{Serde} (state_root : string) (w w' : World) :
  rtc (storage_step state_root) w w' -> accounted w -> accounted w'.
Proof. induction 1; eauto using step_accounted. Qed.

(** *** An example host *)
Definition example_bind (path : string) : DockerBindProof :=
  {| DockerBindProof.daemon_id := "daemon"; DockerBindProof.verifier := "verifier";
     DockerBindProof.method_version := "v1"; DockerBindProof.source_path := path;
     DockerBindProof.filesystem_id := "fs" |}.

#[export] Program Instance example_storage_host : StorageHost :=
  {| host_kind := "lvm"; host_pool := "pool"; host_reservable := 2 ^ 40;
     host_key := fun labels => OwnershipLabels.execution_id labels;
     host_docker := {| DockerBindCapability.daemon_id := "daemon";
                       DockerBindCapability.verifier := "verifier";
                       DockerBindCapability.method_version := "v1" |};
     host_bind := example_bind;
     host_token := fun w => "token"%string;
     host_identity := fun t => BackendIdentity.Lvm "vg" "vg-uuid" "lv" "lv-uuid" "" t;
     host_prepared := fun b => BackendIdentity.Lvm "vg" "vg-uuid" "lv" "lv-uuid" "fs" (identity_token b);
     host_directory := new_metadata 7 16832; host_removes_mountpoints := false |}.
Next Obligation. done. Qed.
Next Obligation. done. Qed.
Next Obligation. done. Qed.

Definition empty_world : World :=
  {| journals := ∅; tombstones := ∅; holds := []; leases := ∅; shared_leases := ∅;
     mountpoints := ∅; volumes := ∅ |}.

Definition example_request : AllocationRequest :=
  {| AllocationRequest.labels := example_labels; AllocationRequest.disk_gib := 2 |}.

(** A whole allocation leaves a mounted volume and accounts for it. *)
Lemma volumes_accounted_for_witness :
  let w := (run steady (storage_program "/state" (AllocateOp example_request)) empty_world).2 in
  volume_state w example_layout "token" = BackendState.Mounted /\ accounted w.
Proof.
  split; [vm_compute; reflexivity|].
  apply (volumes_accounted_for "/state" empty_world).
  - apply rtc_once.
    destruct (run_exec steady world_sem quiet
                (storage_program "/state" (AllocateOp example_request)) empty_world steady_sem)
      as [tr Htr].
    by eapply StorageRun.
  - intros token v Hv. exfalso. simpl in Hv. by rewrite lookup_empty in Hv.
Defined.
