(* ===== verification/StorageRelease.v ===== *)
(** * A release is finished in the end, or stuck for good

    A release that was interrupted anywhere, however often, leaves a world from
    which running it again on a host that works returns [Ok], with the volume
    and its mountpoint gone, and can then be acknowledged - unless the volume has
    been stranded: a Ready one that a restart of the host has unmounted, or one
    that lost its mountpoint before it was removed.  Such a volume is refused by
    every later release. *)

From Stdlib Require Import Ascii.
From S2P Require Import Prelude Core Lifecycle Effects StorageModel FileSystem Pinned MetadataStore RecordAtomicity StorageManager StorageWorld StorageCodec StorageSafety.
















Import Storage.

(** ** Receipts equal themselves *)
Lemma path_eqb_refl p : path_eqb p p = true.
Proof. by apply bool_decide_eq_true. Qed.

Lemma receipt_eqb_refl r : receipt_eqb r r = true.
Proof.
  unfold receipt_eqb, docker_bind_eqb. by rewrite !path_eqb_refl, !bool_decide_true by done.
Qed.

(** A releasing journal of a receipt is as valid as its ready one. *)
Lemma validate_releasing r p layout :
  PhaseJournal.validate (PhaseJournal.ready r) layout = Ok tt ->
  PhaseJournal.validate (PhaseJournal.releasing r p) layout = Ok tt.
Proof. done. Qed.

Lemma validate_ready_receipt r layout :
  PhaseJournal.validate (PhaseJournal.ready r) layout = Ok tt ->
  validate_receipt r (AllocationReceipt.labels r) layout = Ok tt.
Proof.
  unfold PhaseJournal.validate. rewrite check_bind_Ok, result_bind_Ok.
  intros [_ (? & _ & Hr)]. simpl in Hr. by rewrite bool_decide_true in Hr.
Qed.

Lemma is_dir_real m : Metadata.is_dir m = true -> is_real_directory m = true.
Proof.
  unfold Metadata.is_dir, is_real_directory, Metadata.is_symlink, Metadata.is_dir.
  rewrite bool_decide_eq_true. by intros ->.
Qed.

(** ** Runs on a working host, step by step *)
Section RunRules.
Context `{StorageHost} {A B : Type} (f : A -> stio B) (w : World).

Lemma run_bind_try (c : storage_call (result StorageError A)) :
  run steady (try_ c ≫= f) w = match steady _ c w with
                               | (Ok a, w1) => run steady (f a) w1
                               | (Err e, w1) => (Err e, w1)
                               end.
Proof. rewrite run_io_bind. simpl. by destruct (steady _ c w) as [[a|e] w1]. Qed.

Lemma run_bind_ask (c : storage_call A) :
  run steady (ask c ≫= f) w = (let '(a, w1) := steady _ c w in run steady (f a) w1).
Proof. rewrite run_io_bind. simpl. by destruct (steady _ c w). Qed.

Lemma run_bind_ask_or {F} (c : storage_call (result F A)) (g : F -> StorageError) :
  run steady (ask_or c g ≫= f) w = match steady _ c w with
                                   | (Ok a, w1) => run steady (f a) w1
                                   | (Err e, w1) => (Err (g e), w1)
                                   end.
Proof. rewrite run_io_bind. simpl. by destruct (steady _ c w) as [[a|e] w1]. Qed.

Lemma run_bind_ok a : run steady (ret_result (Ok a) ≫= f) w = run steady (f a) w.
Proof. done. Qed.

Lemma run_bind_some a e : run steady (some_or (Some a) e ≫= f) w = run steady (f a) w.
Proof. done. Qed.
End RunRules.

Lemma run_bind_guard `{StorageHost} {B} (b : bool) e (f : unit -> stio B) w :
  run steady (guard_or b e ≫= f) w = if b then run steady (f tt) w else (Err e, w).
Proof. by destruct b. Qed.

(** The host the receipt was made on. *)
Definition host_of `{StorageHost} (r : AllocationReceipt) : Prop :=
  AllocationReceipt.backend_kind r = host_kind /\
  AllocationReceipt.backend_key r = host_key (AllocationReceipt.labels r) /\
  AllocationReceipt.pool_identity r = host_pool /\
  DockerBindProof.daemon_id (AllocationReceipt.docker_bind r) =
    DockerBindCapability.daemon_id host_docker.

Section Release.
Context `{Serde} (state_root : string) (r : AllocationReceipt) (layout : ExecutionLayout).
Local Notation id := (OwnershipLabels.execution_id (AllocationReceipt.labels r)).
Local Notation token := (identity_token (AllocationReceipt.backend r)).
Hypothesis layout_of : ExecutionLayout.new state_root id = Ok layout.
Hypothesis receipt_valid : PhaseJournal.validate (PhaseJournal.ready r) layout = Ok tt.

Definition record_file : string := (id +:+ ".json")%string.

Lemma release_journal_name : journal_name layout = Ok record_file.
Proof. by apply layout_new in layout_of as (_ & _ & ?). Qed.
Lemma release_file_name : file_name (ExecutionLayout.root layout) = Some id.
Proof. by apply layout_new in layout_of as (_ & ? & _). Qed.
Lemma release_mountpoint_name : mountpoint_name layout = Ok id.
Proof. unfold mountpoint_name. by rewrite release_file_name. Qed.

Lemma release_tombstone : release_tombstone_name id = Ok record_file.
Proof.
  destruct (layout_new _ _ _ layout_of) as (Hv & _ & _). unfold release_tombstone_name.
  assert (contains "/" id = false) as ->.
  { apply not_true_is_false. intros Hc. apply contains_char in Hc. revert Hc.
    by eapply execution_id_no_char. }
  assert (contains ".." id = false) as ->.
  { apply not_true_is_false. intros Hc. apply contains_char in Hc. revert Hc.
    by eapply execution_id_no_char. }
  apply validate_execution_id_Ok in Hv as [He _]. revert He. unfold record_file. by destruct id.
Qed.

Lemma release_lease_name : exists name, lease_name layout = Ok name.
Proof. unfold lease_name. rewrite release_journal_name. simpl. eauto. Qed.

(** ** The phases of a release *)

(** No process of the execution is on record. *)
Definition unheld (w : World) : Prop :=
  forall h, h ∈ holds w -> OwnershipLabels.execution_id (ExecutionLifecycleHold.labels h) <> id.

(** Its lease file exists, and nobody holds the lease. *)
Definition leased (w : World) : Prop :=
  exists name, lease_name layout = Ok name /\ name ∈ leases w /\ name ∉ shared_leases w.

Definition tombstoned (w : World) : Prop := tombstones w !! record_file = Some (receipt_to_json r).

Section Phases.
(** A backend that keeps its mountpoints, on a host that does not restart while
    the allocation is Ready; [false]: any. *)
Context (keeps : bool).

Definition mountpoint_ok (w : World) : Prop :=
  match mountpoints w !! id with
  | Some m => Metadata.is_dir m = true
  | None => keeps = true -> volumes w !! token = None
  end.

(** Allocated, with a Ready journal. *)
Definition allocated_phase (w : World) : Prop :=
  leased w /\ journals w !! record_file = Some (PhaseJournal.ready r) /\
  (tombstones w !! record_file = None \/ tombstoned w) /\
  (exists v, volumes w !! token = Some v /\ (keeps = true -> is_Some (Volume.mounted_at v))) /\
  exists m, mountpoints w !! id = Some m /\ Metadata.is_dir m = true.

(** Between the releasing journal and its removal. *)
Definition releasing_phase (w : World) : Prop :=
  leased w /\ tombstoned w /\ mountpoint_ok w /\
  exists p, journals w !! record_file = Some (PhaseJournal.releasing r p).

Definition released_phase (w : World) : Prop :=
  leased w /\ tombstoned w /\ journals w !! record_file = None /\
  mountpoints w !! id = None /\ volumes w !! token = None.

Definition phases (w : World) : Prop := allocated_phase w \/ releasing_phase w \/ released_phase w.
End Phases.

Definition in_release : World -> Prop := phases false.

(** Allocated, not yet released. *)
Definition ready_phase (w : World) : Prop :=
  leased w /\ journals w !! record_file = Some (PhaseJournal.ready r) /\
  (tombstones w !! record_file = None \/ tombstoned w) /\
  (exists v path, volumes w !! token = Some v /\ Volume.mounted_at v = Some path) /\
  exists m, mountpoints w !! id = Some m /\ Metadata.is_dir m = true.

Lemma ready_phases keeps w : ready_phase w -> phases keeps w.
Proof.
  intros (Hu & Hj & Ht & (v & path & Hv & Hp) & Hm). left. split_and!; [done..| |done].
  exists v. split; [done|]. by rewrite Hp.
Qed.

(** A volume that a release cannot get at: Ready but not mounted, or without
    its mountpoint. *)
Definition stranded (w : World) : Prop :=
  is_Some (volumes w !! token) /\
  (journals w !! record_file = Some (PhaseJournal.ready r) /\
     volume_state w layout token = BackendState.Unmounted \/
   mountpoints w !! id = None).

Lemma allocated_ready w : allocated_phase true w -> ready_phase w.
Proof.
  intros (Hu & Hj & Ht & (v & Hv & Hp) & Hm). destruct (Hp eq_refl) as [path Hpath].
  split_and!; [done..| |done]. by exists v, path.
Qed.

Lemma releasing_weaken w : releasing_phase true w -> releasing_phase false w.
Proof.
  intros (Hu & Ht & Hm & Hj). split_and!; [done..| |done]. unfold mountpoint_ok in *. by destruct (mountpoints w !! id).
Qed.

Lemma phases_stranded w : phases true w -> ~ stranded w.
Proof.
  intros Hp [[v Hv] Hs]. destruct Hp as [Hp|[Hp|Hp]].
  - destruct Hp as (_ & Hj & _ & (v' & Hv' & Hm) & m & Hmp & _). assert (v' = v) as -> by congruence.
    destruct Hs as [[_ Hs]|Hs]; [|congruence]. unfold volume_state in Hs. rewrite Hv in Hs.
    destruct (Hm eq_refl) as [p Hp]. by rewrite Hp in Hs.
  - destruct Hp as (_ & _ & Hm & p & Hj). destruct Hs as [[Hs _]|Hs]; [by rewrite Hj in Hs|].
    unfold mountpoint_ok in Hm. rewrite Hs in Hm. rewrite Hm in Hv by done. done.
  - destruct Hp as (_ & _ & _ & _ & Hn). congruence.
Qed.

Lemma unstranded_phases w : phases false w -> ~ stranded w -> phases true w.
Proof.
  intros [Hp|[Hp|Hp]] Hs; [left|right; left|right; right].
  - destruct Hp as (Hu & Hj & Ht & (v & Hv & _) & Hm). split_and!; [done..| |done].
    exists v. split; [done|]. intros _. destruct (Volume.mounted_at v) eqn:Ep; [done|]. destruct Hs.
    split; [by rewrite Hv|]. left. split; [done|]. unfold volume_state. by rewrite Hv, Ep.
  - destruct Hp as (Hu & Ht & Hm & Hj). split_and!; [done..| |done]. unfold mountpoint_ok in *.
    destruct (mountpoints w !! id) eqn:Em; [done|]. intros _. apply eq_None_not_Some. intros Hv.
    destruct Hs. split; auto.
  - done.
Qed.

Lemma rebooted_phases keeps w w' :
  rebooted w w' -> (keeps = true -> journals w !! record_file <> Some (PhaseJournal.ready r)) ->
  phases keeps w -> phases keeps w'.
Proof.
  intros -> Hk Hp.
  assert (leased w -> leased (set_shared_leases ∅ (set_volumes (mounted None <$> volumes w) w))) as Hl
    by (intros (n & Hn & Hi & _); exists n; by split_and!).
  destruct Hp as [Hp|[Hp|Hp]]; [left|right; left|right; right].
  - destruct Hp as (Hu & Hj & Ht & (v & Hv & _) & Hm). split_and!; [by apply Hl|done..| |done].
    exists (mounted None v). simpl. rewrite lookup_fmap, Hv. split; [done|]. intros Hkeeps. by destruct (Hk Hkeeps).
  - destruct Hp as (Hu & Ht & Hm & Hj). split_and!; [by apply Hl|done..| |done]. unfold mountpoint_ok in *. simpl.
    rewrite lookup_fmap. destruct (mountpoints w !! id); [done|]. intros Hkeeps. by rewrite Hm.
  - destruct Hp as (Hu & Ht & Hj & Hm & Hv). split_and!; [by apply Hl|done..|]. simpl. by rewrite lookup_fmap, Hv.
Qed.

Lemma rebooted_stranded w w' : rebooted w w' -> stranded w -> stranded w'.
Proof.
  intros -> [[v Hv] Hs]. split; [simpl; by rewrite lookup_fmap, Hv|].
  destruct Hs as [[Hj _]|Hm]; [left|by right]. split; [done|]. unfold volume_state. simpl. by rewrite lookup_fmap, Hv.
Qed.

Section Interrupted.
Context (keeps : bool).

(** ** Interrupted runs stay in the phases *)

(** Calls that change nothing. *)
Definition looks {B} (c : storage_call B) : Prop :=
  match c with
  | JournalCreate _ _ | JournalWrite _ _ | JournalRemove _ | EnsureReadyLease _ | TryLockShared _
  | TombstoneCreate _ _ | TombstoneRemove _ | PublishMountpoint _ | RemoveMountpoint _
  | Create _ _ _ _ | Prepare _ _ _ | Mount _ _ _ | Unmount _ _ | Remove _ => False
  | _ => True
  end.

Lemma looks_same {B} (c : storage_call B) w b w' : looks c -> storage_sem keeps B c w b w' -> w' = w.
Proof. intros Hl Hs. destruct c; simpl in Hl, Hs; try done; by world_cases Hs. Qed.

Local Notation in_release := (phases keeps).
Local Notation releasing_phase := (releasing_phase keeps).
Local Notation hoare := (hoare_crash (storage_sem keeps) in_release).

Lemma hoare_looks {A} (p : proc storage_call A) Q w :
  all_calls (@looks) p -> in_release w -> (forall a, Q a w) -> hoare p Q w.
Proof.
  intros Hp Hi HQ. induction p as [a|B c k IH].
  - by apply hoare_ret.
  - destruct Hp as [Hc Hk]. apply hoare_req. intros b w2 Hs.
    apply looks_same in Hs as ->; [|done]. split; [done|]. apply IH, Hk.
Qed.

Lemma hoare_looks_step {A B} (m : stio A) (f : A -> stio B) Q w :
  all_calls (@looks) m -> in_release w -> (forall e, Q (Err e) w) ->
  (forall a, hoare (f a) Q w) -> hoare (m ≫= f) Q w.
Proof. intros Hm Hi He Hf. apply hoare_io_bind, hoare_looks; [done..|]. by intros [a|e]. Qed.

(** One call that moves from [w] to one of its possible effects. *)
Lemma hoare_update (c : storage_call (result StorageError unit)) w1 w
    (Q : result StorageError unit -> World -> Prop) :
  (forall b w2, storage_sem keeps _ c w b w2 -> w2 = w /\ is_ok b = false \/ w2 = w1) ->
  in_release w -> in_release w1 ->
  (forall e, Q (Err e) w) -> (forall b, Q b w1) -> hoare (try_ c) Q w.
Proof.
  intros Hc Hi Hi1 He HQ. apply hoare_req. intros b w2 Hs.
  destruct (Hc b w2 Hs) as [[-> Hb]| ->]; (split; [done|]); apply hoare_ret; [|done].
  by destruct b.
Qed.

Lemma update_moves {A} w w1 ok (b : result StorageError A) w2 :
  update w w1 ok b w2 -> w2 = w /\ is_ok b = false \/ w2 = w1.
Proof. unfold update. destruct b; naive_solver. Qed.

(** A journal write in the releasing phase. *)
Lemma hoare_write_releasing p (Q : result StorageError unit -> World -> Prop) w :
  releasing_phase w -> (forall b w', releasing_phase w' -> volumes w' = volumes w ->
    mountpoints w' = mountpoints w -> Q b w') ->
  hoare (try_ (JournalWrite layout (PhaseJournal.releasing r p))) Q w.
Proof.
  intros Hr HQ. set (w1 := set_journals (<[record_file := PhaseJournal.releasing r p]> (journals w)) w).
  assert (releasing_phase w1) as Hr1.
  { destruct Hr as (Hu & Ht & Hm & _). split_and!; [done..|].
    exists p. simpl. by rewrite lookup_insert_eq. }
  apply (hoare_update _ w1); [| by right; left | by right; left | by intros; apply HQ | by intros; apply HQ].
  intros b w2 Hs. cbn [storage_sem] in Hs. unfold journal_at in Hs.
  rewrite release_journal_name, (validate_releasing r p layout receipt_valid) in Hs.
  destruct Hr as (_ & _ & _ & p' & Hj). rewrite Hj in Hs. by eapply update_moves.
Qed.

Lemma hoare_state_seen (Q : result StorageError BackendState -> World -> Prop) w bytes :
  in_release w -> (forall e, Q (Err e) w) ->
  (forall s, s = volume_state w layout token -> Q (Ok s) w) ->
  hoare (try_ (State layout (AllocationReceipt.backend r) bytes)) Q w.
Proof.
  intros Hi He Hs. apply hoare_req. intros b w2 [-> Hb]. split; [done|]. apply hoare_ret.
  destruct b; auto.
Qed.

Definition seen_state (s : BackendState) (w : World) : Prop :=
  s = BackendState.Absent -> volumes w !! token = None.

Lemma volume_state_seen w s : s = volume_state w layout token -> seen_state s w.
Proof.
  intros -> Ha. unfold volume_state in Ha. destruct (volumes w !! token) as [v|]; [|done].
  by destruct (Volume.mounted_at v).
Qed.

Lemma releasing_in w : releasing_phase w -> in_release w.
Proof. intros Hr. by right; left. Qed.

(** Unmounting and removing the volume keep the releasing phase. *)
Lemma releasing_volumes w vs :
  releasing_phase w -> (volumes w !! token = None -> vs !! token = None) ->
  releasing_phase (set_volumes vs w).
Proof.
  intros (Hu & Ht & Hm & Hj) Hv. split_and!; [done..| |done]. unfold mountpoint_ok in *. simpl.
  destruct (mountpoints w !! id); auto.
Qed.

Lemma releasing_unmounted w w' : releasing_phase w -> unmounted keeps layout token w w' -> releasing_phase w'.
Proof.
  intros Hr [->|(-> & name & Hn & ->)]; [by apply releasing_volumes; [|apply lookup_alter_None]|].
  rewrite release_file_name in Hn. injection Hn as <-. destruct Hr as (Hu & Ht & Hm & Hj).
  split_and!; [done..| |done]. unfold mountpoint_ok. simpl. by rewrite lookup_delete_eq.
Qed.

Lemma hoare_volume_call (c : storage_call (result StorageError unit)) w
    (Q : result StorageError unit -> World -> Prop) :
  (forall b w2, storage_sem keeps _ c w b w2 -> releasing_phase w2) ->
  (forall b w', releasing_phase w' -> Q b w') -> hoare (try_ c) Q w.
Proof.
  intros Hc HQ. apply hoare_req. intros b w2 Hs%Hc. split; [by apply releasing_in|]. by apply hoare_ret; destruct b; apply HQ.
Qed.

Lemma hoare_release_step (c : storage_call (result StorageError unit)) w wanted message phase bytes
    (Q : result StorageError BackendState -> World -> Prop) :
  (forall b w2, storage_sem keeps _ c w b w2 -> releasing_phase w2) ->
  (forall e w', releasing_phase w' -> Q (Err e) w') ->
  (forall s w', releasing_phase w' -> seen_state s w' -> Q (Ok s) w') ->
  hoare (_ ← try_ c;
         state ← try_ (State layout (AllocationReceipt.backend r) bytes);
         _ ← guard_or (bool_decide (state = wanted)) (mismatch message);
         _ ← journal_progress layout (Some r) phase;
         mret state) Q w.
Proof.
  intros Hc He Hok. apply hoare_io_bind, hoare_volume_call; [done|].
  intros [[]|e] w1 Hr1; [|auto].
  apply hoare_io_bind, hoare_state_seen; [by apply releasing_in|auto|]. intros s Hs%volume_state_seen.
  case_bool_decide; [|by apply hoare_io_bind, hoare_ret, He]. apply hoare_ok_bind.
  apply hoare_io_bind, hoare_write_releasing; [done|]. intros [[]|e] w2 Hr2 Hv2 _; [|auto].
  apply hoare_ret, Hok; [done|]. intros Ha. rewrite Hv2. auto.
Qed.

Lemma hoare_release_unmount s bytes (Q : result StorageError BackendState -> World -> Prop) w :
  releasing_phase w -> seen_state s w ->
  (forall e w', releasing_phase w' -> Q (Err e) w') ->
  (forall s w', releasing_phase w' -> seen_state s w' -> Q (Ok s) w') ->
  hoare (cleanup_unmount layout (AllocationReceipt.backend r) bytes (Some r) s) Q w.
Proof.
  intros Hr Hs He Hok. unfold cleanup_unmount. case_bool_decide; [|apply hoare_ret; auto].
  apply hoare_release_step; [|done..]. intros b w2 [[-> _]|Hu]; [done|by eapply releasing_unmounted].
Qed.

Lemma hoare_release_remove s bytes (Q : result StorageError BackendState -> World -> Prop) w :
  releasing_phase w -> seen_state s w ->
  (forall e w', releasing_phase w' -> Q (Err e) w') ->
  (forall s w', releasing_phase w' -> seen_state s w' -> Q (Ok s) w') ->
  hoare (cleanup_remove layout (AllocationReceipt.backend r) bytes (Some r) s) Q w.
Proof.
  intros Hr Hs He Hok. unfold cleanup_remove. case_bool_decide; [|apply hoare_ret; auto].
  apply hoare_release_step; [|done..]. intros b w2 [-> | ->]%update_cases; [done|].
  apply releasing_volumes; [done|]. intros _. by apply lookup_delete_eq.
Qed.

(** The volume and its mountpoint are gone, and the tombstone says so. *)
Definition physically_released (w : World) : Prop :=
  tombstoned w /\ mountpoints w !! id = None /\ volumes w !! token = None.

(** A postcondition that a release establishes. *)
Definition settles (Q : result StorageError unit -> World -> Prop) : Prop :=
  forall b w', in_release w' -> (forall u, b = Ok u -> physically_released w') -> Q b w'.

Lemma settles_err (Q : result StorageError unit -> World -> Prop) e w' : settles Q -> in_release w' -> Q (Err e) w'.
Proof. intros HQ Hi. by apply HQ. Qed.

Lemma released_physically w : released_phase w -> physically_released w.
Proof. by intros (_ & ? & _ & ? & ?). Qed.

(** The last two steps, once the volume is gone. *)
Lemma hoare_release_end (Q : result StorageError unit -> World -> Prop) w :
  releasing_phase w -> volumes w !! token = None ->
  settles Q ->
  hoare (_ ← remove_released_mountpoint layout; try_ (JournalRemove layout)) Q w.
Proof.
  intros Hr Hn HQ.
  assert (forall w', releasing_phase w' -> volumes w' !! token = None -> mountpoints w' !! id = None ->
    hoare (try_ (JournalRemove layout)) Q w') as Hend.
  { intros w' Hr' Hn' Hm'. destruct Hr' as (Hu & Ht & Hm & p & Hj).
    assert (releasing_phase w') by (split_and!; eauto).
    apply (hoare_update _ (set_journals (delete record_file (journals w')) w'));
      [|by apply releasing_in| |by intros; apply settles_err, releasing_in|].
    - intros b w2 Hs. cbn [storage_sem] in Hs. unfold journal_at in Hs. rewrite release_journal_name, Hj in Hs.
      by eapply update_moves.
    - right; right. split_and!; [done..| |done|done]. simpl. by rewrite lookup_delete_eq.
    - assert (released_phase (set_journals (delete record_file (journals w')) w')) as Hd
        by (split_and!; [done..|simpl; by rewrite lookup_delete_eq|done|done]).
      intros b. apply HQ; [by right; right|]. intros _ _. by apply released_physically. }
  unfold remove_released_mountpoint. rewrite release_mountpoint_name.
  apply hoare_io_bind.
  apply hoare_looks_step; [calls|by apply releasing_in|by intros; apply settles_err, releasing_in|]. intros _.
  apply hoare_ok_bind. apply hoare_io_bind, hoare_req. intros b w2 [-> Hb].
  split; [by apply releasing_in|]. apply hoare_ret.
  destruct b as [o|e]; [|by apply settles_err, releasing_in]. subst o.
  destruct (mountpoints w !! id) as [m|] eqn:Em; [|apply hoare_ret; by apply Hend].
  destruct (Metadata.is_dir m); [|by apply hoare_ret, settles_err, releasing_in].
  assert (releasing_phase (set_mountpoints (delete id (mountpoints w)) w)) as Hr1.
  { destruct Hr as (Hu & Ht & Hm & Hj). split_and!; [done..| |done].
    unfold mountpoint_ok. simpl. by rewrite lookup_delete_eq. }
  apply (hoare_update _ (set_mountpoints (delete id (mountpoints w)) w));
    [|by apply releasing_in|by apply releasing_in|by intros; apply settles_err, releasing_in|].
  - intros b w2 Hs. simpl in Hs. rewrite Em in Hs. by eapply update_moves.
  - intros [[]|e]; [|by apply settles_err, releasing_in]. apply Hend; [done|done|].
    simpl. by rewrite lookup_delete_eq.
Qed.

Lemma hoare_release_cleanup bytes (Q : result StorageError unit -> World -> Prop) w :
  releasing_phase w -> settles Q ->
  hoare (cleanup_identity layout (AllocationReceipt.backend r) bytes (Some r)) Q w.
Proof.
  intros Hr HQ. unfold cleanup_identity.
  assert (forall e w', releasing_phase w' -> Q (Err e) w') as He by (intros; by apply settles_err, releasing_in).
  apply hoare_io_bind, hoare_state_seen; [by apply releasing_in|auto|]. intros s Hs%volume_state_seen.
  apply hoare_io_bind, hoare_release_unmount; [done..|]. intros s1 w1 Hr1 Hs1.
  apply hoare_io_bind, hoare_release_remove; [done..|]. intros s2 w2 Hr2 Hs2.
  case_bool_decide; [|by apply hoare_io_bind, hoare_ret, He]. apply hoare_ok_bind.
  apply hoare_release_end; [done|by apply Hs2|done].
Qed.

Lemma looks_validate_backend_config j : all_calls (@looks) (validate_backend_config j).
Proof. unfold validate_backend_config. calls. Qed.

Lemma looks_authenticate l rc j : all_calls (@looks) (authenticate_cleanup_authority l rc j).
Proof.
  unfold authenticate_cleanup_authority.
  repeat (apply all_calls_io_bind || intros); calls; apply looks_validate_backend_config.
Qed.

(** From the journal to the cleanup. *)
Lemma hoare_release_locked tombstone (Q : result StorageError unit -> World -> Prop) w :
  in_release w -> tombstone = tombstones w !! record_file ->
  settles Q ->
  hoare (release_locked layout r record_file tombstone) Q w.
Proof.
  intros Hi Ht HQ. unfold release_locked.
  apply hoare_io_bind, hoare_req. intros b w2 [-> Hb]. split; [done|]. apply hoare_ret.
  destruct b as [j|e]; [|by apply settles_err]. destruct Hb as [Hj Hv].
  unfold journal_at in Hj. rewrite release_journal_name in Hj.
  apply hoare_looks_step; [apply looks_authenticate|done|by intros; apply settles_err|]. intros s.
  apply hoare_looks_step; [calls|done|by intros; apply settles_err|]. intros _.
  destruct Hi as [Hi|[Hi|Hi]].
  - (* Ready *)
    destruct Hi as (Hu & Hj' & Hts & Hvol & Hm). assert (j = PhaseJournal.ready r) as -> by congruence.
    rewrite (bool_decide_true (PhaseJournal.phase _ = _)) by done.
    assert (forall w', leased w' -> journals w' !! record_file = Some (PhaseJournal.ready r) ->
      tombstoned w' -> volumes w' = volumes w -> mountpoints w' = mountpoints w ->
      hoare (_ ← try_ (JournalWrite layout (PhaseJournal.releasing r ReleasePhase.Mounted));
             cleanup_identity layout (AllocationReceipt.backend r)
               (AllocationReceipt.reserved_bytes r) (Some r)) Q w') as Hgo.
    { intros w' Hu' Hj1 Ht1 Hv1 Hm1.
      assert (in_release w') as Hi'.
      { left. split_and!; [done|done|by right| |]; [by rewrite Hv1|by rewrite Hm1]. }
      set (w3 := set_journals (<[record_file := PhaseJournal.releasing r ReleasePhase.Mounted]>
                                 (journals w')) w').
      assert (releasing_phase w3) as Hr3.
      { split_and!; [done..| |].
        - unfold mountpoint_ok. simpl. rewrite Hm1. destruct Hm as (m & -> & ?). done.
        - exists ReleasePhase.Mounted. simpl. by rewrite lookup_insert_eq. }
      apply hoare_io_bind, (hoare_update _ w3); [|done|by apply releasing_in|by intros; apply settles_err|].
      - intros b w2 Hs. cbn [storage_sem] in Hs. unfold journal_at in Hs.
        rewrite release_journal_name, (validate_releasing r _ layout receipt_valid), Hj1 in Hs.
        by eapply update_moves.
      - intros [[]|e]; [by apply hoare_release_cleanup|by apply settles_err, releasing_in]. }
    destruct Hts as [Hnone|Hts].
    + rewrite Ht, Hnone, (bool_decide_true (None = None)) by done.
      set (w1 := set_tombstones (<[record_file := receipt_to_json r]> (tombstones w)) w).
      assert (tombstoned w1) as Ht1 by (unfold tombstoned; simpl; by rewrite lookup_insert_eq).
      apply hoare_io_bind, (hoare_update _ w1).
      * intros b w2 Hs. simpl in Hs. rewrite Hnone in Hs. by eapply update_moves.
      * left. split_and!; [done|done|by left|done|done].
      * left. split_and!; [done|done|by right|done|done].
      * intros e. apply settles_err; [done|]. left. split_and!; [done|done|by left|done|done].
      * intros [[]|e]; [by apply Hgo|]. apply settles_err; [done|]. left. split_and!; [done|done|by right|done|done].
    + rewrite Ht, Hts, (bool_decide_false (Some _ = None)) by done.
      apply (hoare_ok_bind _ _ tt). by apply Hgo.
  - (* Releasing *)
    pose proof Hi as (Hu & Hts & Hm & p & Hj'). assert (j = PhaseJournal.releasing r p) as -> by congruence.
    rewrite (bool_decide_false (PhaseJournal.phase _ = _)) by done.
    rewrite Ht, Hts, (bool_decide_false (Some _ = None)) by done.
    apply (hoare_ok_bind _ _ tt), (hoare_ok_bind _ _ tt). by apply hoare_release_cleanup.
  - destruct Hi as (_ & _ & Hnone & _). congruence.
Qed.

(** The answer [true] is given when nothing is left. *)
Lemma hoare_already_released tombstone w :
  in_release w -> tombstone = tombstones w !! record_file ->
  hoare (already_released layout r tombstone)
    (fun b w' => w' = w /\ (b = Ok true -> physically_released w)) w.
Proof.
  intros Hi Ht. unfold already_released. destruct tombstone as [bytes|]; [|by apply hoare_ret].
  case_bool_decide as Hb; [|by apply hoare_ret]. subst bytes. cbn [negb]. unfold path_is_exactly_absent.
  apply hoare_io_bind, hoare_io_bind, hoare_req. intros m w2 [-> Hm]. rewrite release_file_name in Hm.
  split; [done|]. apply hoare_ret.
  destruct m as [m|[]]; try (by apply hoare_ret); [by apply hoare_ret, hoare_ret|].
  apply hoare_ret, hoare_io_bind, hoare_state_seen; [done|done|]. intros s Hs%volume_state_seen.
  apply hoare_ret. split; [done|]. intros [= Ha%bool_decide_eq_true]. split_and!; [done|done|by apply Hs].
Qed.

Lemma hoare_release_phases w :
  in_release w ->
  hoare (release state_root r) (fun b w' => in_release w' /\ forall u, b = Ok u -> physically_released w') w.
Proof.
  intros Hi. unfold release. rewrite layout_of. apply hoare_ok_bind.
  rewrite release_tombstone. apply hoare_ok_bind.
  apply hoare_io_bind, hoare_req. intros b w2 [-> Hb]. split; [done|]. apply hoare_ret.
  destruct b as [o|e]; [|done]. subst o.
  apply hoare_io_bind. eapply hoare_mono; [by apply hoare_already_released|].
  intros [[]|e] w' [-> Hr]; [apply hoare_ret; auto| |done].
  apply hoare_looks_step; [calls|done|done|]. intros hs.
  apply hoare_looks_step; [calls|done|done|]. intros _.
  apply hoare_looks_step; [calls|done|done|]. intros _.
  apply hoare_looks_step; [calls|done|done|]. intros _.
  by apply hoare_release_locked.
Qed.

End Interrupted.

(** ** On a host that works *)
Section Steady.
Context `{StorageHost}.
Hypothesis host_matches : host_of r.

Lemma run_validate_backend_config j w :
  PhaseJournal.backend_kind j = AllocationReceipt.backend_kind r ->
  PhaseJournal.backend_key j = AllocationReceipt.backend_key r ->
  PhaseJournal.pool_identity j = AllocationReceipt.pool_identity r ->
  PhaseJournal.labels j = AllocationReceipt.labels r ->
  run steady (validate_backend_config j) w = (Ok tt, w).
Proof.
  intros Hk Hy Hp Hl. destruct host_matches as (Mk & My & Mp & _).
  unfold validate_backend_config. rewrite run_bind_try. cbn [steady].
  rewrite run_bind_ask. cbn [steady BackendCapability.backend BackendCapability.pool_identity].
  rewrite Hk, Hy, Hp, Hl, Mk, My, Mp, !bool_decide_true by done. done.
Qed.

(** The path of the mountpoint shows what the directory has. *)
Lemma steady_path w :
  steady _ (PathMetadata (ExecutionLayout.root layout)) w = (ok_or (mountpoints w !! id) NOENT, w).
Proof. cbn [steady]. by rewrite release_file_name. Qed.

Lemma run_authenticate j w :
  PhaseJournal.receipt j = Some r -> PhaseJournal.phase j <> AllocationPhase.Allocating ->
  PhaseJournal.backend_kind j = AllocationReceipt.backend_kind r ->
  PhaseJournal.backend_key j = AllocationReceipt.backend_key r ->
  PhaseJournal.pool_identity j = AllocationReceipt.pool_identity r ->
  PhaseJournal.labels j = AllocationReceipt.labels r ->
  mountpoint_ok true w ->
  run steady (authenticate_cleanup_authority layout r j) w = (Ok (volume_state w layout token), w).
Proof.
  intros Hr Hph Hk Hy Hp Hl Hm. destruct host_matches as (_ & _ & _ & Md).
  unfold authenticate_cleanup_authority.
  rewrite (validate_ready_receipt r layout receipt_valid), run_bind_ok, run_bind_guard.
  rewrite Hr, receipt_eqb_refl, (bool_decide_false (PhaseJournal.phase j = _)) by done. cbn [negb andb].
  rewrite run_io_bind, run_validate_backend_config by done.
  rewrite run_bind_ask. cbn [steady]. rewrite Md, run_bind_guard, bool_decide_true by done.
  rewrite run_bind_try. cbn [steady]. rewrite run_bind_try. cbn [steady].
  rewrite run_bind_ask, steady_path. unfold mountpoint_ok in Hm.
  destruct (mountpoints w !! id) as [m|]; cbn [ok_or].
  - rewrite run_bind_guard, (is_dir_real m Hm), run_bind_try. done.
  - unfold volume_state. by rewrite Hm, bool_decide_true by done.
Qed.

Lemma steady_write p w :
  releasing_phase false w ->
  exists w', steady _ (JournalWrite layout (PhaseJournal.releasing r p)) w = (Ok tt, w') /\
    releasing_phase false w' /\ volumes w' = volumes w.
Proof.
  intros (Hu & Ht & Hm & p' & Hj). cbn [steady]. unfold journal_at.
  rewrite release_journal_name, (validate_releasing r p layout receipt_valid), Hj.
  eexists. split; [done|]. split; [|done]. split_and!; [done..|].
  exists p. simpl. by rewrite lookup_insert_eq.
Qed.

Lemma volume_state_eq w w' :
  volumes w' = volumes w -> volume_state w' layout token = volume_state w layout token.
Proof. unfold volume_state. by intros ->. Qed.

(** One step of the cleanup: the call brings the volume to [wanted]. *)
Lemma run_release_step (c : storage_call (result StorageError unit)) w w1 wanted message phase bytes :
  steady _ c w = (Ok tt, w1) -> volume_state w1 layout token = wanted -> releasing_phase false w1 ->
  exists w', run steady
    (_ ← try_ c;
     state ← try_ (State layout (AllocationReceipt.backend r) bytes);
     _ ← guard_or (bool_decide (state = wanted)) (mismatch message);
     _ ← journal_progress layout (Some r) phase;
     mret state) w = (Ok wanted, w') /\ releasing_phase false w' /\ volume_state w' layout token = wanted.
Proof.
  intros Hc Hw Hr1. destruct (steady_write phase _ Hr1) as (w2 & Hs2 & Hr2 & Hv2).
  rewrite run_bind_try, Hc, run_bind_try. cbn [steady]. rewrite Hw, run_bind_guard, bool_decide_true by done.
  unfold journal_progress. rewrite run_bind_try, Hs2. exists w2. split_and!; [done..|].
  by rewrite (volume_state_eq _ _ Hv2).
Qed.

Lemma host_unmounted_sem w : unmounted false layout token w (host_unmounted layout token w).
Proof.
  unfold host_unmounted, unmounted. rewrite release_file_name.
  destruct host_removes_mountpoints; [right; eauto|by left].
Qed.

Lemma unmounted_state w w' :
  unmounted false layout token w w' -> is_Some (volumes w !! token) -> volume_state w' layout token = BackendState.Unmounted.
Proof.
  intros Hu [v Hv]. unfold volume_state. destruct Hu as [->|(_ & name & _ & ->)]; simpl; by rewrite lookup_alter_eq, Hv.
Qed.

Lemma run_unmount bytes w s :
  releasing_phase false w -> s = volume_state w layout token ->
  exists s' w', run steady (cleanup_unmount layout (AllocationReceipt.backend r) bytes (Some r) s) w =
    (Ok s', w') /\ releasing_phase false w' /\ s' = volume_state w' layout token /\ s' <> BackendState.Mounted.
Proof.
  intros Hr Hs. unfold cleanup_unmount. case_bool_decide as Hm; [|by exists s, w].
  destruct (run_release_step (Unmount layout (AllocationReceipt.backend r)) w (host_unmounted layout token w)
    BackendState.Unmounted "backend remained mounted after exact unmount" ReleasePhase.Unmounted bytes)
    as (w' & Hrun & Hr' & Hv').
  - done.
  - apply (unmounted_state w); [apply host_unmounted_sem|]. unfold volume_state in Hs.
    destruct (volumes w !! token); [done|congruence].
  - eapply releasing_unmounted; [exact Hr|apply host_unmounted_sem].
  - by exists BackendState.Unmounted, w'.
Qed.

Lemma run_remove bytes w s :
  releasing_phase false w -> s = volume_state w layout token -> s <> BackendState.Mounted ->
  exists w', run steady (cleanup_remove layout (AllocationReceipt.backend r) bytes (Some r) s) w =
    (Ok BackendState.Absent, w') /\ releasing_phase false w' /\
    volume_state w' layout token = BackendState.Absent.
Proof.
  intros Hr Hs Hm. unfold cleanup_remove. case_bool_decide as Hu.
  - destruct (run_release_step (Remove (AllocationReceipt.backend r)) w
      (set_volumes (delete token (volumes w)) w) BackendState.Absent
      "backend object remained after exact removal" ReleasePhase.ObjectAbsent bytes)
      as (w' & Hrun & Hr' & Hv').
    + done.
    + unfold volume_state. simpl. by rewrite lookup_delete_eq.
    + apply releasing_volumes; [done|]. intros _. by apply lookup_delete_eq.
    + by exists w'.
  - exists w. assert (s = BackendState.Absent) as -> by by destruct s. done.
Qed.

Lemma absent_volume w : volume_state w layout token = BackendState.Absent -> volumes w !! token = None.
Proof.
  unfold volume_state. destruct (volumes w !! token) as [v|]; [|done]. by destruct (Volume.mounted_at v).
Qed.

Lemma run_release_end w :
  releasing_phase false w -> volumes w !! token = None ->
  exists w', run steady (_ ← remove_released_mountpoint layout; try_ (JournalRemove layout)) w = (Ok tt, w') /\
    released_phase w'.
Proof.
  intros (Hu & Ht & Hm & p & Hj) Hv. unfold remove_released_mountpoint. rewrite run_io_bind, run_bind_try.
  cbn [steady]. rewrite release_mountpoint_name, run_bind_ok, run_bind_try. cbn [steady].
  unfold mountpoint_ok in Hm. destruct (mountpoints w !! id) as [m|] eqn:Em.
  - rewrite Hm. cbn [run try_ steady]. rewrite Em. cbn [run try_ steady].
    unfold journal_at. cbn [journals set_mountpoints]. rewrite release_journal_name, Hj.
    eexists. split; [done|]. split_and!; [done..| | |done]; simpl; by rewrite lookup_delete_eq.
  - cbn [run mret io_ret try_ steady]. unfold journal_at. rewrite release_journal_name, Hj.
    eexists. split; [done|]. split_and!; [done..| |done|done]. simpl. by rewrite lookup_delete_eq.
Qed.

Lemma run_release_cleanup bytes w :
  releasing_phase false w ->
  exists w', run steady (cleanup_identity layout (AllocationReceipt.backend r) bytes (Some r)) w =
    (Ok tt, w') /\ released_phase w'.
Proof.
  intros Hr. unfold cleanup_identity. rewrite run_bind_try. cbn [steady].
  destruct (run_unmount bytes w _ Hr eq_refl) as (s1 & w1 & Hrun1 & Hr1 & Hs1 & Hm1).
  rewrite run_io_bind, Hrun1. destruct (run_remove bytes w1 s1 Hr1 Hs1 Hm1) as (w2 & Hrun2 & Hr2 & Hs2).
  rewrite run_io_bind, Hrun2, run_bind_guard, bool_decide_true by done.
  by apply run_release_end; [|apply absent_volume].
Qed.

(** From the journal to the end. *)
Lemma run_release_locked w tombstone :
  ready_phase w \/ releasing_phase true w -> tombstone = tombstones w !! record_file ->
  exists w', run steady (release_locked layout r record_file tombstone) w = (Ok tt, w') /\
    released_phase w'.
Proof.
  intros [Hi|Hi] ->; unfold release_locked; rewrite run_bind_try; cbn [steady]; unfold journal_at;
    rewrite release_journal_name.
  - pose proof Hi as (Hu & Hj & Ht & (v & path & Hv & Hp) & (m & Hm & Hd)).
    rewrite Hj, receipt_valid, run_io_bind, run_authenticate;
      [|done..|unfold mountpoint_ok; by rewrite Hm].
    rewrite (bool_decide_true (PhaseJournal.phase _ = _)) by done. rewrite run_bind_guard.
    assert (volume_state w layout token = BackendState.Mounted) as ->
      by (unfold volume_state; by rewrite Hv, Hp).
    rewrite (bool_decide_true (BackendState.Mounted = _)) by done. cbn [negb andb].
    assert (forall w', leased w' -> journals w' !! record_file = Some (PhaseJournal.ready r) ->
      tombstoned w' -> volumes w' = volumes w -> mountpoints w' = mountpoints w ->
      exists w2, run steady (_ ← try_ (JournalWrite layout (PhaseJournal.releasing r ReleasePhase.Mounted));
             cleanup_identity layout (AllocationReceipt.backend r)
               (AllocationReceipt.reserved_bytes r) (Some r)) w' = (Ok tt, w2) /\ released_phase w2) as Hgo.
    { intros w' Hu' Hj' Ht' Hv' Hm'. rewrite run_bind_try. cbn [steady]. unfold journal_at.
      rewrite release_journal_name, (validate_releasing r _ layout receipt_valid), Hj'.
      apply run_release_cleanup. split_and!; [done..| |].
      - unfold mountpoint_ok. simpl. by rewrite Hm', Hm.
      - exists ReleasePhase.Mounted. simpl. by rewrite lookup_insert_eq. }
    destruct Ht as [Hnone|Ht].
    + rewrite Hnone, (bool_decide_true (None = None)), run_bind_try by done. cbn [steady].
      rewrite Hnone. apply Hgo; [done|done| |done|done].
      unfold tombstoned. simpl. by rewrite lookup_insert_eq.
    + rewrite Ht, (bool_decide_false (Some _ = None)) by done. by apply Hgo.
  - pose proof Hi as (Hu & Ht & Hm & p & Hj).
    rewrite Hj, (validate_releasing r p layout receipt_valid), run_io_bind, run_authenticate by done.
    rewrite (bool_decide_false (PhaseJournal.phase _ = _)) by done. rewrite run_bind_guard. cbn [negb andb].
    rewrite Ht, (bool_decide_false (Some _ = None)) by done. by apply run_release_cleanup, releasing_weaken.
Qed.

Lemma run_already_released w :
  run steady (already_released layout r (tombstones w !! record_file)) w =
  match tombstones w !! record_file with
  | Some bytes =>
      if bool_decide (bytes = receipt_to_json r)
      then (Ok (bool_decide (mountpoints w !! id = None /\ volumes w !! token = None)), w)
      else (Err (mismatch "release tombstone belongs to another allocation receipt"), w)
  | None => (Ok false, w)
  end.
Proof.
  unfold already_released. destruct (tombstones w !! record_file) as [bytes|]; [|done].
  case_bool_decide; [|done]. cbn [negb]. unfold path_is_exactly_absent.
  rewrite run_io_bind, run_bind_ask, steady_path.
  destruct (mountpoints w !! id) as [m|]; cbn [ok_or].
  - rewrite bool_decide_false; [done|]. by intros [? _].
  - cbn [run mret io_ret]. rewrite run_bind_try. cbn [steady run mret io_ret]. do 2 f_equal.
    apply bool_decide_ext. split; [|intros [_ Hv]; unfold volume_state; by rewrite Hv].
    intros Ha%absent_volume. done.
Qed.

Lemma run_release w :
  phases true w -> unheld w ->
  exists w', run steady (release state_root r) w = (Ok tt, w') /\ physically_released w'.
Proof.
  intros Hi Hh. unfold release. rewrite layout_of, run_bind_ok, release_tombstone, run_bind_ok.
  rewrite run_bind_try. cbn [steady]. rewrite run_io_bind, run_already_released.
  assert (ready_phase w \/ releasing_phase true w -> exists w', run steady (
    holds ← try_ (HoldsList id);
    _ ← guard_or (match holds with [] => true | _ => false end)
          (StorageError.Unavailable "execution has an unresolved durable lifecycle hold");
    _ ← try_ (OpenReadyLease layout);
    _ ← ask_or (TryLockExclusive layout) (fun e => StorageError.Unavailable
          ("execution has an active Ready consumer lease: " +:+ errno_text e));
    release_locked layout r record_file (tombstones w !! record_file)) w = (Ok tt, w') /\
    physically_released w') as Hgo.
  { intros Hp. assert (leased w) as (ln & Hln & Hin & Hout) by (destruct Hp as [[? _]|[? _]]; done).
    rewrite run_bind_try. cbn [steady]. rewrite filter_none by
      (intros h Hin'; apply bool_decide_eq_false; by apply Hh).
    rewrite run_bind_guard, run_bind_try. cbn [steady]. rewrite Hln, bool_decide_true by done.
    rewrite run_bind_ask_or. cbn [steady]. rewrite Hln, bool_decide_false by done.
    destruct (run_release_locked w _ Hp eq_refl) as (w' & Hrun & (_ & ? & _ & ? & ?)).
    exists w'. by split. }
  destruct Hi as [Hi%allocated_ready|[Hi|Hi]].
  - pose proof Hi as (_ & _ & [Hnone|Ht] & (v & path & Hv & _) & _).
    + rewrite Hnone. rewrite Hnone in Hgo. apply Hgo. by left.
    + rewrite Ht in *. rewrite (bool_decide_true (_ = receipt_to_json r)) by done.
      rewrite bool_decide_false by (intros [_ ?]; congruence). apply Hgo. by left.
  - pose proof Hi as (_ & Ht & _). rewrite Ht in *.
    rewrite (bool_decide_true (_ = receipt_to_json r)) by done.
    case_bool_decide as Hgone; [|apply Hgo; by right].
    exists w. split; [done|]. by split_and!; try apply Hgone.
  - destruct Hi as (_ & Ht & _ & Hm & Hv). rewrite Ht.
    rewrite (bool_decide_true (_ = receipt_to_json r)), bool_decide_true by done. by exists w.
Qed.

Lemma run_ack_release w :
  physically_released w ->
  run steady (ack_release state_root r) w =
    (Ok tt, set_tombstones (delete record_file (tombstones w)) w).
Proof.
  intros (Ht & Hm & Hv). unfold ack_release. rewrite release_tombstone, run_bind_ok, run_bind_try.
  cbn [steady]. rewrite Ht, layout_of, run_bind_ok, run_io_bind. cbn [run mret io_ret].
  rewrite run_bind_some, run_bind_guard, bool_decide_true by done. rewrite run_bind_try. cbn [steady].
  assert (volume_state w layout token = BackendState.Absent) as -> by (unfold volume_state; by rewrite Hv).
  rewrite run_bind_guard, bool_decide_true by done. unfold path_is_exactly_absent.
  rewrite run_io_bind, run_bind_ask, steady_path, Hm. cbn [ok_or run mret io_ret].
  by rewrite run_bind_guard.
Qed.
End Steady.
End Release.

(** ** A stranded volume *)
Section Stranded.
Context `{Serde} (state_root : string) (r : AllocationReceipt) (layout : ExecutionLayout).
Local Notation id := (OwnershipLabels.execution_id (AllocationReceipt.labels r)).
Local Notation token := (identity_token (AllocationReceipt.backend r)).
Hypothesis layout_of : ExecutionLayout.new state_root id = Ok layout.
Context (w : World).
Hypothesis is_stranded : stranded r layout w.

Local Notation hoare := (hoare_crash world_sem (fun w' => w' = w)).
(** Nothing is changed, and the answer is not [Ok] of what [P] excludes. *)
Local Notation refuses P := (fun b w' => w' = w /\ forall a, b = Ok a -> P a).

Lemma refuses_looks {A B} (P : B -> Prop) (m : stio A) (f : A -> stio B) :
  all_calls (@looks) m -> (forall a, hoare (f a) (refuses P) w) -> hoare (m ≫= f) (refuses P) w.
Proof.
  intros Hm Hf. apply hoare_io_bind. eapply hoare_mono.
  - apply (hoare_unchanged world_sem _ (@looks)); [|exact Hm|done]. intros. by eapply (looks_same false).
  - intros [a|e] w' ->; [apply Hf|done].
Qed.

Lemma refuses_call {A B} (P : B -> Prop) (c : storage_call (result StorageError A)) (f : A -> stio B) :
  (forall a w', world_sem _ c w (Ok a) w' -> w' = w /\ hoare (f a) (refuses P) w) ->
  (forall e w', world_sem _ c w (Err e) w' -> w' = w) -> hoare (try_ c ≫= f) (refuses P) w.
Proof.
  intros Hok He. apply hoare_io_bind, hoare_req. intros [a|e] w' Hs.
  - destruct (Hok a w' Hs) as [-> Hf]. split; [done|]. by apply hoare_ret.
  - rewrite (He e w' Hs). split; [done|]. by apply hoare_ret.
Qed.

Lemma refuses_guard {B} (P : B -> Prop) (b : bool) e (f : unit -> stio B) :
  (b = true -> hoare (f tt) (refuses P) w) -> hoare (guard_or b e ≫= f) (refuses P) w.
Proof. destruct b; intros Hf; [by apply hoare_ok_bind, Hf|]. by apply hoare_io_bind, hoare_ret. Qed.

Lemma refuses_state {B} (P : B -> Prop) bytes (f : BackendState -> stio B) :
  hoare (f (volume_state w layout token)) (refuses P) w ->
  hoare (try_ (State layout (AllocationReceipt.backend r) bytes) ≫= f) (refuses P) w.
Proof. intros Hf. apply refuses_call; [intros s w' [-> ->]; by split|by intros e w' [-> _]]. Qed.

Lemma stranded_present : volume_state w layout token <> BackendState.Absent.
Proof. destruct is_stranded as [[v Hv] _]. unfold volume_state. rewrite Hv. by destruct (Volume.mounted_at v). Qed.

(** Cleanup authority is only given while the mountpoint is there. *)
Lemma refuses_authenticate j :
  hoare (authenticate_cleanup_authority layout r j)
    (refuses (fun s => s = volume_state w layout token /\ is_Some (mountpoints w !! id))) w.
Proof.
  unfold authenticate_cleanup_authority.
  destruct (validate_receipt _ _ _) as [u|e]; [apply hoare_ok_bind|by apply hoare_io_bind, hoare_ret].
  apply refuses_guard. intros _. apply refuses_looks; [apply looks_validate_backend_config|]. intros _.
  apply refuses_looks; [calls|]. intros d. apply refuses_guard. intros _.
  apply refuses_looks; [calls|]. intros _. apply refuses_state.
  apply hoare_io_bind, hoare_req. intros m w2 [-> Hm]. rewrite (release_file_name state_root r layout layout_of) in Hm.
  split; [done|]. apply hoare_ret. destruct m as [m|e].
  - apply refuses_guard. intros _. apply refuses_looks; [calls|]. intros _. apply hoare_ret.
    split; [done|]. intros s [= <-]. by split.
  - destruct e; try (by apply hoare_ret). rewrite bool_decide_false by apply stranded_present. by apply hoare_ret.
Qed.

Lemma refuses_release_locked name tombstone :
  hoare (release_locked layout r name tombstone) (refuses (fun _ => False)) w.
Proof.
  unfold release_locked. apply refuses_call; [|by intros e w' [-> _]]. intros j w' [-> [Hj _]]. split; [done|].
  unfold journal_at in Hj. rewrite (release_journal_name state_root r layout layout_of) in Hj.
  apply hoare_io_bind. eapply hoare_mono; [apply refuses_authenticate|].
  intros [s|e] w' [-> Hs]; [|done]. destruct (Hs s eq_refl) as [-> Hm]. apply refuses_guard. intros Hg.
  destruct is_stranded as [_ [[Hready Hu]|Hnone]]; [|by rewrite Hnone in Hm; destruct Hm].
  rewrite Hready in Hj. injection Hj as <-. rewrite Hu in Hg. done.
Qed.

Lemma refuses_absent {B} (P : B -> Prop) (f : bool -> stio B) :
  (mountpoints w !! id = None -> hoare (f true) (refuses P) w) -> hoare (f false) (refuses P) w ->
  hoare (path_is_exactly_absent (ExecutionLayout.root layout) ≫= f) (refuses P) w.
Proof.
  intros Ht Hf. unfold path_is_exactly_absent. apply hoare_io_bind, hoare_io_bind, hoare_req. intros m w2 [-> Hm].
  rewrite (release_file_name state_root r layout layout_of) in Hm. split; [done|]. apply hoare_ret.
  destruct m as [m|[]]; try (by apply hoare_ret). by apply hoare_ret, Ht.
Qed.

Lemma stranded_release : hoare (release state_root r) (refuses (fun _ => False)) w.
Proof.
  unfold release. rewrite layout_of, (release_tombstone state_root r layout layout_of).
  apply hoare_ok_bind, hoare_ok_bind. apply refuses_looks; [calls|]. intros o.
  apply hoare_io_bind. eapply (hoare_mono _ _ _ (refuses (fun b => b = false))).
  - unfold already_released. destruct o as [bytes|]; [|apply hoare_ret; split; [done|by intros b [= <-]]].
    destruct (bool_decide _); [|by apply hoare_ret]. apply refuses_absent; [|apply hoare_ret; split; [done|by intros b [= <-]]].
    intros _. apply refuses_state, hoare_ret. split; [done|]. intros b [= <-]. by apply bool_decide_false, stranded_present.
  - intros [b|e] w' [-> Hb]; [|done]. rewrite (Hb b eq_refl).
    do 3 (apply refuses_looks; [calls|]; intros ?). apply refuses_looks; [calls|]. intros _. apply refuses_release_locked.
Qed.

Lemma stranded_ack_release : hoare (ack_release state_root r) (refuses (fun _ => False)) w.
Proof.
  unfold ack_release. rewrite (release_tombstone state_root r layout layout_of), layout_of.
  apply hoare_ok_bind, refuses_looks; [calls|]. intros o. apply hoare_ok_bind.
  pose proof (bool_decide_false _ stranded_present) as Hn.
  destruct o as [actual|]; apply hoare_io_bind.
  - apply hoare_ret, hoare_ok_bind, refuses_guard. intros _. apply refuses_state. rewrite Hn. by apply hoare_io_bind, hoare_ret.
  - eapply (hoare_mono _ _ _ (refuses (fun b => b = false))).
    + apply refuses_state. rewrite Hn. apply hoare_ret. split; [done|by intros b [= <-]].
    + intros [b|e] w' [-> Hb]; [|done]. rewrite (Hb b eq_refl). by apply hoare_io_bind, hoare_ret.
Qed.
End Stranded.

(** ** Interrupted, resumed, acknowledged *)

(** What happens to an allocation that is being released: an attempt, which may
    end or be cut short anywhere, or a restart of the host. *)
Inductive release_step `{Serde} (keeps : bool) (state_root : string) (r : AllocationReceipt) (w w' : World) : Prop :=
| ReleaseTried tr res : exec (storage_sem keeps) quiet (release state_root r) w tr res w' ->
    release_step keeps state_root r w w'
| ReleaseRestarted : rebooted w w' ->
    (keeps = true -> journals w !! record_file r <> Some (PhaseJournal.ready r)) ->
    release_step keeps state_root r w w'.

Lemma steps_phases `{Serde} keeps state_root r layout w w' :
  ExecutionLayout.new state_root (OwnershipLabels.execution_id (AllocationReceipt.labels r)) = Ok layout ->
  PhaseJournal.validate (PhaseJournal.ready r) layout = Ok tt ->
  rtc (release_step keeps state_root r) w w' -> phases r layout keeps w -> phases r layout keeps w'.
Proof.
  intros Hl Hv. induction 1 as [w|w w1 w2 [tr res He|Hb Hk] _ IH]; [done|..]; intros Hi; apply IH.
  - by eapply (hoare_exec (storage_sem keeps) (phases r layout keeps) _ _ _ _ _ _ He Hi),
      (hoare_release_phases state_root r layout Hl Hv).
  - by eapply rebooted_phases.
Qed.

(** No storage call makes or removes a hold. *)
Lemma world_sem_holds keeps B (c : storage_call B) w b w' : storage_sem keeps B c w b w' -> holds w' = holds w.
Proof. intros Hs. destruct c; simpl in Hs; by world_cases Hs. Qed.

Lemma steps_unheld `{Serde} keeps state_root r w w' :
  rtc (release_step keeps state_root r) w w' -> unheld r w -> unheld r w'.
Proof.
  intros Hs. assert (holds w' = holds w) as Hh; [|unfold unheld; by rewrite Hh].
  induction Hs as [w|w w1 w2 [tr res He|Hb _] _ IH]; [done| |by rewrite IH, Hb]. rewrite IH. clear IH.
  induction He as [| | |B c k b s s1 tr r' s' Hs _ IH]; [done..|]. rewrite IH. by eapply world_sem_holds.
Qed.

(** Running [release] again on a working host returns [Ok] and leaves neither
    the volume nor its mountpoint; [ack_release] then removes the tombstone that
    keeps the execution from being allocated again. *)
Definition finishes `{Serde, StorageHost} (state_root : string) (r : AllocationReceipt) (w : World) : Prop :=
  exists w2 w3, run steady (release state_root r) w = (Ok tt, w2) /\ physically_released r w2 /\
    run steady (ack_release state_root r) w2 = (Ok tt, w3) /\
    tombstones w3 !! record_file r = None /\ volumes w3 = volumes w2.

(** No attempt to release or to acknowledge returns [Ok] or changes anything, now
    or after any further attempts and restarts. *)
Definition refused_for_good `{Serde} (state_root : string) (r : AllocationReceipt) (w : World) : Prop :=
  forall w1, rtc (release_step false state_root r) w w1 ->
  is_Some (volumes w1 !! identity_token (AllocationReceipt.backend r)) /\
  forall m, m = release state_root r \/ m = ack_release state_root r ->
  forall tr res w2, exec world_sem quiet m w1 tr res w2 -> w2 = w1 /\ res <> Some (Ok tt).

Lemma stranded_refused `{Serde} state_root r layout w :
  ExecutionLayout.new state_root (OwnershipLabels.execution_id (AllocationReceipt.labels r)) = Ok layout ->
  stranded r layout w -> refused_for_good state_root r w.
Proof.
  intros Hl Hs w1 Hsteps. assert (stranded r layout w1) as H1.
  { revert Hs. induction Hsteps as [w|w w1 w2 [tr res He|Hb _] _ IH]; [done|..]; intros Hs; apply IH.
    - by destruct (hoare_exec world_sem (fun w' => w' = w) _ _ _ _ _ _ He eq_refl
        (stranded_release state_root r layout Hl w Hs)) as [-> _].
    - by eapply rebooted_stranded. }
  split; [apply H1|]. intros m Hm tr res w2 He.
  assert (hoare_crash world_sem (fun w' => w' = w1) m (fun b w' => w' = w1 /\ forall a, b = Ok a -> False) w1) as Hh
    by (destruct Hm as [-> | ->]; [by eapply stranded_release|by eapply stranded_ack_release]).
  destruct (hoare_exec world_sem (fun w' => w' = w1) _ _ _ _ _ _ He eq_refl Hh) as [-> HQ].
  split; [done|]. intros ->. by destruct (HQ _ eq_refl) as [_ Hf]; apply (Hf tt).
Qed.

(** C21: A release is finished in the end, unless it strands its volume.  Take a
    Ready allocation that nobody holds, any number of attempts to release it, each
    failing or cut short at any call, and restarts of the host in between.  If
    the volume is not stranded then, running [release] once more on a working host
    of the same backend, pool and daemon returns [Ok] and leaves neither the
    volume nor its mountpoint, and [ack_release] returns [Ok] and removes the
    tombstone.  If it is stranded - Ready but no longer mounted, or without its
    mountpoint - no later [release] or [ack_release] returns [Ok] or changes
    anything, and the volume stays.  A backend that leaves its mountpoints in
    place strands nothing on a host that does not restart before the release has
    begun. *)
Theorem release_finishes `{Serde, StorageHost} (state_root : string) (r : AllocationReceipt)
    (layout : ExecutionLayout) (w0 : World) :
  ExecutionLayout.new state_root (OwnershipLabels.execution_id (AllocationReceipt.labels r)) = Ok layout ->
  PhaseJournal.validate (PhaseJournal.ready r) layout = Ok tt ->
  host_of r -> ready_phase r layout w0 -> unheld r w0 ->
  (forall w1, rtc (release_step false state_root r) w0 w1 ->
     (~ stranded r layout w1 -> finishes state_root r w1) /\
     (stranded r layout w1 -> refused_for_good state_root r w1)) /\
  (forall w1, rtc (release_step true state_root r) w0 w1 -> ~ stranded r layout w1).
Proof.
  intros Hl Hv Hh Hr Hu. split; intros w1 Hs.
  - split; [|by apply stranded_refused]. intros Hn.
    assert (phases r layout true w1) as Hi
      by (apply unstranded_phases; [|done]; eapply steps_phases; [done..|by apply ready_phases]).
    destruct (run_release state_root r layout Hl Hv Hh w1 Hi (steps_unheld _ _ _ _ _ Hs Hu)) as (w2 & Hrun & Hp).
    exists w2, (set_tombstones (delete (record_file r) (tombstones w2)) w2).
    split_and!; [done|done| | |done]; [by eapply run_ack_release|]. simpl. by rewrite lookup_delete_eq.
  - eapply phases_stranded, steps_phases; [done..|by apply ready_phases].
Qed.

Lemma leased_intro layout w name :
  lease_name layout = Ok name -> name ∈ leases w -> name ∉ shared_leases w ->
  leased layout w.
Proof. intros Hn Hi Ho. by exists name. Qed.

Lemma unheld_intro r w : holds w = [] -> unheld r w.
Proof. intros Hh h Hin. rewrite Hh in Hin. by apply elem_of_nil in Hin. Qed.

(** An allocation on the example host. *)
Definition example_receipt : AllocationReceipt :=
  match (run steady (allocate "/state" example_request) empty_world).1 with
  | Ok r => r
  | Err _ => {| AllocationReceipt.api_version := ""; AllocationReceipt.labels := example_labels;
                AllocationReceipt.reserved_bytes := 0; AllocationReceipt.mount_path := "";
                AllocationReceipt.backend_kind := ""; AllocationReceipt.backend_key := "";
                AllocationReceipt.pool_identity := "";
                AllocationReceipt.backend := host_identity "";
                AllocationReceipt.docker_bind := example_bind "" |}
  end.

Definition allocated_world : World := (run steady (allocate "/state" example_request) empty_world).2.

(** A host whose [remove] always fails, with a backend that keeps its mountpoints
    or one that does not. *)
Definition stubborn (keeps : bool) (B : Type) (c : storage_call B) (w : World) : B * World :=
  match c in storage_call B return B * World with
  | Remove b => (Err (StorageError.Command "lvremove failed"), w)
  | Unmount layout b =>
      let w1 := alter_volume (identity_token b) (mounted None) w in
      (Ok tt, match file_name (ExecutionLayout.root layout) with
              | Some name => if keeps then w1 else set_mountpoints (delete name (mountpoints w)) w1
              | None => w1
              end)
  | c => steady _ c w
  end.

Lemma stubborn_sem keeps B (c : storage_call B) w : world_sem B c w (stubborn keeps B c w).1 (stubborn keeps B c w).2.
Proof.
  destruct c; try apply steady_sem; [|by left]. right. unfold unmounted. simpl.
  destruct (file_name _) as [name|]; [|by left]. destruct keeps; [by left|right; eauto].
Qed.

Definition failed_release (keeps : bool) : World :=
  (run (stubborn keeps) (release "/state" example_receipt) allocated_world).2.
Definition restarted_world : World :=
  set_shared_leases ∅ (set_volumes (mounted None <$> volumes allocated_world) allocated_world).

Lemma example_steps keeps : rtc (release_step false "/state" example_receipt) allocated_world (failed_release keeps).
Proof.
  apply rtc_once. destruct (run_exec (stubborn keeps) world_sem quiet (release "/state" example_receipt) allocated_world
    (stubborn_sem keeps)) as [tr Htr]. by eapply ReleaseTried.
Qed.

Lemma example_ready_phase : ready_phase example_receipt example_layout allocated_world.
Proof.
  split_and!.
  - apply leased_intro with "exec-1.lease"%string.
    + vm_compute. reflexivity.
    + refine (bool_decide_eq_true_1 ("exec-1.lease"%string ∈ leases allocated_world) _). vm_compute. reflexivity.
    + refine (bool_decide_eq_false_1 ("exec-1.lease"%string ∈ shared_leases allocated_world) _).
      vm_compute. reflexivity.
  - vm_compute. reflexivity.
  - left. vm_compute. reflexivity.
  - eexists _, _. split; [vm_compute; reflexivity|]. vm_compute. reflexivity.
  - eexists. split; vm_compute; reflexivity.
Qed.

Lemma example_restart w : rtc (release_step false "/state" example_receipt) w (set_shared_leases ∅ (set_volumes (mounted None <$> volumes w) w)).
Proof. apply rtc_once, ReleaseRestarted; [reflexivity|discriminate]. Qed.

(** A release whose removal failed is finished by the next; the same failure with
    a backend that removed the mountpoint, and a restart before the release, strand
    the volume. *)
Lemma release_finishes_witness :
  volume_state (failed_release true) example_layout "token" = BackendState.Unmounted /\
  finishes "/state" example_receipt (failed_release true) /\
  refused_for_good "/state" example_receipt (failed_release false) /\
  refused_for_good "/state" example_receipt restarted_world.
Proof.
  destruct (release_finishes "/state" example_receipt example_layout allocated_world) as [Hany Hkeeps].
  - vm_compute. reflexivity.
  - vm_compute. reflexivity.
  - vm_compute. done.
  - apply example_ready_phase.
  - apply unheld_intro. vm_compute. reflexivity.
  - split_and!.
    + vm_compute. reflexivity.
    + apply Hany; [apply example_steps|]. intros [_ [[Hj _]|Hm]].
      * vm_compute in Hj. discriminate Hj.
      * vm_compute in Hm. discriminate Hm.
    + apply Hany; [apply example_steps|]. split; [eexists; vm_compute; reflexivity|]. right. vm_compute. reflexivity.
    + apply Hany; [apply example_restart|]. split; [eexists; vm_compute; reflexivity|]. left. split; vm_compute; reflexivity.
Defined.
