(* ===== verification/StorageAllocate.v ===== *)
(** * What an allocation establishes

    A run of [allocate] that returns a receipt ends in the world that
    [release] starts from: the Ready journal of that receipt, a mounted volume
    with its token, a real directory at its mountpoint and a lease file.  An
    allocation that dies between its mountpoint and its journal leaves a
    mountpoint that no later allocation gets past. *)

From Stdlib Require Import Ascii.
From S2P Require Import Prelude Core Lifecycle Effects StorageModel FileSystem Pinned MetadataStore RecordAtomicity StorageManager StorageWorld StorageCodec StorageSafety StorageRelease.
















Import Storage.

(** ** Rules for results *)
Section Rules.
Local Notation hoare := (hoare_crash world_sem (fun _ => True)).

Lemma hoare_any {A} (p : proc storage_call A) (Q : A -> World -> Prop) w :
  (forall a w', Q a w') -> hoare p Q w.
Proof.
  intros HQ. revert w. induction p as [a|B c k IH]; intros w.
  - by apply hoare_ret.
  - apply hoare_req. intros b w2 _. split; [done|]. apply IH.
Qed.

(** A preorder that every call of the program respects. *)
Lemma hoare_frame (P : forall B, storage_call B -> Prop) (R : World -> World -> Prop)
    `{!PreOrder R} {A} (p : proc storage_call A) (Q : A -> World -> Prop) w :
  (forall B (c : storage_call B) w1 b w2, P B c -> world_sem B c w1 b w2 -> R w1 w2) ->
  all_calls P p -> (forall a w', R w w' -> Q a w') -> hoare p Q w.
Proof.
  intros HP. revert w. induction p as [a|B c k IH]; intros w Hp HQ.
  - apply hoare_ret, HQ. done.
  - destruct Hp as [Hc Hk]. apply hoare_req. intros b w2 Hs. split; [done|].
    apply IH; [apply Hk|]. intros a w' HR. apply HQ. etrans; [by eapply HP|done].
Qed.

Lemma hoare_conj {A} (p : proc storage_call A) (Q1 Q2 : A -> World -> Prop) w :
  hoare p Q1 w -> hoare p Q2 w -> hoare p (fun a w' => Q1 a w' /\ Q2 a w') w.
Proof.
  revert w. induction p as [a|B c k IH]; intros w H1 H2.
  - apply hoare_ret. split; [apply (H1 w)|apply (H2 w)]; apply rtc_refl.
  - apply hoare_req. intros b w2 Hs.
    destruct (H1 w (rtc_refl _ _) b w2 Hs), (H2 w (rtc_refl _ _) b w2 Hs). split; [done|]. by apply IH.
Qed.

(** Only an [Ok] matters. *)
Definition on_ok {A} (Q : A -> World -> Prop) (r : result StorageError A) (w : World) : Prop :=
  match r with Ok a => Q a w | Err _ => True end.

Lemma hoare_ok_any {A B} (m : stio A) (f : A -> stio B) Q w :
  (forall a w', hoare (f a) (on_ok Q) w') -> hoare (m ≫= f) (on_ok Q) w.
Proof. intros Hf. apply hoare_io_bind, hoare_any. by intros [a|e] w'. Qed.

Lemma hoare_ok_guard {B} (b : bool) e (f : unit -> stio B) Q w :
  (b = true -> hoare (f tt) (on_ok Q) w) -> hoare (guard_or b e ≫= f) (on_ok Q) w.
Proof. destruct b; intros Hf; [by apply Hf|by apply hoare_io_bind, hoare_ret]. Qed.

Lemma hoare_ok_result {A B} (x : result StorageError A) (f : A -> stio B) Q w :
  (forall a, x = Ok a -> hoare (f a) (on_ok Q) w) -> hoare (ret_result x ≫= f) (on_ok Q) w.
Proof. destruct x; intros Hf; [by apply Hf|by apply hoare_io_bind, hoare_ret]. Qed.

Lemma hoare_ok_try {A B} (c : storage_call (result StorageError A)) (f : A -> stio B) Q w :
  (forall a w', world_sem _ c w (Ok a) w' -> hoare (f a) (on_ok Q) w') ->
  hoare (try_ c ≫= f) (on_ok Q) w.
Proof.
  intros Hf. apply hoare_io_bind, hoare_req. intros [a|e] w2 Hs; (split; [done|]); apply hoare_ret; auto.
  done.
Qed.

Lemma hoare_ok_rollback {A B} (m : stio A) layout j identity (k : A -> stio B) Q w :
  (forall a w', hoare (k a) (on_ok Q) w') -> hoare (or_rollback m layout j identity k) (on_ok Q) w.
Proof.
  intros Hk. unfold or_rollback. apply hoare_io_bind, hoare_outcome_of, hoare_any.
  intros [a|e] w'; [done|]. unfold rollback_allocation.
  apply hoare_io_bind, hoare_any. by intros [[[]|e1]|e1] w2; [apply hoare_ret|apply hoare_ret|].
Qed.

Lemma hoare_ok_mono {A} (p : stio A) (Q Q' : A -> World -> Prop) w :
  hoare p (on_ok Q) w -> (forall a w', Q a w' -> Q' a w') -> hoare p (on_ok Q') w.
Proof. intros Hp HQ. eapply hoare_mono; [exact Hp|]. intros [a|e] w'; simpl; auto. Qed.
End Rules.

(** ** Calls that leave volumes and mountpoints *)
Definition still {B} (c : storage_call B) : Prop :=
  match c with
  | PublishMountpoint _ | RemoveMountpoint _ | Create _ _ _ _ | Prepare _ _ _ | Mount _ _ _
  | Unmount _ _ | Remove _ => False
  | _ => True
  end.

Definition same_volumes (w w' : World) : Prop :=
  volumes w' = volumes w /\ mountpoints w' = mountpoints w.

#[export] Instance same_volumes_preorder : PreOrder same_volumes.
Proof. split; [by intros w|]. intros w1 w2 w3 [? ?] [? ?]. split; congruence. Qed.

Lemma still_same B (c : storage_call B) w b w' :
  still c -> world_sem B c w b w' -> same_volumes w w'.
Proof. intros Hl Hs. destruct c; simpl in Hl, Hs; try done; by world_cases Hs. Qed.

(** ... and calls that leave the tombstones. *)
Definition untombed {B} (c : storage_call B) : Prop :=
  match c with TombstoneCreate _ _ | TombstoneRemove _ => False | _ => True end.

Definition same_tombstones (w w' : World) : Prop := tombstones w' = tombstones w.

#[export] Instance same_tombstones_preorder : PreOrder same_tombstones.
Proof. split; [by intros w|]. intros w1 w2 w3 H1 H2. unfold same_tombstones in *. congruence. Qed.

Lemma untombed_same B (c : storage_call B) w b w' :
  untombed c -> world_sem B c w b w' -> same_tombstones w w'.
Proof. intros Hl Hs. destruct c; simpl in Hl, Hs; try done; by world_cases Hs. Qed.

(** ** [publish_ready] *)
Section Publish.
Local Notation hoare := (hoare_crash world_sem (fun _ => True)).

(** What a receipt stands for. *)
Definition established (layout : ExecutionLayout) (labels : OwnershipLabels) (bytes : Z)
    (r : AllocationReceipt) (w : World) : Prop :=
  AllocationReceipt.labels r = labels /\ AllocationReceipt.reserved_bytes r = bytes /\
  PhaseJournal.validate (PhaseJournal.ready r) layout = Ok tt /\
  journal_at w layout = Some (PhaseJournal.ready r) /\
  volume_state w layout (identity_token (AllocationReceipt.backend r)) = BackendState.Mounted /\
  (exists name m, file_name (ExecutionLayout.root layout) = Some name /\
     mountpoints w !! name = Some m /\ is_real_directory m = true) /\
  exists lease, lease_name layout = Ok lease /\ lease ∈ leases w.

Lemma hoare_still_step {A B} (m : stio A) (f : A -> stio B) Q w0 w :
  all_calls (@still) m -> same_volumes w0 w ->
  (forall a w', same_volumes w0 w' -> hoare (f a) (on_ok Q) w') -> hoare (m ≫= f) (on_ok Q) w.
Proof.
  intros Hm Hw Hf. apply hoare_io_bind.
  apply (hoare_frame (@still) same_volumes); [apply still_same|done|].
  intros [a|e] w' Hw'; [|done]. apply Hf. by etrans.
Qed.

Lemma hoare_require_mounted {B} layout b bytes (f : unit -> stio B) Q w :
  (volume_state w layout (identity_token b) = BackendState.Mounted -> hoare (f tt) (on_ok Q) w) ->
  hoare (require_mounted layout b bytes ≫= f) (on_ok Q) w.
Proof.
  intros Hf. unfold require_mounted. apply hoare_io_bind, hoare_io_bind, hoare_req.
  intros [s|e] w2 [-> Hs]; (split; [done|]); apply hoare_ret; [|done].
  case_bool_decide; [|by apply hoare_ret]. apply hoare_ret. apply Hf. congruence.
Qed.

Lemma volume_state_same layout token w w' :
  same_volumes w w' -> volume_state w' layout token = volume_state w layout token.
Proof. unfold volume_state. by intros [-> _]. Qed.

Lemma hoare_publish_ready layout request capability b bytes w :
  hoare (publish_ready layout request capability b bytes)
    (on_ok (established layout (AllocationRequest.labels request) bytes)) w.
Proof.
  unfold publish_ready. apply hoare_require_mounted. intros Hmounted.
  apply hoare_ok_result. intros name Hname. unfold mountpoint_name in Hname. apply ok_or_Ok in Hname.
  apply hoare_io_bind, hoare_req. intros found w2 [-> Hfound].
  split; [done|]. apply hoare_ret. destruct found as [m|e]; [|done]. rewrite Hname in Hfound.
  cbn [map_err]. apply hoare_ok_guard. intros Hreal.
  assert (same_volumes w w) as Hw by reflexivity.
  apply (hoare_still_step _ _ _ w); [calls|done|]. intros mounted_root w1 Hw1.
  apply (hoare_still_step _ _ _ w); [calls|done|]. intros _ w2 Hw2.
  apply (hoare_still_step _ _ _ w); [unfold require_mounted; calls|done|]. intros _ w3 Hw3.
  apply (hoare_still_step _ _ _ w); [calls|done|]. intros _ w4 Hw4.
  apply (hoare_still_step _ _ _ w); [calls|done|]. intros bind w5 Hw5.
  apply (hoare_still_step _ _ _ w); [calls|done|]. intros _ w6 Hw6.
  apply hoare_ok_guard. intros _.
  apply (hoare_still_step _ _ _ w); [|done|].
  { unfold create_layout_directories. calls.
    generalize ["repository"; "session"; "credentials"; "runtime"]%string. intros names.
    revert mounted_root. induction names as [|n names IH]; intros root; cbn [publish_all]; calls. }
  intros dirs w7 Hw7.
  apply (hoare_still_step _ _ _ w); [calls|done|]. intros key w8 Hw8.
  apply hoare_ok_result. intros [] _.
  apply (hoare_still_step _ _ _ w); [calls|done|]. intros _ w9 Hw9.
  apply (hoare_still_step _ _ _ w); [calls|done|]. intros _ w10 Hw10.
  apply hoare_ok_try. intros [] w11 Hs11. cbn [storage_sem] in Hs11.
  destruct (lease_name layout) as [lease|] eqn:Hlease; [|by destruct Hs11]. destruct Hs11 as [_ ->].
  apply hoare_ok_try. intros [] w12 Hs12. cbn [storage_sem] in Hs12.
  destruct (journal_name layout) as [jn|] eqn:Hjn; [|by destruct Hs12].
  match type of Hs12 with context [PhaseJournal.validate ?j layout] =>
    destruct (PhaseJournal.validate j layout) as [[]|] eqn:Hv; [|by destruct Hs12] end.
  destruct (journal_at _ layout); [|by destruct Hs12]. destruct Hs12 as [_ ->].
  apply hoare_ret. split_and!; [done|done|done| | | |].
  - unfold journal_at. rewrite Hjn. simpl. by rewrite lookup_insert_eq.
  - rewrite <- Hmounted. apply volume_state_same. destruct Hw10. by split.
  - exists name, m. split; [done|]. split; [|done]. destruct Hw10 as [_ Hm]. simpl. by rewrite Hm.
  - exists lease. split; [done|]. simpl. set_solver.
Qed.
End Publish.

(** ** [allocate] *)
Section Allocate.
Context `{Serde} (state_root : string).
Local Notation hoare := (hoare_crash world_sem (fun _ => True)).

Lemma hoare_allocate_ok request w :
  hoare (allocate state_root request) (on_ok (fun r w' => exists layout bytes,
    disk_gib_to_bytes (AllocationRequest.disk_gib request) = Ok bytes /\
    ExecutionLayout.new state_root
      (OwnershipLabels.execution_id (AllocationRequest.labels request)) = Ok layout /\
    established layout (AllocationRequest.labels request) bytes r w')) w.
Proof.
  unfold allocate. apply hoare_ok_result. intros bytes Hbytes.
  apply hoare_ok_result. intros layout Hlayout.
  do 10 (apply hoare_ok_any; intros ? ?).
  apply hoare_io_bind, hoare_any. intros [[[]|error]|error] wj; [| |done].
  - unfold allocate_volume. do 8 (apply hoare_ok_rollback; intros ? ?).
    unfold or_rollback. apply hoare_io_bind, hoare_outcome_of.
    eapply hoare_mono; [apply hoare_publish_ready|]. intros [r|e] w2 Hr.
    + apply hoare_ret. exists layout, bytes. done.
    + unfold rollback_allocation.
      apply hoare_io_bind, hoare_any. by intros [[[]|e1]|e1] w3; [apply hoare_ret|apply hoare_ret|].
  - apply hoare_ok_any. intros _ w2. by apply hoare_ret.
Qed.

(** A tombstone stops an allocation, and an allocation makes none. *)
Lemma hoare_allocate_tombstones request w :
  hoare (allocate state_root request) (on_ok (fun _ w' =>
    forall name, release_tombstone_name
      (OwnershipLabels.execution_id (AllocationRequest.labels request)) = Ok name ->
    tombstones w' !! name = None)) w.
Proof.
  unfold allocate. apply hoare_ok_result. intros bytes _.
  apply hoare_ok_result. intros layout _. apply hoare_ok_result. intros name Hname.
  apply hoare_ok_try. intros t w1 [-> ->]. apply hoare_ok_guard. intros Hnone%bool_decide_eq_true.
  apply (hoare_frame (@untombed) same_tombstones); [apply untombed_same| |].
  - unfold recover_existing, authenticate_cleanup_authority, validate_backend_config,
      cleanup_identity, cleanup_unmount, cleanup_remove, journal_progress, remove_released_mountpoint,
      probe, create_mountpoint, allocate_volume, or_rollback, rollback_allocation, rollback_cleanup,
      publish_ready, require_mounted, create_layout_directories, cleanup_identity, cleanup_unmount,
      cleanup_remove, journal_progress, remove_released_mountpoint. calls.
    all: match goal with |- all_calls _ (publish_all ?p ?l) => generalize p; generalize l end.
    all: intros names; induction names as [|n names IH]; intros root; cbn [publish_all]; calls.
  - intros [r|e] w' Hw'; [|done]. intros name' Hname'. rewrite Hname in Hname'. simplify_eq.
    by rewrite Hw'.
Qed.
End Allocate.

(** C24: A receipt means a Ready allocation.  When a run of [allocate] returns a
    receipt, whatever was there before and whatever failed on the way, the
    receipt carries the requested labels and bytes, its journal is durably
    Ready and valid, the volume of its token is mounted, its mountpoint is a
    real directory and no release of the execution is pending; so once nobody
    holds its lease, it is in the phase a release starts from. *)
Theorem allocate_establishes_ready `{Serde} (state_root : string) (request : AllocationRequest)
    (w w' : World) tr (r : AllocationReceipt) :
  exec world_sem quiet (allocate state_root request) w tr (Some (Ok r)) w' ->
  exists layout bytes,
    disk_gib_to_bytes (AllocationRequest.disk_gib request) = Ok bytes /\
    ExecutionLayout.new state_root
      (OwnershipLabels.execution_id (AllocationRequest.labels request)) = Ok layout /\
    established layout (AllocationRequest.labels request) bytes r w' /\
    ((forall lease, lease_name layout = Ok lease -> lease ∉ shared_leases w') -> ready_phase r layout w').
Proof.
  intros He.
  destruct (hoare_exec world_sem _ _ _ _ _ _ _ He Logic.I
    (hoare_conj _ _ _ _ (hoare_allocate_ok state_root request w)
       (hoare_allocate_tombstones state_root request w))) as [_ HQ].
  destruct (HQ _ eq_refl) as [(layout & bytes & Hb & Hl & Hest) Ht]. exists layout, bytes.
  split_and!; [done..|]. intros Hs.
  destruct Hest as (Hlab & _ & Hv & Hj & Hmount & (name & m & Hname & Hm & Hreal) & lease & Hlease & Hin).
  assert (ExecutionLayout.new state_root
    (OwnershipLabels.execution_id (AllocationReceipt.labels r)) = Ok layout) as Hl' by congruence.
  pose proof (release_journal_name state_root r layout Hl') as Hjn.
  pose proof (release_tombstone state_root r layout Hl') as Htn.
  pose proof (release_file_name state_root r layout Hl') as Hfn.
  split_and!.
  - by exists lease; auto.
  - unfold journal_at in Hj. by rewrite Hjn in Hj.
  - left. apply Ht. by rewrite <- Hlab.
  - unfold volume_state in Hmount. destruct (volumes w' !! _) as [v|]; [|done].
    destruct (Volume.mounted_at v) as [path|] eqn:Hp; [|done]. eauto.
  - exists m. assert (name = OwnershipLabels.execution_id (AllocationReceipt.labels r)) as <- by congruence.
    split; [done|]. unfold is_real_directory in Hreal. apply negb_true_iff, orb_false_iff in Hreal as [_ Hd].
    by apply negb_false_iff in Hd.
Qed.

Lemma allocate_establishes_ready_witness :
  exists layout bytes,
    disk_gib_to_bytes 2 = Ok bytes /\ ExecutionLayout.new "/state" "exec-1" = Ok layout /\
    established layout example_labels bytes example_receipt allocated_world /\
    ((forall lease, lease_name layout = Ok lease -> lease ∉ shared_leases allocated_world) ->
     ready_phase example_receipt layout allocated_world).
Proof.
  destruct (run_exec steady world_sem quiet (allocate "/state" example_request) empty_world steady_sem)
    as [tr Htr].
  apply (allocate_establishes_ready "/state" example_request empty_world allocated_world tr).
  assert ((run steady (allocate "/state" example_request) empty_world).1 = Ok example_receipt) as Hr
    by (vm_compute; reflexivity).
  by rewrite Hr in Htr.
Defined.

(** ** A mountpoint without a journal *)
Definition stranded (layout : ExecutionLayout) (w : World) : Prop :=
  (exists name, file_name (ExecutionLayout.root layout) = Some name /\ is_Some (mountpoints w !! name)) /\
  journal_at w layout = None.

Section Stranded.
Context `{Serde} (state_root : string) (request : AllocationRequest) (layout : ExecutionLayout)
  (name : string) (w : World).
Hypothesis Hlayout : ExecutionLayout.new state_root
  (OwnershipLabels.execution_id (AllocationRequest.labels request)) = Ok layout.
Hypothesis Hname : file_name (ExecutionLayout.root layout) = Some name.
Hypothesis Hmountpoint : is_Some (mountpoints w !! name).
Hypothesis Hjournal : journal_at w layout = None.

Local Notation hoare := (hoare_crash world_sem (fun w' => w' = w)).
Local Notation refused := (fun (r : result StorageError AllocationReceipt) (_ : World) => is_ok r = false).

Lemma hoare_asks {A} (c : storage_call (result StorageError A)) (f : A -> stio AllocationReceipt) :
  (forall r w', world_sem _ c w r w' -> w' = w) ->
  (forall a, world_sem _ c w (Ok a) w -> hoare (f a) refused w) -> hoare (try_ c ≫= f) refused w.
Proof.
  intros Hc Hf. apply hoare_io_bind, hoare_req. intros [a|e] w2 Hs; rewrite (Hc _ _ Hs) in Hs |- *;
    (split; [done|]); apply hoare_ret; auto.
Qed.

Lemma hoare_checks {A} (x : result StorageError A) (f : A -> stio AllocationReceipt) :
  (forall a, x = Ok a -> hoare (f a) refused w) -> hoare (ret_result x ≫= f) refused w.
Proof. destruct x; intros Hf; [by apply Hf|by apply hoare_io_bind, hoare_ret]. Qed.

Lemma hoare_guards (b : bool) e (f : unit -> stio AllocationReceipt) :
  (b = true -> hoare (f tt) refused w) -> hoare (guard_or b e ≫= f) refused w.
Proof. destruct b; intros Hf; [by apply Hf|by apply hoare_io_bind, hoare_ret]. Qed.

Lemma hoare_probe disk_gib (f : StorageCapability -> stio AllocationReceipt) :
  (forall c, hoare (f c) refused w) -> hoare (probe disk_gib ≫= f) refused w.
Proof.
  intros Hf. apply hoare_io_bind. unfold probe.
  destruct (disk_gib_to_bytes disk_gib) as [bytes|e]; [apply hoare_ok_bind|by apply hoare_ret].
  apply hoare_io_bind, hoare_req. intros [b|e] w2 ->; (split; [done|]); apply hoare_ret; [|done].
  apply hoare_io_bind, hoare_outcome_of, hoare_req. intros [d|e] w2 ->; (split; [done|]); apply hoare_ret.
  - cbn [map_err]. apply hoare_io_bind, hoare_ret. apply hoare_io_bind.
    destruct (DockerBindCapability.validate d) as [[]|e]; apply hoare_ret; [|done].
    by apply hoare_ret.
  - by apply hoare_io_bind, hoare_ret.
Qed.

Lemma hoare_stranded : hoare (allocate state_root request) refused w.
Proof.
  unfold allocate. apply hoare_checks. intros bytes _.
  apply hoare_checks. intros layout' Hl. rewrite Hlayout in Hl. injection Hl as <-.
  apply hoare_checks. intros tombstone _.
  apply hoare_asks; [by intros r w' [? _]|]. intros t _. apply hoare_guards. intros _.
  apply hoare_asks; [by intros r w' [? _]|]. intros existing [_ ->]. rewrite Hjournal.
  rewrite bool_decide_eq_false_2 by (by intros [? ?]). apply hoare_ok_bind.
  apply hoare_probe. intros capability. apply hoare_guards. intros _. apply hoare_io_bind.
  unfold create_mountpoint. apply hoare_io_bind, hoare_req.
  intros [[]|e] w2 ->; (split; [done|]); apply hoare_ret; [|done].
  apply hoare_io_bind. case_bool_decide; [|by apply hoare_ret]. apply hoare_ret.
  unfold mountpoint_name. rewrite Hname. apply hoare_ok_bind.
  apply hoare_io_bind, hoare_req. intros [o|e] w2 [-> Ho]; (split; [done|]); apply hoare_ret; [|done].
  destruct Hmountpoint as [m Hm]. rewrite Hm in Ho. subst o. by apply hoare_ret.
Qed.
End Stranded.

(** C25: A mountpoint without a journal blocks its execution for good.  Every
    later [allocate] of the execution, run to its end or dying anywhere, returns
    no receipt and changes nothing.  The witness reaches such a world from an
    empty one: an [allocate] that dies after it published the mountpoint and
    before it wrote the journal. *)
Theorem stranded_mountpoint_blocks `{Serde} (state_root : string) (request : AllocationRequest)
    (layout : ExecutionLayout) (w w' : World) tr r :
  ExecutionLayout.new state_root
    (OwnershipLabels.execution_id (AllocationRequest.labels request)) = Ok layout ->
  stranded layout w ->
  exec world_sem quiet (allocate state_root request) w tr r w' ->
  w' = w /\ forall receipt, r <> Some (Ok receipt).
Proof.
  intros Hl [(name & Hn & Hm) Hj] He.
  destruct (hoare_exec world_sem _ _ _ _ _ _ _ He eq_refl
    (hoare_stranded state_root request layout name w Hl Hn Hm Hj)) as [Hw HQ].
  split; [|by intros receipt ->; specialize (HQ _ eq_refl)].
  by destruct Hw.
Qed.

Definition dying_world : World := run_until steady 8 (allocate "/state" example_request) empty_world.

Lemma stranded_mountpoint_blocks_witness :
  (exists tr, exec world_sem quiet (allocate "/state" example_request) empty_world tr None dying_world) /\
  let '(r, w') := run steady (allocate "/state" example_request) dying_world in
  w' = dying_world /\ forall receipt, Some r <> Some (Ok receipt).
Proof.
  split; [apply run_until_exec, steady_sem|].
  destruct (run_exec steady world_sem quiet (allocate "/state" example_request) dying_world steady_sem)
    as [tr Htr].
  destruct (run steady (allocate "/state" example_request) dying_world) as [r w'].
  apply (stranded_mountpoint_blocks "/state" example_request example_layout dying_world w' tr);
    [reflexivity| |exact Htr].
  split; [|vm_compute; reflexivity].
  exists "exec-1"%string. split; [reflexivity|]. eexists. vm_compute. reflexivity.
Defined.
