(* ===== verification/ResourceRecord.v ===== *)
(** * The resources of an execution

    Models [crates/orchestrator-core/src/resource_record.rs]: the projection of
    a cleanup authority's handles into resource records.  The rendering of a
    timestamp is chrono's and a parameter. *)

From S2P Require Import Prelude Core WorkerTypes Database.

















Definition RESOURCE_RECORD_SCHEMA : string := "autospec.protocol.resource-record.v1".
Definition RESOURCE_RECORD_PROTOCOL_VERSION : Z := 1.

Module ResourceKind.
Inductive ResourceKind := Worktree | Process | BuildDir | Cache | Container | TempFile.
#[global] Instance eq_dec : EqDecision ResourceKind.
Proof. solve_decision. Defined.

(** [format!("{:?}", kind).to_lowercase()]. *)
Definition debug_lowercase (k : ResourceKind) : string :=
  match k with
  | Worktree => "worktree" | Process => "process" | BuildDir => "builddir"
  | Cache => "cache" | Container => "container" | TempFile => "tempfile"
  end.
End ResourceKind.
Abbreviation ResourceKind := ResourceKind.ResourceKind.

Module ResourceState.
Inductive ResourceState := Active | Releasable | Released | RetainedForDiagnostics.
#[global] Instance eq_dec : EqDecision ResourceState.
Proof. solve_decision. Defined.
End ResourceState.
Abbreviation ResourceState := ResourceState.ResourceState.

Module ResourceOwner.
Record ResourceOwner := { mission_id : option string; execution_id : string }.
End ResourceOwner.
Abbreviation ResourceOwner := ResourceOwner.ResourceOwner.

Module ResourceRecord.
Record ResourceRecord := {
  schema : string;
  protocol_version : Z;               (* u32 *)
  idempotency_key : option string;
  mission_id : option string;
  sequence : option Z;                (* u64 *)
  required_extensions : option (list string);
  resource_id : string;
  kind : ResourceKind;
  owner : ResourceOwner;
  created_at : string;
  lease_id : option string;
  state : ResourceState;
  path : option string;
  bytes : option Z;                   (* u64 *)
  inodes : option Z                   (* u64 *)
}.
End ResourceRecord.
Abbreviation ResourceRecord := ResourceRecord.ResourceRecord.

Definition state_from_phase (phase : string) : ResourceState :=
  if starts_with "ACTIVE:" phase then ResourceState.Active
  else if bool_decide (phase = "RESOLVED"%string) then ResourceState.Released
  else if bool_decide (phase ∈ ["RETAIN_REQUESTED"; "RETAINED"]%string)
  then ResourceState.RetainedForDiagnostics
  else if bool_decide (phase ∈ ["CLEANUP_PENDING"; "RUNTIME_STOPPED"; "RUNTIME_DESTROYED";
                                "GIT_RECOVERED_CLEANED"; "STORAGE_RELEASED";
                                "RESERVATION_RELEASED"]%string)
  then ResourceState.Releasable
  else ResourceState.Active.

Section Project.
Context (rfc3339 : Timestamp -> string).

Definition record (owner : ResourceOwner) (execution : ExecutionId) (created_at : Timestamp)
    (state : ResourceState) (kind : ResourceKind) (path : option string) : ResourceRecord := {|
  ResourceRecord.schema := RESOURCE_RECORD_SCHEMA;
  ResourceRecord.protocol_version := RESOURCE_RECORD_PROTOCOL_VERSION;
  ResourceRecord.idempotency_key := None;
  ResourceRecord.mission_id := None;
  ResourceRecord.sequence := None;
  ResourceRecord.required_extensions := None;
  ResourceRecord.resource_id := execution +:+ ":" +:+ ResourceKind.debug_lowercase kind;
  ResourceRecord.kind := kind;
  ResourceRecord.owner := owner;
  ResourceRecord.created_at := rfc3339 created_at;
  ResourceRecord.lease_id := None;
  ResourceRecord.state := state;
  ResourceRecord.path := path;
  ResourceRecord.bytes := None;
  ResourceRecord.inodes := None |}.

(** [handles.get(key).filter(|value| !value.is_null())]. *)
Definition handle (key : string) (handles : Value) : option Value :=
  value ← value_get key handles;
  if value_is_null value then None else Some value.

Definition project (execution : ExecutionId) (created_at : Timestamp) (phase : string)
    (handles : Value) : list ResourceRecord :=
  let state := state_from_phase phase in
  let owner := {| ResourceOwner.mission_id := None; ResourceOwner.execution_id := execution |} in
  let projected (key : string) (kind : ResourceKind) (path : Value -> option string) :=
    match handle key handles with
    | Some value => [record owner execution created_at state kind (path value)]
    | None => []
    end in
  projected "worktree"%string ResourceKind.Worktree
    (fun worktree => path ← value_get "path" worktree; value_as_str path) ++
  projected "runtime"%string ResourceKind.Container (fun _ => None) ++
  projected "build_dir"%string ResourceKind.BuildDir (fun _ => None) ++
  projected "cache"%string ResourceKind.Cache (fun _ => None).
End Project.
