(* ===== verification/Sha256.v ===== *)
(** * SHA-256

    [sha256_hex] of [crates/orchestrator-persistence/src/artifacts.rs], the
    digest that names an artifact's blob, with its words at their 32 bits.
    The second half is the function FIPS 180-4 defines, and the proof that the
    code computes it. *)

From Stdlib Require Import Ascii.
From S2P Require Import Prelude.

















Local Open Scope Z_scope.

(** ** Words *)
Definition u32 (z : Z) : Z := z mod 2 ^ 32.
Definition wrapping_add (a b : Z) : Z := u32 (a + b).
Definition not_u32 (a : Z) : Z := Z.lxor a u32_max.
Definition rotate_right (n x : Z) : Z := Z.lor (Z.shiftr x n) (u32 (Z.shiftl x (32 - n))).

Definition from_be_bytes (bs : list Z) : Z := foldl (fun v b => v * 256 + b) 0 bs.

Fixpoint to_be_bytes (n : nat) (v : Z) : list Z :=
  match n with
  | O => []
  | S n => to_be_bytes n (v / 256) ++ [v mod 256]
  end.

(** ** The code

    The tables [state] and [K], in decimal. *)
Definition INITIAL : list Z :=
  [ 1779033703; 3144134277; 1013904242; 2773480762; 1359893119; 2600822924; 528734635; 1541459225].

Definition K : list Z :=
  [ 1116352408; 1899447441; 3049323471; 3921009573; 961987163; 1508970993; 2453635748; 2870763221;
    3624381080; 310598401; 607225278; 1426881987; 1925078388; 2162078206; 2614888103; 3248222580;
    3835390401; 4022224774; 264347078; 604807628; 770255983; 1249150122; 1555081692; 1996064986;
    2554220882; 2821834349; 2952996808; 3210313671; 3336571891; 3584528711; 113926993; 338241895;
    666307205; 773529912; 1294757372; 1396182291; 1695183700; 1986661051; 2177026350; 2456956037;
    2730485921; 2820302411; 3259730800; 3345764771; 3516065817; 3600352804; 4094571909; 275423344;
    430227734; 506948616; 659060556; 883997877; 958139571; 1322822218; 1537002063; 1747873779;
    1955562222; 2024104815; 2227730452; 2361852424; 2428436474; 2756734187; 3204031479; 3329325298].

(** [while message.len() % 64 != 56 { message.push(0); }]; the loop ends
    within 64 turns ([fill_zeros]). *)
Fixpoint fill (fuel : nat) (message : list Z) : list Z :=
  match fuel with
  | O => message
  | S fuel =>
      if (Z.of_nat (List.length message) mod 64 =? 56) then message else fill fuel (message ++ [0])
  end.

Definition padded (bytes : list Z) : list Z :=
  let bit_len := Z.of_nat (List.length bytes) * 8 mod 2 ^ 64 in
  fill 64 (bytes ++ [128]) ++ to_be_bytes 8 bit_len.

(** [chunks_exact(n)], for a length that [n] divides. *)
Fixpoint chunks_exact (fuel n : nat) (l : list Z) : list (list Z) :=
  match fuel with
  | O => []
  | S fuel => if (List.length l <? n)%nat then [] else take n l :: chunks_exact fuel n (drop n l)
  end.

Definition chunks (n : nat) (l : list Z) : list (list Z) := chunks_exact (List.length l) n l.

Definition at_index (l : list Z) (i : nat) : Z := default 0 (l !! i).

Definition small_sigma0 (x : Z) : Z :=
  Z.lxor (Z.lxor (rotate_right 7 x) (rotate_right 18 x)) (Z.shiftr x 3).
Definition small_sigma1 (x : Z) : Z :=
  Z.lxor (Z.lxor (rotate_right 17 x) (rotate_right 19 x)) (Z.shiftr x 10).

(** [schedule[index] = ..] in the loop over 16..64. *)
Definition schedule_step (schedule : list Z) (index : nat) : list Z :=
  let s0 := small_sigma0 (at_index schedule (index - 15)) in
  let s1 := small_sigma1 (at_index schedule (index - 2)) in
  <[index := wrapping_add (wrapping_add (wrapping_add (at_index schedule (index - 16)) s0)
                                        (at_index schedule (index - 7))) s1]> schedule.

Definition load_words (chunk : list Z) (schedule : list Z) : list Z :=
  foldl (fun s iw => <[iw.1 := from_be_bytes iw.2]> s) schedule (imap pair (chunks 4 chunk)).

Definition schedule_of (chunk : list Z) : list Z :=
  foldl schedule_step (load_words chunk (repeat 0 64)) (seq 16 48).

Module Vars.
Record Vars := { a : Z; b : Z; c : Z; d : Z; e : Z; f : Z; g : Z; h : Z }.
End Vars.
Abbreviation Vars := Vars.Vars.

Definition of_hash (hash : list Z) : Vars :=
  {| Vars.a := at_index hash 0; Vars.b := at_index hash 1; Vars.c := at_index hash 2; Vars.d := at_index hash 3;
     Vars.e := at_index hash 4; Vars.f := at_index hash 5; Vars.g := at_index hash 6; Vars.h := at_index hash 7 |}.

Definition to_list (v : Vars) : list Z :=
  [Vars.a v; Vars.b v; Vars.c v; Vars.d v; Vars.e v; Vars.f v; Vars.g v; Vars.h v].

(** One turn of the loop over [0..64]. *)
Definition round (schedule : list Z) (v : Vars) (index : nat) : Vars :=
  let e := Vars.e v in let a := Vars.a v in
  let s1 := Z.lxor (Z.lxor (rotate_right 6 e) (rotate_right 11 e)) (rotate_right 25 e) in
  let choice := Z.lxor (Z.land e (Vars.f v)) (Z.land (not_u32 e) (Vars.g v)) in
  let temp1 :=
    wrapping_add (wrapping_add (wrapping_add (wrapping_add (Vars.h v) s1) choice) (at_index K index))
                 (at_index schedule index) in
  let s0 := Z.lxor (Z.lxor (rotate_right 2 a) (rotate_right 13 a)) (rotate_right 22 a) in
  let majority := Z.lxor (Z.lxor (Z.land a (Vars.b v)) (Z.land a (Vars.c v))) (Z.land (Vars.b v) (Vars.c v)) in
  let temp2 := wrapping_add s0 majority in
  {| Vars.h := Vars.g v; Vars.g := Vars.f v; Vars.f := e; Vars.e := wrapping_add (Vars.d v) temp1;
     Vars.d := Vars.c v; Vars.c := Vars.b v; Vars.b := a; Vars.a := wrapping_add temp1 temp2 |}.

(** The body of the loop over the chunks. *)
Definition compress (hash : list Z) (chunk : list Z) : list Z :=
  let v := foldl (round (schedule_of chunk)) (of_hash hash) (seq 0 64) in
  zip_with wrapping_add hash (to_list v).

(** [{word:08x}]: at least eight digits of [n], from the lowest. *)
Fixpoint hex_pad (width : nat) (n : N) : string :=
  match width with
  | O => ""
  | S w => (hex_pad w (n / 16) +:+ String (hex_digit (n mod 16)) "")%string
  end.

Definition byte_values (s : string) : list Z := List.map Z.of_N (bytes_of s).

Definition sha256_words (bytes : list Z) : list Z := foldl compress INITIAL (chunks 64 (padded bytes)).

Definition sha256_hex (bytes : string) : string :=
  foldr (fun word out => (hex_pad 8 (Z.to_N word) +:+ out)%string) ""%string (sha256_words (byte_values bytes)).

Example sha256_abc : sha256_hex "abc" = "ba7816bf8f01cfea414140de5dae2223b00361a396177a9cb410ff61f20015ad"%string.
Proof. vm_compute. reflexivity. Qed.
Example sha256_empty : sha256_hex "" = "e3b0c44298fc1c149afbf4c8996fb92427ae41e4649b934ca495991b7852b855"%string.
Proof. vm_compute. reflexivity. Qed.
Example sha256_two_blocks :
  sha256_hex "abcdbcdecdefdefgefghfghighijhijkijkljklmklmnlmnomnopnopq"
  = "248d6a61d20638b8e5c026930c3e6039a33ce45964ff2167f6ecedd419db06c1"%string.
Proof. vm_compute. reflexivity. Qed.

(** ** The standard

    FIPS 180-4: the padding of section 5.1.1, the functions of 4.1.2, the
    constants of 4.2.2 and 5.3.3, the schedule [W] and the computation of 6.2.2,
    over words indexed by number. *)
Module Fips.
(** The primes below 312, of which there are sixty-four. *)
Definition is_prime (n : nat) : bool :=
  (1 <? n)%nat && forallb (fun d => negb (n mod d =? 0)%nat) (seq 2 (n - 2)).
Definition primes : list Z := List.map Z.of_nat (List.filter is_prime (seq 0 312)).

(** The largest number below 2^bits whose cube is at most [n]. *)
Fixpoint cube_root_from (r : Z) (bits : nat) (n : Z) : Z :=
  match bits with
  | O => r
  | S b => let r' := r + 2 ^ Z.of_nat b in cube_root_from (if r' * r' * r' <=? n then r' else r) b n
  end.
Definition cube_root : Z -> Z := cube_root_from 0 40.

(** The first 32 bits of the fractional parts of the cube roots of the first
    sixty-four primes, and of the square roots of the first eight. *)
Definition K : list Z := List.map (fun p => cube_root (p * 2 ^ 96) mod 2 ^ 32) primes.
Definition H0 : list Z := List.map (fun p => Z.sqrt (p * 2 ^ 64) mod 2 ^ 32) (take 8 primes).

(** The least [k] with l + 1 + k = 448 modulo 512, in bytes: the byte 128 is
    the bit 1 and seven of the zeros. *)
Definition zeros (length : nat) : nat := Z.to_nat ((55 - Z.of_nat length) mod 64).

Definition message (bytes : list Z) : list Z :=
  bytes ++ 128 :: repeat 0 (zeros (List.length bytes)) ++ to_be_bytes 8 (8 * Z.of_nat (List.length bytes) mod 2 ^ 64).

(** The word [j] of the block [i]. *)
Definition M (m : list Z) (i j : nat) : Z := from_be_bytes (take 4 (drop (4 * j) (take 64 (drop (64 * i) m)))).

Definition SHR (n x : Z) : Z := Z.shiftr x n.
Definition ROTR (n x : Z) : Z := Z.lor (Z.shiftr x n) (Z.shiftl x (32 - n) mod 2 ^ 32).
Definition Ch (x y z : Z) : Z := Z.lxor (Z.land x y) (Z.land (Z.lxor x (2 ^ 32 - 1)) z).
Definition Maj (x y z : Z) : Z := Z.lxor (Z.lxor (Z.land x y) (Z.land x z)) (Z.land y z).
Definition Sigma0 (x : Z) : Z := Z.lxor (Z.lxor (ROTR 2 x) (ROTR 13 x)) (ROTR 22 x).
Definition Sigma1 (x : Z) : Z := Z.lxor (Z.lxor (ROTR 6 x) (ROTR 11 x)) (ROTR 25 x).
Definition sigma0 (x : Z) : Z := Z.lxor (Z.lxor (ROTR 7 x) (ROTR 18 x)) (SHR 3 x).
Definition sigma1 (x : Z) : Z := Z.lxor (Z.lxor (ROTR 17 x) (ROTR 19 x)) (SHR 10 x).

Definition next_word (w2 w7 w15 w16 : Z) : Z := (sigma1 w2 + w7 + sigma0 w15 + w16) mod 2 ^ 32.

(** W(0), .., W(n - 1). *)
Fixpoint schedule (m : nat -> Z) (n : nat) : list Z :=
  match n with
  | O => []
  | S t =>
      let w := schedule m t in
      w ++ [if (t <? 16)%nat then m t
            else next_word (at_index w (t - 2)) (at_index w (t - 7)) (at_index w (t - 15)) (at_index w (t - 16))]
  end.

(** The eight working variables after [t] rounds. *)
Fixpoint rounds (w : list Z) (H : list Z) (t : nat) : Vars :=
  match t with
  | O => of_hash H
  | S t =>
      let v := rounds w H t in
      let T1 := (Vars.h v + Sigma1 (Vars.e v) + Ch (Vars.e v) (Vars.f v) (Vars.g v) + at_index K t + at_index w t) mod 2 ^ 32 in
      let T2 := (Sigma0 (Vars.a v) + Maj (Vars.a v) (Vars.b v) (Vars.c v)) mod 2 ^ 32 in
      {| Vars.a := (T1 + T2) mod 2 ^ 32; Vars.b := Vars.a v; Vars.c := Vars.b v; Vars.d := Vars.c v;
         Vars.e := (Vars.d v + T1) mod 2 ^ 32; Vars.f := Vars.e v; Vars.g := Vars.f v; Vars.h := Vars.g v |}
  end.

(** The hash value after [i] blocks. *)
Fixpoint hash (m : list Z) (i : nat) : list Z :=
  match i with
  | O => H0
  | S i => zip_with (fun x y => (x + y) mod 2 ^ 32) (hash m i) (to_list (rounds (schedule (M m i) 64) (hash m i) 64))
  end.

(** The digest, one number of 256 bits. *)
Definition digest (bytes : list Z) : Z :=
  let m := message bytes in
  foldl (fun v word => v * 2 ^ 32 + word) 0 (hash m (List.length m / 64)).
End Fips.

(** ** Lemmas *)
Lemma cube_root_from_spec r bits n : 0 <= r -> r * r * r <= n -> n < (r + 2 ^ Z.of_nat bits) ^ 3 ->
  let c := Fips.cube_root_from r bits n in c ^ 3 <= n < (c + 1) ^ 3.
Proof.
  revert r. induction bits as [|b IH]; intros r Hr Hl Hu; simpl; [simpl in Hu; lia|].
  assert (0 < 2 ^ Z.of_nat b) as H2 by lia. rewrite Nat2Z.inj_succ, Z.pow_succ_r in Hu by lia.
  destruct (Z.leb_spec ((r + 2 ^ Z.of_nat b) * (r + 2 ^ Z.of_nat b) * (r + 2 ^ Z.of_nat b)) n) as [H|H];
    apply IH; try lia.
Qed.

Lemma K_fips : K = Fips.K.
Proof. by vm_compute. Qed.

Lemma INITIAL_fips : INITIAL = Fips.H0.
Proof. by vm_compute. Qed.

Lemma to_be_bytes_length n v : List.length (to_be_bytes n v) = n.
Proof. revert v. induction n as [|n IH]; intros v; simpl; [done|]. rewrite length_app, IH. simpl. lia. Qed.

Lemma fill_zeros fuel m :
  (Z.to_nat ((56 - Z.of_nat (List.length m)) mod 64) <= fuel)%nat ->
  fill fuel m = m ++ repeat 0 (Z.to_nat ((56 - Z.of_nat (List.length m)) mod 64)).
Proof.
  revert m. induction fuel as [|fuel IH]; intros m Hf; simpl.
  - replace (Z.to_nat _) with 0%nat by lia. by rewrite app_nil_r.
  - destruct (Z.eqb_spec (Z.of_nat (List.length m) mod 64) 56) as [He|He].
    + replace (Z.to_nat _) with 0%nat; [by rewrite app_nil_r|]. Z.div_mod_to_equations. lia.
    + assert (Z.to_nat ((56 - Z.of_nat (List.length m)) mod 64) =
        S (Z.to_nat ((56 - Z.of_nat (List.length (m ++ [0]))) mod 64))) as Hs
        by (rewrite length_app; simpl; Z.div_mod_to_equations; lia).
      rewrite IH, Hs by lia. by rewrite <- app_assoc.
Qed.

Lemma padded_message bytes : padded bytes = Fips.message bytes.
Proof.
  assert (List.length (bytes ++ [128]) = (List.length bytes + 1)%nat) as Hl by by rewrite length_app.
  assert (Z.to_nat ((56 - Z.of_nat (List.length (bytes ++ [128]))) mod 64) = Fips.zeros (List.length bytes)) as Hk
    by (rewrite Hl; unfold Fips.zeros; do 2 f_equal; lia).
  unfold padded, Fips.message. rewrite fill_zeros, Hk; [|unfold Fips.zeros in Hk; Z.div_mod_to_equations; lia].
  rewrite <- !app_assoc, (Z.mul_comm 8). done.
Qed.

Lemma message_length bytes : (List.length (Fips.message bytes) mod 64 = 0)%nat.
Proof.
  unfold Fips.message, Fips.zeros. rewrite length_app. cbn [List.length].
  rewrite length_app, repeat_length, to_be_bytes_length.
  apply Nat2Z.inj. rewrite Nat2Z.inj_mod. Z.div_mod_to_equations. lia.
Qed.

Lemma chunks_exact_map n fuel l :
  (0 < n)%nat -> (List.length l <= fuel)%nat ->
  chunks_exact fuel n l = List.map (fun i => take n (drop (n * i) l)) (seq 0 (List.length l / n)).
Proof.
  intros Hn. revert l. induction fuel as [|fuel IH]; intros l Hl; simpl.
  - replace (List.length l / n)%nat with 0%nat; [done|]. rewrite Nat.div_small; lia.
  - destruct (Nat.ltb_spec (List.length l) n) as [Hs|Hs]; [by rewrite Nat.div_small by done|].
    replace (List.length l / n)%nat with (S ((List.length l - n) / n))%nat.
    2: { rewrite <- Nat.add_1_r, <- Nat.div_add by lia. f_equal. lia. }
    simpl. rewrite Nat.mul_0_r. f_equal. rewrite <- seq_shift, map_map, IH by (rewrite length_drop; lia).
    rewrite length_drop. apply map_ext. intros i. rewrite drop_drop. do 2 f_equal. lia.
Qed.

Lemma chunks_map n l :
  (0 < n)%nat -> chunks n l = List.map (fun i => take n (drop (n * i) l)) (seq 0 (List.length l / n)).
Proof. intros. by apply chunks_exact_map. Qed.

(** The first sixteen words of the schedule. *)
Definition block_word (chunk : list Z) (j : nat) : Z := from_be_bytes (take 4 (drop (4 * j) chunk)).

Lemma load_words_block chunk :
  List.length chunk = 64%nat ->
  load_words chunk (repeat 0 64) = List.map (block_word chunk) (seq 0 16) ++ repeat 0 48.
Proof.
  intros Hl. unfold load_words. rewrite chunks_map by lia. rewrite Hl. reflexivity.
Qed.

Lemma at_index_app_l (l l' : list Z) i : (i < List.length l)%nat -> at_index (l ++ l') i = at_index l i.
Proof. intros Hi. unfold at_index. by rewrite lookup_app_l. Qed.

Lemma fips_schedule_length m n : List.length (Fips.schedule m n) = n.
Proof. induction n as [|n IH]; simpl; [done|]. rewrite length_app, IH. simpl. lia. Qed.

Lemma fips_schedule_first m n : (n <= 16)%nat -> Fips.schedule m n = List.map m (seq 0 n).
Proof.
  induction n as [|n IH]; intros Hn; [done|]. cbn [Fips.schedule]. rewrite IH, seq_S, map_app by lia.
  destruct (Nat.ltb_spec n 16); [done|lia].
Qed.

Lemma insert_head {A} (v x : A) l : <[0%nat := v]> (x :: l) = v :: l.
Proof. done. Qed.

Lemma small_sigma0_fips x : small_sigma0 x = Fips.sigma0 x.
Proof. done. Qed.

Lemma small_sigma1_fips x : small_sigma1 x = Fips.sigma1 x.
Proof. done. Qed.

Lemma wrapping_add_twice a b c : wrapping_add (wrapping_add a b) c = wrapping_add a (b + c).
Proof. unfold wrapping_add, u32. rewrite Zplus_mod_idemp_l. f_equal. lia. Qed.

Lemma schedule_step_next w z :
  (16 <= List.length w)%nat ->
  let t := List.length w in
  schedule_step (w ++ 0 :: z) t =
  w ++ Fips.next_word (at_index w (t - 2)) (at_index w (t - 7)) (at_index w (t - 15)) (at_index w (t - 16)) :: z.
Proof.
  intros Hw. simpl. unfold schedule_step. rewrite !at_index_app_l by lia.
  rewrite insert_app_r_alt, Nat.sub_diag, insert_head by lia.
  rewrite small_sigma0_fips, small_sigma1_fips, !wrapping_add_twice.
  do 2 f_equal. unfold wrapping_add, u32, Fips.next_word. f_equal. lia.
Qed.

Lemma fips_schedule_next m t :
  (16 <= t)%nat ->
  let w := Fips.schedule m t in
  Fips.schedule m (S t) =
  w ++ [Fips.next_word (at_index w (t - 2)) (at_index w (t - 7)) (at_index w (t - 15)) (at_index w (t - 16))].
Proof. intros Ht. cbn [Fips.schedule]. by destruct (Nat.ltb_spec t 16); [lia|]. Qed.

(** The array after the turn [t]: the words so far, then zeros. *)
Lemma schedule_fold m n k :
  foldl schedule_step (Fips.schedule m 16 ++ repeat 0 (n + k)) (seq 16 n) = Fips.schedule m (16 + n) ++ repeat 0 k.
Proof.
  revert k. induction n as [|n IH]; intros k; [done|].
  rewrite seq_S, foldl_app. replace (S n + k)%nat with (n + S k)%nat by lia. rewrite IH, Nat.add_succ_r.
  rewrite fips_schedule_next by lia. pose proof (fips_schedule_length m (16 + n)) as Hl.
  assert (16 <= 16 + n)%nat as Ht by lia. generalize dependent (16 + n)%nat. intros t _ Hl Ht.
  generalize dependent (Fips.schedule m t). intros w <-.
  cbn [foldl repeat]. rewrite schedule_step_next by done. by rewrite <- app_assoc.
Qed.

Lemma schedule_of_fips chunk :
  List.length chunk = 64%nat -> schedule_of chunk = Fips.schedule (block_word chunk) 64.
Proof.
  intros Hl. unfold schedule_of. rewrite load_words_block by done.
  rewrite <- (fips_schedule_first (block_word chunk) 16) by lia.
  change (repeat 0 48) with (repeat 0 (48 + 0)). rewrite schedule_fold. apply app_nil_r.
Qed.

Lemma round_fips w H t : foldl (round w) (of_hash H) (seq 0 t) = Fips.rounds w H t.
Proof.
  induction t as [|t IH]; [done|]. rewrite seq_S, foldl_app, IH. cbn [foldl Fips.rounds Nat.add].
  unfold round. generalize (Fips.rounds w H t) as v. intros v.
  assert (forall a b c d e, wrapping_add (wrapping_add (wrapping_add (wrapping_add a b) c) d) e
    = (a + b + c + d + e) mod 2 ^ 32) as H5
    by (intros; rewrite !wrapping_add_twice; unfold wrapping_add, u32; f_equal; lia).
  cbv zeta. rewrite (H5 (Vars.h v)), K_fips. reflexivity.
Qed.

Lemma compress_fips H chunk :
  List.length chunk = 64%nat ->
  compress H chunk = zip_with (fun x y => (x + y) mod 2 ^ 32) H (to_list (Fips.rounds (Fips.schedule (block_word chunk) 64) H 64)).
Proof. intros Hl. unfold compress. by rewrite schedule_of_fips, round_fips by done. Qed.

Lemma hash_fips m n :
  (64 * n <= List.length m)%nat ->
  foldl compress INITIAL (List.map (fun i => take 64 (drop (64 * i) m)) (seq 0 n)) = Fips.hash m n.
Proof.
  induction n as [|n IH]; intros Hn; [exact INITIAL_fips|]. rewrite seq_S, map_app, foldl_app, IH by lia.
  cbn [List.map foldl Fips.hash Nat.add]. rewrite compress_fips; [done|].
  rewrite length_take, length_drop. lia.
Qed.

Lemma sha256_words_fips bytes :
  sha256_words bytes = Fips.hash (Fips.message bytes) (List.length (Fips.message bytes) / 64).
Proof.
  unfold sha256_words. rewrite padded_message, chunks_map by lia. apply hash_fips.
  apply Nat.Div0.mul_div_le.
Qed.

(** ** The text of the digest *)
Lemma hex_pad_app n m x y :
  (y < 16 ^ N.of_nat m)%N -> hex_pad (n + m) (x * 16 ^ N.of_nat m + y) = (hex_pad n x +:+ hex_pad m y)%string.
Proof.
  revert y. induction m as [|m IH]; intros y Hy.
  - rewrite Nat.add_0_r, string_app_nil_r. f_equal. simpl in *. lia.
  - rewrite Nat.add_succ_r. cbn [hex_pad]. rewrite Nat2N.inj_succ, N.pow_succ_r' in *.
    rewrite <- string_app_assoc. rewrite <- (IH (y / 16)%N) by (apply N.Div0.div_lt_upper_bound; lia).
    replace (x * (16 * 16 ^ N.of_nat m) + y)%N with ((x * 16 ^ N.of_nat m) * 16 + y)%N by lia.
    f_equal.
    + f_equal. rewrite N.div_add_l by lia. done.
    + do 2 f_equal. rewrite N.add_comm, N.Div0.mod_add. done.
Qed.

Lemma hex_pad_length n x : String.length (hex_pad n x) = n.
Proof. revert x. induction n as [|n IH]; intros x; simpl; [done|]. rewrite string_length_app, IH. simpl. lia. Qed.

Definition is_hex_digit (c : ascii) : bool :=
  is_ascii_digit c || (between 97 (N_of_ascii c) 102).

Lemma hex_digit_hex n : (n < 16)%N -> is_hex_digit (hex_digit n) = true.
Proof.
  intros Hn. assert (n ∈ List.map N.of_nat (seq 0 16)) as Hi
    by (apply list_elem_of_In, in_map_iff; exists (N.to_nat n); rewrite in_seq; lia).
  clear Hn. revert n Hi. apply Forall_forall. vm_compute. by repeat constructor.
Qed.

Lemma hex_pad_hex n x : string_forallb is_hex_digit (hex_pad n x) = true.
Proof.
  revert x. induction n as [|n IH]; intros x; [done|]. cbn [hex_pad]. rewrite string_forallb_app, IH. simpl.
  by rewrite hex_digit_hex by (apply N.mod_lt; lia).
Qed.

Definition is_u32 (x : Z) : Prop := 0 <= x < 2 ^ 32.

Lemma zip_with_u32 l k :
  Forall is_u32 (zip_with (fun x y => (x + y) mod 2 ^ 32) l k).
Proof. revert k. induction l as [|x l IH]; intros [|y k]; simpl; constructor; [|done]. unfold is_u32. by apply Z.mod_pos_bound. Qed.

Lemma hash_words m n : List.length (Fips.hash m n) = 8%nat /\ Forall is_u32 (Fips.hash m n).
Proof.
  assert (List.length Fips.H0 = 8%nat) as H8 by (by rewrite <- INITIAL_fips).
  destruct n as [|n]; cbn [Fips.hash].
  { split; [exact H8|]. rewrite <- INITIAL_fips. by repeat constructor. }
  split; [|apply zip_with_u32].
  rewrite length_zip_with. cbn [to_list List.length].
  enough (List.length (Fips.hash m n) = 8%nat) as -> by done.
  induction n as [|n IH]; [exact H8|]. cbn [Fips.hash]. rewrite length_zip_with, IH. done.
Qed.

Lemma digits_of_words ws v :
  Forall is_u32 ws -> 0 <= v -> forall n,
  (hex_pad n (Z.to_N v) +:+ foldr (fun word out => (hex_pad 8 (Z.to_N word) +:+ out)%string) "" ws)%string
  = hex_pad (n + 8 * List.length ws) (Z.to_N (foldl (fun v word => v * 2 ^ 32 + word) v ws)).
Proof.
  intros Hw. revert v. induction Hw as [|w ws Hw _ IH]; intros v Hv n.
  - simpl. by rewrite string_app_nil_r, Nat.add_0_r.
  - cbn [foldr foldl List.length]. unfold is_u32 in Hw. rewrite <- string_app_assoc.
    assert (hex_pad n (Z.to_N v) +:+ hex_pad 8 (Z.to_N w) = hex_pad (n + 8) (Z.to_N (v * 2 ^ 32 + w)))%string as ->.
    { rewrite <- hex_pad_app by (change (16 ^ N.of_nat 8)%N with (Z.to_N (2 ^ 32)); lia). f_equal.
      rewrite Z2N.inj_add, Z2N.inj_mul by lia. done. }
    rewrite IH by lia. f_equal. lia.
Qed.

Lemma sha256_hex_digest bytes : sha256_hex bytes = hex_pad 64 (Z.to_N (Fips.digest (byte_values bytes))).
Proof.
  unfold sha256_hex, Fips.digest. rewrite sha256_words_fips.
  set (ws := Fips.hash _ _). destruct (hash_words (Fips.message (byte_values bytes))
    (List.length (Fips.message (byte_values bytes)) / 64)) as [Hl Hw]. fold ws in Hl, Hw.
  pose proof (digits_of_words ws 0 Hw (Z.le_refl 0) 0) as He. rewrite Hl in He. exact He.
Qed.

(** What [CHECK (sha256 ~ '^[0-9a-f]{64}$')] asks of the column. *)
Definition is_digest (s : string) : bool := (String.length s =? 64)%nat && string_forallb is_hex_digit s.

Lemma sha256_is_digest bytes : is_digest (sha256_hex bytes) = true.
Proof. rewrite sha256_hex_digest. unfold is_digest. by rewrite hex_pad_length, hex_pad_hex. Qed.

(** C32: The digest of the code is the one of FIPS 180-4, in 64 lower-case
    hexadecimal digits as the database demands of the column, for every byte
    string (lengths from 2^61 bytes on wrap as the code's do). *)
Theorem sha256_fips (bytes : string) :
  sha256_hex bytes = hex_pad 64 (Z.to_N (Fips.digest (byte_values bytes))) /\ is_digest (sha256_hex bytes) = true.
Proof. split; [apply sha256_hex_digest|apply sha256_is_digest]. Qed.
