(* ===== verification/Artifacts.v ===== *)
(** * The artifact store ([orchestrator-persistence/src/artifacts.rs])

    The bytes of an artifact are a file named by their SHA-256, written under a
    temporary name and linked into place without replacing anything; the rows
    of [artifacts] and [artifact_blobs] name it.  [store] and [list] are
    programs over the file system and the database. *)

From Stdlib Require Import Ascii.
From S2P Require Import Prelude Core WorkerTypes Database Effects StorageModel FileSystem Sha256.

















(** ** Data *)
Module Artifact.
Record Artifact := {
  execution_id : ExecutionId;
  name : string;
  sha256 : string;
  size_bytes : Z;                     (* u64 *)
  media_type : string;
  created_at : Timestamp
}.
End Artifact.
Abbreviation Artifact := Artifact.Artifact.

(** The rows of [migrations/0005_artifacts.sql], by their primary keys. *)
Module BlobRow.
Record BlobRow := { size_bytes : Z (* BIGINT *); relative_path : string; created_at : Timestamp }.
End BlobRow.
Abbreviation BlobRow := BlobRow.BlobRow.

Module ArtifactRow.
Record ArtifactRow := { sha256 : string; media_type : string; created_at : Timestamp }.
End ArtifactRow.
Abbreviation ArtifactRow := ArtifactRow.ArtifactRow.

Record ArtifactTables := {
  execution_ids : gset ExecutionId;
  artifact_blobs : gmap string BlobRow;
  artifacts : gmap (ExecutionId * string) ArtifactRow
}.

Definition set_blobs (b : gmap string BlobRow) (t : ArtifactTables) : ArtifactTables :=
  {| execution_ids := execution_ids t; artifact_blobs := b; artifacts := artifacts t |}.
Definition set_artifacts (a : gmap (ExecutionId * string) ArtifactRow) (t : ArtifactTables) : ArtifactTables :=
  {| execution_ids := execution_ids t; artifact_blobs := artifact_blobs t; artifacts := a |}.

Abbreviation ArtifactTx := (stm ArtifactTables StoreError).

(** ** Calls *)

(** An open file is its device and inode. *)
Abbreviation FileId := (Z * Z)%type (only parsing).

Module Art.
Inductive artifact_call : Type -> Type :=
| CreateDirAll (path : string) : artifact_call (result Errno unit)
| SymlinkMetadata (path : string) : artifact_call (result Errno Metadata)
| CreateNew (path : string) : artifact_call (result Errno FileId)
| OpenRead (path : string) : artifact_call (result Errno FileId)
| WriteAll (file : FileId) (bytes : string) : artifact_call (result Errno unit)
| ReadToEnd (file : FileId) : artifact_call (result Errno string)
| SyncAll (file : FileId) : artifact_call (result Errno unit)
| FileMetadata (file : FileId) : artifact_call (result Errno Metadata)
| SetPermissions (file : FileId) (mode : Z) : artifact_call (result Errno unit)
| HardLink (original link : string) : artifact_call (result Errno unit)
| NewUuid : artifact_call string
| UtcNow : artifact_call Timestamp
(* [spawn_blocking]: an error when the task never ran *)
| SpawnBlocking : artifact_call (result string unit)
| Query {A} (f : ArtifactTables -> A) : artifact_call (result StoreError A)
| Transaction {A} (body : ArtifactTx A) : artifact_call (result StoreError A).
End Art.
Abbreviation artifact_call := Art.artifact_call.
Abbreviation artio := (io artifact_call StoreError).

Definition io_error (error : Errno) : StoreError :=
  StoreError.Conflict ("artifact filesystem error: " +:+ errno_text error).

Definition fs {A} (c : artifact_call (result Errno A)) : artio A := ask_or c io_error.
Definition db {A} (c : artifact_call (result StoreError A)) : artio A := ask_or c (fun e => e).

(** ** Names *)
Definition validate_name (name : string) : result StoreError unit :=
  if str_is_empty name || (255 <? String.length name)%nat || bool_decide (name = "."%string) ||
     bool_decide (name = ".."%string) || contains "/" name || contains "\" name || has_control (bytes_of name)
  then Err (StoreError.InvalidArtifactName name) else Ok tt.

Definition relative_path (digest : string) : string :=
  "artifacts/" +:+ String.substring 0 2 digest +:+ "/" +:+ digest.

(** ** Blobs *)
Definition not_directory : StoreError :=
  StoreError.Conflict "artifact directory ancestry is not a regular directory".

Definition reject_symlink_directory (path : string) : artio unit :=
  let up := parent_path path in
  each (fun directory =>
          metadata ← fs (Art.SymlinkMetadata directory);
          guard_or (negb (Metadata.is_symlink metadata || negb (Metadata.is_dir metadata))) not_directory)
       (path :: (match up with Some p => [p] | None => [] end) ++
        (match up ≫= parent_path with Some p => [p] | None => [] end)).

Definition verify_blob (path expected : string) : artio unit :=
  file ← fs (Art.OpenRead path);
  opened ← fs (Art.FileMetadata file);
  linked ← fs (Art.SymlinkMetadata path);
  _ ← guard_or (negb (Metadata.is_symlink linked || negb (Metadata.is_file linked) || negb (Metadata.is_file opened)))
        (StoreError.Conflict "artifact blob path is not a regular file");
  _ ← guard_or (negb (negb (Metadata.dev opened =? Metadata.dev linked) ||
                      negb (Metadata.ino opened =? Metadata.ino linked)))
        (StoreError.Conflict "artifact blob identity changed during verification");
  contents ← fs (Art.ReadToEnd file);
  guard_or (negb (negb (String.length contents =? String.length expected)%nat ||
                  negb (bool_decide (sha256_hex contents = sha256_hex expected))))
    (StoreError.Conflict "artifact blob content does not match its SHA-256 path").

(** [Permissions::set_readonly(true)]: the mode without [0o222]. *)
Definition set_readonly (mode : Z) : Z := Z.ldiff mode 146.

(** [persist_blob_with_hook], whose hook does nothing outside the tests. *)
Definition write_pending (temporary bytes : string) : artio unit :=
  file ← fs (Art.CreateNew temporary);
  _ ← fs (Art.WriteAll file bytes);
  _ ← fs (Art.SyncAll file);
  metadata ← fs (Art.FileMetadata file);
  _ ← fs (Art.SetPermissions file (set_readonly (Metadata.mode metadata)));
  fs (Art.SyncAll file).

Definition install (temporary path parent : string) : artio unit :=
  linked ← ask (Art.HardLink temporary path);
  match linked with
  | Ok _ =>
      directory ← fs (Art.OpenRead parent);
      fs (Art.SyncAll directory)
  | Err EXIST => mret tt
  | Err error => throw (io_error error)
  end.

Definition persist_blob (path bytes : string) : artio unit :=
  parent ← some_or (parent_path path) (StoreError.Conflict "artifact path lacks parent");
  _ ← fs (Art.CreateDirAll parent);
  _ ← reject_symlink_directory parent;
  metadata ← ask (Art.SymlinkMetadata path);
  match metadata with
  | Ok _ => verify_blob path bytes
  | Err NOENT =>
      uuid ← ask Art.NewUuid;
      let temporary := join parent (".pending-" +:+ uuid) in
      _ ← write_pending temporary bytes;
      _ ← install temporary path parent;
      verify_blob path bytes
  | Err error => throw (io_error error)
  end.

(** ** Rows *)

(** [INSERT INTO artifact_blobs .. ON CONFLICT (sha256) DO NOTHING]. *)
Definition insert_blob (sha256 : string) (row : BlobRow) : ArtifactTx unit :=
  _ ← ensure (is_digest sha256) (StoreError.Db "artifact_blobs_sha256_check");
  _ ← ensure (0 <=? BlobRow.size_bytes row) (StoreError.Db "artifact_blobs_size_bytes_check");
  existing ← gets (fun t => artifact_blobs t !! sha256);
  match existing with
  | Some _ => mret tt
  | None =>
      others ← gets (fun t => List.map (fun kr => BlobRow.relative_path kr.2) (map_to_list (artifact_blobs t)));
      _ ← ensure (negb (bool_decide (BlobRow.relative_path row ∈ others)))
            (StoreError.Db "artifact_blobs_relative_path_key");
      modify (fun t => set_blobs (<[sha256 := row]> (artifact_blobs t)) t)
  end.

(** [INSERT INTO artifacts .. ON CONFLICT (execution_id, name) DO NOTHING]: the
    rows affected. *)
Definition insert_artifact (execution_id : ExecutionId) (name : string) (row : ArtifactRow) : ArtifactTx Z :=
  existing ← gets (fun t => artifacts t !! (execution_id, name));
  match existing with
  | Some _ => mret 0
  | None =>
      ids ← gets execution_ids;
      _ ← ensure (bool_decide (execution_id ∈ ids)) (StoreError.Db "artifacts_execution_id_fkey");
      blob ← gets (fun t => artifact_blobs t !! ArtifactRow.sha256 row);
      _ ← require blob (StoreError.Db "artifacts_sha256_fkey");
      _ ← modify (fun t => set_artifacts (<[(execution_id, name) := row]> (artifacts t)) t);
      mret 1
  end.

Definition record (execution_id : ExecutionId) (name digest media_type : string) (size : Z) (now : Timestamp) :
    ArtifactTx unit :=
  _ ← insert_blob digest {| BlobRow.size_bytes := size; BlobRow.relative_path := relative_path digest;
                            BlobRow.created_at := now |};
  inserted ← insert_artifact execution_id name
    {| ArtifactRow.sha256 := digest; ArtifactRow.media_type := media_type; ArtifactRow.created_at := now |};
  when (inserted =? 0)
    (existing ← gets (fun t => artifacts t !! (execution_id, name));
     existing ← require existing (StoreError.Db "no rows returned by a query that expected to return at least one row");
     ensure (negb (negb (bool_decide (ArtifactRow.sha256 existing = digest)) ||
                   negb (bool_decide (ArtifactRow.media_type existing = media_type))))
       (StoreError.Conflict ("artifact name " +:+ name +:+ " is already associated with different content"))).

(** [artifacts a JOIN artifact_blobs b USING (sha256) WHERE a.execution_id = $1
    ORDER BY a.created_at, a.name]. *)
Definition joined_row (t : ArtifactTables) (execution_id : ExecutionId)
    (kr : (ExecutionId * string) * ArtifactRow) : option Artifact :=
  if bool_decide (kr.1.1 = execution_id) then
    blob ← artifact_blobs t !! ArtifactRow.sha256 kr.2;
    Some {| Artifact.execution_id := kr.1.1; Artifact.name := kr.1.2; Artifact.sha256 := ArtifactRow.sha256 kr.2;
            Artifact.size_bytes := BlobRow.size_bytes blob; Artifact.media_type := ArtifactRow.media_type kr.2;
            Artifact.created_at := ArtifactRow.created_at kr.2 |}
  else None.

Definition list_rows `{Collation} (execution_id : ExecutionId) (t : ArtifactTables) : list Artifact :=
  order_by Artifact.created_at Artifact.name (omap (joined_row t execution_id) (map_to_list (artifacts t))).

(** The [BIGINT] of the row becomes the [u64] of the artifact. *)
Definition decode_artifact (row : Artifact) : result StoreError Artifact :=
  size ← ok_or (try_from 0 u64_max (Artifact.size_bytes row)) (StoreError.Conflict "negative artifact size");
  Ok {| Artifact.execution_id := Artifact.execution_id row; Artifact.name := Artifact.name row;
        Artifact.sha256 := Artifact.sha256 row; Artifact.size_bytes := size;
        Artifact.media_type := Artifact.media_type row; Artifact.created_at := Artifact.created_at row |}.

Fixpoint decode_all (rows : list Artifact) : result StoreError (list Artifact) :=
  match rows with
  | [] => Ok []
  | row :: rows => artifact ← decode_artifact row; artifacts ← decode_all rows; Ok (artifact :: artifacts)
  end.

(** ** The store *)
Section Store.
Context `{Collation} (state_root : string).

Definition check_execution (execution_id : ExecutionId) : artio unit :=
  exists_ ← db (Art.Query (fun t => bool_decide (execution_id ∈ execution_ids t)));
  guard_or exists_ (StoreError.NotFound execution_id).

Definition list_artifacts (execution_id : ExecutionId) : artio (list Artifact) :=
  _ ← check_execution execution_id;
  rows ← db (Art.Query (list_rows execution_id));
  ret_result (decode_all rows).

Definition destination (digest : string) : string := join state_root (relative_path digest).

Definition store (execution_id : ExecutionId) (name media_type bytes : string) : artio Artifact :=
  _ ← ret_result (validate_name name);
  _ ← guard_or (negb (str_is_empty (trim media_type) || (255 <? String.length media_type)%nat))
        (StoreError.InvalidArtifactName "artifact media type must be 1-255 bytes");
  _ ← check_execution execution_id;
  let digest := sha256_hex bytes in
  _ ← ask_or Art.SpawnBlocking (fun error => StoreError.Conflict ("artifact writer failed: " +:+ error));
  _ ← persist_blob (destination digest) bytes;
  created_at ← ask Art.UtcNow;
  size_bytes ← some_or (try_from 0 u64_max (Z.of_nat (String.length bytes)))
                 (StoreError.Conflict "artifact length exceeds u64");
  size ← some_or (try_from (- 2 ^ 63) i64_max size_bytes) (StoreError.Conflict "artifact length exceeds BIGINT");
  _ ← db (Art.Transaction (record execution_id name digest media_type size created_at));
  listed ← list_artifacts execution_id;
  some_or (snd <$> list_find (fun artifact => Artifact.name artifact = name) listed) (StoreError.NotFound name).
End Store.
