(* ===== verification/ArtifactSafety.v ===== *)
(** * The artifact store among others

    The paths of the artifact directory, the files behind them and the tables,
    shared by controllers that run [store]: [step] is what one of them may do,
    and what the others do is a step of one of them.  Each file remembers who
    created it.  A write that fails may have written a part, a commit that fails
    may have happened. *)

From Stdlib Require Import Ascii.
From S2P Require Import Prelude Core WorkerTypes Database Effects StorageModel FileSystem RecordAtomicity Sha256 Artifacts.
















(** ** The world *)
Module Node.
Record Node := { kind : FileType; content : string; mode : Z; flushed : bool; creator : Z }.
Definition with_content (s : string) (n : Node) : Node :=
  {| kind := kind n; content := s; mode := mode n; flushed := false; creator := creator n |}.
Definition with_mode (m : Z) (n : Node) : Node :=
  {| kind := kind n; content := content n; mode := m; flushed := false; creator := creator n |}.
Definition flush (n : Node) : Node :=
  {| kind := kind n; content := content n; mode := mode n; flushed := true; creator := creator n |}.
(* no write bit, [0o222], is set *)
Definition read_only (n : Node) : Prop := Z.land (mode n) 146 = 0.
End Node.
Abbreviation Node := Node.Node.

Record ArtifactWorld := {
  names : gmap string (Z * Z);        (* the device and inode of a path *)
  nodes : gmap (Z * Z) Node;
  tables : ArtifactTables
}.

Definition set_names (m : gmap string (Z * Z)) (w : ArtifactWorld) : ArtifactWorld :=
  {| names := m; nodes := nodes w; tables := tables w |}.
Definition set_nodes (m : gmap (Z * Z) Node) (w : ArtifactWorld) : ArtifactWorld :=
  {| names := names w; nodes := m; tables := tables w |}.
Definition set_tables (t : ArtifactTables) (w : ArtifactWorld) : ArtifactWorld :=
  {| names := names w; nodes := nodes w; tables := t |}.

(** What follows the last slash. *)
Definition name_of (p : string) : string :=
  match rsplit_once "/" p with Some (_, last) => last | None => p end.

Definition pending (p : string) : bool := starts_with ".pending-" (name_of p).

Definition described (m : Metadata) (i : Z * Z) (n : Node) : Prop :=
  (Metadata.dev m, Metadata.ino m) = i /\ Metadata.file_type m = Node.kind n.

Section World.
Context (me : Z).

Definition artifact_sem (B : Type) (c : artifact_call B) (w : ArtifactWorld) : B -> ArtifactWorld -> Prop :=
  match c in Art.artifact_call B return B -> ArtifactWorld -> Prop with
  | Art.CreateDirAll path => fun r w' =>
      names w ⊆ names w' /\ nodes w ⊆ nodes w' /\ tables w' = tables w /\
      (is_ok r = true -> is_Some (names w' !! path)) /\
      forall q i, names w !! q = None -> names w' !! q = Some i ->
        exists n, nodes w' !! i = Some n /\ Node.kind n = DirectoryType
  | Art.SymlinkMetadata path => fun r w' => w' = w /\
      match r with
      | Ok m => exists i n, names w !! path = Some i /\ nodes w !! i = Some n /\ described m i n
      | Err NOENT => names w !! path = None
      | Err _ => True
      end
  | Art.CreateNew path => fun r w' =>
      match r with
      | Ok f => names w !! path = None /\ nodes w !! f = None /\ (forall q, names w !! q <> Some f) /\
          exists mode, w' = set_names (<[path := f]> (names w))
                 (set_nodes (<[f := {| Node.kind := RegularFile; Node.content := ""; Node.mode := mode;
                                       Node.flushed := false; Node.creator := me |}]> (nodes w)) w)
      | Err _ => w' = w
      end
  | Art.OpenRead path => fun r w' => w' = w /\
      match r with
      (* a symbolic link is followed *)
      | Ok f => exists i n, names w !! path = Some i /\ nodes w !! i = Some n /\
          (Node.kind n <> SymlinkType -> f = i)
      | Err _ => True
      end
  | Art.WriteAll f bytes => fun r w' =>
      (is_ok r = false /\ w' = w) \/
      exists n text, nodes w !! f = Some n /\
        w' = set_nodes (<[f := Node.with_content (Node.content n +:+ text) n]> (nodes w)) w /\
        (is_ok r = true -> text = bytes)
  | Art.ReadToEnd f => fun r w' => w' = w /\
      match r with Ok bytes => exists n, nodes w !! f = Some n /\ bytes = Node.content n | Err _ => True end
  | Art.SyncAll f => fun r w' =>
      match r with
      | Ok _ => exists n, nodes w !! f = Some n /\ w' = set_nodes (<[f := Node.flush n]> (nodes w)) w
      | Err _ => w' = w
      end
  | Art.SetPermissions f mode => fun r w' =>
      match r with
      | Ok _ => exists n, nodes w !! f = Some n /\ w' = set_nodes (<[f := Node.with_mode mode n]> (nodes w)) w
      | Err _ => w' = w
      end
  | Art.FileMetadata f => fun r w' => w' = w /\
      match r with Ok m => exists n, nodes w !! f = Some n /\ described m f n | Err _ => True end
  | Art.HardLink from to => fun r w' =>
      (is_ok r = false /\ w' = w) \/
      exists i, names w !! from = Some i /\ names w !! to = None /\ w' = set_names (<[to := i]> (names w)) w
  | Art.NewUuid => fun uuid w' => w' = w /\ string_forallb is_ascii_hexdigit uuid = true
  | Art.Query f => fun r w' => w' = w /\ match r with Ok a => a = f (tables w) | Err _ => True end
  | Art.Transaction body => fun r w' =>
      match r with
      | Ok a => exists t, body (tables w) = Ok (a, t) /\ w' = set_tables t w
      | Err _ => w' = w \/ exists a t, body (tables w) = Ok (a, t) /\ w' = set_tables t w
      end
  | _ => fun _ w' => w' = w
  end.
End World.

(** ** What a controller may do *)
Definition kept (n n' : Node) : Prop :=
  Node.content n' = Node.content n /\ (Node.flushed n = true -> Node.flushed n' = true) /\
  (Node.read_only n -> Node.read_only n').

(** Every name of the file is a temporary one. *)
Definition only_pending (w : ArtifactWorld) (i : Z * Z) : Prop := forall p, names w !! p = Some i -> pending p = true.

(** All of the file is on disk, it is read-only, and its name is its digest. *)
Definition complete (p : string) (n : Node) : Prop :=
  Node.flushed n = true /\ Node.read_only n /\ sha256_hex (Node.content n) = name_of p.

Definition grown (t t' : ArtifactTables) : Prop :=
  artifact_blobs t ⊆ artifact_blobs t' /\ artifacts t ⊆ artifacts t'.

Section Rules.
Context (state_root : string).

(** The blob of a digest is in place, and has that size. *)
Definition sized (digest : string) (size : Z) (w : ArtifactWorld) : Prop :=
  exists i n, names w !! destination state_root digest = Some i /\ nodes w !! i = Some n /\
    Node.kind n = RegularFile /\ sha256_hex (Node.content n) = digest /\
    size = Z.of_nat (String.length (Node.content n)).

Definition present (digest : string) (w : ArtifactWorld) : Prop := exists size, sized digest size w.

(** What a row of the blobs says of the file. *)
Definition row_describes (digest : string) (row : BlobRow) (w : ArtifactWorld) : Prop :=
  BlobRow.relative_path row = relative_path digest /\ sized digest (BlobRow.size_bytes row) w.

Definition new_rows_present (w w' : ArtifactWorld) : Prop :=
  forall k r, artifacts (tables w) !! k = None -> artifacts (tables w') !! k = Some r ->
    present (ArtifactRow.sha256 r) w'.

Definition new_blobs_described (w w' : ArtifactWorld) : Prop :=
  forall d b, artifact_blobs (tables w) !! d = None -> artifact_blobs (tables w') !! d = Some b ->
    row_describes d b w'.

(** No name is removed or moved, a file changes only while its names are
    temporary and only by the controller that created it, a name that is not
    temporary is given to complete files only, rows stay, and a new row names a
    blob that is there, with its path and its size. *)
Record step (who : Z) (w w' : ArtifactWorld) : Prop := {
  step_names : names w ⊆ names w';
  step_nodes i n : nodes w !! i = Some n ->
    exists n', nodes w' !! i = Some n' /\ Node.kind n' = Node.kind n /\ Node.creator n' = Node.creator n /\
      (kept n n' \/ (Node.creator n = who /\ only_pending w i));
  step_links p i : names w !! p = None -> names w' !! p = Some i ->
    exists n, nodes w' !! i = Some n /\
      (Node.kind n = DirectoryType \/
       (Node.kind n = RegularFile /\ Node.creator n = who /\ (pending p = true \/ complete p n)));
  step_tables : grown (tables w) (tables w');
  step_rows : new_rows_present w w';
  step_blob_rows : new_blobs_described w w'
}.

Definition others (me : Z) (w w' : ArtifactWorld) : Prop := exists o, o <> me /\ step o w w'.

(** What [me] may rely on, its own harmless calls included. *)
Record relied (me : Z) (w w' : ArtifactWorld) : Prop := {
  rely_names : names w ⊆ names w';
  rely_nodes i n : nodes w !! i = Some n ->
    exists n', nodes w' !! i = Some n' /\ Node.kind n' = Node.kind n /\ Node.creator n' = Node.creator n /\
      (Node.creator n = me \/ ~ only_pending w i -> kept n n');
  rely_links p i n : names w !! p = None -> names w' !! p = Some i -> nodes w !! i = Some n ->
    Node.kind n = RegularFile -> Node.creator n <> me;
  rely_tables : grown (tables w) (tables w')
}.

Definition harmless (B : Type) (c : artifact_call B) : Prop :=
  match c with
  | Art.WriteAll _ _ | Art.SetPermissions _ _ | Art.HardLink _ _ | Art.Transaction _ => False
  | Art.CreateNew path => pending path = true
  | _ => True
  end.

Lemma kept_refl n : kept n n.
Proof. by split. Qed.

Lemma grown_refl t : grown t t.
Proof. by split. Qed.

Lemma unchanged_both me w : step me w w /\ relied me w w.
Proof.
  split; split; try done; try apply grown_refl.
  - intros i n Hn. exists n. eauto using kept_refl.
  - intros p i H1 H2. congruence.
  - intros k r H1 H2. simpl in H2. congruence.
  - intros k r H1 H2. simpl in H2. congruence.
  - intros i n Hn. exists n. eauto using kept_refl.
  - intros p i n H1 H2. congruence.
Qed.

(** A change of names and nodes that keeps what there is. *)
Lemma extended_both me w w' :
  names w ⊆ names w' -> tables w' = tables w ->
  (forall i n, nodes w !! i = Some n -> exists n', nodes w' !! i = Some n' /\ Node.kind n' = Node.kind n /\
     Node.creator n' = Node.creator n /\ kept n n') ->
  (forall p i, names w !! p = None -> names w' !! p = Some i -> exists n, nodes w' !! i = Some n /\
     (Node.kind n = DirectoryType \/
      (Node.kind n = RegularFile /\ Node.creator n = me /\ pending p = true /\ nodes w !! i = None))) ->
  step me w w' /\ relied me w w'.
Proof.
  intros Hnames Ht Hnodes Hlinks. split; split; try done; try by rewrite Ht; apply grown_refl.
  - intros i n Hn. destruct (Hnodes i n Hn) as (n' & ? & ? & ? & ?). exists n'. eauto.
  - intros p i H1 H2. destruct (Hlinks p i H1 H2) as (n & Hn & [?|(? & ? & ? & ?)]); exists n; split; auto 6.
  - intros k r H1 H2. rewrite Ht in H2. congruence.
  - intros k r H1 H2. rewrite Ht in H2. congruence.
  - intros i n Hn. destruct (Hnodes i n Hn) as (n' & ? & ? & ? & ?). exists n'. eauto.
  - intros p i n H1 H2 Hn Hk _. destruct (Hlinks p i H1 H2) as (n' & Hn' & [Hd|(_ & _ & _ & ?)]); [|congruence].
    destruct (Hnodes i n Hn) as (n2 & ? & ? & _). congruence.
Qed.

#[export] Instance artifact_rely me : Rely (artifact_sem me) (others me) (step me) (relied me) harmless.
Proof.
  split.
  - intros w w' (o & Ho & [H1 H2 H3 H4 H5 H6]). split; try done.
    + intros i n Hn. destruct (H2 i n Hn) as (n' & ? & ? & ? & Hk). exists n'. do 3 (split; [done|]).
      intros Hm. destruct Hk as [?|[He Hp]]; [done|]. destruct Hm; [congruence|done].
    + intros p i n Hp Hp' Hn Hk. destruct (H3 p i Hp Hp') as (n' & Hn' & Hc).
      destruct (H2 i n Hn) as (n2 & Hn2 & Hk2 & Hc2 & _). assert (n2 = n') as -> by congruence.
      destruct Hc as [Hd|(_ & Hw & _)]; congruence.
  - intros B c w b w' Hc Hs. destruct c; try done; simpl in Hs; try solve [subst; by apply unchanged_both | destruct Hs as [-> _]; by apply unchanged_both].
    + destruct Hs as (Hn & Hd & Ht & _ & Hnew). apply extended_both; try done.
      * intros i n Hi. exists n. split; [by eapply lookup_weaken|]. eauto using kept_refl.
      * intros p i H1 H2. destruct (Hnew p i H1 H2) as (n & Hi & Hk). exists n. auto.
    + destruct b as [f|e]; [|subst; by apply unchanged_both]. destruct Hs as (Hp & Hf & Hq & mode & ->).
      apply extended_both; simpl; try done.
      * by apply insert_subseteq.
      * intros i n Hi. exists n. split; [by rewrite lookup_insert_ne by congruence|]. eauto using kept_refl.
      * intros p i H1 H2. destruct (decide (p = path)) as [-> |Hne]; [|rewrite lookup_insert_ne in H2 by done; congruence].
        rewrite lookup_insert_eq in H2. injection H2 as <-. rewrite lookup_insert_eq. eexists. split; [done|]. by right.
    + destruct b as [u|e]; [|subst; by apply unchanged_both]. destruct Hs as (n & Hn & ->).
      apply extended_both; simpl; try done; [|intros p i H1 H2; congruence].
      intros i n' Hi. destruct (decide (i = file)) as [-> |Hne].
      * rewrite lookup_insert_eq. exists (Node.flush n). assert (n' = n) as -> by congruence. by split.
      * rewrite lookup_insert_ne by done. exists n'. eauto using kept_refl.
Qed.

(** ** Names *)
Lemma name_of_app a d : ~ has_char "/" d -> name_of (a +:+ String "/" d) = d.
Proof. intros Hd. unfold name_of. by rewrite rsplit_once_app. Qed.

Lemma name_of_destination d : is_digest d = true -> name_of (destination state_root d) = d.
Proof.
  unfold is_digest. intros [_ Hd]%andb_true_iff. unfold destination, relative_path.
  destruct (join_relative state_root ("artifacts/" +:+ String.substring 0 2 d +:+ "/" +:+ d)) as [a ->]; [done|].
  rewrite <- !string_app_assoc. rewrite (string_app_assoc _ "/" d). apply name_of_app. by apply (forallb_no_char is_hex_digit).
Qed.

Lemma destination_not_pending d : is_digest d = true -> pending (destination state_root d) = false.
Proof.
  intros Hd. unfold pending. rewrite name_of_destination by done. unfold is_digest in Hd.
  destruct d as [|c d]; [done|]. apply andb_true_iff in Hd as [_ Hd]. simpl in Hd. apply andb_true_iff in Hd as [Hc _].
  simpl. destruct (ascii_dec "." c) as [<-|Hne]; [done|]. by rewrite bool_decide_false by done.
Qed.

Lemma pending_temporary dir uuid :
  string_forallb is_ascii_hexdigit uuid = true -> pending (join dir (".pending-" +:+ uuid)) = true.
Proof.
  intros Hu. assert (~ has_char "/" (".pending-" +:+ uuid)) as Hs.
  { intros H. rewrite has_char_app in H. destruct H as [H|H]; [by vm_compute in H|]. clear -Hu H.
    induction uuid as [|c uuid IH]; [by apply has_char_nil in H|]. simpl in Hu. apply andb_true_iff in Hu as [Hc Hu].
    apply has_char_cons in H as [He|H]; [by subst c|by apply IH]. }
  unfold pending. enough (name_of (join dir (".pending-" +:+ uuid)) = ".pending-" +:+ uuid)%string as -> by apply starts_with_app.
  unfold join. change (is_absolute _) with false. cbn iota. destruct (str_is_empty dir).
  { unfold name_of. by rewrite (proj2 (rsplit_once_None _ _) Hs). }
  destruct (rsplit_once "/" dir) as [[a [|x b]]|] eqn:Er.
  - apply rsplit_once_Some in Er as [-> _]. rewrite string_app_assoc. by apply name_of_app.
  - by apply name_of_app.
  - by apply name_of_app.
Qed.

(** ** One controller *)
Section Controller.
Context `{Collation} (me : Z).
Abbreviation ensures := (ensures (artifact_sem me) (others me) (step me)).
Abbreviation stable := (stable (relied me)).
Abbreviation any := (fun _ : ArtifactWorld => True).

Lemma stable_any : stable any.
Proof. done. Qed.

(** The path is a regular file; once it is, its content stays. *)
Definition blob_at (path : string) (i : Z * Z) (P : string -> Prop) (w : ArtifactWorld) : Prop :=
  names w !! path = Some i /\ exists n, nodes w !! i = Some n /\ Node.kind n = RegularFile /\ P (Node.content n).

Lemma stable_blob_at path i P : pending path = false -> stable (blob_at path i P).
Proof.
  intros Hp w w' Hr [Hn (n & Hi & Hk & HP)]. destruct (rely_nodes _ _ _ Hr i n Hi) as (n' & Hi' & Hk' & _ & Hc).
  split; [by eapply lookup_weaken, rely_names|]. exists n'. rewrite Hk'. do 2 (split; [done|]).
  destruct Hc as [-> _]; [|done]. right. intros Ho. specialize (Ho _ Hn). congruence.
Qed.

(** [path] holds a file of the length and digest of [bytes]. *)
Definition same_blob (bytes contents : string) : Prop :=
  String.length contents = String.length bytes /\ sha256_hex contents = sha256_hex bytes.

Definition holds (path bytes : string) (w : ArtifactWorld) : Prop := exists i, blob_at path i (same_blob bytes) w.

Lemma stable_holds path bytes : pending path = false -> stable (holds path bytes).
Proof. intros Hp w w' Hr [i Hi]. exists i. by eapply stable_blob_at. Qed.

Lemma holds_sized bytes w :
  holds (destination state_root (sha256_hex bytes)) bytes w ->
  sized (sha256_hex bytes) (Z.of_nat (String.length bytes)) w.
Proof. intros (i & Hn & n & Hi & Hk & Hl & Hs). exists i, n. by rewrite Hl. Qed.

Lemma verify_blob_holds path bytes s :
  pending path = false -> ensures any (fun _ => holds path bytes) (verify_blob path bytes) s.
Proof.
  intros Hp. unfold verify_blob. apply ensures_skip; [done..|]. intros file s1 _.
  apply (ensures_bind _ (fun m _ => (Metadata.dev m, Metadata.ino m) = file)); [done| |].
  { apply ensures_ask_or; [done..|intros m; apply stable_const|].
    intros w m w' _ [-> (n & _ & Hd & _)]. exact Hd. }
  intros opened s2 _ Ho.
  apply (ensures_bind _ (fun m w => blob_at path (Metadata.dev m, Metadata.ino m) (fun _ => True) w \/
                                    Metadata.file_type m <> RegularFile)); [done| |].
  { apply ensures_ask_or; [done..| |].
    - intros m w w' Hr [Hb|]; [left; by eapply stable_blob_at|by right].
    - intros w m w' _ [-> (i & n & Hn & Hi & Hd & Hk)]. destruct (decide (Metadata.file_type m = RegularFile)) as [He|]; [|by right].
      left. rewrite Hd. split; [done|]. exists n. by rewrite <- Hk. }
  intros linked s3 _ Hl.
  apply ensures_guard; [done..|]. intros Hk. apply ensures_guard; [done..|]. intros Hid.
  assert (blob_at path file (fun _ => True) s3) as Hb.
  { destruct Hl as [Hb|Hn].
    - rewrite <- Ho. rewrite negb_true_iff, orb_false_iff, !negb_false_iff, !Z.eqb_eq in Hid.
      destruct Hid as [-> ->]. done.
    - exfalso. rewrite negb_true_iff, !orb_false_iff, negb_false_iff in Hk. destruct Hk as [[_ Hk] _].
      unfold Metadata.is_file in Hk. by apply bool_decide_eq_true in Hk. }
  apply (ensures_inv _ (blob_at path file (fun _ => True))); [done|].
  apply (ensures_bind _ (fun contents => blob_at path file (fun c => c = contents)));
    [by apply stable_blob_at| |].
  { apply ensures_ask_or; [by apply stable_blob_at|done..|intros c; by apply stable_blob_at|].
    intros w c w' [Hn (n & Hi & Hk' & _)] [-> (n' & Hi' & ->)]. split; [done|]. exists n. by replace n' with n by congruence. }
  intros contents s4 _ Hc. apply (ensures_inv _ (blob_at path file (fun c => c = contents))); [by intros w (Hn & n & ? & ? & _); split; [|exists n]|].
  unfold guard_or. apply ensures_result; [by apply stable_blob_at|done|].
  intros u Hu. apply check_Ok in Hu. split; [by apply stable_holds|]. exists file.
  destruct Hc as (Hn & n & Hi & Hkn & He). subst contents. split; [done|]. exists n. do 2 (split; [done|]).
  rewrite negb_true_iff, orb_false_iff, !negb_false_iff, Nat.eqb_eq, bool_decide_eq_true in Hu. destruct Hu. done.
Qed.

(** ** The temporary file *)
Section Pending.
Context (temporary : string) (Hpending : pending temporary = true).

(** Created by this controller, and named by temporary names only. *)
Definition mine (f : Z * Z) (P : Node -> Prop) (w : ArtifactWorld) : Prop :=
  names w !! temporary = Some f /\ only_pending w f /\
  exists n, nodes w !! f = Some n /\ Node.kind n = RegularFile /\ Node.creator n = me /\ P n.

Definition written (bytes : string) (n : Node) : Prop := Node.content n = bytes.
Definition locked (bytes : string) (n : Node) : Prop := Node.content n = bytes /\ Node.read_only n.
Definition synced (bytes : string) (n : Node) : Prop := locked bytes n /\ Node.flushed n = true.

Lemma stable_mine f (P : Node -> Prop) : (forall n n', kept n n' -> P n -> P n') -> stable (mine f P).
Proof.
  intros HP w w' Hr (Hn & Ho & n & Hi & Hk & Hm & Hp).
  split; [by eapply lookup_weaken, rely_names|]. split.
  - intros p Hp'. destruct (names w !! p) as [i|] eqn:E.
    + apply Ho. assert (names w' !! p = Some i) by by eapply lookup_weaken, rely_names. congruence.
    + exfalso. by apply (rely_links _ _ _ Hr p f n E Hp' Hi Hk).
  - destruct (rely_nodes _ _ _ Hr f n Hi) as (n' & Hi' & Hk' & Hm' & Hc). exists n'. rewrite Hk', Hm'.
    do 3 (split; [done|]). eapply HP; [|exact Hp]. auto.
Qed.

Lemma kept_written bytes n n' : kept n n' -> written bytes n -> written bytes n'.
Proof. intros [Hc _] Hw. unfold written in *. congruence. Qed.

Lemma kept_locked bytes n n' : kept n n' -> locked bytes n -> locked bytes n'.
Proof. intros (Hc & _ & Hr) [Hw Hl]. split; [congruence|auto]. Qed.

Lemma kept_synced bytes n n' : kept n n' -> synced bytes n -> synced bytes n'.
Proof. intros Hk [Hl Hf]. split; [by eapply kept_locked|by apply Hk]. Qed.

(** A call that changes the file of this controller, or fails and does not. *)
Lemma change_mine f (P Q : Node -> Prop) (c : artifact_call (result Errno unit)) s :
  (forall n n', kept n n' -> P n -> P n') -> (forall n n', kept n n' -> Q n -> Q n') ->
  (forall w b w', artifact_sem me _ c w b w' -> (is_ok b = false /\ w' = w) \/
     exists n n', nodes w !! f = Some n /\ w' = set_nodes (<[f := n']> (nodes w)) w /\
       Node.kind n' = Node.kind n /\ Node.creator n' = Node.creator n /\ (is_ok b = true -> P n -> Q n')) ->
  mine f P s -> ensures any (fun _ => mine f Q) (fs c) s.
Proof.
  intros HP HQ Hc Hs s1 Hw b s2 Hb. destruct (Hc s1 b s2 Hb) as [[He ->]|(n & n2 & Hn & -> & Hk2 & Hm2 & Hq)].
  { split; [by apply unchanged_both|]. intros s3 _. split; [done|]. intros u Hu. by destruct b. }
  assert (mine f P s1) as (Hf & Ho & n' & Hn' & Hk & Hm & Hp)
    by (eapply (stable_env (P := harmless)); [by apply stable_mine|exact Hw|exact Hs]).
  assert (n' = n) as -> by congruence. split.
  - split; simpl; try done; [|intros p i H1 H2; congruence|intros k r H1 H2; simpl in H2; congruence..].
    intros i n0 Hi. destruct (decide (i = f)) as [-> |Hne].
    + assert (n0 = n) as -> by congruence. rewrite lookup_insert_eq. exists n2. do 3 (split; [done|]). by right.
    + rewrite lookup_insert_ne by done. exists n0. eauto using kept_refl.
  - intros s3 H3. split; [done|]. intros u Hu. destruct b as [[]|e]; [|done].
    eapply (stable_env (P := harmless)); [by apply stable_mine|exact H3|].
    split; [done|]. split; [done|]. simpl. rewrite lookup_insert_eq. exists n2. split; [done|].
    rewrite Hk2, Hm2. do 2 (split; [done|]). by apply Hq.
Qed.

Lemma write_all_written f bytes s :
  mine f (written "") s -> ensures any (fun _ => mine f (written bytes)) (fs (Art.WriteAll f bytes)) s.
Proof.
  apply change_mine; [apply kept_written..|]. intros w b w' [Hb|(n & text & Hn & -> & Ht)]; [by left|right].
  exists n, (Node.with_content (Node.content n +:+ text) n). do 4 (split; [done|]).
  intros Hok Hc. unfold written in *. simpl. by rewrite Hc, Ht.
Qed.

Lemma set_permissions_locked f mode bytes s :
  Z.land mode 146 = 0 -> mine f (written bytes) s ->
  ensures any (fun _ => mine f (locked bytes)) (fs (Art.SetPermissions f mode)) s.
Proof.
  intros Hmode. apply change_mine; [apply kept_written|apply kept_locked|].
  intros w [u|e] w' Hs; [|by left]. destruct Hs as (n & Hn & ->). right.
  exists n, (Node.with_mode mode n). do 4 (split; [done|]). by intros _ Hc.
Qed.

Lemma sync_all_synced f bytes s :
  mine f (locked bytes) s -> ensures any (fun _ => mine f (synced bytes)) (fs (Art.SyncAll f)) s.
Proof.
  apply change_mine; [apply kept_locked|apply kept_synced|].
  intros w [u|e] w' Hs; [|by left]. destruct Hs as (n & Hn & ->). right.
  exists n, (Node.flush n). do 4 (split; [done|]). by intros _ Hc.
Qed.

Lemma write_pending_synced bytes s :
  ensures any (fun _ w => exists f, mine f (synced bytes) w) (write_pending temporary bytes) s.
Proof.
  unfold write_pending. apply (ensures_bind _ (fun f => mine f (written ""))); [done| |].
  { apply ensures_ask_or; [done..|intros f; apply stable_mine, kept_written|].
    intros w f w' _ (Hp & Hf & Hq & mode & ->). split; simpl; [by rewrite lookup_insert_eq|]. split.
    - intros p. simpl. destruct (decide (p = temporary)) as [-> |Hne]; [done|].
      rewrite lookup_insert_ne by done. intros E. by destruct (Hq p).
    - rewrite lookup_insert_eq. by eexists. }
  intros f s1 _ H1. apply (ensures_bind _ (fun _ => mine f (written bytes))); [done|by apply write_all_written|].
  intros _ s2 _ H2. assert (stable (mine f (written bytes))) as Hst by apply stable_mine, kept_written.
  apply (ensures_bind _ (fun _ => mine f (written bytes))); [done| |].
  { by apply (ensures_holds _ (mine f (written bytes))). }
  intros _ s3 _ H3. apply (ensures_bind _ (fun _ => mine f (written bytes))); [done| |].
  { by apply (ensures_holds _ (mine f (written bytes))). }
  intros metadata s4 _ H4. apply (ensures_bind _ (fun _ => mine f (locked bytes))); [done| |].
  { apply set_permissions_locked; [apply Z.land_ldiff|done]. }
  intros _ s5 _ H5. eapply ensures_weaken; [|by apply sync_all_synced]. intros a w _ Hw. by exists f.
Qed.

Lemma hard_link_step f bytes path s :
  mine f (synced bytes) s -> name_of path = sha256_hex bytes ->
  ensures any (fun _ => any) (ask (E := StoreError) (Art.HardLink temporary path)) s.
Proof.
  intros Hs Hpath s1 Hw b s2 Hb.
  assert (mine f (synced bytes) s1) as (Hf & Ho & n & Hn & Hk & Hm & [Hc Hro] & Hfl)
    by (eapply (stable_env (P := harmless)); [apply stable_mine, kept_synced|exact Hw|exact Hs]).
  split; [|by intros s3 _]. destruct Hb as [[_ ->]|(i & Hi & Hto & ->)]; [by apply unchanged_both|].
  assert (i = f) as -> by congruence. split; simpl; try done.
  - by apply insert_subseteq.
  - intros i n0 Hi0. exists n0. eauto using kept_refl.
  - intros p i H1 H2. destruct (decide (p = path)) as [-> |Hne]; [|rewrite lookup_insert_ne in H2 by done; congruence].
    rewrite lookup_insert_eq in H2. injection H2 as <-. exists n. split; [done|]. right. do 2 (split; [done|]). right.
    do 2 (split; [done|]). by rewrite Hc.
  - intros k r H1 H2. simpl in H2. congruence.
  - intros k r H1 H2. simpl in H2. congruence.
Qed.
End Pending.

Lemma install_calls temporary path parent :
  all_calls (fun B (c : artifact_call B) => harmless B c \/ existT B c = existT _ (Art.HardLink temporary path))
    (install temporary path parent).
Proof.
  apply all_calls_io_bind; [split; [by right|done]|]. intros [[]|[| |text]]; [|done..].
  apply all_calls_io_bind; [split; [by left|done]|]. intros d. split; [by left|done].
Qed.

Lemma install_any temporary path parent f bytes s :
  pending temporary = true -> mine temporary f (synced bytes) s -> name_of path = sha256_hex bytes ->
  ensures any (fun _ => any) (install temporary path parent) s.
Proof.
  intros Hp Hs Hn. apply (ensures_bind _ (fun _ => any)); [done|by eapply hard_link_step|].
  intros linked s1 _ _. apply (ensures_calls _ (fun _ => True)); [done| |by apply ends_any|done].
  destruct linked as [[]|[| |text]]; [|done..]. apply all_calls_io_bind; [by split|]. by split.
Qed.

Lemma persist_blob_holds path bytes s :
  pending path = false -> name_of path = sha256_hex bytes ->
  ensures any (fun _ => holds path bytes) (persist_blob path bytes) s.
Proof.
  intros Hp Hn. unfold persist_blob, some_or. apply ensures_known; [done..|]. intros up _.
  apply ensures_skip; [done|by split|done|]. intros _ s1 _. apply ensures_skip; [done| |done|].
  { apply all_calls_each. intros d. apply all_calls_io_bind; [by split|]. intros m. unfold guard_or. done. }
  intros _ s2 _. apply ensures_skip; [done|by split|done|].
  intros [m|[| |text]] s3 _; [by apply verify_blob_holds| |by apply ensures_throw..].
  apply (ensures_bind _ (fun uuid _ => string_forallb is_ascii_hexdigit uuid = true)); [done| |].
  { apply ensures_ask; [done..|intros uuid; apply stable_const|]. by intros w uuid w' _ [_ Hu]. }
  intros uuid s4 _ Hu. pose proof (pending_temporary up uuid Hu) as Ht.
  apply (ensures_bind _ (fun _ w => exists f, mine (join up (".pending-" +:+ uuid)) f (synced bytes) w));
    [done|by apply write_pending_synced|].
  intros _ s5 _ [f Hf].
  apply (ensures_bind _ (fun _ => any)); [done|by eapply install_any|].
  intros _ s6 _ _. by apply verify_blob_holds.
Qed.

(** ** The rows *)
Section Row.
Context (execution_id : ExecutionId) (name digest media_type : string).

Definition recorded (t : ArtifactTables) : Prop :=
  exists r, artifacts t !! (execution_id, name) = Some r /\ ArtifactRow.sha256 r = digest /\
    ArtifactRow.media_type r = media_type.

Lemma stable_recorded : stable (fun w => recorded (tables w)).
Proof.
  intros w w' Hr (r & Hk & Hd & Hm). exists r. split; [|done].
  eapply lookup_weaken; [exact Hk|]. apply (rely_tables _ _ _ Hr).
Qed.

Lemma insert_blob_grows row t u t' :
  insert_blob digest row t = Ok (u, t') ->
  artifacts t' = artifacts t /\ artifact_blobs t ⊆ artifact_blobs t' /\
  forall d b, artifact_blobs t !! d = None -> artifact_blobs t' !! d = Some b -> d = digest /\ b = row.
Proof.
  unfold insert_blob. intros Hr. stm_inv. destruct (artifact_blobs _ !! digest) as [b|] eqn:E; stm_inv.
  { split_and!; [done..|]. intros d b' Hd1 Hd2. congruence. }
  split_and!; [done|by apply insert_subseteq|]. intros d b' Hd1 Hd2. simpl in Hd2.
  destruct (decide (d = digest)) as [-> |Hne]; [rewrite lookup_insert_eq in Hd2; by injection Hd2 as <-|].
  rewrite lookup_insert_ne in Hd2 by done. congruence.
Qed.

Lemma record_grows size now t u t' :
  record execution_id name digest media_type size now t = Ok (u, t') ->
  grown t t' /\ recorded t' /\
  (forall k r, artifacts t !! k = None -> artifacts t' !! k = Some r -> ArtifactRow.sha256 r = digest) /\
  (forall d b, artifact_blobs t !! d = None -> artifact_blobs t' !! d = Some b ->
     d = digest /\ BlobRow.relative_path b = relative_path digest /\ BlobRow.size_bytes b = size).
Proof.
  unfold record. intros Hr. apply bind_Ok in Hr as (u1 & t1 & Hb & Hr). apply insert_blob_grows in Hb as (Ha & Hb & Hnew).
  assert (forall d b, artifact_blobs t !! d = None -> artifact_blobs t1 !! d = Some b ->
     d = digest /\ BlobRow.relative_path b = relative_path digest /\ BlobRow.size_bytes b = size) as Hblob
    by (intros d b H1 H2; by destruct (Hnew d b H1 H2) as [-> ->]).
  apply bind_Ok in Hr as (n & t2 & Hi & Hr). unfold insert_artifact in Hi. unfold grown, recorded.
  stm_inv. destruct (artifacts _ !! (execution_id, name)) as [old|] eqn:E; stm_inv.
  - match goal with H : negb _ = true |- _ => rewrite negb_true_iff, orb_false_iff, !negb_false_iff, !bool_decide_eq_true in H;
      destruct H as [Hd Hm] end.
    rewrite Ha in *. split; [done|]. split; [by eexists|]. split; [|done]. intros k r Hk Hk'. congruence.
  - split; [split; [done|]; rewrite <- Ha; by apply insert_subseteq|].
    split; [by eexists; rewrite lookup_insert_eq|]. split; [|done].
    intros k r Hk Hk2. destruct (decide (k = (execution_id, name))) as [-> |Hne].
    + rewrite lookup_insert_eq in Hk2. by injection Hk2 as <-.
    + rewrite lookup_insert_ne in Hk2 by done. congruence.
Qed.

Lemma transaction_records (I : ArtifactWorld -> Prop) size now s :
  stable I -> (forall w, I w -> sized digest size w) -> I s ->
  ensures I (fun _ w => recorded (tables w))
    (db (Art.Transaction (record execution_id name digest media_type size now))) s.
Proof.
  intros Hst HI Hs s1 Hw b s2 Hb. assert (I s1) as H1 by by eapply (stable_env (P := harmless)).
  assert (forall u t, record execution_id name digest media_type size now (tables s1) = Ok (u, t) ->
    (step me s1 (set_tables t s1) /\ I (set_tables t s1)) /\ recorded t) as Hstep.
  { intros u t Ht. apply record_grows in Ht as (Hg & Hr & Hnew & Hblob). split; [|done]. split.
    - split; simpl; try done.
      + intros i n Hi. exists n. eauto using kept_refl.
      + intros p i Hp Hp'. congruence.
      + intros k r Hk Hk'. rewrite (Hnew k r Hk Hk'). exists size. by apply HI in H1.
      + intros d row Hd Hd'. destruct (Hblob d row Hd Hd') as (-> & Hp & Hsz). split; [done|]. rewrite Hsz. by apply HI in H1.
    - eapply Hst; [|exact H1]. split; simpl; try done.
      + intros i n Hi. exists n. eauto using kept_refl.
      + intros p i n Hp Hp'. congruence. }
  assert (step me s1 s2 /\ I s2 /\ forall u, b = Ok u -> recorded (tables s2)) as (Hg & H2 & Hr).
  { destruct b as [u|e].
    - destruct Hb as (t & Ht & ->). destruct (Hstep u t Ht) as [[??] ?]. done.
    - destruct Hb as [-> |(u & t & Ht & ->)]; [split; [by apply unchanged_both|done]|].
      destruct (Hstep u t Ht) as [[??] _]. done. }
  split; [done|]. intros s3 H3. split; [by eapply (stable_env (P := harmless))|].
  intros u Hu. apply map_err_Ok in Hu. by eapply (stable_env (P := harmless) (fun w => recorded (tables w)) s2 s3 stable_recorded H3), Hr.
Qed.

(** What is listed under the name is the row, with the size of the blob's. *)
Definition described_as (artifact : Artifact) (t : ArtifactTables) : Prop :=
  Artifact.execution_id artifact = execution_id /\ Artifact.sha256 artifact = digest /\
  Artifact.media_type artifact = media_type /\
  exists blob, artifact_blobs t !! digest = Some blob /\ Artifact.size_bytes artifact = BlobRow.size_bytes blob.

Lemma stable_described artifact : stable (fun w => described_as artifact (tables w)).
Proof.
  intros w w' Hr (? & ? & ? & blob & Hb & Hs). do 3 (split; [done|]). exists blob. split; [|done].
  eapply lookup_weaken; [exact Hb|]. apply (rely_tables _ _ _ Hr).
Qed.

Lemma list_rows_recorded t artifact :
  recorded t -> artifact ∈ list_rows execution_id t -> Artifact.name artifact = name -> described_as artifact t.
Proof.
  intros (r & Hk & Hd & Hm) Hin Hn. unfold list_rows in Hin. rewrite elem_of_order_by in Hin.
  apply list_elem_of_omap in Hin as ([[ex nm] r'] & Hin & Hj). apply elem_of_map_to_list in Hin.
  unfold joined_row in Hj. simpl in Hj. case_bool_decide as He; [|done]. subst ex.
  destruct (artifact_blobs t !! ArtifactRow.sha256 r') as [blob|] eqn:Eb; [|done]. injection Hj as <-. simpl in *. subst nm.
  assert (r' = r) as -> by congruence. rewrite Hd in Eb. do 3 (split; [done|]). by exists blob.
Qed.

Lemma decode_all_elem rows artifacts artifact :
  decode_all rows = Ok artifacts -> artifact ∈ artifacts -> artifact ∈ rows.
Proof.
  revert artifacts. induction rows as [|row rows IH]; intros l Hd Hin; simpl in Hd.
  { injection Hd as <-. by apply elem_of_nil in Hin. }
  apply result_bind_Ok in Hd as (a & Ha & Hd). apply result_bind_Ok in Hd as (l' & Hl' & Hd). injection Hd as <-.
  unfold decode_artifact in Ha. apply result_bind_Ok in Ha as (size & Hsz & Ha). injection Ha as <-.
  apply ok_or_Ok, try_from_Some in Hsz as [-> _].
  apply elem_of_cons in Hin as [-> |Hin]; [destruct row; left|right; by eapply IH].
Qed.

Lemma list_artifacts_recorded (I : ArtifactWorld -> Prop) s :
  stable I -> (forall w, I w -> recorded (tables w)) -> I s ->
  ensures I (fun l w => forall a, a ∈ l -> Artifact.name a = name -> described_as a (tables w)) (list_artifacts execution_id) s.
Proof.
  intros Hs HI Hi. unfold list_artifacts. apply ensures_skip; [done| |done|].
  { apply all_calls_io_bind; [by split|]. intros b. unfold guard_or. done. }
  intros _ s1 H1.
  assert (forall l : list Artifact, stable (fun w => forall a, a ∈ l -> Artifact.name a = name -> described_as a (tables w))) as Hl.
  { intros l w w' Hr Ha a Hin Hn. eapply stable_described; [exact Hr|by apply Ha]. }
  apply (ensures_bind _ (fun rows w => forall a, a ∈ rows -> Artifact.name a = name -> described_as a (tables w))); [done| |].
  { apply ensures_ask_or; [done..|].
    intros w rows w' Hw [-> ->] a Ha Hn. by eapply list_rows_recorded; [apply HI|..]. }
  intros rows s2 H2 Hrows. apply ensures_result; [done..|]. intros l Hd. split; [done|].
  intros a Ha Hn. apply Hrows; [|done]. by eapply decode_all_elem.
Qed.
End Row.

(** The blob and the row of a stored artifact. *)
Definition stored (execution_id : ExecutionId) (name media_type bytes : string) (w : ArtifactWorld) : Prop :=
  recorded execution_id name (sha256_hex bytes) media_type (tables w) /\
  holds (destination state_root (sha256_hex bytes)) bytes w.

Lemma store_ensures execution_id name media_type bytes s :
  ensures any (fun a w => stored execution_id name media_type bytes w /\ Artifact.name a = name /\
                 described_as execution_id (sha256_hex bytes) media_type a (tables w))
    (store state_root execution_id name media_type bytes) s.
Proof.
  pose proof (sha256_is_digest bytes) as Hd. pose proof (name_of_destination _ Hd) as Hn.
  pose proof (destination_not_pending _ Hd) as Hp. set (path := destination state_root (sha256_hex bytes)) in *.
  assert (stable (holds path bytes)) as Hh by by apply stable_holds.
  unfold store. apply ensures_known; [done..|]. intros _ _. apply ensures_guard; [done..|]. intros _.
  apply ensures_skip; [done| |done|].
  { apply all_calls_io_bind; [by split|]. intros b. unfold guard_or. done. }
  intros _ s1 _. cbv zeta. apply ensures_skip; [done|by split|done|]. intros _ s2 _.
  apply (ensures_bind _ (fun _ => holds path bytes)); [done|by apply persist_blob_holds|]. intros _ s3 _ H3.
  apply (ensures_inv _ (holds path bytes)); [done|]. apply ensures_skip; [done|by split|done|].
  intros now s4 H4. unfold some_or at 1. apply ensures_known; [done..|]. intros size [-> _]%ok_or_Ok%try_from_Some.
  unfold some_or at 1. apply ensures_known; [done..|]. intros size [-> _]%ok_or_Ok%try_from_Some.
  apply (ensures_bind _ (fun _ w => recorded execution_id name (sha256_hex bytes) media_type (tables w))); [done| |].
  { apply transaction_records; [done|apply holds_sized|done]. }
  intros _ s5 H5 Hr. apply (ensures_inv _ (stored execution_id name media_type bytes)); [by intros w [_ ?]|].
  assert (stable (stored execution_id name media_type bytes)) as Hst
    by (apply stable_and; [apply stable_recorded|done]).
  apply (ensures_bind _ (fun l w => forall a, a ∈ l -> Artifact.name a = name ->
           described_as execution_id (sha256_hex bytes) media_type a (tables w))); [done| |].
  { by apply list_artifacts_recorded; [|intros w [? _]|]. }
  intros l s6 H6 Hl. unfold some_or. apply ensures_result; [done..|]. intros a Ha.
  apply ok_or_Ok in Ha. destruct (list_find _ l) as [[i a']|] eqn:E; [|done]. injection Ha as <-.
  apply list_find_Some in E as (E & Hname & _). split; [|split; [done|]].
  - apply stable_and; [done|]. apply stable_and; [apply stable_const|apply stable_described].
  - split; [done|]. apply Hl; [by eapply list_elem_of_lookup_2|done].
Qed.
End Controller.
End Rules.

(** ** The store as a whole *)
Section Whole.
Context (state_root : string).

(** A name that is not temporary names a complete file with that digest, every
    row names a blob that is there, and the row of a blob its path and size. *)
Record store_ok (w : ArtifactWorld) : Prop := {
  ok_named p i : names w !! p = Some i -> is_Some (nodes w !! i);
  ok_blobs p i n : names w !! p = Some i -> nodes w !! i = Some n -> Node.kind n = RegularFile ->
    pending p = false -> complete p n;
  ok_rows k r : artifacts (tables w) !! k = Some r -> present state_root (ArtifactRow.sha256 r) w;
  ok_blob_rows d b : artifact_blobs (tables w) !! d = Some b -> row_describes state_root d b w
}.

Lemma sized_step who digest size w w' :
  step state_root who w w' -> sized state_root digest size w -> sized state_root digest size w'.
Proof.
  intros Hs (i & n & Hn & Hi & Hk & Hd & Hl). destruct (step_nodes _ _ _ _ Hs i n Hi) as (n' & Hi' & Hk' & _ & Hc).
  exists i, n'. split; [by eapply lookup_weaken, step_names|]. split; [done|]. split; [congruence|].
  destruct Hc as [[-> _]|[_ Hp]]; [done|]. specialize (Hp _ Hn).
  rewrite destination_not_pending in Hp; [done|]. rewrite <- Hd. apply sha256_is_digest.
Qed.

Lemma store_ok_step who w w' : step state_root who w w' -> store_ok w -> store_ok w'.
Proof.
  intros Hs [H1 H2 H3 H4]. split.
  - intros p i Hp'. destruct (names w !! p) as [j|] eqn:E.
    + assert (names w' !! p = Some j) as Hj by by eapply lookup_weaken, step_names.
      assert (j = i) as -> by congruence. destruct (H1 p i E) as [n Hn].
      destruct (step_nodes _ _ _ _ Hs i n Hn) as (n' & ? & _). by eexists.
    + destruct (step_links _ _ _ _ Hs p i E Hp') as (n & ? & _). by eexists.
  - intros p i n' Hp' Hi' Hk' Hpend. destruct (names w !! p) as [j|] eqn:E.
    + assert (names w' !! p = Some j) as Hj by by eapply lookup_weaken, step_names.
      assert (j = i) as -> by congruence. destruct (H1 p i E) as [n Hn].
      destruct (step_nodes _ _ _ _ Hs i n Hn) as (n2 & Hn2 & Hk2 & _ & Hc). assert (n2 = n') as -> by congruence.
      destruct (H2 p i n E Hn ltac:(congruence) Hpend) as (Hf & Hro & Hd).
      destruct Hc as [(Hc & Hfl & Hr)|[_ Ho]]; [split_and!; [auto..|congruence]|]. specialize (Ho p E). congruence.
    + destruct (step_links _ _ _ _ Hs p i E Hp') as (n & Hn & Hc). assert (n = n') as -> by congruence.
      destruct Hc as [Hd|(_ & _ & [Hd|Hd])]; [congruence|congruence|done].
  - intros k r Hk. destruct (artifacts (tables w) !! k) as [r0|] eqn:E; [|by eapply step_rows].
    assert (artifacts (tables w') !! k = Some r0) as Hk'
      by (eapply lookup_weaken; [exact E|]; apply (step_tables _ _ _ _ Hs)).
    assert (r0 = r) as -> by congruence. destruct (H3 k r E) as [size Hsz]. exists size. by eapply sized_step.
  - intros d b Hd. destruct (artifact_blobs (tables w) !! d) as [b0|] eqn:E; [|by eapply step_blob_rows].
    assert (artifact_blobs (tables w') !! d = Some b0) as Hd'
      by (eapply lookup_weaken; [exact E|]; apply (step_tables _ _ _ _ Hs)).
    assert (b0 = b) as -> by congruence. destruct (H4 d b E) as [Hp Hsz]. split; [done|]. by eapply sized_step.
Qed.

Lemma store_keeps `{Collation} me execution_id name media_type bytes s tr r s' :
  exec (artifact_sem me) (others state_root me) (store state_root execution_id name media_type bytes) s tr r s' ->
  Forall (fun x => step state_root me x.1 x.2) tr -> store_ok s -> store_ok s'.
Proof.
  intros Hrun Ht Hok. eapply exec_keeps; [exact Hrun| | |exact Hok].
  - intros s1 s2 (o & _ & Ho). by eapply store_ok_step.
  - eapply Forall_impl; [exact Ht|]. intros [s1 s2]. apply store_ok_step.
Qed.

(** A row that describes the blob gives the length of the bytes. *)
Lemma size_of_blob bytes b w :
  row_describes state_root (sha256_hex bytes) b w -> holds (destination state_root (sha256_hex bytes)) bytes w ->
  BlobRow.size_bytes b = Z.of_nat (String.length bytes).
Proof.
  intros [_ (i & n & Hn & Hi & _ & _ & ->)] (i' & Hn' & n' & Hi' & _ & Hl & _).
  assert (i' = i) as -> by congruence. assert (n' = n) as -> by congruence. by rewrite Hl.
Qed.
End Whole.

(** ** One run, computed *)
Definition artifact_serve (me : Z) (B : Type) (c : artifact_call B) (w : ArtifactWorld) : B * ArtifactWorld :=
  let metadata (i : Z * Z) (n : Node) : Metadata :=
    {| Metadata.dev := i.1; Metadata.ino := i.2; Metadata.uid := 0;
       Metadata.mode := match Node.kind n with
                        | RegularFile => 32768 | DirectoryType => 16384 | SymlinkType => 40960 | OtherType => 0
                        end |} in
  match c in Art.artifact_call B return B * ArtifactWorld with
  | Art.CreateDirAll path => (match names w !! path with Some _ => Ok tt | None => Err NOENT end, w)
  | Art.SymlinkMetadata path =>
      (match names w !! path with
       | Some i => match nodes w !! i with Some n => Ok (metadata i n) | None => Err EXIST end
       | None => Err NOENT
       end, w)
  | Art.CreateNew path =>
      let f := (1, Z.of_nat (size (nodes w))) in
      if bool_decide (names w !! path = None) && bool_decide (nodes w !! f = None) &&
         bool_decide (map_Forall (fun _ i => i <> f) (names w))
      then (Ok f, set_names (<[path := f]> (names w))
                    (set_nodes (<[f := {| Node.kind := RegularFile; Node.content := ""; Node.mode := 420;
                                          Node.flushed := false; Node.creator := me |}]> (nodes w)) w))
      else (Err EXIST, w)
  | Art.OpenRead path =>
      (match names w !! path with
       | Some i => if bool_decide (is_Some (nodes w !! i)) then Ok i else Err NOENT
       | None => Err NOENT
       end, w)
  | Art.WriteAll f bytes =>
      match nodes w !! f with
      | Some n => (Ok tt, set_nodes (<[f := Node.with_content (Node.content n +:+ bytes) n]> (nodes w)) w)
      | None => (Err NOENT, w)
      end
  | Art.ReadToEnd f => (match nodes w !! f with Some n => Ok (Node.content n) | None => Err NOENT end, w)
  | Art.SyncAll f =>
      match nodes w !! f with
      | Some n => (Ok tt, set_nodes (<[f := Node.flush n]> (nodes w)) w)
      | None => (Err NOENT, w)
      end
  | Art.FileMetadata f => (match nodes w !! f with Some n => Ok (metadata f n) | None => Err NOENT end, w)
  | Art.SetPermissions f mode =>
      match nodes w !! f with
      | Some n => (Ok tt, set_nodes (<[f := Node.with_mode mode n]> (nodes w)) w)
      | None => (Err NOENT, w)
      end
  | Art.HardLink from to =>
      match names w !! from, names w !! to with
      | Some i, None => (Ok tt, set_names (<[to := i]> (names w)) w)
      | Some _, Some _ => (Err EXIST, w)
      | None, _ => (Err NOENT, w)
      end
  | Art.NewUuid => ("0123456789abcdef0123456789abcdef"%string, w)
  | Art.UtcNow => (7, w)
  | Art.SpawnBlocking => (Ok tt, w)
  | Art.Query f => (Ok (f (tables w)), w)
  | Art.Transaction body =>
      match body (tables w) with
      | Ok (a, t) => (Ok a, set_tables t w)
      | Err e => (Err e, w)
      end
  end.

Lemma artifact_serve_sem me (B : Type) (c : artifact_call B) w :
  artifact_sem me B c w (artifact_serve me B c w).1 (artifact_serve me B c w).2.
Proof.
  assert (forall i n, described {| Metadata.dev := i.1; Metadata.ino := i.2; Metadata.uid := 0;
       Metadata.mode := match Node.kind n with
                        | RegularFile => 32768 | DirectoryType => 16384 | SymlinkType => 40960 | OtherType => 0
                        end |} i n) as Hm by (intros [d i] n; split; [done|]; by destruct (Node.kind n)).
  destruct c as [p|p|p|p|f bytes|f|f|f|f m|from to| | | |A q|A body]; cbn [artifact_serve artifact_sem]; try done.
  - simpl. do 3 (split; [done|]). split; [|intros q i H1 H2; congruence]. by destruct (names w !! p).
  - destruct (names w !! p) as [i|] eqn:E; simpl; [|done]. destruct (nodes w !! i) as [n|] eqn:En; simpl; [|done].
    split; [done|]. by exists i, n.
  - cbv zeta. destruct (_ && _ && _) eqn:E; simpl; [|done]. rewrite !andb_true_iff, !bool_decide_eq_true in E. destruct E as [[H1 H2] H3].
    do 2 (split; [done|]). split; [|by exists 420]. intros q Hq. by apply (H3 q _ Hq).
  - destruct (names w !! p) as [i|] eqn:E; simpl; [|done]. case_bool_decide as Hs; simpl; [|done].
    split; [done|]. destruct Hs as [n Hn]. by exists i, n.
  - destruct (nodes w !! f) as [n|] eqn:E; simpl; [|by left]. right. by exists n, bytes.
  - destruct (nodes w !! f) as [n|] eqn:E; simpl; [|done]. split; [done|]. by exists n.
  - destruct (nodes w !! f) as [n|] eqn:E; simpl; [|done]. by exists n.
  - destruct (nodes w !! f) as [n|] eqn:E; simpl; [|done]. split; [done|]. by exists n.
  - destruct (nodes w !! f) as [n|] eqn:E; simpl; [|done]. by exists n.
  - destruct (names w !! from) as [i|] eqn:E; [|by left]. destruct (names w !! to) eqn:Et; [by left|].
    right. by exists i.
  - destruct (body (tables w)) as [[a t]|e] eqn:E; simpl; [by exists t|by left].
Qed.

(** Two directories and an execution. *)
Definition ex_artifact_world : ArtifactWorld :=
  let dir := {| Node.kind := DirectoryType; Node.content := ""; Node.mode := 493; Node.flushed := true; Node.creator := 0 |} in {|
  names := list_to_map [("/s", (1, 100)); ("/s/artifacts", (1, 101)); ("/s/artifacts/ba", (1, 102))]%string;
  nodes := list_to_map [((1, 100), dir); ((1, 101), dir); ((1, 102), dir)];
  tables := {| execution_ids := {["ex"%string]}; artifact_blobs := ∅; artifacts := ∅ |} |}.

Definition ex_store := store "/s" "ex" "log.txt" "text/plain" "abc".

Definition ex_artifact : Artifact := {|
  Artifact.execution_id := "ex"; Artifact.name := "log.txt";
  Artifact.sha256 := "ba7816bf8f01cfea414140de5dae2223b00361a396177a9cb410ff61f20015ad";
  Artifact.size_bytes := 3; Artifact.media_type := "text/plain"; Artifact.created_at := 7 |}.

Lemma ex_store_runs : (run (artifact_serve 1) ex_store ex_artifact_world).1 = Ok ex_artifact.
Proof. vm_compute. reflexivity. Qed.

(** ** Properties *)

(** C30: When [store] returns an artifact, the artifact has the execution, name
    and media type it was given and the SHA-256 of the bytes; the row says so
    too, and the blob path is a regular file of the length and digest of the
    bytes - whatever was there before and whatever other controllers do
    meanwhile.  Its size is what the row of the blob says, and that is the length
    of the bytes when the store was in order.  Every step on the way, also of a run that is cut short, keeps
    every name, changes a file only while it is a temporary one of this
    controller, gives a blob path to complete, read-only files only, and adds a
    row only when its blob is in place, with the path and size the row says. *)
Theorem artifact_store_sound `{Collation} (state_root : string) (me : Z)
    (execution_id : ExecutionId) (name media_type bytes : string) s tr r s'
    (Hrun : exec (artifact_sem me) (others state_root me)
              (store state_root execution_id name media_type bytes) s tr r s') :
  Forall (fun x => step state_root me x.1 x.2) tr /\
  forall a, r = Some (Ok a) ->
    Artifact.execution_id a = execution_id /\ Artifact.name a = name /\
    Artifact.media_type a = media_type /\ Artifact.sha256 a = sha256_hex bytes /\
    stored state_root execution_id name media_type bytes s' /\
    (exists blob, artifact_blobs (tables s') !! sha256_hex bytes = Some blob /\
       Artifact.size_bytes a = BlobRow.size_bytes blob) /\
    (store_ok state_root s -> Artifact.size_bytes a = Z.of_nat (String.length bytes)).
Proof.
  pose proof (store_ensures state_root me execution_id name media_type bytes s) as Hs.
  destruct (chl_exec _ _ _ _ _ _ _ _ _ Hrun Hs) as [Ht HQ]. split; [done|]. intros a Ha.
  destruct (HQ _ Ha) as [_ Hr]. destruct (Hr a eq_refl) as (H1 & H2 & H3 & H4 & H5 & blob & Hb & Hsz).
  do 5 (split; [done|]). split; [by exists blob|]. intros Hok. rewrite Hsz. eapply size_of_blob; [|apply H1].
  eapply ok_blob_rows; [|exact Hb]. by eapply store_keeps.
Qed.

Lemma artifact_store_sound_witness :
  exists tr s', exec (artifact_sem 1) (others "/s" 1) ex_store ex_artifact_world tr (Some (Ok ex_artifact)) s' /\
    stored "/s" "ex" "log.txt" "text/plain" "abc" s'.
Proof.
  destruct (run_exec (artifact_serve 1) (artifact_sem 1) (others "/s" 1) ex_store ex_artifact_world
              (artifact_serve_sem 1)) as [tr Htr].
  rewrite ex_store_runs in Htr. exists tr, (run (artifact_serve 1) ex_store ex_artifact_world).2. split; [exact Htr|].
  destruct (artifact_store_sound "/s" 1 "ex" "log.txt" "text/plain" "abc" _ _ _ _ Htr) as [_ Hr].
  by apply (Hr ex_artifact).
Defined.

(** C31: The store is content-addressed: when every name that is not temporary
    names a complete file with that digest and every row a blob that is there,
    that stays so wherever a run of [store] stops, and whatever the other
    controllers have stored by then. *)
Theorem artifacts_content_addressed `{Collation} (state_root : string) (me : Z)
    (execution_id : ExecutionId) (name media_type bytes : string) s tr r s'
    (Hrun : exec (artifact_sem me) (others state_root me)
              (store state_root execution_id name media_type bytes) s tr r s')
    (Hok : store_ok state_root s) :
  store_ok state_root s'.
Proof.
  pose proof (store_ensures state_root me execution_id name media_type bytes s) as Hs.
  destruct (chl_exec _ _ _ _ _ _ _ _ _ Hrun Hs) as [Ht _].
  by eapply store_keeps.
Qed.

Lemma ex_artifact_world_ok : store_ok "/s" ex_artifact_world.
Proof.
  assert (map_Forall (fun _ i => exists n, nodes ex_artifact_world !! i = Some n /\ Node.kind n = DirectoryType)
            (names ex_artifact_world)) as Hd.
  { unfold ex_artifact_world. simpl. repeat (apply map_Forall_insert_2; [by eexists|]). apply map_Forall_empty. }
  split.
  - intros p i Hp. destruct (Hd p i Hp) as (n & ? & _). by eexists.
  - intros p i n Hp Hn Hk. destruct (Hd p i Hp) as (n' & ? & ?). congruence.
  - intros k r Hk. simpl in Hk. by rewrite lookup_empty in Hk.
  - intros d b Hb. simpl in Hb. by rewrite lookup_empty in Hb.
Qed.

Lemma artifacts_content_addressed_witness :
  store_ok "/s" (run (artifact_serve 1) ex_store ex_artifact_world).2.
Proof.
  destruct (run_exec (artifact_serve 1) (artifact_sem 1) (others "/s" 1) ex_store ex_artifact_world
              (artifact_serve_sem 1)) as [tr Htr].
  exact (artifacts_content_addressed "/s" 1 "ex" "log.txt" "text/plain" "abc" _ _ _ _ Htr ex_artifact_world_ok).
Defined.
