(* ===== verification/ApiAuth.v ===== *)
(** * Who may call the controller

    Models [crates/orchestrator-api/src/auth.rs], [error.rs], [state.rs] and
    the configuration of [lib.rs]: bearer tokens, the digest file of per-worker
    tokens, the error a handler answers with, and the choice of the worker
    credential at startup.

    SHA-256 and the HTTP library are parameters: [sha256], the headers of a
    request as the function [headers.get], whose answer is the text of the
    header when it has one, and the rejection of a body that does not decode. *)

From Stdlib Require Import Ascii.
From S2P Require Import Prelude Core WorkerTypes Database Effects FileSystem.















(** ** [error.rs] *)
Module ApiError.
Record ApiError := { status : Z; code : string; message : string }.

Definition validation (message : string) : ApiError :=
  {| status := 400; code := "VALIDATION"; message := message |}.
Definition unauthorized (message : string) : ApiError :=
  {| status := 401; code := "UNAUTHORIZED"; message := message |}.
Definition conflict (message : string) : ApiError :=
  {| status := 409; code := "CONFLICT"; message := message |}.

(** [store] and [store_for], which differ in what they log. *)
Definition store (error : StoreError) : ApiError :=
  match error with
  | StoreError.NotFound message => {| status := 404; code := "NOT_FOUND"; message := message |}
  | StoreError.IllegalTransition from to =>
      {| status := 409; code := "ILLEGAL_TRANSITION";
         message := "illegal state transition: " +:+ ExecutionState.debug from +:+ " -> " +:+
                    ExecutionState.debug to |}
  | StoreError.IdempotencyConflict message =>
      {| status := 409; code := "IDEMPOTENCY_CONFLICT"; message := message |}
  | StoreError.DuplicateExecutionId message =>
      {| status := 409; code := "DUPLICATE_EXECUTION_ID"; message := message |}
  | StoreError.InvalidArtifactName message => validation message
  | StoreError.Conflict message => conflict message
  | StoreError.Db _ | StoreError.SequenceConflict | StoreError.CapacityExhausted _ =>
      {| status := 500; code := "INTERNAL"; message := "internal server error" |}
  end.
End ApiError.
Abbreviation ApiError := ApiError.ApiError.

(** ** Requests *)

(** [headers.get(name)]: absent, or present with its [to_str]. *)
Definition HeaderMap : Type := string -> option (option string).

(** A body that did not decode. *)
Module JsonRejection.
Record JsonRejection := { status : Z; body_text : string }.
End JsonRejection.
Abbreviation JsonRejection := JsonRejection.JsonRejection.

(** ** [auth.rs] *)

(** The byte at an index, 0 past the end. *)
Definition byte_at (l : list Z) (i : nat) : Z := default 0 (l !! i).

(** Runs over the longer of the two, whatever it finds. *)
Definition constant_time_eq (left right : list Z) : bool :=
  let max := Nat.max (length left) (length right) in
  let difference := foldl (fun difference index =>
      Z.lor difference (Z.lxor (byte_at left index) (byte_at right index)))
    (Z.lxor (Z.of_nat (length left)) (Z.of_nat (length right))) (seq 0 max) in
  difference =? 0.

Definition as_bytes (s : string) : list Z := List.map Z.of_N (bytes_of s).

(** [StaticApiTokenValidator::validate]. *)
Definition static_validate (expected token : string) : bool :=
  constant_time_eq (as_bytes token) (as_bytes expected).

Module WorkerIdentity.
Inductive WorkerIdentity := Any | Worker (id : WorkerId).
#[global] Instance eq_dec : EqDecision WorkerIdentity.
Proof. solve_decision. Defined.
End WorkerIdentity.
Abbreviation WorkerIdentity := WorkerIdentity.WorkerIdentity.

(** [SharedWorkerToken::identify]. *)
Definition shared_identify (expected presented : string) : option WorkerIdentity :=
  if static_validate expected presented then Some WorkerIdentity.Any else None.

(** [char::to_digit(16)]. *)
Definition hex_digit (c : ascii) : option Z :=
  if is_ascii_digit c then Some (Z.of_N (byte_code c) - 48)
  else if (97 <=? byte_code c)%N && (byte_code c <=? 102)%N then Some (Z.of_N (byte_code c) - 87)
  else if (65 <=? byte_code c)%N && (byte_code c <=? 70)%N then Some (Z.of_N (byte_code c) - 55)
  else None.

Fixpoint decode_pairs (hex : string) : option (list Z) :=
  match hex with
  | String h (String l rest) =>
      high ← hex_digit h; low ← hex_digit l;
      byte ← try_from 0 u8_max (high * 16 + low);
      bytes ← decode_pairs rest;
      Some (byte :: bytes)
  | _ => Some []
  end.

Definition decode_digest (hex : string) : option (list Z) :=
  if negb (Nat.eqb (Strings.String.length hex) 64) then None else decode_pairs hex.

Module PerWorkerTokens.
Record PerWorkerTokens := { entries : list (WorkerId * list Z) }.

Definition at_line (number : nat) (what : string) : string :=
  "worker token file line " +:+ show_Z (Z.of_nat number) +:+ ": " +:+ what.

Fixpoint parse_lines (number : nat) (rest : list string) (workers : gset string)
    (digests : gset (list Z)) : result string (list (WorkerId * list Z)) :=
  match rest with
  | [] => Ok []
  | raw :: rest =>
      let line := trim (default EmptyString (head (split "#"%char raw))) in
      if str_is_empty line then parse_lines (S number) rest workers digests
      else match split_whitespace line with
           | [worker; digest] =>
               digest ← ok_or (decode_digest digest)
                 (at_line number "digest is not 64 hexadecimal characters");
               _ ← check (negb (bool_decide (worker ∈ workers)))
                 (at_line number "worker id appears more than once");
               _ ← check (negb (bool_decide (digest ∈ digests)))
                 (at_line number "digest is shared by more than one worker");
               entries ← parse_lines (S number) rest ({[ worker ]} ∪ workers) ({[ digest ]} ∪ digests);
               Ok ((worker, digest) :: entries)
           | _ => Err (at_line number "expected `<worker_id> <sha256-hex>`")
           end
  end.

Definition parse (text : string) : result string PerWorkerTokens :=
  entries ← parse_lines 1 (lines text) ∅ ∅;
  _ ← check (negb (bool_decide (entries = []))) "worker token file lists no workers";
  Ok {| entries := entries |}.

(** Every entry is compared; the last that matches is kept. *)
Definition identify (sha256 : string -> list Z) (self : PerWorkerTokens) (presented : string) :
    option WorkerIdentity :=
  let digest := sha256 presented in
  foldl (fun found entry =>
    if constant_time_eq digest entry.2 then Some (WorkerIdentity.Worker entry.1) else found)
    None (entries self).
End PerWorkerTokens.
Abbreviation PerWorkerTokens := PerWorkerTokens.PerWorkerTokens.

(** ** [state.rs]: the validators a controller runs with *)
Module AppState.
Record AppState := {
  api_token_validator : string -> bool;
  worker_token_validator : string -> option WorkerIdentity;
  cleanup_authorities : bool            (* whether the store is configured *)
}.

Definition new (api_token worker_token : string) : AppState := {|
  api_token_validator := static_validate api_token;
  worker_token_validator := shared_identify worker_token;
  cleanup_authorities := false |}.

Definition with_worker_tokens (sha256 : string -> list Z) (tokens : PerWorkerTokens)
    (self : AppState) : AppState := {|
  api_token_validator := api_token_validator self;
  worker_token_validator := PerWorkerTokens.identify sha256 tokens;
  cleanup_authorities := cleanup_authorities self |}.

Definition with_cleanup_authorities (self : AppState) : AppState := {|
  api_token_validator := api_token_validator self;
  worker_token_validator := worker_token_validator self;
  cleanup_authorities := true |}.
End AppState.
Abbreviation AppState := AppState.AppState.

(** [headers.get(AUTHORIZATION)], its text, the text after ["Bearer "], if any. *)
Definition bearer_token (headers : HeaderMap) : option string :=
  value ← headers "authorization"%string;
  value ← value;
  token ← strip_prefix "Bearer " value;
  if str_is_empty token then None else Some token.

Definition authorize_bearer (headers : HeaderMap) (validator : string -> bool) : bool :=
  match bearer_token headers with Some supplied => validator supplied | None => false end.

Definition authorize (headers : HeaderMap) (validator : string -> bool) (message : string) :
    result ApiError unit :=
  check (authorize_bearer headers validator) (ApiError.unauthorized message).

Definition authorize_api (state : AppState) (headers : HeaderMap) : result ApiError unit :=
  authorize headers (AppState.api_token_validator state) "missing or invalid API bearer token".

Definition authorize_worker (state : AppState) (headers : HeaderMap) : result ApiError WorkerIdentity :=
  ok_or (token ← bearer_token headers; AppState.worker_token_validator state token)
    (ApiError.unauthorized "missing or invalid worker bearer token").

Module Caller.
Inductive Caller := Api | Worker (identity : WorkerIdentity).
End Caller.
Abbreviation Caller := Caller.Caller.

Definition authorize_api_or_worker (state : AppState) (headers : HeaderMap) : result ApiError Caller :=
  let api := authorize_bearer headers (AppState.api_token_validator state) in
  let worker := token ← bearer_token headers; AppState.worker_token_validator state token in
  match api, worker with
  | true, _ => Ok Caller.Api
  | false, Some identity => Ok (Caller.Worker identity)
  | false, None => Err (ApiError.unauthorized "missing or invalid API or worker bearer token")
  end.

(** * How a controller is set up

    Models the configuration of [crates/orchestrator-api/src/lib.rs]: the check
    of [ServerConfig], the worker credential it selects, and the state [serve]
    builds from it before it opens a socket.  The operating system's answers
    about the tokens file are those of the calls [config_call]. *)

Module ServerConfig.
Record ServerConfig := {
  api_token : string;
  worker_token : option string;
  worker_tokens_file : option string;
  allow_shared_worker_token : bool
}.
End ServerConfig.
Abbreviation ServerConfig := ServerConfig.ServerConfig.

Module WorkerAuth.
Inductive WorkerAuth := PerWorker (tokens : PerWorkerTokens) | Shared (token : string).
End WorkerAuth.
Abbreviation WorkerAuth := WorkerAuth.WorkerAuth.

(** [File::open], [File::metadata] and [take(n).read_to_string]. *)
Inductive config_call : Type -> Type :=
| OpenTokens (path : string) : config_call (result string Descriptor)
| TokensMetadata (file : Descriptor) : config_call (result string Metadata)
| ReadTokens (file : Descriptor) (limit : Z) : config_call (result string string).

Abbreviation cfgio := (io config_call string).

Definition check_tokens_file_handle (file : Descriptor) (path : string) : cfgio unit :=
  metadata ← ask_or (TokensMetadata file) (fun error =>
    "stat worker tokens file " +:+ path +:+ ": " +:+ error);
  _ ← guard_or (Metadata.is_file metadata)
        ("worker tokens file " +:+ path +:+ " is not a regular file");
  let mode := Z.land (Metadata.mode metadata) 511 in
  guard_or (Z.land mode 63 =? 0)
    ("worker tokens file " +:+ path +:+ " is accessible to group or other (mode " +:+
     zero_pad 4 (octal mode) +:+ "); run `chmod 600` on it").

Definition open_tokens (path : string) : cfgio Descriptor :=
  ask_or (OpenTokens path) (fun error => "open worker tokens file " +:+ path +:+ ": " +:+ error).

Definition check_tokens_file (path : string) : cfgio unit :=
  file ← open_tokens path;
  check_tokens_file_handle file path.

Definition load_worker_tokens (path : string) : cfgio PerWorkerTokens :=
  file ← open_tokens path;
  _ ← check_tokens_file_handle file path;
  text ← ask_or (ReadTokens file (1024 * 1024)) (fun error =>
    "read worker tokens file " +:+ path +:+ ": " +:+ error);
  ret_result (map_err (fun error => error +:+ " (" +:+ path +:+ ")") (PerWorkerTokens.parse text)).

(** A shared token that is set and not empty. *)
Definition shared_token (config : ServerConfig) : option string :=
  token ← ServerConfig.worker_token config;
  if str_is_empty token then None else Some token.

Definition validate (config : ServerConfig) : cfgio unit :=
  _ ← guard_or (negb (str_is_empty (ServerConfig.api_token config)))
        "API bearer token must not be empty";
  let shared := shared_token config in
  _ ← guard_or (negb (bool_decide (is_Some (ServerConfig.worker_token config)) &&
                      bool_decide (shared = None)))
        "worker bearer token must not be empty";
  match ServerConfig.worker_tokens_file config, ServerConfig.allow_shared_worker_token config with
  | Some _, true => throw ("--worker-tokens-file and --allow-shared-worker-token are mutually " +:+
      "exclusive; choose per-worker tokens or the shared token, not both")
  | Some path, false =>
      if bool_decide (is_Some shared)
      then throw ("--worker-tokens-file and --worker-token are mutually exclusive; " +:+
                  "remove the shared worker token")
      else check_tokens_file path
  | None, true =>
      if bool_decide (shared = None)
      then throw ("--allow-shared-worker-token needs the shared token in --worker-token " +:+
                  "(AUTOSPEC_WORKER_TOKEN)")
      else mret tt
  | None, false => throw ("no worker credential source: set --worker-tokens-file " +:+
      "(AUTOSPEC_WORKER_TOKENS_FILE) for per-worker tokens, or pass --allow-shared-worker-token " +:+
      "with --worker-token to keep one shared token for every worker")
  end.

Definition worker_auth (config : ServerConfig) : cfgio WorkerAuth :=
  _ ← validate config;
  match ServerConfig.worker_tokens_file config, ServerConfig.worker_token config with
  | Some path, _ => tokens ← load_worker_tokens path; mret (WorkerAuth.PerWorker tokens)
  | None, Some token => mret (WorkerAuth.Shared token)
  | None, None => throw "no worker credential source"
  end.

(** The state [serve] builds: the per-worker tokens replace the shared
    validator, which was made from the empty token. *)
Definition serve_state (sha256 : string -> list Z) (config : ServerConfig) (auth : WorkerAuth) :
    AppState :=
  let '(initial_worker_token, per_worker) :=
    match auth with
    | WorkerAuth.Shared token => (token, None)
    | WorkerAuth.PerWorker tokens => (EmptyString, Some tokens)
    end in
  let state := AppState.with_cleanup_authorities
    (AppState.new (ServerConfig.api_token config) initial_worker_token) in
  match per_worker with
  | Some tokens => AppState.with_worker_tokens sha256 tokens state
  | None => state
  end.
