(* ===== verification/ApiIds.v ===== *)
(** * The id of a new execution

    Models [allocate_id] and [slug] of [crates/orchestrator-api/src/executions.rs]. *)

From Stdlib Require Import Ascii.
From S2P Require Import Prelude Core WorkerTypes Database Lifecycle Effects StorageModel FileSystem Pinned MetadataStore RecordAtomicity ApiAuth.















(** [char::to_lowercase] on the UTF-8 bytes of a text, up to what the code
    tells apart: a letter outside ASCII stays outside ASCII, but for the two
    whose lower case starts with an ASCII letter, U+0130 and U+212A. *)
Fixpoint special_lowercase (bs : list N) : list N :=
  match bs with
  | 196%N :: 176%N :: r => 105%N :: 204%N :: 135%N :: special_lowercase r
  | 226%N :: 132%N :: 170%N :: r => 107%N :: special_lowercase r
  | b :: r => b :: special_lowercase r
  | [] => []
  end.

Definition lowercase_byte (b : N) : N := if (65 <=? b)%N && (b <=? 90)%N then (b + 32)%N else b.

Definition lowercase_bytes (bs : list N) : list N := List.map lowercase_byte (special_lowercase bs).

Definition is_alphanumeric_byte (b : N) : bool :=
  (48 <=? b)%N && (b <=? 57)%N || (65 <=? b)%N && (b <=? 90)%N || (97 <=? b)%N && (b <=? 122)%N.

(** The loop of [slug]: [empty] is [result.is_empty()].  The bytes of one
    character that is not alphanumeric give one hyphen, as the character does. *)
Fixpoint slug_bytes (bs : list N) (empty hyphen : bool) : string :=
  match bs with
  | [] => EmptyString
  | b :: bs =>
      if is_alphanumeric_byte b then String (ascii_of_N b) (slug_bytes bs false false)
      else if negb empty && negb hyphen then String "-" (slug_bytes bs false true)
      else slug_bytes bs empty hyphen
  end.

Definition slug (value : string) : string :=
  trim_end_char "-" (slug_bytes (lowercase_bytes (bytes_of value)) true false).

(** [rsplit('/').next()]. *)
Definition last_segment (repo : string) : string :=
  match rsplit_once "/" repo with Some (_, name) => name | None => repo end.

Definition role_tag (role : Role) : string :=
  match role with
  | Role.Implementation => "impl" | Role.Review => "review" | Role.Documentation => "doc"
  | Role.UiReview => "ui" | Role.IntegrationTest => "itest" | Role.Interactive => "inter"
  end.

Definition non_empty (s : string) : option string := if str_is_empty s then None else Some s.

Definition allocate_id (manifest : ExecutionManifest) (ordinal : Z) : result ApiError ExecutionId :=
  repository ← ok_or (non_empty (slug (last_segment
                       (RepositoryReference.repo (ExecutionManifest.repository manifest)))))
    (ApiError.validation "repository cannot produce an execution id");
  let issue := default "adhoc"%string
    (task ← ExecutionManifest.task manifest; non_empty (slug (TaskReference.issue_id task))) in
  let suffix := "-" +:+ issue +:+ "-" +:+ role_tag (ExecutionManifest.role manifest) +:+ "-" +:+
                zero_pad 2 (decimal ordinal) in
  let available := (63 - Strings.String.length suffix)%nat in
  let repository := trim_end_char "-" (Strings.String.substring 0 available repository) in
  _ ← check (negb (str_is_empty repository)) (ApiError.validation "execution id prefix is too long");
  Ok (repository +:+ suffix).

Example slug_ex : slug "--My  Repo_2!" = "my-repo-2"%string /\ slug "__" = ""%string.
Proof. vm_compute. done. Qed.

(** ** Segments of lower case letters and digits, joined by single hyphens *)
Definition segment_char (c : ascii) : bool := is_ascii_lowercase c || is_ascii_digit c.

Fixpoint hyphenated (s : string) : bool :=
  match s with
  | EmptyString => false
  | String c r =>
      segment_char c &&
      match r with
      | EmptyString => true
      | String d r' => if bool_decide (d = "-"%char) then hyphenated r' else hyphenated r
      end
  end.

(** What may follow a character of a segment. *)
Definition continues (s : string) : Prop :=
  s = EmptyString \/ hyphenated s = true \/ exists t, s = String "-" t /\ hyphenated t = true.

Lemma hyphen_not_segment : segment_char "-" = false.
Proof. done. Qed.

Lemma hyphenated_cons c r : hyphenated (String c r) = true <-> segment_char c = true /\ continues r.
Proof.
  destruct r as [|d r].
  - simpl. rewrite andb_true_r. unfold continues. naive_solver.
  - change (hyphenated (String c (String d r))) with
      (segment_char c && (if bool_decide (d = "-"%char) then hyphenated r else hyphenated (String d r))).
    rewrite andb_true_iff. apply and_iff_compat_l. unfold continues. case_bool_decide as Hd.
    + subst d. split; [eauto|]. intros [?|[Hr|(t & [= ->] & Ht)]]; [done| |done].
      simpl in Hr. done.
    + naive_solver.
Qed.

Lemma hyphenated_first s : hyphenated s = true -> exists c r, s = String c r /\ segment_char c = true.
Proof. destruct s as [|c r]; [done|]. intros H%hyphenated_cons. naive_solver. Qed.

(** Induction along the characters of such a text. *)
Lemma hyphenated_ind (P : string -> Prop) :
  (forall c, segment_char c = true -> P (String c EmptyString)) ->
  (forall c s, segment_char c = true -> hyphenated s = true -> P s -> P (String c s)) ->
  (forall c s, segment_char c = true -> hyphenated s = true -> P s -> P (String c (String "-" s))) ->
  forall s, hyphenated s = true -> P s.
Proof.
  intros H1 H2 H3. enough (forall n s, (Strings.String.length s <= n)%nat -> hyphenated s = true -> P s) by eauto.
  induction n as [|n IH]; intros [|c r] Hn Hs; simpl in Hn; try done; [lia|].
  apply hyphenated_cons in Hs as [Hc [->|[Hr|(t & -> & Ht)]]]; [by apply H1| |].
  - apply H2; [done..|]. apply IH; [lia|done].
  - apply H3; [done..|]. simpl in Hn. apply IH; [lia|done].
Qed.

Lemma hyphenated_join a b :
  hyphenated a = true -> hyphenated b = true -> hyphenated (a +:+ String "-" b) = true.
Proof.
  intros Ha Hb. revert a Ha. apply hyphenated_ind.
  - intros c Hc. rewrite string_app_cons, string_app_nil. apply hyphenated_cons. split; [done|].
    right. right. eauto.
  - intros c s Hc Hs IH. rewrite string_app_cons. apply hyphenated_cons. split; [done|]. by right; left.
  - intros c s Hc Hs IH. rewrite !string_app_cons. apply hyphenated_cons. split; [done|]. right; right. eauto.
Qed.

(** Text made of digits alone. *)
Lemma hyphenated_solid s :
  s <> EmptyString -> string_forallb segment_char s = true -> hyphenated s = true.
Proof.
  induction s as [|c s IH]; [done|]. intros _ Hs. simpl in Hs. apply andb_true_iff in Hs as [Hc Hs].
  apply hyphenated_cons. split; [done|]. destruct s as [|d s]; [by left|]. right; left. by apply IH.
Qed.

Lemma hyphenated_chars s : hyphenated s = true ->
  string_forallb (fun c => is_ascii_lowercase c || is_ascii_digit c || bool_decide (c = "-"%char)) s = true.
Proof.
  revert s. apply hyphenated_ind; unfold segment_char; intros; simpl; rewrite ?H; simpl; auto.
Qed.

(** Two such texts before a double hyphen are told apart by it. *)
Lemma hyphenated_prefix a b t :
  hyphenated a = true -> hyphenated b = true ->
  starts_with (a +:+ "--") (b +:+ "--" +:+ t) = true -> a = b.
Proof.
  assert (step : forall c d s r, starts_with (String c s) (String d r) = true -> c = d /\ starts_with s r = true).
  { intros c d s r H. simpl in H. apply andb_true_iff in H as [H ?]. by apply bool_decide_eq_true in H. }
  intros Ha. revert a Ha b. refine (hyphenated_ind _ _ _ _).
  - intros c Hc b Hb. destruct b as [|d b]; [done|].
    rewrite !string_app_cons, string_app_nil. intros [-> H]%step. apply hyphenated_cons in Hb as [_ [->|[Hb|(r & -> & Hb)]]].
    + done.
    + apply hyphenated_first in Hb as (e & r & -> & He). rewrite string_app_cons in H.
      apply step in H as [<- _]. done.
    + apply hyphenated_first in Hb as (e & q & -> & He). rewrite !string_app_cons in H.
      apply step in H as [_ [<- _]%step]. done.
  - intros c s Hc Hs IH b Hb. destruct b as [|d b]; [done|].
    rewrite !string_app_cons. intros [-> H]%step. f_equal.
    apply hyphenated_cons in Hb as [_ [->|[Hb|(r & -> & Hb)]]].
    + apply hyphenated_first in Hs as (e & q & -> & He). rewrite string_app_cons, string_app_nil in H.
      simpl in H. apply andb_true_iff in H as [H _]. by apply bool_decide_eq_true in H as ->.
    + by apply IH.
    + apply hyphenated_first in Hs as (e & q & -> & He). rewrite !string_app_cons in H.
      apply step in H as [-> _]. done.
  - intros c s Hc Hs IH b Hb. destruct b as [|d b]; [done|].
    rewrite !string_app_cons. intros [-> H]%step. f_equal.
    apply hyphenated_cons in Hb as [_ [->|[Hb|(r & -> & Hb)]]].
    + rewrite string_app_nil in H. apply hyphenated_first in Hs as (e & q & -> & He). rewrite string_app_cons in H.
      apply step in H as [_ H]. simpl in H. apply andb_true_iff in H as [H _].
      by apply bool_decide_eq_true in H as ->.
    + apply hyphenated_first in Hb as (e & q & -> & He). rewrite string_app_cons in H.
      apply step in H as [<- _]. done.
    + rewrite string_app_cons in H. apply step in H as [_ H]. f_equal. by apply IH.
Qed.

(** ** The pieces of an id *)
Lemma trim_end_cons d c s :
  trim_end_char d (String c s) =
  if str_is_empty (trim_end_char d s) && bool_decide (c = d) then EmptyString
  else String c (trim_end_char d s).
Proof. done. Qed.

Lemma trim_continues c s :
  segment_char c = true -> continues (trim_end_char "-" s) ->
  hyphenated (trim_end_char "-" (String c s)) = true.
Proof.
  intros Hc Hs. rewrite trim_end_cons, andb_comm, bool_decide_eq_false_2.
  - by apply hyphenated_cons.
  - intros ->. by rewrite hyphen_not_segment in Hc.
Qed.

Lemma trim_hyphen s :
  trim_end_char "-" s = EmptyString \/ hyphenated (trim_end_char "-" s) = true ->
  continues (trim_end_char "-" (String "-" s)).
Proof.
  intros [Hs|Hs]; rewrite trim_end_cons; unfold continues.
  - rewrite Hs. by left.
  - destruct (hyphenated_first _ Hs) as (c & r & E & _). rewrite E in Hs |- *. simpl. eauto.
Qed.

Lemma lowercase_segment bs b :
  b ∈ lowercase_bytes bs -> is_alphanumeric_byte b = true -> segment_char (ascii_of_N b) = true.
Proof.
  unfold lowercase_bytes. intros (a & <- & _)%list_elem_of_In%in_map_iff.
  unfold lowercase_byte, is_alphanumeric_byte, segment_char, is_ascii_lowercase, is_ascii_digit.
  destruct ((65 <=? a)%N && (a <=? 90)%N) eqn:E; rewrite ?andb_true_iff, ?N.leb_le in E;
    rewrite ?orb_true_iff, ?andb_true_iff, ?N.leb_le; intros H;
    rewrite N_ascii_embedding by lia; [lia|]. apply andb_false_iff in E. rewrite !N.leb_gt in E. lia.
Qed.

Lemma slug_bytes_continues bs empty hyphen :
  (forall b, b ∈ bs -> is_alphanumeric_byte b = true -> segment_char (ascii_of_N b) = true) ->
  continues (trim_end_char "-" (slug_bytes bs empty hyphen)) /\
  (empty || hyphen = true -> trim_end_char "-" (slug_bytes bs empty hyphen) = EmptyString \/
     hyphenated (trim_end_char "-" (slug_bytes bs empty hyphen)) = true).
Proof.
  revert empty hyphen. induction bs as [|b bs IH]; intros empty hyphen Hb; [split; by left|].
  assert (forall b, b ∈ bs -> is_alphanumeric_byte b = true -> segment_char (ascii_of_N b) = true) as Hbs
    by (intros c Hc; apply Hb; by right).
  cbn [slug_bytes]. destruct (is_alphanumeric_byte b) eqn:Eb.
  - destruct (IH false false Hbs) as [Hc _].
    assert (segment_char (ascii_of_N b) = true) as Hs by (apply Hb; [by left|done]).
    pose proof (trim_continues _ _ Hs Hc). split; [right; by left|by right].
  - destruct empty, hyphen; simpl; try (by apply IH).
    split; [|done]. apply trim_hyphen. by apply (IH false true).
Qed.

Lemma slug_hyphenated value : slug value <> EmptyString -> hyphenated (slug value) = true.
Proof.
  intros Hs. destruct (slug_bytes_continues (lowercase_bytes (bytes_of value)) true false) as [_ [H|H]];
    [apply lowercase_segment|done|done|done].
Qed.

(** A prefix, less a hyphen it may end with. *)
Lemma prefix_continues n s :
  (continues s -> continues (trim_end_char "-" (Strings.String.substring 0 n s))) /\
  (hyphenated s = true ->
     trim_end_char "-" (Strings.String.substring 0 n s) = EmptyString \/
     hyphenated (trim_end_char "-" (Strings.String.substring 0 n s)) = true).
Proof.
  revert n. induction s as [|c s IH]; intros [|n]; try (split; [by left|by left]).
  change (Strings.String.substring 0 (S n) (String c s)) with (String c (Strings.String.substring 0 n s)).
  assert (hyphenated (String c s) = true ->
    hyphenated (trim_end_char "-" (String c (Strings.String.substring 0 n s))) = true) as Hh.
  { intros [Hc Hs]%hyphenated_cons. apply trim_continues; [done|]. by apply IH. }
  split; [|by auto]. intros [?|[H|(t & [= -> ->] & Ht)]]; [done|right; left; auto|].
  apply trim_hyphen. by apply IH.
Qed.

(** ** Decimal numbers *)
Lemma digit_char_value d : (d < 10)%N -> (byte_code (digit_char d) - 48 = d)%N.
Proof.
  intros Hd. unfold digit_char. rewrite (proj2 (N.ltb_lt d 10) Hd). rewrite (N_ascii_embedding (48 + d)); lia.
Qed.

Lemma radix_value fuel n acc :
  (n < 2 ^ N.of_nat fuel)%N -> (fuel <> 0)%nat -> digits_value 0 (radix_go 10 fuel n acc) = digits_value n acc.
Proof.
  revert n acc. induction fuel as [|fuel IH]; intros n acc Hn Hf; [done|]. cbn [radix_go].
  assert (n mod 10 < 10)%N as Hm by (apply N.mod_lt; lia).
  destruct (N.ltb_spec n 10) as [Hlt|Hge].
  - cbn [digits_value]. rewrite digit_char_value by done. f_equal. rewrite N.mod_small by lia. lia.
  - assert (n / 10 < 2 ^ N.of_nat fuel)%N.
    { apply N.Div0.div_lt_upper_bound. rewrite Nat2N.inj_succ, N.pow_succ_r' in Hn. lia. }
    assert (fuel <> 0)%nat. { intros ->. simpl in Hn. lia. }
    rewrite IH by done. cbn [digits_value]. rewrite digit_char_value by done. f_equal.
    pose proof (N.div_mod' n 10). lia.
Qed.

Lemma size_bound n : (n < 2 ^ N.of_nat (S (N.size_nat n)))%N.
Proof.
  rewrite Nat2N.inj_succ, N.pow_succ_r'. pose proof (N.size_gt n).
  assert (N.of_nat (N.size_nat n) = N.size n) as ->; [|lia].
  destruct n as [|p]; [done|]. cbn [N.size_nat N.size]. clear. induction p as [p IH|p IH|]; [..|done];
    cbn [Pos.size_nat Pos.size]; by rewrite Nat2N.inj_succ, IH.
Qed.

Lemma digits_value_zeros k s :
  digits_value 0 (Strings.String.string_of_list_ascii (repeat "0"%char k) +:+ s) = digits_value 0 s.
Proof. induction k as [|k IH]; [done|]. cbn [repeat Strings.String.string_of_list_ascii]. rewrite string_app_cons. simpl. done. Qed.

Lemma zero_pad_value width n : digits_value 0 (zero_pad width (decimal n)) = Z.to_N n.
Proof.
  unfold zero_pad. rewrite digits_value_zeros. unfold decimal, radix. rewrite radix_value; [done| |done].
  apply size_bound.
Qed.

Lemma zero_pad_hyphenated width n : hyphenated (zero_pad width (decimal n)) = true.
Proof.
  apply hyphenated_solid; unfold zero_pad.
  - destruct (all_of_parts _ _ (decimal_all_of n)) as [H _]. intros E.
    destruct (decimal n); [done|]. by destruct (repeat "0"%char _).
  - rewrite string_forallb_app, andb_true_iff. split.
    + generalize (width - Strings.String.length (decimal n))%nat as k. induction k; simpl; auto.
    + destruct (all_of_parts _ _ (decimal_all_of n)) as [_ H]. revert H.
      induction (decimal n) as [|c s IH]; simpl; [done|]. unfold segment_char at 1.
      rewrite !andb_true_iff, orb_true_iff. naive_solver.
Qed.

(** ** Allocated ids *)
Lemma trim_end_length d s : (Strings.String.length (trim_end_char d s) <= Strings.String.length s)%nat.
Proof. induction s as [|c s IH]; simpl; [done|]. case_match; simpl; lia. Qed.

Lemma substring_length n s : (Strings.String.length (Strings.String.substring 0 n s) <= n)%nat.
Proof. revert n. induction s as [|c s IH]; intros [|n]; simpl; try lia. specialize (IH n). lia. Qed.

Lemma non_empty_Some s t : non_empty s = Some t <-> t = s /\ s <> EmptyString.
Proof. unfold non_empty. destruct s; naive_solver. Qed.

Lemma role_tag_hyphenated role : hyphenated (role_tag role) = true.
Proof. by destruct role. Qed.

Lemma string_nil_or s : s = EmptyString \/ s <> EmptyString.
Proof. destruct s; auto. Qed.

(** An id is its repository, issue, role and number, each hyphenated. *)
Lemma allocate_id_parts manifest ordinal id :
  allocate_id manifest ordinal = Ok id ->
  exists repository issue,
    hyphenated repository = true /\ hyphenated issue = true /\
    id = (repository +:+ String "-" (issue +:+ String "-" (role_tag (ExecutionManifest.role manifest) +:+
           String "-" (zero_pad 2 (decimal ordinal)))))%string /\
    (Strings.String.length id <= 63)%nat.
Proof.
  unfold allocate_id. intros (repo & Hrepo%ok_or_Ok & H)%result_bind_Ok.
  apply non_empty_Some in Hrepo as [-> Hrepo].
  set (issue := default "adhoc"%string _) in H.
  set (suffix := ("-" +:+ issue +:+ _)%string) in H.
  set (n := (63 - Strings.String.length suffix)%nat) in H.
  set (repository := trim_end_char "-" _) in H. apply check_bind_Ok in H as [Hne [= <-]].
  assert (repository <> EmptyString) as Hne' by by destruct repository.
  exists repository, issue. split_and!.
  - destruct (prefix_continues n (slug (last_segment (RepositoryReference.repo
      (ExecutionManifest.repository manifest))))) as [_ [?|?]]; [by apply slug_hyphenated|done|done].
  - subst issue. destruct (ExecutionManifest.task manifest) as [task|]; [|done].
    destruct (non_empty (slug (TaskReference.issue_id task))) as [s|] eqn:E; simpl; rewrite E; [|done].
    apply non_empty_Some in E as [-> E]. by apply slug_hyphenated.
  - done.
  - rewrite string_length_app.
    assert (Strings.String.length repository <= n)%nat.
    { etrans; [apply trim_end_length|apply substring_length]. }
    assert (Strings.String.length repository <> 0)%nat by by destruct repository.
    lia.
Qed.

Lemma allocated_hyphenated manifest ordinal id :
  allocate_id manifest ordinal = Ok id -> hyphenated id = true.
Proof.
  intros (r & i & Hr & Hi & -> & _)%allocate_id_parts.
  repeat (apply hyphenated_join; [done||apply role_tag_hyphenated|]). apply zero_pad_hyphenated.
Qed.

(** The number of an id is read back from its end. *)
Lemma allocated_number manifest ordinal id : 0 <= ordinal ->
  allocate_id manifest ordinal = Ok id ->
  (fun p => Z.of_N (digits_value 0 p.2)) <$> rsplit_once "-" id = Some ordinal.
Proof.
  intros Ho (r & i & Hr & Hi & -> & _)%allocate_id_parts.
  match goal with |- context [String "-" (i +:+ String "-" (?t +:+ ?p))] =>
    change (String "-" (i +:+ String "-" (t +:+ p)))%string with (String "-" i +:+ (String "-" t +:+ p))%string end.
  rewrite <- !string_app_assoc, rsplit_once_app.
  - simpl. rewrite zero_pad_value, Z2N.id; done.
  - apply (forallb_no_char is_ascii_digit); [done|]. unfold zero_pad.
    rewrite string_forallb_app, andb_true_iff. split; [|apply all_of_parts, decimal_all_of].
    generalize (2 - Strings.String.length (decimal ordinal))%nat as k. induction k; simpl; auto.
Qed.

(** C33: The ids the controller allocates are safe names.  An allocated id is a
    path component the storage accepts (1 to 63 lower case letters, digits and
    hyphens, not starting with a hyphen); the number of the attempt can be read
    back from it, so trying the next number gives a new id; and the lifecycle
    holds of two executions with allocated ids are told apart by their names. *)
Theorem allocated_id_well_formed (manifest manifest' : ExecutionManifest) (ordinal ordinal' : Z)
    (id id' : ExecutionId) :
  0 <= ordinal -> 0 <= ordinal' ->
  allocate_id manifest ordinal = Ok id -> allocate_id manifest' ordinal' = Ok id' ->
  (forall state_root, is_ok (ExecutionLayout.new state_root id) = true) /\
  (id = id' -> ordinal = ordinal') /\
  (forall hold_id name, hold_name id' hold_id = Ok name ->
     starts_with (id +:+ "--") name = true -> id = id').
Proof.
  intros Ho Ho' Hid Hid'. pose proof (allocated_hyphenated _ _ _ Hid) as Hh.
  pose proof (allocated_hyphenated _ _ _ Hid') as Hh'. split_and!.
  - intros state_root. unfold ExecutionLayout.new.
    assert (validate_execution_id id = Ok tt) as ->; [|done]. unfold validate_execution_id.
    apply allocate_id_parts in Hid as (_ & _ & _ & _ & _ & Hlen).
    pose proof (hyphenated_chars _ Hh) as Hchars. destruct (hyphenated_first _ Hh) as (c & s & -> & Hc).
    rewrite Hchars. unfold segment_char in Hc. rewrite Hc, !(proj2 (Z.leb_le _ _)); [done|lia|simpl; lia].
  - intros <-. pose proof (allocated_number _ _ _ Ho Hid). pose proof (allocated_number _ _ _ Ho' Hid').
    congruence.
  - intros hold_id name (u & _ & [= <-])%result_bind_Ok. by apply hyphenated_prefix.
Qed.

Definition example_id_manifest : ExecutionManifest := {|
  ExecutionManifest.api_version := MANIFEST_API_VERSION; ExecutionManifest.role := Role.Review;
  ExecutionManifest.task := Some {| TaskReference.project_id := "p"; TaskReference.issue_id := "GH #12";
    TaskReference.task_id := None |};
  ExecutionManifest.repository := {| RepositoryReference.repo := "acme/My_App";
    RepositoryReference.base_ref := "main"; RepositoryReference.base_sha := None;
    RepositoryReference.branch := None |};
  ExecutionManifest.agent := {| AgentAssignment.harness := HarnessKind.Pi;
    AgentAssignment.model_policy := {| ModelPolicy.provider := "inferweave"; ModelPolicy.preferred := [];
      ModelPolicy.alternatives := []; ModelPolicy.fallback_class := None |} |};
  ExecutionManifest.runtime := RuntimeRequirement.default; ExecutionManifest.services := [];
  ExecutionManifest.persistence := PersistenceMode.Ephemeral; ExecutionManifest.task_packet := None |}.

Lemma allocated_id_well_formed_witness :
  allocate_id example_id_manifest 7 = Ok "my-app-gh-12-review-07"%string /\
  (forall state_root, is_ok (ExecutionLayout.new state_root "my-app-gh-12-review-07") = true).
Proof.
  split; [vm_compute; reflexivity|].
  apply (allocated_id_well_formed example_id_manifest example_id_manifest 7 8
    "my-app-gh-12-review-07" "my-app-gh-12-review-08"); [lia|lia|vm_compute; reflexivity..].
Defined.
