(* ===== verification/Api.v ===== *)
(** * The handlers of the controller

    Models [executions.rs], [workers.rs], [events.rs] (the request, not the
    stream), [operations.rs], [interactive.rs] and [artifacts.rs] of
    [crates/orchestrator-api/src], as programs over the stores.  A handler makes its store calls one by one,
    and other controllers and workers act between two of them; a call may also
    fail on the way to the database.

    [handle] is the versioned router: a request that reached a route, to its
    answer; [router] has the health check before it. *)

From Stdlib Require Import Ascii.
From S2P Require Import Prelude Core Manifest WorkerTypes Scheduler Database EventLog CleanupStore WorkerStore ExecutionStore Controls Reservations Effects ResourceRecord Artifacts ApiAuth ApiIds.
















(** ** Calls *)

(** What waiting on the broadcast channel for half a second gives. *)
Inductive Received := TimedOut | Notified | Lagged | Closed.

Inductive api_call : Type -> Type :=
| Store {A} (op : Clock -> Op A) : api_call (result StoreError A)
| ListArtifacts (execution_id : ExecutionId) : api_call (result StoreError (list Artifact))
| UtcNow : api_call Timestamp
| Publish (event : ExecutionEvent) : api_call unit
| Receive : api_call Received.

Abbreviation apiio := (io api_call ApiError).

(** A store call with [map_err(ApiError::store)]. *)
Definition store {A} (op : Clock -> Op A) : apiio A := ask_or (Store op) ApiError.store.

(** The [Result] of a store call, for [match]. *)
Definition store_result {A} (op : Clock -> Op A) : apiio (result StoreError A) := ask (Store op).

Definition decode_payload {A} (payload : result JsonRejection A) : result ApiError A :=
  map_err (fun rejection =>
    if JsonRejection.status rejection =? 413
    then {| ApiError.status := 413; ApiError.code := "PAYLOAD_TOO_LARGE";
            ApiError.message := JsonRejection.body_text rejection |}
    else ApiError.validation (JsonRejection.body_text rejection)) payload.

Definition idempotency_key (headers : HeaderMap) : result ApiError string :=
  ok_or (value ← headers "idempotency-key"%string;
         value ← value;
         if negb (str_is_empty value) && (Z.of_nat (Strings.String.length value) <=? 255)
         then Some value else None)
    (ApiError.validation "Idempotency-Key must be 1-255 bytes").

(** ** [executions.rs] *)
Definition MAX_ID_ATTEMPTS : Z := 10000.

(** The execution and the event of one attempt at an id. *)
Definition queued_execution (id : ExecutionId) (manifest : ExecutionManifest) (now : Timestamp) :
    Execution := {|
  Execution.id := id;
  Execution.role := ExecutionManifest.role manifest;
  Execution.state := ExecutionState.Queued;
  Execution.manifest := manifest;
  Execution.worker_id := None;
  Execution.attempt_id := None;
  Execution.session_id := None;
  Execution.worktree_path := None;
  Execution.labels := {|
    OwnershipLabels.execution_id := id;
    OwnershipLabels.worker_id := "unassigned";
    OwnershipLabels.repository := RepositoryReference.repo (ExecutionManifest.repository manifest);
    OwnershipLabels.issue := TaskReference.issue_id <$> ExecutionManifest.task manifest |};
  Execution.created_at := now;
  Execution.updated_at := now;
  Execution.result := None |}.

Definition created_event (id : ExecutionId) (now : Timestamp) : ExecutionEvent := {|
  ExecutionEvent.execution_id := id;
  ExecutionEvent.attempt_id := None;
  ExecutionEvent.sequence := 0;
  ExecutionEvent.at_ := now;
  ExecutionEvent.state := ExecutionState.Queued;
  ExecutionEvent.kind := ExecutionEventKind.ExecutionCreated |}.

Fixpoint create_loop (manifest : ExecutionManifest) (idempotency_key request_scope : string)
    (attempts : nat) (ordinal : Z) : apiio (Z * Execution) :=
  match attempts with
  | O => throw (ApiError.conflict "execution identifier space is exhausted for this task and role")
  | S attempts =>
      id ← ret_result (allocate_id manifest ordinal);
      now ← ask UtcNow;
      let event := created_event id now in
      outcome ← store_result (fun _ => create_idempotent (queued_execution id manifest now) event
                                         idempotency_key request_scope);
      match outcome with
      | Ok outcome =>
          _ ← match IdempotentExecution.event_sequence outcome with
              | Some sequence => ask (Publish (ExecutionEvent.set_sequence sequence event))
              | None => mret tt
              end;
          mret (if IdempotentExecution.created outcome then 201 else 200,
                IdempotentExecution.execution outcome)
      | Err (StoreError.DuplicateExecutionId _) =>
          create_loop manifest idempotency_key request_scope attempts (ordinal + 1)
      | Err error => throw (ApiError.store error)
      end
  end.

Definition create_execution (manifest : ExecutionManifest) (idempotency_key request_scope : string) :
    apiio (Z * Execution) :=
  create_loop manifest idempotency_key request_scope (Z.to_nat MAX_ID_ATTEMPTS) 1.

Definition create (state : AppState) (headers : HeaderMap)
    (payload : result JsonRejection ExecutionManifest) : apiio (Z * Execution) :=
  _ ← ret_result (authorize_api state headers);
  manifest ← ret_result (decode_payload payload);
  key ← ret_result (idempotency_key headers);
  _ ← ret_result (map_err (fun error => ApiError.validation (CoreError.to_string error))
                    (Manifest.validate manifest));
  create_execution manifest key "create".

Definition read (state : AppState) (id : string) (headers : HeaderMap) : apiio Execution :=
  _ ← ret_result (authorize_api state headers);
  store (fun _ => ExecutionStore.get id).

Definition cleanup_unavailable (status : Z) (message : string) : ApiError :=
  {| ApiError.status := status; ApiError.code := "CLEANUP_UNAVAILABLE"; ApiError.message := message |}.

Definition read_resources (rfc3339 : Timestamp -> string) (state : AppState) (id : string)
    (headers : HeaderMap) : apiio (list ResourceRecord) :=
  _ ← ret_result (authorize_api state headers);
  _ ← guard_or (AppState.cleanup_authorities state)
        (cleanup_unavailable 500 "cleanup authority store is not configured");
  authority ← store (fun _ => get_authority id);
  mret (ResourceRecord.project rfc3339 id (CleanupAuthority.created_at authority)
          (CleanupAuthority.phase authority) (CleanupAuthority.handles authority)).

Definition cancel (state : AppState) (id : string) (headers : HeaderMap) : apiio (Z * Execution) :=
  _ ← ret_result (authorize_api state headers);
  execution ← store (fun now => request_cancellation now id);
  mret (202, execution).

Definition retry (state : AppState) (id : string) (headers : HeaderMap) : apiio (Z * Execution) :=
  _ ← ret_result (authorize_api state headers);
  key ← ret_result (idempotency_key headers);
  source ← store (fun _ => ExecutionStore.get id);
  _ ← guard_or (bool_decide (Execution.state source ∈ [ExecutionState.Failed; ExecutionState.Cancelled]))
        (ApiError.conflict "only failed or cancelled executions can be retried");
  create_execution (Execution.manifest source) key ("retry:" +:+ Execution.id source).

(** ** [workers.rs] *)
Definition HEARTBEAT_DEADLINE_SECONDS : Z := 90.

Definition require_identity (identity : WorkerIdentity) (id : WorkerId) : result ApiError unit :=
  match identity with
  | WorkerIdentity.Worker own =>
      check (bool_decide (own = id))
        {| ApiError.status := 403; ApiError.code := "WORKER_IDENTITY_MISMATCH";
           ApiError.message := "the worker token was not issued to this worker" |}
  | WorkerIdentity.Any => Ok tt
  end.

(** [Retained], [RetainRequested] and [Active(_)]: not yet in teardown. *)
Definition before_cleanup (d : CleanupDisposition) : bool :=
  match d with
  | CleanupDisposition.Active _ | CleanupDisposition.RetainRequested
  | CleanupDisposition.Retained => true
  | _ => false
  end.

Definition request_cleanup (state : AppState) (id : string) (headers : HeaderMap) : apiio Z :=
  caller ← ret_result (authorize_api_or_worker state headers);
  _ ← guard_or (AppState.cleanup_authorities state)
        (cleanup_unavailable 503 "durable cleanup reconciliation is unavailable");
  authority ← store (fun _ => get_authority id);
  _ ← match caller with
      | Caller.Worker identity =>
          ret_result (require_identity identity (CleanupAuthority.worker_id authority))
      | Caller.Api => mret tt
      end;
  d ← ret_result (map_err ApiError.store (disposition authority));
  match d with
  | CleanupDisposition.Active _ | CleanupDisposition.RetainRequested =>
      throw {| ApiError.status := 409; ApiError.code := "CLEANUP_EXECUTION_ACTIVE";
               ApiError.message := "an active execution cannot be cleaned up" |}
  | CleanupDisposition.Retained =>
      moved ← store_result (fun now => CleanupStore.transition now id CleanupDisposition.Retained
                CleanupDisposition.CleanupPending (CleanupAuthority.handles authority));
      match moved with
      | Ok _ => mret 202
      | Err error =>
          now ← store (fun _ => get_authority id);
          d ← ret_result (map_err ApiError.store (disposition now));
          if before_cleanup d then throw (ApiError.store error) else mret 202
      end
  | CleanupDisposition.CleanupPending | CleanupDisposition.RuntimeStopped
  | CleanupDisposition.RuntimeDestroyed | CleanupDisposition.GitRecoveredCleaned
  | CleanupDisposition.StorageReleased | CleanupDisposition.ReservationReleased
  | CleanupDisposition.Resolved => mret 202
  end.

(** [own_liveness], at the time it reads. *)
Definition own_liveness (now : Timestamp) (worker : WorkerRegistration) : WorkerRegistration := {|
  WorkerRegistration.id := WorkerRegistration.id worker;
  WorkerRegistration.capabilities := WorkerRegistration.capabilities worker;
  WorkerRegistration.state :=
    if WorkerRegistration.proof_is_complete worker &&
       bool_decide (WorkerCapabilities.health_errors (WorkerRegistration.capabilities worker) = [])
    then WorkerState.Ready else WorkerState.Offline;
  WorkerRegistration.running_executions := WorkerRegistration.running_executions worker;
  WorkerRegistration.last_heartbeat := now;
  WorkerRegistration.capability_proof := WorkerRegistration.capability_proof worker |}.

Definition advertised (advertisement : WorkerAdvertisement) (state : WorkerState)
    (running_executions : Z) (now : Timestamp) : WorkerRegistration := {|
  WorkerRegistration.id := WorkerAdvertisement.id advertisement;
  WorkerRegistration.capabilities := WorkerAdvertisement.capabilities advertisement;
  WorkerRegistration.state := state;
  WorkerRegistration.running_executions := running_executions;
  WorkerRegistration.last_heartbeat := now;
  WorkerRegistration.capability_proof := WorkerAdvertisement.capability_proof advertisement |}.

Definition register_worker (state : AppState) (headers : HeaderMap)
    (payload : result JsonRejection WorkerAdvertisement) : apiio (Z * WorkerRegistration) :=
  identity ← ret_result (authorize_worker state headers);
  advertisement ← ret_result (decode_payload payload);
  _ ← ret_result (require_identity identity (WorkerAdvertisement.id advertisement));
  created_at ← ask UtcNow;
  existing ← store_result (fun _ => get_worker (WorkerAdvertisement.id advertisement));
  found ← match existing with
          | Ok existing => mret (WorkerRegistration.running_executions existing, true)
          | Err (StoreError.NotFound _) => mret (0, false)
          | Err error => throw (ApiError.store error)
          end;
  now ← ask UtcNow;
  let worker := own_liveness now (advertised advertisement WorkerState.Offline found.1 created_at) in
  _ ← store (fun _ => WorkerStore.register worker);
  mret (if (found.2 : bool) then 200 else 201, worker).

Definition heartbeat_worker (state : AppState) (id : string) (headers : HeaderMap)
    (payload : result JsonRejection WorkerAdvertisement) : apiio WorkerRegistration :=
  identity ← ret_result (authorize_worker state headers);
  advertisement ← ret_result (decode_payload payload);
  _ ← ret_result (require_identity identity (WorkerAdvertisement.id advertisement));
  _ ← guard_or (bool_decide (WorkerAdvertisement.id advertisement = id))
        (ApiError.validation "worker id does not match heartbeat path");
  existing ← store (fun _ => get_worker (WorkerAdvertisement.id advertisement));
  created_at ← ask UtcNow;
  now ← ask UtcNow;
  store (fun _ => WorkerStore.heartbeat (own_liveness now (advertised advertisement
           (WorkerRegistration.state existing) (WorkerRegistration.running_executions existing)
           created_at))).

Definition validated_limit (limit : option Z) : result ApiError Z :=
  let limit := default 50 limit in
  _ ← check ((1 <=? limit) && (limit <=? 100)) (ApiError.validation "limit must be between 1 and 100");
  Ok limit.

Definition list_registered `{Collation} (state : AppState) (headers : HeaderMap) (limit : option Z)
    (cursor : option string) : apiio (list WorkerRegistration) :=
  _ ← ret_result (authorize_api state headers);
  limit ← ret_result (validated_limit limit);
  _ ← guard_or (match cursor with
                | Some cursor => negb (str_is_empty cursor ||
                    (255 <? Z.of_nat (Strings.String.length cursor)) || has_control (bytes_of cursor))
                | None => true
                end) (ApiError.validation "cursor is invalid");
  store (fun _ => list_page limit cursor).

(** The reaper's two passes; they stop at the first error. *)
Fixpoint recover_all `{Collation} (ids : list WorkerId) : io api_call StoreError unit :=
  match ids with
  | [] => mret tt
  | worker_id :: ids =>
      _ ← ask_or (Store (fun now => recover_unreachable now worker_id)) id;
      recover_all ids
  end.

Definition reap_stale `{Collation} (now : Timestamp) : io api_call StoreError (list WorkerId) :=
  stale ← ask_or (Store (fun _ => mark_stale_before
            (now - HEARTBEAT_DEADLINE_SECONDS * 1000000000))) id;
  _ ← recover_all stale;
  mret stale.

Definition recover_stranded `{Collation} : io api_call StoreError (list WorkerId) :=
  workers ← ask_or (Store (fun _ => list_workers)) id;
  let unreachable := WorkerRegistration.id <$>
    List.filter (fun worker => bool_decide (WorkerRegistration.state worker = WorkerState.Unreachable))
      workers in
  _ ← recover_all unreachable;
  mret unreachable.

(** ** [operations.rs] *)
Module OperationalExecution.
Record OperationalExecution := {
  id : ExecutionId;
  role : Role;
  state : ExecutionState;
  worker_id : option WorkerId;
  attempt_id : option AttemptId;
  updated_at : Timestamp
}.

Definition from (execution : Execution) : OperationalExecution := {|
  id := Execution.id execution;
  role := Execution.role execution;
  state := Execution.state execution;
  worker_id := Execution.worker_id execution;
  attempt_id := Execution.attempt_id execution;
  updated_at := Execution.updated_at execution |}.
End OperationalExecution.
Abbreviation OperationalExecution := OperationalExecution.OperationalExecution.

Module QueueSummary.
Record QueueSummary := {
  queued : Z; worker_assigned : Z; provisioning : Z; running : Z;
  paused_for_human : Z; review_ready : Z; total : Z            (* u64 *)
}.

Definition default : QueueSummary := {|
  queued := 0; worker_assigned := 0; provisioning := 0; running := 0; paused_for_human := 0;
  review_ready := 0; total := 0 |}.

(** One pass of the loop of [summarize_counts]. *)
Definition add (summary : QueueSummary) (entry : ExecutionState * Z) : QueueSummary :=
  let '(state, count) := entry in
  let at_ (s : ExecutionState) (n : Z) := if bool_decide (state = s) then n + count else n in
  {| queued := at_ ExecutionState.Queued (queued summary);
     worker_assigned := at_ ExecutionState.WorkerAssigned (worker_assigned summary);
     provisioning := at_ ExecutionState.Provisioning (provisioning summary);
     running := at_ ExecutionState.Running (running summary);
     paused_for_human := at_ ExecutionState.PausedForHuman (paused_for_human summary);
     review_ready := at_ ExecutionState.ReviewReady (review_ready summary);
     total := if negb (ExecutionState.is_terminal state) then total summary + count
              else total summary |}.
End QueueSummary.
Abbreviation QueueSummary := QueueSummary.QueueSummary.

Definition summarize_counts (counts : list (ExecutionState * Z)) : QueueSummary :=
  foldl QueueSummary.add QueueSummary.default counts.

Definition operational_executions `{Collation} (state : AppState) (headers : HeaderMap)
    (limit : option Z) : apiio (list OperationalExecution) :=
  _ ← ret_result (authorize_api state headers);
  limit ← ret_result (validated_limit limit);
  executions ← store (fun _ => list_operational limit);
  mret (OperationalExecution.from <$> executions).

Definition queue `{Collation} (state : AppState) (headers : HeaderMap) : apiio QueueSummary :=
  _ ← ret_result (authorize_api state headers);
  counts ← store (fun _ => live_state_counts);
  mret (summarize_counts counts).

Definition cleanup_health (state : AppState) (headers : HeaderMap) : apiio CleanupHealthSnapshot :=
  _ ← ret_result (authorize_api state headers);
  _ ← guard_or (AppState.cleanup_authorities state)
        (cleanup_unavailable 503 "durable cleanup reconciliation is unavailable");
  store (fun _ => health_snapshot).

(** ** [interactive.rs] *)
Definition control (state : AppState) (id : string) (headers : HeaderMap)
    (action : ExecutionControlAction) : apiio (Z * ExecutionControlRequest) :=
  _ ← ret_result (authorize_api state headers);
  key ← ret_result (idempotency_key headers);
  outcome ← store (fun now => request_control now id action key);
  mret (if IdempotentExecutionControl.created outcome then 202 else 200,
        IdempotentExecutionControl.request outcome).

Definition pause (state : AppState) (id : string) (headers : HeaderMap) :=
  control state id headers ExecutionControlAction.Pause.
Definition resume (state : AppState) (id : string) (headers : HeaderMap) :=
  control state id headers ExecutionControlAction.Resume.

Definition attach (state : AppState) (id : string) (headers : HeaderMap) : apiio ExecutionAttachment :=
  _ ← ret_result (authorize_api state headers);
  store (fun _ => attachment_snapshot id).

(** The body asks for the only mode there is. *)
Definition fork (state : AppState) (id : string) (headers : HeaderMap)
    (payload : result JsonRejection unit) : apiio (Z * ExecutionControlRequest) :=
  _ ← ret_result (authorize_api state headers);
  _ ← ret_result (decode_payload payload);
  control state id headers ExecutionControlAction.ForkConversation.

(** ** [events.rs]: opening a stream *)
Definition EVENT_BATCH_SIZE : Z := 128.

Module StreamState.
Record StreamState := {
  execution_id : ExecutionId;
  cursor : Z;                         (* u64 *)
  pending : list ExecutionEvent;
  needs_fetch : bool
}.
End StreamState.
Abbreviation StreamState := StreamState.StreamState.

(** [since_batch] as a call. *)
Definition fetch (id : ExecutionId) (cursor : Z) : Clock -> Op (list ExecutionEvent) :=
  fun _ => query (since_batch id cursor EVENT_BATCH_SIZE).

(** The query is [Err] when the [cursor] parameter is not an unsigned number. *)
Definition events (state : AppState) (id : string) (query : result unit (option Z))
    (headers : HeaderMap) : apiio StreamState :=
  _ ← ret_result (authorize_api state headers);
  query ← ret_result (map_err (fun _ => ApiError.validation "cursor must be an unsigned integer") query);
  _ ← store (fun _ => ExecutionStore.get id);
  header_cursor ← match headers "last-event-id"%string with
                  | Some value => v ← some_or (value ≫= parse_u64) (ApiError.validation
                                    "Last-Event-ID must be an unsigned integer");
                                  mret (Some v)
                  | None => mret None
                  end;
  let cursor := default 0 (match header_cursor with Some c => Some c | None => query end) in
  _ ← guard_or (cursor <=? i64_max) (ApiError.validation "event cursor exceeds the supported range");
  pending ← store (fetch id cursor);
  mret {| StreamState.execution_id := id; StreamState.cursor := cursor;
          StreamState.pending := pending;
          StreamState.needs_fetch := Z.of_nat (length pending) =? EVENT_BATCH_SIZE |}.

(** ** Artifacts

    [list] of [artifacts.rs]; the store is that of [Artifacts]. *)
Definition artifacts_of (state : AppState) (id : string) (headers : HeaderMap) : apiio (list Artifact) :=
  _ ← ret_result (authorize_api state headers);
  ask_or (ListArtifacts id) ApiError.store.

(** ** The router *)
Inductive Route :=
| PostExecutions (payload : result JsonRejection ExecutionManifest)
| GetExecution (id : string)
| GetResources (id : string)
| PostCancel (id : string)
| PostRetry (id : string)
| PostPause (id : string)
| PostResume (id : string)
| GetAttach (id : string)
| PostAttach (id : string) (payload : result JsonRejection unit)
| GetEvents (id : string) (query : result unit (option Z))
| GetArtifacts (id : string)
| GetOperatorExecutions (limit : option Z)
| GetOperatorQueue
| GetCleanupHealth
| GetWorkers (limit : option Z) (cursor : option string)
| PostWorkers (payload : result JsonRejection WorkerAdvertisement)
| PostHeartbeat (id : string) (payload : result JsonRejection WorkerAdvertisement)
| PostCleanup (id : string).

Inductive Answer :=
| ExecutionAnswer (status : Z) (execution : Execution)
| ResourcesAnswer (records : list ResourceRecord)
| ControlAnswer (status : Z) (request : ExecutionControlRequest)
| AttachmentAnswer (attachment : ExecutionAttachment)
| StreamAnswer (stream : StreamState)
| ArtifactsAnswer (artifacts : list Artifact)
| OperationalAnswer (executions : list OperationalExecution)
| QueueAnswer (summary : QueueSummary)
| HealthAnswer (health : CleanupHealthSnapshot)
| WorkersAnswer (workers : list WorkerRegistration)
| WorkerAnswer (status : Z) (worker : WorkerRegistration)
| StatusAnswer (status : Z).

Definition handle `{Collation} (rfc3339 : Timestamp -> string) (state : AppState)
    (headers : HeaderMap) (route : Route) : apiio Answer :=
  match route with
  | PostExecutions payload =>
      r ← create state headers payload; mret (ExecutionAnswer r.1 r.2)
  | GetExecution id => e ← read state id headers; mret (ExecutionAnswer 200 e)
  | GetResources id => rs ← read_resources rfc3339 state id headers; mret (ResourcesAnswer rs)
  | PostCancel id => r ← cancel state id headers; mret (ExecutionAnswer r.1 r.2)
  | PostRetry id => r ← retry state id headers; mret (ExecutionAnswer r.1 r.2)
  | PostPause id => r ← pause state id headers; mret (ControlAnswer r.1 r.2)
  | PostResume id => r ← resume state id headers; mret (ControlAnswer r.1 r.2)
  | GetAttach id => a ← attach state id headers; mret (AttachmentAnswer a)
  | PostAttach id payload => r ← fork state id headers payload; mret (ControlAnswer r.1 r.2)
  | GetEvents id query => s ← events state id query headers; mret (StreamAnswer s)
  | GetArtifacts id => l ← artifacts_of state id headers; mret (ArtifactsAnswer l)
  | GetOperatorExecutions limit =>
      es ← operational_executions state headers limit; mret (OperationalAnswer es)
  | GetOperatorQueue => q ← queue state headers; mret (QueueAnswer q)
  | GetCleanupHealth => h ← cleanup_health state headers; mret (HealthAnswer h)
  | GetWorkers limit cursor =>
      ws ← list_registered state headers limit cursor; mret (WorkersAnswer ws)
  | PostWorkers payload =>
      r ← register_worker state headers payload; mret (WorkerAnswer r.1 r.2)
  | PostHeartbeat id payload =>
      w ← heartbeat_worker state id headers payload; mret (WorkerAnswer 200 w)
  | PostCleanup id => status ← request_cleanup state id headers; mret (StatusAnswer status)
  end.

(** The health check takes no credential; all else is under [api_root]. *)
Inductive Path :=
| Healthz
| Nested (route : Route).

Definition router `{Collation} (rfc3339 : Timestamp -> string) (state : AppState)
    (headers : HeaderMap) (path : Path) : apiio (string + Answer) :=
  match path with
  | Healthz => mret (inl "ok"%string)
  | Nested route => answer ← handle rfc3339 state headers route; mret (inr answer)
  end.
