(* ===== verification/ApiSafety.v ===== *)
(** * What a request can change

    Every request moves the database by operations of the stores, and a request
    that carries a worker's token changes what belongs to that worker only. *)

From Stdlib Require Import Ascii.
From S2P Require Import Prelude Core WorkerTypes Scheduler Database EventLog CleanupStore WorkerStore ExecutionStore Controls Reservations Steps AuthorityOrder Effects ResourceRecord ApiAuth ApiIds Api.















(** ** The stores answer

    A call runs its operation at some time of the database; or it fails on the
    way there, or on the way back once the operation is done. *)
Definition api_sem (B : Type) (c : api_call B) (db : Database) : B -> Database -> Prop :=
  match c in api_call B return B -> Database -> Prop with
  | Store op => fun r db' => exists now,
      op now db = (r, db') \/
      (exists message, r = Err (StoreError.Db message)) /\ (db' = db \/ db' = (op now db).2)
  | ListArtifacts _ => fun _ db' => db' = db   (* its tables are not these *)
  | UtcNow => fun _ db' => db' = db
  | Publish _ => fun _ db' => db' = db
  | Receive => fun _ db' => db' = db
  end.

(** A call that reads, and one that runs an operation of the stores. *)
Definition reads {A} (op : Clock -> Op A) : Prop := forall now db, (op now db).2 = db.

Definition by_steps `{Collation} {B} (c : api_call B) : Prop :=
  match c with
  | Store op => forall now, (forall db, (op now db).2 = db) \/ store_op _ (op now)
  | _ => True
  end.

Lemma by_steps_sem `{Collation} B (c : api_call B) db b db' :
  by_steps c -> api_sem B c db b db' -> db' = db \/ step db db'.
Proof.
  destruct c as [A op|id| |e|]; simpl; [|by left..].
  intros Hop (now & [Hr|[_ [-> | ->]]]); [|by left|]; destruct (Hop now) as [Hq|Ho].
  - left. by rewrite <- (Hq db), Hr.
  - right. by eexists _, _, _.
  - left. apply Hq.
  - right. exists A, (op now), (op now db).1. split; [done|]. apply surjective_pairing.
Qed.

Ltac api_calls tac :=
  repeat match goal with
  | |- all_calls _ (Ret _) => exact I
  | |- all_calls _ (mret _) => exact I
  | |- all_calls _ (throw _) => exact I
  | |- all_calls _ (ret_result _) => exact I
  | |- all_calls _ (guard_or _ _) => exact I
  | |- all_calls _ (some_or _ _) => exact I
  | |- all_calls _ (store _) => split; [tac|intros; exact I]
  | |- all_calls _ (store_result _) => split; [tac|intros; exact I]
  | |- all_calls _ (ask_or _ _) => split; [tac|intros; exact I]
  | |- all_calls _ (ask _) => split; [exact I|intros; exact I]
  | |- all_calls _ (match ?x with _ => _ end) => destruct x
  | |- all_calls _ (_ ≫= _) => apply all_calls_io_bind
  | |- forall _, _ => intro
  | |- _ => solve [auto with api nocore]
  end.
Create HintDb api.

Ltac is_step := first [exact I | intro; first [left; reflexivity | right; constructor; by repeat split]].

Section Steps.
Context `{Collation}.

Lemma create_loop_steps manifest key scope n ordinal :
  all_calls (@by_steps _) (create_loop manifest key scope n ordinal).
Proof. revert ordinal. induction n as [|n IH]; intros ordinal; cbn [create_loop]; api_calls is_step. Qed.
Hint Resolve create_loop_steps : api.

Lemma recover_all_steps ids : all_calls (@by_steps _) (recover_all ids).
Proof. induction ids as [|id ids IH]; cbn [recover_all]; api_calls is_step. Qed.
Hint Resolve recover_all_steps : api.

(** The programs of the controller that write. *)
Inductive controller : forall A, proc api_call A -> Prop :=
| serves rfc3339 state headers path : controller _ (router rfc3339 state headers path)
| reaps now : controller _ (reap_stale now)
| recovers : controller _ recover_stranded.

Lemma handle_steps rfc3339 state headers route :
  all_calls (@by_steps _) (handle rfc3339 state headers route).
Proof.
  destruct route; unfold handle, artifacts_of, create, read, read_resources, cancel, retry, pause, resume, fork,
    control, attach, events, operational_executions, queue, cleanup_health, list_registered,
    register_worker, heartbeat_worker, request_cleanup, create_execution; api_calls is_step.
Qed.

Lemma controller_steps A (p : proc api_call A) : controller A p -> all_calls (@by_steps _) p.
Proof.
  destruct 1 as [rfc3339 state headers [|route]| |]; [done|apply all_calls_io_bind; [apply handle_steps|done]|..];
    [unfold reap_stale|unfold recover_stranded]; api_calls is_step.
Qed.
End Steps.

(** A run whose steps are steps of the stores leads where they lead. *)
Lemma exec_steps `{Collation} {C A} sem (p : proc C A) db tr r db' :
  exec sem step p db tr r db' -> Forall (fun x => x.2 = x.1 \/ step x.1 x.2) tr -> rtc step db db'.
Proof.
  induction 1 as [a s|p s|p s s1 tr r s' H1 _ IH|B c k b s s1 tr r s' _ _ IH]; intros Ht;
    [done..|eapply rtc_l; eauto|].
  apply Forall_cons in Ht as [[Heq|Hs] Ht]; simpl in *; [subst; by apply IH|eapply rtc_l; eauto].
Qed.

(** The controller moves the database by operations of the stores.  Every
    request, however it is answered or cut short, and every pass of the reaper,
    on any interleaving with other operations, takes a reachable database to a
    reachable database, each of its calls being a read or one operation of the
    stores; so what holds of every reachable database holds while the
    controller serves. *)
Theorem controller_keeps_reachable `{Collation} A (p : proc api_call A) (db db' : Database) tr r :
  controller A p -> reachable db -> exec api_sem step p db tr r db' ->
  Forall (fun x => x.2 = x.1 \/ step x.1 x.2) tr /\ reachable db'.
Proof.
  intros Hp Hr He.
  assert (Forall (fun x => x.2 = x.1 \/ step x.1 x.2) tr) as Ht.
  { apply (chl_exec api_sem step (fun s s1 => s1 = s \/ step s s1) _ (fun _ _ => True) _ _ _ _ He).
    eapply chl_calls; [apply by_steps_sem|by apply controller_steps|done]. }
  split; [done|]. unfold reachable. etrans; [exact Hr|]. by eapply exec_steps.
Qed.

(** ** Tokens *)
Lemma foldl_lor_zero (f : nat -> Z) l a :
  foldl (fun acc i => Z.lor acc (f i)) a l = 0 <-> a = 0 /\ forall i, i ∈ l -> f i = 0.
Proof.
  revert a. induction l as [|i l IH]; intros a; simpl; [set_solver|].
  rewrite IH, Z.lor_eq_0_iff. set_solver.
Qed.

(** The comparison that looks at every byte decides equality. *)
Lemma constant_time_eq_spec left right : constant_time_eq left right = bool_decide (left = right).
Proof.
  unfold constant_time_eq. apply eq_true_iff_eq. rewrite Z.eqb_eq, bool_decide_eq_true, foldl_lor_zero.
  rewrite Z.lxor_eq_0_iff. split; [|intros ->; split; [done|]; intros; apply Z.lxor_nilpotent].
  intros [Hlen%Nat2Z.inj Hb]. apply (list_eq_same_length _ _ (length right)); [done|done|].
  intros i x y Hi Hx Hy. specialize (Hb i). rewrite Z.lxor_eq_0_iff in Hb. unfold byte_at in Hb.
  rewrite Hx, Hy in Hb. apply Hb. apply elem_of_seq. lia.
Qed.

Lemma as_bytes_inj s t : as_bytes s = as_bytes t -> s = t.
Proof.
  revert t. induction s as [|c s IH]; intros [|d t] H; try done. injection H as Hc Hs.
  apply N2Z.inj in Hc. f_equal; [|by apply IH].
  by rewrite <- (ascii_N_embedding c), Hc, ascii_N_embedding.
Qed.

Lemma static_validate_spec expected token : static_validate expected token = bool_decide (token = expected).
Proof.
  unfold static_validate. rewrite constant_time_eq_spec. apply bool_decide_ext.
  split; [apply as_bytes_inj|by intros ->].
Qed.

(** No two lines of an accepted file share a digest. *)
Lemma parse_lines_digests number rest workers digests entries :
  PerWorkerTokens.parse_lines number rest workers digests = Ok entries ->
  (forall e, e ∈ entries -> e.2 ∉ digests) /\ NoDup entries.*2.
Proof.
  revert number workers digests entries. induction rest as [|raw rest IH];
    intros number workers digests entries; cbn [PerWorkerTokens.parse_lines].
  - intros [= <-]. split; [set_solver|constructor].
  - case_match; [apply IH|]. do 3 (case_match; try done).
    rewrite result_bind_Ok. setoid_rewrite check_bind_Ok. setoid_rewrite check_bind_Ok.
    intros (d & _ & Hw & Hd & (es & Hes & [= <-])%result_bind_Ok).
    apply negb_true_iff, bool_decide_eq_false in Hd. destruct (IH _ _ _ _ Hes) as [Hn Hnd]. split.
    + intros e [->|He]%elem_of_cons; [done|]. specialize (Hn e He). set_solver.
    + simpl. constructor; [|done]. intros (e & He & Hin)%list_elem_of_fmap. specialize (Hn e Hin). set_solver.
Qed.

Lemma identify_spec sha256 text tokens presented :
  PerWorkerTokens.parse text = Ok tokens ->
  match PerWorkerTokens.identify sha256 tokens presented with
  | Some identity => exists w, identity = WorkerIdentity.Worker w /\
      forall w', (w', sha256 presented) ∈ PerWorkerTokens.entries tokens <-> w' = w
  | None => forall w, (w, sha256 presented) ∉ PerWorkerTokens.entries tokens
  end.
Proof.
  unfold PerWorkerTokens.parse. rewrite result_bind_Ok. setoid_rewrite check_bind_Ok.
  intros (es & [_ Hnd]%parse_lines_digests & _ & [= <-]).
  unfold PerWorkerTokens.identify. simpl. generalize (sha256 presented) as d. intros d.
  assert (forall found, match foldl (fun found entry => if constant_time_eq d entry.2
        then Some (WorkerIdentity.Worker entry.1) else found) found es with
    | r => (r = found /\ forall w, (w, d) ∉ es) \/
           exists w, r = Some (WorkerIdentity.Worker w) /\ forall w', (w', d) ∈ es <-> w' = w end) as Hf.
  { induction es as [|[w e] es IH]; intros found; simpl; [left; split; [done|set_solver]|].
    simpl in Hnd. apply NoDup_cons in Hnd as [Hn Hnd]. specialize (IH Hnd).
    rewrite constant_time_eq_spec. case_bool_decide as Hd; simpl in Hd.
    - subst e. destruct (IH (Some (WorkerIdentity.Worker w))) as [[-> Hnone]|(w' & -> & Hw')].
      + right. exists w. split; [done|]. set_solver.
      + exfalso. apply Hn, list_elem_of_fmap. exists (w', d). split; [done|]. by apply Hw'.
    - destruct (IH found) as [[-> Hnone]|(w' & -> & Hw')].
      + left. split; [done|]. set_solver.
      + right. exists w'. split; [done|]. intros v. rewrite elem_of_cons, Hw'. naive_solver. }
  destruct (Hf None) as [[-> Hn]|(w & -> & Hw)]; eauto.
Qed.

(** ** What a worker's token reaches *)

(** Nothing, the worker's own registration, or the start of the teardown of an
    execution it retains. *)
Definition confined (w : WorkerId) (db db' : Database) : Prop :=
  db' = db \/
  (exists row, WorkerRegistration.id row = w /\ db' = set_workers (<[w := row]> (workers db)) db) \/
  (exists id c handles now, cleanup_authorities db !! id = Some c /\
     CleanupAuthority.worker_id c = w /\
     CleanupAuthority.phase c ∈ phase_text <$> [CleanupDisposition.Retained; CleanupDisposition.CleanupPending] /\
     db' = set_authorities (<[id := CleanupAuthority.set_phase_handles
             (phase_text CleanupDisposition.CleanupPending) handles now c]> (cleanup_authorities db)) db).

Definition confines (w : WorkerId) {B} (c : api_call B) : Prop :=
  match c with Store op => forall now db, confined w db (op now db).2 | _ => True end.

Lemma confines_sem w B (c : api_call B) db b db' :
  confines w c -> api_sem B c db b db' -> confined w db db'.
Proof.
  destruct c as [A op|id| |e|]; simpl; [|by left..].
  intros Hop (now & [Hr|[_ [-> | ->]]]); [|by left|apply Hop]. specialize (Hop now db). by rewrite Hr in Hop.
Qed.

Lemma register_confined worker db :
  confined (WorkerRegistration.id worker) db (WorkerStore.register worker db).2.
Proof.
  unfold WorkerStore.register, transaction. destruct (WorkerStore.validate worker) as [[]|e].
  - right; left. simpl. eexists. split; [|reflexivity]. done.
  - by left.
Qed.

Lemma heartbeat_confined worker db :
  confined (WorkerRegistration.id worker) db (WorkerStore.heartbeat worker db).2.
Proof.
  unfold WorkerStore.heartbeat. destruct (WorkerStore.validate worker) as [[]|e]; [|by left].
  destruct (workers db !! WorkerRegistration.id worker); [|by left].
  right; left. eexists. split; [|reflexivity]. done.
Qed.

Lemma cleanup_transition_confined now id h db c :
  cleanup_authorities db !! id = Some c ->
  confined (CleanupAuthority.worker_id c) db
    (CleanupStore.transition now id CleanupDisposition.Retained CleanupDisposition.CleanupPending h db).2.
Proof.
  intros Hc. unfold CleanupStore.transition, transaction, select_authority, update_authority.
  unfold mbind, stm_bind, gets, require, lift, ok_or. simpl. rewrite Hc. simpl. rewrite Hc.
  case_bool_decide as Hp; simpl.
  - rewrite lookup_insert_eq. right; right. exists id, c, h, (pg_now now). by split_and!.
  - rewrite Hc. by left.
Qed.

(** ** The handlers, by credential *)
Section Confined.
Context `{Collation} (rfc3339 : Timestamp -> string) (state : AppState) (headers : HeaderMap).
Hypothesis not_api : authorize_bearer headers (AppState.api_token_validator state) = false.

Local Notation denied := (fun (r : result ApiError Answer) (_ : Database) =>
  exists e, r = Err e /\ ApiError.status e = 401).

Lemma api_unauthorized : exists e, authorize_api state headers = Err e /\ ApiError.status e = 401.
Proof. unfold authorize_api, authorize. rewrite not_api. simpl. eauto. Qed.

Definition identity : option WorkerIdentity :=
  token ← bearer_token headers; AppState.worker_token_validator state token.

(** The routes that take a worker's token. *)
Definition worker_route (route : Route) : bool :=
  match route with PostWorkers _ | PostHeartbeat _ _ | PostCleanup _ => true | _ => false end.

Lemma handle_denied route :
  worker_route route = false \/ identity = None ->
  exists e, handle rfc3339 state headers route = Ret (Err e) /\ ApiError.status e = 401.
Proof.
  destruct api_unauthorized as (e & He & Hs). intros Hr.
  assert (worker_route route = false ->
    exists e, handle rfc3339 state headers route = Ret (Err e) /\ ApiError.status e = 401) as Hapi.
  { exists e. split; [|done]. destruct route; try done;
      unfold handle, artifacts_of, create, read, read_resources, cancel, retry, pause, resume, fork, control, attach,
        events, operational_executions, queue, cleanup_health, list_registered; by rewrite He. }
  destruct (worker_route route) eqn:Ew; [|by apply Hapi]. destruct Hr as [?|Hn]; [done|].
  unfold identity in Hn. destruct route; try done; eexists;
    unfold handle, register_worker, heartbeat_worker, request_cleanup, authorize_worker,
      authorize_api_or_worker; rewrite Hn, ?not_api; split; reflexivity.
Qed.

Lemma authorize_worker_identity i : identity = Some i -> authorize_worker state headers = Ok i.
Proof. unfold authorize_worker, identity. by intros ->. Qed.

Lemma authorize_caller_identity i :
  identity = Some i -> authorize_api_or_worker state headers = Ok (Caller.Worker i).
Proof. unfold authorize_api_or_worker, identity. intros ->. by rewrite not_api. Qed.

Lemma chl_confines {A} w (p : proc api_call A) db :
  all_calls (@confines w) p -> chl api_sem step (confined w) p (fun _ _ => True) db.
Proof. intros Hp. eapply chl_calls; [apply confines_sem|exact Hp|done]. Qed.

(** Past the identity check, the worker is the token's own. *)
Lemma calls_identity {B} P w id (f : unit -> apiio B) :
  (w = id -> all_calls P (f tt)) ->
  all_calls P (ret_result (require_identity (WorkerIdentity.Worker w) id) ≫= f).
Proof. simpl require_identity. case_bool_decide; [by auto|done]. Qed.

Lemma chl_identity {B} G w id (f : unit -> apiio B) db :
  (w = id -> chl api_sem step G (f tt) (fun _ _ => True) db) ->
  chl api_sem step G (ret_result (require_identity (WorkerIdentity.Worker w) id) ≫= f)
    (fun _ _ => True) db.
Proof. simpl require_identity. case_bool_decide; [by auto|by intros _ ??]. Qed.

Ltac confine_call := intros ??; first [by left|apply register_confined|apply heartbeat_confined].

Lemma register_handler_confined w payload db :
  identity = Some (WorkerIdentity.Worker w) ->
  chl api_sem step (confined w) (register_worker state headers payload) (fun _ _ => True) db.
Proof.
  intros Hi. apply chl_confines. unfold register_worker. rewrite (authorize_worker_identity _ Hi).
  destruct payload as [ad|rejection]; [|done].
  do 2 apply all_calls_ok. apply calls_identity. intros ->. api_calls confine_call.
Qed.

Lemma heartbeat_handler_confined w id payload db :
  identity = Some (WorkerIdentity.Worker w) ->
  chl api_sem step (confined w) (heartbeat_worker state id headers payload) (fun _ _ => True) db.
Proof.
  intros Hi. apply chl_confines. unfold heartbeat_worker. rewrite (authorize_worker_identity _ Hi).
  destruct payload as [ad|rejection]; [|done]. do 2 apply all_calls_ok. apply calls_identity.
  intros ->. api_calls confine_call.
Qed.

(** Rules for runs of which only the guard matters. *)
Local Notation kept w p db := (chl api_sem step (confined w) p (fun _ _ => True) db).

Lemma kept_ret {A} w (a : A) db : kept w (Ret a) db.
Proof. by intros s1 _. Qed.

Lemma kept_store {A B} w (op : Clock -> Op A) (f : A -> apiio B) db :
  (forall s1 r s2, rtc step db s1 -> api_sem _ (Store op) s1 r s2 ->
     confined w s1 s2 /\ forall a, r = Ok a -> kept w (f a) s2) ->
  kept w (store op ≫= f) db.
Proof.
  intros Hs. apply chl_io_bind. intros s1 H1 r s2 Hr. destruct (Hs s1 r s2 H1 Hr) as [Hc Hk].
  split; [done|]. intros s3 H3. destruct r as [a|e]; simpl; [|done]. eapply chl_env; [exact H3|]. by apply Hk.
Qed.

Lemma kept_store_result {A B} w (op : Clock -> Op A) (f : result StoreError A -> apiio B) db :
  (forall s1 r s2, rtc step db s1 -> api_sem _ (Store op) s1 r s2 -> confined w s1 s2 /\ kept w (f r) s2) ->
  kept w (store_result op ≫= f) db.
Proof.
  intros Hs. apply chl_io_bind. intros s1 H1 r s2 Hr. destruct (Hs s1 r s2 H1 Hr) as [Hc Hk].
  split; [done|]. intros s3 H3. by eapply chl_env.
Qed.

(** Reading an authority. *)
Lemma get_authority_sem id s1 r s2 :
  api_sem _ (Store (fun _ => get_authority id)) s1 r s2 ->
  s2 = s1 /\ forall c, r = Ok c -> cleanup_authorities s1 !! id = Some c.
Proof.
  intros (now & [Hr|[[m ->] Hs]]).
  - injection Hr as <- <-. split; [done|]. by intros c ?%ok_or_Ok.
  - split; [by destruct Hs|done].
Qed.

(** The worker of an authority is the same at the read and at the write. *)
Lemma cleanup_handler_confined w id db :
  identity = Some (WorkerIdentity.Worker w) -> kept w (request_cleanup state id headers) db.
Proof.
  intros Hi. unfold request_cleanup. rewrite (authorize_caller_identity _ Hi).
  destruct (AppState.cleanup_authorities state); [|apply kept_ret].
  apply chl_result; [done|]. intros caller [= <-]. apply chl_result; [done|]. intros [] _.
  apply kept_store. intros s0 r s1 _ [-> Hr]%get_authority_sem. split; [by left|]. intros c ->.
  specialize (Hr c eq_refl). apply chl_identity. intros ->. apply chl_result; [done|]. intros d _.
  destruct d; try apply kept_ret.
  apply kept_store_result. intros s1 r s2 H1 Hs.
  destruct (steps_authorities _ _ _ _ H1 Hr) as (c' & Hc' & _ & _ & Hw & _). rewrite <- Hw. split.
  - destruct Hs as (now & [Hr'|[_ [-> | ->]]]);
      pose proof (cleanup_transition_confined now id (CleanupAuthority.handles c) s1 c' Hc') as Ht;
      [by rewrite Hr' in Ht|by left|done].
  - destruct r as [[]|e]; [apply kept_ret|].
    apply kept_store. intros s3 r3 s4 _ [-> _]%get_authority_sem. split; [by left|].
    intros c3 _. apply chl_result; [done|]. intros d3 _. destruct (before_cleanup d3); apply kept_ret.
Qed.

Lemma kept_bind {A B} w (m : apiio A) (f : A -> apiio B) db :
  kept w m db -> (forall a db, kept w (f a) db) -> kept w (m ≫= f) db.
Proof. intros Hm Hf. apply chl_io_bind. eapply chl_mono; [exact Hm|]. intros [a|e] s' _; [apply Hf|done]. Qed.

Lemma handle_confined w route db :
  identity = Some (WorkerIdentity.Worker w) -> kept w (handle rfc3339 state headers route) db.
Proof.
  intros Hi. destruct (worker_route route) eqn:Hr.
  - destruct route; try done; (apply kept_bind; [|intros; apply kept_ret]).
    + by apply register_handler_confined.
    + by apply heartbeat_handler_confined.
    + by apply cleanup_handler_confined.
  - destruct (handle_denied route (or_introl Hr)) as (e & -> & _). apply kept_ret.
Qed.
End Confined.

(** C27: A worker's token reaches that worker only.  Let the controller run with
    the per-worker tokens of an accepted digest file, and take any request that
    does not carry the API token, on any interleaving with other operations of
    the stores.  If no line of the file has the digest of the presented token,
    the request is answered 401 and changes nothing.  Otherwise exactly one
    worker has it, and every change the request makes is to the registration of
    that worker, or starts the teardown of an execution that worker retains. *)
Theorem request_confined `{Collation} (sha256 : string -> list Z) (rfc3339 : Timestamp -> string)
    (text : string) (tokens : PerWorkerTokens) (config : ServerConfig) (headers : HeaderMap)
    (route : Route) (db db' : Database) tr r :
  PerWorkerTokens.parse text = Ok tokens ->
  bearer_token headers <> Some (ServerConfig.api_token config) ->
  let state := serve_state sha256 config (WorkerAuth.PerWorker tokens) in
  exec api_sem step (handle rfc3339 state headers route) db tr r db' ->
  ((forall token w, bearer_token headers = Some token ->
      (w, sha256 token) ∉ PerWorkerTokens.entries tokens) /\
   tr = [] /\ (forall a, r = Some a -> exists e, a = Err e /\ ApiError.status e = 401)) \/
  (exists token w, bearer_token headers = Some token /\
     (forall w', (w', sha256 token) ∈ PerWorkerTokens.entries tokens <-> w' = w) /\
     Forall (fun x => confined w x.1 x.2) tr).
Proof.
  intros Hp Hapi state He.
  assert (authorize_bearer headers (AppState.api_token_validator state) = false) as Hna.
  { unfold authorize_bearer. destruct (bearer_token headers) as [token|]; [|done]. simpl.
    rewrite static_validate_spec. apply bool_decide_eq_false. congruence. }
  destruct (identity state headers) as [i|] eqn:Hi.
  - right. pose proof Hi as Hi'. unfold identity in Hi'. destruct (bearer_token headers) as [token|] eqn:Ht; [|done].
    change (PerWorkerTokens.identify sha256 tokens token = Some i) in Hi'.
    pose proof (identify_spec sha256 text tokens token Hp) as Hs. rewrite Hi' in Hs.
    destruct Hs as (w & -> & Hw). exists token, w. split_and!; [done|done|].
    apply (chl_exec api_sem step (confined w) _ (fun _ _ => True) _ _ _ _ He). by apply handle_confined.
  - left. split.
    + intros token w Ht. pose proof (identify_spec sha256 text tokens token Hp) as Hs.
      unfold identity in Hi. rewrite Ht in Hi. change (PerWorkerTokens.identify sha256 tokens token = None) in Hi.
      rewrite Hi in Hs. apply Hs.
    + destruct (handle_denied rfc3339 state headers Hna route (or_intror Hi)) as (e & Hh & Hs).
      rewrite Hh in He. apply exec_ret_inv in He as [-> Hr]. split; [done|].
      intros a ->%Hr. eauto.
Qed.

(** ** One controller, alone *)
Definition alone (now : Clock) (B : Type) (c : api_call B) (db : Database) : B * Database :=
  match c in api_call B return B * Database with
  | Store op => op now db
  | ListArtifacts _ => (Ok [], db)
  | UtcNow => (utc_now now, db)
  | Publish _ => (tt, db)
  | Receive => (TimedOut, db)
  end.

Lemma alone_sem now B (c : api_call B) db : api_sem B c db (alone now B c db).1 (alone now B c db).2.
Proof. destruct c; simpl; [|done..]. exists now. left. apply surjective_pairing. Qed.

Definition example_sha256 (presented : string) : list Z :=
  if bool_decide (presented = "token-one"%string) then repeat 171 32 else repeat 0 32.

Definition example_tokens_text : string :=
  "# issued" +:+ String "010" ("w-1 " +:+ Strings.String.concat "" (repeat "aB"%string 32) +:+ String "010" "").

Definition example_config : ServerConfig := {|
  ServerConfig.api_token := "api"; ServerConfig.worker_token := None;
  ServerConfig.worker_tokens_file := Some "/etc/tokens"%string;
  ServerConfig.allow_shared_worker_token := false |}.

Definition bearer (token : string) : HeaderMap := fun name =>
  if bool_decide (name = "authorization"%string) then Some (Some ("Bearer " +:+ token)) else None.

Definition example_tokens : PerWorkerTokens :=
  {| PerWorkerTokens.entries := [("w-1"%string, repeat 171 32)] |}.

Definition example_post : Route := PostWorkers (Ok {|
  WorkerAdvertisement.id := "w-1";
  WorkerAdvertisement.capabilities := WorkerRegistration.capabilities example_registration;
  WorkerAdvertisement.capability_proof := WorkerRegistration.capability_proof example_registration |}).

Definition example_request : apiio Answer :=
  handle (fun _ => EmptyString) (serve_state example_sha256 example_config (WorkerAuth.PerWorker example_tokens))
    (bearer "token-one") example_post.

Definition example_routed : apiio (string + Answer) :=
  router (fun _ => EmptyString) (serve_state example_sha256 example_config (WorkerAuth.PerWorker example_tokens))
    (bearer "token-one") (Nested example_post).

Lemma controller_keeps_reachable_witness :
  exists tr r db', exec api_sem step example_routed empty_database tr r db' /\
    is_Some (workers db' !! "w-1"%string) /\ reachable db'.
Proof.
  set (now := {| utc_now := 5; pg_now := 6 |}).
  destruct (run_exec (alone now) api_sem step example_routed empty_database (alone_sem now)) as [tr Htr].
  eexists tr, _, _. split; [exact Htr|]. split; [eexists; vm_compute; reflexivity|].
  apply (controller_keeps_reachable _ _ _ _ tr _ (serves _ _ _ _) (rtc_refl _ _) Htr).
Defined.

(** The worker of the file registers; the registration is stored and nothing
    else changes. *)
Lemma request_confined_witness :
  let now := {| utc_now := 5; pg_now := 6 |} in
  let '(r, db') := run (alone now) example_request empty_database in
  is_ok r = true /\ is_Some (workers db' !! "w-1"%string) /\
  exists tr, exec api_sem step example_request empty_database tr (Some r) db' /\
    Forall (fun x => confined "w-1" x.1 x.2) tr.
Proof.
  intros now. destruct (run (alone now) example_request empty_database) as [r db'] eqn:Hrun.
  destruct (run_exec (alone now) api_sem step example_request empty_database (alone_sem now)) as [tr Htr].
  rewrite Hrun in Htr. split_and!.
  - revert Hrun. vm_compute. by intros [= <- <-].
  - revert Hrun. vm_compute. intros [= <- <-]. eexists. reflexivity.
  - exists tr. split; [done|].
    destruct (request_confined example_sha256 (fun _ => EmptyString) example_tokens_text example_tokens example_config
      (bearer "token-one") example_post empty_database db' tr (Some r)) as [(Hn & _)|(token & w & Ht & Hw & Hf)].
    + vm_compute. reflexivity.
    + vm_compute. discriminate.
    + exact Htr.
    + exfalso. apply (Hn "token-one"%string "w-1"%string); [vm_compute; reflexivity|]. apply list_elem_of_singleton. reflexivity.
    + injection Ht as <-. assert ("w-1"%string = w) as -> by (apply Hw, list_elem_of_singleton; reflexivity). exact Hf.
Defined.
