(* ===== verification/ApiStream.v ===== *)
(** * The event stream of an execution

    Models [next_event] of [crates/orchestrator-api/src/events.rs]: the state
    machine behind [GET /executions/{id}/events], which replays the durable log
    from the client's cursor and then follows it, woken by the broadcast channel
    or a timeout.

    The loop of [next_event] has no bound of its own (it waits for the next
    event), so it takes fuel; [next_event_delivers] shows that three turns are
    enough whenever there is an event to deliver. *)

From S2P Require Import Prelude Core WorkerTypes Scheduler Database EventLog CleanupStore WorkerStore ExecutionStore Controls Reservations Steps EventHistory Effects ResourceRecord ApiAuth ApiIds Api ApiSafety.















(** One turn of the loop. *)
Inductive turn :=
| Deliver (event : ExecutionEvent) (state : StreamState)
| Ended
| Again (state : StreamState).

Definition with_pending (pending : list ExecutionEvent) (needs_fetch : bool) (state : StreamState) :
    StreamState := {|
  StreamState.execution_id := StreamState.execution_id state;
  StreamState.cursor := StreamState.cursor state;
  StreamState.pending := pending;
  StreamState.needs_fetch := needs_fetch |}.

Definition advanced (cursor : Z) (state : StreamState) : StreamState := {|
  StreamState.execution_id := StreamState.execution_id state;
  StreamState.cursor := cursor;
  StreamState.pending := StreamState.pending state;
  StreamState.needs_fetch := StreamState.needs_fetch state |}.

Definition next_turn (state : StreamState) : proc api_call turn :=
  match StreamState.pending state with
  | event :: pending =>
      let state := with_pending pending (StreamState.needs_fetch state) state in
      if ExecutionEvent.sequence event <=? StreamState.cursor state then Ret (Again state)
      else Ret (Deliver event (advanced (ExecutionEvent.sequence event) state))
  | [] =>
      if StreamState.needs_fetch state then
        Req (Store (fetch (StreamState.execution_id state) (StreamState.cursor state))) (fun r =>
          match r with
          | Ok events => Ret (Again (with_pending events
                           (Z.of_nat (length events) =? EVENT_BATCH_SIZE) state))
          | Err _ => Ret Ended
          end)
      else
        Req Receive (fun received =>
          match received with
          | Closed => Ret Ended
          | TimedOut | Notified | Lagged => Ret (Again (with_pending [] true state))
          end)
  end.

(** [None] when the fuel runs out, [Some None] when the stream ends. *)
Fixpoint next_event (fuel : nat) (state : StreamState) :
    proc api_call (option (option (ExecutionEvent * StreamState))) :=
  match fuel with
  | O => Ret None
  | S fuel =>
      t ← next_turn state;
      match t with
      | Deliver event state => Ret (Some (Some (event, state)))
      | Ended => Ret (Some None)
      | Again state => next_event fuel state
      end
  end.

(** [stream::unfold]: the events a client has received after [n] calls. *)
Fixpoint deliver (n fuel : nat) (state : StreamState) : proc api_call (list ExecutionEvent) :=
  match n with
  | O => Ret []
  | S n =>
      r ← next_event fuel state;
      match r with
      | Some (Some (event, state)) => rest ← deliver n fuel state; Ret (event :: rest)
      | _ => Ret []
      end
  end.

(** A client that subscribes and reads on. *)
Definition subscribe (n fuel : nat) (app : AppState) (id : string) (query : result unit (option Z))
    (headers : HeaderMap) : apiio (Z * list ExecutionEvent) :=
  stream ← events app id query headers;
  delivered ← (@mbind (proc api_call) _ _ _ (fun es => Ret (Ok es)) (deliver n fuel stream) : apiio _);
  mret (StreamState.cursor stream, delivered).

(** ** The stream against the log *)
Abbreviation log_of id db := (events_of id (execution_events db)).

(** What is pending is what follows the cursor in the log. *)
Record stream_ok (state : StreamState) (db : Database) : Prop := {
  so_log : log_ok db;
  so_cursor : 0 <= StreamState.cursor state;
  so_pending : StreamState.pending state = take (length (StreamState.pending state))
    (drop (Z.to_nat (StreamState.cursor state)) (log_of (StreamState.execution_id state) db))
}.

Lemma since_batch_after db id after :
  log_ok db -> 0 <= after ->
  since_batch id after EVENT_BATCH_SIZE db =
    if decide (after <= i64_max) then Ok (take 128 (drop (Z.to_nat after) (log_of id db)))
    else Err (StoreError.Conflict "event cursor exceeds PostgreSQL BIGINT").
Proof.
  intros Hok Ha. unfold since_batch. case_decide as Hd.
  - rewrite (proj2 (try_from_Some _ _ after after)) by (unfold i64_max in *; lia).
    simpl. by rewrite sort_after.
  - unfold try_from. rewrite (proj2 (Z.leb_gt after i64_max)) by lia. by rewrite andb_false_r.
Qed.

(** A reading of the log stays one as the log grows. *)
Lemma take_grows {A} (k c : nat) (l new : list A) :
  length (take k (drop c l)) = k -> take k (drop c (l ++ new)) = take k (drop c l).
Proof.
  intros Hk. rewrite length_take in Hk. rewrite drop_app, take_app_le; [done|]. lia.
Qed.

Lemma stream_ok_steps `{Collation} state db db' :
  rtc step db db' -> stream_ok state db -> stream_ok state db'.
Proof.
  intros Hs [Hl Hc Hp]. destruct (steps_log _ _ Hs) as [[new Hn] Hok]. split; [auto|done|].
  rewrite Hn, events_of_app, take_grows; [done|]. by rewrite <- Hp.
Qed.

(** The number of the first event after the cursor. *)
Lemma log_sequence db id k e : log_ok db -> log_of id db !! k = Some e -> ExecutionEvent.sequence e = Z.of_nat k + 1.
Proof.
  intros Hok Hk. pose proof (Hok id) as Hg. unfold gapless in Hg.
  assert (List.map ExecutionEvent.sequence (log_of id db) !! k = Some (ExecutionEvent.sequence e)) as H
    by (rewrite list_lookup_fmap, Hk; done).
  rewrite Hg in H. apply lookup_seqZ in H. lia.
Qed.

Lemma stream_ok_pop state db event pending :
  stream_ok state db -> StreamState.pending state = event :: pending ->
  ExecutionEvent.sequence event = StreamState.cursor state + 1 /\
  log_of (StreamState.execution_id state) db !! Z.to_nat (StreamState.cursor state) = Some event /\
  stream_ok (advanced (ExecutionEvent.sequence event)
    (with_pending pending (StreamState.needs_fetch state) state)) db.
Proof.
  intros [Hl Hc Hp] He. rewrite He in Hp. simpl in Hp.
  assert (log_of (StreamState.execution_id state) db !! Z.to_nat (StreamState.cursor state) = Some event) as Hn.
  { destruct (log_of _ db !! _) as [x|] eqn:Hx.
    - rewrite (drop_S _ _ _ Hx) in Hp. by injection Hp as ->.
    - rewrite drop_ge in Hp by by apply lookup_ge_None. done. }
  pose proof (log_sequence _ _ _ _ Hl Hn) as Hs. split_and!; [lia|done|]. split; simpl; [done|lia|].
  replace (Z.to_nat (ExecutionEvent.sequence event)) with (S (Z.to_nat (StreamState.cursor state))) by lia.
  rewrite (drop_S _ _ _ Hn) in Hp. by injection Hp.
Qed.

(** ** Turns *)
Section Turns.
Context `{Collation}.

(** The stream writes nothing. *)
Definition unchanged (db db' : Database) : Prop := db' = db.

Local Notation reading p Q db := (chl api_sem step unchanged p Q db).

Lemma reading_ret {A} (a : A) (Q : A -> Database -> Prop) db :
  (forall db', rtc step db db' -> Q a db') -> reading (Ret a) Q db.
Proof. done. Qed.

(** [event] is the one after the cursor of [state], [state'] what is left. *)
Definition delivered (state : StreamState) (event : ExecutionEvent) (state' : StreamState)
    (db : Database) : Prop :=
  stream_ok state' db /\
  StreamState.execution_id state' = StreamState.execution_id state /\
  StreamState.cursor state' = StreamState.cursor state + 1 /\
  log_of (StreamState.execution_id state) db !! Z.to_nat (StreamState.cursor state) = Some event.

Lemma fetch_sem id cursor db r db' :
  api_sem _ (Store (fetch id cursor)) db r db' ->
  db' = db /\ forall es, r = Ok es -> since_batch id cursor EVENT_BATCH_SIZE db = Ok es.
Proof.
  intros (now & [Hr|[[m ->] Hs]]).
  - injection Hr as <- <-. by split.
  - split; [by destruct Hs|done].
Qed.

Lemma stream_ok_fetched state db es b :
  stream_ok state db ->
  since_batch (StreamState.execution_id state) (StreamState.cursor state) EVENT_BATCH_SIZE db = Ok es ->
  stream_ok (with_pending es b state) db.
Proof.
  intros [Hl Hc _]. rewrite since_batch_after by done. case_decide; [|done]. intros [= <-].
  split; simpl; [done..|]. rewrite length_take, length_drop.
  generalize (log_of (StreamState.execution_id state) db) as l. generalize (Z.to_nat (StreamState.cursor state)) as c.
  intros c l. rewrite <- (length_drop l c). generalize (drop c l) as m. clear. intros m.
  destruct (Nat.min_spec 128 (length m)) as [[_ ->]|[? ->]]; [done|]. by rewrite firstn_all, take_ge.
Qed.

Lemma next_turn_reads state db :
  stream_ok state db ->
  reading (next_turn state) (fun t db' => match t with
    | Deliver event state' => delivered state event state' db'
    | Ended => True
    | Again state' => stream_ok state' db' /\
        StreamState.execution_id state' = StreamState.execution_id state /\
        StreamState.cursor state' = StreamState.cursor state
    end) db.
Proof.
  intros Hok. unfold next_turn. destruct (StreamState.pending state) as [|event pending] eqn:Hp.
  - destruct (StreamState.needs_fetch state).
    + intros s1 H1 r s2 [-> Hr]%fetch_sem. split; [done|]. apply (stream_ok_steps _ _ _ H1) in Hok.
      destruct r as [es|e]; intros s3 H3; [|done]. split_and!; [|done..].
      eapply stream_ok_steps; [exact H3|]. by apply stream_ok_fetched; [|apply Hr].
    + intros s1 H1 r s2 ->. split; [done|]. destruct r; intros s3 H3; [..|done]; (split_and!; [|done..]).
      all: assert (rtc step db s3) as H13 by (by etrans); apply (stream_ok_steps _ _ _ H13) in Hok as [? ? _]; by split.
  - destruct (stream_ok_pop _ _ _ _ Hok Hp) as (Hs & _ & _). simpl.
    rewrite (proj2 (Z.leb_gt _ _)) by (rewrite Hs; lia).
    intros s1 H1. apply (stream_ok_steps _ _ _ H1) in Hok.
    destruct (stream_ok_pop _ _ _ _ Hok Hp) as (_ & Hl & Ha). by split_and!.
Qed.

Lemma next_event_reads fuel state db :
  stream_ok state db ->
  reading (next_event fuel state) (fun r db' => forall event state',
    r = Some (Some (event, state')) -> delivered state event state' db') db.
Proof.
  revert state db. induction fuel as [|fuel IH]; intros state db Hok; [by intros s1 _|].
  cbn [next_event]. apply chl_bind. eapply chl_mono; [by apply next_turn_reads|].
  intros [event state'| |state'] s1 Ht.
  - intros s2 H2 ? ? [= <- <-]. destruct Ht as (Ho & Hi & Hc & Hl). split_and!; [|done..|].
    + by eapply stream_ok_steps.
    + destruct (steps_log _ _ H2) as [[new Hn] _]. rewrite Hn, events_of_app. by apply lookup_app_l_Some.
  - by intros s2 _.
  - destruct Ht as (Ho & Hi & Hc). eapply chl_mono; [by apply IH|]. intros r s2 Hr event state'' Heq.
    specialize (Hr _ _ Heq). unfold delivered in *. by rewrite Hi, Hc in Hr.
Qed.

Lemma deliver_reads n fuel state db :
  stream_ok state db ->
  reading (deliver n fuel state) (fun es db' => es = take (length es)
    (drop (Z.to_nat (StreamState.cursor state)) (log_of (StreamState.execution_id state) db'))) db.
Proof.
  revert state db. induction n as [|n IH]; intros state db Hok; [by intros s1 _|].
  cbn [deliver]. apply chl_bind. eapply chl_mono; [by apply next_event_reads|].
  intros [[[event state']|]|] s1 Hr; [|by intros s2 _..].
  destruct (Hr _ _ eq_refl) as (Ho & Hi & Hc & Hl). apply chl_bind.
  eapply chl_mono; [apply chl_rtc; [|by apply IH]|].
  { intros ? ? ->. done. }
  intros es s2 [Hes H12] s3 H23. assert (rtc step s1 s3) as H13 by by etrans.
  destruct (steps_log _ _ H13) as [[new Hn] _]. destruct (steps_log _ _ H23) as [[new' Hn'] _].
  assert (log_of (StreamState.execution_id state) s3 !! Z.to_nat (StreamState.cursor state) = Some event) as Hl3.
  { rewrite Hn, events_of_app. by apply lookup_app_l_Some. }
  rewrite (drop_S _ _ _ Hl3). simpl. f_equal. rewrite Hi, Hc in Hes.
  replace (Z.to_nat (StreamState.cursor state + 1)) with (S (Z.to_nat (StreamState.cursor state))) in Hes
    by (destruct Hok; lia).
  rewrite Hn', events_of_app, take_grows; [done|]. by rewrite <- Hes.
Qed.

(** ** Subscribing *)
Lemma reading_store {A B} (op : Clock -> Op A) (f : A -> apiio B) Q db :
  reads op -> (forall e db', Q (Err e) db') ->
  (forall s1 now a, rtc step db s1 -> op now s1 = (Ok a, s1) -> reading (f a) Q s1) ->
  reading (store op ≫= f) Q db.
Proof.
  intros Hop He Hf. apply chl_io_bind. intros s1 H1 r s2 (now & Hr).
  assert (s2 = s1) as ->.
  { destruct Hr as [Hr|[_ [-> | ->]]]; [|done|apply Hop]. rewrite <- (Hop now s1), Hr. done. }
  split; [done|]. intros s3 H3. destruct r as [a|e]; simpl; [|auto].
  destruct Hr as [Hr|[[m Hr] _]]; [|done]. eapply chl_env; [exact H3|]. by eapply Hf.
Qed.

Lemma parse_u64_nonneg s z : parse_u64 s = Some z -> 0 <= z.
Proof. unfold parse_u64, parse_uint. repeat case_match; try done; intros [-> ?]%try_from_Some; lia. Qed.

(** The cursor the client asked for. *)
Definition requested_cursor (headers : HeaderMap) (query : option Z) : option Z :=
  match headers "last-event-id"%string with
  | Some value => value ≫= parse_u64
  | None => Some (default 0 query)
  end.

Lemma events_reads app id query headers db :
  log_ok db -> (forall c, query = Ok (Some c) -> 0 <= c) ->
  reading (events app id query headers) (fun r db' => forall state, r = Ok state ->
    stream_ok state db' /\ StreamState.execution_id state = id /\
    exists q, query = Ok q /\ requested_cursor headers q = Some (StreamState.cursor state)) db.
Proof.
  intros Hlog Hq. unfold events. apply chl_result; [done|]. intros [] _.
  apply chl_result; [done|]. intros q Hqq. destruct query as [q'|]; [|done]. injection Hqq as ->.
  apply reading_store; [done..|]. intros s1 _ _ H1 _.
  assert (forall (cursor : Z), 0 <= cursor -> requested_cursor headers q = Some cursor ->
    reading (_ ← guard_or (cursor <=? i64_max) (ApiError.validation "event cursor exceeds the supported range");
       pending ← store (fetch id cursor);
       mret {| StreamState.execution_id := id; StreamState.cursor := cursor; StreamState.pending := pending;
               StreamState.needs_fetch := Z.of_nat (length pending) =? EVENT_BATCH_SIZE |})
      (fun r db' => forall state, r = Ok state -> stream_ok state db' /\ StreamState.execution_id state = id /\
         exists q', Ok q = (Ok q' : result unit _) /\ requested_cursor headers q' = Some (StreamState.cursor state)) s1) as Hgo.
  { intros cursor Hc Hr. apply chl_result; [done|]. intros [] _.
    apply reading_store; [done..|]. intros s2 now es H2 Hes s3 H3 state [= <-]. split_and!; [|done|eauto].
    assert (rtc step db s2) as H02 by by etrans. eapply stream_ok_steps; [exact H3|].
    eapply (stream_ok_fetched {| StreamState.execution_id := id; StreamState.cursor := cursor;
      StreamState.pending := []; StreamState.needs_fetch := false |}); [|by injection Hes].
    split; [|done..]. by apply (steps_log _ _ H02). }
  destruct (headers "last-event-id"%string) as [value|] eqn:Hh.
  - destruct (value ≫= parse_u64) as [v|] eqn:Hv; [|by intros s2 _].
    apply (Hgo v); [|unfold requested_cursor; by rewrite Hh].
    destruct value as [value|]; [by eapply parse_u64_nonneg|done].
  - apply (Hgo (default 0 q)); [destruct q; simpl; [by apply Hq|done]|]. unfold requested_cursor. by rewrite Hh.
Qed.

Lemma subscribe_reads n fuel app id query headers db :
  log_ok db -> (forall c, query = Ok (Some c) -> 0 <= c) ->
  reading (subscribe n fuel app id query headers) (fun r db' => forall cursor es, r = Ok (cursor, es) ->
    (exists q, query = Ok q /\ requested_cursor headers q = Some cursor) /\
    es = take (length es) (drop (Z.to_nat cursor) (log_of id db'))) db.
Proof.
  intros Hlog Hq. unfold subscribe. apply chl_io_bind. eapply chl_mono; [by apply events_reads|].
  intros [state|e] s1 Hs; [|by intros s2 _]. destruct (Hs _ eq_refl) as (Hok & Hid & Hc).
  apply chl_io_bind, chl_bind. eapply chl_mono; [by apply deliver_reads|].
  intros es s2 Hes s3 H23 s4 H34 cursor es' [= <- <-]. split; [done|].
  assert (rtc step s2 s4) as H24 by by etrans. destruct (steps_log _ _ H24) as [[new Hn] _].
  rewrite Hn, events_of_app, <- Hid, take_grows; [done|]. by rewrite <- Hes.
Qed.
End Turns.

(** C28: A subscriber sees every event once, in order.  Whoever reads the event
    stream of an execution, on any interleaving with the operations of the
    stores and whatever calls fail, has received exactly the events that follow
    the cursor it asked for in the execution's history: the first [n] of them,
    in order, none missing and none twice. *)
Theorem stream_exactly_once `{Collation} (n fuel : nat) (app : AppState) (id : string)
    (query : result unit (option Z)) (headers : HeaderMap) (db db' : Database) tr
    (cursor : Z) (es : list ExecutionEvent) :
  reachable db -> (forall c, query = Ok (Some c) -> 0 <= c) ->
  exec api_sem step (subscribe n fuel app id query headers) db tr (Some (Ok (cursor, es))) db' ->
  (exists q, query = Ok q /\ requested_cursor headers q = Some cursor) /\
  es = take (length es) (drop (Z.to_nat cursor) (events_of id (execution_events db'))).
Proof.
  intros Hr Hq He. assert (log_ok db) as Hlog by (apply (steps_log _ _ Hr), empty_log_ok).
  destruct (chl_exec api_sem step unchanged _ _ _ _ _ _ He (subscribe_reads n fuel app id query headers db Hlog Hq))
    as [_ HQ]. by apply (HQ _ eq_refl).
Qed.

(** ** Progress *)

(** The stores answer and the channel is open. *)
Definition live_sem (B : Type) (c : api_call B) (db : Database) : B -> Database -> Prop :=
  match c in api_call B return B -> Database -> Prop with
  | Store op => fun r db' => exists now, op now db = (r, db')
  | Receive => fun received db' => received <> Closed /\ db' = db
  | _ => fun _ db' => db' = db
  end.

Lemma live_api B (c : api_call B) db b db' : live_sem B c db b db' -> api_sem B c db b db'.
Proof. destruct c; simpl; [|done..|by intros []]. intros [now Hr]. exists now. by left. Qed.

Section Progress.
Context `{Collation}.
Local Notation live p Q db := (chl live_sem step unchanged p Q db).

(** Turns left until the event at the cursor is delivered. *)
Definition turns_left (state : StreamState) : nat :=
  match StreamState.pending state with
  | _ :: _ => 1
  | [] => if StreamState.needs_fetch state then 2 else 3
  end.

(** An event after the cursor stays there. *)
Lemma next_stays id k e db db' : rtc step db db' -> log_of id db !! k = Some e -> log_of id db' !! k = Some e.
Proof.
  intros H1 Hk. destruct (steps_log _ _ H1) as [[new Hn] _]. rewrite Hn, events_of_app. by apply lookup_app_l_Some.
Qed.

Lemma turn_progress state db e :
  stream_ok state db -> StreamState.cursor state <= i64_max ->
  log_of (StreamState.execution_id state) db !! Z.to_nat (StreamState.cursor state) = Some e ->
  live (next_turn state) (fun t db' => match t with
    | Deliver event _ => event = e
    | Ended => False
    | Again state' => (turns_left state' < turns_left state)%nat /\ stream_ok state' db' /\
        StreamState.execution_id state' = StreamState.execution_id state /\
        StreamState.cursor state' = StreamState.cursor state /\
        log_of (StreamState.execution_id state) db' !! Z.to_nat (StreamState.cursor state) = Some e
    end) db.
Proof.
  intros Hok Hc He. unfold next_turn, turns_left. destruct (StreamState.pending state) as [|event pending] eqn:Hp.
  - destruct (StreamState.needs_fetch state).
    + intros s1 H1 r s2 [now Hr]. injection Hr as <- <-. split; [done|].
      apply (stream_ok_steps _ _ _ H1) in Hok. apply (next_stays _ _ _ _ _ H1) in He.
      pose proof (since_batch_after s1 (StreamState.execution_id state) (StreamState.cursor state)
        (so_log _ _ Hok) (so_cursor _ _ Hok)) as Hb.
      rewrite decide_True in Hb by done. rewrite Hb. intros s3 H3.
      rewrite (drop_S _ _ _ He). split_and!; [simpl; lia| |done|done|by eapply next_stays].
      eapply stream_ok_steps; [exact H3|]. apply stream_ok_fetched; [done|].
      by rewrite Hb, (drop_S _ _ _ He).
    + intros s1 H1 r s2 [Hr ->]. split; [done|].
      assert (forall s3, rtc step s1 s3 -> stream_ok (with_pending [] true state) s3) as Hk.
      { intros s3 H3. assert (rtc step db s3) as H13 by by etrans.
        apply (stream_ok_steps _ _ _ H13) in Hok as [? ? _]. by split. }
      destruct r; [..|done]; intros s3 H3; (split_and!; [simpl; lia|auto|done|done|]);
        (eapply next_stays; [exact H3|]; by eapply next_stays).
  - destruct (stream_ok_pop _ _ _ _ Hok Hp) as (Hs & Hl & _). simpl.
    rewrite (proj2 (Z.leb_gt _ _)) by (rewrite Hs; lia). intros s1 _. congruence.
Qed.

Lemma next_event_progress fuel state db e :
  (turns_left state <= fuel)%nat ->
  stream_ok state db -> StreamState.cursor state <= i64_max ->
  log_of (StreamState.execution_id state) db !! Z.to_nat (StreamState.cursor state) = Some e ->
  live (next_event fuel state) (fun r _ => exists state', r = Some (Some (e, state'))) db.
Proof.
  revert state db. induction fuel as [|fuel IH]; intros state db Hf Hok Hc He.
  { unfold turns_left in Hf. repeat case_match; lia. }
  cbn [next_event]. apply chl_bind. eapply chl_mono; [by apply turn_progress|].
  intros [event state'| |state'] s1 Ht; [subst; intros s2 _; eauto|done|].
  destruct Ht as (Hlt & Hok' & Hi & Hcur & He'). apply IH; [lia|done|by rewrite Hcur|by rewrite Hi, Hcur].
Qed.
End Progress.

(** The stream waits for nothing that is already there.  While the stores
    answer and the channel is open, a call of [next_event] for an execution that
    has an event after the cursor returns that event within three turns of its
    loop, whatever the channel reports and however the history grows meanwhile. *)
Theorem next_event_delivers `{Collation} (fuel : nat) (state : StreamState) (db db' : Database) tr
    (e : ExecutionEvent) r :
  (3 <= fuel)%nat -> stream_ok state db -> StreamState.cursor state <= i64_max ->
  events_of (StreamState.execution_id state) (execution_events db) !!
    Z.to_nat (StreamState.cursor state) = Some e ->
  exec live_sem step (next_event fuel state) db tr (Some r) db' ->
  exists state', r = Some (Some (e, state')).
Proof.
  intros Hf Hok Hc He Hx.
  assert (turns_left state <= fuel)%nat as Hf' by (unfold turns_left; repeat case_match; lia).
  destruct (chl_exec live_sem step unchanged _ _ _ _ _ _ Hx
    (next_event_progress fuel state db e Hf' Hok Hc He)) as [_ HQ]. by apply (HQ _ eq_refl).
Qed.

(** ** A stream computed *)
Definition example_stream_db : Database :=
  (append (example_event "e-1") (append (example_event "e-1") run_created).2).2.

Lemma example_stream_reachable : reachable example_stream_db.
Proof. do 2 (apply reach_op; [|constructor]). apply run_created_reachable. Qed.

Definition example_stream : StreamState := {|
  StreamState.execution_id := "e-1"; StreamState.cursor := 1; StreamState.pending := [];
  StreamState.needs_fetch := false |}.

Lemma example_stream_ok : stream_ok example_stream example_stream_db.
Proof. split; [|done|done]. apply (steps_log _ _ example_stream_reachable), empty_log_ok. Qed.

Lemma next_event_delivers_witness :
  exists e tr r db' state', ExecutionEvent.sequence e = 2 /\
    exec live_sem step (next_event 3 example_stream) example_stream_db tr (Some r) db' /\
    r = Some (Some (e, state')).
Proof.
  destruct (run_exec (alone {| utc_now := 0; pg_now := 0 |}) live_sem step (next_event 3 example_stream) example_stream_db)
    as [tr Htr].
  { intros B c s0. destruct c; simpl; [|done..]. eexists. apply surjective_pairing. }
  destruct (next_event_delivers 3 example_stream _ _ tr
    (ExecutionEvent.set_sequence 2 (example_event "e-1")) _ ltac:(lia) example_stream_ok ltac:(vm_compute; discriminate)
    ltac:(vm_compute; reflexivity) Htr) as [state' Hs].
  eexists _, tr, _, _, state'. split; [|split; [exact Htr|exact Hs]]. reflexivity.
Defined.

(** A client that has seen event 1 gets events 2 and 3. *)
Lemma stream_exactly_once_witness :
  exists tr es db',
    exec api_sem step (subscribe 2 3 (AppState.new "api" "w") "e-1" (Ok (Some 1)) (bearer "api"))
      example_stream_db tr (Some (Ok (1, es))) db' /\
    List.map ExecutionEvent.sequence es = [2; 3] /\
    es = take 2 (drop 1 (events_of "e-1" (execution_events db'))).
Proof.
  set (p := subscribe 2 3 (AppState.new "api" "w") "e-1" (Ok (Some 1)) (bearer "api")).
  destruct (run_exec (alone run_clock) api_sem step p example_stream_db (alone_sem run_clock)) as [tr Htr].
  set (es := [ExecutionEvent.set_sequence 2 (example_event "e-1"); ExecutionEvent.set_sequence 3 (example_event "e-1")]).
  assert ((run (alone run_clock) p example_stream_db).1 = Ok (1, es)) as Hr by (vm_compute; reflexivity).
  rewrite Hr in Htr. exists tr, es, (run (alone run_clock) p example_stream_db).2.
  split; [exact Htr|]. split; [reflexivity|].
  apply (stream_exactly_once 2 3 (AppState.new "api" "w") "e-1" (Ok (Some 1)) (bearer "api") example_stream_db _ tr 1 es
    example_stream_reachable); [|exact Htr]. intros c [= <-]. lia.
Defined.
