(* ===== verification/ApiCreate.v ===== *)
(** * Retried requests

    Creating an execution twice under one idempotency key, and finalizing a
    cleanup twice, have the effect of doing it once.  A client that gets no
    answer to [POST /executions] asks again with the same key: once the key is
    on record, asking changes nothing and the answer names the execution of the
    key. *)


From S2P Require Import Prelude Core Manifest WorkerTypes Scheduler Database EventLog CleanupStore WorkerStore ExecutionStore Controls Reservations Steps ExecutionHistory Capacity Effects ResourceRecord ApiAuth ApiIds Api ApiSafety.




(** Recorded requests stay. *)
Definition requests_later (db db' : Database) : Prop :=
  forall k r, execution_requests db !! k = Some r -> execution_requests db' !! k = Some r.

#[export] Instance requests_later_preorder : PreOrder requests_later.
Proof. split; [intros db k r|intros db1 db2 db3 H1 H2 k r]; auto. Qed.

Lemma requests_later_frame db db' :
  execution_requests db' = execution_requests db -> requests_later db db'.
Proof. by intros E k r; rewrite E. Qed.

(** What a successful creation leaves, new or replayed. *)
Record create_effect (e : Execution) (k sc : string) (r : IdempotentExecution) (db db' : Database) : Prop := {
  cr_key : str_is_empty k = false /\ Z.of_nat (Strings.String.length k) <= 255;
  cr_cases : (IdempotentExecution.created r = false /\ db' = db) \/
    (IdempotentExecution.created r = true /\ IdempotentExecution.execution r = e /\
     execution_requests db !! k = None);
  cr_request : exists q row, execution_requests db' !! k = Some q /\ RequestRow.request_scope q = sc /\
    executions db' !! RequestRow.execution_id q = Some row /\
    Execution.manifest (ExecutionRow.execution row) = Execution.manifest e
}.

Lemma create_Ok e ev k sc r db db' :
  create_idempotent e ev k sc db = (Ok r, db') -> create_effect e k sc r db db'.
Proof.
  intros Hop%transaction_Ok. unfold create_idempotent in Hop.
  db_inv; simplify_eq; bools; destruct_and?.
  - split; simpl; [split; [done|lia]|by left|].
    eexists _, _. split_and!; [eassumption|done|eassumption|done].
  - split; simpl; [split; [done|lia]|by right|].
    eexists _, _. split_and!; [apply lookup_insert_eq|done|apply lookup_insert_eq|done].
Qed.

Lemma create_requests_later e ev k sc db r db' :
  create_idempotent e ev k sc db = (r, db') -> requests_later db db'.
Proof.
  unfold create_idempotent, transaction. intros Hop.
  match type of Hop with match ?m with _ => _ end = _ => destruct m as [[r' db1]|err] eqn:E end;
    injection Hop as <- <-; [|done].
  db_inv; try done. intros k' q Hq. simpl. rewrite lookup_insert_ne by congruence. done.
Qed.

Ltac request_stmt :=
  first [ intros ? ? ? ?; apply requests_later_frame; db_inv; reflexivity
        | intros ? ? ? ?; apply requests_later_frame; by eapply (recover_loop_frame execution_requests) ].

Lemma step_requests `{Collation} db db' : step db db' -> requests_later db db'.
Proof.
  intros (A & op & r & Hop & Heq). destruct Hop.
  all: try (by eapply create_requests_later).
  all: try (apply requests_later_frame; unfold heartbeat, mark_stale_before in Heq;
            repeat case_match; simplify_eq; reflexivity).
  all: try (apply requests_later_frame; first [by eapply (cleanup_transition_frame execution_requests)
    | by eapply (checkpoint_frame execution_requests) | by eapply (advance_frame execution_requests)
    | by eapply (append_op_frame execution_requests)]).
  all: revert Heq; apply (tx_rel_transaction requests_later); tx_rel_solve request_stmt.
Qed.

Lemma steps_requests `{Collation} db db' : rtc step db db' -> requests_later db db'.
Proof. induction 1 as [|db1 db2 db3 H12 _ IH]; [done|]. etrans; [by apply step_requests|done]. Qed.

(** The event a creation must carry. *)
Definition creation_event_ok (e : Execution) (ev : ExecutionEvent) : Prop :=
  Execution.id e = ExecutionEvent.execution_id ev /\ Execution.state e = ExecutionEvent.state ev /\
  ExecutionEvent.sequence ev = 0.

(** A retried creation creates nothing.  After a creation under an
    idempotency key succeeded, then in that database and in every later one a
    creation under the same key with the same scope and the same manifest
    returns the execution the key stands for, as it is by then, and changes
    nothing; with another scope or another manifest it is refused as an
    idempotency conflict, and changes nothing. *)
Theorem creation_idempotent `{Collation} (e e2 : Execution) (ev ev2 : ExecutionEvent)
    (k sc sc2 : string) (r : IdempotentExecution) (db db' db2 : Database) :
  reachable db -> fresh_execution e -> create_idempotent e ev k sc db = (Ok r, db') ->
  rtc step db' db2 -> creation_event_ok e2 ev2 ->
  (sc2 = sc /\ Execution.manifest e2 = Execution.manifest e ->
   exists q row, execution_requests db2 !! k = Some q /\
     executions db2 !! RequestRow.execution_id q = Some row /\
     create_idempotent e2 ev2 k sc2 db2 =
       (Ok {| IdempotentExecution.execution := ExecutionRow.execution row;
              IdempotentExecution.created := false; IdempotentExecution.event_sequence := None |}, db2)) /\
  (sc2 <> sc \/ Execution.manifest e2 <> Execution.manifest e ->
   create_idempotent e2 ev2 k sc2 db2 =
     (Err (StoreError.IdempotencyConflict "idempotency key was already used for a different request"), db2)).
Proof.
  intros Hr Hf Hop Hs (E1 & E2 & E3).
  assert (Hk : keyed db').
  { apply reachable_keyed. eapply rtc_r; [exact Hr|]. exists _, (create_idempotent e ev k sc), (Ok r).
    split; [by constructor|done]. }
  destruct (create_Ok _ _ _ _ _ _ _ Hop) as [[Hne Hlen] _ (q & row & Hq & Hsc & Hrow & Hm)].
  pose proof (steps_requests _ _ Hs _ _ Hq) as Hq2.
  destruct (rows_later _ _ _ _ Hk Hs Hrow) as (row2 & Hrow2 & Hl).
  assert (Hm2 : Execution.manifest (ExecutionRow.execution row2) = Execution.manifest e).
  { rewrite (rl_manifest _ _ Hl). exact Hm. }
  assert (Hrun : create_idempotent e2 ev2 k sc2 db2 =
    if bool_decide (sc = sc2) && bool_decide (Execution.manifest e = Execution.manifest e2)
    then (Ok {| IdempotentExecution.execution := ExecutionRow.execution row2;
                IdempotentExecution.created := false; IdempotentExecution.event_sequence := None |}, db2)
    else (Err (StoreError.IdempotencyConflict "idempotency key was already used for a different request"), db2)).
  { unfold create_idempotent, transaction, mbind, stm_bind, ensure, lift, check, gets, require, ok_or.
    rewrite Hne, (proj2 (Z.ltb_ge _ _) Hlen), E1, E2, E3, !bool_decide_true by done. simpl.
    rewrite Hq2. simpl. rewrite Hrow2. simpl. rewrite Hsc, Hm2. by destruct (bool_decide (sc = sc2)), (bool_decide (_ = _)). }
  rewrite Hrun. split.
  - intros [-> ->]. exists q, row2. split_and!; [done|done|]. by rewrite !bool_decide_true.
  - intros [?|?]; [rewrite (bool_decide_false (sc = sc2)) by congruence; done|].
    rewrite (bool_decide_false (Execution.manifest e = _)) by congruence. by rewrite andb_false_r.
Qed.

Lemma creation_idempotent_witness :
  exists q row, execution_requests run_resolved !! "key" = Some q /\
    executions run_resolved !! RequestRow.execution_id q = Some row /\
    create_idempotent run_execution (example_event "e-1") "key" "scope" run_resolved =
      (Ok {| IdempotentExecution.execution := ExecutionRow.execution row;
             IdempotentExecution.created := false; IdempotentExecution.event_sequence := None |}, run_resolved).
Proof.
  set (out := (create_idempotent run_execution (example_event "e-1") "key" "scope" empty_database).1).
  vm_compute in out.
  match goal with out := Ok ?r |- _ =>
    refine (proj1 (creation_idempotent run_execution run_execution (example_event "e-1") (example_event "e-1")
      "key" "scope" "scope" r empty_database run_created run_resolved _ _ _ _ _) _) end.
  - apply rtc_refl.
  - apply run_execution_fresh.
  - vm_compute. reflexivity.
  - apply run_created_resolved.
  - done.
  - done.
Defined.

(** * Creating an execution, asked twice

    A client that gets no answer to [POST /executions] asks again with the same
    idempotency key.  Once the key is on record, asking changes nothing and the
    answer names the execution of the key. *)

(** The execution an idempotency key stands for. *)
Definition key_of (key : string) (db : Database) : option ExecutionId :=
  RequestRow.execution_id <$> execution_requests db !! key.

Lemma key_of_steps `{Collation} key id db db' : rtc step db db' -> key_of key db = Some id -> key_of key db' = Some id.
Proof.
  unfold key_of. intros Hs (q & Hq & ->)%fmap_Some. by rewrite (steps_requests _ _ Hs _ _ Hq).
Qed.

(** One creation: the key is on record afterwards; if it was before, nothing
    changes. *)
Lemma create_keyed e ev k sc db o db' :
  keyed db -> create_idempotent e ev k sc db = (Ok o, db') ->
  key_of k db' = Some (Execution.id (IdempotentExecution.execution o)).
Proof.
  intros Hk Hop%transaction_Ok. unfold create_idempotent in Hop. unfold key_of.
  db_inv; simplify_eq; simpl.
  - match goal with H : execution_requests _ !! _ = Some ?r, H' : executions _ !! _ = Some ?row |- _ =>
      rewrite H; simpl; by rewrite (Hk _ _ H') end.
  - by rewrite lookup_insert_eq.
Qed.

Lemma create_replays e ev k sc db id r db' :
  key_of k db = Some id -> create_idempotent e ev k sc db = (r, db') ->
  db' = db /\ forall o, r = Ok o -> IdempotentExecution.created o = false.
Proof.
  unfold key_of. intros (q & Hq & ->)%fmap_Some Hop.
  assert (db' = db) as ->.
  { unfold create_idempotent, transaction in Hop.
    match type of Hop with match ?m with _ => _ end = _ => destruct m as [[r' db1]|err] eqn:E end;
      injection Hop as <- <-; [|done]. db_inv; simplify_eq; done. }
  split; [done|]. intros o ->. destruct (create_Ok _ _ _ _ _ _ _ Hop) as [_ [[? _]|(_ & _ & ?)] _]; [done|congruence].
Qed.

Section Loop.
Context `{Collation} (manifest : ExecutionManifest) (key scope : string).

(** The first request, to an answer. *)
Lemma create_loop_keyed n ordinal db :
  reachable db ->
  chl api_sem step (fun s s1 => s1 = s \/ step s s1) (create_loop manifest key scope n ordinal)
    (fun r db' => forall s e, r = Ok (s, e) -> key_of key db' = Some (Execution.id e)) db.
Proof.
  revert ordinal db. induction n as [|n IH]; intros ordinal db Hr; cbn [create_loop]; [by intros s1 _|].
  destruct (allocate_id manifest ordinal) as [id|e]; [|by intros s1 _].
  intros s0 H0 now s1 Hs1. cbn [api_sem] in Hs1. subst s1. split; [by left|].
  apply (chl_io_bind api_sem step _ (store_result _)). intros s1 H1 r s2 Hs2.
  assert (by_steps (Store (fun _ => create_idempotent (queued_execution id manifest now)
    (created_event id now) key scope))) as Hby by (intros ?; right; constructor; by repeat split).
  split.
  { eapply by_steps_sem; [apply Hby|exact Hs2]. }
  assert (reachable s1) as Hr1 by (unfold reachable; etrans; [exact Hr|]; by etrans).
  destruct r as [o|e].
  - assert (key_of key s2 = Some (Execution.id (IdempotentExecution.execution o))) as Hk.
    { destruct Hs2 as (c & [Hop|[[m ?] _]]); [|done]. eapply create_keyed; [|exact Hop]. by apply reachable_keyed. }
    intros s2' H2. apply (key_of_steps _ _ _ _ H2) in Hk. destruct (IdempotentExecution.event_sequence o).
    + intros s3 H3 [] s4 ->. split; [by left|]. intros s5 H5 s e [= <- <-].
      eapply key_of_steps; [|exact Hk]. by etrans.
    + intros s3 H3 s e [= <- <-]. by eapply key_of_steps.
  - assert (reachable s2) as Hr2.
    { destruct (by_steps_sem _ _ _ _ _ Hby Hs2) as [-> |Hst]; [done|]. unfold reachable. by eapply rtc_r. }
    intros s2' H2. destruct e; try (by intros s3 _). apply IH. unfold reachable. by etrans.
Qed.

(** A later one: the key is on record. *)
Lemma create_loop_replays id n ordinal db :
  reachable db -> key_of key db = Some id ->
  chl api_sem step (fun s s1 => s1 = s) (create_loop manifest key scope n ordinal)
    (fun r _ => forall s e, r = Ok (s, e) -> s = 200 /\ Execution.id e = id) db.
Proof.
  revert ordinal db. induction n as [|n IH]; intros ordinal db Hr Hkey; cbn [create_loop]; [by intros s1 _|].
  destruct (allocate_id manifest ordinal) as [new|e]; [|by intros s1 _].
  intros s0 H0 now s1 Hs1. cbn [api_sem] in Hs1. subst s1. split; [done|].
  apply (chl_io_bind api_sem step _ (store_result _)). intros s1 H1 r s2 Hs2. assert (rtc step db s1) as H01 by by etrans.
  pose proof (key_of_steps _ _ _ _ H01 Hkey) as Hk1.
  assert (reachable s1) as Hr1 by (unfold reachable; by etrans).
  assert (s2 = s1 /\ forall o, r = Ok o -> IdempotentExecution.created o = false /\
    Execution.id (IdempotentExecution.execution o) = id) as [-> Ho].
  { destruct Hs2 as (c & [Hop|[[m ->] [-> | ->]]]); [|done|].
    - destruct (create_replays _ _ _ _ _ _ _ _ Hk1 Hop) as [-> Hc]. split; [done|]. intros o ->. split; [by apply Hc|].
      pose proof (create_keyed _ _ _ _ _ _ _ (reachable_keyed _ Hr1) Hop). congruence.
    - destruct (create_idempotent _ _ _ _ _) as [r2 s2] eqn:Hop.
      by destruct (create_replays _ _ _ _ _ _ _ _ Hk1 Hop) as [-> _]. }
  split; [done|]. intros s2' H2. destruct r as [o|e].
  - destruct (Ho o eq_refl) as [Hc Hid]. rewrite Hc.
    destruct (IdempotentExecution.event_sequence o).
    + intros s3 H3 [] s4 ->. split; [done|]. intros s5 _ s e [= <- <-]. done.
    + intros s3 _ s e [= <- <-]. done.
  - destruct e; try (by intros s3 _). apply IH; [unfold reachable; by etrans|by eapply key_of_steps].
Qed.
End Loop.

Lemma create_checks `{Collation} G Q state headers payload db :
  (forall manifest key, idempotency_key headers = Ok key ->
     chl api_sem step G (create_execution manifest key "create") Q db) ->
  (forall e db', Q (Err e) db') -> chl api_sem step G (create state headers payload) Q db.
Proof.
  intros Hc He. unfold create. do 2 (apply chl_result; [auto|]; intros ? _).
  apply chl_result; [auto|]. intros key Hkey. apply chl_result; [auto|]. intros [] _. by apply Hc.
Qed.

(** C29: Asking twice creates once.  After a [POST /executions] was answered with
    an execution, any later [POST /executions] with the same idempotency key,
    by whomever, with whatever body and whatever happened in between, changes
    nothing itself, and if it is answered with an execution, the status is 200
    and the execution is the one the first request was answered with. *)
Theorem post_answers_once `{Collation} (rfc3339 : Timestamp -> string) (state : AppState)
    (headers headers2 : HeaderMap) payload payload2 (db db1 db2 db3 : Database) tr tr2 status e r :
  reachable db -> idempotency_key headers2 = idempotency_key headers ->
  exec api_sem step (handle rfc3339 state headers (PostExecutions payload)) db tr
    (Some (Ok (ExecutionAnswer status e))) db1 ->
  rtc step db1 db2 ->
  exec api_sem step (handle rfc3339 state headers2 (PostExecutions payload2)) db2 tr2 r db3 ->
  (exists key, idempotency_key headers = Ok key /\ key_of key db1 = Some (Execution.id e)) /\
  Forall (fun x => x.2 = x.1) tr2 /\
  (forall status2 e2, r = Some (Ok (ExecutionAnswer status2 e2)) ->
     status2 = 200 /\ Execution.id e2 = Execution.id e).
Proof.
  intros Hr Hkeys He1 H12 He2.
  assert (chl api_sem step (fun s s1 => s1 = s \/ step s s1) (handle rfc3339 state headers (PostExecutions payload))
    (fun r db' => forall s e, r = Ok (ExecutionAnswer s e) ->
       exists key, idempotency_key headers = Ok key /\ key_of key db' = Some (Execution.id e)) db) as Hp1.
  { apply chl_io_bind. apply create_checks; [|by intros].
    intros manifest key Hkey. eapply chl_mono; [by apply create_loop_keyed|]. intros [[s e']|e'] s' Hq.
    - intros s2 H2 s3 e3 [= <- <-]. exists key. split; [done|]. eapply key_of_steps; [exact H2|]. by eapply Hq.
    - by intros s2 _ s3 e3 ?. }
  destruct (chl_exec _ _ _ _ _ _ _ _ _ He1 Hp1) as [Ht1 HQ1].
  destruct (HQ1 _ eq_refl _ _ eq_refl) as (key & Hkey & Hk1). split; [eauto|].
  assert (reachable db2) as Hr2.
  { unfold reachable. etrans; [exact Hr|]. etrans; [|exact H12]. by eapply exec_steps. }
  assert (chl api_sem step (fun s s1 => s1 = s) (handle rfc3339 state headers2 (PostExecutions payload2))
    (fun r _ => forall s e2, r = Ok (ExecutionAnswer s e2) -> s = 200 /\ Execution.id e2 = Execution.id e) db2) as Hp2.
  { apply chl_io_bind. apply create_checks; [|by intros].
    intros manifest key2 Hkey2. assert (key2 = key) as -> by congruence.
    eapply chl_mono; [apply (create_loop_replays manifest key "create" (Execution.id e)); [done|]|].
    - eapply key_of_steps; [exact H12|exact Hk1].
    - intros [[s e']|e'] s' Hq; [|by intros s2 _ s3 e3 ?]. intros s2 _ s3 e3 [= <- <-]. by eapply Hq. }
  destruct (chl_exec _ _ _ _ _ _ _ _ _ He2 Hp2) as [Ht2 HQ2]. split; [done|].
  intros s2 e2 ->. by apply (HQ2 _ eq_refl).
Qed.

(** ** A request sent twice *)
Definition example_create_headers : HeaderMap := fun name =>
  if bool_decide (name = "authorization"%string) then Some (Some "Bearer api"%string)
  else if bool_decide (name = "idempotency-key"%string) then Some (Some "k-1"%string) else None.

Definition example_create : apiio Answer :=
  handle (fun _ => EmptyString) (AppState.new "api" "w") example_create_headers (PostExecutions (Ok run_manifest)).

Definition example_created : Database := (run (alone run_clock) example_create empty_database).2.

Lemma post_answers_once_witness :
  exists e, (run (alone run_clock) example_create empty_database).1 = Ok (ExecutionAnswer 201 e) /\
    (run (alone run_clock) example_create example_created).1 = Ok (ExecutionAnswer 200 e) /\
    Execution.id e = "app-adhoc-impl-01"%string /\
    exists tr, Forall (fun x => x.2 = x.1) tr /\
      exec api_sem step example_create example_created tr (Some (Ok (ExecutionAnswer 200 e))) example_created.
Proof.
  set (e := queued_execution "app-adhoc-impl-01" run_manifest 100).
  assert ((run (alone run_clock) example_create empty_database).1 = Ok (ExecutionAnswer 201 e)) as H1
    by (vm_compute; reflexivity).
  assert (run (alone run_clock) example_create example_created = (Ok (ExecutionAnswer 200 e), example_created)) as H2
    by (vm_compute; reflexivity).
  exists e. split_and!; [exact H1|by rewrite H2|reflexivity|].
  destruct (run_exec (alone run_clock) api_sem step example_create empty_database (alone_sem run_clock)) as [tr1 Htr1].
  destruct (run_exec (alone run_clock) api_sem step example_create example_created (alone_sem run_clock)) as [tr2 Htr2].
  rewrite H1 in Htr1. rewrite H2 in Htr2. exists tr2. split; [|exact Htr2].
  apply (post_answers_once (fun _ => EmptyString) (AppState.new "api" "w") example_create_headers
    example_create_headers (Ok run_manifest) (Ok run_manifest) empty_database example_created example_created
    example_created tr1 tr2 201 e _ (rtc_refl _ _) eq_refl Htr1 (rtc_refl _ _) Htr2).
Defined.
