(* ===== verification/BuildCache.v ===== *)
(** * The shared build cache ([runtime-traits/src/lib.rs])

    A cache directory carries an owner file.  The runtime that mounts it, the
    harness that accepts it and the collector that removes it ask the same
    question, each over its own file-system calls. *)

From S2P Require Import Prelude Database Effects FileSystem StorageModel.

















Definition BUILD_CACHE_CAPABILITY : string := "rust-build-cache".
Definition CONTAINER_BUILD_CACHE : string := "/sccache".
Definition OWNER_FILE : string := ".autospec-cache.json".
Definition REFS_DIR : string := "refs".
Definition REF_GRACE : Z := 15 * 60 * 1000000000 (* nanoseconds *).

Definition declares_managed `{JsonText} (bytes : option string) : bool :=
  match (text ← bytes; value ← value_from_slice text; value_get "managed" value) with
  | Some (Bool true) => true
  | _ => false
  end.

(** What the check asks of a file system: the metadata and the contents of a
    path, where any failure is [None]. *)
Class OwnerFiles (C : Type -> Type) := {
  lstat : string -> proc C (option Metadata);
  read_file : string -> proc C (option string)
}.

Definition is_real (kind : Metadata -> bool) (m : option Metadata) : bool :=
  match m with Some m => kind m && negb (Metadata.is_symlink m) | None => false end.

Definition is_managed_build_cache_dir `{JsonText} `{OwnerFiles C} {E} (dir : string) : io C E bool :=
  metadata ← of_proc (lstat dir);
  if negb (is_real Metadata.is_dir metadata) then mret false
  else
    let owner := join dir OWNER_FILE in
    metadata ← of_proc (lstat owner);
    if negb (is_real Metadata.is_file metadata) then mret false
    else
      bytes ← of_proc (read_file owner);
      mret (declares_managed bytes).
