(* ===== verification/PiHarness.v ===== *)
(** * The Pi harness ([harness-pi/src/lib.rs], [version.rs], the file helpers of
    [session.rs])

    The harness runs the Pi agent inside the agent container of an execution and
    keeps what it must remember about it in the session directory of the
    execution's volume.  Before anything else it checks that its configuration,
    the allocation receipt and the container capability describe one and the same
    execution.

    Its programs call the file system by path, the verifier of Ready allocations
    and the registry of running processes.  Error messages leave out the quotes of
    [{:?}] and the text of serde's errors. *)

From Stdlib Require Import Ascii.
From S2P Require Import Prelude Core Database Lifecycle Effects StorageModel FileSystem BuildCache.

















(** ** Errors ([harness-traits/src/lib.rs]) *)
Module HarnessError.
Inductive HarnessError :=
| NotInstalled (message : string)
| Start (message : string)
| Crashed (message : string)
| ModelFailed (message : string)
| NotResumable (message : string)
| InvalidSession (message : string)
| Io (message : string).

Definition to_string (e : HarnessError) : string :=
  match e with
  | NotInstalled m => "harness not installed: " +:+ m
  | Start m => "harness start failed: " +:+ m
  | Crashed m => "harness crashed: " +:+ m
  | ModelFailed m => "model backend reported failure: " +:+ m
  | NotResumable m => "session not resumable: " +:+ m
  | InvalidSession m => "invalid harness session: " +:+ m
  | Io m => "harness I/O failed: " +:+ m
  end.
End HarnessError.
Abbreviation HarnessError := HarnessError.HarnessError.

Definition io_error (e : Errno) : HarnessError := HarnessError.Io (errno_text e).
Definition storage_error (e : StorageError) : HarnessError :=
  HarnessError.Start ("execution storage verification failed: " +:+ StorageError.to_string e).

(** ** Calls

    An open file is its path and a position; nothing but the harness itself
    replaces the files it opens.  A verified storage capability is a handle. *)
Record File := { file_path : string; position : Z }.
Abbreviation Verified := Z.

Module Pi.
Inductive pi_call : Type -> Type :=
| Canonicalize (path : string) : pi_call (result Errno string)
| SymlinkMetadata (path : string) : pi_call (result Errno Metadata)
| Exists (path : string) : pi_call bool
| Open (path : string) : pi_call (result Errno File)
| CreateNew (path : string) : pi_call (result Errno File)
| FileMetadata (file : File) : pi_call (result Errno (Metadata * Z))
| Seek (file : File) (offset : Z) : pi_call (result Errno File)
| ReadToEnd (file : File) : pi_call (result Errno string)
| SetPermissions (file : File) (mode : Z) : pi_call (result Errno unit)
| WriteAll (file : File) (bytes : string) : pi_call (result Errno unit)
| SyncAll (file : File) : pi_call (result Errno unit)
| Rename (from to : string) : pi_call (result Errno unit)
| ReadDir (path : string) : pi_call (result Errno (list (string * option Metadata)))
| NewUuid : pi_call string
| Now : pi_call Timestamp
(* [ReadyAllocationVerifier] and [VerifiedExecutionStorage] *)
| VerifyReady (receipt : AllocationReceipt) : pi_call (result StorageError Verified)
| AcquireReadyLease (receipt : AllocationReceipt) : pi_call (result StorageError Verified)
| Verify (verified : Verified) : pi_call (result StorageError unit)
| RepositoryPath (verified : Verified) : pi_call string
| VerifyDirectory (verified : Verified) (path : string) : pi_call (result StorageError unit)
(* [session_process_exited] and [unknown_events.fetch_add] *)
| SessionProcessExited (session : SessionId) : pi_call (result HarnessError bool)
| CountUnknown (n : Z) : pi_call unit.
End Pi.
Abbreviation pi_call := Pi.pi_call.
Abbreviation pio := (io pi_call HarnessError).

(** A file-system call and a storage call under [?]. *)
Definition file_io {A} (c : pi_call (result Errno A)) : pio A := ask_or c io_error.
Definition storage_io {A} (c : pi_call (result StorageError A)) : pio A := ask_or c storage_error.

Definition value_as_bool (v : Value) : option bool :=
  match v with Bool b => Some b | _ => None end.

(** ** Files ([session.rs]) *)
Definition open_real_file_read (path : string) : pio File :=
  expected ← file_io (Pi.SymlinkMetadata path);
  _ ← guard_or (negb (Metadata.is_symlink expected || negb (Metadata.is_file expected)))
        (HarnessError.Start ("harness path is not a real file: " +:+ path));
  file ← file_io (Pi.Open path);
  current ← file_io (Pi.SymlinkMetadata path);
  opened ← file_io (Pi.FileMetadata file);
  _ ← guard_or (negb (Metadata.is_symlink current || negb (Metadata.is_file current) ||
                      negb (Metadata.dev current =? Metadata.dev expected) ||
                      negb (Metadata.ino current =? Metadata.ino expected) ||
                      negb (Metadata.dev opened.1 =? Metadata.dev expected) ||
                      negb (Metadata.ino opened.1 =? Metadata.ino expected)))
        (HarnessError.Start ("harness file identity changed: " +:+ path));
  mret file.

Definition read_real_file (path : string) : pio string :=
  file ← open_real_file_read path;
  file_io (Pi.ReadToEnd file).

Definition read_real_file_optional (path : string) : pio (option string) :=
  metadata ← ask (Pi.SymlinkMetadata path);
  match metadata with
  | Ok metadata =>
      _ ← guard_or (negb (Metadata.is_symlink metadata || negb (Metadata.is_file metadata)))
            (HarnessError.Start ("harness path is not a real file: " +:+ path));
      bytes ← read_real_file path;
      mret (Some bytes)
  | Err NOENT => mret None
  | Err error => throw (io_error error)
  end.

Definition atomic_write (path bytes : string) : pio unit :=
  dir ← some_or (parent_path path) (HarnessError.Io "path has no parent");
  metadata ← file_io (Pi.SymlinkMetadata dir);
  _ ← guard_or (negb (Metadata.is_symlink metadata || negb (Metadata.is_dir metadata)))
        (HarnessError.Io ("atomic write parent is not a real directory: " +:+ dir));
  uuid ← ask Pi.NewUuid;
  let temporary := with_extension path ("tmp-" +:+ uuid) in
  file ← file_io (Pi.CreateNew temporary);
  _ ← file_io (Pi.SetPermissions file 384);
  _ ← file_io (Pi.WriteAll file bytes);
  _ ← file_io (Pi.SyncAll file);
  file_io (Pi.Rename temporary path).

Definition write_once (path bytes : string) : pio unit :=
  existing ← read_real_file_optional path;
  match existing with
  | Some _ => mret tt
  | None => atomic_write path bytes
  end.

(** [write_packet_once] and [write_json_once], which differ in the name they
    give the record: a record is written once and never changed. *)
Definition write_record_once (record path bytes : string) : pio unit :=
  existing ← read_real_file_optional path;
  match existing with
  | Some existing => guard_or (bool_decide (existing = bytes))
      (HarnessError.InvalidSession (record +:+ " differs: " +:+ path))
  | None => atomic_write path bytes
  end.

(** ** Users and versions *)
Definition validate_agent_user (raw : string) : result HarnessError unit :=
  let numeric part :=
    negb (str_is_empty part) && (Z.of_nat (String.length part) <=? 10) &&
    string_forallb is_ascii_digit part && bool_decide (is_Some (parse_u32 part)) in
  let refused := Err (HarnessError.Start
    ("agent user " +:+ debug_text raw +:+ " must be a numeric uid:gid such as 1000:1000")) in
  match split_once ":" raw with
  | Some (uid, gid) => if numeric uid && numeric gid then Ok tt else refused
  | None => refused
  end.

Definition TESTED_PI_VERSIONS : list string := ["0.84.3"; "0.87.0"; "0.87.1"]%string.

Definition version_token (token : string) : option string :=
  let token := default token (strip_prefix "v" token) in
  let numeric part := negb (str_is_empty part) && string_forallb is_ascii_digit part in
  match split "." token with
  | [major; minor; patch] =>
      if numeric major && numeric minor && numeric patch then Some token else None
  | _ => None
  end.

Fixpoint find_map {A B} (f : A -> option B) (l : list A) : option B :=
  match l with
  | [] => None
  | x :: l => match f x with Some y => Some y | None => find_map f l end
  end.

Definition parse_pi_version (stdout : string) : option string :=
  find_map version_token (split_whitespace stdout).

Definition check_pi_version (found : option string) (allow_untested : bool) :
    result HarnessError unit :=
  match found with
  | None => Err (HarnessError.Start "could not determine the Pi version from `pi --version`")
  | Some version =>
      if bool_decide (version ∈ TESTED_PI_VERSIONS) || allow_untested then Ok tt
      else Err (HarnessError.Start ("Pi version " +:+ version +:+
        " is outside the tested matrix " +:+ String.concat ", " TESTED_PI_VERSIONS +:+
        "; set allow_untested_pi_version to run it anyway"))
  end.

Example versions :
  List.map parse_pi_version ["pi v0.87.0 (abc)"; "1.2.3 4.5.6"]%string =
    [Some "0.87.0"; Some "1.2.3"]%string /\
  forallb (fun text => negb (bool_decide (is_Some (parse_pi_version text))))
    [""; "pi"; "0.84"; "0.84.3.1"; "0.84.3-beta"; "a.b.c"; "0..3"; ".84.3"]%string = true.
Proof. by vm_compute. Qed.

Example agent_users :
  forallb (fun raw => is_ok (validate_agent_user raw))
    ["1000:1000"; "0:0"; "4294967295:0"]%string = true /\
  existsb (fun raw => is_ok (validate_agent_user raw))
    ["root"; ""; "1000"; "1000:"; ":1000"; "1000:1000:1"; " 1000:1000"; "+1:0"; "4294967296:0";
     "00000000000:0"]%string = false.
Proof. by vm_compute. Qed.

(** ** Configuration *)
Module VerifiedAllocationConfig.
Record VerifiedAllocationConfig := {
  receipt : AllocationReceipt;
  layout : ExecutionLayout;
  container : VerifiedAgentContainer
}.
End VerifiedAllocationConfig.
Abbreviation VerifiedAllocationConfig := VerifiedAllocationConfig.VerifiedAllocationConfig.

Module PiHarnessConfig.
Record PiHarnessConfig := {
  state_root : string;
  worktree : string;
  docker_binary : string;
  docker_host : option string;
  agent_container : string;
  pi_executable : string;
  allow_untested_pi_version : bool;
  labels : OwnershipLabels;
  model_policy : option ModelPolicy;
  tools : list string;
  skills : list string;
  credential_redactions : list string;
  stop_timeout : Z;                   (* seconds *)
  agent_user : string;
  storage : option VerifiedAllocationConfig
}.

Definition for_execution (state_root worktree agent_container : string)
    (labels : OwnershipLabels) : PiHarnessConfig := {|
  state_root := state_root;
  worktree := worktree;
  docker_binary := "docker";
  docker_host := None;
  agent_container := agent_container;
  pi_executable := "pi";
  allow_untested_pi_version := false;
  labels := labels;
  model_policy := None;
  tools := ["read"; "bash"; "edit"; "write"];
  skills := [];
  credential_redactions := [];
  stop_timeout := 10;
  agent_user := "0:0";
  storage := None |}.

Definition with_agent_user (user : string) (c : PiHarnessConfig) :
    result HarnessError PiHarnessConfig :=
  _ ← validate_agent_user user;
  Ok {| state_root := state_root c; worktree := worktree c; docker_binary := docker_binary c;
        docker_host := docker_host c; agent_container := agent_container c;
        pi_executable := pi_executable c;
        allow_untested_pi_version := allow_untested_pi_version c; labels := labels c;
        model_policy := model_policy c; tools := tools c; skills := skills c;
        credential_redactions := credential_redactions c; stop_timeout := stop_timeout c;
        agent_user := user; storage := storage c |}.

Definition for_ready_allocation (receipt : AllocationReceipt)
    (container : VerifiedAgentContainer) : result HarnessError PiHarnessConfig :=
  state_root ← ok_or (parent_path (AllocationReceipt.mount_path receipt) ≫= parent_path)
    (HarnessError.Start "execution allocation mount path lacks a deterministic state root");
  layout ← map_err storage_error
    (ExecutionLayout.new state_root
       (OwnershipLabels.execution_id (AllocationReceipt.labels receipt)));
  _ ← map_err storage_error (validate_receipt receipt (AllocationReceipt.labels receipt) layout);
  let base := for_execution state_root (ExecutionLayout.repository layout)
    (VerifiedAgentContainer.container_id container) (AllocationReceipt.labels receipt) in
  Ok {| PiHarnessConfig.state_root := state_root; worktree := worktree base;
        docker_binary := docker_binary base; docker_host := docker_host base;
        agent_container := agent_container base; pi_executable := pi_executable base;
        allow_untested_pi_version := allow_untested_pi_version base; labels := labels base;
        model_policy := model_policy base; tools := tools base; skills := skills base;
        credential_redactions := credential_redactions base; stop_timeout := stop_timeout base;
        agent_user := agent_user base;
        storage := Some {| VerifiedAllocationConfig.receipt := receipt;
                           VerifiedAllocationConfig.layout := layout;
                           VerifiedAllocationConfig.container := container |} |}.
End PiHarnessConfig.
Abbreviation PiHarnessConfig := PiHarnessConfig.PiHarnessConfig.

(** ** The harness *)
(** [std::fs::symlink_metadata] and [std::fs::read] as calls of the harness; a
    read is an open and a read, any failure of which is [None] here. *)
Definition pi_lstat (path : string) : proc pi_call (option Metadata) :=
  metadata ← request (Pi.SymlinkMetadata path);
  mret match metadata with Ok m => Some m | Err _ => None end.

Definition pi_read (path : string) : proc pi_call (option string) :=
  file ← request (Pi.Open path);
  match file with
  | Ok file => bytes ← request (Pi.ReadToEnd file);
               mret match bytes with Ok bytes => Some bytes | Err _ => None end
  | Err _ => mret None
  end.

#[export] Instance pi_owner_files : OwnerFiles pi_call := {| lstat := pi_lstat; read_file := pi_read |}.

Section Harness.
Context `{JsonText}.

(** ** What a harness may run on *)
Definition CONTAINER_WORKTREE : string := "/workspace".
Definition CONTAINER_SESSION : string := "/session".
Definition DOCKER_SOCKET : string := "/var/run/docker.sock".

Fixpoint validate_mount_sources (mounts : list VerifiedBindMount) (targets : gset string)
    (root session_root conversation : string) : pio unit :=
  match mounts with
  | [] => mret tt
  | mount :: mounts =>
      let source := VerifiedBindMount.source mount in
      let target := VerifiedBindMount.target mount in
      shared_build_cache ←
        (if bool_decide (target = CONTAINER_BUILD_CACHE) && VerifiedBindMount.writable mount
         then is_managed_build_cache_dir source else mret false);
      _ ← guard_or (negb ((negb (path_starts_with source root) && negb shared_build_cache) ||
                          bool_decide (target ∈ targets) ||
                          (path_starts_with source session_root &&
                           negb (path_eqb source conversation)) ||
                          bool_decide (target = DOCKER_SOCKET) ||
                          path_eqb source DOCKER_SOCKET))
            (HarnessError.Start "agent container capability exposes an unverified host path");
      validate_mount_sources mounts ({[ target ]} ∪ targets) root session_root conversation
  end.

Definition canonical_for_proof (what path : string) : pio string :=
  ask_or (Pi.Canonicalize path) (fun error =>
    HarnessError.Start ("canonicalize " +:+ what +:+ " for container proof: " +:+ errno_text error)).

Definition binds (target source : string) (mount : VerifiedBindMount) : bool :=
  bool_decide (VerifiedBindMount.target mount = target) &&
  path_eqb (VerifiedBindMount.source mount) source && VerifiedBindMount.writable mount.

Definition validate_container_capability (container : VerifiedAgentContainer)
    (receipt : AllocationReceipt) (layout : ExecutionLayout) : pio unit :=
  _ ← guard_or (negb (str_is_empty (VerifiedAgentContainer.container_id container) ||
                      negb (bool_decide (VerifiedAgentContainer.daemon_id container =
                              DockerBindProof.daemon_id (AllocationReceipt.docker_bind receipt))) ||
                      negb (bool_decide (VerifiedAgentContainer.labels container =
                                         AllocationReceipt.labels receipt))))
        (HarnessError.Start "agent container capability does not match allocation identity");
  root ← canonical_for_proof "execution root" (ExecutionLayout.root layout);
  repository ← canonical_for_proof "worktree" (ExecutionLayout.repository layout);
  session_root ← canonical_for_proof "private session root" (ExecutionLayout.session layout);
  conversation ← canonical_for_proof "conversation" (ExecutionLayout.conversation layout);
  let mounts := VerifiedAgentContainer.mounts container in
  let workspace := List.filter (binds CONTAINER_WORKTREE repository) mounts in
  let session := List.filter (binds CONTAINER_SESSION conversation) mounts in
  _ ← guard_or (negb (negb (bool_decide (length workspace = 1%nat)) ||
                      negb (bool_decide (length session = 1%nat))))
        (HarnessError.Start "agent container capability lacks exact writable execution binds");
  validate_mount_sources mounts ∅ root session_root conversation.

Definition verify_storage_paths (verified : Verified) (layout : ExecutionLayout) : pio unit :=
  _ ← storage_io (Pi.Verify verified);
  repository ← ask (Pi.RepositoryPath verified);
  _ ← guard_or (path_eqb repository (ExecutionLayout.repository layout))
        (HarnessError.Start "verified repository path differs from the execution layout");
  each (fun path => storage_io (Pi.VerifyDirectory verified path))
    [ExecutionLayout.repository layout; ExecutionLayout.session layout;
     ExecutionLayout.conversation layout].

(** [==] on layouts, which compares paths. *)
Definition layout_eqb (a b : ExecutionLayout) : bool :=
  path_eqb (ExecutionLayout.state_root a) (ExecutionLayout.state_root b) &&
  path_eqb (ExecutionLayout.root a) (ExecutionLayout.root b) &&
  path_eqb (ExecutionLayout.repository a) (ExecutionLayout.repository b) &&
  path_eqb (ExecutionLayout.session a) (ExecutionLayout.session b) &&
  path_eqb (ExecutionLayout.conversation a) (ExecutionLayout.conversation b) &&
  path_eqb (ExecutionLayout.credentials a) (ExecutionLayout.credentials b) &&
  path_eqb (ExecutionLayout.runtime a) (ExecutionLayout.runtime b) &&
  path_eqb (ExecutionLayout.journal a) (ExecutionLayout.journal b).

Record ReadyPiStorage := { ready_layout : ExecutionLayout; lease : Verified }.

Section Config.
Context (config : PiHarnessConfig).

Definition acquire_ready_storage : pio ReadyPiStorage :=
  _ ← ret_result (validate_agent_user (PiHarnessConfig.agent_user config));
  storage ← some_or (PiHarnessConfig.storage config)
    (HarnessError.Start "Pi execution requires an exact Ready execution-storage allocation");
  let receipt := VerifiedAllocationConfig.receipt storage in
  let container := VerifiedAllocationConfig.container storage in
  expected ← ret_result (map_err storage_error
    (ExecutionLayout.new (PiHarnessConfig.state_root config)
       (OwnershipLabels.execution_id (PiHarnessConfig.labels config))));
  _ ← ret_result (map_err storage_error
        (validate_receipt receipt (PiHarnessConfig.labels config) expected));
  _ ← guard_or (negb (negb (layout_eqb (VerifiedAllocationConfig.layout storage) expected) ||
                      negb (bool_decide (AllocationReceipt.labels receipt =
                                         PiHarnessConfig.labels config)) ||
                      negb (path_eqb (PiHarnessConfig.worktree config)
                                     (ExecutionLayout.repository expected)) ||
                      negb (bool_decide (PiHarnessConfig.agent_container config =
                                         VerifiedAgentContainer.container_id container))))
        (HarnessError.Start "Pi configuration does not exactly match its execution allocation");
  _ ← validate_container_capability container receipt expected;
  verified ← storage_io (Pi.VerifyReady receipt);
  _ ← verify_storage_paths verified expected;
  lease ← storage_io (Pi.AcquireReadyLease receipt);
  _ ← verify_storage_paths lease expected;
  mret {| ready_layout := expected; lease := lease |}.

Definition validate_session (session : SessionRef) : result HarnessError unit :=
  storage ← ok_or (PiHarnessConfig.storage config)
    (HarnessError.InvalidSession "Pi session has no verified execution allocation");
  let layout := VerifiedAllocationConfig.layout storage in
  check (negb (negb (bool_decide (SessionRef.execution_id session =
                       OwnershipLabels.execution_id (PiHarnessConfig.labels config))) ||
               negb (bool_decide (SessionRef.path session = ExecutionLayout.session layout)) ||
               negb (bool_decide (SessionRef.worktree_path session =
                                  ExecutionLayout.repository layout))))
    (HarnessError.InvalidSession "Pi session paths do not match the verified execution layout").
End Config.
End Harness.
