(* ===== verification/PiEvents.v ===== *)
(** * The events of a Pi session ([harness-pi/src/events.rs])

    Pi writes a JSON record per line.  [poll_events] reads the complete lines
    after the cursor, reduces them to execution events and moves the cursor; the
    state of the reduction is kept in the cursor file with the offset. *)

From Stdlib Require Import Ascii.
From S2P Require Import Prelude Core Database Lifecycle Effects StorageModel FileSystem PiHarness.

















(** ** State *)
Module TerminalState.
Inductive TerminalState := Active | ReviewReady | ModelFailed | HarnessFailed.
#[global] Instance eq_dec : EqDecision TerminalState.
Proof. solve_decision. Defined.
End TerminalState.
Abbreviation TerminalState := TerminalState.TerminalState.

Module ReducerState.
Record ReducerState := {
  pending_model_error : bool;
  retrying : bool;
  terminal : TerminalState;
  assistant_turns : Z                 (* u64 *)
}.

Definition default : ReducerState := {|
  pending_model_error := false; retrying := false; terminal := TerminalState.Active;
  assistant_turns := 0 |}.

Definition set_pending (b : bool) (r : ReducerState) : ReducerState := {|
  pending_model_error := b; retrying := retrying r; terminal := terminal r;
  assistant_turns := assistant_turns r |}.
Definition set_retrying (b : bool) (r : ReducerState) : ReducerState := {|
  pending_model_error := pending_model_error r; retrying := b; terminal := terminal r;
  assistant_turns := assistant_turns r |}.
Definition set_terminal (t : TerminalState) (r : ReducerState) : ReducerState := {|
  pending_model_error := pending_model_error r; retrying := retrying r; terminal := t;
  assistant_turns := assistant_turns r |}.
(** One more turn; a turn is a record of the file, so the count stays below its
    length. *)
Definition count_turn (r : ReducerState) : ReducerState := {|
  pending_model_error := pending_model_error r; retrying := retrying r; terminal := terminal r;
  assistant_turns := assistant_turns r + 1 |}.
End ReducerState.
Abbreviation ReducerState := ReducerState.ReducerState.

Module JsonlCursor.
Record JsonlCursor := { path : string; offset : Z (* u64 *); reducer : ReducerState }.
Definition default : JsonlCursor := {| path := ""; offset := 0; reducer := ReducerState.default |}.
End JsonlCursor.
Abbreviation JsonlCursor := JsonlCursor.JsonlCursor.

(** [CursorFile.sessions]. *)
Abbreviation CursorFile := (gmap string JsonlCursor).

(** serde_json on the cursor file: what it writes it reads back, an object, so
    not blank; the initial [{}] is the empty map. *)
Class CursorText := {
  cursors_to_vec : CursorFile -> result string string;
  cursors_from_slice : string -> option CursorFile;
  cursors_round_trip c s : cursors_to_vec c = Ok s ->
    cursors_from_slice s = Some c /\ exists rest, s = String "{" rest;
  cursors_initial : cursors_from_slice ("{}" +:+ String "010" "")%string = Some ∅
}.

(** ** One record *)
Inductive Normalized :=
| Event (event : ExecutionEvent)
| KnownIgnored
| Unknown.

Section Normalize.
Context (session : SessionRef).

Definition event (now : Timestamp) (state : ExecutionState) (kind : ExecutionEventKind) :
    ExecutionEvent := {|
  ExecutionEvent.execution_id := SessionRef.execution_id session;
  ExecutionEvent.attempt_id := None;
  ExecutionEvent.sequence := 0;
  ExecutionEvent.at_ := now;
  ExecutionEvent.state := state;
  ExecutionEvent.kind := kind |}.

Definition failed_terminal (t : TerminalState) : bool :=
  match t with TerminalState.ModelFailed | TerminalState.HarnessFailed => true | _ => false end.

Definition harness_failed (now : Timestamp) (r : ReducerState) : Normalized * ReducerState :=
  (Event (event now ExecutionState.Failed
            (ExecutionEventKind.ExecutionFailed FailureClass.HarnessFailed)),
   ReducerState.set_terminal TerminalState.HarnessFailed r).

Definition model_failed (now : Timestamp) (r : ReducerState) : Normalized * ReducerState :=
  if failed_terminal (ReducerState.terminal r) then (KnownIgnored, r)
  else
    (Event (event now ExecutionState.Failed
              (ExecutionEventKind.ExecutionFailed FailureClass.ModelFailed)),
     ReducerState.set_terminal TerminalState.ModelFailed
       (ReducerState.set_retrying false (ReducerState.set_pending false r))).

Definition settle (now : Timestamp) (r : ReducerState) : Normalized * ReducerState :=
  if failed_terminal (ReducerState.terminal r) then (KnownIgnored, r)
  else if ReducerState.pending_model_error r || ReducerState.retrying r then model_failed now r
  else if ReducerState.assistant_turns r =? 0 then harness_failed now r
  else if bool_decide (ReducerState.terminal r = TerminalState.ReviewReady) then (KnownIgnored, r)
  else (Event (event now ExecutionState.ReviewReady ExecutionEventKind.ReviewReady),
        ReducerState.set_terminal TerminalState.ReviewReady r).

Definition get_str (key : string) (v : Value) : option string :=
  field ← value_get key v; value_as_str field.

(** [record.get("message").unwrap_or(record)]. *)
Definition message_of (record : Value) : Value := default record (value_get "message" record).

Definition is_assistant_message (record : Value) : bool :=
  bool_decide (get_str "role" (message_of record) = Some "assistant"%string).

Definition is_model_error (record : Value) : bool :=
  let message := message_of record in
  bool_decide (get_str "role" message = Some "assistant"%string) &&
  (bool_decide (get_str "stopReason" message = Some "error"%string) ||
   bool_decide (is_Some (value_get "errorMessage" message))).

Definition is_test_tool (record : Value) : bool :=
  bool_decide (get_str "toolName" record = Some "bash"%string) &&
  match (args ← value_get "args" record; get_str "command" args) with
  | Some command => contains "test" command
  | None => false
  end.

Definition get_bool (key : string) (record : Value) : bool :=
  default false (field ← value_get key record; value_as_bool field).

Definition ignored_types : list string :=
  ["session"; "turn_start"; "turn_end"; "message_start"; "message_update";
   "tool_execution_start"; "tool_execution_update"; "tool_execution_end"; "queue_update";
   "compaction_start"; "compaction_end"; "entry_appended"; "session_info_changed";
   "thinking_level_changed"; "summarization_retry_scheduled"; "summarization_retry_attempt_start";
   "summarization_retry_finished"; "bash_execution_update"].

(** The clock is read where an event is made; here once per record. *)
Definition normalize (now : Timestamp) (record : Value) (r : ReducerState) :
    Normalized * ReducerState :=
  match get_str "type" record with
  | None => (Unknown, r)
  | Some record_type =>
      let named (name : string) := bool_decide (record_type = name) in
      let running kind := Event (event now ExecutionState.Running kind) in
      if named "agent_start" then
        (running (ExecutionEventKind.AgentStarted (SessionRef.id session)), ReducerState.default)
      else if named "test_run" then (running ExecutionEventKind.TestsStarted, r)
      else if named "test_failed" then (running ExecutionEventKind.TestsFailed, r)
      else if named "done" then settle now r
      else if named "agent_settled" then settle now r
      else if named "model_error" then model_failed now r
      else if named "message_end" then
        (KnownIgnored,
         if is_assistant_message record then
           let r := ReducerState.set_pending (is_model_error record) r in
           if negb (ReducerState.pending_model_error r) then ReducerState.count_turn r else r
         else r)
      else if named "agent_end" then
        let will_retry := get_bool "willRetry" record in
        let r := ReducerState.set_retrying will_retry r in
        if negb will_retry && ReducerState.pending_model_error r then model_failed now r
        else (KnownIgnored, r)
      else if named "auto_retry_start" then (KnownIgnored, ReducerState.set_retrying true r)
      else if named "auto_retry_end" then
        let r := ReducerState.set_retrying false r in
        (KnownIgnored, ReducerState.set_pending (negb (get_bool "success" record)) r)
      else if named "tool_execution_start" && is_test_tool record then
        (running ExecutionEventKind.TestsStarted, r)
      else if bool_decide (record_type ∈ ignored_types) then (KnownIgnored, r)
      else (Unknown, r)
  end.
End Normalize.

(** ** The complete lines of a read *)
Definition newline : ascii := "010"%char.

(** [&bytes[..=last_newline]]. *)
Definition complete_lines (bytes : string) : string :=
  match rsplit_once newline bytes with
  | Some (before, _) => before +:+ String newline ""
  | None => ""
  end.

Definition records_of (complete : string) : list string :=
  List.filter (fun line => negb (str_is_empty line)) (split newline complete).

(** ** Polling *)
Definition CURSOR_FILE : string := ".cursor".

Definition events_path (session : SessionRef) : string :=
  join (SessionRef.path session) ("pi.events-" +:+ SessionRef.id session +:+ ".jsonl").

Definition normalized_absolute (path : string) : pio string :=
  _ ← guard_or (is_absolute path) (HarnessError.InvalidSession
        ("harness path is not absolute: " +:+ path));
  dir ← some_or (parent_path path) (HarnessError.InvalidSession
        ("harness path has no parent: " +:+ path));
  name ← some_or (file_name path) (HarnessError.InvalidSession
        ("harness path has no filename: " +:+ path));
  canonical ← file_io (Pi.Canonicalize dir);
  mret (join canonical name).

(** [u8::is_ascii_whitespace]. *)
Definition is_ascii_whitespace (c : ascii) : bool :=
  bool_decide (c ∈ [" "; "009"; "010"; "012"; "013"]%char).

Section Poll.
Context `{JsonText} `{CursorText} (config : PiHarnessConfig) (session : SessionRef).

Definition read_cursors (path : string) : pio CursorFile :=
  metadata ← ask (Pi.SymlinkMetadata path);
  match metadata with
  | Ok _ =>
      bytes ← read_real_file path;
      if string_forallb is_ascii_whitespace bytes then mret ∅
      else some_or (cursors_from_slice bytes) (HarnessError.InvalidSession "cursor file")
  | Err NOENT => mret ∅
  | Err error => throw (io_error error)
  end.

(** The loop over the records: the events, the number of unknown records and
    the reducer after them. *)
Fixpoint drain (lines : list string) (r : ReducerState) :
    pio (list ExecutionEvent * Z * ReducerState) :=
  match lines with
  | [] => mret ([], 0, r)
  | line :: lines =>
      record ← some_or (value_from_slice line)
        (HarnessError.InvalidSession "invalid complete Pi JSONL record");
      now ← ask Pi.Now;
      let '(n, r) := normalize session now record r in
      rest ← drain lines r;
      let '(events, unknown, r) := (rest : list ExecutionEvent * Z * ReducerState) in
      mret (match n with
            | Event event => (event :: events, unknown, r)
            | KnownIgnored => (events, unknown, r)
            | Unknown => (events, unknown + 1, r)
            end)
  end.

Definition read_after (cursor : JsonlCursor) : pio string :=
  present ← ask (Pi.Exists (JsonlCursor.path cursor));
  if (present : bool) then
    file ← open_real_file_read (JsonlCursor.path cursor);
    metadata ← file_io (Pi.FileMetadata file);
    let length := metadata.2 in
    _ ← guard_or (JsonlCursor.offset cursor <=? length) (HarnessError.InvalidSession
          ("cursor " +:+ show_Z (JsonlCursor.offset cursor) +:+ " exceeds JSONL length " +:+
           show_Z length));
    file ← file_io (Pi.Seek file (JsonlCursor.offset cursor));
    file_io (Pi.ReadToEnd file)
  else mret ""%string.

Definition cursor_path : string := join (SessionRef.path session) CURSOR_FILE.

(** From the read to the end of [poll_events]. *)
Definition advance (cursors : CursorFile) (cursor : JsonlCursor) (exited : bool) (bytes : string) :
    pio (list ExecutionEvent) :=
  let complete := complete_lines bytes in
  let r := JsonlCursor.reducer cursor in
  let process_gone := exited && bool_decide (ReducerState.terminal r = TerminalState.Active) in
  if str_is_empty complete && negb process_gone then mret []
  else
    drained ← drain (records_of complete) r;
    let '(events, unknown, r) := (drained : list ExecutionEvent * Z * ReducerState) in
    let offset := JsonlCursor.offset cursor + Z.of_nat (String.length complete) in
    now ← ask Pi.Now;
    let '(events, r) :=
      if process_gone && bool_decide (ReducerState.terminal r = TerminalState.Active) then
        match harness_failed session now r with
        | (Event event, r) => (events ++ [event], r)
        | (_, r) => (events, r)
        end
      else (events, r) in
    serialized ← ret_result (map_err HarnessError.Io (cursors_to_vec
      (<[SessionRef.id session := {| JsonlCursor.path := JsonlCursor.path cursor;
                                     JsonlCursor.offset := offset;
                                     JsonlCursor.reducer := r |}]> cursors)));
    _ ← atomic_write cursor_path serialized;
    _ ← ask (Pi.CountUnknown unknown);
    mret events.

Definition poll_events : pio (list ExecutionEvent) :=
  _ ← ret_result (validate_session config session);
  _ ← acquire_ready_storage config;
  cursors ← read_cursors cursor_path;
  let entry := default JsonlCursor.default (cursors !! SessionRef.id session) in
  expected_events ← normalized_absolute (events_path session);
  cursor ← ret_result
    (if str_is_empty (JsonlCursor.path entry) then
       Ok {| JsonlCursor.path := expected_events; JsonlCursor.offset := JsonlCursor.offset entry;
             JsonlCursor.reducer := JsonlCursor.reducer entry |}
     else if path_eqb (JsonlCursor.path entry) expected_events then Ok entry
     else Err (HarnessError.InvalidSession
            "cursor path does not exactly match the session live-event file"));
  exited ← ask_or (Pi.SessionProcessExited (SessionRef.id session)) id;
  bytes ← read_after cursor;
  advance cursors cursor exited bytes.
End Poll.
