(* ===== verification/PiRedaction.v ===== *)
(** * What Pi's output leaves on disk ([harness-pi/src/session.rs], and the
    credential of [orchestrator-worker/src/system.rs])

    Two threads copy Pi's standard output and standard error to files of the
    session directory, a line at a time, replacing the model credential wherever
    it occurs.  The replacement is a loop that searches from the start again
    after every substitution, so that it ends at all is part of the claim. *)

From Stdlib Require Import Ascii.
From S2P Require Import Prelude PiHarness PiEvents.

















Definition REDACTION : string := "[REDACTED_CREDENTIAL]".

(** The first window equal to [secret], replaced; [None] when there is none. *)
Fixpoint splice_first (secret bytes : string) : option string :=
  if starts_with secret bytes
  then Some (REDACTION +:+ default "" (strip_prefix secret bytes))
  else match bytes with
       | EmptyString => None
       | String c bytes => String c <$> splice_first secret bytes
       end.

(** [None]: the loop has not ended within [fuel] substitutions. *)
Fixpoint redact_bytes (fuel : nat) (bytes secret : string) : option string :=
  if str_is_empty secret then Some bytes
  else match splice_first secret bytes with
       | None => Some bytes
       | Some bytes => match fuel with
                       | O => None
                       | S fuel => redact_bytes fuel bytes secret
                       end
       end.

(** [read_until] until the end: the lines with their newlines. *)
Fixpoint split_inclusive (d : ascii) (s : string) : list string :=
  match s with
  | EmptyString => []
  | String c s =>
      if bool_decide (c = d) then String c "" :: split_inclusive d s
      else match split_inclusive d s with
           | p :: ps => String c p :: ps
           | [] => [String c ""]
           end
  end.

Fixpoint redact_record (fuel : nat) (secrets : list string) (record : string) : option string :=
  match secrets with
  | [] => Some record
  | secret :: secrets => record ← redact_bytes fuel record secret; redact_record fuel secrets record
  end.

Fixpoint copy_records (fuel : nat) (secrets records : list string) : option string :=
  match records with
  | [] => Some ""%string
  | record :: records =>
      written ← redact_record fuel secrets record;
      rest ← copy_records fuel secrets records;
      Some (written +:+ rest)
  end.

(** The copy loop of either thread: what it has written when its input ends. *)
Definition copy_output (fuel : nat) (secrets : list string) (input : string) : option string :=
  copy_records fuel secrets (split_inclusive newline input).

(** [VerifiedPiHarnessFactory::build]: the first line of the credential file,
    at least 32 bytes. *)
Definition credential_token (credential : string) : option string :=
  match split newline credential with
  | token :: _ => if 32 <=? Z.of_nat (String.length token) then Some token else None
  | [] => None
  end.

Example redacts :
  copy_output 9 ["sk-credential-of-thirty-two-bytes"]
    ("{" +:+ "sk-credential-of-thirty-two-bytes" +:+ String newline "ok") =
  Some ("{[REDACTED_CREDENTIAL]" +:+ String newline "ok")%string.
Proof. by vm_compute. Qed.

(** ** Occurrences *)
Lemma splice_first_None t s : splice_first t s = None <-> contains t s = false.
Proof.
  induction s as [|c s IH]; simpl.
  - destruct (starts_with t ""); simpl; naive_solver.
  - destruct (starts_with t (String c s)); simpl; [naive_solver|].
    rewrite <- IH. destruct (splice_first t s); naive_solver.
Qed.

Lemma splice_first_Some t s s' :
  splice_first t s = Some s' ->
  exists a b, s = (a +:+ t +:+ b)%string /\ s' = (a +:+ REDACTION +:+ b)%string.
Proof.
  revert s'. induction s as [|c s IH]; intros s'; cbn [splice_first].
  - destruct (starts_with t "") eqn:E; [|done]. apply starts_with_inv in E as [b Hb].
    rewrite Hb, strip_prefix_app. intros [= <-]. by exists ""%string, b.
  - destruct (starts_with t (String c s)) eqn:E.
    + apply starts_with_inv in E as [b Hb]. rewrite Hb, strip_prefix_app. intros [= <-].
      by exists ""%string, b.
    + intros (s1 & Hs & ->)%fmap_Some. destruct (IH s1 Hs) as (a & b & -> & ->).
      by exists (String c a), b.
Qed.

(** How often a byte occurs. *)
Fixpoint count_char (d : ascii) (s : string) : nat :=
  match s with
  | EmptyString => 0
  | String c s => (if bool_decide (c = d) then 1 else 0) + count_char d s
  end.

Lemma count_char_app d a b : count_char d (a +:+ b) = (count_char d a + count_char d b)%nat.
Proof. induction a as [|c a IH]; [done|]. rewrite string_app_cons. simpl. lia. Qed.

Lemma count_char_none d s : ~ has_char d s -> count_char d s = 0%nat.
Proof.
  induction s as [|c s IH]; [done|]. rewrite has_char_cons. simpl. intros Hn.
  rewrite bool_decide_false by tauto. apply IH. tauto.
Qed.

(** *** A byte the secret does not have separates its occurrences *)
Section Separator.
Context (d : ascii) (t : string).
Hypothesis (Ht : ~ has_char d t) (Hne : t <> ""%string).

Lemma starts_with_sep a b : starts_with t (a +:+ String d b) = starts_with t a.
Proof.
  clear Hne. revert a. induction t as [|c t' IH]; intros a; [by destruct a|].
  rewrite has_char_cons in Ht. destruct a as [|c' a]; simpl.
  - rewrite bool_decide_false; [done|tauto].
  - f_equal. apply IH. tauto.
Qed.

Lemma starts_with_here b : starts_with t (String d b) = false.
Proof. pose proof (starts_with_sep "" b) as H. rewrite string_app_nil in H. rewrite H. by destruct t. Qed.

Lemma starts_with_cons_sep c a b :
  starts_with t (String c (a +:+ String d b)) = starts_with t (String c a).
Proof. apply (starts_with_sep (String c a)). Qed.

Lemma strip_prefix_sep a b :
  starts_with t a = true ->
  strip_prefix t (a +:+ String d b) = (fun r => r +:+ String d b)%string <$> strip_prefix t a.
Proof.
  intros [r ->]%starts_with_inv. by rewrite string_app_assoc, !strip_prefix_app.
Qed.

Lemma contains_sep a b : contains t (a +:+ String d b) = contains t a || contains t b.
Proof.
  induction a as [|c a IH].
  - rewrite string_app_nil. cbn [contains].
    rewrite starts_with_here. by destruct t.
  - rewrite string_app_cons. cbn [contains]. rewrite IH.
    by rewrite starts_with_cons_sep, orb_assoc.
Qed.

Lemma splice_first_sep a :
  splice_first t (a +:+ String d "") = (fun r => r +:+ String d "")%string <$> splice_first t a.
Proof.
  induction a as [|c a IH].
  - rewrite string_app_nil. cbn [splice_first]. rewrite !starts_with_here.
    by destruct t.
  - rewrite string_app_cons. cbn [splice_first]. rewrite starts_with_cons_sep.
    destruct (starts_with t (String c a)) eqn:E.
    + pose proof (strip_prefix_sep (String c a) "" E) as Hs. rewrite string_app_cons in Hs.
      rewrite Hs. apply starts_with_inv in E as [r Er]. rewrite Er, strip_prefix_app. simpl.
      by rewrite <- string_app_assoc.
    + rewrite IH. by destruct (splice_first t a).
Qed.

Lemma redact_bytes_sep fuel a :
  redact_bytes fuel (a +:+ String d "") t = (fun r => r +:+ String d "")%string <$> redact_bytes fuel a t.
Proof.
  revert a. induction fuel as [|fuel IH]; intros a; cbn [redact_bytes];
    destruct (str_is_empty t); try done; rewrite splice_first_sep;
    destruct (splice_first t a); try done; apply IH.
Qed.
End Separator.

(** ** Redaction ends *)
Lemma redact_bytes_total d fuel s t :
  ~ has_char d t -> ~ has_char d REDACTION ->
  (String.length REDACTION < String.length t)%nat -> (String.length s <= fuel)%nat ->
  exists out, redact_bytes fuel s t = Some out /\ contains t out = false /\
    count_char d out = count_char d s /\ (contains t s = false -> out = s).
Proof.
  intros Hd Hr Hlen. revert s. induction fuel as [|fuel IH]; intros s Hf; cbn [redact_bytes];
    (destruct (str_is_empty t) eqn:E; [destruct t; [simpl in Hlen; lia|done]|]); clear E;
    destruct (splice_first t s) as [s'|] eqn:Hs.
  2, 4: exists s; by rewrite <- splice_first_None.
  - apply splice_first_Some in Hs as (a & b & -> & ->). rewrite !string_length_app in Hf. lia.
  - assert (contains t s = true) as Hc
      by (apply not_false_iff_true; rewrite <- splice_first_None; congruence).
    apply splice_first_Some in Hs as (a & b & -> & ->).
    destruct (IH (a +:+ REDACTION +:+ b)%string) as (out & Ho & Hn & Hk & _).
    { rewrite !string_length_app in *. lia. }
    exists out. split; [done|]. split; [done|]. rewrite Hk, !count_char_app.
    rewrite (count_char_none d t), (count_char_none d REDACTION) by done. split; [done|congruence].
Qed.

(** A secret that the replacement itself contains would keep the loop going. *)
Lemma replaced_secret_diverges fuel : redact_bytes fuel "RED" "RED" = None.
Proof.
  enough (forall s, contains "RED" s = true -> redact_bytes fuel s "RED" = None) as H by by apply H.
  induction fuel as [|fuel IH]; intros s Hs; cbn [redact_bytes str_is_empty];
    (destruct (splice_first "RED" s) as [s'|] eqn:E;
     [|apply splice_first_None in E; congruence]); [done|].
  apply splice_first_Some in E as (a & b & -> & ->). apply IH. clear.
  induction a as [|c a IH]; [by vm_compute|]. rewrite string_app_cons. cbn [contains].
  by rewrite IH, orb_true_r.
Qed.

(** ** Lines *)
Lemma split_inclusive_line d a b :
  ~ has_char d a -> split_inclusive d (a +:+ String d b) = (a +:+ String d "")%string :: split_inclusive d b.
Proof.
  induction a as [|c a IH]; [rewrite !string_app_nil; simpl; by rewrite bool_decide_true|].
  rewrite has_char_cons, !string_app_cons. intros Hn. simpl.
  rewrite bool_decide_false by tauto. rewrite IH by tauto. done.
Qed.

Lemma split_inclusive_rest d s :
  ~ has_char d s -> split_inclusive d s = if str_is_empty s then [] else [s].
Proof.
  induction s as [|c s IH]; [done|]. rewrite has_char_cons. intros Hn. simpl.
  rewrite bool_decide_false by tauto. rewrite IH by tauto. by destruct s.
Qed.

Lemma string_lines_ind (d : ascii) (P : string -> Prop) :
  (forall s, ~ has_char d s -> P s) ->
  (forall a s, ~ has_char d a -> P s -> P (a +:+ String d s)%string) -> forall s, P s.
Proof.
  intros Hl Hs s. remember (String.length s) as n eqn:Hn. revert s Hn.
  induction (lt_wf n) as [n _ IH]; intros s ->.
  destruct (split_once d s) as [[a b]|] eqn:E.
  - apply split_once_Some in E as [-> Ha]. apply Hs; [done|]. eapply IH; [|done].
    rewrite string_length_app. simpl. lia.
  - apply Hl. intros H. clear -E H. induction s as [|c s IH]; [by apply has_char_nil in H|].
    simpl in E. apply has_char_cons in H. case_bool_decide; [done|].
    destruct (split_once d s) as [[??]|]; [done|]. apply IH; [done|]. naive_solver.
Qed.

Lemma copy_one fuel t record : redact_record fuel [t] record = redact_bytes fuel record t.
Proof. simpl. by destruct (redact_bytes fuel record t). Qed.

Lemma credential_token_spec credential t :
  credential_token credential = Some t -> ~ has_char newline t /\ (32 <= String.length t)%nat.
Proof.
  unfold credential_token. destruct (split newline credential) as [|p ps] eqn:E; [done|].
  destruct (Z.leb_spec 32 (Z.of_nat (String.length p))); [|done]. intros [= <-].
  split; [|lia]. clear -E. revert p ps E. induction credential as [|c s IH]; intros p ps; simpl.
  - intros [= <- _]. rewrite has_char_nil. tauto.
  - case_bool_decide; [intros [= <- _]; rewrite has_char_nil; tauto|].
    destruct (split newline s) as [|q qs] eqn:Hs; [by apply split_ne_nil in Hs|].
    intros [= <- _]. rewrite has_char_cons. specialize (IH q qs eq_refl). tauto.
Qed.

(** C35: the credential of an execution never reaches the files that keep Pi's
    output.  Given the token of a credential file, the copy loop ends on every
    input, within as many substitutions as the input has bytes; what it has
    written contains the token nowhere, not even across lines; it has the lines
    of the input, and is the input itself when the token does not occur. *)
Theorem credential_stays_off_disk credential token input fuel :
  credential_token credential = Some token -> (String.length input <= fuel)%nat ->
  exists out, copy_output fuel [token] input = Some out /\ contains token out = false /\
    count_char newline out = count_char newline input /\
    (contains token input = false -> out = input).
Proof.
  intros [Hnl Hlen]%credential_token_spec. unfold copy_output.
  assert (Hne : token <> ""%string) by (intros ->; simpl in Hlen; lia).
  assert (Hr : ~ has_char newline REDACTION) by by vm_compute.
  assert (Hrl : (String.length REDACTION < String.length token)%nat) by (simpl; lia).
  revert fuel. induction input as [s Hs|a s Ha IH] using (string_lines_ind newline);
    intros fuel Hf.
  - rewrite split_inclusive_rest by done. destruct (str_is_empty s) eqn:Es.
    + destruct s; [|done]. exists ""%string. split; [done|]. split; [|done]. by destruct token.
    + destruct (redact_bytes_total newline fuel s token) as (out & Ho & H1 & H2 & H3); [done..|].
      exists out. cbn [copy_records]. rewrite copy_one, Ho. simpl.
      assert ((out +:+ "")%string = out) as ->; [|done].
      clear. induction out as [|c out IH]; [done|]. rewrite string_app_cons. by f_equal.
  - rewrite string_length_app in Hf. simpl in Hf. rewrite split_inclusive_line by done.
    destruct (redact_bytes_total newline fuel a token) as (o & Ho & H1 & H2 & H3); [done..|lia|].
    destruct (IH fuel) as (os & Hos & H4 & H5 & H6); [lia|].
    exists (o +:+ String newline os)%string. cbn [copy_records].
    rewrite copy_one, redact_bytes_sep, Ho by done. simpl. rewrite Hos. simpl.
    rewrite string_app_assoc, string_app_cons, string_app_nil. split; [done|].
    rewrite !contains_sep, H1, H4 by done. split; [done|].
    rewrite !count_char_app. simpl. rewrite H2, H5. split; [done|].
    rewrite orb_false_iff. intros [Hca Hcs]. by rewrite H3, H6.
Qed.

Definition example_credential : string :=
  "sk-credential-of-thirty-two-bytes" +:+ String newline "rotated yearly".

Lemma credential_stays_off_disk_witness :
  credential_token example_credential = Some "sk-credential-of-thirty-two-bytes"%string /\
  exists out, copy_output 100 ["sk-credential-of-thirty-two-bytes"]
    ("a sk-credential-of-thirty-two-bytes" +:+ String newline "b")%string = Some out /\
    contains "sk-credential-of-thirty-two-bytes" out = false.
Proof.
  split; [by vm_compute|].
  destruct (credential_stays_off_disk example_credential "sk-credential-of-thirty-two-bytes"
    ("a sk-credential-of-thirty-two-bytes" +:+ String newline "b")%string 100)
    as (out & Ho & Hc & _); [by vm_compute|vm_compute; lia|].
  by exists out.
Defined.
