(* ===== verification/PiPolling.v ===== *)
(** * The event stream of a Pi session

    [poll_events] is called again and again while the agent writes; it may fail
    and the worker may be killed in it.  The first part is the specification:
    what all polls together deliver is what one pass over the records would,
    each record reduced once, in order.  The second is the session directory as
    the file calls of the harness see it, and one poll against it. *)

From Stdlib Require Import Ascii.
From S2P Require Import Prelude Core Database Lifecycle Effects StorageModel FileSystem StorageCodec PiHarness PiEvents PiRedaction.



(** ** The specification: one pass over what happened *)
Inductive Input := Record_ (record : Value) | Gone.

Definition record_of (i : Input) : option Value :=
  match i with Record_ record => Some record | Gone => None end.

Definition kinds_of (n : Normalized) : list ExecutionEventKind :=
  match n with Event e => [ExecutionEvent.kind e] | _ => [] end.

Section Spec.
Context (session : SessionRef) (epoch : Timestamp).

Definition reduce_input (i : Input) (r : ReducerState) : list ExecutionEventKind * ReducerState :=
  match i with
  | Record_ record => let '(n, r) := normalize session epoch record r in (kinds_of n, r)
  | Gone =>
      if bool_decide (ReducerState.terminal r = TerminalState.Active)
      then let '(n, r) := harness_failed session epoch r in (kinds_of n, r) else ([], r)
  end.

Fixpoint reduce (inputs : list Input) (r : ReducerState) : list ExecutionEventKind * ReducerState :=
  match inputs with
  | [] => ([], r)
  | i :: inputs =>
      let '(ks, r) := reduce_input i r in
      let '(ks', r) := reduce inputs r in
      (ks ++ ks', r)
  end.

Lemma reduce_app inputs inputs' r :
  reduce (inputs ++ inputs') r =
  (let '(ks, r) := reduce inputs r in let '(ks', r) := reduce inputs' r in (ks ++ ks', r)).
Proof.
  revert r. induction inputs as [|i inputs IH]; intros r; simpl.
  - by destruct (reduce inputs' r).
  - destruct (reduce_input i r) as [ks r1]. rewrite IH.
    destruct (reduce inputs r1) as [ks1 r2]. destruct (reduce inputs' r2). by rewrite assoc by apply _.
Qed.
End Spec.

(** The clock has no part in which events there are. *)
Lemma normalize_clock session now now' record r :
  kinds_of (normalize session now record r).1 = kinds_of (normalize session now' record r).1 /\
  (normalize session now record r).2 = (normalize session now' record r).2.
Proof.
  unfold normalize, settle, model_failed, harness_failed.
  destruct (get_str "type" record); [|done]. repeat case_match; simpl in *; by simplify_eq/=.
Qed.

(** ** The protocol of the events

    A run of the agent starts, may become reviewable once, and may fail once;
    only a new start follows a failure. *)
Inductive Phase := Working | Reviewable | Dead.

Definition phase_of (t : TerminalState) : Phase :=
  match t with
  | TerminalState.Active => Working
  | TerminalState.ReviewReady => Reviewable
  | TerminalState.ModelFailed | TerminalState.HarnessFailed => Dead
  end.

Definition next_phase (k : ExecutionEventKind) (p : Phase) : option Phase :=
  match k, p with
  | ExecutionEventKind.AgentStarted _, _ => Some Working
  | ExecutionEventKind.TestsStarted, _ | ExecutionEventKind.TestsFailed, _ => Some p
  | ExecutionEventKind.ReviewReady, Working => Some Reviewable
  | ExecutionEventKind.ExecutionFailed FailureClass.ModelFailed, (Working | Reviewable)
  | ExecutionEventKind.ExecutionFailed FailureClass.HarnessFailed, Working => Some Dead
  | _, _ => None
  end.

Fixpoint protocol (ks : list ExecutionEventKind) (p : Phase) : option Phase :=
  match ks with
  | [] => Some p
  | k :: ks => p ← next_phase k p; protocol ks p
  end.

Lemma protocol_app ks ks' p : protocol (ks ++ ks') p = (p ← protocol ks p; protocol ks' p).
Proof. revert p. induction ks as [|k ks IH]; intros p; simpl; [done|]. by destruct (next_phase k p); simpl. Qed.

(** A turn of the agent: an assistant message that is not a model error. *)
Definition is_turn (record : Value) : bool :=
  bool_decide (get_str "type" record = Some "message_end"%string) &&
  is_assistant_message record && negb (is_model_error record).

Definition reducer_wf (r : ReducerState) : Prop :=
  0 <= ReducerState.assistant_turns r /\
  (ReducerState.terminal r = TerminalState.ReviewReady -> 0 < ReducerState.assistant_turns r).

(** What one input may do: keep to the protocol, and count turns only. *)
Definition step_ok (turn : bool) (r : ReducerState) (n : Normalized * ReducerState) : Prop :=
  reducer_wf n.2 /\
  protocol (kinds_of n.1) (phase_of (ReducerState.terminal r)) =
    Some (phase_of (ReducerState.terminal n.2)) /\
  (0 < ReducerState.assistant_turns n.2 -> 0 < ReducerState.assistant_turns r \/ turn = true) /\
  (ExecutionEventKind.ReviewReady ∈ kinds_of n.1 -> 0 < ReducerState.assistant_turns r).

Section Step.
Context (session : SessionRef) (now : Timestamp) (turn : bool).

Lemma quiet_ok n r r' :
  reducer_wf r -> kinds_of n = [] ->
  ReducerState.terminal r' = ReducerState.terminal r ->
  ReducerState.assistant_turns r' = ReducerState.assistant_turns r -> step_ok turn r (n, r').
Proof.
  intros [Hp Ht] Hn Et Ea. unfold step_ok, reducer_wf. simpl. rewrite Hn, Et, Ea.
  repeat split; auto. intros H. by apply not_elem_of_nil in H.
Qed.

Lemma tests_ok r kind :
  reducer_wf r -> kind = ExecutionEventKind.TestsStarted \/ kind = ExecutionEventKind.TestsFailed ->
  step_ok turn r (Event (event session now ExecutionState.Running kind), r).
Proof. intros Hw [-> | ->]; repeat split; try apply Hw; auto; simpl; intros ?%list_elem_of_singleton; done. Qed.

Lemma model_failed_ok r r0 :
  reducer_wf r -> ReducerState.terminal r0 = ReducerState.terminal r ->
  ReducerState.assistant_turns r0 = ReducerState.assistant_turns r ->
  step_ok turn r (model_failed session now r0).
Proof.
  intros Hw Et Ea. unfold model_failed. rewrite Et.
  destruct (failed_terminal (ReducerState.terminal r)) eqn:Ef; [by apply quiet_ok|].
  unfold step_ok, reducer_wf. simpl. rewrite Ea. destruct Hw as [Hp _]. repeat split; auto; try done.
  - by destruct (ReducerState.terminal r).
  - intros ?%list_elem_of_singleton; done.
Qed.

Lemma harness_failed_ok r :
  reducer_wf r -> ReducerState.terminal r = TerminalState.Active ->
  step_ok turn r (harness_failed session now r).
Proof.
  intros [Hp _] Et. unfold step_ok, reducer_wf. simpl. rewrite Et. repeat split; auto; try done.
  intros ?%list_elem_of_singleton; done.
Qed.

Lemma settle_ok r : reducer_wf r -> step_ok turn r (settle session now r).
Proof.
  intros Hw. unfold settle.
  destruct (failed_terminal _) eqn:Ef; [by apply quiet_ok|].
  destruct (_ || _); [by apply model_failed_ok|].
  destruct (Z.eqb_spec (ReducerState.assistant_turns r) 0) as [E|E].
  - apply harness_failed_ok; [done|]. destruct Hw as [_ Hw].
    destruct (ReducerState.terminal r); [done| |done|done]. specialize (Hw eq_refl). lia.
  - case_bool_decide as Ht; [by apply quiet_ok|]. destruct Hw as [Hp _].
    unfold step_ok, reducer_wf. simpl. repeat split; auto; try lia.
    by destruct (ReducerState.terminal r).
Qed.
End Step.

Lemma normalize_ok session now record r :
  reducer_wf r -> step_ok (is_turn record) r (normalize session now record r).
Proof.
  intros Hw. unfold normalize. destruct (get_str "type" record) as [ty|] eqn:Ety; [|by apply quiet_ok].
  repeat match goal with
    |- step_ok _ _ (if bool_decide (ty = ?name) then _ else _) =>
      case_bool_decide; [subst ty|]
  end.
  all: first [by apply settle_ok | by apply model_failed_ok | (apply tests_ok; by auto) | idtac].
  - unfold step_ok, reducer_wf. simpl. repeat split; auto; try lia; try done.
    intros ?%list_elem_of_singleton; done.
  - unfold is_turn. rewrite Ety, bool_decide_true by done.
    destruct (is_assistant_message record); [|by apply quiet_ok]. simpl.
    destruct (is_model_error record); [by apply quiet_ok|]. destruct Hw as [Hp Ht].
    unfold step_ok, reducer_wf. simpl. repeat split; auto; try lia.
    intros Hin. by apply not_elem_of_nil in Hin.
  - destruct (_ && _); [by apply model_failed_ok|by apply quiet_ok].
  - by apply quiet_ok.
  - by apply quiet_ok.
  - destruct (_ && _); [apply tests_ok; by auto|]. case_bool_decide; by apply quiet_ok.
Qed.

Lemma reduce_input_ok session epoch i r :
  reducer_wf r ->
  exists n, reduce_input session epoch i r = (kinds_of n.1, n.2) /\
    step_ok (match i with Record_ record => is_turn record | Gone => false end) r n.
Proof.
  intros Hw. destruct i as [record|]; simpl.
  - exists (normalize session epoch record r). split; [by destruct (normalize _ _ _ _)|].
    by apply normalize_ok.
  - case_bool_decide as Ht.
    + exists (harness_failed session epoch r). split; [done|]. by apply harness_failed_ok.
    + exists (KnownIgnored, r). split; [done|]. by apply quiet_ok.
Qed.

(** One pass keeps to the protocol, and reports work for review only when there
    was a turn. *)
Lemma reduce_ok session epoch inputs r ks r' :
  reducer_wf r -> reduce session epoch inputs r = (ks, r') ->
  reducer_wf r' /\
  protocol ks (phase_of (ReducerState.terminal r)) = Some (phase_of (ReducerState.terminal r')) /\
  (0 < ReducerState.assistant_turns r' \/ ExecutionEventKind.ReviewReady ∈ ks ->
     0 < ReducerState.assistant_turns r \/ exists v, Record_ v ∈ inputs /\ is_turn v = true).
Proof.
  revert r ks. induction inputs as [|i inputs IH]; intros r ks Hw; simpl.
  - intros [= <- <-]. split; [done|]. split; [done|]. intros [?|?%not_elem_of_nil]; [by left|done].
  - destruct (reduce_input_ok session epoch i r Hw) as ([n r1] & -> & Hw1 & Hp & Ht & Hr). simpl in *.
    destruct (reduce session epoch inputs r1) as [ks1 r2] eqn:E. intros [= <- <-].
    destruct (IH r1 ks1 Hw1 E) as (Hw2 & Hp2 & Hr2). split; [done|].
    rewrite protocol_app, Hp. simpl. split; [done|].
    assert (0 < ReducerState.assistant_turns r1 ->
      0 < ReducerState.assistant_turns r \/ exists v, Record_ v ∈ i :: inputs /\ is_turn v = true) as Ht'.
    { intros H. destruct (Ht H) as [?|Hi]; [by left|right]. destruct i as [v|]; [|done].
      exists v. split; [by left|done]. }
    rewrite elem_of_app. intros [H|[H|H]]; [|left; auto|];
      (destruct Hr2 as [?|(v & Hv & ?)]; [by auto|by auto|right; exists v; split; [by right|done]]).
Qed.

(** ** The last piece of a path *)
Lemma split_last d a b :
  ~ has_char d b -> exists x, last (split d (a +:+ b)) = Some (x +:+ b)%string /\ split d (a +:+ b) <> [].
Proof.
  intros Hb. induction a as [|c a IH].
  - exists ""%string. rewrite !string_app_nil. destruct (split d b) as [|p ps] eqn:E.
    + by apply split_ne_nil in E.
    + assert (split d b = [b]) as H by by apply split_one. rewrite E in H. by simplify_eq.
  - destruct IH as (x & Hx & Hne). rewrite string_app_cons. simpl. case_bool_decide.
    + exists x. split; [|done]. by destruct (split d (a +:+ b)).
    + destruct (split d (a +:+ b)) as [|p [|q qs]]; [done| |by exists x].
      simpl in *. simplify_eq. by exists (String c x).
Qed.

(** The file name of a path that ends in a plain piece longer than two bytes. *)
Lemma file_name_tail a b :
  ~ has_char "/" b -> (2 < String.length b)%nat -> exists x, file_name (a +:+ b) = Some (x +:+ b)%string.
Proof.
  intros Hb Hl. destruct (split_last "/" a b Hb) as (x & Hx & Hne).
  assert (Hlen : (2 < String.length (x +:+ b))%nat) by (rewrite string_length_app; lia).
  exists x. unfold file_name, components. simpl.
  enough (last (match split "/" (a +:+ b) with
                | first :: rest => (if str_is_empty first then [] else [first]) ++
                    List.filter (fun c => negb (str_is_empty c) && negb (bool_decide (c = "."%string))) rest
                | [] => [] end) = Some (x +:+ b)%string) as ->.
  { case_bool_decide as E1; [rewrite E1 in Hlen; simpl in Hlen; lia|].
    case_bool_decide as E2; [rewrite E2 in Hlen; simpl in Hlen; lia|]. done. }
  destruct (split "/" (a +:+ b)) as [|first rest]; [done|].
  destruct rest as [|q rest _] using rev_ind.
  - simpl in Hx. simplify_eq. simpl. destruct (x +:+ b)%string eqn:E; [simpl in Hlen; lia|done].
  - rewrite app_comm_cons, last_snoc in Hx. simplify_eq. rewrite List.filter_app. simpl.
    rewrite bool_decide_false by (intros E; rewrite E in Hlen; simpl in Hlen; lia).
    destruct (x +:+ b)%string eqn:E; [simpl in Hlen; lia|]. simpl. rewrite <- E.
    by rewrite app_assoc, last_snoc.
Qed.

(** * Polling a Pi session

    The world of a session: its files, the agent that appends to the live event
    file while it runs, and the polls.  Every call may fail; a poll may be cut
    short at any call.  The theorem relates what the polls deliver to the single
    pass above. *)

(** ** The world *)
Record PiWorld := {
  files : gmap string string;
  exited : bool;                      (* the process of the session is gone *)
  died : bool                         (* one of its processes has ever gone *)
}.

Definition set_files (fs : gmap string string) (w : PiWorld) : PiWorld :=
  {| files := fs; exited := exited w; died := died w |}.

Fixpoint str_drop (n : nat) (s : string) : string :=
  match n, s with
  | S n, String _ s => str_drop n s
  | _, _ => s
  end.

Lemma str_drop_app n s :
  (n <= String.length s)%nat -> exists pre, s = (pre +:+ str_drop n s)%string /\ String.length pre = n.
Proof.
  revert s. induction n as [|n IH]; intros s Hn; [by exists ""%string|].
  destruct s as [|c s]; simpl in *; [lia|]. destruct (IH s) as (pre & Hs & Hl); [lia|].
  exists (String c pre). simpl. rewrite Hl. split; [|done]. by rewrite string_app_cons, <- Hs.
Qed.

Section Polling.
Context `{JsonText} `{CursorText} (config : PiHarnessConfig) (session : SessionRef).
(** Where [canonicalize] leads; the directories above the session do not move. *)
Context (canonical : string -> string).

Abbreviation cursor_path := (cursor_path session).

Definition live_path : string :=
  match parent_path (events_path session), file_name (events_path session) with
  | Some dir, Some name => join (canonical dir) name
  | _, _ => ""
  end.

Definition live (w : PiWorld) : string := default "" (files w !! live_path).

(** What a call may answer, and the world after it.  [Path::exists] is taken to
    find a live file that is there, once its directory has been resolved. *)
Definition pi_sem (B : Type) (c : pi_call B) (w : PiWorld) : B -> PiWorld -> Prop :=
  match c in Pi.pi_call B return B -> PiWorld -> Prop with
  | Pi.Canonicalize path => fun r w' => w' = w /\
      match r with Ok dir => dir = canonical path | Err _ => True end
  | Pi.SymlinkMetadata path => fun r w' => w' = w /\
      match r with Err NOENT => files w !! path = None | _ => True end
  | Pi.Exists path => fun b w' => w' = w /\ (b = true <-> is_Some (files w !! path))
  | Pi.Open path => fun r w' => w' = w /\
      match r with
      | Ok f => f = {| file_path := path; position := 0 |} /\ is_Some (files w !! path)
      | Err _ => True
      end
  | Pi.CreateNew path => fun r w' =>
      match r with
      | Ok f => f = {| file_path := path; position := 0 |} /\ files w !! path = None /\
                w' = set_files (<[path := ""%string]> (files w)) w
      | Err _ => w' = w
      end
  | Pi.FileMetadata f => fun r w' => w' = w /\
      match r with
      | Ok m => exists data, files w !! file_path f = Some data /\ m.2 = Z.of_nat (String.length data)
      | Err _ => True
      end
  | Pi.Seek f offset => fun r w' => w' = w /\
      match r with
      | Ok f' => f' = {| file_path := file_path f; position := offset |}
      | Err _ => True
      end
  | Pi.ReadToEnd f => fun r w' => w' = w /\
      match r with
      | Ok bytes => exists data, files w !! file_path f = Some data /\
          bytes = str_drop (Z.to_nat (position f)) data
      | Err _ => True
      end
  | Pi.WriteAll f bytes => fun r w' =>
      match r with
      | Ok _ => exists data, files w !! file_path f = Some data /\
          w' = set_files (<[file_path f := (data +:+ bytes)%string]> (files w)) w
      | Err _ => exists data, w' = set_files (<[file_path f := data]> (files w)) w
      end
  | Pi.Rename from to => fun r w' =>
      match r with
      | Ok _ => exists data, files w !! from = Some data /\
          w' = set_files (<[to := data]> (delete from (files w))) w
      | Err _ => w' = w
      end
  | Pi.NewUuid => fun uuid w' => w' = w /\ String.length uuid = 32%nat /\
      string_forallb is_ascii_hexdigit uuid = true
  | Pi.SessionProcessExited _ => fun r w' => w' = w /\
      match r with Ok b => b = true -> exited w = true | Err _ => True end
  | _ => fun _ w' => w' = w
  end.

(** Meanwhile the agent appends to its live file, ends, or is started again. *)
Definition agent_step (w w' : PiWorld) : Prop :=
  (exited w = false /\ exists more,
     w' = set_files (<[live_path := (live w +:+ more)%string]> (files w)) w) \/
  (files w' = files w /\ died w' = died w || exited w').

(** The paths involved are different. *)
Lemma last_byte_forallb p s :
  string_forallb p s = true -> s <> ""%string -> exists c, last_byte s = Some c /\ p c = true.
Proof.
  induction s as [|c s IH]; [done|]. simpl. rewrite andb_true_iff. intros [Hc Hs] _.
  destruct s as [|c' s']; [by exists c|]. by apply IH.
Qed.

Lemma events_path_name :
  exists name, file_name (events_path session) = Some name /\ last_byte name = Some "l"%char /\ name <> ""%string.
Proof.
  unfold events_path.
  destruct (join_relative (SessionRef.path session) ("pi.events-" +:+ SessionRef.id session +:+ ".jsonl")) as [a ->];
    [done|].
  rewrite <- (string_app_assoc "pi.events-"), <- string_app_assoc.
  destruct (file_name_tail (a +:+ ("pi.events-" +:+ SessionRef.id session)) ".jsonl") as [x Hx];
    [by vm_compute|simpl; lia|].
  exists (x +:+ ".jsonl")%string. split; [done|]. split; [by rewrite last_byte_app|].
  by apply string_app_ne_nil.
Qed.

Lemma live_path_last : live_path = ""%string \/ last_byte live_path = Some "l"%char.
Proof.
  unfold live_path. destruct events_path_name as (name & -> & Hl & Hne).
  destruct (parent_path _); [|by left]. right. by rewrite last_byte_join.
Qed.

Lemma cursor_path_last : last_byte cursor_path = Some "r"%char.
Proof. unfold cursor_path. by rewrite last_byte_join. Qed.

Lemma live_ne_cursor : live_path <> cursor_path.
Proof.
  intros E. pose proof cursor_path_last as H'. rewrite <- E in H'.
  destruct live_path_last as [Hl|Hl]; rewrite Hl in H'; [done|]. discriminate H'.
Qed.

(** A temporary name ends in a hexadecimal digit. *)
Lemma temporary_path uuid :
  String.length uuid = 32%nat -> string_forallb is_ascii_hexdigit uuid = true ->
  is_Some (parent_path cursor_path) ->
  let temporary := with_extension cursor_path ("tmp-" +:+ uuid) in
  temporary <> cursor_path /\ temporary <> live_path.
Proof.
  intros Hl Hh [dir Hdir]. assert (Hne : uuid <> ""%string) by by destruct uuid.
  assert (exists name, file_name cursor_path = Some name) as [name Hn].
  { destruct (join_relative (SessionRef.path session) CURSOR_FILE) as [a Ha]; [done|].
    destruct (file_name_tail a CURSOR_FILE) as [x Hx]; [by vm_compute|simpl; lia|].
    unfold cursor_path. rewrite Ha. by eexists. }
  unfold with_extension. rewrite Hdir, Hn.
  assert (last_byte (join dir (default ""%string (file_stem cursor_path)) +:+ "." +:+ "tmp-" +:+ uuid)
    = last_byte uuid) as Hlast.
  { rewrite !last_byte_app; [done|..]; repeat apply string_app_ne_nil; done. }
  destruct (last_byte_forallb _ _ Hh Hne) as (c & Hc & Hd). rewrite Hc in Hlast.
  split; intros E.
  - assert (Some c = Some "r"%char) as [= ->]; [|by vm_compute in Hd].
    rewrite <- Hlast, E. apply cursor_path_last.
  - rewrite E in Hlast. destruct live_path_last as [H'|H']; rewrite H' in Hlast; [done|].
    injection Hlast as <-. by vm_compute in Hd.
Qed.

(** ** What the agent leaves alone *)
Definition later (w w' : PiWorld) : Prop :=
  (forall p, p <> live_path -> files w' !! p = files w !! p) /\
  (exists more, live w' = (live w +:+ more)%string) /\
  (is_Some (files w !! live_path) -> is_Some (files w' !! live_path)) /\
  (died w = true -> died w' = true) /\
  ((exited w = true -> died w = true) -> exited w' = true -> died w' = true).

Lemma agent_step_later w w' : agent_step w w' -> later w w'.
Proof.
  intros [(Hx & more & ->)|(Hf & Hd)]; unfold later, live; simpl.
  - split; [intros p Hp; by rewrite lookup_insert_ne|]. rewrite lookup_insert_eq. simpl.
    split; [by eexists|]. split; [by eexists|]. split; [done|]. intros _ E. congruence.
  - rewrite Hf. split; [done|]. split; [exists ""%string; by rewrite string_app_nil_r|].
    split; [done|]. rewrite Hd. split; [by intros ->|]. intros _ ->. apply orb_true_r.
Qed.

Lemma agent_later w w' : rtc agent_step w w' -> later w w'.
Proof.
  induction 1 as [w|w1 w2 w3 H12%agent_step_later _ IH].
  - split; [done|]. split; [exists ""%string; by rewrite string_app_nil_r|]. naive_solver.
  - destruct H12 as (F1 & (m1 & L1) & S1 & D1 & X1), IH as (F2 & (m2 & L2) & S2 & D2 & X2).
    split; [intros p Hp; by rewrite F2, F1|].
    split; [exists (m1 +:+ m2)%string; by rewrite L2, L1, string_app_assoc|]. naive_solver.
Qed.

(** What a poll relies on: the cursor file is as it was, the live file has grown. *)
Definition seen (w w' : PiWorld) : Prop :=
  files w' !! cursor_path = files w !! cursor_path /\
  (exists more, live w' = (live w +:+ more)%string) /\
  (died w = true -> died w' = true) /\
  ((exited w = true -> died w = true) -> exited w' = true -> died w' = true).

#[global] Instance seen_preorder : PreOrder seen.
Proof.
  split.
  - intros w. split; [done|]. split; [exists ""%string; by rewrite string_app_nil_r|]. naive_solver.
  - intros w1 w2 w3 (F1 & (m1 & L1) & D1 & X1) (F2 & (m2 & L2) & D2 & X2).
    split; [congruence|]. split; [|naive_solver].
    exists (m1 +:+ m2)%string. by rewrite L2, L1, string_app_assoc.
Qed.

Lemma agent_seen w w' : rtc agent_step w w' -> seen w w'.
Proof.
  intros (F & L & _ & D & X)%agent_later. split; [|done]. apply F, not_eq_sym, live_ne_cursor.
Qed.

(** A change of some other file. *)
Lemma other_file_seen w p o :
  p <> cursor_path -> p <> live_path -> seen w (set_files (partial_alter (fun _ => o) p (files w)) w).
Proof.
  intros Hc Hl. unfold seen, live. simpl. rewrite !lookup_partial_alter_ne by done.
  split; [done|]. split; [exists ""%string; by rewrite string_app_nil_r|]. naive_solver.
Qed.

(** The moment of the commit. *)
Definition committed (bytes : string) (w w' : PiWorld) : Prop :=
  files w' !! cursor_path = Some bytes /\ live w' = live w /\ exited w' = exited w /\ died w' = died w.

(** ** Calls that only look *)
Definition looks (B : Type) (c : pi_call B) : Prop :=
  match c with Pi.CreateNew _ | Pi.WriteAll _ _ | Pi.Rename _ _ => False | _ => True end.

Lemma looks_sem B (c : pi_call B) w b w' : looks B c -> pi_sem B c w b w' -> w' = w.
Proof. destruct c; simpl; try done; intros _; naive_solver. Qed.

Context (G : PiWorld -> PiWorld -> Prop).
Hypothesis (G_seen : forall w w', seen w w' -> G w w').

#[local] Lemma G_refl w : G w w.
Proof. by apply G_seen. Qed.
#[local] Hint Resolve G_refl : core.

Abbreviation wp := (chl pi_sem agent_step G).

Lemma wp_looks {A} (p : proc pi_call A) Q w :
  all_calls looks p -> (forall a w', rtc agent_step w w' -> Q a w') -> wp p Q w.
Proof.
  revert w. induction p as [a|B c k IH]; simpl; intros w Hp HQ; [auto|].
  destruct Hp as [Hc Hk]. intros w1 H1 b w2 Hs. apply (looks_sem _ _ _ _ _ Hc) in Hs as ->.
  split; [done|]. apply IH; [done|]. intros a w' H'. apply HQ. by etrans.
Qed.

Lemma wp_ask {A B} (c : pi_call B) (k : B -> pio A) Q w :
  looks B c -> (forall w1 b, rtc agent_step w w1 -> pi_sem B c w1 b w1 -> wp (k b) Q w1) ->
  wp (ask c ≫= k) Q w.
Proof.
  intros Hc Hk w1 H1 b w2 Hs. pose proof (looks_sem _ _ _ _ _ Hc Hs) as ->.
  split; [done|]. by apply Hk.
Qed.

Lemma wp_ask_or {A B F} (c : pi_call (result F B)) f (k : B -> pio A) (Q : _ -> PiWorld -> Prop) w :
  looks _ c -> (forall e w', rtc agent_step w w' -> Q (Err e) w') ->
  (forall w1 b, rtc agent_step w w1 -> pi_sem _ c w1 (Ok b) w1 -> wp (k b) Q w1) ->
  wp (ask_or c f ≫= k) Q w.
Proof.
  intros Hc He Hk w1 H1 [b|e] w2 Hs; pose proof (looks_sem _ _ _ _ _ Hc Hs) as ->;
    (split; [done|]); [by apply Hk|].
  intros w2 H2. apply He. by etrans.
Qed.

Lemma wp_result {A B} (x : result HarnessError A) (k : A -> pio B) (Q : _ -> PiWorld -> Prop) w :
  (forall e w', rtc agent_step w w' -> Q (Err e) w') -> (forall a, x = Ok a -> wp (k a) Q w) ->
  wp (ret_result x ≫= k) Q w.
Proof. destruct x as [a|e]; intros He Hk; [by apply Hk|]. intros w1 H1. by apply He. Qed.

(** A file-system call in last position. *)
Lemma wp_last {B} (c : pi_call (result Errno B)) (Q : _ -> PiWorld -> Prop) w :
  looks _ c -> (forall e w', rtc agent_step w w' -> Q (Err e) w') ->
  (forall w1 b, rtc agent_step w w1 -> pi_sem _ c w1 (Ok b) w1 ->
     forall w', rtc agent_step w1 w' -> Q (Ok b) w') ->
  wp (file_io c) Q w.
Proof.
  intros Hc He Hk w1 H1 [b|e] w2 Hs; pose proof (looks_sem _ _ _ _ _ Hc Hs) as ->; (split; [done|]).
  - intros w3 H3. by eapply Hk.
  - intros w3 H3. apply He. by etrans.
Qed.

(** ** Reading a real file *)
Lemma wp_open_real path (Q : _ -> PiWorld -> Prop) w :
  (forall e w', rtc agent_step w w' -> Q (Err e) w') ->
  (forall w1 w', rtc agent_step w w1 -> rtc agent_step w1 w' -> is_Some (files w1 !! path) ->
     Q (Ok {| file_path := path; position := 0 |}) w') ->
  wp (open_real_file_read path) Q w.
Proof.
  intros He Hk. unfold open_real_file_read.
  apply wp_ask_or; [done|done|]. intros w1 m1 H1 _.
  apply wp_result; [intros e w' ?; apply He; by etrans|]. intros _ _.
  apply wp_ask_or; [done|intros e w' ?; apply He; by etrans|]. intros w2 f H2 (_ & -> & Hf).
  assert (rtc agent_step w w2) as H02 by by etrans.
  apply wp_ask_or; [done|intros e w' ?; apply He; by etrans|]. intros w3 m3 H3 _.
  assert (rtc agent_step w w3) as H03 by by etrans.
  apply wp_ask_or; [done|intros e w' ?; apply He; by etrans|]. intros w4 m4 H4 _.
  assert (rtc agent_step w w4) as H04 by by etrans.
  apply wp_result; [intros e w' ?; apply He; by etrans|]. intros _ _ w5 H5.
  apply (Hk w2); [done| |done]. etrans; [exact H3|]. by etrans.
Qed.

Lemma wp_read_real path (Q : _ -> PiWorld -> Prop) w :
  (forall e w', rtc agent_step w w' -> Q (Err e) w') ->
  (forall w1 w' bytes, rtc agent_step w w1 -> rtc agent_step w1 w' ->
     files w1 !! path = Some bytes -> Q (Ok bytes) w') ->
  wp (read_real_file path) Q w.
Proof.
  intros He Hk. apply chl_io_bind, wp_open_real.
  - intros e w' H1 w1 H2. apply He. by etrans.
  - intros w1 w' H1 H2 _. assert (rtc agent_step w w') as H02 by by etrans.
    apply wp_last; [done|intros e w2 ?; apply He; by etrans|].
    intros w2 b H3 (_ & data & Hd & ->) w3 H4. apply (Hk w2); [by etrans|done|done].
Qed.

(** ** The cursor file *)
Definition cursors_at (w : PiWorld) : option CursorFile :=
  match files w !! cursor_path with
  | None => Some ∅
  | Some bytes => if string_forallb is_ascii_whitespace bytes then Some ∅ else cursors_from_slice bytes
  end.

Lemma cursors_later w w' : later w w' -> cursors_at w' = cursors_at w.
Proof. intros (Hf & _). unfold cursors_at. rewrite Hf; [done|]. apply not_eq_sym, live_ne_cursor. Qed.

Lemma wp_read_cursors (Q : _ -> PiWorld -> Prop) w :
  (forall e w', rtc agent_step w w' -> Q (Err e) w') ->
  (forall w' cs, rtc agent_step w w' -> cursors_at w' = Some cs -> Q (Ok cs) w') ->
  wp (read_cursors cursor_path) Q w.
Proof.
  intros He Hk. unfold read_cursors. apply wp_ask; [done|]. intros w1 [m|[]] H1 Hs.
  - apply chl_io_bind, wp_read_real.
    + intros e w' H2 w2 H3. apply He. etrans; [exact H1|]. by etrans.
    + intros w2 w' bytes H2 H3 Hb. assert (rtc agent_step w w') as H02
        by (etrans; [exact H1|]; by etrans).
      assert (forall cs w3, rtc agent_step w' w3 ->
        (if string_forallb is_ascii_whitespace bytes then Some ∅ else cursors_from_slice bytes) = Some cs ->
        Q (Ok cs) w3) as Hok.
      { intros cs w3 H4 Hcs. apply Hk; [by etrans|].
        rewrite (cursors_later w2) by (apply agent_later; by etrans).
        unfold cursors_at. by rewrite Hb. }
      destruct (string_forallb _ bytes); [intros w3 H4; by apply Hok|].
      destruct (cursors_from_slice bytes) as [cs|]; intros w3 H4; [by apply Hok|].
      apply He. by etrans.
  - destruct Hs as [_ Hs]. intros w2 H2. apply Hk; [by etrans|].
    rewrite (cursors_later w1) by by apply agent_later. unfold cursors_at. by rewrite Hs.
  - intros w2 H2. apply He. by etrans.
  - intros w2 H2. apply He. by etrans.
Qed.

(** ** The live file *)
Lemma wp_normalized_absolute (Q : _ -> PiWorld -> Prop) w :
  (forall e w', rtc agent_step w w' -> Q (Err e) w') ->
  (forall w', rtc agent_step w w' -> Q (Ok live_path) w') ->
  wp (normalized_absolute (events_path session)) Q w.
Proof.
  intros He Hk. unfold normalized_absolute, live_path in *.
  apply wp_result; [done|]. intros _ _. unfold some_or.
  apply wp_result; [done|]. intros dir Hd. apply wp_result; [done|]. intros name Hn.
  destruct (parent_path _) as [dir'|]; [|done]. destruct (file_name _) as [name'|]; [|done].
  simpl in Hd, Hn. simplify_eq.
  apply wp_ask_or; [done|done|]. intros w1 d H1 (_ & ->) w2 H2. apply Hk. by etrans.
Qed.

(** What was read is the live file from the offset on, at a time since [w]. *)
Definition read_from (c : JsonlCursor) (w w' : PiWorld) (bytes : string) : Prop :=
  (bytes = ""%string /\ live w = ""%string) \/
  exists pre rest more, live w' = (pre +:+ bytes +:+ rest)%string /\
    Z.of_nat (String.length pre) = JsonlCursor.offset c /\
    (pre +:+ bytes = live w +:+ more)%string.

Lemma string_app_nil_inv a b : (a +:+ b = "")%string -> a = ""%string.
Proof. by destruct a. Qed.

Lemma wp_read_after c (Q : _ -> PiWorld -> Prop) w :
  JsonlCursor.path c = live_path -> 0 <= JsonlCursor.offset c ->
  (forall e w', rtc agent_step w w' -> Q (Err e) w') ->
  (forall w' bytes, rtc agent_step w w' -> read_from c w w' bytes -> Q (Ok bytes) w') ->
  wp (read_after c) Q w.
Proof.
  intros Hp Ho He Hk. unfold read_after. rewrite Hp. apply wp_ask; [done|].
  intros w1 b H1 (_ & Hx). destruct (agent_later w w1 H1) as (_ & (m1 & Hm1) & _). destruct b.
  2: { intros w2 H2. apply Hk; [by etrans|]. left. split; [done|].
       destruct (files w1 !! live_path) eqn:E; [by assert (false = true) by by apply Hx|].
       unfold live in Hm1 at 1. rewrite E in Hm1. by eapply string_app_nil_inv. }
  clear Hx. apply chl_io_bind, wp_open_real; [intros e w' H2 w2 H3; apply He; etrans; [exact H1|by etrans]|].
  intros w2 w' H2 H3 _. assert (rtc agent_step w w') as H02 by (etrans; [exact H1|by etrans]).
  apply wp_ask_or; [done|intros e w3 ?; apply He; by etrans|].
  intros w3 m H4 (_ & data & Hd & Hm). simpl in Hd.
  assert (rtc agent_step w w3) as H03 by by etrans.
  apply wp_result; [intros e w4 ?; apply He; by etrans|]. intros ? Hle.
  unfold check in Hle. destruct (Z.leb_spec (JsonlCursor.offset c) m.2) as [Hoff|]; [clear Hle|done].
  apply wp_ask_or; [done|intros e w4 ?; apply He; by etrans|]. intros w4 f H5 (_ & ->).
  assert (rtc agent_step w w4) as H04 by by etrans.
  apply wp_last; [done|intros e w5 ?; apply He; by etrans|].
  simpl. intros w5 b H6 (_ & data' & Hd' & ->) w6 H7. apply Hk; [etrans; [exact H04|by etrans]|].
  right. destruct (agent_later w3 w5) as (_ & (more & Hmore) & _); [by etrans|].
  destruct (agent_later w w5) as (_ & (m5 & Hm5) & _); [by etrans|].
  destruct (agent_later w5 w6 H7) as (_ & (more' & Hmore') & _).
  assert (live w5 = data') as E5 by (unfold live; by rewrite Hd').
  assert (live w3 = data) as E3 by (unfold live; by rewrite Hd).
  rewrite E5 in Hmore, Hm5, Hmore'. rewrite E3 in Hmore.
  destruct (str_drop_app (Z.to_nat (JsonlCursor.offset c)) data') as (pre & Hpre & Hlen).
  { rewrite Hmore, string_length_app. lia. }
  exists pre, more', m5. rewrite Hmore', <- string_app_assoc, <- Hpre. split; [done|]. split; [lia|done].
Qed.

(** ** The records *)
Context (epoch : Timestamp).

Lemma wp_drain lines r (Q : _ -> PiWorld -> Prop) w :
  (forall e w', rtc agent_step w w' -> Q (Err e) w') ->
  (forall w' evs unknown r' records, rtc agent_step w w' ->
     List.map value_from_slice lines = List.map Some records ->
     reduce session epoch (List.map Record_ records) r = (List.map ExecutionEvent.kind evs, r') ->
     Q (Ok (evs, unknown, r')) w') ->
  wp (drain session lines r) Q w.
Proof.
  revert r Q w. induction lines as [|line lines IH]; intros r Q w He Hk; cbn [drain].
  - intros w1 H1. by apply (Hk w1 [] 0 r []).
  - unfold some_or. apply wp_result; [done|]. intros v Hv.
    destruct (value_from_slice line) as [v'|] eqn:Ev; [|done]. simpl in Hv. simplify_eq.
    apply wp_ask; [done|]. intros w1 now H1 _.
    destruct (normalize session now v r) as [n r1] eqn:En.
    apply chl_io_bind, IH; [intros e w2 H2 w3 H3; apply He; etrans; [exact H1|by etrans]|].
    intros w2 evs unknown r' records H2 Hl Hr w3 H3.
    destruct (normalize_clock session now epoch v r) as [Hc1 Hc2]. rewrite En in Hc1, Hc2. simpl in *.
    assert (rtc agent_step w w3) as H03 by (etrans; [exact H1|by etrans]).
    assert (reduce session epoch (List.map Record_ (v :: records)) r =
      (kinds_of n ++ List.map ExecutionEvent.kind evs, r')) as Hred.
    { simpl. destruct (normalize session epoch v r) as [n' r'']. simpl in *. subst r''.
      rewrite Hr. by rewrite Hc1. }
    destruct n; (eapply (Hk w3 _ _ _ (v :: records)); [done|simpl; by rewrite Ev, Hl|by rewrite Hred]).
Qed.

(** ** The commit *)
Lemma wp_change {A B} (c : pi_call (result Errno B)) f (k : B -> pio A) (Q : _ -> PiWorld -> Prop) w :
  (forall e w', seen w w' -> Q (Err e) w') ->
  (forall w1 e w2, pi_sem _ c w1 (Err e) w2 -> seen w1 w2) ->
  (forall w1 b w2, rtc agent_step w w1 -> pi_sem _ c w1 (Ok b) w2 -> G w1 w2 /\ wp (k b) Q w2) ->
  wp (ask_or c f ≫= k) Q w.
Proof.
  intros He Hs Hk w1 H1 [b|e] w2 Hc; [by apply Hk|]. apply Hs in Hc as H12. split; [by apply G_seen|].
  intros w3 H3. apply He. etrans; [by apply agent_seen|]. etrans; [exact H12|by apply agent_seen].
Qed.

(** A new file with contents that are flushed, next to the cursor file. *)
Lemma wp_temporary {A} temporary bytes (k : unit -> pio A) (Q : _ -> PiWorld -> Prop) w :
  temporary <> cursor_path -> temporary <> live_path ->
  (forall e w', seen w w' -> Q (Err e) w') ->
  (forall w1, seen w w1 -> files w1 !! temporary = Some bytes -> wp (k tt) Q w1) ->
  wp (file ← file_io (Pi.CreateNew temporary);
      _ ← file_io (Pi.SetPermissions file 384);
      _ ← file_io (Pi.WriteAll file bytes);
      u ← file_io (Pi.SyncAll file);
      k u) Q w.
Proof.
  intros Htc Htl He Hk.
  assert (forall w o, seen w (set_files (partial_alter (fun _ => o) temporary (files w)) w)) as Ht
    by (intros; by apply other_file_seen).
  assert (forall w1 w2, rtc agent_step w1 w2 -> files w2 !! temporary = files w1 !! temporary) as Hf
    by (intros w1 w2 H12; by apply (proj1 (agent_later _ _ H12))).
  apply wp_change; [done|by intros ? ? ? ->|]. intros w1 f w2 H1 (-> & _ & ->).
  assert (seen w1 (set_files (<[temporary := ""%string]> (files w1)) w1)) as S1 by apply (Ht w1 (Some _)).
  split; [by apply G_seen|]. set (w2 := set_files _ w1) in *.
  assert (seen w w2) as S2 by (etrans; [by apply agent_seen|done]).
  assert (files w2 !! temporary = Some ""%string) as F2 by apply lookup_insert_eq. clearbody w2.
  apply wp_change; [intros; apply He; by etrans|by intros ? ? ? ->|]. intros w3 [] w3' H3 ->.
  split; [by apply G_seen|]. assert (seen w w3) as S3 by (etrans; [exact S2|by apply agent_seen]).
  apply wp_change; [intros; apply He; by etrans|intros ? ? ? [data ->]; apply (Ht _ (Some _))|].
  intros w4 [] w5 H4 (data & Hd & ->). cbn [file_path] in *. split; [apply G_seen, (Ht w4 (Some _))|].
  rewrite (Hf _ _ H4), (Hf _ _ H3), F2 in Hd. injection Hd as <-.
  assert (seen w4 (set_files (<[temporary := bytes]> (files w4)) w4)) as S4 by apply (Ht w4 (Some _)).
  apply wp_change; [|by intros ? ? ? ->|].
  - intros e w' H'. apply He. etrans; [exact S3|]. etrans; [by apply agent_seen|]. by etrans.
  - intros w6 [] w6' H6 ->. split; [by apply G_seen|]. apply Hk.
    + etrans; [exact S3|]. etrans; [by apply agent_seen|]. etrans; [exact S4|by apply agent_seen].
    + rewrite (Hf _ _ H6). apply lookup_insert_eq.
Qed.

Lemma wp_atomic_write bytes (Q : _ -> PiWorld -> Prop) w :
  (forall e w', seen w w' -> Q (Err e) w') ->
  (forall w1 w2, seen w w1 -> committed bytes w1 w2 -> G w1 w2) ->
  (forall w1 w2 w', seen w w1 -> committed bytes w1 w2 -> rtc agent_step w2 w' -> Q (Ok tt) w') ->
  wp (atomic_write cursor_path bytes) Q w.
Proof.
  intros He HG Hk. assert (forall e w', rtc agent_step w w' -> Q (Err e) w') as He0
    by (intros e w' H'; by apply He, agent_seen).
  unfold atomic_write, some_or. apply wp_result; [done|]. intros dir Hdir.
  assert (is_Some (parent_path cursor_path)) as Hp by by destruct (parent_path cursor_path).
  apply wp_ask_or; [done|done|]. intros w1 m H1 _.
  apply wp_result; [intros e w' ?; apply He0; by etrans|]. intros ? _.
  apply wp_ask; [done|]. intros w2 uuid H2 (_ & Hu & Hh).
  destruct (temporary_path uuid Hu Hh Hp) as [Htc Htl].
  assert (seen w w2) as S2 by (apply agent_seen; by etrans). clear H1 H2.
  set (temporary := with_extension cursor_path ("tmp-" +:+ uuid)) in *.
  apply wp_temporary; [done|done|intros; apply He; by etrans|].
  intros w3 S3 F3 w4 H4 r w5 Hs. assert (seen w w4) as S4
    by (etrans; [exact S2|]; etrans; [exact S3|by apply agent_seen]).
  destruct r as [[]|e]; simpl in Hs.
  - destruct Hs as (data & Hd & ->). rewrite (proj1 (agent_later _ _ H4)), F3 in Hd by done.
    injection Hd as <-.
    assert (committed bytes w4 (set_files (<[cursor_path:=bytes]> (delete temporary (files w4))) w4)) as Hc.
    { split; [apply lookup_insert_eq|]. unfold live. simpl.
      rewrite lookup_insert_ne by apply not_eq_sym, live_ne_cursor. by rewrite lookup_delete_ne. }
    split; [by eapply HG|]. intros w6 H6. by eapply Hk.
  - subst w5. split; [done|]. intros w6 H6. apply He. etrans; [exact S4|by apply agent_seen].
Qed.
End Polling.

(** * A host for the Pi harness to compute with

    A codec for the cursor file, a reader of a small record format in the place
    of JSON, and answers to the harness's calls on a session where nothing
    fails. *)

(** ** Codecs *)
Fixpoint of_trees {A} `{Tree A} (ts : list (gen_tree string)) : option (list A) :=
  match ts with
  | [] => Some []
  | t :: ts => match of_tree t, of_trees ts with
               | Some a, Some l => Some (a :: l)
               | _, _ => None
               end
  end.

Lemma of_trees_map {A} `{Tree A} (l : list A) : of_trees (List.map to_tree l) = Some l.
Proof. induction l as [|a l IH]; [done|]. simpl. by rewrite of_to_tree, IH. Qed.

#[export] Instance list_tree {A} `{Tree A} : Tree (list A) :=
  {| to_tree l := GenNode 4 (List.map to_tree l);
     of_tree t := match t with GenNode 4 ts => of_trees ts | _ => None end;
     of_to_tree l := of_trees_map l |}.

Definition terminal_number (t : TerminalState) : Z :=
  match t with
  | TerminalState.Active => 0 | TerminalState.ReviewReady => 1
  | TerminalState.ModelFailed => 2 | TerminalState.HarnessFailed => 3
  end.
Definition number_terminal (n : Z) : TerminalState :=
  match n with
  | 0 => TerminalState.Active | 1 => TerminalState.ReviewReady
  | 2 => TerminalState.ModelFailed | _ => TerminalState.HarnessFailed
  end.
Definition flag (b : bool) : Z := if b then 1 else 0.

#[export] Instance reducer_tree : Tree ReducerState.
Proof.
  refine (via
    (fun r => (flag (ReducerState.pending_model_error r), flag (ReducerState.retrying r),
               terminal_number (ReducerState.terminal r), ReducerState.assistant_turns r))
    (fun '(a, b, c, d) =>
       {| ReducerState.pending_model_error := a =? 1; ReducerState.retrying := b =? 1;
          ReducerState.terminal := number_terminal c; ReducerState.assistant_turns := d |}) _).
  by intros [[] [] [] ?].
Defined.

#[export] Instance cursor_tree : Tree JsonlCursor.
Proof.
  refine (via
    (fun c => (JsonlCursor.path c, JsonlCursor.offset c, JsonlCursor.reducer c))
    (fun '(a, b, c) =>
       {| JsonlCursor.path := a; JsonlCursor.offset := b; JsonlCursor.reducer := c |}) _).
  by intros [].
Defined.

Definition print_cursors (cs : CursorFile) : string := String "{" (print (A := list (string * JsonlCursor)) (map_to_list cs)).

Definition parse_cursors (s : string) : option CursorFile :=
  match s with
  | String c rest =>
      if bool_decide (rest = "}" +:+ String newline "")%string then Some ∅
      else list_to_map <$> parse (A := list (string * JsonlCursor)) rest
  | EmptyString => None
  end.

Lemma print_no_brace {A} `{Tree A} (a : A) rest : print a <> String "}" rest.
Proof. unfold print. by destruct (encode (to_tree a)). Qed.

#[export] Instance binary_cursors : CursorText.
Proof.
  refine {| cursors_to_vec cs := Ok (print_cursors cs); cursors_from_slice := parse_cursors |}.
  - intros c s [= <-]. split; [|by eexists]. unfold parse_cursors, print_cursors.
    rewrite bool_decide_false by apply print_no_brace. rewrite parse_print. simpl.
    by rewrite list_to_map_to_list.
  - by vm_compute.
Defined.

(** A record is a type and a role, separated by a space. *)
#[export] Instance words_text : JsonText :=
  {| value_from_slice line :=
       match split_once " " line with
       | Some (record_type, role) => Some (Object [("type", Str record_type); ("role", Str role)])
       | None => Some (Object [("type", Str line)])
       end |}%string.

(** ** A session *)
Definition pi_receipt : AllocationReceipt :=
  {| AllocationReceipt.api_version := ALLOCATION_API_VERSION;
     AllocationReceipt.labels := example_labels;
     AllocationReceipt.reserved_bytes := GIB;
     AllocationReceipt.mount_path := ExecutionLayout.root example_layout;
     AllocationReceipt.backend_kind := "lvm"; AllocationReceipt.backend_key := "key";
     AllocationReceipt.pool_identity := "pool";
     AllocationReceipt.backend := BackendIdentity.Lvm "vg" "vg-uuid" "lv" "lv-uuid" "fs" "token";
     AllocationReceipt.docker_bind :=
       {| DockerBindProof.daemon_id := "daemon"; DockerBindProof.verifier := "verifier";
          DockerBindProof.method_version := "v1";
          DockerBindProof.source_path := ExecutionLayout.root example_layout;
          DockerBindProof.filesystem_id := "fs" |} |}.

Definition pi_container : VerifiedAgentContainer :=
  {| VerifiedAgentContainer.container_id := "agent"; VerifiedAgentContainer.daemon_id := "daemon";
     VerifiedAgentContainer.labels := example_labels;
     VerifiedAgentContainer.mounts :=
       [ {| VerifiedBindMount.source := ExecutionLayout.repository example_layout;
            VerifiedBindMount.target := CONTAINER_WORKTREE; VerifiedBindMount.writable := true |};
         {| VerifiedBindMount.source := ExecutionLayout.conversation example_layout;
            VerifiedBindMount.target := CONTAINER_SESSION; VerifiedBindMount.writable := true |} ] |}.

Definition pi_config : PiHarnessConfig :=
  match PiHarnessConfig.for_ready_allocation pi_receipt pi_container with
  | Ok config => config
  | Err _ => PiHarnessConfig.for_execution "" "" "" example_labels
  end.

Definition pi_session : SessionRef :=
  {| SessionRef.id := "exec-1"; SessionRef.path := ExecutionLayout.session example_layout;
     SessionRef.execution_id := "exec-1";
     SessionRef.worktree_path := ExecutionLayout.repository example_layout |}.

Definition example_canonical (path : string) : string := path.

Definition file_metadata : Metadata :=
  {| Metadata.dev := 1; Metadata.ino := 7; Metadata.uid := 1000; Metadata.mode := 33152 |}.
Definition directory_metadata : Metadata :=
  {| Metadata.dev := 1; Metadata.ino := 3; Metadata.uid := 1000; Metadata.mode := 16832 |}.

(** Every call succeeds. *)
Definition pi_ideal (B : Type) (c : pi_call B) (w : PiWorld) : B * PiWorld :=
  match c in Pi.pi_call B return B * PiWorld with
  | Pi.Canonicalize path => (Ok (example_canonical path), w)
  | Pi.SymlinkMetadata path =>
      (if bool_decide (path = SessionRef.path pi_session) then Ok directory_metadata
       else match files w !! path with Some _ => Ok file_metadata | None => Err NOENT end, w)
  | Pi.Exists path => (bool_decide (is_Some (files w !! path)), w)
  | Pi.Open path =>
      (match files w !! path with
       | Some _ => Ok {| file_path := path; position := 0 |} | None => Err NOENT end, w)
  | Pi.CreateNew path =>
      match files w !! path with
      | None => (Ok {| file_path := path; position := 0 |}, set_files (<[path := ""%string]> (files w)) w)
      | Some _ => (Err EXIST, w)
      end
  | Pi.FileMetadata f =>
      (match files w !! file_path f with
       | Some data => Ok (file_metadata, Z.of_nat (String.length data)) | None => Err NOENT end, w)
  | Pi.Seek f offset => (Ok {| file_path := file_path f; position := offset |}, w)
  | Pi.ReadToEnd f =>
      (match files w !! file_path f with
       | Some data => Ok (str_drop (Z.to_nat (position f)) data) | None => Err NOENT end, w)
  | Pi.SetPermissions f mode => (Ok tt, w)
  | Pi.WriteAll f bytes =>
      match files w !! file_path f with
      | Some data => (Ok tt, set_files (<[file_path f := (data +:+ bytes)%string]> (files w)) w)
      | None => (Err NOENT, set_files (<[file_path f := ""%string]> (files w)) w)
      end
  | Pi.SyncAll f => (Ok tt, w)
  | Pi.Rename from to =>
      match files w !! from with
      | Some data => (Ok tt, set_files (<[to := data]> (delete from (files w))) w)
      | None => (Err NOENT, w)
      end
  | Pi.ReadDir path => (Ok [], w)
  | Pi.NewUuid => ("0123456789abcdef0123456789abcdef"%string, w)
  | Pi.Now => (0, w)
  | Pi.VerifyReady receipt => (Ok 1, w)
  | Pi.AcquireReadyLease receipt => (Ok 2, w)
  | Pi.Verify verified => (Ok tt, w)
  | Pi.RepositoryPath verified => (ExecutionLayout.repository example_layout, w)
  | Pi.VerifyDirectory verified path => (Ok tt, w)
  | Pi.SessionProcessExited session => (Ok (exited w), w)
  | Pi.CountUnknown n => (tt, w)
  end.

Lemma pi_ideal_sem B (c : pi_call B) w :
  pi_sem example_canonical B c w (pi_ideal B c w).1 (pi_ideal B c w).2.
Proof.
  destruct c; simpl; repeat (case_bool_decide || case_match); simplify_eq/=;
    repeat split; eauto; naive_solver.
Qed.

Definition text_lines (l : list string) : string :=
  foldr (fun line rest => line +:+ String newline rest)%string ""%string l.

(** A session that was started, with some lines and the start of another in its
    live file. *)
Definition pi_world : PiWorld :=
  {| files :=
       <[live_path pi_session example_canonical :=
           (text_lines ["agent_start"; "message_end assistant"; "test_run"; "done"] +:+ "agent_st")%string]>
       {[ cursor_path pi_session := ("{}" +:+ String newline "")%string ]};
     exited := false; died := false |}.

(** What a first poll delivers, and a second. *)
Example two_polls :
  let '(r, w) := run pi_ideal (poll_events pi_config pi_session) pi_world in
  List.map ExecutionEvent.kind <$> r =
    Ok [ExecutionEventKind.AgentStarted "exec-1"; ExecutionEventKind.TestsStarted;
        ExecutionEventKind.ReviewReady] /\
  (run pi_ideal (poll_events pi_config pi_session) w).1 = Ok [].
Proof. vm_compute. done. Qed.
