(* ===== verification/PiReplay.v ===== *)
(** * What the polls of a session deliver

    The invariant of the cursor file: it stands after a prefix of the live file,
    with the reducer in the state one pass over that prefix leaves.  The theorem
    relates the deliveries of all polls to that pass. *)

From Stdlib Require Import Ascii.
From S2P Require Import Prelude Core Database Lifecycle Effects StorageModel FileSystem StorageCodec BuildCache PiHarness PiEvents PiRedaction PiPolling.















(** ** Lines of a growing file *)
Definition terminated (s : string) : Prop := s = ""%string \/ exists b, s = (b +:+ String newline "")%string.

Lemma complete_lines_spec bytes :
  terminated (complete_lines bytes) /\ exists tail, bytes = (complete_lines bytes +:+ tail)%string.
Proof.
  unfold complete_lines. destruct (rsplit_once newline bytes) as [[a b]|] eqn:E.
  - apply rsplit_once_Some in E as [-> _]. split; [right; by eexists|]. exists b.
    by rewrite string_app_assoc.
  - split; [by left|]. by exists bytes.
Qed.

Lemma records_of_app a b : terminated a -> records_of (a +:+ b) = records_of a ++ records_of b.
Proof.
  unfold records_of. intros [-> | [x ->]]; [done|].
  rewrite string_app_assoc, string_app_cons, string_app_nil, !split_app, !List.filter_app. simpl.
  by rewrite app_nil_r.
Qed.

Lemma terminated_app a b : terminated a -> terminated b -> terminated (a +:+ b).
Proof.
  intros Ha [-> | [y ->]]; [by rewrite string_app_nil_r|]. right. exists (a +:+ y)%string.
  by rewrite string_app_assoc.
Qed.

Lemma string_app_prefix a b x y :
  (a +:+ x = b +:+ y)%string -> String.length a = String.length b -> a = b /\ x = y.
Proof.
  revert b. induction a as [|c a IH]; intros [|c' b]; try done.
  rewrite !string_app_cons. intros [= -> E] [= Hl]. destruct (IH b E Hl) as [-> ->]. done.
Qed.

(** ** The invariant of the polls *)
Section Stream.
Context `{JsonText} `{CursorText} (config : PiHarnessConfig) (session : SessionRef).
Context (canonical : string -> string) (epoch : Timestamp).

Abbreviation agent_step := (agent_step session canonical).
Abbreviation pi_sem := (pi_sem canonical).
Abbreviation live := (live session canonical).
Abbreviation live_path := (live_path session canonical).
Abbreviation cursors_at := (cursors_at session).
Abbreviation seen := (seen session canonical).

Definition entry (cs : CursorFile) : JsonlCursor :=
  default JsonlCursor.default (cs !! SessionRef.id session).

(** [out] is what one pass over [inputs] says, and the cursor stands after them:
    they are the records of the part of the live file before the offset, with the
    times a process was found gone in between. *)
Definition replays (inputs : list Input) (consumed : string) (c : JsonlCursor)
    (out : list ExecutionEventKind) : Prop :=
  terminated consumed /\
  JsonlCursor.offset c = Z.of_nat (String.length consumed) /\
  List.map value_from_slice (records_of consumed) = List.map Some (omap record_of inputs) /\
  reduce session epoch inputs ReducerState.default = (out, JsonlCursor.reducer c) /\
  (JsonlCursor.path c = ""%string \/ JsonlCursor.path c = live_path).

Definition stream_inv (out : list ExecutionEventKind) (w : PiWorld) : Prop :=
  exists cs inputs consumed,
    cursors_at w = Some cs /\ replays inputs consumed (entry cs) out /\
    (exists rest, live w = (consumed +:+ rest)%string) /\
    (Gone ∈ inputs -> died w = true) /\ (exited w = true -> died w = true).

Lemma stream_inv_seen out w w' : seen w w' -> stream_inv out w -> stream_inv out w'.
Proof.
  intros (Hf & (more & Hl) & Hd & Hx) (cs & inputs & consumed & Hc & Hr & (rest & Hrest) & Hg & He).
  exists cs, inputs, consumed. split; [unfold PiPolling.cursors_at in *; by rewrite Hf|].
  split; [done|]. split; [|by auto]. exists (rest +:+ more)%string. by rewrite Hl, Hrest, string_app_assoc.
Qed.

(** The stream has gone on from [out], whether or not that was delivered. *)
Definition beyond (out : list ExecutionEventKind) (w : PiWorld) : Prop :=
  exists more, stream_inv (out ++ more) w.
Definition moves_on (out : list ExecutionEventKind) (w w' : PiWorld) : Prop := beyond out w -> beyond out w'.

Lemma moves_on_seen out w w' : seen w w' -> moves_on out w w'.
Proof. intros Hs [more Hi]. exists more. by eapply stream_inv_seen. Qed.

(** The records of another read, and possibly the end of the process. *)
Lemma replays_more inputs consumed c out complete records gone ks r' :
  replays inputs consumed c out -> terminated complete ->
  List.map value_from_slice (records_of complete) = List.map Some records ->
  (gone = [] \/ gone = [Gone]) ->
  reduce session epoch (List.map Record_ records ++ gone) (JsonlCursor.reducer c) = (ks, r') ->
  replays (inputs ++ List.map Record_ records ++ gone) (consumed +:+ complete)
    {| JsonlCursor.path := live_path;
       JsonlCursor.offset := JsonlCursor.offset c + Z.of_nat (String.length complete);
       JsonlCursor.reducer := r' |} (out ++ ks).
Proof.
  intros (Ht & Ho & Hl & Hr & _) Hc Hrec Hgone Hred. split; [by apply terminated_app|]. simpl.
  split; [rewrite string_length_app; lia|]. split; [|split; [|by right]].
  - rewrite records_of_app, List.map_app, Hl, Hrec, <- List.map_app by done. f_equal.
    rewrite omap_app. f_equal. clear -Hgone. symmetry.
    induction records as [|v records IH]; [by destruct Hgone as [-> | ->]|].
    transitivity (v :: omap record_of (List.map Record_ records ++ gone)); [done|]. by rewrite IH.
  - rewrite reduce_app, Hr. by rewrite Hred.
Qed.

Lemma committed_cursors cs s w w' :
  cursors_to_vec cs = Ok s -> committed session canonical s w w' -> cursors_at w' = Some cs.
Proof.
  intros Hs (Hf & _). destruct (cursors_round_trip _ _ Hs) as (Hrt & text & Ht).
  unfold PiPolling.cursors_at. rewrite Hf, Ht. simpl. by rewrite <- Ht.
Qed.

Lemma committed_inv cs c' s w w' out inputs consumed :
  cursors_to_vec (<[SessionRef.id session := c']> cs) = Ok s ->
  committed session canonical s w w' -> replays inputs consumed c' out ->
  (exists rest, live w = (consumed +:+ rest)%string) ->
  (Gone ∈ inputs -> died w = true) -> (exited w = true -> died w = true) -> stream_inv out w'.
Proof.
  intros Hs Hc Hr Hrest Hg He.
  exists (<[SessionRef.id session := c']> cs), inputs, consumed.
  split; [by eapply committed_cursors|]. destruct Hc as (_ & Hl & Hx & Hd). unfold entry. rewrite lookup_insert_eq. simpl. rewrite Hl, Hx, Hd. done.
Qed.

Lemma agent_inv out w w' : rtc agent_step w w' -> stream_inv out w -> stream_inv out w'.
Proof. intros Hs. by apply stream_inv_seen, agent_seen. Qed.

(** The event for a process that is gone, as the end of a pass. *)
Lemma finish_reduce (gone : bool) now evs c records r' :
  reduce session epoch (List.map Record_ records) (JsonlCursor.reducer c) =
    (List.map ExecutionEvent.kind evs, r') ->
  let fin := if gone && bool_decide (ReducerState.terminal r' = TerminalState.Active)
             then match harness_failed session now r' with
                  | (Event event, r) => (evs ++ [event], r)
                  | (_, r) => (evs, r)
                  end
             else (evs, r') in
  exists extra, (extra = [] \/ extra = [Gone] /\ gone = true) /\
    reduce session epoch (List.map Record_ records ++ extra) (JsonlCursor.reducer c) =
      (List.map ExecutionEvent.kind fin.1, fin.2).
Proof.
  intros Hr. destruct gone; simpl; [|exists []; rewrite app_nil_r; auto].
  case_bool_decide as Ht; [|exists []; rewrite app_nil_r; auto].
  exists [Gone]. split; [by right|]. rewrite reduce_app, Hr. simpl.
  rewrite bool_decide_true by done. by rewrite List.map_app.
Qed.

(** How far the cursor has come. *)
Definition caught_up (n : nat) (w : PiWorld) : Prop :=
  exists cs, cursors_at w = Some cs /\ Z.of_nat n <= JsonlCursor.offset (entry cs).

Lemma agent_caught_up n w w' : rtc agent_step w w' -> caught_up n w -> caught_up n w'.
Proof.
  intros (Hf & _)%agent_seen (cs & Hc & Hn). exists cs. split; [|done].
  unfold PiPolling.cursors_at in *. by rewrite Hf.
Qed.

Section Poll.
Context (out : list ExecutionEventKind) (n : nat).

Abbreviation wp := (chl pi_sem agent_step (moves_on out)).
Abbreviation delivers := (fun (r : result HarnessError (list ExecutionEvent)) (w' : PiWorld) =>
  match r with
  | Ok evs => stream_inv (out ++ List.map ExecutionEvent.kind evs) w' /\ caught_up n w'
  | Err _ => stream_inv out w'
  end).

Lemma wp_advance cs c inputs consumed b bytes w :
  cursors_at w = Some cs -> JsonlCursor.path c = live_path ->
  JsonlCursor.offset c = JsonlCursor.offset (entry cs) ->
  (n <= String.length (consumed +:+ complete_lines bytes))%nat -> replays inputs consumed c out ->
  (exists rest, live w = (consumed +:+ complete_lines bytes +:+ rest)%string) ->
  (Gone ∈ inputs -> died w = true) -> (exited w = true -> died w = true) -> (b = true -> died w = true) ->
  stream_inv out w -> wp (advance session cs c b bytes) delivers w.
Proof.
  intros Hcs Hp Ho Hn Hrep (rest & Hlive) Hg Hx Hb Hi. rewrite string_length_app in Hn.
  pose proof (proj1 (proj2 Hrep)) as Hlen. unfold advance. destruct (_ && negb _) eqn:Hempty.
  { intros w1 H1. rewrite app_nil_r. split; [by eapply agent_inv|]. eapply agent_caught_up; [done|].
    exists cs. split; [done|]. destruct (complete_lines bytes); [simpl in Hn; lia|done]. }
  pose proof (moves_on_seen out) as HG.
  apply chl_io_bind. apply (wp_drain session canonical _ HG epoch).
  { intros e w1 H1 w2 H2. eapply agent_inv; [|done]. by etrans. }
  intros w1 evs unknown r' records H1 Hl Hr.
  apply (wp_ask session canonical _ HG); [done|]. intros w2 now H2 _.
  destruct (finish_reduce (b && bool_decide (ReducerState.terminal (JsonlCursor.reducer c) =
    TerminalState.Active)) now evs c records r' Hr) as (extra & Hextra & Hred).
  cbv zeta in Hred. destruct (if _ && _ then _ else _) as [evs' r''] in Hred |- *. simpl in Hred.
  assert (rtc agent_step w w2) as H02 by by etrans. clear H1 H2.
  apply (wp_result session canonical); [intros e w3 H3; eapply agent_inv; [|done]; by etrans|].
  intros s Hs. destruct (cursors_to_vec _) as [s'|] eqn:Hvec; [|done]. injection Hs as ->.
  assert (replays (inputs ++ List.map Record_ records ++ extra) (consumed +:+ complete_lines bytes)
    {| JsonlCursor.path := JsonlCursor.path c;
       JsonlCursor.offset := JsonlCursor.offset c + Z.of_nat (String.length (complete_lines bytes));
       JsonlCursor.reducer := r'' |} (out ++ List.map ExecutionEvent.kind evs')) as Hrep'.
  { rewrite Hp. eapply replays_more; [done|apply complete_lines_spec|done| |done]. naive_solver. }
  assert (forall w1 w2, seen w w1 -> committed session canonical s w1 w2 ->
    stream_inv (out ++ List.map ExecutionEvent.kind evs') w2 /\ caught_up n w2) as Hcommit.
  { intros w3 w4 (_ & (more & Hm) & Hd & Hxd) Hc.
    split; [|eexists; split; [by eapply committed_cursors|unfold entry; rewrite lookup_insert_eq; simpl; lia]].
    eapply committed_inv; [exact Hvec|exact Hc|exact Hrep'|..].
    - exists (rest +:+ more)%string. by rewrite Hm, Hlive, !string_app_assoc.
    - intros [?|[(v & ? & _)%list_elem_of_fmap|Hin]%elem_of_app]%elem_of_app; [auto|done|].
      destruct Hextra as [-> |[-> [Hbt _]%andb_prop]]; [by apply not_elem_of_nil in Hin|auto].
    - auto. }
  apply chl_io_bind. apply (wp_atomic_write session canonical _ HG).
  - intros e w3 H3 w4 H4. eapply agent_inv; [exact H4|]. eapply stream_inv_seen; [|exact Hi].
    etrans; [by apply agent_seen|done].
  - intros w3 w4 H3 Hc _. exists (List.map ExecutionEvent.kind evs'). eapply Hcommit; [|exact Hc].
    etrans; [by apply agent_seen|done].
  - intros w3 w4 w5 H3 Hc H5. apply (wp_ask session canonical _ HG); [done|].
    intros w6 [] H6 _ w7 H7. assert (rtc agent_step w4 w7) as H47 by (etrans; [exact H5|]; by etrans).
    destruct (Hcommit w3 w4) as [Hi' Hn']; [etrans; [by apply agent_seen|exact H3]|exact Hc|].
    split; [by eapply agent_inv|by eapply agent_caught_up].
Qed.

(** The complete lines at one time are among the lines complete later. *)
Lemma complete_lines_grow a x b t :
  (a +:+ x = b +:+ t)%string -> terminated a -> ~ has_char newline t ->
  (String.length a <= String.length b)%nat.
Proof.
  intros E Ha Ht. destruct (decide (String.length a <= String.length b)%nat) as [|Hlt]; [done|].
  exfalso. apply Ht. destruct Ha as [-> | [y ->]]; [simpl in Hlt; lia|].
  rewrite string_length_app in Hlt. simpl in Hlt. rewrite string_app_assoc, string_app_cons, string_app_nil in E.
  clear Ht. revert y E Hlt. induction b as [|c b IH]; intros y E Hlt.
  - rewrite string_app_nil in E. subst t. rewrite has_char_app, has_char_cons. auto.
  - destruct y as [|c' y]; [simpl in Hlt; lia|]. rewrite !string_app_cons in E. injection E as _ E.
    apply (IH y); [done|]. simpl in Hlt. lia.
Qed.

Lemma complete_lines_tail bytes :
  exists tail, bytes = (complete_lines bytes +:+ tail)%string /\ ~ has_char newline tail.
Proof.
  unfold complete_lines. destruct (rsplit_once newline bytes) as [[a b]|] eqn:E.
  - apply rsplit_once_Some in E as [-> Hb]. exists b. by rewrite string_app_assoc.
  - exists bytes. split; [done|]. by apply rsplit_once_None.
Qed.

Ltac looks := repeat (apply all_calls_io_bind; [by repeat split|intros ?]).

Lemma mount_sources_look mounts targets a b c :
  all_calls looks (validate_mount_sources mounts targets a b c).
Proof.
  revert targets. induction mounts as [|m mounts IH]; intros targets; [done|].
  cbn [validate_mount_sources]. apply all_calls_io_bind.
  - destruct (_ && _); [|done]. unfold is_managed_build_cache_dir.
    repeat (first [apply all_calls_io_bind | apply all_calls_of_proc | apply all_calls_bind | case_match | by repeat split | intros]).
  - intros cache. looks. apply IH.
Qed.

Lemma storage_paths_look v l : all_calls looks (verify_storage_paths v l).
Proof. unfold verify_storage_paths. looks. by repeat split. Qed.

Lemma capability_looks container receipt layout :
  all_calls looks (validate_container_capability container receipt layout).
Proof. unfold validate_container_capability. looks. apply mount_sources_look. Qed.

Lemma acquire_looks : all_calls looks (acquire_ready_storage config).
Proof.
  unfold acquire_ready_storage.
  do 5 (apply all_calls_io_bind; [exact I|intros ?]).
  apply all_calls_io_bind; [apply capability_looks|intros ?].
  apply all_calls_io_bind; [by repeat split|intros ?].
  apply all_calls_io_bind; [apply storage_paths_look|intros ?].
  apply all_calls_io_bind; [by repeat split|intros ?].
  apply all_calls_io_bind; [apply storage_paths_look|intros ?]. exact I.
Qed.

(** What [advance] needs of a read. *)
Lemma read_advances w0 w w' c consumed bytes :
  JsonlCursor.offset c = Z.of_nat (String.length consumed) ->
  (exists rest, live w' = (consumed +:+ rest)%string) ->
  (exists more, live w = (live w0 +:+ more)%string) -> read_from session canonical c w w' bytes ->
  (exists rest, live w' = (consumed +:+ complete_lines bytes +:+ rest)%string) /\
  (String.length (complete_lines (live w0)) <= String.length (consumed +:+ complete_lines bytes))%nat.
Proof.
  intros Ho (rest & Hrest) (m0 & Hm0) [[-> Hw]|(pre & rest' & more & Hl & Hp & Hm)].
  - split; [by exists rest|]. rewrite Hw in Hm0. symmetry in Hm0.
    rewrite (string_app_nil_inv _ _ Hm0). simpl. lia.
  - rewrite Ho in Hp. rewrite Hrest in Hl.
    apply string_app_prefix in Hl as [<- ->]; [|lia].
    destruct (complete_lines_tail bytes) as (tail & Hb & Ht). rewrite Hb in Hm at 1.
    destruct (complete_lines_spec (live w0)) as (Hterm & t0 & Ht0). split.
    + exists (tail +:+ rest')%string. by rewrite Hrest, <- (string_app_assoc _ tail), <- Hb.
    + rewrite Hm0, Ht0, <- string_app_assoc, !string_app_assoc in Hm.
      eapply complete_lines_grow; [symmetry; rewrite string_app_assoc; exact Hm|done|done].
Qed.

Lemma wp_poll w :
  (n <= String.length (complete_lines (live w)))%nat -> stream_inv out w ->
  wp (poll_events config session) delivers w.
Proof.
  intros Hn Hi. pose proof (moves_on_seen out) as HG.
  assert (forall (e : HarnessError) w', rtc agent_step w w' -> stream_inv out w') as He
    by (intros e w' H'; by eapply agent_inv).
  unfold poll_events. apply (wp_result session canonical); [done|]. intros [] _.
  apply chl_io_bind. apply (wp_looks session canonical _ HG); [apply acquire_looks|].
  intros [a|e] w1 H1; [|intros w2 H2; eapply He; [done|by etrans]].
  apply chl_io_bind. apply (wp_read_cursors session canonical _ HG);
    [intros e w2 H2 w3 H3; apply (He e); etrans; [exact H1|by etrans]|].
  intros w2 cs H2 Hcs. apply chl_io_bind. assert (rtc agent_step w w2) as H02 by by etrans.
  apply (wp_normalized_absolute session canonical _ HG);
    [intros e w3 H3 w4 H4; apply (He e); etrans; [exact H02|by etrans]|].
  intros w3 H3. assert (rtc agent_step w w3) as H03 by by etrans.
  assert (cursors_at w3 = Some cs) as Hcs3
    by (rewrite <- Hcs; apply (cursors_later session canonical); by apply agent_later).
  apply (wp_result session canonical); [intros e w4 H4; apply (He e); by etrans|]. intros c Hc.
  destruct (agent_inv _ _ _ H03 Hi) as (cs' & inputs & consumed & Hcs' & Hrep & Hrest & Hg & Hx).
  rewrite Hcs3 in Hcs'. injection Hcs' as <-.
  assert (JsonlCursor.path c = live_path /\ JsonlCursor.offset c = JsonlCursor.offset (entry cs) /\
          replays inputs consumed c out) as (Hp & Ho & Hrep').
  { destruct Hrep as (R1 & R2 & R3 & R4 & R5). fold (entry cs) in Hc.
    destruct (str_is_empty (JsonlCursor.path (entry cs))) eqn:Ee.
    - injection Hc as <-. simpl. split; [done|]. split; [done|]. by repeat split; auto.
    - destruct (path_eqb _ _); [|done]. injection Hc as <-.
      destruct R5 as [R5|R5]; [rewrite R5 in Ee; done|]. repeat split; auto. }
  apply (wp_ask_or session canonical _ HG); [done|intros e w4 H4; apply (He e); by etrans|].
  intros w4 b H4 (_ & Hb). assert (rtc agent_step w w4) as H04 by by etrans.
  destruct (agent_later session canonical _ _ H4) as (_ & (more4 & Hm4) & _ & Hd4 & Hx4).
  apply chl_io_bind, (wp_read_after session canonical _ HG); [done| |intros e w5 H5 w6 H6; apply (He e)|].
  { rewrite (proj1 (proj2 Hrep')). lia. }
  { etrans; [exact H04|by etrans]. }
  intros w5 bytes H5 Hread. assert (rtc agent_step w w5) as H05 by by etrans.
  destruct (agent_later session canonical _ _ H5) as (_ & (more5 & Hm5) & _ & Hd5 & Hx5).
  destruct (read_advances w w4 w5 c consumed bytes) as [Hl5 Hn5]; [apply Hrep'| | |done|].
  { destruct Hrest as [rest Hrest]. exists (rest +:+ more4 +:+ more5)%string.
    by rewrite Hm5, Hm4, Hrest, !string_app_assoc. }
  { by destruct (agent_later session canonical _ _ H04) as (_ & Hm & _). }
  apply (wp_advance cs c inputs consumed b bytes); [|done|done|by etrans|exact Hrep'|done|by auto|by auto|by auto|by eapply agent_inv].
  rewrite <- Hcs3. apply (cursors_later session canonical), agent_later. by etrans.
Qed.
End Poll.

(** ** Histories of polls *)

(** [polled lost delivered w]: from a session as [start] leaves it, the agent and
    the polls have led to [w]; the polls that returned have delivered
    [delivered], and [lost] says whether some poll was cut short. *)
Inductive polled : bool -> list ExecutionEventKind -> PiWorld -> Prop :=
| polled_start w :
    files w !! cursor_path session = Some ("{}" +:+ String newline "")%string ->
    (exited w = true -> died w = true) -> polled false [] w
| polled_agent lost delivered w w' :
    polled lost delivered w -> agent_step w w' -> polled lost delivered w'
| polled_ok lost delivered w tr evs w' :
    polled lost delivered w ->
    exec pi_sem agent_step (poll_events config session) w tr (Some (Ok evs)) w' ->
    polled lost (delivered ++ List.map ExecutionEvent.kind evs) w'
| polled_err lost delivered w tr e w' :
    polled lost delivered w ->
    exec pi_sem agent_step (poll_events config session) w tr (Some (Err e)) w' ->
    polled lost delivered w'
| polled_cut lost delivered w tr w' :
    polled lost delivered w ->
    exec pi_sem agent_step (poll_events config session) w tr None w' ->
    polled true delivered w'.

Lemma start_inv w :
  files w !! cursor_path session = Some ("{}" +:+ String newline "")%string ->
  (exited w = true -> died w = true) -> stream_inv [] w.
Proof.
  intros Hf Hx. exists ∅, [], ""%string. split.
  { unfold PiPolling.cursors_at. rewrite Hf. simpl. apply cursors_initial. }
  unfold entry. rewrite lookup_empty. simpl. split; [|split; [by eexists|]].
  - split; [by left|]. split; [done|]. split; [done|]. split; [done|by left].
  - split; [|done]. intros Hin. by apply not_elem_of_nil in Hin.
Qed.

Lemma poll_exec out n w tr r w' :
  (n <= String.length (complete_lines (live w)))%nat -> stream_inv out w ->
  exec pi_sem agent_step (poll_events config session) w tr r w' ->
  match r with
  | Some (Ok evs) => stream_inv (out ++ List.map ExecutionEvent.kind evs) w' /\ caught_up n w'
  | Some (Err _) => stream_inv out w'
  | None => beyond out w'
  end.
Proof.
  intros Hn Hi He. destruct (chl_exec _ _ _ _ _ _ _ _ _ He (wp_poll out n w Hn Hi)) as [Ht HQ].
  destruct r as [[evs|e]|]; [by apply (HQ _ eq_refl)|by apply (HQ _ eq_refl)|].
  eapply (exec_keeps pi_sem agent_step (beyond out)); [exact He| |exact Ht|].
  - intros w1 w2 H12 [more Hm]. exists more. eapply agent_inv; [|done]. by apply rtc_once.
  - exists []. by rewrite app_nil_r.
Qed.

Lemma polled_inv lost delivered w :
  polled lost delivered w ->
  exists out, stream_inv out w /\ sublist delivered out /\ (lost = false -> delivered = out).
Proof.
  induction 1 as [w Hf Hx|lost ds w w' _ (out & Hi & Hs & Hl) Hag
                 |lost ds w tr evs w' _ (out & Hi & Hs & Hl) He
                 |lost ds w tr e w' _ (out & Hi & Hs & Hl) He
                 |lost ds w tr w' _ (out & Hi & Hs & Hl) He].
  - exists []. by split; [by apply start_inv|].
  - exists out. split; [|done]. eapply agent_inv; [by apply rtc_once|done].
  - destruct (poll_exec out 0 w tr _ w' ltac:(lia) Hi He) as [Hi' _].
    exists (out ++ List.map ExecutionEvent.kind evs). split; [done|]. split.
    + by apply sublist_app.
    + intros E. by rewrite (Hl E).
  - exists out. split; [|done]. by apply (poll_exec out 0 w tr _ w' ltac:(lia) Hi He).
  - destruct (poll_exec out 0 w tr _ w' ltac:(lia) Hi He) as [more Hm].
    exists (out ++ more). split; [done|]. split; [|done]. etrans; [exact Hs|]. by apply sublist_inserts_r.
Qed.

(** C34: what the polls of a session deliver is what one pass over its records
    says, whatever calls fail and however the polls and the agent interleave.
    The inputs of that pass are the records of the lines before the cursor, in
    the order of the file, each once, with the observations that a process of
    the session was gone; nothing is delivered twice or out of order, and when no
    poll was cut short nothing is missing.  Then the events keep to the
    protocol: per start of the agent at most one ReviewReady, at most one
    failure, and nothing terminal after a failure.  ReviewReady is never
    delivered without an assistant turn on record, and a poll that returns has
    consumed every line that was complete when it began. *)
Theorem polls_replay lost delivered w :
  polled lost delivered w ->
  exists inputs consumed rest,
    live w = (consumed +:+ rest)%string /\ terminated consumed /\
    List.map value_from_slice (records_of consumed) = List.map Some (omap record_of inputs) /\
    (Gone ∈ inputs -> died w = true) /\
    (let out := (reduce session epoch inputs ReducerState.default).1 in
     sublist delivered out /\ (lost = false -> delivered = out)) /\
    (lost = false -> is_Some (protocol delivered Working)) /\
    (ExecutionEventKind.ReviewReady ∈ delivered ->
       exists record, Record_ record ∈ inputs /\ is_turn record = true) /\
    (forall tr evs w', exec pi_sem agent_step (poll_events config session) w tr (Some (Ok evs)) w' ->
       exists cs, cursors_at w' = Some cs /\
         Z.of_nat (String.length (complete_lines (live w))) <= JsonlCursor.offset (entry cs)).
Proof.
  intros (out & Hi & Hs & Hl)%polled_inv.
  destruct (id Hi) as (cs & inputs & consumed & _ & (R1 & _ & R3 & R4 & _) & (rest & Hrest) & Hg & _).
  exists inputs, consumed, rest.
  destruct (reduce_ok session epoch inputs ReducerState.default out _ ltac:(done) R4) as (_ & Hp & Hr).
  do 4 (split; [done|]). rewrite R4. split; [done|]. split; [|split].
  - intros E. rewrite (Hl E). by eexists.
  - intros Hin. destruct Hr as [?|?]; [|simpl in *; lia|done]. right. eapply elem_of_submseteq; [done|by apply sublist_submseteq].
  - intros tr evs w' He.
    by destruct (poll_exec out _ w tr _ w' (Nat.le_refl _) Hi He).
Qed.
End Stream.

(** *** Two polls of the example session *)
Definition example_poll (w : PiWorld) : result HarnessError (list ExecutionEvent) * PiWorld :=
  run pi_ideal (poll_events pi_config pi_session) w.

Definition kinds_polled (w : PiWorld) : list ExecutionEventKind :=
  match (example_poll w).1 with Ok evs => List.map ExecutionEvent.kind evs | Err _ => [] end.

Lemma example_polled lost delivered w :
  polled pi_config pi_session example_canonical lost delivered w -> is_ok (example_poll w).1 = true ->
  polled pi_config pi_session example_canonical lost (delivered ++ kinds_polled w) (example_poll w).2.
Proof.
  intros Hp Hok. unfold kinds_polled.
  destruct (run_exec pi_ideal (pi_sem example_canonical) (agent_step pi_session example_canonical)
    (poll_events pi_config pi_session) w) as [tr Htr]; [intros; apply pi_ideal_sem|].
  unfold example_poll in *. destruct (run pi_ideal _ w) as [[evs|e] w']; [|done].
  by eapply polled_ok.
Qed.

Lemma polls_replay_witness :
  let w1 := (example_poll pi_world).2 in
  let delivered := [ExecutionEventKind.AgentStarted "exec-1"; ExecutionEventKind.TestsStarted;
                    ExecutionEventKind.ReviewReady] in
  polled pi_config pi_session example_canonical false delivered w1 /\
  is_Some (protocol delivered Working) /\
  exists inputs, delivered = (reduce pi_session 0 inputs ReducerState.default).1.
Proof.
  intros w1 delivered.
  assert (polled pi_config pi_session example_canonical false delivered w1) as Hp.
  { apply (example_polled false [] pi_world); [|by vm_compute].
    apply polled_start; [by vm_compute|done]. }
  split; [exact Hp|].
  destruct (polls_replay pi_config pi_session example_canonical 0 false delivered w1 Hp)
    as (inputs & consumed & rest & _ & _ & _ & _ & (_ & Hd) & Hpr & _).
  split; [by apply Hpr|]. exists inputs. by apply Hd.
Defined.
