(* ===== verification/LvmBackend.v ===== *)
(** * The thick-LVM backend ([execution-storage/src/lvm.rs], [command.rs])

    The volume of an execution is a logical volume with an ownership tag.  Every
    operation is a program over runs of the LVM and mount tools: it reads their
    textual inventory, compares it with the identity on record and only then runs
    the command that changes something. *)

From Stdlib Require Import Ascii.
From S2P Require Import Prelude Core Lifecycle Effects StorageModel StorageManager.

















(** ** Commands ([command.rs]) *)
Module CommandSpec.
Record CommandSpec := { program : string; arguments : list string }.
End CommandSpec.
Abbreviation CommandSpec := CommandSpec.CommandSpec.
Abbreviation command := CommandSpec.Build_CommandSpec.

Module CommandOutput.
Record CommandOutput := { code : Z (* i32 *); stdout : string; stderr : string }.
End CommandOutput.
Abbreviation CommandOutput := CommandOutput.CommandOutput.

Definition ID : string := "/usr/bin/id".
Definition LVM : string := "/usr/sbin/lvm".
Definition MKFS : string := "/usr/sbin/mkfs.ext4".
Definition MOUNT : string := "/usr/bin/mount".
Definition UMOUNT : string := "/usr/bin/umount".
Definition FINDMNT : string := "/usr/bin/findmnt".
Definition BLKID : string := "/usr/sbin/blkid".

Module LvmPool.
Record LvmPool := { uuid : string; free_bytes : Z; extent_bytes : Z (* u64 *) }.
End LvmPool.
Abbreviation LvmPool := LvmPool.LvmPool.

(** ** Calls: the runner and the pool behind its mutex; [Err] of the latter is a
    poisoned lock. *)
Module Lvm.
Inductive lvm_call : Type -> Type :=
| Run (c : CommandSpec) : lvm_call (result StorageError CommandOutput)
| PoolGet : lvm_call (result unit (option LvmPool))
| PoolSet (p : LvmPool) : lvm_call (result unit unit).
End Lvm.
Abbreviation lvm_call := Lvm.lvm_call.
Abbreviation lvmio := (io lvm_call StorageError).

Definition unavailable (m : string) : StorageError := StorageError.Unavailable m.
Definition identity_mismatch (m : string) : StorageError := StorageError.IdentityMismatch m.

Definition checked (purpose : string) (output : CommandOutput) : result StorageError CommandOutput :=
  if CommandOutput.code output =? 0 then Ok output
  else Err (StorageError.Command (purpose +:+ " exited " +:+ show_Z (CommandOutput.code output) +:+
              ": " +:+ trim (CommandOutput.stderr output))).

Definition run_checked (c : CommandSpec) (purpose : string) : lvmio CommandOutput :=
  output ← ask_or (Lvm.Run c) id;
  ret_result (checked purpose output).

(** ** Their output *)
Definition utf8_trim (bytes purpose : string) : result StorageError string :=
  match from_utf8 bytes with
  | Some text => Ok (trim text)
  | None => Err (unavailable (purpose +:+ " is not UTF-8"))
  end.

Definition parse_number (value purpose : string) : result StorageError Z :=
  ok_or (parse_u64 value) (unavailable ("invalid " +:+ purpose)).

Definition path_text (path : string) : result StorageError string :=
  ok_or (from_utf8 path) (StorageError.InvalidRequest ("path is not UTF-8: " +:+ path)).

Definition fields_of (text : string) : list string := List.map trim (split ":"%char text).

Module LvInfo.
Record LvInfo := {
  vg_uuid : string;
  lv_uuid : string;
  size_bytes : Z;                     (* u64 *)
  path : string;
  tags : string;
  name : string
}.
End LvInfo.
Abbreviation LvInfo := LvInfo.LvInfo.

Definition parse_lv (output : string) : result StorageError LvInfo :=
  text ← utf8_trim output "lvs output";
  match fields_of text with
  | [vg_uuid; lv_uuid; size; path; tags; name] =>
      if existsb str_is_empty [vg_uuid; lv_uuid; size; path; tags; name]
      then Err (identity_mismatch "lvs did not return exact logical-volume identity")
      else
        size ← parse_number size "LV size bytes";
        Ok {| LvInfo.vg_uuid := vg_uuid; LvInfo.lv_uuid := lv_uuid; LvInfo.size_bytes := size;
              LvInfo.path := path; LvInfo.tags := tags; LvInfo.name := name |}
  | _ => Err (identity_mismatch "lvs did not return exact logical-volume identity")
  end.

Definition tag (token : string) : string := "autospec." +:+ token.
Definition lv_name (token : string) : string := "autospec-" +:+ token.

Definition has_tag (tags tag : string) : bool :=
  existsb (fun candidate => bool_decide (trim candidate = tag)) (split ","%char tags).

(** ** Identities *)
Definition lvm_identity (b : BackendIdentity) :
    result StorageError (string * string * string * string * string * string) :=
  match b with
  | BackendIdentity.Lvm group group_uuid volume volume_uuid filesystem token =>
      Ok (group, group_uuid, volume, volume_uuid, filesystem, token)
  | BackendIdentity.Apfs _ _ _ _ _ _ =>
      Err (identity_mismatch "LVM backend received a non-LVM identity")
  end.

Definition validate_lvm_name (name : string) : result StorageError unit :=
  let reserved := ["."; ".."; "snapshot"; "pvmove"]%string in
  let reserved_prefixes :=
    ["mirror"; "mimage"; "mlog"; "rimage"; "rmeta"; "tdata"; "tmeta"; "vdata"; "vdo"]%string in
  check (negb (str_is_empty name) && negb (starts_with "-" name) &&
         string_forallb (fun byte => is_ascii_alphanumeric byte ||
                           bool_decide (byte ∈ ["+"; "_"; "."; "-"]%char)) name &&
         negb (existsb (String.eqb name) reserved) &&
         negb (existsb (fun prefix => starts_with prefix name) reserved_prefixes))
    (StorageError.InvalidRequest ("invalid or reserved LVM volume group: " +:+ name)).

(** ** The backend of a volume group *)
Section Lvm.
Context (volume_group : string).

Definition require_root_and_tools : lvmio unit :=
  id ← run_checked (command ID ["-u"%string]) "inspect LVM privilege";
  _ ← guard_or (bool_decide (CommandOutput.stdout id = String "0" (String "010" "")))
        (unavailable "thick-LVM allocation requires root");
  each (fun tool : string * string =>
          _ ← run_checked (command tool.1 [tool.2]) "probe required storage tool"; mret tt)
    [(LVM, "version"); (MKFS, "-V"); (MOUNT, "--version"); (UMOUNT, "--version");
     (FINDMNT, "--version"); (BLKID, "--version")]%string.

Definition vgs_command : CommandSpec :=
  command LVM ["vgs"; "--noheadings"; "--units"; "b"; "--nosuffix"; "--separator"; ":";
               "--options"; "vg_uuid,vg_free,vg_extent_size"; "--"; volume_group]%string.

Definition inspect_pool : lvmio LvmPool :=
  output ← run_checked vgs_command "inspect thick-LVM pool";
  ret_result
    (text ← utf8_trim (CommandOutput.stdout output) "vgs output";
     match fields_of text with
     | [uuid; free; extent] =>
         if str_is_empty uuid
         then Err (unavailable "vgs did not return exact pool identity")
         else
           free ← parse_number free "VG free bytes";
           extent ← parse_number extent "VG extent bytes";
           Ok {| LvmPool.uuid := uuid; LvmPool.free_bytes := free; LvmPool.extent_bytes := extent |}
     | _ => Err (unavailable "vgs did not return exact pool identity")
     end).

Definition pool : lvmio LvmPool :=
  cached ← ask_or Lvm.PoolGet (fun _ => unavailable "LVM pool cache poisoned");
  some_or cached (unavailable "LVM backend was not probed").

Definition lvs_options : list string :=
  ["lvs"; "--noheadings"; "--units"; "b"; "--nosuffix"; "--separator"; ":"; "--options";
   "vg_uuid,lv_uuid,lv_size,lv_path,lv_tags,lv_name"]%string.

Definition lvs_command (lv : string) : CommandSpec :=
  command LVM (lvs_options ++ ["--"%string; volume_group +:+ "/" +:+ lv]).
Definition lvs_select_command (tag : string) : CommandSpec :=
  command LVM (lvs_options ++ ["--select"%string; "lv_tags=" +:+ tag; "--"%string; volume_group]).

(** The inventory, empty or one row. *)
Definition inventory (purpose : string) (output : CommandOutput) : result StorageError (option LvInfo) :=
  text ← utf8_trim (CommandOutput.stdout output) purpose;
  if str_is_empty text then Ok None else Some <$> parse_lv (CommandOutput.stdout output).

Definition inspect_lv_result (lv : string) : lvmio (option LvInfo) :=
  output ← run_checked (lvs_command lv) "inspect logical volume inventory";
  ret_result (inventory "lvs inventory output" output).

Definition inspect_exact (identity : BackendIdentity) (expected_bytes : Z) : lvmio (option LvInfo) :=
  parts ← ret_result (lvm_identity identity);
  let '(vg, vg_uuid, lv, lv_uuid, _, token) := parts in
  _ ← guard_or (bool_decide (vg = volume_group)) (identity_mismatch "LVM volume group changed");
  found ← inspect_lv_result lv;
  match found with
  | None => mret None
  | Some info =>
      _ ← guard_or (negb (negb (bool_decide (LvInfo.vg_uuid info = vg_uuid)) ||
                          negb (bool_decide (LvInfo.lv_uuid info = lv_uuid)) ||
                          negb (LvInfo.size_bytes info =? expected_bytes) ||
                          negb (bool_decide (LvInfo.name info = lv)) ||
                          negb (has_tag (LvInfo.tags info) (tag token))))
            (identity_mismatch "LVM token, pool UUID, object UUID, or size changed");
      mret (Some info)
  end.

Definition blkid_command (device : string) : CommandSpec :=
  command BLKID ["--output"; "value"; "--match-tag"; "UUID"; "--"; device]%string.

Definition filesystem_uuid (device : string) : lvmio string :=
  output ← run_checked (blkid_command device) "inspect filesystem UUID";
  uuid ← ret_result (utf8_trim (CommandOutput.stdout output) "blkid output");
  _ ← guard_or (negb (str_is_empty uuid)) (identity_mismatch "filesystem UUID is empty");
  mret uuid.

Definition findmnt_command : CommandSpec :=
  command FINDMNT ["--list"; "--noheadings"; "--output"; "UUID,FSTYPE,TARGET"]%string.

(** The lines of the mount inventory for a target. *)
Definition mount_lines (text mount : string) : list string :=
  List.filter (fun line => bool_decide (nth_error (split_whitespace line) 2 = Some mount))
    (List.map trim (lines text)).

Definition mount_of (text filesystem mount : string) : result StorageError BackendState :=
  match mount_lines text mount with
  | [] => Ok BackendState.Unmounted
  | [line] =>
      if bool_decide (line = filesystem +:+ " ext4 " +:+ mount)%string then Ok BackendState.Mounted
      else Err (identity_mismatch "findmnt source, filesystem, or target changed")
  | _ => Err (identity_mismatch "findmnt source, filesystem, or target changed")
  end.

Definition mount_state (layout : ExecutionLayout) (filesystem : string) : lvmio BackendState :=
  if str_is_empty filesystem then mret BackendState.Unmounted
  else
    mount ← ret_result (path_text (ExecutionLayout.root layout));
    output ← run_checked findmnt_command "inspect mount inventory";
    ret_result (text ← utf8_trim (CommandOutput.stdout output) "findmnt output";
                mount_of text filesystem mount).

(** *** [StorageBackend] *)
Definition key (labels : OwnershipLabels) : string :=
  "lvm:" +:+ volume_group +:+ ":" +:+ OwnershipLabels.execution_id labels.

Definition probe (required_bytes : Z) : lvmio BackendCapability :=
  _ ← require_root_and_tools;
  pool ← inspect_pool;
  _ ← guard_or (negb ((LvmPool.extent_bytes pool =? 0) || (LvmPool.free_bytes pool <? required_bytes)))
        (unavailable ("LVM pool has " +:+ show_Z (LvmPool.free_bytes pool) +:+ " free bytes with " +:+
           show_Z (LvmPool.extent_bytes pool) +:+ "-byte extents, need " +:+ show_Z required_bytes));
  _ ← ask_or (Lvm.PoolSet pool) (fun _ => unavailable "LVM pool cache poisoned");
  mret {| BackendCapability.backend := "thick_lvm";
          BackendCapability.pool_identity := LvmPool.uuid pool;
          BackendCapability.reservable_bytes := LvmPool.free_bytes pool |}.

(** The identity of a volume that has no file system yet. *)
Definition created_identity (info : LvInfo) (token : string) : BackendIdentity :=
  BackendIdentity.Lvm volume_group (LvInfo.vg_uuid info) (LvInfo.name info) (LvInfo.lv_uuid info) ""
    token.

Definition discover (layout : ExecutionLayout) (token : string) (bytes : Z) :
    lvmio (option BackendIdentity) :=
  output ← run_checked (lvs_select_command (tag token)) "discover owned logical volume";
  found ← ret_result (inventory "lvs discovery output" output);
  match found with
  | None => mret None
  | Some info =>
      _ ← guard_or ((LvInfo.size_bytes info =? bytes) && has_tag (LvInfo.tags info) (tag token))
            (identity_mismatch "discovered LVM object does not match token and size");
      mret (Some (created_identity info token))
  end.

Definition lvcreate_command (extents : Z) (token : string) : CommandSpec :=
  command LVM ["lvcreate"; "--yes"; "--type"; "linear"; "--extents"; show_Z extents; "--name";
               lv_name token; "--addtag"; tag token; "--"; volume_group]%string.

Definition checked_add_u64 (a b : Z) : option Z := if a + b <=? u64_max then Some (a + b) else None.

(** The extents of a request that is an exact number of them. *)
Definition extents_of (bytes extent_bytes : Z) : result StorageError Z :=
  sum ← ok_or (checked_add_u64 bytes (extent_bytes - 1))
    (StorageError.InvalidRequest "LVM extent count overflows");
  let extents := sum / extent_bytes in
  _ ← check (bool_decide (checked_mul_u64 extents extent_bytes = Some bytes))
        (unavailable ("requested " +:+ show_Z bytes +:+ " bytes is not an exact multiple of the " +:+
           show_Z extent_bytes +:+ "-byte LVM extent"));
  Ok extents.

Definition create (layout : ExecutionLayout) (labels : OwnershipLabels) (token : string) (bytes : Z) :
    lvmio BackendIdentity :=
  pool ← pool;
  extents ← ret_result (extents_of bytes (LvmPool.extent_bytes pool));
  _ ← run_checked (lvcreate_command extents token) "create tagged thick logical volume";
  found ← inspect_lv_result (lv_name token);
  info ← some_or found (identity_mismatch "created logical volume is absent");
  _ ← guard_or (bool_decide (LvInfo.vg_uuid info = LvmPool.uuid pool) &&
                (LvInfo.size_bytes info =? bytes) && has_tag (LvInfo.tags info) (tag token))
        (identity_mismatch
           "created logical volume identity does not match pool, token, or reservation");
  mret (created_identity info token).

Definition with_filesystem (uuid : string) (b : BackendIdentity) : BackendIdentity :=
  match b with
  | BackendIdentity.Lvm group group_uuid volume volume_uuid _ token =>
      BackendIdentity.Lvm group group_uuid volume volume_uuid uuid token
  | other => other
  end.

Definition prepare (layout : ExecutionLayout) (identity : BackendIdentity) (bytes : Z) :
    lvmio BackendIdentity :=
  found ← inspect_exact identity bytes;
  info ← some_or found (identity_mismatch "logical volume disappeared before prepare");
  parts ← ret_result (lvm_identity identity);
  let '(_, _, _, _, filesystem, _) := parts in
  _ ← guard_or (str_is_empty filesystem)
        (identity_mismatch "logical volume was already formatted before prepare");
  _ ← run_checked (command MKFS ["-F"; "--"; LvInfo.path info]%string)
        "format exact execution filesystem";
  uuid ← filesystem_uuid (LvInfo.path info);
  mret (with_filesystem uuid identity).

Definition state (layout : ExecutionLayout) (identity : BackendIdentity) (bytes : Z) :
    lvmio BackendState :=
  found ← inspect_exact identity bytes;
  match found with
  | None => mret BackendState.Absent
  | Some info =>
      parts ← ret_result (lvm_identity identity);
      let '(_, _, _, _, filesystem, _) := parts in
      _ ← (if str_is_empty filesystem then mret tt
           else uuid ← filesystem_uuid (LvInfo.path info);
                guard_or (bool_decide (uuid = filesystem)) (identity_mismatch "filesystem UUID changed"));
      mount_state layout filesystem
  end.

Definition mount_command (device target : string) : CommandSpec :=
  command MOUNT ["--types"; "ext4"; "--options"; "nodev,nosuid"; "--"; device; target]%string.

Definition mount (layout : ExecutionLayout) (identity : BackendIdentity) (bytes : Z) : lvmio unit :=
  found ← inspect_exact identity bytes;
  info ← some_or found (identity_mismatch "logical volume disappeared before mount");
  parts ← ret_result (lvm_identity identity);
  let '(_, _, _, _, filesystem, _) := parts in
  before ← mount_state layout filesystem;
  _ ← guard_or (bool_decide (before = BackendState.Unmounted))
        (identity_mismatch "logical volume was mounted before mount phase");
  target ← ret_result (path_text (ExecutionLayout.root layout));
  _ ← run_checked (mount_command (LvInfo.path info) target) "mount exact execution filesystem";
  after ← state layout identity bytes;
  guard_or (bool_decide (after = BackendState.Mounted)) (identity_mismatch "LVM mount proof failed").

(** The volume is still the one of an identity. *)
Definition same_object (info : LvInfo) (group_uuid volume_uuid token : string) : bool :=
  bool_decide (LvInfo.vg_uuid info = group_uuid) && bool_decide (LvInfo.lv_uuid info = volume_uuid) &&
  has_tag (LvInfo.tags info) (tag token).

Definition umount_command (target : string) : CommandSpec :=
  command UMOUNT ["--"; target]%string.

Definition unmount (layout : ExecutionLayout) (identity : BackendIdentity) : lvmio unit :=
  parts ← ret_result (lvm_identity identity);
  let '(_, vg_uuid, lv, lv_uuid, filesystem, token) := parts in
  if str_is_empty filesystem then mret tt
  else
    found ← inspect_lv_result lv;
    info ← some_or found (identity_mismatch "logical volume disappeared before unmount");
    _ ← guard_or (same_object info vg_uuid lv_uuid token)
          (identity_mismatch "refuse to unmount LVM object with changed token or UUID");
    target ← ret_result (path_text (ExecutionLayout.root layout));
    _ ← run_checked (umount_command target) "unmount exact execution filesystem";
    mret tt.

Definition lvremove_command (vg lv : string) : CommandSpec :=
  command LVM ["lvremove"; "--yes"; "--"; vg +:+ "/" +:+ lv]%string.

Definition remove (identity : BackendIdentity) : lvmio unit :=
  parts ← ret_result (lvm_identity identity);
  let '(vg, vg_uuid, lv, lv_uuid, _, token) := parts in
  found ← inspect_lv_result lv;
  info ← some_or found (identity_mismatch "logical volume already absent before removal proof");
  _ ← guard_or (same_object info vg_uuid lv_uuid token)
        (identity_mismatch "refuse to remove LVM object with changed token or UUID");
  _ ← run_checked (lvremove_command vg lv) "remove exact thick logical volume";
  mret tt.

(** The backend as the manager calls it. *)
Definition lvm_backend (B : Type) (c : storage_call B) : option (proc lvm_call B) :=
  match c in Storage.storage_call B return option (proc lvm_call B) with
  | Storage.Key labels => Some (Ret (key labels))
  | Storage.Probe required_bytes => Some (probe required_bytes)
  | Storage.Discover layout token bytes => Some (discover layout token bytes)
  | Storage.Create layout labels token bytes => Some (create layout labels token bytes)
  | Storage.Prepare layout identity bytes => Some (prepare layout identity bytes)
  | Storage.Mount layout identity bytes => Some (mount layout identity bytes)
  | Storage.State layout identity bytes => Some (state layout identity bytes)
  | Storage.Unmount layout identity => Some (unmount layout identity)
  | Storage.Remove identity => Some (remove identity)
  | _ => None
  end.
End Lvm.
