(* ===== verification/LvmHost.v ===== *)
(** * A host with a volume group

    The state the storage tools act on and what each command line the backend
    uses may do to it: any command may fail, a failing command that changes
    something may have changed it, and a successful one prints what its manual
    says.  A command line that is not one of these may do anything. *)

From Stdlib Require Import Ascii.
From S2P Require Import Prelude Core Lifecycle Effects StorageModel StorageManager LvmBackend.














(** ** State *)
Module Lv.
Record Lv := {
  uuid : string;
  size : Z;
  path : string;
  tags : list string;
  filesystem : option string            (* the UUID of its file system *)
}.
End Lv.
Abbreviation Lv := Lv.Lv.

Record LvmHost := {
  group_uuid : string;
  extent : Z;
  lvs : gmap string Lv;                 (* by name *)
  mounts : gmap string (string * string); (* by target: UUID and type, where there is a UUID *)
  cached_pool : option LvmPool          (* of the backend's process *)
}.

Definition set_lvs (ls : gmap string Lv) (h : LvmHost) : LvmHost :=
  {| group_uuid := group_uuid h; extent := extent h; lvs := ls; mounts := mounts h;
     cached_pool := cached_pool h |}.
Definition set_mounts (ms : gmap string (string * string)) (h : LvmHost) : LvmHost :=
  {| group_uuid := group_uuid h; extent := extent h; lvs := lvs h; mounts := ms;
     cached_pool := cached_pool h |}.
Definition set_pool (p : LvmPool) (h : LvmHost) : LvmHost :=
  {| group_uuid := group_uuid h; extent := extent h; lvs := lvs h; mounts := mounts h;
     cached_pool := Some p |}.

Definition formatted (u : string) (lv : Lv) : Lv :=
  {| Lv.uuid := Lv.uuid lv; Lv.size := Lv.size lv; Lv.path := Lv.path lv; Lv.tags := Lv.tags lv;
     Lv.filesystem := Some u |}.

(** ** Command lines *)
Inductive Tool :=
| Ask (program flag : string)
| Vgs
| Lvs (lv : string)
| LvsTag (tag : string)
| LvCreate (extents : Z) (lv tag : string)
| LvRemove (lv : string)
| Mkfs (device : string)
| Blkid (device : string)
| Findmnt
| MountAt (device target : string)
| UmountAt (target : string).

Section Host.
Context (volume_group : string).

Definition argv (t : Tool) : CommandSpec :=
  match t with
  | Ask program flag => command program [flag]
  | Vgs => command "/usr/sbin/lvm" ["vgs"; "--noheadings"; "--units"; "b"; "--nosuffix";
      "--separator"; ":"; "--options"; "vg_uuid,vg_free,vg_extent_size"; "--"; volume_group]
  | Lvs lv => command "/usr/sbin/lvm" ["lvs"; "--noheadings"; "--units"; "b"; "--nosuffix";
      "--separator"; ":"; "--options"; "vg_uuid,lv_uuid,lv_size,lv_path,lv_tags,lv_name"; "--";
      volume_group +:+ "/" +:+ lv]
  | LvsTag tag => command "/usr/sbin/lvm" ["lvs"; "--noheadings"; "--units"; "b"; "--nosuffix";
      "--separator"; ":"; "--options"; "vg_uuid,lv_uuid,lv_size,lv_path,lv_tags,lv_name"; "--select";
      "lv_tags=" +:+ tag; "--"; volume_group]
  | LvCreate extents lv tag => command "/usr/sbin/lvm" ["lvcreate"; "--yes"; "--type"; "linear";
      "--extents"; show_Z extents; "--name"; lv; "--addtag"; tag; "--"; volume_group]
  | LvRemove lv => command "/usr/sbin/lvm" ["lvremove"; "--yes"; "--"; volume_group +:+ "/" +:+ lv]
  | Mkfs device => command "/usr/sbin/mkfs.ext4" ["-F"; "--"; device]
  | Blkid device =>
      command "/usr/sbin/blkid" ["--output"; "value"; "--match-tag"; "UUID"; "--"; device]
  | Findmnt =>
      command "/usr/bin/findmnt" ["--list"; "--noheadings"; "--output"; "UUID,FSTYPE,TARGET"]
  | MountAt device target =>
      command "/usr/bin/mount" ["--types"; "ext4"; "--options"; "nodev,nosuid"; "--"; device; target]
  | UmountAt target => command "/usr/bin/umount" ["--"; target]
  end%string.

(** ** Output *)

(** The row [lvs] prints for a volume, with its size as decimal digits. *)
Definition row (h : LvmHost) (name : string) (lv : Lv) (size : string) : string :=
  String.concat ":" [group_uuid h; Lv.uuid lv; size; Lv.path lv; String.concat "," (Lv.tags lv); name].

Definition prints_row (h : LvmHost) (name : string) (lv : Lv) (stdout : string) : Prop :=
  exists size, parse_u64 size = Some (Lv.size lv) /\ trim size = size /\ ~ has_char ":" size /\
    trim stdout = row h name lv size.

(** The lines of the mount inventory that are about a target. *)
Definition lines_for (stdout target : string) : list string :=
  List.filter (fun line => bool_decide (nth_error (split_whitespace line) 2 = Some target))
    (List.map trim (lines (trim stdout))).

(** ** Commands

    [absent_ok]: [lvs] succeeds on a volume that does not exist; [line_of]: how
    [findmnt] sets a row, given the widths of its columns' contents. *)
Context (absent_ok : Prop) (line_of : gmap string (string * string) -> string -> string -> string -> string -> Prop).

(** An effect that may be there after a failure. *)
Definition changes (h : LvmHost) (out : CommandOutput) (h' : LvmHost) (effect : LvmHost -> Prop) : Prop :=
  effect h' \/ (h' = h /\ CommandOutput.code out <> 0).

Definition owner_of (h : LvmHost) (device name : string) (lv : Lv) : Prop :=
  lvs h !! name = Some lv /\ Lv.path lv = device.

Definition unmounted_fs (h : LvmHost) (o : option string) : Prop :=
  forall u f t, o = Some u -> mounts h !! t <> Some (u, f).

(** A UUID or a device no volume has yet, and no mount either. *)
Definition fresh_fs (h : LvmHost) (u : string) : Prop :=
  (forall name lv, lvs h !! name = Some lv -> Lv.filesystem lv <> Some u) /\
  (forall t f, mounts h !! t <> Some (u, f)).

Definition word (s : string) : Prop :=
  s <> ""%string /\ string_forallb (fun c => (33 <=? byte_code c)%N && (byte_code c <=? 126)%N) s = true.

(** A field [lvs] prints as it is. *)
Definition field (s : string) : Prop := s <> ""%string /\ trim s = s /\ ~ has_char ":" s.

(** A tag, which LVM restricts. *)
Definition tag_text (t : string) : Prop := t <> ""%string /\ trim t = t /\ ~ has_char "," t.

Definition tool_sem (t : Tool) (h : LvmHost) (out : CommandOutput) (h' : LvmHost) : Prop :=
  let ok := CommandOutput.code out = 0 in
  let stdout := CommandOutput.stdout out in
  match t with
  | Ask _ _ | Vgs => h' = h
  | Lvs name => h' = h /\ (ok ->
      match lvs h !! name with
      | Some lv => prints_row h name lv stdout
      | None => absent_ok /\ trim stdout = ""%string
      end)
  | LvsTag tag => h' = h /\ (ok ->
      match List.filter (fun x => bool_decide (tag ∈ Lv.tags x.2)) (map_to_list (lvs h)) with
      | [] => trim stdout = ""%string
      | [(name, lv)] => prints_row h name lv stdout
      | _ => True
      end)
  | LvCreate extents name tag => changes h out h' (fun h' => lvs h !! name = None /\
      field name /\ tag_text tag /\
      exists lv, field (Lv.uuid lv) /\ Lv.size lv = extents * extent h /\
        field (Lv.path lv) /\ (forall n lv', lvs h !! n = Some lv' -> Lv.path lv' <> Lv.path lv) /\
        Lv.tags lv = [tag] /\ Lv.filesystem lv = None /\ h' = set_lvs (<[name := lv]> (lvs h)) h)
  | LvRemove name => changes h out h' (fun h' => exists lv, lvs h !! name = Some lv /\
      unmounted_fs h (Lv.filesystem lv) /\ h' = set_lvs (delete name (lvs h)) h)
  | Mkfs device => changes h out h' (fun h' => exists name lv u, owner_of h device name lv /\
      unmounted_fs h (Lv.filesystem lv) /\ word u /\ fresh_fs h u /\
      h' = set_lvs (<[name := formatted u lv]> (lvs h)) h)
  | Blkid device => h' = h /\ (ok -> exists name lv u, owner_of h device name lv /\
      Lv.filesystem lv = Some u /\ trim stdout = u)
  | Findmnt => h' = h /\ (ok -> forall target,
      match mounts h !! target with
      | Some (u, f) => exists line, lines_for stdout target = [line] /\
          split_whitespace line = [u; f; target] /\ line_of (mounts h) u f target line
      | None => lines_for stdout target = []
      end)
  | MountAt device target => changes h out h' (fun h' => exists name lv u, owner_of h device name lv /\
      Lv.filesystem lv = Some u /\ h' = set_mounts (<[target := (u, "ext4"%string)]> (mounts h)) h)
  | UmountAt target => changes h out h' (fun h' => is_Some (mounts h !! target) /\
      h' = set_mounts (delete target (mounts h)) h)
  end.

Definition lvm_sem (B : Type) (c : lvm_call B) (h : LvmHost) : B -> LvmHost -> Prop :=
  match c in Lvm.lvm_call B return B -> LvmHost -> Prop with
  | Lvm.Run spec => fun r h' =>
      match r with
      | Ok out => forall t, spec = argv t -> tool_sem t h out h'
      | Err _ => h' = h \/ exists out, forall t, spec = argv t -> tool_sem t h out h'
      end
  | Lvm.PoolGet => fun r h' => h' = h /\
      match r with Ok p => p = cached_pool h | Err _ => True end
  | Lvm.PoolSet p => fun r h' =>
      match r with Ok _ => h' = set_pool p h | Err _ => h' = h end
  end.

(** ** Well-formed hosts *)
Record host_ok (h : LvmHost) : Prop := {
  group_field : field (group_uuid h);
  lv_fields name lv : lvs h !! name = Some lv ->
    field (Lv.uuid lv) /\ field (Lv.path lv) /\ field name;
  lv_tags name lv : lvs h !! name = Some lv ->
    Forall tag_text (Lv.tags lv) /\
    trim (String.concat "," (Lv.tags lv)) = String.concat "," (Lv.tags lv);
  lv_owner name lv token : lvs h !! name = Some lv -> tag token ∈ Lv.tags lv -> name = lv_name token;
  lv_paths n1 n2 lv1 lv2 : lvs h !! n1 = Some lv1 -> lvs h !! n2 = Some lv2 ->
    Lv.path lv1 = Lv.path lv2 -> n1 = n2;
  fs_words name lv u : lvs h !! name = Some lv -> Lv.filesystem lv = Some u -> word u;
  fs_unique n1 n2 lv1 lv2 u : lvs h !! n1 = Some lv1 -> lvs h !! n2 = Some lv2 ->
    Lv.filesystem lv1 = Some u -> Lv.filesystem lv2 = Some u -> n1 = n2
}.
End Host.

(** * What the LVM backend reads

    The inventories printed by a host of [LvmHost.v], parsed by [LvmBackend.v]:
    a row is about the volume it was printed for, and each inspection of the
    backend ([reads]) leaves the host as it is and reports what is there. *)

(** ** Reading the inventories *)
Lemma append_one c s : (String c "" +:+ s)%string = String c s.
Proof. done. Qed.

Lemma split_concat d (l : list string) :
  l <> [] -> Forall (fun x => ~ has_char d x) l -> split d (String.concat (String d "") l) = l.
Proof.
  induction l as [|x [|y l] IH]; intros Hne Hl; [done|..]; apply Forall_cons in Hl as [Hx Hl]; simpl.
  - by apply split_no_char.
  - rewrite append_one, split_field by done. f_equal. by apply IH.
Qed.

Lemma fields_row g u size path tags name :
  ~ has_char ":" g -> ~ has_char ":" u -> ~ has_char ":" size -> ~ has_char ":" path ->
  ~ has_char ":" name ->
  split ":" (String.concat ":" [g; u; size; path; tags; name]) =
  g :: u :: size :: path :: split ":" tags ++ [name].
Proof.
  intros. simpl. rewrite !append_one.
  rewrite !split_field by done. do 4 f_equal. by rewrite split_app, (split_no_char _ name).
Qed.

Lemma tag_ne_nil token : tag token <> ""%string.
Proof. done. Qed.

Lemma tag_inj t1 t2 : tag t1 = tag t2 -> t1 = t2.
Proof. unfold tag. intros H. by simplify_eq. Qed.

(** A parsed row is about the volume it was printed for. *)
Definition describes (h : LvmHost) (name : string) (lv : Lv) (info : LvInfo) : Prop :=
  LvInfo.vg_uuid info = group_uuid h /\ LvInfo.lv_uuid info = Lv.uuid lv /\
  LvInfo.size_bytes info = Lv.size lv /\ LvInfo.path info = Lv.path lv /\ LvInfo.name info = name /\
  forall token, has_tag (LvInfo.tags info) (tag token) = true -> tag token ∈ Lv.tags lv.

Lemma has_tag_in tags t :
  Forall tag_text tags -> tags <> [] -> has_tag (String.concat "," tags) t = true -> t ∈ tags.
Proof.
  intros Hf Hne. unfold has_tag. rewrite split_concat; [|done|].
  - rewrite existsb_exists. intros (x & Hx & Ht). apply list_elem_of_In in Hx. bools. subst t.
    rewrite Forall_forall in Hf. by destruct (Hf x Hx) as (_ & -> & _).
  - eapply Forall_impl; [exact Hf|]. intros x Hx. apply Hx.
Qed.

Lemma utf8_trim_Ok bytes purpose text : utf8_trim bytes purpose = Ok text -> text = trim bytes.
Proof. unfold utf8_trim, from_utf8. case_match; case_match; naive_solver. Qed.

Lemma parse_row h name lv stdout info :
  host_ok h -> lvs h !! name = Some lv -> prints_row h name lv stdout ->
  parse_lv stdout = Ok info -> describes h name lv info.
Proof.
  intros Hok Hlv (size & Hs & Hst & Hsc & Hrow) Hp. unfold parse_lv in Hp.
  apply result_bind_Ok in Hp as (text & ->%utf8_trim_Ok & Hp). rewrite Hrow in Hp.
  destruct (group_field h Hok) as (_ & Hg & Hgc).
  destruct (lv_fields h Hok name lv Hlv) as ((_ & Hu & Huc) & (_ & Hpa & Hpc) & (_ & Hn & Hnc)).
  destruct (lv_tags h Hok name lv Hlv) as [Htf Htt].
  unfold fields_of in Hp. unfold row in Hp. rewrite fields_row in Hp by done. simpl in Hp.
  destruct (split ":" (String.concat "," (Lv.tags lv))) as [|t [|]] eqn:Et; simpl in Hp;
    [by apply split_ne_nil in Et| |by destruct l].
  apply split_one in Et as [-> _].
  rewrite Hg, Hu, Hst, Hpa, Hn, Htt in Hp. case_match eqn:He; [done|].
  apply result_bind_Ok in Hp as (z & Hz & [= <-]). unfold parse_number in Hz.
  apply ok_or_Ok in Hz. rewrite Hs in Hz. injection Hz as <-.
  split_and!; simpl; [done..|]. intros token Ht. apply has_tag_in in Ht; [done|done|].
  intros H0. rewrite H0 in He. simpl in He. bools. naive_solver.
Qed.

Lemma inventory_row h name lv purpose output o :
  host_ok h -> lvs h !! name = Some lv -> prints_row h name lv (CommandOutput.stdout output) ->
  inventory purpose output = Ok o -> exists info, o = Some info /\ describes h name lv info.
Proof.
  intros Hok Hlv Hp Hi. unfold inventory in Hi.
  apply result_bind_Ok in Hi as (text & ->%utf8_trim_Ok & Hi).
  destruct Hp as (size & Hs & Hst & Hsc & Hrow) eqn:Hp'.
  assert (str_is_empty (trim (CommandOutput.stdout output)) = false) as Hne.
  { rewrite Hrow. unfold row. simpl. destruct (group_field h Hok) as [Hg _].
    destruct (group_uuid h); [done|]. by rewrite string_app_cons. }
  rewrite Hne in Hi. destruct (parse_lv _) as [info|] eqn:Epl; [|done].
  injection Hi as <-. exists info. split; [done|]. by eapply parse_row.
Qed.

Lemma inventory_empty purpose output o :
  trim (CommandOutput.stdout output) = ""%string -> inventory purpose output = Ok o -> o = None.
Proof.
  intros Ht Hi. unfold inventory in Hi. apply result_bind_Ok in Hi as (text & ->%utf8_trim_Ok & Hi).
  rewrite Ht in Hi. by injection Hi as <-.
Qed.

(** The first column of a line of mounts. *)
Lemma word_not_space b r : (33 <=? b)%N && (b <=? 126)%N = true -> ws_prefix (b :: r) = None.
Proof.
  intros Hb. apply andb_true_iff in Hb as [H1%N.leb_le H2%N.leb_le]. simpl.
  replace ((9 <=? b)%N && (b <=? 13)%N || (b =? 32)%N) with false.
  - destruct b as [|p]; [lia|].
    repeat (match goal with p : positive |- _ => destruct p end; try (exfalso; lia); try reflexivity).
  - symmetry. apply orb_false_iff. rewrite andb_false_iff, N.leb_gt, N.leb_gt, N.eqb_neq. lia.
Qed.

Lemma words_word u rest acc n :
  string_forallb (fun c => (33 <=? byte_code c)%N && (byte_code c <=? 126)%N) u = true ->
  rev (rev (bytes_of u) ++ acc) <> [] -> (String.length u < n)%nat ->
  exists tail, words n (bytes_of u ++ 32%N :: rest) acc = (rev (rev (bytes_of u) ++ acc)) :: tail.
Proof.
  revert acc n. induction u as [|c u IH]; intros acc [|n] Hu Hne Hn; simpl in Hn; [lia| |lia|].
  - simpl. destruct acc; [done|]. by eexists.
  - simpl in Hu. apply andb_true_iff in Hu as [Hc Hu].
    change (bytes_of (String c u)) with (N_of_ascii c :: bytes_of u).
    rewrite <- app_comm_cons. change (words (S n) ?bs acc) with
      (match bs with b :: r => match ws_prefix bs with
        | Some rest => match acc with [] => words n rest [] | _ => rev acc :: words n rest [] end
        | None => words n r (b :: acc) end | [] => match acc with [] => [] | _ => [rev acc] end end).
    cbv beta iota. rewrite word_not_space by exact Hc.
    destruct (IH (N_of_ascii c :: acc) n Hu) as [tail ->]; [|lia|].
    + intros H%(f_equal (@List.length N)). rewrite length_rev, length_app in H. simpl in H. lia.
    + exists tail. f_equal. simpl. by rewrite <- app_assoc.
Qed.

Lemma bytes_of_app a b : bytes_of (a +:+ b) = bytes_of a ++ bytes_of b.
Proof.
  unfold bytes_of. induction a as [|c a IH]; [done|]. rewrite string_app_cons. simpl. by rewrite IH.
Qed.

Lemma of_bytes_of s : of_bytes (bytes_of s) = s.
Proof.
  unfold of_bytes, bytes_of. induction s as [|c s IH]; [done|]. simpl. by rewrite ascii_N_embedding, IH.
Qed.

Lemma split_whitespace_word u rest :
  word u -> exists tail, split_whitespace (u +:+ String " " rest) = u :: tail.
Proof.
  intros [Hne Hu]. unfold split_whitespace. rewrite bytes_of_app.
  change (bytes_of (String " " rest)) with (32%N :: bytes_of rest).
  destruct (words_word u (bytes_of rest) [] (Strings.String.length (u +:+ String " " rest)) Hu)
    as [tail Ht].
  - rewrite app_nil_r, rev_involutive. by destruct u.
  - rewrite string_length_app. simpl. lia.
  - rewrite Ht. simpl. rewrite app_nil_r, rev_involutive, of_bytes_of. by eexists.
Qed.

(** ** Programs that only read *)
Section LvmReads.
Context (volume_group : string) (absent_ok : Prop).
Context (line_of : gmap string (string * string) -> string -> string -> string -> string -> Prop).

Abbreviation argv := (argv volume_group).
Abbreviation tool_sem := (tool_sem absent_ok line_of).
Abbreviation sem := (lvm_sem volume_group absent_ok line_of).

Section Reads.
Context (I : LvmHost -> Prop).
Abbreviation hoare := (hoare_crash sem I).

Definition reads {A} (m : lvmio A) (h : LvmHost) (P : A -> Prop) : Prop :=
  hoare m (fun r h' => h' = h /\ match r with Ok a => P a | Err _ => True end) h.

Lemma reads_result {A} (r : result StorageError A) h (P : A -> Prop) :
  (forall a, r = Ok a -> P a) -> reads (ret_result r) h P.
Proof. intros HP. apply hoare_ret. split; [done|]. destruct r; auto. Qed.

Lemma reads_bind {A B} (m : lvmio A) (f : A -> lvmio B) h P P' :
  reads m h P -> (forall a, P a -> reads (f a) h P') -> reads (m ≫= f) h P'.
Proof.
  intros Hm Hf. apply hoare_io_bind. eapply hoare_mono; [exact Hm|].
  intros [a|e] h' [-> Ha]; [by apply Hf|done].
Qed.

Lemma reads_guard {B} b e (f : unit -> lvmio B) h P :
  (b = true -> reads (f tt) h P) -> reads (guard_or b e ≫= f) h P.
Proof.
  intros Hf. eapply reads_bind with (P := fun _ => b = true).
  - apply reads_result. by intros u Hu%check_Ok.
  - by intros [] Hb; apply Hf.
Qed.

Lemma hoare_reads {A B} (m : lvmio A) (f : A -> lvmio B) Q h P :
  reads m h P -> (forall a, P a -> hoare (f a) Q h) -> (forall e, Q (Err e) h) ->
  hoare (m ≫= f) Q h.
Proof.
  intros Hm Hf He. apply hoare_io_bind. eapply hoare_mono; [exact Hm|].
  intros [a|e] h' [-> Ha]; [by apply Hf|done].
Qed.

Lemma hoare_pure {A B} (r : result StorageError A) (f : A -> lvmio B) Q h :
  (forall a, r = Ok a -> hoare (f a) Q h) -> (forall e, Q (Err e) h) ->
  hoare (ret_result r ≫= f) Q h.
Proof. intros Hf He. by eapply hoare_reads with (P := fun a => r = Ok a); [apply reads_result| |]. Qed.

Lemma hoare_guard {B} b e (f : unit -> lvmio B) Q h :
  (b = true -> hoare (f tt) Q h) -> (forall e, Q (Err e) h) -> hoare (guard_or b e ≫= f) Q h.
Proof. intros Hf He. apply hoare_pure; [|done]. intros [] Hb%check_Ok. by apply Hf. Qed.

Lemma hoare_reads_end {A} (m : lvmio A) Q h P :
  reads m h P -> (forall a, P a -> Q (Ok a) h) -> (forall e, Q (Err e) h) -> hoare m Q h.
Proof. intros Hm Ha He. eapply hoare_mono; [exact Hm|]. intros [a|e] h' [-> H]; auto. Qed.

(** A command that may change the host. *)
Lemma hoare_run {A} t spec purpose (f : CommandOutput -> lvmio A) Q h :
  spec = argv t -> I h -> (forall h' e, I h' -> Q (Err e) h') ->
  (forall out h', tool_sem t h out h' -> I h' /\ (CommandOutput.code out = 0 -> hoare (f out) Q h')) ->
  hoare (run_checked spec purpose ≫= f) Q h.
Proof.
  intros Hs HI HQ Hf. apply hoare_io_bind. unfold run_checked. apply hoare_io_bind, hoare_req.
  intros r h' Hr. simpl in Hr. destruct r as [out|e].
  - specialize (Hr t Hs). destruct (Hf out h' Hr) as [HI' Hk]. split; [done|].
    apply hoare_ret, hoare_ret. unfold checked. destruct (Z.eqb_spec (CommandOutput.code out) 0); simpl; auto.
  - assert (I h') as HI' by (destruct Hr as [-> | (out & Hr)]; [done|by destruct (Hf out h' (Hr t Hs))]).
    split; [done|]. apply hoare_ret. simpl. auto.
Qed.

Lemma reads_run t spec purpose h (P : CommandOutput -> Prop) :
  spec = argv t -> I h -> (forall out h', tool_sem t h out h' -> h' = h) ->
  (forall out, tool_sem t h out h -> CommandOutput.code out = 0 -> P out) ->
  reads (run_checked spec purpose) h P.
Proof.
  intros Hs HI Hro HP. unfold reads, run_checked. apply hoare_io_bind, hoare_req.
  intros r h' Hr. simpl in Hr. destruct r as [out|e].
  - specialize (Hr t Hs). pose proof (Hro _ _ Hr) as ->. split; [done|].
    apply hoare_ret, hoare_ret. split; [done|].
    unfold checked. destruct (Z.eqb_spec (CommandOutput.code out) 0); auto.
  - assert (h' = h) as -> by (destruct Hr as [-> | (out & Hr)]; [done|by eapply Hro, Hr]).
    split; [done|]. by apply hoare_ret.
Qed.

(** ** The inspections *)
Context (h : LvmHost) (Hok : host_ok h) (HI : I h).

Lemma reads_inspect lv :
  reads (inspect_lv_result volume_group lv) h (fun o =>
    match o with
    | Some info => exists lv0, lvs h !! lv = Some lv0 /\ describes h lv lv0 info
    | None => lvs h !! lv = None /\ absent_ok
    end).
Proof.
  eapply reads_bind; [apply (reads_run (Lvs lv)); [reflexivity|done|by intros ?? []|]|].
  - intros out [_ Ht] Hc. exact (Ht Hc).
  - intros out Ht. apply reads_result. intros o Ho. simpl in Ht. destruct (lvs h !! lv) as [lv0|] eqn:E.
    + destruct (inventory_row _ _ _ _ _ _ Hok E Ht Ho) as (info & -> & Hd). by exists lv0.
    + destruct Ht as [Ha Ht]. by rewrite (inventory_empty _ _ _ Ht Ho).
Qed.

Lemma reads_inspect_exact b bytes vg gu lv lu fs token :
  lvm_identity b = Ok (vg, gu, lv, lu, fs, token) ->
  reads (inspect_exact volume_group b bytes) h (fun o =>
    match o with
    | Some info => exists lv0, lvs h !! lv = Some lv0 /\ describes h lv lv0 info /\
        tag token ∈ Lv.tags lv0 /\ gu = group_uuid h /\ lu = Lv.uuid lv0
    | None => lvs h !! lv = None /\ absent_ok
    end).
Proof.
  intros Hb. unfold inspect_exact. rewrite Hb. apply reads_guard. intros _.
  eapply reads_bind; [apply reads_inspect|]. intros [info|]; [|by intros; apply reads_result; intros ? [= <-]].
  intros (lv0 & Hlv & Hd). apply reads_guard. intros Hg. apply reads_result. intros ? [= <-].
  exists lv0. destruct Hd as (Hd1 & Hd2 & Hd3 & Hd4 & Hd5 & Hd6).
  apply negb_true_iff, orb_false_iff in Hg as [Hg Ht]. apply negb_false_iff in Ht.
  rewrite !orb_false_iff, !negb_false_iff, !bool_decide_eq_true in Hg.
  split_and!; [done|done|by apply Hd6|intuition congruence..].
Qed.

Lemma reads_filesystem_uuid lv lv0 device :
  lvs h !! lv = Some lv0 -> Lv.path lv0 = device ->
  reads (filesystem_uuid device) h (fun u => Lv.filesystem lv0 = Some u).
Proof.
  intros Hlv Hd. eapply reads_bind; [apply (reads_run (Blkid device)); [reflexivity|done|by intros ?? []|]|].
  - intros out [_ Ht] Hc. exact (Ht Hc).
  - intros out (name & lv' & u & [Hn Hp] & Hu & Ht). eapply reads_bind.
    + apply reads_result. intros a Ha%utf8_trim_Ok. exact Ha.
    + intros a ->. apply reads_guard. intros _. apply reads_result. intros ? [= <-].
      rewrite Ht. assert (name = lv) as -> by (eapply lv_paths; eauto; congruence). congruence.
Qed.

Lemma reads_mount_state layout fs :
  reads (mount_state layout fs) h (fun s =>
    match s with
    | BackendState.Unmounted => fs = ""%string \/ mounts h !! ExecutionLayout.root layout = None
    | BackendState.Mounted => fs <> ""%string /\ exists u f,
        mounts h !! ExecutionLayout.root layout = Some (u, f) /\ (word fs -> u = fs) /\
        line_of (mounts h) u f (ExecutionLayout.root layout)
          (fs +:+ " ext4 " +:+ ExecutionLayout.root layout)
    | BackendState.Absent => False
    end).
Proof.
  unfold mount_state. destruct (str_is_empty fs) eqn:Ef.
  { apply reads_result. intros ? [= <-]. left. by destruct fs. }
  eapply reads_bind with (P := fun p => p = ExecutionLayout.root layout).
  { apply reads_result. unfold path_text, from_utf8. intros p Hp%ok_or_Ok. case_match; congruence. }
  intros root ->.
  eapply reads_bind; [apply (reads_run Findmnt); [reflexivity|done|by intros ?? []|]|].
  { intros out [_ Ht] Hc. exact (Ht Hc). }
  intros out Ht. specialize (Ht (ExecutionLayout.root layout)). apply reads_result. intros s Hs.
  apply result_bind_Ok in Hs as (text & ->%utf8_trim_Ok & Hs). unfold mount_of in Hs.
  change (mount_lines (trim (CommandOutput.stdout out)) ?r) with (lines_for (CommandOutput.stdout out) r) in Hs.
  destruct (mounts h !! ExecutionLayout.root layout) as [[u f]|] eqn:Em; simpl in Ht.
  - destruct Ht as (line & Hl & Hw & Hline). rewrite Hl in Hs. case_bool_decide as Hb; [|done].
    injection Hs as <-. split; [by intros ->|]. exists u, f. subst line. split_and!; [done|intros Hf|done].
    destruct (split_whitespace_word fs ("ext4 " +:+ ExecutionLayout.root layout) Hf) as [tl Htl].
    change ((" ext4 " +:+ ?r)%string) with (String " " ("ext4 " +:+ r)) in Hw. congruence.
  - rewrite Ht in Hs. injection Hs as <-. by right.
Qed.

Lemma reads_state layout b bytes vg gu lv lu fs token :
  lvm_identity b = Ok (vg, gu, lv, lu, fs, token) ->
  reads (state volume_group layout b bytes) h (fun s =>
    match s with
    | BackendState.Absent => lvs h !! lv = None /\ absent_ok
    | BackendState.Unmounted => exists lv0, lvs h !! lv = Some lv0 /\ tag token ∈ Lv.tags lv0 /\
        (fs = ""%string \/ mounts h !! ExecutionLayout.root layout = None)
    | BackendState.Mounted => exists lv0 f, lvs h !! lv = Some lv0 /\ tag token ∈ Lv.tags lv0 /\
        Lv.filesystem lv0 = Some fs /\ mounts h !! ExecutionLayout.root layout = Some (fs, f) /\
        line_of (mounts h) fs f (ExecutionLayout.root layout)
          (fs +:+ " ext4 " +:+ ExecutionLayout.root layout)
    end).
Proof.
  intros Hb. eapply reads_bind; [by eapply reads_inspect_exact|].
  intros [info|]; [|by intros Ha; apply reads_result; intros ? [= <-]].
  intros (lv0 & Hlv & Hd & Ht & _). rewrite Hb. apply hoare_ok_bind. eapply reads_bind with (P := fun _ => fs = ""%string \/
    Lv.filesystem lv0 = Some fs).
  - destruct (str_is_empty fs) eqn:Ef; cbv iota; [by apply reads_result; left; destruct fs|].
    eapply reads_bind; [eapply (reads_filesystem_uuid lv lv0); [done|by destruct Hd as (_ & _ & _ & -> & _)]|].
    intros u Hu. apply reads_result. intros [] Hg%check_Ok. right. bools. congruence.
  - intros [] Hfs. eapply hoare_mono; [apply reads_mount_state|]. intros [s|e] h' [-> Hs]; [|done].
    split; [done|]. destruct s; [|by exists lv0|done].
    destruct Hs as (Hne & u & f & Hm & Hw & Hline). destruct Hfs as [|Hfs]; [done|].
    rewrite (Hw (fs_words h Hok _ _ _ Hlv Hfs)) in Hm, Hline. by exists lv0, f.
Qed.
End Reads.
End LvmReads.
