(* ===== verification/LvmRefines.v ===== *)
(** * The LVM backend implements its contract

    [StorageWorld.v] says what the manager relies on: a volume belongs to its
    ownership token, [state] and [discover] report that volume, an operation may
    fail before or after its effect.  Here every operation of [LvmBackend.v],
    over the host of [LvmHost.v], is shown to do what that contract allows, at
    its end and wherever it is cut short, and to leave alone every volume and
    every mount that is not the execution's.

    The last part is the host the backend runs on under Linux: [lvs] fails for
    a volume that does not exist and [findmnt] pads its columns, so the backend
    never has a volume ready there. *)

From Stdlib Require Import Ascii.
From S2P Require Import Prelude Core Lifecycle Effects StorageModel FileSystem Pinned MetadataStore RecordAtomicity StorageCodec StorageManager StorageWorld StorageSafety StorageRelease LvmBackend LvmHost.


Section Refines.
Context (volume_group : string) (absent_ok : Prop).
Context (line_of : gmap string (string * string) -> string -> string -> string -> string -> Prop).

Abbreviation tool_sem := (tool_sem absent_ok line_of).
Abbreviation sem := (lvm_sem volume_group absent_ok line_of).

(** ** The host as the volumes of the contract *)
Definition mounted_on (h : LvmHost) (fs : option string) (p : string) : Prop :=
  exists u f, fs = Some u /\ mounts h !! p = Some (u, f).

Definition stands_for (h : LvmHost) (token : string) (v : Volume) : Prop :=
  exists lv fs, lvs h !! lv_name token = Some lv /\ tag token ∈ Lv.tags lv /\
    Volume.identity v = BackendIdentity.Lvm volume_group (group_uuid h) (lv_name token) (Lv.uuid lv) fs token /\
    (fs = ""%string \/ Lv.filesystem lv = Some fs) /\
    forall p, Volume.mounted_at v = Some p <-> mounted_on h (Lv.filesystem lv) p.

Definition abstracts_at (h : LvmHost) (w : World) (token : string) : Prop :=
  match volumes w !! token with
  | Some v => stands_for h token v
  | None => forall lv, lvs h !! lv_name token = Some lv -> tag token ∉ Lv.tags lv
  end.

Definition abstracts (h : LvmHost) (w : World) : Prop :=
  host_ok h /\ forall token, abstracts_at h w token.

(** Nothing but the volume of a token and the mount at a path has changed. *)
Definition keeps (token : string) (root : option string) (h h' : LvmHost) : Prop :=
  (forall n lv, lvs h !! n = Some lv -> tag token ∉ Lv.tags lv -> lvs h' !! n = Some lv) /\
  (forall n, is_Some (lvs h' !! n) -> is_Some (lvs h !! n) \/ n = lv_name token) /\
  (forall p, Some p <> root -> mounts h' !! p = mounts h !! p).

(** What a call may touch: the volume of a token, and for some a mount. *)
Definition touches {B} (c : storage_call B) : option (string * option string) :=
  match c with
  | Storage.Create _ _ token _ => Some (token, None)
  | Storage.Prepare _ b _ | Storage.Remove b => Some (identity_token b, None)
  | Storage.Mount layout b _ | Storage.Unmount layout b =>
      Some (identity_token b, Some (ExecutionLayout.root layout))
  | _ => None
  end.

Definition confined {B} (c : storage_call B) (h h' : LvmHost) : Prop :=
  match touches c with
  | Some (token, root) => keeps token root h h'
  | None => lvs h' = lvs h /\ mounts h' = mounts h
  end.

Lemma confined_refl {B} (c : storage_call B) h : confined c h h.
Proof. unfold confined, keeps. destruct (touches c) as [[]|]; [|done]. split_and!; auto. Qed.

Lemma lv_name_inj t1 t2 : lv_name t1 = lv_name t2 -> t1 = t2.
Proof. unfold lv_name. intros H. by simplify_eq. Qed.

(** The volume of a token, when there is one with its tag. *)
Lemma abstracts_tagged h w token lv :
  abstracts h w -> lvs h !! lv_name token = Some lv -> tag token ∈ Lv.tags lv ->
  exists v, volumes w !! token = Some v /\ stands_for h token v.
Proof.
  intros [_ Ha] Hlv Ht. specialize (Ha token). unfold abstracts_at in Ha.
  destruct (volumes w !! token) as [v|]; [by exists v|]. by destruct (Ha lv Hlv).
Qed.

(** A change that concerns one token. *)
Lemma abstracts_update h h' w w' token :
  abstracts h w -> host_ok h' -> group_uuid h' = group_uuid h ->
  (forall t, t <> token -> volumes w' !! t = volumes w !! t) ->
  (forall t, t <> token -> lvs h' !! lv_name t = lvs h !! lv_name t) ->
  (forall t lv v p, t <> token -> lvs h !! lv_name t = Some lv -> volumes w !! t = Some v ->
     stands_for h t v -> mounted_on h' (Lv.filesystem lv) p <-> mounted_on h (Lv.filesystem lv) p) ->
  abstracts_at h' w' token -> abstracts h' w'.
Proof.
  intros [Hok Ha] Hok' Hg Hv Hl Hm Ht. split; [done|]. intros t.
  destruct (decide (t = token)) as [->|Hne]; [done|].
  specialize (Ha t). unfold abstracts_at in *. rewrite Hv, Hl by done.
  destruct (volumes w !! t) as [v|] eqn:Ev; [|done].
  destruct Ha as (lv & fs & Hlv & Htag & Hid & Hfs & Hp). exists lv, fs.
  rewrite Hl, Hg by done. split_and!; [done..|]. intros p. rewrite Hp. symmetry. apply (Hm t lv v p); try done.
  by exists lv, fs.
Qed.

(** ** Changes of the host *)
Lemma host_ok_create h token lv :
  host_ok h -> lvs h !! lv_name token = None -> field (Lv.uuid lv) -> field (Lv.path lv) ->
  field (lv_name token) -> tag_text (tag token) ->
  (forall n lv', lvs h !! n = Some lv' -> Lv.path lv' <> Lv.path lv) ->
  Lv.tags lv = [tag token] -> Lv.filesystem lv = None ->
  host_ok (set_lvs (<[lv_name token := lv]> (lvs h)) h).
Proof.
  intros [] Hnone Hu Hp Hn Ht Hpath Htags Hfs. constructor; simpl; [done|..].
  - intros n l [[<- <-]|[_ Hl]]%lookup_insert_Some; [done|by eapply lv_fields].
  - intros n l [[<- <-]|[_ Hl]]%lookup_insert_Some; [|by eapply lv_tags]. rewrite Htags.
    split; [by constructor|]. simpl. apply Ht.
  - intros n l t [[<- <-]|[_ Hl]]%lookup_insert_Some; [|by eapply lv_owner].
    rewrite Htags. intros ->%list_elem_of_singleton%tag_inj. done.
  - intros n1 n2 l1 l2 [[<- <-]|[? H1]]%lookup_insert_Some [[<- <-]|[? H2]]%lookup_insert_Some Hq;
      [done|by edestruct Hpath|by edestruct Hpath|by eapply lv_paths].
  - intros n l u [[<- <-]|[_ Hl]]%lookup_insert_Some; [by rewrite Hfs|by eapply fs_words].
  - intros n1 n2 l1 l2 u [[<- <-]|[? H1]]%lookup_insert_Some [[<- <-]|[? H2]]%lookup_insert_Some;
      [done|congruence..|by eapply fs_unique].
Qed.

Lemma host_ok_remove h n : host_ok h -> host_ok (set_lvs (delete n (lvs h)) h).
Proof.
  intros []. constructor; simpl; [done|..].
  - intros m lv [_ ?]%lookup_delete_Some. eauto.
  - intros m lv [_ ?]%lookup_delete_Some. eauto.
  - intros m lv t [_ ?]%lookup_delete_Some. eauto.
  - intros n1 n2 lv1 lv2 [_ ?]%lookup_delete_Some [_ ?]%lookup_delete_Some. eauto.
  - intros m lv u [_ ?]%lookup_delete_Some. eauto.
  - intros n1 n2 lv1 lv2 u [_ ?]%lookup_delete_Some [_ ?]%lookup_delete_Some. eauto.
Qed.

Lemma host_ok_format h n lv u :
  host_ok h -> lvs h !! n = Some lv -> word u -> fresh_fs h u ->
  host_ok (set_lvs (<[n := formatted u lv]> (lvs h)) h).
Proof.
  intros [] Hn Hu [Hf _]. constructor; simpl; [done|..].
  - intros n1 l [[<- <-]|[_ Hl]]%lookup_insert_Some; [by apply (lv_fields _ _ Hn)|by eapply lv_fields].
  - intros n1 l [[<- <-]|[_ Hl]]%lookup_insert_Some; [by apply (lv_tags _ _ Hn)|by eapply lv_tags].
  - intros n1 l t [[<- <-]|[_ Hl]]%lookup_insert_Some; [by apply (lv_owner _ _ _ Hn)|by eapply lv_owner].
  - intros n1 n2 l1 l2 [[<- <-]|[? H1]]%lookup_insert_Some [[<- <-]|[? H2]]%lookup_insert_Some Hq;
      [done|by eapply lv_paths; eauto..].
  - intros n1 l u1 [[<- <-]|[_ Hl]]%lookup_insert_Some; [by intros [= <-]|by eapply fs_words].
  - intros n1 n2 l1 l2 u1 [[<- <-]|[? H1]]%lookup_insert_Some [[<- <-]|[? H2]]%lookup_insert_Some;
      simpl; [done|intros [= <-] ?; by edestruct Hf|intros ? [= <-]; by edestruct Hf|by eapply fs_unique].
Qed.

Lemma host_ok_mounts h ms : host_ok h -> host_ok (set_mounts ms h).
Proof. intros []. by constructor. Qed.
Lemma host_ok_pool h p : host_ok h -> host_ok (set_pool p h).
Proof. intros []. by constructor. Qed.

(** ** The operations *)

(** The identities the manager passes on are those it got from the backend, and
    it asks for a mount only at the execution's own mountpoint. *)
Definition proper_id (b : BackendIdentity) : Prop :=
  exists gu lu fs, b = BackendIdentity.Lvm volume_group gu (lv_name (identity_token b)) lu fs (identity_token b).

Definition filesystem_of (b : BackendIdentity) : string :=
  match b with BackendIdentity.Lvm _ _ _ _ fs _ => fs | _ => "" end.

Definition placed (w : World) (layout : ExecutionLayout) (b : BackendIdentity) : Prop :=
  forall t v p, volumes w !! t = Some v -> Volume.mounted_at v = Some p ->
    (t = identity_token b <-> p = ExecutionLayout.root layout) /\
    (t = identity_token b -> filesystem_of b <> ""%string).

Definition proper {B} (c : storage_call B) (w : World) : Prop :=
  match c with
  | Storage.Prepare _ b _ | Storage.Remove b => proper_id b
  | Storage.State layout b _ | Storage.Mount layout b _ | Storage.Unmount layout b =>
      proper_id b /\ placed w layout b
  | _ => True
  end.

Definition returned {B} (c : storage_call B) : B -> Prop :=
  match c in Storage.storage_call B return B -> Prop with
  | Storage.Discover _ _ _ => fun r => forall b, r = Ok (Some b) -> proper_id b
  | Storage.Create _ _ _ _ | Storage.Prepare _ _ _ => fun r => forall b, r = Ok b -> proper_id b
  | _ => fun _ => True
  end.

Definition finished {B} (c : storage_call B) (h : LvmHost) (w : World) (r : B) (h' : LvmHost) : Prop :=
  (exists w', keeping_sem B c w r w' /\ abstracts h' w' /\ confined c h h') /\ returned c r.

(** Cut short: what an error may leave behind. *)
Definition settled {A} (c : storage_call (result StorageError A)) (h : LvmHost) (w : World) (h' : LvmHost) :
    Prop :=
  exists w', (forall e, keeping_sem _ c w (Err e) w') /\ abstracts h' w' /\ confined c h h'.

Lemma settled_same {A} (c : storage_call (result StorageError A)) h w :
  (forall e, keeping_sem _ c w (Err e) w) -> abstracts h w -> settled c h w h.
Proof. intros Hw Ha. exists w. split_and!; [done|done|apply confined_refl]. Qed.

Abbreviation implements c m h w := (hoare_crash sem (settled c h w) m (finished c h w) h).

Lemma settled_error {A} (c : storage_call (result StorageError A)) h w h' e :
  (forall e, returned c (Err e)) -> settled c h w h' -> finished c h w (Err e) h'.
Proof. intros Hr (w' & Hw & ? & ?). split; [by exists w'|done]. Qed.

Ltac start c h w Ha :=
  pose proof (proj1 Ha) as Hok;
  assert (settled c h w h) as HI by (apply settled_same; [first [assumption|intros; simpl; unfold tell, update; eauto]|done]);
  assert (forall h' e, settled c h w h' -> finished c h w (Err e) h') as HQ
    by (intros; by apply settled_error);
  assert (forall e, finished c h w (Err e) h) as HE by auto.

(** The volumes with the tag of a token: at most one, under its name. *)
Lemma tagged_unique h token :
  host_ok h ->
  let l := List.filter (fun x : string * Lv => bool_decide (tag token ∈ Lv.tags x.2)) (map_to_list (lvs h)) in
  (l = [] /\ forall n lv, lvs h !! n = Some lv -> tag token ∉ Lv.tags lv) \/
  (exists lv, l = [(lv_name token, lv)] /\ lvs h !! lv_name token = Some lv /\ tag token ∈ Lv.tags lv).
Proof.
  intros Hok l.
  assert (forall x, x ∈ l <-> lvs h !! x.1 = Some x.2 /\ tag token ∈ Lv.tags x.2) as Hl.
  { intros [n lv]. unfold l. rewrite elem_of_filter_bool, elem_of_map_to_list. bools. done. }
  assert (List.NoDup l) as Hnd.
  { apply List.NoDup_filter, NoDup_ListNoDup, NoDup_map_to_list. }
  assert (forall x, x ∈ l -> x.1 = lv_name token) as Hn.
  { intros x [Hx Ht]%Hl. by eapply lv_owner. }
  destruct l as [|[n lv] [|[n2 lv2] r]].
  - left. split; [done|]. intros n lv Hlv Ht. assert ((n, lv) ∈ []) as H by by apply Hl. by apply elem_of_nil in H.
  - right. assert ((n, lv) ∈ [(n, lv)]) as H by set_solver. pose proof (Hn _ H) as Hq. simpl in Hq. subst n.
    apply Hl in H as [??]. by exists lv.
  - exfalso. assert ((n, lv) ∈ (n, lv) :: (n2, lv2) :: r) as H1 by set_solver.
    assert ((n2, lv2) ∈ (n, lv) :: (n2, lv2) :: r) as H2 by set_solver.
    pose proof (Hn _ H1). pose proof (Hn _ H2). simpl in *. subst n n2.
    apply Hl in H1 as [H1 _]. apply Hl in H2 as [H2 _]. simpl in *.
    rewrite H1 in H2. injection H2 as ->. inversion Hnd as [|?? Hnin]; subst. apply Hnin. by left.
Qed.

Lemma discover_refines layout token bytes h w :
  abstracts h w ->
  implements (Storage.Discover layout token bytes) (discover volume_group layout token bytes) h w.
Proof.
  intros Ha. set (c := Storage.Discover layout token bytes). start c h w Ha.
  pose proof (tagged_unique h token Hok) as Ht.
  eapply hoare_reads; [|intros out Ho|done].
  { eapply (reads_run _ _ _ _ (LvsTag (tag token))); [reflexivity|done|by intros ?? []|].
    intros out [_ Ht'] Hc. exact (Ht' Hc). }
  apply hoare_pure; [|done]. intros found Hf. cbv zeta in Ht.
  destruct Ht as [[Hl Hno]|(lv & Hl & Hlv & Htag)]; rewrite Hl in Ho.
  - rewrite (inventory_empty _ _ _ Ho Hf). apply hoare_ret. split; [|by intros b].
    exists w. split_and!; [|done|apply confined_refl]. split; [done|].
    destruct (volumes w !! token) as [v|] eqn:Ev; [|done].
    destruct Ha as [_ Ha]. specialize (Ha token). unfold abstracts_at in Ha. rewrite Ev in Ha.
    destruct Ha as (lv & fs & Hlv & Htag & _). by destruct (Hno _ _ Hlv).
  - destruct (inventory_row _ _ _ _ _ _ Hok Hlv Ho Hf) as (info & -> & Hd).
    apply hoare_guard; [intros _|done]. apply hoare_ret.
    destruct (abstracts_tagged _ _ _ _ Ha Hlv Htag) as (v & Hv & _). split.
    + exists w. split_and!; [|done|apply confined_refl]. split; [done|]. split; [done|by eexists].
    + intros b [= <-]. unfold proper_id, created_identity. simpl.
      destruct Hd as (_ & _ & _ & _ & -> & _). by eexists _, _, _.
Qed.

Lemma abstracts_pool p h w : abstracts h w -> abstracts (set_pool p h) w.
Proof. intros [Hok Ha]. split; [by apply host_ok_pool|exact Ha]. Qed.

Lemma probe_refines required_bytes h w :
  abstracts h w -> implements (Storage.Probe required_bytes) (probe volume_group required_bytes) h w.
Proof.
  intros Ha. set (c := Storage.Probe required_bytes). start c h w Ha.
  assert (forall program flag purpose, reads volume_group absent_ok line_of (settled c h w)
            (run_checked (command program [flag]) purpose) h (fun _ => True)) as Hask.
  { intros program flag purpose. by eapply (reads_run _ _ _ _ (Ask program flag)). }
  eapply hoare_reads with (P := fun _ => True); [|intros _ _|done].
  { eapply reads_bind; [apply Hask|intros id _]. apply reads_guard. intros _.
    unfold each. repeat (eapply reads_bind with (P := fun _ => True);
      [eapply reads_bind; [apply Hask|intros ? _; by apply reads_result]|intros [] _]).
    by apply reads_result. }
  eapply hoare_reads with (P := fun _ => True); [|intros pool _|done].
  { eapply reads_bind; [by eapply (reads_run _ _ _ _ Vgs) with (P := fun _ => True)|].
    intros out _. by apply reads_result. }
  apply hoare_guard; [intros _|done]. apply hoare_io_bind, hoare_req.
  intros r h' Hr. simpl in Hr. destruct r as [u|e]; subst h'.
  - assert (settled c h w (set_pool pool h)) as HI'.
    { exists w. split_and!; [done|by apply abstracts_pool|done]. }
    split; [done|]. apply hoare_ret, hoare_ret. split; [|done]. exists w. split_and!; [done|by apply abstracts_pool|done].
  - split; [done|]. apply hoare_ret. apply HE.
Qed.

Lemma proper_parts b :
  proper_id b -> exists gu lu, lvm_identity b =
    Ok (volume_group, gu, lv_name (identity_token b), lu, filesystem_of b, identity_token b).
Proof. intros (gu & lu & fs & Hb). destruct b; simplify_eq/=. by eexists _, _. Qed.

Lemma lvm_volume_absent h w token :
  abstracts h w -> lvs h !! lv_name token = None -> volumes w !! token = None.
Proof.
  intros [_ Ha] Hn. specialize (Ha token). unfold abstracts_at in Ha.
  destruct (volumes w !! token); [|done]. destruct Ha as (lv & fs & Hlv & _). congruence.
Qed.

Lemma placed_unmounted h w layout b lv v :
  placed w layout b -> stands_for h (identity_token b) v -> volumes w !! identity_token b = Some v ->
  lvs h !! lv_name (identity_token b) = Some lv ->
  filesystem_of b = ""%string \/ mounts h !! ExecutionLayout.root layout = None -> Volume.mounted_at v = None.
Proof.
  intros Hp (lv' & fs & Hlv & _ & _ & _ & Hm) Hv Hlv' Hu. rewrite Hlv in Hlv'. injection Hlv' as ->.
  destruct (Volume.mounted_at v) as [p|] eqn:Ep; [|done]. destruct (Hp _ _ _ Hv Ep) as [Hr Hf].
  destruct Hu as [Hu|Hu]; [by destruct Hf|]. rewrite <- (proj1 Hr eq_refl) in Hu.
  destruct (proj1 (Hm p) eq_refl) as (u & f & _ & Hmp). congruence.
Qed.

Lemma state_refines layout b bytes h w :
  abstracts h w -> proper (Storage.State layout b bytes) w ->
  implements (Storage.State layout b bytes) (state volume_group layout b bytes) h w.
Proof.
  intros Ha [Hb Hp]. set (c := Storage.State layout b bytes). start c h w Ha.
  destruct (proper_parts b Hb) as (gu & lu & Hparts).
  eapply hoare_reads_end; [by eapply reads_state|intros s Hs|done].
  split; [|done]. exists w. split_and!; [|done|apply confined_refl]. split; [done|].
  unfold volume_state. destruct s.
  - destruct Hs as (lv & f & Hlv & Ht & Hf & Hm & _). destruct (abstracts_tagged _ _ _ _ Ha Hlv Ht) as (v & -> & Hs).
    destruct Hs as (lv' & fs & Hlv' & _ & _ & _ & Hmp). assert (lv' = lv) as -> by congruence.
    rewrite (proj2 (Hmp (ExecutionLayout.root layout))); [done|]. by eexists _, _.
  - destruct Hs as (lv & Hlv & Ht & Hm). destruct (abstracts_tagged _ _ _ _ Ha Hlv Ht) as (v & Hv & Hs).
    rewrite Hv. by rewrite (placed_unmounted _ _ _ _ _ _ Hp Hs Hv Hlv Hm).
  - destruct Hs as [Hn _]. by rewrite (lvm_volume_absent _ _ _ Ha Hn).
Qed.

(** *** Creation *)
Definition fresh_volume (h : LvmHost) (token : string) (lv : Lv) : Volume :=
  {| Volume.identity := BackendIdentity.Lvm volume_group (group_uuid h) (lv_name token) (Lv.uuid lv) "" token;
     Volume.mounted_at := None |}.

Lemma abstracts_create h w token lv :
  abstracts h w -> host_ok (set_lvs (<[lv_name token := lv]> (lvs h)) h) ->
  Lv.tags lv = [tag token] -> Lv.filesystem lv = None ->
  abstracts (set_lvs (<[lv_name token := lv]> (lvs h)) h)
    (set_volumes (<[token := fresh_volume h token lv]> (volumes w)) w).
Proof.
  intros Ha Hok Ht Hf. eapply (abstracts_update h _ w _ token); simpl; try done.
  - intros t Hne. by rewrite lookup_insert_ne.
  - intros t Hne. rewrite lookup_insert_ne; [done|]. by intros H%lv_name_inj.
  - unfold abstracts_at. simpl. rewrite lookup_insert_eq. exists lv, ""%string. simpl.
    rewrite lookup_insert_eq, Ht. split_and!; [done|by left|done|by left|].
    intros p. split; [done|]. intros (u & f & Hu & _). congruence.
Qed.

Lemma create_refines layout labels token bytes h w :
  abstracts h w ->
  implements (Storage.Create layout labels token bytes) (create volume_group layout labels token bytes) h w.
Proof.
  intros Ha. set (c := Storage.Create layout labels token bytes).
  assert (forall e, keeping_sem _ c w (Err e) w) as Hsame.
  { intros e. simpl. destruct (volumes w !! token); [done|].
    exists (BackendIdentity.Apfs "" "" "" "" "" token). split; [done|by left]. }
  start c h w Ha.
  eapply hoare_reads with (P := fun _ => True); [|intros pool _|done].
  { apply hoare_io_bind, hoare_req. intros r h' [-> Hr]. split; [done|]. apply hoare_ret.
    destruct r as [o|e]; [|done]. by apply reads_result. }
  apply hoare_pure; [intros extents _|done].
  eapply (hoare_run _ _ _ _ (LvCreate extents (lv_name token) (tag token))); [done..|].
  intros out h1 [(Hnone & Hn & Htt & lv & Hu & _ & Hpa & Hpp & Htags & Hfs & ->)|[-> Hc]]; [|by split].
  pose proof (host_ok_create _ _ _ Hok Hnone Hu Hpa Hn Htt Hpp Htags Hfs) as Hok1.
  pose proof (abstracts_create _ _ _ _ Ha Hok1 Htags Hfs) as Ha1.
  set (h1 := set_lvs _ h) in *. set (w1 := set_volumes _ w) in *.
  assert (confined c h h1) as Hk.
  { split_and!; simpl; [|intros n [l Hl]|done].
    - intros n l Hl _. rewrite lookup_insert_ne; congruence.
    - apply lookup_insert_Some in Hl as [[<- _]|[_ Hl]]; [by right|by left; eexists]. }
  pose proof (lvm_volume_absent _ _ _ Ha Hnone) as Hv.
  assert (settled c h w h1) as HI1.
  { exists w1. split_and!; [|done|done]. intros e. simpl. rewrite Hv. eexists. split; [|by right]. done. }
  split; [done|intros _].
  eapply hoare_reads; [by apply reads_inspect|intros found Hfound|auto].
  apply hoare_pure; [intros info ->%ok_or_Ok|auto].
  apply hoare_guard; [intros _|auto].
  destruct Hfound as (lv1 & Hlv1 & Hd). simpl in Hlv1. rewrite lookup_insert_eq in Hlv1. injection Hlv1 as <-.
  destruct Hd as (Hd1 & Hd2 & _ & _ & Hd5 & _).
  apply hoare_ret. unfold created_identity. rewrite Hd1, Hd2, Hd5. split.
  - exists w1. split_and!; [|done|done]. simpl. rewrite Hv. eexists. split; [|done]. done.
  - intros b [= <-]. by eexists _, _, _.
Qed.

(** *** Formatting *)
Lemma abstracts_format h w token lv u gu lu fs :
  abstracts h w -> lvs h !! lv_name token = Some lv -> tag token ∈ Lv.tags lv ->
  unmounted_fs h (Lv.filesystem lv) -> word u -> fresh_fs h u -> gu = group_uuid h -> lu = Lv.uuid lv ->
  abstracts (set_lvs (<[lv_name token := formatted u lv]> (lvs h)) h)
    (alter_volume token (identified (with_filesystem u
       (BackendIdentity.Lvm volume_group gu (lv_name token) lu fs token))) w).
Proof.
  intros Ha Hlv Ht Hun Hw Hfresh -> ->. destruct (abstracts_tagged _ _ _ _ Ha Hlv Ht) as (v & Hv & Hs).
  eapply (abstracts_update h _ w _ token); simpl; try done.
  - by apply host_ok_format; [apply Ha|..].
  - intros t Hne. by rewrite lookup_alter_ne.
  - intros t Hne. rewrite lookup_insert_ne; [done|]. by intros H%lv_name_inj.
  - unfold abstracts_at. simpl. rewrite lookup_alter_eq, Hv. exists (formatted u lv), u. simpl.
    rewrite lookup_insert_eq. split_and!; [done..|by right|]. intros p.
    destruct Hs as (lv' & fs' & Hlv' & _ & _ & _ & Hm). assert (lv' = lv) as -> by congruence.
    rewrite Hm. split; [intros (x & f & Hx & Hp); by destruct (Hun _ f p Hx)|].
    intros (x & f & [= <-] & Hp). by destruct (proj2 Hfresh p f).
Qed.

Lemma prepare_refines layout b bytes h w :
  abstracts h w -> proper (Storage.Prepare layout b bytes) w ->
  implements (Storage.Prepare layout b bytes) (prepare volume_group layout b bytes) h w.
Proof.
  intros Ha Hb. set (c := Storage.Prepare layout b bytes). start c h w Ha.
  destruct (proper_parts b Hb) as (gu & lu & Hparts).
  eapply hoare_reads; [by eapply reads_inspect_exact|intros o Ho|done].
  apply hoare_pure; [intros info ->%ok_or_Ok|done]. rewrite Hparts. apply hoare_ok_bind.
  apply hoare_guard; [intros _|done].
  destruct Ho as (lv & Hlv & (_ & _ & _ & Hpath & _) & Ht & Hgu & Hlu).
  eapply (hoare_run _ _ _ _ (Mkfs (LvInfo.path info))); [done..|].
  intros out h1 [(n & lv' & u & [Hn Hd] & Hun & Hwu & Hfresh & ->)|[-> Hc]]; [|by split].
  assert (n = lv_name (identity_token b)) as ->.
  { eapply (lv_paths h Hok); [exact Hn|exact Hlv|congruence]. }
  assert (lv' = lv) as -> by congruence. clear Hn.
  destruct Hb as (gu' & lu' & fs & Hb). set (token := identity_token b) in *.
  rewrite Hb in Hparts. simpl in Hparts. injection Hparts as -> ->.
  pose proof (abstracts_format h w token lv u gu lu fs Ha Hlv Ht Hun Hwu Hfresh Hgu Hlu) as Ha1.
  rewrite <- Hb in Ha1. set (h1 := set_lvs _ h) in *. set (w1 := alter_volume _ _ w) in *.
  assert (identity_token (with_filesystem u b) = identity_token b) as Htok by by rewrite Hb.
  assert (confined c h h1) as Hk.
  { split_and!; simpl; [|intros n [l Hl]|done].
    - intros n l Hl Hnt. rewrite lookup_insert_ne; [done|]. intros <-. assert (l = lv) as -> by congruence. done.
    - apply lookup_insert_Some in Hl as [[<- _]|[_ Hl]]; [by right|by left; eexists]. }
  destruct (abstracts_tagged _ _ _ _ Ha Hlv Ht) as (v & Hv & _).
  assert (settled c h w h1) as HI1.
  { exists w1. split_and!; [|done|done]. intros e. eexists. split; [exact Htok|]. by right. }
  split; [done|intros _]. pose proof (proj1 Ha1) as Hok1.
  eapply hoare_reads; [eapply (reads_filesystem_uuid _ _ _ _ h1 Hok1 HI1 (lv_name token) (formatted u lv))|
    intros u' Hu'|auto]; [apply lookup_insert_eq|by rewrite Hpath|].
  injection Hu' as <-. apply hoare_ret. split.
  - exists w1. split_and!; [|done|done]. exists (with_filesystem u b). split; [done|].
    split; [|done]. split; [done|by eexists].
  - intros b' [= <-]. unfold proper_id. exists gu, lu, u. rewrite Htok. fold token. by rewrite Hb.
Qed.

(** *** Mounting *)
Lemma abstracts_mount h w layout b lv u :
  abstracts h w -> placed w layout b -> lvs h !! lv_name (identity_token b) = Some lv ->
  tag (identity_token b) ∈ Lv.tags lv -> Lv.filesystem lv = Some u ->
  (filesystem_of b = ""%string \/ mounts h !! ExecutionLayout.root layout = None) ->
  abstracts (set_mounts (<[ExecutionLayout.root layout := (u, "ext4"%string)]> (mounts h)) h)
    (alter_volume (identity_token b) (mounted (Some (ExecutionLayout.root layout))) w).
Proof.
  intros Ha Hp Hlv Ht Hu Hun. destruct (abstracts_tagged _ _ _ _ Ha Hlv Ht) as (v & Hv & Hs).
  pose proof (placed_unmounted _ _ _ _ _ _ Hp Hs Hv Hlv Hun) as Hvm.
  set (root := ExecutionLayout.root layout) in *.
  eapply (abstracts_update h _ w _ (identity_token b)); simpl; try done.
  - apply host_ok_mounts, Ha.
  - intros t Hne. by rewrite lookup_alter_ne.
  - intros t lv' v' p Hne Hlv' Hv' (lv1 & fs1 & Hlv1 & _ & _ & _ & Hm).
    assert (lv1 = lv') as -> by congruence. destruct (decide (p = root)) as [->|Hpr].
    + split; [|intros Hx%Hm; destruct (Hp _ _ _ Hv' Hx) as [[_ Hr] _]; by destruct Hne; apply Hr].
      intros (x & f & Hx & Hl). simpl in Hl. rewrite lookup_insert_eq in Hl. injection Hl as <- _.
      destruct Hne. apply lv_name_inj. by eapply (fs_unique h (proj1 Ha)).
    + unfold mounted_on. simpl. by rewrite lookup_insert_ne.
  - unfold abstracts_at. simpl. rewrite lookup_alter_eq, Hv.
    destruct Hs as (lv' & fs & Hlv' & _ & Hid & Hfs & Hm). exists lv', fs. simpl.
    assert (lv' = lv) as -> by congruence. split_and!; [done..|]. intros p. rewrite Hu. split.
    + intros [= <-]. eexists _, _. split; [done|]. apply lookup_insert_eq.
    + intros (x & f & [= <-] & Hl). simpl in Hl. apply lookup_insert_Some in Hl as [[<- _]|[Hne Hl]]; [done|].
      assert (Volume.mounted_at v = Some p) as Hx by (apply Hm; by eexists _, _). congruence.
Qed.

Lemma mount_refines layout b bytes h w :
  abstracts h w -> proper (Storage.Mount layout b bytes) w ->
  implements (Storage.Mount layout b bytes) (mount volume_group layout b bytes) h w.
Proof.
  intros Ha [Hb Hp]. set (c := Storage.Mount layout b bytes). start c h w Ha.
  destruct (proper_parts b Hb) as (gu & lu & Hparts).
  eapply hoare_reads; [by eapply reads_inspect_exact|intros o Ho|done].
  apply hoare_pure; [intros info ->%ok_or_Ok|done].
  destruct Ho as (lv & Hlv & (_ & _ & _ & Hpath & _) & Ht & _).
  rewrite Hparts at 1. apply hoare_ok_bind.
  eapply hoare_reads; [by apply reads_mount_state|intros s Hs|done].
  apply hoare_guard; [intros Hg|done]. bools. subst s.
  apply hoare_pure; [intros root Hroot|done].
  assert (root = ExecutionLayout.root layout) as ->.
  { apply ok_or_Ok in Hroot. unfold from_utf8 in Hroot. case_match; congruence. }
  eapply (hoare_run _ _ _ _ (MountAt (LvInfo.path info) (ExecutionLayout.root layout))); [done..|].
  intros out h1 [(n & lv' & u & [Hn Hd] & Hu & ->)|[-> Hc]]; [|by split].
  assert (n = lv_name (identity_token b)) as ->.
  { eapply (lv_paths h Hok); [exact Hn|exact Hlv|congruence]. }
  assert (lv' = lv) as -> by congruence. clear Hn.
  pose proof (abstracts_mount h w layout b lv u Ha Hp Hlv Ht Hu Hs) as Ha1.
  set (h1 := set_mounts _ h) in *. set (w1 := alter_volume _ _ w) in *.
  assert (confined c h h1) as Hk.
  { split_and!; simpl; [done|auto|]. intros p Hne. rewrite lookup_insert_ne; [done|]. congruence. }
  destruct (abstracts_tagged _ _ _ _ Ha Hlv Ht) as (v & Hv & _).
  assert (settled c h w h1) as HI1.
  { exists w1. split_and!; [|done|done]. intros e. by right. }
  split; [done|intros _]. pose proof (proj1 Ha1) as Hok1.
  eapply hoare_reads; [by eapply reads_state|intros s _|auto]. apply hoare_ret.
  destruct (bool_decide _); [|by apply HQ]. split; [|done]. exists w1. split_and!; [|done|done].
  split; [by eexists|done].
Qed.

(** *** Unmounting *)
Lemma same_object_tag h n lv info gu lu token :
  describes h n lv info -> same_object info gu lu token = true -> tag token ∈ Lv.tags lv.
Proof. intros (_ & _ & _ & _ & _ & Ht) Hs. apply Ht. unfold same_object in Hs. by apply andb_true_iff in Hs as []. Qed.

Lemma alter_volume_same w token v f :
  volumes w !! token = Some v -> f v = v -> alter_volume token f w = w.
Proof.
  intros Hv Hf. unfold alter_volume, set_volumes. destruct w; simpl in *. f_equal.
  apply map_eq. intros t. destruct (decide (t = token)) as [->|Hne]; [|by rewrite lookup_alter_ne].
  rewrite lookup_alter_eq, Hv. simpl. by rewrite Hf.
Qed.

Lemma alter_volume_none w token f : volumes w !! token = None -> alter_volume token f w = w.
Proof.
  intros Hv. unfold alter_volume, set_volumes. destruct w; simpl in *. f_equal.
  apply map_eq. intros t. destruct (decide (t = token)) as [->|Hne]; [|by rewrite lookup_alter_ne].
  by rewrite lookup_alter_eq, Hv.
Qed.

Lemma abstracts_unmount h w layout b :
  abstracts h w -> placed w layout b ->
  abstracts (set_mounts (delete (ExecutionLayout.root layout) (mounts h)) h)
    (alter_volume (identity_token b) (mounted None) w).
Proof.
  intros Ha Hp. set (root := ExecutionLayout.root layout) in *.
  eapply (abstracts_update h _ w _ (identity_token b)); simpl; try done.
  - apply host_ok_mounts, Ha.
  - intros t Hne. by rewrite lookup_alter_ne.
  - intros t lv v p Hne Hlv Hv (lv1 & fs1 & Hlv1 & _ & _ & _ & Hm).
    assert (lv1 = lv) as -> by congruence. destruct (decide (p = root)) as [->|Hpr].
    + split; [|intros Hx%Hm; destruct (Hp _ _ _ Hv Hx) as [[_ Hr] _]; by destruct Hne; apply Hr].
      intros (x & f & Hx & Hl). simpl in Hl. by rewrite lookup_delete_eq in Hl.
    + unfold mounted_on. simpl. by rewrite lookup_delete_ne.
  - unfold abstracts_at. simpl. rewrite lookup_alter_eq.
    pose proof (proj2 Ha (identity_token b)) as Hs. unfold abstracts_at in Hs.
    destruct (volumes w !! identity_token b) as [v|] eqn:Hv; [|done]. simpl.
    destruct Hs as (lv & fs & Hlv & Ht & Hid & Hfs & Hm). exists lv, fs. simpl. split_and!; [done..|].
    intros p. split; [done|]. intros (x & f & Hx & Hl). simpl in Hl. apply lookup_delete_Some in Hl as [Hne Hl].
    assert (Volume.mounted_at v = Some p) as Hx' by (apply Hm; by eexists _, _).
    destruct (Hp _ _ _ Hv Hx') as [[Hr _] _]. by destruct Hne; rewrite Hr.
Qed.

Lemma unmount_refines layout b h w :
  abstracts h w -> proper (Storage.Unmount layout b) w ->
  implements (Storage.Unmount layout b) (unmount volume_group layout b) h w.
Proof.
  intros Ha [Hb Hp]. set (c := Storage.Unmount layout b). start c h w Ha.
  destruct (proper_parts b Hb) as (gu & lu & Hparts).
  unfold unmount. rewrite Hparts. apply hoare_ok_bind.
  destruct (str_is_empty (filesystem_of b)) eqn:Ef; cbv iota.
  - apply hoare_ret. split; [|done]. exists w. split_and!; [|done|apply confined_refl].
    right. left. symmetry. destruct (volumes w !! identity_token b) as [v|] eqn:Hv; [|by apply alter_volume_none].
    eapply alter_volume_same; [exact Hv|]. destruct v as [id [p|]]; [|done].
    destruct (Hp _ _ p Hv eq_refl) as [_ Hf]. destruct Hf; [done|]. by destruct (filesystem_of b).
  - eapply hoare_reads; [by apply reads_inspect|intros o Ho|done].
    apply hoare_pure; [intros info ->%ok_or_Ok|done]. destruct Ho as (lv & Hlv & Hd).
    apply hoare_guard; [intros Hs|done]. pose proof (same_object_tag _ _ _ _ _ _ _ Hd Hs) as Ht.
    apply hoare_pure; [intros root Hroot|done].
    assert (root = ExecutionLayout.root layout) as ->.
    { apply ok_or_Ok in Hroot. unfold from_utf8 in Hroot. case_match; congruence. }
    eapply (hoare_run _ _ _ _ (UmountAt (ExecutionLayout.root layout))); [done..|].
    intros out h1 [[Hm ->]|[-> Hc]]; [|by split].
    pose proof (abstracts_unmount h w layout b Ha Hp) as Ha1.
    set (h1 := set_mounts _ h) in *. set (w1 := alter_volume _ _ w) in *.
    assert (confined c h h1) as Hk.
    { split_and!; simpl; [done|auto|]. intros p Hne. rewrite lookup_delete_ne; [done|]. congruence. }
    split; [exists w1; split_and!; [intros e; by right; left|done|done]|intros _].
    apply hoare_ret. split; [|done]. exists w1. by split_and!; [right; left|..].
Qed.

(** *** Removal *)
Lemma abstracts_remove h w token lv :
  abstracts h w -> lvs h !! lv_name token = Some lv ->
  abstracts (set_lvs (delete (lv_name token) (lvs h)) h) (set_volumes (delete token (volumes w)) w).
Proof.
  intros Ha Hlv. eapply (abstracts_update h _ w _ token); simpl; try done.
  - apply host_ok_remove, Ha.
  - intros t Hne. by rewrite lookup_delete_ne.
  - intros t Hne. rewrite lookup_delete_ne; [done|]. by intros H%lv_name_inj.
  - unfold abstracts_at. simpl. rewrite lookup_delete_eq. intros l Hl. by rewrite lookup_delete_eq in Hl.
Qed.

Lemma remove_refines b h w :
  abstracts h w -> proper (Storage.Remove b) w ->
  implements (Storage.Remove b) (remove volume_group b) h w.
Proof.
  intros Ha Hb. set (c := Storage.Remove b). start c h w Ha.
  destruct (proper_parts b Hb) as (gu & lu & Hparts).
  unfold remove. rewrite Hparts. apply hoare_ok_bind.
  eapply hoare_reads; [by apply reads_inspect|intros o Ho|done].
  apply hoare_pure; [intros info ->%ok_or_Ok|done]. destruct Ho as (lv & Hlv & Hd).
  apply hoare_guard; [intros Hs|done]. pose proof (same_object_tag _ _ _ _ _ _ _ Hd Hs) as Ht.
  eapply (hoare_run _ _ _ _ (LvRemove (lv_name (identity_token b)))); [done..|].
  intros out h1 [(lv' & Hlv' & Hun & ->)|[-> Hc]]; [|by split].
  pose proof (abstracts_remove h w _ lv Ha Hlv) as Ha1.
  set (h1 := set_lvs _ h) in *. set (w1 := set_volumes _ w) in *.
  assert (confined c h h1) as Hk.
  { split_and!; simpl; [|intros n [l [_ Hl]%lookup_delete_Some]|done]; [|by left; eexists].
    intros n l Hl Hnt. rewrite lookup_delete_ne; [done|]. intros <-. assert (l = lv) as -> by congruence. done. }
  split; [exists w1; split_and!; [intros e; by right|done|done]|intros _].
  apply hoare_ret. split; [|done]. by exists w1.
Qed.

(** *** The backend *)

(** C23. An operation of the backend does on a host with a volume group what the
    contract of the storage manager allows: its answer is one the contract gives
    for the volumes the host holds and leaves the host standing for the volumes
    the contract leaves; wherever the operation is cut short, the host stands for
    the volumes before it or after a failure; no volume without the tag of the
    execution and no mount elsewhere has changed, and a returned identity is one
    the other operations accept. *)
Theorem lvm_backend_refines B (c : storage_call B) m h w tr r h' :
  lvm_backend volume_group B c = Some m -> abstracts h w -> proper c w ->
  exec sem quiet m h tr r h' ->
  (exists w', (w' = w \/ exists a, keeping_sem B c w a w') /\ abstracts h' w' /\ confined c h h') /\
  (forall a, r = Some a ->
     (exists w', keeping_sem B c w a w' /\ abstracts h' w' /\ confined c h h') /\ returned c a).
Proof.
  intros Hm Ha Hp He. set (I := fun h' => exists w', (w' = w \/ exists a, keeping_sem B c w a w') /\
    abstracts h' w' /\ confined c h h').
  assert (I h) as HI by (exists w; split_and!; [by left|done|apply confined_refl]).
  apply (hoare_exec _ I m (finished c h w) h tr r h' He HI).
  destruct c; simpl in Hm; try done; injection Hm as <-;
    try (eapply hoare_weaken; [|first [by apply probe_refines|by apply discover_refines|by apply create_refines|
      by apply prepare_refines|by apply mount_refines|by apply state_refines|by apply unmount_refines|
      by apply remove_refines]];
      intros h1 (w' & Hw & ? & ?); exists w'; split_and!; [|done|done]; right;
      eexists; apply (Hw (StorageError.Journal ""))).
  apply hoare_ret. split; [|done]. exists w. split_and!; [done|done|apply confined_refl].
Qed.
End Refines.

(** A host with the mounted volume of one execution. *)
Definition ex_lv : Lv :=
  {| Lv.uuid := "LV1"; Lv.size := 8388608; Lv.path := "/dev/vg/autospec-t"; Lv.tags := ["autospec.t"%string];
     Lv.filesystem := Some "u-1"%string |}.
Definition ex_host : LvmHost :=
  {| group_uuid := "VG1"; extent := 4194304; lvs := {["autospec-t"%string := ex_lv]};
     mounts := {["/mnt/e"%string := ("u-1", "ext4")%string]}; cached_pool := None |}.
Definition ex_volume : Volume :=
  {| Volume.identity := BackendIdentity.Lvm "vg" "VG1" "autospec-t" "LV1" "u-1" "t";
     Volume.mounted_at := Some "/mnt/e"%string |}.
Definition ex_world : World :=
  {| journals := ∅; tombstones := ∅; holds := []; leases := ∅; shared_leases := ∅; mountpoints := ∅;
     volumes := {["t"%string := ex_volume]} |}.
Definition ex_output : CommandOutput :=
  {| CommandOutput.code := 0;
     CommandOutput.stdout := "  VG1:LV1:8388608:/dev/vg/autospec-t:autospec.t:autospec-t" +:+ String "010" "";
     CommandOutput.stderr := "" |}.

Lemma ex_host_ok : host_ok ex_host.
Proof.
  constructor; simpl.
  - split_and!; [done|by vm_compute|by vm_compute].
  - intros n lv [<- <-]%lookup_singleton_Some. repeat split; try done; by vm_compute.
  - intros n lv [<- <-]%lookup_singleton_Some. split; [|by vm_compute].
    constructor; [|done]. split_and!; [done|by vm_compute|by vm_compute].
  - intros n lv t [<- <-]%lookup_singleton_Some Ht. apply list_elem_of_singleton in Ht.
    by apply (tag_inj t "t") in Ht as ->.
  - by intros n1 n2 lv1 lv2 [<- <-]%lookup_singleton_Some [<- <-]%lookup_singleton_Some _.
  - intros n lv u [<- <-]%lookup_singleton_Some [= <-]. split; [done|by vm_compute].
  - by intros n1 n2 lv1 lv2 u [<- <-]%lookup_singleton_Some [<- <-]%lookup_singleton_Some _ _.
Qed.

Lemma ex_abstracts : abstracts "vg" ex_host ex_world.
Proof.
  split; [exact ex_host_ok|]. intros t. unfold abstracts_at. simpl.
  destruct (decide (t = "t"%string)) as [->|Hne].
  - rewrite lookup_singleton_eq. exists ex_lv, "u-1"%string. split_and!; [done|by left|done|by right|].
    intros p. simpl. split.
    + intros [= <-]. by exists "u-1"%string, "ext4"%string.
    + intros (u & f & _ & Hp). simpl in Hp. by apply lookup_singleton_Some in Hp as [<- _].
  - rewrite lookup_singleton_ne by done. intros lv Hlv. apply lookup_singleton_Some in Hlv as [Hn _].
    destruct Hne. symmetry. by apply (lv_name_inj "t" t).
Qed.

Lemma ex_tool (t : Tool) :
  lvs_select_command "vg" (tag "t") = argv "vg" t ->
  tool_sem True (fun _ _ _ _ _ => True) t ex_host ex_output ex_host.
Proof.
  intros Ht. destruct t as [| | |tg| | | | | | |]; simpl in Ht; try discriminate Ht.
  assert (tg = "autospec.t"%string) as -> by by injection Ht. split; [done|intros _].
  change (lvs ex_host) with ({["autospec-t"%string := ex_lv]} : gmap string Lv).
  rewrite map_to_list_singleton. exists "8388608"%string. split_and!; by vm_compute.
Qed.

Definition ex_layout : ExecutionLayout :=
  {| ExecutionLayout.state_root := "/s"; ExecutionLayout.root := "/s/e"; ExecutionLayout.repository := "/s/e/repository";
     ExecutionLayout.session := "/s/e/session"; ExecutionLayout.conversation := "/s/e/session/conversation";
     ExecutionLayout.credentials := "/s/e/credentials"; ExecutionLayout.runtime := "/s/e/runtime";
     ExecutionLayout.journal := "/s/j" |}.

Lemma lvm_backend_refines_witness :
  exists tr b,
    exec (lvm_sem "vg" True (fun _ _ _ _ _ => True)) quiet (discover "vg" ex_layout "t" 8388608) ex_host tr
      (Some (Ok (Some b))) ex_host /\
    proper_id "vg" b /\
    exists w', keeping_sem _ (Storage.Discover ex_layout "t" 8388608) ex_world (Ok (Some b)) w'.
Proof.
  eexists _, (BackendIdentity.Lvm "vg" "VG1" "autospec-t" "LV1" "" "t").
  assert (forall P Q R : Prop, P -> (P -> R /\ Q) -> P /\ Q /\ R) as Hand by tauto.
  apply Hand; clear Hand.
  - eapply exec_req with (b := Ok ex_output : result StorageError CommandOutput); [exact ex_tool|].
    match goal with |- exec _ _ ?p _ _ (Some ?a) _ => replace p with (Ret a : proc lvm_call _) end;
      [apply exec_ret|by vm_compute].
  - intros He. destruct (lvm_backend_refines "vg" True (fun _ _ _ _ _ => True) _
      (Storage.Discover ex_layout "t" 8388608) _ ex_host ex_world _ _ _ eq_refl ex_abstracts I He) as [_ Hr].
    destruct (Hr _ eq_refl) as [(w' & Hw & _) Hb]. split; [by exists w'|]. by apply Hb.
Defined.

(** * The LVM backend on a Linux host

    What [lvs] and [findmnt] of a Linux distribution do where [LvmHost.v] leaves
    it open: [lvs] on a volume that does not exist fails, and [findmnt] sets its
    rows in columns as wide as their widest entry.  The backend then recognises
    neither a volume that is gone nor one that is mounted. *)

(** ** The columns of [findmnt] *)
Definition spaces (n : nat) : string := Strings.String.string_of_list_ascii (repeat " "%char n).

(** The width of a column: of its longest entry. *)
Definition width (column : list string) : nat :=
  foldr (fun s n => Nat.max (Strings.String.length s) n) 0%nat column.

Definition pad (column : list string) (s : string) : string :=
  s +:+ spaces (width column - Strings.String.length s).

(** A row, when [others] are the types of the mounts without a UUID. *)
Definition columns (others : list string) (ms : gmap string (string * string)) (u f target line : string) : Prop :=
  let rows := (map_to_list ms).*2 in
  line = (pad rows.*1 u +:+ " " +:+ pad (rows.*2 ++ others) f +:+ " " +:+ target)%string.

(** One of them has a longer type than [ext4], as [tmpfs], [sysfs] and
    [cgroup2] do. *)
Definition long_type (others : list string) : Prop :=
  exists t, t ∈ others /\ (4 < Strings.String.length t)%nat.

Lemma width_ge column s : s ∈ column -> (Strings.String.length s <= width column)%nat.
Proof.
  unfold width. induction column as [|x l IH]; simpl; [by intros ?%elem_of_nil|].
  intros [<-|Hs]%elem_of_cons; [lia|]. specialize (IH Hs). lia.
Qed.

Lemma spaces_last n : last_byte (spaces (S n)) = Some " "%char.
Proof. induction n as [|n IH]; [done|]. exact IH. Qed.

Lemma columns_not_exact others ms u f target fs :
  long_type others -> ~ has_char " " f ->
  ~ columns others ms u f target (fs +:+ " ext4 " +:+ target)%string.
Proof.
  intros (t & Ht & Hg) Hf Hc. unfold columns in Hc.
  set (types := _.*2 ++ others) in Hc. set (front := pad _.*1 u) in Hc.
  assert (Strings.String.length t <= width types)%nat as Hw by (apply width_ge; set_solver).
  assert (((fs +:+ " ext4") +:+ " " +:+ target = (front +:+ " " +:+ pad types f) +:+ " " +:+ target)%string)
    as Hl by by rewrite !string_app_assoc.
  apply string_app_cancel in Hl. unfold pad in Hl.
  destruct (width types - Strings.String.length f)%nat as [|n] eqn:En.
  - change (spaces 0) with ""%string in Hl. rewrite string_app_nil_r in Hl.
    apply (f_equal (rsplit_once " ")) in Hl.
    change (fs +:+ " ext4")%string with (fs +:+ String " " "ext4")%string in Hl.
    change (front +:+ " " +:+ f)%string with (front +:+ String " " f)%string in Hl.
    rewrite !rsplit_once_app in Hl by (done || by vm_compute). injection Hl as _ Hl. subst f. simpl in En. lia.
  - apply (f_equal last_byte) in Hl.
    rewrite (last_byte_app fs), <- !string_app_assoc, last_byte_app, spaces_last in Hl; done.
Qed.

(** ** The backend *)
Record linux_host (h : LvmHost) : Prop := {
  linux_ok : host_ok h;
  linux_types p u f : mounts h !! p = Some (u, f) -> ~ has_char " " f
}.

(** What [state] never says: a volume is mounted, or gone. *)
Definition indefinite (r : result StorageError BackendState) : Prop :=
  r <> Ok BackendState.Mounted /\ r <> Ok BackendState.Absent.

Lemma linux_state volume_group others layout b bytes h tr r h' :
  linux_host h -> long_type others ->
  exec (lvm_sem volume_group False (columns others)) quiet (state volume_group layout b bytes) h tr (Some r) h' ->
  indefinite r.
Proof.
  intros [Hok Ht] Ho He. destruct (lvm_identity b) as [[[[[[vg gu] lv] lu] fs] token]|e] eqn:Eb.
  - destruct (hoare_exec _ (fun _ => True) _ _ _ _ _ _ He I
      (reads_state _ _ _ _ h Hok I layout b bytes vg gu lv lu fs token Eb)) as [_ Hr].
    destruct (Hr r eq_refl) as [_ Hs]. split; intros ->; [|by destruct Hs].
    destruct Hs as (lv0 & f & _ & _ & _ & Hm & Hc).
    exact (columns_not_exact others _ fs f _ fs Ho (Ht _ _ _ Hm) Hc).
  - assert (hoare_crash (lvm_sem volume_group False (columns others)) (fun _ => True)
      (state volume_group layout b bytes) (fun r _ => r = Err e) h) as Hs.
    { unfold state, inspect_exact. rewrite Eb. by apply hoare_ret. }
    destruct (hoare_exec _ (fun _ => True) _ _ _ _ _ _ He I Hs) as [_ Hr].
    rewrite (Hr r eq_refl). done.
Qed.

(** ** The manager *)
Definition lvm_answer (B : Type) (c : storage_call B) : B -> Prop :=
  match c in Storage.storage_call B return B -> Prop with
  | Storage.State _ _ _ => indefinite
  | _ => fun _ => True
  end.

Definition failed {A} (r : result StorageError A) : Prop := is_ok r = false.
Abbreviation ends := (ends lvm_answer).

Section Manager.
Context `{Serde} (state_root : string).

Lemma require_mounted_fails layout b bytes : ends (require_mounted layout b bytes) failed.
Proof. apply ends_io_bind. intros [[]|e] [Hm Ha]; done. Qed.

Lemma rollback_fails {A} layout j identity cause :
  ends (rollback_allocation (A := A) layout j identity cause) failed.
Proof. apply ends_skip; [|done]. by intros [|]. Qed.

Lemma or_rollback_fails {A B} (m : stio A) layout j identity (k : A -> stio B) :
  (forall a, ends (k a) failed) -> ends (or_rollback m layout j identity k) failed.
Proof. intros Hk. apply ends_skip; [|done]. intros [a|e]; [done|apply rollback_fails]. Qed.

Lemma publish_ready_fails layout request capability identity bytes :
  ends (publish_ready layout request capability identity bytes) failed.
Proof. apply ends_io_bind. eapply ends_mono; [apply require_mounted_fails|]. by intros [|]. Qed.

Lemma allocate_volume_fails layout request capability bytes j token :
  ends (allocate_volume layout request capability bytes j token) failed.
Proof.
  do 8 (apply or_rollback_fails; intros ?). unfold or_rollback, outcome_of.
  apply ends_io_bind, ends_bind. eapply ends_mono; [apply publish_ready_fails|].
  intros [?|?] Hr; [done|]. apply rollback_fails.
Qed.

Lemma allocate_fails request : ends (allocate state_root request) failed.
Proof.
  do 12 (apply ends_skip; [intros ?|done]).
  apply ends_skip; [intros [u|e]|done]; [apply allocate_volume_fails|]. by apply ends_skip.
Qed.

Lemma cleanup_identity_fails layout b bytes receipt :
  ends (cleanup_identity layout b bytes receipt) failed.
Proof.
  apply ends_io_bind. intros [[]|e] [Hm Ha]; [done| |done|done].
  apply ends_io_bind. change (cleanup_unmount _ _ _ _ _) with
    (mret BackendState.Unmounted : stio BackendState).
  apply ends_io_bind, ends_io_bind, ends_any. intros [u|e]; [|done].
  apply ends_io_bind. intros [[]|e] [Hm' Ha']; done.
Qed.

Lemma already_released_not layout receipt tombstone :
  ends (already_released layout receipt tombstone) (fun r => r <> Ok true).
Proof.
  unfold already_released. destruct tombstone as [t|]; [|done]. case_match; [done|].
  apply ends_skip; [intros [|]|done]; [|done]. apply ends_io_bind. intros [[]|e] [Hm Ha]; done.
Qed.

Lemma release_fails receipt : ends (release state_root receipt) failed.
Proof.
  do 3 (apply ends_skip; [intros ?|done]). apply ends_io_bind.
  eapply ends_mono; [apply already_released_not|]. intros [[|]|e] Hr; [done| |done].
  do 4 (apply ends_skip; [intros ?|done]). do 5 (apply ends_skip; [intros ?|done]).
  apply cleanup_identity_fails.
Qed.
End Manager.

(** C26. On a Linux host, where some mounted file system has a longer type than
    [ext4], the LVM backend never says that a volume is mounted or
    gone: whatever system the manager's other calls run on, no run of [allocate]
    returns a receipt and no run of [release] succeeds. *)
Theorem linux_lvm_never_ready `{Serde} {S} (volume_group state_root : string)
    (sem : forall B, storage_call B -> S -> B -> S -> Prop) (env : S -> S -> Prop) :
  (forall layout b bytes s r s', sem _ (Storage.State layout b bytes) s r s' ->
     exists others h tr h', long_type others /\ linux_host h /\
       exec (lvm_sem volume_group False (columns others)) quiet (state volume_group layout b bytes) h tr (Some r) h') ->
  (forall request s tr r s', exec sem env (allocate state_root request) s tr (Some r) s' -> is_ok r = false) /\
  (forall receipt s tr r s', exec sem env (release state_root receipt) s tr (Some r) s' -> is_ok r = false).
Proof.
  intros Hs. assert (forall B (c : storage_call B) s b s', sem B c s b s' -> lvm_answer B c b) as Ha.
  { intros B c s b s' Hc. destruct c; try done. destruct (Hs _ _ _ _ _ _ Hc) as (others & h & tr & h' & Ho & Hh & He).
    by eapply linux_state. }
  split; intros x s tr r s' He.
  - exact (ends_exec _ _ _ _ failed _ _ _ _ He Ha (allocate_fails state_root x) r eq_refl).
  - exact (ends_exec _ _ _ _ failed _ _ _ _ He Ha (release_fails state_root x) r eq_refl).
Qed.

(** A host whose volume is gone, as the manager sees it through the backend. *)
Definition gone_host : LvmHost := set_lvs ∅ ex_host.

Definition no_such_volume : CommandOutput :=
  {| CommandOutput.code := 5; CommandOutput.stdout := "";
     CommandOutput.stderr := "  Failed to find logical volume" |}.

Definition gone (B : Type) (c : lvm_call B) (h : LvmHost) : B * LvmHost :=
  match c in Lvm.lvm_call B return B * LvmHost with
  | Lvm.Run _ => (Ok no_such_volume, h)
  | Lvm.PoolGet => (Ok (cached_pool h), h)
  | Lvm.PoolSet p => (Ok tt, set_pool p h)
  end.

Lemma gone_sem others B (c : lvm_call B) h :
  lvm_sem "vg" False (columns others) B c h (gone B c h).1 (gone B c h).2.
Proof.
  destruct c; simpl; [|done|done]. intros t _. by destruct t; simpl; try right.
Qed.

Definition gone_storage `{StorageHost} (B : Type) (c : storage_call B) (w : World) : B * World :=
  match c in storage_call B return B * World with
  | Storage.State layout b bytes => ((run gone (state "vg" layout b bytes) gone_host).1, w)
  | c => steady _ c w
  end.

Lemma linux_lvm_never_ready_witness :
  is_ok (run gone_storage (release "/state" example_receipt) allocated_world).1 = false /\
  is_ok (run steady (release "/state" example_receipt) allocated_world).1 = true.
Proof.
  split; [|by vm_compute].
  destruct (run_exec gone_storage (fun B c w r w' => r = (gone_storage B c w).1 /\ w' = (gone_storage B c w).2)
    quiet (release "/state" example_receipt) allocated_world) as [tr He]; [done|].
  refine (proj2 (linux_lvm_never_ready "vg" "/state" _ quiet _) _ _ _ _ _ He).
  intros layout b bytes s x s' [-> _]. exists ["tmpfs"%string], gone_host.
  destruct (run_exec gone (lvm_sem "vg" False (columns ["tmpfs"%string])) quiet (state "vg" layout b bytes) gone_host)
    as [tr' He']; [apply gone_sem|].
  exists tr', (run gone (state "vg" layout b bytes) gone_host).2. split_and!; [|split|exact He'].
  - exists "tmpfs"%string. split; [by left|simpl; lia].
  - exact (host_ok_remove ex_host "autospec-t" ex_host_ok).
  - intros p u f Hp. simpl in Hp. apply lookup_singleton_Some in Hp as [_ [= _ <-]]. by vm_compute.
Defined.
