(* ===== verification/Docker.v ===== *)
(** * The Docker runtime ([runtime-docker/src/lib.rs], [limits.rs])

    The adapter's configuration with its validation, the limits every container
    gets, and the calls the adapter makes: to the daemon, to the file system of
    the host and to the verifier of the execution's storage.  What a call may
    answer is in [DockerWorld.v]; here it is arbitrary. *)

From Stdlib Require Import Ascii.
From S2P Require Import Prelude Core Lifecycle Database Effects StorageModel FileSystem BuildCache.

















Module RuntimeError.
Inductive RuntimeError :=
| Unavailable (message : string)
| Provisioning (message : string)
| ResourceLimit (message : string)
| Cleanup (message : string).

Definition to_string (e : RuntimeError) : string :=
  match e with
  | Unavailable m => "runtime unavailable: " +:+ m
  | Provisioning m => "provisioning failed: " +:+ m
  | ResourceLimit m => "resource limit rejected: " +:+ m
  | Cleanup m => "cleanup failed: " +:+ m
  end.
End RuntimeError.
Abbreviation RuntimeError := RuntimeError.RuntimeError.
Abbreviation provisioning := RuntimeError.Provisioning.
Abbreviation resource_limit := RuntimeError.ResourceLimit.

Definition storage_error (e : StorageError) : RuntimeError :=
  resource_limit ("execution storage verification failed: " +:+ StorageError.to_string e).

(** ** What the daemon is told and answers ([bollard::models])

    The fields the adapter sets or reads.  A Rust [HashMap] of labels is a map. *)
Module DockerError.
Record DockerError := { status_code : option Z; message : string }.
End DockerError.
Abbreviation DockerError := DockerError.DockerError.

Definition is_image_not_found (e : DockerError) : bool :=
  bool_decide (DockerError.status_code e = Some 404).

Inductive MountTypeEnum := BIND | VOLUME | TMPFS | OtherMount.
#[export] Instance mount_type_eq_dec : EqDecision MountTypeEnum.
Proof. solve_decision. Defined.

Module Mount.
Record Mount := {
  target : option string;
  source : option string;
  typ : option MountTypeEnum;
  read_only : option bool
}.
End Mount.
Abbreviation Mount := Mount.Mount.

Module MountPoint.
Record MountPoint := {
  typ : option MountTypeEnum;
  name : option string;
  source : option string;
  destination : option string;
  rw : option bool
}.
End MountPoint.
Abbreviation MountPoint := MountPoint.MountPoint.

Module HostConfig.
Record HostConfig := {
  nano_cpus : option Z;               (* i64 *)
  memory : option Z;                  (* i64 *)
  memory_swap : option Z;             (* i64 *)
  pids_limit : option Z;              (* i64 *)
  ipc_mode : option string;
  shm_size : option Z;                (* i64 *)
  privileged : option bool;
  publish_all_ports : option bool;
  readonly_rootfs : option bool;
  log_config : option (option string); (* its type *)
  storage_opt : option (gmap string string);
  tmpfs : option (gmap string string);
  security_opt : option (list string);
  cap_drop : option (list string);
  cap_add : option (list string);
  network_mode : option string;
  mounts : option (list Mount)
}.

Definition with_caps (drop add : option (list string)) (h : HostConfig) : HostConfig :=
  {| nano_cpus := nano_cpus h; memory := memory h; memory_swap := memory_swap h;
     pids_limit := pids_limit h; ipc_mode := ipc_mode h; shm_size := shm_size h;
     privileged := privileged h; publish_all_ports := publish_all_ports h;
     readonly_rootfs := readonly_rootfs h; log_config := log_config h;
     storage_opt := storage_opt h; tmpfs := tmpfs h; security_opt := security_opt h;
     cap_drop := drop; cap_add := add; network_mode := network_mode h; mounts := mounts h |}.
Definition with_security_opt (o : option (list string)) (h : HostConfig) : HostConfig :=
  {| nano_cpus := nano_cpus h; memory := memory h; memory_swap := memory_swap h;
     pids_limit := pids_limit h; ipc_mode := ipc_mode h; shm_size := shm_size h;
     privileged := privileged h; publish_all_ports := publish_all_ports h;
     readonly_rootfs := readonly_rootfs h; log_config := log_config h;
     storage_opt := storage_opt h; tmpfs := tmpfs h; security_opt := o;
     cap_drop := cap_drop h; cap_add := cap_add h; network_mode := network_mode h;
     mounts := mounts h |}.
Definition attached (network : option string) (ms : option (list Mount)) (h : HostConfig) : HostConfig :=
  {| nano_cpus := nano_cpus h; memory := memory h; memory_swap := memory_swap h;
     pids_limit := pids_limit h; ipc_mode := ipc_mode h; shm_size := shm_size h;
     privileged := privileged h; publish_all_ports := publish_all_ports h;
     readonly_rootfs := readonly_rootfs h; log_config := log_config h;
     storage_opt := storage_opt h; tmpfs := tmpfs h; security_opt := security_opt h;
     cap_drop := cap_drop h; cap_add := cap_add h; network_mode := network; mounts := ms |}.
End HostConfig.
Abbreviation HostConfig := HostConfig.HostConfig.

Module Config.
Record Config := {
  image : option string;
  entrypoint : option (list string);
  cmd : option (list string);
  user : option string;
  env : option (list string);
  labels : gmap string string;
  host_config : HostConfig;
  networks : list (string * list string); (* with the aliases there *)
  network_disabled : bool
}.
End Config.
Abbreviation Config := Config.Config.

Module ImageInspect.
Record ImageInspect := { id : option string; volumes : option (gset string) }.
End ImageInspect.
Abbreviation ImageInspect := ImageInspect.ImageInspect.

Module ContainerSummary.
Record ContainerSummary := { id : option string; labels : option (gmap string string) }.
End ContainerSummary.
Abbreviation ContainerSummary := ContainerSummary.ContainerSummary.

Module ContainerInspect.
Record ContainerInspect := {
  id : option string;
  running : option bool;
  exit_code : option Z;
  labels : option (gmap string string);
  mounts : option (list MountPoint);
  host_config : option HostConfig
}.
End ContainerInspect.
Abbreviation ContainerInspect := ContainerInspect.ContainerInspect.

Inductive LogOutput := StdOut (m : string) | StdErr (m : string) | Console (m : string) | StdIn (m : string).

(** ** The limits of a container ([limits.rs]) *)
Definition DEFAULT_PIDS_LIMIT : Z := 512.
Definition DEFAULT_SHM_SIZE : Z := 64 * 1024 * 1024.
Definition NO_NEW_PRIVILEGES : string := "no-new-privileges:true".

Inductive ContainerHardening := Enforced | Relaxed.
#[export] Instance hardening_eq_dec : EqDecision ContainerHardening.
Proof. solve_decision. Defined.

Definition host_limits (requirement : RuntimeRequirement) : HostConfig :=
  let memory := Z.min (saturating_mul_u64 (saturating_mul_u64 (RuntimeRequirement.memory_mib requirement)
                  1024) 1024) i64_max in
  let nano_cpus := Z.min (saturating_mul_u64 (RuntimeRequirement.cpu requirement) 1000000000) i64_max in
  {| HostConfig.nano_cpus := Some nano_cpus; HostConfig.memory := Some memory;
     HostConfig.memory_swap := Some memory; HostConfig.pids_limit := Some DEFAULT_PIDS_LIMIT;
     HostConfig.ipc_mode := Some "none"%string; HostConfig.shm_size := Some DEFAULT_SHM_SIZE;
     HostConfig.privileged := Some false; HostConfig.publish_all_ports := Some false;
     HostConfig.readonly_rootfs := Some true; HostConfig.log_config := Some (Some "none"%string);
     HostConfig.storage_opt := None; HostConfig.tmpfs := None;
     HostConfig.security_opt := Some [NO_NEW_PRIVILEGES]; HostConfig.cap_drop := None;
     HostConfig.cap_add := None; HostConfig.network_mode := None; HostConfig.mounts := None |}.

Definition ROOT_AGENT_RETAINED_CAPABILITIES : list string := ["DAC_OVERRIDE"; "FOWNER"]%string.

Definition drop_all_capabilities (limits : HostConfig) : HostConfig :=
  HostConfig.with_caps (Some ["ALL"%string]) (HostConfig.cap_add limits) limits.

Definition is_root_user (agent_user : string) : bool :=
  match split ":"%char agent_user with
  | uid :: _ => bool_decide (parse_u32 uid = Some 0)
  | [] => false
  end.

Definition harden_agent (limits : HostConfig) (hardening : ContainerHardening) (agent_user : string) :
    HostConfig :=
  match hardening with
  | Enforced =>
      let limits := drop_all_capabilities limits in
      if is_root_user agent_user
      then HostConfig.with_caps (HostConfig.cap_drop limits) (Some ROOT_AGENT_RETAINED_CAPABILITIES) limits
      else limits
  | Relaxed => HostConfig.with_security_opt None limits
  end.

Definition harden_service (limits : HostConfig) (hardening : ContainerHardening) : HostConfig :=
  match hardening with
  | Relaxed => HostConfig.with_security_opt None limits
  | Enforced => limits
  end.

(** ** Configuration ([lib.rs]) *)
Module TrustedVerifierImage.
Record TrustedVerifierImage := { image_id : string; stat_command : string }.

Definition new (image_id stat_command : string) : result RuntimeError TrustedVerifierImage :=
  let digest := default "" (strip_prefix "sha256:" image_id) in
  if negb (Z.of_nat (String.length digest) =? 64) || negb (string_forallb is_ascii_hexdigit digest)
  then Err (resource_limit "trusted verifier image must be an immutable sha256 image ID")
  else if negb (starts_with "/" stat_command) || string_existsb (fun c => bool_decide (c = "000"%char)) stat_command
  then Err (resource_limit "trusted verifier command must be an absolute container path")
  else Ok {| image_id := image_id; stat_command := stat_command |}.

Definition proof_method (t : TrustedVerifierImage) : string :=
  "autospec.dev/docker-bind-stat/v2;image=" +:+ image_id t +:+ ";command=" +:+ stat_command t.
End TrustedVerifierImage.
Abbreviation TrustedVerifierImage := TrustedVerifierImage.TrustedVerifierImage.

Definition DEFAULT_AGENT_USER : string := "0:0".

Definition validate_agent_user (raw : string) : result RuntimeError unit :=
  let numeric part :=
    negb (str_is_empty part) && (Z.of_nat (String.length part) <=? 10) &&
    string_forallb is_ascii_digit part && bool_decide (is_Some (parse_u32 part)) in
  let refused := Err (resource_limit
    ("agent user " +:+ debug_text raw +:+ " must be a numeric uid:gid such as 1000:1000")) in
  match split_once ":" raw with
  | Some (uid, gid) => if numeric uid && numeric gid then Ok tt else refused
  | None => refused
  end.

Definition INFERENCE_RELAY_ALIAS : string := "inferweave".

Module InferenceRelay.
Record InferenceRelay := { image : string; upstream : string; listen_port : Z (* u16 *) }.
End InferenceRelay.
Abbreviation InferenceRelay := InferenceRelay.InferenceRelay.

Definition validate_relay_upstream (upstream : string) : result RuntimeError unit :=
  let invalid := Err (resource_limit
    ("inference upstream " +:+ debug_text upstream +:+
     " must be host:port, for example gateway.local:8080")) in
  match rsplit_once ":" upstream with
  | None => invalid
  | Some (host, port) =>
      let bracketed := strip_prefix "[" host ≫= strip_suffix "]" in
      let host_ok :=
        match bracketed with
        | Some inner => negb (str_is_empty inner) &&
            string_forallb (fun b => is_ascii_hexdigit b || bool_decide (b = ":"%char)) inner
        | None => negb (str_is_empty host) && (Z.of_nat (String.length host) <=? 253) &&
            string_forallb (fun b => is_ascii_alphanumeric b ||
              bool_decide (b ∈ ["."; "-"; "_"]%char)) host
        end in
      let port_ok := negb (str_is_empty port) && (Z.of_nat (String.length port) <=? 5) &&
        string_forallb is_ascii_digit port &&
        match parse_uint (2 ^ 16 - 1) port with Some p => negb (p =? 0) | None => false end in
      if host_ok && port_ok then Ok tt else invalid
  end.

Definition validate_inference_relay (relay : InferenceRelay) : result RuntimeError unit :=
  if str_is_empty (trim (InferenceRelay.image relay)) || (InferenceRelay.listen_port relay =? 0)
  then Err (resource_limit "inference relay needs an image and a non-zero listen port")
  else validate_relay_upstream (InferenceRelay.upstream relay).

Module BuildCacheConfig.
Record BuildCacheConfig := { root : string; max_gib : Z (* u64 *) }.
End BuildCacheConfig.
Abbreviation BuildCacheConfig := BuildCacheConfig.BuildCacheConfig.

Module ExecutionCredentials.
Record ExecutionCredentials := { path : string; expires_at : Timestamp }.
End ExecutionCredentials.
Abbreviation ExecutionCredentials := ExecutionCredentials.ExecutionCredentials.

(** The daemon's client and the storage verifier are the calls. *)
Module DockerRuntime.
Record DockerRuntime := {
  min_api_version : string;
  state_root : string;
  storage_verifier : bool;            (* whether there is one *)
  allocation : option AllocationReceipt;
  trusted_verifier : option TrustedVerifierImage;
  credentials : option ExecutionCredentials;
  cleanup_labels : option OwnershipLabels;
  build_cache : option BuildCacheConfig;
  hardening : ContainerHardening;
  agent_user : string;
  inference_relay : option InferenceRelay
}.

Definition with_allocation (root : string) (r : AllocationReceipt) (d : DockerRuntime) : DockerRuntime :=
  {| min_api_version := min_api_version d; state_root := root; storage_verifier := true;
     allocation := Some r; trusted_verifier := trusted_verifier d; credentials := credentials d;
     cleanup_labels := cleanup_labels d; build_cache := build_cache d; hardening := hardening d;
     agent_user := agent_user d; inference_relay := inference_relay d |}.
Definition with_trusted_verifier (t : TrustedVerifierImage) (d : DockerRuntime) : DockerRuntime :=
  {| min_api_version := min_api_version d; state_root := state_root d;
     storage_verifier := storage_verifier d; allocation := allocation d; trusted_verifier := Some t;
     credentials := credentials d; cleanup_labels := cleanup_labels d; build_cache := build_cache d;
     hardening := hardening d; agent_user := agent_user d; inference_relay := inference_relay d |}.
Definition with_cleanup (r : AllocationReceipt) (labels : OwnershipLabels) (d : DockerRuntime) :
    DockerRuntime :=
  {| min_api_version := min_api_version d; state_root := state_root d;
     storage_verifier := storage_verifier d; allocation := Some r;
     trusted_verifier := trusted_verifier d; credentials := credentials d;
     cleanup_labels := Some labels; build_cache := build_cache d; hardening := hardening d;
     agent_user := agent_user d; inference_relay := inference_relay d |}.
Definition with_credentials (c : ExecutionCredentials) (d : DockerRuntime) : DockerRuntime :=
  {| min_api_version := min_api_version d; state_root := state_root d;
     storage_verifier := storage_verifier d; allocation := allocation d;
     trusted_verifier := trusted_verifier d; credentials := Some c;
     cleanup_labels := cleanup_labels d; build_cache := build_cache d; hardening := hardening d;
     agent_user := agent_user d; inference_relay := inference_relay d |}.
Definition with_hardening (h : ContainerHardening) (d : DockerRuntime) : DockerRuntime :=
  {| min_api_version := min_api_version d; state_root := state_root d;
     storage_verifier := storage_verifier d; allocation := allocation d;
     trusted_verifier := trusted_verifier d; credentials := credentials d;
     cleanup_labels := cleanup_labels d; build_cache := build_cache d; hardening := h;
     agent_user := agent_user d; inference_relay := inference_relay d |}.
Definition with_build_cache (root : string) (max_gib : Z) (d : DockerRuntime) : DockerRuntime :=
  {| min_api_version := min_api_version d; state_root := state_root d;
     storage_verifier := storage_verifier d; allocation := allocation d;
     trusted_verifier := trusted_verifier d; credentials := credentials d;
     cleanup_labels := cleanup_labels d;
     build_cache := Some {| BuildCacheConfig.root := root; BuildCacheConfig.max_gib := max_gib |};
     hardening := hardening d; agent_user := agent_user d; inference_relay := inference_relay d |}.
Definition with_agent_user (u : string) (d : DockerRuntime) : result RuntimeError DockerRuntime :=
  _ ← validate_agent_user u;
  Ok {| min_api_version := min_api_version d; state_root := state_root d;
        storage_verifier := storage_verifier d; allocation := allocation d;
        trusted_verifier := trusted_verifier d; credentials := credentials d;
        cleanup_labels := cleanup_labels d; build_cache := build_cache d; hardening := hardening d;
        agent_user := u; inference_relay := inference_relay d |}.
Definition with_inference_relay (relay : InferenceRelay) (d : DockerRuntime) : result RuntimeError DockerRuntime :=
  _ ← validate_inference_relay relay;
  Ok {| min_api_version := min_api_version d; state_root := state_root d;
        storage_verifier := storage_verifier d; allocation := allocation d;
        trusted_verifier := trusted_verifier d; credentials := credentials d;
        cleanup_labels := cleanup_labels d; build_cache := build_cache d; hardening := hardening d;
        agent_user := agent_user d; inference_relay := Some relay |}.
End DockerRuntime.
Abbreviation DockerRuntime := DockerRuntime.DockerRuntime.

Definition network_name (id : ExecutionId) : string := "autospec-" +:+ id.
Definition agent_container_name (id : ExecutionId) : string := "autospec-" +:+ id +:+ "-agent".
Definition service_container_name (id : ExecutionId) (service : string) : string :=
  "autospec-" +:+ id +:+ "-" +:+ service.
Definition relay_container_name (id : ExecutionId) : string := "autospec-" +:+ id +:+ "-inferweave-relay".
Definition volume_name (id : ExecutionId) (purpose : string) : string := "autospec-" +:+ id +:+ "-" +:+ purpose.

(** ** Calls *)
Module FileMeta.
Record FileMeta := {
  stat : Metadata;
  len : Z;                            (* u64 *)
  modified : option Timestamp
}.
Definition is_dir (m : FileMeta) : bool := Metadata.is_dir (stat m).
Definition is_file (m : FileMeta) : bool := Metadata.is_file (stat m).
Definition is_symlink (m : FileMeta) : bool := Metadata.is_symlink (stat m).
End FileMeta.
Abbreviation FileMeta := FileMeta.FileMeta.

Inductive Endpoint := Http (socket : string) | Socket (socket : string) | LocalDefaults.

Module Docker.
Inductive docker_call : Type -> Type :=
(* the daemon *)
| Connect (endpoint : Endpoint) : docker_call (result string unit)
| Version : docker_call (result string (option string * option string)) (* maximal and minimal API *)
| Negotiate : docker_call (result string unit)
| Info : docker_call (result string (option string)) (* its id *)
| ListContainers (selector : list string) : docker_call (result string (list ContainerSummary))
| RemoveContainer (id : string) (volumes : bool) : docker_call (result string unit)
| ListVolumes (selector : list string) :
    docker_call (result string (option (list (string * gmap string string))))
| RemoveVolume (name : string) : docker_call (result string unit)
| ListNetworks (selector : list string) :
    docker_call (result string (list (option string * option (gmap string string))))
| RemoveNetwork (id : string) : docker_call (result string unit)
| CreateNetwork (name : string) (internal : bool) (labels : gmap string string) :
    docker_call (result string unit)
| ConnectNetwork (network container : string) : docker_call (result string unit)
| InspectImage (image : string) : docker_call (result DockerError ImageInspect)
| PullImage (image : string) : docker_call (list (result string unit)) (* its progress *)
| CreateContainer (name : string) (config : Config) : docker_call (result string string)
| StartContainer (container : string) : docker_call (result string unit)
| InspectContainer (container : string) : docker_call (result string ContainerInspect)
| AttachContainer (container : string) : docker_call (result string unit)
| ReadOutput (container : string) : docker_call (list (result string LogOutput))
| CreateExec (container : string) (cmd : list string) : docker_call (result string string)
| StartExec (exec : string) : docker_call (result string (option (list (result string unit))))
| InspectExec (exec : string) : docker_call (result string (option Z)) (* its exit code *)
| Elapsed : docker_call bool           (* of [tokio::time::timeout] *)
(* the file system of the host *)
| Canonicalize (path : string) : docker_call (result Errno string)
| SymlinkMetadata (path : string) : docker_call (result Errno FileMeta)
| MetadataOf (path : string) : docker_call (result Errno Metadata)
| ReadFile (path : string) : docker_call (result Errno string)
| ReadDir (path : string) : docker_call (result Errno (list (result Errno string)))
| WriteFile (path bytes : string) : docker_call (result Errno unit)
| HardLink (from to : string) : docker_call (result Errno unit)
| RemoveFile (path : string) : docker_call (result Errno unit)
| RemoveDirAll (path : string) : docker_call (result Errno unit)
| CreateDir (path : string) : docker_call (result Errno unit)
| CreateDirAll (path : string) : docker_call (result Errno unit)
| SetPermissions (path : string) (mode : Z) : docker_call (result Errno unit)
| Env (name : string) : docker_call (option string)
| Now : docker_call Timestamp
| Staging : docker_call string         (* [{pid}-{nanoseconds}] *)
(* [ReadyAllocationVerifier] and the lease it gives *)
| AcquireReadyLease (receipt : AllocationReceipt) : docker_call (result StorageError unit)
| LeaseVerify : docker_call (result StorageError unit)
| LeaseVerifyDirectory (path : string) : docker_call (result StorageError unit)
| LeaseRepositoryPath : docker_call string
| VerifyReady (receipt : AllocationReceipt) : docker_call (result StorageError unit)
| FreshVerify : docker_call (result StorageError unit)
| FreshVerifyDirectory (path : string) : docker_call (result StorageError unit).
End Docker.
Abbreviation docker_call := Docker.docker_call.
Abbreviation dio := (io docker_call RuntimeError).

Definition docker_lstat (path : string) : proc docker_call (option Metadata) :=
  m ← request (Docker.SymlinkMetadata path);
  Ret match m with Ok m => Some (FileMeta.stat m) | Err _ => None end.
Definition docker_read (path : string) : proc docker_call (option string) :=
  bytes ← request (Docker.ReadFile path);
  Ret match bytes with Ok bytes => Some bytes | Err _ => None end.
#[export] Instance docker_owner_files : OwnerFiles docker_call :=
  {| lstat := docker_lstat; read_file := docker_read |}.

(** A call under [map_err] and [?], with the text of the error. *)
Definition fs_io {A} (c : docker_call (result Errno A)) (f : string -> RuntimeError) : dio A :=
  ask_or c (fun e => f (errno_text e)).
Definition storage_io {A} (c : docker_call (result StorageError A)) : dio A := ask_or c storage_error.

(** ** Constructors *)
Definition connect_with_state_root (socket : option string) (state_root : string) : dio DockerRuntime :=
  configured ← match socket with
               | Some socket => mret (Some socket)
               | None => ask (Docker.Env "AUTOSPEC_DOCKER_SOCKET")
               end;
  _ ← ask_or (Docker.Connect
        match configured with
        | Some socket => if starts_with "tcp://" socket || starts_with "http://" socket
                         then Http socket else Socket socket
        | None => LocalDefaults
        end) RuntimeError.Unavailable;
  mret {| DockerRuntime.min_api_version := "1.41"; DockerRuntime.state_root := state_root;
          DockerRuntime.storage_verifier := false; DockerRuntime.allocation := None;
          DockerRuntime.trusted_verifier := None; DockerRuntime.credentials := None;
          DockerRuntime.cleanup_labels := None; DockerRuntime.build_cache := None;
          DockerRuntime.hardening := Enforced; DockerRuntime.agent_user := DEFAULT_AGENT_USER;
          DockerRuntime.inference_relay := None |}.

Definition connect (socket : option string) : dio DockerRuntime :=
  root ← ask (Docker.Env "AUTOSPEC_STATE_ROOT");
  connect_with_state_root socket (default "/var/lib/autospec" root).

Definition state_root_of (allocation : AllocationReceipt) (f : string -> RuntimeError) : dio string :=
  some_or (parent_path (AllocationReceipt.mount_path allocation) ≫= parent_path)
    (f "allocation mount path lacks state root").

Definition connect_with_execution_storage (socket : option string) (allocation : AllocationReceipt) :
    dio DockerRuntime :=
  runtime ← connect socket;
  state_root ← state_root_of allocation resource_limit;
  mret (DockerRuntime.with_allocation state_root allocation runtime).

Definition connect_with_verified_execution_storage (socket : option string)
    (allocation : AllocationReceipt) (trusted : TrustedVerifierImage) : dio DockerRuntime :=
  _ ← guard_or (bool_decide (DockerBindProof.method_version (AllocationReceipt.docker_bind allocation) =
                             TrustedVerifierImage.proof_method trusted))
        (resource_limit "trusted verifier image does not match the allocation Docker proof method");
  runtime ← connect_with_execution_storage socket allocation;
  mret (DockerRuntime.with_trusted_verifier trusted runtime).

Definition connect_for_cleanup (socket : option string) (allocation : AllocationReceipt)
    (labels : OwnershipLabels) : dio DockerRuntime :=
  state_root ← state_root_of allocation RuntimeError.Cleanup;
  layout ← ret_result (map_err (fun e => RuntimeError.Cleanup (StorageError.to_string e))
             (ExecutionLayout.new state_root (OwnershipLabels.execution_id labels)));
  _ ← ret_result (map_err (fun e => RuntimeError.Cleanup (StorageError.to_string e))
        (validate_receipt allocation labels layout));
  let path := AllocationReceipt.mount_path allocation in
  metadata ← fs_io (Docker.SymlinkMetadata path)
               (fun e => RuntimeError.Cleanup ("inspect cleanup allocation " +:+ path +:+ ": " +:+ e));
  _ ← guard_or (negb (FileMeta.is_symlink metadata || negb (FileMeta.is_dir metadata)))
        (RuntimeError.Cleanup "cleanup allocation path is not an owned directory");
  canonical ← fs_io (Docker.Canonicalize path)
                (fun e => RuntimeError.Cleanup ("canonicalize cleanup allocation " +:+ path +:+ ": " +:+ e));
  _ ← guard_or (path_eqb canonical path)
        (RuntimeError.Cleanup "cleanup allocation path is not canonical");
  runtime ← connect_with_state_root socket state_root;
  mret (DockerRuntime.with_cleanup allocation labels runtime).

(** ** The daemon's API *)
Definition version_parts (version : string) : option (Z * Z) :=
  match split_once "." version with
  | Some (major, minor) =>
      match parse_u32 major, parse_u32 minor with
      | Some major, Some minor => Some (major, minor)
      | _, _ => None
      end
  | None => None
  end.

Definition api_version_at_least (actual required : string) : bool :=
  match version_parts actual, version_parts required with
  | Some (a1, a2), Some (r1, r2) => (r1 <? a1) || ((r1 =? a1) && (r2 <=? a2))
  | _, _ => false
  end.

Definition validate_daemon_api (daemon_maximum daemon_minimum : option string)
    (client_version required_version : string) : result RuntimeError unit :=
  daemon_maximum ← ok_or daemon_maximum
    (RuntimeError.Unavailable "Docker daemon did not report an API version");
  _ ← check (api_version_at_least daemon_maximum required_version)
        (RuntimeError.Unavailable ("Docker API " +:+ daemon_maximum +:+ " is below required " +:+
           required_version));
  match daemon_minimum with
  | Some minimum =>
      check (api_version_at_least client_version minimum)
        (RuntimeError.Unavailable ("Docker daemon requires API " +:+ minimum +:+
           ", but this client supports " +:+ client_version))
  | None => Ok tt
  end.

Section Daemon.
(** The version of the client library ([bollard::API_DEFAULT_VERSION]). *)
Context (client_version : string).

Definition require_compatible_daemon (runtime : DockerRuntime) : dio unit :=
  version ← ask_or Docker.Version RuntimeError.Unavailable;
  _ ← ret_result (validate_daemon_api version.1 version.2 client_version
                    (DockerRuntime.min_api_version runtime));
  ask_or Docker.Negotiate (fun e => RuntimeError.Unavailable ("negotiate Docker API: " +:+ e)).

(** [Runtime::available]. *)
Definition available (runtime : DockerRuntime) : proc docker_call bool :=
  r ← require_compatible_daemon runtime; Ret (is_ok r).

Definition require_cleanup_authority (runtime : DockerRuntime) (labels : OwnershipLabels) : dio unit :=
  match DockerRuntime.cleanup_labels runtime with
  | Some expected =>
      _ ← guard_or (bool_decide (expected = labels))
            (RuntimeError.Cleanup "runtime cleanup labels differ from the persisted receipt");
      receipt ← some_or (DockerRuntime.allocation runtime)
                  (RuntimeError.Cleanup "runtime cleanup lacks its persisted receipt");
      _ ← guard_or (bool_decide (AllocationReceipt.labels receipt = labels))
            (RuntimeError.Cleanup "runtime cleanup receipt labels differ from selector authority");
      actual ← ask_or Docker.Info (fun e => RuntimeError.Unavailable
                 ("inspect Docker daemon identity for cleanup: " +:+ e));
      actual ← some_or actual
                 (RuntimeError.Cleanup "Docker daemon did not report an identity for cleanup");
      guard_or (bool_decide (actual = DockerBindProof.daemon_id (AllocationReceipt.docker_bind receipt)))
        (RuntimeError.Cleanup ("Docker daemon identity " +:+ actual +:+
           " does not match the persisted cleanup receipt"))
  | None => mret tt
  end.
End Daemon.

(** ** Bounds *)

(** C40: The limits of a container are the requested amounts, as 64 bit signed
    integers: the CPU limit is never saturated, the memory limit is exact below
    8 EiB and the largest integer from there on, swap adds nothing to memory. *)
Theorem limits_bounded requirement :
  0 <= RuntimeRequirement.cpu requirement < 2 ^ 32 ->
  0 <= RuntimeRequirement.memory_mib requirement <= u64_max ->
  let host := host_limits requirement in
  let memory := RuntimeRequirement.memory_mib requirement * 2 ^ 20 in
  exists m, HostConfig.memory host = Some m /\ HostConfig.memory_swap host = Some m /\
    0 <= m <= i64_max /\ m = Z.min memory i64_max /\
    HostConfig.nano_cpus host = Some (RuntimeRequirement.cpu requirement * 10 ^ 9) /\
    RuntimeRequirement.cpu requirement * 10 ^ 9 <= i64_max.
Proof.
  unfold host_limits, saturating_mul_u64, u64_max, i64_max. simpl.
  change (2 ^ 64) with 18446744073709551616. change (2 ^ 63) with 9223372036854775808.
  change (2 ^ 32) with 4294967296. change (2 ^ 20) with 1048576. change (10 ^ 9) with 1000000000.
  intros Hc Hm. eexists. split_and!; [reflexivity|reflexivity|lia|lia|lia| |lia]. f_equal. lia.
Qed.

Lemma limits_bounded_witness :
  exists m, HostConfig.memory (host_limits {| RuntimeRequirement.kind := RuntimeKind.Docker;
      RuntimeRequirement.image := None; RuntimeRequirement.os := None; RuntimeRequirement.arch := None;
      RuntimeRequirement.cpu := 4; RuntimeRequirement.memory_mib := u64_max; RuntimeRequirement.disk_gib := 1;
      RuntimeRequirement.capabilities := []; RuntimeRequirement.toolchains := ∅ |}) = Some m /\ m = i64_max.
Proof.
  destruct (limits_bounded {| RuntimeRequirement.kind := RuntimeKind.Docker;
      RuntimeRequirement.image := None; RuntimeRequirement.os := None; RuntimeRequirement.arch := None;
      RuntimeRequirement.cpu := 4; RuntimeRequirement.memory_mib := u64_max; RuntimeRequirement.disk_gib := 1;
      RuntimeRequirement.capabilities := []; RuntimeRequirement.toolchains := ∅ |}) as (m & Hm & _ & _ & He & _);
    [simpl; lia|by vm_compute|]. exists m. split; [exact Hm|]. rewrite He. by vm_compute.
Defined.
