(* ===== verification/DockerMounts.v ===== *)
(** * The binds of a container ([runtime-docker/src/provision.rs])

    Every writable path of a container is a bind of a directory of its
    execution; the adapter makes these directories, asks the daemon for the binds
    and compares what it reports with what was asked. *)

From Stdlib Require Import Ascii.
From S2P Require Import Prelude Core Lifecycle Database Effects StorageModel FileSystem BuildCache Docker.

















Definition CONTAINER_WORKTREE : string := "/workspace".
Definition CONTAINER_SESSION : string := "/session".
Definition CONTAINER_CREDENTIAL : string := "/autospec-credential".
Definition CONTAINER_CARGO_TARGET : string := "/cargo-target".
Definition CONTAINER_WRITABLE_BIND_MODE : Z := 1023 (* 0o1777 *).

(** ** Directories *)
Definition not_real_directory (purpose path : string) : RuntimeError :=
  provisioning (purpose +:+ " is not a real directory: " +:+ path).

(** [ensure_real_directory] with [create] false. *)
Definition check_real_directory (path purpose : string) : dio unit :=
  metadata ← fs_io (Docker.SymlinkMetadata path)
    (fun e => provisioning ("inspect " +:+ purpose +:+ " " +:+ path +:+ ": " +:+ e));
  guard_or (negb (FileMeta.is_symlink metadata || negb (FileMeta.is_dir metadata)))
    (not_real_directory purpose path).

Definition ensure_real_directory (path : string) (create : bool) (purpose : string) : dio unit :=
  metadata ← ask (Docker.SymlinkMetadata path);
  match metadata with
  | Ok metadata =>
      guard_or (negb (FileMeta.is_symlink metadata || negb (FileMeta.is_dir metadata)))
        (not_real_directory purpose path)
  | Err NOENT =>
      if create then
        created ← ask (Docker.CreateDir path);
        match created with
        | Ok _ => mret tt
        | Err EXIST => check_real_directory path purpose
        | Err e => throw (provisioning ("create " +:+ purpose +:+ " " +:+ path +:+ ": " +:+ errno_text e))
        end
      else throw (provisioning ("inspect " +:+ purpose +:+ " " +:+ path +:+ ": " +:+ errno_text NOENT))
  | Err e => throw (provisioning ("inspect " +:+ purpose +:+ " " +:+ path +:+ ": " +:+ errno_text e))
  end.

Definition make_container_writable (path : string) : dio unit :=
  fs_io (Docker.SetPermissions path CONTAINER_WRITABLE_BIND_MODE)
    (fun e => provisioning ("make container bind directory writable " +:+ path +:+ ": " +:+ e)).

Definition bind_mount (source target : string) : dio Mount :=
  canonical ← fs_io (Docker.Canonicalize source)
    (fun e => provisioning ("canonicalize bind source " +:+ source +:+ ": " +:+ e));
  canonical ← some_or (from_utf8 canonical) (provisioning ("bind source is not UTF-8: " +:+ canonical));
  mret {| Mount.target := Some target; Mount.source := Some canonical; Mount.typ := Some BIND;
          Mount.read_only := Some false |}.

Definition read_only (m : Mount) : Mount :=
  {| Mount.target := Mount.target m; Mount.source := Mount.source m; Mount.typ := Mount.typ m;
     Mount.read_only := Some true |}.

Definition validate_safe_component (value purpose : string) : result RuntimeError unit :=
  check (negb (str_is_empty value) &&
         string_forallb (fun byte => is_ascii_alphanumeric byte || bool_decide (byte ∈ ["-"; "_"]%char)) value)
    (provisioning ("invalid " +:+ purpose +:+ ": " +:+ value)).

Fixpoint hex_component (bytes : string) : string :=
  match bytes with
  | EmptyString => EmptyString
  | String byte bytes =>
      String (hex_digit (byte_code byte / 16)) (String (hex_digit (byte_code byte mod 16))
        (hex_component bytes))
  end.

(** ** Image volumes *)

(** The declared targets, sorted: the keys of the map. *)
Definition image_volume_targets (image : ImageInspect) : list string :=
  merge_sort String.le (elements (default ∅ (ImageInspect.volumes image))).

(** The names of a container path after [.] and [..]; [None] when it leaves the
    root. *)
Fixpoint resolve (pieces : list string) (stack : list string) : option (list string) :=
  match pieces with
  | [] => Some (rev stack)
  | piece :: pieces =>
      if str_is_empty piece || bool_decide (piece = "."%string) then resolve pieces stack
      else if bool_decide (piece = ".."%string)
      then match stack with [] => None | _ :: stack => resolve pieces stack end
      else resolve pieces (piece :: stack)
  end.

Definition RESERVED : list string := ["workspace"; "session"; "cargo-target"]%string.

Definition validate_image_volume (target : string) : result RuntimeError unit :=
  if negb (starts_with "/" target)
  then Err (resource_limit ("image volume target is not an absolute container path: " +:+ target))
  else match resolve (split "/"%char target) [] with
       | None => Err (resource_limit ("image volume target escapes the container root: " +:+ target))
       | Some components =>
           check (match components with
                  | [] => false
                  | first :: _ => negb (existsb (String.eqb first) RESERVED)
                  end)
             (resource_limit ("image volume target collides with reserved agent mount: " +:+ target))
       end.

Fixpoint validate_all (targets : list string) : result RuntimeError unit :=
  match targets with
  | [] => Ok tt
  | target :: targets => _ ← validate_image_volume target; validate_all targets
  end.

Definition validate_reserved_image_volumes (images : list ImageInspect) : result RuntimeError unit :=
  validate_all (List.concat (List.map image_volume_targets images)).

(** ** The writable binds of a container *)
Definition cargo_target_mount (runtime_root : string) : dio Mount :=
  _ ← ensure_real_directory runtime_root false "execution runtime root";
  let scope_root := join runtime_root "agent" in
  _ ← ensure_real_directory scope_root true "container storage root";
  let source := join scope_root "cargo-target" in
  _ ← ensure_real_directory source true "cargo target directory";
  _ ← make_container_writable source;
  bind_mount source CONTAINER_CARGO_TARGET.

Definition FIXED_BINDS : list (string * string) :=
  [("home", "/home/autospec"); ("tmp", "/tmp"); ("var-tmp", "/var/tmp"); ("run", "/run")]%string.

Definition writable_bind (source target purpose : string) : dio Mount :=
  _ ← ensure_real_directory source true purpose;
  _ ← make_container_writable source;
  bind_mount source target.

Fixpoint fixed_mounts (scope_root : string) (fixed : list (string * string)) : dio (list Mount) :=
  match fixed with
  | [] => mret []
  | (purpose, target) :: fixed =>
      m ← writable_bind (join scope_root purpose) target "container writable directory";
      ms ← fixed_mounts scope_root fixed;
      mret (m :: ms)
  end.

(** The volumes the image declares, but for the targets already bound. *)
Fixpoint volume_mounts (image_root : string) (targets : list string) (bound : list string) :
    dio (list Mount) :=
  match targets with
  | [] => mret []
  | target :: targets =>
      if existsb (String.eqb target) bound then volume_mounts image_root targets bound
      else
        m ← writable_bind (join image_root (hex_component target)) target "image volume directory";
        ms ← volume_mounts image_root targets (target :: bound);
        mret (m :: ms)
  end.

Definition writable_container_mounts (runtime_root scope : string) (image : ImageInspect) :
    dio (list Mount) :=
  _ ← ret_result (validate_safe_component scope "container storage scope");
  _ ← ensure_real_directory runtime_root false "execution runtime root";
  let scope_root := join runtime_root scope in
  _ ← ensure_real_directory scope_root true "container storage root";
  mounts ← fixed_mounts scope_root FIXED_BINDS;
  let image_root := join scope_root "image-volumes" in
  _ ← ensure_real_directory image_root true "image volume root";
  volumes ← volume_mounts image_root (image_volume_targets image) (List.map snd FIXED_BINDS);
  mret (mounts ++ volumes).

Definition execution_bind_mounts (layout : ExecutionLayout) (credential : option string) :
    dio (list Mount) :=
  repository ← bind_mount (ExecutionLayout.repository layout) CONTAINER_WORKTREE;
  conversation ← bind_mount (ExecutionLayout.conversation layout) CONTAINER_SESSION;
  match credential with
  | None => mret [repository; conversation]
  | Some credential =>
      canonical ← fs_io (Docker.Canonicalize credential)
        (fun e => provisioning ("canonicalize execution credential: " +:+ e));
      credential_root ← fs_io (Docker.Canonicalize (ExecutionLayout.credentials layout))
        (fun e => provisioning ("canonicalize credential root: " +:+ e));
      let misplaced := resource_limit
        "credential is not an exact regular file under the execution credential root" in
      _ ← guard_or (match parent_path canonical with
                    | Some parent => path_eqb parent credential_root
                    | None => false
                    end) misplaced;
      metadata ← fs_io (Docker.SymlinkMetadata credential)
        (fun e => provisioning ("inspect execution credential: " +:+ e));
      _ ← guard_or (negb (FileMeta.is_symlink metadata)) misplaced;
      file ← ask (Docker.MetadataOf canonical);
      _ ← guard_or (match file with Ok m => Metadata.is_file m | Err _ => false end) misplaced;
      mount ← bind_mount canonical CONTAINER_CREDENTIAL;
      mret [repository; conversation; read_only mount]
  end.

(** ** What the daemon reports *)
Definition Bind : Type := (bool * list string) * string * bool. (* source, target, read only *)

Fixpoint requested_binds (mounts : list Mount) : dio (list Bind) :=
  match mounts with
  | [] => mret []
  | m :: mounts =>
      source ← some_or (Mount.source m) (resource_limit "requested bind lacks source");
      source ← fs_io (Docker.Canonicalize source)
        (fun e => resource_limit ("canonicalize requested bind: " +:+ e));
      target ← some_or (Mount.target m) (resource_limit "requested bind lacks target");
      _ ← guard_or (bool_decide (Mount.typ m = Some BIND)) (resource_limit "requested mount is not a bind");
      rest ← requested_binds mounts;
      mret ((components source, target, bool_decide (Mount.read_only m = Some true)) :: rest)
  end.

Definition plain_bind (m : MountPoint) : bool :=
  bool_decide (MountPoint.typ m = Some BIND) && bool_decide (MountPoint.name m = None) &&
  bool_decide (MountPoint.rw m <> None).

Fixpoint actual_binds (mounts : list MountPoint) : dio (list Bind) :=
  match mounts with
  | [] => mret []
  | m :: mounts =>
      _ ← guard_or (plain_bind m) (resource_limit "daemon reported an unexpected or anonymous mount");
      source ← some_or (MountPoint.source m) (resource_limit "actual bind lacks source");
      source ← fs_io (Docker.Canonicalize source)
        (fun e => resource_limit ("canonicalize actual bind: " +:+ e));
      target ← some_or (MountPoint.destination m) (resource_limit "actual bind lacks target");
      rest ← actual_binds mounts;
      mret ((components source, target, bool_decide (MountPoint.rw m = Some false)) :: rest)
  end.

(** Equality of the sets. *)
Definition same_binds (a b : list Bind) : bool :=
  forallb (fun x => bool_decide (x ∈ b)) a && forallb (fun x => bool_decide (x ∈ a)) b.

Definition validate_actual_mounts (requested : list Mount) (actual : list MountPoint) : dio unit :=
  requested ← requested_binds requested;
  actual ← actual_binds actual;
  guard_or (same_binds actual requested)
    (resource_limit "daemon mounts do not exactly match requested binds").
