(* ===== verification/DockerProvision.v ===== *)
(** * Provisioning an execution ([runtime-docker/src/provision.rs], [services.rs])

    Network, services, relay and agent of one execution, created with its
    ownership labels and started only once the daemon's report of their binds
    and a trusted container's look at them agree with the verified storage. *)

From Stdlib Require Import Ascii.
From S2P Require Import Prelude Core Lifecycle Database Effects StorageModel FileSystem BuildCache Docker DockerMounts.

















Module BuildCachePlan.
Record BuildCachePlan := { mount : Mount; source : string; max_gib : Z }.
End BuildCachePlan.
Abbreviation BuildCachePlan := BuildCachePlan.BuildCachePlan.

(** The derived order: by source, target and writability. *)
Definition bind_leb (a b : VerifiedBindMount) : bool :=
  if negb (path_eqb (VerifiedBindMount.source a) (VerifiedBindMount.source b))
  then path_leb (VerifiedBindMount.source a) (VerifiedBindMount.source b)
  else if negb (bool_decide (VerifiedBindMount.target a = VerifiedBindMount.target b))
  then bool_decide (String.le (VerifiedBindMount.target a) (VerifiedBindMount.target b))
  else implb (VerifiedBindMount.writable a) (VerifiedBindMount.writable b).
Definition bind_le (a b : VerifiedBindMount) : Prop := bind_leb a b = true.
#[export] Instance bind_le_dec : RelDecision bind_le.
Proof. intros a b. unfold bind_le. apply _. Defined.

Section Provision.
Context `{JsonText} (client_version : string).
(** SHA-256 of a text, and the text of a time. *)
Context (sha256 : string -> string) (to_rfc3339 : Timestamp -> string).
Context (runtime : DockerRuntime) (labels : OwnershipLabels) (requirement : RuntimeRequirement).

Abbreviation id := (OwnershipLabels.execution_id labels).
Abbreviation label_map := (OwnershipLabels.to_map labels).

Definition no_receipt : RuntimeError :=
  resource_limit "Docker provisioning requires an exact Ready allocation receipt".
Definition allocation_receipt : dio AllocationReceipt :=
  some_or (DockerRuntime.allocation runtime) no_receipt.
Definition trusted_image : dio TrustedVerifierImage :=
  some_or (DockerRuntime.trusted_verifier runtime)
    (resource_limit "Docker provisioning requires an immutable trusted verifier image").

(** ** The storage guard *)
Definition verify_mount_directory (verify : string -> docker_call (result StorageError unit)) (mount : Mount) :
    dio unit :=
  match Mount.source mount with
  | None => mret tt
  | Some source =>
      metadata ← fs_io (Docker.SymlinkMetadata source)
        (fun e => resource_limit ("inspect verified bind source: " +:+ e));
      if FileMeta.is_dir metadata then storage_io (verify source)
      else
        _ ← guard_or (negb (negb (bool_decide (Mount.target mount = Some CONTAINER_CREDENTIAL)) ||
                            FileMeta.is_symlink metadata || negb (FileMeta.is_file metadata)))
              (resource_limit "only the execution credential may be a file bind");
        parent ← some_or (parent_path source) (resource_limit "credential bind lacks a parent");
        storage_io (verify parent)
  end.

Definition verify_mount_directories (verify : string -> docker_call (result StorageError unit))
    (mounts : list Mount) : dio unit := each (verify_mount_directory verify) mounts.

Definition validate_storage_daemon : dio unit :=
  receipt ← allocation_receipt;
  let expected := DockerBindProof.daemon_id (AllocationReceipt.docker_bind receipt) in
  actual ← ask_or Docker.Info (fun e => RuntimeError.Unavailable ("inspect Docker daemon identity: " +:+ e));
  actual ← some_or actual (resource_limit "Docker daemon did not report an identity");
  guard_or (bool_decide (actual = expected))
    (resource_limit ("Docker daemon identity " +:+ actual +:+ " does not match the Ready storage proof")).

Definition validate_trusted_verifier_image (trusted : TrustedVerifierImage) (inspect : ImageInspect) :
    result RuntimeError unit :=
  _ ← check (bool_decide (ImageInspect.id inspect = Some (TrustedVerifierImage.image_id trusted)))
        (resource_limit "trusted verifier image identity drifted");
  check (bool_decide (default ∅ (ImageInspect.volumes inspect) = ∅))
    (resource_limit "trusted verifier image declares writable volumes").

Definition validate_trusted_verifier : dio unit :=
  trusted ← trusted_image;
  receipt ← allocation_receipt;
  _ ← guard_or (bool_decide (DockerBindProof.method_version (AllocationReceipt.docker_bind receipt) =
                             TrustedVerifierImage.proof_method trusted))
        (resource_limit "trusted verifier image does not match the allocation Docker proof method");
  inspect ← ask_or (Docker.InspectImage (TrustedVerifierImage.image_id trusted))
    (fun e => resource_limit ("inspect trusted verifier image: " +:+ DockerError.message e));
  ret_result (validate_trusted_verifier_image trusted inspect).

Definition matches_request (receipt : AllocationReceipt) : dio unit :=
  let mismatch := resource_limit "runtime request does not exactly match the Ready allocation" in
  _ ← guard_or (bool_decide (AllocationReceipt.labels receipt = labels)) mismatch;
  bytes ← ret_result (map_err storage_error (disk_gib_to_bytes (RuntimeRequirement.disk_gib requirement)));
  guard_or (AllocationReceipt.reserved_bytes receipt =? bytes) mismatch.

(** [ReadyStorageGuard::verify]. *)
Definition storage_verify (mounts : list Mount) : dio unit :=
  _ ← storage_io Docker.LeaseVerify;
  _ ← verify_mount_directories Docker.LeaseVerifyDirectory mounts;
  receipt ← allocation_receipt;
  _ ← matches_request receipt;
  _ ← guard_or (DockerRuntime.storage_verifier runtime)
        (resource_limit "Docker provisioning requires a live Ready execution-storage verifier");
  _ ← storage_io (Docker.VerifyReady receipt);
  _ ← storage_io Docker.FreshVerify;
  _ ← verify_mount_directories Docker.FreshVerifyDirectory mounts;
  _ ← validate_storage_daemon;
  validate_trusted_verifier.

Definition verified_execution_layout : dio ExecutionLayout :=
  _ ← guard_or (DockerRuntime.storage_verifier runtime)
        (resource_limit "Docker provisioning requires a live Ready execution-storage verifier");
  receipt ← allocation_receipt;
  _ ← matches_request receipt;
  _ ← storage_io (Docker.AcquireReadyLease receipt);
  _ ← storage_io Docker.LeaseVerify;
  layout ← ret_result (map_err storage_error (ExecutionLayout.new (DockerRuntime.state_root runtime) id));
  repository ← ask Docker.LeaseRepositoryPath;
  _ ← guard_or (path_eqb (ExecutionLayout.root layout) (AllocationReceipt.mount_path receipt) &&
                path_eqb repository (ExecutionLayout.repository layout))
        (resource_limit "verified storage paths do not match the exact execution layout");
  _ ← ensure_real_directory (ExecutionLayout.root layout) false "execution root";
  _ ← ensure_real_directory (ExecutionLayout.repository layout) false "execution repository";
  _ ← ensure_real_directory (ExecutionLayout.conversation layout) false "execution conversation";
  _ ← ensure_real_directory (ExecutionLayout.runtime layout) false "execution runtime";
  mret layout.

(** ** Images *)
Fixpoint pulled (image : string) (progress : list (result string unit)) : result RuntimeError unit :=
  match progress with
  | [] => Ok tt
  | Ok _ :: progress => pulled image progress
  | Err e :: _ => Err (provisioning ("pull image " +:+ image +:+ ": " +:+ e))
  end.

Definition ensure_image (image : string) : dio ImageInspect :=
  found ← ask (Docker.InspectImage image);
  match found with
  | Ok inspect => mret inspect
  | Err e =>
      if is_image_not_found e then
        _ ← storage_verify [];
        progress ← ask (Docker.PullImage image);
        _ ← ret_result (pulled image progress);
        ask_or (Docker.InspectImage image) (fun e =>
          provisioning ("image " +:+ image +:+ " unavailable after pull: " +:+ DockerError.message e))
      else throw (provisioning ("inspect image " +:+ image +:+ ": " +:+ DockerError.message e))
  end.

Fixpoint ensure_images (images : list string) : dio (list ImageInspect) :=
  match images with
  | [] => mret []
  | image :: images => inspect ← ensure_image image; inspects ← ensure_images images; mret (inspect :: inspects)
  end.

(** ** The build cache *)
Definition MAX_LOCKFILE_BYTES : Z := 16 * 1024 * 1024.

Definition read_lockfile (repository : string) : dio (option string) :=
  let path := join repository "Cargo.lock" in
  metadata ← ask (Docker.SymlinkMetadata path);
  match metadata with
  | Ok m =>
      if negb (FileMeta.is_file m) || FileMeta.is_symlink m || (MAX_LOCKFILE_BYTES <? FileMeta.len m)
      then mret None
      else bytes ← ask (Docker.ReadFile path);
           mret match bytes with Ok bytes => Some bytes | Err _ => None end
  | Err _ => mret None
  end.

Definition build_cache_key (image : string) (lockfile : option string) : string :=
  hex_component (sha256 (image +:+ match lockfile with
                                   | Some bytes => String "000" bytes
                                   | None => "" end)).

Definition write_owner_file_once (dir key : string) : dio unit :=
  let owner := join dir OWNER_FILE in
  now ← ask Docker.Now;
  let quote := String "034" "" in
  let body := ("{" +:+ quote +:+ "managed" +:+ quote +:+ ":true," +:+ quote +:+ "key" +:+ quote +:+ ":" +:+
               quote +:+ key +:+ quote +:+ "," +:+ quote +:+ "created_at" +:+ quote +:+ ":" +:+
               quote +:+ to_rfc3339 now +:+ quote +:+ "}" +:+ String "010" "")%string in
  suffix ← ask Docker.Staging;
  let staging := join dir (OWNER_FILE +:+ ".tmp-" +:+ suffix) in
  _ ← fs_io (Docker.WriteFile staging body)
        (fun e => provisioning ("write build cache owner file: " +:+ e));
  linked ← ask (Docker.HardLink staging owner);
  _ ← ask (Docker.RemoveFile staging);
  match linked with
  | Ok _ => mret tt
  | Err EXIST =>
      managed ← is_managed_build_cache_dir dir;
      valid ← (if (managed : bool) then
                 bytes ← of_proc (docker_read owner);
                 mret (bool_decide (
                   match (text ← bytes; value ← value_from_slice text; value_get "key" value) with
                   | Some value => value_as_str value
                   | None => None
                   end = Some key))
               else mret false);
      guard_or valid (provisioning ("build cache directory " +:+ dir +:+
                        " has a foreign or invalid owner file"))
  | Err e => throw (provisioning ("create build cache owner file: " +:+ errno_text e))
  end.

Definition build_cache_mount (root key : string) : dio Mount :=
  _ ← ret_result (validate_safe_component key "build cache key");
  _ ← fs_io (Docker.CreateDirAll root)
        (fun e => provisioning ("create build cache root " +:+ root +:+ ": " +:+ e));
  _ ← ensure_real_directory root false "build cache root";
  let sccache_root := join root "sccache" in
  _ ← ensure_real_directory sccache_root true "sccache root";
  let dir := join sccache_root key in
  _ ← ensure_real_directory dir true "sccache key directory";
  _ ← write_owner_file_once dir key;
  _ ← make_container_writable dir;
  bind_mount dir CONTAINER_BUILD_CACHE.

Definition mark_cache_in_use (dir : string) : dio unit :=
  _ ← ret_result (validate_safe_component id "execution id");
  let refs := join dir REFS_DIR in
  _ ← ensure_real_directory refs true "build cache refs directory";
  let marker := join refs id in
  now ← ask Docker.Now;
  _ ← fs_io (Docker.WriteFile marker (to_rfc3339 now))
        (fun e => provisioning ("write build cache ref " +:+ marker +:+ ": " +:+ e));
  managed ← is_managed_build_cache_dir dir;
  guard_or managed (provisioning "build cache directory vanished while being claimed; retry").

Definition plan_build_cache (image : string) (lockfile : option string) : dio (option BuildCachePlan) :=
  if negb (existsb (String.eqb BUILD_CACHE_CAPABILITY) (RuntimeRequirement.capabilities requirement))
  then mret None
  else
    config ← some_or (DockerRuntime.build_cache runtime)
      (provisioning ("capability " +:+ BUILD_CACHE_CAPABILITY +:+ " requires a configured build cache"));
    let key := build_cache_key image lockfile in
    mount ← build_cache_mount (BuildCacheConfig.root config) key;
    source ← fs_io (Docker.Canonicalize (default "" (Mount.source mount)))
      (fun e => provisioning ("canonicalize build cache: " +:+ e));
    _ ← mark_cache_in_use source;
    mret (Some {| BuildCachePlan.mount := mount; BuildCachePlan.source := source;
                  BuildCachePlan.max_gib := BuildCacheConfig.max_gib config |}).

(** ** Containers *)
Definition container_create_error (context error : string) (has_bounded_mounts : bool) : RuntimeError :=
  let lower := to_ascii_lowercase error in
  let message := context +:+ ": " +:+ error in
  if (has_bounded_mounts && (contains "tmpfs" lower || contains "mount" lower)) ||
     contains "quota" lower || contains "storage opt" lower
  then resource_limit message else provisioning message.

Definition safe_host (host : HostConfig) : bool :=
  bool_decide (HostConfig.readonly_rootfs host = Some true) &&
  bool_decide (match HostConfig.log_config host with Some t => t | None => None end = Some "none"%string) &&
  bool_decide (default ∅ (HostConfig.storage_opt host) = ∅) &&
  bool_decide (default ∅ (HostConfig.tmpfs host) = ∅) &&
  bool_decide (HostConfig.ipc_mode host = Some "none"%string) &&
  bool_decide (HostConfig.shm_size host = Some DEFAULT_SHM_SIZE).

(** One bind of the daemon's host configuration. *)
Definition verify_host_mount (container root : string) (root_device : Z) (external : option string)
    (mount : Mount) : dio unit :=
  _ ← guard_or (bool_decide (Mount.typ mount = Some BIND))
        (resource_limit ("container " +:+ container +:+ " has a non-bind mount"));
  let target := default ""%string (Mount.target mount) in
  _ ← guard_or (negb (bool_decide (target = "/var/run/docker.sock"%string) ||
                      bool_decide (target = "/run/docker.sock"%string)))
        (resource_limit "Docker socket mount is forbidden");
  source ← some_or (Mount.source mount)
    (resource_limit ("container " +:+ container +:+ " bind lacks source"));
  canonical ← fs_io (Docker.Canonicalize source) (fun e =>
    resource_limit ("canonicalize daemon bind source " +:+ source +:+ ": " +:+ e));
  if bool_decide (target = CONTAINER_BUILD_CACHE) &&
     match external with Some external => path_eqb external canonical | None => false end
  then
    managed ← is_managed_build_cache_dir canonical;
    guard_or managed (resource_limit "shared build cache lacks a managed owner file")
  else
    _ ← guard_or (path_starts_with canonical root)
          (resource_limit ("daemon bind source " +:+ canonical +:+ " escapes execution root " +:+ root));
    metadata ← fs_io (Docker.MetadataOf canonical)
      (fun e => resource_limit ("inspect bind source: " +:+ e));
    guard_or (Metadata.dev metadata =? root_device)
      (resource_limit ("daemon bind source " +:+ canonical +:+ " is on a different execution filesystem")).

Definition verify_container_mount_sources (container execution_root : string) (requested : list Mount)
    (external : option string) : dio unit :=
  root ← fs_io (Docker.Canonicalize execution_root)
    (fun e => resource_limit ("canonicalize execution root: " +:+ e));
  device ← fs_io (Docker.MetadataOf root) (fun e => resource_limit ("inspect execution root: " +:+ e));
  inspect ← ask_or (Docker.InspectContainer container)
    (fun e => provisioning ("inspect container " +:+ container +:+ ": " +:+ e));
  _ ← validate_actual_mounts requested (default [] (ContainerInspect.mounts inspect));
  host ← some_or (ContainerInspect.host_config inspect)
    (resource_limit ("container " +:+ container +:+ " lacks host configuration"));
  _ ← guard_or (safe_host host)
        (resource_limit ("container " +:+ container +:+
           " does not use readonly rootfs, log none, and bind-only storage"));
  mounts ← some_or (HostConfig.mounts host)
    (resource_limit ("container " +:+ container +:+ " has no writable bind mounts"));
  each (verify_host_mount container root (Metadata.dev device) external) mounts.

(** *** Services and the relay *)
Definition service_environment (service : ServiceRequirement) : list string :=
  List.map (fun kv : string * string => kv.1 +:+ "=" +:+ kv.2)
    (List.filter (fun kv : string * string =>
       negb (bool_decide (kv.1 = "HOME"%string)) && negb (bool_decide (kv.1 = "TMPDIR"%string)))
       (btree_entries (ServiceRequirement.env service))) ++
  ["HOME=/home/autospec"; "TMPDIR=/tmp"]%string.

Definition networking_config (network alias : string) : list (string * list string) :=
  [(network, [alias])].

Definition service_config (service : ServiceRequirement) (network : string) (mounts : list Mount) : Config :=
  {| Config.image := Some (ServiceRequirement.image service); Config.entrypoint := None;
     Config.cmd := None; Config.user := None; Config.env := Some (service_environment service);
     Config.labels := label_map;
     Config.host_config := HostConfig.attached (Some network) (Some mounts)
       (harden_service (host_limits requirement) (DockerRuntime.hardening runtime));
     Config.networks := networking_config network (ServiceRequirement.name service);
     Config.network_disabled := false |}.

Fixpoint create_services (services : list (ServiceRequirement * list Mount)) (network root : string)
    (all_mounts : list Mount) : dio (list string) :=
  match services with
  | [] => mret []
  | (service, mounts) :: services =>
      let name := service_container_name id (ServiceRequirement.name service) in
      _ ← storage_verify all_mounts;
      _ ← ask_or (Docker.CreateContainer name (service_config service network mounts))
            (fun e => container_create_error ("create service container " +:+ name) e true);
      _ ← storage_verify all_mounts;
      _ ← verify_container_mount_sources name root mounts None;
      names ← create_services services network root all_mounts;
      mret (name :: names)
  end.

Definition DEFAULT_BRIDGE : string := "bridge".

Definition relay_config (network : string) (relay : InferenceRelay) : Config :=
  {| Config.image := Some (InferenceRelay.image relay); Config.entrypoint := None;
     Config.cmd := Some [show_Z (InferenceRelay.listen_port relay); InferenceRelay.upstream relay];
     Config.user := None; Config.env := Some ["HOME=/tmp"; "TMPDIR=/tmp"]%string;
     Config.labels := label_map;
     Config.host_config := HostConfig.attached (Some network) None
       (drop_all_capabilities (harden_service (host_limits requirement) (DockerRuntime.hardening runtime)));
     Config.networks := networking_config network INFERENCE_RELAY_ALIAS;
     Config.network_disabled := false |}.

Definition create_relay (network : string) (relay : InferenceRelay) : dio string :=
  let name := relay_container_name id in
  _ ← ask_or (Docker.CreateContainer name (relay_config network relay))
        (fun e => container_create_error ("create relay container " +:+ name) e false);
  _ ← ask_or (Docker.ConnectNetwork DEFAULT_BRIDGE name)
        (fun e => provisioning ("attach relay " +:+ name +:+ " to the default bridge: " +:+ e));
  mret name.

Definition start_relay (name : string) : dio unit :=
  ask_or (Docker.StartContainer name) (fun e => provisioning ("start relay " +:+ name +:+ ": " +:+ e)).

Fixpoint start_services (containers : list string) (all_mounts : list Mount) : dio unit :=
  match containers with
  | [] => mret tt
  | name :: containers =>
      _ ← storage_verify all_mounts;
      _ ← ask_or (Docker.StartContainer name)
            (fun e => provisioning ("start service container " +:+ name +:+ ": " +:+ e));
      start_services containers all_mounts
  end.

(** ** The trusted verifier *)
Definition exact_trusted_verifier_id (containers : list ContainerSummary) (expected_id : string) :
    result RuntimeError string :=
  container ← ok_or (List.find (fun c => bool_decide (ContainerSummary.id c = Some expected_id)) containers)
    (resource_limit "captured trusted verifier container ID disappeared or was replaced");
  actual ← ok_or (ContainerSummary.labels container)
    (resource_limit "captured trusted verifier container lacks ownership labels");
  let ownership := filter (fun kv : string * string => starts_with "autospec." kv.1 = true) actual in
  _ ← check (bool_decide (ownership = label_map))
        (resource_limit "captured trusted verifier container labels changed");
  Ok expected_id.

Definition remove_exact_trusted_verifier (expected_id : string) : dio unit :=
  containers ← ask_or (Docker.ListContainers (OwnershipLabels.selector labels))
    (fun e => resource_limit ("list exact trusted verifier: " +:+ e));
  id ← ret_result (exact_trusted_verifier_id containers expected_id);
  ask_or (Docker.RemoveContainer id false)
    (fun e => resource_limit ("remove exact trusted verifier " +:+ id +:+ ": " +:+ e)).

(** The canonical sources of the workload's binds, as a sorted set. *)
Fixpoint proof_sources (mounts : list Mount) : dio (list string) :=
  match mounts with
  | [] => mret []
  | mount :: mounts =>
      match Mount.source mount with
      | Some source =>
          if bool_decide (Mount.target mount = Some CONTAINER_CREDENTIAL) then proof_sources mounts
          else
            canonical ← fs_io (Docker.Canonicalize source)
              (fun e => resource_limit ("canonicalize proof bind: " +:+ e));
            rest ← proof_sources mounts;
            mret (canonical :: rest)
      | None => proof_sources mounts
      end
  end.

Definition verifier_sources (canonical_root : string) (workload_mounts : list Mount) : dio (list string) :=
  sources ← proof_sources workload_mounts;
  let sources := merge_sort path_le (remove_dups sources) in
  _ ← guard_or (negb (bool_decide (sources = []) ||
                      existsb (fun source => negb (path_starts_with source canonical_root)) sources))
        (resource_limit "trusted verifier sources escaped or omitted execution storage");
  mret sources.

Definition proof_target (index : nat) : string := "/autospec-proof/" +:+ show_Z (Z.of_nat index).

Fixpoint proof_mounts (index : nat) (sources : list string) : dio (list Mount) :=
  match sources with
  | [] => mret []
  | source :: sources =>
      mount ← bind_mount source (proof_target index);
      rest ← proof_mounts (S index) sources;
      mret (read_only mount :: rest)
  end.

Definition verifier_limits : HostConfig :=
  HostConfig.attached (Some "none"%string) None (drop_all_capabilities (host_limits requirement)).

Definition verifier_config (trusted : TrustedVerifierImage) (mounts : list Mount) (sources : nat) : Config :=
  {| Config.image := Some (TrustedVerifierImage.image_id trusted);
     Config.entrypoint := Some [TrustedVerifierImage.stat_command trusted];
     Config.cmd := Some (["-c"; "%d:%i"]%string ++ List.map proof_target (seq 0 sources));
     Config.user := None; Config.env := None; Config.labels := label_map;
     Config.host_config := HostConfig.attached (HostConfig.network_mode verifier_limits) (Some mounts)
       verifier_limits;
     Config.networks := []; Config.network_disabled := true |}.

Fixpoint collect_output (output : list (result string LogOutput)) (stdout stderr : string) :
    result RuntimeError (string * string) :=
  match output with
  | [] => Ok (stdout, stderr)
  | Err e :: _ => Err (resource_limit ("read trusted mount verifier: " +:+ e))
  | Ok (StdOut m) :: output | Ok (Console m) :: output => collect_output output (stdout +:+ m) stderr
  | Ok (StdErr m) :: output => collect_output output stdout (stderr +:+ m)
  | Ok (StdIn _) :: output => collect_output output stdout stderr
  end.

Definition device_of (identity : string) : string := default ""%string (head (split ":"%char identity)).

Definition check_identities (stdout : string) (sources : nat) (filesystem_id : string) :
    result RuntimeError unit :=
  text ← ok_or (from_utf8 stdout) (resource_limit "trusted verifier output is not UTF-8");
  let identities := List.filter (fun line => negb (str_is_empty line)) (List.map trim (lines text)) in
  _ ← check (bool_decide (length identities = sources))
        (resource_limit "trusted verifier did not return one identity per bind source");
  check (forallb (fun identity => bool_decide (device_of identity = device_of filesystem_id)) identities)
    (resource_limit "trusted verifier found a bind source on another filesystem").

(** What happens between the creation of the verifier and its removal. *)
Definition run_verifier (verifier_id execution_root : string) (mounts workload_mounts : list Mount)
    (sources : nat) : dio unit :=
  _ ← verify_container_mount_sources verifier_id execution_root mounts None;
  _ ← ask_or (Docker.AttachContainer verifier_id)
        (fun e => resource_limit ("attach trusted mount verifier: " +:+ e));
  _ ← storage_verify workload_mounts;
  _ ← ask_or (Docker.StartContainer verifier_id)
        (fun e => resource_limit ("start trusted mount verifier: " +:+ e));
  output ← ask (Docker.ReadOutput verifier_id);
  collected ← ret_result (collect_output output "" "");
  inspect ← ask_or (Docker.InspectContainer verifier_id)
    (fun e => resource_limit ("inspect trusted mount verifier: " +:+ e));
  _ ← guard_or (bool_decide (ContainerInspect.exit_code inspect = Some 0))
        (resource_limit ("trusted mount verifier failed: " +:+ trim collected.2));
  receipt ← some_or (DockerRuntime.allocation runtime)
    (resource_limit "trusted verifier requires a Ready allocation receipt");
  ret_result (check_identities collected.1 sources
    (DockerBindProof.filesystem_id (AllocationReceipt.docker_bind receipt))).

Definition outcome_text (r : result RuntimeError unit) : string :=
  match r with Ok _ => "ok" | Err e => RuntimeError.to_string e end.

Definition verify_with_trusted_container (execution_root : string) (workload_mounts : list Mount) : dio unit :=
  trusted ← trusted_image;
  canonical_root ← fs_io (Docker.Canonicalize execution_root)
    (fun e => resource_limit ("canonicalize execution root: " +:+ e));
  sources ← verifier_sources canonical_root workload_mounts;
  mounts ← proof_mounts 0 sources;
  _ ← storage_verify workload_mounts;
  verifier_id ← ask_or (Docker.CreateContainer ("autospec-" +:+ id +:+ "-mount-verifier")
                          (verifier_config trusted mounts (length sources)))
    (fun e => resource_limit ("create trusted mount verifier: " +:+ e));
  verification ← outcome_of (run_verifier verifier_id execution_root mounts workload_mounts (length sources));
  ready ← outcome_of (storage_verify workload_mounts);
  removal ← outcome_of (remove_exact_trusted_verifier verifier_id);
  guard_or (is_ok verification && is_ok ready && is_ok removal)
    (resource_limit ("trusted mount verification failed: " +:+ outcome_text verification +:+
       "; readiness before cleanup: " +:+ outcome_text ready +:+ "; cleanup: " +:+ outcome_text removal)).

(** ** The agent *)
Definition agent_env (cache_max_gib relay_port : option Z) : list string :=
  ["HOME=/home/autospec"%string; "TMPDIR=/tmp"%string; "CARGO_TARGET_DIR=" +:+ CONTAINER_CARGO_TARGET;
   "INFERWEAVE_CREDENTIAL_FILE=" +:+ CONTAINER_CREDENTIAL] ++
  match relay_port with
  | Some port => ["INFERWEAVE_RELAY_URL=http://" +:+ INFERENCE_RELAY_ALIAS +:+ ":" +:+ show_Z port]
  | None => []
  end ++
  match cache_max_gib with
  | Some max_gib => ["SCCACHE_DIR=" +:+ CONTAINER_BUILD_CACHE;
                     "SCCACHE_CACHE_SIZE=" +:+ show_Z max_gib +:+ "G"; "RUSTC_WRAPPER=sccache"%string]
  | None => []
  end.

Definition agent_config (image network : string) (mounts : list Mount) (cache_max_gib : option Z) : Config :=
  {| Config.image := Some image; Config.entrypoint := None;
     Config.cmd := Some ["sleep"; "infinity"]%string;
     Config.user := Some (DockerRuntime.agent_user runtime);
     Config.env := Some (agent_env cache_max_gib
       (InferenceRelay.listen_port <$> DockerRuntime.inference_relay runtime));
     Config.labels := label_map;
     Config.host_config := HostConfig.attached (Some network) (Some mounts)
       (harden_agent (host_limits requirement) (DockerRuntime.hardening runtime)
          (DockerRuntime.agent_user runtime));
     Config.networks := networking_config network "agent"; Config.network_disabled := false |}.

Definition PROBE : list string :=
  ["test"; "-d"; CONTAINER_WORKTREE; "-a"; "-w"; CONTAINER_WORKTREE; "-a"; "-x"; CONTAINER_WORKTREE;
   "-a"; "-w"; CONTAINER_SESSION; "-a"; "-x"; CONTAINER_SESSION]%string.

Fixpoint drained (items : list (result string unit)) (f : string -> RuntimeError) : result RuntimeError unit :=
  match items with
  | [] => Ok tt
  | Ok _ :: items => drained items f
  | Err e :: _ => Err (f e)
  end.

(** An await inside the timeout, which may have passed. *)
Definition in_time (timed_out : RuntimeError) : dio unit :=
  elapsed ← ask Docker.Elapsed;
  guard_or (negb elapsed) timed_out.

Definition probe_agent_user_can_use_its_mounts (container_id : string) : dio unit :=
  let fail detail := resource_limit ("agent user " +:+ DockerRuntime.agent_user runtime +:+
    " cannot use its worktree and conversation mounts: " +:+ detail) in
  exec ← ask_or (Docker.CreateExec container_id PROBE) (fun e => fail ("create probe: " +:+ e)%string);
  _ ← in_time (fail "probe timed out"%string);
  started ← ask_or (Docker.StartExec exec) (fun e => fail ("start probe: " +:+ e)%string);
  _ ← match started with
      | Some output => ret_result (drained output (fun e => fail ("read probe: " +:+ e)%string))
      | None => mret tt
      end;
  _ ← in_time (fail "probe timed out"%string);
  code ← ask_or (Docker.InspectExec exec) (fun e => fail ("inspect probe: " +:+ e)%string);
  guard_or (bool_decide (code = Some 0))
    (fail ("probe exited with " +:+ match code with
             | Some code => "Some(" +:+ show_Z code +:+ ")" | None => "None" end +:+
           "; the mounts are owner-only on the host, so the agent uid must be the uid the daemon maps to the worker's owner")%string).

Definition exposed : RuntimeError :=
  resource_limit "agent capability exposes private session state or the Docker socket".

Fixpoint verified_binds (session_root conversation : string) (mounts : list MountPoint) :
    dio (list VerifiedBindMount) :=
  match mounts with
  | [] => mret []
  | mount :: mounts =>
      _ ← guard_or (plain_bind mount) (resource_limit "agent capability contains a non-bind or ambiguous mount");
      source ← some_or (MountPoint.source mount) (resource_limit "agent bind lacks source");
      source ← fs_io (Docker.Canonicalize source)
        (fun e => resource_limit ("canonicalize agent bind: " +:+ e));
      target ← some_or (MountPoint.destination mount) (resource_limit "agent bind lacks destination");
      _ ← guard_or (negb ((path_starts_with source session_root && negb (path_eqb source conversation)) ||
                          bool_decide (target = "/var/run/docker.sock"%string) ||
                          path_eqb source "/var/run/docker.sock")) exposed;
      rest ← verified_binds session_root conversation mounts;
      mret ({| VerifiedBindMount.source := source; VerifiedBindMount.target := target;
               VerifiedBindMount.writable := bool_decide (MountPoint.rw mount = Some true) |} :: rest)
  end.

Definition issue_agent_container_capability (container_id : string) (layout : ExecutionLayout)
    (requested_mounts : list Mount) : dio VerifiedAgentContainer :=
  inspect ← ask_or (Docker.InspectContainer container_id)
    (fun e => provisioning ("inspect started agent container " +:+ container_id +:+ ": " +:+ e));
  _ ← guard_or (bool_decide (ContainerInspect.id inspect = Some container_id) &&
                bool_decide (ContainerInspect.running inspect = Some true))
        (resource_limit "agent container identity or running state changed before capability issue");
  _ ← guard_or (bool_decide (default ∅ (ContainerInspect.labels inspect) = label_map))
        (resource_limit "agent container ownership labels differ from the exact execution");
  let actual_mounts := default [] (ContainerInspect.mounts inspect) in
  _ ← validate_actual_mounts requested_mounts actual_mounts;
  session_root ← fs_io (Docker.Canonicalize (ExecutionLayout.session layout))
    (fun e => resource_limit ("canonicalize private session root: " +:+ e));
  conversation ← fs_io (Docker.Canonicalize (ExecutionLayout.conversation layout))
    (fun e => resource_limit ("canonicalize conversation root: " +:+ e));
  mounts ← verified_binds session_root conversation actual_mounts;
  daemon_id ← ask_or Docker.Info (fun e => RuntimeError.Unavailable ("inspect Docker daemon: " +:+ e));
  daemon_id ← some_or daemon_id (resource_limit "Docker daemon lacks identity");
  receipt ← some_or (DockerRuntime.allocation runtime) (resource_limit "allocation receipt is missing");
  _ ← guard_or (bool_decide (daemon_id = DockerBindProof.daemon_id (AllocationReceipt.docker_bind receipt)))
        (resource_limit "agent capability daemon differs from the storage proof");
  mret {| VerifiedAgentContainer.container_id := container_id; VerifiedAgentContainer.daemon_id := daemon_id;
          VerifiedAgentContainer.labels := labels;
          VerifiedAgentContainer.mounts := merge_sort bind_le mounts |}.
End Provision.
