(* ===== verification/DockerCleanup.v ===== *)
(** * Removing what an execution owns, and provisioning as a whole

    [runtime-docker/src/cleanup.rs] and [Runtime for DockerRuntime] of
    [runtime-docker/src/provision.rs].  Destruction selects on the ownership
    labels and removes what the daemon lists; reconciliation reports the
    executions whose resources are still there; the collector of the build cache
    removes directories that are marked as ours and that no live or recent
    execution refers to.  What [provision_inner] creates is destroyed again when
    it fails. *)

From Stdlib Require Import Ascii.
From S2P Require Import Prelude Core Database Lifecycle Effects StorageModel FileSystem BuildCache Docker DockerMounts DockerProvision.






(** ** [destroy] *)

(** One removal: its failure is recorded and the others go on. *)
Definition noting (c : docker_call (result string unit)) (what : string) : dio (list string) :=
  r ← ask c;
  mret match r with Ok _ => [] | Err e => [what +:+ ": " +:+ e] end.

Fixpoint remove_all {A} (remove : A -> dio (list string)) (items : list A) : dio (list string) :=
  match items with
  | [] => mret []
  | item :: items => e ← remove item; es ← remove_all remove items; mret (e ++ es)
  end.

Definition when_some {A} (f : A -> dio (list string)) (o : option A) : dio (list string) :=
  match o with Some a => f a | None => mret [] end.

Definition destroy_containers (selector : list string) : dio (list string) :=
  listed ← ask (Docker.ListContainers selector);
  match listed with
  | Ok containers =>
      remove_all (fun c => when_some (fun id =>
        noting (Docker.RemoveContainer id true) ("remove owned container " +:+ id))
        (ContainerSummary.id c)) containers
  | Err e => mret ["list owned containers: " +:+ e]
  end.

Definition destroy_volumes (selector : list string) : dio (list string) :=
  listed ← ask (Docker.ListVolumes selector);
  match listed with
  | Ok volumes =>
      remove_all (fun v : string * gmap string string =>
        noting (Docker.RemoveVolume v.1) ("remove owned volume " +:+ v.1)) (default [] volumes)
  | Err e => mret ["list owned volumes: " +:+ e]
  end.

Definition destroy_networks (selector : list string) : dio (list string) :=
  listed ← ask (Docker.ListNetworks selector);
  match listed with
  | Ok networks =>
      remove_all (fun n : option string * option (gmap string string) => when_some (fun id =>
        noting (Docker.RemoveNetwork id) ("remove owned network " +:+ id)) n.1) networks
  | Err e => mret ["list owned networks: " +:+ e]
  end.

Section Cleanup.
Context (client_version : string) (runtime : DockerRuntime).

Definition destroy (labels : OwnershipLabels) : dio unit :=
  _ ← require_compatible_daemon client_version runtime;
  _ ← require_cleanup_authority runtime labels;
  let selector := OwnershipLabels.selector labels in
  containers ← destroy_containers selector;
  volumes ← destroy_volumes selector;
  networks ← destroy_networks selector;
  let errors := containers ++ volumes ++ networks in
  guard_or (bool_decide (errors = []))
    (RuntimeError.Cleanup ("execution_id=" +:+ OwnershipLabels.execution_id labels +:+ ": " +:+
       String.concat "; " errors)).

(** ** [reconcile] *)
Definition MANAGED_SELECTOR : list string := [MANAGED +:+ "=true"]%string.

Definition collect_orphan (resource_labels : gmap string string) (live orphans : gset ExecutionId) :
    gset ExecutionId :=
  let complete := bool_decide (resource_labels !! MANAGED = Some "true"%string) &&
    bool_decide (is_Some (resource_labels !! WORKER_ID)) &&
    bool_decide (is_Some (resource_labels !! REPOSITORY)) in
  if complete then
    match resource_labels !! EXECUTION_ID with
    | Some execution_id =>
        if bool_decide (execution_id ∈ live) then orphans else {[ execution_id ]} ∪ orphans
    | None => orphans
    end
  else orphans.

Definition collect_orphans (live : gset ExecutionId) (resources : list (gmap string string))
    (orphans : gset ExecutionId) : gset ExecutionId :=
  List.fold_left (fun orphans labels => collect_orphan labels live orphans) resources orphans.

Definition list_failed (what : string) (e : string) : RuntimeError :=
  RuntimeError.Cleanup ("list managed " +:+ what +:+ ": " +:+ e).

Definition reconcile (live : list ExecutionId) : dio (list ExecutionId) :=
  _ ← require_compatible_daemon client_version runtime;
  let live := list_to_set live in
  containers ← ask_or (Docker.ListContainers MANAGED_SELECTOR) (list_failed "containers");
  let orphans := collect_orphans live (omap ContainerSummary.labels containers) ∅ in
  networks ← ask_or (Docker.ListNetworks MANAGED_SELECTOR) (list_failed "networks");
  let orphans := collect_orphans live (omap snd networks) orphans in
  volumes ← ask_or (Docker.ListVolumes MANAGED_SELECTOR) (list_failed "volumes");
  let orphans := collect_orphans live (List.map snd (default [] volumes)) orphans in
  mret (merge_sort String.le (elements orphans)).

Definition live_execution_ids : dio (gset ExecutionId) :=
  _ ← require_compatible_daemon client_version runtime;
  containers ← ask_or (Docker.ListContainers MANAGED_SELECTOR) (list_failed "containers");
  mret (list_to_set (omap (fun labels : gmap string string => labels !! EXECUTION_ID)
                       (omap ContainerSummary.labels containers))).
End Cleanup.

(** ** The collector of the build cache *)
Module CacheEntry.
Record CacheEntry := {
  key : string;
  bytes : Z;                          (* u64 *)
  last_used : Timestamp;
  refs : list ExecutionId
}.
Definition add_ref (id : ExecutionId) (e : CacheEntry) : CacheEntry :=
  {| key := key e; bytes := bytes e; last_used := last_used e; refs := refs e ++ [id] |}.
End CacheEntry.
Abbreviation CacheEntry := CacheEntry.CacheEntry.

Module GcReport.
Record GcReport := {
  evicted : list string;
  freed_bytes : Z;                    (* u64 *)
  kept_live : list string;
  foreign : list string;
  pruned_refs : Z;                    (* usize *)
  total_bytes_after : Z               (* u64 *)
}.
Definition default : GcReport :=
  {| evicted := []; freed_bytes := 0; kept_live := []; foreign := []; pruned_refs := 0;
     total_bytes_after := 0 |}.
Definition add_foreign (name : string) (r : GcReport) : GcReport :=
  {| evicted := evicted r; freed_bytes := freed_bytes r; kept_live := kept_live r;
     foreign := foreign r ++ [name]; pruned_refs := pruned_refs r; total_bytes_after := total_bytes_after r |}.
Definition set_total (total : Z) (r : GcReport) : GcReport :=
  {| evicted := evicted r; freed_bytes := freed_bytes r; kept_live := kept_live r;
     foreign := foreign r; pruned_refs := pruned_refs r; total_bytes_after := total |}.
Definition add_kept (name : string) (r : GcReport) : GcReport :=
  {| evicted := evicted r; freed_bytes := freed_bytes r; kept_live := kept_live r ++ [name];
     foreign := foreign r; pruned_refs := pruned_refs r; total_bytes_after := total_bytes_after r |}.
Definition add_evicted (name : string) (bytes : Z) (r : GcReport) : GcReport :=
  {| evicted := evicted r ++ [name]; freed_bytes := freed_bytes r + bytes; kept_live := kept_live r;
     foreign := foreign r; pruned_refs := pruned_refs r;
     total_bytes_after := saturating_sub (total_bytes_after r) bytes |}.
Definition add_pruned (n : Z) (r : GcReport) : GcReport :=
  {| evicted := evicted r; freed_bytes := freed_bytes r; kept_live := kept_live r;
     foreign := foreign r; pruned_refs := pruned_refs r + n; total_bytes_after := total_bytes_after r |}.
Definition sorted (r : GcReport) : GcReport :=
  {| evicted := evicted r; freed_bytes := freed_bytes r;
     kept_live := remove_dups (merge_sort String.le (kept_live r)); foreign := foreign r;
     pruned_refs := pruned_refs r; total_bytes_after := total_bytes_after r |}.
End GcReport.
Abbreviation GcReport := GcReport.GcReport.

(** Oldest first, by key among the equally old. *)
Definition older (a b : CacheEntry) : Prop :=
  CacheEntry.last_used a < CacheEntry.last_used b \/
  (CacheEntry.last_used a = CacheEntry.last_used b /\ String.le (CacheEntry.key a) (CacheEntry.key b)).
#[export] Instance older_dec : RelDecision older.
Proof. intros a b. unfold older. apply _. Defined.

Definition referenced (live : gset ExecutionId) (entry : CacheEntry) : bool :=
  existsb (fun id => bool_decide (id ∈ live)) (CacheEntry.refs entry).

Fixpoint evict_until (total budget : Z) (live : gset ExecutionId) (by_age : list CacheEntry) : list string :=
  match by_age with
  | [] => []
  | entry :: by_age =>
      if total <=? budget then []
      else if referenced live entry then evict_until total budget live by_age
      else CacheEntry.key entry ::
           evict_until (saturating_sub total (CacheEntry.bytes entry)) budget live by_age
  end.

Definition select_evictions (entries : list CacheEntry) (budget : Z) (live : gset ExecutionId) : list string :=
  evict_until (sum_Z CacheEntry.bytes entries) budget live (merge_sort older entries).

Definition is_real_dir (path : string) : dio bool :=
  metadata ← ask (Docker.SymlinkMetadata path);
  mret match metadata with Ok m => FileMeta.is_dir m && negb (FileMeta.is_symlink m) | Err _ => false end.

(** Entries of a directory that could be read ([flatten]). *)
Definition readable (items : list (result Errno string)) : list string :=
  omap (fun r => match r with Ok name => Some name | Err _ => None end) items.

Definition saturating_add_u64 (a b : Z) : Z := Z.min (a + b) u64_max.

(** [measure]: the stack of directories still to visit; at most [fuel] of them. *)
Fixpoint measure_entries (dir : string) (names : list string) (bytes : Z) (newest : Timestamp)
    (stack : list string) : dio (Z * Timestamp * list string) :=
  match names with
  | [] => mret (bytes, newest, stack)
  | name :: names =>
      metadata ← ask (Docker.SymlinkMetadata (join dir name));
      match metadata with
      | Err _ => measure_entries dir names bytes newest stack
      | Ok m =>
          let newest := match FileMeta.modified m with Some t => Z.max newest t | None => newest end in
          if FileMeta.is_dir m && negb (FileMeta.is_symlink m)
          then measure_entries dir names bytes newest (join dir name :: stack)
          else measure_entries dir names (saturating_add_u64 bytes (FileMeta.len m)) newest stack
      end
  end.

Fixpoint measure_stack (fuel : nat) (stack : list string) (bytes : Z) (newest : Timestamp) :
    dio (Z * Timestamp) :=
  match fuel, stack with
  | O, _ | _, [] => mret (bytes, newest)
  | S fuel, current :: stack =>
      items ← ask (Docker.ReadDir current);
      match items with
      | Err _ => measure_stack fuel stack bytes newest
      | Ok items =>
          r ← measure_entries current (readable items) bytes newest stack;
          let '(bytes, newest, stack) := r in measure_stack fuel stack bytes newest
      end
  end.

Definition UNIX_EPOCH : Timestamp := 0.

Definition measure (fuel : nat) (dir : string) : dio (Z * Timestamp) :=
  r ← measure_stack fuel [dir] 0 UNIX_EPOCH;
  metadata ← ask (Docker.SymlinkMetadata dir);
  mret match metadata with
       | Ok m => match FileMeta.modified m with Some t => (r.1, Z.max r.2 t) | None => r end
       | Err _ => r
       end.

Fixpoint read_ref_files (refs : string) (names : list string) : dio (list (ExecutionId * Timestamp)) :=
  match names with
  | [] => mret []
  | name :: names =>
      match from_utf8 name with
      | None => read_ref_files refs names
      | Some name =>
          metadata ← ask (Docker.SymlinkMetadata (join refs name));
          rest ← read_ref_files refs names;
          mret match metadata with
               | Ok m => if negb (FileMeta.is_file m) || FileMeta.is_symlink m || str_is_empty name then rest
                         else match FileMeta.modified m with Some t => (name, t) :: rest | None => rest end
               | Err _ => rest
               end
      end
  end.

Definition read_refs (dir : string) : dio (list (ExecutionId * Timestamp)) :=
  let refs := join dir REFS_DIR in
  real ← is_real_dir refs;
  if negb real then mret []
  else
    items ← ask (Docker.ReadDir refs);
    match items with
    | Err _ => mret []
    | Ok items => read_ref_files refs (readable items)
    end.

(** Not older than the grace period, or from the future. *)
Definition fresh (now grace modified : Z) : bool := (now <? modified) || (now - modified <? grace).

Fixpoint prune_refs (dir : string) (live : gset ExecutionId) (now grace : Z)
    (refs : list (ExecutionId * Timestamp)) (removed : Z) : dio Z :=
  match refs with
  | [] => mret removed
  | (id, modified) :: refs =>
      if negb (bool_decide (id ∈ live)) && negb (fresh now grace modified) then
        r ← ask (Docker.RemoveFile (join (join dir REFS_DIR) id));
        prune_refs dir live now grace refs (if is_ok r then removed + 1 else removed)
      else prune_refs dir live now grace refs removed
  end.

Definition prune_dead_refs (dir : string) (live : gset ExecutionId) (now grace : Z) : dio Z :=
  refs ← read_refs dir;
  prune_refs dir live now grace refs 0.

Section Collector.
(** [lossy]: [to_string_lossy] of a name that is not UTF-8. *)
Context `{JsonText} (lossy : string -> string) (fuel : nat) (live : gset ExecutionId) (now grace budget : Z).

(** The scan: the managed directories, which of them are protected, and the
    report with what is foreign. *)
Fixpoint scan (sccache : string) (items : list (result Errno string)) (entries : list CacheEntry)
    (protected : gset string) (report : GcReport) : dio (list CacheEntry * gset string * GcReport) :=
  match items with
  | [] => mret (entries, protected, report)
  | Err e :: _ => throw (RuntimeError.Cleanup ("read build cache entry: " +:+ errno_text e))
  | Ok file_name :: items =>
      let name := default (lossy file_name) (from_utf8 file_name) in
      let path := join sccache file_name in
      real ← is_real_dir path;
      managed ← (if (real : bool) then is_managed_build_cache_dir path else mret false);
      if negb managed
      then scan sccache items entries protected (GcReport.add_foreign name report)
      else
        measured ← measure fuel path;
        refs ← read_refs path;
        let protected := if existsb (fun r : ExecutionId * Timestamp => fresh now grace r.2) refs
                         then {[ name ]} ∪ protected else protected in
        let entry := {| CacheEntry.key := name; CacheEntry.bytes := measured.1;
                        CacheEntry.last_used := measured.2; CacheEntry.refs := List.map fst refs |} in
        scan sccache items (entries ++ [entry]) protected report
  end.

Definition PLACEHOLDER : ExecutionId := "autospec-gc-grace".

Definition bytes_of_key (entries : list CacheEntry) (key : string) : Z :=
  match List.find (fun e => bool_decide (CacheEntry.key e = key)) entries with
  | Some e => CacheEntry.bytes e
  | None => 0
  end.

Fixpoint evict (sccache : string) (entries : list CacheEntry) (keys : list string) (report : GcReport) :
    dio GcReport :=
  match keys with
  | [] => mret report
  | key :: keys =>
      let dir := join sccache key in
      real ← is_real_dir dir;
      managed ← (if (real : bool) then is_managed_build_cache_dir dir else mret false);
      if negb managed then evict sccache entries keys (GcReport.add_foreign key report)
      else
        refs ← read_refs dir;
        if existsb (fun r : ExecutionId * Timestamp => bool_decide (r.1 ∈ live) || fresh now grace r.2) refs
        then evict sccache entries keys (GcReport.add_kept key report)
        else
          removed ← ask (Docker.RemoveDirAll dir);
          match removed with
          | Ok _ => evict sccache entries keys (GcReport.add_evicted key (bytes_of_key entries key) report)
          | Err e => throw (RuntimeError.Cleanup ("evict build cache " +:+ dir +:+ ": " +:+ errno_text e))
          end
  end.

Fixpoint finish (sccache : string) (protected : gset string) (entries : list CacheEntry) (report : GcReport) :
    dio GcReport :=
  match entries with
  | [] => mret (GcReport.sorted report)
  | entry :: entries =>
      let key := CacheEntry.key entry in
      if existsb (String.eqb key) (GcReport.evicted report) then finish sccache protected entries report
      else
        let report := if referenced live entry || bool_decide (key ∈ protected)
                      then GcReport.add_kept key report else report in
        pruned ← prune_dead_refs (join sccache key) live now grace;
        finish sccache protected entries (GcReport.add_pruned pruned report)
  end.

Definition collect_build_cache (root : string) : dio GcReport :=
  let sccache := join root "sccache" in
  real_root ← is_real_dir root;
  real ← (if (real_root : bool) then is_real_dir sccache else mret false);
  if negb real then mret GcReport.default
  else
    items ← fs_io (Docker.ReadDir sccache)
      (fun e => RuntimeError.Cleanup ("read build cache " +:+ sccache +:+ ": " +:+ e));
    scanned ← scan sccache items [] ∅ GcReport.default;
    let '(entries, protected, report) := scanned in
    let entries := List.map (fun e => if bool_decide (CacheEntry.key e ∈ protected)
                                      then CacheEntry.add_ref PLACEHOLDER e else e) entries in
    let report := GcReport.set_total (sum_Z CacheEntry.bytes entries) report in
    report ← evict sccache entries
      (select_evictions entries budget ({[ PLACEHOLDER ]} ∪ live)) report;
    finish sccache protected entries report.
End Collector.

(** [gc_build_cache]: liveness comes from the daemon. *)
Definition gc_build_cache `{JsonText} (lossy : string -> string) (fuel : nat) (client_version : string) (runtime : DockerRuntime) :
    dio GcReport :=
  match DockerRuntime.build_cache runtime with
  | None => mret GcReport.default
  | Some config =>
      live ← live_execution_ids client_version runtime;
      let budget := saturating_mul_u64 (BuildCacheConfig.max_gib config) (1024 * 1024 * 1024) in
      now ← ask Docker.Now;
      collect_build_cache lossy fuel live now REF_GRACE budget (BuildCacheConfig.root config)
  end.

(** * What the collector of the build cache removes

    The choice of [select_evictions], as a set of directories. *)

#[export] Instance older_total : Total older.
Proof.
  intros a b. unfold older.
  destruct (Z.lt_trichotomy (CacheEntry.last_used a) (CacheEntry.last_used b)) as [H|[H|H]]; [auto| |auto].
  destruct (total String.le (CacheEntry.key a) (CacheEntry.key b)); auto.
Qed.
#[export] Instance older_trans : Transitive older.
Proof.
  intros a b c [Hab|[Hab Kab]] [Hbc|[Hbc Kbc]]; unfold older; [left; lia..|]. right. split; [lia|by etrans].
Qed.

Definition unreferenced (live : gset ExecutionId) (e : CacheEntry) : bool := negb (referenced live e).

Lemma evict_until_spec budget live l total :
  (forall e, e ∈ l -> 0 <= CacheEntry.bytes e) -> sum_Z CacheEntry.bytes l <= total ->
  exists gone kept, evict_until total budget live l = List.map CacheEntry.key gone /\
    List.filter (unreferenced live) l = gone ++ kept /\
    (kept = [] \/ total - sum_Z CacheEntry.bytes gone <= budget) /\
    (forall init last, gone = init ++ [last] -> budget < total - sum_Z CacheEntry.bytes init).
Proof.
  revert total. induction l as [|e l IH]; intros total Hb Ht; cbn [evict_until List.filter].
  - exists [], []. split_and!; auto. intros [|??] ? ?; discriminate.
  - assert (0 <= CacheEntry.bytes e) as He by (apply Hb; by left). cbn [sum_Z foldr] in Ht.
    change (foldr _ 0 l) with (sum_Z CacheEntry.bytes l) in Ht.
    assert (forall x, x ∈ l -> 0 <= CacheEntry.bytes x) as Hbl by (intros x Hx; apply Hb; by right).
    pose proof (sum_Z_nonneg _ _ Hbl) as Hs.
    destruct (Z.leb_spec total budget) as [Hle|Hgt].
    + eexists [], _. split_and!; [done|done|right; simpl; lia|]. intros [|??] ? ?; discriminate.
    + unfold unreferenced at 1. destruct (referenced live e) eqn:Er; cbn [negb].
      * apply IH; [done|lia].
      * destruct (IH (saturating_sub total (CacheEntry.bytes e))) as (gone & kept & H1 & H2 & H3 & H4); [done| |].
        { rewrite saturating_sub_spec by lia. lia. }
        rewrite saturating_sub_spec in H1, H3, H4 by lia. rewrite Z.max_r in H1, H3, H4 by lia.
        exists (e :: gone), kept. split_and!; [by rewrite saturating_sub_spec, Z.max_r, H1 by lia|by rewrite H2| |].
        -- destruct H3 as [|H3]; [by left|right]. simpl. change (foldr _ 0 gone) with (sum_Z CacheEntry.bytes gone). lia.
        -- intros [|x init] last [= -> Hg]; [simpl; lia|]. specialize (H4 _ _ Hg). simpl.
           change (foldr _ 0 init) with (sum_Z CacheEntry.bytes init). lia.
Qed.

(** The collector evicts exactly what it must.  The selected directories are
    the least recently used of those no live execution refers to, in that order;
    what is left is within the budget unless nothing more may go; and without the
    last of them it would not have been. *)
Theorem evictions_exact entries budget live :
  (forall e, e ∈ entries -> 0 <= CacheEntry.bytes e) ->
  exists sorted gone kept, sorted ≡ₚ entries /\ StronglySorted older sorted /\
    List.filter (unreferenced live) sorted = gone ++ kept /\
    select_evictions entries budget live = List.map CacheEntry.key gone /\
    (kept = [] \/ sum_Z CacheEntry.bytes entries - sum_Z CacheEntry.bytes gone <= budget) /\
    (forall init last, gone = init ++ [last] ->
       budget < sum_Z CacheEntry.bytes entries - sum_Z CacheEntry.bytes init).
Proof.
  intros Hb. unfold select_evictions. set (l := merge_sort older entries).
  assert (l ≡ₚ entries) as Hl by apply merge_sort_Permutation.
  destruct (evict_until_spec budget live l (sum_Z CacheEntry.bytes entries)) as (gone & kept & H1 & H2 & H3 & H4).
  - intros e He. apply Hb. by rewrite <- Hl.
  - by rewrite Hl.
  - exists l, gone, kept. split_and!; try done. by apply StronglySorted_merge_sort; apply _.
Qed.

Definition ex_entry (key : string) (bytes last_used : Z) (refs : list ExecutionId) : CacheEntry :=
  {| CacheEntry.key := key; CacheEntry.bytes := bytes; CacheEntry.last_used := last_used; CacheEntry.refs := refs |}.
Definition ex_entries : list CacheEntry :=
  [ex_entry "new" 40 30 []; ex_entry "old" 40 10 []; ex_entry "used" 40 5 ["e-1"%string]; ex_entry "mid" 40 20 []].

Lemma evictions_exact_witness :
  select_evictions ex_entries 100 {["e-1"%string]} = ["old"; "mid"]%string /\
  exists gone kept : list CacheEntry, List.map CacheEntry.key gone = ["old"; "mid"]%string /\
    (kept = [] \/ 160 - sum_Z CacheEntry.bytes gone <= 100).
Proof.
  split; [by vm_compute|].
  destruct (evictions_exact ex_entries 100 {["e-1"%string]}) as (l & gone & kept & _ & _ & _ & He & Hk & _).
  - intros e He. repeat (apply elem_of_cons in He as [->|He]; [simpl; lia|]). by apply elem_of_nil in He.
  - exists gone, kept. split; [|exact Hk]. rewrite <- He. by vm_compute.
Defined.

(** * [Runtime for DockerRuntime] ([runtime-docker/src/provision.rs])

    Provisioning as a whole: what [provision_inner] creates is destroyed again
    when it fails. *)

Section Run.
Context `{JsonText} (client_version : string).
Context (sha256 : string -> string) (to_rfc3339 : Timestamp -> string).
Context (runtime : DockerRuntime) (labels : OwnershipLabels) (requirement : RuntimeRequirement).
Context (services : list ServiceRequirement).

Abbreviation id := (OwnershipLabels.execution_id labels).
Abbreviation label_map := (OwnershipLabels.to_map labels).
Abbreviation storage_verify := (storage_verify runtime labels requirement).
Abbreviation ensure_image := (ensure_image runtime labels requirement).

Fixpoint all_service_mounts (runtime_root : string) (services : list (ServiceRequirement * ImageInspect)) :
    dio (list (list Mount)) :=
  match services with
  | [] => mret []
  | (service, image) :: services =>
      m ← writable_container_mounts runtime_root ("service-" +:+ ServiceRequirement.name service) image;
      ms ← all_service_mounts runtime_root services;
      mret (m :: ms)
  end.

(** The image of the relay must not declare volumes. *)
Definition check_relay : dio unit :=
  match DockerRuntime.inference_relay runtime with
  | Some relay =>
      image ← ensure_image (InferenceRelay.image relay);
      guard_or (bool_decide (image_volume_targets image = []))
        (resource_limit ("inference relay image " +:+ InferenceRelay.image relay +:+
           " declares volumes; the relay must be stateless"))
  | None => mret tt
  end.

(** What is asked of the daemon, once it is planned: the image of the agent, its
    binds and the execution's, those of the services and the build cache. *)
Record Planned := {
  image : string;
  agent_mounts : list Mount;
  execution_mounts : list Mount;
  service_mounts : list (list Mount);
  cache : option BuildCachePlan
}.

Definition all_mounts (p : Planned) : list Mount :=
  agent_mounts p ++ execution_mounts p ++ List.concat (service_mounts p).

(** The first half of [provision_inner]: nothing is created at the daemon. *)
Definition plan (layout : ExecutionLayout) : dio Planned :=
  image ← some_or (RuntimeRequirement.image requirement)
    (provisioning "runtime image is required for Docker provisioning");
  image_inspect ← ensure_image image;
  service_images ← ensure_images runtime labels requirement (List.map ServiceRequirement.image services);
  _ ← check_relay;
  _ ← ret_result (validate_reserved_image_volumes (image_inspect :: service_images));
  execution_mounts ← execution_bind_mounts layout
    (ExecutionCredentials.path <$> DockerRuntime.credentials runtime);
  agent_mounts ← writable_container_mounts (ExecutionLayout.runtime layout) "agent" image_inspect;
  cargo ← cargo_target_mount (ExecutionLayout.runtime layout);
  lockfile ← read_lockfile (ExecutionLayout.repository layout);
  cache ← plan_build_cache sha256 to_rfc3339 runtime labels requirement
    (default image (ImageInspect.id image_inspect)) lockfile;
  service_mounts ← all_service_mounts (ExecutionLayout.runtime layout) (zip services service_images);
  mret {| image := image; agent_mounts := agent_mounts ++ [cargo]; execution_mounts := execution_mounts;
          service_mounts := service_mounts; cache := cache |}.

Definition cache_mounts (p : Planned) : list Mount :=
  match cache p with Some plan => [BuildCachePlan.mount plan] | None => [] end.

Definition create_relay_of (network : string) : dio (option string) :=
  match DockerRuntime.inference_relay runtime with
  | Some relay => name ← create_relay runtime labels requirement network relay; mret (Some name)
  | None => mret None
  end.

(** The second half. *)
Definition launch (layout : ExecutionLayout) (p : Planned) : dio EnvironmentHandle :=
  let network := network_name id in
  let all_mounts := all_mounts p in
  let root := ExecutionLayout.root layout in
  _ ← storage_verify all_mounts;
  _ ← ask_or (Docker.CreateNetwork network (bool_decide (DockerRuntime.inference_relay runtime <> None)) label_map)
        (fun e => provisioning ("create network " +:+ network +:+ ": " +:+ e));
  service_containers ← create_services runtime labels requirement (zip services (service_mounts p))
    network root all_mounts;
  relay_container ← create_relay_of network;
  let agent_container := agent_container_name id in
  let mounts := agent_mounts p ++ execution_mounts p ++ cache_mounts p in
  _ ← storage_verify all_mounts;
  agent_container_id ← ask_or (Docker.CreateContainer agent_container
        (agent_config runtime labels requirement (image p) network mounts
           (BuildCachePlan.max_gib <$> cache p)))
    (fun e => container_create_error ("create agent container " +:+ agent_container) e true);
  _ ← storage_verify all_mounts;
  _ ← verify_container_mount_sources agent_container_id root mounts (BuildCachePlan.source <$> cache p);
  _ ← verify_with_trusted_container runtime labels requirement root all_mounts;
  _ ← start_services runtime labels requirement service_containers all_mounts;
  _ ← match relay_container with Some name => start_relay name | None => mret tt end;
  _ ← storage_verify all_mounts;
  _ ← ask_or (Docker.StartContainer agent_container_id)
        (fun e => provisioning ("start agent container " +:+ agent_container +:+ ": " +:+ e));
  _ ← (if bool_decide (DockerRuntime.agent_user runtime <> DEFAULT_AGENT_USER)
       then probe_agent_user_can_use_its_mounts runtime agent_container_id else mret tt);
  verified ← issue_agent_container_capability runtime labels agent_container_id layout mounts;
  mret {| EnvironmentHandle.execution_id := id; EnvironmentHandle.network := network;
          EnvironmentHandle.agent_container := agent_container;
          EnvironmentHandle.verified_agent_container := verified;
          EnvironmentHandle.service_containers := service_containers;
          EnvironmentHandle.volumes := [];
          EnvironmentHandle.credentials_path :=
            ExecutionCredentials.path <$> DockerRuntime.credentials runtime |}.

Definition provision_inner (layout : ExecutionLayout) : dio EnvironmentHandle :=
  p ← plan layout; launch layout p.

(** A failure destroys what was made; a failure to do so is told with it. *)
Definition roll_back {A} (provision_error : RuntimeError) : dio A :=
  rollback ← outcome_of (destroy client_version runtime labels);
  match rollback with
  | Ok _ => throw provision_error
  | Err rollback_error => throw (provisioning ("execution_id=" +:+ id +:+ ": " +:+
      RuntimeError.to_string provision_error +:+ "; rollback failed: " +:+
      RuntimeError.to_string rollback_error))
  end.

Definition provision : dio EnvironmentHandle :=
  layout ← verified_execution_layout runtime labels requirement;
  _ ← require_compatible_daemon client_version runtime;
  _ ← storage_verify [];
  r ← outcome_of (provision_inner layout);
  match r with
  | Ok handle => mret handle
  | Err provision_error => roll_back provision_error
  end.
End Run.
