(* ===== verification/DockerWorld.v ===== *)
(** * The Docker daemon

    Its containers, volumes and networks, and what each call of the adapter may
    do to them: any call may fail, a failing one that changes something may have
    changed it, a listing is complete.  What the daemon makes of a requested
    configuration - the binds it reports, the host configuration it keeps - is
    open; it keeps the labels that were asked for, beside those of the image.
    Nobody else acts on the daemon meanwhile. *)

From Stdlib Require Import Ascii.
From S2P Require Import Prelude Core Database Lifecycle Effects StorageModel FileSystem BuildCache Docker DockerMounts DockerProvision DockerCleanup.











Module Container.
Record Container := {
  name : string;
  requested : Config;
  labels : gmap string string;
  host : HostConfig;                  (* what the daemon says it uses *)
  mounts : list MountPoint;
  running : bool                      (* it may run: it has been started *)
}.
Definition started (c : Container) : Container :=
  {| name := name c; requested := requested c; labels := labels c; host := host c; mounts := mounts c;
     running := true |}.
End Container.
Abbreviation Container := Container.Container.

Record DockerWorld := {
  containers : gmap string Container;        (* by id *)
  volumes : gmap string (gmap string string); (* their labels, by name *)
  networks : gmap string (gmap string string) (* their labels, by id *)
}.

Definition set_containers (cs : gmap string Container) (w : DockerWorld) : DockerWorld :=
  {| containers := cs; volumes := volumes w; networks := networks w |}.
Definition set_volumes (vs : gmap string (gmap string string)) (w : DockerWorld) : DockerWorld :=
  {| containers := containers w; volumes := vs; networks := networks w |}.
Definition set_networks (ns : gmap string (gmap string string)) (w : DockerWorld) : DockerWorld :=
  {| containers := containers w; volumes := volumes w; networks := ns |}.

(** A label filter: every [key=value] of the selector. *)
Definition selects (selector : list string) (labels : gmap string string) : bool :=
  forallb (fun s => match split_once "=" s with
                    | Some (k, v) => bool_decide (labels !! k = Some v)
                    | None => bool_decide (is_Some (labels !! s))
                    end) selector.

(** The identifiers of containers. *)
Definition container_id (s : string) : Prop := String.length s = 64%nat /\ string_forallb is_ascii_hexdigit s = true.

(** The container a name or an id stands for. *)
Definition refers (w : DockerWorld) (x id : string) (c : Container) : Prop :=
  containers w !! id = Some c /\ (x = id \/ (containers w !! x = None /\ Container.name c = x)).

(** A change that takes effect on [Ok] and may have on [Err]. *)
Definition effect {A} (w : DockerWorld) (r : result string A) (w' : DockerWorld)
    (done : A -> DockerWorld -> Prop) : Prop :=
  match r with
  | Ok a => done a w'
  | Err _ => w' = w \/ exists a, done a w'
  end.

Lemma effect_mono {A} w (r : result string A) w' (P Q : A -> DockerWorld -> Prop) :
  effect w r w' P -> (forall a w', P a w' -> Q a w') -> effect w r w' Q.
Proof. destruct r as [a|e]; simpl; [auto|]. intros [->|(a & Ha)] HQ; [by left|right; eauto]. Qed.

(** A container is created under a name that is free. *)
Definition created (name : string) (config : Config) (w : DockerWorld) (id : string) (w' : DockerWorld) : Prop :=
  containers w !! id = None /\ container_id id /\
  (forall id' c, containers w !! id' = Some c -> Container.name c <> name) /\
  exists c, Container.name c = name /\ Container.requested c = config /\
    Config.labels config ⊆ Container.labels c /\ Container.running c = false /\
    w' = set_containers (<[id := c]> (containers w)) w.

Definition answers {A E} (w : DockerWorld) (r : result E A) (w' : DockerWorld) (ok : A -> Prop) : Prop :=
  w' = w /\ match r with Ok a => ok a | Err _ => True end.

Definition lists {A} (m : gmap string A) (labels_of : A -> gmap string string) (selector : list string)
    {B} (items : list B) (item_of : string -> A -> B -> Prop) : Prop :=
  (forall id a, m !! id = Some a -> selects selector (labels_of a) = true ->
     exists b, b ∈ items /\ item_of id a b) /\
  (forall b, b ∈ items -> exists id a, m !! id = Some a /\ selects selector (labels_of a) = true /\
     item_of id a b).

Section World.
(** Where paths lead, and the device each canonical path is on. *)
Context (canonical : string -> string) (device : string -> Z).

Definition docker_sem (B : Type) (c : docker_call B) (w : DockerWorld) : B -> DockerWorld -> Prop :=
  match c in Docker.docker_call B return B -> DockerWorld -> Prop with
  | Docker.ListContainers selector => fun r w' => answers w r w' (fun items =>
      lists (containers w) Container.labels selector items (fun id c s =>
        ContainerSummary.id s = Some id /\ ContainerSummary.labels s = Some (Container.labels c)))
  | Docker.ListVolumes selector => fun r w' => answers w r w' (fun items =>
      lists (volumes w) (fun l => l) selector (default [] items) (fun name l v => v = (name, l)))
  | Docker.ListNetworks selector => fun r w' => answers w r w' (fun items =>
      lists (networks w) (fun l => l) selector items (fun id l n => n = (Some id, Some l)))
  | Docker.RemoveContainer id _ => fun r w' =>
      effect w r w' (fun _ w' => w' = set_containers (delete id (containers w)) w)
  | Docker.RemoveVolume name => fun r w' =>
      effect w r w' (fun _ w' => w' = set_volumes (delete name (volumes w)) w)
  | Docker.RemoveNetwork id => fun r w' =>
      effect w r w' (fun _ w' => w' = set_networks (delete id (networks w)) w)
  | Docker.CreateNetwork name internal labels => fun r w' =>
      effect w r w' (fun _ w' => exists id, networks w !! id = None /\
        w' = set_networks (<[id := labels]> (networks w)) w)
  | Docker.CreateContainer name config => fun r w' =>
      effect w r w' (created name config w)
  | Docker.StartContainer x => fun r w' =>
      effect w r w' (fun _ w' => exists id c, refers w x id c /\
        w' = set_containers (<[id := Container.started c]> (containers w)) w)
  | Docker.InspectContainer x => fun r w' => answers w r w' (fun i => exists id c, refers w x id c /\
      ContainerInspect.id i = Some id /\ (ContainerInspect.running i = Some true -> Container.running c = true) /\
      ContainerInspect.labels i = Some (Container.labels c) /\
      ContainerInspect.mounts i = Some (Container.mounts c) /\
      ContainerInspect.host_config i = Some (Container.host c))
  | Docker.Canonicalize path => fun r w' => answers w r w' (fun p => p = canonical path)
  | Docker.MetadataOf path => fun r w' => answers w r w' (fun m => Metadata.dev m = device path)
  | _ => fun _ w' => w' = w
  end.

(** The calls that leave the daemon as it is. *)
Definition harmless (B : Type) (c : docker_call B) : Prop :=
  match c with
  | Docker.RemoveContainer _ _ | Docker.RemoveVolume _ | Docker.RemoveNetwork _
  | Docker.CreateNetwork _ _ _ | Docker.CreateContainer _ _ | Docker.StartContainer _ => False
  | _ => True
  end.

Lemma harmless_sem B (c : docker_call B) w b w' : harmless B c -> docker_sem B c w b w' -> w' = w.
Proof. destruct c; simpl; try done; by intros _ [-> _]. Qed.

Lemma hoare_harmless I {A} (p : proc docker_call A) w :
  all_calls harmless p -> I w -> hoare_crash docker_sem I p (fun _ w' => w' = w) w.
Proof. intros Hp Hi. eapply hoare_unchanged; [exact harmless_sem|done|done]. Qed.
End World.

(** ** Ownership *)
Definition owned (id : ExecutionId) (labels : gmap string string) : bool :=
  bool_decide (labels !! MANAGED = Some "true"%string) && bool_decide (labels !! EXECUTION_ID = Some id).

Lemma selects_owned labels m :
  selects (OwnershipLabels.selector labels) m = owned (OwnershipLabels.execution_id labels) m.
Proof.
  unfold selects, OwnershipLabels.selector, owned. cbn [forallb].
  assert (split_once "=" (MANAGED +:+ "=true") = Some (MANAGED, "true"%string)) as -> by by vm_compute.
  assert (split_once "=" (EXECUTION_ID +:+ "=" +:+ OwnershipLabels.execution_id labels) =
          Some (EXECUTION_ID, OwnershipLabels.execution_id labels)) as -> by by apply split_once_Some.
  by rewrite andb_true_r.
Qed.

Lemma to_map_owned labels m :
  OwnershipLabels.to_map labels ⊆ m -> owned (OwnershipLabels.execution_id labels) m = true.
Proof.
  intros Hm. unfold owned. apply andb_true_iff.
  split; apply bool_decide_eq_true; (eapply lookup_weaken; [|exact Hm]);
    unfold OwnershipLabels.to_map; destruct (OwnershipLabels.issue labels);
    by rewrite ?lookup_insert_eq, ?lookup_insert_ne, ?lookup_insert_eq by done.
Qed.

(** * What the adapter reads before it starts a container

    Most of the provisioning leaves the daemon as it is ([harmless]); what its
    checks establish about the container they inspect is here. *)

(** ** The parts that leave the daemon as it is *)
Lemma harmless_ask {A} (c : docker_call A) : harmless A c -> all_calls harmless (ask c : dio A).
Proof. by split. Qed.
Lemma harmless_ask_or {A F} (c : docker_call (result F A)) (f : F -> RuntimeError) :
  harmless _ c -> all_calls harmless (ask_or c f).
Proof. by split. Qed.
Lemma harmless_ret {A} (r : result RuntimeError A) : all_calls harmless (ret_result r : dio A).
Proof. done. Qed.
Lemma harmless_mret {A} (a : A) : all_calls harmless (mret a : dio A).
Proof. done. Qed.

Create HintDb harmless.

Ltac harmless_step :=
  lazymatch goal with
  | |- forall _, _ => intro
  | |- all_calls _ (ask _) => apply harmless_ask; exact I
  | |- all_calls _ (ask_or _ _) => apply harmless_ask_or; exact I
  | |- all_calls _ (fs_io _ _) => apply harmless_ask_or; exact I
  | |- all_calls _ (storage_io _) => apply harmless_ask_or; exact I
  | |- all_calls _ (ret_result _) => apply harmless_ret
  | |- all_calls _ (guard_or _ _) => apply harmless_ret
  | |- all_calls _ (some_or _ _) => apply harmless_ret
  | |- all_calls _ (throw _) => apply harmless_ret
  | |- all_calls _ (mret _) => apply harmless_mret
  | |- all_calls _ (outcome_of _) => apply all_calls_outcome_of
  | |- all_calls _ (of_proc _) => apply all_calls_of_proc
  | |- all_calls _ (each _ _) => apply all_calls_each
  | |- all_calls _ (mbind _ _) => apply all_calls_io_bind
  | |- all_calls _ (let '(_, _) := ?x in _) => destruct x
  | |- all_calls _ (match ?x with _ => _ end) => destruct x
  end.
Ltac harmless := repeat (solve [eauto 2 with harmless] || harmless_step).

Section Harmless.
Context `{JsonText}.

Lemma harmless_verify_mount_directories verify mounts :
  (forall p, harmless _ (verify p)) -> all_calls harmless (verify_mount_directories verify mounts).
Proof.
  intros Hv. unfold verify_mount_directories, verify_mount_directory.
  repeat harmless_step; by apply harmless_ask_or.
Qed.
#[local] Hint Resolve harmless_verify_mount_directories : harmless.

Lemma harmless_storage_verify runtime labels requirement mounts :
  all_calls harmless (storage_verify runtime labels requirement mounts).
Proof.
  unfold storage_verify, matches_request, validate_storage_daemon, validate_trusted_verifier,
    allocation_receipt, trusted_image. harmless; by apply harmless_verify_mount_directories.
Qed.
#[local] Hint Resolve harmless_storage_verify : harmless.

Lemma harmless_ensure_real_directory path create purpose :
  all_calls harmless (ensure_real_directory path create purpose).
Proof. unfold ensure_real_directory, check_real_directory. harmless. Qed.
#[local] Hint Resolve harmless_ensure_real_directory : harmless.

Lemma harmless_verified_execution_layout runtime labels requirement :
  all_calls harmless (verified_execution_layout runtime labels requirement).
Proof. unfold verified_execution_layout, matches_request, allocation_receipt. harmless. Qed.

Lemma harmless_bind_mount source target : all_calls harmless (bind_mount source target).
Proof. unfold bind_mount. harmless. Qed.
#[local] Hint Resolve harmless_bind_mount : harmless.

Lemma harmless_writable_bind source target purpose : all_calls harmless (writable_bind source target purpose).
Proof. unfold writable_bind, make_container_writable. harmless. Qed.
#[local] Hint Resolve harmless_writable_bind : harmless.

Lemma harmless_ensure_image runtime labels requirement image :
  all_calls harmless (ensure_image runtime labels requirement image).
Proof. unfold ensure_image. harmless. Qed.
#[local] Hint Resolve harmless_ensure_image : harmless.

Lemma harmless_ensure_images runtime labels requirement images :
  all_calls harmless (ensure_images runtime labels requirement images).
Proof. induction images; cbn [ensure_images]; harmless. Qed.
#[local] Hint Resolve harmless_ensure_images : harmless.

Lemma harmless_writable_container_mounts runtime_root scope image :
  all_calls harmless (writable_container_mounts runtime_root scope image).
Proof.
  assert (forall root fixed, all_calls harmless (fixed_mounts root fixed)) as Hf.
  { intros root fixed. induction fixed as [|[p t] fixed IH]; cbn [fixed_mounts]; harmless. }
  assert (forall root targets bound, all_calls harmless (volume_mounts root targets bound)) as Hv.
  { intros root targets. induction targets as [|t targets IH]; intros bound; cbn [volume_mounts]; harmless. }
  unfold writable_container_mounts. harmless.
Qed.
#[local] Hint Resolve harmless_writable_container_mounts : harmless.

Lemma harmless_is_managed dir :
  all_calls harmless (is_managed_build_cache_dir (E := RuntimeError) dir).
Proof.
  assert (forall p, all_calls harmless (docker_lstat p)) as Hl by by split.
  assert (forall p, all_calls harmless (docker_read p)) as Hr by by split.
  unfold is_managed_build_cache_dir. cbn [lstat read_file docker_owner_files]. harmless.
Qed.
#[local] Hint Resolve harmless_is_managed : harmless.

Lemma harmless_plan_build_cache sha256 to_rfc3339 runtime labels requirement image lockfile :
  all_calls harmless (plan_build_cache sha256 to_rfc3339 runtime labels requirement image lockfile).
Proof.
  assert (forall p, all_calls harmless (docker_read p)) as Hr by by split.
  assert (forall dir key, all_calls harmless (write_owner_file_once to_rfc3339 dir key)) as Hw
    by (intros; unfold write_owner_file_once; harmless).
  unfold plan_build_cache, build_cache_mount, make_container_writable, mark_cache_in_use. harmless.
Qed.
#[local] Hint Resolve harmless_plan_build_cache : harmless.

Lemma harmless_plan sha256 to_rfc3339 runtime labels requirement services layout :
  all_calls harmless (plan sha256 to_rfc3339 runtime labels requirement services layout).
Proof.
  assert (forall root items, all_calls harmless (all_service_mounts root items)) as Hs.
  { intros root items. induction items as [|[s i] items IH]; cbn [all_service_mounts]; harmless. }
  unfold plan, check_relay, execution_bind_mounts, cargo_target_mount, make_container_writable, read_lockfile.
  harmless.
Qed.

Lemma harmless_validate_actual_mounts requested actual :
  all_calls harmless (validate_actual_mounts requested actual).
Proof.
  assert (forall ms, all_calls harmless (requested_binds ms)) as Hr
    by (intros ms; induction ms; cbn [requested_binds]; harmless).
  assert (forall ms, all_calls harmless (actual_binds ms)) as Ha
    by (intros ms; induction ms; cbn [actual_binds]; harmless).
  unfold validate_actual_mounts. harmless.
Qed.
#[local] Hint Resolve harmless_validate_actual_mounts : harmless.

Lemma harmless_verify_container_mount_sources container root requested external :
  all_calls harmless (verify_container_mount_sources container root requested external).
Proof. unfold verify_container_mount_sources, verify_host_mount. harmless. Qed.

Lemma harmless_verifier_sources root mounts : all_calls harmless (verifier_sources root mounts).
Proof.
  assert (forall ms, all_calls harmless (proof_sources ms)) as Hp
    by (intros ms; induction ms; cbn [proof_sources]; harmless).
  unfold verifier_sources. harmless.
Qed.

Lemma harmless_proof_mounts index sources : all_calls harmless (proof_mounts index sources).
Proof. revert index. induction sources as [|s l IH]; intros index; cbn [proof_mounts]; harmless. Qed.

Lemma harmless_probe runtime id : all_calls harmless (probe_agent_user_can_use_its_mounts runtime id).
Proof. unfold probe_agent_user_can_use_its_mounts, in_time. harmless. Qed.

Lemma harmless_issue runtime labels id layout mounts :
  all_calls harmless (issue_agent_container_capability runtime labels id layout mounts).
Proof.
  assert (forall sr cv ms, all_calls harmless (verified_binds sr cv ms)) as Hv.
  { intros sr cv ms. induction ms; cbn [verified_binds]; harmless. }
  unfold issue_agent_container_capability. harmless.
Qed.
End Harmless.

#[export] Hint Resolve harmless_storage_verify harmless_verified_execution_layout harmless_plan
  harmless_verify_container_mount_sources harmless_verifier_sources harmless_proof_mounts harmless_probe
  harmless_issue : harmless.

(** ** What a check establishes *)

(** The bind a requested mount stands for, and the one a reported mount point is. *)
Section Binds.
Context (canonical : string -> string) (device : string -> Z).

Definition mount_bind (m : Mount) : option Bind :=
  match Mount.source m, Mount.target m with
  | Some source, Some target =>
      if bool_decide (Mount.typ m = Some BIND)
      then Some (components (canonical source), target, bool_decide (Mount.read_only m = Some true)) else None
  | _, _ => None
  end.
Definition point_bind (p : MountPoint) : option Bind :=
  match MountPoint.source p, MountPoint.destination p with
  | Some source, Some target =>
      if plain_bind p
      then Some (components (canonical source), target, bool_decide (MountPoint.rw p = Some false)) else None
  | _, _ => None
  end.

(** The reported mount points are the requested binds, and only binds. *)
Definition agree (requested : list Mount) (actual : list MountPoint) : Prop :=
  exists r a, mapM mount_bind requested = Some r /\ mapM point_bind actual = Some a /\
    forall b, b ∈ a <-> b ∈ r.

Lemma same_binds_spec a b : same_binds a b = true -> forall x, x ∈ a <-> x ∈ b.
Proof.
  unfold same_binds. rewrite andb_true_iff, !forallb_forall. intros [Ha Hb] x.
  rewrite !list_elem_of_In in *. split; intros Hx; [apply Ha in Hx|apply Hb in Hx];
    by apply bool_decide_eq_true, list_elem_of_In in Hx.
Qed.

(** A bind of the daemon's host configuration: inside the execution's storage and
    on its device, or the shared cache; never the daemon's socket. *)
Definition confined (root : string) (external : option string) (m : Mount) : Prop :=
  let target := default ""%string (Mount.target m) in
  Mount.typ m = Some BIND /\ target <> "/var/run/docker.sock"%string /\ target <> "/run/docker.sock"%string /\
  exists source, Mount.source m = Some source /\
    ((target = CONTAINER_BUILD_CACHE /\ exists e, external = Some e /\ path_eqb e (canonical source) = true) \/
     (path_starts_with (canonical source) (canonical root) = true /\
      device (canonical source) = device (canonical root))).

Definition verified (root : string) (external : option string) (requested : list Mount) (c : Container) : Prop :=
  agree requested (Container.mounts c) /\ safe_host (Container.host c) = true /\
  exists ms, HostConfig.mounts (Container.host c) = Some ms /\ Forall (confined root external) ms.

(** The bind a capability reports. *)
Definition capability_bind (p : MountPoint) : option VerifiedBindMount :=
  match MountPoint.source p, MountPoint.destination p with
  | Some source, Some target => Some {| VerifiedBindMount.source := canonical source;
      VerifiedBindMount.target := target;
      VerifiedBindMount.writable := bool_decide (MountPoint.rw p = Some true) |}
  | _, _ => None
  end.

(** It exposes of the private session only the conversation. *)
Definition private (layout : ExecutionLayout) (b : VerifiedBindMount) : Prop :=
  VerifiedBindMount.target b <> "/var/run/docker.sock"%string /\
  (path_starts_with (VerifiedBindMount.source b) (canonical (ExecutionLayout.session layout)) = true ->
   path_eqb (VerifiedBindMount.source b) (canonical (ExecutionLayout.conversation layout)) = true).

Definition answered (w : DockerWorld) (B : Type) (c : docker_call B) (b : B) : Prop :=
  exists w', docker_sem canonical device B c w b w'.

(** [Ok] only of [P]. *)
Definition yields {A} (w : DockerWorld) (m : dio A) (P : A -> Prop) : Prop :=
  ends (answered w) m (fun r => match r with Ok a => P a | Err _ => True end).

Lemma hoare_yields {A} I w (m : dio A) P :
  all_calls harmless m -> yields w m P -> I w ->
  hoare_crash (docker_sem canonical device) I m (fun r w' => w' = w /\ match r with Ok a => P a | Err _ => True end) w.
Proof.
  intros Hm Hy HI. unfold yields in Hy. unfold hoare_crash.
  induction m as [a|B c k IH]; simpl in *.
  - by intros s1 ->%rtc_quiet.
  - destruct Hm as [Hc Hk]. intros s1 ->%rtc_quiet b s2 Hs.
    pose proof (harmless_sem _ _ _ _ _ _ _ Hc Hs) as ->. split; [done|]. apply IH; [done|]. apply Hy. by exists w.
Qed.

Section Yields.
Context (w : DockerWorld).

Lemma yields_bind {A B} (m : dio A) (f : A -> dio B) P P' :
  yields w m P -> (forall a, P a -> yields w (f a) P') -> yields w (m ≫= f) P'.
Proof.
  intros Hm Hf. apply ends_io_bind. eapply ends_mono; [exact Hm|]. intros [a|e]; [by apply Hf|done].
Qed.
Lemma yields_skip {A B} (m : dio A) (f : A -> dio B) P : (forall a, yields w (f a) P) -> yields w (m ≫= f) P.
Proof. intros Hf. by apply ends_skip. Qed.
Lemma yields_result {A} (r : result RuntimeError A) (P : A -> Prop) :
  (forall a, r = Ok a -> P a) -> yields w (ret_result r) P.
Proof. intros Hr. unfold yields. simpl. destruct r; auto. Qed.
Lemma yields_mret {A} (a : A) (P : A -> Prop) : P a -> yields w (mret a) P.
Proof. done. Qed.
Lemma yields_guard {B} b e (f : unit -> dio B) P :
  (b = true -> yields w (f tt) P) -> yields w (guard_or b e ≫= f) P.
Proof.
  intros Hf. eapply yields_bind with (P := fun _ => b = true).
  - apply yields_result. by intros u Hu%check_Ok.
  - intros [] Hb. by apply Hf.
Qed.
Lemma yields_some {A B} (o : option A) e (f : A -> dio B) P :
  (forall a, o = Some a -> yields w (f a) P) -> yields w (some_or o e ≫= f) P.
Proof.
  intros Hf. eapply yields_bind; [|exact Hf]. apply yields_result. by intros a Ha%ok_or_Ok.
Qed.
Lemma yields_ask_or {A F} (c : docker_call (result F A)) (f : F -> RuntimeError) :
  yields w (ask_or c f) (fun a => answered w _ c (Ok a)).
Proof. intros [a|e] Hb; simpl; [exact Hb|done]. Qed.

Lemma yields_canonicalize path f : yields w (fs_io (Docker.Canonicalize path) f) (fun p => p = canonical path).
Proof. eapply ends_mono; [apply yields_ask_or|]. intros [p|e]; [|done]. by intros (w' & _ & ?). Qed.

Lemma yields_bind_mount source target :
  yields w (bind_mount source target) (fun m => Mount.source m = Some (canonical source)).
Proof.
  eapply yields_bind; [apply yields_canonicalize|]. intros p ->. apply yields_some. intros p Hp.
  apply yields_mret. simpl. unfold from_utf8 in Hp. case_match; congruence.
Qed.

Lemma yields_requested_binds ms : yields w (requested_binds ms) (fun l => mapM mount_bind ms = Some l).
Proof.
  induction ms as [|m ms IH]; cbn [requested_binds]; [done|].
  apply yields_some. intros s Hs. eapply yields_bind; [apply yields_canonicalize|]. intros ? ->.
  apply yields_some. intros t Ht. apply yields_guard. intros Hb. eapply yields_bind; [exact IH|].
  intros l Hl. apply yields_mret. simpl.
  assert (mount_bind m = Some (components (canonical s), t, bool_decide (Mount.read_only m = Some true))) as ->
    by (unfold mount_bind; by rewrite Hs, Ht, Hb). simpl. by rewrite Hl.
Qed.

Lemma yields_actual_binds ms : yields w (actual_binds ms) (fun l => mapM point_bind ms = Some l).
Proof.
  induction ms as [|m ms IH]; cbn [actual_binds]; [done|].
  apply yields_guard. intros Hb. apply yields_some. intros s Hs.
  eapply yields_bind; [apply yields_canonicalize|]. intros ? ->.
  apply yields_some. intros t Ht. eapply yields_bind; [exact IH|].
  intros l Hl. apply yields_mret. simpl.
  assert (point_bind m = Some (components (canonical s), t, bool_decide (MountPoint.rw m = Some false))) as ->
    by (unfold point_bind; by rewrite Hs, Ht, Hb). simpl. by rewrite Hl.
Qed.

Lemma yields_validate requested actual :
  yields w (validate_actual_mounts requested actual) (fun _ => agree requested actual).
Proof.
  eapply yields_bind; [apply yields_requested_binds|]. intros r Hr.
  eapply yields_bind; [apply yields_actual_binds|]. intros a Ha.
  apply yields_result. intros _ He%check_Ok. exists r, a. split_and!; [done|done|by apply same_binds_spec].
Qed.

Lemma yields_each {A} (f : A -> dio unit) (P : A -> Prop) l :
  (forall a, yields w (f a) (fun _ => P a)) -> yields w (each f l) (fun _ => Forall P l).
Proof.
  intros Hf. induction l as [|a l IH]; cbn [each]; [by constructor|].
  eapply yields_bind; [apply Hf|]. intros u0 Ha. eapply ends_mono; [exact IH|]. intros [u|e] Hl; [by constructor|done].
Qed.

Lemma yields_metadata path f : yields w (fs_io (Docker.MetadataOf path) f) (fun m => Metadata.dev m = device path).
Proof. eapply ends_mono; [apply yields_ask_or|]. intros [m|e]; [|done]. by intros (w' & _ & ?). Qed.

Lemma yields_host_mount `{JsonText} container root external mount :
  yields w (verify_host_mount container (canonical root) (device (canonical root)) external mount)
    (fun _ => confined root external mount).
Proof.
  unfold verify_host_mount. apply yields_guard. intros Ht%bool_decide_eq_true.
  apply yields_guard. intros Hs. rewrite negb_true_iff, orb_false_iff, !bool_decide_eq_false in Hs.
  apply yields_some. intros s Hsrc. eapply yields_bind; [apply yields_canonicalize|]. intros p ->.
  destruct (bool_decide (default "" (Mount.target mount) = CONTAINER_BUILD_CACHE)%string && _) eqn:Hc.
  - apply yields_skip. intros managed. apply yields_result. intros _ _.
    apply andb_true_iff in Hc as [Hc%bool_decide_eq_true He]. destruct external as [e|]; [|done].
    split_and!; [done|apply Hs|apply Hs|]. exists s. split; [done|]. left. split; [done|]. by exists e.
  - apply yields_guard. intros Hin. eapply yields_bind; [apply yields_metadata|]. intros m Hm.
    apply yields_result. intros _ Hd%check_Ok%Z.eqb_eq.
    split_and!; [done|apply Hs|apply Hs|]. exists s. split; [done|]. right. split; [done|congruence].
Qed.

Lemma yields_inspect x f :
  yields w (ask_or (Docker.InspectContainer x) f) (fun i => exists id c, refers w x id c /\
    ContainerInspect.id i = Some id /\ (ContainerInspect.running i = Some true -> Container.running c = true) /\
    ContainerInspect.labels i = Some (Container.labels c) /\
    ContainerInspect.mounts i = Some (Container.mounts c) /\
    ContainerInspect.host_config i = Some (Container.host c)).
Proof. eapply ends_mono; [apply yields_ask_or|]. intros [m|e]; [|done]. by intros (w' & _ & ?). Qed.

Lemma yields_verify `{JsonText} x root requested external :
  yields w (verify_container_mount_sources x root requested external)
    (fun _ => exists id c, refers w x id c /\ verified root external requested c).
Proof.
  unfold verify_container_mount_sources. eapply yields_bind; [apply yields_canonicalize|]. intros p ->.
  eapply yields_bind; [apply yields_metadata|]. intros d Hd.
  eapply yields_bind; [apply yields_inspect|]. intros i (id & c & Hc & _ & _ & _ & Hms & Hh).
  rewrite Hms, Hh, Hd. eapply yields_bind; [apply yields_validate|]. intros u0 Ha. apply yields_some. intros ? [= <-].
  apply yields_guard. intros Hs. apply yields_some. intros ms Hm.
  eapply ends_mono; [apply yields_each, yields_host_mount|]. intros [u|e]; [|done].
  intros Hf. exists id, c. split; [done|]. split_and!; [done|done|]. by exists ms.
Qed.

Lemma yields_verified_binds layout ms :
  yields w (verified_binds (canonical (ExecutionLayout.session layout))
              (canonical (ExecutionLayout.conversation layout)) ms)
    (fun bs => mapM capability_bind ms = Some bs /\ Forall (private layout) bs).
Proof.
  induction ms as [|m ms IH]; cbn [verified_binds]; [by split|].
  apply yields_guard. intros Hb. apply yields_some. intros s Hs.
  eapply yields_bind; [apply yields_canonicalize|]. intros ? ->.
  apply yields_some. intros t Ht. apply yields_guard. intros Hp.
  rewrite negb_true_iff, !orb_false_iff, andb_false_iff, negb_false_iff, bool_decide_eq_false in Hp.
  eapply yields_bind; [exact IH|]. intros bs [Hl Hf]. apply yields_mret. split.
  - simpl. assert (capability_bind m = Some {| VerifiedBindMount.source := canonical s;
      VerifiedBindMount.target := t; VerifiedBindMount.writable := bool_decide (MountPoint.rw m = Some true) |}) as ->
      by (unfold capability_bind; by rewrite Hs, Ht). simpl. by rewrite Hl.
  - constructor; [|done]. split; [apply Hp|]. simpl. destruct Hp as [[[Hp|Hp] _] _]; [congruence|done].
Qed.

Lemma yields_issue runtime labels x layout requested :
  yields w (issue_agent_container_capability runtime labels x layout requested) (fun v =>
    VerifiedAgentContainer.container_id v = x /\ VerifiedAgentContainer.labels v = labels /\
    exists c bs, refers w x x c /\ Container.running c = true /\
      Container.labels c = OwnershipLabels.to_map labels /\ agree requested (Container.mounts c) /\
      mapM capability_bind (Container.mounts c) = Some bs /\ Forall (private layout) bs /\
      VerifiedAgentContainer.mounts v ≡ₚ bs).
Proof.
  unfold issue_agent_container_capability.
  eapply yields_bind; [apply yields_inspect|]. intros i (id & c & Hc & Hid & Hr & Hl & Hms & _).
  rewrite Hl, Hms, Hid. apply yields_guard. intros [Hi%bool_decide_eq_true Hr'%bool_decide_eq_true]%andb_true_iff.
  injection Hi as ->. apply yields_guard. intros Hlab%bool_decide_eq_true.
  eapply yields_bind; [apply yields_validate|]. intros u0 Ha.
  eapply yields_bind; [apply yields_canonicalize|]. intros ? ->.
  eapply yields_bind; [apply yields_canonicalize|]. intros ? ->.
  eapply yields_bind; [apply yields_verified_binds|]. intros bs [Hb Hf].
  apply yields_skip. intros d. apply yields_some. intros d' _. apply yields_some. intros receipt _.
  apply yields_guard. intros _. apply yields_mret. split_and!; [done|done|]. exists c, bs.
  split_and!; try done; [by apply Hr|apply merge_sort_Permutation].
Qed.
End Yields.
End Binds.
