(* ===== verification/DockerDestroy.v ===== *)
(** * A daemon that answers

    One behaviour within what [DockerWorld.v] allows: every call that can
    succeed does, paths lead where they say, every directory is there. *)

From Stdlib Require Import Ascii.
From S2P Require Import Prelude Core Database Lifecycle Effects StorageModel FileSystem BuildCache Docker DockerMounts DockerProvision DockerCleanup DockerWorld.










Record Host := {
  daemon_id : string;
  repository : string;                (* of the execution's storage *)
  output : string                     (* of the verifier *)
}.

Definition point_of (m : Mount) : MountPoint :=
  {| MountPoint.typ := Mount.typ m; MountPoint.name := None; MountPoint.source := Mount.source m;
     MountPoint.destination := Mount.target m;
     MountPoint.rw := Some (negb (bool_decide (Mount.read_only m = Some true))) |}.

Definition container_of (name : string) (config : Config) : Container :=
  let host := Config.host_config config in
  {| Container.name := name; Container.requested := config; Container.labels := Config.labels config;
     Container.host := HostConfig.attached (HostConfig.network_mode host)
       (Some (default [] (HostConfig.mounts host))) host;
     Container.mounts := List.map point_of (default [] (HostConfig.mounts host)); Container.running := false |}.

Definition find_container (w : DockerWorld) (x : string) : option (string * Container) :=
  match containers w !! x with
  | Some c => Some (x, c)
  | None => List.find (fun kc => bool_decide (Container.name kc.2 = x)) (map_to_list (containers w))
  end.

(** Identifiers by the number of containers. *)
Definition new_id (w : DockerWorld) : string :=
  let n := N.of_nat (size (containers w)) in
  Strings.String.string_of_list_ascii (repeat "0"%char 62 ++ [hex_digit (n / 16 mod 16)%N; hex_digit (n mod 16)%N]).

Definition name_free (w : DockerWorld) (name : string) : bool :=
  forallb (fun kc => negb (bool_decide (Container.name kc.2 = name))) (map_to_list (containers w)).

Definition can_create (w : DockerWorld) (name : string) : bool :=
  bool_decide (containers w !! new_id w = None) && name_free w name &&
  (Z.of_nat (String.length (new_id w)) =? 64) && string_forallb is_ascii_hexdigit (new_id w).

Definition selected {A} (m : gmap string A) (labels_of : A -> gmap string string) (selector : list string) :
    list (string * A) :=
  List.filter (fun kc => selects selector (labels_of kc.2)) (map_to_list m).

Definition directory : Metadata :=
  {| Metadata.dev := 0; Metadata.ino := 0; Metadata.uid := 0; Metadata.mode := 16877 |}.

Section Serve.
Context (host : Host).

Definition serve (B : Type) (c : docker_call B) (w : DockerWorld) : B * DockerWorld :=
  match c in Docker.docker_call B return B * DockerWorld with
  | Docker.Connect _ => (Ok tt, w)
  | Docker.Version => (Ok (Some "1.44"%string, Some "1.24"%string), w)
  | Docker.Negotiate => (Ok tt, w)
  | Docker.Info => (Ok (Some (daemon_id host)), w)
  | Docker.ListContainers selector =>
      (Ok (List.map (fun kc => {| ContainerSummary.id := Some kc.1;
                                  ContainerSummary.labels := Some (Container.labels kc.2) |})
             (selected (containers w) Container.labels selector)), w)
  | Docker.RemoveContainer id _ => (Ok tt, set_containers (delete id (containers w)) w)
  | Docker.ListVolumes selector => (Ok (Some (selected (volumes w) (fun l => l) selector)), w)
  | Docker.RemoveVolume name => (Ok tt, set_volumes (delete name (volumes w)) w)
  | Docker.ListNetworks selector =>
      (Ok (List.map (fun kl => (Some kl.1, Some kl.2)) (selected (networks w) (fun l => l) selector)), w)
  | Docker.RemoveNetwork id => (Ok tt, set_networks (delete id (networks w)) w)
  | Docker.CreateNetwork name _ labels =>
      if bool_decide (networks w !! name = None)
      then (Ok tt, set_networks (<[name := labels]> (networks w)) w) else (Err "conflict"%string, w)
  | Docker.ConnectNetwork _ _ => (Ok tt, w)
  | Docker.InspectImage image => (Ok {| ImageInspect.id := Some image; ImageInspect.volumes := None |}, w)
  | Docker.PullImage _ => ([], w)
  | Docker.CreateContainer name config =>
      if can_create w name
      then (Ok (new_id w), set_containers (<[new_id w := container_of name config]> (containers w)) w)
      else (Err "conflict"%string, w)
  | Docker.StartContainer x =>
      match find_container w x with
      | Some (id, c) => (Ok tt, set_containers (<[id := Container.started c]> (containers w)) w)
      | None => (Err "no such container"%string, w)
      end
  | Docker.InspectContainer x =>
      (match find_container w x with
       | Some (id, c) => Ok {| ContainerInspect.id := Some id; ContainerInspect.running := Some (Container.running c);
           ContainerInspect.exit_code := Some 0; ContainerInspect.labels := Some (Container.labels c);
           ContainerInspect.mounts := Some (Container.mounts c);
           ContainerInspect.host_config := Some (Container.host c) |}
       | None => Err "no such container"%string
       end, w)
  | Docker.AttachContainer _ => (Ok tt, w)
  | Docker.ReadOutput _ => ([Ok (StdOut (output host))], w)
  | Docker.CreateExec _ _ => (Ok "exec"%string, w)
  | Docker.StartExec _ => (Ok None, w)
  | Docker.InspectExec _ => (Ok (Some 0), w)
  | Docker.Elapsed => (false, w)
  | Docker.Canonicalize path => (Ok path, w)
  | Docker.SymlinkMetadata _ =>
      (Ok {| FileMeta.stat := directory; FileMeta.len := 0; FileMeta.modified := Some 0 |}, w)
  | Docker.MetadataOf _ => (Ok directory, w)
  | Docker.ReadFile _ => (Err NOENT, w)
  | Docker.ReadDir _ => (Ok [], w)
  | Docker.WriteFile _ _ | Docker.HardLink _ _ | Docker.RemoveFile _ | Docker.RemoveDirAll _
  | Docker.CreateDir _ | Docker.CreateDirAll _ | Docker.SetPermissions _ _ => (Ok tt, w)
  | Docker.Env _ => (None, w)
  | Docker.Now => (0, w)
  | Docker.Staging => ("1-1"%string, w)
  | Docker.AcquireReadyLease _ | Docker.LeaseVerify | Docker.LeaseVerifyDirectory _
  | Docker.VerifyReady _ | Docker.FreshVerify | Docker.FreshVerifyDirectory _ => (Ok tt, w)
  | Docker.LeaseRepositoryPath => (repository host, w)
  end.

Lemma selected_lists {A B} (m : gmap string A) labels_of selector (f : string * A -> B) item_of :
  (forall k a, item_of k a (f (k, a))) ->
  lists m labels_of selector (List.map f (selected m labels_of selector)) item_of.
Proof.
  intros Hf. unfold selected. split.
  - intros k a Ha Hs. exists (f (k, a)). split; [|apply Hf]. apply list_elem_of_In, in_map_iff. exists (k, a).
    split; [done|]. apply filter_In. split; [|done]. by apply list_elem_of_In, elem_of_map_to_list.
  - intros b Hb%list_elem_of_In. apply in_map_iff in Hb as ([k a] & <- & Hb). apply filter_In in Hb as [Hb Hs].
    apply list_elem_of_In, elem_of_map_to_list in Hb. by exists k, a.
Qed.

Lemma find_container_refers w x id c : find_container w x = Some (id, c) -> refers w x id c.
Proof.
  unfold find_container, refers. destruct (containers w !! x) as [c'|] eqn:E.
  - intros [= <- <-]. auto.
  - intros Hf%find_some. destruct Hf as [Hin Hn%bool_decide_eq_true].
    apply list_elem_of_In, elem_of_map_to_list in Hin. auto.
Qed.

Lemma can_create_created w name config : can_create w name = true ->
  created name config w (new_id w) (set_containers (<[new_id w := container_of name config]> (containers w)) w).
Proof.
  unfold can_create. intros H. rewrite !andb_true_iff in H. destruct H as [[[H1 H2] H3] H4].
  apply bool_decide_eq_true in H1. unfold name_free in H2. rewrite forallb_forall in H2.
  split_and!; [done|by split; [lia|]| |].
  - intros k c Hk Hn. apply elem_of_map_to_list, list_elem_of_In in Hk. specialize (H2 _ Hk). simpl in H2.
    by rewrite Hn, bool_decide_eq_true_2 in H2.
  - by exists (container_of name config).
Qed.

Lemma serve_sem B (c : docker_call B) w :
  docker_sem (fun p => p) (fun _ => 0) B c w (serve B c w).1 (serve B c w).2.
Proof.
  destruct c; simpl; try done; try (by split).
  - split; [done|]. by apply selected_lists.
  - split; [done|]. rewrite <- (List.map_id (selected _ _ _)). by apply selected_lists.
  - split; [done|]. by apply selected_lists.
  - case_bool_decide; simpl; [|by left]. by exists name.
  - destruct (can_create w name) eqn:E; simpl; [by apply can_create_created|by left].
  - destruct (find_container w container) as [[id c]|] eqn:E; simpl; [|by left].
    apply find_container_refers in E. by exists id, c.
  - split; [done|]. destruct (find_container w container) as [[id c]|] eqn:E; [|done].
    apply find_container_refers in E. exists id, c. split_and!; try done. by intros [= ->].
Qed.
End Serve.

(** ** An execution on it *)
Definition ex_labels : OwnershipLabels :=
  {| OwnershipLabels.execution_id := "e-1"; OwnershipLabels.worker_id := "w-1";
     OwnershipLabels.repository := "org/repo"; OwnershipLabels.issue := None |}.
Definition ex_requirement : RuntimeRequirement :=
  {| RuntimeRequirement.kind := RuntimeKind.Docker; RuntimeRequirement.image := Some "rust:1"%string;
     RuntimeRequirement.os := None; RuntimeRequirement.arch := None; RuntimeRequirement.cpu := 2;
     RuntimeRequirement.memory_mib := 1024; RuntimeRequirement.disk_gib := 1;
     RuntimeRequirement.capabilities := []; RuntimeRequirement.toolchains := ∅ |}.
Definition ex_services : list ServiceRequirement :=
  [{| ServiceRequirement.name := "db"; ServiceRequirement.image := "postgres:16"; ServiceRequirement.env := ∅ |}].
Definition ex_trusted : TrustedVerifierImage :=
  {| TrustedVerifierImage.image_id := "sha256:" +:+ Strings.String.string_of_list_ascii (repeat "a"%char 64);
     TrustedVerifierImage.stat_command := "/bin/stat" |}.
Definition ex_receipt : AllocationReceipt :=
  {| AllocationReceipt.api_version := "v1"; AllocationReceipt.labels := ex_labels;
     AllocationReceipt.reserved_bytes := 1024 * 1024 * 1024;
     AllocationReceipt.mount_path := "/var/lib/autospec/executions/e-1";
     AllocationReceipt.backend_kind := "lvm"; AllocationReceipt.backend_key := "autospec-e-1";
     AllocationReceipt.pool_identity := "vg:VG1";
     AllocationReceipt.backend := BackendIdentity.Lvm "vg" "VG1" "autospec-e-1" "LV1" "u-1" "t";
     AllocationReceipt.docker_bind :=
       {| DockerBindProof.daemon_id := "D1"; DockerBindProof.verifier := "docker";
          DockerBindProof.method_version := TrustedVerifierImage.proof_method ex_trusted;
          DockerBindProof.source_path := "/var/lib/autospec/executions/e-1";
          DockerBindProof.filesystem_id := "5:1" |} |}.
Definition ex_runtime : DockerRuntime :=
  {| DockerRuntime.min_api_version := "1.41"; DockerRuntime.state_root := "/var/lib/autospec";
     DockerRuntime.storage_verifier := true; DockerRuntime.allocation := Some ex_receipt;
     DockerRuntime.trusted_verifier := Some ex_trusted; DockerRuntime.credentials := None;
     DockerRuntime.cleanup_labels := None; DockerRuntime.build_cache := None;
     DockerRuntime.hardening := Enforced; DockerRuntime.agent_user := "1000:1000";
     DockerRuntime.inference_relay := Some {| InferenceRelay.image := "relay:1";
       InferenceRelay.upstream := "gateway.local:8080"; InferenceRelay.listen_port := 8080 |} |}.
Definition ex_host : Host :=
  {| daemon_id := "D1"; repository := "/var/lib/autospec/executions/e-1/repository";
     output := String.concat (String "010" "") (repeat "5:1"%string 11) |}.

(** With a container and a volume of others. *)
Definition ex_foreign : Container :=
  container_of "proxy" {| Config.image := Some "nginx"%string; Config.entrypoint := None; Config.cmd := None;
    Config.user := None; Config.env := None; Config.labels := ∅; Config.host_config := host_limits ex_requirement;
    Config.networks := []; Config.network_disabled := true |}.
Definition ex_world : DockerWorld :=
  {| containers := {[Strings.String.string_of_list_ascii (repeat "b"%char 64) := ex_foreign]};
     volumes := {["data"%string := ∅]}; networks := ∅ |}.

(** No text parses as JSON here: the example uses no build cache. *)
Definition no_json : JsonText := {| value_from_slice := fun _ => None |}.
Definition ex_provision : dio EnvironmentHandle :=
  @provision no_json "1.44" (fun s => s) (fun _ => ""%string) ex_runtime ex_labels ex_requirement ex_services.

(** * Destruction removes what an execution owns, and nothing else

    [destroy] of [DockerCleanup.v] against the daemon of [DockerWorld.v]. *)

(** A table less some of the rows that may go. *)
Definition removed_only {A} (own : A -> bool) (m m' : gmap string A) : Prop :=
  m' ⊆ m /\ forall k a, m !! k = Some a -> m' !! k = None -> own a = true.

Lemma removed_only_refl {A} (own : A -> bool) m : removed_only own m m.
Proof. split; [done|]. intros. congruence. Qed.

Lemma removed_only_delete {A} (own : A -> bool) (m m' : gmap string A) k :
  removed_only own m m' -> (forall a, m !! k = Some a -> own a = true) -> removed_only own m (delete k m').
Proof.
  intros [Hs Hr] Hk. split.
  - etrans; [apply delete_subseteq|done].
  - intros k' a Ha [->|Hn]%lookup_delete_None; [by apply Hk|by eapply Hr].
Qed.

Lemma removed_only_trans {A} (own : A -> bool) (m1 m2 m3 : gmap string A) :
  removed_only own m1 m2 -> removed_only own m2 m3 -> removed_only own m1 m3.
Proof.
  intros [H1 R1] [H2 R2]. split; [by etrans|]. intros k a Ha Hn.
  destruct (m2 !! k) as [b|] eqn:Eb; [|by eapply R1].
  assert (m1 !! k = Some b) by by eapply lookup_weaken. assert (a = b) as -> by congruence. by eapply R2.
Qed.

(** What a destruction may do, at any moment. *)
Definition destroyed (id : ExecutionId) (w w' : DockerWorld) : Prop :=
  removed_only (fun c => owned id (Container.labels c)) (containers w) (containers w') /\
  removed_only (owned id) (volumes w) (volumes w') /\
  removed_only (owned id) (networks w) (networks w').

Lemma destroyed_refl id w : destroyed id w w.
Proof. split_and!; apply removed_only_refl. Qed.

(** Nothing of the execution is left. *)
Definition nothing_left (id : ExecutionId) (w : DockerWorld) : Prop :=
  (forall k c, containers w !! k = Some c -> owned id (Container.labels c) = false) /\
  (forall k l, volumes w !! k = Some l -> owned id l = false) /\
  (forall k l, networks w !! k = Some l -> owned id l = false).

Section Destroy.
Context (canonical : string -> string) (device : string -> Z).
Abbreviation sem := (docker_sem canonical device).

(** ** One table *)
Section Table.
Context {A : Type} (get : DockerWorld -> gmap string A) (put : gmap string A -> DockerWorld -> DockerWorld).
Context (own : A -> bool) (remove : string -> docker_call (result string unit)).
Context (get_put : forall m w, get (put m w) = m) (put_put : forall m m' w, put m (put m' w) = put m w).
Context (put_get : forall w, put (get w) w = w).
Context (remove_sem : forall k w r w', sem _ (remove k) w r w' ->
  effect w r w' (fun _ w' => w' = put (delete k (get w)) w)).
Context (I : DockerWorld -> Prop) (w0 : DockerWorld).
Context (HI : forall m, removed_only own (get w0) m -> I (put m w0)).

Abbreviation hoare := (hoare_crash sem I).

Lemma noting_spec k what m :
  removed_only own (get w0) m -> (forall a, get w0 !! k = Some a -> own a = true) ->
  hoare (noting (remove k) what) (fun r w' => exists es m', r = Ok es /\ w' = put m' w0 /\
    removed_only own (get w0) m' /\ m' ⊆ m /\ (es = [] -> m' !! k = None)) (put m w0).
Proof.
  intros Hm Hk. unfold noting, ask. apply hoare_io_bind, hoare_req. intros r w' Hr%remove_sem.
  pose proof (removed_only_delete own (get w0) m k Hm Hk) as Hd.
  rewrite get_put, put_put in Hr.
  destruct r as [u|e]; simpl in Hr.
  - subst w'. split; [by apply HI|]. apply hoare_ret, hoare_ret.
    exists [], (delete k m). split_and!; [done|done|done|apply delete_subseteq|].
    intros _. apply lookup_delete_eq.
  - destruct Hr as [-> | [_ ->]]; (split; [by apply HI|]); apply hoare_ret, hoare_ret.
    + by exists [what +:+ ": " +:+ e]%string, m.
    + exists [what +:+ ": " +:+ e]%string, (delete k m). split_and!; [done|done|done|apply delete_subseteq|done].
Qed.

Lemma remove_all_spec {B} (f : B -> dio (list string)) (key : B -> string) items m :
  (forall b, b ∈ items -> (exists what, f b = noting (remove (key b)) what) /\
     forall a, get w0 !! key b = Some a -> own a = true) ->
  removed_only own (get w0) m ->
  hoare (remove_all f items) (fun r w' => exists es m', r = Ok es /\ w' = put m' w0 /\
    removed_only own (get w0) m' /\ m' ⊆ m /\
    (es = [] -> forall b, b ∈ items -> m' !! key b = None)) (put m w0).
Proof.
  revert m. induction items as [|b items IH]; intros m Hi Hm.
  - apply hoare_ret. exists [], m. split_and!; [done|done|done|done|]. by intros _ b ?%elem_of_nil.
  - destruct (Hi b) as [[what Hf] Hk]; [by left|]. cbn [remove_all]. rewrite Hf. apply hoare_io_bind.
    eapply hoare_mono; [by apply noting_spec|]. intros r w' (es & m1 & -> & -> & H1 & Hs1 & Hn1).
    apply hoare_io_bind. eapply hoare_mono; [apply IH; [|exact H1]|].
    { intros b' Hb'. apply Hi. by right. }
    intros r' w' (es' & m2 & -> & -> & H2 & Hs2 & Hn2). apply hoare_ret.
    exists (es ++ es'), m2. split_and!; [done|done|done|by etrans|].
    intros [-> ->]%app_eq_nil b' [->|Hb']%elem_of_cons; [|by apply Hn2].
    destruct (m2 !! key b) as [a|] eqn:Ea; [|done]. eapply lookup_weaken in Ea; [|exact Hs2].
    by rewrite Hn1 in Ea.
Qed.

(** From the table as it is. *)
Lemma remove_all_here {B} (f : B -> dio (list string)) (key : B -> string) items :
  (forall b, b ∈ items -> (exists what, f b = noting (remove (key b)) what) /\
     forall a, get w0 !! key b = Some a -> own a = true) ->
  hoare (remove_all f items) (fun r w' => exists es m', r = Ok es /\ w' = put m' w0 /\
    removed_only own (get w0) m' /\ m' ⊆ get w0 /\
    (es = [] -> forall b, b ∈ items -> m' !! key b = None)) w0.
Proof.
  intros Hi. pose proof (remove_all_spec f key items (get w0) Hi (removed_only_refl _ _)) as Hs.
  by rewrite put_get in Hs.
Qed.
End Table.

(** ** The three tables *)
Section Execution.
Context (labels : OwnershipLabels).
Abbreviation id := (OwnershipLabels.execution_id labels).
Abbreviation selector := (OwnershipLabels.selector labels).

Lemma destroy_containers_spec (I : DockerWorld -> Prop) w :
  (forall m, removed_only (fun c => owned id (Container.labels c)) (containers w) m -> I (set_containers m w)) ->
  hoare_crash sem I (destroy_containers selector) (fun r w' => exists es m, r = Ok es /\
    w' = set_containers m w /\ removed_only (fun c => owned id (Container.labels c)) (containers w) m /\
    (es = [] -> forall k c, m !! k = Some c -> owned id (Container.labels c) = false)) w.
Proof.
  intros HI. unfold destroy_containers, ask. apply hoare_io_bind, hoare_req. intros r w' [-> Hr].
  assert (set_containers (containers w) w = w) as Hw by by destruct w.
  split; [rewrite <- Hw at 1; apply HI, removed_only_refl|]. apply hoare_ret. destruct r as [items|e]; simpl.
  2: { apply hoare_ret. exists ["list owned containers: " +:+ e]%string, (containers w).
       split_and!; [done|done|apply removed_only_refl|done]. }
  destruct Hr as [Hall Hitems].
  eapply hoare_mono;
    [apply (remove_all_here containers set_containers (fun c => owned id (Container.labels c))
       (fun k => Docker.RemoveContainer k true)) with
       (key := fun s => default ""%string (ContainerSummary.id s)); try done; try by intros []|].
  - intros b Hb. destruct (Hitems b Hb) as (k & c & Hk & Hsel & Hid & _). rewrite Hid. simpl.
    split; [by eexists|]. intros c' Hc'. rewrite Hk in Hc'. injection Hc' as <-. by rewrite <- selects_owned.
  - intros r w' (es & m & -> & -> & Hm & _ & Hes). exists es, m. split_and!; [done|done|done|].
    intros He k c Hc. destruct (owned id (Container.labels c)) eqn:Ho; [|done].
    rewrite <- selects_owned in Ho. destruct (Hall k c) as (s & Hs & Hid & _);
      [by eapply lookup_weaken, Hm|done|]. specialize (Hes He s Hs). rewrite Hid in Hes. simpl in Hes. congruence.
Qed.

Lemma destroy_volumes_spec (I : DockerWorld -> Prop) w :
  (forall m, removed_only (owned id) (volumes w) m -> I (set_volumes m w)) ->
  hoare_crash sem I (destroy_volumes selector) (fun r w' => exists es m, r = Ok es /\
    w' = set_volumes m w /\ removed_only (owned id) (volumes w) m /\
    (es = [] -> forall k l, m !! k = Some l -> owned id l = false)) w.
Proof.
  intros HI. unfold destroy_volumes, ask. apply hoare_io_bind, hoare_req. intros r w' [-> Hr].
  assert (set_volumes (volumes w) w = w) as Hw by by destruct w.
  split; [rewrite <- Hw at 1; apply HI, removed_only_refl|]. apply hoare_ret. destruct r as [items|e]; simpl.
  2: { apply hoare_ret. exists ["list owned volumes: " +:+ e]%string, (volumes w).
       split_and!; [done|done|apply removed_only_refl|done]. }
  destruct Hr as [Hall Hitems].
  eapply hoare_mono;
    [apply (remove_all_here volumes set_volumes (owned id) Docker.RemoveVolume) with
       (key := fst); try done; try by intros []|].
  - intros b Hb. destruct (Hitems b Hb) as (k & l & Hk & Hsel & ->). simpl.
    split; [by eexists|]. intros l' Hl'. rewrite Hk in Hl'. injection Hl' as <-. by rewrite <- selects_owned.
  - intros r w' (es & m & -> & -> & Hm & _ & Hes). exists es, m. split_and!; [done|done|done|].
    intros He k l Hl. destruct (owned id l) eqn:Ho; [|done].
    rewrite <- selects_owned in Ho. destruct (Hall k l) as (s & Hs & ->);
      [by eapply lookup_weaken, Hm|done|]. specialize (Hes He _ Hs). simpl in Hes. congruence.
Qed.

Lemma destroy_networks_spec (I : DockerWorld -> Prop) w :
  (forall m, removed_only (owned id) (networks w) m -> I (set_networks m w)) ->
  hoare_crash sem I (destroy_networks selector) (fun r w' => exists es m, r = Ok es /\
    w' = set_networks m w /\ removed_only (owned id) (networks w) m /\
    (es = [] -> forall k l, m !! k = Some l -> owned id l = false)) w.
Proof.
  intros HI. unfold destroy_networks, ask. apply hoare_io_bind, hoare_req. intros r w' [-> Hr].
  assert (set_networks (networks w) w = w) as Hw by by destruct w.
  split; [rewrite <- Hw at 1; apply HI, removed_only_refl|]. apply hoare_ret. destruct r as [items|e]; simpl.
  2: { apply hoare_ret. exists ["list owned networks: " +:+ e]%string, (networks w).
       split_and!; [done|done|apply removed_only_refl|done]. }
  destruct Hr as [Hall Hitems].
  eapply hoare_mono;
    [apply (remove_all_here networks set_networks (owned id) Docker.RemoveNetwork) with
       (key := fun n => default ""%string n.1); try done; try by intros []|].
  - intros b Hb. destruct (Hitems b Hb) as (k & l & Hk & Hsel & ->). simpl.
    split; [by eexists|]. intros l' Hl'. rewrite Hk in Hl'. injection Hl' as <-. by rewrite <- selects_owned.
  - intros r w' (es & m & -> & -> & Hm & _ & Hes). exists es, m. split_and!; [done|done|done|].
    intros He k l Hl. destruct (owned id l) eqn:Ho; [|done].
    rewrite <- selects_owned in Ho. destruct (Hall k l) as (s & Hs & ->);
      [by eapply lookup_weaken, Hm|done|]. specialize (Hes He _ Hs). simpl in Hes. congruence.
Qed.

Lemma harmless_preamble client_version runtime :
  all_calls harmless (require_compatible_daemon client_version runtime) /\
  all_calls harmless (require_cleanup_authority runtime labels).
Proof.
  split.
  - split; [done|]. intros [v|e]; [|done]. simpl.
    destruct (validate_daemon_api _ _ _ _); [|done]. by split.
  - unfold require_cleanup_authority. destruct (DockerRuntime.cleanup_labels runtime); [|done].
    apply all_calls_io_bind; [done|intros _]. apply all_calls_io_bind; [done|intros receipt].
    apply all_calls_io_bind; [done|intros _]. split; [done|]. intros [id|e]; [|done].
    by apply all_calls_io_bind.
Qed.

Lemma destroy_spec client_version runtime w :
  hoare_crash sem (destroyed id w) (destroy client_version runtime labels) (fun r w' =>
    destroyed id w w' /\ (forall u, r = Ok u -> nothing_left id w') /\
    (forall e, r = Err e -> w' = w \/ exists m, e = RuntimeError.Cleanup m)) w.
Proof.
  destruct (harmless_preamble client_version runtime) as [Hd Ha].
  unfold destroy. apply hoare_io_bind. eapply hoare_mono; [apply hoare_harmless; [exact Hd|apply destroyed_refl]|].
  intros [u|e] w' ->; [|split_and!; [apply destroyed_refl|done|by left]].
  apply hoare_io_bind. eapply hoare_mono; [apply hoare_harmless; [exact Ha|apply destroyed_refl]|].
  intros [u'|e] w' ->; [|split_and!; [apply destroyed_refl|done|by left]].
  apply hoare_io_bind. eapply hoare_mono; [apply destroy_containers_spec|].
  { intros m Hm. split_and!; [done|apply removed_only_refl..]. }
  intros r1 w1 (e1 & cs & -> & -> & Hcs & Hn1).
  apply hoare_io_bind. eapply hoare_mono; [apply destroy_volumes_spec|].
  { intros m Hm. split_and!; [done|done|apply removed_only_refl]. }
  intros r2 w2 (e2 & vs & -> & -> & Hvs & Hn2). simpl in Hvs.
  apply hoare_io_bind. eapply hoare_mono; [apply destroy_networks_spec|].
  { intros m Hm. by split_and!. }
  intros r3 w3 (e3 & ns & -> & -> & Hns & Hn3). simpl in Hns.
  apply hoare_ret. split; [by split_and!|]. unfold check.
  case_bool_decide as He; (split; [|intros e [= <-]; right; by eexists]); [|done].
  intros _ _. apply app_eq_nil in He as [-> [-> ->]%app_eq_nil].
  split_and!; [exact (Hn1 eq_refl)|exact (Hn2 eq_refl)|exact (Hn3 eq_refl)].
Qed.
End Execution.

(** Destruction is exact.  Whatever the daemon answers, and wherever the
    destruction is cut short, the only containers, volumes and networks that
    are gone are those labelled with the execution's id; if it reports success,
    none of these is left. *)
Theorem destroy_exact client_version runtime labels w tr r w' :
  exec sem quiet (destroy client_version runtime labels) w tr r w' ->
  destroyed (OwnershipLabels.execution_id labels) w w' /\
  (forall u, r = Some (Ok u) -> nothing_left (OwnershipLabels.execution_id labels) w').
Proof.
  intros He. destruct (hoare_exec _ _ _ _ _ _ _ _ He (destroyed_refl _ w)
    (destroy_spec labels client_version runtime w)) as [Hd Hr].
  split; [done|]. intros u ->. by destruct (Hr _ eq_refl) as (_ & Hn & _); eapply Hn.
Qed.
End Destroy.

(** ** An execution's container beside a foreign one *)
Definition ex_owned : Container := container_of "autospec-e-1-agent"
  {| Config.image := None; Config.entrypoint := None; Config.cmd := None; Config.user := None; Config.env := None;
     Config.labels := OwnershipLabels.to_map ex_labels; Config.host_config := host_limits ex_requirement;
     Config.networks := []; Config.network_disabled := true |}.
Definition ex_before : DockerWorld := set_networks {["n1"%string := OwnershipLabels.to_map ex_labels]}
  (set_containers (<["c1"%string := ex_owned]> (containers ex_world)) ex_world).
Definition ex_destroy : dio unit := destroy "1.44" ex_runtime ex_labels.

Lemma ex_destroyed : run (serve ex_host) ex_destroy ex_before = (Ok tt, ex_world).
Proof. by vm_compute. Qed.

Lemma destroy_exact_witness :
  exists tr, exec (docker_sem (fun p => p) (fun _ => 0)) quiet ex_destroy ex_before tr (Some (Ok tt)) ex_world /\
  destroyed "e-1" ex_before ex_world /\ nothing_left "e-1" ex_world.
Proof.
  destruct (run_exec (serve ex_host) (docker_sem (fun p => p) (fun _ => 0)) quiet ex_destroy ex_before
    (fun B c w => serve_sem ex_host B c w)) as [tr He].
  rewrite ex_destroyed in He. exists tr. split; [exact He|].
  destruct (destroy_exact (fun p => p) (fun _ => 0) "1.44" ex_runtime ex_labels ex_before tr _ _ He) as [Hd Hn].
  split; [exact Hd|by eapply Hn].
Defined.
