(* ===== verification/DockerConfined.v ===== *)
(** * Provisioning keeps to its execution

    [provision] of [DockerRun.v] against the daemon of [DockerWorld.v]: what it
    creates carries the execution's labels, it starts only what it created and
    verified, and it takes back what it made when it fails. *)

From Stdlib Require Import Ascii.
From S2P Require Import Prelude Core Lifecycle Database Effects StorageModel FileSystem BuildCache Docker DockerMounts DockerProvision DockerCleanup DockerWorld DockerDestroy.













Section Confined.
Context `{JsonText} (client_version : string).
Context (sha256 : string -> string) (to_rfc3339 : Timestamp -> string).
Context (runtime : DockerRuntime) (labels : OwnershipLabels) (requirement : RuntimeRequirement).
Context (services : list ServiceRequirement).
Context (canonical : string -> string) (device : string -> Z).

Abbreviation sem := (docker_sem canonical device).
Abbreviation id := (OwnershipLabels.execution_id labels).
Abbreviation label_map := (OwnershipLabels.to_map labels).

(** ** The shared cache *)

(** A directory of the configured build cache. *)
Definition cache_dir (p : string) : Prop :=
  exists config key, DockerRuntime.build_cache runtime = Some config /\
    validate_safe_component key "build cache key" = Ok tt /\
    p = canonical (canonical (join (join (BuildCacheConfig.root config) "sccache") key)).

Lemma yields_plan_build_cache w image lockfile :
  yields canonical device w (plan_build_cache sha256 to_rfc3339 runtime labels requirement image lockfile)
    (fun o => forall p, o = Some p -> cache_dir (BuildCachePlan.source p)).
Proof.
  unfold plan_build_cache. destruct (existsb _ _); [|by apply yields_mret]. cbv [negb].
  apply yields_some. intros config Hc.
  eapply yields_bind with (P := fun m => validate_safe_component (build_cache_key sha256 image lockfile)
      "build cache key" = Ok tt /\ Mount.source m =
      Some (canonical (join (join (BuildCacheConfig.root config) "sccache") (build_cache_key sha256 image lockfile)))).
  - unfold build_cache_mount. eapply yields_bind with
      (P := fun _ => validate_safe_component (build_cache_key sha256 image lockfile) "build cache key" = Ok tt).
    { by apply yields_result; intros []. }
    intros [] Hv.
    do 6 (apply yields_skip; intros ?). eapply ends_mono; [apply yields_bind_mount|].
    intros [m|e]; [|done]. intros Hm. by split.
  - intros m [Hv Hm]. rewrite Hm. eapply yields_bind; [apply yields_canonicalize|]. intros ? ->.
    apply yields_skip. intros _. apply yields_mret. intros ? [= <-]. by exists config, (build_cache_key sha256 image lockfile).
Qed.

Lemma yields_plan layout w :
  yields canonical device w (plan sha256 to_rfc3339 runtime labels requirement services layout)
    (fun p => forall c, cache p = Some c -> cache_dir (BuildCachePlan.source c)).
Proof.
  unfold plan. apply yields_skip. intros image. do 8 (apply yields_skip; intros ?).
  eapply yields_bind; [apply yields_plan_build_cache|]. intros o Ho.
  apply yields_skip. intros ms. apply yields_mret. exact Ho.
Qed.

(** ** What the daemon has of this provisioning *)
Definition execution_root : string :=
  match ExecutionLayout.new (DockerRuntime.state_root runtime) id with
  | Ok layout => ExecutionLayout.root layout
  | Err _ => ""
  end.

(** The configuration asked for: the execution's labels, its limits, a read-only
    root, no privilege, and for the agent - the container with a user - no
    capability but those a root agent keeps. *)
Definition hardened (config : Config) : Prop :=
  let host := Config.host_config config in
  let limits := host_limits requirement in
  Config.labels config = label_map /\
  HostConfig.memory host = HostConfig.memory limits /\
  HostConfig.memory_swap host = HostConfig.memory limits /\
  HostConfig.nano_cpus host = HostConfig.nano_cpus limits /\
  HostConfig.pids_limit host = Some DEFAULT_PIDS_LIMIT /\
  HostConfig.privileged host = Some false /\ HostConfig.readonly_rootfs host = Some true /\
  HostConfig.publish_all_ports host = Some false /\ HostConfig.tmpfs host = None /\
  (HostConfig.network_mode host = Some (network_name id) \/ HostConfig.network_mode host = Some "none"%string) /\
  (DockerRuntime.hardening runtime = Enforced ->
     HostConfig.security_opt host = Some [NO_NEW_PRIVILEGES] /\
     (Config.user config <> None -> HostConfig.cap_drop host = Some ["ALL"%string] /\
        HostConfig.cap_add host = if is_root_user (DockerRuntime.agent_user runtime)
                                  then Some ROOT_AGENT_RETAINED_CAPABILITIES else None)).

(** Verified against the binds it was asked with; only the agent's may include
    the shared cache. *)
Definition checked (c : Container) : Prop :=
  exists ms external, HostConfig.mounts (Config.host_config (Container.requested c)) = Some ms /\
    verified canonical device execution_root external ms c /\
    (forall e, external = Some e -> Config.user (Container.requested c) <> None /\ cache_dir e).

(** What may be started: it was verified, or was asked without any bind. *)
Definition startable (c : Container) : Prop :=
  HostConfig.mounts (Config.host_config (Container.requested c)) = None \/ checked c.

(** A container of this provisioning. *)
Definition made (c : Container) : Prop :=
  label_map ⊆ Container.labels c /\ hardened (Container.requested c) /\
  (Container.running c = true -> startable c).

Lemma hardened_service service network ms :
  network = network_name id -> hardened (service_config runtime labels requirement service network ms).
Proof.
  intros ->. unfold hardened, service_config, harden_service. simpl.
  destruct (DockerRuntime.hardening runtime); split_and!; auto; done.
Qed.
Lemma hardened_relay network relay :
  network = network_name id -> hardened (relay_config runtime labels requirement network relay).
Proof.
  intros ->. unfold hardened, relay_config, harden_service. simpl.
  destruct (DockerRuntime.hardening runtime); split_and!; auto; done.
Qed.
Lemma hardened_agent image network ms cache :
  network = network_name id -> hardened (agent_config runtime labels requirement image network ms cache).
Proof.
  intros ->. unfold hardened, agent_config, harden_agent. simpl.
  destruct (DockerRuntime.hardening runtime), (is_root_user _); split_and!; auto; done.
Qed.
Lemma hardened_verifier trusted ms n : hardened (verifier_config labels requirement trusted ms n).
Proof. unfold hardened, verifier_config. simpl. split_and!; auto. by intros. Qed.

Lemma startable_started c : startable c -> startable (Container.started c).
Proof. done. Qed.

Lemma made_started c : made c -> startable c -> made (Container.started c).
Proof. intros (Hl & Hh & _) Hs. by split_and!. Qed.

(** ** The daemon during the provisioning *)
Section During.
Context (w0 : DockerWorld).

Record during (w : DockerWorld) : Prop := {
  containers_kept : containers w0 ⊆ containers w;
  containers_made k c : containers w !! k = Some c -> containers w0 !! k = None -> made c;
  ids_wf k c : containers w !! k = Some c -> container_id k;
  volumes_kept : volumes w = volumes w0;
  networks_kept : networks w0 ⊆ networks w;
  networks_made k l : networks w !! k = Some l -> networks w0 !! k = None -> l = label_map
}.

(** [x] stands for the container [c] of ours at [k], and for nothing else. *)
Definition pinned (w : DockerWorld) (x k : string) (c : Container) : Prop :=
  containers w !! k = Some c /\ containers w0 !! k = None /\
  (x = k \/ (~ container_id x /\ Container.name c = x /\
             forall k' c', containers w !! k' = Some c' -> Container.name c' = x -> k' = k)).

Lemma pinned_refers w x k c k' c' :
  during w -> pinned w x k c -> refers w x k' c' -> k' = k /\ c' = c.
Proof.
  intros Hd (Hk & _ & Hx) [Hk' Hr]. enough (k' = k) as -> by (split; [done|congruence]).
  destruct Hr as [->|[Hn Hname]], Hx as [->|(Hx & Hnm & Hu)].
  - done.
  - destruct Hx. by eapply ids_wf.
  - congruence.
  - by eapply Hu.
Qed.

(** Nothing goes but a container may be started, and new ones have new names. *)
Definition grows (w w1 : DockerWorld) : Prop :=
  (forall k c, containers w !! k = Some c -> exists c1, containers w1 !! k = Some c1 /\
     (c1 = c \/ c1 = Container.started c)) /\
  (forall k c1, containers w1 !! k = Some c1 -> containers w !! k = None ->
     forall k' c', containers w !! k' = Some c' -> Container.name c' <> Container.name c1).

Lemma grows_refl w : grows w w.
Proof. split; [intros k c Hk; exists c; auto|intros; congruence]. Qed.

Lemma grows_same w w1 : containers w1 = containers w -> grows w w1.
Proof. intros He. unfold grows. rewrite He. apply grows_refl. Qed.

Lemma grows_trans w1 w2 w3 : grows w1 w2 -> grows w2 w3 -> grows w1 w3.
Proof.
  intros [H1 N1] [H2 N2]. split.
  - intros k c (c2 & Hk2 & Hc2)%H1. apply H2 in Hk2 as (c3 & Hk3 & Hc3). exists c3. split; [done|].
    destruct Hc2 as [-> | ->], Hc3 as [-> | ->]; auto.
  - intros k c3 Hk3 Hn k' c' Hk'. destruct (containers w2 !! k) as [c2|] eqn:E2.
    + destruct (H2 _ _ E2) as (? & Hk3' & Hc). specialize (N1 k c2 E2 Hn k' c' Hk').
      assert (Container.name c3 = Container.name c2) as -> by (destruct Hc as [-> | ->]; simplify_eq; done). done.
    + destruct (H1 _ _ Hk') as (c2 & Hk2 & Hc). specialize (N2 k c3 Hk3 E2 k' c2 Hk2).
      by destruct Hc as [-> | ->].
Qed.

Lemma pinned_grows w w1 x k c :
  grows w w1 -> pinned w x k c -> exists c1, pinned w1 x k c1 /\ (c1 = c \/ c1 = Container.started c).
Proof.
  intros [Hg Hn] (Hk & H0 & Hx). destruct (Hg _ _ Hk) as (c1 & Hk1 & Hc). exists c1. split; [|done].
  split_and!; [done|done|]. destruct Hx as [->|(Hx & Hname & Hu)]; [by left|right].
  split_and!; [done|by destruct Hc as [-> | ->]|]. intros k' c' Hk' Hname'.
  destruct (containers w !! k') as [c0|] eqn:E.
  - apply (Hu k' c0 E). destruct (Hg _ _ E) as (c2 & Hk2 & Hc2).
    assert (Container.name c0 = Container.name c2) as -> by by destruct Hc2 as [-> | ->]. congruence.
  - exfalso. apply (Hn k' c' Hk' E k c Hk). congruence.
Qed.

(** What [x] stands for may be started. *)
Definition ready (w : DockerWorld) (x : string) : Prop := exists k c, pinned w x k c /\ startable c.

Lemma ready_grows w w1 x : grows w w1 -> ready w x -> ready w1 x.
Proof.
  intros Hg (k & c & Hp & Hs). destruct (pinned_grows _ _ _ _ _ Hg Hp) as (c1 & Hp1 & Hc).
  exists k, c1. split; [done|]. by destruct Hc as [-> | ->].
Qed.

Lemma all_ready_grows w w1 xs : grows w w1 -> Forall (ready w) xs -> Forall (ready w1) xs.
Proof. intros Hg Hf. eapply Forall_impl; [exact Hf|]. intros x. by apply ready_grows. Qed.

(** ** Steps *)
Abbreviation hoare := (hoare_crash sem during).

(** The provisioning goes on from [w] only with what it had there. *)
Definition reaches {A} (w : DockerWorld) (P : A -> DockerWorld -> Prop) (r : result RuntimeError A)
    (w1 : DockerWorld) : Prop :=
  during w1 /\ match r with Ok a => grows w w1 /\ P a w1 | Err _ => True end.

Lemma reach_bind {A B} (m : dio A) (f : A -> dio B) w P P' :
  hoare m (reaches w P) w ->
  (forall a w1, during w1 -> grows w w1 -> P a w1 -> hoare (f a) (reaches w1 P') w1) ->
  hoare (m ≫= f) (reaches w P') w.
Proof.
  intros Hm Hf. apply hoare_io_bind. eapply hoare_mono; [exact Hm|].
  intros [a|e] w1 [Hd Ha]; [|by split]. destruct Ha as [Hg Ha].
  eapply hoare_mono; [by apply Hf|]. intros [b|e] w2 [Hd2 Hb]; (split; [done|]); [|done].
  destruct Hb as [Hg2 Hb]. split; [by eapply grows_trans|done].
Qed.

Lemma reach_yields {A B} (m : dio A) (f : A -> dio B) w P P' :
  all_calls harmless m -> yields canonical device w m P -> during w ->
  (forall a, P a -> hoare (f a) (reaches w P') w) -> hoare (m ≫= f) (reaches w P') w.
Proof.
  intros Hm Hy Hd Hf. apply hoare_io_bind. eapply hoare_mono; [by eapply hoare_yields|].
  intros [a|e] w1 [-> Ha]; [by apply Hf|by split].
Qed.

Lemma reach_skip {A B} (m : dio A) (f : A -> dio B) w P :
  all_calls harmless m -> during w -> (forall a, hoare (f a) (reaches w P) w) ->
  hoare (m ≫= f) (reaches w P) w.
Proof.
  intros Hm Hd Hf. eapply reach_yields with (P := fun _ => True); [done| |done|auto].
  apply ends_any. by intros [a|e].
Qed.

Lemma reach_mret {A} (a : A) w (P : A -> DockerWorld -> Prop) :
  during w -> P a w -> hoare (mret a : dio A) (reaches w P) w.
Proof. intros Hd Ha. apply hoare_ret. split; [done|]. split; [apply grows_refl|done]. Qed.

Lemma during_insert w k c :
  during w -> container_id k -> containers w0 !! k = None -> made c ->
  during (set_containers (<[k := c]> (containers w)) w).
Proof.
  intros [Hk Hm Hi Hv Hn Hnm] Hid H0 Hc. split; simpl; [| | |done|done|done].
  - by apply insert_subseteq_r.
  - intros k' c' [[<- <-]|[_ Hk']]%lookup_insert_Some; [done|by eapply Hm].
  - intros k' c' [[<- <-]|[_ Hk']]%lookup_insert_Some; [done|by eapply Hi].
Qed.

Lemma hoare_effect {A B} (c : docker_call (result string A)) (f : string -> RuntimeError) (k : A -> dio B) w
    (done_ : A -> DockerWorld -> Prop) Q :
  (forall r w', sem _ c w r w' -> effect w r w' done_) -> during w ->
  (forall a w', done_ a w' -> during w' /\ hoare (k a) Q w') ->
  (forall e w', w' = w \/ (exists a, done_ a w') -> during w' -> Q (Err e) w') ->
  hoare (ask_or c f ≫= k) Q w.
Proof.
  intros Hs Hd Hk He. apply hoare_io_bind, hoare_req. intros r w' Hr%Hs.
  destruct r as [a|e]; simpl in Hr.
  - destruct (Hk a w' Hr) as [Hd' Hk']. split; [done|]. by apply hoare_ret.
  - assert (during w') as Hd' by (destruct Hr as [->|(a & Ha)]; [done|by apply Hk in Ha as []]).
    split; [done|]. apply hoare_ret. by apply He.
Qed.

Lemma created_during name config w key w1 :
  during w -> hardened config -> created name config w key w1 ->
  during w1 /\ containers w !! key = None /\ exists c, w1 = set_containers (<[key := c]> (containers w)) w /\
    pinned w1 key key c /\ Container.requested c = config /\ Container.name c = name.
Proof.
  intros Hd Hh (Hn & Hid & _ & c & Hcn & Hreq & Hlab & Hrun & ->).
  assert (containers w0 !! key = None) as H0 by (by eapply lookup_weaken_None, containers_kept).
  split; [|split; [done|exists c; split_and!; [done|split_and!; [apply lookup_insert_eq|done|by left]|done|done]]].
  apply during_insert; try done. split_and!; [|by rewrite Hreq|by rewrite Hrun].
  by rewrite <- (proj1 Hh).
Qed.

Lemma created_grows name config w key w1 : created name config w key w1 -> grows w w1.
Proof.
  intros (Hn & _ & Hfree & c & Hcn & _ & _ & _ & ->). split; simpl.
  - intros k' c' Hk'. exists c'. rewrite lookup_insert_ne by congruence. auto.
  - intros k' c1 [[<- <-]|[_ Hk']]%lookup_insert_Some Hn' k2 c2 Hk2; [|congruence].
    rewrite Hcn. by eapply Hfree.
Qed.

Lemma reach_create {B} name config f (k : string -> dio B) w P :
  during w -> hardened config -> ~ container_id name ->
  (forall key c w1, during w1 -> grows w w1 -> pinned w1 name key c -> pinned w1 key key c ->
     Container.requested c = config -> Container.name c = name -> hoare (k key) (reaches w1 P) w1) ->
  hoare (ask_or (Docker.CreateContainer name config) f ≫= k) (reaches w P) w.
Proof.
  intros Hd Hh Hname Hk. eapply hoare_effect; [by intros r w' Hr; exact Hr|done| |by split].
  intros key w1 Hcr. destruct (created_during _ _ _ _ _ Hd Hh Hcr) as (Hd1 & Hn & c & Hw1 & Hp & Hreq & Hcn).
  pose proof (created_grows _ _ _ _ _ Hcr) as Hg. destruct Hcr as (_ & _ & Hfree & _).
  split; [done|]. eapply hoare_mono; [apply (Hk key c w1); try done|].
  - destruct Hp as (Hk1 & Hk0 & _). split_and!; [done|done|]. right. split_and!; [done|done|]. rewrite Hw1. simpl.
    intros k' c' [[<- <-]|[_ Hk']]%lookup_insert_Some Hn'; [done|]. by eapply Hfree in Hk'.
  - intros [b|e] w2 [Hd2 Hb]; (split; [done|]); [|done]. destruct Hb as [Hg2 Hb].
    split; [by eapply grows_trans|done].
Qed.

Lemma started_during w x k c k' c' :
  during w -> pinned w x k c -> startable c -> refers w x k' c' ->
  during (set_containers (<[k' := Container.started c']> (containers w)) w) /\ k' = k /\ c' = c.
Proof.
  intros Hd Hp Hs Hr. destruct (pinned_refers _ _ _ _ _ _ Hd Hp Hr) as [-> ->]. split; [|done].
  destruct Hp as (Hk & H0 & _). apply during_insert; [done|by eapply ids_wf|done|].
  apply made_started; [by eapply containers_made|done].
Qed.

Lemma started_grows w k c :
  containers w !! k = Some c -> grows w (set_containers (<[k := Container.started c]> (containers w)) w).
Proof.
  intros Hk. split; simpl.
  - intros k' c' Hk'. destruct (decide (k' = k)) as [->|Hne].
    + exists (Container.started c). rewrite lookup_insert_eq. split; [done|right]. congruence.
    + exists c'. rewrite lookup_insert_ne by done. auto.
  - intros k' c1 Hk' Hn. rewrite lookup_insert_ne in Hk' by congruence. congruence.
Qed.

Lemma reach_start {B} x f (k : unit -> dio B) w P :
  during w -> ready w x -> (forall u w1, during w1 -> grows w w1 -> hoare (k u) (reaches w1 P) w1) ->
  hoare (ask_or (Docker.StartContainer x) f ≫= k) (reaches w P) w.
Proof.
  intros Hd (key & c & Hp & Hs) Hk. eapply hoare_effect; [by intros r w' Hr; exact Hr|done| |by split].
  intros u w' (k' & c' & Hr & ->). destruct (started_during _ _ _ _ _ _ Hd Hp Hs Hr) as (Hd1 & -> & ->).
  split; [done|]. assert (grows w (set_containers (<[key := Container.started c]> (containers w)) w)) as Hg
    by apply started_grows, Hp.
  eapply hoare_mono; [by apply Hk|]. intros [b|e] w2 [Hd2 Hb]; (split; [done|]); [|done].
  destruct Hb as [Hg2 Hb]. split; [by eapply grows_trans|done].
Qed.

Lemma reach_network {B} name internal f (k : unit -> dio B) w P :
  during w -> (forall u w1, during w1 -> grows w w1 -> hoare (k u) (reaches w1 P) w1) ->
  hoare (ask_or (Docker.CreateNetwork name internal label_map) f ≫= k) (reaches w P) w.
Proof.
  intros Hd Hk. eapply hoare_effect; [by intros r w' Hr; exact Hr|done| |by split].
  intros u w' (n & Hn & ->). destruct Hd as [H1 H2 H3 H4 H5 H6].
  assert (during (set_networks (<[n := label_map]> (networks w)) w)) as Hd1.
  { split; simpl; try done.
    - apply insert_subseteq_r; [|done]. by eapply lookup_weaken_None.
    - intros k' l [[<- <-]|[_ Hk']]%lookup_insert_Some H0; [done|by eapply H6]. }
  split; [done|]. assert (grows w (set_networks (<[n := label_map]> (networks w)) w)) as Hg by by apply grows_same.
  eapply hoare_mono; [by apply Hk|]. intros [b|e] w2 [Hd2 Hb]; (split; [done|]); [|done].
  destruct Hb as [Hg2 Hb]. split; [exact (grows_trans _ _ _ Hg Hg2)|done].
Qed.

(** ** The programs *)
Lemma not_container_id s : ~ container_id ("autospec-" +:+ s).
Proof. by intros [_ ?]. Qed.

(** The verification of a container of ours. *)
Lemma reach_verify {B} x key c root ms external (k : unit -> dio B) w P :
  during w -> pinned w x key c -> root = execution_root ->
  HostConfig.mounts (Config.host_config (Container.requested c)) = Some ms ->
  (forall e, external = Some e -> Config.user (Container.requested c) <> None /\ cache_dir e) ->
  (forall u, checked c -> hoare (k u) (reaches w P) w) ->
  hoare (verify_container_mount_sources x root ms external ≫= k) (reaches w P) w.
Proof.
  intros Hd Hp -> Hms He Hk. eapply reach_yields;
    [apply harmless_verify_container_mount_sources|apply yields_verify|done|].
  intros u (k' & c' & Hr & Hv). destruct (pinned_refers _ _ _ _ _ _ Hd Hp Hr) as [-> ->].
  apply Hk. by exists ms, external.
Qed.

Lemma create_services_spec items network root all_mounts w :
  during w -> root = execution_root -> network = network_name id ->
  hoare (create_services runtime labels requirement items network root all_mounts)
    (reaches w (fun names w1 => Forall (ready w1) names)) w.
Proof.
  intros Hd Hroot Hnet. revert w Hd. induction items as [|[service ms] items IH]; intros w Hd; cbn [create_services].
  - by apply reach_mret.
  - apply reach_skip; [apply harmless_storage_verify|done|]. intros _.
    apply reach_create; [done|by apply hardened_service|apply not_container_id|].
    intros key c w1 Hd1 Hg1 Hp _ Hreq _.
    apply reach_skip; [apply harmless_storage_verify|done|]. intros _.
    eapply reach_verify; [done|exact Hp|done|by rewrite Hreq|done|]. intros _ Hc.
    eapply reach_bind; [by apply IH|]. intros names w2 Hd2 Hg2 Hr. apply reach_mret; [done|].
    constructor; [|done]. eapply ready_grows; [done|]. exists key, c. split; [done|by right].
Qed.

Lemma create_relay_spec network w :
  during w -> network = network_name id ->
  hoare (create_relay_of runtime labels requirement network)
    (reaches w (fun o w1 => forall x, o = Some x -> ready w1 x)) w.
Proof.
  intros Hd Hnet. unfold create_relay_of. destruct (DockerRuntime.inference_relay runtime) as [relay|];
    [|by apply reach_mret].
  eapply reach_bind with (P := fun x w1 => ready w1 x).
  - unfold create_relay. apply reach_create; [done|by apply hardened_relay|apply not_container_id|].
    intros key c w1 Hd1 Hg1 Hp _ Hreq _.
    apply reach_skip; [by apply harmless_ask_or|done|]. intros _. apply reach_mret; [done|].
    exists key, c. split; [done|]. left. by rewrite Hreq.
  - intros x w1 Hd1 _ Hr. apply reach_mret; [done|]. by intros ? [= <-].
Qed.

Lemma start_services_spec names all_mounts w :
  during w -> Forall (ready w) names ->
  hoare (start_services runtime labels requirement names all_mounts) (reaches w (fun _ _ => True)) w.
Proof.
  revert w. induction names as [|x names IH]; intros w Hd Hr; cbn [start_services].
  - by apply reach_mret.
  - apply Forall_cons in Hr as [Hx Hr]. apply reach_skip; [apply harmless_storage_verify|done|]. intros _.
    apply reach_start; [done|done|]. intros _ w1 Hd1 Hg. apply IH; [done|].
    by eapply all_ready_grows.
Qed.

(** *** The verifier leaves nothing behind *)
Definition probed (w1 : DockerWorld) (k : string) (c : Container) (w2 : DockerWorld) : Prop :=
  during w2 /\ (w2 = w1 \/ w2 = set_containers (<[k := Container.started c]> (containers w1)) w1).

Lemma run_verifier_spec key c ms workload n w :
  during w -> pinned w key key c ->
  HostConfig.mounts (Config.host_config (Container.requested c)) = Some ms ->
  hoare (run_verifier runtime labels requirement key execution_root ms workload n)
    (fun _ w2 => probed w key c w2) w.
Proof.
  intros Hd Hp Hms. assert (probed w key c w) as H0 by (split; auto). unfold run_verifier.
  apply hoare_io_bind. eapply hoare_mono;
    [eapply hoare_yields; [apply harmless_verify_container_mount_sources|apply yields_verify|done]|].
  intros [u|e] w1 [-> Hv]; [|done]. destruct Hv as (k' & c' & Hr & Hv).
  destruct (pinned_refers _ _ _ _ _ _ Hd Hp Hr) as [-> ->].
  assert (startable c) as Hs by (right; exists ms, None; by split_and!).
  apply hoare_io_bind. eapply hoare_mono; [apply hoare_harmless; [by apply harmless_ask_or|done]|].
  intros [u1|e] w1 ->; [|done].
  apply hoare_io_bind. eapply hoare_mono; [apply hoare_harmless; [apply harmless_storage_verify|done]|].
  intros [u2|e] w1 ->; [|done].
  assert (forall w2, probed w key c w2 -> during w2) as Hdw by by intros w2 [].
  eapply hoare_effect with (done_ := fun _ w2 => probed w key c w2);
    [|done| |by intros e w2 [->|(a & Ha)] _].
  - intros r w2 Hr2. eapply effect_mono; [exact Hr2|]. intros _ w' (k2 & c2 & Hr' & ->).
    destruct (started_during _ _ _ _ _ _ Hd Hp Hs Hr') as (Hd2 & -> & ->). split; auto.
  - intros u3 w2 Hpr. split; [by apply Hdw|]. eapply hoare_mono; [apply hoare_harmless; [|by apply Hdw]|].
    + harmless.
    + by intros r w3 ->.
Qed.

Lemma exact_trusted_verifier_id_Ok containers expected x :
  exact_trusted_verifier_id labels containers expected = Ok x -> x = expected.
Proof. intros (s & _ & (l & _ & (u & _ & [= <-])%result_bind_Ok)%result_bind_Ok)%result_bind_Ok. done. Qed.

Lemma probed_lookup w k c w2 k' :
  containers w !! k = Some c -> probed w k c w2 -> k' <> k -> containers w2 !! k' = containers w !! k'.
Proof. intros Hk [_ [-> | ->]] Hne; [done|]. simpl. by rewrite lookup_insert_ne. Qed.

(** The removal of what [w] did not have. *)
Lemma remove_verifier_spec w w1 key c w2 :
  during w -> containers w !! key = None -> containers w1 = <[key := c]> (containers w) ->
  volumes w1 = volumes w -> networks w1 = networks w -> probed w1 key c w2 ->
  hoare (remove_exact_trusted_verifier labels key) (fun r w3 => during w3 /\
    (is_ok r = true -> containers w3 = containers w)) w2.
Proof.
  intros Hd Hn H1 Hv Hnt Hp. assert (during w2) as Hd2 by by destruct Hp.
  unfold remove_exact_trusted_verifier. apply hoare_io_bind.
  eapply hoare_mono; [apply hoare_harmless; [by apply harmless_ask_or|done]|]. intros [items|e] ? ->; [|done].
  apply hoare_io_bind, hoare_ret. destruct (exact_trusted_verifier_id labels items key) as [x|e] eqn:E; [|done].
  apply exact_trusted_verifier_id_Ok in E as ->.
  assert (delete key (containers w2) = containers w) as Hdel.
  { apply map_eq. intros k. destruct (decide (k = key)) as [->|Hne]; [by rewrite lookup_delete_eq|].
    rewrite lookup_delete_ne by done.
    rewrite (probed_lookup w1 key c w2 k) by (try done; rewrite H1; apply lookup_insert_eq).
    rewrite H1. by rewrite lookup_insert_ne. }
  set (w3 := set_containers (delete key (containers w2)) w2).
  assert (during w3) as Hd3.
  { destruct Hp as [_ Hw2]. assert (volumes w2 = volumes w /\ networks w2 = networks w) as [Hv2 Hn2]
      by (destruct Hw2 as [-> | ->]; done).
    destruct Hd as [A1 A2 A3 A4 A5 A6]. unfold w3. rewrite Hdel. split; simpl; rewrite ?Hv2, ?Hn2; done. }
  apply hoare_req. intros r w' Hr. simpl in Hr. destruct r as [u|e]; simpl in Hr.
  - subst w'. split; [done|]. apply hoare_ret. split; [done|]. intros _. exact Hdel.
  - assert (during w') as Hd' by (destruct Hr as [->|[_ ->]]; done).
    split; [done|]. by apply hoare_ret.
Qed.

Lemma verify_with_trusted_container_spec mounts w :
  during w ->
  hoare (verify_with_trusted_container runtime labels requirement execution_root mounts)
    (reaches w (fun _ _ => True)) w.
Proof.
  intros Hd. unfold verify_with_trusted_container.
  apply reach_skip; [unfold trusted_image; harmless|done|]. intros trusted.
  apply reach_skip; [harmless|done|]. intros root.
  apply reach_skip; [apply harmless_verifier_sources|done|]. intros sources.
  apply reach_skip; [apply harmless_proof_mounts|done|]. intros ms.
  apply reach_skip; [apply harmless_storage_verify|done|]. intros _.
  (* the creation does not grow the world: what it makes is gone at the end *)
  eapply hoare_effect with (done_ := fun key w1 => during w1 /\ exists c,
    containers w !! key = None /\ w1 = set_containers (<[key := c]> (containers w)) w /\
    pinned w1 key key c /\ HostConfig.mounts (Config.host_config (Container.requested c)) = Some ms);
    [|done| |by split].
  { intros r w' Hr. eapply effect_mono; [exact Hr|]. intros key w1 Hcr.
    destruct (created_during _ _ _ _ _ Hd (hardened_verifier _ _ _) Hcr) as (Hd1 & Hn & c & -> & Hp & Hreq & _).
    split; [done|]. exists c. split_and!; [done|done|done|by rewrite Hreq]. }
  intros key w1 (Hd1 & c & Hn & -> & Hp & Hms). split; [done|].
  set (w1 := set_containers _ w) in *. apply hoare_io_bind, hoare_outcome_of.
  eapply hoare_mono; [by eapply run_verifier_spec|]. intros r w2 Hp2.
  apply hoare_io_bind, hoare_outcome_of. assert (during w2) as Hd2 by by destruct Hp2.
  eapply hoare_mono; [apply hoare_harmless; [apply harmless_storage_verify|done]|]. intros r2 ? ->.
  apply hoare_io_bind, hoare_outcome_of.
  eapply hoare_mono; [by eapply (remove_verifier_spec w w1 key c w2)|]. intros r3 w3 [Hd3 Hr3].
  apply hoare_ret. split; [done|]. unfold check. destruct (is_ok r && is_ok r2 && is_ok r3) eqn:E; [|done].
  apply andb_true_iff in E as [_ E]. split; [|done]. by apply grows_same, Hr3.
Qed.

(** What a successful provisioning hands out: the capability of a container of
    its own that was verified and started, with exactly its labels and binds. *)
Definition handed_out (layout : ExecutionLayout) (h : EnvironmentHandle) (w : DockerWorld) : Prop :=
  let v := EnvironmentHandle.verified_agent_container h in
  EnvironmentHandle.execution_id h = id /\ VerifiedAgentContainer.labels v = labels /\
  exists c bs, containers w !! VerifiedAgentContainer.container_id v = Some c /\
    containers w0 !! VerifiedAgentContainer.container_id v = None /\
    Container.name c = EnvironmentHandle.agent_container h /\
    Container.running c = true /\ checked c /\ Container.labels c = label_map /\
    Config.user (Container.requested c) = Some (DockerRuntime.agent_user runtime) /\
    mapM (capability_bind canonical) (Container.mounts c) = Some bs /\ Forall (private canonical layout) bs /\
    VerifiedAgentContainer.mounts v ≡ₚ bs.

Lemma launch_spec layout p w :
  during w -> ExecutionLayout.root layout = execution_root ->
  (forall c, cache p = Some c -> cache_dir (BuildCachePlan.source c)) ->
  hoare (launch runtime labels requirement services layout p) (reaches w (handed_out layout)) w.
Proof.
  intros Hd Hroot Hcache. unfold launch.
  apply reach_skip; [apply harmless_storage_verify|done|]. intros _.
  apply reach_network; [done|]. intros _ wn Hdn _.
  eapply reach_bind; [by apply create_services_spec|]. intros names ws Hds _ Hnames.
  eapply reach_bind; [by apply create_relay_spec|]. intros relay w1 Hd1 Hg1 Hrelay.
  assert (Forall (ready w1) names) as Hn1 by by eapply all_ready_grows.
  apply reach_skip; [apply harmless_storage_verify|done|]. intros _.
  apply reach_create; [done|by apply hardened_agent|apply not_container_id|].
  intros key c w2 Hd2 Hg2 _ Hp2 Hreq Hname.
  assert (Forall (ready w2) names) as Hn2 by by eapply all_ready_grows.
  apply reach_skip; [apply harmless_storage_verify|done|]. intros _.
  eapply reach_verify; [done|exact Hp2|done|by rewrite Hreq| |].
  { intros e He. rewrite Hreq. split; [done|]. destruct (cache p) as [plan|]; [|done].
    injection He as <-. by apply Hcache. }
  intros _ Hc. rewrite Hroot.
  eapply reach_bind; [by apply verify_with_trusted_container_spec|]. intros _ w3 Hd3 Hg3 _.
  eapply reach_bind.
  { apply start_services_spec; [done|]. by eapply all_ready_grows. }
  intros _ w4 Hd4 Hg4 _. pose proof (grows_trans _ _ _ Hg3 Hg4) as Hg24.
  eapply reach_bind with (P := fun _ _ => True).
  { destruct relay as [x|]; [|by apply reach_mret]. unfold start_relay.
    assert (ready w4 x) as Hx by (eapply ready_grows; [exact (grows_trans _ _ _ Hg2 Hg24)|by apply Hrelay]).
    destruct Hx as (kx & cx & Hpx & Hsx). apply hoare_req. intros r w' Hr. simpl in Hr.
    assert (effect w4 r w' (fun _ w' => during w' /\ grows w4 w')) as He.
    { eapply effect_mono; [exact Hr|]. intros _ w5 (k' & c' & Hr' & ->).
      destruct (started_during _ _ _ _ _ _ Hd4 Hpx Hsx Hr') as (Hd5 & -> & ->). split; [done|].
      apply started_grows, Hpx. }
    destruct r as [u|e]; simpl in He.
    - destruct He as [Hd5 Hg5]. split; [done|]. by apply hoare_ret.
    - assert (during w') as Hd' by (destruct He as [->|(_ & ? & _)]; done).
      split; [done|]. by apply hoare_ret. }
  intros _ w5 Hd5 Hg5 _. pose proof (grows_trans _ _ _ Hg24 Hg5) as Hg25.
  apply reach_skip; [apply harmless_storage_verify|done|]. intros _.
  apply reach_start; [done| |].
  { eapply ready_grows; [exact Hg25|]. exists key, c. split; [done|by right]. }
  intros _ w6 Hd6 Hg6. pose proof (grows_trans _ _ _ Hg25 Hg6) as Hg26.
  apply reach_skip; [case_match; harmless|done|]. intros _.
  destruct (pinned_grows _ _ _ _ _ Hg26 Hp2) as (c6 & Hp6 & Hc6).
  assert (checked c6 /\ Container.requested c6 = Container.requested c /\ Container.name c6 = Container.name c)
    as (Hch6 & Hreq6 & Hname6) by (destruct Hc6 as [-> | ->]; done).
  eapply reach_yields; [apply harmless_issue|apply yields_issue|done|].
  intros v (Hv & Hvl & c7 & bs & Hr7 & Hrun & Hl & _ & Hbs & Hpriv & Hperm).
  destruct (pinned_refers _ _ _ _ _ _ Hd6 Hp6 Hr7) as [_ ->].
  apply reach_mret; [done|]. split_and!; [done|done|]. exists c6, bs. simpl. rewrite Hv.
  destruct Hp6 as (Hk6 & H06 & _). split_and!; try done; [by rewrite Hname6|by rewrite Hreq6, Hreq].
Qed.

Lemma provision_inner_spec layout w :
  during w -> ExecutionLayout.root layout = execution_root ->
  hoare (provision_inner sha256 to_rfc3339 runtime labels requirement services layout)
    (reaches w (handed_out layout)) w.
Proof.
  intros Hd Hroot. unfold provision_inner.
  eapply reach_yields; [apply harmless_plan|apply yields_plan|done|]. intros p Hp. by apply launch_spec.
Qed.

(** ** The provisioning as a whole *)

(** A table of the daemon: its rows are as they were but for owned ones that are
    gone, and its new ones are [fresh]. *)
Definition table_kept {A} (own fresh : A -> Prop) (before after : gmap string A) : Prop :=
  (forall k a, before !! k = Some a -> after !! k = Some a \/ (after !! k = None /\ own a)) /\
  (forall k a, before !! k = None -> after !! k = Some a -> fresh a).

(** What is not the execution's is untouched, and what is new is [made]. *)
Definition keeps_to_execution (w : DockerWorld) : Prop :=
  table_kept (fun c => owned id (Container.labels c) = true) made (containers w0) (containers w) /\
  table_kept (fun l => owned id l = true) (fun _ => False) (volumes w0) (volumes w) /\
  table_kept (fun l => owned id l = true) (fun l => l = label_map) (networks w0) (networks w).

Lemma table_kept_removed {A} (own : A -> bool) fresh (m0 m1 m2 : gmap string A) :
  m0 ⊆ m1 -> (forall k a, m1 !! k = Some a -> m0 !! k = None -> fresh a) -> removed_only own m1 m2 ->
  table_kept (fun a => own a = true) fresh m0 m2.
Proof.
  intros Hs Hf [Hs2 Hr]. split.
  - intros k a Ha. pose proof (lookup_weaken _ _ _ _ Ha Hs) as H1. destruct (m2 !! k) as [b|] eqn:E.
    + left. pose proof (lookup_weaken _ _ _ _ E Hs2). congruence.
    + right. split; [done|by eapply Hr].
  - intros k a Hn Ha. eapply Hf; [by eapply lookup_weaken|done].
Qed.

Lemma destroyed_keeps w w1 : during w -> destroyed id w w1 -> keeps_to_execution w1.
Proof.
  intros [A1 A2 A3 A4 A5 A6] (D1 & D2 & D3). split_and!.
  - by eapply (table_kept_removed (fun c => owned id (Container.labels c))).
  - rewrite A4 in D2. eapply (table_kept_removed (owned id)); [done| |exact D2]. by intros; congruence.
  - by eapply (table_kept_removed (owned id)).
Qed.

Lemma during_keeps w : during w -> keeps_to_execution w.
Proof. intros Hd. eapply destroyed_keeps; [done|apply destroyed_refl]. Qed.

Definition rolled_back (e : RuntimeError) : Prop := exists cause failure,
  e = provisioning ("execution_id=" +:+ id +:+ ": " +:+ RuntimeError.to_string cause +:+
    "; rollback failed: " +:+ RuntimeError.to_string failure).

Lemma provision_spec :
  map_Forall (fun k _ => container_id k) (containers w0) ->
  hoare_crash sem keeps_to_execution
    (provision client_version sha256 to_rfc3339 runtime labels requirement services)
    (fun r w => keeps_to_execution w /\
      match r with
      | Ok h => exists layout, ExecutionLayout.new (DockerRuntime.state_root runtime) id = Ok layout /\
          handed_out layout h w
      | Err e => w = w0 \/ nothing_left id w \/ rolled_back e
      end) w0.
Proof.
  intros Hwf. assert (during w0) as Hd.
  { split; try done; [by intros; congruence|by intros; congruence]. }
  pose proof (during_keeps _ Hd) as Hk0. unfold provision.
  apply hoare_io_bind. eapply hoare_mono; [eapply hoare_yields with (P := fun layout =>
    ExecutionLayout.new (DockerRuntime.state_root runtime) id = Ok layout);
    [apply harmless_verified_execution_layout| |done]|].
  { unfold verified_execution_layout. apply yields_skip. intros _. apply yields_skip. intros receipt.
    do 3 (apply yields_skip; intros _). eapply yields_bind.
    { apply yields_result. intros layout Hl%map_err_Ok. exact Hl. }
    intros layout Hl.
    do 6 (apply yields_skip; intros ?). by apply yields_mret. }
  intros [layout|e] w [-> Hl]; [|by auto].
  apply hoare_io_bind. eapply hoare_mono; [apply hoare_harmless; [by apply harmless_preamble|done]|].
  intros [u|e] w ->; [|by auto].
  apply hoare_io_bind. eapply hoare_mono; [apply hoare_harmless; [apply harmless_storage_verify|done]|].
  intros [u1|e] w ->; [|by auto].
  apply hoare_io_bind, hoare_outcome_of.
  eapply hoare_mono; [eapply hoare_weaken; [exact during_keeps|]; apply provision_inner_spec; [done|]|].
  { unfold execution_root. by rewrite Hl. }
  intros [h|e] w [Hd1 Hw].
  - apply hoare_ret. split; [by apply during_keeps|]. exists layout. by destruct Hw.
  - unfold roll_back. apply hoare_io_bind, hoare_outcome_of.
    eapply hoare_mono; [eapply hoare_weaken; [|apply destroy_spec]|].
    { intros w1 Hw1. by eapply destroyed_keeps. }
    intros [u2|e2] w1 (Hw1 & Hnone & _); apply hoare_ret; (split; [by eapply destroyed_keeps|]).
    + right. left. by eapply Hnone.
    + right. right. by exists e, e2.
Qed.
End During.

(** C14: Provisioning keeps to its execution.  On a daemon with any containers,
    volumes and networks, at every moment of a provisioning: what does not carry
    the execution's id is untouched, every new network and container carries its
    labels, every new container was asked for with its limits, without privileges
    and on its own network, and one that was started had been verified - its
    mounts exactly the binds asked for, its root read-only, every bind inside the
    execution's storage and on its device or the managed shared cache, never the
    daemon's socket - or was asked for without any bind.  Success hands out a
    started and verified agent that carries exactly the ownership labels and
    exposes of the private session only the conversation; a failure leaves
    either the daemon as it was, or nothing of the execution, or is reported as
    a failed rollback. *)
Theorem provision_confined w0 tr r w :
  map_Forall (fun k _ => container_id k) (containers w0) ->
  exec sem quiet (provision client_version sha256 to_rfc3339 runtime labels requirement services) w0 tr r w ->
  keeps_to_execution w0 w /\
  (forall h, r = Some (Ok h) -> exists layout,
     ExecutionLayout.new (DockerRuntime.state_root runtime) id = Ok layout /\ handed_out w0 layout h w) /\
  (forall e, r = Some (Err e) -> w = w0 \/ nothing_left id w \/ rolled_back e).
Proof.
  intros Hwf He. pose proof (provision_spec w0 Hwf) as Hp.
  assert (keeps_to_execution w0 w0) as H0 by (split_and!; (split; [by left|intros; congruence])).
  destruct (hoare_exec _ _ _ _ _ _ _ _ He H0 Hp) as [Hk Hr].
  split; [done|]. split; intros x ->; by destruct (Hr _ eq_refl).
Qed.
End Confined.

(** ** A provisioning that succeeds *)
Definition ex_provisioned : DockerWorld := (run (serve ex_host) ex_provision ex_world).2.

Lemma ex_provision_ok : is_ok (run (serve ex_host) ex_provision ex_world).1 = true.
Proof. by vm_compute. Qed.

Lemma provision_confined_witness :
  exists tr h, exec (docker_sem (fun p => p) (fun _ => 0)) quiet ex_provision ex_world tr (Some (Ok h)) ex_provisioned /\
  size (containers ex_provisioned) = 4%nat /\
  keeps_to_execution ex_runtime ex_labels ex_requirement (fun p => p) (fun _ => 0) ex_world ex_provisioned /\
  exists layout, handed_out ex_runtime ex_labels (fun p => p) (fun _ => 0) ex_world layout h ex_provisioned.
Proof.
  destruct (run_exec (serve ex_host) (docker_sem (fun p => p) (fun _ => 0)) quiet ex_provision ex_world
    (fun B c w => serve_sem ex_host B c w)) as [tr He].
  pose proof ex_provision_ok as Hok.
  destruct (run (serve ex_host) ex_provision ex_world).1 as [h|e] eqn:Er; [|done].
  exists tr, h. split; [exact He|]. split; [by vm_compute|].
  destruct (@provision_confined no_json "1.44" (fun s => s) (fun _ => ""%string) ex_runtime ex_labels ex_requirement
    ex_services (fun p => p) (fun _ => 0) ex_world tr (Some (Ok h)) ex_provisioned) as (Hk & Hh & _); [|exact He|].
  - apply map_Forall_singleton. by split; vm_compute.
  - split; [exact Hk|]. destruct (Hh h eq_refl) as (layout & _ & Hl). by exists layout.
Defined.
