(* ===== verification/GitManager.v ===== *)
(** * Git repositories of executions: data and calls ([crates/git-worktree])

    The manager keeps a mirror of each repository, an independent clone per
    execution and, in a metadata directory of its own, what it is about to create
    or remove.  It runs [git], reads and writes files, takes file locks and asks
    the verifier of the execution's storage: the calls here, whose answers are
    arbitrary.  The metadata directory is [MetadataStore.v], seen from outside. *)

From Stdlib Require Import Ascii.
From S2P Require Import Prelude Core Lifecycle Effects StorageModel FileSystem.










Module WorktreeError.
Inductive WorktreeError :=
| Mirror (m : string)
| Create (m : string)
| StorageFull (m : string)
| Locked (id : ExecutionId)
| Cleanup (m : string)
| InvalidRepository (m : string)
| Diff (m : string)
| Ownership (m : string).

Definition to_string (e : WorktreeError) : string :=
  match e with
  | Mirror m => "mirror update failed: " +:+ m
  | Create m => "worktree creation failed: " +:+ m
  | StorageFull m => "execution storage is full: " +:+ m
  | Locked id => "worktree is locked by " +:+ id
  | Cleanup m => "cleanup failed: " +:+ m
  | InvalidRepository m => "invalid repository reference: " +:+ m
  | Diff m => "diff capture failed: " +:+ m
  | Ownership m => "worktree ownership verification failed: " +:+ m
  end.
End WorktreeError.
Abbreviation WorktreeError := WorktreeError.WorktreeError.

(** ** Records kept on disk *)
Module OwnerRecord.
Record OwnerRecord := { labels : gmap string string; base_sha : string; branch : string }.
End OwnerRecord.
Abbreviation OwnerRecord := OwnerRecord.OwnerRecord.

Module CreatePhase.
Inductive CreatePhase := Cloning | Cloned | CheckedOut.
End CreatePhase.
Abbreviation CreatePhase := CreatePhase.CreatePhase.

Module CreateIntent.
Record CreateIntent := {
  labels : gmap string string;
  repository : string;
  base_ref : string;
  base_sha : string;
  branch : string;
  repository_path : string;
  phase : CreatePhase
}.
Definition with_phase (p : CreatePhase) (i : CreateIntent) : CreateIntent :=
  {| labels := labels i; repository := repository i; base_ref := base_ref i; base_sha := base_sha i;
     branch := branch i; repository_path := repository_path i; phase := p |}.
End CreateIntent.
Abbreviation CreateIntent := CreateIntent.CreateIntent.

Module CleanupJournal.
Record CleanupJournal := { owner : OwnerRecord; worktree_path : string }.
End CleanupJournal.
Abbreviation CleanupJournal := CleanupJournal.CleanupJournal.

(** [serde_json] on them. *)
Class GitSerde := {
  owner_to_json : OwnerRecord -> string;
  owner_from_json : string -> result string OwnerRecord;
  intent_to_json : CreateIntent -> string;
  intent_from_json : string -> result string CreateIntent;
  cleanup_to_json : CleanupJournal -> string;
  cleanup_from_json : string -> result string CleanupJournal;
  owner_round_trip r : owner_from_json (owner_to_json r) = Ok r;
  intent_round_trip i : intent_from_json (intent_to_json i) = Ok i;
  cleanup_round_trip j : cleanup_from_json (cleanup_to_json j) = Ok j
}.

(** ** The command ([command.rs]) *)
Module GitCommand.
Record GitCommand := {
  environment : list (string * string); (* after [env_clear] *)
  args : list string;
  current_dir : option string
}.
Definition with_args (more : list string) (c : GitCommand) : GitCommand :=
  {| environment := environment c; args := args c ++ more; current_dir := current_dir c |}.
Definition with_env (key value : string) (c : GitCommand) : GitCommand :=
  {| environment := environment c ++ [(key, value)]; args := args c; current_dir := current_dir c |}.
Definition in_dir (dir : string) (c : GitCommand) : GitCommand :=
  {| environment := environment c; args := args c; current_dir := Some dir |}.
End GitCommand.
Abbreviation GitCommand := GitCommand.GitCommand.

Module Output.
Record Output := { code : option Z (* i32 *); stdout : string; stderr : string }.
Definition success (o : Output) : bool := bool_decide (code o = Some 0).
End Output.
Abbreviation Output := Output.Output.

(** ** Calls *)
Module Git.
Inductive git_call : Type -> Type :=
| Env (name : string) : git_call (option string)
| Run (command : GitCommand) : git_call (result Errno Output)
| Lstat (path : string) : git_call (result Errno Metadata)
| Canonicalize (path : string) : git_call (result Errno string)
| ReadDir (path : string) : git_call (result Errno (list (result Errno string)))
| ReadFile (path : string) : git_call (result Errno string)
| CreateDir (path : string) : git_call (result Errno unit)
| CreateDirMode (path : string) (mode : Z) : git_call (result Errno unit)
| SetPermissions (path : string) (mode : Z) : git_call (result Errno unit)
| RemoveDirAll (path : string) : git_call (result Errno unit)
| RemoveFile (path : string) : git_call (result Errno unit)
| Rename (from to : string) : git_call (result Errno unit)
| SyncDirectory (path : string) : git_call (result Errno unit)
| Open (path : string) : git_call (result Errno Descriptor)
| CreateNew (path : string) : git_call (result Errno Descriptor)
| WriteAll (file : Descriptor) (bytes : string) : git_call (result Errno unit)
| SyncAll (file : Descriptor) : git_call (result Errno unit)
| Fstat (file : Descriptor) : git_call (result Errno (Metadata * Z)) (* with the length *)
| ReadToEnd (file : Descriptor) : git_call (result Errno string)
(* a lock file: opened or created, then locked *)
| Lock (path : string) : git_call (result Errno unit)
| Unlock (path : string) : git_call unit
(* [SecureMetadataDirectory], by path *)
| MetadataOpen (directory : string) : git_call (result string unit)
| MetadataRead (directory name : string) : git_call (result string (option string))
| MetadataCreate (directory name bytes : string) : git_call (result string unit)
| MetadataReplace (directory name bytes : string) : git_call (result string unit)
| MetadataRemove (directory name : string) : git_call (result string unit)
| MetadataSubdirectory (directory name : string) : git_call (result string string) (* its path *)
| MetadataRemoveSubdirectory (directory name child : string) : git_call (result string unit)
| MetadataRestrict (directory name : string) : git_call (result string unit)
| MetadataRemoveToolFile (directory name : string) : git_call (result string unit)
(* [ReadyAllocationVerifier] and the storage it opens *)
| VerifyReady (receipt : AllocationReceipt) : git_call (result StorageError Z)
| StoragePath (storage : Z) : git_call string
| StorageVerify (storage : Z) : git_call (result StorageError unit)
| StorageRefresh (storage : Z) : git_call (result StorageError unit)
| ProcessId : git_call Z
| NextCapture : git_call Z.
End Git.
Abbreviation git_call := Git.git_call.
Abbreviation gio := (io git_call WorktreeError).

(** A call under [map_err(|error| f(error.to_string()))?]. *)
Definition git_io {A} (c : git_call (result Errno A)) (f : string -> WorktreeError) : gio A :=
  ask_or c (fun e => f (errno_text e)).
Definition meta_io {A} (c : git_call (result string A)) (f : string -> WorktreeError) : gio A := ask_or c f.
Definition ready_io {A} (c : git_call (result StorageError A)) : gio A :=
  ask_or c (fun e => WorktreeError.Ownership (StorageError.to_string e)).

(** [raw_os_error() == Some(28)]: the disk is full. *)
Definition NOSPC : Errno := OtherErrno "No space left on device (os error 28)".
Definition is_nospc (e : Errno) : bool :=
  match e with OtherErrno t => bool_decide (t = "No space left on device (os error 28)"%string) | _ => false end.

(** Inside the lock of a file ([lock.rs]), released on every way out. *)
Definition with_lock {A} (path : string) (f : string -> WorktreeError) (body : gio A) : gio A :=
  _ ← git_io (Git.Lock path) f;
  r ← outcome_of body;
  _ ← ask (Git.Unlock path);
  ret_result r.

Definition git_command {E} : io git_call E GitCommand :=
  path ← ask (Git.Env "PATH");
  let command :=
    {| GitCommand.environment :=
         [("GIT_ATTR_NOSYSTEM", "1"); ("GIT_CONFIG_GLOBAL", "/dev/null"); ("GIT_CONFIG_NOSYSTEM", "1");
          ("GIT_CONFIG_SYSTEM", "/dev/null"); ("GIT_OPTIONAL_LOCKS", "0"); ("GIT_PAGER", "cat");
          ("GIT_TERMINAL_PROMPT", "0"); ("HOME", "/dev/null"); ("LC_ALL", "C")]%string;
       GitCommand.args := []; GitCommand.current_dir := None |} in
  mret match path with Some path => GitCommand.with_env "PATH" path command | None => command end.

Definition repository_git_command (path : string) : gio GitCommand :=
  command ← git_command;
  mret (GitCommand.with_args ["--git-dir"; join path ".git"; "--work-tree"; path]%string command).

(** * The worktree manager ([git-worktree/src/manager.rs], [filesystem.rs])

    Mirrors, the check that a repository keeps its Git storage inside itself, and
    the creation of an execution's repository with its rollback. *)

(** ** Names *)
Definition is_safe_component (component : string) : bool :=
  negb (str_is_empty component) && negb (bool_decide (component = "."%string)) &&
  negb (bool_decide (component = ".."%string)) && negb (contains "__" component) &&
  string_forallb (fun byte => is_ascii_alphanumeric byte || bool_decide (byte ∈ ["-"; "_"; "."]%char)) component.

Definition canonical_repository (repo : string) : result WorktreeError (string * string) :=
  match split "/"%char repo with
  | [owner; name] =>
      if is_safe_component owner && negb (bool_decide (last_byte owner = Some "_"%char)) &&
         is_safe_component name && negb (starts_with "_" name)
      then Ok (owner, name) else Err (WorktreeError.InvalidRepository repo)
  | _ => Err (WorktreeError.InvalidRepository repo)
  end.

Definition normalized_repository_name (repo : string) : result WorktreeError string :=
  r ← canonical_repository repo; Ok (r.1 +:+ "__" +:+ r.2).

Definition validate_execution_id (execution_id : ExecutionId) : result WorktreeError unit :=
  let follows byte := is_ascii_lowercase byte || is_ascii_digit byte || bool_decide (byte = "-"%char) in
  check (negb (str_is_empty execution_id) && (Z.of_nat (String.length execution_id) <=? 63) &&
         match execution_id with
         | String byte rest => (is_ascii_lowercase byte || is_ascii_digit byte) && string_forallb follows rest
         | EmptyString => true
         end)
    (WorktreeError.Create ("invalid execution_id: " +:+ execution_id)).

Fixpoint hex_component (value : string) : string :=
  match value with
  | EmptyString => EmptyString
  | String byte value =>
      String (hex_digit (byte_code byte / 16)) (String (hex_digit (byte_code byte mod 16)) (hex_component value))
  end.

Definition create_io_error (e : Errno) : WorktreeError :=
  if is_nospc e then WorktreeError.StorageFull (errno_text e) else WorktreeError.Create (errno_text e).

Module GitWorktreeManager.
Record GitWorktreeManager := {
  cache_root : string;
  clone_base : string;
  storage_verifier : bool             (* whether there is one, or [RejectUnverifiedStorage] *)
}.
Definition with_clone_base_and_verifier (cache_root clone_base : string) : GitWorktreeManager :=
  {| cache_root := cache_root; clone_base := trim_end_char "/"%char clone_base; storage_verifier := true |}.
Definition with_clone_base (cache_root clone_base : string) : GitWorktreeManager :=
  {| cache_root := cache_root; clone_base := trim_end_char "/"%char clone_base; storage_verifier := false |}.
Definition new (cache_root : string) : GitWorktreeManager := with_clone_base cache_root "https://github.com".
End GitWorktreeManager.
Abbreviation GitWorktreeManager := GitWorktreeManager.GitWorktreeManager.

Module MirrorRoot.
Record MirrorRoot := { path : string; handle : Descriptor; device : Z; inode : Z; owner : Z }.
End MirrorRoot.
Abbreviation MirrorRoot := MirrorRoot.MirrorRoot.

Section Manager.
(** What [String::from_utf8_lossy] makes of text that is not UTF-8. *)
Context (replaced : string -> string) `{GitSerde}.
Context (manager : GitWorktreeManager).

Definition lossy (s : string) : string := default (replaced s) (from_utf8 s).

Definition mirrors_root : string := join (GitWorktreeManager.cache_root manager) "mirrors".
Definition worktrees_root : string := join (GitWorktreeManager.cache_root manager) "worktrees".
Definition executions_root : string := join (GitWorktreeManager.cache_root manager) "executions".
Definition execution_repository_path (execution_id : ExecutionId) : string :=
  join (join executions_root execution_id) "repository".

(** ** Running git *)
Definition mentions_full (o : Output) : bool :=
  bool_decide (Output.code o = Some 28) || contains "No space left on device" (lossy (Output.stderr o)).

Definition finished (o : Output) (error : string -> WorktreeError) : result WorktreeError Output :=
  if Output.success o then Ok o
  else if mentions_full o then Err (WorktreeError.StorageFull (trim (lossy (Output.stderr o))))
  else Err (error (trim (lossy (Output.stderr o)))).

Definition run_command (command : GitCommand) (error : string -> WorktreeError) : gio Output :=
  output ← ask_or (Git.Run command)
    (fun e => if is_nospc e then WorktreeError.StorageFull (errno_text e) else error (errno_text e));
  ret_result (finished output error).

Definition run_git (args : list string) (error : string -> WorktreeError) : gio Output :=
  command ← git_command;
  run_command (GitCommand.with_args args command) error.

Definition git_stdout (args : list string) (error : string -> WorktreeError) : gio string :=
  output ← run_git args error;
  mret (trim (lossy (Output.stdout output))).

(** ** Is the Git storage inside the repository? *)
Definition absent_or (path : string) (there : WorktreeError) (f : string -> WorktreeError) : gio unit :=
  found ← ask (Git.Lstat path);
  match found with
  | Err NOENT => mret tt
  | Ok _ => throw there
  | Err e => throw (f (errno_text e))
  end.

Definition preflight_candidates (path : string) : list (string * string) :=
  [("repository", path); ("Git directory", join path ".git"); ("object database", join path ".git/objects");
   ("refs directory", join path ".git/refs")]%string.

Definition check_candidate (c : string * string) : gio unit :=
  metadata ← git_io (Git.Lstat c.2) WorktreeError.Ownership;
  guard_or (negb (Metadata.is_symlink metadata || negb (Metadata.is_dir metadata)))
    (WorktreeError.Ownership (c.1 +:+ " is not a real directory: " +:+ c.2)).

Definition verify_git_storage_preflight (path : string) : gio unit :=
  let commondir := join path ".git/commondir" in
  _ ← absent_or commondir
        (WorktreeError.Ownership ("linked Git common directory is forbidden: " +:+ commondir)) WorktreeError.Ownership;
  _ ← each check_candidate (preflight_candidates path);
  let index := join path ".git/index" in
  found ← ask (Git.Lstat index);
  _ ← match found with
      | Ok metadata => guard_or (Metadata.is_file metadata)
                         (WorktreeError.Ownership ("Git index is not a real file: " +:+ index))
      | Err NOENT => mret tt
      | Err e => throw (WorktreeError.Ownership (errno_text e))
      end;
  let alternates := join path ".git/objects/info/alternates" in
  absent_or alternates
    (WorktreeError.Ownership ("alternate object database is forbidden: " +:+ alternates)) WorktreeError.Ownership.

Definition run_repository_git (path : string) (args : list string) (error : string -> WorktreeError) :
    gio Output :=
  _ ← verify_git_storage_preflight path;
  command ← repository_git_command path;
  run_command (GitCommand.with_args args command) error.

Definition repository_git_stdout (path : string) (args : list string) (error : string -> WorktreeError) :
    gio string :=
  output ← run_repository_git path args error;
  mret (trim (lossy (Output.stdout output))).

Definition absolute_in (path reported : string) : string :=
  if is_absolute reported then reported else join path reported.

(** A path Git reports, canonical; its parent's when it does not exist yet. *)
Definition canonical_git_path (resolved : string) : gio string :=
  found ← ask (Git.Canonicalize resolved);
  match found with
  | Ok canonical => mret canonical
  | Err NOENT =>
      parent ← some_or (parent_path resolved)
        (WorktreeError.Ownership ("Git path has no parent: " +:+ resolved));
      canonical ← git_io (Git.Canonicalize parent) WorktreeError.Ownership;
      name ← some_or (file_name resolved)
        (WorktreeError.Ownership ("Git path has no file name: " +:+ resolved));
      mret (join canonical name)
  | Err e => throw (WorktreeError.Ownership (errno_text e))
  end.

Definition reported_paths : list (list string) :=
  [["rev-parse"; "--git-dir"]; ["rev-parse"; "--git-common-dir"]; ["rev-parse"; "--git-path"; "objects"];
   ["rev-parse"; "--git-path"; "refs"]; ["rev-parse"; "--git-path"; "index"]]%string.

Definition verify_git_path (path canonical_root : string) (arguments : list string) : gio unit :=
  _ ← verify_git_storage_preflight path;
  reported ← repository_git_stdout path arguments WorktreeError.Ownership;
  canonical ← canonical_git_path (absolute_in path reported);
  guard_or (path_starts_with canonical canonical_root)
    (WorktreeError.Ownership ("Git path escapes repository root: " +:+ canonical)).

Definition verify_repository_storage (path : string) : gio unit :=
  _ ← verify_git_storage_preflight path;
  canonical_root ← git_io (Git.Canonicalize path) WorktreeError.Ownership;
  top_level ← repository_git_stdout path ["rev-parse"; "--show-toplevel"]%string WorktreeError.Ownership;
  canonical_top_level ← git_io (Git.Canonicalize top_level) WorktreeError.Ownership;
  _ ← guard_or (path_eqb canonical_top_level canonical_root)
        (WorktreeError.Ownership ("Git work tree " +:+ canonical_top_level +:+ " is not repository root " +:+
           canonical_root));
  _ ← each (verify_git_path path canonical_root) reported_paths;
  _ ← verify_git_storage_preflight path;
  reported ← repository_git_stdout path ["rev-parse"; "--git-path"; "objects/info/alternates"]%string
    WorktreeError.Ownership;
  let alternates := absolute_in path reported in
  absent_or alternates
    (WorktreeError.Ownership ("alternate object database is forbidden: " +:+ alternates)) WorktreeError.Ownership.

(** ** Mirrors *)
Definition clone_locator (repo : string) : result WorktreeError string :=
  r ← canonical_repository repo;
  Ok (GitWorktreeManager.clone_base manager +:+ "/" +:+ r.1 +:+ "/" +:+ r.2 +:+ ".git").

Definition mirror_error (m : string) : WorktreeError := WorktreeError.Mirror m.

(** [MirrorRoot::verify]. *)
Definition verify_mirror_root (root : MirrorRoot) : gio unit :=
  metadata ← git_io (Git.Lstat (MirrorRoot.path root)) mirror_error;
  opened ← git_io (Git.Fstat (MirrorRoot.handle root)) mirror_error;
  _ ← guard_or (Metadata.is_dir metadata)
        (mirror_error ("mirror root is not a real directory: " +:+ MirrorRoot.path root));
  guard_or (negb (negb (Metadata.dev metadata =? MirrorRoot.device root) ||
                  negb (Metadata.ino metadata =? MirrorRoot.inode root) ||
                  negb (Metadata.uid metadata =? MirrorRoot.owner root) || Metadata.shared_mode metadata ||
                  negb (Metadata.dev opened.1 =? MirrorRoot.device root) ||
                  negb (Metadata.ino opened.1 =? MirrorRoot.inode root)))
    (mirror_error "mirror root identity, owner, or mode changed").

Definition secure_mirror_root : gio MirrorRoot :=
  let cache_root := GitWorktreeManager.cache_root manager in
  cache_metadata ← git_io (Git.Lstat cache_root) mirror_error;
  _ ← guard_or (Metadata.is_dir cache_metadata)
        (mirror_error ("cache root is not a real directory: " +:+ cache_root));
  let root := mirrors_root in
  found ← ask (Git.Lstat root);
  _ ← match found with
      | Ok metadata => guard_or (Metadata.is_dir metadata)
                         (mirror_error ("mirror root is not a real directory: " +:+ root))
      | Err NOENT =>
          _ ← git_io (Git.CreateDir root) mirror_error;
          git_io (Git.SetPermissions root 448) mirror_error
      | Err e => throw (mirror_error (errno_text e))
      end;
  path ← git_io (Git.Canonicalize root) mirror_error;
  metadata ← git_io (Git.Lstat path) mirror_error;
  handle ← git_io (Git.Open path) mirror_error;
  opened ← git_io (Git.Fstat handle) mirror_error;
  _ ← guard_or (negb (negb (Metadata.uid metadata =? Metadata.uid cache_metadata) || Metadata.shared_mode metadata))
        (mirror_error "mirror root owner or mode does not match secure cache root");
  let root := {| MirrorRoot.path := path; MirrorRoot.handle := handle;
                 MirrorRoot.device := Metadata.dev opened.1; MirrorRoot.inode := Metadata.ino opened.1;
                 MirrorRoot.owner := Metadata.uid opened.1 |} in
  _ ← verify_mirror_root root;
  mret root.

Definition has_parent (path parent : string) : bool :=
  match parent_path path with Some p => path_eqb p parent | None => false end.

Definition verify_mirror_repository (root : MirrorRoot) (mirror clone_locator : string) : gio unit :=
  _ ← verify_mirror_root root;
  metadata ← git_io (Git.Lstat mirror) mirror_error;
  _ ← guard_or (Metadata.is_dir metadata) (mirror_error ("mirror is not a real directory: " +:+ mirror));
  canonical ← git_io (Git.Canonicalize mirror) mirror_error;
  _ ← guard_or (has_parent canonical (MirrorRoot.path root))
        (mirror_error ("mirror escaped pinned root: " +:+ canonical));
  _ ← guard_or (Metadata.uid metadata =? MirrorRoot.owner root)
        (mirror_error "mirror owner differs from mirror root owner");
  bare ← git_stdout ["--git-dir"; mirror; "rev-parse"; "--is-bare-repository"]%string mirror_error;
  _ ← guard_or (bool_decide (bare = "true"%string)) (mirror_error ("mirror is not bare: " +:+ mirror));
  actual_origin ← git_stdout ["--git-dir"; mirror; "remote"; "get-url"; "origin"]%string mirror_error;
  guard_or (bool_decide (actual_origin = clone_locator))
    (mirror_error ("mirror origin mismatch: expected " +:+ clone_locator +:+ ", found " +:+ actual_origin)).

Definition mirror_path (root : MirrorRoot) (normalized : string) : string :=
  join (MirrorRoot.path root) (normalized +:+ ".git").

Definition update_mirror (root : MirrorRoot) (mirror locator : string) : gio unit :=
  _ ← verify_mirror_root root;
  found ← ask (Git.Lstat mirror);
  match found with
  | Ok _ =>
      _ ← verify_mirror_repository root mirror locator;
      _ ← run_git ["--git-dir"; mirror; "remote"; "update"; "--prune"]%string mirror_error;
      verify_mirror_repository root mirror locator
  | Err NOENT =>
      _ ← run_git ["clone"; "--mirror"; locator; mirror]%string mirror_error;
      verify_mirror_repository root mirror locator
  | Err e => throw (mirror_error (errno_text e))
  end.

(** The path of an up-to-date mirror of [repo]. *)
Definition ensure_mirror (repo : string) : gio string :=
  root ← secure_mirror_root;
  locator ← ret_result (clone_locator repo);
  normalized ← ret_result (normalized_repository_name repo);
  let mirror := mirror_path root normalized in
  _ ← with_lock (with_extension mirror "git.lock") mirror_error (update_mirror root mirror locator);
  mret (lossy mirror).
End Manager.
