(* ===== verification/GitCreate.v ===== *)
(** * Creating an execution's repository ([git-worktree/src/manager.rs])

    [create_in] clones the mirror into the execution's storage.  An intent in the
    metadata directory says what is being created until the owner record is in
    place, so that an interrupted creation is taken back by the next one or by
    [recover_interrupted_create]. *)

From Stdlib Require Import Ascii.
From S2P Require Import Prelude Core Lifecycle Effects StorageModel FileSystem GitManager.
















Definition create_error (m : string) : WorktreeError := WorktreeError.Create m.
Definition ownership_error (m : string) : WorktreeError := WorktreeError.Ownership m.

(** A result of [std::io] under [map_err]. *)
Definition lift {E A} (f : E -> WorktreeError) (m : io git_call E A) : gio A :=
  @mbind (proc git_call) (proc_bind git_call) _ _ (fun r => Ret (map_err f r)) m.

Definition OWNER_NAME : string := ".autospec-owner.json".

(** ** The file system boundary ([SystemWorktreeFilesystem]) *)
Definition fs_ask {A} (c : git_call (result Errno A)) : io git_call Errno A := ask_or c (fun e => e).

Definition reject_existing (path : string) : io git_call Errno unit :=
  found ← ask (Git.Lstat path);
  match found with
  | Err NOENT => mret tt
  | Ok _ => throw (OtherErrno ("ownership metadata path already exists: " +:+ path))
  | Err e => throw e
  end.

Definition place_owner_record (directory final_path temporary_path bytes : string) : io git_call Errno unit :=
  file ← fs_ask (Git.CreateNew temporary_path);
  _ ← fs_ask (Git.WriteAll file bytes);
  _ ← fs_ask (Git.SyncAll file);
  _ ← fs_ask (Git.Rename temporary_path final_path);
  fs_ask (Git.SyncDirectory directory).

Definition write_owner_file (directory bytes : string) : io git_call Errno unit :=
  let final_path := join directory OWNER_NAME in
  let temporary_path := join directory (OWNER_NAME +:+ ".tmp") in
  _ ← reject_existing final_path;
  _ ← reject_existing temporary_path;
  r ← outcome_of (place_owner_record directory final_path temporary_path bytes);
  match r with
  | Ok _ => mret tt
  | Err e => _ ← ask (Git.RemoveFile temporary_path); throw e
  end.

Section Create.
Context (replaced : string -> string) `{GitSerde}.
Context (manager : GitWorktreeManager).

Abbreviation lossy := (lossy replaced).
Abbreviation worktrees_root := (worktrees_root manager).
Abbreviation executions_root := (executions_root manager).

Definition clone_repository (mirror destination : string) : io git_call Errno unit :=
  command ← git_command;
  output ← fs_ask (Git.Run (GitCommand.with_args
    ["clone"; "--no-local"; "--no-hardlinks"; "--no-checkout"; mirror; destination]%string command));
  if Output.success output then mret tt
  else if mentions_full replaced output then throw NOSPC
  else throw (OtherErrno (trim (lossy (Output.stderr output)))).

(** ** The metadata directory *)
Definition metadata_directory (error : string -> WorktreeError) : gio string :=
  let path := worktrees_root in
  found ← ask (Git.Lstat path);
  _ ← match found with
      | Ok _ => mret tt
      | Err NOENT => git_io (Git.CreateDirMode path 448) error
      | Err e => throw (error (errno_text e))
      end;
  _ ← meta_io (Git.MetadataOpen path) error;
  mret path.

Definition metadata_name (path : string) : result WorktreeError string :=
  ok_or (file_name path ≫= from_utf8) (ownership_error ("metadata name is invalid: " +:+ path)).

Definition metadata_read (path : string) (error : string -> WorktreeError) : gio (option string) :=
  directory ← metadata_directory error;
  name ← ret_result (metadata_name path);
  meta_io (Git.MetadataRead directory name) error.
Definition metadata_create (path bytes : string) (error : string -> WorktreeError) : gio unit :=
  directory ← metadata_directory error;
  name ← ret_result (metadata_name path);
  meta_io (Git.MetadataCreate directory name bytes) error.
Definition metadata_remove (path : string) (error : string -> WorktreeError) : gio unit :=
  directory ← metadata_directory error;
  name ← ret_result (metadata_name path);
  meta_io (Git.MetadataRemove directory name) error.

Definition create_intent_path (execution_id : ExecutionId) : string :=
  join worktrees_root (".create-" +:+ execution_id +:+ ".json").

Definition parsed {A} (from_json : string -> result string A) (error : string -> WorktreeError)
    (bytes : option string) : result WorktreeError (option A) :=
  match bytes with
  | Some bytes => a ← map_err error (from_json bytes); Ok (Some a)
  | None => Ok None
  end.

Definition read_create_intent (path : string) : gio (option CreateIntent) :=
  bytes ← metadata_read path create_error;
  ret_result (parsed intent_from_json create_error bytes).

Definition write_create_intent (path : string) (intent : CreateIntent) (replace : bool) : gio unit :=
  let bytes := intent_to_json intent in
  directory ← metadata_directory create_error;
  name ← ret_result (metadata_name path);
  if replace then meta_io (Git.MetadataReplace directory name bytes) create_error
  else meta_io (Git.MetadataCreate directory name bytes) create_error.

Definition remove_create_intent (path : string) : gio unit := metadata_remove path create_error.

Definition verify_create_intent (intent : CreateIntent) (labels : OwnershipLabels)
    (repo base_ref branch path : string) : result WorktreeError unit :=
  check (bool_decide (CreateIntent.labels intent = OwnershipLabels.to_map labels) &&
         bool_decide (CreateIntent.repository intent = repo) &&
         bool_decide (CreateIntent.base_ref intent = base_ref) &&
         bool_decide (CreateIntent.branch intent = branch) &&
         path_eqb (CreateIntent.repository_path intent) path)
    (ownership_error "create intent does not match requested execution").

(** ** Owner records *)
Definition write_owner_record (path : string) (record : OwnerRecord) : gio unit :=
  lift create_io_error (write_owner_file path (owner_to_json record)).

Definition read_owner_record (path : string) : gio OwnerRecord :=
  bytes ← git_io (Git.ReadFile (join path OWNER_NAME)) WorktreeError.Cleanup;
  ret_result (map_err WorktreeError.Cleanup (owner_from_json bytes)).

Definition current_branch_of (path : string) (error : string -> WorktreeError) : gio string :=
  _ ← verify_git_storage_preflight path;
  repository_git_stdout replaced path ["branch"; "--show-current"]%string error.

(** The execution, if any, whose repository has the branch checked out. *)
Fixpoint find_branch_owner (repo branch : string) (entries : list (result Errno string)) :
    gio (option ExecutionId) :=
  match entries with
  | [] => mret None
  | Err e :: _ => throw (create_error (errno_text e))
  | Ok name :: entries =>
      let execution_root := join executions_root name in
      metadata ← git_io (Git.Lstat execution_root) create_error;
      _ ← guard_or (Metadata.is_dir metadata)
            (ownership_error ("execution root is not a real directory: " +:+ execution_root));
      let path := join execution_root "repository" in
      found ← ask (Git.Lstat path);
      match found with
      | Err NOENT => find_branch_owner repo branch entries
      | Err e => throw (create_error (errno_text e))
      | Ok metadata =>
          _ ← guard_or (Metadata.is_dir metadata)
                (ownership_error ("repository entry is not a real directory: " +:+ path));
          record ← outcome_of (read_owner_record path);
          match record with
          | Err _ => find_branch_owner repo branch entries
          | Ok record =>
              if bool_decide (OwnerRecord.labels record !! REPOSITORY = Some repo) &&
                 bool_decide (OwnerRecord.branch record = branch)
              then
                current ← current_branch_of path create_error;
                _ ← guard_or (bool_decide (current = OwnerRecord.branch record))
                      (ownership_error ("recorded branch " +:+ OwnerRecord.branch record +:+
                         " does not match checkout " +:+ current +:+ " at " +:+ path));
                match OwnerRecord.labels record !! EXECUTION_ID with
                | Some execution_id => mret (Some execution_id)
                | None => find_branch_owner repo branch entries
                end
              else find_branch_owner repo branch entries
          end
      end
  end.

Definition branch_owner (repo branch : string) : gio (option ExecutionId) :=
  entries ← ask (Git.ReadDir executions_root);
  match entries with
  | Err NOENT => mret None
  | Err e => throw (create_error (errno_text e))
  | Ok entries => find_branch_owner repo branch entries
  end.

(** ** Taking a creation back *)
Definition rollback_independent_repository (path : string) : io git_call string unit :=
  found ← ask (Git.Lstat path);
  match found with
  | Err NOENT => ask_or (Git.CreateDir path) errno_text
  | Ok metadata =>
      if Metadata.is_dir metadata then
        entries ← ask_or (Git.ReadDir path) errno_text;
        if bool_decide (entries = []) then mret tt
        else
          _ ← ask_or (Git.RemoveDirAll path) errno_text;
          ask_or (Git.CreateDir path) errno_text
      else throw ("repository rollback target is not a real directory: " +:+ path)
  | Err e => throw (errno_text e)
  end.

Definition rollback (path : string) (error : string -> WorktreeError) : gio unit :=
  lift error (rollback_independent_repository path).

Definition verify_repository_selector (layout : ExecutionLayout) (repository_root : string) : gio unit :=
  name ← some_or (file_name (ExecutionLayout.root layout)) (ownership_error "execution root has no name");
  _ ← guard_or (path_eqb (ExecutionLayout.root layout) (join executions_root name) &&
                path_eqb repository_root (join (ExecutionLayout.root layout) "repository"))
        (ownership_error "execution storage layout is not deterministic");
  root ← git_io (Git.Lstat (ExecutionLayout.root layout)) ownership_error;
  guard_or (Metadata.is_dir root)
    (ownership_error ("execution root is not a real directory: " +:+ ExecutionLayout.root layout)).

(** ** Live storage *)
Definition verify_ready (receipt : AllocationReceipt) : gio Z :=
  if GitWorktreeManager.storage_verifier manager then ready_io (Git.VerifyReady receipt)
  else throw (ownership_error (StorageError.to_string
         (StorageError.IdentityMismatch "no live execution-storage verifier is configured"))).

Definition verify_live_storage (storage : Z) (repository_root : string) : gio unit :=
  path ← ask (Git.StoragePath storage);
  _ ← guard_or (path_eqb path repository_root)
        (ownership_error ("verified repository " +:+ path +:+ " is not " +:+ repository_root));
  ready_io (Git.StorageVerify storage).

(** [map_err(|error| Create(error.to_string()))]. *)
Definition as_create {A} (m : gio A) : gio A :=
  r ← outcome_of m;
  match r with Ok a => mret a | Err e => throw (create_error (WorktreeError.to_string e)) end.

Definition layout_of (labels : OwnershipLabels) : result WorktreeError ExecutionLayout :=
  map_err (fun e => ownership_error (StorageError.to_string e))
    (ExecutionLayout.new (GitWorktreeManager.cache_root manager) (OwnershipLabels.execution_id labels)).

Section CreateIn.
Context (labels : OwnershipLabels) (repo base_ref branch : string) (storage : AllocationReceipt).

(** What is checked before anything is touched. *)
Definition check_request : gio string :=
  _ ← ret_result (GitManager.validate_execution_id (OwnershipLabels.execution_id labels));
  _ ← guard_or (bool_decide (OwnershipLabels.repository labels = repo))
        (ownership_error ("repository label " +:+ OwnershipLabels.repository labels +:+ " does not match " +:+ repo));
  _ ← run_git replaced ["check-ref-format"; "--branch"; branch]%string create_error;
  layout ← ret_result (layout_of labels);
  _ ← ret_result (map_err (fun e => ownership_error (StorageError.to_string e))
        (validate_receipt storage labels layout));
  _ ← guard_or (bool_decide (DockerBindProof.filesystem_id (AllocationReceipt.docker_bind storage) =
                             filesystem_id (AllocationReceipt.backend storage)))
        (ownership_error "storage backend and bind-proof filesystem identities differ");
  _ ← verify_repository_selector layout (ExecutionLayout.repository layout);
  mret (ExecutionLayout.repository layout).

(** An interrupted creation is taken back; its base is kept. *)
Definition recover_intent (verified : Z) (repository_root intent_path : string) : gio (option string) :=
  recovered ← read_create_intent intent_path;
  match recovered with
  | Some existing =>
      _ ← ret_result (verify_create_intent existing labels repo base_ref branch repository_root);
      _ ← rollback repository_root create_error;
      _ ← ready_io (Git.StorageRefresh verified);
      mret (Some (CreateIntent.base_sha existing))
  | None => mret None
  end.

Definition resolve_base (mirror : string) (recovered_base_sha : option string) : gio string :=
  match recovered_base_sha with
  | Some base_sha =>
      _ ← run_git replaced ["--git-dir"; mirror; "cat-file"; "-e"; base_sha +:+ "^{commit}"]%string create_error;
      mret base_sha
  | None => git_stdout replaced ["--git-dir"; mirror; "rev-parse"; "--verify"; base_ref]%string create_error
  end.

Definition new_intent (base_sha repository_root : string) : CreateIntent :=
  {| CreateIntent.labels := OwnershipLabels.to_map labels; CreateIntent.repository := repo;
     CreateIntent.base_ref := base_ref; CreateIntent.base_sha := base_sha; CreateIntent.branch := branch;
     CreateIntent.repository_path := lossy repository_root; CreateIntent.phase := CreatePhase.Cloning |}.

(** The clone, its branch and its owner record. *)
Definition setup (root : MirrorRoot) (mirror locator : string) (verified : Z)
    (repository_root intent_path base_sha : string) (intent : CreateIntent) : gio unit :=
  _ ← as_create (verify_mirror_root root);
  _ ← as_create (verify_mirror_repository replaced root mirror locator);
  current ← verify_ready storage;
  _ ← verify_live_storage current repository_root;
  _ ← lift create_io_error (clone_repository mirror repository_root);
  _ ← verify_repository_storage replaced repository_root;
  _ ← ready_io (Git.StorageVerify verified);
  _ ← write_create_intent intent_path (CreateIntent.with_phase CreatePhase.Cloned intent) true;
  _ ← run_repository_git replaced repository_root ["remote"; "set-url"; "origin"; locator]%string create_error;
  _ ← run_repository_git replaced repository_root ["checkout"; "-b"; branch; base_sha]%string create_error;
  _ ← write_create_intent intent_path (CreateIntent.with_phase CreatePhase.CheckedOut intent) true;
  _ ← verify_repository_storage replaced repository_root;
  _ ← ready_io (Git.StorageVerify verified);
  write_owner_record repository_root
    {| OwnerRecord.labels := OwnershipLabels.to_map labels; OwnerRecord.base_sha := base_sha;
       OwnerRecord.branch := branch |}.

Definition take_back (repository_root intent_path : string) (error : WorktreeError) : gio unit :=
  rolled ← of_proc (rollback_independent_repository repository_root);
  match rolled with
  | Ok _ =>
      removed ← outcome_of (remove_create_intent intent_path);
      match removed with
      | Ok _ => throw error
      | Err removal => throw (create_error (WorktreeError.to_string error +:+
          "; remove create intent failed: " +:+ WorktreeError.to_string removal))
      end
  | Err failure => throw (create_error (WorktreeError.to_string error +:+ "; rollback failed: " +:+ failure))
  end.

(** Under the lock of the branch. *)
Definition create_owned (root : MirrorRoot) (mirror locator : string) (verified : Z)
    (repository_root intent_path : string) (recovered_base_sha : option string) : gio Worktree :=
  owner ← branch_owner repo branch;
  _ ← match owner with Some owner => throw (WorktreeError.Locked owner) | None => mret tt end;
  base_sha ← resolve_base mirror recovered_base_sha;
  entries ← git_io (Git.ReadDir repository_root) create_error;
  _ ← guard_or (bool_decide (entries = []))
        (create_error ("repository root is not empty: " +:+ repository_root));
  let intent := new_intent base_sha repository_root in
  _ ← write_create_intent intent_path intent (bool_decide (recovered_base_sha <> None));
  r ← outcome_of (setup root mirror locator verified repository_root intent_path base_sha intent);
  _ ← match r with
      | Ok _ => mret tt
      | Err error => take_back repository_root intent_path error
      end;
  _ ← remove_create_intent intent_path;
  mret {| Worktree.execution_id := OwnershipLabels.execution_id labels; Worktree.path := lossy repository_root;
          Worktree.branch := branch; Worktree.base_sha := base_sha; Worktree.repository := repo |}.

Definition branch_lock_path (normalized branch : string) : string :=
  join (mirrors_root manager) (normalized +:+ ".branch-" +:+ GitManager.hex_component branch +:+ ".lock").

Definition create_in : gio Worktree :=
  repository_root ← check_request;
  verified ← verify_ready storage;
  _ ← verify_live_storage verified repository_root;
  let intent_path := create_intent_path (OwnershipLabels.execution_id labels) in
  recovered_base_sha ← recover_intent verified repository_root intent_path;
  mirror ← ensure_mirror replaced manager repo;
  with_lock (with_extension mirror "git.lock") create_error (
    root ← as_create (secure_mirror_root manager);
    _ ← as_create (verify_mirror_root root);
    locator ← ret_result (clone_locator manager repo);
    _ ← as_create (verify_mirror_repository replaced root mirror locator);
    normalized ← ret_result (normalized_repository_name repo);
    with_lock (branch_lock_path normalized branch) mirror_error
      (create_owned root mirror locator verified repository_root intent_path recovered_base_sha)).
End CreateIn.

(** [WorktreeManager::create]. *)
Definition create : result WorktreeError Worktree :=
  Err (create_error "unbounded worktree creation is disabled; use create_in with verified execution storage").

Definition recover_interrupted_create (labels : OwnershipLabels) (repository_root : string) : gio unit :=
  let id := OwnershipLabels.execution_id labels in
  _ ← ret_result (GitManager.validate_execution_id id);
  let expected := execution_repository_path manager id in
  _ ← guard_or (path_eqb repository_root expected)
        (ownership_error ("interrupted create path " +:+ repository_root +:+ " is not exact expected path " +:+
           expected));
  let intent_path := create_intent_path id in
  intent ← read_create_intent intent_path;
  match intent with
  | None => mret tt
  | Some intent =>
      layout ← ret_result (layout_of labels);
      _ ← verify_repository_selector layout repository_root;
      _ ← guard_or (bool_decide (CreateIntent.labels intent = OwnershipLabels.to_map labels) &&
                    path_eqb (CreateIntent.repository_path intent) repository_root &&
                    bool_decide (CreateIntent.repository intent = OwnershipLabels.repository labels))
            (ownership_error "create intent does not match exact execution labels and root");
      _ ← rollback repository_root WorktreeError.Cleanup;
      r ← outcome_of (remove_create_intent intent_path);
      match r with
      | Ok _ => mret tt
      | Err e => throw (WorktreeError.Cleanup (WorktreeError.to_string e))
      end
  end.
End Create.
