(* ===== verification/GitCleanup.v ===== *)
(** * Removing an execution's repository ([git-worktree/src/cleanup.rs])

    [destroy] journals what it removes before it removes it, so that it can be
    retried; the journal stays as a tombstone until [ack_destroy]. *)

From Stdlib Require Import Ascii.
From S2P Require Import Prelude Core Lifecycle Effects StorageModel FileSystem GitManager GitCreate.
















Definition cleanup_error (m : string) : WorktreeError := WorktreeError.Cleanup m.

Section Cleanup.
Context (replaced : string -> string) `{GitSerde}.
Context (manager : GitWorktreeManager).

Abbreviation executions_root := (executions_root manager).
Abbreviation repository_of := (execution_repository_path manager).

Definition cleanup_journal_path (execution_id : ExecutionId) : string :=
  join (worktrees_root manager) (".cleanup-" +:+ execution_id +:+ ".json").

Definition read_cleanup_journal (path : string) : gio (option CleanupJournal) :=
  bytes ← metadata_read manager path cleanup_error;
  ret_result (parsed cleanup_from_json cleanup_error bytes).

Definition write_cleanup_journal (path : string) (journal : CleanupJournal) : gio unit :=
  metadata_create manager path (cleanup_to_json journal) cleanup_error.

(** The record names the worktree: managed, the execution, its base, branch and
    repository. *)
Definition owns (record : OwnerRecord) (worktree : Worktree) : bool :=
  bool_decide (OwnerRecord.labels record !! MANAGED = Some "true"%string) &&
  bool_decide (OwnerRecord.labels record !! EXECUTION_ID = Some (Worktree.execution_id worktree)) &&
  bool_decide (OwnerRecord.base_sha record = Worktree.base_sha worktree) &&
  bool_decide (OwnerRecord.branch record = Worktree.branch worktree) &&
  bool_decide (OwnerRecord.labels record !! REPOSITORY = Some (Worktree.repository worktree)).

Definition verify_journal (worktree : Worktree) (journal : CleanupJournal) : result WorktreeError unit :=
  check (bool_decide (CleanupJournal.worktree_path journal = Worktree.path worktree) &&
         path_eqb (CleanupJournal.worktree_path journal) (repository_of (Worktree.execution_id worktree)) &&
         owns (CleanupJournal.owner journal) worktree)
    (ownership_error ("cleanup journal does not match " +:+ Worktree.execution_id worktree)).

Definition verified_path (worktree : Worktree) : gio string :=
  let expected := repository_of (Worktree.execution_id worktree) in
  found ← ask (Git.Lstat expected);
  _ ← guard_or (path_eqb (Worktree.path worktree) expected &&
                match found with Ok metadata => Metadata.is_dir metadata | Err _ => false end)
        (ownership_error (Worktree.path worktree));
  mret expected.

Definition verified_owner (path : string) (worktree : Worktree) : gio OwnerRecord :=
  record ← read_owner_record path;
  _ ← guard_or (owns record worktree) (ownership_error (Worktree.path worktree));
  mret record.

Definition required_label (record : OwnerRecord) (key : string) : result WorktreeError string :=
  ok_or (OwnerRecord.labels record !! key) (ownership_error ("owner record missing " +:+ key)).

Definition current_branch (path : string) : gio string := current_branch_of replaced path cleanup_error.

Definition check_branch (path branch : string) : gio unit :=
  current ← current_branch path;
  guard_or (bool_decide (current = branch))
    (ownership_error ("recorded branch " +:+ branch +:+ " does not match checkout " +:+ current +:+ " at " +:+ path)).

Definition remove_repository_if_present (path branch : string) : gio unit :=
  found ← ask (Git.Lstat path);
  match found with
  | Err NOENT => mret tt
  | Err e => throw (cleanup_error (errno_text e))
  | Ok metadata =>
      _ ← guard_or (Metadata.is_dir metadata)
            (ownership_error ("repository path is not a real directory: " +:+ path));
      _ ← verify_repository_storage replaced path;
      _ ← check_branch path branch;
      git_io (Git.RemoveDirAll path) cleanup_error
  end.

(** The journal of the removal: what is on disk, or a new one that still has to
    be written. *)
Definition cleanup_journal (worktree : Worktree) (journal_path : string) : gio (CleanupJournal * bool) :=
  existing ← read_cleanup_journal journal_path;
  match existing with
  | Some journal =>
      _ ← ret_result (verify_journal worktree journal);
      mret (journal, false)
  | None =>
      path ← verified_path worktree;
      _ ← verify_repository_storage replaced path;
      owner ← verified_owner path worktree;
      _ ← check_branch path (OwnerRecord.branch owner);
      mret ({| CleanupJournal.owner := owner; CleanupJournal.worktree_path := Worktree.path worktree |}, true)
  end.

Definition destroy (worktree : Worktree) : gio unit :=
  let journal_path := cleanup_journal_path (Worktree.execution_id worktree) in
  j ← cleanup_journal worktree journal_path;
  let '(journal, needs_write) := j in
  repository ← ret_result (required_label (CleanupJournal.owner journal) REPOSITORY);
  normalized ← ret_result (normalized_repository_name repository);
  with_lock (branch_lock_path manager normalized (Worktree.branch worktree)) cleanup_error (
    _ ← (if (needs_write : bool) then write_cleanup_journal journal_path journal else mret tt);
    remove_repository_if_present (CleanupJournal.worktree_path journal)
      (OwnerRecord.branch (CleanupJournal.owner journal))).

Definition absent_repository (path there : string) (there_error : string -> WorktreeError) : gio unit :=
  found ← ask (Git.Lstat path);
  match found with
  | Err NOENT => mret tt
  | Err e => throw (cleanup_error ("cannot authenticate repository absence at " +:+ path +:+ ": " +:+ errno_text e))
  | Ok _ => throw (there_error there)
  end.

Definition ack_destroy (worktree : Worktree) : gio unit :=
  let id := Worktree.execution_id worktree in
  let journal_path := cleanup_journal_path id in
  existing ← read_cleanup_journal journal_path;
  match existing with
  | None =>
      let expected := repository_of id in
      let no_tombstone := "cleanup tombstone is absent for " +:+ id in
      if path_eqb (Worktree.path worktree) expected
      then absent_repository expected no_tombstone ownership_error
      else throw (ownership_error no_tombstone)
  | Some journal =>
      _ ← ret_result (verify_journal worktree journal);
      _ ← absent_repository (CleanupJournal.worktree_path journal)
            ("cannot acknowledge cleanup while repository exists: " +:+ CleanupJournal.worktree_path journal)
            cleanup_error;
      metadata_remove manager journal_path cleanup_error
  end.

(** ** Repositories nobody uses *)
Fixpoint find_stale_in (live : gset ExecutionId) (entries : list (result Errno string)) : gio (list Worktree) :=
  match entries with
  | [] => mret []
  | Err e :: _ => throw (cleanup_error (errno_text e))
  | Ok name :: entries =>
      let execution_root := join executions_root name in
      metadata ← git_io (Git.Lstat execution_root) cleanup_error;
      _ ← guard_or (negb (Metadata.is_symlink metadata))
            (ownership_error ("symlinked execution entry: " +:+ execution_root));
      if negb (Metadata.is_dir metadata) then find_stale_in live entries
      else
        let path := join execution_root "repository" in
        found ← ask (Git.Lstat path);
        match found with
        | Err NOENT => find_stale_in live entries
        | Err e => throw (cleanup_error (errno_text e))
        | Ok metadata =>
            _ ← guard_or (Metadata.is_dir metadata)
                  (ownership_error ("repository entry is not a real directory: " +:+ path));
            record ← read_owner_record path;
            if negb (bool_decide (OwnerRecord.labels record !! MANAGED = Some "true"%string))
            then find_stale_in live entries
            else
              execution_id ← ret_result (required_label record EXECUTION_ID);
              _ ← guard_or (path_eqb execution_root (join executions_root execution_id))
                    (ownership_error ("owner record path mismatch: " +:+ path));
              if bool_decide (execution_id ∈ live) then find_stale_in live entries
              else
                _ ← verify_repository_storage replaced path;
                _ ← check_branch path (OwnerRecord.branch record);
                repository ← ret_result (required_label record REPOSITORY);
                _ ← ret_result (normalized_repository_name repository);
                stale ← find_stale_in live entries;
                mret ({| Worktree.execution_id := execution_id; Worktree.path := lossy replaced path;
                         Worktree.branch := OwnerRecord.branch record;
                         Worktree.base_sha := OwnerRecord.base_sha record;
                         Worktree.repository := repository |} :: stale)
        end
  end.

Definition by_execution (a b : Worktree) : Prop :=
  String.le (Worktree.execution_id a) (Worktree.execution_id b).
#[local] Instance by_execution_dec : RelDecision by_execution.
Proof. intros a b. unfold by_execution. apply _. Defined.

Definition find_stale (live : list ExecutionId) : gio (list Worktree) :=
  entries ← ask (Git.ReadDir executions_root);
  match entries with
  | Err NOENT => mret []
  | Err e => throw (cleanup_error (errno_text e))
  | Ok entries =>
      stale ← find_stale_in (list_to_set live) entries;
      mret (merge_sort by_execution stale)
  end.
End Cleanup.
