(* ===== verification/GitDiff.v ===== *)
(** * Capturing what an execution changed ([git-worktree/src/diff.rs])

    The diff is taken with a Git directory of the manager's own, on the objects
    of the locked mirror: nothing of the execution's [.git] but [HEAD] is used. *)

From Stdlib Require Import Ascii.
From S2P Require Import Prelude Core Lifecycle Effects StorageModel FileSystem GitManager GitCreate GitCleanup.
















Definition diff_error (m : string) : WorktreeError := WorktreeError.Diff m.

Module LockedMirror.
Record LockedMirror := {
  root : MirrorRoot;
  path : string;
  handle : Descriptor;
  device : Z;
  inode : Z;
  owner : Z
}.
Definition objects_path (m : LockedMirror) : string := join (path m) "objects".
End LockedMirror.
Abbreviation LockedMirror := LockedMirror.LockedMirror.

Module VerifiedObjectDirectory.
Record VerifiedObjectDirectory := { path : string; handle : Descriptor; metadata : Metadata }.
End VerifiedObjectDirectory.
Abbreviation VerifiedObjectDirectory := VerifiedObjectDirectory.VerifiedObjectDirectory.

Module Context_.
Record TrustedCaptureContext := {
  parent : string;
  directory : string;
  name : string;
  git_dir : string;
  work_tree : string;
  mirror : LockedMirror;
  object_database : VerifiedObjectDirectory;
  temp_objects : option string;
  temp_refs : option string;
  has_config : bool
}.
Definition with_objects (o r : option string) (c : TrustedCaptureContext) : TrustedCaptureContext :=
  {| parent := parent c; directory := directory c; name := name c; git_dir := git_dir c;
     work_tree := work_tree c; mirror := mirror c; object_database := object_database c;
     temp_objects := o; temp_refs := r; has_config := has_config c |}.
End Context_.
Abbreviation TrustedCaptureContext := Context_.TrustedCaptureContext.

(** ** Files that stay the same *)
Definition verify_same_file (expected actual : Metadata) (purpose : string) : result WorktreeError unit :=
  check ((Metadata.dev expected =? Metadata.dev actual) && (Metadata.ino expected =? Metadata.ino actual) &&
         (Metadata.uid expected =? Metadata.uid actual))
    (ownership_error (purpose +:+ " identity changed")).

Definition read_stable_file (path purpose : string) : gio string :=
  supplied ← git_io (Git.Lstat path) ownership_error;
  _ ← guard_or (negb (Metadata.is_symlink supplied || negb (Metadata.is_file supplied)))
        (ownership_error (purpose +:+ " is not a real file: " +:+ path));
  file ← git_io (Git.Open path) diff_error;
  opened ← git_io (Git.Fstat file) diff_error;
  _ ← ret_result (verify_same_file supplied opened.1 purpose);
  bytes ← git_io (Git.ReadToEnd file) diff_error;
  after ← git_io (Git.Fstat file) diff_error;
  _ ← ret_result (verify_same_file opened.1 after.1 purpose);
  _ ← guard_or (opened.2 =? after.2) (ownership_error (purpose +:+ " changed while copying"));
  mret bytes.

Definition utf8_or (bytes : string) (f : string -> WorktreeError) : result WorktreeError string :=
  ok_or (from_utf8 bytes) (f "invalid utf-8 sequence").

Definition verify_current_branch (path branch : string) : gio unit :=
  bytes ← read_stable_file (join path ".git/HEAD") "Git HEAD";
  head ← ret_result (utf8_or bytes diff_error);
  guard_or (bool_decide (trim head = "ref: refs/heads/" +:+ branch))%string
    (ownership_error ("recorded branch " +:+ branch +:+ " does not match checkout " +:+ trim head +:+ " at " +:+ path)).

Section Diff.
Context (replaced : string -> string) `{GitSerde}.
Context (manager : GitWorktreeManager).

Abbreviation lossy := (lossy replaced).

(** ** The locked mirror ([manager.rs]) *)
Definition absent_alternate (objects name : string) : gio unit :=
  let alternate := join (join objects "info") name in
  absent_or alternate (mirror_error ("mirror alternate object database is forbidden: " +:+ alternate)) mirror_error.

Definition verify_mirror_storage_preflight (root : MirrorRoot) (mirror : string) : gio unit :=
  _ ← verify_mirror_root root;
  canonical_mirror ← git_io (Git.Canonicalize mirror) mirror_error;
  _ ← guard_or (has_parent canonical_mirror (MirrorRoot.path root))
        (mirror_error ("mirror escaped pinned root: " +:+ canonical_mirror));
  let objects := join mirror "objects" in
  metadata ← git_io (Git.Lstat objects) mirror_error;
  _ ← guard_or (negb (Metadata.is_symlink metadata || negb (Metadata.is_dir metadata)))
        (mirror_error ("mirror object database is not a real directory: " +:+ objects));
  canonical_objects ← git_io (Git.Canonicalize objects) mirror_error;
  _ ← guard_or (has_parent canonical_objects canonical_mirror)
        (mirror_error ("mirror object database escaped its repository: " +:+ canonical_objects));
  each (absent_alternate objects) ["alternates"; "http-alternates"]%string.

(** [LockedMirror::verify]. *)
Definition verify_locked_mirror (m : LockedMirror) : gio unit :=
  _ ← verify_mirror_root (LockedMirror.root m);
  metadata ← git_io (Git.Lstat (LockedMirror.path m)) mirror_error;
  opened ← git_io (Git.Fstat (LockedMirror.handle m)) mirror_error;
  _ ← guard_or (Metadata.is_dir metadata) (mirror_error "locked mirror is no longer a real directory");
  _ ← guard_or ((Metadata.dev metadata =? LockedMirror.device m) && (Metadata.ino metadata =? LockedMirror.inode m) &&
                (Metadata.uid metadata =? LockedMirror.owner m) &&
                (Metadata.dev opened.1 =? LockedMirror.device m) && (Metadata.ino opened.1 =? LockedMirror.inode m))
        (mirror_error "locked mirror identity changed");
  verify_mirror_storage_preflight (LockedMirror.root m) (LockedMirror.path m).

(** [lock_mirror_for_capture]: what follows runs under the lock. *)
Definition pin_mirror (repo path : string) : gio LockedMirror :=
  root ← secure_mirror_root manager;
  locator ← ret_result (clone_locator manager repo);
  _ ← verify_mirror_repository replaced root path locator;
  _ ← verify_mirror_storage_preflight root path;
  metadata ← git_io (Git.Lstat path) mirror_error;
  handle ← git_io (Git.Open path) mirror_error;
  opened ← git_io (Git.Fstat handle) mirror_error;
  _ ← guard_or ((Metadata.dev metadata =? Metadata.dev opened.1) && (Metadata.ino metadata =? Metadata.ino opened.1) &&
                (Metadata.uid metadata =? Metadata.uid opened.1))
        (mirror_error "mirror identity changed while pinning");
  mret {| LockedMirror.root := root; LockedMirror.path := path; LockedMirror.handle := handle;
          LockedMirror.device := Metadata.dev opened.1; LockedMirror.inode := Metadata.ino opened.1;
          LockedMirror.owner := Metadata.uid opened.1 |}.

Definition with_locked_mirror {A} (repo : string) (body : LockedMirror -> gio A) : gio A :=
  path ← ensure_mirror replaced manager repo;
  with_lock (with_extension path "git.lock") diff_error (
    mirror ← pin_mirror repo path;
    body mirror).

(** ** The objects of the mirror *)
Definition capture_object_directory (supplied : string) : gio VerifiedObjectDirectory :=
  metadata ← git_io (Git.Lstat supplied) mirror_error;
  _ ← guard_or (negb (Metadata.is_symlink metadata || negb (Metadata.is_dir metadata)))
        (mirror_error ("object database is not a real directory: " +:+ supplied));
  path ← git_io (Git.Canonicalize supplied) mirror_error;
  handle ← git_io (Git.Open path) diff_error;
  opened ← git_io (Git.Fstat handle) diff_error;
  _ ← ret_result (verify_same_file metadata opened.1 "object database");
  mret {| VerifiedObjectDirectory.path := path; VerifiedObjectDirectory.handle := handle;
          VerifiedObjectDirectory.metadata := opened.1 |}.

Definition verify_object_directory (o : VerifiedObjectDirectory) : gio unit :=
  current ← git_io (Git.Lstat (VerifiedObjectDirectory.path o)) ownership_error;
  _ ← guard_or (negb (Metadata.is_symlink current || negb (Metadata.is_dir current)))
        (ownership_error "object database is no longer a real directory");
  opened ← git_io (Git.Fstat (VerifiedObjectDirectory.handle o)) diff_error;
  _ ← ret_result (verify_same_file (VerifiedObjectDirectory.metadata o) current "object database");
  ret_result (verify_same_file (VerifiedObjectDirectory.metadata o) opened.1 "object database").

(** ** The capture context *)
Definition verify_context (c : TrustedCaptureContext) : gio unit :=
  _ ← verify_locked_mirror (Context_.mirror c);
  _ ← verify_object_directory (Context_.object_database c);
  guard_or (path_eqb (Context_.directory c) (Context_.git_dir c))
    (ownership_error "trusted capture Git directory identity changed").

(** [TrustedCaptureContext::command]. *)
Definition capture_command (c : TrustedCaptureContext) : gio GitCommand :=
  _ ← verify_context c;
  command ← git_command;
  mret (GitCommand.in_dir (Context_.work_tree c)
    (GitCommand.with_env "GIT_OBJECT_DIRECTORY" (VerifiedObjectDirectory.path (Context_.object_database c))
    (GitCommand.with_args
       ["--git-dir"; Context_.git_dir c; "--work-tree"; Context_.work_tree c; "-c"; "core.hooksPath=/dev/null";
        "-c"; "core.fsmonitor=false"; "-c"; "diff.external="]%string command))).

Definition run_capture (c : TrustedCaptureContext) (args : list string) : gio Output :=
  command ← capture_command c;
  output ← git_io (Git.Run (GitCommand.with_args args command)) diff_error;
  _ ← verify_context c;
  mret output.

Definition git_success (c : TrustedCaptureContext) (args : list string) : gio Output :=
  output ← run_capture c args;
  _ ← guard_or (Output.success output) (diff_error (trim (lossy (Output.stderr output))));
  mret output.

(** One step of the removal: its failure is recorded and the others go on. *)
Definition noting (name : string) (c : git_call (result string unit)) : gio (list string) :=
  r ← ask c;
  mret match r with Ok _ => [] | Err e => ["remove " +:+ name +:+ ": " +:+ e] end.

Definition noting_child (directory name : string) (child : option string) : gio (list string) :=
  match child with
  | Some child => noting name (Git.MetadataRemoveSubdirectory directory name child)
  | None => mret []
  end.

(** [TrustedCaptureContext::cleanup]: the errors, joined. *)
Definition cleanup_context (c : TrustedCaptureContext) : gio (result string unit) :=
  let directory := Context_.directory c in
  lock ← noting "index.lock" (Git.MetadataRemoveToolFile directory "index.lock");
  index ← noting "index" (Git.MetadataRemoveToolFile directory "index");
  config ← (if Context_.has_config c then noting "config" (Git.MetadataRemove directory "config") else mret []);
  head ← noting "HEAD" (Git.MetadataRemove directory "HEAD");
  objects ← noting_child directory "objects" (Context_.temp_objects c);
  refs ← noting_child directory "refs" (Context_.temp_refs c);
  self ← noting "directory" (Git.MetadataRemoveSubdirectory (Context_.parent c) (Context_.name c) directory);
  let errors := lock ++ index ++ config ++ head ++ objects ++ refs ++ self in
  mret (check (bool_decide (errors = [])) (String.concat "; " errors)).

(** The configuration of the object format, by the length of its identifiers. *)
Definition SHA256_CONFIG : string :=
  let nl := String "010" "" in let tab := String "009" "" in
  ("[core]" +:+ nl +:+ tab +:+ "repositoryformatversion = 1" +:+ nl +:+ "[extensions]" +:+ nl +:+ tab +:+
   "objectformat = sha256" +:+ nl)%string.

Definition object_format (base_sha : string) : result WorktreeError (option string) :=
  let length := Z.of_nat (String.length base_sha) in
  if length =? 40 then Ok None
  else if length =? 64 then Ok (Some SHA256_CONFIG)
  else Err (diff_error ("unsupported Git object identifier length: " +:+ show_Z length)).

Definition setup_context (c : TrustedCaptureContext) (base_sha : string) (config : option string) : gio unit :=
  let directory := Context_.directory c in
  _ ← meta_io (Git.MetadataCreate directory "HEAD" (base_sha +:+ String "010" "")) diff_error;
  _ ← match config with
      | Some config => meta_io (Git.MetadataCreate directory "config" config) diff_error
      | None => mret tt
      end;
  _ ← verify_context c;
  _ ← git_success c ["read-tree"; base_sha]%string;
  _ ← meta_io (Git.MetadataRestrict directory "index") diff_error;
  verify_context c.

(** What was made is removed when the setup fails. *)
Definition or_remove (c : TrustedCaptureContext) (error : WorktreeError) : gio TrustedCaptureContext :=
  removed ← cleanup_context c;
  match removed with
  | Ok _ => throw error
  | Err cleanup => throw (diff_error (WorktreeError.to_string error +:+
      "; rollback trusted capture context failed: " +:+ cleanup))
  end.

Definition create_context (mirror : LockedMirror) (work_tree : string) (worktree : Worktree) :
    gio TrustedCaptureContext :=
  _ ← verify_locked_mirror mirror;
  object_database ← capture_object_directory (LockedMirror.objects_path mirror);
  config ← ret_result (object_format (Worktree.base_sha worktree));
  parent ← metadata_directory manager diff_error;
  pid ← ask Git.ProcessId;
  n ← ask Git.NextCapture;
  let name := ".capture-" +:+ Worktree.execution_id worktree +:+ "-" +:+ decimal pid +:+ "-" +:+ decimal n in
  directory ← meta_io (Git.MetadataSubdirectory parent name) diff_error;
  let context :=
    {| Context_.parent := parent; Context_.directory := directory; Context_.name := name;
       Context_.git_dir := directory; Context_.work_tree := work_tree; Context_.mirror := mirror;
       Context_.object_database := object_database; Context_.temp_objects := None; Context_.temp_refs := None;
       Context_.has_config := bool_decide (is_Some config) |} in
  objects ← outcome_of (meta_io (Git.MetadataSubdirectory directory "objects") diff_error);
  match objects with
  | Err error => or_remove context error
  | Ok objects =>
      let context := Context_.with_objects (Some objects) None context in
      refs ← outcome_of (meta_io (Git.MetadataSubdirectory directory "refs") diff_error);
      match refs with
      | Err error => or_remove context error
      | Ok refs =>
          let context := Context_.with_objects (Some objects) (Some refs) context in
          r ← outcome_of (setup_context context (Worktree.base_sha worktree) config);
          match r with
          | Ok _ => mret context
          | Err error => or_remove context error
          end
      end
  end.

(** ** The diff *)
Fixpoint utf8_all (pieces : list string) : result WorktreeError (list string) :=
  match pieces with
  | [] => Ok []
  | piece :: pieces => text ← utf8_or piece diff_error; texts ← utf8_all pieces; Ok (text :: texts)
  end.

(** A [BTreeSet] of paths, as a sorted list. *)
Definition path_set (paths : list string) : list string := merge_sort String.le (remove_dups paths).

Definition parse_paths (bytes : string) : result WorktreeError (list string) :=
  texts ← utf8_all (List.filter (fun path => negb (str_is_empty path) && negb (bool_decide (path = OWNER_NAME)))
                     (split "000"%char bytes));
  Ok (path_set texts).

Definition diff_options : list string := ["diff"; "--no-ext-diff"; "--no-textconv"; "--ignore-submodules=dirty"]%string.

(** The patches of the untracked files, appended. *)
Fixpoint untracked_patches (c : TrustedCaptureContext) (files : list string) (patch : string) : gio string :=
  match files with
  | [] => mret patch
  | file :: files =>
      output ← run_capture c
        ["diff"; "--no-index"; "--no-ext-diff"; "--no-textconv"; "--binary"; "--"; "/dev/null"; file]%string;
      _ ← guard_or (bool_decide (Output.code output = Some 1)) (diff_error (trim (lossy (Output.stderr output))));
      untracked_patches c files (patch +:+ Output.stdout output)
  end.

Definition capture_with_context (c : TrustedCaptureContext) (worktree : Worktree) : gio DiffCapture :=
  let base_sha := Worktree.base_sha worktree in
  top_level ← git_success c ["rev-parse"; "--show-toplevel"]%string;
  top_level ← ret_result (utf8_or (Output.stdout top_level) diff_error);
  canonical_top_level ← git_io (Git.Canonicalize (trim top_level)) ownership_error;
  canonical_work_tree ← git_io (Git.Canonicalize (Context_.work_tree c)) ownership_error;
  _ ← guard_or (path_eqb canonical_top_level canonical_work_tree)
        (ownership_error ("trusted capture work tree " +:+ canonical_top_level +:+ " is not " +:+ canonical_work_tree));
  patch ← git_success c (diff_options ++ ["--binary"; base_sha; "--"]%string);
  tracked ← git_success c (diff_options ++ ["--name-only"; "-z"; base_sha; "--"]%string);
  untracked ← git_success c ["ls-files"; "--others"; "--exclude-standard"; "-z"]%string;
  changed ← ret_result (parse_paths (Output.stdout tracked));
  new ← ret_result (parse_paths (Output.stdout untracked));
  patch ← untracked_patches c new (Output.stdout patch);
  _ ← verify_context c;
  patch ← ret_result (utf8_or patch diff_error);
  mret {| DiffCapture.patch := patch; DiffCapture.changed_files := path_set (changed ++ new) |}.

Definition capture_under_lock (path : string) (worktree : Worktree) (mirror : LockedMirror) : gio DiffCapture :=
  context ← create_context mirror path worktree;
  result ← outcome_of (capture_with_context context worktree);
  cleanup ← cleanup_context context;
  match result, cleanup with
  | Ok capture, Ok _ => mret capture
  | Err error, Ok _ => throw error
  | Ok _, Err cleanup => throw (diff_error ("remove trusted capture context failed: " +:+ cleanup))
  | Err error, Err cleanup => throw (diff_error (WorktreeError.to_string error +:+
      "; remove trusted capture context failed: " +:+ cleanup))
  end.

Definition capture (worktree : Worktree) : gio DiffCapture :=
  path ← verified_path manager worktree;
  _ ← verify_git_storage_preflight path;
  r ← outcome_of (read_owner_record path);
  owner ← match r with
          | Ok owner => mret owner
          | Err e => throw (diff_error (WorktreeError.to_string e))
          end;
  _ ← guard_or (owns owner worktree) (ownership_error (Worktree.path worktree));
  _ ← verify_current_branch path (OwnerRecord.branch owner);
  _ ← verify_git_storage_preflight path;
  with_locked_mirror (Worktree.repository worktree) (capture_under_lock path worktree).
End Diff.
