(* ===== verification/GitWorld.v ===== *)
(** * The host under the worktree manager

    A tree of files by path, the metadata directory as a map, and the file locks.
    Any call may fail.  A Git command that only reads leaves the tree as it is;
    another may change what is below the paths it is given, but for the owner
    record: the repositories do not track a file of that name.  A removal that
    fails may have removed a part. *)

From Stdlib Require Import Ascii.
From S2P Require Import Prelude Core Lifecycle Effects StorageModel FileSystem Pinned MetadataStore StorageCodec GitManager GitCreate GitCleanup.








Inductive Node := DirNode | FileNode (bytes : string) | LinkNode.
#[export] Instance node_eq_dec : EqDecision Node.
Proof. solve_decision. Defined.

Record GitWorld := {
  tree : gmap string Node;
  meta : gmap (string * string) string; (* by directory and name *)
  held : gset string;                 (* the locks of this process *)
  taken : gset string                 (* and those of others *)
}.

Definition set_tree (t : gmap string Node) (w : GitWorld) : GitWorld :=
  {| tree := t; meta := meta w; held := held w; taken := taken w |}.
Definition set_meta (m : gmap (string * string) string) (w : GitWorld) : GitWorld :=
  {| tree := tree w; meta := m; held := held w; taken := taken w |}.
Definition set_held (h : gset string) (w : GitWorld) : GitWorld :=
  {| tree := tree w; meta := meta w; held := h; taken := taken w |}.

Definition node_is (n : Node) (m : Metadata) : Prop :=
  match n with
  | DirNode => Metadata.is_dir m = true
  | FileNode _ => Metadata.is_file m = true
  | LinkNode => Metadata.is_symlink m = true
  end.

(** [q] is [p] or below it. *)
Definition below (p q : string) : bool := bool_decide (q = p) || starts_with (p +:+ "/") q.

Definition nothing_below (p : string) (t : gmap string Node) : Prop := forall q, below p q = true -> t !! q = None.

(** The trees differ only below [p]. *)
Definition same_outside (p : string) (t t' : gmap string Node) : Prop :=
  forall q, below p q = false -> t' !! q = t !! q.

Lemma below_self p : below p p = true.
Proof. unfold below. by rewrite bool_decide_true. Qed.

Lemma below_slash p s : below p (p +:+ "/" +:+ s) = true.
Proof. unfold below. apply orb_true_iff. right. rewrite <- string_app_assoc. apply starts_with_app. Qed.

Lemma below_split p q : below p q = true -> q = p \/ exists r, q = (p +:+ "/" +:+ r)%string.
Proof.
  unfold below. intros [Hq%bool_decide_eq_true|Hq]%orb_true_iff; [by left|right].
  apply starts_with_inv in Hq as [r ->]. exists r. by rewrite string_app_assoc.
Qed.

Lemma below_trans p q r : below p q = true -> below q r = true -> below p r = true.
Proof.
  intros [-> |[s ->]]%below_split; [done|]. intros [-> |[t ->]]%below_split; [apply below_slash|].
  rewrite !string_app_assoc. apply below_slash.
Qed.

Lemma join_below p q c :
  last_byte p = Some c -> c <> "/"%char -> is_absolute q = false -> below p (join p q) = true.
Proof. intros Hl Hc Hq. rewrite (join_slash _ _ c) by done. apply below_slash. Qed.

Fixpoint subcommand (args : list string) : list string :=
  match args with
  | option :: value :: rest =>
      if bool_decide (option ∈ ["--git-dir"; "--work-tree"; "-c"]%string) then subcommand rest
      else option :: value :: rest
  | _ => args
  end.

Definition read_only (args : list string) : bool :=
  match subcommand args with
  | command :: rest =>
      bool_decide (command ∈ ["rev-parse"; "cat-file"; "check-ref-format"; "diff"; "ls-files"]%string) ||
      (bool_decide (command = "branch"%string) && bool_decide (rest = ["--show-current"%string])) ||
      (bool_decide (command = "remote"%string) && bool_decide (head rest = Some "get-url"%string))
  | [] => false
  end.

(** A failed change may have happened. *)
Definition changed {A E} (w : GitWorld) (r : result E A) (w' : GitWorld) (done : GitWorld -> Prop) : Prop :=
  match r with Ok _ => done w' | Err _ => w' = w \/ done w' end.

Definition looked {A} (w w' : GitWorld) (a : A) (P : A -> Prop) : Prop := w' = w /\ P a.

Section World.
(** The files of the repositories of executions. *)
Context (owner_file : string -> Prop).

Definition git_sem (B : Type) (c : git_call B) (w : GitWorld) : B -> GitWorld -> Prop :=
  match c in Git.git_call B return B -> GitWorld -> Prop with
  | Git.Lstat path => fun r w' => looked w w' r (fun r =>
      match r with
      | Ok m => exists n, tree w !! path = Some n /\ node_is n m
      | Err NOENT => nothing_below path (tree w)
      | Err _ => True
      end)
  | Git.ReadFile path => fun r w' => looked w w' r (fun r =>
      match r with
      | Ok bytes => tree w !! path = Some (FileNode bytes)
      | Err _ => forall bytes, tree w !! path <> Some (FileNode bytes)
      end)
  | Git.ReadDir path => fun r w' => looked w w' r (fun r =>
      match r with
      | Ok items => (forall name, has_char "/" name \/ nothing_below (join path name) (tree w) \/ Ok name ∈ items) /\
          (forall name, Ok name ∈ items -> exists q, below (join path name) q = true /\ is_Some (tree w !! q))
      | Err NOENT => nothing_below path (tree w)
      | Err _ => True
      end)
  | Git.RemoveDirAll path => fun r w' =>
      exists t, w' = set_tree t w /\ t ⊆ tree w /\ same_outside path (tree w) t /\
        (is_ok r = true -> nothing_below path t)
  | Git.CreateDir path => fun r w' => changed w r w' (fun w' =>
      tree w !! path = None /\ w' = set_tree (<[path := DirNode]> (tree w)) w)
  | Git.CreateDirMode path _ => fun r w' => changed w r w' (fun w' =>
      tree w !! path = None /\ w' = set_tree (<[path := DirNode]> (tree w)) w)
  | Git.Run command => fun r w' =>
      if read_only (GitCommand.args command) then w' = w
      else exists t, w' = set_tree t w /\
        (forall q, t !! q <> tree w !! q -> exists p, p ∈ GitCommand.args command /\ below p q = true) /\
        (forall q, owner_file q -> t !! q = tree w !! q)
  | Git.CreateNew path => fun r w' => changed w r w' (fun w' =>
      tree w !! path = None /\ w' = set_tree (<[path := FileNode ""]> (tree w)) w)
  | Git.Rename from to => fun r w' => changed w r w' (fun w' =>
      exists n, w' = set_tree (<[to := n]> (delete from (tree w))) w)
  | Git.RemoveFile path => fun r w' => changed w r w' (fun w' => w' = set_tree (delete path (tree w)) w)
  | Git.WriteAll _ _ => fun _ w' => exists t, w' = set_tree t w /\ forall q, owner_file q -> t !! q = tree w !! q
  | Git.Lock path => fun r w' => changed w r w' (fun w' =>
      path ∉ taken w /\ w' = set_held ({[path]} ∪ held w) w)
  | Git.Unlock path => fun _ w' => w' = set_held (held w ∖ {[path]}) w
  | Git.MetadataRead directory name => fun r w' => looked w w' r (fun r =>
      match r with Ok bytes => meta w !! (directory, name) = bytes | Err _ => True end)
  | Git.MetadataCreate directory name bytes => fun r w' => changed w r w' (fun w' =>
      meta w !! (directory, name) = None /\ w' = set_meta (<[(directory, name) := bytes]> (meta w)) w)
  | Git.MetadataReplace directory name bytes => fun r w' => changed w r w' (fun w' =>
      w' = set_meta (<[(directory, name) := bytes]> (meta w)) w)
  | Git.MetadataRemove directory name => fun r w' => changed w r w' (fun w' =>
      w' = set_meta (delete (directory, name) (meta w)) w)
  | _ => fun _ w' => w' = w
  end.

(** The calls that change neither the tree nor the metadata. *)
Definition git_reads (B : Type) (c : git_call B) : Prop :=
  match c with
  | Git.Run command => read_only (GitCommand.args command) = true
  | Git.RemoveDirAll _ | Git.CreateDir _ | Git.CreateDirMode _ _ | Git.CreateNew _ | Git.Rename _ _
  | Git.RemoveFile _ | Git.WriteAll _ _ | Git.Lock _ | Git.Unlock _ | Git.MetadataCreate _ _ _
  | Git.MetadataReplace _ _ _ | Git.MetadataRemove _ _ => False
  | _ => True
  end.

Lemma git_reads_sem B (c : git_call B) w b w' : git_reads B c -> git_sem B c w b w' -> w' = w.
Proof.
  destruct c; simpl; try done; try (by intros _ []).
  intros ->. done.
Qed.
End World.

(** ** Which parts only read *)
Create HintDb git_reads.

Ltac reads_step :=
  lazymatch goal with
  | |- forall _, _ => intro
  | |- all_calls _ (ask _) => split; [exact I|by intros]
  | |- all_calls _ (ask_or _ _) => split; [exact I|by intros]
  | |- all_calls _ (git_io _ _) => split; [exact I|by intros]
  | |- all_calls _ (meta_io _ _) => split; [exact I|by intros]
  | |- all_calls _ (ready_io _) => split; [exact I|by intros]
  | |- all_calls _ (ret_result _) => exact I
  | |- all_calls _ (guard_or _ _) => exact I
  | |- all_calls _ (some_or _ _) => exact I
  | |- all_calls _ (throw _) => exact I
  | |- all_calls _ (mret _) => exact I
  | |- all_calls _ (outcome_of _) => apply all_calls_outcome_of
  | |- all_calls _ (of_proc _) => apply all_calls_of_proc
  | |- all_calls _ (lift _ _) => apply all_calls_bind
  | |- all_calls _ (Ret _) => exact I
  | |- all_calls _ (each _ _) => apply all_calls_each
  | |- all_calls _ (mbind _ _) => apply all_calls_io_bind
  | |- all_calls _ (let '(_, _) := ?x in _) => destruct x
  | |- all_calls _ (match ?x with _ => _ end) => destruct x
  end.
Ltac reads := repeat (solve [eauto 2 with git_reads] || reads_step).

(** The same, into the functions that are called. *)
Ltac head_of t := lazymatch t with ?f _ => head_of f | _ => t end.
Ltac sweep :=
  repeat (solve [eauto 2 with git_reads] || reads_step ||
          match goal with |- all_calls _ ?m => let h := head_of m in unfold h end).

Section Reads.
Context (replaced : string -> string).

Lemma reads_preflight path : all_calls git_reads (verify_git_storage_preflight path).
Proof. unfold verify_git_storage_preflight, absent_or, check_candidate. reads. Qed.
#[local] Hint Resolve reads_preflight : git_reads.

Lemma reads_command command error :
  read_only (GitCommand.args command) = true -> all_calls git_reads (run_command replaced command error).
Proof. intros Hc. apply all_calls_io_bind; [by split|by intros]. Qed.

Lemma reads_repository_git path args error :
  read_only args = true -> all_calls git_reads (run_repository_git replaced path args error).
Proof.
  intros Ha. unfold run_repository_git. apply all_calls_io_bind; [apply reads_preflight|intros _].
  split; [done|]. intros p. apply reads_command. destruct p; exact Ha.
Qed.

Lemma reads_repository_stdout path args error :
  read_only args = true -> all_calls git_reads (repository_git_stdout replaced path args error).
Proof. intros Ha. unfold repository_git_stdout. apply all_calls_io_bind; [by apply reads_repository_git|done]. Qed.
#[local] Hint Resolve reads_repository_stdout : git_reads.

Lemma reads_repository_storage path : all_calls git_reads (verify_repository_storage replaced path).
Proof.
  unfold verify_repository_storage, absent_or.
  apply all_calls_io_bind; [apply reads_preflight|intros _].
  apply all_calls_io_bind; [by reads|intros root].
  apply all_calls_io_bind; [by apply reads_repository_stdout|intros top].
  apply all_calls_io_bind; [by reads|intros canonical].
  apply all_calls_io_bind; [by reads|intros _].
  apply all_calls_io_bind.
  - assert (Forall (fun a => read_only a = true) reported_paths) as Hf by by repeat constructor.
    induction Hf as [|a l Ha _ IH]; [done|]. cbn [each]. apply all_calls_io_bind; [|by intros].
    unfold verify_git_path, canonical_git_path. apply all_calls_io_bind; [apply reads_preflight|intros _].
    apply all_calls_io_bind; [by apply reads_repository_stdout|]. reads.
  - intros _. apply all_calls_io_bind; [apply reads_preflight|intros _].
    apply all_calls_io_bind; [by apply reads_repository_stdout|]. reads.
Qed.

Lemma reads_current_branch path error : all_calls git_reads (current_branch_of replaced path error).
Proof.
  unfold current_branch_of. apply all_calls_io_bind; [apply reads_preflight|intros _].
  by apply reads_repository_stdout.
Qed.
End Reads.

#[export] Hint Resolve reads_preflight reads_repository_storage reads_current_branch : git_reads.

(** * A host with git

    A codec for the records of the worktree manager and one behaviour within what
    [GitWorld.v] allows, for concrete runs: every call that can succeed does, but
    for a removal, which may stop half-way. *)

#[local] Unset Program Cases.

(** ** The codec *)
#[export] Program Instance list_tree {A} `{Tree A} : Tree (list A) :=
  {| to_tree (l : list A) := GenNode 3 (to_tree <$> l);
     of_tree t := match t with GenNode 3 l => mapM of_tree l | _ => None end |}.
Next Obligation.
  intros A ? l. simpl. apply mapM_Some. induction l as [|a l IH]; constructor; [apply of_to_tree|done].
Qed.

#[export] Instance map_tree : Tree (gmap string string).
Proof.
  refine (@via (gmap string string) (list (string * string)) _ map_to_list list_to_map _).
  intros m. apply list_to_map_to_list.
Defined.

#[export] Instance owner_tree : Tree OwnerRecord.
Proof.
  refine (via
    (fun r => (OwnerRecord.labels r, OwnerRecord.base_sha r, OwnerRecord.branch r))
    (fun '(l, s, b) => {| OwnerRecord.labels := l; OwnerRecord.base_sha := s; OwnerRecord.branch := b |}) _).
  by intros [].
Defined.

Definition create_phase_number (p : CreatePhase) : Z :=
  match p with CreatePhase.Cloning => 0 | CreatePhase.Cloned => 1 | CreatePhase.CheckedOut => 2 end.
Definition number_create_phase (n : Z) : CreatePhase :=
  if n =? 0 then CreatePhase.Cloning else if n =? 1 then CreatePhase.Cloned else CreatePhase.CheckedOut.

#[export] Instance intent_tree : Tree CreateIntent.
Proof.
  refine (via
    (fun i => (CreateIntent.labels i, CreateIntent.repository i, CreateIntent.base_ref i, CreateIntent.base_sha i,
               CreateIntent.branch i, CreateIntent.repository_path i, create_phase_number (CreateIntent.phase i)))
    (fun '(l, r, f, s, b, p, n) =>
       {| CreateIntent.labels := l; CreateIntent.repository := r; CreateIntent.base_ref := f;
          CreateIntent.base_sha := s; CreateIntent.branch := b; CreateIntent.repository_path := p;
          CreateIntent.phase := number_create_phase n |}) _).
  by intros [?????? []].
Defined.

#[export] Instance cleanup_tree : Tree CleanupJournal.
Proof.
  refine (via
    (fun j => (CleanupJournal.owner j, CleanupJournal.worktree_path j))
    (fun '(o, p) => {| CleanupJournal.owner := o; CleanupJournal.worktree_path := p |}) _).
  by intros [].
Defined.

Definition parse_or {A} `{Tree A} (s : string) : result string A := ok_or (parse s) "not a record"%string.

Lemma parse_or_print {A} `{Tree A} (a : A) : parse_or (print a) = Ok a.
Proof. unfold parse_or. by rewrite parse_print. Qed.

Definition git_serde : GitSerde :=
  {| owner_to_json := print; owner_from_json := parse_or; intent_to_json := print; intent_from_json := parse_or;
     cleanup_to_json := print; cleanup_from_json := parse_or;
     owner_round_trip := parse_or_print; intent_round_trip := parse_or_print;
     cleanup_round_trip := parse_or_print |}.

(** ** The host *)
Definition stat_node (n : Node) : Metadata :=
  {| Metadata.dev := 1; Metadata.ino := 1; Metadata.uid := 1000;
     Metadata.mode := match n with DirNode => 16832 | FileNode _ => 33152 | LinkNode => 41471 end |}.

Definition descriptor (path : string) : Descriptor := Zpos (encode path).
Definition described (file : Descriptor) : string :=
  match file with Zpos p => default ""%string (decode p) | _ => ""%string end.

Definition output (text : string) : Output :=
  {| Output.code := Some 0; Output.stdout := text; Output.stderr := "" |}.

(** Git changes no file of this kind: the owner records are such. *)
Definition of_json (path : string) : Prop := last_byte path = Some "n"%char.
#[export] Instance of_json_dec path : Decision (of_json path).
Proof. unfold of_json. apply _. Defined.

Section Host.
(** The repository of the execution that runs, its branch, its origin, and whether a removal stops half-way. *)
Context (repository branch origin : string) (half : bool).

Definition answer (args : list string) : string :=
  match subcommand args with
  | ["rev-parse"; "--show-toplevel"] => repository
  | ["rev-parse"; "--git-path"; name] => join repository (".git/" +:+ name)
  | "rev-parse" :: "--is-bare-repository" :: _ => "true"
  | "rev-parse" :: "--verify" :: _ => "5e1f"
  | "rev-parse" :: _ => join repository ".git"
  | "branch" :: _ => branch
  | "remote" :: _ => origin
  | _ => ""
  end%string.

(** A clone makes the directories git needs. *)
Definition cloned (args : list string) (t : gmap string Node) : gmap string Node :=
  match subcommand args with
  | "clone"%string :: _ =>
      match last args with
      | Some destination =>
          <[destination +:+ "/.git" := DirNode]> (<[destination +:+ "/.git/objects" := DirNode]>
            (<[destination +:+ "/.git/refs" := DirNode]> t))
      | None => t
      end
  | _ => t
  end%string.

Definition keys_below (path : string) (t : gmap string Node) : gmap string Node :=
  filter (fun kn => below path kn.1 = true) t.

(** Files without a directory are no part of a file system. *)
Definition absence (path : string) (w : GitWorld) : Errno :=
  if decide (keys_below path (tree w) = ∅) then NOENT else OtherErrno "not a file system".

(** The first names of what is below a path. *)
Definition first_name (rest : string) : string :=
  match split_once "/" rest with Some (name, _) => name | None => rest end.
Definition listing (path : string) (t : gmap string Node) : list string :=
  remove_dups (omap (fun key => first_name <$> strip_prefix (path +:+ "/") key) (map_to_list t).*1).

Definition serve (B : Type) (c : git_call B) (w : GitWorld) : B * GitWorld :=
  match c in Git.git_call B return B * GitWorld with
  | Git.Env _ => (None, w)
  | Git.Run command =>
      (Ok (output (answer (GitCommand.args command))),
       if read_only (GitCommand.args command) then w else set_tree (cloned (GitCommand.args command) (tree w)) w)
  | Git.Lstat path => (match tree w !! path with Some n => Ok (stat_node n) | None => Err (absence path w) end, w)
  | Git.Canonicalize path => (Ok path, w)
  | Git.ReadDir path =>
      (match tree w !! path with
       | Some _ => match last_byte path with
                   | Some c => if decide (c = "/"%char) then Err (OtherErrno "not supported")
                               else Ok (Ok <$> listing path (tree w))
                   | None => Err (OtherErrno "not supported")
                   end
       | None => Err (absence path w)
       end, w)
  | Git.ReadFile path =>
      (match tree w !! path with Some (FileNode bytes) => Ok bytes | _ => Err NOENT end, w)
  | Git.CreateDir path | Git.CreateDirMode path _ =>
      match tree w !! path with
      | None => (Ok tt, set_tree (<[path := DirNode]> (tree w)) w)
      | Some _ => (Err EXIST, w)
      end
  | Git.SetPermissions _ _ | Git.SyncDirectory _ | Git.SyncAll _ => (Ok tt, w)
  | Git.RemoveDirAll path =>
      if half then (Err (OtherErrno "killed"), set_tree (delete (path +:+ "/.git/refs")%string (tree w)) w)
      else (Ok tt, set_tree (filter (fun kn => below path kn.1 = false) (tree w)) w)
  | Git.RemoveFile path => (Ok tt, set_tree (delete path (tree w)) w)
  | Git.Rename from to =>
      match tree w !! from with
      | Some n => (Ok tt, set_tree (<[to := n]> (delete from (tree w))) w)
      | None => (Err NOENT, w)
      end
  | Git.Open path => (Ok (descriptor path), w)
  | Git.CreateNew path =>
      match tree w !! path with
      | None => (Ok (descriptor path), set_tree (<[path := FileNode ""]> (tree w)) w)
      | Some _ => (Err EXIST, w)
      end
  | Git.WriteAll file bytes =>
      if decide (of_json (described file)) then (Err (OtherErrno "not supported"), w)
      else (Ok tt, set_tree (<[described file := FileNode bytes]> (tree w)) w)
  | Git.Fstat _ => (Ok (stat_node DirNode, 0), w)
  | Git.ReadToEnd _ => (Ok "", w)
  | Git.Lock path =>
      if bool_decide (path ∈ taken w) then (Err (OtherErrno "locked"), w)
      else (Ok tt, set_held ({[path]} ∪ held w) w)
  | Git.Unlock path => (tt, set_held (held w ∖ {[path]}) w)
  | Git.MetadataOpen _ => (Ok tt, w)
  | Git.MetadataRead directory name => (Ok (meta w !! (directory, name)), w)
  | Git.MetadataCreate directory name bytes =>
      match meta w !! (directory, name) with
      | None => (Ok tt, set_meta (<[(directory, name) := bytes]> (meta w)) w)
      | Some _ => (Err "exists", w)
      end
  | Git.MetadataReplace directory name bytes => (Ok tt, set_meta (<[(directory, name) := bytes]> (meta w)) w)
  | Git.MetadataRemove directory name => (Ok tt, set_meta (delete (directory, name) (meta w)) w)
  | Git.MetadataSubdirectory directory name => (Ok (join directory name), w)
  | Git.MetadataRemoveSubdirectory _ _ _ | Git.MetadataRestrict _ _ | Git.MetadataRemoveToolFile _ _ => (Ok tt, w)
  | Git.VerifyReady _ => (Ok 0, w)
  | Git.StoragePath _ => (repository, w)
  | Git.StorageVerify _ | Git.StorageRefresh _ => (Ok tt, w)
  | Git.ProcessId => (1, w)
  | Git.NextCapture => (0, w)
  end.

Lemma delete_outside p q (t : gmap string Node) : below p q = true -> same_outside p t (delete q t).
Proof. intros Hq q' Hq'. apply lookup_delete_ne. congruence. Qed.

Lemma subcommand_subset args p : p ∈ subcommand args -> p ∈ args.
Proof.
  enough (forall n args, (length args <= n)%nat -> p ∈ subcommand args -> p ∈ args) as Hn by by eapply Hn.
  clear args. induction n as [|n IH]; intros [|o [|v args]] Hl Hp; simpl in Hl, Hp; try lia; try done.
  case_bool_decide; [|done]. apply IH in Hp; [set_solver|lia].
Qed.

Lemma cloned_changes args t q :
  cloned args t !! q <> t !! q ->
  exists p s, p ∈ args /\ s ∈ [".git"; ".git/objects"; ".git/refs"]%string /\ q = (p +:+ "/" +:+ s)%string.
Proof.
  unfold cloned. destruct (subcommand args) as [|command l]; [done|].
  destruct (decide (command = "clone"%string)) as [-> |Hc].
  - destruct (last args) as [d|] eqn:El; [|done]. intros Hq. exists d. apply last_Some_elem_of in El.
    destruct (decide (q = d +:+ "/.git")%string) as [-> |H1]; [exists ".git"%string; split_and!; [done|set_solver|done]|].
    rewrite lookup_insert_ne in Hq by done.
    destruct (decide (q = d +:+ "/.git/objects")%string) as [-> |H2];
      [exists ".git/objects"%string; split_and!; [done|set_solver|done]|].
    rewrite lookup_insert_ne in Hq by done.
    destruct (decide (q = d +:+ "/.git/refs")%string) as [-> |H3];
      [exists ".git/refs"%string; split_and!; [done|set_solver|done]|].
    by rewrite lookup_insert_ne in Hq.
  - intros Hq. exfalso. revert Hq. repeat (case_match; try done).
Qed.

Lemma cloned_keeps args t q : of_json q -> cloned args t !! q = t !! q.
Proof.
  intros Hq. destruct (decide (cloned args t !! q = t !! q)) as [|Hn]; [done|].
  apply cloned_changes in Hn as (p & s & _ & Hs & ->). exfalso. revert Hq. unfold of_json.
  rewrite <- string_app_assoc. set_unfold in Hs. by destruct Hs as [-> | [-> | [-> | []]]]; rewrite last_byte_app.
Qed.

Lemma first_name_no_slash rest : ~ has_char "/" (first_name rest).
Proof.
  unfold first_name. destruct (split_once "/" rest) as [[n r]|] eqn:E; [by apply split_once_Some in E as [_ ?]|].
  by apply split_once_None.
Qed.

Lemma first_name_below path rest : below (path +:+ "/" +:+ first_name rest) (path +:+ "/" +:+ rest) = true.
Proof.
  unfold first_name. destruct (split_once "/" rest) as [[n r]|] eqn:E; [|apply below_self].
  apply split_once_Some in E as [-> _]. rewrite <- !string_app_assoc. apply (below_slash _ r).
Qed.


Lemma listed path name (t : gmap string Node) :
  name ∈ listing path t <->
  ~ has_char "/" name /\ exists q, below (path +:+ "/" +:+ name) q = true /\ is_Some (t !! q).
Proof.
  unfold listing. rewrite elem_of_remove_dups, list_elem_of_omap. split.
  - intros (key & Hk & (rest & E & ->)%fmap_Some). apply strip_prefix_Some in E as ->. split; [apply first_name_no_slash|].
    apply list_elem_of_fmap in Hk as ([k v] & Hkv & Hk%elem_of_map_to_list). simpl in Hkv. subst k.
    exists (path +:+ "/" +:+ rest)%string. split; [apply first_name_below|]. rewrite string_app_assoc in Hk. by exists v.
  - intros (Hn & q & Hq & v & Hv). exists q. split.
    + apply list_elem_of_fmap. exists (q, v). by split; [|apply elem_of_map_to_list].
    + apply below_split in Hq as [-> |[r ->]]; rewrite <- !string_app_assoc.
      * rewrite strip_prefix_app. simpl. f_equal. unfold first_name.
        by rewrite (proj2 (split_once_None _ _)).
      * rewrite (string_app_assoc (path +:+ "/")), (string_app_assoc (path +:+ "/")), strip_prefix_app. simpl. f_equal.
        unfold first_name.
        rewrite string_app_assoc. by rewrite (proj2 (split_once_Some "/" (name +:+ "/" +:+ r) name r)).
Qed.

Lemma listing_sound path c (t : gmap string Node) :
  last_byte path = Some c -> c <> "/"%char ->
  (forall name, has_char "/" name \/ nothing_below (join path name) t \/
    Ok name ∈ (Ok <$> listing path t : list (result Errno string))) /\
  (forall name, Ok name ∈ (Ok <$> listing path t : list (result Errno string)) ->
    exists q, below (join path name) q = true /\ is_Some (t !! q)).
Proof.
  intros Hl Hc. split.
  - intros name. destruct (decide (has_char "/" name)) as [|Hn]; [by left|right].
    rewrite (join_slash _ _ c) by (done || by apply no_slash_relative). destruct (decide (name ∈ listing path t)) as [Hi|Hi].
    + right. by apply list_elem_of_fmap_2.
    + left. intros q Hq. destruct (t !! q) as [n|] eqn:E; [|done]. exfalso. apply Hi, listed. split; [done|].
      exists q. by rewrite E.
  - intros name (n & [= <-] & [Hn Ht]%listed)%list_elem_of_fmap. rewrite (join_slash _ _ c); [done..|by apply no_slash_relative].
Qed.

Lemma absence_nothing path w : absence path w = NOENT -> nothing_below path (tree w).
Proof.
  unfold absence. case_decide as Hk; [|done]. intros _ q Hq. destruct (tree w !! q) as [n|] eqn:E; [|done].
  assert (keys_below path (tree w) !! q = Some n) as Hn by by apply map_lookup_filter_Some.
  by rewrite Hk in Hn.
Qed.

Lemma git_serve_sem B (c : git_call B) w : git_sem of_json B c w (serve B c w).1 (serve B c w).2.
Proof.
  destruct c; simpl; try done; try (by split).
  - case_match; [done|]. eexists. split_and!; [done| |].
    + intros q (p & s & Hp & _ & ->)%cloned_changes. exists p. split; [done|apply below_slash].
    + intros q. apply cloned_keeps.
  - split; [done|]. destruct (tree w !! path) as [n|]; [exists n; by destruct n|].
    pose proof (absence_nothing path w) as Hn. by destruct (absence path w); try apply Hn.
  - split; [done|]. destruct (tree w !! path) as [n|].
    2: { pose proof (absence_nothing path w) as Hn. by destruct (absence path w); try apply Hn. }
    destruct (last_byte path) as [c|] eqn:El; [|done]. destruct (decide (c = "/"%char)) as [-> |Hc]; [done|].
    by apply (listing_sound _ c).
  - split; [done|]. by destruct (tree w !! path) as [[]|].
  - destruct (tree w !! path); simpl; [by left|done].
  - destruct (tree w !! path); simpl; [by left|done].
  - destruct half; simpl; eexists; (split_and!; [done| | |]).
    + apply delete_subseteq.
    + apply delete_outside, (below_slash _ ".git/refs").
    + done.
    + apply map_filter_subseteq.
    + intros q Hq. destruct (tree w !! q) as [n|] eqn:E.
      * by apply map_lookup_filter_Some.
      * apply map_lookup_filter_None. by left.
    + intros _ q Hq. apply map_lookup_filter_None. right. intros n _ Hn. simpl in Hn. congruence.
  - destruct (tree w !! from) as [n|]; simpl; [by exists n|by left].
  - destruct (tree w !! path); simpl; [by left|done].
  - case_decide; simpl; [by exists (tree w); destruct w|]. eexists. split; [done|].
    intros q Hq. apply lookup_insert_ne. congruence.
  - case_bool_decide; simpl; [by left|done].
  - destruct (meta w !! (directory, name)) eqn:E; simpl; [by left|done].
Qed.
End Host.

(** ** An execution on it *)
Definition ex_replaced (s : string) : string := "?".
Definition ex_cache : string := "/var/lib/autospec".
Definition ex_repository : string := "/var/lib/autospec/executions/e-1/repository".
Definition ex_manager : GitWorktreeManager :=
  GitWorktreeManager.with_clone_base_and_verifier ex_cache "https://github.com".
Definition ex_labels : OwnershipLabels :=
  {| OwnershipLabels.execution_id := "e-1"; OwnershipLabels.worker_id := "w-1";
     OwnershipLabels.repository := "o/r"; OwnershipLabels.issue := Some "7"%string |}.
Definition ex_worktree : Worktree :=
  {| Worktree.execution_id := "e-1"; Worktree.path := ex_repository; Worktree.branch := "autospec/7";
     Worktree.base_sha := "5e1f"; Worktree.repository := "o/r" |}.
Definition ex_owner : OwnerRecord :=
  {| OwnerRecord.labels := OwnershipLabels.to_map ex_labels; OwnerRecord.base_sha := "5e1f";
     OwnerRecord.branch := "autospec/7" |}.

(** The directories of the manager, with the storage of the execution mounted. *)
Definition ex_directories : gmap string Node :=
  list_to_map ((fun p => (p, DirNode)) <$>
    [ex_cache; join ex_cache "mirrors"; join ex_cache "mirrors/o__r.git"; join ex_cache "worktrees";
     join ex_cache "executions"; join ex_cache "executions/e-1"; ex_repository]).

(** And its repository. *)
Definition ex_checkout : gmap string Node :=
  <[join ex_repository OWNER_NAME := FileNode (print ex_owner)]>
    (list_to_map ((fun p => (join ex_repository p, DirNode)) <$> [".git"; ".git/objects"; ".git/refs"]%string) ∪
     ex_directories).

Definition ex_world (t : gmap string Node) : GitWorld :=
  {| tree := t; meta := ∅; held := ∅; taken := ∅ |}.

Definition ex_serve (half : bool) := serve ex_repository "autospec/7" "https://github.com/o/r.git" half.
