(* ===== verification/GitDestroy.v ===== *)
(** * Removing an execution's repository

    [destroy] and [ack_destroy] of [GitCleanup.v] on the host of [GitWorld.v],
    while others go on elsewhere: what a removal touches and when, and what is
    left of a removal that was interrupted. *)

From Stdlib Require Import Ascii.
From S2P Require Import Prelude Core Lifecycle Effects StorageModel FileSystem Pinned MetadataStore StorageCodec GitManager GitCreate GitCleanup GitWorld.








Section Destroy.
Context (owner_file : string -> Prop) (replaced : string -> string) `{GitSerde}.
Context (manager : GitWorktreeManager) (worktree : Worktree).

Abbreviation path := (Worktree.path worktree).
Abbreviation root := (worktrees_root manager).
Abbreviation journal_path := (cleanup_journal_path manager (Worktree.execution_id worktree)).

(** The path that [create_in] gave out, with the metadata beside it. *)
Context (path_expected : path = execution_repository_path manager (Worktree.execution_id worktree)).
Context (root_apart : below path root = false).

Definition journal_bytes (w : GitWorld) : option string :=
  match metadata_name journal_path with Ok name => meta w !! (root, name) | Err _ => None end.

(** The removal is on record, for exactly this worktree. *)
Definition journalled (w : GitWorld) : Prop :=
  exists bytes journal, journal_bytes w = Some bytes /\ cleanup_from_json bytes = Ok journal /\
    verify_journal manager worktree journal = Ok tt.

(** The owner record in the repository names the worktree. *)
Definition claimed (w : GitWorld) : Prop :=
  exists bytes record, tree w !! join path OWNER_NAME = Some (FileNode bytes) /\
    owner_from_json bytes = Ok record /\ owns record worktree = true.

(** What others do: they leave the repository and its journal alone. *)
Definition apart (w w' : GitWorld) : Prop :=
  (forall q, below path q = true -> tree w' !! q = tree w !! q) /\ journal_bytes w' = journal_bytes w.

(** One step of a removal. *)
Definition removal_step (w w' : GitWorld) : Prop :=
  (forall q, below path q = false -> tree w' !! q = tree w !! q \/ q = root /\ tree w !! q = None) /\
  (forall q, below path q = true -> tree w' !! q = tree w !! q \/ tree w' !! q = None /\ journalled w) /\
  (meta w' = meta w \/
   exists name bytes, metadata_name journal_path = Ok name /\ meta w' = <[(root, name) := bytes]> (meta w) /\
     journal_bytes w = None /\ journalled w' /\ claimed w).

(** A removal died after it had begun: the journal is there, the repository too,
    and a directory git needs is not. *)
Definition half_removed (name : string) (w : GitWorld) : Prop :=
  journalled w /\ tree w !! path = Some DirNode /\ tree w !! join path name = None.

(** What git needs. *)
Definition needed : list string := [".git"; ".git/objects"; ".git/refs"]%string.

Lemma path_end : last_byte path = Some "y"%char.
Proof. rewrite path_expected. by apply last_byte_join. Qed.

Lemma owner_below : below path (join path OWNER_NAME) = true.
Proof. by apply (join_below _ _ _ path_end). Qed.

Lemma apart_refl w : apart w w.
Proof. done. Qed.

Lemma apart_journalled w w' : apart w w' -> journalled w -> journalled w'.
Proof. intros [_ Hj] (b & j & Hb & ?). exists b, j. by rewrite Hj. Qed.

Lemma apart_claimed w w' : apart w w' -> claimed w -> claimed w'.
Proof. intros [Ht _] (b & r & Hb & ?). exists b, r. by rewrite (Ht _ owner_below). Qed.

Lemma name_below name : name ∈ needed -> below path (join path name) = true.
Proof.
  intros Hn. apply (join_below _ _ _ path_end); [done|]. unfold needed in Hn. set_unfold in Hn. by destruct Hn as [-> | [-> | [-> | []]]].
Qed.

Lemma apart_half_removed name w w' :
  name ∈ needed -> apart w w' -> half_removed name w -> half_removed name w'.
Proof.
  intros Hn Ha (Hj & Hp & Hm). split_and!; [by eapply apart_journalled|..].
  - by rewrite (proj1 Ha _ (below_self _)).
  - by rewrite (proj1 Ha _ (name_below _ Hn)).
Qed.

(** ** Steps that leave the execution alone *)
Definition spares (B : Type) (c : git_call B) : Prop :=
  match c with
  | Git.Lock _ | Git.Unlock _ => True
  | Git.CreateDirMode p _ => p = root
  | _ => git_reads B c
  end.

Lemma git_reads_spares B (c : git_call B) : git_reads B c -> spares B c.
Proof. by destruct c. Qed.

Definition aside (w w' : GitWorld) : Prop :=
  (tree w' = tree w \/ tree w' = <[root := DirNode]> (tree w) /\ tree w !! root = None) /\ meta w' = meta w.

Lemma spares_aside B (c : git_call B) w b w' : spares B c -> git_sem owner_file B c w b w' -> aside w w'.
Proof.
  intros Hc Hs. assert (w' = w -> aside w w') as Hsame by by (intros ->; split; [left|]).
  destruct c; try (by apply Hsame, (git_reads_sem owner_file _ _ _ _ _ Hc Hs)); simpl in Hc, Hs.
  - subst path. destruct b as [[]|e]; simpl in Hs.
    + destruct Hs as [Hn ->]. split; [by right|done].
    + destruct Hs as [-> |[Hn ->]]; [by apply Hsame|]. split; [by right|done].
  - destruct b as [[]|e]; simpl in Hs.
    + destruct Hs as [_ ->]. by split; [left|].
    + destruct Hs as [-> |[_ ->]]; [by apply Hsame|]. by split; [left|].
  - subst w'. by split; [left|].
Qed.

Lemma aside_apart w w' : aside w w' -> apart w w'.
Proof.
  intros [Ht Hm]. split; [|unfold journal_bytes; by rewrite Hm].
  intros q Hq. destruct Ht as [-> |[-> _]]; [done|]. apply lookup_insert_ne. congruence.
Qed.

Lemma aside_step w w' : aside w w' -> removal_step w w'.
Proof.
  intros [Ht Hm]. split_and!; [..|by left].
  - intros q Hq. destruct Ht as [-> |[-> Hn]]; [by left|].
    destruct (decide (q = root)) as [-> |Hr]; [by right|left]. by apply lookup_insert_ne.
  - intros q Hq. left. by apply aside_apart.
Qed.

(** ** Programs that leave it alone, among others *)
Context (env : GitWorld -> GitWorld -> Prop) (others : forall w w', env w w' -> apart w w').
Context (G : GitWorld -> GitWorld -> Prop) (allows : forall w w', aside w w' -> G w w').

#[local] Instance removal_rely : Rely (git_sem owner_file) env G apart spares.
Proof.
  split; [exact others|]. intros B c w b w' Hc Hs%spares_aside; [|done]. split; [by apply allows|by apply aside_apart].
Qed.

Abbreviation yields := (ensures (git_sem owner_file) env G).
Abbreviation stable := (stable apart).

(** ** The journal *)
Lemma spares_metadata_directory error : all_calls spares (metadata_directory manager error).
Proof.
  apply all_calls_io_bind; [by split|intros found].
  apply all_calls_io_bind; [by destruct found as [m|[]]; repeat split|intros _].
  apply all_calls_io_bind; [by split|by intros _].
Qed.

Lemma metadata_directory_root error :
  ends (fun _ _ _ => True) (metadata_directory manager error)
    (fun r => forall directory, r = Ok directory -> directory = root).
Proof.
  apply ends_skip; [|done]. intros found. apply ends_skip; [|done]. intros _.
  apply ends_skip; [|done]. by intros _ directory [= <-].
Qed.

Lemma journal_bytes_stable o : stable (fun w => journal_bytes w = o).
Proof. by intros w w' [_ ->]. Qed.

Lemma yields_read_journal I w :
  stable I -> I w ->
  yields I (fun o w' => parsed cleanup_from_json cleanup_error (journal_bytes w') = Ok o)
    (read_cleanup_journal manager journal_path) w.
Proof.
  intros Hs Hi. apply (ensures_bind I (fun o w' => journal_bytes w' = o)); [done| |].
  - apply (ensures_bind I (fun d _ => d = root)); [done| |].
    { apply ensures_calls; [done|apply spares_metadata_directory|apply metadata_directory_root|done]. }
    intros _ w1 H1 ->. apply (ensures_bind I (fun name _ => metadata_name journal_path = Ok name)); [done| |].
    { apply ensures_result; [done..|]. intros a Ha. by split; [intros w2 w3 _|]. }
    intros name w2 H2 Hn. apply ensures_ask_or; [done..|intros a; apply journal_bytes_stable|].
    intros w3 bytes w4 _ [-> Hb]. unfold journal_bytes. by rewrite Hn.
  - intros o w1 H1 <-. apply ensures_result; [done..|]. intros a Ha. split; [|done].
    intros w2 w3 [_ Hj]. by rewrite Hj.
Qed.

Lemma spares_reads {A} (m : gio A) : all_calls git_reads m -> all_calls spares m.
Proof. apply all_calls_impl, git_reads_spares. Qed.

Lemma yields_reads {A B} I (R' : B -> GitWorld -> Prop) (m : gio A) (f : A -> gio B) w :
  stable I -> all_calls git_reads m -> I w -> (forall a w', I w' -> yields I R' (f a) w') -> yields I R' (m ≫= f) w.
Proof. intros Hs Hm. by apply ensures_skip, spares_reads. Qed.

(** ** Under a lock *)
Lemma yields_lock {A} I I' (R : A -> GitWorld -> Prop) lock f (body : gio A) w :
  stable I -> stable I' -> (forall w', I' w' -> I w') -> I' w -> (forall a, stable (R a)) ->
  (forall w', I' w' -> yields I R body w') -> yields I R (with_lock lock f body) w.
Proof.
  intros Hs Hs' HI Hi HR Hb.
  apply (ensures_bind I (fun _ => I')); [done|by apply ensures_holds|]. intros _ w1 _ H1.
  apply (ensures_bind I (fun r w' => forall a, r = Ok a -> R a w')); [done|by apply ensures_outcome, Hb|].
  intros r w2 H2 Hr. eapply (ensures_inv I (fun w' => I w' /\ forall a, r = Ok a -> R a w')); [by intros w' []|].
    assert (stable (fun w' => I w' /\ forall a, r = Ok a -> R a w')) as Hst.
    { intros w3 w4 Hw [H3 Hr3]. split; [by eapply Hs|]. intros a Ha. eapply HR; [exact Hw|auto]. }
    apply ensures_skip; [done|by split|done|]. intros _ w3 [H3 Hr3]. apply ensures_result; [done..|].
    intros a Ha. split; [apply HR|auto].
Qed.

(** ** The removal *)
Lemma reads_check_branch branch : all_calls git_reads (check_branch replaced path branch).
Proof.
  unfold check_branch, current_branch. apply all_calls_io_bind; [apply reads_current_branch|intros c; exact I].
Qed.

Lemma journalled_stable : stable journalled.
Proof. intros w w'. apply apart_journalled. Qed.

Definition gone (w : GitWorld) : Prop := nothing_below path (tree w).

Lemma gone_stable : stable gone.
Proof. intros w w' [Ht _] Hg q Hq. rewrite Ht by done. by apply Hg. Qed.

Lemma yields_remove branch w :
  (forall w1 w2, removal_step w1 w2 -> G w1 w2) -> journalled w ->
  yields journalled (fun _ => gone) (remove_repository_if_present replaced path branch) w.
Proof.
  intros HG Hj. apply (ensures_bind journalled (fun found w' => found = Err NOENT -> gone w'));
    [apply journalled_stable| |].
  - apply ensures_ask; [apply journalled_stable|done..| |].
    + intros a w1 w2 Hw Hg Ha. eapply gone_stable; [exact Hw|auto].
    + intros w1 a w2 _ [-> Ha] ->. exact Ha.
  - intros [m|[]] w1 H1 Hf; try (by apply ensures_throw; [apply journalled_stable|]).
    + apply ensures_guard; [apply journalled_stable|done|]. intros _.
      apply yields_reads; [apply journalled_stable|apply reads_repository_storage|done|]. intros _ w2 H2.
      apply yields_reads; [apply journalled_stable| |done|].
      { apply reads_check_branch. }
      intros _ w3 H3 w4 H4 r w5 (t & -> & Hsub & Hout & Hgone).
      assert (journalled w4) as Hj4 by by eapply stable_env, H3; [apply journalled_stable|].
      assert (journalled (set_tree t w4)) as Hj5 by exact Hj4.
      split; [apply HG; split_and!|].
      * intros q Hq. left. by apply Hout.
      * intros q Hq. simpl. destruct (t !! q) as [n|] eqn:E; [left|by right].
        rewrite <- E. symmetry. rewrite E. by eapply lookup_weaken.
      * by left.
      * intros w6 H6. split; [exact (stable_env _ _ _ journalled_stable H6 Hj5)|]. intros a Ha.
        eapply stable_env; [apply gone_stable|exact H6|].
        apply Hgone. destruct r as [u|e]; [done|discriminate Ha].
    + apply ensures_ret; [apply journalled_stable|apply gone_stable|done|auto].
Qed.

(** ** The whole removal *)
Definition ours (journal : CleanupJournal) : Prop := verify_journal manager worktree journal = Ok tt.

Lemma ours_path journal : ours journal -> CleanupJournal.worktree_path journal = path.
Proof. intros Hj%check_Ok. apply andb_true_iff in Hj as [Hj _]. apply andb_true_iff in Hj as [Hj _]. by bools. Qed.

Lemma claimed_stable : stable claimed.
Proof. intros w w'. apply apart_claimed. Qed.

(** The journal on record or a new one, for a worktree whose owner record names it. *)
Definition to_record (j : CleanupJournal * bool) (w : GitWorld) : Prop :=
  ours j.1 /\ if j.2 then claimed w else journalled w.

Lemma to_record_stable j : stable (to_record j).
Proof.
  intros w w' Ha [Hj Hw]. split; [done|].
  destruct j as [j []]; [by eapply claimed_stable|by eapply journalled_stable].
Qed.

Lemma yields_journal w : yields (fun _ => True) to_record (cleanup_journal replaced manager worktree journal_path) w.
Proof.
  apply (ensures_bind (fun _ => True) (fun o w' => parsed cleanup_from_json cleanup_error (journal_bytes w') = Ok o));
    [done|by apply yields_read_journal|].
  intros [journal|] w1 _ Hp.
  - apply ensures_known; [done..|]. intros [] Hj. apply ensures_ret; [done|apply to_record_stable|done|].
    split; [done|]. unfold parsed in Hp. destruct (journal_bytes w1) as [bytes|] eqn:Eb; [|done]. exists bytes, journal.
    split_and!; [done| |done]. by destruct (cleanup_from_json bytes) as [j|e]; simpl in Hp; simplify_eq.
  - apply (ensures_bind (fun _ => True) (fun p _ => p = path)); [done| |].
    { apply yields_reads; [done|by split|done|]. intros found w2 _. apply ensures_guard; [done..|]. intros _.
      apply ensures_ret; [done|by intros ???|done|done]. }
    intros p w2 _ ->. apply yields_reads; [done|apply reads_repository_storage|done|]. intros _ w3 _.
    apply (ensures_bind (fun _ => True) (fun owner w' => owns owner worktree = true /\ claimed w')); [done| |].
    { apply (ensures_bind (fun _ => True) (fun record w' => exists bytes,
        tree w' !! join path OWNER_NAME = Some (FileNode bytes) /\ owner_from_json bytes = Ok record)); [done| |].
      - apply (ensures_bind (fun _ => True) (fun bytes w' => tree w' !! join path OWNER_NAME = Some (FileNode bytes)));
          [done| |].
        + apply ensures_ask_or; [done..| |].
          * intros bytes w4 w5 [Ht _]. by rewrite (Ht _ owner_below).
          * by intros w4 bytes w5 _ [-> Hb].
        + intros bytes w4 _ Hb. apply ensures_result; [done..|]. intros record Hr. split.
          * intros w5 w6 [Ht _]. by setoid_rewrite (Ht _ owner_below).
          * exists bytes. split; [done|]. by destruct (owner_from_json bytes) as [r|e]; simpl in Hr; simplify_eq.
      - intros record w4 _ (bytes & Hb & Hr). apply ensures_guard; [done..|]. intros Ho.
        apply ensures_ret; [done| |done|].
        + intros w5 w6 Ha [? Hc]. split; [done|by eapply claimed_stable].
        + split; [done|]. by exists bytes, record. }
    intros owner w4 _ [Ho Hc].
    eapply (ensures_inv _ claimed); [done|]. apply yields_reads; [apply claimed_stable|apply reads_check_branch|done|].
    intros _ w5 H5. apply ensures_ret; [apply claimed_stable|apply to_record_stable|done|]. split; [|done].
    apply check_Ok. simpl. rewrite Ho, andb_true_r. apply andb_true_iff.
    rewrite bool_decide_eq_true. split; [done|]. rewrite path_expected. by apply bool_decide_eq_true.
Qed.

Lemma yields_write_journal journal w :
  (forall w1 w2, removal_step w1 w2 -> G w1 w2) -> ours journal -> claimed w ->
  yields (fun _ => True) (fun _ => journalled) (write_cleanup_journal manager journal_path journal) w.
Proof.
  intros HG Hj Hc. apply (ensures_inv _ claimed); [done|].
  apply (ensures_bind claimed (fun d _ => d = root)); [apply claimed_stable| |].
  { apply ensures_calls; [apply claimed_stable|apply spares_metadata_directory|apply metadata_directory_root|done]. }
  intros _ w1 H1 ->. apply ensures_known; [apply claimed_stable|done|]. intros name Hn.
  intros w2 H2 r w3 Hr. assert (claimed w2) as Hc2 by exact (stable_env _ _ _ claimed_stable H2 H1).
  set (done w := meta w2 !! (root, name) = None /\
    w = set_meta (<[(root, name) := cleanup_to_json journal]> (meta w2)) w2).
  assert (forall w, done w -> G w2 w /\ claimed w /\ journalled w) as Hdone.
  { intros w4 [Hm ->].
    assert (journalled (set_meta (<[(root, name):=cleanup_to_json journal]> (meta w2)) w2)) as Hj4.
    { exists (cleanup_to_json journal), journal. split_and!; [|apply cleanup_round_trip|done].
      unfold journal_bytes. rewrite Hn. apply lookup_insert_eq. }
    split_and!; [|done|done]. apply HG. split_and!; [by left|by left|]. right.
    exists name, (cleanup_to_json journal). split_and!; try done. unfold journal_bytes. by rewrite Hn. }
  destruct r as [u|e].
  - destruct (Hdone _ Hr) as (Hg & Hc3 & Hj3). split; [done|]. intros w4 H4.
    split; [exact (stable_env _ _ _ claimed_stable H4 Hc3)|].
    intros _ _. exact (stable_env _ _ _ journalled_stable H4 Hj3).
  - assert (G w2 w3 /\ claimed w3) as [Hg Hc3].
    { destruct Hr as [-> |Hr]; [split; [apply allows; by split; [left|]|done]|]. by destruct (Hdone _ Hr) as (? & ? & _). }
    split; [done|]. intros w4 H4. split; [exact (stable_env _ _ _ claimed_stable H4 Hc3)|done].
Qed.

Lemma yields_destroy w :
  (forall w1 w2, removal_step w1 w2 -> G w1 w2) -> yields (fun _ => True) (fun _ => gone) (destroy replaced manager worktree) w.
Proof.
  intros HG. apply (ensures_bind (fun _ => True) to_record); [done|apply yields_journal|].
  intros [journal fresh] w1 _ Hr. pose proof (ours_path _ (proj1 Hr)) as Hp.
  apply ensures_known; [done..|]. intros repository _. apply ensures_known; [done..|]. intros normalized _.
  apply (yields_lock _ (to_record (journal, fresh))); [done|apply to_record_stable|done..|intros _; apply gone_stable|].
  simpl in Hp. intros w2 [Hj H2]. rewrite Hp. apply (ensures_bind _ (fun _ => journalled)); [done| |].
  - destruct fresh; [by apply yields_write_journal|]. by apply ensures_ret; [|apply journalled_stable|..].
  - intros _ w3 _ H3. by apply (ensures_inv _ journalled), yields_remove.
Qed.

(** ** What is left of an interrupted removal *)
Context (name : string) (name_needed : name ∈ needed).

Lemma half_removed_stable : stable (half_removed name).
Proof. intros w w'. by apply apart_half_removed. Qed.

Lemma each_fails {A} I (f : A -> gio unit) l x w :
  stable I -> (forall y, all_calls git_reads (f y)) -> I w -> x ∈ l ->
  (forall w', I w' -> yields I (fun _ _ => False) (f x) w') -> yields I (fun _ _ => False) (each f l) w.
Proof.
  intros Hs Ha Hi Hx Hf. revert w Hi. induction l as [|y l IH]; intros w Hi; [by apply elem_of_nil in Hx|].
  cbn [each]. apply elem_of_cons in Hx as [<- |Hx].
  - eapply ensures_bind; [done|by apply Hf|]. by intros _ w1 _ [].
  - apply yields_reads; [done|apply Ha|done|]. intros _ w1 H1. by apply IH.
Qed.

Lemma candidate_missing : exists label, (label, join path name) ∈ preflight_candidates path.
Proof.
  unfold needed in name_needed. set_unfold in name_needed.
  unfold preflight_candidates. destruct name_needed as [-> | [-> | [-> | []]]];
    [exists "Git directory"%string|exists "object database"%string|exists "refs directory"%string]; set_solver.
Qed.

Lemma preflight_fails w :
  half_removed name w -> yields (half_removed name) (fun _ _ => False) (verify_git_storage_preflight path) w.
Proof.
  intros Hh. pose proof half_removed_stable as Hs. destruct candidate_missing as [label Hc].
  apply yields_reads; [done|unfold absent_or; reads|done|]. intros _ w1 H1.
  apply (ensures_bind _ (fun _ _ => False)); [done| |by intros _ w2 _ []].
  apply (each_fails _ _ _ (label, join path name)); [done|by intros y; unfold check_candidate; reads|done..|].
  intros w2 H2. apply (ensures_bind _ (fun _ _ => False)); [done| |by intros _ w3 _ []].
  apply ensures_ask_or; [done..|intros _; apply stable_const|]. intros w3 m w4 (_ & _ & Hm) [_ (n & Hn & _)]. simpl in Hn. congruence.
Qed.

Lemma yields_interrupted_destroy w :
  half_removed name w -> yields (half_removed name) (fun _ _ => False) (destroy replaced manager worktree) w.
Proof.
  intros Hh. pose proof half_removed_stable as Hs.
  apply (ensures_bind _ (fun j w' => ours j.1 /\ j.2 = false)); [done| |].
  - apply (ensures_bind _ (fun o w' => parsed cleanup_from_json cleanup_error (journal_bytes w') = Ok o));
      [done|by apply yields_read_journal|].
    intros [journal|] w1 H1 Hp.
    + apply ensures_known; [done..|]. intros [] Hj. apply ensures_ret; [done|apply stable_const|done..].
    + exfalso. destruct H1 as ((b & j & Hb & Hj & _) & _). rewrite Hb in Hp. simpl in Hp. by rewrite Hj in Hp.
  - intros [journal fresh] w1 H1 [Hj Hf]. pose proof (ours_path _ Hj) as Hp. simpl in Hp, Hf. subst fresh.
    apply ensures_known; [done..|]. intros repository _. apply ensures_known; [done..|]. intros normalized _.
    apply (yields_lock _ (half_removed name)); [done..|intros _; apply stable_const|]. intros w2 H2. rewrite Hp.
    apply (ensures_bind _ (fun found _ => found <> Err NOENT)); [done| |].
    + apply ensures_ask; [done..|intros found; apply stable_const|]. intros w3 found w4 (_ & Hd & _) [_ Ha] ->. specialize (Ha _ (below_self _)). congruence.
    + intros [m|[]] w3 H3 Hn; try (by apply ensures_throw); [|done]. apply ensures_guard; [done..|]. intros _.
      apply (ensures_bind _ (fun _ _ => False)); [done| |by intros _ w4 _ []].
      apply (ensures_bind _ (fun _ _ => False)); [done|by apply preflight_fails|by intros _ w4 _ []].
Qed.

Lemma yields_interrupted_ack w :
  half_removed name w -> yields (half_removed name) (fun _ _ => False) (ack_destroy manager worktree) w.
Proof.
  intros Hh. pose proof half_removed_stable as Hs.
  apply (ensures_bind _ (fun o w' => parsed cleanup_from_json cleanup_error (journal_bytes w') = Ok o));
    [done|by apply yields_read_journal|].
  intros [journal|] w1 H1 Hp.
  - apply ensures_known; [done..|]. intros [] Hj. rewrite (ours_path _ Hj).
    apply (ensures_bind _ (fun _ _ => False)); [done| |by intros _ w4 _ []].
    apply (ensures_bind _ (fun found _ => found <> Err NOENT)); [done| |].
    + apply ensures_ask; [done..|intros found; apply stable_const|]. intros w3 found w4 (_ & Hd & _) [_ Ha] ->. specialize (Ha _ (below_self _)). congruence.
    + by intros [m|[]] w3 H3 Hn; try (by apply ensures_throw).
  - exfalso. destruct H1 as ((b & j & Hb & Hj & _) & _). rewrite Hb in Hp. simpl in Hp. by rewrite Hj in Hp.
Qed.
End Destroy.

(** C18: Removing a worktree, whatever calls fail, whatever others do elsewhere and
    wherever the removal is cut short: each step changes files only below the
    execution's repository (or makes the metadata directory), only by removing
    them, and only once a journal that matches the worktree is on record; the
    journal is written only where the owner record in the repository names the
    worktree.  A removal that succeeds leaves no repository. *)
Theorem worktree_destroy_exact owner_file replaced `{GitSerde} manager worktree env w tr r w' :
  Worktree.path worktree = execution_repository_path manager (Worktree.execution_id worktree) ->
  below (Worktree.path worktree) (worktrees_root manager) = false ->
  (forall w1 w2, env w1 w2 -> apart manager worktree w1 w2) ->
  exec (git_sem owner_file) env (destroy replaced manager worktree) w tr r w' ->
  Forall (fun s => removal_step manager worktree s.1 s.2) tr /\
  (forall u, r = Some (Ok u) -> gone worktree w').
Proof.
  intros Hp Hr He Hx. destruct (chl_exec _ _ (removal_step manager worktree) _ _ _ _ _ _ Hx
    (yields_destroy owner_file replaced manager worktree Hp Hr env He _ (aside_step manager worktree Hr) w
       (fun _ _ Hs => Hs))) as [Ht HQ].
  split; [done|]. intros u ->. by destruct (HQ _ eq_refl) as [_ Hg]; eapply Hg.
Qed.

(** C19: A removal that died after it had taken away a directory git needs can never
    be completed: every later removal of the worktree fails, and so does its
    acknowledgment, nothing of the repository is removed any more and it stays as
    it is, whatever others do elsewhere. *)
Theorem interrupted_destroy_blocks owner_file replaced `{GitSerde} manager worktree env name w tr r w' :
  Worktree.path worktree = execution_repository_path manager (Worktree.execution_id worktree) ->
  below (Worktree.path worktree) (worktrees_root manager) = false ->
  (forall w1 w2, env w1 w2 -> apart manager worktree w1 w2) ->
  name ∈ needed -> half_removed manager worktree name w ->
  (exec (git_sem owner_file) env (destroy replaced manager worktree) w tr r w' \/
   exec (git_sem owner_file) env (ack_destroy manager worktree) w tr r w') ->
  half_removed manager worktree name w' /\ Forall (fun s => aside manager s.1 s.2) tr /\
  (forall u, r <> Some (Ok u)).
Proof.
  intros Hp Hr He Hn Hh Hx.
  assert (Forall (fun s => aside manager s.1 s.2) tr /\
    (forall a, r = Some a -> half_removed manager worktree name w' /\ forall u, a = Ok u -> False)) as [Ht HQ].
  { set (Q (a : result WorktreeError unit) w1 := half_removed manager worktree name w1 /\ forall u, a = Ok u -> False).
    destruct Hx as [Hx|Hx].
    - apply (chl_exec _ _ (aside manager) _ Q _ _ _ _ Hx). exact (yields_interrupted_destroy owner_file replaced
        manager worktree Hp Hr env He (aside manager) (fun _ _ Ha => Ha) name Hn w Hh).
    - apply (chl_exec _ _ (aside manager) _ Q _ _ _ _ Hx). exact (yields_interrupted_ack owner_file
        manager worktree Hp Hr env He (aside manager) (fun _ _ Ha => Ha) name Hn w Hh). }
  split_and!; [|done|].
  - assert (exists p, exec (A := result WorktreeError unit) (git_sem owner_file) env p w tr r w') as [p Hx']
      by (destruct Hx; eauto).
    eapply (exec_keeps _ _ _ _ _ _ _ _ Hx'); [|by eapply Forall_impl; [exact Ht|];
      intros [w1 w2] Ha; eapply apart_half_removed, aside_apart|done].
    intros w1 w2 Hw%He. by apply apart_half_removed.
  - intros u ->. by eapply (HQ _ eq_refl).
Qed.

(** ** A worktree removed, and one half removed *)
Definition ex_destroy : gio unit := @destroy ex_replaced git_serde ex_manager ex_worktree.
Definition ex_removed := run (ex_serve false) ex_destroy (ex_world ex_checkout).
Definition ex_interrupted := run (ex_serve true) ex_destroy (ex_world ex_checkout).
Definition ex_retried := run (ex_serve false) ex_destroy ex_interrupted.2.

Lemma ex_runs half w :
  exists tr, exec (git_sem of_json) quiet ex_destroy w tr (Some (run (ex_serve half) ex_destroy w).1)
    (run (ex_serve half) ex_destroy w).2.
Proof. apply run_exec. intros B c w0. apply git_serve_sem. Qed.

Lemma ex_apart w1 w2 : quiet w1 w2 -> apart ex_manager ex_worktree w1 w2.
Proof. done. Qed.

Lemma ex_half_removed : @half_removed git_serde ex_manager ex_worktree ".git/refs" ex_interrupted.2.
Proof.
  split; [|by vm_compute].
  exists (print {| CleanupJournal.owner := ex_owner; CleanupJournal.worktree_path := ex_repository |}),
    {| CleanupJournal.owner := ex_owner; CleanupJournal.worktree_path := ex_repository |}.
  split_and!; [by vm_compute|apply parse_or_print|by vm_compute].
Qed.

Lemma worktree_destroy_exact_witness :
  exists tr, exec (git_sem of_json) quiet ex_destroy (ex_world ex_checkout) tr (Some (Ok tt)) ex_removed.2 /\
    gone ex_worktree ex_removed.2.
Proof.
  destruct (ex_runs false (ex_world ex_checkout)) as [tr Hx].
  change (run (ex_serve false) ex_destroy (ex_world ex_checkout)) with ex_removed in Hx.
  assert (ex_removed.1 = Ok tt) as E by by vm_compute. rewrite E in Hx. exists tr. split; [exact Hx|].
  eapply (proj2 (@worktree_destroy_exact of_json ex_replaced git_serde ex_manager ex_worktree quiet _ _ _ _
    eq_refl eq_refl ex_apart Hx)). reflexivity.
Defined.

Lemma interrupted_destroy_blocks_witness :
  exists tr, exec (git_sem of_json) quiet ex_destroy ex_interrupted.2 tr (Some ex_retried.1) ex_retried.2 /\
    @half_removed git_serde ex_manager ex_worktree ".git/refs" ex_retried.2.
Proof.
  assert (".git/refs"%string ∈ needed) as Hn by (unfold needed; set_solver).
  destruct (ex_runs false ex_interrupted.2) as [tr Hx]. exists tr. split; [exact Hx|].
  eapply (proj1 (@interrupted_destroy_blocks of_json ex_replaced git_serde ex_manager ex_worktree quiet ".git/refs"
    _ _ _ _ eq_refl eq_refl ex_apart Hn ex_half_removed (or_introl Hx))).
Defined.
