(* ===== verification/GitExclusive.v ===== *)
(** * One execution per branch

    [create_in] of [GitCreate.v] on the host of [GitWorld.v], among other
    processes that claim a branch under its lock: the owner record is placed only
    while no execution's record claims the branch. *)

From Stdlib Require Import Ascii.
From S2P Require Import Prelude Core Lifecycle Effects StorageModel FileSystem Pinned MetadataStore StorageCodec GitManager GitCreate GitCleanup GitWorld.








Section Exclusive.
Context (owner_file : string -> Prop) (replaced : string -> string) `{GitSerde}.
Context (manager : GitWorktreeManager) (repo branch normalized : string).

Abbreviation executions_root := (executions_root manager).
Abbreviation lock := (branch_lock_path manager normalized branch).

(** The owner record of an execution. *)
Definition owner_path (name : string) : string := join (join (join executions_root name) "repository") OWNER_NAME.

Definition claiming (record : OwnerRecord) : Prop :=
  OwnerRecord.labels record !! REPOSITORY = Some repo /\ OwnerRecord.branch record = branch /\
  is_Some (OwnerRecord.labels record !! EXECUTION_ID).

(** The execution's record claims the branch. *)
Definition claims (w : GitWorld) (name : string) : Prop :=
  name <> ""%string /\ ~ has_char "/" name /\
  exists bytes record, tree w !! owner_path name = Some (FileNode bytes) /\ owner_from_json bytes = Ok record /\
    claiming record.

Definition fewer_claims (w w' : GitWorld) : Prop := forall name, claims w' name -> claims w name.

(** While we hold the lock of the branch, nobody else claims it. *)
Definition respects (w w' : GitWorld) : Prop := lock ∈ held w -> lock ∈ held w' /\ fewer_claims w w'.

(** Git changes no owner record: no repository tracks a file of that name. *)
Context (untracked : forall name, owner_file (owner_path name)).

Lemma below_execution name : name <> ""%string -> ~ has_char "/" name -> below (join executions_root name) (owner_path name) = true.
Proof.
  intros Hn Hs. assert (exists c, last_byte (join executions_root name) = Some c /\ c <> "/"%char) as (c & Hc & Hne).
  { rewrite last_byte_join by done. destruct (last_byte name) as [c|] eqn:E; [exists c; split; [done|]|by apply last_byte_None in E].
    intros ->. apply Hs. by apply last_byte_has_char. }
  eapply below_trans; [by apply (join_below _ "repository" c)|].
  apply (join_below _ _ "y"%char); [by apply last_byte_join|done|done].
Qed.

Lemma below_executions name : name <> ""%string -> ~ has_char "/" name -> below executions_root (owner_path name) = true.
Proof.
  intros Hn Hs. eapply below_trans; [|by apply below_execution].
  apply (join_below _ _ "s"%char); [by apply last_byte_join|done|by apply no_slash_relative].
Qed.

Lemma claims_tree w w' name :
  (forall bytes, tree w' !! owner_path name = Some (FileNode bytes) -> tree w !! owner_path name = Some (FileNode bytes)) ->
  claims w' name -> claims w name.
Proof. intros Ht (Hn & Hs & b & r & Hb & Hr). split_and!; [done|done|]. exists b, r. auto. Qed.

Lemma unclaimed_below w path name :
  nothing_below path (tree w) -> below path (owner_path name) = true -> ~ claims w name.
Proof. intros Hn Hb (_ & _ & bytes & r & Ht & _). specialize (Hn _ Hb). congruence. Qed.

(** ** Calls that claim nothing *)
Definition calm (B : Type) (c : git_call B) : Prop :=
  match c with
  | Git.Rename _ _ | Git.Unlock _ => False
  | Git.CreateNew path => forall name, path <> owner_path name
  | _ => True
  end.

Lemma fewer_same w w' : tree w' = tree w -> fewer_claims w w'.
Proof. intros Ht name. apply claims_tree. by rewrite Ht. Qed.

Lemma fewer_insert w path n :
  (forall bytes, n <> FileNode bytes) -> fewer_claims w (set_tree (<[path := n]> (tree w)) w).
Proof.
  intros Hn name. apply claims_tree. intros bytes. simpl. rewrite lookup_insert_Some. intros [[_ ->]|[_ Ht]]; [|done].
  by destruct (Hn bytes).
Qed.

Lemma calm_fewer B (c : git_call B) w b w' :
  calm B c -> git_sem owner_file B c w b w' -> fewer_claims w w' /\ held w ⊆ held w'.
Proof.
  assert (w' = w -> fewer_claims w w' /\ held w ⊆ held w') as Hsame by (intros ->; split; [by apply fewer_same|done]).
  assert (forall (P : GitWorld -> Prop) (A E : Type) (r : result E A), changed w r w' P ->
    (P w' -> fewer_claims w w' /\ held w ⊆ held w') -> fewer_claims w w' /\ held w ⊆ held w') as Hch.
  { intros P A E r Hc Hp. destruct r; simpl in Hc; [auto|]. destruct Hc as [-> |Hc]; auto. }
  assert (forall t, w' = set_tree t w -> (forall q, owner_file q -> t !! q = tree w !! q) ->
    fewer_claims w w' /\ held w ⊆ held w') as Hgit.
  { intros t -> Ht. split; [|done]. intros name. apply claims_tree. simpl. by rewrite Ht. }
  destruct c; simpl; intros Hc Hs; try (by apply Hsame); try (by apply Hsame, Hs); try done.
  - destruct (read_only (GitCommand.args command)); [by apply Hsame|]. destruct Hs as (t & -> & _ & Ht). by apply (Hgit t).
  - eapply Hch; [exact Hs|]. intros [_ ->]. split; [by apply fewer_insert|done].
  - eapply Hch; [exact Hs|]. intros [_ ->]. split; [by apply fewer_insert|done].
  - destruct Hs as (t & -> & Hsub & _). split; [|done]. intros name. apply claims_tree. simpl. intros bytes Ht.
    by eapply lookup_weaken.
  - eapply Hch; [exact Hs|]. intros ->. split; [|done]. intros name. apply claims_tree. simpl. intros bytes Ht.
    by apply lookup_delete_Some in Ht as [_ ?].
  - eapply Hch; [exact Hs|]. intros [_ ->]. split; [|done]. intros name. apply claims_tree. simpl. intros bytes.
    rewrite lookup_insert_ne by done. done.
  - destruct Hs as (t & -> & Ht). by apply (Hgit t).
  - eapply Hch; [exact Hs|]. intros [_ ->]. split; [by apply fewer_same|set_solver].
  - eapply Hch; [exact Hs|]. intros [_ ->]. split; [by apply fewer_same|done].
  - eapply Hch; [exact Hs|]. intros ->. split; [by apply fewer_same|done].
  - eapply Hch; [exact Hs|]. intros ->. split; [by apply fewer_same|done].
Qed.

Context (env : GitWorld -> GitWorld -> Prop) (others : forall w w', env w w' -> respects w w').
(** The record [create_in] places. *)
Context (own : string).

Definition unclaimed (w : GitWorld) : Prop := lock ∈ held w /\ forall name, ~ claims w name.

(** A step claims nothing, or it claims the branch for ourselves, under its lock,
    when nobody does. *)
Definition claim_step (w w' : GitWorld) : Prop :=
  fewer_claims w w' \/ unclaimed w /\ forall name, claims w' name -> owner_path name = own.

#[local] Instance claim_rely : Rely (git_sem owner_file) env claim_step respects calm.
Proof.
  split; [exact others|]. intros B c w b w' Hc Hs. destruct (calm_fewer _ _ _ _ _ Hc Hs) as [Hf Hh].
  split; [by left|]. intros Hl. split; [set_solver|done].
Qed.

Abbreviation yields := (ensures (git_sem owner_file) env claim_step).
Abbreviation stable := (stable respects).

Lemma calm_reads {A} (m : gio A) : all_calls git_reads m -> all_calls calm m.
Proof. apply all_calls_impl. by intros B []. Qed.

Lemma unclaimed_stable : stable unclaimed.
Proof. intros w w' Hr [Hl Hn]. destruct (Hr Hl) as [Hl' Hf]. split; [done|]. intros name Hc. by eapply Hn, Hf. Qed.

Lemma held_stable : stable (fun w => lock ∈ held w).
Proof. by intros w w' Hr [? _]%Hr. Qed.

(** ** Looking for an owner *)
Definition pending (entries : list (result Errno string)) (w : GitWorld) : Prop :=
  lock ∈ held w /\ forall name, claims w name -> Ok name ∈ entries.

Lemma pending_stable entries : stable (pending entries).
Proof. intros w w' Hr [Hl Hp]. destruct (Hr Hl) as [Hl' Hf]. split; [done|]. auto. Qed.

Lemma pending_drop name entries w : pending (Ok name :: entries) w -> ~ claims w name -> pending entries w.
Proof.
  intros [Hl Hp] Hn. split; [done|]. intros other Ho. specialize (Hp _ Ho).
  apply elem_of_cons in Hp as [[= ->]|]; done.
Qed.

Lemma pending_more x entries w : pending entries w -> pending (x :: entries) w.
Proof. intros [Hl Hp]. split; [done|]. intros name Hn. apply elem_of_cons. auto. Qed.

Lemma pending_nil w : pending [] w -> unclaimed w.
Proof. intros [Hl Hp]. split; [done|]. intros name Hn. by apply Hp, elem_of_nil in Hn. Qed.

Definition none_unclaimed (o : option ExecutionId) (w : GitWorld) : Prop := o = None -> unclaimed w.

Lemma none_stable o : stable (none_unclaimed o).
Proof. intros w w' Hr Hn Ho. by eapply unclaimed_stable, Hn. Qed.

(** What reading a record tells. *)
Definition record_read (entries : list (result Errno string)) (r : result WorktreeError OwnerRecord) (w : GitWorld) : Prop :=
  (forall record, r = Ok record -> ~ claiming record) -> pending entries w.

Lemma record_read_stable entries r : stable (record_read entries r).
Proof. intros w w' Hr Hp Hn. eapply pending_stable; [exact Hr|auto]. Qed.

Lemma yields_read_record name entries w :
  pending (Ok name :: entries) w ->
  yields (pending (Ok name :: entries)) (record_read entries)
    (outcome_of (read_owner_record (join (join executions_root name) "repository"))) w.
Proof.
  intros Hp w1 Hw b w2 [-> Hb]. assert (pending (Ok name :: entries) w1) as H1 by (eapply stable_env, Hp; [apply pending_stable|done]).
  split; [left; by apply fewer_same|].
  assert (forall r : result WorktreeError OwnerRecord,
    (claims w1 name -> exists record, r = Ok record /\ claiming record) -> record_read entries r w1) as Hr.
  { intros r Hc Hn. eapply pending_drop; [exact H1|]. intros (record & Ho & Hc')%Hc. by eapply Hn. }
  destruct b as [bytes|e]; simpl in Hb; intros w3 Hw3;
    (split; [by eapply stable_env; [apply pending_stable|..]|]); intros r [= <-];
    (eapply stable_env; [apply record_read_stable|exact Hw3|]); apply Hr; intros (_ & _ & b & record & Ht & Ho & Hc).
  - simpl in *. assert (b = bytes) as -> by (unfold owner_path in Ht; congruence). rewrite Ho. by exists record.
  - by destruct (Hb b).
Qed.

Lemma yields_find_owner entries w :
  pending entries w -> yields (pending entries) none_unclaimed (find_branch_owner replaced manager repo branch entries) w.
Proof.
  revert w. induction entries as [|[name|e] entries IH]; intros w Hp; pose proof pending_stable as Hs;
    cbn [find_branch_owner].
  - apply ensures_ret; [done|apply none_stable|done|]. intros _. by apply pending_nil.
  - assert (forall w', pending entries w' -> yields (pending (Ok name :: entries)) none_unclaimed
      (find_branch_owner replaced manager repo branch entries) w') as Hrec.
    { intros w' Hw'. eapply (ensures_inv _ (pending entries)); [by apply pending_more|by apply IH]. }
    apply ensures_skip; [done|by split|done|]. intros metadata w1 H1. apply ensures_guard; [done..|]. intros _.
    apply (ensures_bind _ (fun found w' => found = Err NOENT -> pending entries w')); [done| |].
    { apply ensures_ask; [done..| |].
      - intros found w2 w3 Hr Hf E. eapply Hs; [exact Hr|auto].
      - intros w2 found w3 H2 [-> Hf] ->. eapply pending_drop; [exact H2|]. intros Hc. pose proof Hc as (Hn & Hsl & _).
        eapply unclaimed_below; [exact Hf| |exact Hc]. apply (join_below _ _ "y"%char); [by apply last_byte_join|done|done]. }
    intros [m|[]] w2 H2 Hf; try (by apply ensures_throw); [|by apply Hrec, Hf].
    apply ensures_guard; [done..|]. intros _.
    apply (ensures_bind _ (record_read entries)); [done|by apply yields_read_record|].
    intros [record|e] w3 H3 Hr; [|apply Hrec, Hr; done].
    destruct (bool_decide _ && bool_decide _) eqn:Eb.
    + apply andb_true_iff in Eb as [E1%bool_decide_eq_true E2%bool_decide_eq_true].
      apply (ensures_bind _ (fun _ => record_read entries (Ok record))); [done| |].
      { apply (ensures_weaken _ (fun _ w' => pending (Ok name :: entries) w' /\ record_read entries (Ok record) w'));
          [by intros _ w' _ []|].
        apply ensures_holds; [apply stable_and; [done|apply record_read_stable]|by intros w' []| |done].
        apply calm_reads, reads_current_branch. }
      intros current w4 H4 Hr4. apply ensures_guard; [done..|]. intros _.
      destruct (OwnerRecord.labels record !! EXECUTION_ID) as [id|] eqn:Ei.
      * by apply ensures_ret; [|apply none_stable|..].
      * apply Hrec, Hr4. intros r [= <-] (_ & _ & [x Hx]). congruence.
    + apply Hrec, Hr. intros r [= <-] (Ho & Hb & _). by rewrite Ho, Hb, !bool_decide_true in Eb.
  - by apply ensures_throw.
Qed.

Lemma yields_branch_owner w :
  lock ∈ held w -> yields (fun _ => True) none_unclaimed (branch_owner replaced manager repo branch) w.
Proof.
  intros Hl. apply (ensures_bind _ (fun entries w' =>
    match entries with Ok entries => pending entries w' | Err NOENT => unclaimed w' | Err _ => True end)); [done| |].
  - intros w1 Hw entries w2 [-> He]. assert (lock ∈ held w1) as Hl1.
    { apply (stable_env (fun w => lock ∈ held w) w); [apply held_stable|done..]. }
    split; [left; by apply fewer_same|]. intros w3 Hw3. split; [done|]. intros entries' [= <-].
    destruct entries as [entries|[]]; [|by eapply stable_env; [apply unclaimed_stable|exact Hw3|];
      split; [|intros name Hc; pose proof Hc as (Hn & Hs & _); eapply unclaimed_below; [exact He| |exact Hc];
        by apply below_executions]|done..].
    eapply stable_env; [apply pending_stable|exact Hw3|]. split; [done|]. intros name Hc.
    pose proof Hc as (Hn & Hs & _). destruct (proj1 He name) as [Hx|[Hx|Hx]]; [done| |done].
    exfalso. eapply unclaimed_below; [exact Hx| |exact Hc]. by apply below_execution.
  - intros [entries|[]] w1 _ He; [| |by apply ensures_throw..].
    + by apply (ensures_inv _ (pending entries)), yields_find_owner.
    + apply ensures_ret; [done|apply none_stable|done|]. by intros _.
Qed.

(** ** Placing the record *)
Lemma yields_lift {A E} (f : E -> WorktreeError) I (R : A -> GitWorld -> Prop) (m : io git_call E A) w :
  stable I -> (forall a, stable (R a)) -> yields I R m w -> yields I R (lift f m) w.
Proof.
  intros Hs HR Hm. apply chl_bind. eapply chl_mono; [exact Hm|]. intros r w1 [H1 Hr] w2 H2.
  split; [by eapply stable_env|]. intros a Ha. destruct r as [a'|e]; [|done]. injection Ha as <-.
  eapply stable_env; [apply HR|exact H2|auto].
Qed.

Lemma temporary_unowned directory name : join directory (OWNER_NAME +:+ ".tmp") <> owner_path name.
Proof.
  intros He%(f_equal last_byte). unfold owner_path in He. by rewrite !last_byte_join in He.
Qed.

Lemma yields_place directory final_path temporary_path bytes w :
  final_path = own -> (forall name, temporary_path <> owner_path name) -> unclaimed w ->
  yields (fun _ => True) (fun _ _ => True) (place_owner_record directory final_path temporary_path bytes) w.
Proof.
  intros -> Ht Hu. pose proof unclaimed_stable as Hs.
  apply (ensures_bind _ (fun _ => unclaimed)); [done|by apply ensures_holds; [| |split| ]|]. intros file w1 _ H1.
  apply (ensures_bind _ (fun _ => unclaimed)); [done|by apply ensures_holds; [| |split| ]|]. intros [] w2 _ H2.
  apply (ensures_bind _ (fun _ => unclaimed)); [done|by apply ensures_holds; [| |split| ]|]. intros [] w3 _ H3.
  apply (ensures_bind _ (fun _ _ => True)); [done| |].
  - intros w4 Hw r w5 Hr. assert (unclaimed w4) as H4 by by eapply stable_env.
    split; [|intros w6 _; done].
    assert (w5 = w4 \/ exists n, w5 = set_tree (<[own := n]> (delete temporary_path (tree w4))) w4) as [-> |[n ->]]
      by (destruct r as [[]|e]; [by right|exact Hr]); [left; by apply fewer_same|].
    right. split; [done|]. intros name Hc. destruct (decide (owner_path name = own)) as [|Hno]; [done|].
    exfalso. eapply (proj2 H4). eapply claims_tree; [|exact Hc]. intros bytes' Hb. simpl in Hb.
    rewrite lookup_insert_ne in Hb by done. by apply lookup_delete_Some in Hb as [_ ?].
  - intros _ w4 _ _. apply ensures_calls; [done|by split|by apply ends_any|done].
Qed.

Lemma yields_write_owner directory record w :
  join directory OWNER_NAME = own -> unclaimed w ->
  yields (fun _ => True) (fun _ _ => True) (write_owner_record directory record) w.
Proof.
  intros Ho Hu. pose proof unclaimed_stable as Hs. apply yields_lift; [done..|].
  apply (ensures_bind _ (fun _ => unclaimed)); [done| |intros _ w1 _ H1].
  { apply ensures_holds; [done..| |done]. unfold reject_existing. reads. }
  apply (ensures_bind _ (fun _ => unclaimed)); [done| |intros _ w2 _ H2].
  { apply ensures_holds; [done..| |done]. unfold reject_existing. reads. }
  apply (ensures_bind _ (fun _ _ => True)); [done| |].
  - apply (ensures_weaken _ (fun r w' => forall a, r = Ok a -> True)); [done|].
    apply ensures_outcome; [done..|]. apply yields_place; [done|apply temporary_unowned|done].
  - intros r w3 _ _. apply ensures_calls; [done| |by apply ends_any|done]. destruct r; reads.
Qed.

(** ** The creation *)
Lemma yields_calm {A B} (R : B -> GitWorld -> Prop) (m : gio A) (f : A -> gio B) w :
  all_calls calm m -> unclaimed w -> (forall a w', unclaimed w' -> yields (fun _ => True) R (f a) w') ->
  yields (fun _ => True) R (m ≫= f) w.
Proof.
  intros Hm Hu Hf. apply (ensures_bind _ (fun _ => unclaimed)); [done| |by auto].
  apply ensures_holds; [apply unclaimed_stable|done..].
Qed.

Lemma calm_storage path : all_calls calm (verify_repository_storage replaced path).
Proof. apply calm_reads, reads_repository_storage. Qed.
Lemma calm_preflight path : all_calls calm (verify_git_storage_preflight path).
Proof. apply calm_reads, reads_preflight. Qed.
#[local] Hint Resolve calm_storage calm_preflight : git_reads.

Lemma calm_mirror root mirror locator : all_calls calm (verify_mirror_repository replaced root mirror locator).
Proof. sweep. Qed.
Lemma calm_metadata error : all_calls calm (metadata_directory manager error).
Proof. sweep. Qed.
#[local] Hint Resolve calm_mirror calm_metadata : git_reads.
Lemma calm_intent path intent replace : all_calls calm (write_create_intent manager path intent replace).
Proof. sweep. Qed.
Lemma calm_repository_git path args error : all_calls calm (run_repository_git replaced path args error).
Proof. sweep. Qed.
Lemma calm_take_back path intent_path error : all_calls calm (take_back manager path intent_path error).
Proof. sweep. Qed.
#[local] Hint Resolve calm_intent calm_repository_git calm_take_back : git_reads.

Section Creation.
Context (labels : OwnershipLabels) (base_ref : string) (storage : AllocationReceipt).
Context (root : MirrorRoot) (mirror locator : string) (verified : Z) (repository_root intent_path : string).

Lemma yields_setup base_sha intent w :
  join repository_root OWNER_NAME = own -> unclaimed w ->
  yields (fun _ => True) (fun _ _ => True)
    (setup replaced manager labels branch storage root mirror locator verified repository_root intent_path base_sha
       intent) w.
Proof.
  intros Ho Hu. do 13 (apply yields_calm; [sweep|done|]; clear w Hu; intros ? w Hu). by apply yields_write_owner.
Qed.

Lemma yields_create_owned recovered w :
  join repository_root OWNER_NAME = own -> lock ∈ held w ->
  yields (fun _ => True) (fun _ _ => True)
    (create_owned replaced manager labels repo base_ref branch storage root mirror locator verified repository_root
       intent_path recovered) w.
Proof.
  intros Ho Hl. apply (ensures_bind _ none_unclaimed); [done|by apply yields_branch_owner|].
  intros [owner|] w1 _ H1; [by apply ensures_throw|]. specialize (H1 eq_refl).
  do 4 (apply yields_calm; [sweep|done|]; clear w1 H1; intros ? w1 H1).
  cbv zeta. apply yields_calm; [sweep|done|]. intros _ w2 H2.
  apply (ensures_bind _ (fun _ _ => True)); [done| |].
  - apply (ensures_weaken _ (fun r w' => forall a, r = Ok a -> True)); [done|].
    apply ensures_outcome; [done..|]. by apply yields_setup.
  - intros r w3 _ _. apply ensures_calls; [done|sweep|by apply ends_any|done].
Qed.
End Creation.

(** Before and after, locks come and go. *)
Definition loose (B : Type) (c : git_call B) : Prop :=
  match c with Git.Rename _ _ | Git.CreateNew _ => False | _ => True end.

Lemma loose_step B (c : git_call B) w b w' : loose B c -> git_sem owner_file B c w b w' -> claim_step w w'.
Proof.
  intros Hc Hs. left. destruct c; try (by eapply calm_fewer; [|exact Hs]); try done.
  simpl in Hs. subst w'. by apply fewer_same.
Qed.

Abbreviation guarded m := (chl (git_sem owner_file) env claim_step m (fun _ _ => True)).

Lemma guarded_loose {A} (m : gio A) w : all_calls loose m -> guarded m w.
Proof. intros Hm. by eapply chl_calls; [exact loose_step|..]. Qed.

Lemma guarded_bind {A B} (m : gio A) (f : A -> gio B) (R : A -> Prop) w :
  all_calls loose m -> ends (fun _ _ _ => True) m (fun r => forall a, r = Ok a -> R a) ->
  (forall a w', R a -> guarded (f a) w') -> guarded (m ≫= f) w.
Proof.
  intros Hm He Hf. apply chl_io_bind. eapply chl_mono.
  - apply (chl_ends (fun _ _ _ => True) _ _ _ _ (fun _ _ => True) (fun r => forall a, r = Ok a -> R a)); [done..|].
    by apply guarded_loose.
  - intros [a|e] w' [_ Ha]; [by apply Hf, Ha|done].
Qed.

Lemma guarded_then {A B} (m : gio A) (f : A -> gio B) w :
  all_calls loose m -> (forall a w', guarded (f a) w') -> guarded (m ≫= f) w.
Proof. intros Hm Hf. apply (guarded_bind _ _ (fun _ => True)); [done|by apply ends_any|auto]. Qed.

Lemma guarded_outcome {A} (m : gio A) w : guarded m w -> guarded (outcome_of m) w.
Proof. intros Hm. apply chl_bind. eapply chl_mono; [exact Hm|]. by intros. Qed.

Lemma guarded_lock {A} path f (body : gio A) w :
  (forall w', (path = lock -> lock ∈ held w') -> guarded body w') -> guarded (with_lock path f body) w.
Proof.
  intros Hb. apply chl_io_bind. intros w1 _ r w2 Hr. split; [by eapply loose_step, Hr|].
  intros w3 Hw. destruct r as [[]|e]; [|done]. apply chl_io_bind. eapply chl_mono.
  - apply guarded_outcome, Hb. intros ->. apply (stable_env (fun w => lock ∈ held w) w2); [apply held_stable|done|].
    destruct Hr as [_ ->]. simpl. set_solver.
  - intros [r|e] w4 _; [|done]. by apply guarded_loose.
Qed.

Lemma loose_reads {A} (m : gio A) : all_calls git_reads m -> all_calls loose m.
Proof. apply all_calls_impl. by intros B []. Qed.

Lemma loose_metadata error : all_calls loose (metadata_directory manager error).
Proof. sweep. Qed.
#[local] Hint Resolve loose_metadata : git_reads.
Lemma loose_mirror root mirror locator : all_calls loose (verify_mirror_repository replaced root mirror locator).
Proof. sweep. Qed.
#[local] Hint Resolve loose_mirror : git_reads.
Lemma loose_ensure_mirror : all_calls loose (ensure_mirror replaced manager repo).
Proof. sweep. Qed.
Lemma loose_secure_mirror_root : all_calls loose (secure_mirror_root manager).
Proof. sweep. Qed.
#[local] Hint Resolve loose_ensure_mirror loose_secure_mirror_root : git_reads.

Section CreateIn.
Context (labels : OwnershipLabels) (base_ref : string) (storage : AllocationReceipt).
Context (own_record : forall layout, layout_of manager labels = Ok layout ->
  own = join (ExecutionLayout.repository layout) OWNER_NAME).
Context (lock_of_repo : normalized_repository_name repo = Ok normalized).

Lemma check_request_root :
  ends (fun _ _ _ => True) (check_request replaced manager labels repo branch storage)
    (fun r => forall path, r = Ok path -> join path OWNER_NAME = own).
Proof.
  do 3 (apply ends_skip; [intros _|done]). apply ends_io_bind. destruct (layout_of manager labels) as [layout|e] eqn:El; [|done].
  cbn [ret_result ends]. do 3 (apply ends_skip; [intros _|done]). intros path [= <-]. symmetry. by apply own_record.
Qed.

Lemma guarded_create_in w : guarded (create_in replaced manager labels repo base_ref branch storage) w.
Proof.
  eapply guarded_bind; [sweep|apply check_request_root|]. intros repository_root w1 Ho.
  apply guarded_then; [sweep|]. intros verified w2. apply guarded_then; [sweep|]. intros _ w3.
  cbv zeta. apply guarded_then; [sweep|]. intros recovered w4. apply guarded_then; [sweep|]. intros mirror w5.
  apply guarded_lock. intros w6 _. apply guarded_then; [sweep|]. intros root w7.
  apply guarded_then; [sweep|]. intros _ w8. apply guarded_then; [sweep|]. intros locator w9.
  apply guarded_then; [sweep|]. intros _ w10. rewrite lock_of_repo. apply guarded_lock. intros w11 Hl.
  eapply chl_mono; [by apply yields_create_owned, Hl|done].
Qed.
End CreateIn.
End Exclusive.

(** Where the execution's own record goes. *)
Definition own_record_path (manager : GitWorktreeManager) (labels : OwnershipLabels) : string :=
  match layout_of manager labels with
  | Ok layout => join (ExecutionLayout.repository layout) OWNER_NAME
  | Err _ => ""
  end.

(** At most one execution claims the branch. *)
Definition exclusive `{GitSerde} manager repo branch (w : GitWorld) : Prop :=
  forall a b, claims manager repo branch w a -> claims manager repo branch w b ->
    owner_path manager a = owner_path manager b.

Lemma claim_step_exclusive `{GitSerde} manager repo branch normalized own w w' :
  claim_step manager repo branch normalized own w w' -> exclusive manager repo branch w -> exclusive manager repo branch w'.
Proof.
  intros [Hf|[_ Ho]] He a b Ha Hb; [by apply He; apply Hf|]. by rewrite (Ho a), (Ho b).
Qed.

(** The locks of one process are taken for another. *)
Definition seen_by_others (w : GitWorld) : GitWorld :=
  {| tree := tree w; meta := meta w; held := taken w; taken := held w |}.

(** What one process guarantees is what another relies on. *)
Lemma claim_step_respects `{GitSerde} manager repo branch normalized own w w' :
  held w ## taken w -> held w' = held w ->
  claim_step manager repo branch normalized own (seen_by_others w) (seen_by_others w') ->
  respects manager repo branch normalized w w'.
Proof.
  intros Hd Hh [Hf|[[Hl _] _]] Hm; [split; [by rewrite Hh|exact Hf]|]. simpl in Hl. set_solver.
Qed.

(** C17: A branch of a repository belongs to at most one execution.  Whatever calls of
    [create_in] fail and wherever it stops, among others that claim the branch only
    under its lock, a step of it adds a record that claims the branch only for its
    own execution, while it holds the lock and no execution claims the branch; so
    where at most one claimed it before, at most one does after. *)
Theorem branch_claimed_once owner_file replaced `{GitSerde} manager labels repo base_ref branch normalized storage
    env w tr r w' :
  normalized_repository_name repo = Ok normalized ->
  (forall name, owner_file (owner_path manager name)) ->
  (forall w1 w2, env w1 w2 -> respects manager repo branch normalized w1 w2) ->
  (forall w1 w2, env w1 w2 -> exclusive manager repo branch w1 -> exclusive manager repo branch w2) ->
  exec (git_sem owner_file) env (create_in replaced manager labels repo base_ref branch storage) w tr r w' ->
  Forall (fun s => claim_step manager repo branch normalized (own_record_path manager labels) s.1 s.2) tr /\
  (exclusive manager repo branch w -> exclusive manager repo branch w').
Proof.
  intros Hn Hu Ho He Hx.
  assert (Forall (fun s => claim_step manager repo branch normalized (own_record_path manager labels) s.1 s.2) tr) as Ht.
  { apply (chl_exec _ _ _ _ (fun _ _ => True) _ _ _ _ Hx). apply guarded_create_in; [done..| |done].
    intros layout Hl. unfold own_record_path. by rewrite Hl. }
  split; [done|]. eapply exec_keeps; [exact Hx|exact He|]. eapply Forall_impl; [exact Ht|].
  intros [w1 w2]. apply claim_step_exclusive.
Qed.

(** ** A repository created *)
Definition ex_receipt : AllocationReceipt :=
  {| AllocationReceipt.api_version := ALLOCATION_API_VERSION; AllocationReceipt.labels := ex_labels;
     AllocationReceipt.reserved_bytes := 1024 * 1024 * 1024;
     AllocationReceipt.mount_path := join ex_cache "executions/e-1";
     AllocationReceipt.backend_kind := "lvm"; AllocationReceipt.backend_key := "autospec-e-1";
     AllocationReceipt.pool_identity := "vg:VG1";
     AllocationReceipt.backend := BackendIdentity.Lvm "vg" "VG1" "autospec-e-1" "LV1" "u-1" "t";
     AllocationReceipt.docker_bind :=
       {| DockerBindProof.daemon_id := "D1"; DockerBindProof.verifier := "docker";
          DockerBindProof.method_version := "stat"; DockerBindProof.source_path := join ex_cache "executions/e-1";
          DockerBindProof.filesystem_id := "u-1" |} |}.
Definition ex_create : gio Worktree :=
  @create_in ex_replaced git_serde ex_manager ex_labels "o/r" "main" "autospec/7" ex_receipt.
Definition ex_created := run (ex_serve false) ex_create (ex_world ex_directories).

Lemma ex_directories_only q n : ex_directories !! q = Some n -> n = DirNode.
Proof. intros Hq%elem_of_list_to_map_2. apply list_elem_of_fmap in Hq as (p & [= _ ->] & _). done. Qed.

Lemma ex_unclaimed : @exclusive git_serde ex_manager "o/r" "autospec/7" (ex_world ex_directories).
Proof. intros a b (_ & _ & bytes & record & Ha%ex_directories_only & _). done. Qed.

Lemma owner_path_of_json manager name : of_json (owner_path manager name).
Proof. unfold of_json, owner_path. by rewrite last_byte_join. Qed.

Lemma branch_claimed_once_witness :
  exists tr, exec (git_sem of_json) quiet ex_create (ex_world ex_directories) tr (Some (Ok ex_worktree)) ex_created.2 /\
    Forall (fun s => @claim_step git_serde ex_manager "o/r" "autospec/7" "o__r" (own_record_path ex_manager ex_labels)
      s.1 s.2) tr /\
    @exclusive git_serde ex_manager "o/r" "autospec/7" ex_created.2.
Proof.
  destruct (run_exec (ex_serve false) (git_sem of_json) quiet ex_create (ex_world ex_directories)
    (fun B c w => git_serve_sem _ _ _ _ B c w)) as [tr Hx].
  change (run (ex_serve false) ex_create (ex_world ex_directories)) with ex_created in Hx.
  assert (ex_created.1 = Ok ex_worktree) as E by by vm_compute. rewrite E in Hx. exists tr. split; [exact Hx|].
  assert (normalized_repository_name "o/r" = Ok "o__r"%string) as Hn by by vm_compute.
  assert (forall w1 w2, quiet w1 w2 -> @respects git_serde ex_manager "o/r" "autospec/7" "o__r" w1 w2) as Hr
    by (intros w1 w2 []).
  assert (forall w1 w2, quiet w1 w2 -> @exclusive git_serde ex_manager "o/r" "autospec/7" w1 ->
    @exclusive git_serde ex_manager "o/r" "autospec/7" w2) as Hk by (intros w1 w2 []).
  destruct (@branch_claimed_once of_json ex_replaced git_serde ex_manager ex_labels "o/r" "main" "autospec/7" "o__r"
    ex_receipt quiet _ _ _ _ Hn (owner_path_of_json ex_manager) Hr Hk Hx) as [Ht He].
  split; [exact Ht|]. exact (He ex_unclaimed).
Defined.
