(* ===== verification/System.v ===== *)
(** * The worker's lifecycle on a real host ([orchestrator-worker/src/system.rs])

    [SystemExecutionLifecycle] answers the calls of the worker by running the
    programs of the storage manager, the worktree manager, the Docker runtime,
    the Pi harness and the artifact store.  Its calls are theirs, the processes
    of the harness (whose launching is not modelled), the credential broker, the
    Docker command line and the registries the object keeps behind mutexes. *)

From Stdlib Require Import Ascii.
From S2P Require Import Prelude Core WorkerTypes Health Probe Database CleanupStore Lifecycle Effects StorageModel FileSystem MetadataStore StorageManager Artifacts PiHarness BuildCache Docker DockerProvision DockerCleanup GitManager GitCreate GitCleanup GitDiff.

(** ** The durable handles of a cleanup authority

    What [serde] reads from the [handles] column; an object's fields are read by
    name, unknown ones are ignored, an optional one may be missing or null. *)
Definition req {A} (key : string) (d : Value -> option A) (v : Value) : option A :=
  field ← value_get key v; d field.

Definition opt {A} (key : string) (d : Value -> option A) (v : Value) : option (option A) :=
  match value_get key v with
  | None | Some Null => Some None
  | Some field => a ← d field; Some (Some a)
  end.

Definition as_str : Value -> option string := value_as_str.
Definition as_u64 (v : Value) : option Z := match v with Number z => try_from 0 u64_max z | _ => None end.
Definition as_bool (v : Value) : option bool := match v with Bool b => Some b | _ => None end.
Definition as_list {A} (d : Value -> option A) (v : Value) : option (list A) :=
  match v with Array l => mapM d l | _ => None end.

Definition labels_of (v : Value) : option OwnershipLabels :=
  execution_id ← req "execution_id" as_str v;
  worker_id ← req "worker_id" as_str v;
  repository ← req "repository" as_str v;
  issue ← opt "issue" as_str v;
  Some {| OwnershipLabels.execution_id := execution_id; OwnershipLabels.worker_id := worker_id;
          OwnershipLabels.repository := repository; OwnershipLabels.issue := issue |}.

(** [#[serde(tag = "kind")]]. *)
Definition backend_of (v : Value) : option BackendIdentity :=
  kind ← req "kind" as_str v;
  if bool_decide (kind = "apfs"%string) then
    container ← req "container" as_str v;
    container_uuid ← req "container_uuid" as_str v;
    volume ← req "volume" as_str v;
    volume_name ← req "volume_name" as_str v;
    volume_uuid ← req "volume_uuid" as_str v;
    ownership_token ← req "ownership_token" as_str v;
    Some (BackendIdentity.Apfs container container_uuid volume volume_name volume_uuid ownership_token)
  else if bool_decide (kind = "lvm"%string) then
    volume_group ← req "volume_group" as_str v;
    volume_group_uuid ← req "volume_group_uuid" as_str v;
    logical_volume ← req "logical_volume" as_str v;
    logical_volume_uuid ← req "logical_volume_uuid" as_str v;
    filesystem_uuid ← req "filesystem_uuid" as_str v;
    ownership_token ← req "ownership_token" as_str v;
    Some (BackendIdentity.Lvm volume_group volume_group_uuid logical_volume logical_volume_uuid filesystem_uuid
            ownership_token)
  else None.

Definition bind_of (v : Value) : option DockerBindProof :=
  daemon_id ← req "daemon_id" as_str v;
  verifier ← req "verifier" as_str v;
  method_version ← req "method_version" as_str v;
  source_path ← req "source_path" as_str v;
  filesystem_id ← req "filesystem_id" as_str v;
  Some {| DockerBindProof.daemon_id := daemon_id; DockerBindProof.verifier := verifier;
          DockerBindProof.method_version := method_version; DockerBindProof.source_path := source_path;
          DockerBindProof.filesystem_id := filesystem_id |}.

Definition receipt_of (v : Value) : option AllocationReceipt :=
  api_version ← req "api_version" as_str v;
  labels ← req "labels" labels_of v;
  reserved_bytes ← req "reserved_bytes" as_u64 v;
  mount_path ← req "mount_path" as_str v;
  backend_kind ← req "backend_kind" as_str v;
  backend_key ← req "backend_key" as_str v;
  pool_identity ← req "pool_identity" as_str v;
  backend ← req "backend" backend_of v;
  docker_bind ← req "docker_bind" bind_of v;
  Some {| AllocationReceipt.api_version := api_version; AllocationReceipt.labels := labels;
          AllocationReceipt.reserved_bytes := reserved_bytes; AllocationReceipt.mount_path := mount_path;
          AllocationReceipt.backend_kind := backend_kind; AllocationReceipt.backend_key := backend_key;
          AllocationReceipt.pool_identity := pool_identity; AllocationReceipt.backend := backend;
          AllocationReceipt.docker_bind := docker_bind |}.

(** [DurableWorktreeHandle] and [durable_worktree]. *)
Definition worktree_of (v : Value) : option Worktree :=
  execution_id ← req "execution_id" as_str v;
  path ← req "path" as_str v;
  branch ← req "branch" as_str v;
  base_sha ← req "base_sha" as_str v;
  repository ← req "repository" as_str v;
  Some {| Worktree.execution_id := execution_id; Worktree.path := path; Worktree.branch := branch;
          Worktree.base_sha := base_sha; Worktree.repository := repository |}.

Definition mount_of (v : Value) : option VerifiedBindMount :=
  source ← req "source" as_str v;
  target ← req "target" as_str v;
  writable ← req "writable" as_bool v;
  Some {| VerifiedBindMount.source := source; VerifiedBindMount.target := target;
          VerifiedBindMount.writable := writable |}.

(** [DurableRuntimeHandle] and [durable_environment]. *)
Definition environment_of (v : Value) : option EnvironmentHandle :=
  execution_id ← req "execution_id" as_str v;
  network ← req "network" as_str v;
  agent_container ← req "agent_container" as_str v;
  container_id ← req "container_id" as_str v;
  daemon_id ← req "daemon_id" as_str v;
  labels ← req "labels" labels_of v;
  mounts ← req "mounts" (as_list mount_of) v;
  service_containers ← req "service_containers" (as_list as_str) v;
  volumes ← req "volumes" (as_list as_str) v;
  credentials_path ← opt "credentials_path" as_str v;
  Some {| EnvironmentHandle.execution_id := execution_id; EnvironmentHandle.network := network;
          EnvironmentHandle.agent_container := agent_container;
          EnvironmentHandle.verified_agent_container :=
            {| VerifiedAgentContainer.container_id := container_id; VerifiedAgentContainer.daemon_id := daemon_id;
               VerifiedAgentContainer.labels := labels; VerifiedAgentContainer.mounts := mounts |};
          EnvironmentHandle.service_containers := service_containers; EnvironmentHandle.volumes := volumes;
          EnvironmentHandle.credentials_path := credentials_path |}.

Definition session_of (v : Value) : option SessionRef :=
  id ← req "id" as_str v;
  path ← req "path" as_str v;
  execution_id ← req "execution_id" as_str v;
  worktree_path ← req "worktree_path" as_str v;
  Some {| SessionRef.id := id; SessionRef.path := path; SessionRef.execution_id := execution_id;
          SessionRef.worktree_path := worktree_path |}.

Module Handles.
Record Handles := {
  receipt : option AllocationReceipt;
  worktree : option Worktree;
  runtime : option EnvironmentHandle;
  runtime_selector : option OwnershipLabels;
  session : option SessionRef
}.
End Handles.
Abbreviation Handles := Handles.Handles.

(** [serde_json::from_value::<DurableCleanupHandles>]. *)
Definition handles_of (v : Value) : option Handles :=
  match v with
  | Object _ =>
      receipt ← opt "receipt" receipt_of v;
      worktree ← opt "worktree" worktree_of v;
      runtime ← opt "runtime" environment_of v;
      runtime_selector ← opt "runtime_selector" labels_of v;
      session ← opt "session" session_of v;
      Some {| Handles.receipt := receipt; Handles.worktree := worktree; Handles.runtime := runtime;
              Handles.runtime_selector := runtime_selector; Handles.session := session |}
  | _ => None
  end.

(** [DurableWorktreeOwner]. *)
Definition labels_map_of (v : Value) : option (gmap string string) :=
  match v with
  | Object fields => l ← mapM (fun kv => s ← as_str kv.2; Some (kv.1, s)) fields; Some (list_to_map l)
  | _ => None
  end.

Definition owner_of (v : Value) : option OwnerRecord :=
  labels ← req "labels" labels_map_of v;
  base_sha ← req "base_sha" as_str v;
  branch ← req "branch" as_str v;
  Some {| OwnerRecord.labels := labels; OwnerRecord.base_sha := base_sha; OwnerRecord.branch := branch |}.

(** ** Factories *)
Definition step_error (m : string) : LifecycleError := LifecycleError.Step m.

Definition role_debug (r : Role) : string :=
  match r with
  | Role.Implementation => "Implementation" | Role.Review => "Review"
  | Role.Documentation => "Documentation" | Role.UiReview => "UiReview"
  | Role.IntegrationTest => "IntegrationTest" | Role.Interactive => "Interactive"
  end.

(** Independent review shares no mutable state with implementation. *)
Definition check_build_cache_role (role : Role) (requirement : RuntimeRequirement) : result LifecycleError unit :=
  let wants_cache := bool_decide (BUILD_CACHE_CAPABILITY ∈ RuntimeRequirement.capabilities requirement) in
  if wants_cache && negb (bool_decide (role = Role.Implementation))
  then Err (step_error ("capability " +:+ BUILD_CACHE_CAPABILITY +:+
              " is limited to implementation executions, not " +:+ role_debug role))
  else Ok tt.

Module RuntimeFactory.
Record RuntimeFactory := {              (* [VerifiedDockerRuntimeFactory] *)
  socket : option string;
  docker_binary : string;
  trusted_verifier : TrustedVerifierImage;
  build_cache : option (string * Z);
  hardening : ContainerHardening;
  agent_user : string;
  inference_relay : option InferenceRelay
}.

Definition new (socket : option string) (docker_binary : string) (trusted : TrustedVerifierImage) : RuntimeFactory := {|
  socket := socket; docker_binary := docker_binary; trusted_verifier := trusted; build_cache := None;
  hardening := Enforced; agent_user := DEFAULT_AGENT_USER; inference_relay := None |}.

Definition with_inference_relay (relay : option InferenceRelay) (f : RuntimeFactory) : RuntimeFactory := {|
  socket := socket f; docker_binary := docker_binary f; trusted_verifier := trusted_verifier f;
  build_cache := build_cache f; hardening := hardening f; agent_user := agent_user f; inference_relay := relay |}.
Definition with_agent_user (uid_gid : string) (f : RuntimeFactory) : result LifecycleError RuntimeFactory :=
  _ ← map_err (fun e => step_error (RuntimeError.to_string e)) (Docker.validate_agent_user uid_gid);
  Ok {| socket := socket f; docker_binary := docker_binary f; trusted_verifier := trusted_verifier f;
        build_cache := build_cache f; hardening := hardening f; agent_user := uid_gid;
        inference_relay := inference_relay f |}.
Definition with_container_hardening (h : ContainerHardening) (f : RuntimeFactory) : RuntimeFactory := {|
  socket := socket f; docker_binary := docker_binary f; trusted_verifier := trusted_verifier f;
  build_cache := build_cache f; hardening := h; agent_user := agent_user f; inference_relay := inference_relay f |}.
Definition with_build_cache (root : string) (max_gib : Z) (f : RuntimeFactory) : RuntimeFactory := {|
  socket := socket f; docker_binary := docker_binary f; trusted_verifier := trusted_verifier f;
  build_cache := Some (root, max_gib); hardening := hardening f; agent_user := agent_user f;
  inference_relay := inference_relay f |}.

Definition apply_build_cache (runtime : DockerRuntime) (cache : option (string * Z)) : DockerRuntime :=
  match cache with
  | Some (root, max_gib) => DockerRuntime.with_build_cache root max_gib runtime
  | None => runtime
  end.

Definition configure (f : RuntimeFactory) (runtime : DockerRuntime) : result LifecycleError DockerRuntime :=
  runtime ← map_err (fun e => step_error (RuntimeError.to_string e))
    (DockerRuntime.with_agent_user (agent_user f)
       (DockerRuntime.with_hardening (hardening f) (apply_build_cache runtime (build_cache f))));
  match inference_relay f with
  | Some relay => map_err (fun e => step_error (RuntimeError.to_string e))
                    (DockerRuntime.with_inference_relay relay runtime)
  | None => Ok runtime
  end.
End RuntimeFactory.
Abbreviation RuntimeFactory := RuntimeFactory.RuntimeFactory.

Module HarnessFactory.
Record HarnessFactory := {              (* [VerifiedPiHarnessFactory] *)
  docker_socket : option string;
  docker_binary : string;
  pi_executable : string;
  allow_untested_pi_version : bool;
  tools : list string;
  skills : list string;
  agent_user : string
}.

Definition new (docker_socket : option string) (docker_binary pi_executable : string) (tools skills : list string) :
    HarnessFactory := {|
  docker_socket := docker_socket; docker_binary := docker_binary; pi_executable := pi_executable;
  allow_untested_pi_version := false; tools := tools; skills := skills; agent_user := DEFAULT_AGENT_USER |}.

Definition with_agent_user (uid_gid : string) (f : HarnessFactory) : result LifecycleError HarnessFactory :=
  _ ← map_err (fun e => step_error (HarnessError.to_string e)) (PiHarness.validate_agent_user uid_gid);
  Ok {| docker_socket := docker_socket f; docker_binary := docker_binary f; pi_executable := pi_executable f;
        allow_untested_pi_version := allow_untested_pi_version f; tools := tools f; skills := skills f;
        agent_user := uid_gid |}.
Definition with_allow_untested_pi_version (allow : bool) (f : HarnessFactory) : HarnessFactory := {|
  docker_socket := docker_socket f; docker_binary := docker_binary f; pi_executable := pi_executable f;
  allow_untested_pi_version := allow; tools := tools f; skills := skills f; agent_user := agent_user f |}.

Definition configure (f : HarnessFactory) (c : PiHarnessConfig) : result LifecycleError PiHarnessConfig :=
  map_err (fun e => step_error (HarnessError.to_string e))
    (PiHarnessConfig.with_agent_user (agent_user f)
       {| PiHarnessConfig.state_root := PiHarnessConfig.state_root c;
          PiHarnessConfig.worktree := PiHarnessConfig.worktree c;
          PiHarnessConfig.docker_binary := docker_binary f; PiHarnessConfig.docker_host := docker_socket f;
          PiHarnessConfig.agent_container := PiHarnessConfig.agent_container c;
          PiHarnessConfig.pi_executable := pi_executable f;
          PiHarnessConfig.allow_untested_pi_version := allow_untested_pi_version f;
          PiHarnessConfig.labels := PiHarnessConfig.labels c;
          PiHarnessConfig.model_policy := PiHarnessConfig.model_policy c;
          PiHarnessConfig.tools := tools f; PiHarnessConfig.skills := skills f;
          PiHarnessConfig.credential_redactions := PiHarnessConfig.credential_redactions c;
          PiHarnessConfig.stop_timeout := PiHarnessConfig.stop_timeout c;
          PiHarnessConfig.agent_user := PiHarnessConfig.agent_user c;
          PiHarnessConfig.storage := PiHarnessConfig.storage c |}).

(** The token and the policy of one execution. *)
Definition for_execution (token : string) (policy : ModelPolicy) (c : PiHarnessConfig) : PiHarnessConfig := {|
  PiHarnessConfig.state_root := PiHarnessConfig.state_root c; PiHarnessConfig.worktree := PiHarnessConfig.worktree c;
  PiHarnessConfig.docker_binary := PiHarnessConfig.docker_binary c;
  PiHarnessConfig.docker_host := PiHarnessConfig.docker_host c;
  PiHarnessConfig.agent_container := PiHarnessConfig.agent_container c;
  PiHarnessConfig.pi_executable := PiHarnessConfig.pi_executable c;
  PiHarnessConfig.allow_untested_pi_version := PiHarnessConfig.allow_untested_pi_version c;
  PiHarnessConfig.labels := PiHarnessConfig.labels c; PiHarnessConfig.model_policy := Some policy;
  PiHarnessConfig.tools := PiHarnessConfig.tools c; PiHarnessConfig.skills := PiHarnessConfig.skills c;
  PiHarnessConfig.credential_redactions := [token]; PiHarnessConfig.stop_timeout := PiHarnessConfig.stop_timeout c;
  PiHarnessConfig.agent_user := PiHarnessConfig.agent_user c; PiHarnessConfig.storage := PiHarnessConfig.storage c |}.
End HarnessFactory.
Abbreviation HarnessFactory := HarnessFactory.HarnessFactory.

(** ** Calls *)
Module KnownSecret.
Record KnownSecret := { token : string; expires_at : Timestamp }.
End KnownSecret.
Abbreviation KnownSecret := KnownSecret.KnownSecret.

Module CliOutput.
Record CliOutput := { success : bool; stdout : string; stderr : string }.
End CliOutput.
Abbreviation CliOutput := CliOutput.CliOutput.

Module Sys.
Inductive system_call : Type -> Type :=
| OfDocker {B} (c : docker_call B) : system_call B
| OfGit {B} (c : git_call B) : system_call B
| OfStorage {B} (c : storage_call B) : system_call B
| OfArtifact {B} (c : artifact_call B) : system_call B
(* the processes of the harness ([session.rs], [resume.rs]) *)
| HarnessStart (h : PiHarnessConfig) (packet : TaskPacket) : system_call (result HarnessError SessionRef)
| HarnessResume (h : PiHarnessConfig) (session : SessionRef) : system_call (result HarnessError unit)
| HarnessStop (h : PiHarnessConfig) (session : SessionRef) : system_call (result HarnessError unit)
| HarnessFork (h : PiHarnessConfig) (session : SessionRef) (target : SessionId) :
    system_call (result HarnessError SessionRef)
| HarnessPoll (h : PiHarnessConfig) (session : SessionRef) : system_call (result HarnessError (list ExecutionEvent))
| RecoverAbandoned (h : PiHarnessConfig) : system_call (result HarnessError unit)
(* [VerifiedExecutionStorage] *)
| VerifiedVerify (receipt : AllocationReceipt) : system_call (result StorageError unit)
| VerifiedDirectory (receipt : AllocationReceipt) (path : string) : system_call (result StorageError unit)
(* [CredentialBroker] *)
| Mint (execution : Execution) : system_call (result RuntimeError ExecutionCredentials)
| Revoke (id : ExecutionId) : system_call (result RuntimeError unit)
(* [spawn_blocking]: an error when the task did not run *)
| Spawned : system_call (result string unit)
(* the Docker command line *)
| RunDocker (args : list string) : system_call (result string CliOutput)
(* files *)
| ReadFile (path : string) : system_call (result Errno string)
| IsFile (path : string) : system_call bool
| PathExists (path : string) : system_call bool
| SymlinkMetadata (path : string) : system_call (result Errno Metadata)
| Canonicalize (path : string) : system_call (result Errno string)
| CreateDir (path : string) : system_call (result Errno unit)
| CreateDirAll (path : string) : system_call (result Errno unit)
| SetPermissions (path : string) (mode : Z) : system_call (result Errno unit)
| WriteNew (path bytes : string) : system_call (result Errno unit) (* create_new, write_all, sync_all *)
| Rename (from to : string) : system_call (result Errno unit)
| SyncDirectory (path : string) : system_call (result Errno unit)
| DeviceOf (path : string) : system_call (result Errno Z)
| Statvfs (path : string) : system_call (result Errno (Z * Z * Z))
| Now : system_call Timestamp
(* the registries; [None] when the mutex is poisoned *)
| GetRuntime (id : ExecutionId) : system_call (option (option DockerRuntime))
| PutRuntime (id : ExecutionId) (r : option DockerRuntime) : system_call (option unit)
| GetHarness (id : ExecutionId) : system_call (option (option PiHarnessConfig))
| PutHarness (id : ExecutionId) (h : option PiHarnessConfig) : system_call (option unit)
| GetSecret (id : ExecutionId) : system_call (option (option KnownSecret))
| PutSecret (id : ExecutionId) (s : option KnownSecret) : system_call (option unit).
End Sys.
Abbreviation system_call := Sys.system_call.
Abbreviation sysio := (io system_call LifecycleError).

(** A component's program, and its [Result]. *)
Definition run_docker {A} (p : dio A) : sysio (result RuntimeError A) := of_proc (embed (fun B c => Sys.OfDocker c) p).
Definition run_git {A} (p : gio A) : sysio (result WorktreeError A) := of_proc (embed (fun B c => Sys.OfGit c) p).
Definition run_storage {A} (p : stio A) : sysio (result StorageError A) :=
  of_proc (embed (fun B c => Sys.OfStorage c) p).
Definition run_artifact {A} (p : artio A) : sysio (result StoreError A) :=
  of_proc (embed (fun B c => Sys.OfArtifact c) p).

(** Under [map_err(|error| LifecycleError::Step(error.to_string()))?]. *)
Definition step_result {E A} (text : E -> string) (r : result E A) : sysio A :=
  ret_result (map_err (fun e => step_error (text e)) r).
Definition docker_step {A} (p : dio A) : sysio A := r ← run_docker p; step_result RuntimeError.to_string r.
Definition git_step {A} (p : gio A) : sysio A := r ← run_git p; step_result WorktreeError.to_string r.
Definition storage_step {A} (p : stio A) : sysio A := r ← run_storage p; step_result StorageError.to_string r.
Definition file_step {A} (c : system_call (result Errno A)) : sysio A := ask_or c (fun e => step_error (errno_text e)).
Definition harness_step {A} (c : system_call (result HarnessError A)) : sysio A :=
  ask_or c (fun e => step_error (HarnessError.to_string e)).
Definition spawned : sysio unit := ask_or Sys.Spawned step_error.
Definition git_blocking {A} (p : gio A) : sysio A := _ ← spawned; git_step p.
Definition storage_blocking {A} (p : stio A) : sysio A := _ ← spawned; storage_step p.

(** ** Evidence *)
Inductive EvidenceStore := ContentAddressed (state_root : string) | Filesystem (root : string).

Definition validate_evidence_component (value purpose : string) : result LifecycleError unit :=
  if str_is_empty value || bool_decide (value = "."%string) || bool_decide (value = ".."%string) ||
     contains "/" value || contains "\" value || bool_decide (0%N ∈ bytes_of value)
  then Err (step_error (purpose +:+ " is not a safe path component")) else Ok tt.

Definition persist_evidence_file (root execution_id attempt_id bytes : string) : sysio string :=
  _ ← ret_result (validate_evidence_component execution_id "execution id");
  _ ← ret_result (validate_evidence_component attempt_id "attempt id");
  root ← file_step (Sys.Canonicalize root);
  let directory := join (join root "evidence") execution_id in
  _ ← file_step (Sys.CreateDirAll directory);
  canonical_directory ← file_step (Sys.Canonicalize directory);
  _ ← guard_or (path_starts_with canonical_directory root && path_eqb canonical_directory directory)
        (step_error "evidence directory escaped its trusted root");
  let path := join directory (attempt_id +:+ ".json") in
  found ← ask (Sys.SymlinkMetadata path);
  _ ← guard_or (negb (is_ok found)) (step_error "evidence artifact already exists");
  let temporary := join directory ("." +:+ attempt_id +:+ ".tmp") in
  _ ← file_step (Sys.WriteNew temporary bytes);
  _ ← file_step (Sys.Rename temporary path);
  _ ← file_step (Sys.SyncDirectory directory);
  mret path.

Definition persist `{Collation} (store : EvidenceStore) (execution : Execution) (capture : DiffCapture) : sysio string :=
  attempt_id ← some_or (Execution.attempt_id execution) (step_error "evidence lacks attempt id");
  match store with
  | ContentAddressed state_root =>
      r ← run_artifact (Artifacts.store state_root (Execution.id execution) ("diff-" +:+ attempt_id +:+ ".patch")
            "text/x-diff; charset=utf-8" (DiffCapture.patch capture));
      artifact ← step_result store_error_text r;
      mret (Artifact.sha256 artifact)
  | Filesystem root =>
      _ ← spawned;
      persist_evidence_file root (Execution.id execution) attempt_id (DiffCapture.patch capture)
  end.

(** ** The Docker command line *)
Module InspectedMount.
Record InspectedMount := { mount_type : string; source : string; destination : string; writable : bool }.
End InspectedMount.
Abbreviation InspectedMount := InspectedMount.InspectedMount.

Module ContainerInspection.
Record ContainerInspection := {         (* [DockerContainerInspect] *)
  id : string;
  running : bool;
  labels : gmap string string;
  mounts : list InspectedMount
}.
End ContainerInspection.
Abbreviation ContainerInspection := ContainerInspection.ContainerInspection.

Definition inspected_mount_of (v : Value) : option InspectedMount :=
  mount_type ← req "Type" as_str v;
  source ← req "Source" as_str v;
  destination ← req "Destination" as_str v;
  writable ← req "RW" as_bool v;
  Some {| InspectedMount.mount_type := mount_type; InspectedMount.source := source;
          InspectedMount.destination := destination; InspectedMount.writable := writable |}.

(** A missing [Labels] is the default, a null one an error. *)
Definition inspected_labels_of (v : Value) : option (gmap string string) :=
  match v with
  | Object _ => match value_get "Labels" v with None => Some ∅ | Some labels => labels_map_of labels end
  | _ => None
  end.

Definition inspection_of (v : Value) : option ContainerInspection :=
  id ← req "Id" as_str v;
  running ← req "State" (req "Running" as_bool) v;
  labels ← req "Config" inspected_labels_of v;
  mounts ← req "Mounts" (as_list inspected_mount_of) v;
  Some {| ContainerInspection.id := id; ContainerInspection.running := running;
          ContainerInspection.labels := labels; ContainerInspection.mounts := mounts |}.

Section Cli.
(** [String::from_utf8_lossy], and the messages of serde_json and of
    [String::from_utf8] for a text. *)
Context `{JsonText} (lossy json_error utf8_error : string -> string).

Definition docker_output (args : list string) : sysio CliOutput := ask_or (Sys.RunDocker args) step_error.

Definition docker_resource_labels (prefix : list string) (resource : string) : sysio (gmap string string) :=
  output ← docker_output (prefix ++ [resource]);
  _ ← guard_or (CliOutput.success output)
        (step_error ("Docker resource label inspection failed: " +:+ trim (lossy (CliOutput.stderr output))));
  let text := trim (lossy (CliOutput.stdout output)) in
  some_or (value_from_slice text ≫= labels_map_of)
    (step_error ("malformed Docker resource labels: " +:+ json_error text)).

Definition inventory_args (prefix : list string) (execution_id : ExecutionId) (format : string) : list string :=
  prefix ++ ["--filter"; "label=autospec.managed=true"; "--filter"; "label=autospec.execution_id=" +:+ execution_id;
             "--format"; format]%string.

Definition inventory_names (stdout : string) : gset string :=
  list_to_set (List.filter (fun name => negb (str_is_empty name)) (List.map trim (lines stdout))).

Definition docker_resource_names (prefix : list string) (execution_id : ExecutionId) (format : string) :
    sysio (gset string) :=
  output ← docker_output (inventory_args prefix execution_id format);
  _ ← guard_or (CliOutput.success output)
        (step_error ("Docker resource inventory failed: " +:+ trim (lossy (CliOutput.stderr output))));
  mret (inventory_names (lossy (CliOutput.stdout output))).

Definition docker_container_id (container : string) : sysio string :=
  output ← docker_output ["inspect"; "--type"; "container"; "--format={{.Id}}"; container]%string;
  let id := trim (lossy (CliOutput.stdout output)) in
  _ ← guard_or (negb (negb (CliOutput.success output) || str_is_empty id))
        (step_error "durable agent container identity is unavailable");
  mret id.

(** The mounts of an adopted container, all binds, with their sources resolved. *)
Fixpoint bind_mounts (mounts : list InspectedMount) : sysio (list VerifiedBindMount) :=
  match mounts with
  | [] => mret []
  | mount :: mounts =>
      _ ← guard_or (bool_decide (InspectedMount.mount_type mount = "bind"%string))
            (step_error "adopted agent container has a non-bind mount");
      source ← file_step (Sys.Canonicalize (InspectedMount.source mount));
      rest ← bind_mounts mounts;
      mret ({| VerifiedBindMount.source := source; VerifiedBindMount.target := InspectedMount.destination mount;
               VerifiedBindMount.writable := InspectedMount.writable mount |} :: rest)
  end.

Definition has_bind (source target : string) (mounts : list VerifiedBindMount) : bool :=
  existsb (fun m => path_eqb (VerifiedBindMount.source m) source &&
             bool_decide (VerifiedBindMount.target m = target) && VerifiedBindMount.writable m) mounts.

Fixpoint verify_container_labels (expected : gmap string string) (containers : list string) : sysio unit :=
  match containers with
  | [] => mret tt
  | container :: containers =>
      labels ← docker_resource_labels
        ["inspect"; "--type"; "container"; "--format={{json .Config.Labels}}"]%string container;
      _ ← guard_or (bool_decide (labels = expected))
            (step_error ("durable runtime container " +:+ container +:+ " has foreign or incomplete labels"));
      verify_container_labels expected containers
  end.

Definition docker_container_capability (receipt : AllocationReceipt) (layout : ExecutionLayout)
    (container_id : string) (execution : Execution) : sysio VerifiedAgentContainer :=
  let labels := OwnershipLabels.to_map (AllocationReceipt.labels receipt) in
  let id := OwnershipLabels.execution_id (AllocationReceipt.labels receipt) in
  let daemon_id := DockerBindProof.daemon_id (AllocationReceipt.docker_bind receipt) in
  daemon ← docker_output ["info"; "--format={{.ID}}"]%string;
  _ ← guard_or (CliOutput.success daemon && bool_decide (trim (lossy (CliOutput.stdout daemon)) = daemon_id))
        (step_error "Docker daemon identity changed during restart adoption");
  output ← docker_output ["inspect"; "--type"; "container"; container_id]%string;
  _ ← guard_or (CliOutput.success output) (step_error "durable Pi container is unavailable during restart adoption");
  inspections ← some_or (value_from_slice (CliOutput.stdout output) ≫= as_list inspection_of)
                  (step_error (json_error (CliOutput.stdout output)));
  inspection ← some_or (match inspections with [inspection] => Some inspection | _ => None end)
                 (step_error "Docker returned an ambiguous container inspection");
  _ ← guard_or (bool_decide (ContainerInspection.id inspection = container_id) &&
                ContainerInspection.running inspection &&
                bool_decide (ContainerInspection.labels inspection = labels))
        (step_error "durable Pi container authority changed during restart adoption");
  mounts ← bind_mounts (ContainerInspection.mounts inspection);
  let mounts := merge_sort bind_le mounts in
  expected_repository ← file_step (Sys.Canonicalize (ExecutionLayout.repository layout));
  expected_conversation ← file_step (Sys.Canonicalize (ExecutionLayout.conversation layout));
  _ ← guard_or (has_bind expected_repository "/workspace" mounts && has_bind expected_conversation "/session" mounts &&
                negb (existsb (fun m => path_eqb (VerifiedBindMount.source m) (ExecutionLayout.session layout)) mounts))
        (step_error "adopted agent container mounts do not match durable execution layout");
  let expected_containers : gset string :=
    list_to_set (agent_container_name (Execution.id execution) ::
      List.map (fun service => service_container_name (Execution.id execution) (ServiceRequirement.name service))
        (ExecutionManifest.services (Execution.manifest execution))) in
  all_containers ← docker_resource_names ["ps"; "-a"]%string id "{{.Names}}";
  running_containers ← docker_resource_names ["ps"]%string id "{{.Names}}";
  _ ← guard_or (bool_decide (all_containers = expected_containers) && bool_decide (running_containers = expected_containers))
        (step_error "durable runtime container set is incomplete, stopped, or contains extras");
  _ ← verify_container_labels labels (merge_sort String.le (elements expected_containers));
  let expected_network := network_name id in
  networks ← docker_resource_names ["network"; "ls"]%string id "{{.Name}}";
  _ ← guard_or (bool_decide (networks = {[ expected_network ]}))
        (step_error "durable runtime network set differs from the manifest");
  network_labels ← docker_resource_labels ["network"; "inspect"; "--format={{json .Labels}}"]%string expected_network;
  _ ← guard_or (bool_decide (network_labels = labels))
        (step_error "durable runtime network has foreign or incomplete labels");
  volumes ← docker_resource_names ["volume"; "ls"]%string id "{{.Name}}";
  _ ← guard_or (bool_decide (volumes = ∅)) (step_error "durable runtime contains unexpected Docker volumes");
  mret {| VerifiedAgentContainer.container_id := container_id; VerifiedAgentContainer.daemon_id := daemon_id;
          VerifiedAgentContainer.labels := AllocationReceipt.labels receipt; VerifiedAgentContainer.mounts := mounts |}.

(** Whether the daemon knows anything of the execution. *)
Definition runtime_present (execution_id : ExecutionId) : sysio bool :=
  containers ← docker_resource_names ["ps"; "-a"]%string execution_id "{{.Names}}";
  if negb (bool_decide (containers = ∅)) then mret true
  else
    networks ← docker_resource_names ["network"; "ls"]%string execution_id "{{.Name}}";
    if negb (bool_decide (networks = ∅)) then mret true
    else
      volumes ← docker_resource_names ["volume"; "ls"]%string execution_id "{{.Name}}";
      mret (negb (bool_decide (volumes = ∅))).

Definition probe_resource_sample (container : string) : sysio ResourceSample :=
  output ← docker_output ["stats"; "--no-stream"; "--format"; "{{json .}}"; container]%string;
  _ ← guard_or (CliOutput.success output)
        (step_error ("Docker stats probe failed: " +:+ trim (lossy (CliOutput.stderr output))));
  line ← some_or (from_utf8 (CliOutput.stdout output)) (step_error (utf8_error (CliOutput.stdout output)));
  sample ← ret_result (parse_stats json_error (trim line));
  top ← ask (Sys.RunDocker ["top"; container; "-eo"; "pid,args"]%string);
  let command := match top with
                 | Ok top => if CliOutput.success top then parse_top_command (lossy (CliOutput.stdout top)) else None
                 | Err _ => None
                 end in
  mret {| ResourceSample.cpu_percent := ResourceSample.cpu_percent sample;
          ResourceSample.io_bytes := ResourceSample.io_bytes sample;
          ResourceSample.rss_bytes := ResourceSample.rss_bytes sample;
          ResourceSample.disk_bytes := ResourceSample.disk_bytes sample;
          ResourceSample.current_command := command |}.

(** [RuntimeFactory::cpu_percent]. *)
Definition cpu_percent (execution : Execution) : sysio f64 :=
  _ ← spawned;
  output ← docker_output ["stats"; "--no-stream"; "--format"; "{{.CPUPerc}}";
                          agent_container_name (Execution.id execution)]%string;
  _ ← guard_or (CliOutput.success output)
        (step_error ("Docker CPU probe failed: " +:+ trim (lossy (CliOutput.stderr output))));
  text ← some_or (from_utf8 (CliOutput.stdout output)) (step_error (utf8_error (CliOutput.stdout output)));
  ret_result (map_err step_error (parse_f64 (trim_end_char "%" (trim text)))).
End Cli.

(** ** [SystemExecutionLifecycle] *)
Record SystemExecutionLifecycle := {
  state_root : string;
  manager : GitWorktreeManager;
  runtimes : RuntimeFactory;
  harnesses : HarnessFactory;
  evidence : EvidenceStore
}.

Definition ensure_consistent_agent_user (s : SystemExecutionLifecycle) : result LifecycleError unit :=
  let runtime := RuntimeFactory.agent_user (runtimes s) in
  let harness := HarnessFactory.agent_user (harnesses s) in
  if negb (bool_decide (runtime = harness))
  then Err (step_error ("runtime runs agents as " +:+ runtime +:+ " but the harness probes as " +:+ harness +:+
              "; they must be the same user"))
  else Ok tt.

Section Lifecycle.
Context `{!Serde, !GitSerde, !JsonText, !Collation} (replaced lossy json_error utf8_error : string -> string).
(** serde_json's message for a value it cannot decode, what it writes, and
    chrono's parser of a timestamp. *)
Context (value_error : Value -> string) (packet_to_vec : TaskPacket -> result string string).
Context (events_to_vec : list ExecutionEvent -> result string string) (parse_datetime : string -> option Timestamp).
Context (client_version : string) (sha256 : string -> string) (to_rfc3339 : Timestamp -> string).
Context (self : SystemExecutionLifecycle).

Abbreviation resource_names := (docker_resource_names lossy).

(** The registries behind their mutexes. *)
Definition locked {A} (c : system_call (option A)) (registry : string) : sysio A :=
  r ← ask c; some_or r (step_error (registry +:+ " registry lock poisoned")).

Definition runtime_of (id : ExecutionId) : sysio DockerRuntime :=
  r ← locked (Sys.GetRuntime id) "runtime"; some_or r (step_error ("runtime is not active for " +:+ id)).
Definition harness_of (id : ExecutionId) : sysio PiHarnessConfig :=
  h ← locked (Sys.GetHarness id) "harness"; some_or h (step_error ("harness is not active for " +:+ id)).

Definition malformed : LifecycleError := step_error "credential authority is malformed".

Definition remember_and_validate_credentials (execution : Execution) (environment : EnvironmentHandle) : sysio unit :=
  path ← some_or (EnvironmentHandle.credentials_path environment)
           (step_error "execution runtime lacks credential authority");
  bytes ← ask_or (Sys.ReadFile path) (fun e => step_error ("read credential authority: " +:+ errno_text e));
  text ← some_or (from_utf8 bytes) malformed;
  token ← some_or (token ← head (lines text);
                   if (32 <=? String.length token)%nat then Some token else None) malformed;
  expires_at ← some_or (head (drop 1 (lines text)) ≫= parse_datetime) malformed;
  now ← ask Sys.Now;
  _ ← guard_or (negb (expires_at <=? now)) (step_error "execution credential expired before use");
  locked (Sys.PutSecret (Execution.id execution)
            (Some {| KnownSecret.token := token; KnownSecret.expires_at := expires_at |})) "secret".

Definition ensure_credentials_live (id : ExecutionId) : sysio unit :=
  secret ← locked (Sys.GetSecret id) "secret";
  secret ← some_or secret (step_error "credential authority is unavailable");
  now ← ask Sys.Now;
  guard_or (negb (KnownSecret.expires_at secret <=? now)) (step_error "execution credential expired before use").

Definition contains_bytes (haystack needle : string) : bool :=
  negb (str_is_empty needle) && contains needle haystack.

Definition reject_secret (id : ExecutionId) (bytes : string) : sysio unit :=
  secret ← locked (Sys.GetSecret id) "secret";
  guard_or (match secret with
            | Some secret => negb (contains_bytes bytes (KnownSecret.token secret))
            | None => true
            end)
    (step_error "credential exfiltration was rejected").

(** *** [VerifiedDockerRuntimeFactory] *)
Definition revoke_credentials (id : ExecutionId) : sysio unit :=
  ask_or (Sys.Revoke id) (fun e => step_error (RuntimeError.to_string e)).

Definition mint (execution : Execution) : sysio ExecutionCredentials :=
  ask_or (Sys.Mint execution) (fun e => step_error (RuntimeError.to_string e)).

Definition build (execution : Execution) (receipt : AllocationReceipt) : sysio DockerRuntime :=
  _ ← ret_result (check_build_cache_role (Execution.role execution) (ExecutionManifest.runtime (Execution.manifest execution)));
  credentials ← mint execution;
  now ← ask Sys.Now;
  if (ExecutionCredentials.expires_at credentials <=? now) ||
     negb (path_starts_with (ExecutionCredentials.path credentials)
             (join (AllocationReceipt.mount_path receipt) "credentials"))
  then
    revocation ← ask (Sys.Revoke (Execution.id execution));
    throw (step_error match revocation with
           | Ok _ => "credential broker returned invalid execution authority"
           | Err error => "credential broker returned invalid execution authority; credential revocation failed: " +:+
                          RuntimeError.to_string error
           end)
  else
    connected ← run_docker (connect_with_verified_execution_storage (RuntimeFactory.socket (runtimes self)) receipt
                              (RuntimeFactory.trusted_verifier (runtimes self)));
    let built : result string DockerRuntime :=
      runtime ← map_err RuntimeError.to_string connected;
      map_err LifecycleError.to_string (RuntimeFactory.configure (runtimes self) runtime) in
    match built with
    | Ok runtime => mret (DockerRuntime.with_credentials credentials runtime)
    | Err error =>
        revocation ← ask (Sys.Revoke (Execution.id execution));
        throw (step_error match revocation with
               | Ok _ => error
               | Err revoke => error +:+ "; credential revocation failed: " +:+ RuntimeError.to_string revoke
               end)
    end.

Definition build_for_adoption (execution : Execution) (receipt : AllocationReceipt) (environment : EnvironmentHandle) :
    sysio DockerRuntime :=
  runtime ← build execution receipt;
  credentials ← mint execution;
  now ← ask Sys.Now;
  _ ← guard_or (negb ((ExecutionCredentials.expires_at credentials <=? now) ||
                      negb match EnvironmentHandle.credentials_path environment with
                           | Some path => path_eqb path (ExecutionCredentials.path credentials)
                           | None => false
                           end))
        (step_error "adopted runtime credential differs from broker authority; runtime recreation is required");
  mret runtime.

Definition build_for_cleanup (execution : Execution) (receipt : AllocationReceipt) : sysio DockerRuntime :=
  docker_step (connect_for_cleanup (RuntimeFactory.socket (runtimes self)) receipt (Execution.labels execution)).

(** *** [VerifiedPiHarnessFactory::build] *)
Definition build_harness (execution : Execution) (receipt : AllocationReceipt) (environment : EnvironmentHandle) :
    sysio PiHarnessConfig :=
  config ← step_result HarnessError.to_string
    (PiHarnessConfig.for_ready_allocation receipt (EnvironmentHandle.verified_agent_container environment));
  config ← ret_result (HarnessFactory.configure (harnesses self) config);
  credential_path ← some_or (EnvironmentHandle.credentials_path environment)
    (step_error "Pi harness lacks credential authority");
  credential ← ask_or (Sys.ReadFile credential_path) (fun e => step_error ("read Pi credential: " +:+ errno_text e));
  token ← some_or (token ← head (split "010" credential);
                   if (32 <=? String.length token)%nat then Some token else None)
            (step_error "Pi credential is malformed");
  mret (HarnessFactory.for_execution token
          (AgentAssignment.model_policy (ExecutionManifest.agent (Execution.manifest execution))) config).

(** *** The steps of an attempt *)
Definition request_of (execution : Execution) : AllocationRequest :=
  {| AllocationRequest.labels := Execution.labels execution;
     AllocationRequest.disk_gib := RuntimeRequirement.disk_gib (ExecutionManifest.runtime (Execution.manifest execution)) |}.

Definition allocate (execution : Execution) : sysio AllocationReceipt :=
  storage_blocking (StorageManager.allocate (state_root self) (request_of execution)).

Definition create_worktree (execution : Execution) (receipt : AllocationReceipt) : sysio Worktree :=
  _ ← spawned;
  let repository := ExecutionManifest.repository (Execution.manifest execution) in
  let base := default (RepositoryReference.base_ref repository) (RepositoryReference.base_sha repository) in
  branch ← some_or (RepositoryReference.branch repository)
             (step_error "execution lacks an AutoSpec-provided branch");
  git_step (create_in replaced (manager self) (Execution.labels execution) (RepositoryReference.repo repository)
              base branch receipt).

Definition provision (execution : Execution) (receipt : AllocationReceipt) : sysio EnvironmentHandle :=
  runtime ← build execution receipt;
  _ ← locked (Sys.PutRuntime (Execution.id execution) (Some runtime)) "runtime";
  r ← run_docker (DockerCleanup.provision client_version sha256 to_rfc3339 runtime (Execution.labels execution)
                    (ExecutionManifest.runtime (Execution.manifest execution))
                    (ExecutionManifest.services (Execution.manifest execution)));
  match r with
  | Ok environment => mret environment
  | Err error =>
      revocation ← outcome_of (revoke_credentials (Execution.id execution));
      throw (step_error match revocation with
             | Ok _ => RuntimeError.to_string error
             | Err revoke => RuntimeError.to_string error +:+ "; credential revocation failed: " +:+
                             LifecycleError.to_string revoke
             end)
  end.

Definition start (execution : Execution) (receipt : AllocationReceipt) (environment : EnvironmentHandle)
    (worktree : Worktree) (packet : TaskPacket) : sysio SessionRef :=
  _ ← remember_and_validate_credentials execution environment;
  bytes ← step_result (fun e => e) (packet_to_vec packet);
  _ ← reject_secret (Execution.id execution) bytes;
  let packet_directory := join (Worktree.path worktree) ".autospec" in
  created ← ask (Sys.CreateDir packet_directory);
  _ ← match created with
      | Ok _ => mret tt
      | Err EXIST =>
          metadata ← file_step (Sys.SymlinkMetadata packet_directory);
          guard_or (negb (Metadata.is_symlink metadata || negb (Metadata.is_dir metadata)))
            (step_error "TaskPacket staging path is not a real directory")
      | Err error => throw (step_error (errno_text error))
      end;
  _ ← file_step (Sys.SetPermissions packet_directory 448);
  _ ← storage_step (verify_ready_allocation (state_root self) receipt);
  _ ← ask_or (Sys.VerifiedDirectory receipt packet_directory) (fun e => step_error (StorageError.to_string e));
  harness ← build_harness execution receipt environment;
  session ← harness_step (Sys.HarnessStart harness packet);
  _ ← locked (Sys.PutHarness (Execution.id execution) (Some harness)) "harness";
  mret session.

Definition resume (execution : Execution) (environment : EnvironmentHandle) (session : SessionRef) : sysio unit :=
  _ ← remember_and_validate_credentials execution environment;
  harness ← harness_of (Execution.id execution);
  harness_step (Sys.HarnessResume harness session).

Definition pause (execution : Execution) (session : SessionRef) : sysio unit :=
  harness ← harness_of (Execution.id execution); harness_step (Sys.HarnessStop harness session).

Definition fork_conversation (execution : Execution) (session : SessionRef) (target : SessionId) : sysio SessionRef :=
  _ ← ensure_credentials_live (Execution.id execution);
  harness ← harness_of (Execution.id execution); harness_step (Sys.HarnessFork harness session target).

Definition poll (execution : Execution) (session : SessionRef) : sysio (list ExecutionEvent) :=
  _ ← ensure_credentials_live (Execution.id execution);
  harness ← harness_of (Execution.id execution);
  events ← harness_step (Sys.HarnessPoll harness session);
  bytes ← step_result (fun e => e) (events_to_vec events);
  _ ← reject_secret (Execution.id execution) bytes;
  mret events.

Definition disk_bytes (id : ExecutionId) : sysio (option Z) :=
  match ExecutionLayout.new (state_root self) id with
  | Ok layout =>
      root_device ← ask (Sys.DeviceOf (ExecutionLayout.root layout));
      state_device ← ask (Sys.DeviceOf (state_root self));
      let device (r : result Errno Z) := match r with Ok d => Some d | Err _ => None end in
      match device root_device, device state_device with
      | Some d, Some d' =>
          if d =? d' then mret None
          else
            stat ← ask (Sys.Statvfs (ExecutionLayout.root layout));
            mret (execution_disk_bytes (Some d) (Some d') (match stat with Ok v => Some v | Err _ => None end))
      | _, _ => mret None
      end
  | Err _ => mret None
  end.

Definition with_disk (disk : option Z) (sample : ResourceSample) : ResourceSample :=
  {| ResourceSample.cpu_percent := ResourceSample.cpu_percent sample;
     ResourceSample.io_bytes := ResourceSample.io_bytes sample; ResourceSample.rss_bytes := ResourceSample.rss_bytes sample;
     ResourceSample.disk_bytes := disk; ResourceSample.current_command := ResourceSample.current_command sample |}.

Definition resource_sample (execution : Execution) : sysio ResourceSample :=
  _ ← spawned;
  sample ← probe_resource_sample lossy json_error utf8_error (agent_container_name (Execution.id execution));
  sample ← match ResourceSample.current_command sample with
           | Some command =>
               rejected ← outcome_of (reject_secret (Execution.id execution) command);
               mret (scrub_current_command (fun _ => negb (is_ok rejected)) sample)
           | None => mret sample
           end;
  disk ← disk_bytes (Execution.id execution);
  mret (with_disk disk sample).

Definition stop (execution : Execution) (session : SessionRef) : sysio unit :=
  harness ← harness_of (Execution.id execution);
  _ ← harness_step (Sys.HarnessStop harness session);
  locked (Sys.PutHarness (Execution.id execution) None) "harness".

Fixpoint reject_secret_files (id : ExecutionId) (root : string) (changed : list string) : sysio unit :=
  match changed with
  | [] => mret tt
  | path :: changed =>
      let candidate := join root path in
      metadata ← ask (Sys.SymlinkMetadata candidate);
      match metadata with
      | Err NOENT => reject_secret_files id root changed
      | Err error => throw (step_error (errno_text error))
      | Ok metadata =>
          _ ← guard_or (negb (Metadata.is_symlink metadata || negb (Metadata.is_file metadata)))
                (step_error "changed evidence path is not a regular file");
          canonical ← file_step (Sys.Canonicalize candidate);
          _ ← guard_or (path_starts_with canonical root) (step_error "changed evidence path escaped its worktree");
          bytes ← file_step (Sys.ReadFile canonical);
          _ ← reject_secret id bytes;
          reject_secret_files id root changed
      end
  end.

Definition capture (worktree : Worktree) : sysio DiffCapture :=
  capture ← git_blocking (GitDiff.capture replaced (manager self) worktree);
  _ ← reject_secret (Worktree.execution_id worktree) (DiffCapture.patch capture);
  root ← file_step (Sys.Canonicalize (Worktree.path worktree));
  _ ← reject_secret_files (Worktree.execution_id worktree) root (DiffCapture.changed_files capture);
  mret capture.

Definition persist_evidence (execution : Execution) (capture : DiffCapture) : sysio string :=
  _ ← reject_secret (Execution.id execution) (DiffCapture.patch capture);
  persist (evidence self) execution capture.

(** *** Destruction *)
Definition storage_error {A} (m : result StorageError A) : result LifecycleError A :=
  map_err (fun e => step_error (StorageError.to_string e)) m.

Definition error_text_or_ok {E A} (text : E -> string) (r : result E A) : string :=
  match r with Ok _ => "ok" | Err e => text e end.

Definition destroy_runtime (execution : Execution) : sysio unit :=
  runtime ← runtime_of (Execution.id execution);
  destroy ← run_docker (DockerCleanup.destroy client_version runtime (Execution.labels execution));
  revoke ← outcome_of (revoke_credentials (Execution.id execution));
  if is_ok destroy && is_ok revoke then
    _ ← locked (Sys.PutRuntime (Execution.id execution) None) "runtime";
    locked (Sys.PutSecret (Execution.id execution) None) "secret"
  else throw (step_error ("runtime destroy: " +:+ error_text_or_ok RuntimeError.to_string destroy +:+
                "; credential revoke: " +:+ error_text_or_ok LifecycleError.to_string revoke)).

Definition destroy_worktree (worktree : Worktree) : sysio unit :=
  git_blocking (GitCleanup.destroy replaced (manager self) worktree).

Definition ack_destroy_worktree (worktree : Worktree) : sysio unit :=
  git_blocking (GitCleanup.ack_destroy (manager self) worktree).

Definition recover_interrupted_worktree (execution : Execution) (receipt : option AllocationReceipt) : sysio unit :=
  layout ← ret_result (storage_error (ExecutionLayout.new (state_root self) (Execution.id execution)));
  git_blocking (recover_interrupted_create (manager self) (Execution.labels execution) (ExecutionLayout.repository layout)).

Definition release_storage (receipt : AllocationReceipt) : sysio unit :=
  storage_blocking (StorageManager.release (state_root self) receipt).

Definition ack_release_storage (receipt : AllocationReceipt) : sysio unit :=
  storage_blocking (StorageManager.ack_release (state_root self) receipt).

(** *** Recovery from a durable authority *)
Definition decode_handles (authority : CleanupAuthority) : sysio Handles :=
  some_or (handles_of (CleanupAuthority.handles authority))
    (step_error ("decode cleanup authority: " +:+ value_error (CleanupAuthority.handles authority))).

(** [option.as_ref().is_some_and(|handle| ..)] under a [return Err]. *)
Definition refuse {A} (o : option A) (foreign : A -> bool) (message : string) : sysio unit :=
  guard_or (match o with Some a => negb (foreign a) | None => true end) (step_error message).

Definition foreign_id (id id' : ExecutionId) : bool := negb (bool_decide (id' = id)).
Definition receipt_execution (receipt : AllocationReceipt) : ExecutionId :=
  OwnershipLabels.execution_id (AllocationReceipt.labels receipt).

Definition read_owner (repository : string) : sysio OwnerRecord :=
  bytes ← file_step (Sys.ReadFile (join repository ".autospec-owner.json"));
  some_or (value_from_slice bytes ≫= owner_of) (step_error (json_error bytes)).

Definition list_holds (id : ExecutionId) : sysio (list ExecutionLifecycleHold) :=
  storage_step (StorageManager.try_ (Storage.HoldsList id)).

Definition recover_abandoned (harness : PiHarnessConfig) : sysio unit := harness_step (Sys.RecoverAbandoned harness).

Definition cleanup_receipt (authority : CleanupAuthority) (execution : Execution) (layout : ExecutionLayout)
    (receipt : option AllocationReceipt) : sysio (option AllocationReceipt) :=
  receipt ← match receipt with
            | Some receipt => mret (Some receipt)
            | None =>
                present ← ask (Sys.PathExists (ExecutionLayout.root layout));
                if (present : bool)
                then receipt ← allocate execution; mret (Some receipt)
                else mret None
            end;
  match receipt with
  | Some ready =>
      _ ← refuse receipt (fun r => foreign_id (CleanupAuthority.execution_id authority) (receipt_execution r))
            "cleanup receipt belongs to another execution";
      _ ← storage_step (verify_ready_allocation (state_root self) ready);
      mret receipt
  | None => mret None
  end.

Definition cleanup_worktree (authority : CleanupAuthority) (execution : Execution) (layout : ExecutionLayout)
    (worktree : option Worktree) : sysio (option Worktree) :=
  _ ← refuse worktree (fun w => foreign_id (CleanupAuthority.execution_id authority) (Worktree.execution_id w))
        "cleanup worktree belongs to another execution";
  match worktree with
  | Some worktree => mret (Some worktree)
  | None =>
      owned ← ask (Sys.IsFile (join (ExecutionLayout.repository layout) ".autospec-owner.json"));
      if (owned : bool) then
        owner ← read_owner (ExecutionLayout.repository layout);
        _ ← guard_or (bool_decide (OwnerRecord.labels owner = OwnershipLabels.to_map (Execution.labels execution)))
              (step_error "recovered worktree owner differs from cleanup authority");
        mret (Some {| Worktree.execution_id := CleanupAuthority.execution_id authority;
                      Worktree.path := ExecutionLayout.repository layout;
                      Worktree.branch := OwnerRecord.branch owner; Worktree.base_sha := OwnerRecord.base_sha owner;
                      Worktree.repository := RepositoryReference.repo
                        (ExecutionManifest.repository (Execution.manifest execution)) |})
      else mret None
  end.

Definition cleanup_environment (authority : CleanupAuthority) (environment : option EnvironmentHandle) : sysio unit :=
  refuse environment
    (fun e => foreign_id (CleanupAuthority.execution_id authority) (EnvironmentHandle.execution_id e) ||
              foreign_id (CleanupAuthority.execution_id authority)
                (OwnershipLabels.execution_id (VerifiedAgentContainer.labels (EnvironmentHandle.verified_agent_container e))))
    "cleanup runtime belongs to another execution".

Definition cleanup_session (authority : CleanupAuthority) (execution : Execution) (layout : ExecutionLayout)
    (environment : option EnvironmentHandle) (session : option SessionRef) : sysio (option SessionRef) :=
  _ ← refuse session (fun s => foreign_id (CleanupAuthority.execution_id authority) (SessionRef.execution_id s))
        "cleanup session belongs to another execution";
  match session, environment with
  | None, Some _ =>
      holds ← list_holds (CleanupAuthority.execution_id authority);
      let matching := List.filter
        (fun hold => bool_decide (ExecutionLifecycleHold.labels hold = Execution.labels execution)) holds in
      _ ← guard_or (length matching <=? 1)%nat (step_error "cleanup authority has multiple durable Pi holds");
      mret (match matching with
            | hold :: _ =>
                Some {| SessionRef.id := ExecutionLifecycleHold.session_id hold;
                        SessionRef.path := ExecutionLayout.session layout;
                        SessionRef.execution_id := CleanupAuthority.execution_id authority;
                        SessionRef.worktree_path := ExecutionLayout.repository layout |}
            | [] => None
            end)
  | _, _ => mret session
  end.

(** The runtime of a receipt, connected for cleanup and destroyed. *)
Definition destroy_for_cleanup (execution : Execution) (receipt : AllocationReceipt) : sysio unit :=
  runtime ← build_for_cleanup execution receipt;
  docker_step (DockerCleanup.destroy client_version runtime (AllocationReceipt.labels receipt)).

Definition cleanup_authority (authority : CleanupAuthority) (execution : Execution) : sysio unit :=
  handles ← decode_handles authority;
  layout ← ret_result (storage_error (ExecutionLayout.new (state_root self) (CleanupAuthority.execution_id authority)));
  receipt ← cleanup_receipt authority execution layout (Handles.receipt handles);
  worktree ← cleanup_worktree authority execution layout (Handles.worktree handles);
  let environment := Handles.runtime handles in
  _ ← cleanup_environment authority environment;
  session ← cleanup_session authority execution layout environment (Handles.session handles);
  present ← match receipt with
            | Some receipt => runtime_present lossy (receipt_execution receipt)
            | None => mret false
            end;
  _ ← match environment with
      | Some environment =>
          receipt ← some_or receipt (step_error "runtime cleanup lacks storage receipt");
          match worktree, session with
          | Some _, Some _ => harness ← build_harness execution receipt environment; recover_abandoned harness
          | _, _ => mret tt
          end
      | None => mret tt
      end;
  _ ← (if (present : bool) then
         receipt ← some_or receipt (step_error "runtime cleanup lacks storage receipt");
         destroy_for_cleanup execution receipt
       else mret tt);
  _ ← match worktree with Some worktree => destroy_worktree worktree | None => mret tt end;
  _ ← recover_interrupted_worktree execution receipt;
  match receipt with Some receipt => release_storage receipt | None => mret tt end.

(** One method per phase of [cleanup_authority_step]. *)
Definition stop_step (authority : CleanupAuthority) (execution : Execution) (handles : Handles) : sysio unit :=
  _ ← refuse (Handles.runtime_selector handles) (fun labels => negb (bool_decide (labels = Execution.labels execution)))
        "runtime cleanup selector differs from execution authority";
  match Handles.receipt handles, Handles.runtime handles, Handles.worktree handles with
  | Some receipt, Some environment, Some worktree =>
      let id := CleanupAuthority.execution_id authority in
      _ ← guard_or (negb (foreign_id id (receipt_execution receipt) ||
                          foreign_id id (EnvironmentHandle.execution_id environment) ||
                          foreign_id id (Worktree.execution_id worktree)))
            (step_error "Pi cleanup handles belong to another execution");
      harness ← build_harness execution receipt environment;
      recover_abandoned harness
  | _, _, _ => mret tt
  end.

Definition runtime_step (authority : CleanupAuthority) (execution : Execution) (handles : Handles) : sysio unit :=
  let id := CleanupAuthority.execution_id authority in
  _ ← match Handles.receipt handles with
      | Some receipt =>
          _ ← guard_or (negb (foreign_id id (receipt_execution receipt)))
                (step_error "runtime cleanup receipt belongs to another execution");
          present ← runtime_present lossy id;
          if (present : bool) then destroy_for_cleanup execution receipt else mret tt
      | None => mret tt
      end;
  revoke_credentials id.

Definition owned_worktree (authority : CleanupAuthority) (worktree : Worktree) (message : string) : sysio unit :=
  guard_or (negb (foreign_id (CleanupAuthority.execution_id authority) (Worktree.execution_id worktree)))
    (step_error message).

Definition owned_receipt (authority : CleanupAuthority) (receipt : AllocationReceipt) (message : string) : sysio unit :=
  guard_or (negb (foreign_id (CleanupAuthority.execution_id authority) (receipt_execution receipt)))
    (step_error message).

Definition git_cleanup_step (authority : CleanupAuthority) (execution : Execution) (layout : ExecutionLayout)
    (handles : Handles) : sysio unit :=
  _ ← match Handles.worktree handles with
      | Some worktree =>
          _ ← owned_worktree authority worktree "worktree cleanup handle belongs to another execution";
          destroy_worktree worktree
      | None => mret tt
      end;
  git_blocking (recover_interrupted_create (manager self) (Execution.labels execution) (ExecutionLayout.repository layout)).

Definition storage_cleanup_step (authority : CleanupAuthority) (handles : Handles) : sysio unit :=
  match Handles.receipt handles with
  | Some receipt =>
      _ ← owned_receipt authority receipt "storage cleanup receipt belongs to another execution";
      release_storage receipt
  | None => mret tt
  end.

Definition cleanup_authority_step (authority : CleanupAuthority) (execution : Execution)
    (disposition : CleanupDisposition) : sysio CleanupDisposition :=
  handles ← decode_handles authority;
  layout ← ret_result (storage_error (ExecutionLayout.new (state_root self) (CleanupAuthority.execution_id authority)));
  match disposition with
  | CleanupDisposition.CleanupPending =>
      _ ← stop_step authority execution handles; mret CleanupDisposition.RuntimeStopped
  | CleanupDisposition.RuntimeStopped =>
      _ ← runtime_step authority execution handles; mret CleanupDisposition.RuntimeDestroyed
  | CleanupDisposition.RuntimeDestroyed =>
      _ ← git_cleanup_step authority execution layout handles; mret CleanupDisposition.GitRecoveredCleaned
  | CleanupDisposition.GitRecoveredCleaned =>
      _ ← storage_cleanup_step authority handles; mret CleanupDisposition.StorageReleased
  | other => throw (step_error ("cleanup step cannot advance " +:+ phase_text other))
  end.

Definition ack_worktree (authority : CleanupAuthority) (handles : Handles) : sysio unit :=
  match Handles.worktree handles with
  | Some worktree =>
      _ ← owned_worktree authority worktree "worktree cleanup acknowledgment belongs to another execution";
      ack_destroy_worktree worktree
  | None => mret tt
  end.

Definition ack_receipt (authority : CleanupAuthority) (handles : Handles) : sysio unit :=
  match Handles.receipt handles with
  | Some receipt =>
      _ ← owned_receipt authority receipt "storage release acknowledgment belongs to another execution";
      ack_release_storage receipt
  | None => mret tt
  end.

Definition ack_cleanup_authority_step (authority : CleanupAuthority) (disposition : CleanupDisposition) : sysio unit :=
  handles ← decode_handles authority;
  match disposition with
  | CleanupDisposition.GitRecoveredCleaned => ack_worktree authority handles
  | CleanupDisposition.StorageReleased => ack_receipt authority handles
  | CleanupDisposition.ReservationReleased =>
      _ ← ack_worktree authority handles; ack_receipt authority handles
  | _ => mret tt
  end.

(** *** Adoption of a running attempt *)
Definition adopted_receipt (execution : Execution) (layout : ExecutionLayout) : sysio AllocationReceipt :=
  journal ← storage_step (StorageManager.try_ (Storage.JournalRead layout));
  receipt ← some_or (PhaseJournal.receipt journal)
              (step_error "storage journal lacks a durable allocation receipt");
  _ ← guard_or (bool_decide (PhaseJournal.phase journal = AllocationPhase.Ready) &&
                bool_decide (AllocationReceipt.labels receipt = Execution.labels execution) &&
                path_eqb (AllocationReceipt.mount_path receipt) (ExecutionLayout.root layout))
        (step_error "storage allocation is not the exact durable Ready authority");
  _ ← storage_step (verify_ready_allocation (state_root self) receipt);
  _ ← ask_or (Sys.VerifiedVerify receipt) (fun e => step_error (StorageError.to_string e));
  mret receipt.

Definition adopted_worktree (execution : Execution) (layout : ExecutionLayout) : sysio Worktree :=
  owner ← read_owner (ExecutionLayout.repository layout);
  branch ← some_or (RepositoryReference.branch (ExecutionManifest.repository (Execution.manifest execution)))
             (step_error "execution lacks durable branch");
  _ ← guard_or (bool_decide (OwnerRecord.labels owner = OwnershipLabels.to_map (Execution.labels execution)) &&
                bool_decide (OwnerRecord.branch owner = branch))
        (step_error "Git owner record differs from persisted execution authority");
  mret {| Worktree.execution_id := Execution.id execution; Worktree.path := ExecutionLayout.repository layout;
          Worktree.branch := OwnerRecord.branch owner; Worktree.base_sha := OwnerRecord.base_sha owner;
          Worktree.repository := RepositoryReference.repo (ExecutionManifest.repository (Execution.manifest execution)) |}.

Definition adopted_environment (execution : Execution) (agent_container : string) (container : VerifiedAgentContainer) :
    EnvironmentHandle := {|
  EnvironmentHandle.execution_id := Execution.id execution;
  EnvironmentHandle.network := network_name (Execution.id execution);
  EnvironmentHandle.agent_container := agent_container;
  EnvironmentHandle.verified_agent_container := container;
  EnvironmentHandle.service_containers :=
    List.map (fun service => service_container_name (Execution.id execution) (ServiceRequirement.name service))
      (ExecutionManifest.services (Execution.manifest execution));
  EnvironmentHandle.volumes := [];
  EnvironmentHandle.credentials_path :=
    VerifiedBindMount.source <$>
      List.find (fun mount => bool_decide (VerifiedBindMount.target mount = "/autospec-credential"%string))
        (VerifiedAgentContainer.mounts container) |}.

Definition adopt (execution : Execution) : sysio AdoptedExecution :=
  let id := Execution.id execution in
  session_id ← some_or (Execution.session_id execution) (step_error "running execution lacks session id");
  layout ← ret_result (storage_error (ExecutionLayout.new (state_root self) id));
  _ ← guard_or (bool_decide (Execution.worktree_path execution = Some (ExecutionLayout.repository layout)))
        (step_error "persisted worktree path differs from allocation layout");
  receipt ← adopted_receipt execution layout;
  worktree ← adopted_worktree execution layout;
  holds ← list_holds id;
  let agent_container := agent_container_name id in
  container_id ← docker_container_id lossy agent_container;
  _ ← guard_or (negb (existsb (fun hold =>
                         negb (bool_decide (ExecutionLifecycleHold.labels hold = Execution.labels execution)) ||
                         negb (bool_decide (ExecutionLifecycleHold.container_id hold = container_id))) holds))
        (step_error "restart adoption found a foreign Pi lifecycle hold");
  container ← docker_container_capability lossy json_error receipt layout container_id execution;
  let environment := adopted_environment execution agent_container container in
  runtime ← build_for_adoption execution receipt environment;
  harness ← build_harness execution receipt environment;
  _ ← remember_and_validate_credentials execution environment;
  _ ← (if bool_decide (holds = []) then mret tt else recover_abandoned harness);
  remaining_holds ← list_holds id;
  _ ← guard_or (bool_decide (remaining_holds = []))
        (step_error "restart adoption did not quiesce abandoned Pi authority");
  _ ← locked (Sys.PutRuntime id (Some runtime)) "runtime";
  _ ← locked (Sys.PutHarness id (Some harness)) "harness";
  mret {| AdoptedExecution.receipt := receipt; AdoptedExecution.worktree := worktree;
          AdoptedExecution.environment := environment;
          AdoptedExecution.session :=
            {| SessionRef.id := session_id; SessionRef.path := ExecutionLayout.session layout;
               SessionRef.execution_id := id; SessionRef.worktree_path := ExecutionLayout.repository layout |} |}.

(** ** The trait's methods *)
Definition system_lifecycle {A} (c : lifecycle_call A) : sysio A :=
  match c in Call.lifecycle_call A return sysio A with
  | Call.allocate execution => allocate execution
  | Call.create_worktree execution receipt => create_worktree execution receipt
  | Call.provision execution receipt _ => provision execution receipt
  | Call.start execution receipt environment worktree packet => start execution receipt environment worktree packet
  | Call.resume execution _ environment session => resume execution environment session
  | Call.pause execution session => pause execution session
  | Call.fork_conversation execution session target => fork_conversation execution session target
  | Call.poll execution session => poll execution session
  | Call.resource_sample execution => resource_sample execution
  | Call.stop execution session => stop execution session
  | Call.capture worktree => capture worktree
  | Call.persist_evidence execution capture => persist_evidence execution capture
  | Call.destroy_runtime execution => destroy_runtime execution
  | Call.destroy_worktree worktree => destroy_worktree worktree
  | Call.recover_interrupted_worktree execution receipt => recover_interrupted_worktree execution receipt
  | Call.release_storage receipt => release_storage receipt
  | Call.cleanup_authority authority execution => cleanup_authority authority execution
  | Call.cleanup_authority_step authority execution disposition => cleanup_authority_step authority execution disposition
  | Call.ack_cleanup_authority_step authority disposition => ack_cleanup_authority_step authority disposition
  | Call.adopt execution => adopt execution
  end.
End Lifecycle.
