(* ===== verification/SystemCleanup.v ===== *)
(** * The cleanup of an execution, on the whole host

    [cleanup_authority_step] of [System.v] on a host that has a Docker daemon,
    repositories, execution storage and credentials: the worlds of
    [DockerWorld.v], [GitWorld.v] and [StorageWorld.v] side by side.  A worker
    carries the cleanup of an execution through its phases by these steps and
    their acknowledgments, each of which may fail, be cut short and be tried
    again, while others go on elsewhere. *)

From Stdlib Require Import Ascii.
From S2P Require Import Prelude Core WorkerTypes Health Probe Database CleanupStore ControlHistory Lifecycle WorkerRun Effects Artifacts PiHarness BuildCache Docker DockerProvision DockerCleanup DockerWorld DockerDestroy GitManager GitCreate GitCleanup GitDiff GitWorld GitDestroy System StorageModel FileSystem Pinned MetadataStore RecordAtomicity StorageCodec StorageManager StorageWorld StorageSafety StorageRelease.

(** ** What a cleanup does to the repositories *)
Section Repositories.
Context (owner_file : string -> Prop) (replaced : string -> string) `{GitSerde} (manager : GitWorktreeManager) (id : ExecutionId).

Definition own_worktree : Worktree :=
  {| Worktree.execution_id := id; Worktree.path := execution_repository_path manager id; Worktree.branch := "";
     Worktree.base_sha := ""; Worktree.repository := "" |}.

Abbreviation path := (Worktree.path own_worktree).
Abbreviation root := (worktrees_root manager).

(** The names under which the manager keeps records of the execution. *)
Definition own_record (directory name : string) : Prop :=
  directory = root /\ (metadata_name (cleanup_journal_path manager id) = Ok name \/
                       metadata_name (create_intent_path manager id) = Ok name).

(** One step of a cleanup: below the execution's repository it only removes (or
    makes the empty directory), elsewhere it only makes the metadata directory,
    and it keeps the records of others. *)
Definition repository_step (w w' : GitWorld) : Prop :=
  (forall q, below path q = false -> tree w' !! q = tree w !! q \/ q = root /\ tree w !! q = None) /\
  (forall q, below path q = true -> tree w' !! q = tree w !! q \/ tree w' !! q = None \/
     q = path /\ tree w' !! q = Some DirNode) /\
  (forall directory name, ~ own_record directory name ->
     meta w' !! (directory, name) = meta w !! (directory, name)).

(** At most the empty directory is left of the repository. *)
Definition emptied (w : GitWorld) : Prop :=
  (forall q, below path q = true -> q <> path -> tree w !! q = None) /\
  (tree w !! path = None \/ tree w !! path = Some DirNode).

Lemma gone_emptied w : nothing_below path (tree w) -> emptied w.
Proof. intros Hn. split; [by intros q Hq _; apply Hn|left; by apply Hn, below_self]. Qed.

Lemma apart_emptied w w' : apart manager own_worktree w w' -> emptied w -> emptied w'.
Proof.
  intros [Ht _] [He Hp]. split; [intros q Hq Hne; rewrite Ht by done; auto|]. by rewrite (Ht _ (below_self _)).
Qed.

(** A handle that the manager gave out names the same path and records. *)
Section Handle.
Context (worktree : Worktree) (of_id : Worktree.execution_id worktree = id).
Context (path_expected : Worktree.path worktree = execution_repository_path manager (Worktree.execution_id worktree)).

Lemma own_path : Worktree.path worktree = path.
Proof. by rewrite path_expected, of_id. Qed.

Lemma apart_own w w' : apart manager own_worktree w w' -> apart manager worktree w w'.
Proof. unfold apart, journal_bytes. by rewrite own_path, of_id. Qed.

Lemma removal_repository w w' : removal_step manager worktree w w' -> repository_step w w'.
Proof.
  intros (Ho & Hb & Hm). rewrite own_path in *. split_and!; [done|intros q Hq; by destruct (Hb q Hq) as [?|[? _]]; auto|].
  intros directory name Hn. destruct Hm as [-> |(n & bytes & Hj & -> & _)]; [done|].
  apply lookup_insert_ne. intros [= <- <-]. apply Hn. split; [done|left]. by rewrite <- of_id.
Qed.
End Handle.

(** ** Calls that take back or acknowledge *)
Definition tidies (B : Type) (c : git_call B) : Prop :=
  match c with
  | Git.RemoveDirAll p | Git.CreateDir p => p = path
  | Git.CreateDirMode p _ => p = root
  | Git.MetadataRemove directory name => own_record directory name
  | Git.Lock _ | Git.Unlock _ => True
  | _ => git_reads B c
  end.

Lemma git_reads_tidies B (c : git_call B) : git_reads B c -> tidies B c.
Proof. by destruct c. Qed.

Lemma repository_step_refl w : repository_step w w.
Proof. split_and!; auto. Qed.

Lemma repository_step_same w w' : tree w' = tree w -> meta w' = meta w -> repository_step w w'.
Proof. intros Ht Hm. unfold repository_step. rewrite Ht, Hm. split_and!; auto. Qed.

(** The metadata lies beside the repository. *)
Context (root_apart : below path root = false).

Definition tidy (w w' : GitWorld) : Prop := repository_step w w' /\ (emptied w -> emptied w').

Lemma tidy_refl w : tidy w w.
Proof. split; [apply repository_step_refl|done]. Qed.

Lemma tidy_same w w' : tree w' = tree w -> meta w' = meta w -> tidy w w'.
Proof. intros Ht Hm. split; [by apply repository_step_same|]. unfold emptied. by rewrite Ht. Qed.

Lemma tidy_changed {A E} w (r : result E A) w' (done : GitWorld -> Prop) :
  changed w r w' done -> (forall w', done w' -> tidy w w') -> tidy w w'.
Proof. destruct r; simpl; [auto|]. intros [-> |]; [intros _; apply tidy_refl|auto]. Qed.

Lemma tidy_tree w t :
  (forall q, below path q = false -> t !! q = tree w !! q \/ q = root /\ tree w !! q = None) ->
  (forall q, below path q = true -> t !! q = tree w !! q \/ t !! q = None \/ q = path /\ t !! q = Some DirNode) ->
  tidy w (set_tree t w).
Proof.
  intros Ho Hb. split; [by split_and!|]. intros [He Hp]. split.
  - intros q Hq Hne. change (tree (set_tree t w)) with t. destruct (Hb q Hq) as [-> |[-> |[-> _]]]; [auto|done|by destruct Hne].
  - change (tree (set_tree t w)) with t. destruct (Hb path (below_self _)) as [-> |[-> |[_ ->]]]; auto.
Qed.

Lemma tidies_step B (c : git_call B) w b w' : tidies B c -> git_sem owner_file B c w b w' -> tidy w w'.
Proof.
  intros Hc Hs.
  destruct c; try (by rewrite (git_reads_sem owner_file _ _ _ _ _ Hc Hs); apply tidy_refl); simpl in Hc, Hs.
  - subst. eapply tidy_changed; [exact Hs|]. intros w1 [_ ->]. apply tidy_tree; intros q Hq.
    + left. apply lookup_insert_ne. intros <-. by rewrite below_self in Hq.
    + destruct (decide (q = path)) as [-> |Hne]; [|left; by apply lookup_insert_ne].
      right. right. split; [done|]. apply lookup_insert_eq.
  - subst. eapply tidy_changed; [exact Hs|]. intros w1 [Hn ->]. apply tidy_tree; intros q Hq.
    + destruct (decide (q = root)) as [-> |Hne]; [by right|left; by apply lookup_insert_ne].
    + left. apply lookup_insert_ne. intros <-. by rewrite root_apart in Hq.
  - subst. destruct Hs as (t & -> & Hsub & Hout & _). apply tidy_tree; intros q Hq; [left; by apply Hout|].
    destruct (t !! q) as [n|] eqn:E; [|by right; left]. left. symmetry. by eapply lookup_weaken.
  - eapply tidy_changed; [exact Hs|]. intros w1 [_ ->]. by apply tidy_same.
  - rewrite Hs. by apply tidy_same.
  - eapply tidy_changed; [exact Hs|]. intros w1 ->. split; [|done]. split_and!; [auto..|].
    intros d n Hn. simpl. apply lookup_delete_ne. intros [= <- <-]. by apply Hn.
Qed.

Lemma tidies_directory error {A} (f : string -> gio A) :
  (forall u, u = root -> all_calls tidies (f u)) -> all_calls tidies (metadata_directory manager error ≫= f).
Proof.
  intros Hf. split; [exact I|]. intros [m|[]]; try exact I.
  - split; [exact I|]. intros [[]|e]; [by apply Hf|exact I].
  - split; [exact eq_refl|]. intros [[]|e]; [|exact I]. split; [exact I|]. intros [[]|e']; [by apply Hf|exact I].
Qed.

Lemma tidies_reads {A} (m : gio A) : all_calls git_reads m -> all_calls tidies m.
Proof. apply all_calls_impl, git_reads_tidies. Qed.

Lemma tidies_read record error : all_calls tidies (metadata_read manager record error).
Proof.
  apply tidies_directory. intros directory _. apply tidies_reads. by reads.
Qed.

Lemma tidies_remove record error :
  (forall name, metadata_name record = Ok name -> own_record root name) ->
  all_calls tidies (metadata_remove manager record error).
Proof.
  intros Hr. apply tidies_directory. intros directory ->.
  destruct (metadata_name record) as [name|e] eqn:E; [|exact I]. split; [by apply Hr|intros [u|e]; exact I].
Qed.

Lemma tidies_rollback error : all_calls tidies (rollback path error).
Proof.
  apply all_calls_bind; [|intros r; exact I]. apply all_calls_io_bind; [by split|]. intros [m|[]]; try exact I.
  - destruct (Metadata.is_dir m); [|exact I]. apply all_calls_io_bind; [by split|]. intros items.
    destruct (bool_decide (items = [])); [exact I|]. apply all_calls_io_bind; [by split|]. intros _. by split.
  - by split.
Qed.

Lemma tidies_recover labels :
  OwnershipLabels.execution_id labels = id -> all_calls tidies (recover_interrupted_create manager labels path).
Proof.
  intros Hid. unfold recover_interrupted_create. rewrite Hid.
  apply all_calls_io_bind; [exact I|intros _]. apply all_calls_io_bind; [exact I|intros _].
  apply all_calls_io_bind; [apply all_calls_io_bind; [apply tidies_read|intros o; exact I]|].
  intros [intent|]; [|exact I]. apply all_calls_io_bind; [exact I|intros layout].
  apply all_calls_io_bind; [apply tidies_reads; unfold verify_repository_selector; by reads|intros _].
  apply all_calls_io_bind; [exact I|intros _]. apply all_calls_io_bind; [apply tidies_rollback|intros _].
  apply all_calls_io_bind; [|intros [u|e]; exact I]. apply all_calls_outcome_of, tidies_remove.
  intros name Hn. split; auto.
Qed.

Lemma tidies_ack worktree :
  Worktree.execution_id worktree = id -> all_calls tidies (ack_destroy manager worktree).
Proof.
  intros Hid. unfold ack_destroy. rewrite Hid.
  apply all_calls_io_bind; [apply all_calls_io_bind; [apply tidies_read|intros o; exact I]|].
  intros [journal|].
  - apply all_calls_io_bind; [exact I|intros _].
    apply all_calls_io_bind; [apply tidies_reads; unfold absent_repository; by reads|intros _].
    apply tidies_remove. intros name Hn. split; auto.
  - destruct (path_eqb _ _); [|exact I]. apply tidies_reads. unfold absent_repository. by reads.
Qed.
End Repositories.

(** ** What a release does to the storage of others *)
Section Storage.
Context `{Serde} (state_root : string) (receipt : AllocationReceipt) (layout : ExecutionLayout).
Abbreviation receipt_id := (OwnershipLabels.execution_id (AllocationReceipt.labels receipt)).
Abbreviation token := (identity_token (AllocationReceipt.backend receipt)).
Context (layout_of : ExecutionLayout.new state_root receipt_id = Ok layout).

(** Only the records, the mountpoint and the volume of the receipt differ. *)
Definition storage_confined (w w' : World) : Prop :=
  (forall name, name <> record_file receipt -> journals w' !! name = journals w !! name) /\
  (forall name, name <> record_file receipt -> tombstones w' !! name = tombstones w !! name) /\
  (forall name, name <> receipt_id -> mountpoints w' !! name = mountpoints w !! name) /\
  (forall t, t <> token -> volumes w' !! t = volumes w !! t) /\
  leases w' = leases w /\ shared_leases w' = shared_leases w.

(** Neither the volume nor its mountpoint is left. *)
Definition storage_gone (w : World) : Prop := mountpoints w !! receipt_id = None /\ volumes w !! token = None.

Lemma storage_confined_refl w : storage_confined w w.
Proof. by split_and!. Qed.

Lemma storage_confined_trans w1 w2 w3 : storage_confined w1 w2 -> storage_confined w2 w3 -> storage_confined w1 w3.
Proof.
  intros (J1 & T1 & M1 & V1 & L1 & S1) (J2 & T2 & M2 & V2 & L2 & S2).
  split_and!; [intros n Hn; by rewrite J2, J1|intros n Hn; by rewrite T2, T1|intros n Hn; by rewrite M2, M1
    |intros n Hn; by rewrite V2, V1|congruence..].
Qed.

Definition own_call (B : Type) (c : storage_call B) : Prop :=
  match c with
  | Storage.JournalWrite l _ | Storage.JournalRemove l => l = layout
  | Storage.TombstoneCreate name _ | Storage.TombstoneRemove name => name = record_file receipt
  | Storage.RemoveMountpoint name => name = receipt_id
  | Storage.Unmount l b => l = layout /\ b = AllocationReceipt.backend receipt
  | Storage.Remove b => b = AllocationReceipt.backend receipt
  | c => looks c
  end.

Lemma looks_own B (c : storage_call B) : looks c -> own_call B c.
Proof. by destruct c. Qed.

Lemma own_call_confined B (c : storage_call B) w b w' : own_call B c -> world_sem B c w b w' -> storage_confined w w'.
Proof.
  intros Hc Hs. assert (w' = w -> storage_confined w w') as Hsame by (intros ->; apply storage_confined_refl).
  pose proof (release_journal_name state_root receipt layout layout_of) as Hj.
  pose proof (release_file_name state_root receipt layout layout_of) as Hf.
  destruct c; try (by apply Hsame, (looks_same _ _ _ _ _ Hc Hs)); simpl in Hc; destruct_and?; subst; simpl in Hs; rewrite ?Hj in Hs;
    world_cases Hs; simplify_eq; try (by apply Hsame); split_and!; try done; intros k Hk; simpl;
    by rewrite ?lookup_insert_ne, ?lookup_delete_ne, ?lookup_alter_ne by done.
Qed.

Lemma own_call_gone B (c : storage_call B) w b w' :
  own_call B c -> world_sem B c w b w' -> storage_gone w -> storage_gone w'.
Proof.
  intros Hc Hs [Hm Hv]. destruct c; try (by rewrite (looks_same _ _ _ _ _ Hc Hs)); simpl in Hc; destruct_and?; subst; simpl in Hs;
    world_cases Hs; split; simpl; try done; (by apply lookup_delete_None; right) || (by apply lookup_alter_None).
Qed.

Lemma own_cleanup bytes :
  all_calls own_call (cleanup_identity layout (AllocationReceipt.backend receipt) bytes (Some receipt)).
Proof.
  unfold cleanup_identity, remove_released_mountpoint. rewrite (release_mountpoint_name state_root receipt layout layout_of).
  apply all_calls_io_bind; [calls|intros s].
  apply all_calls_io_bind; [unfold cleanup_unmount, journal_progress; repeat (case_match || (apply all_calls_io_bind; [|intros ?]) || calls)|intros s1].
  apply all_calls_io_bind; [unfold cleanup_remove, journal_progress; repeat (case_match || (apply all_calls_io_bind; [|intros ?]) || calls)|intros s2].
  apply all_calls_io_bind; [calls|intros _]. apply all_calls_io_bind; [|intros _; calls].
  apply all_calls_io_bind; [calls|intros _]. apply all_calls_ok. apply all_calls_io_bind; [calls|intros o]. calls.
Qed.

Lemma own_release : all_calls own_call (release state_root receipt).
Proof.
  unfold release. rewrite layout_of, (release_tombstone state_root receipt layout layout_of).
  apply all_calls_ok, all_calls_ok. apply all_calls_io_bind; [by split|intros o].
  apply all_calls_io_bind; [unfold already_released, path_is_exactly_absent; calls|intros []]; [calls|].
  do 4 (apply all_calls_io_bind; [by calls|intros ?]). unfold release_locked.
  apply all_calls_io_bind; [calls|intros j].
  apply all_calls_io_bind; [apply (all_calls_impl _ _ _ looks_own), looks_authenticate|intros s].
  cbv zeta. do 3 (apply all_calls_io_bind; [calls|intros ?]). apply own_cleanup.
Qed.

Lemma own_ack_release : all_calls own_call (ack_release state_root receipt).
Proof.
  unfold ack_release. rewrite layout_of, (release_tombstone state_root receipt layout layout_of).
  unfold path_is_exactly_absent.
  apply all_calls_ok. apply all_calls_io_bind; [by split|intros o]. apply all_calls_ok.
  repeat (apply all_calls_io_bind; [calls|intros ?]); calls.
Qed.
End Storage.

(** ** The host *)
Module Machine.
Record Machine := {
  docker : DockerWorld;
  git : GitWorld;
  storage : World;
  credentials : gset ExecutionId            (* the executions with a live credential *)
}.

Definition set_docker (d : DockerWorld) (t : Machine) : Machine :=
  {| docker := d; git := git t; storage := storage t; credentials := credentials t |}.
Definition set_git (g : GitWorld) (t : Machine) : Machine :=
  {| docker := docker t; git := g; storage := storage t; credentials := credentials t |}.
Definition set_storage (s : World) (t : Machine) : Machine :=
  {| docker := docker t; git := git t; storage := s; credentials := credentials t |}.
Definition set_credentials (c : gset ExecutionId) (t : Machine) : Machine :=
  {| docker := docker t; git := git t; storage := storage t; credentials := c |}.

Definition set_holds (hs : list ExecutionLifecycleHold) (w : World) : World :=
  {| journals := journals w; tombstones := tombstones w; holds := hs; leases := leases w;
     shared_leases := shared_leases w; mountpoints := mountpoints w; volumes := volumes w |}.
End Machine.
Abbreviation Machine := Machine.Machine.
Import Machine.

Section Semantics.
Context (canonical : string -> string) (device : string -> Z) (owner_file : string -> Prop) (lossy : string -> string).

(** An inventory of the command line with no line in it: nothing on the daemon
    has the labels it filters by. *)
Definition inventory_told (args : list string) (w : DockerWorld) (r : result string CliOutput) : Prop :=
  forall prefix id format out, args = inventory_args prefix id format -> r = Ok out -> CliOutput.success out = true ->
  inventory_names (lossy (CliOutput.stdout out)) = ∅ ->
  (prefix = ["ps"; "-a"]%string -> forall k c, containers w !! k = Some c -> owned id (Container.labels c) = false) /\
  (prefix = ["network"; "ls"]%string -> forall k l, networks w !! k = Some l -> owned id l = false) /\
  (prefix = ["volume"; "ls"]%string -> forall k l, DockerWorld.volumes w !! k = Some l -> owned id l = false).

(** A failed change may have happened. *)
Definition becomes {A E} (t : Machine) (r : result E A) (t' t1 : Machine) : Prop :=
  match r with Ok _ => t' = t1 | Err _ => t' = t \/ t' = t1 end.

(** The processes of the harness run in the execution's container, and the
    files this object itself writes belong to the worktree and the evidence
    store: what these calls do to the rest is left open, except for
    [recover_abandoned], which ends the processes of the execution and takes
    their holds off the record. *)
Definition system_sem (B : Type) (c : system_call B) (t : Machine) : B -> Machine -> Prop :=
  match c in Sys.system_call B return B -> Machine -> Prop with
  | Sys.OfDocker c => fun b t' =>
      docker_sem canonical device _ c (docker t) b (docker t') /\ t' = set_docker (docker t') t
  | Sys.OfGit c => fun b t' => git_sem owner_file _ c (git t) b (git t') /\ t' = set_git (git t') t
  | Sys.OfStorage c => fun b t' => world_sem _ c (storage t) b (storage t') /\ t' = set_storage (storage t') t
  | Sys.RecoverAbandoned _ => fun _ t' => exists hs, t' = set_storage (set_holds hs (storage t)) t
  | Sys.Mint execution => fun r t' =>
      becomes t r t' (set_credentials ({[Execution.id execution]} ∪ credentials t) t)
  | Sys.Revoke id => fun r t' => becomes t r t' (set_credentials (credentials t ∖ {[id]}) t)
  | Sys.RunDocker args => fun r t' => t' = t /\ inventory_told args (docker t) r
  | Sys.HarnessStart _ _ | Sys.HarnessResume _ _ | Sys.HarnessStop _ _ | Sys.HarnessFork _ _ _ | Sys.HarnessPoll _ _
  | Sys.CreateDir _ | Sys.CreateDirAll _ | Sys.SetPermissions _ _ | Sys.WriteNew _ _ | Sys.Rename _ _ =>
      fun _ _ => True
  | _ => fun _ t' => t' = t
  end.
End Semantics.

(** ** The phases of a cleanup *)
Definition runtime_done (d : CleanupDisposition) : bool :=
  match d with
  | CleanupDisposition.RuntimeDestroyed | CleanupDisposition.GitRecoveredCleaned | CleanupDisposition.StorageReleased
  | CleanupDisposition.ReservationReleased | CleanupDisposition.Resolved => true
  | _ => false
  end.
Definition git_done (d : CleanupDisposition) : bool :=
  match d with
  | CleanupDisposition.GitRecoveredCleaned | CleanupDisposition.StorageReleased
  | CleanupDisposition.ReservationReleased | CleanupDisposition.Resolved => true
  | _ => false
  end.
Definition storage_done (d : CleanupDisposition) : bool :=
  match d with
  | CleanupDisposition.StorageReleased | CleanupDisposition.ReservationReleased | CleanupDisposition.Resolved => true
  | _ => false
  end.

Section Cleanup.
Context (canonical : string -> string) (device : string -> Z) (owner_file : string -> Prop).
Context (replaced lossy : string -> string) (value_error : Value -> string) (client_version : string).
Context `{!Serde, !GitSerde} (self : SystemExecutionLifecycle) (authority : CleanupAuthority) (execution : Execution).
Context (handles : Handles) (layout : ExecutionLayout).
Abbreviation id := (CleanupAuthority.execution_id authority).
Abbreviation repository := (Worktree.path (own_worktree (manager self) id)).
Abbreviation sem := (system_sem canonical device owner_file lossy).

(** The handles that name the execution; a step refuses others. *)
Definition our_receipt : option AllocationReceipt :=
  r ← Handles.receipt handles; if decide (receipt_execution r = id) then Some r else None.
Definition our_worktree : option Worktree :=
  w ← Handles.worktree handles; if decide (Worktree.execution_id w = id) then Some w else None.

(** What the authority of an execution records, and how the worker is set up. *)
Record Recorded : Prop := {
  handles_read : handles_of (CleanupAuthority.handles authority) = Some handles;
  layout_read : ExecutionLayout.new (state_root self) id = Ok layout;
  labels_read : OwnershipLabels.execution_id (Execution.labels execution) = id;
  repository_read : ExecutionLayout.repository layout = repository;
  receipt_read r : our_receipt = Some r -> PhaseJournal.validate (PhaseJournal.ready r) layout = Ok tt;
  worktree_read w : our_worktree = Some w ->
    Worktree.path w = execution_repository_path (manager self) (Worktree.execution_id w);
  records_apart : below repository (worktrees_root (manager self)) = false
}.

(** What a disposition says of the host. *)
Definition settled (d : CleanupDisposition) (t : Machine) : Prop :=
  (runtime_done d = true -> (is_Some our_receipt -> nothing_left id (docker t)) /\ id ∉ credentials t) /\
  (git_done d = true -> is_Some our_worktree -> emptied (manager self) id (git t)) /\
  (forall r, our_receipt = Some r ->
     if storage_done d then storage_gone r (storage t) else in_release r layout (storage t)).

(** What a cleanup may change of the daemon and of the storage. *)
Definition confined (t t' : Machine) : Prop :=
  destroyed id (docker t) (docker t') /\
  match our_receipt with
  | Some r => storage_confined r (storage t) (storage t')
  | None => exists hs, storage t' = set_holds hs (storage t)
  end.

(** One step of it, among the steps of others. *)
Definition cleanup_step (t t' : Machine) : Prop :=
  repository_step (manager self) id (git t) (git t') /\
  (credentials t' = credentials t \/ credentials t' = credentials t ∖ {[id]}).

(** What others do meanwhile: they work on other repositories and credentials. *)
Definition elsewhere (t t' : Machine) : Prop :=
  docker t' = docker t /\ storage t' = storage t /\
  apart (manager self) (own_worktree (manager self) id) (git t) (git t') /\
  (id ∈ credentials t' -> id ∈ credentials t).

Abbreviation step d := (cleanup_authority_step replaced lossy value_error client_version self authority execution d).
Abbreviation acknowledgment d := (ack_cleanup_authority_step value_error self authority d).

Section Proofs.
Context (recorded : Recorded).

(** *** Programs of the step *)
Section From.
Context (t0 : Machine) (d : CleanupDisposition).

Definition kept (t : Machine) : Prop := confined t0 t /\ settled d t.
Definition keeping (t t' : Machine) : Prop := (kept t -> kept t') /\ cleanup_step t t'.

Definition rely (t t' : Machine) : Prop :=
  docker t' = docker t /\ (exists hs, storage t' = set_holds hs (storage t)) /\
  apart (manager self) (own_worktree (manager self) id) (git t) (git t') /\
  (id ∈ credentials t' -> id ∈ credentials t).

Definition passive (B : Type) (c : system_call B) : Prop :=
  match c with
  | Sys.OfDocker c => harmless _ c
  | Sys.OfGit c => git_reads _ c
  | Sys.OfStorage c => looks c
  | Sys.Revoke i => i = id
  | Sys.HarnessStart _ _ | Sys.HarnessResume _ _ | Sys.HarnessStop _ _ | Sys.HarnessFork _ _ _ | Sys.HarnessPoll _ _
  | Sys.CreateDir _ | Sys.CreateDirAll _ | Sys.SetPermissions _ _ | Sys.WriteNew _ _ | Sys.Rename _ _ | Sys.Mint _ => False
  | _ => True
  end.

Lemma set_holds_same w : set_holds (holds w) w = w.
Proof. by destruct w. Qed.

Lemma rely_refl t : rely t t.
Proof. split_and!; [done|exists (holds (storage t)); by rewrite set_holds_same|done|done]. Qed.

Lemma settled_stable d' : stable rely (settled d').
Proof.
  intros t t' (Hd & [hs Hs] & Hg & Hc) (H1 & H2 & H3). unfold settled. rewrite Hd, Hs. split_and!.
  - intros Hr. destruct (H1 Hr) as [Hl Hn]. split; [done|]. intros Hin. by apply Hn, Hc.
  - intros Hr Hw. eapply apart_emptied; [exact Hg|auto].
  - intros r Hr. specialize (H3 r Hr). by destruct (storage_done d').
Qed.

Lemma confined_holds t t1 t2 hs :
  confined t t1 -> docker t2 = docker t1 -> storage t2 = set_holds hs (storage t1) -> confined t t2.
Proof.
  intros [Hd Hs] Hd2 Hs2. unfold confined. rewrite Hd2, Hs2. split; [done|].
  destruct our_receipt; [exact Hs|]. destruct Hs as [hs' ->]. by exists hs.
Qed.

Lemma kept_stable : stable rely kept.
Proof.
  intros t t' Hr [Hc Hs]. split; [|by eapply settled_stable].
  destruct Hr as (Hd & [hs Hh] & _). by eapply confined_holds.
Qed.

Lemma elsewhere_rely t t' : elsewhere t t' -> rely t t'.
Proof.
  intros (Hd & Hs & Hg & Hc). split_and!; [done|exists (holds (storage t)); by rewrite set_holds_same|done|done].
Qed.

#[local] Instance cleanup_rely : Rely sem elsewhere keeping rely passive.
Proof.
  split; [exact elsewhere_rely|]. intros B c t b t' Hc Hs.
  assert (rely t t' /\ cleanup_step t t') as [Hr Hst].
  2: { split; [|done]. split; [by apply kept_stable|done]. }
  assert (t' = t -> rely t t' /\ cleanup_step t t') as Hsame.
  { intros ->. split; [apply rely_refl|]. split; [apply repository_step_refl|by left]. }
  assert (forall h, t' = set_storage (set_holds h (storage t)) t -> rely t t' /\ cleanup_step t t') as Hholds.
  { intros h ->. split; [split_and!; [done|by exists h|done|done]|]. split; [apply repository_step_refl|by left]. }
  destruct c; simpl in Hc, Hs; try done; try (by apply Hsame); try (by destruct Hs as [-> _]; apply Hsame).
  - destruct Hs as [Hs Ht]. apply Hsame. rewrite Ht, (harmless_sem _ _ _ _ _ _ _ Hc Hs). by destruct t.
  - destruct Hs as [Hs Ht]. apply Hsame. rewrite Ht, (git_reads_sem _ _ _ _ _ _ Hc Hs). by destruct t.
  - destruct Hs as [Hs Ht]. apply Hsame. rewrite Ht, (looks_same _ _ _ _ _ Hc Hs). by destruct t.
  - destruct Hs as [hs ->]. by eapply Hholds.
  - subst. assert (t' = t \/ t' = set_credentials (credentials t ∖ {[id]}) t) as [->| ->]
      by (destruct b as [u|e]; simpl in Hs; tauto); [by apply Hsame|].
    split; [|split; [apply repository_step_refl|by right]].
    split_and!; [done|exists (holds (storage t)); by rewrite set_holds_same|done|by intros [? _]%elem_of_difference].
Qed.

Abbreviation yields := (ensures sem elsewhere keeping).

(** A component's program in a step: what is proved of it in its own world. *)
Lemma yields_component {C E W A} (f : forall B, C B -> system_call B) (get : Machine -> W) (put : W -> Machine -> Machine)
    csem cenv (G : W -> W -> Prop) (p : io C E A) (Q : result E A -> W -> Prop) text (R : A -> Machine -> Prop) t :
  (forall B c t b t', sem B (f B c) t b t' -> csem B c (get t) b (get t') /\ t' = put (get t') t) ->
  (forall t t', elsewhere t t' -> rtc cenv (get t) (get t')) ->
  (forall t s', kept t -> G (get t) s' -> kept (put s' t)) ->
  (forall t s', G (get t) s' -> cleanup_step t (put s' t)) ->
  (forall a, stable rely (R a)) -> (forall a t', kept t' -> Q (Ok a) (get t') -> R a t') ->
  kept t -> chl csem cenv G p Q (get t) ->
  yields kept R (r ← of_proc (embed f p); step_result text r) t.
Proof.
  intros Hstep Henv Hkept Hcs HR HQ Hk Hp. apply chl_io_bind, chl_bind. eapply chl_mono.
  { apply (chl_embed csem sem f get put cenv G elsewhere keeping Hstep Henv) with (I := kept); [|..|exact Hk|exact Hp].
    - intros t1 s' Hg. split; [intros Hk1; by apply Hkept|by apply Hcs].
    - intros t1 t2 He. by apply kept_stable, elsewhere_rely.
    - exact Hkept. }
  intros r t1 [HQr Hk1] t2 H2 t3 H3. assert (rtc elsewhere t1 t3) as H13 by by etrans.
  split; [by eapply (stable_env kept), Hk1; [apply kept_stable|]|].
  intros a Ha. destruct r as [a'|e]; [|done]. injection Ha as ->.
  eapply (stable_env (R a)); [apply HR|exact H13|by apply HQ].
Qed.

(** *** The runtime *)
Lemma destroyed_trans w1 w2 w3 : destroyed id w1 w2 -> destroyed id w2 w3 -> destroyed id w1 w3.
Proof. intros (C1 & V1 & N1) (C2 & V2 & N2). split_and!; by eapply removed_only_trans. Qed.

Lemma destroyed_nothing w w' : destroyed id w w' -> nothing_left id w -> nothing_left id w'.
Proof.
  intros ([C _] & [V _] & [N _]) (Hc & Hv & Hn).
  split_and!; intros k a Ha; [eapply Hc|eapply Hv|eapply Hn]; by eapply lookup_weaken.
Qed.

Lemma kept_docker t t1 s' : kept t -> kept t1 -> destroyed id (docker t) s' -> kept (set_docker s' t1).
Proof.
  intros [[Hd _] (H1 & _)] [[_ Hs] (H1' & H2 & H3)] Hs'. split; [split; [by eapply destroyed_trans|exact Hs]|].
  split_and!; [|exact H2|exact H3]. intros Hr. destruct (H1 Hr) as [Hn _], (H1' Hr) as [_ Hc]. split; [|exact Hc].
  intros Ho. by eapply destroyed_nothing, Hn.
Qed.

Definition runtime_gone (t : Machine) : Prop := nothing_left id (docker t).

Lemma runtime_gone_stable : stable rely runtime_gone.
Proof. intros t t' [Hd _]. unfold runtime_gone. by rewrite Hd. Qed.

Lemma yields_docker_destroy runtime labels t :
  OwnershipLabels.execution_id labels = id -> kept t ->
  yields kept (fun _ => runtime_gone) (docker_step (DockerCleanup.destroy client_version runtime labels)) t.
Proof.
  intros Hl Hk. apply (yields_component (fun B c => Sys.OfDocker c) docker set_docker (docker_sem canonical device) quiet
    (fun _ s' => destroyed id (docker t) s') _ (fun r s' => forall u, r = Ok u -> nothing_left id s')); try done.
  - intros t1 t2 (Hd & _). by rewrite Hd.
  - intros t1 s' Hk1 Hs'. exact (kept_docker t t1 s' Hk Hk1 Hs').
  - intros t1 s' _. split; [apply repository_step_refl|by left].
  - intros _. apply runtime_gone_stable.
  - intros a t' _ Ha. by apply (Ha a).
  - rewrite <- Hl. eapply hoare_mono; [apply (destroy_spec canonical device labels client_version runtime (docker t))|].
    by intros r s' (_ & Hr & _).
Qed.

(** *** Looking for a runtime *)
Lemma docker_stable (P : DockerWorld -> Prop) : stable rely (fun t => P (docker t)).
Proof. intros t t' [Hd _]. by rewrite Hd. Qed.

(** What is known of the daemon, and of it when an inventory is empty. *)
Lemma yields_names (P P' : DockerWorld -> Prop) prefix format t :
  kept t -> P (docker t) ->
  (forall w out, inventory_told lossy (inventory_args prefix id format) w (Ok out) -> CliOutput.success out = true ->
    inventory_names (lossy (CliOutput.stdout out)) = ∅ -> P' w) ->
  yields kept (fun names t' => P (docker t') /\ (names = ∅ -> P' (docker t')))
    (docker_resource_names lossy prefix id format) t.
Proof.
  intros Hk HP Ht. apply (ensures_bind kept (fun out t' => P (docker t') /\ (CliOutput.success out = true ->
    inventory_names (lossy (CliOutput.stdout out)) = ∅ -> P' (docker t')))); [apply kept_stable| |].
  - apply (ensures_inv kept (fun t => kept t /\ P (docker t))); [by intros t' []|].
    apply ensures_ask_or; [apply stable_and; [apply kept_stable|apply docker_stable]|done|done| |].
    + intros out. apply (docker_stable (fun w => P w /\ (CliOutput.success out = true -> _ = ∅ -> P' w))).
    + intros t1 out t2 [_ H1] [-> Ho]. split; [done|]. by apply Ht.
  - intros out t1 H1 [H1' Ho]. apply ensures_guard; [apply kept_stable|done|]. intros Hs.
    apply ensures_ret; [apply kept_stable|apply (docker_stable (fun w => P w /\ (_ = ∅ -> P' w)))|done|auto].
Qed.

Definition no_containers (w : DockerWorld) := forall k c, containers w !! k = Some c -> owned id (Container.labels c) = false.
Definition no_networks (w : DockerWorld) := forall k l, networks w !! k = Some l -> owned id l = false.
Definition no_volumes (w : DockerWorld) := forall k l, DockerWorld.volumes w !! k = Some l -> owned id l = false.

Lemma yields_runtime_present t :
  kept t -> yields kept (fun present t' => present = false -> runtime_gone t') (runtime_present lossy id) t.
Proof.
  intros Hk. assert (forall b : bool, stable rely (fun t' => b = false -> runtime_gone t')) as Hst
    by (intros b; apply (docker_stable (fun w => b = false -> nothing_left id w))).
  apply (ensures_bind kept (fun names t' => True /\ (names = ∅ -> no_containers (docker t')))); [apply kept_stable| |].
  { apply (yields_names (fun _ => True)); [done..|]. intros w out Ho Hs Hn. exact ((proj1 (Ho _ _ _ out eq_refl eq_refl Hs Hn)) eq_refl). }
  intros cs t1 H1 [_ Hcs]. case_bool_decide as Hc; [|by apply ensures_ret; [apply kept_stable|apply Hst| |]].
  apply (ensures_bind kept (fun names t' => no_containers (docker t') /\ (names = ∅ -> no_networks (docker t'))));
    [apply kept_stable| |].
  { apply (yields_names no_containers); [done|auto|]. intros w out Ho Hs Hn. exact ((proj1 (proj2 (Ho _ _ _ out eq_refl eq_refl Hs Hn))) eq_refl). }
  intros ns t2 H2 [Hcs2 Hns]. case_bool_decide as Hn; [|by apply ensures_ret; [apply kept_stable|apply Hst| |]].
  apply (ensures_bind kept (fun names t' => (no_containers (docker t') /\ no_networks (docker t')) /\
    (names = ∅ -> no_volumes (docker t')))); [apply kept_stable| |].
  { apply (yields_names (fun w => no_containers w /\ no_networks w)); [done|auto|].
    intros w out Ho Hs Hv. exact ((proj2 (proj2 (Ho _ _ _ out eq_refl eq_refl Hs Hv))) eq_refl). }
  intros vs t3 H3 [[Hcs3 Hns3] Hvs]. apply ensures_ret; [apply kept_stable|apply Hst|done|].
  intros Hv%negb_false_iff%bool_decide_eq_true. split; [exact Hcs3|]. split; [exact (Hvs Hv)|exact Hns3].
Qed.

(** *** The four steps *)
Lemma all_passive_guard {A} (b : bool) e (f : unit -> sysio A) :
  (forall u, all_calls passive (f u)) -> all_calls passive (guard_or b e ≫= f).
Proof. intros Hf. apply all_calls_io_bind; [exact I|exact Hf]. Qed.

Lemma passive_spawned : all_calls passive spawned.
Proof. by split. Qed.

Lemma passive_harness receipt environment :
  all_calls passive (build_harness self execution receipt environment).
Proof.
  unfold build_harness, step_result, some_or, ask_or.
  repeat (apply all_calls_io_bind; [first [exact I|by split]|intros ?]); exact I.
Qed.

Lemma passive_stop : all_calls passive (stop_step self authority execution handles).
Proof.
  unfold stop_step, refuse. apply all_calls_io_bind; [exact I|intros _].
  destruct (Handles.receipt handles), (Handles.runtime handles), (Handles.worktree handles); try exact I.
  apply all_passive_guard. intros _. apply all_calls_io_bind; [apply passive_harness|intros harness]. by split.
Qed.

Lemma passive_connect receipt : all_calls passive (build_for_cleanup self execution receipt).
Proof.
  unfold build_for_cleanup, docker_step, run_docker. apply all_calls_io_bind; [|intros r; exact I].
  apply all_calls_of_proc, all_calls_embed. change (all_calls harmless
    (connect_for_cleanup (RuntimeFactory.socket (runtimes self)) receipt (Execution.labels execution))).
  unfold connect_for_cleanup, state_root_of, connect_with_state_root. harmless.
Qed.

Lemma yields_destroy_for_cleanup receipt t :
  receipt_execution receipt = id -> kept t ->
  yields kept (fun _ => runtime_gone) (destroy_for_cleanup client_version self execution receipt) t.
Proof.
  intros Hr Hk. apply ensures_skip; [apply kept_stable|apply passive_connect|done|].
  intros runtime t1 H1. by apply yields_docker_destroy.
Qed.

Lemma yields_revoke_step (P : Machine -> Prop) t :
  stable rely P -> kept t -> P t ->
  yields kept (fun _ t' => P t' /\ id ∉ credentials t') (revoke_credentials id) t.
Proof.
  intros HP Hk Ht. assert (stable rely (fun t' => P t' /\ id ∉ credentials t')) as Hst.
  { intros t1 t2 Hr [H1 Hn]. split; [by eapply HP|]. intros Hin. by apply Hn, Hr. }
  intros t1 H1. assert (kept t1 /\ P t1) as [Hk1 HP1].
  { eapply (stable_env (fun t => kept t /\ P t)); [apply stable_and; [apply kept_stable|done]|exact H1|done]. }
  intros r t2 Hr. pose proof (rely_step _ (Sys.Revoke id) _ _ _ eq_refl Hr) as [Hg Hrl]. split; [exact Hg|].
  assert (kept t2 /\ P t2) as [Hk2 HP2] by (split; [by apply Hg|by eapply HP]).
  intros t3 H3. split; [by eapply (stable_env kept), Hk2; [apply kept_stable|]|]. intros [] Ha.
  eapply (stable_env _ _ _ Hst); [exact H3|]. split; [done|]. destruct r as [[]|e]; [|done]. simpl in Hr. subst t2.
  by intros [_ ?%not_elem_of_singleton]%elem_of_difference.
Qed.

Lemma foreign_id_false i : negb (foreign_id id i) = true -> i = id.
Proof. unfold foreign_id. rewrite negb_involutive. apply bool_decide_eq_true. Qed.

Lemma our_receipt_of r : Handles.receipt handles = Some r -> receipt_execution r = id -> our_receipt = Some r.
Proof. intros Hr Hi. unfold our_receipt. rewrite Hr. simpl. by rewrite decide_True. Qed.

Lemma our_receipt_None : Handles.receipt handles = None -> our_receipt = None.
Proof. unfold our_receipt. by intros ->. Qed.

Lemma our_receipt_id r : our_receipt = Some r -> receipt_execution r = id.
Proof. unfold our_receipt. destruct (Handles.receipt handles); simpl; [|done]. by case_decide; [intros [= <-]|]. Qed.

Lemma our_worktree_of w : Handles.worktree handles = Some w -> Worktree.execution_id w = id -> our_worktree = Some w.
Proof. intros Hr Hi. unfold our_worktree. rewrite Hr. simpl. by rewrite decide_True. Qed.

Lemma our_worktree_None : Handles.worktree handles = None -> our_worktree = None.
Proof. unfold our_worktree. by intros ->. Qed.

Definition runtime_settled (t : Machine) : Prop := is_Some our_receipt -> runtime_gone t.

Lemma runtime_settled_stable : stable rely runtime_settled.
Proof. exact (docker_stable (fun w => is_Some our_receipt -> nothing_left id w)). Qed.

Lemma yields_runtime_step t :
  kept t -> yields kept (fun _ t' => runtime_settled t' /\ id ∉ credentials t')
    (runtime_step lossy client_version self authority execution handles) t.
Proof.
  intros Hk. apply (ensures_bind kept (fun _ => runtime_settled)); [apply kept_stable| |].
  2: { intros _ t1 H1 Hg. apply yields_revoke_step; [apply runtime_settled_stable|done|done]. }
  destruct (Handles.receipt handles) as [r|] eqn:E.
  2: { apply ensures_ret; [apply kept_stable|apply runtime_settled_stable|done|].
       unfold runtime_settled. rewrite our_receipt_None by done. by intros [? ?]. }
  apply ensures_guard; [apply kept_stable|done|]. intros Hr%foreign_id_false.
  apply (ensures_bind kept (fun present t' => present = false -> runtime_gone t'));
    [apply kept_stable|by apply yields_runtime_present|].
  intros [] t1 H1 Hp.
  - apply (ensures_weaken kept (fun _ => runtime_gone)); [by intros _ t2 _ Hg _|by apply yields_destroy_for_cleanup].
  - apply ensures_ret; [apply kept_stable|apply runtime_settled_stable|done|]. intros _. auto.
Qed.

(** *** The repository *)
Definition repository_settled (t : Machine) : Prop := is_Some our_worktree -> emptied (manager self) id (git t).

Lemma repository_settled_stable : stable rely repository_settled.
Proof. intros t t' (_ & _ & Hg & _) He Hw. by eapply apart_emptied; [exact Hg|auto]. Qed.

Lemma kept_git t s' :
  kept t -> (git_done d = true -> is_Some our_worktree -> emptied (manager self) id (git t) ->
    emptied (manager self) id s') -> kept (set_git s' t).
Proof. intros [Hc (H1 & H2 & H3)] Hs. split; [exact Hc|]. split_and!; [exact H1| |exact H3]. intros Hg Hw. apply Hs; auto. Qed.

(** What a passive program leaves as it is. *)
Lemma yields_tells {A} (P : Machine -> Prop) (m : sysio A) t :
  stable rely P -> all_calls passive m -> kept t -> P t -> yields kept (fun _ => P) m t.
Proof.
  intros HP Hm Hk Ht. apply (ensures_weaken kept (fun _ t' => kept t' /\ P t')); [by intros a t' _ []|].
  apply ensures_holds; [apply stable_and; [apply kept_stable|done]|by intros t' []|done|done].
Qed.

(** A program that only takes back or acknowledges. *)
Lemma yields_tidy {A} (p : gio A) t :
  all_calls (tidies (manager self) id) p -> kept t -> repository_settled t ->
  yields kept (fun _ => repository_settled) (git_step p) t.
Proof.
  intros Hp Hk Hs.
  apply (yields_component (fun B c => Sys.OfGit c) git set_git (git_sem owner_file)
    (apart (manager self) (own_worktree (manager self) id)) (tidy (manager self) id) _
    (fun _ w => is_Some our_worktree -> emptied (manager self) id w)); try done.
  - intros t1 t2 (_ & _ & Hg & _). by apply rtc_once.
  - intros t1 s' Hk1 [_ Ht]. by apply kept_git.
  - intros t1 s' [Ht _]. split; [done|by left].
  - intros _. apply repository_settled_stable.
  - apply (chl_stable (tidies (manager self) id)); [|..|done|exact Hs].
    + intros w1 w2 Ha He Hw. eapply apart_emptied; [exact Ha|auto].
    + intros B c w1 b w2 Hc Hsem He. apply (tidies_step _ _ _ (records_apart recorded)) in Hsem; [|done].
      split; [done|]. intros Hw. apply Hsem. auto.
Qed.

(** Removing the worktree, before the disposition says so. *)
Lemma yields_destroy_worktree worktree t :
  our_worktree = Some worktree -> git_done d = false -> kept t ->
  yields kept (fun _ => repository_settled) (git_step (GitCleanup.destroy replaced (manager self) worktree)) t.
Proof.
  intros Hw Hd Hk. pose proof (worktree_read recorded worktree Hw) as Hp.
  assert (Worktree.execution_id worktree = id) as Hi.
  { revert Hw. unfold our_worktree. destruct (Handles.worktree handles); simpl; [|done]. by case_decide; [intros [= <-]|]. }
  assert (Worktree.path worktree = repository) as Hpath by by rewrite Hp, Hi.
  assert (forall w1 w2, apart (manager self) (own_worktree (manager self) id) w1 w2 -> apart (manager self) worktree w1 w2)
    as Hap by by intros; apply apart_own with id.
  apply (yields_component (fun B c => Sys.OfGit c) git set_git (git_sem owner_file)
    (apart (manager self) (own_worktree (manager self) id)) (repository_step (manager self) id) _
    (fun r w => forall u, r = Ok u -> emptied (manager self) id w)); try done.
  - intros t1 t2 (_ & _ & Hg & _). by apply rtc_once.
  - intros t1 s' Hk1 _. apply kept_git; [done|]. by rewrite Hd.
  - intros t1 s' Ht. split; [done|by left].
  - intros _. apply repository_settled_stable.
  - intros a t' _ He _. by eapply He.
  - eapply chl_mono; [apply (yields_destroy owner_file replaced (manager self) worktree Hp)|].
    + rewrite Hpath. exact (records_apart recorded).
    + exact Hap.
    + intros w1 w2 Ha. eapply removal_repository; [done..|]. apply aside_step; [|done]. rewrite Hpath. exact (records_apart recorded).
    + intros w1 w2. by apply removal_repository.
    + intros r w [_ Hr] u Hu. apply gone_emptied. rewrite <- Hpath. by eapply Hr.
Qed.

Lemma yields_git_step t :
  git_done d = false -> kept t ->
  yields kept (fun _ => repository_settled) (git_cleanup_step replaced self authority execution layout handles) t.
Proof.
  intros Hd Hk. apply (ensures_bind kept (fun _ => repository_settled)); [apply kept_stable| |].
  - destruct (Handles.worktree handles) as [w|] eqn:E.
    2: { apply ensures_ret; [apply kept_stable|apply repository_settled_stable|done|].
         unfold repository_settled. rewrite our_worktree_None by done. by intros [? ?]. }
    apply ensures_guard; [apply kept_stable|done|]. intros Hw%foreign_id_false.
    apply ensures_skip; [apply kept_stable|apply passive_spawned|done|]. intros _ t1 H1.
    apply yields_destroy_worktree; [by apply our_worktree_of|done|done].
  - intros _ t1 H1 Hs. apply (ensures_bind kept (fun _ => repository_settled)); [apply kept_stable| |].
    + apply yields_tells; [apply repository_settled_stable|apply passive_spawned|done|done].
    + intros _ t2 H2 Hs2. apply yields_tidy; [|done|done].
      rewrite (repository_read recorded). apply tidies_recover, (labels_read recorded).
Qed.

(** *** The storage *)
Definition storage_settled (t : Machine) : Prop := forall r, our_receipt = Some r -> storage_gone r (storage t).

Lemma storage_settled_stable : stable rely storage_settled.
Proof. intros t t' (_ & [hs Hh] & _) Hs r Hr. rewrite Hh. by apply Hs. Qed.

(** What a call of the storage does to the host, kept while it does not say
    that the storage is gone. *)
Lemma kept_storage receipt t s' :
  our_receipt = Some receipt -> kept t -> storage_confined receipt (storage t) s' ->
  (if storage_done d then storage_gone receipt s' else in_release receipt layout s') -> kept (set_storage s' t).
Proof.
  intros Hr [[Hd Hs] (H1 & H2 & H3)] Hc Hi. split; [split; [exact Hd|]|split_and!; [exact H1|exact H2|]].
  - rewrite Hr in *. by eapply storage_confined_trans.
  - intros r Hr'. rewrite Hr in Hr'. by injection Hr' as <-.
Qed.

Lemma our_layout receipt :
  our_receipt = Some receipt -> ExecutionLayout.new (state_root self) (receipt_execution receipt) = Ok layout.
Proof. intros Hr. rewrite (our_receipt_id _ Hr). apply (layout_read recorded). Qed.

Lemma yields_release receipt t :
  our_receipt = Some receipt -> storage_done d = false -> kept t ->
  yields kept (fun _ => storage_settled) (System.storage_step (release (state_root self) receipt)) t.
Proof.
  intros Hr Hd Hk. pose proof (our_layout receipt Hr) as Hl. pose proof (receipt_read recorded receipt Hr) as Hv.
  apply (yields_component (fun B c => Sys.OfStorage c) storage set_storage world_sem quiet
    (fun w s' => in_release receipt layout s' /\ storage_confined receipt w s') _
    (fun r w => (in_release receipt layout w /\ forall u, r = Ok u -> physically_released receipt w) /\ True)); try done.
  - intros t1 t2 (_ & Hs & _). by rewrite Hs.
  - intros t1 s' Hk1 [Hi Hc]. apply (kept_storage receipt); [done..|]. by rewrite Hd.
  - intros t1 s' _. split; [apply repository_step_refl|by left].
  - intros _. apply storage_settled_stable.
  - intros a t' _ [[_ Hp] _] r Hr'. rewrite Hr in Hr'. injection Hr' as <-. destruct (Hp a eq_refl) as (_ & Hm & Hn). by split.
  - apply chl_and.
    + apply (hoare_release_phases (state_root self) receipt layout Hl Hv). destruct Hk as [_ (_ & _ & H3)].
      specialize (H3 receipt Hr). by rewrite Hd in H3.
    + apply (chl_calls (own_call receipt layout)); [|by eapply own_release|done].
      intros B c w b w' Hc Hs. by eapply own_call_confined.
Qed.

Lemma yields_ack_release receipt t :
  our_receipt = Some receipt -> storage_done d = true -> kept t ->
  yields kept (fun _ _ => True) (System.storage_step (ack_release (state_root self) receipt)) t.
Proof.
  intros Hr Hd Hk. pose proof (our_layout receipt Hr) as Hl.
  apply (yields_component (fun B c => Sys.OfStorage c) storage set_storage world_sem quiet
    (fun w s' => storage_confined receipt w s' /\ (storage_gone receipt w -> storage_gone receipt s')) _
    (fun _ _ => True)); try done.
  - intros t1 t2 (_ & Hs & _). by rewrite Hs.
  - intros t1 s' Hk1 [Hc Hg]. apply (kept_storage receipt); [done..|]. rewrite Hd. apply Hg.
    destruct Hk1 as [_ (_ & _ & H3)]. specialize (H3 receipt Hr). by rewrite Hd in H3.
  - intros t1 s' _. split; [apply repository_step_refl|by left].
  - apply (chl_calls (own_call receipt layout)); [|by eapply own_ack_release|done].
    intros B c w b w' Hc Hs. split; [by eapply own_call_confined|by eapply own_call_gone].
Qed.

Lemma yields_storage_step t :
  storage_done d = false -> kept t ->
  yields kept (fun _ => storage_settled) (storage_cleanup_step self authority handles) t.
Proof.
  intros Hd Hk. unfold storage_cleanup_step. destruct (Handles.receipt handles) as [r|] eqn:E.
  2: { apply ensures_ret; [apply kept_stable|apply storage_settled_stable|done|].
       intros r Hr. by rewrite our_receipt_None in Hr. }
  apply ensures_guard; [apply kept_stable|done|]. intros Hr%foreign_id_false.
  apply ensures_skip; [apply kept_stable|apply passive_spawned|done|]. intros _ t1 H1.
  apply yields_release; [by apply our_receipt_of|done|done].
Qed.
End From.

(** *** A step and its acknowledgment *)
Abbreviation yields t0 d := (ensures sem elsewhere (keeping t0 d)).

#[local] Existing Instance cleanup_rely.

Lemma yields_decoded {A} t0 d (R : A -> Machine -> Prop) (f : Handles -> sysio A) t :
  kept t0 d t -> yields t0 d (kept t0 d) R (f handles) t ->
  yields t0 d (kept t0 d) R (decode_handles value_error authority ≫= f) t.
Proof.
  intros Hk Hf. apply ensures_known; [apply kept_stable|done|]. rewrite (handles_read recorded). by intros h [= <-].
Qed.

Lemma yields_phase t0 d d' (P : Machine -> Prop) (m : sysio unit) t :
  (forall t', kept t0 d t' -> P t' -> settled d' t') ->
  yields t0 d (kept t0 d) (fun _ => P) m t -> yields t0 d (kept t0 d) settled (_ ← m; mret d') t.
Proof.
  intros HP Hm. apply (ensures_bind (kept t0 d) (fun _ => P)); [apply kept_stable|exact Hm|].
  intros _ t1 H1 Hp. apply ensures_ret; [apply kept_stable|apply settled_stable|done|auto].
Qed.

Lemma yields_step t0 d t : kept t0 d t -> yields t0 d (kept t0 d) settled (step d) t.
Proof.
  intros Hk. apply yields_decoded; [done|]. apply ensures_known; [apply kept_stable|done|]. rewrite (layout_read recorded).
  intros l [= <-]. destruct d; try (by apply ensures_throw; [apply kept_stable|]).
  - apply (yields_phase _ _ _ (fun _ => True)); [by intros t' [_ Hs] _|].
    apply yields_tells; [by intros ?|apply passive_stop|done|done].
  - eapply yields_phase; [|by apply yields_runtime_step]. intros t' [_ (_ & H2 & H3)] H1.
    split_and!; [intros _; exact H1|exact H2|exact H3].
  - eapply yields_phase; [|by apply yields_git_step]. intros t' [_ (H1 & _ & H3)] H2.
    split_and!; [exact H1|intros _; exact H2|exact H3].
  - eapply yields_phase; [|by apply yields_storage_step]. intros t' [_ (H1 & H2 & _)] H3.
    by split_and!.
Qed.

Lemma yields_ack_worktree t0 d t :
  git_done d = true -> kept t0 d t ->
  yields t0 d (kept t0 d) (fun _ _ => True) (ack_worktree self authority handles) t.
Proof.
  intros Hd Hk. unfold ack_worktree. destruct (Handles.worktree handles) as [w|] eqn:E.
  2: by apply ensures_ret; [apply kept_stable|..].
  apply ensures_guard; [apply kept_stable|done|]. intros Hw%foreign_id_false.
  apply ensures_skip; [apply kept_stable|apply passive_spawned|done|]. intros _ t1 H1.
  eapply ensures_weaken; [|apply yields_tidy; [by apply tidies_ack|done|]]; [done|].
  destruct H1 as [_ (_ & H2 & _)]. intros Hs. by apply H2.
Qed.

Lemma yields_ack_receipt t0 d t :
  storage_done d = true -> kept t0 d t ->
  yields t0 d (kept t0 d) (fun _ _ => True) (ack_receipt self authority handles) t.
Proof.
  intros Hd Hk. unfold ack_receipt. destruct (Handles.receipt handles) as [r|] eqn:E.
  2: by apply ensures_ret; [apply kept_stable|..].
  apply ensures_guard; [apply kept_stable|done|]. intros Hr%foreign_id_false.
  apply ensures_skip; [apply kept_stable|apply passive_spawned|done|]. intros _ t1 H1.
  apply yields_ack_release; [by apply our_receipt_of|done|done].
Qed.

Lemma yields_acknowledgment t0 d t : kept t0 d t -> yields t0 d (kept t0 d) (fun _ _ => True) (acknowledgment d) t.
Proof.
  intros Hk. apply yields_decoded; [done|].
  destruct d; try (by apply ensures_ret; [apply kept_stable|..]).
  - by apply yields_ack_worktree.
  - by apply yields_ack_receipt.
  - apply (ensures_bind (kept t0 _) (fun _ _ => True)); [apply kept_stable|by apply yields_ack_worktree|].
    intros _ t1 H1 _. by apply yields_ack_receipt.
Qed.

Lemma yields_exec {A} t0 d (p : sysio A) (R : A -> Machine -> Prop) t tr r t' :
  exec sem elsewhere p t tr r t' -> yields t0 d (kept t0 d) R p t -> kept t0 d t ->
  kept t0 d t' /\ Forall (fun x => cleanup_step x.1 x.2) tr /\ (forall a, r = Some (Ok a) -> R a t').
Proof.
  intros He Hy Hk. destruct (chl_exec _ _ _ _ _ _ _ _ _ He Hy) as [Ht HQ]. split_and!.
  - eapply exec_keeps; [exact He| | |exact Hk].
    + intros t1 t2 H12. by apply kept_stable, elsewhere_rely.
    + eapply Forall_impl; [exact Ht|]. by intros [t1 t2] [Hg _].
  - eapply Forall_impl; [exact Ht|]. by intros [t1 t2] [_ Hg].
  - intros a ->. by destruct (HQ _ eq_refl) as [_ HR]; apply HR.
Qed.

End Proofs.

Lemma machine_confined_refl t : confined t t.
Proof.
  split; [apply destroyed_refl|]. destruct our_receipt; [apply storage_confined_refl|].
  exists (holds (storage t)). by rewrite set_holds_same.
Qed.

(** *** The whole cleanup *)

(** What others do between two attempts: anything but label something with the
    execution, work in its repository, hold its storage or mint for it. *)
Definition storage_aside (r : AllocationReceipt) (w w' : World) : Prop :=
  journals w' !! record_file r = journals w !! record_file r /\
  tombstones w' !! record_file r = tombstones w !! record_file r /\
  mountpoints w' !! receipt_execution r = mountpoints w !! receipt_execution r /\
  (volumes w' !! identity_token (AllocationReceipt.backend r) = None <->
     volumes w !! identity_token (AllocationReceipt.backend r) = None) /\
  (forall name, lease_name layout = Ok name ->
     (name ∈ leases w -> name ∈ leases w') /\ (name ∈ shared_leases w' -> name ∈ shared_leases w)).

Definition others (t t' : Machine) : Prop :=
  (nothing_left id (docker t) -> nothing_left id (docker t')) /\
  (forall r, our_receipt = Some r -> storage_aside r (storage t) (storage t')) /\
  apart (manager self) (own_worktree (manager self) id) (git t) (git t') /\
  (id ∈ credentials t' -> id ∈ credentials t).

(** The cleanup of one execution: the disposition on record, and the host.  A
    step or an acknowledgment may end anywhere; the worker records the next
    disposition once a step has returned it, or dies before it does. *)
Inductive cleans : CleanupDisposition * Machine -> CleanupDisposition * Machine -> Prop :=
| Tried d t tr r t' : exec sem elsewhere (step d) t tr r t' -> cleans (d, t) (d, t')
| Advanced d t tr d' t' : exec sem elsewhere (step d) t tr (Some (Ok d')) t' -> cleans (d, t) (d', t')
| Acknowledged d t tr r t' : exec sem elsewhere (acknowledgment d) t tr r t' -> cleans (d, t) (d, t')
| Released t : cleans (CleanupDisposition.StorageReleased, t) (CleanupDisposition.ReservationReleased, t)
| Interfered d t t' : others t t' -> cleans (d, t) (d, t').

Lemma storage_aside_phases r w w' : storage_aside r w w' -> in_release r layout w -> in_release r layout w'.
Proof.
  intros (Hj & Ht & Hm & Hv & Hl).
  assert (leased layout w -> leased layout w') as Hleased.
  { intros (n & Hn & Hi & Ho). destruct (Hl n Hn) as [H1 H2]. exists n. split_and!; [done|by apply H1|]. intros Hin. by apply Ho, H2. }
  intros [Hp|[Hp|Hp]]; [left|right; left|right; right]; unfold receipt_execution in Hm.
  - destruct Hp as (Hu & Hjr & Hts & (v & Hvol & _) & Hmp). unfold tombstoned in *. rewrite <- Hj in Hjr. rewrite <- Ht in Hts.
    rewrite <- Hm in Hmp. split_and!; [auto|done|done| |done].
    destruct (volumes w' !! identity_token (AllocationReceipt.backend r)) as [v'|] eqn:Ev; [by exists v'|].
    by rewrite (proj1 Hv eq_refl) in Hvol.
  - destruct Hp as (Hu & Hts & Hmp & Hjr). unfold mountpoint_ok, tombstoned in *. rewrite <- Hj in Hjr. rewrite <- Ht in Hts.
    rewrite <- Hm in Hmp. split_and!; [auto|done| |done]. unfold mountpoint_ok. by case_match.
  - destruct Hp as (Hu & Hts & Hjr & Hmp & Hvol). unfold tombstoned in *. rewrite <- Hj in Hjr. rewrite <- Ht in Hts.
    rewrite <- Hm in Hmp. split_and!; [auto|done..|]. by apply Hv.
Qed.

Lemma others_settled d t t' : others t t' -> settled d t -> settled d t'.
Proof.
  intros (Hd & Hs & Hg & Hc) (H1 & H2 & H3). split_and!.
  - intros Hr. destruct (H1 Hr) as [Hn Hi]. split; [auto|]. intros Hin. by apply Hi, Hc.
  - intros Hr Hw. eapply apart_emptied; [exact Hg|auto].
  - intros r Hr. specialize (H3 r Hr). specialize (Hs r Hr). destruct (storage_done d).
    + destruct Hs as (_ & _ & Hm & Hv & _). destruct H3 as [Hm' Hv']. unfold storage_gone, receipt_execution in *. rewrite Hm. split; [done|by apply Hv].
    + by eapply storage_aside_phases.
Qed.

Lemma cleans_settled s s' : Recorded -> cleans s s' -> settled s.1 s.2 -> settled s'.1 s'.2.
Proof.
  intros Hrec Hc Hs. destruct Hc as [d t tr r t' He|d t tr d' t' He|d t tr r t' He|t|d t t' Ho]; simpl in *.
  - by destruct (yields_exec t d _ _ _ _ _ _ He (yields_step Hrec t d t (conj (machine_confined_refl t) Hs))
      (conj (machine_confined_refl t) Hs)) as ([_ ?] & _).
  - destruct (yields_exec t d _ _ _ _ _ _ He (yields_step Hrec t d t (conj (machine_confined_refl t) Hs))
      (conj (machine_confined_refl t) Hs)) as (_ & _ & HR). by apply HR.
  - by destruct (yields_exec t d _ _ _ _ _ _ He (yields_acknowledgment Hrec t d t (conj (machine_confined_refl t) Hs))
      (conj (machine_confined_refl t) Hs)) as ([_ ?] & _).
  - exact Hs.
  - by eapply others_settled.
Qed.

(** C8: The disposition on record never runs ahead of the host.  Start from an
    allocation in any phase of its release, and let the worker carry the cleanup
    through its phases: steps and acknowledgments whose calls fail, that are cut
    short anywhere and tried again, a worker that dies before it records the next
    disposition, and others who work elsewhere on the host meanwhile.  Once
    [RuntimeDestroyed] is on record no container, volume or network of the
    execution is left and its credential is revoked; from [GitRecoveredCleaned]
    on nothing of its repository is left; from [StorageReleased] on its volume
    and mountpoint are gone. *)
Theorem cleanup_never_ahead t0 d t :
  Recorded -> (forall r, our_receipt = Some r -> in_release r layout (storage t0)) ->
  rtc cleans (CleanupDisposition.CleanupPending, t0) (d, t) -> settled d t.
Proof.
  intros Hrec Hi Hc.
  assert (forall s s', rtc cleans s s' -> settled s.1 s.2 -> settled s'.1 s'.2) as Hall.
  { induction 1 as [|s1 s2 s3 H12 _ IH]; [done|]. intros Hs. by eapply IH, cleans_settled. }
  apply (Hall _ _ Hc). by split_and!; [..|exact Hi].
Qed.

(** C9: A cleanup keeps to its execution.  Wherever a step or an acknowledgment
    stops, the only containers, volumes and networks that are gone carry the
    execution's labels; of the storage only the records, the mountpoint and the
    volume of its receipt differ; and each of its steps changes files only below
    the execution's repository, by removing them, removes no record of another
    execution and revokes no other credential. *)
Theorem cleanup_keeps_to_execution d t tr t' :
  Recorded -> settled d t ->
  (exists r, exec sem elsewhere (step d) t tr r t') \/ (exists r, exec sem elsewhere (acknowledgment d) t tr r t') ->
  confined t t' /\ Forall (fun x => cleanup_step x.1 x.2) tr.
Proof.
  intros Hrec Hs Hx. pose proof (conj (machine_confined_refl t) Hs : kept t d t) as Hk. destruct Hx as [[r Hx]|[r Hx]].
  - by destruct (yields_exec t d _ _ _ _ _ _ Hx (yields_step Hrec t d t Hk) Hk) as ([? _] & ? & _).
  - by destruct (yields_exec t d _ _ _ _ _ _ Hx (yields_acknowledgment Hrec t d t Hk) Hk) as ([? _] & ? & _).
Qed.
End Cleanup.

(** ** The handles of an authority

    What [cleanup_handles] of [WorkerRun.v] writes to the row is what
    [handles_of] reads from it. *)
Definition handles_of_guard (execution : Execution) (g : CleanupGuard) : Handles :=
  {| Handles.receipt := CleanupGuard.receipt g; Handles.worktree := CleanupGuard.worktree g;
     Handles.runtime := CleanupGuard.environment g;
     Handles.runtime_selector := if CleanupGuard.runtime_created g then Some (Execution.labels execution) else None;
     Handles.session := CleanupGuard.session g |}.

Definition in_u64 (z : Z) : Prop := 0 <= z <= u64_max.

Lemma labels_read_back l : labels_of (labels_value l) = Some l.
Proof. by destruct l as [e w r [i|]]. Qed.

Lemma backend_read_back b : backend_of (backend_value b) = Some b.
Proof. by destruct b. Qed.

Lemma bind_read_back b : bind_of (bind_value b) = Some b.
Proof. by destruct b. Qed.

Lemma req_Some {A} key (d : Value -> option A) v w a : value_get key v = Some w -> d w = Some a -> req key d v = Some a.
Proof. unfold req. by intros ->. Qed.

Lemma receipt_read_back r : in_u64 (AllocationReceipt.reserved_bytes r) -> receipt_of (receipt_value r) = Some r.
Proof.
  intros Hb. destruct r as [v l b p k key pool backend bind]. simpl in Hb. unfold receipt_of.
  rewrite (req_Some "labels" _ _ (labels_value l) l); [|done|by apply labels_read_back].
  rewrite (req_Some "backend" _ _ (backend_value backend) backend); [|done|by apply backend_read_back].
  rewrite (req_Some "docker_bind" _ _ (bind_value bind) bind); [|done|by apply bind_read_back].
  rewrite (req_Some "reserved_bytes" _ _ (Number b) b); [done|done|].
  unfold as_u64, try_from, in_u64 in *. assert ((0 <=? b) && (b <=? u64_max) = true) as -> by lia. done.
Qed.

Lemma mapM_read_back {A} (enc : A -> Value) (dec : Value -> option A) l :
  (forall a, dec (enc a) = Some a) -> mapM dec (enc <$> l) = Some l.
Proof. intros Hd. apply mapM_Some_2, Forall2_fmap_l, Forall_Forall2_diag, Forall_true. exact Hd. Qed.

Lemma environment_read_back e : environment_of (runtime_value e) = Some e.
Proof.
  destruct e as [id network container [cid daemon labels mounts] services volumes credentials]. unfold environment_of.
  rewrite (req_Some "labels" _ _ (labels_value labels) labels); [|done|by apply labels_read_back].
  rewrite (req_Some "mounts" _ _ (Array (mount_value <$> mounts)) mounts);
    [|done|by apply mapM_read_back; intros []].
  rewrite (req_Some "service_containers" _ _ (Array (Str <$> services)) services); [|done|by apply mapM_read_back].
  rewrite (req_Some "volumes" _ _ (Array (Str <$> volumes)) volumes); [|done|by apply mapM_read_back].
  by destruct credentials.
Qed.

Lemma opt_read_back {A} key (enc : A -> Value) (dec : Value -> option A) o v :
  (forall a, o = Some a -> dec (enc a) = Some a /\ enc a <> Null) -> value_get key v = Some (value_of_option enc o) ->
  opt key dec v = Some o.
Proof.
  intros Hd Hv. unfold opt. rewrite Hv. destruct o as [a|]; [|done]. destruct (Hd a eq_refl) as [Ha Hn].
  simpl. by destruct (enc a); simpl; rewrite ?Ha.
Qed.

(** C36: The handles of a cleanup survive the database: what the worker writes to
    the authority's row, [handles_of] reads back, the receipt with its backend
    identity, the worktree, the container with its mounts and the session.  (The
    bytes of a receipt are 64-bit, as its type has it.) *)
Theorem durable_handles_round_trip execution g :
  (forall r, CleanupGuard.receipt g = Some r -> in_u64 (AllocationReceipt.reserved_bytes r)) ->
  handles_of (cleanup_handles execution g) = Some (handles_of_guard execution g).
Proof.
  intros Hr. unfold cleanup_handles, handles_of.
  rewrite (opt_read_back "receipt" receipt_value _ (CleanupGuard.receipt g));
    [|intros r Hg; split; [by apply receipt_read_back, Hr|done]|done].
  rewrite (opt_read_back "worktree" worktree_value _ (CleanupGuard.worktree g)); [|by intros []|done].
  rewrite (opt_read_back "runtime" runtime_value _ (CleanupGuard.environment g));
    [|intros e _; split; [apply environment_read_back|done]|done].
  rewrite (opt_read_back "runtime_selector" labels_value _
    (if CleanupGuard.runtime_created g then Some (Execution.labels execution) else None));
    [|intros l _; split; [apply labels_read_back|done]|by destruct (CleanupGuard.runtime_created g)].
  by rewrite (opt_read_back "session" session_value _ (CleanupGuard.session g)); [|intros []|].
Qed.

Lemma durable_handles_round_trip_witness :
  handles_of (cleanup_handles (run_progress ExecutionState.Running)
    (CleanupGuard.set_receipt DockerDestroy.ex_receipt (CleanupGuard.new (run_progress ExecutionState.Running)))) =
  Some (handles_of_guard (run_progress ExecutionState.Running)
    (CleanupGuard.set_receipt DockerDestroy.ex_receipt (CleanupGuard.new (run_progress ExecutionState.Running)))).
Proof.
  apply durable_handles_round_trip. intros r [= <-]. vm_compute. by split.
Defined.

(** ** A host that works *)
Definition out (text : string) : CliOutput :=
  {| CliOutput.success := true; CliOutput.stdout := text; CliOutput.stderr := "" |}.

(** The command line answers an inventory by a line for a kind of object there is. *)
Definition inventory (args : list string) (w : DockerWorld) : CliOutput :=
  match args with
  | kind :: _ =>
      if String.eqb kind "ps" then out (if bool_decide (containers w = ∅) then "" else "container")
      else if String.eqb kind "network" then out (if bool_decide (networks w = ∅) then "" else "network")
      else out (if bool_decide (DockerWorld.volumes w = ∅) then "" else "volume")
  | [] => out ""
  end.

Definition daemon : DockerDestroy.Host :=
  {| DockerDestroy.daemon_id := "daemon"; DockerDestroy.repository := ""; DockerDestroy.output := "" |}.

Definition idle_artifact (B : Type) (c : artifact_call B) : B :=
  match c in Art.artifact_call B return B with
  | Art.NewUuid => ""%string
  | Art.UtcNow => 0
  | Art.SpawnBlocking => Err ""%string
  | Art.Query _ | Art.Transaction _ => Err (StoreError.Conflict "")
  | Art.CreateDirAll _ | Art.SymlinkMetadata _ | Art.CreateNew _ | Art.OpenRead _ | Art.WriteAll _ _
  | Art.ReadToEnd _ | Art.SyncAll _ | Art.FileMetadata _ | Art.SetPermissions _ _ | Art.HardLink _ _ => Err NOENT
  end.

Definition idle (B : Type) (c : system_call B) (t : Machine) : B * Machine :=
  match c in Sys.system_call B return B * Machine with
  | Sys.OfDocker c => let r := DockerDestroy.serve daemon _ c (docker t) in (r.1, set_docker r.2 t)
  | Sys.OfGit c => let r := ex_serve false _ c (git t) in (r.1, set_git r.2 t)
  | Sys.OfStorage c => let r := steady _ c (storage t) in (r.1, set_storage r.2 t)
  | Sys.OfArtifact c => (idle_artifact _ c, t)
  | Sys.HarnessStart _ _ | Sys.HarnessFork _ _ _ => (Err (HarnessError.Start ""), t)
  | Sys.HarnessResume _ _ | Sys.HarnessStop _ _ => (Ok tt, t)
  | Sys.HarnessPoll _ _ => (Ok [], t)
  | Sys.RecoverAbandoned _ => (Ok tt, set_storage (set_holds [] (storage t)) t)
  | Sys.VerifiedVerify _ | Sys.VerifiedDirectory _ _ => (Ok tt, t)
  | Sys.Mint _ => (Err (RuntimeError.Unavailable ""), t)
  | Sys.Revoke id => (Ok tt, set_credentials (credentials t ∖ {[id]}) t)
  | Sys.Spawned => (Ok tt, t)
  | Sys.RunDocker args => (Ok (inventory args (docker t)), t)
  | Sys.ReadFile _ | Sys.Canonicalize _ | Sys.DeviceOf _ | Sys.Statvfs _ | Sys.SymlinkMetadata _ => (Err NOENT, t)
  | Sys.IsFile _ | Sys.PathExists _ => (false, t)
  | Sys.CreateDir _ | Sys.CreateDirAll _ | Sys.SetPermissions _ _ | Sys.WriteNew _ _ | Sys.Rename _ _
  | Sys.SyncDirectory _ => (Ok tt, t)
  | Sys.Now => (0, t)
  | Sys.GetRuntime _ | Sys.GetHarness _ | Sys.GetSecret _ => (Some None, t)
  | Sys.PutRuntime _ _ | Sys.PutHarness _ _ | Sys.PutSecret _ _ => (Some tt, t)
  end.

Definition same_text (s : string) : string := s.

Lemma listed_empty {A} (m : gmap string A) `{!Decision (m = ∅)} line :
  inventory_names line <> ∅ ->
  inventory_names (same_text (CliOutput.stdout (out (if bool_decide (m = ∅) then "" else line)))) = ∅ -> m = ∅.
Proof. intros Hl. by case_bool_decide. Qed.

Lemma inventory_tells args w : inventory_told same_text args w (Ok (inventory args w)).
Proof.
  intros prefix id format o -> [= <-] _. intros Hn.
  assert (forall line, line ∈ ["container"; "network"; "volume"]%string -> inventory_names line <> ∅) as Hline.
  { intros line Hin Hl. apply (f_equal elements) in Hl. set_unfold in Hin.
    destruct Hin as [-> |[-> |[-> |[]]]]; by vm_compute in Hl. }
  split_and!; intros -> k a Ha.
  - assert (containers w = ∅) as E by (eapply (listed_empty _ "container"); [apply Hline; set_solver|exact Hn]). by rewrite E in Ha.
  - assert (networks w = ∅) as E by (eapply (listed_empty _ "network"); [apply Hline; set_solver|exact Hn]). by rewrite E in Ha.
  - assert (DockerWorld.volumes w = ∅) as E by (eapply (listed_empty _ "volume"); [apply Hline; set_solver|exact Hn]). by rewrite E in Ha.
Qed.

Lemma idle_sem B (c : system_call B) t :
  system_sem (fun p => p) (fun _ => 0) of_json same_text B c t (idle B c t).1 (idle B c t).2.
Proof.
  destruct c; simpl; try done.
  - split; [apply DockerDestroy.serve_sem|done].
  - split; [apply git_serve_sem|done].
  - split; [apply steady_sem|done].
  - by exists [].
  - by left.
  - split; [done|apply inventory_tells].
Qed.

(** ** The cleanup of an execution on it *)
Definition ex_execution : Execution := {|
  Execution.id := "e-1"; Execution.role := Role.Implementation; Execution.state := ExecutionState.Running;
  Execution.manifest := Execution.manifest (run_progress ExecutionState.Running);
  Execution.worker_id := Some "w-1"%string; Execution.attempt_id := Some "a-1"%string; Execution.session_id := None;
  Execution.worktree_path := Some ex_repository; Execution.labels := GitWorld.ex_labels;
  Execution.created_at := 5; Execution.updated_at := 120; Execution.result := None |}.

Definition ex_request : AllocationRequest :=
  {| AllocationRequest.labels := GitWorld.ex_labels; AllocationRequest.disk_gib := 2 |}.
Definition ex_allocation := run steady (allocate ex_cache ex_request) empty_world.
Definition ex_receipt : AllocationReceipt := {|
  AllocationReceipt.api_version := "autospec.dev/execution-storage/v1alpha1";
  AllocationReceipt.labels := GitWorld.ex_labels; AllocationReceipt.reserved_bytes := 2147483648;
  AllocationReceipt.mount_path := "/var/lib/autospec/executions/e-1"; AllocationReceipt.backend_kind := "lvm";
  AllocationReceipt.backend_key := "e-1"; AllocationReceipt.pool_identity := "pool";
  AllocationReceipt.backend := BackendIdentity.Lvm "vg" "vg-uuid" "lv" "lv-uuid" "fs" "token";
  AllocationReceipt.docker_bind := {|
    DockerBindProof.daemon_id := "daemon"; DockerBindProof.verifier := "verifier"; DockerBindProof.method_version := "v1";
    DockerBindProof.source_path := "/var/lib/autospec/executions/e-1"; DockerBindProof.filesystem_id := "fs" |} |}.

Definition ex_guard : CleanupGuard :=
  CleanupGuard.set_worktree ex_worktree (CleanupGuard.set_receipt ex_receipt (CleanupGuard.new ex_execution)).
Definition ex_authority : CleanupAuthority := {|
  CleanupAuthority.execution_id := "e-1"; CleanupAuthority.attempt_id := "a-1"; CleanupAuthority.worker_id := "w-1";
  CleanupAuthority.phase := "cleanup_pending"; CleanupAuthority.handles := cleanup_handles ex_execution ex_guard;
  CleanupAuthority.created_at := 5; CleanupAuthority.updated_at := 120 |}.
Definition ex_handles : Handles := handles_of_guard ex_execution ex_guard.
Definition ex_self : SystemExecutionLifecycle := {|
  state_root := ex_cache; manager := ex_manager;
  runtimes := RuntimeFactory.new None "docker" DockerDestroy.ex_trusted;
  harnesses := HarnessFactory.new None "docker" "pi" [] []; evidence := ContentAddressed ex_cache |}.
Definition ex_machine : Machine := {|
  docker := DockerDestroy.ex_before; git := GitWorld.ex_world ex_checkout; storage := ex_allocation.2;
  credentials := {["e-1"; "e-2"]}%string |}.
Definition no_error : Value -> string := fun _ => ""%string.

Definition ex_step (d : CleanupDisposition) : sysio CleanupDisposition :=
  @cleanup_authority_step binary_serde git_serde ex_replaced same_text no_error "1.44" ex_self ex_authority ex_execution d.
Definition after (d : CleanupDisposition) (t : Machine) : Machine := (run idle (ex_step d) t).2.
Definition ex_cleaned : Machine :=
  after CleanupDisposition.GitRecoveredCleaned (after CleanupDisposition.RuntimeDestroyed
    (after CleanupDisposition.RuntimeStopped (after CleanupDisposition.CleanupPending ex_machine))).

Definition ex_layout : ExecutionLayout :=
  match ExecutionLayout.new ex_cache "e-1" with Ok layout => layout | Err _ => example_layout end.

Lemma ex_our_receipt : our_receipt ex_authority ex_handles = Some ex_receipt.
Proof. by vm_compute. Qed.

Lemma ex_our_worktree : our_worktree ex_authority ex_handles = Some ex_worktree.
Proof. by vm_compute. Qed.

Lemma ex_recorded : Recorded ex_self ex_authority ex_execution ex_handles ex_layout.
Proof.
  split; try by vm_compute.
  - intros r. rewrite ex_our_receipt. intros [= <-]. by vm_compute.
  - intros w. rewrite ex_our_worktree. intros [= <-]. by vm_compute.
Qed.

Abbreviation ex_cleans := (@cleans (fun p => p) (fun _ => 0) of_json ex_replaced same_text no_error "1.44"%string
  binary_serde git_serde ex_self ex_authority ex_execution ex_handles ex_layout).
Abbreviation ex_settled := (@settled binary_serde ex_self ex_authority ex_handles ex_layout).
Abbreviation ex_exec := (exec (system_sem (fun p => p) (fun _ => 0) of_json same_text)
  (elsewhere ex_self ex_authority)).

Lemma ex_step_runs d t : exists tr, ex_exec (ex_step d) t tr (Some (run idle (ex_step d) t).1) (after d t).
Proof. apply run_exec. intros B c t'. apply idle_sem. Qed.

Lemma ex_advances d d' t : (run idle (ex_step d) t).1 = Ok d' -> ex_cleans (d, t) (d', after d t).
Proof. intros Hd. destruct (ex_step_runs d t) as [tr He]. rewrite Hd in He. by eapply Advanced. Qed.

Lemma ex_ready r : our_receipt ex_authority ex_handles = Some r -> in_release r ex_layout (storage ex_machine).
Proof.
  rewrite ex_our_receipt. intros [= <-]. apply ready_phases. split_and!.
  - apply leased_intro with "e-1.lease"%string; [by vm_compute| |].
    + refine (bool_decide_eq_true_1 ("e-1.lease"%string ∈ leases (storage ex_machine)) _). by vm_compute.
    + refine (bool_decide_eq_false_1 ("e-1.lease"%string ∈ shared_leases (storage ex_machine)) _). by vm_compute.
  - by vm_compute.
  - left. by vm_compute.
  - eexists _, _. by split; vm_compute.
  - eexists. by split; vm_compute.
Qed.

(** All four steps, and what the last disposition says then. *)
Lemma cleanup_never_ahead_witness :
  rtc ex_cleans (CleanupDisposition.CleanupPending, ex_machine) (CleanupDisposition.StorageReleased, ex_cleaned) /\
  ex_settled CleanupDisposition.StorageReleased ex_cleaned.
Proof.
  assert (rtc ex_cleans (CleanupDisposition.CleanupPending, ex_machine) (CleanupDisposition.StorageReleased, ex_cleaned))
    as Hc.
  { do 4 (eapply rtc_l; [apply ex_advances; by vm_compute|]). apply rtc_refl. }
  split; [exact Hc|].
  exact (cleanup_never_ahead _ _ _ _ _ _ _ _ _ _ _ _ _ _ _ ex_recorded ex_ready Hc).
Defined.

(** The runtime step removes the execution's container and network, not the
    foreign container. *)
Lemma cleanup_keeps_to_execution_witness :
  confined ex_authority ex_handles ex_machine (after CleanupDisposition.RuntimeStopped ex_machine) /\
  is_Some (containers (docker ex_machine) !! "c1"%string) /\
  containers (docker (after CleanupDisposition.RuntimeStopped ex_machine)) !! "c1"%string = None /\
  size (containers (docker (after CleanupDisposition.RuntimeStopped ex_machine))) = 1%nat.
Proof.
  split_and!; [|eexists; by vm_compute|by vm_compute|by vm_compute].
  destruct (ex_step_runs CleanupDisposition.RuntimeStopped ex_machine) as [tr He].
  refine (proj1 (@cleanup_keeps_to_execution (fun p => p) (fun _ => 0) of_json ex_replaced same_text no_error "1.44"%string
    binary_serde git_serde ex_self ex_authority ex_execution ex_handles ex_layout CleanupDisposition.RuntimeStopped ex_machine tr
    (after CleanupDisposition.RuntimeStopped ex_machine) ex_recorded _ (or_introl (ex_intro _ _ He)))).
  split; [intros Hd; discriminate Hd|split; [intros Hd; discriminate Hd|exact ex_ready]].
Defined.
