(* ===== verification/Credentials.v ===== *)
(** * The local credential broker ([runtime-docker/src/credentials.rs])

    [LocalCredentialBroker] keeps one credential per execution, a private file
    [<state root>/executions/<id>/credentials/inferweave.credential] that holds a
    token and its expiry.  It is published by a hard link from a candidate file
    beside it, and [mint] and [revoke] remove the candidates a crash has left.
    The model of the code is followed by the directory it works on, shared by
    brokers of several processes, and by what minting and revoking establish. *)

From Stdlib Require Import Ascii.
From S2P Require Import Prelude Core Effects StorageModel FileSystem Pinned Docker Sha256.

















(** ** Calls *)
Module Cred.
Inductive cred_call : Type -> Type :=
| Canonicalize (path : string) : cred_call (result Errno string)
| SetPermissions (path : string) (mode : Z) : cred_call (result Errno unit)
| SymlinkMetadata (path : string) : cred_call (result Errno Metadata)
| ReadToString (path : string) : cred_call (result string string)   (* open, read_to_string *)
| Entropy : cred_call (result Errno string)                         (* 32 bytes of /dev/urandom *)
| CreateNew (path : string) : cred_call (result Errno Z)            (* create_new, mode 0600 *)
| WriteAll (file : Z) (bytes : string) : cred_call (result Errno unit)
| SyncAll (file : Z) : cred_call (result Errno unit)
| HardLink (original link : string) : cred_call (result Errno unit)
| RemoveFile (path : string) : cred_call (result Errno unit)
| ReadDir (path : string) : cred_call (result Errno (list (result Errno string)))
| SyncDirectory (path : string) : cred_call (result Errno unit)
| Now : cred_call Timestamp
(* the locks of this process, [None] when one is poisoned *)
| Registry : cred_call (option unit)
| Lock (path : string) : cred_call (option unit)
| Unlock (path : string) : cred_call unit.
End Cred.
Abbreviation cred_call := Cred.cred_call.
Abbreviation crio := (io cred_call RuntimeError).

Definition provisioning (what : string) (e : Errno) : RuntimeError :=
  RuntimeError.Provisioning (what +:+ ": " +:+ errno_text e).
Definition resource_limit (what : string) : RuntimeError := RuntimeError.ResourceLimit what.
Definition cr {A} (c : cred_call (result Errno A)) (what : string) : crio A := ask_or c (provisioning what).

Definition CREDENTIAL_FILE : string := "inferweave.credential".

Definition validate_execution_id (id : ExecutionId) : result RuntimeError unit :=
  if str_is_empty id || (63 <? String.length id)%nat ||
     negb (string_forallb (fun b => is_ascii_lowercase b || is_ascii_digit b || (b =? "-")%char) id) ||
     negb match id with String b _ => is_ascii_alphanumeric b | EmptyString => false end
  then Err (resource_limit "credential execution id is not a safe path component") else Ok tt.

Record LocalCredentialBroker := { state_root : string; ttl : Z }.

(** [LocalCredentialBroker::new]. *)
Definition new (root : string) (ttl : Z) : crio LocalCredentialBroker :=
  _ ← guard_or (negb (ttl <=? 0)) (RuntimeError.Provisioning "credential TTL must be positive");
  root ← cr (Cred.Canonicalize root) "canonicalize credential state root";
  mret {| state_root := root; ttl := ttl |}.

Section Broker.
(** chrono's rendering of a time and its parser. *)
Context (to_rfc3339 : Timestamp -> string) (parse_datetime : string -> option Timestamp).
Context (self : LocalCredentialBroker).

Definition execution_root (id : ExecutionId) : string := join (join (state_root self) "executions") id.
Definition credential_directory (id : ExecutionId) : string := join (execution_root id) "credentials".
Definition credential_path (id : ExecutionId) : result RuntimeError string :=
  _ ← validate_execution_id id; Ok (join (credential_directory id) CREDENTIAL_FILE).

Definition verified_parent (id : ExecutionId) : crio string :=
  _ ← ret_result (credential_path id);
  let expected := credential_directory id in
  parent ← cr (Cred.Canonicalize expected) "canonicalize execution credential directory";
  root ← cr (Cred.Canonicalize (execution_root id)) "canonicalize execution root";
  _ ← guard_or (negb (negb (path_eqb parent expected) || negb (path_starts_with parent root) || path_eqb root parent))
        (resource_limit "credential path escaped its exact execution root");
  _ ← cr (Cred.SetPermissions parent 448) "secure credential directory";
  mret parent.

(** The expiry of the credential at a path, [None] when there is none or when it
    has expired. *)
Definition read_live (path : string) : crio (option Timestamp) :=
  found ← ask (Cred.SymlinkMetadata path);
  match found with
  | Err NOENT => mret None
  | Err e => throw (provisioning "inspect execution credential" e)
  | Ok metadata =>
      _ ← guard_or (negb (Metadata.is_symlink metadata || negb (Metadata.is_file metadata)))
            (resource_limit "execution credential is not a regular file");
      _ ← guard_or (Z.land (Metadata.mode metadata) 63 =? 0)
            (resource_limit "execution credential permissions are not private");
      text ← ask_or (Cred.ReadToString path)
               (fun e => RuntimeError.Provisioning ("read execution credential: " +:+ e));
      line ← some_or (head (drop 1 (lines text))) (resource_limit "credential expiry is missing");
      expires_at ← some_or (parse_datetime line) (resource_limit "credential expiry is invalid");
      now ← ask Cred.Now;
      mret (if now <? expires_at then Some expires_at else None)
  end.

Definition hex_text (bytes : string) : string :=
  foldr (fun byte text => (hex_pad 2 (Z.to_N byte) +:+ text)%string) ""%string (byte_values bytes).

Definition random_hex : crio string :=
  entropy ← ask_or Cred.Entropy
    (fun e => RuntimeError.Unavailable ("secure operating-system entropy: " +:+ errno_text e));
  mret (hex_text entropy).

Definition candidate_name (suffix : string) : string := "." +:+ CREDENTIAL_FILE +:+ "." +:+ suffix +:+ ".tmp".

(** An error after the candidate was made drops it, which removes the file. *)
Definition or_drop {A} (candidate : string) (m : crio A) : crio A :=
  r ← outcome_of m;
  match r with
  | Ok a => mret a
  | Err e => _ ← ask (Cred.RemoveFile candidate); throw e
  end.

Definition credential_text (token : string) (expires_at : Timestamp) : string :=
  token +:+ String "010" (to_rfc3339 expires_at +:+ String "010" "").

(** [create_candidate]: the path of the candidate. *)
Definition create_candidate (parent : string) (expires_at : Timestamp) : crio string :=
  token ← random_hex;
  suffix ← random_hex;
  let path := join parent (candidate_name suffix) in
  file ← cr (Cred.CreateNew path) "create execution credential";
  or_drop path (
    _ ← cr (Cred.WriteAll file (credential_text token expires_at)) "write execution credential";
    _ ← cr (Cred.SyncAll file) "persist execution credential";
    mret path).

(** [CredentialCandidate::remove]; one that fails leaves the candidate armed. *)
Definition remove_candidate (candidate operation : string) : crio unit :=
  or_drop candidate (ask_or (Cred.RemoveFile candidate) (provisioning operation)).

Definition sync_directory (parent operation : string) : crio unit := cr (Cred.SyncDirectory parent) operation.

Definition is_candidate (name : string) : bool :=
  match strip_prefix ("." +:+ CREDENTIAL_FILE +:+ ".") name ≫= strip_suffix ".tmp" with
  | Some entropy => (String.length entropy =? 64)%nat && string_forallb is_hex_digit entropy
  | None => false
  end.

Fixpoint scavenge_entries (parent : string) (entries : list (result Errno string)) : crio unit :=
  match entries with
  | [] => mret tt
  | entry :: entries =>
      name ← ret_result (map_err (provisioning "read credential candidate entry") entry);
      _ ← (if negb match from_utf8 name with Some name => is_candidate name | None => false end then mret tt
           else
             metadata ← cr (Cred.SymlinkMetadata (join parent name)) "inspect credential candidate";
             _ ← guard_or (negb (Metadata.is_symlink metadata || negb (Metadata.is_file metadata)))
                   (resource_limit "credential candidate authority is not a regular file");
             ask_or (Cred.RemoveFile (join parent name))
               (fun e => RuntimeError.Cleanup ("remove credential crash candidate: " +:+ errno_text e)));
      scavenge_entries parent entries
  end.

Definition scavenge_candidates (parent : string) : crio unit :=
  entries ← cr (Cred.ReadDir parent) "enumerate credential candidates";
  _ ← scavenge_entries parent entries;
  sync_directory parent "sync credential candidate cleanup".

(** [execution_lock] and the guard that is held to the end. *)
Definition with_execution_lock {A} (id : ExecutionId) (body : crio A) : crio A :=
  path ← ret_result (credential_path id);
  registry ← ask Cred.Registry;
  _ ← some_or registry (RuntimeError.Unavailable "credential lock registry poisoned");
  guard ← ask (Cred.Lock path);
  _ ← some_or guard (RuntimeError.Unavailable "execution credential lock poisoned");
  r ← outcome_of body;
  _ ← ask (Cred.Unlock path);
  ret_result r.

Definition publish (parent path : string) (expires_at : Timestamp) : crio ExecutionCredentials :=
  candidate ← create_candidate parent expires_at;
  linked ← ask (Cred.HardLink candidate path);
  match linked with
  | Ok _ =>
      _ ← remove_candidate candidate "remove linked credential candidate";
      _ ← sync_directory parent "sync credential directory";
      mret {| ExecutionCredentials.path := path; ExecutionCredentials.expires_at := expires_at |}
  | Err EXIST =>
      _ ← remove_candidate candidate "remove losing credential candidate";
      live ← read_live path;
      expires_at ← some_or live (resource_limit "concurrent credential winner is expired");
      mret {| ExecutionCredentials.path := path; ExecutionCredentials.expires_at := expires_at |}
  | Err e => or_drop candidate (throw (provisioning "publish execution credential" e))
  end.

Definition mint (id : ExecutionId) : crio ExecutionCredentials :=
  with_execution_lock id (
    parent ← verified_parent id;
    _ ← scavenge_candidates parent;
    let path := join parent CREDENTIAL_FILE in
    live ← read_live path;
    match live with
    | Some expires_at =>
        mret {| ExecutionCredentials.path := path; ExecutionCredentials.expires_at := expires_at |}
    | None =>
        found ← ask (Cred.SymlinkMetadata path);
        _ ← guard_or (negb (is_ok found))
              (resource_limit "execution credential is expired and remains bound until cleanup");
        now ← ask Cred.Now;
        publish parent path (now + ttl self)
    end).

Definition revoke (id : ExecutionId) : crio unit :=
  with_execution_lock id (
    path ← ret_result (credential_path id);
    verified ← outcome_of (verified_parent id);
    parent ← match verified with
             | Ok parent => mret (Some parent)
             | Err e =>
                 found ← ask (Cred.SymlinkMetadata path);
                 match found with Err NOENT => mret None | _ => throw e end
             end;
    match parent with
    | None => mret tt
    | Some parent =>
        _ ← scavenge_candidates parent;
        found ← ask (Cred.SymlinkMetadata path);
        match found with
        | Err NOENT => mret tt
        | Err e => throw (RuntimeError.Cleanup ("inspect execution credential for revocation: " +:+ errno_text e))
        | Ok metadata =>
            _ ← guard_or (negb (Metadata.is_symlink metadata || negb (Metadata.is_file metadata)))
                  (resource_limit "execution credential revocation authority is not a regular file");
            removed ← ask (Cred.RemoveFile path);
            match removed with
            | Ok _ =>
                r ← outcome_of (sync_directory parent "sync credential revocation");
                ret_result (map_err (fun e => RuntimeError.Cleanup (RuntimeError.to_string e)) r)
            | Err NOENT => mret tt
            | Err e => throw (RuntimeError.Cleanup ("revoke execution credential: " +:+ errno_text e))
            end
        end
    end).
End Broker.

(** ** The directory

    [names] are directory entries, keyed by path, [files] what they refer to; a
    descriptor stays good when its name goes.  [ours] are the candidates this
    call has made. *)
Module Keeper.
Record File := { mode : Z; content : string }.
Record Dir := { names : gmap string Z; files : gmap Z File; clock : Timestamp; ours : gmap string Z }.

Definition set_names (ns : gmap string Z) (w : Dir) : Dir :=
  {| names := ns; files := files w; clock := clock w; ours := ours w |}.
Definition set_files (fs : gmap Z File) (w : Dir) : Dir :=
  {| names := names w; files := fs; clock := clock w; ours := ours w |}.
Definition set_clock (t : Timestamp) (w : Dir) : Dir :=
  {| names := names w; files := files w; clock := t; ours := ours w |}.

Definition PRIVATE_FILE : Z := 33152.                   (* 0o100600 *)
Definition normal (path : string) : Prop := path_of (components path) = path.

Definition created (path : string) (i : Z) (w : Dir) : Dir :=
  {| names := <[path := i]> (names w); files := <[i := {| mode := PRIVATE_FILE; content := "" |}]> (files w);
     clock := clock w; ours := <[path := i]> (ours w) |}.
Definition written (i : Z) (bytes : string) (w : Dir) : Dir :=
  set_files (alter (fun f => {| mode := mode f; content := content f +:+ bytes |}) i (files w)) w.

Definition sem (B : Type) (c : cred_call B) (w : Dir) : B -> Dir -> Prop :=
  match c in Cred.cred_call B return B -> Dir -> Prop with
  | Cred.Canonicalize _ => fun r w' => w' = w /\ forall q, r = Ok q -> normal q
  | Cred.SymlinkMetadata p => fun r w' => w' = w /\
      match r with
      | Ok m => exists i f, names w !! p = Some i /\ files w !! i = Some f /\ Metadata.mode m = mode f
      | Err NOENT => names w !! p = None
      | Err _ => True
      end
  | Cred.ReadToString p => fun r w' => w' = w /\
      forall text, r = Ok text -> exists i f, names w !! p = Some i /\ files w !! i = Some f /\ text = content f
  | Cred.Entropy => fun r w' => w' = w /\ forall bytes, r = Ok bytes -> String.length bytes = 32%nat
  | Cred.CreateNew p => fun r w' =>
      match r with
      | Ok i => names w !! p = None /\ files w !! i = None /\ (forall q, names w !! q <> Some i) /\ w' = created p i w
      | Err _ => w' = w
      end
  | Cred.WriteAll i bytes => fun r w' =>
      match r with
      | Ok _ => w' = written i bytes w
      | Err _ => exists part, w' = written i part w
      end
  | Cred.HardLink p q => fun r w' =>
      match r with
      | Ok _ => names w !! q = None /\ exists i, names w !! p = Some i /\ w' = set_names (<[q := i]> (names w)) w
      | Err _ => w' = w
      end
  | Cred.RemoveFile p => fun r w' =>
      match r with
      | Ok _ => w' = set_names (delete p (names w)) w
      | Err NOENT => w' = w /\ names w !! p = None
      | Err _ => w' = w
      end
  | Cred.Now => fun t w' => clock w <= t /\ w' = set_clock t w
  | _ => fun _ w' => w' = w
  end.
End Keeper.
Import Keeper.

(** The name of a candidate of some broker. *)
Definition candidate_path (p : string) : Prop := exists d name, p = join d name /\ is_candidate name = true.

Section Keep.
Context (to_rfc3339 : Timestamp -> string) (parse_datetime : string -> option Timestamp).
Context (self : LocalCredentialBroker) (id : ExecutionId).

(** A credential a broker has written out in full: private, a token of 64
    hexadecimal digits, and an expiry. *)
Definition complete (f : File) : Prop :=
  mode f = PRIVATE_FILE /\
  exists token expires_at, is_digest token = true /\ content f = credential_text to_rfc3339 token expires_at.

(** What minting does to names that are not candidates: nothing bound goes or
    changes, and what becomes bound is complete. *)
Definition minting (w w' : Dir) : Prop :=
  (forall p i, ~ candidate_path p -> names w !! p = Some i -> names w' !! p = Some i /\ files w' !! i = files w !! i) /\
  (forall p i, ~ candidate_path p -> names w !! p = None -> names w' !! p = Some i ->
     exists f, files w' !! i = Some f /\ complete f) /\
  clock w <= clock w'.

(** Other brokers, of this process or of others, mint and scavenge; the names of
    our candidates come of random bytes, so they may remove them, but do not make,
    link or write them. *)
Definition peers (w w' : Dir) : Prop :=
  minting w w' /\ ours w' = ours w /\
  (forall p i, ours w !! p = Some i ->
     (names w' !! p = names w !! p \/ names w' !! p = None) /\ files w' !! i = files w !! i /\
     forall q, names w' !! q = Some i -> names w !! q = Some i).

(** Where a call for [id] may change a name. *)
Definition our_path : string := join (credential_directory self id) CREDENTIAL_FILE.
Definition within (w w' : Dir) : Prop :=
  forall p, names w' !! p <> names w !! p ->
  p = our_path \/ exists name, p = join (credential_directory self id) name /\ is_candidate name = true.
End Keep.

(** chrono's rendering of a time: one line of text that its parser reads back. *)
Class Rfc3339 (to_rfc3339 : Timestamp -> string) (parse_datetime : string -> option Timestamp) : Prop := {
  rfc3339_read_back t : parse_datetime (to_rfc3339 t) = Some t;
  rfc3339_one_line t : ~ has_char "010" (to_rfc3339 t) /\ strip_suffix (String "013" "") (to_rfc3339 t) = None
}.

(** ** Lemmas *)
Lemma hex_text_digest bytes : String.length bytes = 32%nat -> is_digest (hex_text bytes) = true.
Proof.
  intros Hl. assert (forall l, String.length (foldr (fun byte text => (hex_pad 2 (Z.to_N byte) +:+ text)%string) ""%string l)
    = (2 * List.length l)%nat) as Hlen.
  { induction l as [|b l IH]; [done|]. cbn [foldr]. rewrite string_length_app, hex_pad_length, IH. simpl. lia. }
  assert (forall l, string_forallb is_hex_digit
    (foldr (fun byte text => (hex_pad 2 (Z.to_N byte) +:+ text)%string) ""%string l) = true) as Hhex.
  { induction l as [|b l IH]; [done|]. cbn [foldr]. by rewrite string_forallb_app, hex_pad_hex, IH. }
  unfold is_digest, hex_text. rewrite Hlen, Hhex. unfold byte_values. rewrite !length_map.
  assert (forall s, List.length (bytes_of s) = String.length s) as Hb by (induction s as [|c s IH]; [done|]; unfold bytes_of in *; simpl; by rewrite IH). by rewrite Hb, Hl.
Qed.

Lemma is_candidate_name suffix : is_digest suffix = true -> is_candidate (candidate_name suffix) = true.
Proof.
  intros Hs. unfold is_candidate, candidate_name.
  assert (("." +:+ CREDENTIAL_FILE +:+ "." +:+ suffix +:+ ".tmp")%string =
    (("." +:+ CREDENTIAL_FILE +:+ ".") +:+ (suffix +:+ ".tmp"))%string) as -> by done.
  rewrite strip_prefix_app. simpl mbind. by rewrite strip_suffix_app.
Qed.

Lemma candidate_last name : is_candidate name = true -> last_byte name = Some "p"%char.
Proof.
  unfold is_candidate. destruct (strip_prefix _ name) as [rest|] eqn:Ep; [|done]. simpl mbind.
  destruct (strip_suffix ".tmp" rest) as [entropy|] eqn:Es; [|done]. intros _.
  apply strip_prefix_Some in Ep as ->. apply strip_suffix_Some in Es as ->.
  rewrite !last_byte_app; try done; by apply string_app_ne_nil.
Qed.

Lemma credential_not_candidate d : ~ candidate_path (join d CREDENTIAL_FILE).
Proof.
  intros (d' & name & He%(f_equal last_byte) & Hn). rewrite last_byte_join in He by done.
  rewrite last_byte_join, (candidate_last _ Hn) in He by (intros ->; by apply candidate_last in Hn). done.
Qed.

Lemma normal_eqb p q : normal p -> normal q -> path_eqb p q = true -> p = q.
Proof. unfold normal. intros Hp Hq He%bool_decide_eq_true. congruence. Qed.

(** ** What both calls do first *)
Definition plain_call (B : Type) (c : cred_call B) : Prop :=
  match c with
  | Cred.CreateNew _ | Cred.WriteAll _ _ | Cred.HardLink _ _ | Cred.RemoveFile _ => False
  | _ => True
  end.

Section Shared.
Context {env G rely : Dir -> Dir -> Prop} {P : forall B, cred_call B -> Prop} `{!Rely sem env G rely P}.
Context (plain : forall B c, plain_call B c -> P B c) (I : Dir -> Prop) (stable_I : stable rely I).
Context (self : LocalCredentialBroker) (id : ExecutionId).
Abbreviation yields := (ensures sem env G I).

Lemma yields_verified_parent w :
  normal (credential_directory self id) -> I w -> yields (fun parent _ => parent = credential_directory self id) (verified_parent self id) w.
Proof.
  intros normal_directory Hw. unfold verified_parent. apply ensures_known; [exact stable_I|done|].
  intros _ _. cbv zeta.
  eapply (ensures_bind _ (fun parent _ => normal parent)); [exact stable_I| |].
  { apply ensures_ask_or; [exact stable_I|done|by apply plain|intros ?; apply stable_const|].
    intros s1 q s2 _ [_ Hq]. by apply Hq. }
  intros parent s1 H1 Hn. apply ensures_skip; [exact stable_I|by split; [apply plain|]|done|].
  intros root s2 H2. apply ensures_guard; [exact stable_I|done|].
  intros [[He _]%orb_false_iff _]%negb_true_iff%orb_false_iff. apply negb_false_iff in He.
  apply ensures_skip; [exact stable_I|by split; [apply plain|]|done|]. intros _ s3 H3.
  apply ensures_ret; [exact stable_I|apply stable_const|done|by apply normal_eqb].
Qed.

(** The lock is given back on every path. *)
Lemma yields_locked {A} (R : A -> Dir -> Prop) (body : crio A) w :
  I w -> (forall a, stable rely (R a)) -> (forall w, I w -> yields R body w) ->
  yields R (with_execution_lock self id body) w.
Proof.
  intros Hw HR Hbody. unfold with_execution_lock. apply ensures_known; [exact stable_I|done|]. intros q _.
  apply ensures_skip; [exact stable_I|by split; [apply plain|]|done|]. intros registry s1 H1.
  apply ensures_known; [exact stable_I|done|]. intros _ _.
  apply ensures_skip; [exact stable_I|by split; [apply plain|]|done|]. intros lock s2 H2.
  apply ensures_known; [exact stable_I|done|]. intros _ _.
  eapply ensures_bind; [exact stable_I|apply ensures_outcome; [exact stable_I|exact HR|by apply Hbody]|].
  intros r s3 H3 Hr. set (I' := fun w => I w /\ forall a, r = Ok a -> R a w).
  assert (stable rely I') as Hs'.
  { apply stable_and; [exact stable_I|]. intros s s' Hp Hs a Ha. by eapply HR, Hs. }
  apply (ensures_inv _ I'); [by intros ? []|]. apply ensures_skip; [done|by split; [apply plain|]|done|].
  intros _ s4 [H4 Hr4]. apply ensures_result; [done|done|]. intros a ->. split; [apply HR|by apply Hr4].
Qed.
End Shared.

(** *** Expiry *)
Definition expiry_of (parse_datetime : string -> option Timestamp) (text : string) : option Timestamp :=
  head (drop 1 (lines text)) ≫= parse_datetime.

Lemma expiry_of_text to_rfc3339 parse_datetime `{!Rfc3339 to_rfc3339 parse_datetime} token t :
  is_digest token = true -> expiry_of parse_datetime (credential_text to_rfc3339 token t) = Some t.
Proof.
  intros [_ Hh]%andb_true_iff. destruct (rfc3339_one_line t) as [Hn Hc]. unfold expiry_of, credential_text, lines.
  assert (~ has_char "010" token) as Ht by by apply (forallb_no_char is_hex_digit).
  rewrite split_field by done. rewrite split_field by done. simpl. rewrite Hc. simpl. apply rfc3339_read_back.
Qed.

Section Mint.
Context (to_rfc3339 : Timestamp -> string) (parse_datetime : string -> option Timestamp).
Context `{!Rfc3339 to_rfc3339 parse_datetime} (self : LocalCredentialBroker) (id : ExecutionId).
Context (normal_directory : normal (credential_directory self id)) (t0 : Timestamp).
Abbreviation path := (our_path self id).
Abbreviation minting := (minting to_rfc3339).
Abbreviation complete := (complete to_rfc3339).
Abbreviation peers := (peers to_rfc3339).

(** A credential that is bound to the path and can be read back. *)
Definition bound (e : Timestamp) (w : Dir) : Prop :=
  exists i f, names w !! path = Some i /\ files w !! i = Some f /\ Z.land (mode f) 61440 = 32768 /\
    Z.land (mode f) 63 = 0 /\ expiry_of parse_datetime (content f) = Some e.

Definition guard (w w' : Dir) : Prop := minting w w' /\ within self id w w'.
Definition since (w : Dir) : Prop := t0 <= clock w.

Definition quiet_call (B : Type) (c : cred_call B) : Prop :=
  match c with
  | Cred.RemoveFile p => exists name, p = join (credential_directory self id) name /\ is_candidate name = true
  | c => plain_call _ c
  end.

Lemma minting_names w ns :
  (forall p, ~ candidate_path p -> ns !! p = names w !! p) -> minting w (set_names ns w).
Proof.
  intros Hn. split; [|split; [|by simpl]]; intros p i Hp H; [by simpl; rewrite (Hn p Hp)|].
  simpl. intros H'. rewrite (Hn p Hp) in H'. congruence.
Qed.

Lemma minting_same w w' : names w' = names w -> files w' = files w -> clock w <= clock w' -> minting w w'.
Proof. intros Hn Hf Hc. split; [|split; [|done]]; intros p i _ H; rewrite Hn, ?Hf; [done|congruence]. Qed.

#[local] Instance mint_rely : Rely sem peers guard peers quiet_call.
Proof.
  split; [done|]. intros B c w b w' Hc Hs.
  assert (names w' = names w -> files w' = files w -> ours w' = ours w -> clock w <= clock w' ->
    guard w w' /\ peers w w') as Hsame.
  { intros Hn Hf Ho Hk. split; (split; [by apply minting_same|]).
    - intros p Hp. by rewrite Hn in Hp.
    - split; [done|]. intros p i _. rewrite Hn, Hf. split_and!; [by left|done|done]. }
  assert (w' = w -> guard w w' /\ peers w w') as Heq by (intros ->; by apply Hsame).
  destruct c; simpl in Hc, Hs; try done; try (by apply Heq); try (by destruct Hs as [-> _]; apply Heq).
  - destruct Hc as (name & -> & Hn). set (p := join (credential_directory self id) name) in *.
    assert (w' = w \/ w' = set_names (delete p (names w)) w) as [->| ->]; [|by apply Heq|].
    { destruct b as [u|[]]; [by right|left..]; [by destruct Hs|done..]. }
    assert (minting w (set_names (delete p (names w)) w)) as Hm.
    { apply minting_names. intros q Hq. apply lookup_delete_ne. intros <-. apply Hq. by exists (credential_directory self id), name. }
    split; (split; [done|]).
    + intros q Hq. right. exists name. split; [|done]. destruct (decide (q = p)) as [->|Hne]; [done|].
      simpl in Hq. by rewrite lookup_delete_ne in Hq.
    + split; [done|]. intros q i Hi. simpl. split_and!; [|done|].
      * destruct (decide (q = p)) as [->|Hne]; [right; apply lookup_delete_eq|left; by apply lookup_delete_ne].
      * intros q'. by intros [_ ?]%lookup_delete_Some.
  - destruct Hs as [Hk ->]. by apply Hsame.
Qed.

Lemma stable_since : stable peers since.
Proof. intros w w' ((_ & _ & Hk) & _) Hs. unfold since in *. lia. Qed.

Lemma stable_names p i f : ~ candidate_path p ->
  stable peers (fun w => names w !! p = Some i /\ files w !! i = Some f).
Proof. intros Hp w w' ((Hb & _ & _) & _) [Hn Hf]. destruct (Hb p i Hp Hn) as [? ->]. done. Qed.

Lemma our_path_bound : ~ candidate_path path.
Proof. apply credential_not_candidate. Qed.

Lemma stable_bound e : stable peers (bound e).
Proof.
  intros w w' Hr (i & f & Hn & Hf & H). destruct (stable_names path i f our_path_bound w w' Hr (conj Hn Hf)).
  by exists i, f.
Qed.


Lemma plain_quiet B (c : cred_call B) : plain_call B c -> quiet_call B c.
Proof. by destruct c. Qed.

Abbreviation yields := (ensures sem peers guard since).

Lemma stable_all {A} (o : option A) (R : A -> Dir -> Prop) :
  (forall a, stable peers (R a)) -> stable peers (fun w => forall a, o = Some a -> R a w).
Proof. intros HR w w' Hw Ho a Ha. by eapply HR, Ho. Qed.

Definition live (e : Timestamp) (w : Dir) : Prop := bound e w /\ t0 < e.

Lemma stable_live e : stable peers (live e).
Proof. apply stable_and; [apply stable_bound|apply stable_const]. Qed.

Lemma yields_read_live w :
  since w -> yields (fun o w => forall e, o = Some e -> live e w) (read_live parse_datetime path) w.
Proof.
  intros Hw. unfold read_live.
  apply (ensures_bind _ (fun found w => forall m, found = Ok m ->
    exists i f, (names w !! path = Some i /\ files w !! i = Some f) /\ Metadata.mode m = mode f)); [apply stable_since| |].
  { apply ensures_ask; [apply stable_since|done..| |].
    - intros a s s' Hr Ha m Hm. destruct (Ha m Hm) as (i & f & Hb & He). exists i, f.
      split; [|done]. by eapply (stable_names path i f our_path_bound).
    - intros s1 a s2 _ [-> Ha] m ->. destruct Ha as (i & f & Hn & Hf & Hm). by exists i, f. }
  intros found s1 H1 Hfound. destruct found as [m|[]]; [|by apply ensures_ret; [apply stable_since|apply stable_all, stable_live|..]
    |by apply ensures_throw; [apply stable_since|]..].
  destruct (Hfound m eq_refl) as (i & f & Hb & Hm).
  apply ensures_guard; [apply stable_since|done|]. intros Hk%negb_true_iff%orb_false_iff.
  apply ensures_guard; [apply stable_since|done|]. intros Hp%Z.eqb_eq. destruct Hk as [_ Hk%negb_false_iff].
  set (I' := fun w => since w /\ (names w !! path = Some i /\ files w !! i = Some f)).
  assert (stable peers I') as Hs' by (apply stable_and; [apply stable_since|apply stable_names, our_path_bound]).
  apply (ensures_inv _ I'); [by intros ? []|].
  apply (ensures_bind _ (fun text _ => text = content f)); [done| |].
  { apply ensures_ask_or; [done|done|done|intros ?; apply stable_const|].
    intros s2 text s3 (_ & Hn & Hf) [-> Ht]. destruct (Ht text eq_refl) as (i' & f' & Hn' & Hf' & ->). congruence. }
  intros text s2 H2 ->. apply ensures_known; [done|done|]. intros line Hl.
  apply ensures_known; [done|done|]. intros e He.
  apply (ensures_bind _ (fun now _ => t0 <= now)); [done| |].
  { apply ensures_ask; [done|done|done|intros ?; apply stable_const|]. intros s3 now s4 [Hc _] [Hn _]. unfold since in Hc. lia. }
  intros now s3 [H3 [Hn3 Hf3]] Hnow. apply ensures_ret; [done|apply stable_all, stable_live|done|].
  intros e' He'. destruct (Z.ltb_spec now e); [|done]. injection He' as <-. split; [|lia].
  exists i, f. apply bool_decide_eq_true in Hk. unfold Metadata.file_type in Hk. rewrite Hm in Hk, Hp.
  split_and!; try done.
  - destruct (Z.eqb_spec (Z.land (mode f) 61440) 32768); [done|]. by repeat case_match.
  - unfold expiry_of. destruct (head _) as [l|]; [|done]. injection Hl as ->. simpl. by destruct (parse_datetime line); simplify_eq/=.
Qed.

Lemma quiet_remove suffix : is_digest suffix = true ->
  quiet_call _ (Cred.RemoveFile (join (credential_directory self id) (candidate_name suffix))).
Proof. intros Hs. exists (candidate_name suffix). split; [done|by apply is_candidate_name]. Qed.

Lemma quiet_scavenge : all_calls quiet_call (scavenge_candidates (credential_directory self id)).
Proof.
  unfold scavenge_candidates. apply all_calls_io_bind; [by split|]. intros entries.
  apply all_calls_io_bind; [|intros ?; by split].
  induction entries as [|entry entries IH]; cbn [scavenge_entries]; [done|].
  apply all_calls_io_bind; [done|]. intros name. apply all_calls_io_bind; [|done].
  destruct (match from_utf8 name with Some name => is_candidate name | None => false end) eqn:Hn; [|done]. simpl negb. cbv iota.
  apply all_calls_io_bind; [by split|]. intros m. apply all_calls_io_bind; [by unfold guard_or, ret_result, check; case_match|].
  intros _. split; [|by intros []]. exists name. split; [done|].
  unfold from_utf8 in Hn. by destruct (utf8_valid (bytes_of name)).
Qed.

(** Dropping a candidate touches nothing else. *)
Lemma yields_or_drop {A} (R : A -> Dir -> Prop) candidate (m : crio A) w :
  quiet_call _ (Cred.RemoveFile candidate) -> (forall a, stable peers (R a)) -> yields R m w -> yields R (or_drop candidate m) w.
Proof.
  intros Hc HR Hm. unfold or_drop. eapply ensures_bind; [apply stable_since|apply ensures_outcome; [apply stable_since|exact HR|exact Hm]|].
  intros [a|e] s1 H1 Ha; [by apply ensures_ret; [apply stable_since|apply HR|done|apply Ha]|].
  apply ensures_skip; [apply stable_since|by split|done|]. intros _ s2 H2. apply ensures_throw; [apply stable_since|done].
Qed.

(** A candidate of ours, with what has been written to it. *)
Definition draft (p : string) (i : Z) (w : Dir) : Prop :=
  candidate_path p /\ ours w !! p = Some i /\ (names w !! p = Some i \/ names w !! p = None) /\
  forall q, names w !! q = Some i -> q = p.
Definition drafted (p : string) (i : Z) (f : File) (w : Dir) : Prop := draft p i w /\ files w !! i = Some f.

Lemma stable_draft p i : stable peers (draft p i).
Proof.
  intros w w' (_ & Ho & Hr) (Hc & Hi & Hn & Hq). destruct (Hr p i Hi) as (Hn' & _ & Hq').
  split_and!; [done|by rewrite Ho| |by auto].
  destruct Hn' as [->|?]; [done|by right].
Qed.

Lemma stable_drafted p i f : stable peers (drafted p i f).
Proof.
  intros w w' Hr [Hd Hf]. split; [by eapply stable_draft|]. destruct Hr as (_ & _ & Hr), Hd as (_ & Hi & _).
  destruct (Hr p i Hi) as (_ & -> & _). done.
Qed.

Definition ready (e : Timestamp) (p : string) (w : Dir) : Prop :=
  quiet_call _ (Cred.RemoveFile p) /\
  exists i f, drafted p i f w /\ complete f /\ expiry_of parse_datetime (content f) = Some e.

Lemma stable_ready e p : stable peers (ready e p).
Proof. intros w w' Hr (Hq & i & f & Hd & H). split; [done|]. exists i, f. split; [by eapply stable_drafted|done]. Qed.

Lemma minting_draft p i (f : File) w fs : draft p i w -> fs = <[i := f]> (files w) -> minting w (set_files fs w).
Proof.
  intros (Hc & _ & _ & Hq) ->. split; [|split; [|by simpl]]; intros q j Hnc H; simpl; [|congruence].
  split; [done|]. apply lookup_insert_ne. intros <-. apply Hnc. by rewrite (Hq q H).
Qed.

Lemma guard_refl w : guard w w.
Proof. split; [by apply minting_same|by intros p []]. Qed.

Lemma quiet_removal p what : quiet_call _ (Cred.RemoveFile p) -> all_calls quiet_call (remove_candidate p what).
Proof.
  intros Hp. unfold remove_candidate, or_drop.
  apply all_calls_io_bind; [apply all_calls_outcome_of; by split; [|intros []]|]. intros [[]|e]; [done|].
  apply all_calls_io_bind; [by split|done].
Qed.

Lemma create_step p i w : candidate_path p -> (exists name, p = join (credential_directory self id) name /\ is_candidate name = true) ->
  names w !! p = None -> files w !! i = None -> (forall q, names w !! q <> Some i) ->
  guard w (created p i w) /\ drafted p i {| mode := PRIVATE_FILE; content := "" |} (created p i w).
Proof.
  intros Hc Hn Hp Hi Hq. split; [split|split; [split; [done|]|apply lookup_insert_eq]].
  - split; [|split; [|by simpl]]; intros q j Hnc H; simpl; (destruct (decide (q = p)) as [->|Hne]; [done|]).
    + rewrite !lookup_insert_ne; [done| |done]. intros <-. by apply (Hq q).
    + rewrite lookup_insert_ne by done. congruence.
  - intros q Hne. right. destruct (decide (q = p)) as [->|?]; [done|]. simpl in Hne. by rewrite lookup_insert_ne in Hne.
  - simpl. rewrite !lookup_insert_eq. split_and!; [done|by left|]. intros q.
    destruct (decide (q = p)) as [->|Hne]; [done|]. rewrite lookup_insert_ne by done. intros H. by apply Hq in H.
Qed.

Lemma written_step p i bytes w : draft p i w -> files w !! i = Some {| mode := PRIVATE_FILE; content := "" |} ->
  guard w (written i bytes w) /\ drafted p i {| mode := PRIVATE_FILE; content := bytes |} (written i bytes w).
Proof.
  intros Hd Hf.
  assert (alter (fun f => {| mode := mode f; content := content f +:+ bytes |}) i (files w) =
          <[i := {| mode := PRIVATE_FILE; content := bytes |}]> (files w)) as Ha.
  { apply map_eq. intros j. destruct (decide (j = i)) as [->|Hne].
    - by rewrite lookup_alter_eq, Hf, lookup_insert_eq.
    - by rewrite lookup_alter_ne, lookup_insert_ne. }
  unfold written. rewrite Ha. split; [split; [by eapply minting_draft|by intros q []]|]. split; [done|]. apply lookup_insert_eq.
Qed.

Lemma yields_create e w :
  since w -> yields (ready e) (create_candidate to_rfc3339 (credential_directory self id) e) w.
Proof.
  intros Hw. unfold create_candidate.
  assert (forall w, since w -> yields (fun text _ => is_digest text = true) random_hex w) as Hrandom.
  { intros w1 H1. unfold random_hex. apply (ensures_bind _ (fun bytes _ => String.length bytes = 32%nat)); [apply stable_since| |].
    - apply ensures_ask_or; [apply stable_since|done|done|intros ?; apply stable_const|]. intros s1 b s2 _ [_ Hb]. by apply Hb.
    - intros bytes s1 Hs1 Hb. apply ensures_ret; [apply stable_since|apply stable_const|done|by apply hex_text_digest]. }
  eapply ensures_bind; [apply stable_since|by apply Hrandom|]. intros token s1 H1 Ht.
  eapply ensures_bind; [apply stable_since|by apply Hrandom|]. intros suffix s2 H2 Hx. cbv zeta.
  pose proof (quiet_remove suffix Hx) as Hq. set (p := join (credential_directory self id) (candidate_name suffix)) in *.
  assert (candidate_path p) as Hp by (exists (credential_directory self id), (candidate_name suffix); split; [done|by apply is_candidate_name]).
  apply (ensures_bind _ (fun i => drafted p i {| mode := PRIVATE_FILE; content := "" |})); [apply stable_since| |].
  { apply (ensures_change_or _ since); [apply stable_since..|intros; apply stable_drafted|done|].
    intros s3 r s4 H3 Hr. destruct r as [i|err]; simpl in Hr; [|subst s4; split_and!; [apply guard_refl|done|done]].
    destruct Hr as (Hn & Hf & Hi & ->). destruct (create_step p i s3 Hp Hq Hn Hf Hi) as [Hg Hd].
    split_and!; [done|done|]. by intros ? [= <-]. }
  intros i s3 H3 Hd. set (text := credential_text to_rfc3339 token e).
  apply yields_or_drop; [done|intros; apply stable_ready|].
  apply (ensures_bind _ (fun _ => drafted p i {| mode := PRIVATE_FILE; content := text |})); [apply stable_since| |].
  { apply (ensures_change_or _ (fun w => since w /\ drafted p i {| mode := PRIVATE_FILE; content := "" |} w)).
    - apply stable_since.
    - apply stable_and; [apply stable_since|apply stable_drafted].
    - intros; apply stable_drafted.
    - done.
    - intros s4 r s5 [H4 [Hd4 Hf4]] Hr. assert (exists part, s5 = written i part s4 /\ (r = Ok tt -> part = text)) as (part & -> & Hpart).
      { destruct r as [[]|err]; [by exists text|]. destruct Hr as [part ->]. by exists part. }
      destruct (written_step p i part s4 Hd4 Hf4) as [Hg Hdr]. split_and!; [done|done|]. intros [] ->. by rewrite <- Hpart. }
  intros _ s4 H4 Hd4. set (I' := fun w => since w /\ drafted p i {| mode := PRIVATE_FILE; content := text |} w).
  assert (stable peers I') as Hs' by (apply stable_and; [apply stable_since|apply stable_drafted]).
  apply (ensures_inv _ I'); [by intros ? []|]. apply ensures_skip; [done|by split|done|]. intros _ s5 [H5 Hd5].
  apply ensures_ret; [done|apply stable_ready|done|]. split; [done|]. exists i, {| mode := PRIVATE_FILE; content := text |}.
  split_and!; [done|split; [done|by exists token, e]|by apply expiry_of_text].
Qed.

Definition minted (c : ExecutionCredentials) (w : Dir) : Prop :=
  ExecutionCredentials.path c = path /\ live (ExecutionCredentials.expires_at c) w.

Lemma stable_minted c : stable peers (minted c).
Proof. apply stable_and; [apply stable_const|apply stable_live]. Qed.

Lemma link_step p i e f w : drafted p i f w -> complete f -> expiry_of parse_datetime (content f) = Some e ->
  names w !! path = None ->
  guard w (set_names (<[path := i]> (names w)) w) /\ bound e (set_names (<[path := i]> (names w)) w).
Proof.
  intros [Hd Hf] Hc He Hn. split; [split|].
  - split; [|split; [|by simpl]]; intros q j Hnc H; simpl.
    + by rewrite lookup_insert_ne by (intros <-; congruence).
    + destruct (decide (q = path)) as [->|Hne]; [rewrite lookup_insert_eq; intros [= <-]; by exists f|].
      rewrite lookup_insert_ne by done. congruence.
  - intros q Hq. left. destruct (decide (q = path)) as [->|Hne]; [done|]. simpl in Hq. by rewrite lookup_insert_ne in Hq.
  - exists i, f. simpl. rewrite lookup_insert_eq. destruct Hc as (Hm & _). by rewrite Hm.
Qed.

Lemma yields_publish e w :
  since w -> t0 < e -> yields minted (publish to_rfc3339 parse_datetime (credential_directory self id) path e) w.
Proof.
  intros Hw He. unfold publish. eapply ensures_bind; [apply stable_since|by apply yields_create|].
  intros p s1 H1 Hp.
  apply (ensures_bind _ (fun linked w => quiet_call _ (Cred.RemoveFile p) /\ (linked = Ok tt -> bound e w))); [apply stable_since| |].
  { apply (ensures_change _ (fun w => since w /\ ready e p w)).
    - apply stable_since.
    - apply stable_and; [apply stable_since|apply stable_ready].
    - intros a s s' Hr [Hq Hb]. split; [done|]. intros Ha. by eapply stable_bound, Hb.
    - done.
    - intros s2 r s3 [H2 (Hq & i & f & Hd & Hc & Hx)] Hr.
      destruct r as [[]|err]; simpl in Hr; [|subst s3; split_and!; [apply guard_refl|done|done|done]].
      destruct Hr as (Hn & j & Hj & ->). assert (j = i) as -> by (destruct Hd as [(_ & _ & [Hi|Hi] & _) _]; congruence).
      destruct (link_step p i e f s2 Hd Hc Hx Hn) as [Hg Hb]. done. }
  intros linked s2 H2 [Hq Hb]. assert (forall what w, since w -> yields (fun _ _ => True) (remove_candidate p what) w) as Hremove.
  { intros what w1 Hw1. apply yields_or_drop; [done|intros; apply stable_const|].
    apply ensures_ask_or; [apply stable_since|done|done|intros ?; apply stable_const|done]. }
  destruct linked as [[]|err].
  - set (I' := fun w => since w /\ bound e w).
    assert (stable peers I') as Hs' by (apply stable_and; [apply stable_since|apply stable_bound]).
    apply (ensures_inv _ I'); [by intros ? []|]. apply ensures_skip; [done|by apply quiet_removal|by split; [|apply Hb]|].
    intros _ s3 H3. apply ensures_skip; [done|by split|done|]. intros _ s4 [H4 Hb4].
    apply ensures_ret; [done|apply stable_minted|done|done].
  - destruct err; [by apply yields_or_drop; [done|intros; apply stable_minted|by apply ensures_throw; [apply stable_since|]]| |
                   by apply yields_or_drop; [done|intros; apply stable_minted|by apply ensures_throw; [apply stable_since|]]].
    eapply ensures_bind; [apply stable_since|by apply Hremove|]. intros _ s3 H3 _.
    eapply ensures_bind; [apply stable_since|by apply yields_read_live|]. intros o s4 H4 Ho.
    destruct o as [e'|]; [|by apply ensures_throw; [apply stable_since|]].
    apply ensures_ret; [apply stable_since|apply stable_minted|done|]. split; [done|by apply Ho].
Qed.

Lemma yields_mint w :
  0 < ttl self -> since w -> yields minted (mint to_rfc3339 parse_datetime self id) w.
Proof.
  intros Httl Hw. unfold mint. apply (yields_locked plain_quiet); [apply stable_since|done|apply stable_minted|]. intros w1 H1.
  eapply ensures_bind; [apply stable_since|by apply (yields_verified_parent plain_quiet); [apply stable_since|..]|]. intros parent s1 Hs1 ->.
  apply ensures_skip; [apply stable_since|apply quiet_scavenge|done|]. intros _ s2 H2. cbv zeta.
  eapply ensures_bind; [apply stable_since|by apply yields_read_live|]. intros o s3 H3 Ho.
  destruct o as [e|]; [by apply ensures_ret; [apply stable_since|apply stable_minted|..]; [done|split; [done|apply Ho]]|].
  apply ensures_skip; [apply stable_since|by split|done|]. intros found s4 H4.
  apply ensures_guard; [apply stable_since|done|]. intros _.
  apply (ensures_bind _ (fun now _ => t0 <= now)); [apply stable_since| |].
  { apply ensures_ask; [apply stable_since|done|done|intros ?; apply stable_const|]. intros s5 now s6 H5 [Hn _]. unfold since in H5. lia. }
  intros now s5 H5 Hnow. apply yields_publish; [done|lia].
Qed.
End Mint.

(** ** Revoking *)
Section Revoke.
Context (self : LocalCredentialBroker) (id : ExecutionId) (normal_directory : normal (credential_directory self id)).
Abbreviation target := (our_path self id).

(** No broker mints for this execution meanwhile. *)
Definition no_minting (w w' : Dir) : Prop := names w !! target = None -> names w' !! target = None.

(** Names go, within the directory of the execution; no file changes. *)
Definition revoking (w w' : Dir) : Prop :=
  files w' = files w /\ within self id w w' /\ forall p, names w' !! p = names w !! p \/ names w' !! p = None.

Definition revoke_call (B : Type) (c : cred_call B) : Prop :=
  match c with
  | Cred.RemoveFile p => p = target \/ exists name, p = join (credential_directory self id) name /\ is_candidate name = true
  | c => quiet_call self id _ c
  end.

#[local] Instance revoke_rely : Rely sem no_minting revoking no_minting revoke_call.
Proof.
  split; [done|]. intros B c w b w' Hc Hs.
  assert (names w' = names w -> files w' = files w -> revoking w w' /\ no_minting w w') as Hsame.
  { intros Hn Hf. unfold revoking, within, no_minting. rewrite Hn. split_and!; [done|by intros p []|by left|done]. }
  destruct c; simpl in Hc, Hs; try done; try (by subst; apply Hsame); try (by destruct Hs as [-> _]; apply Hsame).
  - assert (w' = w \/ w' = set_names (delete path (names w)) w) as [->| ->]; [|by apply Hsame|].
    { destruct b as [u|[]]; [by right|left..]; [by destruct Hs|done..]. }
    unfold revoking, within, no_minting. simpl. split_and!; [done| | |by intros; apply lookup_delete_None; right].
    + intros q Hq. destruct (decide (q = path)) as [->|Hne]; [exact Hc|]. by rewrite lookup_delete_ne in Hq.
    + intros q. destruct (decide (q = path)) as [->|Hne]; [right; apply lookup_delete_eq|left; by apply lookup_delete_ne].
  - destruct Hs as [_ ->]. by apply Hsame.
Qed.

Definition revoked (w : Dir) : Prop := names w !! target = None.

Lemma stable_revoked : stable no_minting revoked.
Proof. by intros w w' H. Qed.

Abbreviation yields := (ensures sem no_minting revoking (fun _ => True)).

Lemma plain_revoke B (c : cred_call B) : plain_call B c -> revoke_call B c.
Proof. by destruct c. Qed.

Lemma scavenge_revoke : all_calls revoke_call (scavenge_candidates (credential_directory self id)).
Proof.
  apply (all_calls_impl (quiet_call self id)); [|apply quiet_scavenge].
  intros B c Hc. destruct c; try done. by right.
Qed.

Lemma yields_revoke w : yields (fun _ => revoked) (revoke self id) w.
Proof.
  assert (stable no_minting (fun _ => True)) as HI by apply stable_const.
  unfold revoke. apply (yields_locked plain_revoke); [done..|intros ?; apply stable_revoked|]. intros w1 _.
  apply ensures_known; [done|done|]. intros q Hq.
  assert (q = target) as -> by (unfold credential_path in Hq; destruct (validate_execution_id id) as [[]|]; [by injection Hq as <-|done]).
  eapply ensures_bind; [done| |].
  { apply (ensures_outcome _ (fun parent _ => parent = credential_directory self id)); [done|by intros ? ? ? _|].
    by apply (yields_verified_parent plain_revoke). }
  intros verified s1 _ Hv.
  apply (ensures_bind _ (fun o w => match o with Some p => p = credential_directory self id | None => revoked w end)); [done| |].
  { destruct verified as [p|e]; [apply ensures_ret; [done|apply stable_const|done|by apply Hv]|].
    apply (ensures_bind _ (fun found w => found = Err NOENT -> revoked w)); [done| |].
    - apply ensures_ask; [done|done|done| |].
      + intros a s s' Hr Ha He. by apply Hr, Ha.
      + intros s2 a s3 _ [-> Ha] ->. exact Ha.
    - intros found s2 _ Hf. destruct found as [m|[]]; try (by apply ensures_throw).
      apply ensures_ret; [done|apply stable_revoked|done|by apply Hf]. }
  intros o s2 _ Ho. destruct o as [p|]; [subst p|by apply ensures_ret; [|apply stable_revoked|..]].
  apply ensures_skip; [done|apply scavenge_revoke|done|]. intros _ s3 _.
  apply (ensures_bind _ (fun found w => found = Err NOENT -> revoked w)); [done| |].
  { apply ensures_ask; [done|done|done| |].
    - intros a s s' Hr Ha He. by apply Hr, Ha.
    - intros s4 a s5 _ [-> Ha] ->. exact Ha. }
  intros found s4 _ Hf. destruct found as [m|[]]; try (by apply ensures_throw).
  2: { apply ensures_ret; [done|apply stable_revoked|done|by apply Hf]. }
  apply ensures_guard; [done|done|]. intros _.
  apply (ensures_bind _ (fun r w => r = Ok tt \/ r = Err NOENT -> revoked w)); [done| |].
  { apply ensures_ask; [done|done|by left| |].
    - intros a s s' Hr Ha He. by apply Hr, Ha.
    - intros s5 a s6 _ Hs Ha. destruct Ha as [-> | ->]; simpl in Hs; [subst; apply lookup_delete_eq|by destruct Hs as [-> ?]]. }
  intros removed s5 _ Hr. destruct removed as [[]|[]]; try (by apply ensures_throw).
  - apply (ensures_inv _ revoked); [done|]. eapply ensures_bind; [apply stable_revoked| |].
    { apply (ensures_outcome _ (fun _ _ => True)); [apply stable_revoked|by intros ? ? ? _|].
      apply ensures_ask_or; [apply stable_revoked|by apply Hr; left|done|done|done]. }
    intros r s6 H6 _. apply ensures_result; [apply stable_revoked|done|]. intros a _. split; [apply stable_revoked|done].
  - apply ensures_ret; [done|apply stable_revoked|done|by apply Hr; right].
Qed.
End Revoke.

(** The directories of two executions are apart. *)
Lemma our_path_inj self id id' :
  is_ok (validate_execution_id id) = true -> is_ok (validate_execution_id id') = true ->
  our_path self id = our_path self id' -> id = id'.
Proof.
  assert (forall id, is_ok (validate_execution_id id) = true ->
    ~ has_char "/" id /\ exists c, last_byte id = Some c /\ c <> "/"%char) as Hsafe.
  { intros i Hi. unfold validate_execution_id in Hi.
    destruct (str_is_empty i) eqn:Ei; [done|]. destruct (63 <? String.length i)%nat; [done|]. simpl in Hi.
    destruct (string_forallb _ i) eqn:Hf; [|done].
    assert (~ has_char "/" i) as Hn by by eapply forallb_no_char; [|exact Hf]. split; [done|].
    destruct (last_byte i) as [c|] eqn:El; [|apply last_byte_None in El; by subst].
    exists c. split; [done|]. intros ->. by apply Hn, last_byte_has_char. }
  intros Hi Hi'. destruct (join_relative (state_root self) "executions") as [a Ha]; [done|].
  assert (forall i, is_ok (validate_execution_id i) = true ->
    our_path self i = (a +:+ "executions/" +:+ i +:+ "/credentials/inferweave.credential")%string) as Hpath.
  { intros i Hok. destruct (Hsafe i Hok) as (Hn & c & Hl & Hc). assert (i <> ""%string) as Hne by by intros ->.
    unfold our_path, credential_directory, execution_root. rewrite Ha.
    rewrite (join_slash (a +:+ "executions") i "s") by first [done|by apply no_slash_relative|by rewrite last_byte_app].
    rewrite (join_slash _ "credentials" c) by first [done|by rewrite !last_byte_app by first [done|by apply string_app_ne_nil]].
    rewrite (join_slash _ CREDENTIAL_FILE "s") by first [done|by rewrite !last_byte_app].
    by rewrite !string_app_assoc. }
  rewrite !Hpath by done. intros He. destruct (Hsafe id Hi) as [Hn _], (Hsafe id' Hi') as [Hn' _].
  assert (forall i, ~ has_char "/" i -> split "/" (i +:+ "/credentials/inferweave.credential") = [i; "credentials"; "inferweave.credential"]%string) as Hs.
  { intros i Hni. change "/credentials/inferweave.credential"%string with (String "/" "credentials/inferweave.credential"). by rewrite split_field. }
  assert (id +:+ "/credentials/inferweave.credential" = id' +:+ "/credentials/inferweave.credential")%string as He'.
  { rewrite <- !(string_app_assoc a) in He. apply (f_equal (strip_prefix (a +:+ "executions/"))) in He.
    rewrite !strip_prefix_app in He. by injection He. }
  apply (f_equal (split "/")) in He'. rewrite !Hs in He' by done. by injection He'.
Qed.

(** ** Theorems *)
Section Theorems.
Context (self : LocalCredentialBroker) (id : ExecutionId) (normal_directory : normal (credential_directory self id)).

(** C15: Minting an execution's credential never disturbs one that is there.
    Whatever other brokers mint, link and scavenge meanwhile and wherever the
    call stops, each of its steps leaves every bound name bound to the same
    unchanged file, makes a name appear only for a credential that is written out
    in full with mode 0600, and touches nothing but the credential and the
    candidates of this execution; a credential it returns is bound to the
    execution's path, regular and private, and reads back as expiring after the
    moment the call began. *)
Theorem mint_binds_once to_rfc3339 parse_datetime `{!Rfc3339 to_rfc3339 parse_datetime} w tr r w' :
  0 < ttl self -> exec sem (peers to_rfc3339) (mint to_rfc3339 parse_datetime self id) w tr r w' ->
  Forall (fun x => guard to_rfc3339 self id x.1 x.2) tr /\
  forall c, r = Some (Ok c) -> minted parse_datetime self id (clock w) c w'.
Proof.
  intros Httl He. destruct (chl_exec _ _ _ _ _ _ _ _ _ He (yields_mint to_rfc3339 parse_datetime self id normal_directory (clock w) w Httl (Z.le_refl _)))
    as [Ht Hr]. split; [done|]. intros c Hc. destruct (Hr _ Hc) as [_ Hm]. by apply Hm.
Qed.

(** C16: Revoking takes an execution's credential away and nothing else.
    Each step only removes the credential or a candidate of this execution, so
    the credential of another execution stays as it is, and when the call
    succeeds, and no broker mints for the execution meanwhile, its path is
    bound to nothing, also when the directory is not there any more. *)
Theorem revoke_removes_only_it w tr r w' :
  exec sem (no_minting self id) (revoke self id) w tr r w' ->
  Forall (fun x => revoking self id x.1 x.2) tr /\ (r = Some (Ok tt) -> names w' !! our_path self id = None) /\
  forall id', is_ok (validate_execution_id id) = true -> is_ok (validate_execution_id id') = true -> id' <> id ->
    Forall (fun x => names x.2 !! our_path self id' = names x.1 !! our_path self id') tr.
Proof.
  intros He. destruct (chl_exec _ _ _ _ _ _ _ _ _ He (yields_revoke self id normal_directory w)) as [Ht Hr].
  split_and!; [done|intros Hc; destruct (Hr _ Hc) as [_ H]; exact (H tt eq_refl)|].
  intros id' Hi Hi' Hne. eapply Forall_impl; [exact Ht|]. intros [w1 w2] (_ & Hw & _).
  destruct (decide (names w2 !! our_path self id' = names w1 !! our_path self id')) as [|Hd]; [done|].
  destruct (Hw _ Hd) as [He'|(name & He' & Hn)]; [by apply our_path_inj in He'|].
  destruct (credential_not_candidate (credential_directory self id')). by exists (credential_directory self id), name.
Qed.
End Theorems.

(** ** A directory to compute with *)
Definition unary (t : Timestamp) : string :=
  String (if t <? 0 then "-"%char else "+"%char) (Strings.String.string_of_list_ascii (repeat "i"%char (Z.abs_nat t))).
Definition read_unary (s : string) : option Timestamp :=
  match s with
  | String c s => Some (if (c =? "-")%char then - Z.of_nat (String.length s) else Z.of_nat (String.length s))
  | EmptyString => None
  end.

#[local] Instance unary_rfc3339 : Rfc3339 unary read_unary.
Proof.
  assert (forall n, String.length (Strings.String.string_of_list_ascii (repeat "i"%char n)) = n) as Hl by (induction n; simpl; congruence).
  assert (forall d n, d <> "i"%char -> ~ has_char d (Strings.String.string_of_list_ascii (repeat "i"%char n))) as Hn.
  { intros d n Hd. induction n as [|n IH]; simpl; [by intros []%has_char_nil|]. rewrite has_char_cons. intros [H|H]; [by subst|by apply IH]. }
  split.
  - intros t. unfold unary, read_unary. rewrite Hl. destruct (Z.ltb_spec t 0); simpl; f_equal; lia.
  - intros t. unfold unary. split.
    + rewrite has_char_cons. intros [H|H]; [by destruct (t <? 0)|by apply Hn in H].
    + destruct (strip_suffix _ _) as [r|] eqn:E; [|done]. apply strip_suffix_Some in E.
      assert (has_char "013" (String (if t <? 0 then "-"%char else "+"%char) (Strings.String.string_of_list_ascii (repeat "i"%char (Z.abs_nat t))))) as Hc.
      { rewrite E. apply has_char_app. right. apply has_char_cons. by left. }
      rewrite has_char_cons in Hc. destruct Hc as [H|H]; [by destruct (t <? 0)|by apply Hn in H].
Qed.

Definition next_file (w : Dir) : Z := Z.of_nat (size (files w)) + 1.

Definition disk (B : Type) (c : cred_call B) (w : Dir) : B * Dir :=
  match c in Cred.cred_call B return B * Dir with
  | Cred.Canonicalize p => (if decide (normal p) then Ok p else Err NOENT, w)
  | Cred.SymlinkMetadata p =>
      (match names w !! p with
       | Some i => match files w !! i with
                   | Some f => Ok {| Metadata.dev := 0; Metadata.ino := i; Metadata.uid := 0; Metadata.mode := mode f |}
                   | None => Err (OtherErrno "dangling")
                   end
       | None => Err NOENT
       end, w)
  | Cred.ReadToString p =>
      (match names w !! p ≫= (files w !!.) with Some f => Ok (content f) | None => Err "not found"%string end, w)
  | Cred.Entropy => (Ok (Strings.String.string_of_list_ascii (repeat "a"%char 32)), w)
  | Cred.CreateNew p =>
      if decide (names w !! p = None /\ files w !! next_file w = None /\ map_Forall (fun _ i => i <> next_file w) (names w))
      then (Ok (next_file w), created p (next_file w) w) else (Err EXIST, w)
  | Cred.WriteAll i bytes => (Ok tt, written i bytes w)
  | Cred.HardLink p q =>
      match names w !! q, names w !! p with
      | None, Some i => (Ok tt, set_names (<[q := i]> (names w)) w)
      | Some _, _ => (Err EXIST, w)
      | None, None => (Err NOENT, w)
      end
  | Cred.RemoveFile p =>
      match names w !! p with
      | Some _ => (Ok tt, set_names (delete p (names w)) w)
      | None => (Err NOENT, w)
      end
  | Cred.ReadDir p => (Ok (omap (fun x => Ok <$> strip_prefix (p +:+ "/") x.1) (map_to_list (names w))), w)
  | Cred.Now => (clock w, w)
  | Cred.SetPermissions _ _ | Cred.SyncAll _ | Cred.SyncDirectory _ => (Ok tt, w)
  | Cred.Registry | Cred.Lock _ => (Some tt, w)
  | Cred.Unlock _ => (tt, w)
  end.

Lemma disk_sem B (c : cred_call B) w : sem B c w (disk B c w).1 (disk B c w).2.
Proof.
  destruct c; simpl; try done.
  - split; [done|]. intros q. case_decide; [by intros [= <-]|done].
  - split; [done|]. destruct (names w !! path) as [i|]; [|done].
    destruct (files w !! i) as [f|] eqn:Hf; [|done]. by exists i, f.
  - split; [done|]. intros text. destruct (names w !! path) as [i|]; simpl; [|done].
    destruct (files w !! i) as [f|] eqn:Hf; [|done]. intros [= <-]. by exists i, f.
  - split; [done|]. by intros bytes [= <-].
  - case_decide as Hd; simpl; [|done]. destruct Hd as (Hn & Hf & Hq). split_and!; [done..| |done].
    intros q Hi. by apply (map_Forall_lookup_1 _ _ _ _ Hq) in Hi.
  - destruct (names w !! link) eqn:Hl; [done|]. destruct (names w !! original) as [i|] eqn:Ho; [|done].
    split; [done|]. by exists i.
  - destruct (names w !! path) eqn:Hp; done.
  - by destruct w.
Qed.

(** An execution with a credential of its own, and a candidate a crash has left
    in the directory of the first. *)
Definition ex_broker : LocalCredentialBroker := {| state_root := "/var/lib/a"; ttl := 5 |}.
Definition ex_digest : string := Strings.String.string_of_list_ascii (repeat "b"%char 64).
Definition ex_dir : Dir := {|
  names := {[our_path ex_broker "e-2" := 1;
             join (credential_directory ex_broker "e-1") (candidate_name ex_digest) := 2]};
  files := {[1 := {| mode := PRIVATE_FILE; content := credential_text unary ex_digest 9 |};
             2 := {| mode := PRIVATE_FILE; content := "half" |}]};
  clock := 3; ours := ∅ |}.

Abbreviation ex_mint := (mint unary read_unary ex_broker "e-1").
Definition ex_credentials : ExecutionCredentials :=
  {| ExecutionCredentials.path := "/var/lib/a/executions/e-1/credentials/inferweave.credential";
     ExecutionCredentials.expires_at := 8 |}.
Definition ex_minted : Dir := (run disk ex_mint ex_dir).2.

Lemma ex_normal : normal (credential_directory ex_broker "e-1").
Proof. by vm_compute. Qed.

(** The candidate is scavenged and a credential minted that expires five ticks
    on; the other execution's stays. *)
Lemma mint_binds_once_witness :
  exists tr, exec sem (peers unary) ex_mint ex_dir tr (Some (Ok ex_credentials)) ex_minted /\
  Forall (fun x => guard unary ex_broker "e-1" x.1 x.2) tr /\ minted read_unary ex_broker "e-1" 3 ex_credentials ex_minted.
Proof.
  destruct (run_exec disk sem (peers unary) ex_mint ex_dir disk_sem) as [tr He].
  assert ((run disk ex_mint ex_dir).1 = Ok ex_credentials) as Hr by by vm_compute. rewrite Hr in He.
  exists tr. split; [exact He|].
  destruct (mint_binds_once ex_broker "e-1" ex_normal unary read_unary ex_dir tr _ ex_minted eq_refl He) as [Ht Hm].
  split; [exact Ht|]. exact (Hm ex_credentials eq_refl).
Defined.

(** Revoked again, the execution's credential is gone, the other's stays. *)
Lemma revoke_removes_only_it_witness :
  names ex_minted !! our_path ex_broker "e-1" = Some 3 /\
  names (run disk (revoke ex_broker "e-1") ex_minted).2 !! our_path ex_broker "e-1" = None /\
  names (run disk (revoke ex_broker "e-1") ex_minted).2 !! our_path ex_broker "e-2" = Some 1.
Proof.
  split_and!; [by vm_compute| |by vm_compute].
  destruct (run_exec disk sem (no_minting ex_broker "e-1") (revoke ex_broker "e-1") ex_minted disk_sem) as [tr He].
  assert ((run disk (revoke ex_broker "e-1") ex_minted).1 = Ok tt) as Hr by by vm_compute. rewrite Hr in He.
  destruct (revoke_removes_only_it ex_broker "e-1" ex_normal ex_minted tr _ _ He) as (_ & Hm & _).
  exact (Hm eq_refl).
Defined.
