(* ===== verification/WorkerMain.v ===== *)
(** * The worker daemon ([autospec-worker/src/main.rs])

    The daemon checks its flags, prepares what executions run on (storage,
    stores, Docker and harness factories), and then turns a control loop: it
    prepares again while that has failed, collects finished tasks, claims
    executions into free slots, reconciles cancellations, and registers with the
    controller or sends it heartbeats, until it is told to shut down.  The model
    is followed by the order of what the loop does, with arbitrary answers, and
    by what becomes of a worker whose registration the controller has lost. *)

From Stdlib Require Import Ascii.
From stdpp Require Import gmultiset.
From S2P Require Import Prelude Core WorkerTypes DiskBudget Database Reservations Effects Lifecycle StorageModel FileSystem StorageManager LvmBackend Docker GitManager PiHarness BuildCache System StorageCodec StorageWorld StorageSafety Steps Credentials.

















(** ** Flags *)
Inductive StorageKind := Apfs | Lvm.

Module Cli.
Record Cli := {
  controller : string;
  worker_id : string;
  worker_token : string;
  concurrency : Z;                    (* u32 *)
  memory_mib : Z;                     (* u64 *)
  disk_gib : Z;                       (* u64 *)
  storage_kind : StorageKind;
  storage_pool : string;
  docker_verifier_image : string;
  docker_verifier_command : string;
  docker_binary : string;
  database_url : string;
  state_root : string;
  disk_warn_percent : Z;              (* u8 *)
  disk_stop_percent : Z;              (* u8 *)
  disk_reserve_gib : Z;               (* u64 *)
  toolchains : list (string * string);
  build_cache_root : option string;
  build_cache_max_gib : Z;            (* u64 *)
  relax_container_hardening : bool;
  agent_user : string;
  allow_root_agent : bool;
  inference_upstream : option string;
  inference_relay_image : option string;
  inference_relay_port : Z;           (* u16 *)
  allow_agent_egress : bool;
  clone_base : string;
  docker_socket : option string;
  docker_proxy_port : Z;              (* u16 *)
  host_docker : bool;
  pi_executable : string;
  allow_untested_pi_version : bool;
  allow_local_development_credentials : bool
}.
End Cli.
Abbreviation Cli := Cli.Cli.

Inductive ControlDisposition := Registered | ReRegister | Retry.

(** Of an HTTP status. *)
Definition control_disposition (registered : bool) (status : Z) : ControlDisposition :=
  if (200 <=? status) && (status <? 300) then Registered
  else if registered && (status =? 404) then ReRegister
  else Retry.

(** [value_parser] of [--toolchain]. *)
Definition parse_toolchain (raw : string) : result string (string * string) :=
  nv ← ok_or (split_once "=" raw) ("toolchain `" +:+ raw +:+ "` must be NAME=VERSION")%string;
  let name := trim nv.1 in
  let version := trim nv.2 in
  if str_is_empty name || str_is_empty version
  then Err ("toolchain `" +:+ raw +:+ "` must have a non-empty name and version")%string
  else Ok (name, version).

Fixpoint insert_toolchains (list : list (string * string)) (map : gmap string string) : result string (gmap string string) :=
  match list with
  | [] => Ok map
  | (name, version) :: list =>
      match map !! name with
      | Some _ => Err ("toolchain `" +:+ name +:+ "` is declared more than once")%string
      | None => insert_toolchains list (<[name := version]> map)
      end
  end.
Definition toolchain_map (list : list (string * string)) : result string (gmap string string) := insert_toolchains list ∅.

(** [anyhow] keeps the text of an error. *)
Definition anyhow {A} (r : result RuntimeError A) : result string A := map_err RuntimeError.to_string r.

Definition resolve_agent_user (user : string) (allow_root : bool) : result string string :=
  _ ← anyhow (Docker.validate_agent_user user);
  let uid := match split ":" user with uid :: _ => default 0 (parse_u32 uid) | [] => 0 end in
  if (uid =? 0) && negb allow_root
  then Err ("--agent-user " +:+ user +:+ " runs agents as root; pass --allow-root-agent to confirm")%string
  else Ok user.

Section Flags.
Context (cli : Cli).

Definition set_flag (flag : option string) : option string :=
  match flag with Some v => if str_is_empty v then None else Some v | None => None end.

Definition resolve_relay : result string (option InferenceRelay) :=
  match set_flag (Cli.inference_upstream cli), set_flag (Cli.inference_relay_image cli), Cli.allow_agent_egress cli with
  | Some upstream, Some image, false =>
      let relay := {| InferenceRelay.image := image; InferenceRelay.upstream := upstream;
                      InferenceRelay.listen_port := Cli.inference_relay_port cli |} in
      _ ← anyhow (validate_inference_relay relay);
      Ok (Some relay)
  | None, None, true => Ok None
  | Some _, Some _, true => Err ("--allow-agent-egress contradicts --inference-upstream/--inference-relay-image; " +:+
      "pass the relay flags or --allow-agent-egress, not both")%string
  | Some _, None, _ | None, Some _, _ => Err "--inference-upstream and --inference-relay-image must be given together"%string
  | None, None, false => Err ("no inference relay configured: executions would have unrestricted network egress. " +:+
      "Pass --inference-upstream <host:port> and --inference-relay-image <image> " +:+
      "(AUTOSPEC_INFERENCE_UPSTREAM, AUTOSPEC_INFERENCE_RELAY_IMAGE) to run agents on an " +:+
      "internal network, or --allow-agent-egress (AUTOSPEC_ALLOW_AGENT_EGRESS) to keep " +:+ "unrestricted egress")%string
  end.

Definition validate_build_cache : result string unit :=
  match Cli.build_cache_root cli with
  | None => Ok tt
  | Some root =>
      _ ← check (is_absolute root) "--build-cache-root must be an absolute path"%string;
      _ ← check (negb (path_starts_with root (join (Cli.state_root cli) "executions")))
            "--build-cache-root must not be inside the per-execution state directory"%string;
      check (0 <? Cli.build_cache_max_gib cli) "--build-cache-max-gib must be greater than zero"%string
  end.

Definition disk_policy : result string DiskPolicy :=
  DiskPolicy.new (Cli.disk_warn_percent cli) (Cli.disk_stop_percent cli) (Cli.disk_reserve_gib cli).

Definition validate_cli : result string unit :=
  _ ← disk_policy;
  _ ← toolchain_map (Cli.toolchains cli);
  _ ← validate_build_cache;
  _ ← resolve_agent_user (Cli.agent_user cli) (Cli.allow_root_agent cli);
  _ ← resolve_relay;
  Ok tt.

Definition container_hardening : ContainerHardening :=
  if Cli.relax_container_hardening cli then Relaxed else Enforced.

Definition lifecycle_text {A} (r : result LifecycleError A) : result string A := map_err LifecycleError.to_string r.

Definition runtime_factory (agent_user : string) (trusted : TrustedVerifierImage) : result string RuntimeFactory :=
  factory ← lifecycle_text (RuntimeFactory.with_agent_user agent_user
              (RuntimeFactory.new (Cli.docker_socket cli) (Cli.docker_binary cli) trusted));
  relay ← resolve_relay;
  let factory := RuntimeFactory.with_inference_relay relay (RuntimeFactory.with_container_hardening container_hardening factory) in
  Ok (match Cli.build_cache_root cli with
      | Some root => RuntimeFactory.with_build_cache root (Cli.build_cache_max_gib cli) factory
      | None => factory
      end).

Definition harness_factory (agent_user : string) : result string HarnessFactory :=
  lifecycle_text (HarnessFactory.with_agent_user agent_user
    (HarnessFactory.with_allow_untested_pi_version (Cli.allow_untested_pi_version cli)
       (HarnessFactory.new (Cli.docker_socket cli) (Cli.docker_binary cli) (Cli.pi_executable cli)
          ["read"; "bash"; "edit"; "write"]%string []))).

Definition validate_storage_runtime_pairing (os : string) : result string unit :=
  match Cli.storage_kind cli with
  | Lvm => if String.eqb os "linux" then Ok tt else Err
      "Docker execution workers require Linux with thick LVM; APFS is storage-lifecycle-only pending a privilege-separated macOS worker"%string
  | Apfs => Err
      "Docker execution workers require Linux with thick LVM; APFS is storage-lifecycle-only pending a privilege-separated macOS worker"%string
  end.

Definition validate_host_docker_policy : result string unit :=
  _ ← check (Cli.host_docker cli) "Docker execution requires AUTOSPEC_WORKER_HOST_DOCKER=true"%string;
  _ ← check (negb (Cli.docker_proxy_port cli =? 0)) "Docker proxy port must be between 1 and 65535"%string;
  let host_endpoint := ("tcp://127.0.0.1:" +:+ show_Z (Cli.docker_proxy_port cli))%string in
  check (bool_decide (Cli.docker_socket cli = Some host_endpoint) ||
         (Cli.docker_proxy_port cli =? 2375) && bool_decide (Cli.docker_socket cli = Some "tcp://docker-api:2375"%string))
    "Docker execution requires the constrained deployment proxy"%string.

Definition ensure_local_development_credentials_allowed : result string unit :=
  check (Cli.allow_local_development_credentials cli)
    ("no production credential issuer is configured; local development credentials require " +:+
     "--allow-local-development-credentials")%string.
End Flags.

(** ** What the worker advertises *)
Module PreparationFailure.
Inductive PreparationFailure := Configuration | Persistence | Recovery | Storage | Docker.

Definition diagnostic (f : PreparationFailure) : string :=
  match f with
  | Configuration => "worker configuration is invalid or unavailable"
  | Persistence => "persistence connection failed"
  | Storage => "execution storage capability probe failed"
  | Recovery => "durable startup recovery failed"
  | Docker => "constrained Docker capability probe failed"
  end.

Definition health_code (f : PreparationFailure) : string :=
  match f with
  | Storage => "storage-capability-unavailable"
  | Docker => "docker-capability-unavailable"
  | Configuration => "worker-configuration-invalid"
  | Persistence | Recovery => "worker-preparation-unavailable"
  end.
End PreparationFailure.
Abbreviation PreparationFailure := PreparationFailure.PreparationFailure.

(** [Duration]s in nanoseconds. *)
Definition secs (n : Z) : Z := n * 1000000000.

(** [PreparationRetry]: the delay to wait, and the retry after it. *)
Definition record_failure (backoff : Z) : Z * Z := (backoff, Z.min (backoff * 2) (secs 30)).
Definition record_success : Z := secs 1.

(** The base advertisement plus the pressure the disk is under. *)
Definition heartbeat_assessed (base : WorkerAdvertisement) (policy : DiskPolicy) (sampled : result string DiskSample) :
    WorkerAdvertisement * DiskVerdict :=
  let verdict := DiskPolicy.assess policy sampled in
  let c := WorkerAdvertisement.capabilities base in
  (match verdict with
   | DiskVerdict.Stop reason =>
       if existsb (String.eqb reason) (WorkerCapabilities.health_errors c) then base
       else {| WorkerAdvertisement.id := WorkerAdvertisement.id base;
               WorkerAdvertisement.capabilities :=
                 {| WorkerCapabilities.os := WorkerCapabilities.os c; WorkerCapabilities.arch := WorkerCapabilities.arch c;
                    WorkerCapabilities.cpu := WorkerCapabilities.cpu c;
                    WorkerCapabilities.memory_mib := WorkerCapabilities.memory_mib c;
                    WorkerCapabilities.disk_gib := WorkerCapabilities.disk_gib c;
                    WorkerCapabilities.runtimes := WorkerCapabilities.runtimes c;
                    WorkerCapabilities.capabilities := WorkerCapabilities.capabilities c;
                    WorkerCapabilities.toolchains := WorkerCapabilities.toolchains c;
                    WorkerCapabilities.max_concurrent_executions := WorkerCapabilities.max_concurrent_executions c;
                    WorkerCapabilities.health_errors := WorkerCapabilities.health_errors c ++ [reason] |};
               WorkerAdvertisement.capability_proof := WorkerAdvertisement.capability_proof base |}
   | _ => base
   end, verdict).

(** ** The Docker side of the storage proof *)
Module DockerCapabilityVerifier.
Record DockerCapabilityVerifier := {
  docker : string;
  docker_host : option string;
  daemon_id : string;
  verifier_image : string;
  verifier_command : string;
  method_version : string;
  worker_id : WorkerId
}.
End DockerCapabilityVerifier.
Abbreviation DockerCapabilityVerifier := DockerCapabilityVerifier.DockerCapabilityVerifier.

(** What [run_control_loop] needs of a preparation: the lifecycle behind the
    worker and its stores, with the storage's verifier and the broker. *)
Module Plane.
Record Plane := {
  lifecycle : SystemExecutionLifecycle;
  verifier : DockerCapabilityVerifier;
  broker : LocalCredentialBroker
}.
End Plane.
Abbreviation Plane := Plane.Plane.

Inductive StoreName := Executions | ReservationsStore | CleanupAuthorities | ArtifactStore (state_root : string).

(** A spawned task: its handle and its execution. *)
Definition Task : Type := Z * ExecutionId.

Module Daemon.
Inductive main_call : Type -> Type :=
| InstantNow : main_call Z
| AvailableParallelism : main_call (option Z)
| RunCommand (binary : string) (docker_host : option string) (args : list string) : main_call (result string CliOutput)
| Canonicalize (path : string) : main_call (result string string)
| Connect (store : StoreName) (database_url : string) : main_call (result string unit)
| OfStorage {B} (c : storage_call B) : main_call B            (* the backend and the records *)
| OpenStorage (state_root : string) : main_call (result StorageError unit)   (* [ExecutionStorage::new] *)
| OpenApfs (probe_path : string) : main_call (result StorageError unit)      (* [ApfsBackend::new] *)
| OfCredentials {B} (c : cred_call B) : main_call B
(* the worker of a plane, its tasks and the reservation store *)
| ReconcileStartup (plane : Plane) (worker : WorkerId) : main_call (result string (list Task))
| ReserveNext (worker : WorkerId) : main_call (result string (option Execution))
| Spawn (execution : Execution) : main_call Task
| IsFinished (task : Task) : main_call bool
| Join (task : Task) : main_call (result string unit)
| ReconcileTick (worker : WorkerId) (tasks : list Task) : main_call (result string unit)
| RequestCancellation (id : ExecutionId) : main_call (result string unit)
| Cancel (task : Task) : main_call unit
(* the controller, the disk, the collector of the build cache *)
| Post (url token : string) (body : WorkerAdvertisement) : main_call (result string Z)
| SampleDisk (state_root : string) : main_call (result string DiskSample)
| StartCollector : main_call unit
| CollectorFinished : main_call bool
(* [select!] of a second's sleep, [None], and the shutdown signal *)
| SleepOrSignal : main_call (option (result string unit)).
End Daemon.
Abbreviation main_call := Daemon.main_call.
Abbreviation mainio := (io main_call string).
Abbreviation prepio := (io main_call PreparationFailure).

(** The locals of the loop; [collecting] says whether [CacheCollector.running]
    holds a pass. *)
Module Control.
Record Control := {
  worker : WorkerAdvertisement;
  plane : option Plane;
  registered : bool;
  backoff : Z;
  heartbeat_due : Z;
  retry : Z;                            (* [PreparationRetry.backoff] *)
  preparation_due : Z;
  tasks : list Task;
  collecting : bool
}.

Definition set_heartbeat (due backoff : Z) (registered : bool) (c : Control) : Control :=
  {| worker := worker c; plane := plane c; registered := registered; backoff := backoff; heartbeat_due := due;
     retry := retry c; preparation_due := preparation_due c; tasks := tasks c; collecting := collecting c |}.
Definition set_tasks (ts : list Task) (c : Control) : Control :=
  {| worker := worker c; plane := plane c; registered := registered c; backoff := backoff c;
     heartbeat_due := heartbeat_due c; retry := retry c; preparation_due := preparation_due c; tasks := ts;
     collecting := collecting c |}.
Definition set_collecting (b : bool) (c : Control) : Control :=
  {| worker := worker c; plane := plane c; registered := registered c; backoff := backoff c;
     heartbeat_due := heartbeat_due c; retry := retry c; preparation_due := preparation_due c; tasks := tasks c;
     collecting := b |}.
Definition set_unprepared (w : WorkerAdvertisement) (due retry : Z) (c : Control) : Control :=
  {| worker := w; plane := plane c; registered := registered c; backoff := backoff c; heartbeat_due := heartbeat_due c;
     retry := retry; preparation_due := due; tasks := tasks c; collecting := collecting c |}.
End Control.
Abbreviation Control := Control.Control.

Section Worker.
(** [std::env::consts]; what [String::from_utf8_lossy] makes of bytes, and the
    message of [String::from_utf8]. *)
Context (os arch : string) (lossy utf8_error : string -> string) (cli : Cli).

Definition advertisement (proof : option WorkerCapabilityProof) (health_errors : list string) : mainio WorkerAdvertisement :=
  _ ← guard_or (negb ((Cli.concurrency cli =? 0) || (64 <? Cli.concurrency cli)))
        "worker concurrency must be between 1 and 64"%string;
  let ready := match proof with Some proof => WorkerCapabilityProof.is_complete proof | None => false end in
  toolchains ← ret_result (toolchain_map (Cli.toolchains cli));
  cpus ← ask Daemon.AvailableParallelism;
  mret {| WorkerAdvertisement.id := Cli.worker_id cli;
          WorkerAdvertisement.capabilities :=
            {| WorkerCapabilities.os := os; WorkerCapabilities.arch := arch;
               WorkerCapabilities.cpu := match cpus with Some count => Z.min count u32_max | None => 1 end;
               WorkerCapabilities.memory_mib := Cli.memory_mib cli; WorkerCapabilities.disk_gib := Cli.disk_gib cli;
               WorkerCapabilities.runtimes := if ready then [RuntimeKind.Docker] else [];
               WorkerCapabilities.capabilities :=
                 if ready then "docker"%string :: match Cli.build_cache_root cli with Some _ => [BUILD_CACHE_CAPABILITY] | None => [] end
                 else [];
               WorkerCapabilities.toolchains := if ready then toolchains else ∅;
               WorkerCapabilities.max_concurrent_executions := Cli.concurrency cli;
               WorkerCapabilities.health_errors := health_errors |};
          WorkerAdvertisement.capability_proof := proof |}.

Definition docker_command (v : DockerCapabilityVerifier) (args : list string) : main_call (result string CliOutput) :=
  Daemon.RunCommand (DockerCapabilityVerifier.docker v) (DockerCapabilityVerifier.docker_host v) args.

(** [DockerBindVerifier::probe] and [verify]. *)
Definition verifier_probe (v : DockerCapabilityVerifier) : io main_call StorageError DockerBindCapability :=
  output ← ask_or (docker_command v ["image"; "inspect"; "--format"; "{{.Id}}"; DockerCapabilityVerifier.verifier_image v]%string)
             StorageError.Command;
  _ ← guard_or (negb (negb (CliOutput.success output) ||
                      negb (String.eqb (trim (lossy (CliOutput.stdout output))) (DockerCapabilityVerifier.verifier_image v))))
        (StorageError.Unavailable "immutable Docker verifier image is unavailable or changed");
  mret {| DockerBindCapability.daemon_id := DockerCapabilityVerifier.daemon_id v;
          DockerBindCapability.verifier := DockerCapabilityVerifier.verifier_image v;
          DockerBindCapability.method_version := DockerCapabilityVerifier.method_version v |}.

(** [--label key=value] for each entry of the [BTreeMap]. *)
Definition label_args (labels : gmap string string) : list string :=
  List.concat (List.map (fun key => ["--label"; key +:+ "=" +:+ default "" (labels !! key)]%string)
                 (merge_sort String.le (elements (dom labels)))).

Definition verifier_verify (v : DockerCapabilityVerifier) (source : string) : io main_call StorageError DockerBindProof :=
  canonical ← ask_or (Daemon.Canonicalize source) StorageError.Unavailable;
  execution_id ← some_or (file_name canonical ≫= from_utf8) (StorageError.IdentityMismatch "allocation lacks execution id");
  let labels := {| OwnershipLabels.execution_id := execution_id;
                   OwnershipLabels.worker_id := DockerCapabilityVerifier.worker_id v;
                   OwnershipLabels.repository := "storage-proof"; OwnershipLabels.issue := None |} in
  let mount := ("type=bind,src=" +:+ canonical +:+ ",dst=/proof,readonly")%string in
  output ← ask_or (docker_command v
      (["run"; "--rm"; "--network"; "none"; "--read-only"]%string ++ label_args (OwnershipLabels.to_map labels) ++
       ["--mount"; mount; DockerCapabilityVerifier.verifier_image v; DockerCapabilityVerifier.verifier_command v;
        "-c"; "%d:%i"; "/proof"]%string)) StorageError.Command;
  _ ← guard_or (CliOutput.success output) (StorageError.Command (trim (lossy (CliOutput.stderr output))));
  text ← some_or (from_utf8 (CliOutput.stdout output)) (StorageError.IdentityMismatch (utf8_error (CliOutput.stdout output)));
  let filesystem_id := trim text in
  _ ← guard_or (negb (str_is_empty filesystem_id || negb (contains ":" filesystem_id)))
        (StorageError.IdentityMismatch "Docker verifier returned malformed filesystem identity");
  mret {| DockerBindProof.daemon_id := DockerCapabilityVerifier.daemon_id v;
          DockerBindProof.verifier := DockerCapabilityVerifier.verifier_image v;
          DockerBindProof.method_version := DockerCapabilityVerifier.method_version v;
          DockerBindProof.source_path := canonical; DockerBindProof.filesystem_id := filesystem_id |}.

(** The storage manager with this verifier in place. *)
Definition verified_call (v : DockerCapabilityVerifier) (B : Type) (c : storage_call B) : proc main_call B :=
  match c in Storage.storage_call B return proc main_call B with
  | Storage.CleanupDaemonId => Ret (DockerCapabilityVerifier.daemon_id v)
  | Storage.DockerProbe => verifier_probe v
  | Storage.DockerVerify path => verifier_verify v path
  | c => request (Daemon.OfStorage c)
  end.

Fixpoint with_verifier (v : DockerCapabilityVerifier) {A} (p : proc storage_call A) : proc main_call A :=
  match p with
  | Ret a => Ret a
  | Req c k => verified_call v _ c ≫= fun b => with_verifier v (k b)
  end.

(** ** Preparation *)
Definition fails {A E} (r : result E A) (f : PreparationFailure) : result PreparationFailure A := map_err (fun _ => f) r.
Definition try_or {A E} (c : main_call (result E A)) (f : PreparationFailure) : prepio A := ask_or c (fun _ => f).

Definition build_storage : prepio DockerCapabilityVerifier :=
  _ ← match Cli.storage_kind cli with
      | Apfs => try_or (Daemon.OpenApfs (Cli.storage_pool cli)) PreparationFailure.Storage
      | Lvm => ret_result (fails (validate_lvm_name (Cli.storage_pool cli)) PreparationFailure.Storage)
      end;
  verifier ← ret_result (fails (TrustedVerifierImage.new (Cli.docker_verifier_image cli) (Cli.docker_verifier_command cli))
               PreparationFailure.Configuration);
  output ← try_or (Daemon.RunCommand (Cli.docker_binary cli) (Cli.docker_socket cli) ["info"; "--format"; "{{.ID}}"]%string)
             PreparationFailure.Docker;
  _ ← guard_or (CliOutput.success output) PreparationFailure.Docker;
  text ← some_or (from_utf8 (CliOutput.stdout output)) PreparationFailure.Docker;
  let daemon_id := trim text in
  _ ← guard_or (negb (str_is_empty daemon_id)) PreparationFailure.Docker;
  _ ← try_or (Daemon.OpenStorage (Cli.state_root cli)) PreparationFailure.Storage;
  mret {| DockerCapabilityVerifier.docker := Cli.docker_binary cli;
          DockerCapabilityVerifier.docker_host := Cli.docker_socket cli;
          DockerCapabilityVerifier.daemon_id := daemon_id;
          DockerCapabilityVerifier.verifier_image := Cli.docker_verifier_image cli;
          DockerCapabilityVerifier.verifier_command := Cli.docker_verifier_command cli;
          DockerCapabilityVerifier.method_version := TrustedVerifierImage.proof_method verifier;
          DockerCapabilityVerifier.worker_id := Cli.worker_id cli |}.

Definition probe_capabilities (v : DockerCapabilityVerifier) : prepio WorkerCapabilityProof :=
  probed ← of_proc (with_verifier v (StorageManager.probe (Cli.disk_gib cli)));
  capability ← ret_result (map_err (fun error => match error with
      | StorageError.DockerCapability _ => PreparationFailure.Docker
      | _ => PreparationFailure.Storage
      end) probed);
  let backend := StorageCapability.backend capability in
  let docker := StorageCapability.docker_bind capability in
  mret {| WorkerCapabilityProof.storage_backend := BackendCapability.backend backend;
          WorkerCapabilityProof.storage_pool_identity := BackendCapability.pool_identity backend;
          WorkerCapabilityProof.docker_daemon_id := DockerBindCapability.daemon_id docker;
          WorkerCapabilityProof.docker_verifier := DockerBindCapability.verifier docker;
          WorkerCapabilityProof.docker_method_version := DockerBindCapability.method_version docker |}.

Definition connect (store : StoreName) : prepio unit :=
  try_or (Daemon.Connect store (Cli.database_url cli)) PreparationFailure.Persistence.

Definition prepare_execution_plane : prepio (WorkerCapabilityProof * Plane) :=
  _ ← ret_result (fails (validate_storage_runtime_pairing cli os) PreparationFailure.Configuration);
  _ ← ret_result (fails (validate_host_docker_policy cli) PreparationFailure.Configuration);
  _ ← ret_result (fails (ensure_local_development_credentials_allowed cli) PreparationFailure.Configuration);
  verifier ← build_storage;
  proof ← probe_capabilities verifier;
  _ ← connect Executions;
  _ ← connect ReservationsStore;
  _ ← connect CleanupAuthorities;
  _ ← connect (ArtifactStore (Cli.state_root cli));
  let worktrees := GitWorktreeManager.with_clone_base_and_verifier (Cli.state_root cli) (Cli.clone_base cli) in
  trusted ← ret_result (fails (TrustedVerifierImage.new (Cli.docker_verifier_image cli) (Cli.docker_verifier_command cli))
              PreparationFailure.Configuration);
  made ← of_proc (embed (fun B c => Daemon.OfCredentials c) (Credentials.new (Cli.state_root cli) (secs (15 * 60))));
  broker ← ret_result (fails made PreparationFailure.Configuration);
  agent_user ← ret_result (fails (resolve_agent_user (Cli.agent_user cli) (Cli.allow_root_agent cli)) PreparationFailure.Configuration);
  runtimes ← ret_result (fails (runtime_factory cli agent_user trusted) PreparationFailure.Configuration);
  harnesses ← ret_result (fails (harness_factory cli agent_user) PreparationFailure.Configuration);
  let lifecycle := {| System.state_root := Cli.state_root cli; manager := worktrees; runtimes := runtimes;
                      harnesses := harnesses; evidence := ContentAddressed (Cli.state_root cli) |} in
  _ ← ret_result (fails (ensure_consistent_agent_user lifecycle) PreparationFailure.Configuration);
  mret (proof, {| Plane.lifecycle := lifecycle; Plane.verifier := verifier; Plane.broker := broker |}).

Definition advertisement_from_preparation (prepared : result PreparationFailure (WorkerCapabilityProof * Plane)) :
    mainio (WorkerAdvertisement * option Plane) :=
  match prepared with
  | Ok (proof, plane) => worker ← advertisement (Some proof) []; mret (worker, Some plane)
  | Err error => worker ← advertisement None [PreparationFailure.health_code error]; mret (worker, None)
  end.

(** ** The control loop *)
Definition trim_slashes (controller : string) : string := trim_end_char "/" controller.
Definition workers_url : string := (trim_slashes (Cli.controller cli) +:+ "/api/" +:+ API_VERSION +:+ "/workers")%string.
Definition heartbeat_url (worker : WorkerAdvertisement) : string :=
  (workers_url +:+ "/" +:+ WorkerAdvertisement.id worker +:+ "/heartbeat")%string.

(** A failed request or poll waits and doubles the wait. *)
Definition back_off (now : Z) (c : Control) : Control :=
  Control.set_heartbeat (now + Control.backoff c) (Z.min (Control.backoff c * 2) (secs 30)) (Control.registered c) c.

(** What precedes the loop. *)
Definition start (worker : WorkerAdvertisement) (plane : option Plane) : mainio Control :=
  heartbeat_due ← ask Daemon.InstantNow;
  preparation_due ← ask Daemon.InstantNow;
  let with_ worker plane retry due tasks :=
    {| Control.worker := worker; Control.plane := plane; Control.registered := false; Control.backoff := secs 1;
       Control.heartbeat_due := heartbeat_due; Control.retry := retry; Control.preparation_due := due;
       Control.tasks := tasks; Control.collecting := false |} in
  let '(delay, retry) := record_failure (secs 1) in
  match plane with
  | Some p =>
      recovered ← ask (Daemon.ReconcileStartup p (WorkerAdvertisement.id worker));
      match recovered with
      | Ok tasks => mret (with_ worker (Some p) (secs 1) preparation_due tasks)
      | Err _ =>
          worker ← advertisement None [PreparationFailure.health_code PreparationFailure.Recovery];
          mret (with_ worker None retry (preparation_due + delay) [])
      end
  | None => mret (with_ worker None retry (preparation_due + delay) [])
  end.

Definition prepare_again (c : Control) : mainio Control :=
  prepared ← of_proc prepare_execution_plane;
  let failed (failure : PreparationFailure) : mainio Control :=
    let '(delay, retry) := record_failure (Control.retry c) in
    now ← ask Daemon.InstantNow;
    worker ← advertisement None [PreparationFailure.health_code failure];
    mret (Control.set_unprepared worker (now + delay) retry c) in
  match prepared with
  | Ok (proof, plane) =>
      recovered ← ask (Daemon.ReconcileStartup plane (WorkerAdvertisement.id (Control.worker c)));
      match recovered with
      | Ok tasks =>
          worker ← advertisement (Some proof) [];
          now ← ask Daemon.InstantNow;
          mret {| Control.worker := worker; Control.plane := Some plane; Control.registered := false;
                  Control.backoff := Control.backoff c; Control.heartbeat_due := now; Control.retry := record_success;
                  Control.preparation_due := Control.preparation_due c; Control.tasks := tasks;
                  Control.collecting := Control.collecting c |}
      | Err _ => failed PreparationFailure.Recovery
      end
  | Err failure => failed failure
  end.

Definition prepare_if_due (c : Control) : mainio Control :=
  match Control.plane c with
  | Some _ => mret c
  | None =>
      now ← ask Daemon.InstantNow;
      if Control.preparation_due c <=? now then prepare_again c else mret c
  end.

(** [Vec::swap_remove]. *)
Definition swap_remove (i : nat) (tasks : list Task) : list Task :=
  match last tasks with
  | Some t => take (length tasks - 1) (<[i := t]> tasks)
  | None => []
  end.

(** Finished tasks are joined, from the last to the first. *)
Fixpoint reap (index : nat) (tasks : list Task) : mainio (list Task) :=
  match index with
  | O => mret tasks
  | S index =>
      task ← some_or (tasks !! index) "index out of bounds"%string;
      finished ← ask (Daemon.IsFinished task);
      if (finished : bool)
      then _ ← ask (Daemon.Join task); reap index (swap_remove index tasks)
      else reap index tasks
  end.

(** Executions are claimed while a slot is free; [free] is their number. *)
Fixpoint claim_slots (free : nat) (c : Control) : mainio Control :=
  match free with
  | O => mret c
  | S free =>
      reserved ← ask (Daemon.ReserveNext (WorkerAdvertisement.id (Control.worker c)));
      match reserved with
      | Ok (Some execution) =>
          task ← ask (Daemon.Spawn execution);
          claim_slots free (Control.set_tasks (Control.tasks c ++ [task]) c)
      | Ok None => mret c
      | Err _ => now ← ask Daemon.InstantNow; mret (back_off now c)
      end
  end.

Definition claim (c : Control) : mainio Control :=
  match Control.plane c with
  | Some _ =>
      if Control.registered c
      then claim_slots (Z.to_nat (Cli.concurrency cli) - length (Control.tasks c)) c
      else mret c
  | None => mret c
  end.

Definition reconcile (c : Control) : mainio unit :=
  match Control.plane c with
  | Some _ =>
      _ ← ask (Daemon.ReconcileTick (WorkerAdvertisement.id (Control.worker c)) (Control.tasks c)); mret tt
  | None => mret tt
  end.

(** [CacheCollector::on_verdict]: a pass under pressure, one at a time. *)
Definition collect (verdict : DiskVerdict) (c : Control) : mainio Control :=
  match Cli.build_cache_root cli, verdict with
  | None, _ | _, DiskVerdict.Ok => mret c
  | Some _, _ =>
      running ← (if Control.collecting c
                 then finished ← ask Daemon.CollectorFinished; mret (negb (finished : bool))
                 else mret false);
      if (running : bool) then mret c
      else _ ← ask Daemon.StartCollector; mret (Control.set_collecting true c)
  end.

Definition beat (policy : DiskPolicy) (c : Control) : mainio Control :=
  now ← ask Daemon.InstantNow;
  if negb (Control.heartbeat_due c <=? now) then mret c
  else
    sampled ← ask (Daemon.SampleDisk (Cli.state_root cli));
    let '(advertised, verdict) := heartbeat_assessed (Control.worker c) policy sampled in
    c ← collect verdict c;
    let url := if Control.registered c then heartbeat_url (Control.worker c) else workers_url in
    response ← ask (Daemon.Post url (Cli.worker_token cli) advertised);
    now ← ask Daemon.InstantNow;
    mret (match response with
          | Ok status =>
              match control_disposition (Control.registered c) status with
              | Registered => Control.set_heartbeat (now + secs 30) (secs 1) true c
              | ReRegister => Control.set_heartbeat now (secs 1) false c
              | Retry => back_off now c
              end
          | Err _ => back_off now c
          end).

(** A pass of the loop, up to the wait. *)
Definition turn (policy : DiskPolicy) (c : Control) : mainio Control :=
  c ← prepare_if_due c;
  tasks ← reap (length (Control.tasks c)) (Control.tasks c);
  c ← claim (Control.set_tasks tasks c);
  _ ← reconcile c;
  beat policy c.

Definition shut_down (c : Control) : mainio unit :=
  _ ← each (fun task =>
        match Control.plane c with
        | None => mret tt
        | Some _ => _ ← ask (Daemon.RequestCancellation task.2); ask (Daemon.Cancel task)
        end) (Control.tasks c);
  each (fun task => _ ← ask (Daemon.Join task); mret tt) (Control.tasks c).

(** The loop, for so many passes; [true] when it was told to shut down. *)
Fixpoint control_loop (fuel : nat) (policy : DiskPolicy) (c : Control) : mainio bool :=
  match fuel with
  | O => mret false
  | S fuel =>
      c ← turn policy c;
      woken ← ask Daemon.SleepOrSignal;
      match woken with
      | None => control_loop fuel policy c
      | Some signal =>
          _ ← ret_result (map_err (fun _ => "failed to listen for shutdown"%string) signal);
          _ ← shut_down c;
          mret true
      end
  end.

Definition run_control_loop (fuel : nat) (worker : WorkerAdvertisement) (plane : option Plane) : mainio bool :=
  policy ← ret_result (disk_policy cli);
  c ← start worker plane;
  control_loop fuel policy c.

Definition main (fuel : nat) : mainio bool :=
  _ ← ret_result (validate_cli cli);
  prepared ← of_proc prepare_execution_plane;
  first ← advertisement_from_preparation prepared;
  let '(worker, plane) := first in
  run_control_loop fuel worker plane.
End Worker.

(** ** The record of a daemon

    What a daemon does that others can tell, latest first; the answers are
    arbitrary. *)
Inductive event :=
| Recovered (plane : Plane) (r : result string (list Task))
| Reserved (worker : WorkerId) (r : result string (option Execution))
| Spawned (execution : Execution) (task : Task)
| Joined (task : Task)
| Posted (url token : string) (body : WorkerAdvertisement) (r : result string Z)
| CollectorStarted
| CollectorEnded
| AskedToCancel (id : ExecutionId)
| Cancelled (task : Task)
| ToldToStop.

Definition record_of {B} (c : main_call B) : B -> option event :=
  match c in Daemon.main_call B return B -> option event with
  | Daemon.ReconcileStartup plane _ => fun r => Some (Recovered plane r)
  | Daemon.ReserveNext worker => fun r => Some (Reserved worker r)
  | Daemon.Spawn execution => fun task => Some (Spawned execution task)
  | Daemon.Join task => fun _ => Some (Joined task)
  | Daemon.Post url token body => fun r => Some (Posted url token body r)
  | Daemon.StartCollector => fun _ => Some CollectorStarted
  | Daemon.CollectorFinished => fun finished => if finished then Some CollectorEnded else None
  | Daemon.RequestCancellation id => fun _ => Some (AskedToCancel id)
  | Daemon.Cancel task => fun _ => Some (Cancelled task)
  | Daemon.SleepOrSignal => fun r => match r with Some (Ok _) => Some ToldToStop | _ => None end
  | _ => fun _ => None
  end.

Definition recorded (e : option event) (h : list event) : list event :=
  match e with Some e => e :: h | None => h end.
Definition daemon_sem (B : Type) (c : main_call B) (h : list event) (b : B) (h' : list event) : Prop :=
  h' = recorded (record_of c b) h.

(** The tasks that run, the plane in use, whether the controller's last answer
    accepted this worker, and whether a pass of the collector may run. *)
Fixpoint supervised (h : list event) : gmultiset Task :=
  match h with
  | [] => ∅
  | Recovered _ (Ok tasks) :: h => list_to_set_disj tasks ⊎ supervised h
  | Spawned _ task :: h => {[+ task +]} ⊎ supervised h
  | Joined task :: h => supervised h ∖ {[+ task +]}
  | _ :: h => supervised h
  end.

Fixpoint in_use (h : list event) : option Plane :=
  match h with
  | [] => None
  | Recovered plane (Ok _) :: _ => Some plane
  | _ :: h => in_use h
  end.

Fixpoint accepted (h : list event) : bool :=
  match h with
  | [] => false
  | Recovered _ (Ok _) :: _ => false
  | Posted _ _ _ (Ok status) :: h =>
      ((200 <=? status) && (status <? 300)) || accepted h && negb (status =? 404)
  | _ :: h => accepted h
  end.

Fixpoint collecting (h : list event) : bool :=
  match h with
  | [] => false
  | CollectorStarted :: _ => true
  | CollectorEnded :: _ => false
  | _ :: h => collecting h
  end.

(** An execution that was claimed and has no task yet. *)
Definition claimed (h : list event) : option Execution :=
  match h with Reserved _ (Ok (Some execution)) :: _ => Some execution | _ => None end.

Section Lawful.
Context (os : string) (cli : Cli).

(** What the flags allow a plane to be. *)
Definition constrained (p : Plane) : Prop :=
  let runtime := runtimes (Plane.lifecycle p) in
  let harness := harnesses (Plane.lifecycle p) in
  os = "linux"%string /\ Cli.storage_kind cli = Lvm /\ Cli.allow_local_development_credentials cli = true /\
  (RuntimeFactory.inference_relay runtime = None -> Cli.allow_agent_egress cli = true) /\
  (RuntimeFactory.hardening runtime = Relaxed -> Cli.relax_container_hardening cli = true) /\
  RuntimeFactory.agent_user runtime = Cli.agent_user cli /\ HarnessFactory.agent_user harness = Cli.agent_user cli /\
  (is_root_user (Cli.agent_user cli) = true -> Cli.allow_root_agent cli = true) /\
  RuntimeFactory.socket runtime = Cli.docker_socket cli /\ HarnessFactory.docker_socket harness = Cli.docker_socket cli /\
  DockerCapabilityVerifier.docker_host (Plane.verifier p) = Cli.docker_socket cli /\
  (Cli.docker_socket cli = Some ("tcp://127.0.0.1:" +:+ show_Z (Cli.docker_proxy_port cli))%string \/
   Cli.docker_socket cli = Some "tcp://docker-api:2375"%string) /\
  forall root max, RuntimeFactory.build_cache runtime = Some (root, max) ->
    path_starts_with root (join (Cli.state_root cli) "executions") = false.

(** A proof that is of a plane's Docker daemon and verifier image. *)
Definition backed (proof : WorkerCapabilityProof) (p : Plane) : Prop :=
  let v := Plane.verifier p in
  WorkerCapabilityProof.docker_daemon_id proof = DockerCapabilityVerifier.daemon_id v /\
  WorkerCapabilityProof.docker_verifier proof = DockerCapabilityVerifier.verifier_image v /\
  WorkerCapabilityProof.docker_method_version proof = DockerCapabilityVerifier.method_version v.

Definition offers_capacity (w : WorkerAdvertisement) : Prop :=
  WorkerCapabilities.runtimes (WorkerAdvertisement.capabilities w) <> [] \/
  WorkerCapabilities.capabilities (WorkerAdvertisement.capabilities w) <> [].

(** An advertisement is in the worker's name and offers capacity only with a
    complete proof of the plane in use. *)
Definition truthful (plane : option Plane) (w : WorkerAdvertisement) : Prop :=
  WorkerAdvertisement.id w = Cli.worker_id cli /\
  (offers_capacity w -> exists p proof, plane = Some p /\ WorkerAdvertisement.capability_proof w = Some proof /\
     WorkerCapabilityProof.is_complete proof = true /\ backed proof p).

Definition legal (e : event) (h : list event) : Prop :=
  (forall execution, claimed h = Some execution -> exists task, e = Spawned execution task) /\
  match e with
  | Recovered plane _ => in_use h = None /\ supervised h = ∅ /\ constrained plane
  | Reserved worker _ => worker = Cli.worker_id cli /\ accepted h = true /\ is_Some (in_use h) /\
      Z.of_nat (size (supervised h)) < Cli.concurrency cli
  | Spawned execution _ => claimed h = Some execution
  | Posted url token body _ =>
      token = Cli.worker_token cli /\ truthful (in_use h) body /\
      url = (if accepted h then heartbeat_url cli body else workers_url cli)
  | CollectorStarted => collecting h = false /\ is_Some (Cli.build_cache_root cli)
  | Joined task | Cancelled task => task ∈ supervised h
  | _ => True
  end.

Fixpoint lawful (h : list event) : Prop :=
  match h with [] => True | e :: h => legal e h /\ lawful h end.

(** Told to stop, the daemon has asked for the cancellation of every execution
    it ran, told its task, and waited for it to end. *)
Definition drained (h : list event) : Prop :=
  exists h0 h1, h = h1 ++ ToldToStop :: h0 /\ supervised h = ∅ /\
  forall task, task ∈ supervised h0 -> Cancelled task ∈ h1 /\ AskedToCancel task.2 ∈ h1 /\ Joined task ∈ h1.
End Lawful.

Section Proofs.
Context (os arch : string) (lossy utf8_error : string -> string) (cli : Cli).
Context (flags_valid : validate_cli cli = Ok tt).
Abbreviation lawful := (lawful os cli).
Abbreviation constrained := (constrained os cli).
Abbreviation truthful := (truthful cli).

(** *** What a preparation makes *)
Lemma ends_known {C E A B} P (x : result E A) (f : A -> io C E B) (Q : result E B -> Prop) :
  (forall e, Q (Err e)) -> (forall a, x = Ok a -> ends P (f a) Q) -> ends P (ret_result x ≫= f) Q.
Proof. destruct x as [a|e]; intros He Hf; [by apply Hf|apply He]. Qed.

Abbreviation anything := (fun (B : Type) (_ : main_call B) (_ : B) => True).

Lemma build_storage_ends :
  ends anything (build_storage cli) (fun r => forall v, r = Ok v -> DockerCapabilityVerifier.docker_host v = Cli.docker_socket cli).
Proof.
  unfold build_storage. apply ends_skip; [intros []|done]. apply ends_skip; [intros trusted|done].
  apply ends_skip; [intros output|done]. apply ends_skip; [intros []|done]. apply ends_skip; [intros text|done]. cbv zeta.
  apply ends_skip; [intros []|done]. apply ends_skip; [intros []|done]. by intros v [= <-].
Qed.

Lemma probe_capabilities_ends v :
  ends anything (probe_capabilities lossy utf8_error cli v)
    (fun r => forall proof, r = Ok proof -> forall p, Plane.verifier p = v -> backed proof p).
Proof.
  unfold probe_capabilities. apply ends_io_bind. unfold of_proc. apply ends_bind. 
  eapply (ends_mono _ _ (fun r => forall c, r = Ok c ->
    DockerBindCapability.daemon_id (StorageCapability.docker_bind c) = DockerCapabilityVerifier.daemon_id v /\
    DockerBindCapability.verifier (StorageCapability.docker_bind c) = DockerCapabilityVerifier.verifier_image v /\
    DockerBindCapability.method_version (StorageCapability.docker_bind c) = DockerCapabilityVerifier.method_version v)).
  - unfold StorageManager.probe. destruct (disk_gib_to_bytes (Cli.disk_gib cli)) as [bytes|e]; [|done].
    simpl. intros [backend|e] _; simpl; [|done]. intros [output|e] _; simpl; [|done].
    destruct (check _ _) as [[]|e]; simpl; [|done].
    destruct (DockerBindCapability.validate _) as [[]|e]; simpl; [|done]. by intros c [= <-].
  - intros [c|e] Hr; simpl; [|done]. intros proof [= <-] p <-. by apply Hr.
Qed.


Lemma relay_allowed relay : resolve_relay cli = Ok relay -> relay = None -> Cli.allow_agent_egress cli = true.
Proof.
  unfold resolve_relay. intros Hr ->. destruct (set_flag _) as [u|], (set_flag _) as [i|], (Cli.allow_agent_egress cli);
    try done. by destruct (validate_inference_relay _).
Qed.

Lemma agent_user_allowed user : resolve_agent_user (Cli.agent_user cli) (Cli.allow_root_agent cli) = Ok user ->
  user = Cli.agent_user cli /\ (is_root_user (Cli.agent_user cli) = true -> Cli.allow_root_agent cli = true).
Proof.
  unfold resolve_agent_user, is_root_user. destruct (Docker.validate_agent_user _); [|done]. simpl.
  destruct (split ":" (Cli.agent_user cli)) as [|uid rest].
  - destruct (negb _) eqn:Hn; simpl; [done|]. intros [= <-]. by apply negb_false_iff in Hn.
  - destruct (_ && _) eqn:Hn; [done|]. intros [= <-]. split; [done|]. intros Hu%bool_decide_eq_true. rewrite Hu in Hn.
    simpl in Hn. by apply negb_false_iff in Hn.
Qed.

Lemma build_cache_outside root :
  Cli.build_cache_root cli = Some root -> path_starts_with root (join (Cli.state_root cli) "executions") = false.
Proof.
  intros Hc. revert flags_valid. unfold validate_cli, validate_build_cache. rewrite Hc.
  destruct (disk_policy cli); [|done]. destruct (toolchain_map _); [|done]. simpl.
  destruct (is_absolute root); [|done]. simpl. by destruct (path_starts_with root _).
Qed.

Lemma runtime_factory_made user trusted f : runtime_factory cli user trusted = Ok f ->
  RuntimeFactory.agent_user f = user /\ RuntimeFactory.socket f = Cli.docker_socket cli /\
  RuntimeFactory.hardening f = container_hardening cli /\
  resolve_relay cli = Ok (RuntimeFactory.inference_relay f) /\
  forall root max, RuntimeFactory.build_cache f = Some (root, max) -> Cli.build_cache_root cli = Some root.
Proof.
  unfold runtime_factory, RuntimeFactory.with_agent_user. destruct (Docker.validate_agent_user user); [|done]. simpl.
  destruct (resolve_relay cli) as [relay|]; [|done]. simpl. intros [= <-].
  destruct (Cli.build_cache_root cli) as [root|]; split_and!; try done; by intros ? ? [= -> _].
Qed.

Lemma harness_factory_made user f : harness_factory cli user = Ok f ->
  HarnessFactory.agent_user f = user /\ HarnessFactory.docker_socket f = Cli.docker_socket cli.
Proof.
  unfold harness_factory, HarnessFactory.with_agent_user. destruct (PiHarness.validate_agent_user user); [|done].
  by intros [= <-].
Qed.

Lemma docker_endpoint : validate_host_docker_policy cli = Ok tt ->
  Cli.docker_socket cli = Some ("tcp://127.0.0.1:" +:+ show_Z (Cli.docker_proxy_port cli))%string \/
  Cli.docker_socket cli = Some "tcp://docker-api:2375"%string.
Proof.
  unfold validate_host_docker_policy. destruct (Cli.host_docker cli); [|done]. simpl.
  destruct (negb (Cli.docker_proxy_port cli =? 0)); [|done]. simpl.
  destruct (_ || _) eqn:He; [|done]. intros _.
  apply orb_true_iff in He as [He%bool_decide_eq_true|[_ He%bool_decide_eq_true]%andb_true_iff]; auto.
Qed.

Lemma fails_ok {A E} (r : result E A) f a : fails r f = Ok a -> r = Ok a.
Proof. destruct r; [by intros [= ->]|done]. Qed.

Lemma prepare_ends :
  ends anything (prepare_execution_plane os lossy utf8_error cli)
    (fun r => forall proof p, r = Ok (proof, p) -> constrained p /\ backed proof p).
Proof.
  unfold prepare_execution_plane.
  apply ends_known; [done|]. intros [] Hos%fails_ok. apply ends_known; [done|]. intros [] Hd%fails_ok%docker_endpoint.
  apply ends_known; [done|]. intros [] Hl%fails_ok.
  apply ends_io_bind. eapply ends_mono; [apply build_storage_ends|]. intros [v|e] Hv; [|done]. specialize (Hv v eq_refl).
  apply ends_io_bind. eapply ends_mono; [apply probe_capabilities_ends|]. intros [proof|e] Hp; [|done]. specialize (Hp proof eq_refl).
  do 4 (apply ends_skip; [intros []|done]). cbv zeta. apply ends_known; [done|]. intros trusted _.
  apply ends_skip; [intros made|done]. apply ends_known; [done|]. intros broker _.
  apply ends_known; [done|]. intros user [-> Hroot]%fails_ok%agent_user_allowed.
  apply ends_known; [done|]. intros runtime (Hu & Hs & Hh & Hr & Hc)%fails_ok%runtime_factory_made.
  apply ends_known; [done|]. intros harness [Hhu Hhs]%fails_ok%harness_factory_made.
  apply ends_known; [done|]. intros [] _. intros proof' p [= <- <-]. split; [|by apply Hp].
  unfold validate_storage_runtime_pairing in Hos. unfold constrained. simpl.
  destruct (Cli.storage_kind cli); [done|]. destruct (String.eqb_spec os "linux") as [->|]; [|done].
  split_and!; try done.
  - unfold ensure_local_development_credentials_allowed, check in Hl. by destruct (Cli.allow_local_development_credentials cli).
  - by apply relay_allowed.
  - rewrite Hh. unfold container_hardening. by destruct (Cli.relax_container_hardening cli).
  - intros root max Hb. by eapply build_cache_outside, Hc.
Qed.

(** *** The loop *)
Definition silent (B : Type) (c : main_call B) : Prop := forall b, record_of c b = None.
Definition keeps_law (h h' : list event) : Prop := lawful h -> lawful h'.
Definition unchanged (h h' : list event) : Prop := h' = h.

#[local] Instance daemon_rely : Rely daemon_sem quiet keeps_law unchanged silent.
Proof.
  split; [done|]. intros B c h b h' Hc Hs. unfold daemon_sem in Hs. rewrite Hc in Hs. simpl in Hs. subst.
  split; [by intros ?|done].
Qed.

Lemma settled (I : list event -> Prop) : stable unchanged I.
Proof. by intros h h' ->. Qed.

Abbreviation yields := (ensures (E := string) daemon_sem quiet keeps_law lawful).

(** A call and what is recorded of it. *)
Lemma yields_call {A} (c : main_call A) (R : A -> list event -> Prop) h :
  lawful h -> (forall a, (forall e, record_of c a = Some e -> legal os cli e h) /\ R a (recorded (record_of c a) h)) ->
  yields R (ask c) h.
Proof.
  intros Hh Hc. apply (ensures_change (rely := unchanged) (P := silent) lawful (fun h1 => h1 = h)).
  1,2: apply settled.
  - intros a. apply settled.
  - done.
  - intros h1 a h2 -> Hs. destruct (Hc a) as [He Ha]. unfold daemon_sem in Hs. subst h2.
    assert (lawful (recorded (record_of c a) h)) as Hl.
    { destruct (record_of c a) as [e|]; [|done]. split; [by apply He|done]. }
    split_and!; [by intros _|done|done].
Qed.

Lemma daemon_bind {A B} (R : A -> list event -> Prop) (R' : B -> list event -> Prop) m (f : A -> mainio B) h :
  yields R m h -> (forall a h', lawful h' -> R a h' -> yields R' (f a) h') -> yields R' (m ≫= f) h.
Proof. intros Hm Hf. by eapply (ensures_bind (rely := unchanged) (P := silent)); [apply settled|exact Hm|]. Qed.

Lemma yields_ret {A} (R : A -> list event -> Prop) (a : A) h : lawful h -> R a h -> yields R (mret a) h.
Proof. intros Hh Ha. apply (ensures_ret (rely := unchanged) (P := silent)); try done; apply settled. Qed.

(** A call that is not recorded. *)
Lemma yields_quietly {A B} (R : B -> list event -> Prop) (c : main_call A) (f : A -> mainio B) h :
  silent A c -> lawful h -> (forall a, yields R (f a) h) -> yields R (ask c ≫= f) h.
Proof.
  intros Hc Hh Hf. eapply (daemon_bind (fun _ h' => h' = h)); [|intros a h' _ ->; apply Hf].
  apply yields_call; [done|]. intros a. split; [intros e; by rewrite (Hc a)|by rewrite (Hc a)].
Qed.

Lemma yields_known {A B} (R : B -> list event -> Prop) (x : result string A) (f : A -> mainio B) h :
  lawful h -> (forall a, x = Ok a -> yields R (f a) h) -> yields R (ret_result x ≫= f) h.
Proof. intros Hh Hf. by apply (ensures_known (rely := unchanged) (P := silent)); [apply settled|..]. Qed.

(** A program whose calls are not recorded, with what its result is. *)
Lemma yields_unrecorded {E A B} (R : B -> list event -> Prop) (p : io main_call E A) (Q : result E A -> Prop) (f : result E A -> mainio B) h :
  all_calls silent p -> ends anything p Q -> lawful h -> (forall r, Q r -> yields R (f r) h) ->
  yields R (of_proc p ≫= f) h.
Proof.
  intros Hp HQ Hh Hf. apply (daemon_bind (fun r h' => h' = h /\ Q r)); [|by intros r h' _ [-> Hr]; apply Hf].
  apply chl_bind. eapply chl_mono.
  - apply (chl_ends anything _ _ _ _ (fun _ h' => h' = h) Q); [done|exact HQ|].
    apply (chl_stable silent); [by intros ?? []|intros B' c s b s' Hc Hs ->; by destruct (rely_step _ _ _ _ _ Hc Hs) as [? ->]|done|done].
  - intros r h' [-> Hr] h1 ->%rtc_quiet. split; [done|]. by intros a [= <-].
Qed.

(** What the locals of the loop have to do with the record. *)
Record agrees (c : Control) (h : list event) : Prop := {
  agrees_claimed : claimed h = None;
  agrees_plane : in_use h = Control.plane c;
  agrees_registered : accepted h = Control.registered c;
  agrees_tasks : supervised h = list_to_set_disj (Control.tasks c);
  agrees_collecting : collecting h = true -> Control.collecting c = true;
  agrees_unprepared : Control.plane c = None -> Control.tasks c = [];
  agrees_worker : truthful (Control.plane c) (Control.worker c)
}.

Lemma quiet_ask_or {E A F} (c : main_call (result F A)) (f : F -> E) : silent _ c -> all_calls silent (ask_or c f).
Proof. intros Hc. split; [exact Hc|]. by intros [a|e]. Qed.

Ltac quiet :=
  repeat first [ exact I | apply all_calls_io_bind; [|intros ?] | apply quiet_ask_or; intros ?; reflexivity
               | case_match | progress cbv zeta ].

Lemma quiet_verified v B (c : storage_call B) : all_calls silent (verified_call lossy utf8_error v B c).
Proof. destruct c; simpl verified_call; try (split; [by intros ?|done]); unfold verifier_probe, verifier_verify; quiet. Qed.

Lemma quiet_with_verifier v {A} (p : proc storage_call A) : all_calls silent (with_verifier lossy utf8_error v p).
Proof. induction p as [a|B c k IH]; simpl; [done|]. apply all_calls_bind; [apply quiet_verified|exact IH]. Qed.

Lemma quiet_prepare : all_calls silent (prepare_execution_plane os lossy utf8_error cli).
Proof.
  unfold prepare_execution_plane, build_storage, probe_capabilities, connect, try_or. quiet.
  - apply all_calls_of_proc, quiet_with_verifier.
  - apply all_calls_of_proc, all_calls_embed, (all_calls_impl (fun _ _ => True)); [by intros ??? ?|].
    generalize (Credentials.new (Cli.state_root cli) (secs (15 * 60))). intros p. by induction p.
Qed.

Lemma yields_advertisement proof errors (plane : option Plane) h :
  lawful h -> (forall w, proof = Some w -> exists p, plane = Some p /\ backed w p) ->
  yields (fun w h' => h' = h /\ truthful plane w) (advertisement os arch cli proof errors) h.
Proof.
  intros Hh Hp. unfold advertisement, guard_or. apply yields_known; [done|]. intros [] _.
  apply yields_known; [done|]. intros toolchains _. apply yields_quietly; [by intros ?|done|]. intros cpus.
  apply yields_ret; [done|]. split; [done|]. split; [done|]. unfold offers_capacity. simpl.
  destruct proof as [w|]; [|by intros [[]|[]]].
  destruct (WorkerCapabilityProof.is_complete w) eqn:Hc; [|by intros [[]|[]]].
  intros _. destruct (Hp w eq_refl) as (p & -> & Hb). by exists p, w.
Qed.

Lemma agrees_change c c' h :
  agrees c h -> Control.plane c' = Control.plane c -> Control.registered c' = Control.registered c ->
  Control.tasks c' = Control.tasks c -> Control.collecting c' = Control.collecting c ->
  Control.worker c' = Control.worker c -> agrees c' h.
Proof. intros [] Hp Hr Ht Hc Hw. split; rewrite ?Hp, ?Hr, ?Ht, ?Hc, ?Hw; done. Qed.

Lemma yields_advert_bind {A} (R : A -> list event -> Prop) proof errors (plane : option Plane) (f : WorkerAdvertisement -> mainio A) h :
  lawful h -> (forall w, proof = Some w -> exists p, plane = Some p /\ backed w p) ->
  (forall w, truthful plane w -> yields R (f w) h) -> yields R (advertisement os arch cli proof errors ≫= f) h.
Proof. intros Hh Hp Hf. eapply daemon_bind; [by apply yields_advertisement|]. intros w h' _ [-> Hw]. by apply Hf. Qed.

Lemma yields_start worker plane :
  truthful plane worker -> (forall p, plane = Some p -> constrained p) ->
  yields agrees (start os arch cli worker plane) [].
Proof.
  intros Hw Hp. unfold start. do 2 (apply yields_quietly; [by intros ?|done|]; intros ?). cbn [record_failure].
  destruct plane as [p|].
  - eapply (daemon_bind (fun r h => h = [Recovered p r])).
    { apply yields_call; [done|]. intros r. split; [|done]. intros e [= <-]. split; [done|]. split_and!; [done|done|by apply Hp]. }
    intros [tasks|e] h Hh ->.
    + apply yields_ret; [done|]. split; try done. simpl. apply (right_id_L ∅ (⊎)).
    + apply yields_advert_bind with None; [done|done|]. intros w Hw'. apply yields_ret; [done|]. by split.
  - apply yields_ret; [done|]. by split.
Qed.

Lemma yields_prepare_again c h :
  Control.plane c = None -> agrees c h -> lawful h -> yields agrees (prepare_again os arch lossy utf8_error cli c) h.
Proof.
  intros Hn Ha Hh. unfold prepare_again. eapply yields_unrecorded; [apply quiet_prepare|apply prepare_ends|done|].
  assert (forall failure h, agrees c h -> lawful h -> yields agrees
    (let '(delay, retry) := record_failure (Control.retry c) in
     now ← ask Daemon.InstantNow;
     worker ← advertisement os arch cli None [PreparationFailure.health_code failure];
     mret (Control.set_unprepared worker (now + delay) retry c)) h) as Hfailed.
  { intros failure h1 Ha1 Hh1. cbn [record_failure]. apply yields_quietly; [by intros ?|done|]. intros now.
    apply yields_advert_bind with None; [done|done|]. intros w Hw. apply yields_ret; [done|].
    destruct Ha1. split; try done. simpl. by rewrite Hn. }
  intros [[proof plane]|failure] Hr; [|by apply Hfailed].
  destruct (Hr proof plane eq_refl) as [Hc Hb]. destruct Ha as [Hcl Hpl Hrg Hts Hco Hu Hwk].
  eapply (daemon_bind (fun r h' => h' = Recovered plane r :: h)).
  { apply yields_call; [done|]. intros r. split; [|done]. intros e [= <-]. split; [by rewrite Hcl|].
    split_and!; [by rewrite Hpl|by rewrite Hts, (Hu Hn)|done]. }
  intros [tasks|e] h' Hh' ->.
  - apply yields_advert_bind with (Some plane); [done|by intros ? [= <-]; exists plane|]. intros w Hw.
    apply yields_quietly; [by intros ?|done|]. intros now. apply yields_ret; [done|].
    split; try done. simpl. rewrite Hts, (Hu Hn). apply (right_id_L ∅ (⊎)).
  - apply Hfailed; [|done]. by split.
Qed.

Lemma yields_prepare_if_due c h : agrees c h -> lawful h -> yields agrees (prepare_if_due os arch lossy utf8_error cli c) h.
Proof.
  intros Ha Hh. unfold prepare_if_due. destruct (Control.plane c) as [p|] eqn:Hp; [by apply yields_ret|].
  apply yields_quietly; [by intros ?|done|]. intros now. destruct (_ <=? now); [by apply yields_prepare_again|by apply yields_ret].
Qed.

Lemma size_of_list (l : list Task) : size (list_to_set_disj l : gmultiset Task) = length l.
Proof.
  induction l as [|t l IH]; [done|]. by rewrite list_to_set_disj_cons, gmultiset_size_disj_union, gmultiset_size_singleton, IH.
Qed.

Lemma swap_remove_spec i t ts : ts !! i = Some t -> ts ≡ₚ t :: swap_remove i ts.
Proof.
  intros Hi. unfold swap_remove. destruct (last ts) as [x|] eqn:Hl; [|apply last_None in Hl; by subst].
  apply last_Some in Hl as [l ->]. rewrite length_app. simpl. replace (length l + 1 - 1)%nat with (length l) by lia.
  destruct (decide (i < length l)%nat) as [Hlt|Hge].
  - rewrite lookup_app_l in Hi by done. rewrite insert_app_l, take_app_length' by (done || by rewrite length_insert).
    rewrite insert_take_drop by done. rewrite <- (take_drop_middle l i t Hi) at 1. solve_Permutation.
  - assert (i = length l) as -> by (apply lookup_lt_Some in Hi; rewrite length_app in Hi; simpl in Hi; lia).
    rewrite lookup_app_r, Nat.sub_diag in Hi by done. simpl in Hi. injection Hi as ->.
    rewrite insert_app_r_alt, take_app_length by done. by rewrite Permutation_app_comm.
Qed.

Lemma yields_reap c index ts h :
  (index <= length ts)%nat -> agrees (Control.set_tasks ts c) h -> lawful h ->
  yields (fun ts h' => agrees (Control.set_tasks ts c) h') (reap index ts) h.
Proof.
  revert ts h. induction index as [|index IH]; intros ts h Hi Ha Hh; [by apply yields_ret|]. cbn [reap].
  destruct (lookup_lt_is_Some_2 ts index) as [t Ht]; [lia|]. rewrite Ht.
  apply yields_known; [done|]. intros t' [= <-]. apply yields_quietly; [by intros []| |]; [done|].
  intros [|]; cbv beta iota.
  2: { apply IH; [lia|done..]. }
  pose proof (swap_remove_spec index t ts Ht) as Hs. pose proof (Permutation_length Hs) as Hlen. simpl in Hlen.
  destruct Ha as [Hcl Hpl Hrg Hts Hco Hu Hwk]. simpl in Hpl, Hrg, Hts, Hco, Hu, Hwk.
  eapply (daemon_bind (fun _ h' => h' = Joined t :: h)).
  { apply yields_call; [done|]. intros r. split; [|done]. intros e [= <-]. split; [by rewrite Hcl|].
    rewrite Hts, elem_of_list_to_set_disj. by eapply list_elem_of_lookup_2. }
  intros _ h' Hh' ->. apply IH; [lia| |done]. split; try done; simpl.
  - assert (list_to_set_disj ts = {[+ t +]} ⊎ list_to_set_disj (swap_remove index ts) :> gmultiset Task) as Hm
      by (rewrite <- list_to_set_disj_cons; by apply list_to_set_disj_perm).
    rewrite Hts, Hm. multiset_solver.
  - intros Hn. rewrite (Hu Hn) in Ht. done.
Qed.

Lemma yields_claim_slots free c h :
  Control.registered c = true -> is_Some (Control.plane c) ->
  Z.of_nat (length (Control.tasks c) + free) <= Cli.concurrency cli -> agrees c h -> lawful h ->
  yields agrees (claim_slots free c) h.
Proof.
  revert c h. induction free as [|free IH]; intros c h Hr Hp Hf Ha Hh; [by apply yields_ret|]. cbn [claim_slots].
  destruct Ha as [Hcl Hpl Hrg Hts Hco Hu Hwk].
  eapply (daemon_bind (fun r h' => h' = Reserved (WorkerAdvertisement.id (Control.worker c)) r :: h)).
  { apply yields_call; [done|]. intros r. split; [|done]. intros e [= <-]. split; [by rewrite Hcl|].
    destruct Hwk as [-> _]. rewrite Hrg, Hpl, Hts, size_of_list. split_and!; [done..|lia]. }
  intros [[execution|]|e] h' Hh' ->.
  - eapply (daemon_bind (fun t h' => h' = Spawned execution t :: Reserved (WorkerAdvertisement.id (Control.worker c)) (Ok (Some execution)) :: h)).
    { apply yields_call; [done|]. intros t. split; [|done]. intros e [= <-]. split; [|done].
      intros x [= <-]. by exists t. }
    intros t h' Hh'' ->. apply IH; [done|done|simpl; rewrite length_app; simpl; lia| |done].
    split; try done; simpl.
    + rewrite Hts, list_to_set_disj_app. multiset_solver.
    + intros Hn. rewrite Hn in Hp. by destruct Hp.
  - apply yields_ret; [done|]. by split.
  - apply yields_quietly; [by intros ?|done|]. intros now. apply yields_ret; [done|]. by split.
Qed.

Lemma yields_claim c h : agrees c h -> lawful h -> yields agrees (claim cli c) h.
Proof.
  intros Ha Hh. unfold claim. destruct (Control.plane c) as [p|] eqn:Hp; [|by apply yields_ret].
  destruct (Control.registered c) eqn:Hr; [|by apply yields_ret].
  destruct (decide (length (Control.tasks c) < Z.to_nat (Cli.concurrency cli))%nat) as [Hlt|Hge].
  - apply yields_claim_slots; [done|by exists p|lia|done..].
  - replace (Z.to_nat (Cli.concurrency cli) - length (Control.tasks c))%nat with 0%nat by lia. by apply yields_ret.
Qed.

Lemma yields_reconcile c h : agrees c h -> lawful h -> yields (fun _ h' => agrees c h') (reconcile c) h.
Proof.
  intros Ha Hh. unfold reconcile. destruct (Control.plane c) as [p|]; [|by apply yields_ret].
  apply yields_quietly; [by intros ?|done|]. intros r. by apply yields_ret.
Qed.

Lemma yields_collect verdict c h : agrees c h -> lawful h ->
  yields (fun c' h' => agrees c' h' /\ Control.registered c' = Control.registered c /\ Control.worker c' = Control.worker c /\
    Control.plane c' = Control.plane c) (collect cli verdict c) h.
Proof.
  intros Ha Hh. unfold collect.
  assert (yields (fun c' h' => agrees c' h' /\ Control.registered c' = Control.registered c /\
    Control.worker c' = Control.worker c /\ Control.plane c' = Control.plane c) (mret c) h) as Hsame by by apply yields_ret.
  destruct (Cli.build_cache_root cli) as [root|] eqn:Hroot; [|done].
  assert (yields (fun c' h' => agrees c' h' /\ Control.registered c' = Control.registered c /\ Control.worker c' = Control.worker c /\
      Control.plane c' = Control.plane c)
    (running ← (if Control.collecting c then finished ← ask Daemon.CollectorFinished; mret (negb (finished : bool)) else mret false);
     if (running : bool) then mret c else _ ← ask Daemon.StartCollector; mret (Control.set_collecting true c)) h) as Hpass.
  2: { by destruct verdict. }
  clear Hsame. apply (daemon_bind (fun running h' => agrees c h' /\ (running = false -> collecting h' = false))).
  { destruct (Control.collecting c) eqn:Hc.
    - apply (daemon_bind (fun finished h' => agrees c h' /\ (finished = true -> collecting h' = false))).
      + apply yields_call; [done|]. destruct Ha as [Hcl Hpl Hrg Hts Hco Hu Hwk]. intros [|]; simpl; split.
        * intros e [= <-]. split; [by rewrite Hcl|done].
        * split; [|done]. by split.
        * by intros e.
        * by split; [split|].
      + intros finished h' Hh' [Ha' Hf]. apply yields_ret; [done|]. split; [done|]. destruct finished; [intros _; by apply Hf|done].
    - apply yields_ret; [done|]. split; [done|]. intros _. destruct Ha as [_ _ _ _ Hco _ _].
      destruct (collecting h); [by rewrite Hco in Hc|done]. }
  intros [|] h' Hh' [Ha' Hf]; [by apply yields_ret|]. specialize (Hf eq_refl).
  destruct Ha' as [Hcl Hpl Hrg Hts Hco Hu Hwk].
  eapply (daemon_bind (fun _ h1 => h1 = CollectorStarted :: h')).
  { apply yields_call; [done|]. intros r. split; [|done]. intros e [= <-]. split; [by rewrite Hcl|]. split; [done|]. by rewrite Hroot. }
  intros _ h1 Hh1 ->. apply yields_ret; [done|]. split; [|done]. by split.
Qed.

Lemma truthful_assessed plane w policy sampled :
  truthful plane w -> truthful plane (heartbeat_assessed w policy sampled).1.
Proof.
  intros Hw. unfold heartbeat_assessed. destruct (DiskPolicy.assess policy sampled) as [| |reason]; [done..|].
  simpl. by destruct (existsb _ _).
Qed.

Lemma yields_beat policy c h : agrees c h -> lawful h -> yields agrees (beat cli policy c) h.
Proof.
  intros Ha Hh. unfold beat. apply yields_quietly; [by intros ?|done|]. intros now.
  destruct (negb _); [by apply yields_ret|]. apply yields_quietly; [by intros ?|done|]. intros sampled.
  pose proof (truthful_assessed (Control.plane c) (Control.worker c) policy sampled (agrees_worker _ _ Ha)) as Hw.
  assert (WorkerAdvertisement.id (heartbeat_assessed (Control.worker c) policy sampled).1 = WorkerAdvertisement.id (Control.worker c)) as Hid
    by (destruct Hw as [-> _]; by destruct (agrees_worker _ _ Ha) as [-> _]).
  destruct (heartbeat_assessed (Control.worker c) policy sampled) as [advertised verdict]. simpl in Hw, Hid.
  eapply daemon_bind; [by apply yields_collect|]. intros c1 h1 Hh1 (Ha1 & Hr & Hwk & Hp). cbv zeta.
  set (url := if Control.registered c1 then _ else _).
  destruct Ha1 as [Hcl Hpl Hrg Hts Hco Hu Hwk1].
  eapply (daemon_bind (fun r h2 => h2 = Posted url (Cli.worker_token cli) advertised r :: h1)).
  { apply yields_call; [done|]. intros r. split; [|done]. intros e [= <-]. split; [by rewrite Hcl|]. split_and!; [done| |].
    - by rewrite Hpl, Hp.
    - rewrite Hrg. unfold url, heartbeat_url. by rewrite Hid, Hwk. }
  intros response h2 Hh2 ->. apply yields_quietly; [by intros ?|done|]. intros later.
  apply yields_ret; [done|]. destruct response as [status|e]; [|by split].
  unfold control_disposition. destruct ((200 <=? status) && (status <? 300)) eqn:Hok; [by split; simpl; rewrite ?Hok|].
  destruct (Control.registered c1 && (status =? 404)) eqn:Hnf.
  - apply andb_true_iff in Hnf as [H1 H2]. split; simpl; try done. by rewrite Hok, Hrg, H1, H2.
  - split; simpl; try done. rewrite Hok, Hrg. simpl. apply andb_false_iff in Hnf. by destruct (Control.registered c1), (status =? 404), Hnf.
Qed.

Lemma yields_turn policy c h : agrees c h -> lawful h -> yields agrees (turn os arch lossy utf8_error cli policy c) h.
Proof.
  intros Ha Hh. unfold turn. eapply daemon_bind; [by apply yields_prepare_if_due|]. intros c1 h1 Hh1 Ha1.
  eapply daemon_bind; [apply (yields_reap c1)|]; [done| |done|].
  { by apply (agrees_change c1). }
  intros ts h2 Hh2 Ha2. eapply daemon_bind; [by apply yields_claim|]. intros c3 h3 Hh3 Ha3.
  eapply daemon_bind; [by apply yields_reconcile|]. intros [] h4 Hh4 Ha4. by apply yields_beat.
Qed.

(** The tasks are told, then waited for. *)
Lemma yields_told tasks h :
  claimed h = None -> (forall t, t ∈ tasks -> t ∈ supervised h) -> lawful h ->
  yields (fun _ h' => exists h2, h' = h2 ++ h /\ supervised h' = supervised h /\ claimed h' = None /\
      forall t, t ∈ tasks -> Cancelled t ∈ h2 /\ AskedToCancel t.2 ∈ h2)
    (each (fun task : Task =>
        _ ← ask (Daemon.RequestCancellation task.2); ask (Daemon.Cancel task) : mainio unit) tasks) h.
Proof.
  revert h. induction tasks as [|t tasks IH]; intros h Hcl Ht Hh; cbn [each].
  - apply yields_ret; [done|]. exists []. split_and!; [done..|]. by intros t ?%not_elem_of_nil.
  - eapply (daemon_bind (fun _ h' => h' = Cancelled t :: AskedToCancel t.2 :: h)).
    { eapply (daemon_bind (fun _ h' => h' = AskedToCancel t.2 :: h)).
      - apply yields_call; [done|]. intros r. split; [|done]. intros e [= <-]. by split; [rewrite Hcl|].
      - intros _ h' Hh' ->. apply yields_call; [done|]. intros r. split; [|done]. intros e [= <-].
        split; [done|]. apply Ht. by left. }
    intros [] h' Hh' ->. eapply ensures_weaken; [|apply IH; [done| |done]].
    + intros [] h' _ (h2 & -> & Hs & Hc & Hall). exists (h2 ++ [Cancelled t; AskedToCancel t.2]).
      rewrite <- app_assoc. split_and!; [done..|]. intros t' [-> |Hin]%elem_of_cons.
      * split; apply elem_of_app; right; [left|right; left].
      * destruct (Hall t' Hin). split; apply elem_of_app; by left.
    + intros t' Hin. apply Ht. by right.
Qed.

Lemma yields_joined tasks h :
  claimed h = None -> supervised h = list_to_set_disj tasks -> lawful h ->
  yields (fun _ h' => exists h2, h' = h2 ++ h /\ supervised h' = ∅ /\ forall t, t ∈ tasks -> Joined t ∈ h2)
    (each (fun task : Task => _ ← ask (Daemon.Join task); mret tt : mainio unit) tasks) h.
Proof.
  revert h. induction tasks as [|t tasks IH]; intros h Hcl Hs Hh; cbn [each].
  - apply yields_ret; [done|]. exists []. split_and!; [done..|]. by intros t ?%not_elem_of_nil.
  - eapply (daemon_bind (fun _ h' => h' = Joined t :: h)).
    { eapply (daemon_bind (fun _ h' => h' = Joined t :: h)).
      - apply yields_call; [done|]. intros r. split; [|done]. intros e [= <-]. split; [by rewrite Hcl|].
        rewrite Hs, list_to_set_disj_cons. multiset_solver.
      - intros _ h' Hh' ->. by apply yields_ret. }
    intros [] h' Hh' ->. eapply ensures_weaken; [|apply IH; [done| |done]].
    + intros [] h' _ (h2 & -> & He & Hall). exists (h2 ++ [Joined t]). rewrite <- app_assoc. split_and!; [done..|].
      intros t' [-> |Hin]%elem_of_cons; apply elem_of_app; [right; left|left; by apply Hall].
    + simpl. rewrite Hs, list_to_set_disj_cons. multiset_solver.
Qed.

Lemma yields_shut_down c h : agrees c h -> lawful (ToldToStop :: h) ->
  yields (fun _ => drained) (shut_down c) (ToldToStop :: h).
Proof.
  intros [Hcl Hpl Hrg Hts Hco Hu Hwk] Hh. unfold shut_down.
  assert (forall t, t ∈ Control.tasks c -> t ∈ supervised h) as Hin by (intros t Ht; by rewrite Hts, elem_of_list_to_set_disj).
  eapply (daemon_bind (fun _ h' => exists h2, h' = h2 ++ ToldToStop :: h /\ supervised h' = supervised h /\ claimed h' = None /\
      forall t, t ∈ Control.tasks c -> Cancelled t ∈ h2 /\ AskedToCancel t.2 ∈ h2)).
  { destruct (Control.plane c) as [p|]; [by apply (yields_told _ (ToldToStop :: h))|]. rewrite Hu by done. apply yields_ret; [done|].
    exists []. split_and!; [done..|]. by intros t ?%not_elem_of_nil. }
  intros [] h1 Hh1 (h2 & -> & Hs & Hc & Hall). eapply ensures_weaken; [|apply yields_joined; [done| |done]; by rewrite Hs].
  intros [] h3 _ (h4 & -> & He & Hj). exists h, (h4 ++ h2). rewrite <- app_assoc. split_and!; [done..|].
  intros t Ht. rewrite Hts, elem_of_list_to_set_disj in Ht. destruct (Hall t Ht). rewrite !elem_of_app. auto.
Qed.

Lemma yields_control_loop fuel policy c h : agrees c h -> lawful h ->
  yields (fun stopped h' => stopped = true -> drained h') (control_loop os arch lossy utf8_error cli fuel policy c) h.
Proof.
  revert c h. induction fuel as [|fuel IH]; intros c h Ha Hh; cbn [control_loop]; [by apply yields_ret|].
  eapply daemon_bind; [by apply yields_turn|]. intros c1 h1 Hh1 Ha1.
  eapply (daemon_bind (fun r h2 => h2 = recorded (record_of Daemon.SleepOrSignal r) h1)).
  { apply yields_call; [done|]. intros r. split; [|done]. intros e He. destruct r as [[[]|]|]; simplify_eq/=.
    split; [|done]. by rewrite (agrees_claimed _ _ Ha1). }
  intros [[[]|e]|] h2 Hh2 ->; simpl recorded.
  - apply yields_known; [done|]. intros [] _. eapply daemon_bind; [by apply yields_shut_down|].
    intros [] h3 Hh3 Hd. by apply yields_ret.
  - apply yields_known; [done|]. by intros [].
  - by apply IH.
Qed.

Lemma yields_main fuel :
  yields (fun stopped h' => stopped = true -> drained h') (main os arch lossy utf8_error cli fuel) [].
Proof.
  unfold main. apply yields_known; [done|]. intros [] _.
  eapply yields_unrecorded; [apply quiet_prepare|apply prepare_ends|done|]. intros prepared Hp.
  apply (daemon_bind (fun wp h => h = [] /\ truthful wp.2 wp.1 /\ forall p, wp.2 = Some p -> constrained p)).
  { unfold advertisement_from_preparation. destruct prepared as [[proof plane]|failure].
    - destruct (Hp proof plane eq_refl) as [Hc Hb].
      apply yields_advert_bind with (Some plane); [done|by intros ? [= <-]; exists plane|]. intros w Hw.
      apply yields_ret; [done|]. split_and!; [done..|]. by intros p [= <-].
    - apply yields_advert_bind with None; [done|done|]. intros w Hw. by apply yields_ret. }
  intros [worker plane] h Hh (-> & Hw & Hc). simpl in Hw, Hc. unfold run_control_loop.
  apply yields_known; [done|]. intros policy _. eapply daemon_bind; [by apply yields_start|].
  intros c h1 Hh1 Ha. by apply yields_control_loop.
Qed.
End Proofs.

(** ** Theorems *)

(** C10: A daemon acts only as far as it is entitled to, in every run and
    wherever it is cut off, whatever the host, the stores and the controller
    answer.  It takes a preparation into use only when the flags allow every part
    of it (a Linux host with LVM, the constrained Docker endpoint, no egress, no
    root agent and no relaxed hardening unless asked for, one agent user for
    runtime and harness), and only while it supervises no task; claims an
    execution only in its own name, while the controller's last answer accepted
    it and fewer tasks run than its concurrency, and spawns exactly what it
    claimed; advertises capacity only with a complete proof of the plane in use;
    sends its token to the controller's two addresses only, registering whenever
    it is not accepted; and runs one collector at a time.  Told to stop, it has
    asked for the cancellation of every task it ran and waited for it. *)
Theorem daemon_keeps_to_authority os arch lossy utf8_error cli fuel tr r h :
  exec daemon_sem quiet (main os arch lossy utf8_error cli fuel) [] tr r h ->
  lawful os cli h /\ (r = Some (Ok true) -> drained h).
Proof.
  intros He.
  assert (ensures (E := string) daemon_sem quiet (keeps_law os cli) (lawful os cli)
    (fun stopped h' => stopped = true -> drained h') (main os arch lossy utf8_error cli fuel) []) as Hm.
  { destruct (validate_cli cli) as [[]|e] eqn:Hv; [by apply yields_main|]. unfold main. rewrite Hv.
    by intros h' ->%rtc_quiet. }
  destruct (chl_exec _ _ _ _ _ _ _ _ _ He Hm) as [Ht Hr]. split.
  - by eapply exec_keeps; [exact He|intros s1 s2 []|exact Ht|].
  - intros Hs. destruct (Hr _ Hs) as [_ Hd]. by apply (Hd true).
Qed.

(** ** A worker whose registration is gone

    The clock, the database, the requests the controller was sent, and whether
    the worker has been disturbed: a reconcile tick that took a second, or someone
    else who registered it. *)
Module Outside.
Record Outside := { clock : Z; database : Database; requests : nat; disturbed : bool }.
End Outside.
Abbreviation Outside := Outside.Outside.
Import Outside.

Section Forgotten.
Context `{Collation} (os arch : string) (lossy utf8_error : string -> string) (cli : Cli).

Definition registered_in (w : Outside) : bool := bool_decide (is_Some (workers (database w) !! Cli.worker_id cli)).

Definition reserved_answer (r : result StoreError (option Reservation)) : result string (option Execution) :=
  match r with
  | Ok (Some reservation) => Ok (Some (Reservation.execution reservation))
  | Ok None => Ok None
  | Err e => Err (store_error_text e)
  end.

(** Polls ask the database; the rest is left open, and [disturbed] says what
    happened. *)
Definition outside_sem (B : Type) (c : main_call B) (w : Outside) : B -> Outside -> Prop :=
  let newly w' := registered_in w' && negb (registered_in w) in
  match c in Daemon.main_call B return B -> Outside -> Prop with
  | Daemon.InstantNow => fun t w' => t = clock w /\ w' = w
  | Daemon.ReserveNext worker => fun r w' => clock w <= clock w' /\ requests w' = requests w /\
      disturbed w' = disturbed w /\
      exists now locked uuid, let out := reserve_next now locked uuid worker (database w) in
        r = reserved_answer out.1 /\ database w' = out.2
  | Daemon.Post _ _ _ => fun _ w' =>
      clock w <= clock w' /\ requests w' = S (requests w) /\ disturbed w' = disturbed w
  | Daemon.ReconcileTick _ _ => fun _ w' => clock w <= clock w' /\ requests w' = requests w /\
      disturbed w' = disturbed w || (clock w + secs 1 <=? clock w') || newly w'
  | _ => fun _ w' => clock w <= clock w' /\ requests w' = requests w /\ disturbed w' = disturbed w || newly w'
  end.

Lemma reserve_next_forgotten now locked uuid db :
  workers db !! Cli.worker_id cli = None ->
  reserve_next now locked uuid (Cli.worker_id cli) db = (Err (StoreError.NotFound (Cli.worker_id cli)), db).
Proof. intros Hn. unfold reserve_next, transaction. simpl. unfold mbind, stm_bind, gets. simpl. by rewrite Hn. Qed.

(** Undisturbed and without a row. *)
Definition calm (w : Outside) : Prop := disturbed w = false /\ registered_in w = false.

Lemma calm_row w : calm w -> workers (database w) !! Cli.worker_id cli = None.
Proof. intros [_ Hr%bool_decide_eq_false]. by apply eq_None_not_Some. Qed.

Definition no_request (w w' : Outside) : Prop := disturbed w' = false -> requests w' = requests w.
Definition still (w w' : Outside) : Prop := w' = w.
Definition unheard (w : Outside) : Prop := disturbed w = false -> calm w.

#[local] Instance outside_rely : Rely outside_sem quiet no_request still (fun _ _ => False).
Proof. by split. Qed.

(** What holds until the worker is disturbed. *)
Definition yields {A} (R : A -> Outside -> Prop) (m : mainio A) (w : Outside) : Prop :=
  ensures (E := string) outside_sem quiet no_request unheard (fun a w' => disturbed w' = false -> R a w') m w.

Lemma disturbed_stays B (c : main_call B) w b w' : outside_sem B c w b w' -> disturbed w = true -> disturbed w' = true.
Proof.
  intros Hs Hd. destruct c; simpl in Hs; destruct_and?; subst; try done;
    match goal with Hx : disturbed w' = _ |- _ => rewrite Hx, Hd; done end.
Qed.

Lemma yields_disturbed {A} (R : A -> Outside -> Prop) (m : mainio A) w : disturbed w = true -> yields R m w.
Proof.
  unfold yields, ensures. revert w. induction m as [r|B c k IH]; simpl; intros w Hd w1 ->%rtc_quiet.
  - split; [intros Hf; congruence|]. intros a _ Hf. congruence.
  - intros b w2 Hs. assert (disturbed w2 = true) as H2 by by eapply disturbed_stays.
    split; [intros Hf; congruence|by apply IH].
Qed.

Lemma forgotten_call {A} (c : main_call A) (R : A -> Outside -> Prop) w :
  calm w ->
  (forall a w', outside_sem A c w a w' -> disturbed w' = false ->
     requests w' = requests w /\ registered_in w' = false /\ R a w') -> yields R (ask c) w.
Proof.
  intros Hw Hc. apply (ensures_change (rely := still) (P := fun _ _ => False) unheard (fun w1 => w1 = w)).
  1,2: by intros ?? ->.
  - by intros a ?? ->.
  - done.
  - intros w1 a w2 -> Hs. unfold no_request, unheard. specialize (Hc a w2 Hs).
    split_and!; intros Hd; destruct (Hc Hd) as (H1 & H2 & H3); [done|by split|done].
Qed.

Lemma forgotten_bind {A B} (R : A -> Outside -> Prop) (R' : B -> Outside -> Prop) m (f : A -> mainio B) w :
  yields R m w -> (forall a w', calm w' -> R a w' -> yields R' (f a) w') -> yields R' (m ≫= f) w.
Proof.
  intros Hm Hf. eapply (ensures_bind (rely := still)); [by intros ?? ->|exact Hm|]. intros a w' Hw' HR.
  destruct (disturbed w') eqn:Hd; [by apply yields_disturbed|]. by apply Hf; auto.
Qed.

Lemma forgotten_ret {A} (R : A -> Outside -> Prop) (a : A) w : calm w -> R a w -> yields R (mret a) w.
Proof. intros Hw Ha. apply (ensures_ret (rely := still)); [by intros ?? ->..|by intros _|by intros _]. Qed.

(** A call that neither asks the controller nor takes time that matters. *)
Lemma passing {A} (c : main_call A) w :
  calm w ->
  (forall a w', outside_sem A c w a w' ->
     requests w' = requests w /\ (disturbed w' = false -> registered_in w' = false)) ->
  yields (fun _ _ => True) (ask c) w.
Proof. intros Hw Hc. apply forgotten_call; [done|]. intros a w' Hs Hd. destruct (Hc a w' Hs). auto. Qed.

Lemma newly_none w w' (b : bool) :
  calm w -> disturbed w' = disturbed w || b || (registered_in w' && negb (registered_in w)) ->
  disturbed w' = false -> b = false /\ registered_in w' = false.
Proof. intros [Hd Hr] He Hf. rewrite Hd, Hr, Hf in He. by destruct b, (registered_in w'). Qed.

Ltac passing :=
  apply passing; [done|]; intros ? ? Hs; simpl in Hs; destruct Hs as (_ & ? & He); split; [done|];
  intros Hf; by eapply (newly_none _ _ false); [|rewrite orb_false_r; exact He|].

(** The locals of a worker that thinks it is registered and has a slot free. *)
Definition idle_slot (c : Control) : Prop :=
  is_Some (Control.plane c) /\ Control.registered c = true /\
  (length (Control.tasks c) < Z.to_nat (Cli.concurrency cli))%nat /\ secs 1 <= Control.backoff c /\
  WorkerAdvertisement.id (Control.worker c) = Cli.worker_id cli.

Lemma reap_shrinks index ts w :
  (index <= length ts)%nat -> calm w -> yields (fun ts' _ => (length ts' <= length ts)%nat) (reap index ts) w.
Proof.
  revert ts w. induction index as [|index IH]; intros ts w Hi Hw; cbn [reap]; [by apply forgotten_ret|].
  destruct (lookup_lt_is_Some_2 ts index) as [t Ht]; [lia|]. rewrite Ht.
  pose proof (Permutation_length (swap_remove_spec index t ts Ht)) as Hlen. simpl in Hlen.
  apply (forgotten_bind (fun t' _ => t' = t)); [by apply forgotten_ret|]. intros t' w0 Hw0 ->.
  apply (forgotten_bind (fun _ _ => True)); [passing|].
  intros [|] w1 Hw1 _; cbv beta iota; [|by apply IH; [lia|]].
  apply (forgotten_bind (fun _ _ => True)); [passing|].
  intros _ w2 Hw2 _. eapply ensures_weaken; [|apply IH; [lia|done]]. intros ts' w3 _ Hts Hf. specialize (Hts Hf). simpl in Hts. lia.
Qed.

Lemma forgotten_turn policy c w :
  idle_slot c -> calm w -> yields (fun c' _ => idle_slot c') (turn os arch lossy utf8_error cli policy c) w.
Proof.
  intros ([p Hp] & Hr & Hl & Hb & Hid) Hw. unfold turn.
  apply (forgotten_bind (fun c' _ => c' = c)); [unfold prepare_if_due; rewrite Hp; by apply forgotten_ret|].
  intros c1 w1 Hw1 ->. eapply forgotten_bind; [by apply reap_shrinks|]. intros ts w2 Hw2 Hts. simpl in Hts.
  apply (forgotten_bind (fun c' w' => idle_slot c' /\ clock w' + secs 1 <= Control.heartbeat_due c')).
  { unfold claim. simpl. rewrite Hp, Hr. destruct (Z.to_nat (Cli.concurrency cli) - length ts)%nat as [|free] eqn:Hf; [lia|].
    cbn [claim_slots]. apply (forgotten_bind (fun r _ => exists e, r = Err e)).
    { apply forgotten_call; [done|]. intros r w' (_ & Hreq & _ & now & locked & uuid & -> & Hdb) _. simpl in Hdb |- *.
      rewrite Hid in Hdb |- *. rewrite (reserve_next_forgotten now locked uuid _ (calm_row _ Hw2)) in Hdb |- *.
      split_and!; [done|unfold registered_in; rewrite Hdb; apply Hw2|by eexists]. }
    intros r w3 Hw3 [e ->]. apply (forgotten_bind (fun t w' => t = clock w')).
    { apply forgotten_call; [done|]. intros t w' [-> ->] _. by split_and!; [|apply Hw3|]. }
    intros t w4 Hw4 ->. apply forgotten_ret; [done|]. unfold secs in *. split; [|simpl; lia].
    split_and!; simpl; [by eexists|done|lia|unfold secs in *; lia|done]. }
  intros c2 w3 Hw3 [Hi Hdue]. apply (forgotten_bind (fun _ w' => clock w' < Control.heartbeat_due c2)).
  { unfold reconcile. destruct Hi as ([p2 ->] & _).
    apply (forgotten_bind (fun _ w' => clock w' < Control.heartbeat_due c2)); [|by intros a w' Hw' ?; apply forgotten_ret].
    apply forgotten_call; [done|]. intros a w' (Hc & Hreq & He) Hf.
    destruct (newly_none _ _ _ Hw3 He Hf) as [Hlate%Z.leb_gt Hn]. split_and!; [done|done|lia]. }
  intros [] w4 Hw4 Hlt. unfold beat. apply (forgotten_bind (fun t _ => t < Control.heartbeat_due c2)).
  { apply forgotten_call; [done|]. intros t w' [-> ->] _. by split_and!; [|apply Hw4|]. }
  intros t w5 Hw5 Ht. destruct (Z.leb_spec (Control.heartbeat_due c2) t); [lia|]. by apply forgotten_ret.
Qed.

Lemma forgotten_each {A} (f : A -> mainio unit) l w :
  (forall x w, calm w -> yields (fun _ _ => True) (f x) w) -> calm w ->
  yields (fun _ _ => True) (each f l) w.
Proof.
  intros Hf. revert w. induction l as [|x l IH]; intros w Hw; cbn [each]; [by apply forgotten_ret|].
  eapply forgotten_bind; [by apply Hf|]. intros [] w' Hw' _. by apply IH.
Qed.

Lemma forgotten_shut_down c w : calm w -> yields (fun _ _ => True) (shut_down c) w.
Proof.
  intros Hw. unfold shut_down. eapply forgotten_bind.
  - apply forgotten_each; [|done]. intros t w1 Hw1. destruct (Control.plane c); [|by apply forgotten_ret].
    eapply forgotten_bind; [passing|]. intros r w2 Hw2 _.
    passing.
  - intros [] w1 Hw1 _. apply forgotten_each; [|done]. intros t w2 Hw2.
    eapply forgotten_bind; [passing|]. intros r w3 Hw3 _. by apply forgotten_ret.
Qed.

Lemma forgotten_loop fuel policy c w :
  idle_slot c -> calm w -> yields (fun _ _ => True) (control_loop os arch lossy utf8_error cli fuel policy c) w.
Proof.
  revert c w. induction fuel as [|fuel IH]; intros c w Hc Hw; cbn [control_loop]; [by apply forgotten_ret|].
  eapply forgotten_bind; [by apply forgotten_turn|]. intros c1 w1 Hw1 Hc1.
  eapply forgotten_bind; [passing|]. intros [[[]|e]|] w2 Hw2 _.
  - change (yields (fun _ _ => True) (_ ← shut_down c1; mret true) w2).
    eapply forgotten_bind; [by apply forgotten_shut_down|]. intros [] w3 Hw3 _. by apply forgotten_ret.
  - apply (ensures_throw (rely := still)); [by intros ?? ->|by intros _].
  - by apply IH.
Qed.

Lemma disturbed_run {A} (p : proc main_call A) w tr r w' :
  exec outside_sem quiet p w tr r w' -> disturbed w = true -> disturbed w' = true.
Proof.
  induction 1 as [| |p s s1 tr r s' []|B c k b s s1 tr r s' Hs _ IH]; [done..|]. intros Hd. by eapply IH, disturbed_stays.
Qed.

Lemma quiet_requests {A} (p : proc main_call A) w tr r w' :
  exec outside_sem quiet p w tr r w' -> Forall (fun x => no_request x.1 x.2) tr ->
  disturbed w' = false -> requests w' = requests w.
Proof.
  induction 1 as [| |p s s1 tr r s' []|B c k b s s1 tr r s' Hs He IH]; [done..|]. intros [Hn Ht]%Forall_cons Hf.
  rewrite (IH Ht Hf). apply Hn. simpl. apply not_true_is_false. intros Hd.
  by rewrite (disturbed_run _ _ _ _ _ He Hd) in Hf.
Qed.

(** C11: A worker the controller has forgotten, that thinks it is registered and
    has a slot free, does not hear of it while its reconcile ticks take less than
    a second and nobody else registers it.  The poll for executions fails in every
    pass, for want of the worker's row, and each failure puts the next heartbeat
    off; so however long the loop runs, no request goes out, and with none the
    answer 404 that would make the worker register again never comes. *)
Theorem forgotten_worker_stays_silent fuel policy c w tr r w' :
  idle_slot c -> workers (database w) !! Cli.worker_id cli = None ->
  exec outside_sem quiet (control_loop os arch lossy utf8_error cli fuel policy c) w tr r w' ->
  disturbed w' = false -> requests w' = requests w.
Proof.
  intros Hc Hrow He. destruct (disturbed w) eqn:Hd.
  { intros Hf. by rewrite (disturbed_run _ _ _ _ _ He Hd) in Hf. }
  assert (calm w) as Hw by (split; [done|]; by apply bool_decide_eq_false, eq_None_not_Some).
  destruct (chl_exec _ _ _ _ _ _ _ _ _ He (forgotten_loop fuel policy c w Hc Hw)) as [Ht _].
  by eapply quiet_requests.
Qed.
End Forgotten.

(** ** A daemon to compute with *)
Definition ex_cli : Cli := {|
  Cli.controller := "http://127.0.0.1:8420/"; Cli.worker_id := "w-1"; Cli.worker_token := "token"; Cli.concurrency := 2;
  Cli.memory_mib := 1024; Cli.disk_gib := 20; Cli.storage_kind := Lvm; Cli.storage_pool := "vg0";
  Cli.docker_verifier_image := "sha256:" +:+ ex_digest; Cli.docker_verifier_command := "/usr/bin/stat";
  Cli.docker_binary := "docker"; Cli.database_url := "postgres://db"; Cli.state_root := "/var/lib/a";
  Cli.disk_warn_percent := 80; Cli.disk_stop_percent := 90; Cli.disk_reserve_gib := 0; Cli.toolchains := [("rust", "1.86.0")]%string;
  Cli.build_cache_root := None; Cli.build_cache_max_gib := 40; Cli.relax_container_hardening := false;
  Cli.agent_user := "1000:1000"; Cli.allow_root_agent := false; Cli.inference_upstream := Some "gateway:8080"%string;
  Cli.inference_relay_image := Some "relay"%string; Cli.inference_relay_port := 8080; Cli.allow_agent_egress := false;
  Cli.clone_base := "https://github.com"; Cli.docker_socket := Some "tcp://127.0.0.1:2375"%string; Cli.docker_proxy_port := 2375;
  Cli.host_docker := true; Cli.pi_executable := "pi"; Cli.allow_untested_pi_version := false;
  Cli.allow_local_development_credentials := true |}.

(** A host where everything works, one execution is waiting, and the operator
    stops the worker once it runs. *)
Definition ex_answer (B : Type) (c : main_call B) (h : list event) : B :=
  match c in Daemon.main_call B return B with
  | Daemon.InstantNow => 0
  | Daemon.AvailableParallelism => Some 8
  | Daemon.RunCommand _ _ args =>
      Ok {| CliOutput.success := true; CliOutput.stderr := "";
            CliOutput.stdout := match args with "image"%string :: _ => Cli.docker_verifier_image ex_cli | _ => "daemon" end |}
  | Daemon.Canonicalize p => Ok p
  | Daemon.Connect _ _ => Ok tt
  | Daemon.OfStorage c => (steady _ c empty_world).1
  | Daemon.OpenStorage _ | Daemon.OpenApfs _ => Ok tt
  | Daemon.OfCredentials c => (disk _ c ex_dir).1
  | Daemon.ReconcileStartup _ _ => Ok []
  | Daemon.ReserveNext _ => Ok (if bool_decide (supervised h = ∅) then Some run_execution else None)
  | Daemon.Spawn execution => (1, Execution.id execution)
  | Daemon.IsFinished _ => false
  | Daemon.Join _ | Daemon.ReconcileTick _ _ | Daemon.RequestCancellation _ => Ok tt
  | Daemon.Cancel _ | Daemon.StartCollector => tt
  | Daemon.Post _ _ _ => Ok 200
  | Daemon.SampleDisk _ => Err "unavailable"%string
  | Daemon.CollectorFinished => true
  | Daemon.SleepOrSignal => if bool_decide (supervised h = ∅) then None else Some (Ok tt)
  end.
Definition ex_daemon (B : Type) (c : main_call B) (h : list event) : B * list event :=
  (ex_answer B c h, recorded (record_of c (ex_answer B c h)) h).

Definition ex_text (s : string) : string := s.
Abbreviation ex_main := (main "linux" "x86_64" ex_text ex_text ex_cli 5).
Definition ex_history : list event := (run ex_daemon ex_main []).2.

(** It registers, claims the execution, and on the signal cancels its task and
    waits for it. *)
Lemma daemon_keeps_to_authority_witness :
  List.length ex_history = 9%nat /\ lawful "linux" ex_cli ex_history /\ drained ex_history.
Proof.
  split; [by vm_compute|].
  destruct (run_exec ex_daemon daemon_sem quiet ex_main []) as [tr He]; [done|].
  assert ((run ex_daemon ex_main []).1 = Ok true) as Hr by by vm_compute. rewrite Hr in He.
  destruct (daemon_keeps_to_authority "linux" "x86_64" ex_text ex_text ex_cli 5 tr (Some (Ok true)) ex_history He) as [Hl Hd].
  split; [exact Hl|exact (Hd eq_refl)].
Defined.

(** A quiet second between passes; the database does not know the worker. *)
Definition ex_forgotten (B : Type) (c : main_call B) (w : Outside) : B * Outside :=
  match c in Daemon.main_call B return B * Outside with
  | Daemon.InstantNow => (clock w, w)
  | Daemon.ReserveNext worker =>
      let out := reserve_next run_clock (fun _ => false) "uuid" worker (database w) in
      (reserved_answer out.1, {| clock := clock w; database := out.2; requests := requests w; disturbed := disturbed w |})
  | Daemon.Post _ _ _ => (Ok 404, {| clock := clock w; database := database w; requests := S (requests w); disturbed := disturbed w |})
  | Daemon.SleepOrSignal => (None, {| clock := clock w + secs 1; database := database w; requests := requests w; disturbed := disturbed w |})
  | c => (ex_answer _ c [], w)
  end.

Lemma ex_forgotten_sem B (c : main_call B) w : outside_sem ex_cli B c w (ex_forgotten B c w).1 (ex_forgotten B c w).2.
Proof.
  assert (0 < secs 1) by done.
  destruct c; simpl; split_and!; try done; try lia; rewrite ?andb_negb_r, ?orb_false_r; try done.
  - by exists run_clock, (fun _ => false), "uuid"%string.
  - destruct (Z.leb_spec (clock w + secs 1) (clock w)); [lia|by rewrite orb_false_r].
Qed.

Definition ex_trusted : TrustedVerifierImage :=
  {| TrustedVerifierImage.image_id := Cli.docker_verifier_image ex_cli; TrustedVerifierImage.stat_command := "/usr/bin/stat" |}.
Definition ex_plane : Plane := {|
  Plane.lifecycle := {| System.state_root := "/var/lib/a";
    manager := GitWorktreeManager.with_clone_base_and_verifier "/var/lib/a" "https://github.com";
    runtimes := RuntimeFactory.new (Cli.docker_socket ex_cli) "docker" ex_trusted;
    harnesses := HarnessFactory.new (Cli.docker_socket ex_cli) "docker" "pi" [] []; evidence := ContentAddressed "/var/lib/a" |};
  Plane.verifier := {|
    DockerCapabilityVerifier.docker := "docker"; DockerCapabilityVerifier.docker_host := Cli.docker_socket ex_cli;
    DockerCapabilityVerifier.daemon_id := "daemon"; DockerCapabilityVerifier.verifier_image := Cli.docker_verifier_image ex_cli;
    DockerCapabilityVerifier.verifier_command := "/usr/bin/stat";
    DockerCapabilityVerifier.method_version := TrustedVerifierImage.proof_method ex_trusted;
    DockerCapabilityVerifier.worker_id := "w-1" |};
  Plane.broker := {| Credentials.state_root := "/var/lib/a"; ttl := secs 900 |} |}.
Definition ex_advertised : WorkerAdvertisement := {|
  WorkerAdvertisement.id := "w-1";
  WorkerAdvertisement.capabilities := {|
    WorkerCapabilities.os := "linux"; WorkerCapabilities.arch := "x86_64"; WorkerCapabilities.cpu := 8;
    WorkerCapabilities.memory_mib := 1024; WorkerCapabilities.disk_gib := 20; WorkerCapabilities.runtimes := [RuntimeKind.Docker];
    WorkerCapabilities.capabilities := ["docker"]%string; WorkerCapabilities.toolchains := ∅;
    WorkerCapabilities.max_concurrent_executions := 2; WorkerCapabilities.health_errors := [] |};
  WorkerAdvertisement.capability_proof := None |}.
Definition ex_control : Control := {|
  Control.worker := ex_advertised; Control.plane := Some ex_plane; Control.registered := true; Control.backoff := secs 1;
  Control.heartbeat_due := 0; Control.retry := secs 1; Control.preparation_due := 0; Control.tasks := [];
  Control.collecting := false |}.
Definition ex_policy : DiskPolicy := {|
  DiskPolicy.warn_percent := 80; DiskPolicy.stop_percent := 90; DiskPolicy.reserve_bytes := 0 |}.
Definition ex_outside : Outside := {| clock := 0; database := empty_database; requests := 0; disturbed := false |}.

(** Two minutes of passes, the heartbeat due from the first: nothing is sent. *)
Lemma forgotten_worker_stays_silent_witness :
  clock (run ex_forgotten (control_loop "linux" "x86_64" ex_text ex_text ex_cli 120 ex_policy ex_control) ex_outside).2 = secs 120 /\
  requests (run ex_forgotten (control_loop "linux" "x86_64" ex_text ex_text ex_cli 120 ex_policy ex_control) ex_outside).2 = 0%nat.
Proof.
  split; [by vm_compute|].
  destruct (run_exec ex_forgotten (outside_sem ex_cli) quiet
    (control_loop "linux" "x86_64" ex_text ex_text ex_cli 120 ex_policy ex_control) ex_outside ex_forgotten_sem) as [tr He].
  refine (forgotten_worker_stays_silent "linux" "x86_64" ex_text ex_text ex_cli 120 ex_policy ex_control ex_outside tr _ _ _ _ He _).
  - split_and!; [by eexists|done|simpl; lia|done|done].
  - done.
  - by vm_compute.
Defined.
